(* ===== verification/_CoqProject ===== *)
-Q . S2P
Prelude.v
Bytes.v
Wire.v
VmmContract.v
VmmPlatform.v
VmmLedger.v
VmmMachine.v
VmmLifecycle.v
VmmProperties.v
VmmControl.v
JailManifest.v
Seccomp.v
VmmWorker.v
GuestMemory.v
QueueChain.v
Virtqueue.v
VirtqueueFacts.v
Transport.v
TransportFacts.v
TransportProps.v
Segments.v
Service.v
Rng.v
Block.v
BlockFacts.v
BlockProps.v
Net.v
NetProps.v
VsockStream.v
Vsock.v
VsockFacts.v
VsockProps.v
VsockRx.v
Bus.v
BusRestore.v
BusProps.v
SeccompProps.v
NetdAddr.v
NetdAddrProps.v
NetPolicy.v
NetPolicyProps.v
NetIntent.v
NetIntentProps.v
IpText.v
Portable.v
Fingerprint.v
FingerprintProps.v
Evidence.v
EngineState.v
Engine.v
EngineSteps.v
EngineOnce.v
EngineReplay.v
EngineRun.v
HostAdmission.v
HostAdmissionFacts.v
HostAdmissionProps.v
HostState.v
HostStateFacts.v
HostLedger.v
HostLedgerFacts.v
HostPool.v
HostClaim.v
HostTransfer.v
HostWorld.v
HostPoolFacts.v
HostClaimProps.v
HostSync.v
HostPoolInv.v
HostTenancy.v
HostPoolProps.v
HostPoison.v
HostReplenish.v
HostRuntime.v
HostRuntimeProps.v
HostDestroy.v
GuestApp.v
GuestAppProps.v
GuestSession.v
GuestControl.v
