(* ===== verification/Prelude.v ===== *)
(** * Verification of the SOMA machine monitor

    SOMA runs untrusted guests in small virtual machines.  This library models the parts of
    it that decide: the portable engine of [crates/soma] with its requests, fingerprints,
    receipts and durable records, the Machine contract and lifecycle of [crates/soma-vmm],
    the jail's manifest, report and system call filter of [crates/soma-jail], the virtio
    stack of [crates/soma-kvm/src/virtio], the admission, the worker pool and the Instances
    of a host in [crates/soma-hostd], and the addresses and intents of the network broker
    in [crates/soma-netd], and proves them correct.

    ** How the program fits together

    A client asks the engine to run one command in a fresh machine, or to launch, execute,
    stop, destroy and inspect a machine it manages.  The engine resolves the image, names
    every request by a fingerprint, calls a backend, checks what it observed, and commits
    each step of a managed machine to a store of records before it acts on it, so that any
    engine over the same store can tell what happened.

    A supervisor sends request packets to a jailed worker ([soma-vmm], the binary).  The
    worker proves its jail with an attestation report, then decodes requests and performs
    them.  The Machine (the library of the same crate) performs Launch, Execute and Stop
    over a [Platform], keeps a ledger of what it did so that a repeated request is answered
    from its receipt, and hands out tokens only for progress that was observed.  The
    monitor proper gives the guest virtio devices: the guest writes registers and rings in
    its own memory, the transport validates them, a service pass pops descriptor chains and
    gives them to a device, and everything the guest wrote is hostile.  On each host a
    daemon keeps a pool of jailed workers built ahead of time: it admits Instances against
    a certified profile, claims a worker for an operation, transfers the Instance's
    authority to it, starts, releases and evicts workers, and writes every change to a
    ledger from which it recovers after a crash.  The network broker turns the network
    policy of a request into an intent its profile allows and leases addresses for it.

    ** Files and the code they model

    - [Prelude]: results, the state-and-error monad, machine integers, tactics and hints.
      [Bytes]: little-endian integers, text, decimal and hexadecimal numbers.
    - [VmmContract] (ids.rs, spec.rs, request/, receipt.rs, error.rs): the contract types
      and their validating constructors.  [VmmPlatform] (platform/): progress traces, the
      tokens built from them, the [Platform] trait as a class and the shipped adapter.
      [VmmLedger] (operation.rs): receipts, replay, conflicts, capacity.  [VmmMachine]
      (machine/): the three requests.  [VmmLifecycle], [VmmProperties]: their theorems.
    - [VmmControl] (control/): the packets on the socket.  [JailManifest]
      (soma-jail manifest.rs, report.rs): descriptor manifest and attestation report.
      [VmmWorker] (bin/soma-vmm/): admission, the session loop and its exit statuses, under
      the filters of [Seccomp], which kill a sealed worker that attests or seals again.
    - [GuestMemory] (virtio/guest_memory.rs), [QueueChain] (queue/chain.rs), [Virtqueue]
      and [VirtqueueFacts] (queue.rs, queue/layout.rs, violation.rs, state.rs): bounded
      guest memory, the walk over a hostile descriptor table, and one split virtqueue.
    - [Transport], [TransportFacts], [TransportProps] (device.rs, transport.rs,
      transport/): the register file, the status lifecycle, feature negotiation, queue
      configuration, completion, snapshot and restore, over any device.
    - [Segments], [Service] (devices/segments.rs, devices/service.rs): copies between a
      chain and a host buffer, and the bounded service pass over any device.
    - [Rng] (devices/rng.rs, rng/), [VsockStream], [Vsock], [VsockFacts], [VsockProps],
      [VsockRx] (devices/vsock.rs, vsock/): the entropy and the socket device.
    - [Block], [BlockFacts], [BlockProps] (devices/block.rs, block/), [Net],
      [NetProps] (devices/net.rs, net/): the block device over its file, memory and
      detached stores, and the network device over its TAP and loopback endpoints.
    - [Bus], [BusRestore], [BusProps] (bus.rs, bus/, x86_64/sandbox/restored.rs
      and network.rs): the slot table, dispatch and service by slot over the five devices,
      slot records and restore, and the assignment of an Instance's resources.
    - [HostAdmission], [HostAdmissionFacts], [HostAdmissionProps] (soma-hostd admission/):
      shapes, profiles, demands, the gates, reservations and the capacity estimate.
    - [HostState], [HostStateFacts] (ids.rs, pool/state.rs, state/typestate.rs): the packed
      state word of a slot and the handles typed by phase.  [HostLedger], [HostLedgerFacts]
      (pool/ledger.rs, ledger/): the record codec, the fold and the directory.
    - [HostPool] (pool.rs, backpressure.rs, inspect.rs, capacity.rs, launcher.rs,
      resources.rs, release/), [HostClaim] (claim.rs, claim/, replenish.rs), [HostTransfer]
      (transfer.rs, transfer/, release.rs, reconcile.rs): the pool and its operations, over
      a world of launchers, brokers, clocks and a file system whose appends may fail and leave
      nothing, a part or the whole of a record, and whose readings may fail.  [HostWorld]: a
      concrete one.
    - [HostPoolFacts], [HostClaimProps]: frames of the operations and the idempotency of
      claims.  [HostSync], [HostPoolInv], [HostTenancy] and [HostPoolProps]: the
      invariant that ties slots, holders and ledger together.  [HostReplenish], [HostPoison]: construction
      reaches its target; what one lost append, or one left whole, does.
    - [HostRuntime], [HostRuntimeProps], [HostDestroy] (instance.rs,
      instance/): the table of live Instances, its pages, Launch and Destroy.
    - [Wire]: big-endian integers, readers over bytes and codecs that are composed with the
      proof that they round-trip.  [IpText]: the text of addresses.
    - [Seccomp], [SeccompProps] (soma-jail seccomp/): the tables of system calls, the
      assembly of the two filters and the interpreter that runs them.
    - [NetPolicy], [NetPolicyProps] (soma request/network/): the network policy of a
      request.  [NetdAddr], [NetdAddrProps] (soma-netd ids.rs, cidr.rs, ipam.rs,
      protected.rs, profile.rs): prefixes, leases and profiles.  [NetIntent],
      [NetIntentProps] (intent.rs, intent/codec.rs): what the broker admits, and its codec.
    - [Portable] (soma identity.rs, machine_name.rs, request/): requests and their
      validation.  [Fingerprint], [FingerprintProps] (fingerprint.rs, fingerprint/): the
      canonical encodings.  [Evidence] (evidence/, output.rs, receipt.rs, receipt/):
      observations, cleanup evidence and receipts.
    - [EngineState] (state_store.rs, state_store/, engine/machine_state/): the store,
      durable machines, their records and the text of tombstones.
      [Engine] (backend/, the managed files of engine/): the managed operations as trees of calls to
      store and backend.  [EngineRun] (engine/run.rs and its parts): the one-shot run.
    - [EngineSteps]: any number of those programs over one store, interleaved and cut short
      anywhere, and a scripted history.  [EngineOnce]: every commit is legal given what the
      program read, so commands run once.  [EngineReplay]: what can be read again.
    - [GuestApp], [GuestAppProps] (soma-guest application/): commands, file and terminal
      requests, their outcomes and the framed messages of both peers.  [GuestSession]
      (binding.rs, record.rs, control/io.rs, control/channel.rs): the transcript, sealed
      records and the channel over a byte stream.  [GuestControl] (control/, secret/, activation.rs and
      the agent's filesystem/directory.rs): the guest and the host of a session.

    A struct is a [Record], an enum an [Inductive] with the same constructors, a method a
    function that returns the changed state.  A [Result] is [Result]; code that threads
    state and errors uses the monad [ST] of [Prelude], which keeps the state of a failed
    step, as [&mut self] does.  Integers are [Z] at their width with [wrapping_], [checked_]
    and [saturating_] operations written out; a byte is a [Z] below 256.  Where a debug
    assertion fails or a loop would not return, the model answers [None].

    ** Interfaces

    The traits are classes: [Platform], [GuestMemory], [VirtioDevice], [ChainHandler],
    [EntropyBackend],
    [BlockBackend], [HostFile], [NetBackend], [TapFile], [IrqSink], [NotifySource],
    [NumaPlacement], [PoolWorld],
    [Json],
    [NoiseTransport], [ControlIo].  What one side relies on is a second class of laws
    ([GuestMemoryLaws], [VirtioDeviceLaws], [ChainHandlerLaws], [EntropyBackendLaws],
    [BlockStoreLaws], [HostFileLaws], [NetBackendLaws], [TapFileLaws],
    [PlacementLaws], [DurableWorld],
    [JsonLaws],
    [NoiseLaws]):
    clients are proved against the laws; an implementation that is part of the sources is an
    instance, and of the others there is a concrete one in the witnesses.
    [GuestMemoryLaws] speaks of an abstract view, the registered regions and one byte per
    address, and the region-vector memory refines it.

    ** What is shown

    - The Machine refines an abstract lifecycle, for every platform and every sequence of
      requests; its ledger never trips an assertion, repeats answers exactly, refuses
      conflicts and stays within its bounds; evidence never exceeds what was observed.
    - The walk of any descriptor table ends and accepts exactly the well-formed chains;
      a queue keeps its invariant under every driver and device operation, pops heads in
      order, once, and publishes only its own elements.
    - The transport keeps the virtio lifecycle under every register access; rejected writes
      change what is stated and nothing else; locks hold; snapshots round-trip.
    - A copy through a chain equals a copy through one flat buffer.  A service pass ends
      within its budget with an exact account, for every device that keeps the handler
      laws, and the devices modelled keep them.
    - The entropy device writes exactly the source's bytes.  The socket device accepts
      exactly the valid packets, keeps its credit accounting exact, never overruns a window
      in either direction, keeps each stream in order and isolates its one connection.
    - The block device accepts exactly the valid requests, has exactly their effect on store
      and guest memory, reads back what was written and never changes an immutable root.
      The network device sends exactly the valid frames, and none while the link is down;
      delivery ends with an exact account.
    - On the bus every use reaches one slot at most and the whole device set keeps its
      invariant; a restore from records of any content yields a bus that satisfies it too,
      or fails; assigning an Instance's resources is all or nothing.
    - Admission keeps the committed usage equal to the usage of what is held and within
      every limit, and the estimate is the number of Instances the gates admit.
    - The slot word moves along its table whatever handles race, and a typed handle
      succeeds exactly in its phase.  The ledger directory refines an append-only list, its
      failures included; a ledger that folds tells of one legal life for every worker.
    - Over a ledger that never fails ([DurableWorld]), through any operations and restarts,
      every live worker has one holder and the ledger agrees with every slot; replenishing
      reaches its target; a Launch happens once, and a Destroy ends its worker and answers a
      complete receipt again.  Over any ledger, claims are idempotent whatever appends fail,
      but for an evicted binding while the ledger cannot be read; listing pages enumerate the
      Instances.
    - Engines that share a store execute a command at most once, after the record that opens
      it, and add nothing to a terminal machine; which records can be read again is stated
      exactly.  A run that asked for a launch ends with one cleanup.  A fingerprint names
      one request, up to a collision of the hash.
    - The filter programs decide every system call as their tables say, the second admits
      nothing the first refuses, and neither admits what is denied.
    - A network policy is canonical and coherent; an intent round-trips and grants only what
      the profile allows; the leases one allocator makes under one generation never
      share an address.
    - The messages of the guest protocol have one encoding each.  A session opens a prefix
      of what its peer sealed, over a transport that authenticates even old records again;
      a guest's session is a conversation, one request at a time
      and no operation twice; a command's outcome at the host is what the guest produced;
      the host's loops end, a failed exchange poisons the transport, and a secret is reported
      placed only when every step was confirmed.
    - Control packets, manifests and reports round-trip, and decoding is sound; the worker
      serves only once its jail is proved, and its session ends.
    - Several places where the code departs from its documentation are exhibited by theorems.

    ** Bounds and fuel

    The chain walk has fuel [queue_size + 1], one more than the distinct descriptors the
    visited bitmap admits, and is proved never to need more.  A service or delivery pass
    recurses on its own budget; the worker session on [MAX_REQUESTS].
    The filter interpreter recurses on the program it runs: jumps only go forward.  Decimal numbers are
    printed with fuel 20, the digits of the largest 64-bit number.  Replenishing a pool
    recurses on a bound for its constructions, and a claim that waits on the registries it
    wakes up with; that as many steps as missing workers are enough is a theorem.  A
    host's loop over a command's output has a step for each byte of its allowance and one more,
    and the loops over whole files one for each byte of their bound.  No theorem is
    conditional on fuel: that the answer is [Some] is part of the statements.

    ** Not modelled

    Kernel interfaces (clone, execveat, mounts, cgroups, seccomp installation, KVM ioctls
    and the vCPU loop), memory fences (the model is one thread's sequence of accesses), log
    and display text, and the parts listed as not modelled in the manifest: they are I/O,
    bindings or glue, or were left out for their size: the host
    daemon's socket protocol, the broker's bundles and firewall text, the launch page
    and handshake of the guest, storage and templates. *)

From stdpp Require Export base tactics numbers list gmap.
From Stdlib Require Export ZArith Lia.
From stdpp Require Import options.

Open Scope Z_scope.

(** * Results

    Rust's [Result<T, E>], with the [?] operator as a binding notation. *)

Inductive Result (T E : Type) : Type :=
| Ok (value : T)
| Err (error : E).
Arguments Ok {T E} _.
Arguments Err {T E} _.

Declare Scope result_scope.
Delimit Scope result_scope with result.

Notation "'let?' x ':=' e 'in' k" :=
  (match e with Ok x => k | Err err => Err err end)
  (at level 10, x pattern, e at level 100, k at level 200,
   format "'[v' 'let?'  x  ':='  e  'in' '/' k ']'") : result_scope.

Open Scope result_scope.

Definition map_ok {T U E} (f : T -> U) (r : Result T E) : Result U E :=
  match r with Ok v => Ok (f v) | Err e => Err e end.

Definition map_err {T E F} (f : E -> F) (r : Result T E) : Result T F :=
  match r with Ok v => Ok v | Err e => Err (f e) end.

Definition ok_or {T E} (e : E) (o : option T) : Result T E :=
  match o with Some v => Ok v | None => Err e end.

Definition is_ok {T E} (r : Result T E) : bool :=
  match r with Ok _ => true | Err _ => false end.

#[export] Instance Result_eq_dec {T E} `{EqDecision T, EqDecision E} :
  EqDecision (Result T E).
Proof. solve_decision. Defined.

Lemma map_err_Ok {T E F} (f : E -> F) (r : Result T E) v :
  map_err f r = Ok v <-> r = Ok v.
Proof. destruct r; simpl; naive_solver. Qed.

Lemma ok_or_Ok {T E} (e : E) (o : option T) v : ok_or e o = Ok v <-> o = Some v.
Proof. destruct o; simpl; naive_solver. Qed.

Lemma ok_or_bind_Ok {T U E} (e : E) (o : option T) (k : T -> Result U E) v :
  (let? x := ok_or e o in k x) = Ok v <-> exists x, o = Some x /\ k x = Ok v.
Proof. destruct o; cbn; naive_solver. Qed.

Lemma bind_Ok {T U E} (r : Result T E) (k : T -> Result U E) v :
  (let? x := r in k x) = Ok v <-> exists x, r = Ok x /\ k x = Ok v.
Proof. destruct r; cbn; naive_solver. Qed.

(** * Stateful fallible code

    A Rust method on [&mut self] that returns a [Result] is a function from
    the state to the state it leaves and its result.  [?] keeps the state
    reached so far, as early return does. *)

Definition ST (S E A : Type) : Type := S -> S * Result A E.

Definition st_ret {S E A} (a : A) : ST S E A := fun s => (s, Ok a).

Definition st_err {S E A} (e : E) : ST S E A := fun s => (s, Err e).

Definition st_bind {S E A B} (c : ST S E A) (k : A -> ST S E B) : ST S E B :=
  fun s => match c s with
           | (s', Ok a) => k a s'
           | (s', Err e) => (s', Err e)
           end.

Definition st_get {S E} : ST S E S := fun s => (s, Ok s).

Definition st_gets {S E A} (f : S -> A) : ST S E A := fun s => (s, Ok (f s)).

Definition st_modify {S E} (f : S -> S) : ST S E unit := fun s => (f s, Ok tt).

(** Lifts a pure result, leaving the state alone. *)
Definition st_lift {S E A} (r : Result A E) : ST S E A := fun s => (s, r).

Declare Scope st_scope.
Delimit Scope st_scope with st.
Notation "x <-- c ;; k" := (st_bind c (fun x => k))
  (at level 100, c at next level, k at level 200, right associativity) : st_scope.
Notation "c ;;; k" := (st_bind c (fun _ => k))
  (at level 100, k at level 200, right associativity) : st_scope.
Open Scope st_scope.

Lemma st_bind_ok {S E A B} (c : ST S E A) (k : A -> ST S E B) s s' b :
  st_bind c k s = (s', Ok b) <->
  exists s1 a, c s = (s1, Ok a) /\ k a s1 = (s', Ok b).
Proof.
  unfold st_bind; destruct (c s) as [s1 [a | e]]; split.
  - intros Hk. by exists s1, a.
  - intros (s2 & a2 & Heq & Hk). by simplify_eq.
  - done.
  - intros (s2 & a2 & Heq & Hk). by simplify_eq.
Qed.

Lemma st_bind_ret {S E A B} (a : A) (k : A -> ST S E B) s :
  st_bind (st_ret a) k s = k a s.
Proof. reflexivity. Qed.

Lemma st_bind_assoc {S E A B C} (c : ST S E A) (k : A -> ST S E B) (h : B -> ST S E C) s :
  st_bind (st_bind c k) h s = st_bind c (fun a => st_bind (k a) h) s.
Proof. unfold st_bind; destruct (c s) as [s1 [a | e]]; done. Qed.

(** An invariant kept by every part of a computation is kept by the whole. *)
Definition st_preserves {S E A} (I : S -> Prop) (c : ST S E A) : Prop :=
  forall s, I s -> I (c s).1.

Section preserves.
Context {S E : Type} (I : S -> Prop).

Lemma st_preserves_ret {A} (a : A) : st_preserves I (st_ret (E:=E) a).
Proof. by intros s. Qed.

Lemma st_preserves_err {A} (e : E) : st_preserves I (st_err (A:=A) e).
Proof. by intros s. Qed.

Lemma st_preserves_gets {A} (f : S -> A) : st_preserves I (st_gets (E:=E) f).
Proof. by intros s. Qed.

Lemma st_preserves_lift {A} (r : Result A E) : st_preserves I (st_lift r).
Proof. by intros s. Qed.

Lemma st_preserves_modify (f : S -> S) :
  (forall s, I s -> I (f s)) -> st_preserves I (st_modify (E:=E) f).
Proof. intros Hf s Hs. by apply Hf. Qed.

Lemma st_preserves_bind {A B} (c : ST S E A) (k : A -> ST S E B) :
  st_preserves I c -> (forall a, st_preserves I (k a)) ->
  st_preserves I (st_bind c k).
Proof.
  intros Hc Hk s Hs. unfold st_bind. specialize (Hc s Hs).
  destruct (c s) as [s1 [a | e]]; [by apply Hk | done].
Qed.
End preserves.

Create HintDb soma discriminated.
#[export] Hint Constants Opaque : soma.
#[export] Hint Resolve st_preserves_ret st_preserves_err st_preserves_gets
  st_preserves_lift st_preserves_bind : soma.

(** * Tactics *)

(** Splits every [match] and [if] of the goal and of the hypotheses. *)
Ltac split_matches :=
  repeat first
    [ progress simplify_eq/=
    | case_match
    | case_decide
    | case_bool_decide ].

(** Turns boolean comparisons on [Z] into propositions. *)
Ltac zbool :=
  repeat match goal with
  | H : andb _ _ = true |- _ => apply andb_true_iff in H as [? ?]
  | H : orb _ _ = false |- _ => apply orb_false_iff in H as [? ?]
  | H : negb _ = true |- _ => apply negb_true_iff in H
  | H : negb _ = false |- _ => apply negb_false_iff in H
  | H : (_ =? _) = true |- _ => apply Z.eqb_eq in H
  | H : (_ =? _) = false |- _ => apply Z.eqb_neq in H
  | H : (_ <? _) = true |- _ => apply Z.ltb_lt in H
  | H : (_ <? _) = false |- _ => apply Z.ltb_ge in H
  | H : (_ <=? _) = true |- _ => apply Z.leb_le in H
  | H : (_ <=? _) = false |- _ => apply Z.leb_gt in H
  | H : (_ >? _) = _ |- _ => rewrite Z.gtb_ltb in H
  | H : (_ >=? _) = _ |- _ => rewrite Z.geb_leb in H
  end.

(** * Lists *)

Lemma Forall_filter {A} (Q R : A -> Prop) `{!forall x, Decision (R x)} (l : list A) :
  Forall Q l -> Forall Q (filter R l).
Proof. rewrite !Forall_forall. intros Hl x Hx. apply list_elem_of_filter in Hx. naive_solver. Qed.

Lemma filter_all {A} (Q : A -> Prop) `{!forall x, Decision (Q x)} (l : list A) :
  Forall Q l -> filter Q l = l.
Proof. induction 1; [done | ]. rewrite filter_cons, decide_True by done. by f_equal. Qed.

(** * Machine integers

    An unsigned [w]-bit integer is a [Z] in [0, 2^w).  [usize] is the 64-bit
    one of the production target, x86_64 Linux. *)

Definition U8_MAX : Z := 2 ^ 8 - 1.
Definition U16_MAX : Z := 2 ^ 16 - 1.
Definition U32_MAX : Z := 2 ^ 32 - 1.
Definition U64_MAX : Z := 2 ^ 64 - 1.
Definition USIZE_MAX : Z := U64_MAX.

Definition is_uint (w x : Z) : Prop := 0 <= x < 2 ^ w.
Abbreviation is_u8 := (is_uint 8).
Abbreviation is_u16 := (is_uint 16).
Abbreviation is_u32 := (is_uint 32).
Abbreviation is_u64 := (is_uint 64).

#[export] Instance is_uint_dec w x : Decision (is_uint w x).
Proof. unfold is_uint. apply _. Defined.

Definition checked_add_u64 (x y : Z) : option Z :=
  if x + y <=? U64_MAX then Some (x + y) else None.
Definition saturating_add (max x y : Z) : Z := Z.min max (x + y).
Definition saturating_sub (x y : Z) : Z := Z.max 0 (x - y).
Definition wrapping_add16 (x y : Z) : Z := (x + y) mod 2 ^ 16.
Definition wrapping_sub16 (x y : Z) : Z := (x - y) mod 2 ^ 16.
Definition wrapping_add32 (x y : Z) : Z := (x + y) mod 2 ^ 32.
Definition wrapping_sub32 (x y : Z) : Z := (x - y) mod 2 ^ 32.
Definition checked_add_u32 (x y : Z) : option Z :=
  if x + y <=? U32_MAX then Some (x + y) else None.

(** [!x] on a [w]-bit integer. *)
Definition lnot_w (w x : Z) : Z := 2 ^ w - 1 - x.

Definition is_power_of_two (x : Z) : bool := (0 <? x) && (2 ^ Z.log2 x =? x).

Lemma checked_add_u64_Some x y z :
  checked_add_u64 x y = Some z <-> z = x + y /\ x + y <= U64_MAX.
Proof.
  unfold checked_add_u64. destruct (Z.leb_spec (x + y) U64_MAX); split; intros; simplify_eq; intuition (try lia; congruence).
Qed.

Lemma is_power_of_two_spec x :
  is_power_of_two x = true <-> exists k, 0 <= k /\ x = 2 ^ k.
Proof.
  unfold is_power_of_two. rewrite andb_true_iff, Z.ltb_lt, Z.eqb_eq. split.
  - intros [Hpos Heq]. exists (Z.log2 x). split; [apply Z.log2_nonneg | done].
  - intros (k & Hk & ->). split; [by apply Z.pow_pos_nonneg | ].
    by rewrite Z.log2_pow2.
Qed.

Lemma wrapping_sub16_range x y : 0 <= wrapping_sub16 x y < 2 ^ 16.
Proof. unfold wrapping_sub16. apply Z.mod_pos_bound. lia. Qed.

Lemma wrapping_add16_range x y : 0 <= wrapping_add16 x y < 2 ^ 16.
Proof. unfold wrapping_add16. apply Z.mod_pos_bound. lia. Qed.

Lemma wrapping_add_sub16 x y :
  wrapping_sub16 (wrapping_add16 x y) x = y mod 2 ^ 16.
Proof.
  unfold wrapping_add16, wrapping_sub16.
  rewrite Zminus_mod_idemp_l. f_equal; lia.
Qed.

(** Bit masks of a [w]-bit word, by bits. *)
Lemma lnot_w_testbit w x i :
  0 <= w -> is_uint w x ->
  Z.testbit (lnot_w w x) i = bool_decide (0 <= i < w) && negb (Z.testbit x i).
Proof.
  intros Hw Hx. unfold lnot_w.
  replace (2 ^ w - 1 - x) with (Z.ones w - x) by (rewrite Z.ones_equiv; lia).
  assert (Hand : Z.land x (Z.ones w) = x).
  { rewrite Z.land_ones by lia. apply Z.mod_small, Hx. }
  rewrite Z.sub_nocarry_ldiff.
  - rewrite Z.ldiff_spec. f_equal. case_bool_decide.
    + by rewrite Z.ones_spec_low.
    + destruct (decide (i < 0)); [by apply Z.testbit_neg_r | ].
      rewrite Z.ones_spec_high; [done | lia].
  - apply Z.bits_inj'. intros n Hn.
    rewrite Z.ldiff_spec, Z.bits_0. destruct (decide (n < w)).
    + rewrite Z.ones_spec_low by lia. apply andb_false_r.
    + rewrite <- Hand, Z.land_spec, (Z.ones_spec_high w) by lia.
      by rewrite andb_false_r.
Qed.

Lemma is_uint_land w x y : 0 <= w -> is_uint w x -> 0 <= y -> is_uint w (Z.land x y).
Proof.
  unfold is_uint. intros Hw Hx Hy. split; [apply Z.land_nonneg; lia | ].
  rewrite <- (Z.mod_small x (2 ^ w)) by lia. rewrite <- Z.land_ones by lia.
  rewrite <- Z.land_assoc, (Z.land_comm _ y), Z.land_assoc, Z.land_ones by lia.
  apply Z.mod_pos_bound. lia.
Qed.

Lemma is_uint_lor w x y : 0 <= w -> is_uint w x -> is_uint w y -> is_uint w (Z.lor x y).
Proof.
  unfold is_uint. intros Hw Hx Hy. split; [apply Z.lor_nonneg; lia | ].
  assert (Z.lor x y = Z.lor x y mod 2 ^ w) as ->; [ | apply Z.mod_pos_bound; lia].
  rewrite <- Z.land_ones, Z.land_lor_distr_l, !Z.land_ones by lia.
  by rewrite !Z.mod_small by lia.
Qed.

(** A field at an offset and what follows it. *)
Lemma split_field {A} (raw : list A) n o m :
  m = (o + n)%nat -> take n (drop o raw) ++ drop m raw = drop o raw.
Proof. intros ->. rewrite <- drop_drop. apply take_drop. Qed.
