(* ===== verification/Bytes.v ===== *)
(** Bytes and text: little-endian integers, Rust [str] values as their UTF-8
    bytes, lowercase hexadecimal, and decimal numbers as [FromStr] reads and
    [Display] writes them.  A byte is a [Z] in [0, 256). *)

From Stdlib Require Import String Ascii.
From S2P Require Import Prelude.
From stdpp Require Import options.

Abbreviation bytes := (list Z).

Definition all_bytes (l : bytes) : Prop := Forall is_u8 l.

#[export] Instance all_bytes_dec l : Decision (all_bytes l).
Proof. unfold all_bytes. apply _. Defined.

(** * Little-endian integers *)

(** [uN::to_le_bytes], [n] bytes. *)
Fixpoint le_bytes (n : nat) (z : Z) : bytes :=
  match n with
  | O => []
  | S n' => z mod 256 :: le_bytes n' (z / 256)
  end.

(** [uN::from_le_bytes]. *)
Fixpoint le_val (l : bytes) : Z :=
  match l with
  | [] => 0
  | b :: l' => b + 256 * le_val l'
  end.

Lemma length_le_bytes n z : length (le_bytes n z) = n.
Proof. revert z; induction n as [ | n IH]; intros z; simpl; [done | by rewrite IH]. Qed.

Lemma pow_256_S n : 2 ^ (8 * Z.of_nat (S n)) = 256 * 2 ^ (8 * Z.of_nat n).
Proof.
  rewrite Nat2Z.inj_succ, <- Z.add_1_r, Z.mul_add_distr_l, Z.pow_add_r by lia. lia.
Qed.

Lemma le_bytes_all_bytes n z : all_bytes (le_bytes n z).
Proof.
  revert z; induction n as [ | n IH]; intros z; constructor; [ | apply IH].
  unfold is_uint. change (2 ^ 8) with 256. apply Z.mod_pos_bound. lia.
Qed.

Lemma le_val_bytes n z :
  is_uint (8 * Z.of_nat n) z -> le_val (le_bytes n z) = z.
Proof.
  revert z; induction n as [ | n IH]; intros z Hz; unfold is_uint in *; simpl.
  - simpl in Hz. lia.
  - rewrite IH.
    + pose proof (Z.div_mod z 256). lia.
    + rewrite pow_256_S in Hz. split; [apply Z.div_pos; lia | ].
      apply Z.div_lt_upper_bound; lia.
Qed.

Lemma le_val_range l : all_bytes l -> is_uint (8 * Z.of_nat (length l)) (le_val l).
Proof.
  induction 1 as [ | b l Hb Hl IH]; unfold is_uint in *; [simpl; lia | ].
  cbn [length]. rewrite pow_256_S. change (2 ^ 8) with 256 in Hb. simpl. lia.
Qed.

Lemma le_bytes_val l : all_bytes l -> le_bytes (length l) (le_val l) = l.
Proof.
  induction 1 as [ | b l Hb Hl IH]; simpl; [done | ].
  unfold is_uint in Hb. change (2 ^ 8) with 256 in Hb.
  rewrite Z.mul_comm, Z_mod_plus_full, Z.mod_small by lia.
  rewrite Z.div_add, Z.div_small, Z.add_0_l, IH by lia. done.
Qed.

#[export] Hint Resolve le_bytes_all_bytes : soma.

(** Reading a field back out of a concatenation of fixed-width fields. *)
Lemma take_drop_app_exact {A} (l k m : list A) n j :
  n = length l -> j = length k -> take j (drop n (l ++ k ++ m)) = k.
Proof. intros -> ->. by rewrite drop_app_length, take_app_length. Qed.

(** * Text

    A [&str] is the list of its UTF-8 bytes. *)

Definition byte_of_ascii (a : ascii) : Z := Z.of_nat (nat_of_ascii a).

Fixpoint str (s : string) : bytes :=
  match s with
  | EmptyString => []
  | String a s' => byte_of_ascii a :: str s'
  end.

Definition SPACE : Z := 32.

(** The bytes a [White_Space] character at the front of a text takes, as
    [char::is_whitespace] has it; [None] when the text does not start with one. *)
Definition whitespace_at (l : bytes) : option nat :=
  match l with
  | b0 :: rest =>
      if ((9 <=? b0) && (b0 <=? 13)) || (b0 =? 32) then Some 1%nat
      else match rest with
      | b1 :: rest2 =>
          if (b0 =? 0xC2) && ((b1 =? 0x85) || (b1 =? 0xA0)) then Some 2%nat
          else match rest2 with
          | b2 :: _ =>
              if ((b0 =? 0xE1) && (b1 =? 0x9A) && (b2 =? 0x80))
                 || ((b0 =? 0xE2) && (b1 =? 0x80)
                     && (((0x80 <=? b2) && (b2 <=? 0x8A)) || (b2 =? 0xA8)
                         || (b2 =? 0xA9) || (b2 =? 0xAF)))
                 || ((b0 =? 0xE2) && (b1 =? 0x81) && (b2 =? 0x9F))
                 || ((b0 =? 0xE3) && (b1 =? 0x80) && (b2 =? 0x80))
              then Some 3%nat else None
          | [] => None
          end
      | [] => None
      end
  | [] => None
  end.

Definition push_token (tok : bytes) (acc : list bytes) : list bytes :=
  match tok with [] => acc | _ => tok :: acc end.

(** [str::split_whitespace]: [skip] counts the bytes left of the whitespace
    character being consumed and [tok] is the token read so far. *)
Fixpoint split_ws (skip : nat) (tok : bytes) (l : bytes) : list bytes :=
  match l with
  | [] => push_token tok []
  | b :: l' =>
      match skip with
      | S k => split_ws k tok l'
      | O => match whitespace_at (b :: l') with
             | Some w => push_token tok (split_ws (pred w) [] l')
             | None => split_ws 0 (tok ++ [b]) l'
             end
      end
  end.

Definition split_whitespace (text : bytes) : list bytes := split_ws 0 [] text.

(** A printable ASCII byte that is not a space: what every token of an encoded
    packet is made of. *)
Definition is_graphic (b : Z) : Prop := 33 <= b <= 126.

#[export] Instance is_graphic_dec b : Decision (is_graphic b).
Proof. unfold is_graphic. apply _. Defined.

Definition is_token (l : bytes) : Prop := l <> [] /\ Forall is_graphic l.

Lemma whitespace_at_graphic b l : is_graphic b -> whitespace_at (b :: l) = None.
Proof.
  unfold is_graphic, whitespace_at. intros Hb.
  replace ((9 <=? b) && (b <=? 13)) with false by (symmetry; apply andb_false_iff; lia).
  replace (b =? 32) with false by lia.
  replace (b =? 0xC2) with false by lia. replace (b =? 0xE1) with false by lia.
  replace (b =? 0xE2) with false by lia. replace (b =? 0xE3) with false by lia.
  simpl. by repeat case_match.
Qed.

Lemma split_ws_graphic tok t l :
  Forall is_graphic t -> split_ws 0 tok (t ++ l) = split_ws 0 (tok ++ t) l.
Proof.
  intros Ht; revert tok; induction Ht as [ | b t Hb Ht IH]; intros tok.
  - by rewrite app_nil_r.
  - cbn [app split_ws]. rewrite whitespace_at_graphic by done.
    rewrite IH, <- app_assoc. done.
Qed.

Fixpoint join_sp (toks : list bytes) : bytes :=
  match toks with
  | [] => []
  | [t] => t
  | t :: rest => t ++ SPACE :: join_sp rest
  end.

Lemma split_ws_space tok l :
  split_ws 0 tok (SPACE :: l) = push_token tok (split_ws 0 [] l).
Proof. reflexivity. Qed.

Definition nonempty (l : bytes) : Prop := l <> [].

#[export] Instance nonempty_dec l : Decision (nonempty l).
Proof. unfold nonempty. apply _. Defined.

Lemma push_token_filter t (toks : list bytes) :
  push_token t (filter nonempty toks) = filter nonempty (t :: toks).
Proof.
  rewrite filter_cons. destruct t; [rewrite decide_False by (intros Hn; by apply Hn) | ]; done.
Qed.

(** Splitting the space-separated join of words gives the non-empty ones back. *)
Lemma split_whitespace_join toks :
  Forall (Forall is_graphic) toks -> split_whitespace (join_sp toks) = filter nonempty toks.
Proof.
  unfold split_whitespace.
  induction 1 as [ | t toks Hg Htoks IH]; [done | ].
  destruct toks as [ | u toks].
  - simpl (join_sp _). rewrite <- (app_nil_r t) at 1. rewrite split_ws_graphic by done.
    rewrite app_nil_l. exact (push_token_filter t []).
  - change (join_sp (t :: u :: toks)) with (t ++ SPACE :: join_sp (u :: toks)).
    rewrite split_ws_graphic by done. rewrite app_nil_l.
    rewrite split_ws_space, IH. apply push_token_filter.
Qed.

(** * Hexadecimal *)

(** The digit [DIGITS[d]] of [0123456789abcdef]. *)
Definition hex_digit (d : Z) : Z := if d <? 10 then 48 + d else 87 + d.

Fixpoint hex (l : bytes) : bytes :=
  match l with
  | [] => []
  | b :: l' => hex_digit (Z.shiftr b 4) :: hex_digit (Z.land b 0x0f) :: hex l'
  end.

(** [char::to_digit(radix)] on one byte; letters of both cases. *)
Definition to_digit (radix b : Z) : option Z :=
  let d := if (48 <=? b) && (b <=? 57) then Some (b - 48)
           else if (97 <=? b) && (b <=? 122) then Some (b - 87)
           else if (65 <=? b) && (b <=? 90) then Some (b - 55)
           else None in
  match d with
  | Some v => if v <? radix then Some v else None
  | None => None
  end.

(** Accumulates digits with the overflow check of [from_str_radix]. *)
Fixpoint parse_digits (radix lo hi acc : Z) (sign : Z) (l : bytes) : option Z :=
  match l with
  | [] => Some acc
  | b :: l' =>
      match to_digit radix b with
      | Some d =>
          let next := acc * radix + sign * d in
          if (lo <=? next) && (next <=? hi)
          then parse_digits radix lo hi next sign l' else None
      | None => None
      end
  end.

(** [T::from_str_radix] for an integer type of range [lo, hi]: an optional [+],
    a [-] only where the type is signed, then at least one digit. *)
Definition from_str_radix (radix lo hi : Z) (l : bytes) : option Z :=
  match l with
  | [] => None
  | [b] => if (b =? 43) || (b =? 45) then None else parse_digits radix lo hi 0 1 l
  | b :: l' =>
      if b =? 43 then parse_digits radix lo hi 0 1 l'
      else if (b =? 45) && (lo <? 0) then parse_digits radix lo hi 0 (-1) l'
      else parse_digits radix lo hi 0 1 l
  end.

Lemma hex_digit_graphic d : 0 <= d < 16 -> is_graphic (hex_digit d).
Proof. unfold hex_digit, is_graphic. intros. case_match; zbool; lia. Qed.

Lemma to_digit_hex_digit d : 0 <= d < 16 -> to_digit 16 (hex_digit d) = Some d.
Proof.
  intros Hd. assert (d ∈ seqZ 0 16) as Hin by (apply elem_of_seqZ; lia).
  clear Hd. revert d Hin. apply Forall_forall. vm_compute. repeat constructor.
Qed.

Lemma nibbles b : is_u8 b ->
  0 <= Z.shiftr b 4 < 16 /\ 0 <= Z.land b 15 < 16 /\
  b = Z.shiftr b 4 * 16 + Z.land b 15.
Proof.
  unfold is_uint. change (2 ^ 8) with 256. intros Hb.
  change 15 with (Z.ones 4) at 1 2 3.
  rewrite Z.shiftr_div_pow2, Z.land_ones by lia.
  change (2 ^ 4) with 16.
  pose proof (Z.div_mod b 16). pose proof (Z.mod_pos_bound b 16).
  assert (0 <= b / 16) by (apply Z.div_pos; lia).
  assert (b / 16 < 16) by (apply Z.div_lt_upper_bound; lia). lia.
Qed.

Lemma hex_graphic l : all_bytes l -> Forall is_graphic (hex l).
Proof.
  induction 1 as [ | b l Hb Hl IH]; simpl; [done | ].
  destruct (nibbles b Hb) as (? & ? & _).
  repeat constructor; [by apply hex_digit_graphic.. | done].
Qed.

Lemma length_hex l : length (hex l) = (2 * length l)%nat.
Proof. induction l as [ | b l IH]; simpl; lia. Qed.

(** One encoded byte is read back by [u8::from_str_radix(_, 16)]. *)
Lemma from_str_radix_hex b : is_u8 b ->
  from_str_radix 16 0 U8_MAX [hex_digit (Z.shiftr b 4); hex_digit (Z.land b 15)] = Some b.
Proof.
  intros Hb. destruct (nibbles b Hb) as (H1 & H2 & Heq).
  pose proof (to_digit_hex_digit _ H1) as D1. pose proof (to_digit_hex_digit _ H2) as D2.
  unfold from_str_radix.
  assert ((hex_digit (Z.shiftr b 4) =? 43) = false) as ->.
  { pose proof (hex_digit_graphic _ H1). unfold hex_digit in *. apply Z.eqb_neq.
    case_match; zbool; lia. }
  rewrite andb_false_r. cbn [parse_digits]. rewrite D1, D2.
  unfold U8_MAX, is_uint in *. change (2 ^ 8) with 256 in *.
  replace (0 * 16 + 1 * Z.shiftr b 4) with (Z.shiftr b 4) by lia.
  replace (0 <=? Z.shiftr b 4) with true by lia.
  replace (Z.shiftr b 4 <=? 256 - 1) with true by lia. cbn [andb].
  replace (Z.shiftr b 4 * 16 + 1 * Z.land b 15) with b by lia.
  replace (0 <=? b) with true by lia. by replace (b <=? 256 - 1) with true by lia.
Qed.

(** * Decimal *)

(** [Display] of a non-negative integer: digits from the least significant,
    [fuel] bounding how many.  Twenty digits are enough for any [u64]. *)
Fixpoint dec_go (fuel : nat) (n : Z) (acc : bytes) : bytes :=
  match fuel with
  | O => acc
  | S fuel' =>
      let acc' := 48 + n mod 10 :: acc in
      if n / 10 =? 0 then acc' else dec_go fuel' (n / 10) acc'
  end.

Definition DECIMAL_FUEL : nat := 20.

Definition dec_nat (n : Z) : bytes := dec_go DECIMAL_FUEL n [].

(** [Display] of an integer. *)
Definition dec (n : Z) : bytes := if n <? 0 then 45 :: dec_nat (- n) else dec_nat n.

(** [str::parse] for an integer type of range [lo, hi]. *)
Definition parse_int (lo hi : Z) (l : bytes) : option Z := from_str_radix 10 lo hi l.

Definition is_decimal (b : Z) : Prop := 48 <= b <= 57.

(** The value digits [l] denote after a prefix of value [acc]. *)
Fixpoint dec_val (acc : Z) (l : bytes) : Z :=
  match l with [] => acc | b :: l' => dec_val (acc * 10 + (b - 48)) l' end.

Lemma to_digit_decimal b : is_decimal b -> to_digit 10 b = Some (b - 48).
Proof.
  unfold is_decimal, to_digit. intros Hb.
  replace ((48 <=? b) && (b <=? 57)) with true by (symmetry; apply andb_true_iff; lia).
  by replace (b - 48 <? 10) with true by lia.
Qed.

Lemma dec_val_ge acc l : Forall is_decimal l -> 0 <= acc -> acc <= dec_val acc l.
Proof.
  intros Hl; revert acc; induction Hl as [ | b l Hb Hl IH]; intros acc Hacc; simpl; [lia | ].
  unfold is_decimal in Hb. specialize (IH (acc * 10 + (b - 48))). lia.
Qed.

Lemma dec_go_decimal fuel n acc :
  0 <= n -> Forall is_decimal acc -> Forall is_decimal (dec_go fuel n acc).
Proof.
  revert n acc; induction fuel as [ | fuel IH]; intros n acc Hn Hacc; simpl; [done | ].
  assert (is_decimal (48 + n mod 10)) by
    (unfold is_decimal; pose proof (Z.mod_pos_bound n 10); lia).
  case_match; [by constructor | ]. apply IH; [apply Z.div_pos; lia | by constructor].
Qed.

Lemma dec_go_val fuel n acc :
  0 <= n < 10 ^ Z.of_nat fuel -> dec_val 0 (dec_go fuel n acc) = dec_val n acc.
Proof.
  revert n acc; induction fuel as [ | fuel IH]; intros n acc Hn.
  - simpl in *. by replace n with 0 by lia.
  - rewrite Nat2Z.inj_succ, Z.pow_succ_r in Hn by lia. cbn [dec_go].
    pose proof (Z.div_mod n 10). case_match; zbool.
    + cbn [dec_val]. f_equal. lia.
    + rewrite IH; [cbn [dec_val]; f_equal; lia | ].
      split; [apply Z.div_pos; lia | apply Z.div_lt_upper_bound; lia].
Qed.

Lemma dec_go_cons fuel n acc : exists b l, dec_go (S fuel) n acc = b :: l.
Proof.
  revert n acc; induction fuel as [ | fuel IH]; intros n acc; cbn [dec_go]; case_match; eauto.
Qed.

Lemma parse_digits_pos hi lo acc l :
  Forall is_decimal l -> lo <= 0 <= acc -> dec_val acc l <= hi ->
  parse_digits 10 lo hi acc 1 l = Some (dec_val acc l).
Proof.
  intros Hl; revert acc; induction Hl as [ | b l Hb Hl IH]; intros acc Hacc Hhi; [done | ].
  cbn [parse_digits]. rewrite to_digit_decimal by done. cbn [dec_val] in *.
  assert (Hd : is_decimal b) by done. unfold is_decimal in Hd.
  pose proof (dec_val_ge (acc * 10 + (b - 48)) l Hl).
  replace (acc * 10 + 1 * (b - 48)) with (acc * 10 + (b - 48)) by lia.
  replace (lo <=? acc * 10 + (b - 48)) with true by lia.
  replace (acc * 10 + (b - 48) <=? hi) with true by lia. apply IH; lia.
Qed.

Lemma parse_digits_neg hi lo acc l :
  Forall is_decimal l -> 0 <= acc -> 0 <= hi -> lo <= - dec_val acc l ->
  parse_digits 10 lo hi (- acc) (-1) l = Some (- dec_val acc l).
Proof.
  intros Hl; revert acc; induction Hl as [ | b l Hb Hl IH]; intros acc Hacc Hhi Hlo; [done | ].
  cbn [parse_digits]. rewrite to_digit_decimal by done. cbn [dec_val] in *.
  assert (Hd : is_decimal b) by done. unfold is_decimal in Hd.
  pose proof (dec_val_ge (acc * 10 + (b - 48)) l Hl).
  replace (- acc * 10 + -1 * (b - 48)) with (- (acc * 10 + (b - 48))) by lia.
  replace (lo <=? - (acc * 10 + (b - 48))) with true by lia.
  replace (- (acc * 10 + (b - 48)) <=? hi) with true by lia. apply IH; lia.
Qed.

Lemma from_str_radix_plain radix lo hi b l :
  is_decimal b -> from_str_radix radix lo hi (b :: l) = parse_digits radix lo hi 0 1 (b :: l).
Proof.
  unfold is_decimal, from_str_radix. intros Hb.
  replace (b =? 43) with false by lia. replace (b =? 45) with false by lia.
  by destruct l.
Qed.

Lemma from_str_radix_minus radix lo hi b l :
  lo < 0 -> from_str_radix radix lo hi (45 :: b :: l) = parse_digits radix lo hi 0 (-1) (b :: l).
Proof. intros Hlo. unfold from_str_radix. by replace (lo <? 0) with true by lia. Qed.

(** A number written by [Display] is read back by [parse]. *)
Lemma parse_int_dec lo hi n :
  - 10 ^ 20 < n < 10 ^ 20 -> lo <= n <= hi -> lo <= 0 <= hi ->
  parse_int lo hi (dec n) = Some n.
Proof.
  intros Hn Hr Hz. unfold parse_int, dec, dec_nat.
  assert (Hv : forall m, 0 <= m < 10 ^ 20 ->
    Forall is_decimal (dec_go DECIMAL_FUEL m []) /\ dec_val 0 (dec_go DECIMAL_FUEL m []) = m /\
    exists b l, dec_go DECIMAL_FUEL m [] = b :: l).
  { intros m Hm. split_and!; [apply dec_go_decimal; [lia | done] | | apply dec_go_cons].
    by rewrite dec_go_val. }
  destruct (Z.ltb_spec n 0).
  - destruct (Hv (- n)) as (Hd & Hval & b & l & Heq); [lia | ].
    rewrite Heq in *. rewrite from_str_radix_minus by lia.
    change 0 with (- 0) at 1.
    rewrite (parse_digits_neg hi lo 0 (b :: l)) by (done || lia). f_equal. lia.
  - destruct (Hv n) as (Hd & Hval & b & l & Heq); [lia | ].
    rewrite Heq in *. rewrite from_str_radix_plain by (by inversion Hd).
    rewrite parse_digits_pos by (done || lia). by f_equal.
Qed.

Lemma dec_token n : - 10 ^ 20 < n < 10 ^ 20 -> is_token (dec n).
Proof.
  intros Hn. unfold dec, dec_nat, is_token.
  assert (Hg : forall m, 0 <= m -> Forall is_graphic (dec_go DECIMAL_FUEL m [])).
  { intros m Hm. eapply Forall_impl; [by apply dec_go_decimal | ].
    unfold is_decimal, is_graphic. lia. }
  destruct (dec_go_cons 19 n []) as (b & l & Heq). case_match; zbool.
  - split; [done | ]. constructor; [unfold is_graphic; lia | apply Hg; lia].
  - split; [unfold DECIMAL_FUEL; by rewrite Heq | apply Hg; lia].
Qed.

Lemma hex_token l : all_bytes l -> l <> [] -> is_token (hex l).
Proof. intros Hl Hne. split; [by destruct l | by apply hex_graphic]. Qed.

(** Texts of the source are graphic, by evaluation. *)
Lemma forallb_graphic l :
  forallb (fun b => (33 <=? b) && (b <=? 126)) l = true -> Forall is_graphic l.
Proof.
  intros Hf. apply Forall_forall. intros b Hb. rewrite forallb_forall in Hf.
  specialize (Hf b (proj1 (list_elem_of_In _ _) Hb)). unfold is_graphic. zbool. lia.
Qed.

(** * Separators

    [str::split] on one character (never empty: a text with no separator is one
    piece), its inverse [join], [str::lines] and [str::split_once]. *)

Fixpoint split_on (sep : Z) (tok l : bytes) : list bytes :=
  match l with
  | [] => [tok]
  | b :: l => if b =? sep then tok :: split_on sep [] l else split_on sep (tok ++ [b]) l
  end.

Fixpoint join_on (sep : Z) (l : list bytes) : bytes :=
  match l with
  | [] => []
  | [t] => t
  | t :: rest => t ++ sep :: join_on sep rest
  end.

Definition split_char (sep : Z) (l : bytes) : list bytes := split_on sep [] l.

Lemma split_on_skip sep tok t l :
  sep ∉ t -> split_on sep tok (t ++ l) = split_on sep (tok ++ t) l.
Proof.
  revert tok; induction t as [ | b t IH]; intros tok Hn; simpl; [by rewrite app_nil_r | ].
  apply not_elem_of_cons in Hn as [Hb Ht].
  destruct (Z.eqb_spec b sep); [by subst | ]. by rewrite IH, <- app_assoc.
Qed.

Lemma split_char_join sep toks :
  toks <> [] -> Forall (fun t => sep ∉ t) toks -> split_char sep (join_on sep toks) = toks.
Proof.
  intros Hne Hall. unfold split_char.
  induction Hall as [ | t toks Ht Htoks IH]; [done | ].
  destruct toks as [ | u toks].
  - simpl. rewrite <- (app_nil_r t) at 1. by rewrite split_on_skip.
  - change (join_on sep (t :: u :: toks)) with (t ++ sep :: join_on sep (u :: toks)).
    rewrite split_on_skip by done. cbn [split_on app]. rewrite Z.eqb_refl. f_equal. by apply IH.
Qed.

(** A line of [str::lines] loses its line feed and, then, one carriage return. *)
Definition strip_cr (line : bytes) : bytes :=
  match rev line with 13 :: r => rev r | _ => line end.

Fixpoint lines_go (line l : bytes) : list bytes :=
  match l with
  | [] => match line with [] => [] | _ => [line] end
  | b :: l => if b =? 10 then strip_cr line :: lines_go [] l else lines_go (line ++ [b]) l
  end.

Definition lines (l : bytes) : list bytes := lines_go [] l.

(** Lines of graphic bytes, each ended by a line feed, are read back. *)
Definition unlines (ls : list bytes) : bytes := concat ((fun l => l ++ [10]) <$> ls).

Lemma lines_go_skip line t l :
  10 ∉ t -> lines_go line (t ++ 10 :: l) = strip_cr (line ++ t) :: lines_go [] l.
Proof.
  revert line; induction t as [ | b t IH]; intros line Hn; simpl; [by rewrite app_nil_r | ].
  apply not_elem_of_cons in Hn as [Hb Ht].
  destruct (Z.eqb_spec b 10); [by subst | ]. by rewrite IH, <- app_assoc.
Qed.

Lemma strip_cr_id t : 13 ∉ t -> strip_cr t = t.
Proof.
  intros Hn. unfold strip_cr. destruct (rev t) as [ | b r] eqn:Hr; [done | ].
  assert (Hb : b <> 13).
  { intros ->. apply Hn. rewrite <- (rev_involutive t), Hr. simpl. apply elem_of_app. right.
    by constructor. }
  do 5 (destruct b as [ | b | b]; try done).
Qed.

Lemma graphic_not_elem c t : Forall is_graphic t -> ~ is_graphic c -> c ∉ t.
Proof. rewrite Forall_forall. intros Ht Hc Hin. by apply Hc, Ht. Qed.

Lemma lines_unlines ls : Forall (Forall is_graphic) ls -> lines (unlines ls) = ls.
Proof.
  unfold lines, unlines. induction 1 as [ | t ls Ht Hls IH]; [done | ].
  cbn [fmap list_fmap concat]. rewrite <- app_assoc. cbn [app].
  rewrite lines_go_skip by (apply graphic_not_elem; [done | unfold is_graphic; lia]).
  cbn [app]. rewrite strip_cr_id by (apply graphic_not_elem; [done | unfold is_graphic; lia]).
  by f_equal.
Qed.

Fixpoint split_once (sep : Z) (l : bytes) : option (bytes * bytes) :=
  match l with
  | [] => None
  | b :: l =>
      if b =? sep then Some ([], l)
      else match split_once sep l with Some (k, v) => Some (b :: k, v) | None => None end
  end.

Lemma split_once_app sep k v : sep ∉ k -> split_once sep (k ++ sep :: v) = Some (k, v).
Proof.
  induction k as [ | b k IH]; intros Hn; simpl; [by rewrite Z.eqb_refl | ].
  apply not_elem_of_cons in Hn as [Hb Hk].
  destruct (Z.eqb_spec b sep); [by subst | ]. by rewrite IH.
Qed.
