(* ===== verification/Wire.v ===== *)
(** Big-endian fields, readers over a buffer, and codecs: what it means that a reader and an
    encoder are inverse to each other, and how such pairs compose. *)

From S2P Require Import Prelude Bytes.
From stdpp Require Import sorting.
From stdpp Require Import options.
Local Open Scope Z_scope.

(** [uN::to_be_bytes] and [uN::from_be_bytes]. *)
Definition be_bytes (n : nat) (z : Z) : bytes := rev (le_bytes n z).
Definition be_val (l : bytes) : Z := le_val (rev l).

Definition all_zero (raw : bytes) : bool := forallb (fun byte => byte =? 0) raw.

Definition zeroes (n : nat) : bytes := replicate n 0.

Lemma length_be_bytes n z : length (be_bytes n z) = n.
Proof. unfold be_bytes. by rewrite length_rev, length_le_bytes. Qed.

Lemma be_val_bytes n z : is_uint (8 * Z.of_nat n) z -> be_val (be_bytes n z) = z.
Proof. intros. unfold be_val, be_bytes. by rewrite rev_involutive, le_val_bytes. Qed.

Lemma all_bytes_rev l : all_bytes l -> all_bytes (rev l).
Proof. unfold all_bytes. rewrite !List.Forall_forall. intros Hl x Hx. apply Hl. by apply in_rev. Qed.

Lemma be_bytes_all n z : all_bytes (be_bytes n z).
Proof. apply all_bytes_rev, le_bytes_all_bytes. Qed.

Lemma be_bytes_val l : all_bytes l -> be_bytes (length l) (be_val l) = l.
Proof.
  intros Hl. unfold be_bytes, be_val. rewrite <- (length_rev l), le_bytes_val by by apply all_bytes_rev. apply rev_involutive.
Qed.

Lemma be_val_range l : all_bytes l -> is_uint (8 * Z.of_nat (length l)) (be_val l).
Proof. intros Hl. unfold be_val. rewrite <- (length_rev l). by apply le_val_range, all_bytes_rev. Qed.

Lemma length_zeroes n : length (zeroes n) = n.
Proof. apply length_replicate. Qed.

Lemma all_zero_zeroes n : all_zero (zeroes n) = true.
Proof. induction n; [done | exact IHn]. Qed.

(** An identity of [n] bytes that is not all zero. *)
Definition id_ok (n : nat) (raw : bytes) : Prop := length raw = n /\ all_zero raw = false.

#[export] Instance id_ok_dec n raw : Decision (id_ok n raw).
Proof. unfold id_ok. apply _. Defined.

(** * The order of byte arrays *)

(** Lexicographic, as [Ord] is derived for arrays and for the fields of a struct in turn. *)
Fixpoint bytes_leb (a b : list Z) : bool :=
  match a, b with
  | [], _ => true
  | _ :: _, [] => false
  | x :: a, y :: b => (x <? y) || ((x =? y) && bytes_leb a b)
  end.

Lemma bytes_leb_refl a : bytes_leb a a = true.
Proof. induction a as [ | x a IH]; cbn; [done | ]. rewrite Z.eqb_refl, IH. by destruct (x <? x). Qed.

Lemma bytes_leb_total a b : bytes_leb a b = true \/ bytes_leb b a = true.
Proof.
  revert b. induction a as [ | x a IH]; intros [ | y b]; cbn; auto.
  destruct (Z.ltb_spec x y); [by left | ]. destruct (Z.ltb_spec y x); [by right | ].
  assert (x = y) as -> by lia. rewrite Z.eqb_refl. cbn. apply IH.
Qed.

Lemma bytes_leb_trans a b c : bytes_leb a b = true -> bytes_leb b c = true -> bytes_leb a c = true.
Proof.
  revert b c. induction a as [ | x a IH]; intros [ | y b] [ | z c]; cbn; try done.
  destruct (Z.ltb_spec x y), (Z.ltb_spec y z), (Z.ltb_spec x z), (Z.eqb_spec x y), (Z.eqb_spec y z), (Z.eqb_spec x z);
    cbn; intros; try done; try lia. by eapply IH.
Qed.

Lemma bytes_leb_antisym a b : bytes_leb a b = true -> bytes_leb b a = true -> a = b.
Proof.
  revert b. induction a as [ | x a IH]; intros [ | y b]; cbn; try done.
  destruct (Z.ltb_spec x y), (Z.ltb_spec y x), (Z.eqb_spec x y), (Z.eqb_spec y x); cbn; intros; try done; try lia.
  f_equal; [done | by apply IH].
Qed.

Section sort_on.
Context {A : Type} (key : A -> list Z).

Definition on_le (x y : A) : Prop := bytes_leb (key x) (key y) = true.

#[export] Instance on_le_dec : RelDecision on_le.
Proof. intros x y. unfold on_le. apply _. Defined.

(** [sort_unstable] by an order whose keys are [key]. *)
Definition sort_on (l : list A) : list A := merge_sort on_le l.

#[local] Instance on_le_total : Total on_le.
Proof. intros x y. apply bytes_leb_total. Qed.

#[local] Instance on_le_trans : Transitive on_le.
Proof. intros x y z. apply bytes_leb_trans. Qed.

Lemma sort_on_perm l : Permutation (sort_on l) l.
Proof. apply merge_sort_Permutation. Qed.

Lemma sort_on_sorted l : StronglySorted on_le (sort_on l).
Proof. apply (StronglySorted_merge_sort on_le). Qed.

Context `{!Inj (=) (=) key}.

#[local] Instance on_le_antisym : AntiSymm (=) on_le.
Proof using Type*. intros x y Hxy Hyx. apply (inj key). by apply bytes_leb_antisym. Qed.

(** The order of the input is not in the output. *)
Lemma sort_on_canonical l l' : Permutation l l' -> sort_on l = sort_on l'.
Proof using Type*.
  intros Hp. apply (StronglySorted_unique on_le); try apply sort_on_sorted. rewrite !sort_on_perm. exact Hp.
Qed.
End sort_on.

(** [u8::try_from(len).unwrap_or(u8::MAX)] *)
Definition u8_saturated (n : nat) : Z := Z.min U8_MAX (Z.of_nat n).

(** * Readers

    A cursor over a buffer: the bytes still to be read.  [short] is what a reader answers when
    fewer remain. *)

Definition read_array {E} (short : E) (n : nat) : ST bytes E bytes :=
  fun l => if (n <=? length l)%nat then (drop n l, Ok (take n l)) else (l, Err short).

Definition read_uint {E} (short : E) (n : nat) : ST bytes E Z := raw <-- read_array short n ;; st_ret (be_val raw).

Definition read_u8 {E} (short : E) : ST bytes E Z := read_uint short 1.

Fixpoint read_list {E A} (n : nat) (p : ST bytes E A) : ST bytes E (list A) :=
  match n with
  | O => st_ret []
  | S n => a <-- p ;; l <-- read_list n p ;; st_ret (a :: l)
  end.

(** A count in one byte, refused above [max], then that many values. *)
Definition read_counted {E A} (short too_many : E) (max : nat) (p : ST bytes E A) : ST bytes E (list A) :=
  count <-- read_u8 short ;;
  if count >? Z.of_nat max then st_err too_many else read_list (Z.to_nat count) p.

(** * Codecs *)

(** The reader gives back what the encoder wrote, and accepts nothing else. *)
Record codec {E A} (p : ST bytes E A) (enc : A -> bytes) (ok : A -> Prop) : Prop := {
  codec_read : forall a rest, ok a -> p (enc a ++ rest) = (rest, Ok a);
  codec_canon : forall l rest a, all_bytes l -> p l = (rest, Ok a) -> ok a /\ l = enc a ++ rest
}.

Section codecs.
Context {E : Type}.

Lemma codec_ret {A} (a0 : A) (enc : A -> bytes) (ok : A -> Prop) :
  enc a0 = [] -> (forall a, ok a <-> a = a0) -> codec (st_ret (E := E) a0) enc ok.
Proof.
  intros He Hok. split.
  - intros a rest ->%Hok. by rewrite He.
  - intros l rest a _ [= -> <-]. split; [by apply Hok | by rewrite He].
Qed.

(** A field [x] read first, which the value read afterwards determines. *)
Lemma codec_bind {A B} (p : ST bytes E A) (k : A -> ST bytes E B) encp okp (f : B -> A) enck (ok : B -> Prop) :
  codec p encp okp -> (forall x, okp x -> codec (k x) enck (fun b => ok b /\ f b = x)) ->
  (forall b, ok b -> okp (f b)) ->
  codec (st_bind p k) (fun b => encp (f b) ++ enck b) ok.
Proof.
  intros [Hr Hc] Hk Hf. split.
  - intros b rest Hb. unfold st_bind. rewrite <- app_assoc, Hr by auto. by apply (codec_read _ _ _ (Hk (f b) (Hf b Hb))).
  - intros l rest b Hl. unfold st_bind. destruct (p l) as [l1 [x | e]] eqn:Hp; [ | done]. intros Hkl.
    destruct (Hc l l1 x Hl Hp) as [Hx ->]. apply Forall_app in Hl as [_ Hl1].
    destruct (codec_canon _ _ _ (Hk x Hx) l1 rest b Hl1 Hkl) as [[Hb <-] ->]. by rewrite app_assoc.
Qed.

(** A value that is not read, only computed. *)
Lemma codec_done {A} (r : Result A E) (ok : A -> Prop) : (forall a, ok a <-> r = Ok a) ->
  codec (st_lift (S := bytes) r) (fun _ => []) ok.
Proof.
  intros Hok. split.
  - intros a rest Ha%Hok. unfold st_lift. by rewrite Ha.
  - intros l rest a _. unfold st_lift. intros [= -> Ha]. split; [by apply Hok | done].
Qed.

(** A check that fails leaves no value. *)
Lemma codec_check {A} (b : bool) (e : E) (p : ST bytes E A) enc ok :
  (b = false -> codec p enc ok) -> (b = true -> forall a, ~ ok a) -> codec (if b then st_err e else p) enc ok.
Proof. destruct b; intros Hp Hno; [ | by apply Hp]. split; [intros a rest Ha; by destruct (Hno eq_refl a) | done]. Qed.

Lemma codec_ext {A} (p : ST bytes E A) enc ok enc' ok' : codec p enc ok -> (forall a, ok' a <-> ok a) ->
  (forall a, ok a -> enc' a = enc a) -> codec p enc' ok'.
Proof.
  intros [Hr Hc] Hok He. split.
  - intros a rest Ha%Hok. rewrite He by done. by apply Hr.
  - intros l rest a Hl Hp. destruct (Hc l rest a Hl Hp) as [Ha ->]. split; [by apply Hok | by rewrite He].
Qed.

Lemma codec_array (short : E) n : codec (read_array short n) id (fun raw => length raw = n /\ all_bytes raw).
Proof.
  split.
  - intros a rest [<- _]. unfold read_array. rewrite length_app. destruct (Nat.leb_spec (length a) (length (id a) + length rest)) as [_ | Hl]; [ | unfold id in Hl; lia]. unfold id.
    by rewrite drop_app_length, take_app_length.
  - intros l rest a Hl. unfold read_array. destruct (Nat.leb_spec n (length l)); [ | done]. intros [= <- <-].
    split; [ | exact (eq_sym (take_drop n l))]. split; [by apply length_take_le | by apply Forall_take].
Qed.

Lemma codec_uint (short : E) n : codec (read_uint short n) (be_bytes n) (is_uint (8 * Z.of_nat n)).
Proof.
  split.
  - intros z rest Hz. unfold read_uint, st_bind.
    pose proof (codec_read _ _ _ (codec_array short n) (be_bytes n z) rest (conj (length_be_bytes n z) (be_bytes_all n z))) as Hr.
    unfold id in Hr. rewrite Hr. unfold st_ret. by rewrite be_val_bytes.
  - intros l rest z Hl. unfold read_uint, st_bind. destruct (read_array short n l) as [l1 [raw | e]] eqn:Hp; [ | done]. intros [= <- <-].
    destruct (codec_canon _ _ _ (codec_array short n) l l1 raw Hl Hp) as [[<- Hb] ->].
    split; [by apply be_val_range | ]. by rewrite be_bytes_val.
Qed.

Lemma codec_u8 (short : E) : codec (read_u8 short) (fun z => [z]) is_u8.
Proof.
  eapply codec_ext; [apply (codec_uint short 1) | done | ]. intros z Hz. unfold be_bytes. cbn. unfold is_uint in Hz.
  change (2 ^ (8 * Z.of_nat 1)) with 256 in Hz. by rewrite Z.mod_small.
Qed.

Lemma codec_list {A} (p : ST bytes E A) enc ok n : codec p enc ok ->
  codec (read_list n p) (fun l => concat (enc <$> l)) (fun l => length l = n /\ Forall ok l).
Proof.
  intros Hp. induction n as [ | n IH]; cbn [read_list].
  - apply codec_ret; [done | ]. intros l. split; [intros [?%nil_length_inv _]; done | by intros ->].
  - split.
    + intros [ | a l] rest [Hl Hall]; [done | ]. apply Forall_cons in Hall as [Ha Hall]. injection Hl as Hl. cbn [fmap list_fmap concat].
      unfold st_bind. rewrite <- app_assoc, (codec_read _ _ _ Hp) by done. by rewrite (codec_read _ _ _ IH).
    + intros raw rest l Hraw. unfold st_bind. destruct (p raw) as [l1 [a | e]] eqn:Hpa; [ | done].
      destruct (codec_canon _ _ _ Hp _ _ _ Hraw Hpa) as [Ha ->]. apply Forall_app in Hraw as [_ Hl1].
      destruct (read_list n p l1) as [l2 [m | e]] eqn:Hpl; [ | done]. intros [= <- <-].
      destruct (codec_canon _ _ _ IH _ _ _ Hl1 Hpl) as [[Hm Hall] ->]. split; [split; [cbn; by f_equal | by constructor] | ].
      cbn. by rewrite app_assoc.
Qed.

(** A reader of a field, then a function that may refuse its value. *)
Lemma codec_lift {A B} (p : ST bytes E A) (f : A -> Result B E) enc okp (g : B -> A) (ok : B -> Prop) :
  codec p enc okp -> (forall a b, okp a -> f a = Ok b -> ok b /\ g b = a) -> (forall b, ok b -> okp (g b) /\ f (g b) = Ok b) ->
  codec (x <-- p ;; st_lift (f x)) (fun b => enc (g b)) ok.
Proof.
  intros [Hr Hc] Hf Hg. split.
  - intros b rest Hb. destruct (Hg b Hb) as [Ha Hfb]. unfold st_bind, st_lift. rewrite Hr by done. by rewrite Hfb.
  - intros l rest b Hl. unfold st_bind, st_lift. destruct (p l) as [l1 [a | e]] eqn:Hp; [ | done].
    destruct (Hc _ _ _ Hl Hp) as [Ha ->]. destruct (f a) as [b' | e] eqn:Hfa; [ | done]. intros [= <- <-].
    destruct (Hf a b' Ha Hfa) as [Hb <-]. done.
Qed.
Lemma codec_counted {A} (short too_many : E) max (p : ST bytes E A) enc ok : codec p enc ok -> (max <= 255)%nat ->
  codec (read_counted short too_many max p) (fun l => u8_saturated (length l) :: concat (enc <$> l))
    (fun l => (length l <= max)%nat /\ Forall ok l).
Proof.
  intros Hp Hmax. unfold read_counted.
  apply (codec_bind _ _ (fun z => [z]) is_u8 (fun l : list A => u8_saturated (length l)) (fun l => concat (enc <$> l))); [apply codec_u8 | | ].
  - intros count Hc. apply codec_check; intros Hgt.
    + eapply codec_ext; [apply (codec_list p enc ok (Z.to_nat count) Hp) | | done]. intros l. unfold is_u8, is_uint in Hc. unfold u8_saturated, U8_MAX.
      split; [intros [[Hlen Hall] Heq]; split; [lia | done] | ]. intros [Hlen Hall]. split; [split; [lia | done] | lia].
    + intros l [[Hlen _] Heq]. unfold u8_saturated, U8_MAX in Heq. lia.
  - intros l [Hlen _]. unfold u8_saturated, U8_MAX, is_u8, is_uint. lia.
Qed.
End codecs.

(** Everything is read and nothing is left. *)
Definition read_all {E A} (trailing : E) (p : ST bytes E A) (l : bytes) : Result A E :=
  match p l with
  | (rest, Ok a) => if bool_decide (rest = []) then Ok a else Err trailing
  | (_, Err e) => Err e
  end.

Lemma read_all_codec {E A} (trailing : E) (p : ST bytes E A) enc ok l a : codec p enc ok ->
  (ok a -> read_all trailing p (enc a) = Ok a) /\ (all_bytes l -> read_all trailing p l = Ok a -> ok a /\ l = enc a).
Proof.
  intros [Hr Hc]. unfold read_all. split.
  - intros Ha. specialize (Hr a [] Ha). rewrite app_nil_r in Hr. by rewrite Hr.
  - intros Hl. destruct (p l) as [rest [x | e]] eqn:Hp; [ | done]. case_bool_decide as Hrest; [ | done]. intros [= <-]. subst.
    destruct (Hc _ _ _ Hl Hp) as [? ->]. by rewrite app_nil_r.
Qed.
