(* ===== verification/VmmContract.v ===== *)
(** The Machine contract of [crates/soma-vmm]: identifiers, machine dimensions,
    requests with their bounds, receipts and failures ([ids.rs], [spec.rs],
    [request/], [receipt.rs], [error.rs]).  A constructor that validates is a
    function to [Result]; the [wf_] predicates say what its success guarantees. *)

From Stdlib Require Import String.
From stdpp Require Import strings.
From S2P Require Import Prelude Bytes.
From stdpp Require Import options.

(** * Identifiers ([ids.rs]) *)

Record OperationId : Type := mkOperationId { operation_bytes : bytes }.
Record InstanceId : Type := mkInstanceId { instance_bytes : bytes }.
Record GenerationId : Type := mkGenerationId { generation_bytes : bytes }.

Inductive IdError : Type :=
| IdError_AllZero (label : string).

(** [validated_id!]'s test on the fixed-width array. *)
Definition id_all_zero (b : bytes) : bool := forallb (fun byte => byte =? 0) b.

Definition OperationId_new (b : bytes) : Result OperationId IdError :=
  if id_all_zero b then Err (IdError_AllZero "operation") else Ok (mkOperationId b).
Definition InstanceId_new (b : bytes) : Result InstanceId IdError :=
  if id_all_zero b then Err (IdError_AllZero "instance") else Ok (mkInstanceId b).
Definition GenerationId_new (b : bytes) : Result GenerationId IdError :=
  if id_all_zero b then Err (IdError_AllZero "generation") else Ok (mkGenerationId b).

(** The invariant of an identifier of [w] bytes: the array type fixes the width,
    [new] excludes zero. *)
Definition wf_id (w : nat) (b : bytes) : Prop :=
  length b = w /\ all_bytes b /\ id_all_zero b = false.

(** * Machine dimensions ([spec.rs])

    [NonZeroU16] and [NonZeroU64] wrappers are their value. *)

Inductive SpecError : Type :=
| SpecError_Zero (field : string).

Definition VcpuCount_new (value : Z) : Result Z SpecError :=
  if value =? 0 then Err (SpecError_Zero "vCPU count") else Ok value.
Definition MemoryBytes_new (value : Z) : Result Z SpecError :=
  if value =? 0 then Err (SpecError_Zero "memory bytes") else Ok value.
Definition DiskBytes_new (value : Z) : Result Z SpecError :=
  if value =? 0 then Err (SpecError_Zero "writable disk bytes") else Ok value.

Record MachineSpec : Type := mkMachineSpec {
  vcpus : Z;
  memory : Z;
  writable_disk : Z;
}.

Record Generation : Type := mkGeneration {
  generation_id : GenerationId;
  generation_machine : MachineSpec;
}.

(** * Requests ([request/]) *)

Inductive CommandError : Type :=
| CommandError_Empty (field : string)
| CommandError_ContainsNul (field : string)
| CommandError_NotAbsolute (field : string)
| CommandError_TooLarge (field : string)
| CommandError_Zero (field : string).

Definition TimeoutMillis_new (value : Z) : Result Z CommandError :=
  if value =? 0 then Err (CommandError_Zero "timeout milliseconds")
  else if value >? 3600000 then Err (CommandError_TooLarge "timeout milliseconds")
  else Ok value.

Definition OutputBytes_new (value : Z) : Result Z CommandError :=
  if value =? 0 then Err (CommandError_Zero "output bytes")
  else if value >? 16 * 1024 * 1024 then Err (CommandError_TooLarge "output bytes")
  else Ok value.

Record ExecutionLimits : Type := mkExecutionLimits {
  limit_timeout : Z;
  limit_output : Z;
}.

Definition len (l : bytes) : Z := Z.of_nat (length l).

Definition validate_command_bytes (b : bytes) (field : string) (empty_allowed : bool)
    (maximum : Z) : Result unit CommandError :=
  if negb empty_allowed && (len b =? 0) then Err (CommandError_Empty field)
  else if existsb (fun byte => byte =? 0) b then Err (CommandError_ContainsNul field)
  else if len b >? maximum then Err (CommandError_TooLarge field)
  else Ok tt.

Definition starts_with_slash (b : bytes) : bool :=
  match b with c :: _ => c =? 47 | [] => false end.

Definition Program_new (b : bytes) : Result bytes CommandError :=
  let? _ := validate_command_bytes b "program" false 4096 in
  if negb (starts_with_slash b) then Err (CommandError_NotAbsolute "program") else Ok b.

Definition Argument_new (b : bytes) : Result bytes CommandError :=
  let? _ := validate_command_bytes b "argument" true 131072 in
  Ok b.

Record Execute : Type := mkExecute {
  execute_operation_id : OperationId;
  execute_instance_id : InstanceId;
  execute_program : bytes;
  execute_arguments : list bytes;
  execute_limits : ExecutionLimits;
}.

(** [try_fold] of [usize::checked_add] over the argument lengths. *)
Fixpoint checked_argument_bytes (total : Z) (arguments : list bytes) : option Z :=
  match arguments with
  | [] => Some total
  | a :: rest => match checked_add_u64 total (len a) with
                 | Some total' => checked_argument_bytes total' rest
                 | None => None
                 end
  end.

Definition Execute_new (operation_id : OperationId) (instance_id : InstanceId)
    (program : bytes) (arguments : list bytes) (limits : ExecutionLimits)
    : Result Execute CommandError :=
  if Z.of_nat (length arguments) >? 4096 then Err (CommandError_TooLarge "argument count")
  else match checked_argument_bytes 0 arguments with
       | None => Err (CommandError_TooLarge "argument bytes")
       | Some total =>
           if total >? 1024 * 1024 then Err (CommandError_TooLarge "argument bytes")
           else Ok (mkExecute operation_id instance_id program arguments limits)
       end.

Record Launch : Type := mkLaunch {
  launch_operation_id : OperationId;
  launch_instance_id : InstanceId;
  launch_generation : Generation;
}.

Record Stop : Type := mkStop {
  stop_operation_id : OperationId;
  stop_instance_id : InstanceId;
}.

(** * Receipts ([receipt.rs]) *)

Inductive Milestone : Type :=
| Milestone_RequestAccepted
| Milestone_ArtifactsVerified
| Milestone_MachineRestored
| Milestone_GuestAuthenticated
| Milestone_GenerationAcknowledged
| Milestone_IdentityRepaired
| Milestone_NetworkRepaired
| Milestone_FirstCommandSucceeded
| Milestone_Ready
| Milestone_RollbackStarted
| Milestone_CleanupCompleted
| Milestone_StopRequested
| Milestone_Stopped.

(** [Milestones(Vec<Milestone>)] and its [push]. *)
Abbreviation Milestones := (list Milestone).
Definition milestones_push (ms : Milestones) (m : Milestone) : Milestones := ms ++ [m].

Inductive ExitStatus : Type :=
| ExitStatus_Code (code : Z)
| ExitStatus_Signal (signal : Z)
| ExitStatus_TimedOut
| ExitStatus_OutputLimit.

Inductive CleanupEvidence : Type :=
| CleanupEvidence_NotRequired
| CleanupEvidence_Complete
| CleanupEvidence_Incomplete.

Record Ready : Type := mkReady {
  ready_operation_id : OperationId;
  ready_instance_id : InstanceId;
  ready_generation_id : GenerationId;
  ready_machine : MachineSpec;
  ready_milestones : Milestones;
}.

Record Executed : Type := mkExecuted {
  executed_operation_id : OperationId;
  executed_instance_id : InstanceId;
  executed_status : ExitStatus;
  executed_stdout : bytes;
  executed_stderr : bytes;
}.

Record Stopped : Type := mkStopped {
  stopped_operation_id : OperationId;
  stopped_instance_id : InstanceId;
  stopped_guest_acknowledged : bool;
  stopped_forced : bool;
  stopped_cleanup : CleanupEvidence;
  stopped_milestones : Milestones;
}.

(** * Failures ([error.rs]) *)

Inductive FailureKind : Type :=
| FailureKind_OperationConflict
| FailureKind_OperationCapacityExceeded
| FailureKind_InvalidLifecycle
| FailureKind_GenerationVerificationFailed
| FailureKind_RestoreFailed
| FailureKind_GuestAuthenticationFailed
| FailureKind_GenerationAcknowledgementFailed
| FailureKind_IdentityRepairFailed
| FailureKind_NetworkRepairFailed
| FailureKind_ReadinessProbeFailed
| FailureKind_InstanceMismatch
| FailureKind_ExecuteFailed
| FailureKind_StopFailed.

Inductive FailurePhase : Type :=
| FailurePhase_Idempotency
| FailurePhase_Lifecycle
| FailurePhase_ArtifactVerification
| FailurePhase_Restore
| FailurePhase_GuestAuthentication
| FailurePhase_GenerationAcknowledgement
| FailurePhase_IdentityRepair
| FailurePhase_NetworkRepair
| FailurePhase_ReadinessProbe
| FailurePhase_Execute
| FailurePhase_Stop.

Inductive Recovery : Type :=
| Recovery_DoNotRetry
| Recovery_ReplaceMachine
| Recovery_RecertifyGeneration
| Recovery_RepairHost.

Record Failure : Type := mkFailure {
  failure_kind : FailureKind;
  failure_phase : FailurePhase;
  failure_recovery : Recovery;
  failure_milestones : Milestones;
  failure_cleanup : CleanupEvidence;
}.

(** * Decidable equality *)

#[export] Instance OperationId_eq_dec : EqDecision OperationId.
Proof. solve_decision. Defined.
#[export] Instance InstanceId_eq_dec : EqDecision InstanceId.
Proof. solve_decision. Defined.
#[export] Instance GenerationId_eq_dec : EqDecision GenerationId.
Proof. solve_decision. Defined.
#[export] Instance MachineSpec_eq_dec : EqDecision MachineSpec.
Proof. solve_decision. Defined.
#[export] Instance Generation_eq_dec : EqDecision Generation.
Proof. solve_decision. Defined.
#[export] Instance ExecutionLimits_eq_dec : EqDecision ExecutionLimits.
Proof. solve_decision. Defined.
#[export] Instance Execute_eq_dec : EqDecision Execute.
Proof. solve_decision. Defined.
#[export] Instance Launch_eq_dec : EqDecision Launch.
Proof. solve_decision. Defined.
#[export] Instance Stop_eq_dec : EqDecision Stop.
Proof. solve_decision. Defined.
#[export] Instance Milestone_eq_dec : EqDecision Milestone.
Proof. solve_decision. Defined.
#[export] Instance ExitStatus_eq_dec : EqDecision ExitStatus.
Proof. solve_decision. Defined.

(** [OperationId] is the key of the ledger's [HashMap]. *)
#[export] Instance OperationId_countable : Countable OperationId.
Proof.
  refine (inj_countable' operation_bytes mkOperationId _). by intros [b].
Defined.

(** * What the constructors guarantee *)

Definition wf_machine_spec (s : MachineSpec) : Prop :=
  0 < vcpus s <= U16_MAX /\ 0 < memory s <= U64_MAX /\ 0 < writable_disk s <= U64_MAX.

Definition wf_launch (l : Launch) : Prop :=
  wf_id 16 (operation_bytes (launch_operation_id l)) /\
  wf_id 16 (instance_bytes (launch_instance_id l)) /\
  wf_id 32 (generation_bytes (generation_id (launch_generation l))) /\
  wf_machine_spec (generation_machine (launch_generation l)).

Definition wf_stop (s : Stop) : Prop :=
  wf_id 16 (operation_bytes (stop_operation_id s)) /\
  wf_id 16 (instance_bytes (stop_instance_id s)).

Definition wf_limits (l : ExecutionLimits) : Prop :=
  0 < limit_timeout l <= 3600000 /\ 0 < limit_output l <= 16 * 1024 * 1024.

Definition no_nul (b : bytes) : Prop := all_bytes b /\ Forall (fun byte => byte <> 0) b.

Definition wf_program (b : bytes) : Prop :=
  no_nul b /\ starts_with_slash b = true /\ len b <= 4096.

Definition wf_argument (b : bytes) : Prop := no_nul b /\ len b <= 131072.

Definition argument_bytes (arguments : list bytes) : Z := foldr (fun a n => len a + n) 0 arguments.

Definition wf_execute (e : Execute) : Prop :=
  wf_id 16 (operation_bytes (execute_operation_id e)) /\
  wf_id 16 (instance_bytes (execute_instance_id e)) /\
  wf_program (execute_program e) /\
  Forall wf_argument (execute_arguments e) /\
  Z.of_nat (length (execute_arguments e)) <= 4096 /\
  argument_bytes (execute_arguments e) <= 1024 * 1024 /\
  wf_limits (execute_limits e).

Lemma len_nonneg b : 0 <= len b.
Proof. unfold len. lia. Qed.

Lemma argument_bytes_nonneg args : 0 <= argument_bytes args.
Proof. induction args as [ | a args IH]; simpl; [lia | pose proof (len_nonneg a); lia]. Qed.

Lemma checked_argument_bytes_spec args total :
  0 <= total ->
  checked_argument_bytes total args =
    if total + argument_bytes args <=? U64_MAX then Some (total + argument_bytes args) else
    match args with [] => Some total | _ => None end.
Proof.
  revert total; induction args as [ | a args IH]; intros total Ht; simpl.
  - rewrite Z.add_0_r. by case_match.
  - pose proof (len_nonneg a). pose proof (argument_bytes_nonneg args).
    unfold checked_add_u64. destruct (Z.leb_spec (total + len a) U64_MAX).
    + rewrite IH by lia. rewrite Z.add_assoc.
      destruct (Z.leb_spec (total + len a + argument_bytes args) U64_MAX); [done | ].
      destruct args; [simpl in *; lia | done].
    + by replace (total + (len a + argument_bytes args) <=? U64_MAX) with false by lia.
Qed.

(** The aggregate bound the overflow-checked fold enforces is the bound on the sum. *)
Lemma Execute_new_ok o i p args l e :
  Execute_new o i p args l = Ok e <->
  e = mkExecute o i p args l /\ Z.of_nat (length args) <= 4096 /\
  argument_bytes args <= 1024 * 1024.
Proof.
  unfold Execute_new. rewrite checked_argument_bytes_spec by lia.
  pose proof (argument_bytes_nonneg args). unfold U64_MAX. rewrite !Z.add_0_l.
  split.
  - intros Hok. destruct args; split_matches; zbool; simpl in *; split_and!; try done; lia.
  - intros (-> & H1 & H2).
    destruct (Z.gtb_spec (Z.of_nat (length args)) 4096); [lia | ].
    destruct (Z.leb_spec (argument_bytes args) (2 ^ 64 - 1)); [ | lia].
    by destruct (Z.gtb_spec (argument_bytes args) (1024 * 1024)); [lia | ].
Qed.

Lemma validate_command_bytes_ok b field e max :
  validate_command_bytes b field e max = Ok tt <->
  (e = true \/ b <> []) /\ Forall (fun byte => byte <> 0) b /\ len b <= max.
Proof.
  unfold validate_command_bytes.
  assert (Hex : existsb (fun byte => byte =? 0) b = false <-> Forall (fun byte => byte <> 0) b).
  { induction b as [ | c b IH]; simpl; [by split | ].
    by rewrite orb_false_iff, Forall_cons, IH, Z.eqb_neq. }
  assert (Hemp : len b = 0 <-> b = []) by (destruct b; unfold len; simpl; split; (done || lia)).
  destruct (negb e && (len b =? 0)) eqn:E1.
  { apply andb_true_iff in E1 as [He Hb]. zbool. split; [done | ].
    intros ([-> | Hne] & _); [done | by apply Hemp in Hb]. }
  destruct (existsb _ b) eqn:E2.
  { split; [done | ]. intros (_ & Hf & _). apply Hex in Hf. congruence. }
  destruct (Z.gtb_spec (len b) max); split; try done; [lia | ].
  intros _. split_and!; [ | by apply Hex | done].
  destruct e; [by left | ]. right. intros ->. done.
Qed.
