(* ===== verification/VmmPlatform.v ===== *)
(** The platform seam of [crates/soma-vmm/src/platform/]: observed progress and
    its assessment against the one legal order, the type-state tokens built from
    it, the [Platform] trait as a class, and the adapter that ships today. *)

From S2P Require Import Prelude Bytes VmmContract.
From stdpp Require Import options.

(** * Progress ([progress.rs]) *)

Inductive RestoreStep : Type :=
| RestoreStep_ArtifactsVerified
| RestoreStep_MachineRestored.

Inductive ReadinessStep : Type :=
| ReadinessStep_GuestAuthenticated
| ReadinessStep_GenerationAcknowledged
| ReadinessStep_IdentityRepaired
| ReadinessStep_NetworkRepaired.

#[export] Instance RestoreStep_eq_dec : EqDecision RestoreStep.
Proof. solve_decision. Defined.
#[export] Instance ReadinessStep_eq_dec : EqDecision ReadinessStep.
Proof. solve_decision. Defined.

Definition RESTORE_SEQUENCE : list RestoreStep :=
  [RestoreStep_ArtifactsVerified; RestoreStep_MachineRestored].
Definition READINESS_SEQUENCE : list ReadinessStep :=
  [ReadinessStep_GuestAuthenticated; ReadinessStep_GenerationAcknowledged;
   ReadinessStep_IdentityRepaired; ReadinessStep_NetworkRepaired].

(** [ProgressTrace<Step, CAPACITY>]: a fixed array of optional steps. *)
Record ProgressTrace (Step : Type) : Type := mkProgressTrace {
  trace_steps : list (option Step);
  trace_observed : nat;
}.
Arguments mkProgressTrace {Step} _ _.
Arguments trace_steps {Step} _.
Arguments trace_observed {Step} _.

Record ProgressAssessment : Type := mkProgressAssessment {
  assessment_matched : nat;
  assessment_observed : nat;
  assessment_capacity : nat;
  assessment_ordered : bool;
}.

Section trace.
Context {Step : Type} `{EqDecision Step}.

Fixpoint trace_fill (slots : list (option Step)) (index : nat) (steps : list Step)
    : list (option Step) :=
  match steps with
  | [] => slots
  | step :: rest => trace_fill (<[index := Some step]> slots) (S index) rest
  end.

Definition trace_from_steps (capacity : nat) (steps : list Step) : ProgressTrace Step :=
  {| trace_steps := trace_fill (replicate capacity None) 0 (take capacity steps);
     trace_observed := length steps |}.

(** The [while] loop of [assess]; [left] is [comparable - matched]. *)
Fixpoint trace_match_loop (left matched : nat) (slots : list (option Step))
    (expected : list Step) : nat :=
  match left with
  | O => matched
  | S left' =>
      match slots !! matched, expected !! matched with
      | Some slot, Some want =>
          if bool_decide (slot = Some want)
          then trace_match_loop left' (S matched) slots expected else matched
      | _, _ => matched
      end
  end.

Definition trace_assess (t : ProgressTrace Step) (expected : list Step)
    : ProgressAssessment :=
  let capacity := length expected in
  let comparable := Nat.min (trace_observed t) capacity in
  let matched := trace_match_loop comparable 0 (trace_steps t) expected in
  {| assessment_matched := matched;
     assessment_observed := trace_observed t;
     assessment_capacity := capacity;
     assessment_ordered :=
       (trace_observed t <=? capacity)%nat && (matched =? trace_observed t)%nat |}.
End trace.

Definition is_complete (a : ProgressAssessment) : bool :=
  assessment_ordered a && (assessment_observed a =? assessment_capacity a)%nat.
Definition is_ordered_prefix (a : ProgressAssessment) : bool := assessment_ordered a.

Definition RestoreProgress_assess (steps : list RestoreStep) : ProgressAssessment :=
  trace_assess (trace_from_steps 2 steps) RESTORE_SEQUENCE.
Definition ReadinessProgress_assess (steps : list ReadinessStep) : ProgressAssessment :=
  trace_assess (trace_from_steps 4 steps) READINESS_SEQUENCE.

(** * Restore ([restore.rs]) *)

Inductive RestoreFailurePoint : Type :=
| RestoreFailurePoint_ArtifactVerification
| RestoreFailurePoint_Restore.

(** The token carries nothing but its existence. *)
Record RestoredMachine : Type := mkRestoredMachine { restored_private : unit }.

Record RestoreFailure : Type := mkRestoreFailure {
  restore_failure_point : RestoreFailurePoint;
  restore_failure_recovery : Recovery;
}.

Definition restore_point (index : nat) : RestoreFailurePoint :=
  if (index =? 0)%nat then RestoreFailurePoint_ArtifactVerification
  else RestoreFailurePoint_Restore.

Definition RestoreFailure_contract_violation (a : ProgressAssessment) : RestoreFailure :=
  mkRestoreFailure (restore_point (assessment_matched a)) Recovery_RepairHost.

Definition RestoreFailure_from_progress (progress : list RestoreStep) (recovery : Recovery)
    : RestoreFailure :=
  let assessment := RestoreProgress_assess progress in
  if is_ordered_prefix assessment
     && (assessment_observed assessment <? length RESTORE_SEQUENCE)%nat
  then mkRestoreFailure (restore_point (assessment_observed assessment)) recovery
  else RestoreFailure_contract_violation assessment.

Definition RestoredMachine_from_observation (progress : list RestoreStep)
    : Result RestoredMachine RestoreFailure :=
  if is_complete (RestoreProgress_assess progress) then Ok (mkRestoredMachine tt)
  else Err (RestoreFailure_from_progress progress Recovery_RepairHost).

Definition RestoreFailure_completed (f : RestoreFailure) : nat :=
  match restore_failure_point f with
  | RestoreFailurePoint_ArtifactVerification => 0
  | RestoreFailurePoint_Restore => 1
  end.

(** * Readiness ([readiness.rs]) *)

Inductive ReadinessFailurePoint : Type :=
| ReadinessFailurePoint_GuestAuthentication
| ReadinessFailurePoint_GenerationAcknowledgement
| ReadinessFailurePoint_IdentityRepair
| ReadinessFailurePoint_NetworkRepair
| ReadinessFailurePoint_ReadinessProbe.

Record ReadyAuthenticatedGuest : Type := mkReadyAuthenticatedGuest { guest_private : unit }.

Record ReadinessFailure : Type := mkReadinessFailure {
  readiness_failure_point : ReadinessFailurePoint;
  readiness_failure_recovery : Recovery;
}.

Definition readiness_point (index : nat) : ReadinessFailurePoint :=
  match index with
  | 0%nat => ReadinessFailurePoint_GuestAuthentication
  | 1%nat => ReadinessFailurePoint_GenerationAcknowledgement
  | 2%nat => ReadinessFailurePoint_IdentityRepair
  | 3%nat => ReadinessFailurePoint_NetworkRepair
  | _ => ReadinessFailurePoint_ReadinessProbe
  end.

Definition ReadinessFailure_contract_violation (a : ProgressAssessment) : ReadinessFailure :=
  mkReadinessFailure (readiness_point (assessment_matched a)) Recovery_RepairHost.

Definition ReadinessFailure_from_progress (progress : list ReadinessStep)
    (recovery : Recovery) : ReadinessFailure :=
  let assessment := ReadinessProgress_assess progress in
  if is_ordered_prefix assessment
     && (assessment_observed assessment <=? length READINESS_SEQUENCE)%nat
  then mkReadinessFailure (readiness_point (assessment_observed assessment)) recovery
  else ReadinessFailure_contract_violation assessment.

Definition ReadyAuthenticatedGuest_from_observation (progress : list ReadinessStep)
    (readiness_status : ExitStatus) : Result ReadyAuthenticatedGuest ReadinessFailure :=
  if negb (is_complete (ReadinessProgress_assess progress))
  then Err (ReadinessFailure_from_progress progress Recovery_RepairHost)
  else if bool_decide (readiness_status <> ExitStatus_Code 0)
  then Err (mkReadinessFailure ReadinessFailurePoint_ReadinessProbe Recovery_ReplaceMachine)
  else Ok (mkReadyAuthenticatedGuest tt).

Definition ReadinessFailure_completed (f : ReadinessFailure) : nat :=
  match readiness_failure_point f with
  | ReadinessFailurePoint_GuestAuthentication => 0
  | ReadinessFailurePoint_GenerationAcknowledgement => 1
  | ReadinessFailurePoint_IdentityRepair => 2
  | ReadinessFailurePoint_NetworkRepair => 3
  | ReadinessFailurePoint_ReadinessProbe => 4
  end.

(** * Outcomes and the trait ([outcome.rs], [interface.rs]) *)

Record PlatformFailure : Type := mkPlatformFailure { platform_failure_recovery : Recovery }.

Record PlatformExecution : Type := mkPlatformExecution {
  execution_status : ExitStatus;
  execution_stdout : bytes;
  execution_stderr : bytes;
}.

Record PlatformStop : Type := mkPlatformStop {
  platform_guest_acknowledged : bool;
  platform_forced : bool;
}.

(** [trait Platform]: an implementation of state [P].  [&mut self] returns the
    state it leaves; the guest token holds only a unit, so [&mut guest] cannot
    change it. *)
Class Platform (P : Type) : Type := {
  platform_verify_and_restore :
    P -> Launch -> P * Result RestoredMachine RestoreFailure;
  platform_authenticate_repair_and_ready :
    P -> Launch -> RestoredMachine -> P * Result ReadyAuthenticatedGuest ReadinessFailure;
  platform_execute :
    P -> Execute -> ReadyAuthenticatedGuest -> P * Result PlatformExecution PlatformFailure;
  platform_stop :
    P -> Stop -> option ReadyAuthenticatedGuest -> P * Result PlatformStop PlatformFailure;
  platform_rollback :
    P -> Launch -> P * Result unit PlatformFailure;
}.

(** * The shipped adapter ([unavailable.rs]) *)

Inductive UnavailablePlatform : Type := mkUnavailablePlatform.

#[export] Instance UnavailablePlatform_Platform : Platform UnavailablePlatform := {
  platform_verify_and_restore p _ := (p, RestoredMachine_from_observation []);
  platform_authenticate_repair_and_ready p _ _ :=
    (p, ReadyAuthenticatedGuest_from_observation [] (ExitStatus_Code 1));
  platform_execute p _ _ := (p, Err (mkPlatformFailure Recovery_RepairHost));
  platform_stop p _ _ := (p, Err (mkPlatformFailure Recovery_RepairHost));
  platform_rollback p _ := (p, Ok tt);
}.

(** * What the assessment decides *)

(** How many leading steps two sequences share. *)
Fixpoint common_prefix {A} `{EqDecision A} (l k : list A) : nat :=
  match l, k with
  | x :: l', y :: k' => if bool_decide (x = y) then S (common_prefix l' k') else 0
  | _, _ => 0
  end.

Section assess.
Context {Step : Type} `{EqDecision Step}.
Implicit Types (steps expected : list Step).

Lemma trace_fill_lookup (slots : list (option Step)) index steps i :
  (index + length steps <= length slots)%nat ->
  trace_fill slots index steps !! i =
    if bool_decide (index <= i < index + length steps)%nat
    then Some <$> steps !! (i - index)%nat else slots !! i.
Proof.
  revert slots index; induction steps as [ | s steps IH]; intros slots index Hlen; simpl in *.
  - case_bool_decide; [lia | done].
  - rewrite IH by (rewrite length_insert; lia).
    destruct (decide (i = index)) as [-> | Hne].
    + rewrite !bool_decide_false, bool_decide_true by lia.
      rewrite Nat.sub_diag. simpl. by apply list_lookup_insert_eq; lia.
    + destruct (decide (S index <= i < S index + length steps)%nat).
      * rewrite !bool_decide_true by lia.
        by replace (i - index)%nat with (S (i - S index)) by lia.
      * rewrite !bool_decide_false by lia. by rewrite list_lookup_insert_ne by lia.
Qed.

Lemma trace_from_steps_lookup capacity steps i :
  (i < Nat.min (length steps) capacity)%nat ->
  trace_steps (trace_from_steps capacity steps) !! i = Some <$> steps !! i.
Proof.
  intros Hi. simpl. rewrite trace_fill_lookup, length_take;
    [ | rewrite length_replicate, length_take; lia].
  rewrite bool_decide_true, Nat.sub_0_r by lia. by rewrite lookup_take_lt by lia.
Qed.

(** The loop counts the shared prefix of the observed and expected steps. *)
Lemma trace_match_loop_spec slots expected steps left matched :
  (forall i, i < matched + left -> slots !! i = Some <$> steps !! i)%nat ->
  (matched + left = Nat.min (length steps) (length expected))%nat ->
  trace_match_loop left matched slots expected =
    (matched + common_prefix (drop matched steps) (drop matched expected))%nat.
Proof.
  revert matched; induction left as [ | left IH]; intros matched Hslots Hlen; simpl.
  - destruct (decide (length steps <= matched)%nat).
    + rewrite (drop_ge steps) by lia. simpl. lia.
    + rewrite (drop_ge expected) by lia. destruct (drop matched steps); simpl; lia.
  - destruct (lookup_lt_is_Some_2 steps matched) as [x Hx]; [lia | ].
    destruct (lookup_lt_is_Some_2 expected matched) as [y Hy]; [lia | ].
    rewrite (Hslots matched), Hx, Hy by lia. simpl.
    rewrite (drop_S _ _ _ Hx), (drop_S _ _ _ Hy). simpl.
    destruct (decide (x = y)) as [-> | Hne].
    + rewrite !bool_decide_true by done. rewrite IH; [lia | | lia].
      intros i Hi. apply Hslots. lia.
    + rewrite !bool_decide_false by congruence. lia.
Qed.

Lemma trace_match_loop_le left matched (slots : list (option Step)) expected :
  (trace_match_loop left matched slots expected <= matched + left)%nat.
Proof.
  revert matched; induction left as [ | left IH]; intros m; simpl; [lia | ].
  repeat case_match; try lia. specialize (IH (S m)). lia.
Qed.

Lemma common_prefix_prefix steps expected :
  take (common_prefix steps expected) expected `prefix_of` steps.
Proof.
  revert expected; induction steps as [ | x steps IH]; intros [ | y expected]; simpl;
    try apply prefix_nil.
  case_bool_decide; [subst; by apply prefix_cons | apply prefix_nil].
Qed.

Lemma common_prefix_full steps expected :
  common_prefix steps expected = length steps <-> steps `prefix_of` expected.
Proof.
  revert expected; induction steps as [ | x steps IH]; intros [ | y expected]; simpl.
  - split; [intros; apply prefix_nil | done].
  - split; [intros; apply prefix_nil | done].
  - split; [done | ]. intros ?%prefix_nil_inv. done.
  - case_bool_decide as Heq.
    + subst. rewrite Nat.succ_inj_wd, IH. split; [apply prefix_cons | apply prefix_cons_inv_2].
    + split; [done | ]. intros Hp. by apply prefix_cons_inv_1 in Hp.
Qed.

Lemma assess_matched steps expected :
  assessment_matched (trace_assess (trace_from_steps (length expected) steps) expected) =
  common_prefix steps expected.
Proof.
  simpl. rewrite (trace_match_loop_spec _ _ steps); [done | | done].
  intros i Hi. by apply trace_from_steps_lookup.
Qed.

Lemma assess_ordered steps expected :
  assessment_ordered (trace_assess (trace_from_steps (length expected) steps) expected) = true
  <-> steps `prefix_of` expected.
Proof.
  rewrite <- common_prefix_full, <- assess_matched. simpl.
  rewrite andb_true_iff, Nat.leb_le, Nat.eqb_eq. split; [by intros [_ ?] | ].
  intros Heq. split; [ | done].
  pose proof (trace_match_loop_le (length steps `min` length expected) 0
    (trace_fill (replicate (length expected) None) 0 (take (length expected) steps)) expected).
  lia.
Qed.

Lemma assess_complete steps expected :
  is_complete (trace_assess (trace_from_steps (length expected) steps) expected) = true
  <-> steps = expected.
Proof.
  unfold is_complete. rewrite andb_true_iff, assess_ordered. simpl. rewrite Nat.eqb_eq.
  split.
  - intros [[k ->] Hlen]. rewrite length_app in Hlen.
    destruct k; simpl in Hlen; [by rewrite app_nil_r | lia].
  - by intros ->.
Qed.
End assess.

(** A [RestoredMachine] token is handed out exactly when the adapter observed
    artifact verification and then machine restore, in that order and nothing
    else; otherwise the failure it reports claims no more milestones than the
    observation contains, in order. *)
Theorem restored_machine_token progress :
  match RestoredMachine_from_observation progress with
  | Ok _ => progress = RESTORE_SEQUENCE
  | Err f => progress <> RESTORE_SEQUENCE /\
             take (RestoreFailure_completed f) RESTORE_SEQUENCE `prefix_of` progress
  end.
Proof.
  unfold RestoredMachine_from_observation, RestoreProgress_assess.
  pose proof (assess_complete progress RESTORE_SEQUENCE) as Hc.
  change (length RESTORE_SEQUENCE) with 2%nat in Hc.
  destruct (is_complete _); [by apply Hc | ]. split; [by intros ?%Hc | ].
  unfold RestoreFailure_from_progress, RestoreProgress_assess, is_ordered_prefix.
  pose proof (assess_ordered progress RESTORE_SEQUENCE) as Ho.
  pose proof (assess_matched progress RESTORE_SEQUENCE) as Hm.
  change (length RESTORE_SEQUENCE) with 2%nat in *.
  assert (Hpt : forall n, (take (RestoreFailure_completed
     (mkRestoreFailure (restore_point n) Recovery_RepairHost)) RESTORE_SEQUENCE)
     `prefix_of` take n RESTORE_SEQUENCE).
  { intros [ | [ | n]]; simpl; [apply prefix_nil | done | by apply prefix_cons, prefix_nil]. }
  destruct (_ && _) eqn:E; cbn [RestoreFailure_completed restore_failure_point].
  - apply andb_true_iff in E as [Eo Eb]. apply Ho in Eo as [k Hk].
    apply Nat.ltb_lt in Eb. change (length progress < 2)%nat in Eb.
    destruct progress as [ | s [ | s' progress]]; simpl in *;
      [apply prefix_nil | injection Hk as <- _; reflexivity | lia].
  - etrans; [apply Hpt | ]. rewrite Hm. apply common_prefix_prefix.
Qed.

(** A [ReadyAuthenticatedGuest] token is handed out exactly when the guest was
    authenticated, acknowledged, identity-repaired and network-repaired in that
    order and the readiness command exited with code zero; otherwise the failure
    claims no more milestones than were observed, in order. *)
Theorem ready_guest_token progress status :
  match ReadyAuthenticatedGuest_from_observation progress status with
  | Ok _ => progress = READINESS_SEQUENCE /\ status = ExitStatus_Code 0
  | Err f => (progress <> READINESS_SEQUENCE \/ status <> ExitStatus_Code 0) /\
             take (ReadinessFailure_completed f) READINESS_SEQUENCE `prefix_of` progress
  end.
Proof.
  unfold ReadyAuthenticatedGuest_from_observation, ReadinessProgress_assess.
  pose proof (assess_complete progress READINESS_SEQUENCE) as Hc.
  change (length READINESS_SEQUENCE) with 4%nat in Hc.
  destruct (is_complete _); cbn [negb].
  { pose proof (proj1 Hc eq_refl) as ->. case_bool_decide as Hs; [ | ].
    - split; [by right | reflexivity].
    - split; [done | ]. by destruct (decide (status = ExitStatus_Code 0)). }
  split; [left; by intros ?%Hc | ].
  unfold ReadinessFailure_from_progress, ReadinessProgress_assess, is_ordered_prefix.
  pose proof (assess_ordered progress READINESS_SEQUENCE) as Ho.
  pose proof (assess_matched progress READINESS_SEQUENCE) as Hm.
  change (length READINESS_SEQUENCE) with 4%nat in *.
  assert (Hpt : forall n r, (take (ReadinessFailure_completed
     (mkReadinessFailure (readiness_point n) r)) READINESS_SEQUENCE)
     `prefix_of` take n READINESS_SEQUENCE).
  { intros [ | [ | [ | [ | [ | n]]]]] r; simpl; reflexivity. }
  destruct (_ && _) eqn:E.
  - apply andb_true_iff in E as [Eo _]. apply Ho in Eo as [k Hk].
    etrans; [apply Hpt | ]. change (assessment_observed _) with (length progress).
    by rewrite Hk, take_app_length.
  - etrans; [apply Hpt | ]. rewrite Hm. apply common_prefix_prefix.
Qed.
