(* ===== verification/VmmLedger.v ===== *)
(** The operation ledger of [crates/soma-vmm/src/operation.rs]: exact replay,
    conflict detection, bounded Execute retention and the one Stop record.

    A failed [debug_assert!] is [None]; [usize] sums saturate at [USIZE_MAX]. *)

From S2P Require Import Prelude Bytes VmmContract.
From stdpp Require Import options.

Definition MAX_OPERATION_RECEIPTS : Z := 1024.
Definition MAX_OPERATION_RECEIPT_BYTES : Z := 64 * 1024 * 1024.
Definition MAX_EXECUTE_RECEIPTS : Z := MAX_OPERATION_RECEIPTS - 2.

Record LaunchRecord : Type := mkLaunchRecord {
  launch_record_request : Launch;
  launch_record_outcome : Result Ready Failure;
}.

Record ExecuteRecord : Type := mkExecuteRecord {
  execute_record_request : Execute;
  execute_record_outcome : Result Executed Failure;
}.

Inductive StopRecord : Type :=
| StopRecord_Reaping (request : Stop)
| StopRecord_Complete (request : Stop) (outcome : Result Stopped Failure).

Definition StopRecord_request (r : StopRecord) : Stop :=
  match r with
  | StopRecord_Reaping request => request
  | StopRecord_Complete request _ => request
  end.

Inductive StopReplay : Type :=
| StopReplay_New
| StopReplay_Continue
| StopReplay_Complete (outcome : Result Stopped Failure).

Inductive OperationConflict : Type := mkOperationConflict.
Inductive OperationCapacity : Type := mkOperationCapacity.

Record OperationLedger : Type := mkOperationLedger {
  ledger_launch : option LaunchRecord;
  ledger_executes : gmap OperationId ExecuteRecord;
  ledger_stop : option StopRecord;
  ledger_retained_execute_bytes : Z;
}.

(** [OperationLedger::default()]. *)
Definition ledger_default : OperationLedger := mkOperationLedger None ∅ None 0.

(** * Receipt sizes *)

Definition usize_add (x y : Z) : Z := saturating_add USIZE_MAX x y.

(** [usize::try_from(u64)] succeeds on the 64-bit target. *)
Definition output_limit (request : Execute) : Z := limit_output (execute_limits request).

Definition execute_request_bytes (request : Execute) : Z :=
  foldl (fun total argument => usize_add total (len argument))
        (len (execute_program request)) (execute_arguments request).

Definition maximum_execute_receipt_bytes (request : Execute) : Z :=
  usize_add (execute_request_bytes request) (output_limit request).

Definition execute_receipt_bytes (request : Execute) (outcome : Result Executed Failure) : Z :=
  let output_bytes := match outcome with
    | Ok executed => usize_add (len (executed_stdout executed)) (len (executed_stderr executed))
    | Err _ => 0
    end in
  usize_add (execute_request_bytes request) output_bytes.

(** * Operations *)

Definition has_launch_id (l : OperationLedger) (id : OperationId) : bool :=
  match ledger_launch l with
  | Some record => bool_decide (launch_operation_id (launch_record_request record) = id)
  | None => false
  end.

Definition has_execute_id (l : OperationLedger) (id : OperationId) : bool :=
  match ledger_executes l !! id with Some _ => true | None => false end.

Definition has_stop_id (l : OperationLedger) (id : OperationId) : bool :=
  match ledger_stop l with
  | Some record => bool_decide (stop_operation_id (StopRecord_request record) = id)
  | None => false
  end.

Definition ensure_launch_capacity (l : OperationLedger) : Result unit OperationCapacity :=
  match ledger_launch l with Some _ => Err mkOperationCapacity | None => Ok tt end.

Definition ensure_execute_capacity (l : OperationLedger) (request : Execute)
    : Result unit OperationCapacity :=
  if Z.of_nat (size (ledger_executes l)) >=? MAX_EXECUTE_RECEIPTS then Err mkOperationCapacity
  else match checked_add_u64 (ledger_retained_execute_bytes l)
               (maximum_execute_receipt_bytes request) with
       | None => Err mkOperationCapacity
       | Some retained_bytes =>
           if retained_bytes >? MAX_OPERATION_RECEIPT_BYTES then Err mkOperationCapacity
           else Ok tt
       end.

Definition replay_launch (l : OperationLedger) (request : Launch)
    : Result (option (Result Ready Failure)) OperationConflict :=
  let id := launch_operation_id request in
  if has_execute_id l id || has_stop_id l id then Err mkOperationConflict
  else match ledger_launch l with
       | None => Ok None
       | Some record =>
           if bool_decide (launch_operation_id (launch_record_request record) <> id) then Ok None
           else if bool_decide (launch_record_request record = request)
           then Ok (Some (launch_record_outcome record))
           else Err mkOperationConflict
       end.

Definition record_launch (l : OperationLedger) (request : Launch)
    (outcome : Result Ready Failure) : option OperationLedger :=
  match ledger_launch l with
  | Some _ => None (* debug_assert: "Launch receipt already exists" *)
  | None => Some (mkOperationLedger (Some (mkLaunchRecord request outcome))
                    (ledger_executes l) (ledger_stop l) (ledger_retained_execute_bytes l))
  end.

Definition replay_execute (l : OperationLedger) (request : Execute)
    : Result (option (Result Executed Failure)) OperationConflict :=
  let id := execute_operation_id request in
  if has_launch_id l id || has_stop_id l id then Err mkOperationConflict
  else match ledger_executes l !! id with
       | None => Ok None
       | Some record =>
           if bool_decide (execute_record_request record = request)
           then Ok (Some (execute_record_outcome record))
           else Err mkOperationConflict
       end.

Definition record_execute (l : OperationLedger) (request : Execute)
    (outcome : Result Executed Failure) : option OperationLedger :=
  let retained_bytes := execute_receipt_bytes request outcome in
  let retained := usize_add (ledger_retained_execute_bytes l) retained_bytes in
  if retained >? MAX_OPERATION_RECEIPT_BYTES then None (* debug_assert *)
  else match ledger_executes l !! execute_operation_id request with
       | Some _ => None (* debug_assert: "new Execute replaced an existing receipt" *)
       | None =>
           Some (mkOperationLedger (ledger_launch l)
                   (<[execute_operation_id request := mkExecuteRecord request outcome]>
                      (ledger_executes l))
                   (ledger_stop l) retained)
       end.

Definition replay_stop (l : OperationLedger) (request : Stop)
    : Result StopReplay OperationConflict :=
  let id := stop_operation_id request in
  if has_launch_id l id || has_execute_id l id then Err mkOperationConflict
  else match ledger_stop l with
       | None => Ok StopReplay_New
       | Some (StopRecord_Reaping recorded) =>
           if bool_decide (recorded = request) then Ok StopReplay_Continue
           else Err mkOperationConflict
       | Some (StopRecord_Complete recorded outcome) =>
           if bool_decide (recorded = request) then Ok (StopReplay_Complete outcome)
           else Err mkOperationConflict
       end.

Definition admit_stop (l : OperationLedger) (request : Stop) : option OperationLedger :=
  match ledger_stop l with
  | Some _ => None (* debug_assert: "Stop operation already admitted" *)
  | None => Some (mkOperationLedger (ledger_launch l) (ledger_executes l)
                    (Some (StopRecord_Reaping request)) (ledger_retained_execute_bytes l))
  end.

Definition complete_stop (l : OperationLedger) (outcome : Result Stopped Failure)
    : option OperationLedger :=
  match ledger_stop l with
  | Some (StopRecord_Reaping request) =>
      Some (mkOperationLedger (ledger_launch l) (ledger_executes l)
              (Some (StopRecord_Complete request outcome)) (ledger_retained_execute_bytes l))
  | _ => None (* debug_assert: "Stop completed without an admitted operation" *)
  end.

(** * The ledger invariant *)

(** Receipts bytes the retained Execute records account for. *)
Definition retained_sum (m : gmap OperationId ExecuteRecord) : Z :=
  map_fold (fun _ r n => execute_receipt_bytes (execute_record_request r)
                           (execute_record_outcome r) + n) 0 m.

Record ledger_ok (l : OperationLedger) : Prop := {
  ledger_ok_keys : map_Forall (fun id r => execute_operation_id (execute_record_request r) = id)
                     (ledger_executes l);
  ledger_ok_launch_ids : forall r, ledger_launch l = Some r ->
    has_execute_id l (launch_operation_id (launch_record_request r)) = false /\
    has_stop_id l (launch_operation_id (launch_record_request r)) = false;
  ledger_ok_stop_ids : forall r, ledger_stop l = Some r ->
    has_execute_id l (stop_operation_id (StopRecord_request r)) = false;
  ledger_ok_count : Z.of_nat (size (ledger_executes l)) <= MAX_EXECUTE_RECEIPTS;
  ledger_ok_sum : ledger_retained_execute_bytes l = retained_sum (ledger_executes l);
  ledger_ok_bytes : 0 <= ledger_retained_execute_bytes l <= MAX_OPERATION_RECEIPT_BYTES;
}.

Lemma retained_sum_insert m id r :
  m !! id = None ->
  retained_sum (<[id := r]> m) =
  execute_receipt_bytes (execute_record_request r) (execute_record_outcome r) + retained_sum m.
Proof.
  intros Hid. unfold retained_sum. apply (map_fold_insert_L (fun _ r n => _ + n)); [ | done].
  intros. lia.
Qed.

Lemma usize_add_nonneg x y : 0 <= x -> 0 <= y -> 0 <= usize_add x y.
Proof. unfold usize_add, saturating_add, USIZE_MAX, U64_MAX. lia. Qed.

Lemma execute_request_bytes_nonneg r : 0 <= execute_request_bytes r.
Proof.
  unfold execute_request_bytes. generalize (len_nonneg (execute_program r)).
  generalize (len (execute_program r)).
  induction (execute_arguments r) as [ | a args IH]; intros n Hn; simpl; [done | ].
  apply IH, usize_add_nonneg; [done | apply len_nonneg].
Qed.

Lemma execute_receipt_bytes_nonneg r o : 0 <= execute_receipt_bytes r o.
Proof.
  unfold execute_receipt_bytes. apply usize_add_nonneg; [apply execute_request_bytes_nonneg | ].
  destruct o; [apply usize_add_nonneg; apply len_nonneg | done].
Qed.

Lemma ledger_ok_default : ledger_ok ledger_default.
Proof.
  by split.
Qed.

Lemma has_execute_id_false l id : has_execute_id l id = false <-> ledger_executes l !! id = None.
Proof. unfold has_execute_id. case_match; naive_solver. Qed.

(** An outcome whose output is within the request's allowance fits the room the
    capacity check reserved. *)
Definition output_within (request : Execute) (outcome : Result Executed Failure) : Prop :=
  match outcome with
  | Ok e => len (executed_stdout e) + len (executed_stderr e) <= output_limit request
  | Err _ => True
  end.

Lemma receipt_within_reservation request outcome :
  0 <= output_limit request -> output_within request outcome ->
  execute_receipt_bytes request outcome <= maximum_execute_receipt_bytes request.
Proof.
  unfold output_within, execute_receipt_bytes, maximum_execute_receipt_bytes,
    usize_add, saturating_add. destruct outcome; lia.
Qed.

Lemma record_launch_ok l request outcome :
  ledger_ok l -> replay_launch l request = Ok None -> ensure_launch_capacity l = Ok tt ->
  exists l', record_launch l request outcome = Some l' /\ ledger_ok l' /\
    ledger_launch l' = Some (mkLaunchRecord request outcome) /\
    ledger_executes l' = ledger_executes l /\ ledger_stop l' = ledger_stop l.
Proof.
  intros [] Hreplay Hcap. unfold ensure_launch_capacity, record_launch in *.
  destruct (ledger_launch l) as [r | ] eqn:El; [done | ]. eexists; split; [done | ].
  split; [ | done]. unfold replay_launch in Hreplay. rewrite El in Hreplay.
  destruct (has_execute_id l _) eqn:He; [done | ].
  destruct (has_stop_id l _) eqn:Hs; [done | ].
  split; simpl; try done. by intros r [= <-].
Qed.

Lemma record_execute_ok l request outcome :
  ledger_ok l -> replay_execute l request = Ok None ->
  ensure_execute_capacity l request = Ok tt -> 0 <= output_limit request ->
  output_within request outcome ->
  exists l', record_execute l request outcome = Some l' /\ ledger_ok l' /\
    ledger_launch l' = ledger_launch l /\ ledger_stop l' = ledger_stop l /\
    ledger_executes l' =
      <[execute_operation_id request := mkExecuteRecord request outcome]> (ledger_executes l).
Proof.
  intros Hl Hreplay Hcap Hlim Hout.
  pose proof (receipt_within_reservation _ _ Hlim Hout) as Hres.
  pose proof (execute_receipt_bytes_nonneg request outcome) as Hnn.
  destruct Hl as [Hkeys Hlids Hsids Hcount Hsum Hbytes].
  unfold ensure_execute_capacity, replay_execute in *.
  destruct (Z.geb_spec (Z.of_nat (size (ledger_executes l))) MAX_EXECUTE_RECEIPTS); [done | ].
  destruct (checked_add_u64 _ _) as [n | ] eqn:Hadd; [ | done].
  apply checked_add_u64_Some in Hadd as [-> Hmax].
  destruct (Z.gtb_spec (ledger_retained_execute_bytes l + maximum_execute_receipt_bytes request)
    MAX_OPERATION_RECEIPT_BYTES) as [ | Hfit]; [done | ].
  destruct (has_launch_id l _) eqn:Hlid; [done | ]. destruct (has_stop_id l _) eqn:Hsid; [done | ].
  destruct (ledger_executes l !! execute_operation_id request) as [r | ] eqn:Hlk;
    [by repeat case_bool_decide | ].
  assert (Hret : usize_add (ledger_retained_execute_bytes l) (execute_receipt_bytes request outcome)
    = ledger_retained_execute_bytes l + execute_receipt_bytes request outcome).
  { unfold usize_add, saturating_add, USIZE_MAX. lia. }
  unfold record_execute. rewrite Hret, Hlk.
  destruct (Z.gtb_spec (ledger_retained_execute_bytes l + execute_receipt_bytes request outcome)
    MAX_OPERATION_RECEIPT_BYTES); [lia | ].
  eexists; split; [done | ]. split; [ | done]. unfold has_execute_id in *.
  split; simpl.
  - by apply map_Forall_insert_2.
  - intros r Hr. destruct (Hlids r Hr) as [Hx Hst]. split; [ | done].
    unfold has_execute_id in *; simpl. rewrite lookup_insert_ne; [done | ]. intros Heq.
    unfold has_launch_id in Hlid. rewrite Hr in Hlid. by case_bool_decide.
  - intros r Hr. specialize (Hsids r Hr). unfold has_execute_id in *; simpl.
    rewrite lookup_insert_ne; [done | ]. intros Heq.
    unfold has_stop_id in Hsid. rewrite Hr in Hsid. by case_bool_decide.
  - rewrite map_size_insert_None by done. lia.
  - rewrite retained_sum_insert by done. simpl. lia.
  - lia.
Qed.

Lemma admit_stop_ok l request :
  ledger_ok l -> replay_stop l request = Ok StopReplay_New ->
  exists l', admit_stop l request = Some l' /\ ledger_ok l' /\
    ledger_launch l' = ledger_launch l /\ ledger_executes l' = ledger_executes l /\
    ledger_stop l' = Some (StopRecord_Reaping request).
Proof.
  intros [Hkeys Hlids Hsids Hcount Hsum Hbytes] Hreplay. unfold replay_stop, admit_stop in *.
  destruct (has_launch_id l _) eqn:Hlid; [done | ].
  destruct (has_execute_id l _) eqn:Hxid; [done | ].
  destruct (ledger_stop l) as [[] | ] eqn:Hs; [by case_bool_decide.. | ].
  eexists; split; [done | ]. split; [ | done]. split; simpl; try done.
  - intros r Hr. destruct (Hlids r Hr) as [Hx _]. split; [done | ].
    unfold has_stop_id; simpl. unfold has_launch_id in Hlid. rewrite Hr in Hlid.
    case_bool_decide; [done | ]. by rewrite bool_decide_false by congruence.
  - by intros r [= <-].
Qed.

Lemma complete_stop_ok l request outcome :
  ledger_ok l -> ledger_stop l = Some (StopRecord_Reaping request) ->
  exists l', complete_stop l outcome = Some l' /\ ledger_ok l' /\
    ledger_launch l' = ledger_launch l /\ ledger_executes l' = ledger_executes l /\
    ledger_stop l' = Some (StopRecord_Complete request outcome).
Proof.
  intros [Hkeys Hlids Hsids Hcount Hsum Hbytes] Hs. unfold complete_stop. rewrite Hs.
  eexists; split; [done | ]. split; [ | done]. split; simpl; try done.
  - intros r Hr. destruct (Hlids r Hr) as [Hx Hst]. split; [done | ].
    unfold has_stop_id in *; simpl. by rewrite Hs in Hst.
  - intros r [= <-]. exact (Hsids _ Hs).
Qed.

(** * What replay answers *)

Lemma replay_launch_recorded l r o :
  replay_launch l r = Ok (Some o) -> ledger_launch l = Some (mkLaunchRecord r o).
Proof.
  unfold replay_launch. destruct (_ || _); [done | ].
  destruct (ledger_launch l) as [[r0 o0] | ]; [simpl | done].
  repeat case_bool_decide; naive_solver.
Qed.

Lemma replay_execute_recorded l r o :
  replay_execute l r = Ok (Some o) ->
  ledger_executes l !! execute_operation_id r = Some (mkExecuteRecord r o).
Proof.
  unfold replay_execute. destruct (_ || _); [done | ].
  destruct (ledger_executes l !! _) as [[r0 o0] | ]; [simpl | done].
  case_bool_decide; naive_solver.
Qed.

Lemma replay_stop_complete l r o :
  replay_stop l r = Ok (StopReplay_Complete o) -> ledger_stop l = Some (StopRecord_Complete r o).
Proof.
  unfold replay_stop. destruct (_ || _); [done | ].
  destruct (ledger_stop l) as [[] | ]; [case_bool_decide; naive_solver.. | done].
Qed.

Lemma replay_stop_continue l r :
  replay_stop l r = Ok StopReplay_Continue -> ledger_stop l = Some (StopRecord_Reaping r).
Proof.
  unfold replay_stop. destruct (_ || _); [done | ].
  destruct (ledger_stop l) as [[] | ]; [case_bool_decide; naive_solver.. | done].
Qed.

Lemma replay_stop_new l r : replay_stop l r = Ok StopReplay_New -> ledger_stop l = None.
Proof.
  unfold replay_stop. destruct (_ || _); [done | ].
  destruct (ledger_stop l) as [[] | ]; [case_bool_decide; naive_solver.. | done].
Qed.

(** In a well-formed ledger a recorded call is answered with its record. *)

Lemma recorded_launch_replays l r o :
  ledger_ok l -> ledger_launch l = Some (mkLaunchRecord r o) -> replay_launch l r = Ok (Some o).
Proof.
  intros Hl Hr. destruct (ledger_ok_launch_ids l Hl _ Hr) as [Hx Hs]. simpl in *.
  unfold replay_launch. rewrite Hx, Hs, Hr. simpl.
  rewrite bool_decide_false by tauto. by rewrite bool_decide_true.
Qed.

Lemma recorded_execute_replays l r o :
  ledger_ok l -> ledger_executes l !! execute_operation_id r = Some (mkExecuteRecord r o) ->
  replay_execute l r = Ok (Some o).
Proof.
  intros Hl Hr. unfold replay_execute.
  assert (has_launch_id l (execute_operation_id r) = false) as ->.
  { unfold has_launch_id. destruct (ledger_launch l) as [x | ] eqn:Hx; [ | done].
    case_bool_decide as Heq; [ | done].
    destruct (ledger_ok_launch_ids l Hl _ Hx) as [Hf _].
    rewrite has_execute_id_false, Heq in Hf. congruence. }
  assert (has_stop_id l (execute_operation_id r) = false) as ->.
  { unfold has_stop_id. destruct (ledger_stop l) as [x | ] eqn:Hx; [ | done].
    case_bool_decide as Heq; [ | done].
    pose proof (ledger_ok_stop_ids l Hl _ Hx) as Hf.
    rewrite has_execute_id_false, Heq in Hf. congruence. }
  rewrite Hr. simpl. by rewrite bool_decide_true.
Qed.

Lemma stop_id_unshared l s :
  ledger_ok l -> ledger_stop l = Some s ->
  has_launch_id l (stop_operation_id (StopRecord_request s)) = false /\
  has_execute_id l (stop_operation_id (StopRecord_request s)) = false.
Proof.
  intros Hl Hs. split; [ | by apply (ledger_ok_stop_ids l Hl)].
  unfold has_launch_id. destruct (ledger_launch l) as [x | ] eqn:Hx; [ | done].
  case_bool_decide as Heq; [ | done].
  destruct (ledger_ok_launch_ids l Hl _ Hx) as [_ Hf]. unfold has_stop_id in Hf.
  rewrite Hs in Hf. case_bool_decide; [done | congruence].
Qed.

Lemma recorded_stop_replays l r o :
  ledger_ok l -> ledger_stop l = Some (StopRecord_Complete r o) ->
  replay_stop l r = Ok (StopReplay_Complete o).
Proof.
  intros Hl Hr. destruct (stop_id_unshared l _ Hl Hr) as [Hx Hs]. simpl in *.
  unfold replay_stop. rewrite Hx, Hs, Hr. simpl. by rewrite bool_decide_true.
Qed.
