(* ===== verification/VmmMachine.v ===== *)
(** The Machine lifecycle of [crates/soma-vmm/src/machine/]: Launch, Execute and
    Stop over any [Platform], with the operation ledger.  Requests are total
    functions of the machine; [None] is a failed [debug_assert!] of the ledger. *)

From S2P Require Import Prelude Bytes VmmContract VmmPlatform VmmLedger.
From stdpp Require Import options.

Inductive State : Type :=
| State_New
| State_Launching
| State_Ready
| State_Failed
| State_Stopped.

#[export] Instance State_eq_dec : EqDecision State.
Proof. solve_decision. Defined.

Record Machine (P : Type) : Type := mkMachine {
  machine_platform : P;
  machine_state : State;
  machine_operations : OperationLedger;
  machine_instance_id : option InstanceId;
  machine_guest : option ReadyAuthenticatedGuest;
}.
Arguments mkMachine {P} _ _ _ _ _.
Arguments machine_platform {P} _.
Arguments machine_state {P} _.
Arguments machine_operations {P} _.
Arguments machine_instance_id {P} _.
Arguments machine_guest {P} _.

(** [Machine::with_platform]; [Machine::new] is this at the shipped adapter. *)
Definition with_platform {P} (platform : P) : Machine P :=
  mkMachine platform State_New ledger_default None None.

Definition machine_new : Machine UnavailablePlatform := with_platform mkUnavailablePlatform.

(** * Failures without side effects ([fault.rs]) *)

Definition operation_conflict : Failure :=
  mkFailure FailureKind_OperationConflict FailurePhase_Idempotency Recovery_DoNotRetry []
    CleanupEvidence_NotRequired.
Definition operation_capacity_exceeded : Failure :=
  mkFailure FailureKind_OperationCapacityExceeded FailurePhase_Idempotency Recovery_DoNotRetry []
    CleanupEvidence_NotRequired.
Definition lifecycle_failure : Failure :=
  mkFailure FailureKind_InvalidLifecycle FailurePhase_Lifecycle Recovery_DoNotRetry []
    CleanupEvidence_NotRequired.
Definition instance_mismatch : Failure :=
  mkFailure FailureKind_InstanceMismatch FailurePhase_Lifecycle Recovery_DoNotRetry []
    CleanupEvidence_NotRequired.

(** * Field updates *)

Section updates.
Context {P : Type}.
Implicit Types m : Machine P.

Definition set_platform m p : Machine P :=
  mkMachine p (machine_state m) (machine_operations m) (machine_instance_id m) (machine_guest m).
Definition set_state m s : Machine P :=
  mkMachine (machine_platform m) s (machine_operations m) (machine_instance_id m) (machine_guest m).
Definition set_operations m o : Machine P :=
  mkMachine (machine_platform m) (machine_state m) o (machine_instance_id m) (machine_guest m).
Definition set_instance_id m i : Machine P :=
  mkMachine (machine_platform m) (machine_state m) (machine_operations m) i (machine_guest m).
Definition set_guest m g : Machine P :=
  mkMachine (machine_platform m) (machine_state m) (machine_operations m)
    (machine_instance_id m) g.
End updates.

(** * Launch ([launch.rs]) *)

Definition RESTORE_MILESTONES : list Milestone :=
  [Milestone_ArtifactsVerified; Milestone_MachineRestored].
Definition READINESS_MILESTONES : list Milestone :=
  [Milestone_GuestAuthenticated; Milestone_GenerationAcknowledged;
   Milestone_IdentityRepaired; Milestone_NetworkRepaired].

Definition append_milestones (target : Milestones) (source : list Milestone) (count : nat)
    : Milestones :=
  foldl milestones_push target (take count source).

Definition restore_failure (f : RestoreFailure) : FailureKind * FailurePhase :=
  match restore_failure_point f with
  | RestoreFailurePoint_ArtifactVerification =>
      (FailureKind_GenerationVerificationFailed, FailurePhase_ArtifactVerification)
  | RestoreFailurePoint_Restore => (FailureKind_RestoreFailed, FailurePhase_Restore)
  end.

Definition readiness_failure (f : ReadinessFailure) : FailureKind * FailurePhase :=
  match readiness_failure_point f with
  | ReadinessFailurePoint_GuestAuthentication =>
      (FailureKind_GuestAuthenticationFailed, FailurePhase_GuestAuthentication)
  | ReadinessFailurePoint_GenerationAcknowledgement =>
      (FailureKind_GenerationAcknowledgementFailed, FailurePhase_GenerationAcknowledgement)
  | ReadinessFailurePoint_IdentityRepair =>
      (FailureKind_IdentityRepairFailed, FailurePhase_IdentityRepair)
  | ReadinessFailurePoint_NetworkRepair =>
      (FailureKind_NetworkRepairFailed, FailurePhase_NetworkRepair)
  | ReadinessFailurePoint_ReadinessProbe =>
      (FailureKind_ReadinessProbeFailed, FailurePhase_ReadinessProbe)
  end.

Section machine.
Context {P : Type} `{Platform P}.

(** The state [perform_launch] threads: the machine and the milestone trail. *)
Abbreviation LaunchST := (ST (Machine P * Milestones) Failure).

Definition rollback_launch_failure (request : Launch) (what : FailureKind * FailurePhase)
    (recovery : Recovery) (m : Machine P) (milestones : Milestones)
    : Machine P * Milestones * Failure :=
  let milestones := milestones_push milestones Milestone_RollbackStarted in
  let '(p, rollback) := platform_rollback (machine_platform m) request in
  let '(milestones, recovery, cleanup) :=
    match rollback with
    | Ok _ => (milestones_push milestones Milestone_CleanupCompleted, recovery,
               CleanupEvidence_Complete)
    | Err failure => (milestones, platform_failure_recovery failure, CleanupEvidence_Incomplete)
    end in
  (set_state (set_platform m p) State_Failed, milestones,
   mkFailure what.1 what.2 recovery milestones cleanup).

Definition verify_and_restore (request : Launch) : LaunchST RestoredMachine :=
  fun '(m, milestones) =>
    let '(p, r) := platform_verify_and_restore (machine_platform m) request in
    let m := set_platform m p in
    match r with
    | Ok restored =>
        ((m, append_milestones milestones RESTORE_MILESTONES (length RESTORE_MILESTONES)),
         Ok restored)
    | Err failure =>
        let milestones := append_milestones milestones RESTORE_MILESTONES
                            (RestoreFailure_completed failure) in
        let '(m, milestones, f) :=
          rollback_launch_failure request (restore_failure failure)
            (restore_failure_recovery failure) m milestones in
        ((m, milestones), Err f)
    end.

Definition authenticate_repair_and_ready (request : Launch) (restored : RestoredMachine)
    : LaunchST ReadyAuthenticatedGuest :=
  fun '(m, milestones) =>
    let '(p, r) :=
      platform_authenticate_repair_and_ready (machine_platform m) request restored in
    let m := set_platform m p in
    match r with
    | Ok guest =>
        ((m, append_milestones milestones READINESS_MILESTONES (length READINESS_MILESTONES)),
         Ok guest)
    | Err failure =>
        let milestones := append_milestones milestones READINESS_MILESTONES
                            (ReadinessFailure_completed failure) in
        let '(m, milestones, f) :=
          rollback_launch_failure request (readiness_failure failure)
            (readiness_failure_recovery failure) m milestones in
        ((m, milestones), Err f)
    end.

Definition perform_launch (m : Machine P) (request : Launch)
    : Machine P * Result Ready Failure :=
  let m := set_state m State_Launching in
  let m := set_instance_id m (Some (launch_instance_id request)) in
  let milestones := milestones_push [] Milestone_RequestAccepted in
  let body : LaunchST Ready :=
    restored <-- verify_and_restore request;;
    guest <-- authenticate_repair_and_ready request restored;;
    fun '(m, milestones) =>
      let milestones := milestones_push milestones Milestone_FirstCommandSucceeded in
      let milestones := milestones_push milestones Milestone_Ready in
      let m := set_guest (set_state m State_Ready) (Some guest) in
      ((m, milestones),
       Ok (mkReady (launch_operation_id request) (launch_instance_id request)
             (generation_id (launch_generation request))
             (generation_machine (launch_generation request)) milestones)) in
  let '((m, _), outcome) := body (m, milestones) in
  (m, outcome).

Definition launch (m : Machine P) (request : Launch)
    : option (Machine P * Result Ready Failure) :=
  match replay_launch (machine_operations m) request with
  | Ok (Some outcome) => Some (m, outcome)
  | Err _ => Some (m, Err operation_conflict)
  | Ok None =>
      if bool_decide (machine_state m <> State_New) then Some (m, Err lifecycle_failure)
      else match ensure_launch_capacity (machine_operations m) with
      | Err _ => Some (m, Err operation_capacity_exceeded)
      | Ok _ =>
          let '(m, outcome) := perform_launch m request in
          match record_launch (machine_operations m) request outcome with
          | Some operations => Some (set_operations m operations, outcome)
          | None => None
          end
      end
  end.

(** * Execute ([execute.rs]) *)

Definition bounded_output (outcome : PlatformExecution) (request : Execute)
    : ExitStatus * bytes * bytes :=
  let maximum := limit_output (execute_limits request) in
  let stdout := execution_stdout outcome in
  let stderr := execution_stderr outcome in
  if saturating_add USIZE_MAX (len stdout) (len stderr) >? maximum then
    let stdout := take (Z.to_nat maximum) stdout in
    let stderr := take (Z.to_nat (saturating_sub maximum (len stdout))) stderr in
    (ExitStatus_OutputLimit, stdout, stderr)
  else (execution_status outcome, stdout, stderr).

Definition validate_execute (m : Machine P) (request : Execute) : Result unit Failure :=
  if bool_decide (machine_state m <> State_Ready) then Err lifecycle_failure
  else if bool_decide (machine_instance_id m <> Some (execute_instance_id request))
  then Err instance_mismatch
  else Ok tt.

Definition perform_execute (m : Machine P) (request : Execute)
    : Machine P * Result Executed Failure :=
  match machine_guest m with
  | None => (m, Err lifecycle_failure)
  | Some guest =>
      let '(p, r) := platform_execute (machine_platform m) request guest in
      let m := set_platform m p in
      match r with
      | Err failure =>
          (set_guest (set_state m State_Failed) None,
           Err (mkFailure FailureKind_ExecuteFailed FailurePhase_Execute
                  (platform_failure_recovery failure) [] CleanupEvidence_NotRequired))
      | Ok outcome =>
          let '(status, stdout, stderr) := bounded_output outcome request in
          (m, Ok (mkExecuted (execute_operation_id request) (execute_instance_id request)
                    status stdout stderr))
      end
  end.

Definition execute (m : Machine P) (request : Execute)
    : option (Machine P * Result Executed Failure) :=
  match replay_execute (machine_operations m) request with
  | Ok (Some outcome) => Some (m, outcome)
  | Err _ => Some (m, Err operation_conflict)
  | Ok None =>
      match validate_execute m request with
      | Err f => Some (m, Err f)
      | Ok _ =>
          match ensure_execute_capacity (machine_operations m) request with
          | Err _ => Some (m, Err operation_capacity_exceeded)
          | Ok _ =>
              let '(m, outcome) := perform_execute m request in
              match record_execute (machine_operations m) request outcome with
              | Some operations => Some (set_operations m operations, outcome)
              | None => None
              end
          end
      end
  end.

(** * Stop ([stop.rs]) *)

Definition validate_stop (m : Machine P) (request : Stop) : Result unit Failure :=
  match machine_state m with
  | State_Ready | State_Failed | State_Launching =>
      if bool_decide (machine_instance_id m <> Some (stop_instance_id request))
      then Err instance_mismatch else Ok tt
  | State_New | State_Stopped => Err lifecycle_failure
  end.

Definition perform_stop (m : Machine P) (request : Stop)
    : Machine P * Result Stopped Failure :=
  match validate_stop m request with
  | Err f => (m, Err f)
  | Ok _ =>
      let milestones := milestones_push [] Milestone_StopRequested in
      let '(p, r) := platform_stop (machine_platform m) request (machine_guest m) in
      let m := set_platform m p in
      match r with
      | Err failure =>
          (set_state m State_Failed,
           Err (mkFailure FailureKind_StopFailed FailurePhase_Stop
                  (platform_failure_recovery failure) milestones CleanupEvidence_Incomplete))
      | Ok evidence =>
          let milestones := milestones_push milestones Milestone_CleanupCompleted in
          let milestones := milestones_push milestones Milestone_Stopped in
          (set_guest (set_state m State_Stopped) None,
           Ok (mkStopped (stop_operation_id request) (stop_instance_id request)
                 (platform_guest_acknowledged evidence) (platform_forced evidence)
                 CleanupEvidence_Complete milestones))
      end
  end.

(** The part of [stop] after admission. *)
Definition continue_stop (m : Machine P) (request : Stop)
    : option (Machine P * Result Stopped Failure) :=
  let '(m, outcome) := perform_stop m request in
  if is_ok outcome then
    match complete_stop (machine_operations m) outcome with
    | Some operations => Some (set_operations m operations, outcome)
    | None => None
    end
  else Some (m, outcome).

Definition stop (m : Machine P) (request : Stop)
    : option (Machine P * Result Stopped Failure) :=
  match replay_stop (machine_operations m) request with
  | Ok (StopReplay_Complete outcome) => Some (m, outcome)
  | Ok StopReplay_Continue => continue_stop m request
  | Err _ => Some (m, Err operation_conflict)
  | Ok StopReplay_New =>
      match validate_stop m request with
      | Err f => Some (m, Err f)
      | Ok _ =>
          match admit_stop (machine_operations m) request with
          | Some operations => continue_stop (set_operations m operations) request
          | None => None
          end
      end
  end.
End machine.
