(* ===== verification/VmmLifecycle.v ===== *)
(** Correctness of the Machine lifecycle: the invariant every sequence of calls
    keeps, the absence of assertion failures, exact replay, conflict detection,
    evidence trails, bounds, and a refinement to an abstract lifecycle. *)

From S2P Require Import Prelude Bytes VmmContract VmmPlatform VmmLedger VmmMachine.
From stdpp Require Import options.

(** * Calls and reachability *)

Inductive Call : Type :=
| CallLaunch (request : Launch)
| CallExecute (request : Execute)
| CallStop (request : Stop).

Inductive Outcome : Type :=
| OutLaunch (outcome : Result Ready Failure)
| OutExecute (outcome : Result Executed Failure)
| OutStop (outcome : Result Stopped Failure).

#[export] Instance Call_eq_dec : EqDecision Call.
Proof. solve_decision. Defined.

Definition call_id (c : Call) : OperationId :=
  match c with
  | CallLaunch r => launch_operation_id r
  | CallExecute r => execute_operation_id r
  | CallStop r => stop_operation_id r
  end.

(** What [OutputBytes::new] guarantees of an Execute request. *)
Definition wf_call (c : Call) : Prop :=
  match c with CallExecute r => 0 < output_limit r <= 16 * 1024 * 1024 | _ => True end.

Definition refused (c : Call) (f : Failure) : Outcome :=
  match c with
  | CallLaunch _ => OutLaunch (Err f)
  | CallExecute _ => OutExecute (Err f)
  | CallStop _ => OutStop (Err f)
  end.

(** * The abstract lifecycle

    What the contract promises a caller: one launch, commands while live, and a
    stop that, once admitted, is the only thing that can make progress. *)

Inductive AState : Type :=
| A_Fresh
| A_Live (instance : InstanceId)
| A_Faulted (instance : InstanceId)
| A_Reaping (stop : Stop)
| A_Gone (stop : Stop).

(** The states a Stop may act on: the live or faulted instance it names, or the
    very Stop that is already reaping. *)
Inductive stoppable : AState -> Stop -> Prop :=
| stoppable_live s : stoppable (A_Live (stop_instance_id s)) s
| stoppable_faulted s : stoppable (A_Faulted (stop_instance_id s)) s
| stoppable_reaping s : stoppable (A_Reaping s) s.

Definition launch_failure_kind (k : FailureKind) : bool :=
  match k with
  | FailureKind_GenerationVerificationFailed | FailureKind_RestoreFailed
  | FailureKind_GuestAuthenticationFailed | FailureKind_GenerationAcknowledgementFailed
  | FailureKind_IdentityRepairFailed | FailureKind_NetworkRepairFailed
  | FailureKind_ReadinessProbeFailed => true
  | _ => false
  end.

Inductive astep : AState -> Call -> Outcome -> AState -> Prop :=
| astep_launch r ready :
    astep A_Fresh (CallLaunch r) (OutLaunch (Ok ready)) (A_Live (launch_instance_id r))
| astep_launch_failed r f :
    launch_failure_kind (failure_kind f) = true ->
    astep A_Fresh (CallLaunch r) (OutLaunch (Err f)) (A_Faulted (launch_instance_id r))
| astep_execute r e :
    astep (A_Live (execute_instance_id r)) (CallExecute r) (OutExecute (Ok e))
      (A_Live (execute_instance_id r))
| astep_execute_failed r f :
    failure_kind f = FailureKind_ExecuteFailed ->
    astep (A_Live (execute_instance_id r)) (CallExecute r) (OutExecute (Err f))
      (A_Faulted (execute_instance_id r))
| astep_stop a s e :
    stoppable a s -> astep a (CallStop s) (OutStop (Ok e)) (A_Gone s)
| astep_stop_failed a s f :
    stoppable a s -> failure_kind f = FailureKind_StopFailed ->
    astep a (CallStop s) (OutStop (Err f)) (A_Reaping s).

Definition abs {P} (m : Machine P) : AState :=
  match machine_state m, machine_instance_id m, ledger_stop (machine_operations m) with
  | State_Ready, Some i, _ => A_Live i
  | State_Failed, Some i, None => A_Faulted i
  | State_Failed, _, Some (StopRecord_Reaping s) => A_Reaping s
  | State_Stopped, _, Some (StopRecord_Complete s _) => A_Gone s
  | _, _, _ => A_Fresh
  end.

(** The ledger holds this call with this outcome, and will replay it. *)
Definition recorded (l : OperationLedger) (c : Call) (o : Outcome) : Prop :=
  match c, o with
  | CallLaunch r, OutLaunch x => ledger_launch l = Some (mkLaunchRecord r x)
  | CallExecute r, OutExecute x =>
      ledger_executes l !! execute_operation_id r = Some (mkExecuteRecord r x)
  | CallStop r, OutStop x => ledger_stop l = Some (StopRecord_Complete r x)
  | _, _ => False
  end.

(** The failures that are answered without doing anything. *)
Inductive refusal : Failure -> Prop :=
| refusal_conflict : refusal operation_conflict
| refusal_capacity : refusal operation_capacity_exceeded
| refusal_lifecycle : refusal lifecycle_failure
| refusal_mismatch : refusal instance_mismatch.
#[export] Hint Constructors refusal stoppable astep : soma.

Section lifecycle.
Context {P : Type} `{Platform P}.
Implicit Types m : Machine P.

Definition call (m : Machine P) (c : Call) : option (Machine P * Outcome) :=
  match c with
  | CallLaunch r => prod_map id OutLaunch <$> launch m r
  | CallExecute r => prod_map id OutExecute <$> execute m r
  | CallStop r => prod_map id OutStop <$> stop m r
  end.

(** One call, as a transition. *)
Inductive mstep (m : Machine P) (c : Call) (o : Outcome) (m' : Machine P) : Prop :=
| mstep_call : wf_call c -> call m c = Some (m', o) -> mstep m c o m'.

Inductive msteps : Machine P -> Machine P -> Prop :=
| msteps_refl m : msteps m m
| msteps_cons m c o m1 m2 : mstep m c o m1 -> msteps m1 m2 -> msteps m m2.

Definition reachable (m : Machine P) : Prop := exists p, msteps (with_platform p) m.

(** * The invariant *)

(** A machine that launched: the receipt names the instance it owns, and
    commands ran only after a launch that succeeded, on that instance. *)
Definition launched (m : Machine P) (r : LaunchRecord) : Prop :=
  ledger_launch (machine_operations m) = Some r /\
  machine_instance_id m = Some (launch_instance_id (launch_record_request r)) /\
  (is_ok (launch_record_outcome r) = false -> ledger_executes (machine_operations m) = ∅) /\
  map_Forall (fun _ x => Some (execute_instance_id (execute_record_request x)) =
                         machine_instance_id m) (ledger_executes (machine_operations m)).

Definition state_ok (m : Machine P) : Prop :=
  match machine_state m with
  | State_New =>
      machine_instance_id m = None /\ machine_guest m = None /\
      machine_operations m = ledger_default
  | State_Launching => False
  | State_Ready =>
      is_Some (machine_guest m) /\ ledger_stop (machine_operations m) = None /\
      exists r, launched m r /\ is_ok (launch_record_outcome r) = true
  | State_Failed =>
      (exists r, launched m r) /\
      (ledger_stop (machine_operations m) = None \/
       exists s, ledger_stop (machine_operations m) = Some (StopRecord_Reaping s) /\
                 machine_instance_id m = Some (stop_instance_id s))
  | State_Stopped =>
      machine_guest m = None /\ (exists r, launched m r) /\
      exists s e, ledger_stop (machine_operations m) = Some (StopRecord_Complete s (Ok e))
  end.

Definition machine_ok (m : Machine P) : Prop :=
  ledger_ok (machine_operations m) /\ state_ok m.

Lemma machine_ok_new p : machine_ok (with_platform p).
Proof. split; [apply ledger_ok_default | done]. Qed.

(** * Launch *)

Lemma append_milestones_app t s n : append_milestones t s n = t ++ take n s.
Proof.
  unfold append_milestones, milestones_push. generalize (take n s) as l.
  intros l; revert t; induction l as [ | x l IH]; intros t; simpl; [by rewrite app_nil_r | ].
  by rewrite IH, <- app_assoc.
Qed.

(** What one performed Launch leaves behind, on every branch. *)
Definition launch_trail (reached : list Milestone) (o : Result Ready Failure) : Prop :=
  match o with
  | Ok ready => ready_milestones ready =
      reached ++ [Milestone_FirstCommandSucceeded; Milestone_Ready]
  | Err f =>
      match failure_cleanup f with
      | CleanupEvidence_Complete => failure_milestones f =
          reached ++ [Milestone_RollbackStarted; Milestone_CleanupCompleted]
      | CleanupEvidence_Incomplete => failure_milestones f =
          reached ++ [Milestone_RollbackStarted]
      | CleanupEvidence_NotRequired => False
      end
  end.

(** The milestones a Launch can reach, in their one order. *)
Definition LAUNCH_MILESTONES : list Milestone :=
  Milestone_RequestAccepted :: RESTORE_MILESTONES ++ READINESS_MILESTONES.

Lemma rollback_spec request what recovery m ms m' ms' f :
  rollback_launch_failure request what recovery m ms = (m', ms', f) ->
  machine_state m' = State_Failed /\ machine_operations m' = machine_operations m /\
  machine_instance_id m' = machine_instance_id m /\ machine_guest m' = machine_guest m /\
  launch_trail ms (Err f) /\ failure_kind f = what.1 /\ failure_phase f = what.2.
Proof.
  unfold rollback_launch_failure, launch_trail, milestones_push.
  destruct (platform_rollback _ _) as [p [[] | e]]; intros [= <- <- <-]; simpl;
    by rewrite <- ?app_assoc.
Qed.

Lemma perform_launch_spec m request m' o :
  perform_launch m request = (m', o) ->
  machine_operations m' = machine_operations m /\
  machine_instance_id m' = Some (launch_instance_id request) /\
  (exists n, launch_trail (take (S n) LAUNCH_MILESTONES) o /\ (is_ok o = true -> n = 6%nat)) /\
  match o with
  | Ok r => machine_state m' = State_Ready /\ is_Some (machine_guest m') /\
      ready_operation_id r = launch_operation_id request /\
      ready_instance_id r = launch_instance_id request /\
      ready_generation_id r = generation_id (launch_generation request) /\
      ready_machine r = generation_machine (launch_generation request)
  | Err f => machine_state m' = State_Failed /\ machine_guest m' = machine_guest m /\
      launch_failure_kind (failure_kind f) = true
  end.
Proof.
  unfold perform_launch, st_bind, verify_and_restore, authenticate_repair_and_ready.
  simpl. destruct (platform_verify_and_restore _ _) as [p1 [restored | f1]]; simpl.
  - destruct (platform_authenticate_repair_and_ready _ _ _) as [p2 [guest | f2]]; simpl.
    + intros [= <- <-]; simpl. split_and!; try done.
      exists 6%nat. by rewrite !append_milestones_app.
    + destruct (rollback_launch_failure _ _ _ _ _) as [[m2 ms2] f] eqn:Er.
      intros [= <- <-]. apply rollback_spec in Er as (-> & -> & -> & -> & Ht & Hk & _).
      simpl. split_and!; try done.
      * exists (2 + ReadinessFailure_completed f2)%nat. split; [ | done].
        rewrite !append_milestones_app in Ht. exact Ht.
      * rewrite Hk. by destruct f2 as [[]].
  - destruct (rollback_launch_failure _ _ _ _ _) as [[m2 ms2] f] eqn:Er.
    intros [= <- <-]. apply rollback_spec in Er as (-> & -> & -> & -> & Ht & Hk & _).
    simpl. split_and!; try done.
    + exists (RestoreFailure_completed f1). split; [ | done].
      rewrite append_milestones_app in Ht. by destruct f1 as [[]].
    + rewrite Hk. by destruct f1 as [[]].
Qed.

(** * One call at a time *)

(** A call either changes nothing and answers with a recorded outcome or a
    refusal, or it is a step of the abstract lifecycle that keeps every receipt
    and records its own unless it is a Stop that failed. *)
Definition call_effect (m : Machine P) (c : Call) (o : Outcome) (m' : Machine P) : Prop :=
  (m' = m /\ (recorded (machine_operations m) c o \/ exists f, o = refused c f /\ refusal f)) \/
  (astep (abs m) c o (abs m') /\
   (forall c' o', recorded (machine_operations m) c' o' ->
                  recorded (machine_operations m') c' o') /\
   (recorded (machine_operations m') c o \/
    exists s, c = CallStop s /\
              ledger_stop (machine_operations m') = Some (StopRecord_Reaping s))).

Lemma call_quiet m c f : refusal f -> call_effect m c (refused c f) m.
Proof. intros Hf. left. split; [done | ]. right. eauto. Qed.

Lemma launch_ok m r :
  machine_ok m -> exists m' o, launch m r = Some (m', o) /\ machine_ok m' /\
    call_effect m (CallLaunch r) (OutLaunch o) m'.
Proof.
  intros Hm. pose proof Hm as [Hl Hs]. unfold launch.
  destruct (replay_launch _ r) as [[o | ] | []] eqn:Hreplay.
  - exists m, o. split_and!; [done.. | ]. left. split; [done | left]. by apply replay_launch_recorded.
  - case_bool_decide as Hnew.
    { exists m, (Err lifecycle_failure). split_and!; [done.. | ].
      apply (call_quiet m (CallLaunch r)). constructor. }
    assert (Hst : machine_state m = State_New) by (destruct (decide (machine_state m = State_New)); tauto).
    unfold state_ok in Hs. rewrite Hst in Hs. destruct Hs as (Hi & Hg & Hops).
    assert (Hcap : ensure_launch_capacity (machine_operations m) = Ok tt) by (by rewrite Hops).
    rewrite Hcap. destruct (perform_launch m r) as [m1 o] eqn:Hperf.
    destruct (perform_launch_spec _ _ _ _ Hperf) as (Hops1 & Hi1 & _ & Hout).
    rewrite Hops1.
    destruct (record_launch_ok _ r o Hl Hreplay Hcap) as (l' & -> & Hl' & HL & HX & HS).
    exists (set_operations m1 l'), o. split_and!; [done | | ].
    + split; [done | ]. unfold state_ok. simpl.
      assert (Hlau : forall x, launch_record_outcome x = o -> launch_record_request x = r ->
        launched (set_operations m1 l') x).
      { intros [r0 o0]; simpl; intros -> ->. unfold launched; simpl.
        rewrite HL, HX, Hops, Hi1. by split_and!. }
      rewrite HS, Hops. destruct o as [rd | f]; destruct Hout as (-> & Hg1 & Hrest).
      * split_and!; [done.. | ]. exists (mkLaunchRecord r (Ok rd)). split; [by apply Hlau | done].
      * split; [ | by left]. exists (mkLaunchRecord r (Err f)). by apply Hlau.
    + right. split_and!.
      * unfold abs at 1. rewrite Hst. unfold abs. simpl. rewrite Hi1, HS, Hops.
        destruct o as [rd | f]; destruct Hout as (-> & _ & Hrest); simpl;
          constructor. by destruct Hrest.
      * rewrite Hops. by intros [] [].
      * left. simpl. by rewrite HL.
  - exists m, (Err operation_conflict). split_and!; [done.. | ].
    apply (call_quiet m (CallLaunch r)). constructor.
Qed.

(** * Execute *)

Lemma len_take n (l : bytes) : len (take n l) = Z.min (Z.of_nat n) (len l).
Proof. unfold len. rewrite length_take. lia. Qed.

Lemma bounded_output_within outcome r status out err :
  0 <= output_limit r < USIZE_MAX -> bounded_output outcome r = (status, out, err) ->
  len out + len err <= output_limit r.
Proof.
  unfold bounded_output, output_limit, saturating_add, saturating_sub. intros Hlim.
  destruct (Z.gtb_spec (USIZE_MAX `min` (len (execution_stdout outcome) +
    len (execution_stderr outcome))) (limit_output (execute_limits r))) as [Hgt | Hle];
    intros [= <- <- <-].
  - rewrite !len_take. lia.
  - lia.
Qed.

Lemma perform_execute_spec m r m' o :
  0 < output_limit r <= 16 * 1024 * 1024 -> is_Some (machine_guest m) ->
  perform_execute m r = (m', o) ->
  machine_operations m' = machine_operations m /\
  machine_instance_id m' = machine_instance_id m /\ output_within r o /\
  match o with
  | Ok _ => machine_state m' = machine_state m /\ machine_guest m' = machine_guest m
  | Err f => machine_state m' = State_Failed /\ machine_guest m' = None /\
             failure_kind f = FailureKind_ExecuteFailed
  end.
Proof.
  intros Hlim [g Hg]. unfold perform_execute. rewrite Hg.
  destruct (platform_execute _ _ _) as [p [x | f]]; simpl.
  - destruct (bounded_output x r) as [[st out] err] eqn:Hb. intros [= <- <-]. simpl.
    split_and!; try done. apply bounded_output_within in Hb; [done | unfold USIZE_MAX, U64_MAX; lia].
  - by intros [= <- <-].
Qed.

Lemma validate_execute_ok m r :
  validate_execute m r = Ok tt <->
  machine_state m = State_Ready /\ machine_instance_id m = Some (execute_instance_id r).
Proof.
  unfold validate_execute.
  destruct (decide (machine_state m = State_Ready)) as [Hs | Hs];
    [rewrite bool_decide_false by tauto | rewrite bool_decide_true by done; naive_solver].
  case_bool_decide as Hi; [naive_solver | ].
  split; [intros _ | done]. split; [done | ].
  by destruct (decide (machine_instance_id m = Some (execute_instance_id r))).
Qed.

Lemma validate_execute_refusal m r f : validate_execute m r = Err f -> refusal f.
Proof. unfold validate_execute. repeat case_bool_decide; naive_solver (auto with soma). Qed.

Lemma execute_ok m r :
  machine_ok m -> wf_call (CallExecute r) ->
  exists m' o, execute m r = Some (m', o) /\ machine_ok m' /\
    call_effect m (CallExecute r) (OutExecute o) m'.
Proof.
  intros Hm Hwf. pose proof Hm as [Hl Hs]. unfold execute.
  assert (Hquiet : forall f, refusal f -> exists m' o, Some (m, Err f) = Some (m', o) /\
    machine_ok m' /\ call_effect m (CallExecute r) (OutExecute o) m').
  { intros f Hf. exists m, (Err f). split_and!; [done.. | ].
    by apply (call_quiet m (CallExecute r)). }
  destruct (replay_execute _ r) as [[o | ] | []] eqn:Hreplay; [ | | apply Hquiet; constructor].
  { exists m, o. split_and!; [done.. | ]. left. split; [done | left].
    by apply replay_execute_recorded. }
  destruct (validate_execute m r) as [[] | f] eqn:Hv;
    [ | apply Hquiet; by apply validate_execute_refusal in Hv].
  apply validate_execute_ok in Hv as [Hst Hi].
  destruct (ensure_execute_capacity _ r) as [[] | []] eqn:Hcap; [ | apply Hquiet; constructor].
  unfold state_ok in Hs. rewrite Hst in Hs. destruct Hs as (Hg & Hnostop & x & Hlau & Hxok).
  destruct (perform_execute m r) as [m1 o] eqn:Hperf.
  destruct (perform_execute_spec _ _ _ _ Hwf Hg Hperf) as (Hops & Hi1 & Hout & Hpost).
  rewrite Hops.
  destruct (record_execute_ok _ r o Hl Hreplay Hcap) as (l' & -> & Hl' & HL & HS & HX);
    [simpl in Hwf; lia | done | ].
  assert (Hnone : ledger_executes (machine_operations m) !! execute_operation_id r = None).
  { unfold replay_execute in Hreplay. destruct (_ || _); [done | ].
    destruct (_ !! _); [by case_bool_decide | done]. }
  exists (set_operations m1 l'), o. split_and!; [done | | ].
  - split; [done | ]. destruct Hlau as (Hlr & Hli & Hle & Hlx).
    assert (Hlau' : launched (set_operations m1 l') x).
    { unfold launched. simpl. rewrite HL, HX, Hi1, Hxok. split_and!; [done.. | ].
      apply map_Forall_insert_2; [by rewrite Hi | done]. }
    unfold state_ok. simpl. rewrite HS. destruct o as [e | f].
    + destruct Hpost as [-> ->]. rewrite Hst. split_and!; [done.. | by exists x].
    + destruct Hpost as (-> & _ & _). split; [by exists x | by left].
  - right. split_and!.
    + unfold abs. simpl. rewrite Hst, Hi, Hi1, Hi, HS, Hnostop.
      destruct o as [e | f]; [destruct Hpost as [-> _] | destruct Hpost as (-> & _ & Hk)].
      * rewrite Hst. constructor.
      * by constructor.
    + intros [] [] Hrec; simpl in *; try done; [by rewrite HL | | by rewrite HS].
      rewrite HX. destruct (decide (execute_operation_id request = execute_operation_id r)) as [Heq | ].
      * congruence.
      * by rewrite lookup_insert_ne.
    + left. simpl. rewrite HX. apply lookup_insert_eq.
Qed.

(** * Stop *)

Lemma validate_stop_ok m s :
  validate_stop m s = Ok tt <->
  (machine_state m = State_Ready \/ machine_state m = State_Failed \/
   machine_state m = State_Launching) /\
  machine_instance_id m = Some (stop_instance_id s).
Proof.
  unfold validate_stop.
  destruct (decide (machine_instance_id m = Some (stop_instance_id s))) as [Hi | Hi].
  - rewrite (bool_decide_false (_ <> _)) by tauto.
    destruct (machine_state m); split; intros; naive_solver.
  - rewrite (bool_decide_true (_ <> _)) by done.
    destruct (machine_state m); split; intros; naive_solver.
Qed.

Lemma validate_stop_refusal m s f : validate_stop m s = Err f -> refusal f.
Proof.
  unfold validate_stop. destruct (machine_state m); try case_bool_decide;
    naive_solver (auto with soma).
Qed.

(** The Stop that holds the ledger's record, performed on a machine it names. *)
Lemma continue_stop_ok m s x :
  ledger_ok (machine_operations m) ->
  ledger_stop (machine_operations m) = Some (StopRecord_Reaping s) ->
  validate_stop m s = Ok tt -> launched m x ->
  exists m' o, continue_stop m s = Some (m', o) /\ machine_ok m' /\
    ledger_launch (machine_operations m') = ledger_launch (machine_operations m) /\
    ledger_executes (machine_operations m') = ledger_executes (machine_operations m) /\
    match o with
    | Ok e => abs m' = A_Gone s /\
              ledger_stop (machine_operations m') = Some (StopRecord_Complete s (Ok e))
    | Err f => abs m' = A_Reaping s /\ failure_kind f = FailureKind_StopFailed /\
               ledger_stop (machine_operations m') = Some (StopRecord_Reaping s)
    end.
Proof.
  intros Hl Hrec Hv Hlau. unfold continue_stop, perform_stop. rewrite Hv.
  apply validate_stop_ok in Hv as [_ Hi].
  destruct (platform_stop _ _ _) as [p [e | f]]; simpl.
  - destruct (complete_stop_ok _ _ (Ok (mkStopped (stop_operation_id s) (stop_instance_id s)
      (platform_guest_acknowledged e) (platform_forced e) CleanupEvidence_Complete
      [Milestone_StopRequested; Milestone_CleanupCompleted; Milestone_Stopped])) Hl Hrec)
      as (l' & Heq & Hl' & HL & HX & HS).
    unfold milestones_push. simpl. rewrite Heq. eexists _, _. split; [done | ].
    unfold machine_ok, state_ok, abs. simpl. rewrite HL, HX, HS. split_and!; try done.
    + exists x. destruct Hlau as (? & ? & ? & ?). unfold launched; simpl. by rewrite HL, HX.
    + by eexists _, _.
  - eexists _, _. split; [done | ]. unfold machine_ok, state_ok, abs. simpl.
    rewrite Hi, Hrec. split_and!; try done; [by exists x | ].
    right. by exists s.
Qed.

Lemma abs_stoppable m s :
  machine_ok m -> validate_stop m s = Ok tt ->
  ledger_stop (machine_operations m) = None \/
  ledger_stop (machine_operations m) = Some (StopRecord_Reaping s) ->
  stoppable (abs m) s /\ exists x, launched m x.
Proof.
  intros [Hl Hs] Hv Hrec. apply validate_stop_ok in Hv as [Hst Hi].
  unfold state_ok in Hs. unfold abs. rewrite Hi in *.
  destruct Hst as [Hst | [Hst | Hst]]; rewrite Hst in *; [ | | done].
  - destruct Hs as (_ & Hno & x & Hlau & _). split; [constructor | by exists x].
  - destruct Hs as ([x Hlau] & _). split; [ | by exists x].
    destruct Hrec as [-> | ->]; constructor.
Qed.

(** The record of an unfinished Stop changes, everything recorded stays. *)
Lemma recorded_mono_stop l l' s :
  ledger_launch l' = ledger_launch l -> ledger_executes l' = ledger_executes l ->
  ledger_stop l = None \/ ledger_stop l = Some (StopRecord_Reaping s) ->
  forall c o, recorded l c o -> recorded l' c o.
Proof. intros HL HX HS [] []; simpl; try done; rewrite ?HL, ?HX; naive_solver. Qed.

Lemma continue_stop_effect m m0 s :
  machine_ok m0 -> validate_stop m0 s = Ok tt ->
  ledger_stop (machine_operations m0) = None \/
  ledger_stop (machine_operations m0) = Some (StopRecord_Reaping s) ->
  m = set_operations m0 (machine_operations m) -> ledger_ok (machine_operations m) ->
  ledger_launch (machine_operations m) = ledger_launch (machine_operations m0) ->
  ledger_executes (machine_operations m) = ledger_executes (machine_operations m0) ->
  ledger_stop (machine_operations m) = Some (StopRecord_Reaping s) ->
  exists m' o, continue_stop m s = Some (m', o) /\ machine_ok m' /\
    call_effect m0 (CallStop s) (OutStop o) m'.
Proof.
  intros Hm0 Hv Hs0 Hm Hl HL HX HS. destruct (abs_stoppable _ _ Hm0 Hv Hs0) as [Hst [x Hx]].
  assert (Hv' : validate_stop m s = Ok tt) by (by rewrite Hm).
  assert (Hx' : launched m x).
  { rewrite Hm. unfold launched; simpl. by rewrite HL, HX. }
  destruct (continue_stop_ok m s x Hl HS Hv' Hx') as (m' & o & Heq & Hm' & HL' & HX' & Ho).
  exists m', o. split_and!; [done.. | ]. right. split_and!.
  - destruct o; [destruct Ho as [-> _]; by constructor | ].
    destruct Ho as (-> & ? & _). by constructor.
  - eapply recorded_mono_stop; [by rewrite HL', HL | by rewrite HX', HX | done].
  - destruct o; [left; by destruct Ho | right]. exists s. by destruct Ho as (_ & _ & ->).
Qed.

Lemma stop_ok m s :
  machine_ok m -> exists m' o, stop m s = Some (m', o) /\ machine_ok m' /\
    call_effect m (CallStop s) (OutStop o) m'.
Proof.
  intros Hm. pose proof Hm as [Hl Hst]. unfold stop.
  assert (Hquiet : forall f, refusal f -> exists m' o, Some (m, Err f) = Some (m', o) /\
    machine_ok m' /\ call_effect m (CallStop s) (OutStop o) m').
  { intros f Hf. exists m, (Err f). split_and!; [done.. | ].
    by apply (call_quiet m (CallStop s)). }
  destruct (replay_stop _ s) as [[ | | o] | []] eqn:Hreplay; [ | | | apply Hquiet; constructor].
  - destruct (validate_stop m s) as [[] | f] eqn:Hv;
      [ | apply Hquiet; by apply validate_stop_refusal in Hv].
    destruct (admit_stop_ok _ _ Hl Hreplay) as (l' & -> & Hl' & HL & HX & HS).
    apply replay_stop_new in Hreplay.
    by apply (continue_stop_effect (set_operations m l') m s); [ | | left | | | | | ].
  - apply replay_stop_continue in Hreplay.
    assert (Hv : validate_stop m s = Ok tt).
    { apply validate_stop_ok. unfold state_ok in Hst. destruct (machine_state m).
      - destruct Hst as (_ & _ & Hops). by rewrite Hops in Hreplay.
      - done.
      - destruct Hst as (_ & Hno & _). congruence.
      - destruct Hst as (_ & [Hno | (s' & Hs' & Hi)]); [congruence | ].
        split; [tauto | congruence].
      - destruct Hst as (_ & _ & s' & e & Hs'). congruence. }
    apply (continue_stop_effect m m s); try done; [by right | by destruct m].
  - exists m, o. split_and!; [done.. | ]. left. split; [done | left].
    by apply replay_stop_complete.
Qed.

Lemma call_ok m c :
  machine_ok m -> wf_call c ->
  exists m' o, call m c = Some (m', o) /\ machine_ok m' /\ call_effect m c o m'.
Proof.
  intros Hm Hwf. destruct c as [r | r | r]; simpl.
  - destruct (launch_ok m r Hm) as (m' & o & -> & Hm' & He). by eexists _, _.
  - destruct (execute_ok m r Hm Hwf) as (m' & o & -> & Hm' & He). by eexists _, _.
  - destruct (stop_ok m r Hm) as (m' & o & -> & Hm' & He). by eexists _, _.
Qed.

Lemma mstep_ok m c o m' :
  machine_ok m -> mstep m c o m' -> machine_ok m' /\ call_effect m c o m'.
Proof.
  intros Hm [Hwf Hc]. destruct (call_ok m c Hm Hwf) as (m1 & o1 & Hc1 & ? & ?).
  by simplify_eq.
Qed.

Lemma msteps_ok m m' : machine_ok m -> msteps m m' -> machine_ok m'.
Proof.
  intros Hm Hs. induction Hs as [ | m c o m1 m2 Hstep _ IH]; [done | ].
  apply IH. by eapply mstep_ok.
Qed.

Lemma reachable_ok m : reachable m -> machine_ok m.
Proof. intros [p Hs]. eapply msteps_ok; [apply machine_ok_new | done]. Qed.

Lemma recorded_replays m c o :
  machine_ok m -> recorded (machine_operations m) c o -> call m c = Some (m, o).
Proof.
  intros [Hl _] Hrec. destruct c as [r | r | r], o as [x | x | x]; simpl in *; try done.
  - unfold launch. by rewrite (recorded_launch_replays _ r x).
  - unfold execute. by rewrite (recorded_execute_replays _ r x).
  - unfold stop. by rewrite (recorded_stop_replays _ r x).
Qed.

Lemma recorded_msteps m m' c o :
  machine_ok m -> msteps m m' -> recorded (machine_operations m) c o ->
  recorded (machine_operations m') c o.
Proof.
  intros Hm Hs. induction Hs as [ | m c1 o1 m1 m2 Hstep _ IH]; [done | ].
  intros Hrec. destruct (mstep_ok _ _ _ _ Hm Hstep) as [Hm1 Heff]. apply IH; [done | ].
  destruct Heff as [[-> _] | (_ & Hmono & _)]; [done | by apply Hmono].
Qed.

Lemma abs_reaping m s :
  machine_ok m -> ledger_stop (machine_operations m) = Some (StopRecord_Reaping s) ->
  abs m = A_Reaping s.
Proof.
  intros [_ Hok] Hs. unfold state_ok, abs in *. destruct (machine_state m).
  - destruct Hok as (_ & _ & Hops). by rewrite Hops in Hs.
  - done.
  - destruct Hok as (_ & Hno & _). congruence.
  - rewrite Hs. by destruct (machine_instance_id m).
  - destruct Hok as (_ & _ & s' & e & Hc). congruence.
Qed.
End lifecycle.
