(* ===== verification/VmmProperties.v ===== *)
(** The properties of the Machine lifecycle, each a short consequence of the
    lemmas of [VmmLifecycle], with the runs that show their hypotheses hold. *)

From S2P Require Import Prelude Bytes VmmContract VmmPlatform VmmLedger VmmMachine VmmLifecycle.
From stdpp Require Import options.

(** * A platform for the sample runs

    It restores and readies every launch, answers every command with three bytes
    on each stream, fails its first stop and acknowledges the second; its state
    counts the stops. *)

Inductive SamplePlatform : Type := mkSamplePlatform (stops : nat).

#[export] Instance SamplePlatform_Platform : Platform SamplePlatform := {
  platform_verify_and_restore p _ :=
    (p, RestoredMachine_from_observation RESTORE_SEQUENCE);
  platform_authenticate_repair_and_ready p _ _ :=
    (p, ReadyAuthenticatedGuest_from_observation READINESS_SEQUENCE (ExitStatus_Code 0));
  platform_execute p _ _ :=
    (p, Ok (mkPlatformExecution (ExitStatus_Code 0) [1; 2; 3] [4; 5; 6]));
  platform_stop p _ _ :=
    match p with
    | mkSamplePlatform 0 => (mkSamplePlatform 1, Err (mkPlatformFailure Recovery_RepairHost))
    | mkSamplePlatform (S _) => (p, Ok (mkPlatformStop true false))
    end;
  platform_rollback p _ := (p, Ok tt);
}.

Definition sample_id (b : Z) : bytes := replicate 16 b.
Definition sample_launch : Launch :=
  mkLaunch (mkOperationId (sample_id 1)) (mkInstanceId (sample_id 2))
    (mkGeneration (mkGenerationId (replicate 32 3)) (mkMachineSpec 1 1024 4096)).
Definition sample_execute (op out : Z) : Execute :=
  mkExecute (mkOperationId (sample_id op)) (mkInstanceId (sample_id 2)) [47; 98] []
    (mkExecutionLimits 5000 out).
Definition sample_stop : Stop := mkStop (mkOperationId (sample_id 9)) (mkInstanceId (sample_id 2)).

(** Runs a list of calls, for the samples. *)
Fixpoint sample_run {P} `{Platform P} (m : Machine P) (cs : list Call) : option (Machine P) :=
  match cs with
  | [] => Some m
  | c :: rest => match call m c with Some (m', _) => sample_run m' rest | None => None end
  end.

Lemma run_msteps {P} `{Platform P} cs (m m' : Machine P) :
  Forall wf_call cs -> sample_run m cs = Some m' -> msteps m m'.
Proof.
  revert m; induction cs as [ | c cs IH]; intros m Hwf Hr; simpl in Hr.
  - simplify_eq. constructor.
  - inversion Hwf; subst. destruct (call m c) as [[m1 o] | ] eqn:Hc; [ | done].
    econstructor; [by constructor | by apply IH].
Qed.

Definition sample_start : Machine SamplePlatform := with_platform (mkSamplePlatform 0).

(** Ready, after a launch and one command. *)
Definition sample_calls : list Call := [CallLaunch sample_launch; CallExecute (sample_execute 4 8)].

Definition sample_ready : Machine SamplePlatform :=
  Eval vm_compute in default sample_start (sample_run sample_start sample_calls).

(** Reaping, after the first stop failed. *)
Definition sample_reaping : Machine SamplePlatform :=
  Eval vm_compute in default sample_start (sample_run sample_ready [CallStop sample_stop]).

Lemma sample_ready_reachable : reachable sample_ready.
Proof.
  exists (mkSamplePlatform 0). apply (run_msteps sample_calls); [ | by vm_compute].
  repeat constructor; by vm_compute.
Qed.

Lemma sample_reaping_reachable : reachable sample_reaping.
Proof.
  exists (mkSamplePlatform 0).
  apply (run_msteps (sample_calls ++ [CallStop sample_stop])); [ | by vm_compute].
  repeat constructor; by vm_compute.
Qed.

(** * Properties *)

Section properties.
Context {P : Type} `{Platform P}.
Implicit Types m : Machine P.

(** Whatever the platform answers and in whatever order requests arrive, a
    machine keeps its invariant: it is never left mid-launch, it is Ready
    exactly while it holds an authenticated guest after a successful launch, it
    owns the instance its launch receipt names, commands ran only on that
    instance, it is Stopped only with a completed Stop on record, and its ledger
    is well formed. *)
Theorem lifecycle_invariant m : reachable m -> machine_ok m.
Proof. apply reachable_ok. Qed.

(** No request trips a ledger assertion: from every reachable machine every
    well-formed request is answered, and the machine stays reachable. *)
Theorem lifecycle_never_asserts m c :
  reachable m -> wf_call c -> exists m' o, call m c = Some (m', o) /\ reachable m'.
Proof.
  intros Hr Hwf. destruct (call_ok m c (reachable_ok m Hr) Hwf) as (m' & o & Hc & _ & _).
  exists m', o. split; [done | ]. destruct Hr as [p Hs]. exists p.
  clear -Hs Hc Hwf. induction Hs as [m | m c1 o1 m1 m2 Hstep Hs IH].
  - econstructor; [by constructor | constructor].
  - econstructor; [done | by apply IH].
Qed.

(** C3: the machine refines the abstract lifecycle: each request either leaves the
    whole machine, platform included, untouched and is answered from a receipt
    or refused, or is one step of Fresh, Live, Faulted, Reaping, Gone. *)
Theorem lifecycle_refinement m c o m' :
  reachable m -> mstep m c o m' ->
  (m' = m /\ (recorded (machine_operations m) c o \/
              exists f, o = refused c f /\ refusal f)) \/
  astep (abs m) c o (abs m').
Proof.
  intros Hr Hs. destruct (mstep_ok _ _ _ _ (reachable_ok m Hr) Hs) as [_ [? | [? _]]]; auto.
Qed.

(** C19: exact replay: once a request was performed (it was not refused, and is not a
    Stop whose cleanup failed), repeating it after any further requests returns
    the very same outcome and changes nothing, the platform included. *)
Theorem replay_exact m c o m1 m2 :
  reachable m -> mstep m c o m1 ->
  (forall f, refusal f -> o <> refused c f) -> (forall f, o <> OutStop (Err f)) ->
  msteps m1 m2 -> call m2 c = Some (m2, o).
Proof.
  intros Hr Hs Hnr Hnf Hs2. pose proof (reachable_ok m Hr) as Hm.
  destruct (mstep_ok _ _ _ _ Hm Hs) as [Hm1 Heff].
  assert (Hrec : recorded (machine_operations m1) c o).
  { destruct Heff as [[-> [? | (f & -> & Hf)]] | (Ha & _ & [? | (s & -> & Hreap)])]; try done.
    - by destruct (Hnr f Hf).
    - exfalso. inversion Ha as [ | | | | a s' e Hst Heq1 Heq2 Heq3 Habs | a s' f Hst Hk]; subst.
      + unfold abs in Habs. rewrite Hreap in Habs.
        by destruct (machine_state m1), (machine_instance_id m1).
      + by apply (Hnf f). }
  apply recorded_replays; [by eapply msteps_ok | by eapply recorded_msteps].
Qed.

(** A call that holds an operation id: recorded, or a Stop being reaped. *)
Definition holds_id (l : OperationLedger) (c : Call) : Prop :=
  (exists o, recorded l c o) \/
  (exists s, c = CallStop s /\ ledger_stop l = Some (StopRecord_Reaping s)).

Lemma holds_id_flags l c :
  holds_id l c ->
  match c with
  | CallLaunch r => has_launch_id l (call_id c) = true
  | CallExecute r => has_execute_id l (call_id c) = true
  | CallStop r => has_stop_id l (call_id c) = true
  end.
Proof.
  unfold has_launch_id, has_execute_id, has_stop_id.
  intros [[o Ho] | (s & -> & Hs)]; [ | rewrite Hs; simpl; by rewrite bool_decide_true].
  destruct c, o; simpl in *; try done; rewrite Ho; [by rewrite bool_decide_true | done | ].
  simpl. by rewrite bool_decide_true.
Qed.

(** An operation id that already names a request is never reused for another one:
    any different request under that id, of the same or another kind, is
    answered with an operation conflict and changes nothing. *)
Theorem conflict_refused m c c' :
  reachable m -> holds_id (machine_operations m) c -> call_id c' = call_id c -> c' <> c ->
  call m c' = Some (m, refused c' operation_conflict).
Proof.
  intros _ Hh Hid Hne. pose proof (holds_id_flags _ _ Hh) as Hf. rewrite <- Hid in Hf.
  destruct c' as [r' | r' | r'], c as [r | r | r]; simpl in *;
    unfold launch, execute, stop, replay_launch, replay_execute, replay_stop;
    rewrite ?Hf, ?orb_true_r; try done.
  - destruct (_ || _); [done | ]. destruct Hh as [[[] Ho] | (? & ? & _)]; try done.
    simpl in Ho. rewrite Ho. simpl. rewrite bool_decide_false by congruence.
    by rewrite bool_decide_false by congruence.
  - destruct (_ || _); [done | ]. destruct Hh as [[[] Ho] | (? & ? & _)]; try done.
    simpl in Ho. rewrite Hid, Ho. simpl. by rewrite bool_decide_false by congruence.
  - destruct (_ || _); [done | ]. destruct Hh as [[[] Ho] | (s & [= <-] & Ho)]; try done.
    + simpl in Ho. rewrite Ho. by rewrite bool_decide_false by congruence.
    + rewrite Ho. by rewrite bool_decide_false by congruence.
Qed.

(** Evidence: a launch performed on a new machine reports a prefix of the one
    milestone order; success reports all of it, then the first command and
    Ready, echoes the request's identities and dimensions and leaves the machine
    Ready; failure adds the rollback, claims completed cleanup exactly when the
    rollback succeeded, and leaves the machine Failed. *)
Theorem launch_evidence m r m' o :
  machine_state m = State_New -> machine_operations m = ledger_default ->
  launch m r = Some (m', o) ->
  exists n, launch_trail (take (S n) LAUNCH_MILESTONES) o /\
  match o with
  | Ok ready => n = 6%nat /\ machine_state m' = State_Ready /\
      ready_operation_id ready = launch_operation_id r /\
      ready_instance_id ready = launch_instance_id r /\
      ready_generation_id ready = generation_id (launch_generation r) /\
      ready_machine ready = generation_machine (launch_generation r)
  | Err f => machine_state m' = State_Failed /\ launch_failure_kind (failure_kind f) = true
  end.
Proof.
  intros Hst Hops. unfold launch. rewrite Hops. simpl.
  rewrite bool_decide_false by (rewrite Hst; tauto).
  destruct (perform_launch m r) as [m1 o1] eqn:Hp.
  destruct (perform_launch_spec _ _ _ _ Hp) as (Hops1 & _ & (n & Ht & Hn) & Hout).
  rewrite Hops1, Hops. simpl. intros [= <- <-]. exists n. split; [done | ]. simpl.
  destruct o1; [ | by destruct Hout as (? & _ & ?)].
  specialize (Hn eq_refl). by destruct Hout as (? & _ & ?).
Qed.

(** A Stop that was admitted and whose cleanup failed is the only request that can
    still make progress: that same Stop either completes or stays reaping, and
    every other request leaves the machine unchanged. *)
Theorem reaping_exclusive m s c o m' :
  reachable m -> ledger_stop (machine_operations m) = Some (StopRecord_Reaping s) ->
  mstep m c o m' ->
  m' = m \/ (c = CallStop s /\ (abs m' = A_Gone s \/ abs m' = A_Reaping s)).
Proof.
  intros Hr Hs Hstep. pose proof (reachable_ok m Hr) as Hm.
  destruct (mstep_ok _ _ _ _ Hm Hstep) as [_ [[-> _] | (Ha & _)]]; [by left | right].
  rewrite (abs_reaping m s Hm Hs) in Ha.
  inversion Ha as [ | | | | a s' e Hst Heq1 Heq2 Heq3 Habs | a s' f Hst Hk Heq1 Heq2 Heq3 Habs];
    inversion Hst; subst; auto.
Qed.

(** Retention is bounded: a machine never holds more than
    [MAX_OPERATION_RECEIPTS] receipts, the byte counter is exactly the sum of the
    receipts' sizes, and it never exceeds [MAX_OPERATION_RECEIPT_BYTES]. *)
Theorem receipts_bounded m :
  reachable m ->
  Z.of_nat (size (ledger_executes (machine_operations m)) +
            length (option_list (ledger_launch (machine_operations m))) +
            length (option_list (ledger_stop (machine_operations m)))) <= MAX_OPERATION_RECEIPTS /\
  ledger_retained_execute_bytes (machine_operations m) =
    retained_sum (ledger_executes (machine_operations m)) /\
  retained_sum (ledger_executes (machine_operations m)) <= MAX_OPERATION_RECEIPT_BYTES.
Proof.
  intros Hr. destruct (reachable_ok m Hr) as [[_ _ _ Hc Hs Hb] _].
  unfold MAX_EXECUTE_RECEIPTS in Hc. rewrite <- Hs. split_and!; [ | done | lia].
  destruct (ledger_launch _), (ledger_stop _); simpl; lia.
Qed.

(** Output retention: what one command returns is exactly the first
    [limit_output] bytes of its standard output followed by its standard error;
    the status is the platform's unless something was cut, and then it is
    [OutputLimit]. *)
Theorem bounded_output_prefix (x : PlatformExecution) (r : Execute) :
  wf_limits (execute_limits r) ->
  let '(status, out, err) := bounded_output x r in
  let limit := Z.to_nat (limit_output (execute_limits r)) in
  out ++ err = take limit (execution_stdout x ++ execution_stderr x) /\
  out = take limit (execution_stdout x) /\
  status = (if bool_decide (length (execution_stdout x ++ execution_stderr x) <= limit)%nat
            then execution_status x else ExitStatus_OutputLimit).
Proof.
  intros [_ Hlim]. unfold bounded_output, saturating_add, saturating_sub, len.
  rewrite length_app.
  destruct (Z.gtb_spec (USIZE_MAX `min` (Z.of_nat (length (execution_stdout x)) +
    Z.of_nat (length (execution_stderr x)))) (limit_output (execute_limits r))) as [Hgt | Hle].
  - rewrite bool_decide_false by lia. split_and!; [ | done | done].
    rewrite take_app, length_take. f_equal. f_equal. lia.
  - assert (Z.of_nat (length (execution_stdout x)) + Z.of_nat (length (execution_stderr x))
      <= limit_output (execute_limits r)) by (unfold USIZE_MAX, U64_MAX in Hle; lia).
    rewrite bool_decide_true by lia. rewrite !take_ge by (rewrite ?length_app; lia). done.
Qed.
End properties.

(** A machine over the shipped adapter: never launched, or launched and failed. *)
Definition unavailable_ok (m : Machine UnavailablePlatform) : Prop :=
  machine_ok m /\ (machine_state m = State_New \/ machine_state m = State_Failed) /\
  (forall x, ledger_launch (machine_operations m) = Some x -> is_ok (launch_record_outcome x) = false).

Lemma unavailable_ok_new : unavailable_ok machine_new.
Proof. split_and!; [apply machine_ok_new | by left | done]. Qed.

Lemma unavailable_launch_fails (m : Machine UnavailablePlatform) r m' o :
  perform_launch m r = (m', o) -> is_ok o = false.
Proof. by intros [= <- <-]. Qed.

Lemma unavailable_stop_fails (m : Machine UnavailablePlatform) s m' o :
  continue_stop m s = Some (m', o) -> is_ok o = false.
Proof.
  unfold continue_stop, perform_stop.
  destruct (validate_stop m s); simpl; by intros [= <- <-].
Qed.

Definition outcome_ok (o : Outcome) : bool :=
  match o with OutLaunch x => is_ok x | OutExecute x => is_ok x | OutStop x => is_ok x end.

(** The adapter succeeds at nothing that is not already on record. *)
Lemma unavailable_outcome (m : Machine UnavailablePlatform) c o m' :
  call m c = Some (m', o) -> recorded (machine_operations m) c o \/ outcome_ok o = false.
Proof.
  destruct c as [r | r | r]; simpl.
  - unfold launch. destruct (replay_launch _ r) as [[x | ] | []] eqn:Hrep.
    + intros [= <- <-]. left. by apply replay_launch_recorded.
    + case_bool_decide; [by intros [= <- <-]; right | ].
      destruct (ensure_launch_capacity _); [ | by intros [= <- <-]; right].
      destruct (perform_launch m r) as [m1 x] eqn:Hp. apply unavailable_launch_fails in Hp.
      destruct (record_launch _ _ _); intros [= <- <-]. by right.
    + by intros [= <- <-]; right.
  - unfold execute. destruct (replay_execute _ r) as [[x | ] | []] eqn:Hrep.
    + intros [= <- <-]. left. by apply replay_execute_recorded.
    + destruct (validate_execute m r); [ | by intros [= <- <-]; right].
      destruct (ensure_execute_capacity _ _); [ | by intros [= <- <-]; right].
      unfold perform_execute. destruct (machine_guest m); simpl;
        destruct (record_execute _ _ _); intros [= <- <-]; by right.
    + by intros [= <- <-]; right.
  - unfold stop. destruct (replay_stop _ r) as [[ | | x] | []] eqn:Hrep.
    + destruct (validate_stop m r); [ | by intros [= <- <-]; right].
      destruct (admit_stop _ _); [ | done].
      destruct (continue_stop _ r) as [[m1 x] | ] eqn:Hc; [ | done].
      intros [= <- <-]. right. by apply unavailable_stop_fails in Hc.
    + destruct (continue_stop _ r) as [[m1 x] | ] eqn:Hc; [ | done].
      intros [= <- <-]. right. by apply unavailable_stop_fails in Hc.
    + intros [= <- <-]. left. by apply replay_stop_complete.
    + by intros [= <- <-]; right.
Qed.

Lemma unavailable_recorded m c o :
  unavailable_ok m -> recorded (machine_operations m) c o -> outcome_ok o = false.
Proof.
  intros ([_ Hok] & Hst & Hlx) Hrec. unfold state_ok in Hok.
  destruct Hst as [Hst | Hst]; rewrite Hst in Hok.
  { destruct Hok as (_ & _ & Hops). rewrite Hops in Hrec. by destruct c, o. }
  destruct Hok as ([x (HL & _ & Hx & _)] & Hs), c, o; simpl in *; try done.
  - by apply (Hlx _ Hrec).
  - rewrite Hx in Hrec; [done | by apply Hlx].
  - destruct Hs as [Hn | (s & Hs & _)]; congruence.
Qed.

Lemma unavailable_step m c o m' :
  unavailable_ok m -> mstep m c o m' -> unavailable_ok m' /\ outcome_ok o = false.
Proof.
  intros Hu Hstep. pose proof Hu as (Hm & Hst & Hlx).
  destruct (mstep_ok _ _ _ _ Hm Hstep) as [Hm' Heff].
  assert (Hfail : outcome_ok o = false).
  { destruct Hstep as [_ Hc]. destruct (unavailable_outcome _ _ _ _ Hc) as [Hrec | ]; [ | done].
    by eapply unavailable_recorded. }
  split; [ | done]. destruct Heff as [[-> _] | (Ha & Hmono & Hrec)]; [done | ].
  assert (Hst' : machine_state m' = State_Failed).
  { unfold abs in Ha. inversion Ha; subst; simpl in *; try done;
      repeat case_match; simplify_eq; done. }
  split_and!; [done | by right | ]. intros x Hx.
  destruct Hst as [Hnew | Hfld].
  - destruct Hm as [_ Hok]. unfold state_ok in Hok. rewrite Hnew in Hok.
    unfold abs in Ha. rewrite Hnew in Ha.
    inversion Ha; subst; simpl in *; try done;
      [ | match goal with Hs : stoppable _ _ |- _ => inversion Hs end].
    destruct Hrec as [Hrec | (? & ? & _)]; [ | done]. rewrite Hx in Hrec. by simplify_eq.
  - destruct Hm as [_ Hok]. unfold state_ok in Hok. rewrite Hfld in Hok.
    destruct Hok as ([y (HL & _)] & _).
    pose proof (Hmono (CallLaunch (launch_record_request y)) (OutLaunch (launch_record_outcome y)))
      as Hm2. simpl in Hm2. rewrite HL, Hx in Hm2. destruct x, y; simpl in *.
    specialize (Hm2 eq_refl). simplify_eq. by apply (Hlx _ HL).
Qed.

(** Fail closed: over the adapter that ships today no sequence of requests ever
    makes the machine Ready, and no launch, command or stop is ever reported as
    successful. *)
Theorem unavailable_fails_closed m c o m' :
  msteps machine_new m -> mstep m c o m' ->
  (machine_state m = State_New \/ machine_state m = State_Failed) /\ outcome_ok o = false.
Proof.
  intros Hs Hstep. assert (Hu : unavailable_ok m).
  { remember machine_new as m0 eqn:Hm0. revert Hm0. clear Hstep.
    assert (Hgen : forall a b, msteps a b -> unavailable_ok a -> unavailable_ok b).
    { induction 1 as [ | a c1 o1 a1 b H1 _ IH]; [done | ]. intros Ha. apply IH.
      by eapply unavailable_step. }
    intros ->. by eapply Hgen, unavailable_ok_new. }
  split; [by destruct Hu as (_ & ? & _) | by eapply unavailable_step].
Qed.

(** * Sample runs *)

Lemma lifecycle_invariant_witness : machine_ok sample_ready.
Proof. exact (lifecycle_invariant sample_ready sample_ready_reachable). Defined.

Lemma lifecycle_never_asserts_witness :
  exists m' o, call sample_ready (CallExecute (sample_execute 5 2)) = Some (m', o) /\ reachable m'.
Proof.
  apply (lifecycle_never_asserts sample_ready); [exact sample_ready_reachable | by vm_compute].
Defined.

(** A command on the live machine, a replayed launch and a second launch. *)
Definition sample_executed : Machine SamplePlatform :=
  Eval vm_compute in default sample_start (sample_run sample_ready [CallExecute (sample_execute 5 2)]).

Lemma sample_execute_step :
  mstep sample_ready (CallExecute (sample_execute 5 2))
    (OutExecute (Ok (mkExecuted (mkOperationId (sample_id 5)) (mkInstanceId (sample_id 2))
       ExitStatus_OutputLimit [1; 2] []))) sample_executed.
Proof. constructor; by vm_compute. Qed.

Lemma lifecycle_refinement_witness :
  astep (abs sample_ready) (CallExecute (sample_execute 5 2))
    (OutExecute (Ok (mkExecuted (mkOperationId (sample_id 5)) (mkInstanceId (sample_id 2))
       ExitStatus_OutputLimit [1; 2] []))) (abs sample_executed).
Proof.
  destruct (lifecycle_refinement _ _ _ _ sample_ready_reachable sample_execute_step)
    as [[Heq _] | Ha]; [exfalso | exact Ha].
  apply (f_equal (fun m => size (ledger_executes (machine_operations m)))) in Heq.
  by vm_compute in Heq.
Defined.

Lemma replay_exact_witness :
  call sample_executed (CallExecute (sample_execute 5 2)) =
  Some (sample_executed, OutExecute (Ok (mkExecuted (mkOperationId (sample_id 5))
    (mkInstanceId (sample_id 2)) ExitStatus_OutputLimit [1; 2] []))).
Proof.
  apply (replay_exact sample_ready _ _ sample_executed sample_executed sample_ready_reachable
    sample_execute_step); [ | done | constructor].
  intros f _. discriminate.
Defined.

Lemma conflict_refused_witness :
  call sample_ready (CallExecute (sample_execute 1 2)) =
  Some (sample_ready, refused (CallExecute (sample_execute 1 2)) operation_conflict).
Proof.
  apply (conflict_refused sample_ready (CallLaunch sample_launch));
    [exact sample_ready_reachable | | reflexivity | discriminate].
  left. eexists (OutLaunch _). reflexivity.
Defined.

Lemma launch_evidence_witness :
  exists m' o n, launch sample_start sample_launch = Some (m', o) /\
    launch_trail (take (S n) LAUNCH_MILESTONES) o.
Proof.
  destruct (launch sample_start sample_launch) as [[m' o] | ] eqn:E; [ | by vm_compute in E].
  destruct (launch_evidence sample_start sample_launch m' o eq_refl eq_refl E) as (n & Ht & _).
  by exists m', o, n.
Defined.

Lemma reaping_exclusive_witness :
  exists o m', mstep sample_reaping (CallStop sample_stop) o m' /\
    (m' = sample_reaping \/ (CallStop sample_stop = CallStop sample_stop /\
       (abs m' = A_Gone sample_stop \/ abs m' = A_Reaping sample_stop))).
Proof.
  destruct (call sample_reaping (CallStop sample_stop)) as [[m' o] | ] eqn:E;
    [ | by vm_compute in E].
  exists o, m'. assert (Hs : mstep sample_reaping (CallStop sample_stop) o m') by (by constructor).
  split; [done | ].
  exact (reaping_exclusive _ sample_stop _ _ _ sample_reaping_reachable eq_refl Hs).
Defined.

Lemma receipts_bounded_witness :
  retained_sum (ledger_executes (machine_operations sample_ready)) <= MAX_OPERATION_RECEIPT_BYTES.
Proof. apply (receipts_bounded sample_ready sample_ready_reachable). Defined.

Lemma bounded_output_prefix_witness :
  bounded_output (mkPlatformExecution (ExitStatus_Code 0) [1; 2; 3] [4; 5; 6]) (sample_execute 4 4) =
    (ExitStatus_OutputLimit, [1; 2; 3], [4]) /\
  [1; 2; 3] ++ [4] = take 4 ([1; 2; 3] ++ [4; 5; 6]).
Proof.
  split; [reflexivity | ].
  apply (bounded_output_prefix (mkPlatformExecution (ExitStatus_Code 0) [1; 2; 3] [4; 5; 6])
    (sample_execute 4 4)). by vm_compute.
Defined.

Lemma unavailable_fails_closed_witness :
  exists o m', mstep machine_new (CallLaunch sample_launch) o m' /\ outcome_ok o = false.
Proof.
  destruct (call machine_new (CallLaunch sample_launch)) as [[m' o] | ] eqn:E;
    [ | by vm_compute in E].
  exists o, m'. assert (Hs : mstep machine_new (CallLaunch sample_launch) o m') by (by constructor).
  split; [done | ].
  apply (unavailable_fails_closed machine_new _ _ _ (msteps_refl machine_new) Hs).
Defined.
