(* ===== verification/VmmControl.v ===== *)
(** The control packets of [crates/soma-vmm/src/control/]: fields, requests and
    replies, as the bytes that cross the socket. *)

From Stdlib Require Import String.
From stdpp Require Import strings.
From S2P Require Import Prelude Bytes VmmContract.
From stdpp Require Import options.

(** * Errors ([error.rs]) *)

Inductive ControlError : Type :=
| ControlError_TooLong
| ControlError_UnknownRequest
| ControlError_MissingField (field : string)
| ControlError_InvalidValue (field : string)
| ControlError_TrailingField.

#[export] Instance ControlError_eq_dec : EqDecision ControlError.
Proof. solve_decision. Defined.

(** [Display], as the reason of a rejected packet. *)
Definition ControlError_display (e : ControlError) : bytes :=
  match e with
  | ControlError_TooLong => str "request exceeds the packet limit"
  | ControlError_UnknownRequest => str "unknown request"
  | ControlError_MissingField field => str "request is missing " ++ str field
  | ControlError_InvalidValue field =>
      str "request field " ++ str field ++ str " is malformed"
  | ControlError_TrailingField => str "request has a trailing field"
  end.

(** * Fields ([field.rs]) *)

(** [str::is_char_boundary] inside a text: the byte there does not continue a
    character. *)
Definition char_boundary_at (l : bytes) : bool :=
  match l with b :: _ => negb ((0x80 <=? b) && (b <=? 0xBF)) | [] => true end.

(** The loop of [bytes]: pairs of bytes, [get(index..index + 2)] failing where the
    range splits a character. *)
Fixpoint hex_pairs (l : bytes) : option bytes :=
  match l with
  | [] => Some []
  | [_] => None
  | a :: b :: rest =>
      if char_boundary_at l && char_boundary_at rest then
        match from_str_radix 16 0 U8_MAX [a; b] with
        | Some v => match hex_pairs rest with Some vs => Some (v :: vs) | None => None end
        | None => None
        end
      else None
  end.

Definition field_bytes (token : option bytes) (field : string) : Result bytes ControlError :=
  let? text := ok_or (ControlError_MissingField field) token in
  if negb (len text mod 2 =? 0) then Err (ControlError_InvalidValue field)
  else ok_or (ControlError_InvalidValue field) (hex_pairs text).

Definition field_identifier (width : nat) (token : option bytes) (field : string)
    : Result bytes ControlError :=
  let? b := field_bytes token field in
  if (length b =? width)%nat then Ok b else Err (ControlError_InvalidValue field).

(** [number::<T>] for an integer type of range [lo, hi]. *)
Definition field_number (lo hi : Z) (token : option bytes) (field : string)
    : Result Z ControlError :=
  let? text := ok_or (ControlError_MissingField field) token in
  ok_or (ControlError_InvalidValue field) (parse_int lo hi text).

Definition field_end (tokens : list bytes) : Result unit ControlError :=
  match tokens with [] => Ok tt | _ :: _ => Err ControlError_TrailingField end.

(** * Requests ([request.rs]) *)

Definition MAX_REQUEST_BYTES : Z := 4096.

Inductive Request : Type :=
| Request_Attest
| Request_Launch (launch : Launch)
| Request_Execute (execute : Execute)
| Request_Stop (stop : Stop)
| Request_Seal
| Request_Shutdown (status : Z).

#[export] Instance Request_eq_dec : EqDecision Request.
Proof. solve_decision. Defined.

(** The [format!] strings, as tokens joined by one space. *)
Definition launch_tokens (l : Launch) : list bytes :=
  let machine := generation_machine (launch_generation l) in
  [str "launch"; hex (operation_bytes (launch_operation_id l));
   hex (instance_bytes (launch_instance_id l));
   hex (generation_bytes (generation_id (launch_generation l)));
   dec (vcpus machine); dec (memory machine); dec (writable_disk machine)].

Definition encode_launch (l : Launch) : bytes := join_sp (launch_tokens l).

Definition execute_head_tokens (e : Execute) : list bytes :=
  [str "execute"; hex (operation_bytes (execute_operation_id e));
   hex (instance_bytes (execute_instance_id e));
   dec (limit_timeout (execute_limits e)); dec (limit_output (execute_limits e));
   hex (execute_program e)].

(** [format!] of the fixed fields, then a space and the hexadecimal form per
    argument. *)
Definition encode_execute (e : Execute) : bytes :=
  foldl (fun text argument => text ++ [SPACE] ++ hex argument)
        (join_sp (execute_head_tokens e)) (execute_arguments e).

Definition encode_request (r : Request) : bytes :=
  match r with
  | Request_Attest => str "attest"
  | Request_Launch launch => encode_launch launch
  | Request_Execute execute => encode_execute execute
  | Request_Stop stop =>
      join_sp [str "stop"; hex (operation_bytes (stop_operation_id stop));
               hex (instance_bytes (stop_instance_id stop))]
  | Request_Seal => str "seal"
  | Request_Shutdown status => join_sp [str "shutdown"; dec status]
  end.

(** [tokens.next()]: the next token and the rest. *)
Definition next (tokens : list bytes) : option bytes * list bytes :=
  match tokens with [] => (None, []) | t :: rest => (Some t, rest) end.

Definition decode_launch (tokens : list bytes) : Result Request ControlError :=
  let '(t, tokens) := next tokens in
  let? b := field_identifier 16 t "operation" in
  let? operation := map_err (fun _ => ControlError_InvalidValue "operation") (OperationId_new b) in
  let '(t, tokens) := next tokens in
  let? b := field_identifier 16 t "instance" in
  let? instance := map_err (fun _ => ControlError_InvalidValue "instance") (InstanceId_new b) in
  let '(t, tokens) := next tokens in
  let? b := field_identifier 32 t "generation" in
  let? generation :=
    map_err (fun _ => ControlError_InvalidValue "generation") (GenerationId_new b) in
  let '(t, tokens) := next tokens in
  let? n := field_number 0 U16_MAX t "vcpus" in
  let? vcpus := map_err (fun _ => ControlError_InvalidValue "vcpus") (VcpuCount_new n) in
  let '(t, tokens) := next tokens in
  let? n := field_number 0 U64_MAX t "memory" in
  let? memory := map_err (fun _ => ControlError_InvalidValue "memory") (MemoryBytes_new n) in
  let '(t, tokens) := next tokens in
  let? n := field_number 0 U64_MAX t "disk" in
  let? disk := map_err (fun _ => ControlError_InvalidValue "disk") (DiskBytes_new n) in
  let? _ := field_end tokens in
  Ok (Request_Launch (mkLaunch operation instance
        (mkGeneration generation (mkMachineSpec vcpus memory disk)))).

Fixpoint decode_arguments (tokens : list bytes) : Result (list bytes) ControlError :=
  match tokens with
  | [] => Ok []
  | token :: rest =>
      let? b := field_bytes (Some token) "argument" in
      let? argument := map_err (fun _ => ControlError_InvalidValue "argument") (Argument_new b) in
      let? arguments := decode_arguments rest in
      Ok (argument :: arguments)
  end.

Definition decode_execute (tokens : list bytes) : Result Request ControlError :=
  let '(t, tokens) := next tokens in
  let? b := field_identifier 16 t "operation" in
  let? operation := map_err (fun _ => ControlError_InvalidValue "operation") (OperationId_new b) in
  let '(t, tokens) := next tokens in
  let? b := field_identifier 16 t "instance" in
  let? instance := map_err (fun _ => ControlError_InvalidValue "instance") (InstanceId_new b) in
  let '(t, tokens) := next tokens in
  let? n := field_number 0 U32_MAX t "timeout" in
  let? timeout := map_err (fun _ => ControlError_InvalidValue "timeout") (TimeoutMillis_new n) in
  let '(t, tokens) := next tokens in
  let? n := field_number 0 U64_MAX t "output" in
  let? output := map_err (fun _ => ControlError_InvalidValue "output") (OutputBytes_new n) in
  let '(t, tokens) := next tokens in
  let? b := field_bytes t "program" in
  let? program := map_err (fun _ => ControlError_InvalidValue "program") (Program_new b) in
  let? arguments := decode_arguments tokens in
  map_ok Request_Execute
    (map_err (fun _ => ControlError_InvalidValue "arguments")
       (Execute_new operation instance program arguments (mkExecutionLimits timeout output))).

Definition decode_stop (tokens : list bytes) : Result Request ControlError :=
  let '(t, tokens) := next tokens in
  let? b := field_identifier 16 t "operation" in
  let? operation := map_err (fun _ => ControlError_InvalidValue "operation") (OperationId_new b) in
  let '(t, tokens) := next tokens in
  let? b := field_identifier 16 t "instance" in
  let? instance := map_err (fun _ => ControlError_InvalidValue "instance") (InstanceId_new b) in
  let? _ := field_end tokens in
  Ok (Request_Stop (mkStop operation instance)).

Definition I32_MIN : Z := - 2 ^ 31.
Definition I32_MAX : Z := 2 ^ 31 - 1.

Definition decode_request (text : bytes) : Result Request ControlError :=
  if len text >? MAX_REQUEST_BYTES then Err ControlError_TooLong
  else
    let '(head, tokens) := next (split_whitespace text) in
    let word := default [] head in
    if bool_decide (word = str "attest") then map_ok (fun _ => Request_Attest) (field_end tokens)
    else if bool_decide (word = str "seal") then map_ok (fun _ => Request_Seal) (field_end tokens)
    else if bool_decide (word = str "shutdown") then
      let '(t, tokens) := next tokens in
      let? status := field_number I32_MIN I32_MAX t "exit status" in
      map_ok (fun _ => Request_Shutdown status) (field_end tokens)
    else if bool_decide (word = str "launch") then decode_launch tokens
    else if bool_decide (word = str "execute") then decode_execute tokens
    else if bool_decide (word = str "stop") then decode_stop tokens
    else Err ControlError_UnknownRequest.

(** * Replies ([reply.rs]) *)

(** Derived [Debug] of the contract enumerations. *)
Definition debug_milestone (m : Milestone) : bytes :=
  str match m with
  | Milestone_RequestAccepted => "RequestAccepted"
  | Milestone_ArtifactsVerified => "ArtifactsVerified"
  | Milestone_MachineRestored => "MachineRestored"
  | Milestone_GuestAuthenticated => "GuestAuthenticated"
  | Milestone_GenerationAcknowledged => "GenerationAcknowledged"
  | Milestone_IdentityRepaired => "IdentityRepaired"
  | Milestone_NetworkRepaired => "NetworkRepaired"
  | Milestone_FirstCommandSucceeded => "FirstCommandSucceeded"
  | Milestone_Ready => "Ready"
  | Milestone_RollbackStarted => "RollbackStarted"
  | Milestone_CleanupCompleted => "CleanupCompleted"
  | Milestone_StopRequested => "StopRequested"
  | Milestone_Stopped => "Stopped"
  end.

Definition debug_exit_status (s : ExitStatus) : bytes :=
  match s with
  | ExitStatus_Code code => str "Code(" ++ dec code ++ str ")"
  | ExitStatus_Signal signal => str "Signal(" ++ dec signal ++ str ")"
  | ExitStatus_TimedOut => str "TimedOut"
  | ExitStatus_OutputLimit => str "OutputLimit"
  end.

Definition debug_cleanup (c : CleanupEvidence) : bytes :=
  str match c with
  | CleanupEvidence_NotRequired => "NotRequired"
  | CleanupEvidence_Complete => "Complete"
  | CleanupEvidence_Incomplete => "Incomplete"
  end.

Definition debug_recovery (r : Recovery) : bytes :=
  str match r with
  | Recovery_DoNotRetry => "DoNotRetry"
  | Recovery_ReplaceMachine => "ReplaceMachine"
  | Recovery_RecertifyGeneration => "RecertifyGeneration"
  | Recovery_RepairHost => "RepairHost"
  end.

Definition debug_kind (k : FailureKind) : bytes :=
  str match k with
  | FailureKind_OperationConflict => "OperationConflict"
  | FailureKind_OperationCapacityExceeded => "OperationCapacityExceeded"
  | FailureKind_InvalidLifecycle => "InvalidLifecycle"
  | FailureKind_GenerationVerificationFailed => "GenerationVerificationFailed"
  | FailureKind_RestoreFailed => "RestoreFailed"
  | FailureKind_GuestAuthenticationFailed => "GuestAuthenticationFailed"
  | FailureKind_GenerationAcknowledgementFailed => "GenerationAcknowledgementFailed"
  | FailureKind_IdentityRepairFailed => "IdentityRepairFailed"
  | FailureKind_NetworkRepairFailed => "NetworkRepairFailed"
  | FailureKind_ReadinessProbeFailed => "ReadinessProbeFailed"
  | FailureKind_InstanceMismatch => "InstanceMismatch"
  | FailureKind_ExecuteFailed => "ExecuteFailed"
  | FailureKind_StopFailed => "StopFailed"
  end.

Definition debug_phase (p : FailurePhase) : bytes :=
  str match p with
  | FailurePhase_Idempotency => "Idempotency"
  | FailurePhase_Lifecycle => "Lifecycle"
  | FailurePhase_ArtifactVerification => "ArtifactVerification"
  | FailurePhase_Restore => "Restore"
  | FailurePhase_GuestAuthentication => "GuestAuthentication"
  | FailurePhase_GenerationAcknowledgement => "GenerationAcknowledgement"
  | FailurePhase_IdentityRepair => "IdentityRepair"
  | FailurePhase_NetworkRepair => "NetworkRepair"
  | FailurePhase_ReadinessProbe => "ReadinessProbe"
  | FailurePhase_Execute => "Execute"
  | FailurePhase_Stop => "Stop"
  end.

Definition debug_bool (b : bool) : bytes := str (if b then "true" else "false").

Definition reply_milestones (reached : Milestones) : bytes :=
  match reached with
  | [] => str "none"
  | _ => join_on 44 (debug_milestone <$> reached)
  end.

Inductive Reply : Type :=
| Reply_Ready (ready : Ready)
| Reply_Executed (executed : Executed)
| Reply_Stopped (stopped : Stopped)
| Reply_Failure (failure : Failure)
| Reply_Sealed
| Reply_Rejected (reason : bytes).

Definition encode_reply (r : Reply) : bytes :=
  match r with
  | Reply_Ready ready =>
      str "ready operation=" ++ hex (operation_bytes (ready_operation_id ready)) ++
      str " instance=" ++ hex (instance_bytes (ready_instance_id ready)) ++
      str " generation=" ++ hex (generation_bytes (ready_generation_id ready)) ++
      str " milestones=" ++ reply_milestones (ready_milestones ready)
  | Reply_Executed executed =>
      str "executed operation=" ++ hex (operation_bytes (executed_operation_id executed)) ++
      str " instance=" ++ hex (instance_bytes (executed_instance_id executed)) ++
      str " status=" ++ debug_exit_status (executed_status executed) ++
      str " stdout=" ++ dec (len (executed_stdout executed)) ++
      str " stderr=" ++ dec (len (executed_stderr executed))
  | Reply_Stopped stopped =>
      str "stopped operation=" ++ hex (operation_bytes (stopped_operation_id stopped)) ++
      str " instance=" ++ hex (instance_bytes (stopped_instance_id stopped)) ++
      str " acknowledged=" ++ debug_bool (stopped_guest_acknowledged stopped) ++
      str " forced=" ++ debug_bool (stopped_forced stopped) ++
      str " cleanup=" ++ debug_cleanup (stopped_cleanup stopped) ++
      str " milestones=" ++ reply_milestones (stopped_milestones stopped)
  | Reply_Failure failure =>
      str "failure kind=" ++ debug_kind (failure_kind failure) ++
      str " phase=" ++ debug_phase (failure_phase failure) ++
      str " recovery=" ++ debug_recovery (failure_recovery failure) ++
      str " cleanup=" ++ debug_cleanup (failure_cleanup failure) ++
      str " milestones=" ++ reply_milestones (failure_milestones failure)
  | Reply_Sealed => str "sealed"
  | Reply_Rejected reason => str "rejected " ++ reason
  end.

(** * Fields read back *)

Lemma char_boundary_graphic b l : is_graphic b -> char_boundary_at (b :: l) = true.
Proof.
  unfold char_boundary_at, is_graphic. intros Hb.
  destruct (Z.leb_spec 0x80 b); [lia | done].
Qed.

Lemma hex_pairs_hex b : all_bytes b -> hex_pairs (hex b) = Some b.
Proof.
  induction 1 as [ | c b Hc Hb IH]; [done | ].
  destruct (nibbles c Hc) as (H1 & H2 & _).
  cbn [hex hex_pairs]. rewrite char_boundary_graphic by (by apply hex_digit_graphic).
  replace (char_boundary_at (hex b)) with true.
  - cbn [andb]. by rewrite from_str_radix_hex, IH.
  - destruct b as [ | d b]; [done | ]. inversion Hb; subst. cbn [hex].
    rewrite char_boundary_graphic; [done | ].
    by apply hex_digit_graphic, (nibbles d).
Qed.

Lemma field_bytes_hex b field : all_bytes b -> field_bytes (Some (hex b)) field = Ok b.
Proof.
  intros Hb. unfold field_bytes. simpl. unfold len. rewrite length_hex, hex_pairs_hex by done.
  replace (Z.of_nat (2 * length b) mod 2) with 0; [done | ].
  rewrite Nat2Z.inj_mul, Z.mul_comm. by rewrite Z.mod_mul.
Qed.

Lemma field_identifier_hex w b field :
  all_bytes b -> length b = w -> field_identifier w (Some (hex b)) field = Ok b.
Proof.
  intros Hb Hw. unfold field_identifier. rewrite field_bytes_hex by done. by rewrite Hw, Nat.eqb_refl.
Qed.

Lemma field_number_dec lo hi n field :
  - 10 ^ 20 < n < 10 ^ 20 -> lo <= n <= hi -> lo <= 0 <= hi ->
  field_number lo hi (Some (dec n)) field = Ok n.
Proof. intros. unfold field_number. simpl. by rewrite parse_int_dec. Qed.

(** * What a decoded request guarantees *)

Definition wf_request (r : Request) : Prop :=
  match r with
  | Request_Launch l => wf_launch l
  | Request_Execute e => wf_execute e
  | Request_Stop s => wf_stop s
  | Request_Shutdown status => I32_MIN <= status <= I32_MAX
  | Request_Attest | Request_Seal => True
  end.

Lemma to_digit_range radix b d : to_digit radix b = Some d -> 0 <= d < radix.
Proof. unfold to_digit. intros Hd. split_matches; zbool; lia. Qed.

Lemma parse_digits_range radix lo hi acc sign l n :
  lo <= acc <= hi -> parse_digits radix lo hi acc sign l = Some n -> lo <= n <= hi.
Proof.
  revert acc; induction l as [ | b l IH]; intros acc Hacc Hp; simpl in Hp; [by simplify_eq | ].
  destruct (to_digit radix b); [ | done].
  destruct (_ && _) eqn:E; [ | done]. zbool. eapply IH; [ | done]. lia.
Qed.

Lemma from_str_radix_range radix lo hi l n :
  lo <= 0 <= hi -> from_str_radix radix lo hi l = Some n -> lo <= n <= hi.
Proof.
  intros Hz Hp. unfold from_str_radix in Hp.
  destruct l as [ | b [ | c l]]; [done | | ].
  - destruct (_ || _); [done | by eapply parse_digits_range].
  - destruct (b =? 43); [by eapply parse_digits_range | ].
    destruct (_ && _); by eapply parse_digits_range.
Qed.

Lemma field_number_range lo hi t field n :
  lo <= 0 <= hi -> field_number lo hi t field = Ok n -> lo <= n <= hi.
Proof.
  intros Hz. unfold field_number. destruct t as [t | ]; simpl; [ | done].
  intros Hp%ok_or_Ok. by eapply from_str_radix_range.
Qed.

Lemma hex_pairs_bytes l b : hex_pairs l = Some b -> all_bytes b.
Proof.
  revert l; induction b as [ | c b IH]; intros l Hp; [constructor | ].
  destruct l as [ | x [ | y l]]; cbn [hex_pairs] in Hp; try done.
  destruct (_ && _); [ | done].
  destruct (from_str_radix 16 0 U8_MAX [x; y]) as [v | ] eqn:Hv; [ | done].
  destruct (hex_pairs l) as [vs | ] eqn:Hl; [ | done]. simplify_eq.
  constructor; [ | by eapply IH].
  apply from_str_radix_range in Hv; unfold is_uint, U8_MAX in *; lia.
Qed.

Lemma field_bytes_bytes t field b : field_bytes t field = Ok b -> all_bytes b.
Proof.
  unfold field_bytes. destruct t; simpl; [ | done]. case_match; [done | ].
  intros Hp%ok_or_Ok. by eapply hex_pairs_bytes.
Qed.

Lemma field_identifier_wf w t field b :
  field_identifier w t field = Ok b -> all_bytes b /\ length b = w.
Proof.
  unfold field_identifier. destruct (field_bytes t field) as [c | ] eqn:Hf; [ | done].
  case_match eqn:Hw; [ | done]. intros [= <-]. apply Nat.eqb_eq in Hw.
  split; [by eapply field_bytes_bytes | done].
Qed.

(** * Round trip *)

Lemma OperationId_new_wf b : wf_id 16 b -> OperationId_new b = Ok (mkOperationId b).
Proof. intros (_ & _ & Hz). unfold OperationId_new. by rewrite Hz. Qed.
Lemma InstanceId_new_wf b : wf_id 16 b -> InstanceId_new b = Ok (mkInstanceId b).
Proof. intros (_ & _ & Hz). unfold InstanceId_new. by rewrite Hz. Qed.
Lemma GenerationId_new_wf b : wf_id 32 b -> GenerationId_new b = Ok (mkGenerationId b).
Proof. intros (_ & _ & Hz). unfold GenerationId_new. by rewrite Hz. Qed.

Lemma field_identifier_wf_id w b field :
  wf_id w b -> field_identifier w (Some (hex b)) field = Ok b.
Proof. intros (Hw & Hb & _). by apply field_identifier_hex. Qed.

Lemma nonzero_ok {E} n (e : E) : 0 < n -> (if n =? 0 then Err e else Ok n) = Ok n.
Proof. intros Hn. by destruct (Z.eqb_spec n 0); [lia | ]. Qed.

Lemma decode_launch_encoded l :
  wf_launch l -> decode_launch (tail (launch_tokens l)) = Ok (Request_Launch l).
Proof.
  destruct l as [[o] [i] [[g] [v m d]]]. intros (Ho & Hi & Hg & Hv & Hm & Hd). simpl in *.
  unfold decode_launch, launch_tokens; cbn [tail next].
  rewrite !field_identifier_wf_id by done.
  rewrite OperationId_new_wf, InstanceId_new_wf, GenerationId_new_wf by done. cbn [map_err].
  unfold U16_MAX, U64_MAX, VcpuCount_new, MemoryBytes_new, DiskBytes_new in *.
  rewrite !field_number_dec by lia. rewrite !nonzero_ok by lia. done.
Qed.

Lemma decode_stop_encoded s :
  wf_stop s ->
  decode_stop [hex (operation_bytes (stop_operation_id s)); hex (instance_bytes (stop_instance_id s))]
  = Ok (Request_Stop s).
Proof.
  destruct s as [[o] [i]]. intros [Ho Hi]. simpl in *. unfold decode_stop; cbn [next].
  rewrite !field_identifier_wf_id, OperationId_new_wf, InstanceId_new_wf by done. done.
Qed.

Lemma Program_new_wf p : wf_program p -> Program_new p = Ok p.
Proof.
  intros ([_ Hn] & Hs & Hl). unfold Program_new.
  rewrite (proj2 (validate_command_bytes_ok p _ _ _)); [by rewrite Hs | ].
  split_and!; [ | done | done]. right. by intros ->.
Qed.

Lemma Argument_new_wf a : wf_argument a -> Argument_new a = Ok a.
Proof.
  intros ([_ Hn] & Hl). unfold Argument_new.
  rewrite (proj2 (validate_command_bytes_ok a _ _ _)); [done | ]. by split_and!; [left | | ].
Qed.

Lemma decode_arguments_encoded args :
  Forall wf_argument args -> decode_arguments (hex <$> args) = Ok args.
Proof.
  induction 1 as [ | a args Ha Hargs IH]; [done | ]. cbn [fmap list_fmap decode_arguments].
  destruct Ha as [[Hb ?] ?] eqn:E. rewrite field_bytes_hex by done.
  rewrite Argument_new_wf by done. cbn [map_err]. by rewrite IH.
Qed.

(** What reaches the worker: an empty argument leaves no token behind. *)
Definition drop_empty_arguments (e : Execute) : Execute :=
  mkExecute (execute_operation_id e) (execute_instance_id e) (execute_program e)
    (filter nonempty (execute_arguments e)) (execute_limits e).

Lemma argument_bytes_filter args : argument_bytes (filter nonempty args) = argument_bytes args.
Proof.
  induction args as [ | a args IH]; [done | ]. rewrite filter_cons. case_decide as Hn.
  - simpl. by rewrite IH.
  - destruct a; [done | ]. by destruct Hn.
Qed.

Lemma wf_execute_drop e : wf_execute e -> wf_execute (drop_empty_arguments e).
Proof.
  intros (Ho & Hi & Hp & Ha & Hn & Hb & Hl). unfold wf_execute; simpl.
  rewrite argument_bytes_filter. split_and!; try done; [by apply Forall_filter | ].
  pose proof (length_filter nonempty (execute_arguments e)). lia.
Qed.

Lemma decode_execute_encoded e :
  wf_execute e ->
  decode_execute (tail (execute_head_tokens e) ++ (hex <$> execute_arguments e)) =
  Ok (Request_Execute e).
Proof.
  destruct e as [[o] [i] p args [t out]].
  intros (Ho & Hi & Hp & Ha & Hn & Hb & Ht & Hout). simpl in *.
  unfold decode_execute, execute_head_tokens; cbn [tail next app].
  rewrite !field_identifier_wf_id, OperationId_new_wf, InstanceId_new_wf by done. cbn [map_err].
  rewrite !field_number_dec by (unfold U32_MAX, U64_MAX; lia).
  unfold TimeoutMillis_new, OutputBytes_new. destruct (Z.eqb_spec t 0); [lia | ].
  destruct (Z.gtb_spec t 3600000); [lia | ]. destruct (Z.eqb_spec out 0); [lia | ].
  destruct (Z.gtb_spec out (16 * 1024 * 1024)); [lia | ]. cbn [map_err].
  rewrite field_bytes_hex by (by destruct Hp as [[? ?] ?]).
  rewrite Program_new_wf, decode_arguments_encoded by done. cbn [map_err map_ok].
  by rewrite (proj2 (Execute_new_ok _ _ _ _ _
    (mkExecute (mkOperationId o) (mkInstanceId i) p args (mkExecutionLimits t out)))).
Qed.

Lemma join_sp_app toks (args : list bytes) :
  toks <> [] ->
  foldl (fun text (argument : bytes) => text ++ [SPACE] ++ hex argument) (join_sp toks) args =
  join_sp (toks ++ (hex <$> args)).
Proof.
  revert toks; induction args as [ | a args IH]; intros toks Hne; simpl.
  - by rewrite app_nil_r.
  - replace (join_sp toks ++ SPACE :: hex a) with (join_sp (toks ++ [hex a])).
    + rewrite IH, <- app_assoc by (by destruct toks). done.
    + clear -Hne. induction toks as [ | t toks IH]; [done | ].
      destruct toks as [ | u toks]; [done | ].
      change ((t :: u :: toks) ++ [hex a]) with (t :: (u :: toks) ++ [hex a]).
      change (join_sp (t :: u :: toks)) with (t ++ SPACE :: join_sp (u :: toks)).
      rewrite <- app_assoc. change ((SPACE :: join_sp (u :: toks)) ++ SPACE :: hex a) with
        (SPACE :: (join_sp (u :: toks) ++ SPACE :: hex a)). by rewrite <- IH.
Qed.

Lemma filter_hex (args : list bytes) : filter nonempty (hex <$> args) = hex <$> filter nonempty args.
Proof.
  induction args as [ | a args IH]; [done | ]. cbn [fmap list_fmap]. rewrite !filter_cons.
  destruct a as [ | b a].
  - rewrite !decide_False by (intros Hn; by apply Hn). done.
  - rewrite !decide_True by done. cbn [fmap list_fmap]. by f_equal.
Qed.

Lemma hex_id_token w b : wf_id (S w) b -> is_token (hex b).
Proof. intros (Hw & Hb & _). apply hex_token; [done | ]. by intros ->. Qed.

Lemma dec_graphic n : - 10 ^ 20 < n < 10 ^ 20 -> Forall is_graphic (dec n).
Proof. intros Hn. by apply dec_token. Qed.

Lemma dec_nonempty n : - 10 ^ 20 < n < 10 ^ 20 -> nonempty (dec n).
Proof. intros Hn. by apply dec_token. Qed.

Lemma launch_tokens_ok l : wf_launch l -> Forall is_token (launch_tokens l).
Proof.
  intros (Ho & Hi & Hg & Hv & Hm & Hd). unfold launch_tokens, U16_MAX, U64_MAX in *.
  repeat apply Forall_cons_2; try apply Forall_nil_2;
    try (eapply hex_id_token; eassumption); try (apply dec_token; lia).
  split; [done | by apply forallb_graphic].
Qed.

Lemma execute_head_tokens_ok e : wf_execute e -> Forall is_token (execute_head_tokens e).
Proof.
  intros (Ho & Hi & ([Hb _] & Hs & _) & _ & _ & _ & Ht & Hout). unfold execute_head_tokens.
  repeat apply Forall_cons_2; try apply Forall_nil_2;
    try (eapply hex_id_token; eassumption); try (apply dec_token; lia).
  - split; [done | by apply forallb_graphic].
  - apply hex_token; [done | ]. intros Heq. by rewrite Heq in Hs.
Qed.

Lemma tokens_graphic toks : Forall is_token toks -> Forall (Forall is_graphic) toks.
Proof. intros Ht. eapply Forall_impl; [exact Ht | by intros t [_ ?]]. Qed.

Lemma tokens_nonempty toks : Forall is_token toks -> Forall nonempty toks.
Proof. intros Ht. eapply Forall_impl; [exact Ht | by intros t [? _]]. Qed.

Lemma split_tokens toks : Forall is_token toks -> split_whitespace (join_sp toks) = toks.
Proof.
  intros Ht. rewrite split_whitespace_join by (by apply tokens_graphic).
  by apply filter_all, tokens_nonempty.
Qed.

(** What a supervisor's request becomes at the worker. *)
Definition delivered (r : Request) : Request :=
  match r with
  | Request_Execute e => Request_Execute (drop_empty_arguments e)
  | _ => r
  end.

Lemma split_encode_execute e :
  wf_execute e ->
  split_whitespace (encode_execute e) =
  execute_head_tokens e ++ (hex <$> execute_arguments (drop_empty_arguments e)).
Proof.
  intros He. pose proof (execute_head_tokens_ok e He) as Ht. unfold encode_execute.
  rewrite join_sp_app by done. rewrite split_whitespace_join.
  - rewrite filter_app, filter_hex. f_equal. by apply filter_all, tokens_nonempty.
  - apply Forall_app. split; [by apply tokens_graphic | ].
    apply Forall_fmap. destruct He as (_ & _ & _ & Ha & _).
    eapply Forall_impl; [exact Ha | ]. intros a [[Hb _] _]. by apply hex_graphic.
Qed.

Lemma decode_encode r :
  wf_request r -> len (encode_request r) <= MAX_REQUEST_BYTES ->
  decode_request (encode_request r) = Ok (delivered r).
Proof.
  intros Hwf Hlen. unfold decode_request.
  destruct (Z.gtb_spec (len (encode_request r)) MAX_REQUEST_BYTES); [lia | ].
  destruct r as [ | l | e | s | | n]; simpl in Hwf; cbn [encode_request delivered].
  - reflexivity.
  - unfold encode_launch. rewrite split_tokens by (by apply launch_tokens_ok).
    exact (decode_launch_encoded l Hwf).
  - rewrite split_encode_execute by done.
    exact (decode_execute_encoded _ (wf_execute_drop e Hwf)).
  - rewrite split_tokens; [exact (decode_stop_encoded s Hwf) | ].
    destruct Hwf as [Ho Hi]. repeat apply Forall_cons_2; [ | by eapply hex_id_token.. | done].
    split; [done | by apply forallb_graphic].
  - reflexivity.
  - unfold I32_MIN, I32_MAX in Hwf. rewrite split_tokens.
    + cbn [next]. simpl default. repeat (rewrite bool_decide_false by done).
      rewrite bool_decide_true by done. cbn [next].
      rewrite field_number_dec by (unfold I32_MIN, I32_MAX; lia). done.
    + repeat apply Forall_cons_2; [ | apply dec_token; lia | done].
      split; [done | by apply forallb_graphic].
Qed.

(** Every well-formed request whose encoding fits one packet is delivered: the
    worker decodes exactly the request the supervisor encoded, provided no command
    argument is empty. *)
Theorem request_roundtrip r :
  wf_request r -> len (encode_request r) <= MAX_REQUEST_BYTES ->
  (forall e, r = Request_Execute e -> Forall nonempty (execute_arguments e)) ->
  decode_request (encode_request r) = Ok r.
Proof.
  intros Hwf Hlen Hne. rewrite decode_encode by done. f_equal.
  destruct r; try done. simpl. f_equal. destruct execute. unfold drop_empty_arguments. simpl.
  f_equal. by apply filter_all, (Hne _ eq_refl).
Qed.

(** An empty command argument, which the contract allows, does not survive the
    packet: the worker runs the command with every empty argument removed. *)
Theorem empty_arguments_dropped e :
  wf_execute e -> len (encode_execute e) <= MAX_REQUEST_BYTES ->
  decode_request (encode_execute e) = Ok (Request_Execute (drop_empty_arguments e)).
Proof. intros Hwf Hlen. by apply (decode_encode (Request_Execute e)). Qed.

(** * Soundness of decoding *)

(** Steps through one [let?] of a decoder known to succeed. *)
Ltac decode_step H :=
  match type of H with
  | context [match ?e with Ok _ => _ | Err _ => _ end] =>
      let E := fresh "E" in destruct e as [? | ?] eqn:E; [ | discriminate H]
  | context [let '(_, _) := next ?l in _] =>
      destruct (next l) as [? ?]
  end; cbn beta iota in H.

Lemma OperationId_new_ok b id :
  OperationId_new b = Ok id -> id = mkOperationId b /\ id_all_zero b = false.
Proof. unfold OperationId_new. case_match; naive_solver. Qed.
Lemma InstanceId_new_ok b id :
  InstanceId_new b = Ok id -> id = mkInstanceId b /\ id_all_zero b = false.
Proof. unfold InstanceId_new. case_match; naive_solver. Qed.
Lemma GenerationId_new_ok b id :
  GenerationId_new b = Ok id -> id = mkGenerationId b /\ id_all_zero b = false.
Proof. unfold GenerationId_new. case_match; naive_solver. Qed.

Lemma nonzero_new_ok {E} n (e : E) x :
  0 <= n -> (if n =? 0 then Err e else Ok n) = Ok x -> x = n /\ 0 < n.
Proof. intros Hn. destruct (Z.eqb_spec n 0); intros [=]; lia. Qed.

Lemma wf_id_intro w t field b :
  field_identifier w t field = Ok b -> id_all_zero b = false -> wf_id w b.
Proof. intros Hf Hz. destruct (field_identifier_wf _ _ _ _ Hf). by split_and!. Qed.

Lemma decode_launch_wf toks r : decode_launch toks = Ok r -> wf_request r.
Proof.
  unfold decode_launch. intros H. repeat decode_step H. injection H as <-.
  repeat match goal with
  | E : map_err _ _ = Ok _ |- _ => apply map_err_Ok in E
  | E : OperationId_new _ = Ok _ |- _ => apply OperationId_new_ok in E as [-> ?]
  | E : InstanceId_new _ = Ok _ |- _ => apply InstanceId_new_ok in E as [-> ?]
  | E : GenerationId_new _ = Ok _ |- _ => apply GenerationId_new_ok in E as [-> ?]
  | E : field_number _ _ _ _ = Ok _ |- _ =>
      apply field_number_range in E; [ | unfold U16_MAX, U64_MAX; lia]
  | E : VcpuCount_new _ = Ok _ |- _ => apply nonzero_new_ok in E as [-> ?]; [ | lia]
  | E : MemoryBytes_new _ = Ok _ |- _ => apply nonzero_new_ok in E as [-> ?]; [ | lia]
  | E : DiskBytes_new _ = Ok _ |- _ => apply nonzero_new_ok in E as [-> ?]; [ | lia]
  end.
  unfold wf_request, wf_launch, wf_machine_spec; simpl.
  split_and!; try lia; by eapply wf_id_intro.
Qed.

Lemma decode_stop_wf toks r : decode_stop toks = Ok r -> wf_request r.
Proof.
  unfold decode_stop. intros H. repeat decode_step H. injection H as <-.
  repeat match goal with
  | E : map_err _ _ = Ok _ |- _ => apply map_err_Ok in E
  | E : OperationId_new _ = Ok _ |- _ => apply OperationId_new_ok in E as [-> ?]
  | E : InstanceId_new _ = Ok _ |- _ => apply InstanceId_new_ok in E as [-> ?]
  end.
  split; by eapply wf_id_intro.
Qed.

Lemma Argument_new_ok b a : all_bytes b -> Argument_new b = Ok a -> a = b /\ wf_argument a.
Proof.
  intros Hb. unfold Argument_new. destruct (validate_command_bytes _ _ _ _) as [[] | ] eqn:Hv; [ | done].
  intros [= <-]. apply validate_command_bytes_ok in Hv as (_ & Hn & Hl). split; [done | ].
  by split_and!.
Qed.

Lemma Program_new_ok b p : all_bytes b -> Program_new b = Ok p -> p = b /\ wf_program p.
Proof.
  intros Hb. unfold Program_new. destruct (validate_command_bytes _ _ _ _) as [[] | ] eqn:Hv; [ | done].
  destruct (starts_with_slash b) eqn:Hs; simpl; [ | done].
  intros [= <-]. apply validate_command_bytes_ok in Hv as (_ & Hn & Hl). split; [done | ].
  by split_and!.
Qed.

Lemma decode_arguments_wf toks args : decode_arguments toks = Ok args -> Forall wf_argument args.
Proof.
  revert args; induction toks as [ | t toks IH]; intros args H; simpl in H; [by simplify_eq | ].
  repeat decode_step H. injection H as <-. apply map_err_Ok in E0.
  constructor; [ | by apply IH]. apply field_bytes_bytes in E.
  by apply (Argument_new_ok _ _ E) in E0 as [_ ?].
Qed.

Lemma bounded_new_ok {E} n max (e1 e2 : E) x :
  0 <= n -> (if n =? 0 then Err e1 else if n >? max then Err e2 else Ok n) = Ok x ->
  x = n /\ 0 < n <= max.
Proof.
  intros Hn. destruct (Z.eqb_spec n 0); [done | ]. destruct (Z.gtb_spec n max); intros [=]. lia.
Qed.

Lemma decode_execute_wf toks r : decode_execute toks = Ok r -> wf_request r.
Proof.
  unfold decode_execute. intros H. repeat decode_step H.
  destruct (Execute_new _ _ _ _ _) as [x | ] eqn:Hx; [ | done]. injection H as <-.
  apply Execute_new_ok in Hx as (-> & Hn & Hb).
  repeat match goal with
  | E : map_err _ _ = Ok _ |- _ => apply map_err_Ok in E
  | E : OperationId_new _ = Ok _ |- _ => apply OperationId_new_ok in E as [-> ?]
  | E : InstanceId_new _ = Ok _ |- _ => apply InstanceId_new_ok in E as [-> ?]
  | E : field_number _ _ _ _ = Ok _ |- _ =>
      apply field_number_range in E; [ | unfold U32_MAX, U64_MAX; lia]
  | E : TimeoutMillis_new _ = Ok _ |- _ => apply bounded_new_ok in E as [-> ?]; [ | lia]
  | E : OutputBytes_new _ = Ok _ |- _ => apply bounded_new_ok in E as [-> ?]; [ | lia]
  | E : decode_arguments _ = Ok _ |- _ => apply decode_arguments_wf in E
  | E : field_bytes _ _ = Ok _ |- _ => apply field_bytes_bytes in E
  | B : all_bytes ?b, E : Program_new ?b = Ok _ |- _ => apply (Program_new_ok _ _ B) in E as [-> ?]
  end.
  unfold wf_request, wf_execute, wf_limits; simpl.
  split_and!; try done; try lia; by eapply wf_id_intro.
Qed.

Lemma decode_request_wf text r : decode_request text = Ok r -> wf_request r.
Proof.
  unfold decode_request. case_match; [done | ].
  destruct (next _) as [head toks].
  repeat case_bool_decide.
  - by destruct (field_end toks); intros [= <-].
  - by destruct (field_end toks); intros [= <-].
  - destruct (next toks) as [t toks'].
    destruct (field_number _ _ t _) as [n | ] eqn:Hn; [ | done].
    destruct (field_end toks'); intros [= <-].
    by apply field_number_range in Hn.
  - apply decode_launch_wf.
  - apply decode_execute_wf.
  - apply decode_stop_wf.
  - done.
Qed.

(** Decoding is sound for any packet: what it accepts satisfies every bound of
    the contract constructors (identifier widths and non-zero values, dimensions,
    absolute NUL-free program, argument counts and sizes, limits, exit status). *)
Theorem decode_sound text r : decode_request text = Ok r -> wf_request r.
Proof. apply decode_request_wf. Qed.

(** * Witnesses *)

Definition packet_id (n : Z) : bytes := repeat n 16.

(** [/bin/echo], an empty argument and [hi]. *)
Definition packet_execute (arguments : list bytes) : Execute :=
  mkExecute (mkOperationId (packet_id 1)) (mkInstanceId (packet_id 255))
    (str "/bin/echo") arguments (mkExecutionLimits 5000 65536).

Lemma packet_execute_wf : wf_execute (packet_execute [[]; str "hi"]).
Proof. by vm_compute; repeat (split || constructor || intros ?). Qed.

Lemma request_roundtrip_witness :
  decode_request (encode_request (Request_Execute (packet_execute [str "hi"]))) =
  Ok (Request_Execute (packet_execute [str "hi"])).
Proof.
  apply request_roundtrip.
  - by vm_compute; repeat (split || constructor || intros ?).
  - by vm_compute.
  - intros e [= <-]. by repeat constructor.
Defined.

Lemma empty_arguments_dropped_witness :
  decode_request (encode_execute (packet_execute [[]; str "hi"])) =
  Ok (Request_Execute (packet_execute [str "hi"])).
Proof. apply (empty_arguments_dropped _ packet_execute_wf). by vm_compute. Defined.

Lemma decode_sound_witness : wf_request (Request_Shutdown (-7)).
Proof. apply (decode_sound (str "shutdown -7")). reflexivity. Defined.
