(* ===== verification/JailManifest.v ===== *)
(** The descriptor manifest and the attestation report of [crates/soma-jail/src/]
    ([manifest.rs], [report.rs]): what the launcher passes to a jailed worker, and
    what the worker reports of its jail. *)

From Stdlib Require Import String.
From stdpp Require Import strings.
From S2P Require Import Prelude Bytes.
From stdpp Require Import options.

(** * The descriptor manifest *)

Definition STANDARD_STREAMS : Z := 3.
Definition FIRST_MANIFEST_SLOT : Z := STANDARD_STREAMS.
Definition MAX_ROLES : Z := 60.

Inductive ArtifactKind : Type :=
| ArtifactKind_Kernel
| ArtifactKind_Initramfs
| ArtifactKind_MemorySnapshot
| ArtifactKind_DeviceState.

Inductive DescriptorRole : Type :=
| DescriptorRole_Kvm
| DescriptorRole_Tap
| DescriptorRole_RootDisk
| DescriptorRole_OverlayHead
| DescriptorRole_Artifact (kind : ArtifactKind)
| DescriptorRole_Control
| DescriptorRole_Log
| DescriptorRole_Event.

#[export] Instance ArtifactKind_eq_dec : EqDecision ArtifactKind.
Proof. solve_decision. Defined.
#[export] Instance DescriptorRole_eq_dec : EqDecision DescriptorRole.
Proof. solve_decision. Defined.

Inductive DescriptorKind : Type :=
| DescriptorKind_CharDevice
| DescriptorKind_RegularFile
| DescriptorKind_Socket
| DescriptorKind_Fifo
| DescriptorKind_AnonInode.

Definition expected_kinds (r : DescriptorRole) : list DescriptorKind :=
  match r with
  | DescriptorRole_Kvm | DescriptorRole_Tap => [DescriptorKind_CharDevice]
  | DescriptorRole_RootDisk | DescriptorRole_OverlayHead | DescriptorRole_Artifact _ =>
      [DescriptorKind_RegularFile]
  | DescriptorRole_Control => [DescriptorKind_Socket]
  | DescriptorRole_Log =>
      [DescriptorKind_Socket; DescriptorKind_RegularFile; DescriptorKind_Fifo;
       DescriptorKind_CharDevice]
  | DescriptorRole_Event => [DescriptorKind_AnonInode]
  end.

Definition role_token (r : DescriptorRole) : bytes :=
  str match r with
  | DescriptorRole_Kvm => "kvm"
  | DescriptorRole_Tap => "tap"
  | DescriptorRole_RootDisk => "root-disk"
  | DescriptorRole_OverlayHead => "overlay-head"
  | DescriptorRole_Artifact ArtifactKind_Kernel => "artifact.kernel"
  | DescriptorRole_Artifact ArtifactKind_Initramfs => "artifact.initramfs"
  | DescriptorRole_Artifact ArtifactKind_MemorySnapshot => "artifact.memory-snapshot"
  | DescriptorRole_Artifact ArtifactKind_DeviceState => "artifact.device-state"
  | DescriptorRole_Control => "control"
  | DescriptorRole_Log => "log"
  | DescriptorRole_Event => "event"
  end.

(** The [ALL] table of [from_token]. *)
Definition ALL_ROLES : list DescriptorRole :=
  [DescriptorRole_Kvm; DescriptorRole_Tap; DescriptorRole_RootDisk;
   DescriptorRole_OverlayHead; DescriptorRole_Artifact ArtifactKind_Kernel;
   DescriptorRole_Artifact ArtifactKind_Initramfs;
   DescriptorRole_Artifact ArtifactKind_MemorySnapshot;
   DescriptorRole_Artifact ArtifactKind_DeviceState;
   DescriptorRole_Control; DescriptorRole_Log; DescriptorRole_Event].

Definition role_from_token (token : bytes) : option DescriptorRole :=
  snd <$> list_find (fun role => role_token role = token) ALL_ROLES.

Inductive ManifestError : Type :=
| ManifestError_Empty
| ManifestError_TooLong (max : Z)
| ManifestError_MissingControl
| ManifestError_DuplicateSingleton (role : DescriptorRole)
| ManifestError_UnknownToken.

Record DescriptorManifest : Type := mkDescriptorManifest {
  roles : list DescriptorRole
}.

(** [roles.iter().filter(|role| **role == singleton).count()] *)
Definition role_count (role : DescriptorRole) (l : list DescriptorRole) : nat :=
  length (filter (fun r => r = role) l).

(** The loop over the singleton roles: the first one listed twice. *)
Definition duplicate_singleton (l : list DescriptorRole) : option DescriptorRole :=
  snd <$> list_find (fun singleton => (1 < role_count singleton l)%nat)
    [DescriptorRole_Control; DescriptorRole_Kvm; DescriptorRole_Tap].

Definition manifest_new (l : list DescriptorRole) : Result DescriptorManifest ManifestError :=
  match l with
  | [] => Err ManifestError_Empty
  | _ =>
      if Z.of_nat (length l) >? MAX_ROLES then Err (ManifestError_TooLong MAX_ROLES)
      else match duplicate_singleton l with
      | Some singleton => Err (ManifestError_DuplicateSingleton singleton)
      | None =>
          if bool_decide (DescriptorRole_Control ∈ l) then Ok (mkDescriptorManifest l)
          else Err ManifestError_MissingControl
      end
  end.

(** [FIRST_MANIFEST_SLOT + u32::try_from(index).unwrap_or(u32::MAX)]: the addition
    overflows for an index of [u32::MAX - 2] or more ([None]). *)
Definition slot_of (index : Z) : option Z :=
  let index := if index <=? U32_MAX then index else U32_MAX in
  if FIRST_MANIFEST_SLOT + index <=? U32_MAX then Some (FIRST_MANIFEST_SLOT + index) else None.

Definition executable_slot (m : DescriptorManifest) : option Z := slot_of (Z.of_nat (length (roles m))).

(** The outer option is the role's absence. *)
Definition slot_for (m : DescriptorManifest) (role : DescriptorRole) : option (option Z) :=
  (fun p => slot_of (Z.of_nat p.1)) <$> list_find (fun candidate => candidate = role) (roles m).

Definition manifest_encode (m : DescriptorManifest) : bytes :=
  join_on 44 (role_token <$> roles m).

(** [map(from_token).collect::<Result<Vec<_>, _>>()]: the first unknown token stops it. *)
Fixpoint roles_from_tokens (tokens : list bytes) : Result (list DescriptorRole) ManifestError :=
  match tokens with
  | [] => Ok []
  | token :: tokens =>
      let? role := ok_or ManifestError_UnknownToken (role_from_token token) in
      let? rest := roles_from_tokens tokens in
      Ok (role :: rest)
  end.

Definition manifest_decode (encoded : bytes) : Result DescriptorManifest ManifestError :=
  let? l := roles_from_tokens (split_char 44 encoded) in
  manifest_new l.

(** * The attestation report *)

Record RootView : Type := mkRootView {
  root_entries : Z;
  root_writable : bool;
  root_proc_visible : bool;
  root_sys_visible : bool
}.

Record ProbeReport : Type := mkProbeReport {
  report_pid : Z;
  report_uid : Z;
  report_euid : Z;
  report_gid : Z;
  report_egid : Z;
  report_table_sealed : bool;
  report_first_bad_slot : option Z;
  report_root : RootView
}.

#[export] Instance RootView_eq_dec : EqDecision RootView.
Proof. solve_decision. Defined.
#[export] Instance ProbeReport_eq_dec : EqDecision ProbeReport.
Proof. solve_decision. Defined.

Inductive ReportError : Type :=
| ReportError_MissingField (name : bytes)
| ReportError_UnknownField
| ReportError_InvalidValue
| ReportError_UnknownCommand.

#[export] Instance ReportError_eq_dec : EqDecision ReportError.
Proof. solve_decision. Defined.

Definition FIELDS : list bytes :=
  str <$> ["pid"; "uid"; "euid"; "gid"; "egid"; "table_sealed"; "first_bad_slot";
           "root_entries"; "root_writable"; "proc_visible"; "sys_visible"].

Definition display_bool (b : bool) : bytes := str (if b then "true" else "false").

(** The values of the [format!] call, in the order of [FIELDS]. *)
Definition report_values (r : ProbeReport) : list bytes :=
  [dec (report_pid r); dec (report_uid r); dec (report_euid r); dec (report_gid r);
   dec (report_egid r); display_bool (report_table_sealed r);
   match report_first_bad_slot r with None => str "none" | Some slot => dec slot end;
   dec (root_entries (report_root r)); display_bool (root_writable (report_root r));
   display_bool (root_proc_visible (report_root r));
   display_bool (root_sys_visible (report_root r))].

Definition EQUALS : Z := 61.

(** ["pid={}\nuid={}\n..."] *)
Definition report_encode (r : ProbeReport) : bytes :=
  unlines (zip_with (fun key value => key ++ EQUALS :: value) FIELDS (report_values r)).

(** The first loop of [decode]: every line assigns one of the eleven values. *)
Fixpoint report_assign (ls : list bytes) (values : list (option bytes))
    : Result (list (option bytes)) ReportError :=
  match ls with
  | [] => Ok values
  | line :: ls =>
      let? kv := ok_or ReportError_InvalidValue (split_once EQUALS line) in
      let? index := ok_or ReportError_UnknownField
                      (fst <$> list_find (fun name => name = kv.1) FIELDS) in
      report_assign ls (<[index := Some kv.2]> values)
  end.

(** The second loop: the first field left without a value. *)
Definition report_missing (values : list (option bytes)) : option bytes :=
  snd <$> list_find (fun p => p.1 = None) (zip values FIELDS) ≫= fun p => Some p.2.

Definition report_field (values : list (option bytes)) (index : nat)
    : Result bytes ReportError :=
  ok_or (ReportError_MissingField (default [] (FIELDS !! index)))
        (default None (values !! index)).

Definition I64_MIN : Z := - 2 ^ 63.
Definition I64_MAX : Z := 2 ^ 63 - 1.

Definition report_number (values : list (option bytes)) (index : nat) : Result Z ReportError :=
  let? text := report_field values index in
  ok_or ReportError_InvalidValue (parse_int I64_MIN I64_MAX text).

Definition report_flag (values : list (option bytes)) (index : nat) : Result bool ReportError :=
  let? text := report_field values index in
  if bool_decide (text = str "true") then Ok true
  else if bool_decide (text = str "false") then Ok false
  else Err ReportError_InvalidValue.

(** [try_from] between integer types: the value when it is in range. *)
Definition report_narrow (lo hi n : Z) : Result Z ReportError :=
  if (lo <=? n) && (n <=? hi) then Ok n else Err ReportError_InvalidValue.

Definition report_unsigned (values : list (option bytes)) (index : nat) : Result Z ReportError :=
  let? n := report_number values index in
  report_narrow 0 U32_MAX n.

Definition report_decode (text : bytes) : Result ProbeReport ReportError :=
  let? values := report_assign (lines text) (replicate (length FIELDS) None) in
  match report_missing values with
  | Some name => Err (ReportError_MissingField name)
  | None =>
      let? bad := report_field values 6 in
      let? first_bad_slot :=
        (if bool_decide (bad = str "none") then Ok None
         else map_ok Some (ok_or ReportError_InvalidValue (parse_int 0 U32_MAX bad))) in
      let? n := report_number values 0 in
      let? pid := report_narrow (- 2 ^ 31) (2 ^ 31 - 1) n in
      let? uid := report_unsigned values 1 in
      let? euid := report_unsigned values 2 in
      let? gid := report_unsigned values 3 in
      let? egid := report_unsigned values 4 in
      let? table_sealed := report_flag values 5 in
      let? entries := report_unsigned values 7 in
      let? writable := report_flag values 8 in
      let? proc_visible := report_flag values 9 in
      let? sys_visible := report_flag values 10 in
      Ok (mkProbeReport pid uid euid gid egid table_sealed first_bad_slot
            (mkRootView entries writable proc_visible sys_visible))
  end.

(** * Properties of the manifest *)

Lemma role_from_token_token r : role_from_token (role_token r) = Some r.
Proof. by destruct r as [ | | | | [] | | | ]. Qed.

Lemma role_token_graphic r : Forall is_graphic (role_token r) /\ 44 ∉ role_token r.
Proof.
  split.
  - apply forallb_graphic. by destruct r as [ | | | | [] | | | ].
  - apply (bool_decide_eq_true_1 (44 ∉ role_token r)). by destruct r as [ | | | | [] | | | ].
Qed.

Lemma roles_from_tokens_tokens l : roles_from_tokens (role_token <$> l) = Ok l.
Proof.
  induction l as [ | r l IH]; [done | ]. cbn [fmap list_fmap roles_from_tokens].
  by rewrite role_from_token_token; cbn [ok_or]; rewrite IH.
Qed.

(** What [new] checks. *)
Definition wf_roles (l : list DescriptorRole) : Prop :=
  (length l <= 60)%nat /\ role_count DescriptorRole_Control l = 1%nat /\
  (role_count DescriptorRole_Kvm l <= 1)%nat /\ (role_count DescriptorRole_Tap l <= 1)%nat.

Lemma role_count_elem r l : r ∈ l <-> (1 <= role_count r l)%nat.
Proof.
  unfold role_count. split.
  - intros Hr. destruct (filter (fun r0 => r0 = r) l) eqn:E; simpl; [ | lia].
    assert (Hin : r ∈ filter (fun r0 => r0 = r) l) by (by apply list_elem_of_filter).
    rewrite E in Hin. by apply elem_of_nil in Hin.
  - destruct (filter (fun r0 => r0 = r) l) as [ | x k] eqn:E; simpl; [lia | ]. intros _.
    assert (Hin : x ∈ filter (fun r0 => r0 = r) l) by (rewrite E; by constructor).
    apply list_elem_of_filter in Hin as [-> ?]. done.
Qed.

Lemma duplicate_singleton_None l :
  duplicate_singleton l = None <->
  (role_count DescriptorRole_Control l <= 1)%nat /\ (role_count DescriptorRole_Kvm l <= 1)%nat /\
  (role_count DescriptorRole_Tap l <= 1)%nat.
Proof.
  unfold duplicate_singleton. rewrite fmap_None, list_find_None, !Forall_cons, Forall_nil. lia.
Qed.

Lemma manifest_new_ok l m : manifest_new l = Ok m <-> m = mkDescriptorManifest l /\ wf_roles l.
Proof.
  unfold manifest_new, wf_roles, MAX_ROLES. destruct l as [ | r l]; simpl length.
  { split; [done | ]. intros (_ & _ & [=] & _). }
  set (k := r :: l). destruct (Z.gtb_spec (Z.of_nat (S (length l))) 60).
  { split; [done | ]. intros (_ & ? & _). lia. }
  destruct (duplicate_singleton k) eqn:Hd.
  - split; [done | ]. intros (_ & _ & Hc & Hk & Ht).
    assert (duplicate_singleton k = None) by (apply duplicate_singleton_None; lia). congruence.
  - apply duplicate_singleton_None in Hd as (Hc & Hk & Ht).
    case_bool_decide as Hin; rewrite role_count_elem in Hin; (split; [intros [=]; subst | intros [-> ?]]).
    + split; [done | ]. lia.
    + done.
    + lia.
Qed.

(** The encoding passed to the worker is read back: [decode] of an encoded
    manifest is that manifest, for every role list [new] admits. *)
Theorem manifest_roundtrip l m :
  manifest_new l = Ok m -> manifest_decode (manifest_encode m) = Ok m.
Proof.
  intros Hm. apply manifest_new_ok in Hm as Hwf. destruct Hwf as [-> (_ & Hc & _)].
  unfold manifest_decode, manifest_encode. simpl roles.
  rewrite split_char_join.
  - by rewrite roles_from_tokens_tokens.
  - destruct l; [done | by intros [=]].
  - apply Forall_fmap, Forall_true. intros r. apply role_token_graphic.
Qed.

Lemma slot_of_small index : 0 <= index <= 60 -> slot_of index = Some (3 + index).
Proof.
  intros Hi. unfold slot_of, FIRST_MANIFEST_SLOT, STANDARD_STREAMS, U32_MAX.
  destruct (Z.leb_spec index (2 ^ 32 - 1)); [ | lia].
  by destruct (Z.leb_spec (3 + index) (2 ^ 32 - 1)); [ | lia].
Qed.

Lemma slot_for_position m role i :
  wf_roles (roles m) -> fst <$> list_find (fun c => c = role) (roles m) = Some i ->
  slot_for m role = Some (Some (3 + Z.of_nat i)) /\ (i < length (roles m))%nat.
Proof.
  intros (Hl & _) Hf. unfold slot_for. destruct (list_find _ _) as [[j r] | ] eqn:E; [ | done].
  simplify_eq/=. apply list_find_Some in E as (E & _). apply lookup_lt_Some in E.
  by rewrite slot_of_small by lia.
Qed.

(** A role counted once is at one position. *)
Lemma role_count_unique role l i j :
  role_count role l = 1%nat -> l !! i = Some role -> l !! j = Some role -> i = j.
Proof.
  enough (forall i j, role_count role l = 1%nat -> l !! i = Some role -> l !! j = Some role ->
    ~ (i < j)%nat) as Hlt.
  { intros Hc Hi Hj. pose proof (Hlt i j Hc Hi Hj). pose proof (Hlt j i Hc Hj Hi). lia. }
  clear i j. intros i j Hc Hi Hj Hij. unfold role_count in Hc.
  rewrite <- (take_drop (S i) l), filter_app, length_app in Hc.
  assert (1 <= role_count role (take (S i) l))%nat as H1.
  { apply role_count_elem, list_elem_of_lookup. exists i. rewrite lookup_take_lt by lia. done. }
  assert (1 <= role_count role (drop (S i) l))%nat as H2.
  { apply role_count_elem, list_elem_of_lookup. exists (j - S i)%nat. rewrite lookup_drop.
    by replace (S i + (j - S i))%nat with j by lia. }
  unfold role_count in H1, H2. lia.
Qed.

Lemma decoded_control_slot encoded m :
  manifest_decode encoded = Ok m ->
  exists i, roles m !! i = Some DescriptorRole_Control /\
    (forall j, roles m !! j = Some DescriptorRole_Control -> j = i) /\
    slot_for m DescriptorRole_Control = Some (Some (3 + Z.of_nat i)) /\
    executable_slot m = Some (3 + Z.of_nat (length (roles m))) /\
    3 <= 3 + Z.of_nat i < 3 + Z.of_nat (length (roles m)) /\ 3 + Z.of_nat (length (roles m)) <= 63.
Proof.
  unfold manifest_decode. destruct (roles_from_tokens _) as [l | ]; [ | done].
  intros [-> Hwf]%manifest_new_ok. pose proof Hwf as (Hl & Hc & _). simpl roles.
  assert (Hin : DescriptorRole_Control ∈ l) by (apply role_count_elem; lia).
  destruct (list_find (fun c => c = DescriptorRole_Control) l) as [[i r] | ] eqn:E.
  - apply list_find_Some in E as E'. destruct E' as (Hi & -> & Hfirst). exists i.
    destruct (slot_for_position (mkDescriptorManifest l) DescriptorRole_Control i Hwf) as [Hs Hlt];
      [simpl; by rewrite E | ].
    split_and!; try done; simpl in Hlt; [ | | lia..].
    + intros j Hj. by eapply role_count_unique.
    + unfold executable_slot. simpl. by rewrite slot_of_small by lia.
  - exfalso. apply list_find_None in E. rewrite Forall_forall in E. by apply (E _ Hin).
Qed.

(** A manifest that decodes names exactly one control descriptor, at a slot that
    follows the standard streams, precedes the executable's slot, fits a C [int], and
    is the position of that role; no slot computation overflows. *)
Theorem manifest_control_slot encoded m :
  manifest_decode encoded = Ok m ->
  exists i, roles m !! i = Some DescriptorRole_Control /\
    (forall j, roles m !! j = Some DescriptorRole_Control -> j = i) /\
    slot_for m DescriptorRole_Control = Some (Some (3 + Z.of_nat i)) /\
    executable_slot m = Some (3 + Z.of_nat (length (roles m))) /\
    3 <= 3 + Z.of_nat i < 3 + Z.of_nat (length (roles m)) /\ 3 + Z.of_nat (length (roles m)) <= 63.
Proof. apply decoded_control_slot. Qed.

Lemma manifest_roundtrip_witness :
  manifest_encode (mkDescriptorManifest
    [DescriptorRole_Kvm; DescriptorRole_Control; DescriptorRole_Event]) = str "kvm,control,event" /\
  manifest_decode (manifest_encode (mkDescriptorManifest
    [DescriptorRole_Kvm; DescriptorRole_Control; DescriptorRole_Event])) =
  Ok (mkDescriptorManifest [DescriptorRole_Kvm; DescriptorRole_Control; DescriptorRole_Event]).
Proof.
  split; [reflexivity | ].
  apply (manifest_roundtrip [DescriptorRole_Kvm; DescriptorRole_Control; DescriptorRole_Event]).
  reflexivity.
Defined.

Lemma manifest_control_slot_witness :
  exists i, roles (mkDescriptorManifest [DescriptorRole_Log; DescriptorRole_Control]) !! i =
              Some DescriptorRole_Control.
Proof.
  destruct (manifest_control_slot (str "log,control")
    (mkDescriptorManifest [DescriptorRole_Log; DescriptorRole_Control]) eq_refl) as (i & Hi & _).
  by exists i.
Defined.

(** * Properties of the report *)

Definition wf_report (r : ProbeReport) : Prop :=
  - 2 ^ 31 <= report_pid r <= 2 ^ 31 - 1 /\ 0 <= report_uid r <= U32_MAX /\
  0 <= report_euid r <= U32_MAX /\ 0 <= report_gid r <= U32_MAX /\
  0 <= report_egid r <= U32_MAX /\
  (forall slot, report_first_bad_slot r = Some slot -> 0 <= slot <= U32_MAX) /\
  0 <= root_entries (report_root r) <= U32_MAX.

Lemma report_values_graphic r : wf_report r -> Forall (Forall is_graphic) (report_values r).
Proof.
  unfold wf_report, report_values, U32_MAX.
  intros (H1 & H2 & H3 & H4 & H5 & H6 & H7).
  assert (Hd : forall n, - 10 ^ 20 < n < 10 ^ 20 -> Forall is_graphic (dec n))
    by (intros n Hn; by apply dec_token).
  assert (Hb : forall b, Forall is_graphic (display_bool b)).
  { intros []; repeat constructor; by unfold is_graphic. }
  repeat apply Forall_cons_2; try apply Forall_nil_2; try apply Hb; try (apply Hd; lia).
  destruct (report_first_bad_slot r) as [s | ]; [ | repeat constructor; by unfold is_graphic].
  apply Hd. specialize (H6 s eq_refl). lia.
Qed.

(** One assignment per field, in order. *)
Lemma report_assign_fields ls values :
  length ls = length FIELDS -> length values = length FIELDS ->
  Forall (Forall is_graphic) ls ->
  report_assign (zip_with (fun key value => key ++ EQUALS :: value) FIELDS ls) values =
  Ok (Some <$> ls).
Proof.
  intros Hl Hv _.
  do 11 (destruct ls as [ | ? ls]; [done | ]). destruct ls; [ | done].
  do 11 (destruct values as [ | ? values]; [done | ]). destruct values; [ | done].
  unfold FIELDS. cbn [fmap list_fmap zip_with report_assign].
  rewrite !split_once_app by (by apply (bool_decide_eq_true_1 (EQUALS ∉ _))).
  reflexivity.
Qed.

Lemma report_number_dec (vals : list bytes) i n :
  - 10 ^ 18 < n < 10 ^ 18 -> vals !! i = Some (dec n) ->
  report_number (Some <$> vals) i = Ok n.
Proof.
  intros Hn Hi. unfold report_number, report_field. rewrite list_lookup_fmap, Hi. simpl.
  rewrite parse_int_dec; [done | | |]; unfold I64_MIN, I64_MAX; lia.
Qed.

Lemma report_unsigned_dec (vals : list bytes) i n :
  0 <= n <= U32_MAX -> vals !! i = Some (dec n) -> report_unsigned (Some <$> vals) i = Ok n.
Proof.
  unfold U32_MAX. intros Hn Hi. unfold report_unsigned. rewrite (report_number_dec vals i n) by (done || lia).
  unfold report_narrow, U32_MAX. destruct (Z.leb_spec 0 n); [ | lia].
  by destruct (Z.leb_spec n (2 ^ 32 - 1)); [ | lia].
Qed.

Lemma report_flag_display (vals : list bytes) i b :
  vals !! i = Some (display_bool b) -> report_flag (Some <$> vals) i = Ok b.
Proof.
  intros Hi. unfold report_flag, report_field. rewrite list_lookup_fmap, Hi. by destruct b.
Qed.

Lemma dec_not_none n : - 10 ^ 20 < n < 10 ^ 20 -> dec n <> str "none".
Proof.
  intros Hn Heq. pose proof (parse_int_dec (- 10 ^ 20) (10 ^ 20) n) as Hp.
  rewrite Heq in Hp. assert (parse_int (- 10 ^ 20) (10 ^ 20) (str "none") = None) as Hnone by reflexivity.
  rewrite Hp in Hnone; [done | lia..].
Qed.

Lemma report_decode_assigned r text values :
  wf_report r -> report_assign (lines text) (replicate (length FIELDS) None) = Ok values ->
  values = Some <$> report_values r -> report_decode text = Ok r.
Proof.
  destruct r as [pid uid euid gid egid sealed bad [entries w p s]].
  intros Hwf Ha ->. unfold wf_report in Hwf. simpl in Hwf.
  destruct Hwf as (H1 & H2 & H3 & H4 & H5 & H6 & H7). unfold report_decode. rewrite Ha. set (vals := report_values _).
  replace (report_missing (Some <$> vals)) with (@None bytes) by reflexivity.
  replace (report_field (Some <$> vals) 6) with
    (@Ok bytes ReportError match bad with None => str "none" | Some s => dec s end) by reflexivity.
  rewrite (report_number_dec vals 0 pid) by (done || lia).
  unfold report_narrow at 1. destruct (Z.leb_spec (- 2 ^ 31) pid); [ | lia].
  destruct (Z.leb_spec pid (2 ^ 31 - 1)); [ | lia]. cbn [andb].
  rewrite (report_unsigned_dec vals 1 uid), (report_unsigned_dec vals 2 euid),
    (report_unsigned_dec vals 3 gid), (report_unsigned_dec vals 4 egid),
    (report_unsigned_dec vals 7 entries) by done.
  rewrite (report_flag_display vals 5 sealed), (report_flag_display vals 8 w),
    (report_flag_display vals 9 p), (report_flag_display vals 10 s) by done.
  destruct bad as [b | ]; [ | done]. specialize (H6 b eq_refl). unfold U32_MAX in *.
  rewrite bool_decide_false by (apply dec_not_none; lia).
  rewrite parse_int_dec by lia. done.
Qed.

Lemma key_lines_graphic ks vs :
  Forall (Forall is_graphic) ks -> Forall (Forall is_graphic) vs ->
  Forall (Forall is_graphic) (zip_with (fun key value => key ++ EQUALS :: value) ks vs).
Proof.
  intros Hks. revert vs. induction Hks as [ | k ks Hk Hks IH]; intros [ | v vs] Hvs; simpl;
    try constructor.
  - apply Forall_cons in Hvs as [Hv _]. apply Forall_app. split; [done | ]. by constructor.
  - apply Forall_cons in Hvs as [_ Hvs]. by apply IH.
Qed.

Lemma fields_graphic : Forall (Forall is_graphic) FIELDS.
Proof.
  apply Forall_forall. intros k Hk. apply forallb_graphic.
  revert k Hk. apply Forall_forall. by repeat constructor.
Qed.

(** An attestation reaches the supervisor as the worker made it: every report of
    in-range numbers decodes from its encoding. *)
Theorem report_roundtrip r : wf_report r -> report_decode (report_encode r) = Ok r.
Proof.
  intros Hr. pose proof (report_values_graphic r Hr) as Hg.
  eapply report_decode_assigned; [done | | reflexivity].
  unfold report_encode. rewrite lines_unlines.
  - by apply report_assign_fields.
  - by apply key_lines_graphic; [apply fields_graphic | ].
Qed.

Lemma report_roundtrip_witness :
  report_decode (report_encode (mkProbeReport 1 60001 60001 60001 60001 false (Some 7)
    (mkRootView 0 false false false))) =
  Ok (mkProbeReport 1 60001 60001 60001 60001 false (Some 7) (mkRootView 0 false false false)).
Proof.
  apply report_roundtrip. unfold wf_report; simpl. split_and!; try done.
  by intros slot [= <-].
Defined.

(** * Repeated fields *)

Lemma report_assign_app ls1 ls2 values :
  report_assign (ls1 ++ ls2) values =
  (let? values' := report_assign ls1 values in report_assign ls2 values').
Proof.
  revert values; induction ls1 as [ | l ls1 IH]; intros values; simpl; [done | ].
  destruct (ok_or _ (split_once _ _)); [ | done]. by destruct (ok_or _ (fst <$> _)).
Qed.

Lemma unlines_app ls1 ls2 : unlines (ls1 ++ ls2) = unlines ls1 ++ unlines ls2.
Proof. unfold unlines. by rewrite fmap_app, concat_app. Qed.

(** The report with another process id. *)
Definition with_pid (pid : Z) (r : ProbeReport) : ProbeReport :=
  mkProbeReport pid (report_uid r) (report_euid r) (report_gid r) (report_egid r)
    (report_table_sealed r) (report_first_bad_slot r) (report_root r).

(** Decoding does not insist on every field once: a field given a second time is
    accepted and replaces the first value. *)
Theorem report_repeated_field r pid :
  wf_report r -> wf_report (with_pid pid r) ->
  report_decode (report_encode r ++ unlines [str "pid" ++ EQUALS :: dec pid]) =
  Ok (with_pid pid r).
Proof.
  intros Hr Hr'. pose proof (report_values_graphic r Hr) as Hg.
  assert (Hd : Forall is_graphic (str "pid" ++ EQUALS :: dec pid)).
  { destruct Hr' as (Hp & _). simpl in Hp. repeat constructor; try by unfold is_graphic.
    apply dec_token. lia. }
  eapply report_decode_assigned; [done | | ].
  - unfold report_encode. rewrite <- unlines_app, lines_unlines.
    + rewrite report_assign_app, report_assign_fields by done. reflexivity.
    + apply Forall_app. split; [ | by apply Forall_singleton].
      by apply key_lines_graphic; [apply fields_graphic | ].
  - destruct r. reflexivity.
Qed.

Lemma report_repeated_field_witness :
  report_decode (report_encode (mkProbeReport 9 1 1 1 1 true None (mkRootView 0 false false false))
    ++ unlines [str "pid" ++ EQUALS :: dec 1]) =
  Ok (mkProbeReport 1 1 1 1 1 true None (mkRootView 0 false false false)).
Proof. apply report_repeated_field; unfold wf_report; simpl; by split_and!. Defined.
