(* ===== verification/Seccomp.v ===== *)
(** The syscall filters of a jailed worker ([soma-jail] seccomp/): the policy tables, the
    assembler that turns them into a classic BPF program, and the interpreter of such
    programs. *)

From S2P Require Import Prelude Bytes.
From Stdlib Require Import String.
From stdpp Require Import strings sorting.
From stdpp Require Import options.
Local Open Scope string_scope.
Local Open Scope list_scope.
Local Open Scope Z_scope.

(** * Instructions *)

Definition LOAD_WORD : Z := 0x0020.
Definition JUMP_EQ : Z := 0x0015.
Definition JUMP_SET : Z := 0x0045.
Definition RETURN : Z := 0x0006.

Definition RET_KILL_PROCESS : Z := 0x80000000.
Definition RET_ERRNO : Z := 0x00050000.
Definition RET_ALLOW : Z := 0x7fff0000.

Definition AUDIT_ARCH_X86_64 : Z := 0xC000003E.

Definition DATA_NR : Z := 0.
Definition DATA_ARCH : Z := 4.
Definition DATA_ARGS : Z := 16.

Definition arg_low (index : Z) : Z := DATA_ARGS + index * 8.
Definition arg_high (index : Z) : Z := arg_low index + 4.

Record Instruction : Type := mkInstruction {
  code : Z;
  jt : Z;
  jf : Z;
  k : Z
}.

#[export] Instance Instruction_eq_dec : EqDecision Instruction.
Proof. solve_decision. Defined.

Definition ins_load (offset : Z) : Instruction := mkInstruction LOAD_WORD 0 0 offset.
Definition ins_jump_eq (k jt jf : Z) : Instruction := mkInstruction JUMP_EQ jt jf k.
Definition ins_jump_set (k jt jf : Z) : Instruction := mkInstruction JUMP_SET jt jf k.
Definition ins_ret (k : Z) : Instruction := mkInstruction RETURN 0 0 k.

Definition instruction_bytes (i : Instruction) : bytes := le_bytes 2 (code i) ++ [jt i; jf i] ++ le_bytes 4 (k i).

Notation FilterProgram := (list Instruction).

Definition program_bytes (p : FilterProgram) : bytes := concat (instruction_bytes <$> p).

Definition program_fingerprint (p : FilterProgram) : Z :=
  foldl (fun hash byte => (Z.lxor hash byte * 0x00000100000001b3) mod 2 ^ 64) 0xcbf29ce484222325 (program_bytes p).

(** * Policy *)

Inductive Phase : Type := Startup | SteadyState.

#[export] Instance Phase_eq_dec : EqDecision Phase.
Proof. solve_decision. Defined.

Inductive ArgCheck : Type :=
| ArgCheck_Any
| ArgCheck_Errno (code : Z)
| ArgCheck_ArgEqualsAny (index : Z) (values : list Z)
| ArgCheck_Flags (index forbidden required : Z)
| ArgCheck_IoctlAllowlist.

Inductive Source : Type := Source_ProbeTrace | Source_SomaKvm | Source_RustRuntime | Source_Launcher.

Inductive Need : Type :=
| Need_DiskBackend | Need_VirtioDevices | Need_DescriptorTransfer | Need_EventLoop | Need_SnapshotRestore
| Need_GlibcRuntime | Need_Allocator.

Inductive Provenance : Type := Measured (s : Source) | Reserved (n : Need).

Record SyscallRule : Type := mkSyscallRule {
  rule_name : string;
  rule_nr : Z;
  rule_provenance : Provenance;
  rule_startup : ArgCheck;
  rule_steady : option ArgCheck
}.

Definition both (name : string) (nr : Z) (p : Provenance) (check : ArgCheck) : SyscallRule :=
  mkSyscallRule name nr p check (Some check).
Definition startup_only (name : string) (nr : Z) (p : Provenance) (check : ArgCheck) : SyscallRule :=
  mkSyscallRule name nr p check None.
Definition tightened (name : string) (nr : Z) (p : Provenance) (startup steady : ArgCheck) : SyscallRule :=
  mkSyscallRule name nr p startup (Some steady).

Definition PROBE : Provenance := Measured Source_ProbeTrace.
Definition KVM : Provenance := Measured Source_SomaKvm.
Definition RUST : Provenance := Measured Source_RustRuntime.
Definition LAUNCHER : Provenance := Measured Source_Launcher.
Definition DISK : Provenance := Reserved Need_DiskBackend.
Definition VIRTIO : Provenance := Reserved Need_VirtioDevices.
Definition TRANSFER : Provenance := Reserved Need_DescriptorTransfer.
Definition LOOP : Provenance := Reserved Need_EventLoop.
Definition SNAPSHOT : Provenance := Reserved Need_SnapshotRestore.
Definition GLIBC : Provenance := Reserved Need_GlibcRuntime.
Definition ALLOC : Provenance := Reserved Need_Allocator.

Definition CLONE_THREAD : Z := 0x00010000.
Definition CLONE_NAMESPACE_MASK : Z :=
  Z.lor 0x00020000 (Z.lor 0x02000000 (Z.lor 0x04000000 (Z.lor 0x08000000 (Z.lor 0x10000000 (Z.lor 0x20000000 0x40000000))))).
Definition PROT_EXEC : Z := 0x4.
Definition ENOSYS : Z := 38.

Definition PRCTL_STARTUP : list Z := [15; 16; 38].
Definition PRCTL_STEADY : list Z := [15; 16].
Definition FCNTL_STARTUP : list Z := [1; 2; 3; 4; 1030].

Definition THREAD_CLONE : ArgCheck := ArgCheck_Flags 0 CLONE_NAMESPACE_MASK CLONE_THREAD.
Definition NO_EXEC_MAPPING : ArgCheck := ArgCheck_Flags 2 PROT_EXEC 0.

Definition RULES : list SyscallRule := [
  both "read" 0 KVM ArgCheck_Any;
  both "write" 1 KVM ArgCheck_Any;
  startup_only "open" 2 PROBE ArgCheck_Any;
  both "close" 3 PROBE ArgCheck_Any;
  startup_only "stat" 4 PROBE ArgCheck_Any;
  both "fstat" 5 PROBE ArgCheck_Any;
  startup_only "poll" 7 PROBE ArgCheck_Any;
  both "lseek" 8 DISK ArgCheck_Any;
  tightened "mmap" 9 PROBE ArgCheck_Any NO_EXEC_MAPPING;
  tightened "mprotect" 10 PROBE ArgCheck_Any NO_EXEC_MAPPING;
  both "munmap" 11 PROBE ArgCheck_Any;
  both "brk" 12 PROBE ArgCheck_Any;
  startup_only "rt_sigaction" 13 PROBE ArgCheck_Any;
  both "rt_sigprocmask" 14 PROBE ArgCheck_Any;
  both "rt_sigreturn" 15 KVM ArgCheck_Any;
  tightened "ioctl" 16 KVM ArgCheck_IoctlAllowlist ArgCheck_IoctlAllowlist;
  both "pread64" 17 DISK ArgCheck_Any;
  both "pwrite64" 18 DISK ArgCheck_Any;
  both "readv" 19 VIRTIO ArgCheck_Any;
  both "writev" 20 VIRTIO ArgCheck_Any;
  both "sched_yield" 24 LOOP ArgCheck_Any;
  both "mremap" 25 ALLOC ArgCheck_Any;
  both "madvise" 28 ALLOC ArgCheck_Any;
  both "nanosleep" 35 LOOP ArgCheck_Any;
  both "getpid" 39 KVM ArgCheck_Any;
  both "sendto" 44 PROBE ArgCheck_Any;
  both "recvfrom" 45 PROBE ArgCheck_Any;
  both "sendmsg" 46 TRANSFER ArgCheck_Any;
  both "recvmsg" 47 TRANSFER ArgCheck_Any;
  both "clone" 56 PROBE THREAD_CLONE;
  both "exit" 60 KVM ArgCheck_Any;
  startup_only "fcntl" 72 PROBE (ArgCheck_ArgEqualsAny 1 FCNTL_STARTUP);
  both "fsync" 74 DISK ArgCheck_Any;
  both "fdatasync" 75 DISK ArgCheck_Any;
  startup_only "getrlimit" 97 GLIBC ArgCheck_Any;
  startup_only "getuid" 102 PROBE ArgCheck_Any;
  startup_only "getgid" 104 PROBE ArgCheck_Any;
  startup_only "geteuid" 107 PROBE ArgCheck_Any;
  startup_only "getegid" 108 PROBE ArgCheck_Any;
  both "sigaltstack" 131 PROBE ArgCheck_Any;
  tightened "prctl" 157 PROBE (ArgCheck_ArgEqualsAny 0 PRCTL_STARTUP) (ArgCheck_ArgEqualsAny 0 PRCTL_STEADY);
  startup_only "arch_prctl" 158 PROBE ArgCheck_Any;
  both "gettid" 186 PROBE ArgCheck_Any;
  both "tkill" 200 KVM ArgCheck_Any;
  both "futex" 202 PROBE ArgCheck_Any;
  startup_only "getdents64" 217 PROBE ArgCheck_Any;
  startup_only "set_tid_address" 218 PROBE ArgCheck_Any;
  both "restart_syscall" 219 LOOP ArgCheck_Any;
  both "clock_gettime" 228 LOOP ArgCheck_Any;
  both "clock_nanosleep" 230 LOOP ArgCheck_Any;
  both "exit_group" 231 PROBE ArgCheck_Any;
  both "epoll_wait" 232 LOOP ArgCheck_Any;
  both "epoll_ctl" 233 LOOP ArgCheck_Any;
  both "tgkill" 234 KVM ArgCheck_Any;
  startup_only "openat" 257 GLIBC ArgCheck_Any;
  startup_only "newfstatat" 262 GLIBC ArgCheck_Any;
  both "ppoll" 271 LOOP ArgCheck_Any;
  both "set_robust_list" 273 GLIBC ArgCheck_Any;
  both "epoll_pwait" 281 LOOP ArgCheck_Any;
  startup_only "timerfd_create" 283 LOOP ArgCheck_Any;
  both "fallocate" 285 DISK ArgCheck_Any;
  both "timerfd_settime" 286 LOOP ArgCheck_Any;
  both "timerfd_gettime" 287 LOOP ArgCheck_Any;
  startup_only "eventfd2" 290 KVM ArgCheck_Any;
  startup_only "epoll_create1" 291 LOOP ArgCheck_Any;
  both "preadv" 295 DISK ArgCheck_Any;
  both "pwritev" 296 DISK ArgCheck_Any;
  startup_only "prlimit64" 302 PROBE ArgCheck_Any;
  startup_only "seccomp" 317 PROBE ArgCheck_Any;
  both "getrandom" 318 RUST ArgCheck_Any;
  startup_only "execveat" 322 LAUNCHER ArgCheck_Any;
  startup_only "statx" 332 GLIBC ArgCheck_Any;
  both "rseq" 334 GLIBC ArgCheck_Any;
  both "clone3" 435 GLIBC (ArgCheck_Errno ENOSYS);
  both "epoll_pwait2" 441 LOOP ArgCheck_Any
].

Definition STARTUP_ONLY : list string := [
  "open"; "stat"; "poll"; "rt_sigaction"; "fcntl"; "getrlimit";
  "getuid"; "getgid"; "geteuid"; "getegid"; "arch_prctl"; "getdents64";
  "set_tid_address"; "openat"; "newfstatat"; "timerfd_create"; "eventfd2"; "epoll_create1";
  "prlimit64"; "seccomp"; "execveat"; "statx"
].

(** * Requests of [ioctl] *)

Definition KVMIO : Z := 0xAE.
Definition WRITE : Z := Z.shiftl 1 30.
Definition READ : Z := Z.shiftl 2 30.

Definition io (nr : Z) : Z := Z.lor (Z.shiftl KVMIO 8) nr.
Definition iow (nr size : Z) : Z := Z.lor WRITE (Z.lor (Z.shiftl size 16) (io nr)).
Definition ior (nr size : Z) : Z := Z.lor READ (Z.lor (Z.shiftl size 16) (io nr)).
Definition iowr (nr size : Z) : Z := Z.lor (Z.lor READ WRITE) (Z.lor (Z.shiftl size 16) (io nr)).

Inductive IoctlPhases : Type := StartupOnly | Both.

#[export] Instance IoctlPhases_eq_dec : EqDecision IoctlPhases.
Proof. solve_decision. Defined.

Record IoctlRule : Type := mkIoctlRule {
  ioctl_name : string;
  ioctl_request : Z;
  ioctl_phases : IoctlPhases;
  ioctl_provenance : Provenance
}.

Definition ioctl_rule (name : string) (request : Z) (phases : IoctlPhases) (p : Provenance) : IoctlRule :=
  mkIoctlRule name request phases p.

Definition IOCTL_RULES : list IoctlRule := [
  ioctl_rule "KVM_GET_API_VERSION" (io 0x00) StartupOnly KVM;
  ioctl_rule "KVM_CREATE_VM" (io 0x01) StartupOnly KVM;
  ioctl_rule "KVM_CHECK_EXTENSION" (io 0x03) StartupOnly KVM;
  ioctl_rule "KVM_GET_VCPU_MMAP_SIZE" (io 0x04) StartupOnly KVM;
  ioctl_rule "KVM_GET_SUPPORTED_CPUID" (iowr 0x05 8) StartupOnly KVM;
  ioctl_rule "KVM_CREATE_VCPU" (io 0x41) StartupOnly KVM;
  ioctl_rule "KVM_SET_USER_MEMORY_REGION" (iow 0x46 32) Both KVM;
  ioctl_rule "KVM_SET_TSS_ADDR" (io 0x47) StartupOnly KVM;
  ioctl_rule "KVM_CREATE_IRQCHIP" (io 0x60) StartupOnly KVM;
  ioctl_rule "KVM_GET_IRQCHIP" (iowr 0x62 520) StartupOnly SNAPSHOT;
  ioctl_rule "KVM_SET_IRQCHIP" (ior 0x63 520) StartupOnly SNAPSHOT;
  ioctl_rule "KVM_SET_GSI_ROUTING" (iow 0x6a 8) StartupOnly SNAPSHOT;
  ioctl_rule "KVM_IRQFD" (iow 0x76 32) Both KVM;
  ioctl_rule "KVM_CREATE_PIT2" (iow 0x77 64) StartupOnly KVM;
  ioctl_rule "KVM_IOEVENTFD" (iow 0x79 64) Both VIRTIO;
  ioctl_rule "KVM_GET_CLOCK" (ior 0x7c 48) StartupOnly SNAPSHOT;
  ioctl_rule "KVM_SET_CLOCK" (iow 0x7d 48) StartupOnly SNAPSHOT;
  ioctl_rule "KVM_RUN" (io 0x80) Both KVM;
  ioctl_rule "KVM_GET_REGS" (ior 0x81 144) StartupOnly SNAPSHOT;
  ioctl_rule "KVM_SET_REGS" (iow 0x82 144) StartupOnly KVM;
  ioctl_rule "KVM_GET_SREGS" (ior 0x83 312) StartupOnly KVM;
  ioctl_rule "KVM_SET_SREGS" (iow 0x84 312) StartupOnly KVM;
  ioctl_rule "KVM_GET_MSRS" (iowr 0x88 8) StartupOnly SNAPSHOT;
  ioctl_rule "KVM_SET_MSRS" (iow 0x89 8) StartupOnly SNAPSHOT;
  ioctl_rule "KVM_SET_SIGNAL_MASK" (iow 0x8b 4) StartupOnly KVM;
  ioctl_rule "KVM_GET_FPU" (ior 0x8c 416) StartupOnly SNAPSHOT;
  ioctl_rule "KVM_SET_FPU" (iow 0x8d 416) StartupOnly SNAPSHOT;
  ioctl_rule "KVM_GET_LAPIC" (ior 0x8e 1024) StartupOnly SNAPSHOT;
  ioctl_rule "KVM_SET_LAPIC" (iow 0x8f 1024) StartupOnly SNAPSHOT;
  ioctl_rule "KVM_SET_CPUID2" (iow 0x90 8) StartupOnly KVM;
  ioctl_rule "KVM_GET_MP_STATE" (ior 0x98 4) StartupOnly SNAPSHOT;
  ioctl_rule "KVM_SET_MP_STATE" (iow 0x99 4) StartupOnly SNAPSHOT;
  ioctl_rule "KVM_GET_VCPU_EVENTS" (ior 0x9f 64) StartupOnly SNAPSHOT;
  ioctl_rule "KVM_SET_VCPU_EVENTS" (iow 0xa0 64) StartupOnly SNAPSHOT;
  ioctl_rule "KVM_GET_PIT2" (ior 0x9f 112) StartupOnly SNAPSHOT;
  ioctl_rule "KVM_SET_PIT2" (iow 0xa0 112) StartupOnly SNAPSHOT;
  ioctl_rule "KVM_GET_XSAVE" (ior 0xa4 4096) StartupOnly SNAPSHOT;
  ioctl_rule "KVM_SET_XSAVE" (iow 0xa5 4096) StartupOnly SNAPSHOT;
  ioctl_rule "KVM_GET_XCRS" (ior 0xa6 392) StartupOnly SNAPSHOT;
  ioctl_rule "KVM_SET_XCRS" (iow 0xa7 392) StartupOnly SNAPSHOT;
  ioctl_rule "KVM_GET_NESTED_STATE" (iowr 0xbe 128) StartupOnly SNAPSHOT;
  ioctl_rule "KVM_SET_NESTED_STATE" (iow 0xbf 128) StartupOnly SNAPSHOT;
  ioctl_rule "FIONBIO" 0x5421 Both RUST
].

Definition TUNSETIFF : Z := 0x400454CA.

Definition STEADY_REQUESTS : list string :=
  ["KVM_SET_USER_MEMORY_REGION"; "KVM_IRQFD"; "KVM_IOEVENTFD"; "KVM_RUN"; "FIONBIO"].

Definition requests_for (phase : Phase) : list Z :=
  ioctl_request <$> filter (fun r => phase = Startup \/ ioctl_phases r = Both) IOCTL_RULES.

(** Syscalls that no phase may admit. *)
Definition NEVER_ALLOWED : list (string * Z) := [
  ("access", 21); ("shmget", 29); ("shmat", 30); ("dup", 32);
  ("dup2", 33); ("sendfile", 40); ("socket", 41); ("connect", 42);
  ("accept", 43); ("bind", 49); ("listen", 50); ("fork", 57);
  ("vfork", 58); ("execve", 59); ("wait4", 61); ("kill", 62);
  ("uname", 63); ("semget", 64); ("msgget", 68); ("getcwd", 79);
  ("chdir", 80); ("fchdir", 81); ("rename", 82); ("mkdir", 83);
  ("creat", 85); ("unlink", 87); ("symlink", 88); ("readlink", 89);
  ("chmod", 90); ("chown", 92); ("ptrace", 101); ("syslog", 103);
  ("setuid", 105); ("setgid", 106); ("setpgid", 109); ("setsid", 112);
  ("setgroups", 116); ("setresuid", 117); ("setresgid", 119); ("capset", 126);
  ("mknod", 133); ("personality", 135); ("pivot_root", 155); ("chroot", 161);
  ("mount", 165); ("umount2", 166); ("reboot", 169); ("sethostname", 170);
  ("init_module", 175); ("sched_setaffinity", 203); ("kexec_load", 246); ("waitid", 247);
  ("add_key", 248); ("keyctl", 250); ("unshare", 272); ("splice", 275);
  ("accept4", 288); ("dup3", 292); ("inotify_init1", 294); ("perf_event_open", 298);
  ("fanotify_init", 300); ("name_to_handle_at", 303); ("open_by_handle_at", 304); ("setns", 308);
  ("process_vm_readv", 310); ("process_vm_writev", 311); ("kcmp", 312); ("finit_module", 313);
  ("memfd_create", 319); ("bpf", 321); ("userfaultfd", 323); ("pidfd_send_signal", 424);
  ("io_uring_setup", 425); ("open_tree", 428); ("move_mount", 429); ("fsopen", 430);
  ("fsmount", 432); ("pidfd_open", 434); ("close_range", 436); ("openat2", 437);
  ("pidfd_getfd", 438); ("mount_setattr", 442); ("landlock_create_ruleset", 444)
].

Definition startup_only_syscalls : list string :=
  rule_name <$> filter (fun r => rule_steady r = None) RULES.

(** * Assembly

    [None] is a panic: a length that does not fit an eight-bit jump. *)

Definition u8_try_from (n : nat) : option Z := if Z.of_nat n <=? U8_MAX then Some (Z.of_nat n) else None.

(** [count + 1] on [u8]; the arithmetic is checked. *)
Definition u8_succ (x : Z) : option Z := if x + 1 <=? U8_MAX then Some (x + 1) else None.

Fixpoint equals_jumps (count : Z) (position : Z) (values : list Z) : list Instruction :=
  match values with
  | [] => []
  | value :: rest => ins_jump_eq value (count - position) 0 :: equals_jumps count (position + 1) rest
  end.

Definition equals_any (index : Z) (values : list Z) : option (list Instruction) :=
  count ← u8_try_from (length values);
  miss ← u8_succ count;
  Some ([ins_load (arg_high index); ins_jump_eq 0 0 miss; ins_load (arg_low index)] ++
        equals_jumps count 0 values ++ [ins_ret RET_KILL_PROCESS; ins_ret RET_ALLOW]).

Definition flags_body (index forbidden required : Z) : list Instruction :=
  if required =? 0 then
    [ins_load (arg_low index); ins_jump_set forbidden 1 0; ins_ret RET_ALLOW; ins_ret RET_KILL_PROCESS]
  else
    [ins_load (arg_low index); ins_jump_set forbidden 1 0; ins_jump_set required 1 0;
     ins_ret RET_KILL_PROCESS; ins_ret RET_ALLOW].

Definition body_for (check : ArgCheck) (requests : list Z) : option (list Instruction) :=
  match check with
  | ArgCheck_Any => Some [ins_ret RET_ALLOW]
  | ArgCheck_Errno code => Some [ins_ret (Z.lor RET_ERRNO code)]
  | ArgCheck_ArgEqualsAny index values => equals_any index values
  | ArgCheck_IoctlAllowlist => equals_any 1 requests
  | ArgCheck_Flags index forbidden required => Some (flags_body index forbidden required)
  end.

(** One block per rule: the number is compared, and a mismatch skips the body. *)
Fixpoint rule_blocks (rules : list (Z * ArgCheck)) (requests : list Z) : option (list Instruction) :=
  match rules with
  | [] => Some []
  | (nr, check) :: rest =>
      body ← body_for check requests;
      skip ← u8_try_from (length body);
      blocks ← rule_blocks rest requests;
      Some (ins_jump_eq nr 0 skip :: body ++ blocks)
  end.

Definition assemble (rules : list (Z * ArgCheck)) (requests : list Z) : option FilterProgram :=
  blocks ← rule_blocks rules requests;
  Some ([ins_load DATA_ARCH; ins_jump_eq AUDIT_ARCH_X86_64 1 0; ins_ret RET_KILL_PROCESS; ins_load DATA_NR] ++
        blocks ++ [ins_ret RET_KILL_PROCESS]).

Definition phase_check (phase : Phase) (r : SyscallRule) : option (Z * ArgCheck) :=
  match phase with
  | Startup => Some (rule_nr r, rule_startup r)
  | SteadyState => check ← rule_steady r; Some (rule_nr r, check)
  end.

Definition key_le (a b : Z * ArgCheck) : Prop := a.1 <= b.1.

#[export] Instance key_le_dec : RelDecision key_le.
Proof. intros a b. unfold key_le. apply _. Defined.

Definition phase_rules (phase : Phase) : list (Z * ArgCheck) := merge_sort key_le (omap (phase_check phase) RULES).

Definition program_for (phase : Phase) : option FilterProgram := assemble (phase_rules phase) (requests_for phase).

(** * The interpreter *)

Record SeccompData : Type := mkSeccompData {
  data_arch : Z;
  data_nr : Z;
  data_args : list Z
}.

(** One word of [seccomp_data]; a load outside it panics. *)
Definition data_word (d : SeccompData) (offset : Z) : option Z :=
  if offset =? DATA_NR then Some (data_nr d)
  else if offset =? DATA_ARCH then Some (data_arch d)
  else if (16 <=? offset) && (offset <=? 63) then
    value ← data_args d !! Z.to_nat ((offset - 16) / 8);
    Some (if (offset - 16) mod 8 =? 0 then Z.land value 0xffffffff else Z.shiftr value 32)
  else None.

(** Every instruction moves the counter forward, so the length of the program is fuel
    enough. *)
Fixpoint evaluate_from (fuel : nat) (p : FilterProgram) (d : SeccompData) (pc : nat) (acc : Z) : option Z :=
  match fuel with
  | O => None
  | S fuel =>
      i ← p !! pc;
      if code i =? LOAD_WORD then word ← data_word d (k i); evaluate_from fuel p d (S pc) word
      else if code i =? JUMP_EQ then
        evaluate_from fuel p d (S pc + Z.to_nat (if acc =? k i then jt i else jf i)) acc
      else if code i =? JUMP_SET then
        evaluate_from fuel p d (S pc + Z.to_nat (if Z.land acc (k i) =? 0 then jf i else jt i)) acc
      else if code i =? RETURN then Some (k i)
      else None
  end.

Definition evaluate (p : FilterProgram) (d : SeccompData) : option Z := evaluate_from (length p) p d 0 0.

(** The programs are those of the golden tests. *)
Example golden_startup :
  (fun p => (length p, program_fingerprint p)) <$> program_for Startup = Some (222%nat, 0x40b7c33a9001c79b).
Proof. by vm_compute. Qed.

Example golden_steady :
  (fun p => (length p, program_fingerprint p)) <$> program_for SteadyState = Some (136%nat, 0x5a7e7f524fbff350).
Proof. by vm_compute. Qed.
