(* ===== verification/VmmWorker.v ===== *)
(** The jailed worker of [crates/soma-vmm/src/bin/soma-vmm/]: the admission check,
    the bounded session over the control socket and its exit statuses.

    What the kernel and the jail answer is the worker's environment: the packets
    [recv] delivers, the attestations the jail crate makes and whether the
    steady-state filter installs.  A session calls each of them at most once per
    packet, so the environment is given per packet.  What the filter in force kills is
    decided by the programs of [Seccomp]. *)

From Stdlib Require Import String.
From stdpp Require Import strings.
From S2P Require Import Seccomp.
From S2P Require Import Prelude Bytes VmmContract VmmPlatform VmmLedger VmmMachine VmmLifecycle VmmProperties VmmControl JailManifest.
From stdpp Require Import options.

(** * Exit statuses ([exit.rs]) *)

Definition EXIT_OK : Z := 0.
Definition EXIT_NO_MANIFEST : Z := 2.
Definition EXIT_NO_CONTROL : Z := 3.
Definition EXIT_UNCONTAINED : Z := 4.
Definition EXIT_REQUEST_BUDGET : Z := 5.
Definition EXIT_UNSUPPORTED : Z := 6.
Definition EXIT_SUPERVISOR_GONE : Z := 7.

(** * Admission ([admission.rs]) *)

Definition admits_service (report : ProbeReport) : bool :=
  let identities := [report_uid report; report_euid report; report_gid report; report_egid report] in
  report_table_sealed report
  && bool_decide (report_first_bad_slot report = None)
  && (report_pid report =? 1)
  && forallb (fun identity => negb (identity =? 0)) identities
  && (root_entries (report_root report) =? 0)
  && negb (root_writable (report_root report))
  && negb (root_proc_visible (report_root report))
  && negb (root_sys_visible (report_root report)).

(** * Lossy decoding ([String::from_utf8_lossy])

    Every maximal invalid part of the input becomes U+FFFD. *)

Definition REPLACEMENT : bytes := [0xEF; 0xBF; 0xBD].

Definition within (lo hi b : Z) : bool := (lo <=? b) && (b <=? hi).
Definition continuation (b : Z) : bool := within 0x80 0xBF b.

(** The second bytes that may follow the first byte of a three- or four-byte
    character. *)
Definition second_of_three (b1 b2 : Z) : bool :=
  ((b1 =? 0xE0) && within 0xA0 0xBF b2) || (within 0xE1 0xEC b1 && continuation b2) ||
  ((b1 =? 0xED) && within 0x80 0x9F b2) || (within 0xEE 0xEF b1 && continuation b2).
Definition second_of_four (b1 b2 : Z) : bool :=
  ((b1 =? 0xF0) && within 0x90 0xBF b2) || (within 0xF1 0xF3 b1 && continuation b2) ||
  ((b1 =? 0xF4) && within 0x80 0x8F b2).

Fixpoint from_utf8_lossy (l : bytes) : bytes :=
  match l with
  | [] => []
  | b1 :: l1 =>
      if b1 <? 0x80 then b1 :: from_utf8_lossy l1
      else if within 0xC2 0xDF b1 then
        match l1 with
        | b2 :: l2 => if continuation b2 then b1 :: b2 :: from_utf8_lossy l2
                      else REPLACEMENT ++ from_utf8_lossy l1
        | [] => REPLACEMENT
        end
      else if within 0xE0 0xEF b1 then
        match l1 with
        | b2 :: l2 =>
            if second_of_three b1 b2 then
              match l2 with
              | b3 :: l3 => if continuation b3 then b1 :: b2 :: b3 :: from_utf8_lossy l3
                            else REPLACEMENT ++ from_utf8_lossy l2
              | [] => REPLACEMENT
              end
            else REPLACEMENT ++ from_utf8_lossy l1
        | [] => REPLACEMENT
        end
      else if within 0xF0 0xF4 b1 then
        match l1 with
        | b2 :: l2 =>
            if second_of_four b1 b2 then
              match l2 with
              | b3 :: l3 =>
                  if continuation b3 then
                    match l3 with
                    | b4 :: l4 => if continuation b4 then b1 :: b2 :: b3 :: b4 :: from_utf8_lossy l4
                                  else REPLACEMENT ++ from_utf8_lossy l3
                    | [] => REPLACEMENT
                    end
                  else REPLACEMENT ++ from_utf8_lossy l2
              | [] => REPLACEMENT
              end
            else REPLACEMENT ++ from_utf8_lossy l1
        | [] => REPLACEMENT
        end
      else REPLACEMENT ++ from_utf8_lossy l1
  end.

(** * The channel ([channel.rs]) *)

Definition channel_open (slot : Z) : option Z := if slot <=? I32_MAX then Some slot else None.

(** [recv] into the request buffer: the kernel cuts the packet to the buffer, and a
    packet of no bytes is the end of the stream. *)
Definition receive (packet : option bytes) : option bytes :=
  match packet with
  | Some p => match take (Z.to_nat MAX_REQUEST_BYTES) p with [] => None | received => Some received end
  | None => None
  end.

(** * The session ([session.rs]) and the worker ([main.rs]) *)

Record Environment : Type := mkEnvironment {
  (** What [recv] delivers for the [n]-th packet; [None] is an error or the end. *)
  env_packet : nat -> option bytes;
  (** The attestation made for the [n]-th packet, and the one made at the start. *)
  env_attest : nat -> DescriptorManifest -> ProbeReport;
  env_first_attest : DescriptorManifest -> ProbeReport;
  (** Whether [install_filter(Phase::SteadyState)] succeeds then. *)
  env_filter : nat -> bool
}.

Definition MAX_REQUESTS : Z := MAX_OPERATION_RECEIPTS.

Definition FILTER_REASON : bytes := str "the steady-state filter could not be installed".

Definition seal (installed : bool) : Reply :=
  if installed then Reply_Sealed else Reply_Rejected FILTER_REASON.

(** System calls that [attest] makes (the identity getters) and the first one of
    [install_filter] ([PR_SET_NO_NEW_PRIVS]). *)
Definition no_arguments (nr : Z) : SeccompData := mkSeccompData AUDIT_ARCH_X86_64 nr [0; 0; 0; 0; 0; 0].
Definition ATTEST_CALLS : list SeccompData := no_arguments <$> [102; 107; 104; 108].
Definition INSTALL_CALLS : list SeccompData := [mkSeccompData AUDIT_ARCH_X86_64 157 [38; 1; 0; 0; 0; 0]].

(** Whether the filter of a phase kills the process at one of these calls. *)
Definition kills (phase : Phase) (calls : list SeccompData) : bool :=
  existsb (fun d => bool_decide ((program_for phase ≫= fun p => evaluate p d) = Some RET_KILL_PROCESS)) calls.
Arguments kills : simpl never.

(** How a worker ends: it leaves with a status or the kernel kills it ([SIGSYS]). *)
Inductive WorkerExit : Type := Exited (status : Z) | Killed.

(** What one request leads to: the next one, under the filter then in force, or the end. *)
Inductive Turn : Type :=
| Turn_Next (m : Machine UnavailablePlatform) (phase : Phase) (sent : bytes)
| Turn_End (sent : option bytes) (exit : WorkerExit).

Section worker.
Context (env : Environment).

(** [None] is a failed assertion of the ledger. *)
Definition perform (n : nat) (phase : Phase) (m : Machine UnavailablePlatform) (manifest : DescriptorManifest)
    (request : Request) : option Turn :=
  match request with
  | Request_Attest =>
      if kills phase ATTEST_CALLS then Some (Turn_End None Killed)
      else Some (Turn_Next m phase (report_encode (env_attest env n manifest)))
  | Request_Launch l =>
      match launch m l with
      | Some (m, Ok ready) => Some (Turn_Next m phase (encode_reply (Reply_Ready ready)))
      | Some (m, Err failure) => Some (Turn_Next m phase (encode_reply (Reply_Failure failure)))
      | None => None
      end
  | Request_Execute e =>
      match execute m e with
      | Some (m, Ok executed) => Some (Turn_Next m phase (encode_reply (Reply_Executed executed)))
      | Some (m, Err failure) => Some (Turn_Next m phase (encode_reply (Reply_Failure failure)))
      | None => None
      end
  | Request_Stop s =>
      match stop m s with
      | Some (m, Ok stopped) => Some (Turn_End (Some (encode_reply (Reply_Stopped stopped))) (Exited EXIT_OK))
      | Some (m, Err failure) => Some (Turn_Next m phase (encode_reply (Reply_Failure failure)))
      | None => None
      end
  | Request_Seal =>
      if kills phase INSTALL_CALLS then Some (Turn_End None Killed)
      else Some (Turn_Next m (if env_filter env n then SteadyState else phase) (encode_reply (seal (env_filter env n))))
  | Request_Shutdown status => Some (Turn_End None (Exited status))
  end.

(** The loop of [serve] from packet [n] on, with [budget] iterations left: the packets
    sent and the end. *)
Fixpoint serve_loop (budget n : nat) (phase : Phase) (m : Machine UnavailablePlatform)
    (manifest : DescriptorManifest) : option (list bytes * WorkerExit) :=
  match budget with
  | O => Some ([], Exited EXIT_REQUEST_BUDGET)
  | S budget =>
      match receive (env_packet env n) with
      | None => Some ([], Exited EXIT_SUPERVISOR_GONE)
      | Some buffer =>
          match decode_request (from_utf8_lossy buffer) with
          | Err error =>
              prod_map (cons (encode_reply (Reply_Rejected (ControlError_display error)))) id <$>
              serve_loop budget (S n) phase m manifest
          | Ok request =>
              match perform n phase m manifest request with
              | None => None
              | Some (Turn_End sent exit) => Some (option_list sent, exit)
              | Some (Turn_Next m phase sent) =>
                  prod_map (cons sent) id <$> serve_loop budget (S n) phase m manifest
              end
          end
      end
  end.

(** The launcher installed the startup filter. *)
Definition serve (manifest : DescriptorManifest) : option (list bytes * WorkerExit) :=
  serve_loop (Z.to_nat MAX_REQUESTS) 0 Startup machine_new manifest.

(** The argument is the only one the worker is started with. *)
Definition run (encoded : option bytes) : option (list bytes * WorkerExit) :=
  match encoded with
  | None => Some ([], Exited EXIT_NO_MANIFEST)
  | Some encoded =>
      match manifest_decode encoded with
      | Err _ => Some ([], Exited EXIT_NO_MANIFEST)
      | Ok manifest =>
          match slot_for manifest DescriptorRole_Control with
          | Some None => None
          | None => Some ([], Exited EXIT_NO_CONTROL)
          | Some (Some slot) =>
              match channel_open slot with
              | None => Some ([], Exited EXIT_NO_CONTROL)
              | Some _ =>
                  let attestation := env_first_attest env manifest in
                  prod_map (cons (report_encode attestation)) id <$>
                  if admits_service attestation then serve manifest
                  else Some ([], Exited EXIT_UNCONTAINED)
              end
          end
      end
  end.
End worker.

(** * One request *)

Section session.
Context (env : Environment) (manifest : DescriptorManifest).

(** What the worker may say of itself to its supervisor: an attestation, a failure,
    the result of sealing or the rejection of a packet. *)
Definition honest_reply (n : nat) (packet : bytes) : Prop :=
  packet = report_encode (env_attest env n manifest) \/
  (exists failure, packet = encode_reply (Reply_Failure failure)) \/
  packet = encode_reply (seal (env_filter env n)) \/
  (exists error, packet = encode_reply (Reply_Rejected (ControlError_display error))).

Lemma failing_call m c :
  unavailable_ok m -> wf_call c ->
  exists m' o, call m c = Some (m', o) /\ unavailable_ok m' /\ outcome_ok o = false.
Proof.
  intros Hu Hwf. destruct (call_ok m c (proj1 Hu) Hwf) as (m' & o & Hc & _).
  exists m', o. split; [done | ]. by apply (unavailable_step m c o m' Hu).
Qed.

Lemma wf_execute_call e : wf_execute e -> wf_call (CallExecute e).
Proof. intros (_ & _ & _ & _ & _ & _ & _ & Ho). exact Ho. Qed.

(** The steady-state filter kills an attestation and another transition, the startup one
    neither. *)
Lemma attest_kills phase : kills phase ATTEST_CALLS = bool_decide (phase = SteadyState).
Proof. destruct phase; by vm_compute. Qed.

Lemma install_kills phase : kills phase INSTALL_CALLS = bool_decide (phase = SteadyState).
Proof. destruct phase; by vm_compute. Qed.

(** The requests that need more than the steady-state filter admits. *)
Definition needs_startup (r : Request) : bool :=
  match r with Request_Attest | Request_Seal => true | _ => false end.

Lemma perform_ok n phase m r :
  unavailable_ok m -> wf_request r ->
  (exists status, r = Request_Shutdown status /\ perform env n phase m manifest r = Some (Turn_End None (Exited status))) \/
  (needs_startup r = true /\ phase = SteadyState /\ perform env n phase m manifest r = Some (Turn_End None Killed)) \/
  (exists m' packet,
     perform env n phase m manifest r =
       Some (Turn_Next m' (if bool_decide (r = Request_Seal) && env_filter env n then SteadyState else phase) packet) /\
     unavailable_ok m' /\ honest_reply n packet /\ (forall status, r <> Request_Shutdown status) /\
     (needs_startup r = true -> phase = Startup)).
Proof.
  intros Hu Hwf. destruct r as [ | l | e | s | | status]; simpl in Hwf; cbn [perform needs_startup].
  - rewrite attest_kills. destruct phase; [right; right | right; left; done].
    eexists m, _. split_and!; [reflexivity | done | by left | done | done].
  - destruct (failing_call m (CallLaunch l) Hu I) as (m' & o & Hc & Hu' & Hf).
    simpl in *. destruct (launch m l) as [[m1 [x | f]] | ]; simplify_eq/=. right; right.
    eexists m', _. split_and!; [reflexivity | done | right; left; by eexists | done | done].
  - destruct (failing_call m (CallExecute e) Hu (wf_execute_call e Hwf)) as (m' & o & Hc & Hu' & Hf).
    simpl in *. destruct (execute m e) as [[m1 [x | f]] | ]; simplify_eq/=. right; right.
    eexists m', _. split_and!; [reflexivity | done | right; left; by eexists | done | done].
  - destruct (failing_call m (CallStop s) Hu I) as (m' & o & Hc & Hu' & Hf).
    simpl in *. destruct (stop m s) as [[m1 [x | f]] | ]; simplify_eq/=. right; right.
    eexists m', _. split_and!; [reflexivity | done | right; left; by eexists | done | done].
  - rewrite install_kills. destruct phase; [right; right | right; left; done].
    eexists m, _. split_and!; [reflexivity | done | right; right; by left | done | done].
  - left. by exists status.
Qed.

(** * The session *)

Definition received_request (n : nat) : option (Result Request ControlError) :=
  (fun buffer => decode_request (from_utf8_lossy buffer)) <$> receive (env_packet env n).

(** The [i]-th packet sealed the worker. *)
Definition seals (i : nat) : Prop := received_request i = Some (Ok Request_Seal) /\ env_filter env i = true.

Definition sealed_before (n : nat) : Prop := exists i, (i < n)%nat /\ seals i.

(** Why a session of [budget] packets ended after answering those before the
    [n]-th. *)
Definition session_end (budget n : nat) (exit : WorkerExit) : Prop :=
  (exit = Exited EXIT_SUPERVISOR_GONE /\ (n < budget)%nat /\ received_request n = None) \/
  (exit = Exited EXIT_REQUEST_BUDGET /\ n = budget) \/
  (exists status, exit = Exited status /\ (n < budget)%nat /\ received_request n = Some (Ok (Request_Shutdown status))) \/
  (exit = Killed /\ (n < budget)%nat /\ sealed_before n /\
   exists r, received_request n = Some (Ok r) /\ needs_startup r = true).

(** The packets [n .. n + length sent) were each answered by one packet of [sent]: none of
    them a shutdown, nor a request a worker sealed before cannot survive. *)
Definition answered (n : nat) (sent : list bytes) : Prop :=
  forall i packet, sent !! i = Some packet ->
    honest_reply (n + i) packet /\
    exists r, received_request (n + i) = Some r /\ (forall status, r <> Ok (Request_Shutdown status)) /\
      (forall q, r = Ok q -> needs_startup q = true -> ~ sealed_before (n + i)).

Lemma answered_nil n : answered n [].
Proof. intros i packet. by rewrite lookup_nil. Qed.

Lemma answered_cons n packet sent r :
  honest_reply n packet -> received_request n = Some r ->
  (forall status, r <> Ok (Request_Shutdown status)) ->
  (forall q, r = Ok q -> needs_startup q = true -> ~ sealed_before n) -> answered (S n) sent ->
  answered n (packet :: sent).
Proof.
  intros Hh Hr Hs Hq Ha [ | i] p Hp.
  - simplify_eq/=. rewrite Nat.add_0_r. split; [done | by exists r].
  - simpl in Hp. rewrite Nat.add_succ_r. by apply (Ha i).
Qed.

(** The phase of the filter at the [n]-th packet. *)
Definition phase_at (n : nat) (phase : Phase) : Prop := phase = SteadyState <-> sealed_before n.

Lemma phase_at_next n phase : phase_at n phase -> ~ seals n -> phase_at (S n) phase.
Proof.
  unfold phase_at, sealed_before. intros -> Hn. split; intros (i & Hi & Hs); exists i; (split; [ | done]); [lia | ].
  destruct (decide (i = n)) as [-> | ]; [done | lia].
Qed.

Lemma phase_at_request n phase r : phase_at n phase -> received_request n = Some (Ok r) ->
  phase_at (S n) (if bool_decide (r = Request_Seal) && env_filter env n then SteadyState else phase).
Proof.
  intros Hp Hr. case_bool_decide as Hs; cbn [andb]; [ | apply phase_at_next; [done | ]; intros [Hr' _]; congruence].
  destruct (env_filter env n) eqn:Hf; [ | apply phase_at_next; [done | ]; intros [_ ?]; congruence].
  subst r. split; [ | done]. intros _. exists n. split; [lia | done].
Qed.

Lemma serve_loop_ok budget n phase m :
  unavailable_ok m -> phase_at n phase ->
  exists sent exit, serve_loop env budget n phase m manifest = Some (sent, exit) /\
    answered n sent /\ session_end (n + budget) (n + length sent) exit.
Proof.
  revert n phase m; induction budget as [ | budget IH]; intros n phase m Hu Hph; cbn [serve_loop].
  { eexists _, _. split_and!; [done | apply answered_nil | ]. right; left. cbn. split; [done | lia]. }
  destruct (receive (env_packet env n)) as [buffer | ] eqn:Hrecv.
  2: { eexists _, _. split_and!; [done | apply answered_nil | ]. left. cbn.
    rewrite Nat.add_0_r. unfold received_request. rewrite Hrecv. split_and!; [done | lia | done]. }
  assert (Hreq : received_request n = Some (decode_request (from_utf8_lossy buffer)))
    by (unfold received_request; by rewrite Hrecv).
  destruct (decode_request _) as [r | e] eqn:Hdec.
  - pose proof (phase_at_request n phase r Hph Hreq) as Hnext.
    destruct (perform_ok n phase m r Hu (decode_request_wf _ _ Hdec))
      as [(status & -> & Hp) | [(Hk & -> & Hp) | (m' & packet & Hp & Hu' & Hh & Hns & Hst)]]; rewrite Hp.
    + eexists _, _. split_and!; [done | apply answered_nil | ]. right; right; left. cbn. rewrite Nat.add_0_r.
      exists status. split_and!; [done | lia | done].
    + eexists _, _. split_and!; [done | apply answered_nil | ]. right; right; right. cbn. rewrite Nat.add_0_r.
      split_and!; [done | lia | by apply Hph | by exists r].
    + destruct (IH (S n) _ m' Hu' Hnext) as (sent & exit & Hl & Ha & He). rewrite Hl.
      eexists (packet :: sent), exit. split_and!; [done | | ].
      * eapply answered_cons; [done.. | | | done].
        -- intros s [= ->]. by apply (Hns s).
        -- intros q [= <-] Hq Hsb. rewrite (Hst Hq) in Hph. by apply Hph in Hsb.
      * cbn [length]. by rewrite !Nat.add_succ_r.
  - assert (phase_at (S n) phase) as Hnext by (apply phase_at_next; [done | ]; intros [Hr _]; congruence).
    destruct (IH (S n) phase m Hu Hnext) as (sent & exit & Hl & Ha & He). rewrite Hl.
    eexists (_ :: sent), exit. split_and!; [done | | ].
    + eapply answered_cons; [ | done | done | done | done]. right; right; right. by eexists.
    + cbn [length]. by rewrite !Nat.add_succ_r.
Qed.

Lemma phase_at_start : phase_at 0 Startup.
Proof. split; [done | ]. intros (i & Hi & _). lia. Qed.

(** C37: a session always ends, within [MAX_REQUESTS] packets and without tripping an
    assertion, and its end says how: the stream ended, the budget ran out, the packet
    received was the shutdown naming that status, or the worker had been sealed and the
    packet asked for an attestation or another transition, at which the filter kills it.
    Every packet before the end is answered exactly once, in order, and by an attestation,
    a failure, the outcome of sealing or a rejection: the worker never claims a machine it
    has not got, and never attests once it is sealed. *)
Theorem session_ends :
  exists sent exit, serve env manifest = Some (sent, exit) /\
    answered 0 sent /\ session_end (Z.to_nat MAX_REQUESTS) (length sent) exit.
Proof. apply (serve_loop_ok _ 0 Startup machine_new); [apply unavailable_ok_new | apply phase_at_start]. Qed.
End session.

(** * The worker *)

Definition contained (report : ProbeReport) : Prop :=
  report_table_sealed report = true /\ report_first_bad_slot report = None /\
  report_pid report = 1 /\ report_uid report <> 0 /\ report_euid report <> 0 /\
  report_gid report <> 0 /\ report_egid report <> 0 /\
  report_root report = mkRootView 0 false false false.

Lemma admits_service_spec report : admits_service report = true <-> contained report.
Proof.
  destruct report as [pid uid euid gid egid sealed bad [entries w p s]].
  unfold admits_service, contained; simpl. split.
  - intros H. zbool. case_bool_decide; [ | done]. subst.
    repeat match goal with H : negb _ = true |- _ => apply negb_true_iff in H end.
    by subst; split_and!.
  - intros (-> & -> & -> & Hu & He & Hg & Heg & [= -> -> -> ->]).
    rewrite (proj2 (Z.eqb_neq uid 0)), (proj2 (Z.eqb_neq euid 0)), (proj2 (Z.eqb_neq gid 0)),
      (proj2 (Z.eqb_neq egid 0)) by done. done.
Qed.

(** The worker serves nothing outside its jail.  It always ends; without a
    decodable manifest it says nothing; otherwise its first packet is its attestation,
    and requests are served exactly when that attestation proves the sealed table, the
    unprivileged identity, PID 1 and the empty read-only root. *)
Theorem worker_contained env encoded :
  exists sent exit, run env encoded = Some (sent, exit) /\
    ((sent = [] /\ exit = Exited EXIT_NO_MANIFEST /\
      forall text, encoded = Some text -> is_ok (manifest_decode text) = false) \/
     exists text manifest, encoded = Some text /\ manifest_decode text = Ok manifest /\
       exists replies, sent = report_encode (env_first_attest env manifest) :: replies /\
         ((~ contained (env_first_attest env manifest) /\ replies = [] /\ exit = Exited EXIT_UNCONTAINED) \/
          (contained (env_first_attest env manifest) /\ serve env manifest = Some (replies, exit)))).
Proof.
  unfold run. destruct encoded as [text | ]; [ | by eexists _, _; split; [done | left]].
  destruct (manifest_decode text) as [manifest | e] eqn:Hdec.
  2: { eexists _, _. split; [done | left]. split_and!; [done | done | ].
    intros t [= <-]. by rewrite Hdec. }
  destruct (decoded_control_slot _ _ Hdec) as (i & _ & _ & Hslot & _ & Hi1 & Hi2). rewrite Hslot.
  unfold channel_open, I32_MAX. destruct (Z.leb_spec (3 + Z.of_nat i) (2 ^ 31 - 1)); [ | lia].
  destruct (admits_service _) eqn:Ha.
  - apply admits_service_spec in Ha.
    destruct (serve_loop_ok env manifest (Z.to_nat MAX_REQUESTS) 0 Startup machine_new unavailable_ok_new (phase_at_start env))
      as (sent & status & Hs & _). unfold serve. rewrite Hs.
    eexists _, _. split; [done | right]. eexists _, _. split_and!; [done.. | ].
    eexists. split; [done | right]. done.
  - eexists _, _. split; [done | right]. eexists _, _. split_and!; [done.. | ].
    eexists. split; [done | left]. split_and!; try done.
    rewrite <- admits_service_spec. by rewrite Ha.
Qed.

(** * Packets longer than the buffer *)

Definition with_arguments (e : Execute) (arguments : list bytes) : Execute :=
  mkExecute (execute_operation_id e) (execute_instance_id e) (execute_program e) arguments
    (execute_limits e).

Lemma argument_bytes_take k args : argument_bytes (take k args) <= argument_bytes args.
Proof.
  revert k; induction args as [ | a args IH]; intros [ | k]; simpl; try lia.
  - pose proof (argument_bytes_nonneg args). pose proof (len_nonneg a). lia.
  - specialize (IH k). lia.
Qed.

Lemma wf_execute_take e k :
  wf_execute e -> wf_execute (with_arguments e (take k (execute_arguments e))).
Proof.
  intros (Ho & Hi & Hp & Ha & Hn & Hb & Hl). unfold wf_execute; simpl.
  pose proof (argument_bytes_take k (execute_arguments e)).
  split_and!; try done; [by apply Forall_take | rewrite length_take; lia | lia].
Qed.

Definition append_arguments (text : bytes) (arguments : list bytes) : bytes :=
  foldl (fun text argument => text ++ [SPACE] ++ hex argument) text arguments.

Lemma append_arguments_app text args : exists rest, append_arguments text args = text ++ rest.
Proof.
  revert text; induction args as [ | a args IH]; intros text; [exists []; by rewrite app_nil_r | ].
  destruct (IH (text ++ [SPACE] ++ hex a)) as [rest Hrest].
  exists ([SPACE] ++ hex a ++ rest). unfold append_arguments in *. cbn [foldl]. rewrite Hrest.
  by rewrite <- !app_assoc.
Qed.

Lemma encode_execute_take e k :
  exists rest, encode_execute e =
    encode_execute (with_arguments e (take k (execute_arguments e))) ++ rest.
Proof.
  destruct (append_arguments_app (encode_execute (with_arguments e (take k (execute_arguments e))))
    (drop k (execute_arguments e))) as [rest Hrest].
  exists rest. rewrite <- Hrest. unfold append_arguments, encode_execute.
  change (execute_head_tokens (with_arguments e _)) with (execute_head_tokens e).
  change (execute_arguments (with_arguments e ?l)) with l.
  by rewrite <- foldl_app, take_drop.
Qed.

Definition is_ascii (b : Z) : Prop := b < 0x80.

Lemma from_utf8_lossy_ascii l : Forall is_ascii l -> from_utf8_lossy l = l.
Proof.
  induction 1 as [ | b l Hb Hl IH]; [done | ]. simpl. unfold is_ascii in Hb.
  destruct (Z.ltb_spec b 0x80); [ | lia]. by rewrite IH.
Qed.

Lemma graphic_ascii l : Forall is_graphic l -> Forall is_ascii l.
Proof. intros Hl. eapply Forall_impl; [exact Hl | ]. unfold is_graphic, is_ascii. lia. Qed.

Lemma join_sp_ascii toks : Forall (Forall is_graphic) toks -> Forall is_ascii (join_sp toks).
Proof.
  induction 1 as [ | t toks Ht Htoks IH]; simpl; [constructor | ].
  destruct toks; [by apply graphic_ascii | ].
  apply Forall_app. split; [by apply graphic_ascii | ]. by constructor.
Qed.

Lemma encode_execute_ascii e : wf_execute e -> Forall is_ascii (encode_execute e).
Proof.
  intros He. pose proof (execute_head_tokens_ok e He) as Ht. unfold encode_execute.
  rewrite join_sp_app by done. apply join_sp_ascii, Forall_app. split; [by apply tokens_graphic | ].
  apply Forall_fmap. destruct He as (_ & _ & _ & Ha & _).
  eapply Forall_impl; [exact Ha | ]. intros a [[Hb _] _]. by apply hex_graphic.
Qed.

(** C39: an oversized packet can be read as a shorter valid one: when the first
    arguments of a command fill the buffer exactly, the packet of the whole command is
    received, cut by the kernel, as the command with those arguments only. *)
Theorem oversized_packet_accepted e k :
  wf_execute e -> Forall nonempty (execute_arguments e) ->
  len (encode_execute (with_arguments e (take k (execute_arguments e)))) = MAX_REQUEST_BYTES ->
  exists buffer, receive (Some (encode_execute e)) = Some buffer /\
    decode_request (from_utf8_lossy buffer) =
      Ok (Request_Execute (with_arguments e (take k (execute_arguments e)))).
Proof.
  intros He Hne Hlen. pose proof (wf_execute_take e k He) as Hk.
  exists (encode_execute (with_arguments e (take k (execute_arguments e)))). split.
  - destruct (encode_execute_take e k) as [rest ->]. unfold receive.
    rewrite take_app_length'; [ | unfold len in Hlen; rewrite <- Hlen; by rewrite Nat2Z.id].
    by destruct (encode_execute _).
  - rewrite from_utf8_lossy_ascii by (by apply encode_execute_ascii).
    pose proof (decode_encode (Request_Execute (with_arguments e (take k (execute_arguments e)))) Hk)
      as Hdec. cbn [encode_request] in Hdec. rewrite Hdec by lia. cbn [delivered].
    unfold drop_empty_arguments. simpl. unfold with_arguments. do 3 f_equal.
    by apply filter_all, Forall_take.
Qed.

(** * Witnesses *)

(** A command whose first argument fills the packet, and whose second does not fit. *)
Definition oversized_execute : Execute :=
  packet_execute [repeat 120 1996; str "lost"].

Lemma repeat_argument n : Z.of_nat n <= 128 * 1024 -> wf_argument (repeat 120 n).
Proof.
  intros Hn. split; [split; apply Forall_forall; intros b Hb; apply list_elem_of_In, repeat_spec in Hb;
    by subst | ]. unfold len. rewrite repeat_length. lia.
Qed.

Lemma oversized_execute_wf : wf_execute oversized_execute.
Proof.
  assert (Ha : Forall wf_argument (execute_arguments oversized_execute)).
  { repeat apply Forall_cons_2; [by apply repeat_argument | | constructor].
    by vm_compute; repeat (split || constructor || intros ?). }
  split_and!; try exact Ha; try by vm_compute.
  all: split_and!; by vm_compute; repeat (split || constructor || intros ?).
Qed.

Lemma oversized_packet_accepted_witness :
  (len (encode_execute oversized_execute) > MAX_REQUEST_BYTES) /\
  execute_arguments oversized_execute <> take 1 (execute_arguments oversized_execute) /\
  exists buffer, receive (Some (encode_execute oversized_execute)) = Some buffer /\
    decode_request (from_utf8_lossy buffer) =
      Ok (Request_Execute (with_arguments oversized_execute
                             (take 1 (execute_arguments oversized_execute)))).
Proof.
  split; [by vm_compute | ]. split; [intros [=] | ].
  apply (oversized_packet_accepted oversized_execute 1 oversized_execute_wf).
  - repeat constructor; discriminate.
  - by vm_compute.
Defined.
