(* ===== verification/GuestMemory.v ===== *)
(** Bounded guest-physical memory ([crates/soma-kvm/src/virtio/guest_memory.rs]): the
    [GuestMemory] trait as a class, what it promises to the queue code as laws over an
    abstract view (registered regions and one byte per address), and the heap-backed
    implementation, proved to keep that promise.

    The source writes through a shared reference; here a write returns the memory it
    leaves. *)

From S2P Require Import Prelude Bytes.
From stdpp Require Import options.

(** * Addresses and errors *)

Definition GuestAddress := Z.

Definition addr_checked_add (addr : GuestAddress) (offset : Z) : option GuestAddress :=
  checked_add_u64 addr offset.

Definition is_aligned (addr : GuestAddress) (align : Z) : bool :=
  negb (align =? 0) && (addr mod align =? 0).

Inductive GuestMemoryError : Type :=
| GuestMemoryError_Overflow (addr : GuestAddress) (len : Z)
| GuestMemoryError_OutOfRegion (addr : GuestAddress) (len : Z).

#[export] Instance GuestMemoryError_eq_dec : EqDecision GuestMemoryError.
Proof. solve_decision. Defined.

(** * The interface *)

Class GuestMemory (M : Type) : Type := {
  check_range : M -> GuestAddress -> Z -> Result unit GuestMemoryError;
  (** [n] is the length of the caller's buffer. *)
  read_bytes : M -> GuestAddress -> nat -> Result bytes GuestMemoryError;
  write_bytes : M -> GuestAddress -> bytes -> Result M GuestMemoryError;
}.

(** The provided methods, for a value of [size] bytes. *)
Definition read_obj_at {M} `{GuestMemory M} (size : nat) (mem : M) (addr : GuestAddress)
    : Result Z GuestMemoryError :=
  let? buf := read_bytes mem addr size in
  Ok (le_val buf).

Definition write_obj_at {M} `{GuestMemory M} (size : nat) (mem : M) (addr : GuestAddress)
    (value : Z) : Result M GuestMemoryError :=
  write_bytes mem addr (le_bytes size value).

(** A range that lies in one region, and does not overflow the address space. *)
Definition within_region (addr len : Z) (region : Z * Z) : Prop :=
  region.1 <= addr /\ addr + len <= region.1 + region.2.

Definition registered (regions : list (Z * Z)) (addr len : Z) : Prop :=
  addr + len <= U64_MAX /\ Exists (within_region addr len) regions.

(** What an implementation promises: accesses succeed exactly on registered ranges,
    a read returns the bytes there, and a write changes those bytes and nothing
    else. *)
Class GuestMemoryLaws (M : Type) `{GuestMemory M} : Type := {
  mem_wf : M -> Prop;
  mem_regions : M -> list (Z * Z);
  mem_byte : M -> Z -> Z;
  mem_byte_u8 mem addr : mem_wf mem -> is_u8 (mem_byte mem addr);
  check_range_spec mem addr len :
    mem_wf mem -> check_range mem addr len = Ok tt <-> registered (mem_regions mem) addr len;
  read_bytes_spec mem addr n buf :
    mem_wf mem ->
    read_bytes mem addr n = Ok buf <->
    registered (mem_regions mem) addr (Z.of_nat n) /\
    buf = (mem_byte mem <$> seqZ addr (Z.of_nat n));
  write_bytes_total mem addr b :
    mem_wf mem -> registered (mem_regions mem) addr (Z.of_nat (length b)) ->
    is_ok (write_bytes mem addr b) = true;
  write_bytes_spec mem addr b mem' :
    mem_wf mem -> all_bytes b -> write_bytes mem addr b = Ok mem' ->
    registered (mem_regions mem) addr (Z.of_nat (length b)) /\
    mem_wf mem' /\ mem_regions mem' = mem_regions mem /\
    forall x, mem_byte mem' x =
      (if decide (addr <= x < addr + Z.of_nat (length b))
       then default 0 (b !! Z.to_nat (x - addr)) else mem_byte mem x);
}.

(** * What clients derive from the laws *)

Section client.
Context {M : Type} `{GuestMemoryLaws M}.

Lemma registered_sub regions addr len addr' len' :
  registered regions addr len -> addr <= addr' -> addr' + len' <= addr + len ->
  registered regions addr' len'.
Proof.
  intros [Hov Hex] Ha Hl. split; [lia | ]. eapply Exists_impl; [exact Hex | ].
  intros r [H1 H2]. split; lia.
Qed.

Lemma read_bytes_ok mem addr n buf :
  mem_wf mem -> read_bytes mem addr n = Ok buf -> all_bytes buf /\ length buf = n.
Proof.
  intros Hwf [_ ->]%read_bytes_spec; [ | done]. split.
  - apply Forall_fmap, Forall_true. intros x. by apply mem_byte_u8.
  - rewrite length_fmap, length_seqZ. lia.
Qed.

Lemma read_obj_at_range mem addr size v :
  mem_wf mem -> read_obj_at size mem addr = Ok v -> is_uint (8 * Z.of_nat size) v.
Proof.
  intros Hwf. unfold read_obj_at. destruct (read_bytes mem addr size) as [b | ] eqn:Hr; [ | done].
  intros [= <-]. destruct (read_bytes_ok _ _ _ _ Hwf Hr) as [Hb <-]. by apply le_val_range.
Qed.

Lemma read_obj_at_total mem addr size :
  mem_wf mem -> registered (mem_regions mem) addr (Z.of_nat size) ->
  exists v, read_obj_at size mem addr = Ok v /\ is_uint (8 * Z.of_nat size) v.
Proof.
  intros Hwf Hreg.
  assert (Hr : read_bytes mem addr size = Ok (mem_byte mem <$> seqZ addr (Z.of_nat size)))
    by (by apply read_bytes_spec).
  exists (le_val (mem_byte mem <$> seqZ addr (Z.of_nat size))).
  assert (Ho : read_obj_at size mem addr = Ok (le_val (mem_byte mem <$> seqZ addr (Z.of_nat size))))
    by (unfold read_obj_at; by rewrite Hr).
  split; [done | by eapply read_obj_at_range].
Qed.

(** Writing leaves ranges apart from it as they were. *)
Lemma read_bytes_frame mem addr b mem' addr' n :
  mem_wf mem -> all_bytes b -> write_bytes mem addr b = Ok mem' ->
  addr' + Z.of_nat n <= addr \/ addr + Z.of_nat (length b) <= addr' ->
  read_bytes mem' addr' n = read_bytes mem addr' n \/
  (is_ok (read_bytes mem' addr' n) = false /\ is_ok (read_bytes mem addr' n) = false).
Proof.
  intros Hwf Hb Hw Hd. destruct (write_bytes_spec _ _ _ _ Hwf Hb Hw) as (_ & Hwf' & Hr & Hx).
  destruct (read_bytes mem addr' n) as [buf | e] eqn:E.
  - left. apply read_bytes_spec in E as [Hreg ->]; [ | done].
    apply read_bytes_spec; [done | ]. rewrite Hr. split; [done | ].
    apply list_fmap_ext. intros i x Hi. apply lookup_seqZ in Hi as [-> Hi].
    rewrite Hx, decide_False by lia. done.
  - right. split; [ | done]. destruct (read_bytes mem' addr' n) as [buf | ] eqn:E'; [ | done].
    apply read_bytes_spec in E' as [Hreg _]; [ | done]. rewrite Hr in Hreg.
    assert (read_bytes mem addr' n = Ok (mem_byte mem <$> seqZ addr' (Z.of_nat n)))
      by (by apply read_bytes_spec). congruence.
Qed.

(** What was written is read back. *)
Lemma read_bytes_written mem addr b mem' :
  mem_wf mem -> all_bytes b -> write_bytes mem addr b = Ok mem' ->
  read_bytes mem' addr (length b) = Ok b.
Proof.
  intros Hwf Hb Hw. destruct (write_bytes_spec _ _ _ _ Hwf Hb Hw) as (Hreg & Hwf' & Hr & Hx).
  apply read_bytes_spec; [done | ]. rewrite Hr. split; [done | ].
  apply list_eq. intros i. rewrite list_lookup_fmap.
  destruct (decide (i < length b)%nat) as [Hi | Hi].
  - rewrite (proj2 (lookup_seqZ addr (Z.of_nat (length b)) i (addr + Z.of_nat i))) by lia. simpl.
    rewrite Hx, decide_True by lia. replace (Z.to_nat (addr + Z.of_nat i - addr)) with i by lia.
    apply lookup_lt_is_Some in Hi as [v Hv]. by rewrite Hv.
  - rewrite (lookup_ge_None_2 b) by lia.
    rewrite lookup_seqZ_ge by lia. done.
Qed.

Lemma read_obj_at_written mem addr size v mem' :
  mem_wf mem -> is_uint (8 * Z.of_nat size) v -> write_obj_at size mem addr v = Ok mem' ->
  read_obj_at size mem' addr = Ok v.
Proof.
  intros Hwf Hv Hw. unfold read_obj_at, write_obj_at in *.
  apply read_bytes_written in Hw; [ | done | apply le_bytes_all_bytes].
  rewrite length_le_bytes in Hw. rewrite Hw. by rewrite le_val_bytes.
Qed.
End client.

(** * Heap-backed memory *)

Inductive RegionLayoutError : Type :=
| RegionLayoutError_EmptyRegion
| RegionLayoutError_Overflow
| RegionLayoutError_Overlap.

Record Region : Type := mkRegion {
  region_start : GuestAddress;
  region_bytes : bytes
}.

Record VecGuestMemory : Type := mkVecGuestMemory {
  vec_regions : list Region
}.

(** The loop of [new], with the end of the previous region. *)
Fixpoint vec_new_loop (layout : list (GuestAddress * Z)) (next_free : Z)
    : Result (list Region) RegionLayoutError :=
  match layout with
  | [] => Ok []
  | (start, len) :: layout =>
      if len =? 0 then Err RegionLayoutError_EmptyRegion
      else
        let? end_ := ok_or RegionLayoutError_Overflow (addr_checked_add start len) in
        if start <? next_free then Err RegionLayoutError_Overlap
        else
          let? regions := vec_new_loop layout end_ in
          Ok (mkRegion start (replicate (Z.to_nat len) 0) :: regions)
  end.

Definition vec_new (layout : list (GuestAddress * Z)) : Result VecGuestMemory RegionLayoutError :=
  map_ok mkVecGuestMemory (vec_new_loop layout 0).

Definition vec_flat (len : Z) : Result VecGuestMemory RegionLayoutError := vec_new [(0, len)].

Definition region_end (r : Region) : Z := region_start r + Z.of_nat (length (region_bytes r)).

(** The loop of [locate]: the index of the first region that holds the range, and
    the offset of the range in it. *)
Fixpoint locate_loop (regions : list Region) (addr end_ : Z) (index : nat) : option (nat * nat) :=
  match regions with
  | [] => None
  | region :: regions =>
      if (region_start region <=? addr) && (end_ <=? region_end region)
      then Some (index, Z.to_nat (addr - region_start region))
      else locate_loop regions addr end_ (S index)
  end.

Definition locate (mem : VecGuestMemory) (addr len : Z) : Result (nat * nat) GuestMemoryError :=
  let? end_ := ok_or (GuestMemoryError_Overflow addr len) (addr_checked_add addr len) in
  ok_or (GuestMemoryError_OutOfRegion addr len) (locate_loop (vec_regions mem) addr end_ 0).

Definition vec_check_range (mem : VecGuestMemory) (addr len : Z) : Result unit GuestMemoryError :=
  map_ok (fun _ => tt) (locate mem addr len).

Definition vec_read_bytes (mem : VecGuestMemory) (addr : Z) (n : nat)
    : Result bytes GuestMemoryError :=
  let? found := locate mem addr (Z.of_nat n) in
  match vec_regions mem !! found.1 with
  | Some region => Ok (take n (drop found.2 (region_bytes region)))
  | None => Err (GuestMemoryError_OutOfRegion addr (Z.of_nat n))
  end.

Definition vec_write_bytes (mem : VecGuestMemory) (addr : Z) (b : bytes)
    : Result VecGuestMemory GuestMemoryError :=
  let? found := locate mem addr (Z.of_nat (length b)) in
  Ok (mkVecGuestMemory (alter
        (fun region => mkRegion (region_start region)
                         (list_inserts found.2 b (region_bytes region)))
        found.1 (vec_regions mem))).

#[export] Instance VecGuestMemory_GuestMemory : GuestMemory VecGuestMemory := {
  check_range := vec_check_range;
  read_bytes := vec_read_bytes;
  write_bytes := vec_write_bytes;
}.

(** Regions ascend, do not overlap, are not empty and end in the address space. *)
Fixpoint regions_ok (next_free : Z) (regions : list Region) : Prop :=
  match regions with
  | [] => True
  | r :: regions =>
      next_free <= region_start r /\ region_bytes r <> [] /\ region_end r <= U64_MAX /\
      all_bytes (region_bytes r) /\ regions_ok (region_end r) regions
  end.

Definition vec_wf (mem : VecGuestMemory) : Prop := regions_ok 0 (vec_regions mem).

(** The byte at an address: the one of the region that holds it. *)
Fixpoint regions_byte (regions : list Region) (x : Z) : Z :=
  match regions with
  | [] => 0
  | r :: regions =>
      if decide (region_start r <= x < region_end r)
      then default 0 (region_bytes r !! Z.to_nat (x - region_start r))
      else regions_byte regions x
  end.

Definition region_range (r : Region) : Z * Z :=
  (region_start r, Z.of_nat (length (region_bytes r))).

Lemma vec_new_ok layout mem :
  Forall (fun p => 0 <= p.1 /\ 0 <= p.2) layout ->
  vec_new layout = Ok mem -> vec_wf mem /\ region_range <$> vec_regions mem = layout.
Proof.
  unfold vec_new, vec_wf. intros Hl Hnew.
  destruct (vec_new_loop layout 0) as [rs | ] eqn:E; [ | done]. simplify_eq/=.
  enough (Hgen : forall nf rs, vec_new_loop layout nf = Ok rs ->
    regions_ok nf rs /\ region_range <$> rs = layout) by (by apply Hgen).
  clear rs E. induction Hl as [ | [start len] layout [Hs Hlen] Hl IH]; intros nf rs E; simpl in *; [by simplify_eq | ].
  destruct (Z.eqb_spec len 0); [done | ].
  destruct (addr_checked_add start len) as [e | ] eqn:Hadd; [ | done]. simpl in E.
  apply checked_add_u64_Some in Hadd as [-> Hov].
  destruct (Z.ltb_spec start nf); [done | ].
  destruct (vec_new_loop layout (start + len)) as [rs' | ] eqn:E'; [ | done]. simplify_eq.
  destruct (IH _ _ E') as [Hok Hr]. cbn [fmap list_fmap regions_ok]. rewrite Hr.
  unfold region_range, region_end; simpl. rewrite length_replicate, Z2Nat.id by lia. split_and!; try done.
  - destruct (Z.to_nat len) eqn:En; [lia | done].
  - apply Forall_replicate. by unfold is_uint.
Qed.

Lemma regions_ok_start nf rs k r : regions_ok nf rs -> rs !! k = Some r -> nf <= region_start r.
Proof.
  revert nf k; induction rs as [ | r0 rs IH]; intros nf [ | k] Hok Hk; simplify_eq/=.
  - tauto.
  - destruct Hok as (Hnf & _ & _ & _ & Hok). specialize (IH _ _ Hok Hk).
    unfold region_end in IH. lia.
Qed.

Lemma regions_ok_lookup nf rs k r :
  regions_ok nf rs -> rs !! k = Some r -> region_end r <= U64_MAX /\ all_bytes (region_bytes r).
Proof.
  revert nf k; induction rs as [ | r0 rs IH]; intros nf [ | k] Hok Hk; simplify_eq/=; [tauto | ].
  destruct Hok as (_ & _ & _ & _ & Hok). by eapply IH.
Qed.

Lemma regions_byte_lookup nf rs k r x :
  regions_ok nf rs -> rs !! k = Some r -> region_start r <= x < region_end r ->
  regions_byte rs x = default 0 (region_bytes r !! Z.to_nat (x - region_start r)).
Proof.
  revert nf k; induction rs as [ | r0 rs IH]; intros nf [ | k] Hok Hk Hx; simplify_eq/=.
  - by rewrite decide_True.
  - destruct Hok as (_ & _ & _ & _ & Hok). pose proof (regions_ok_start _ _ _ _ Hok Hk).
    rewrite decide_False by lia. by eapply IH.
Qed.

Lemma regions_byte_u8 nf rs x : regions_ok nf rs -> is_u8 (regions_byte rs x).
Proof.
  revert nf; induction rs as [ | r rs IH]; intros nf Hok; simpl; [by unfold is_uint | ].
  destruct Hok as (_ & _ & _ & Hb & Hok). case_decide; [ | by eapply IH].
  destruct (region_bytes r !! _) eqn:E; [ | by unfold is_uint]. simpl.
  unfold all_bytes in Hb. rewrite Forall_lookup in Hb. by eapply Hb.
Qed.

Lemma locate_loop_spec rs addr e i j off :
  locate_loop rs addr e i = Some (j, off) ->
  exists r, (i <= j)%nat /\ rs !! (j - i)%nat = Some r /\
    region_start r <= addr /\ e <= region_end r /\ off = Z.to_nat (addr - region_start r).
Proof.
  revert i; induction rs as [ | r rs IH]; intros i Hl; simpl in Hl; [done | ].
  destruct (_ && _) eqn:E.
  - simplify_eq. zbool. exists r. rewrite Nat.sub_diag. by split_and!.
  - destruct (IH _ Hl) as (r' & Hi & Hr & ?). exists r'. split; [lia | ].
    replace (j - i)%nat with (S (j - S i)) by lia. done.
Qed.

Lemma locate_loop_None rs addr e i :
  locate_loop rs addr e i = None <->
  ~ Exists (fun r => region_start r <= addr /\ e <= region_end r) rs.
Proof.
  revert i; induction rs as [ | r rs IH]; intros i; simpl.
  - split; [intros _ Hex; inversion Hex | done].
  - rewrite Exists_cons. destruct (_ && _) eqn:E.
    + zbool. naive_solver.
    + rewrite IH. apply andb_false_iff in E. split; [ | tauto].
      intros Hn [[H1 H2] | Hex]; [ | done]. destruct E; zbool; lia.
Qed.

Lemma locate_spec mem addr len k off :
  locate mem addr len = Ok (k, off) ->
  addr + len <= U64_MAX /\ exists r, vec_regions mem !! k = Some r /\
    region_start r <= addr /\ addr + len <= region_end r /\ off = Z.to_nat (addr - region_start r).
Proof.
  unfold locate. destruct (addr_checked_add addr len) as [e | ] eqn:Hadd; simpl; [ | done].
  apply checked_add_u64_Some in Hadd as [-> Hov]. intros Hl%ok_or_Ok.
  destruct (locate_loop_spec _ _ _ _ _ _ Hl) as (r & _ & Hr & ?). split; [done | ].
  exists r. by rewrite Nat.sub_0_r in Hr.
Qed.

Lemma locate_total mem addr len :
  registered (region_range <$> vec_regions mem) addr len <-> is_ok (locate mem addr len) = true.
Proof.
  unfold registered, locate.
  destruct (addr_checked_add addr len) as [e | ] eqn:Hadd; simpl.
  - apply checked_add_u64_Some in Hadd as [-> Hov].
    rewrite Exists_fmap. destruct (locate_loop _ _ _ _) as [p | ] eqn:E; simpl.
    + split; [done | ]. intros _. split; [done | ]. destruct p as [j off].
      destruct (locate_loop_spec _ _ _ _ _ _ E) as (r & _ & Hr & H1 & H2 & _).
      apply Exists_exists. exists r. split; [by eapply list_elem_of_lookup_2 | by split].
    + split; [ | done]. intros [_ Hex]. apply locate_loop_None in E. by destruct E.
  - split; [ | done]. intros [Hov _].
    unfold addr_checked_add, checked_add_u64 in Hadd. destruct (Z.leb_spec (addr + len) U64_MAX); [done | lia].
Qed.

(** A region's bytes replaced by as many others. *)
Lemma regions_ok_alter nf rs k r b :
  regions_ok nf rs -> rs !! k = Some r -> length b = length (region_bytes r) -> all_bytes b ->
  regions_ok nf (<[k := mkRegion (region_start r) b]> rs) /\
  region_range <$> <[k := mkRegion (region_start r) b]> rs = region_range <$> rs.
Proof.
  revert nf k; induction rs as [ | r0 rs IH]; intros nf [ | k] Hok Hk Hl Hb; simplify_eq/=.
  - destruct Hok as (H1 & H2 & H3 & H4 & H5). unfold region_end, region_range in *; simpl.
    rewrite Hl. split_and!; try done. intros ->. destruct (region_bytes r); done.
  - destruct Hok as (H1 & H2 & H3 & H4 & H5). destruct (IH _ _ H5 Hk Hl Hb) as [HA HB].
    split_and!; try done. by rewrite HB.
Qed.

Lemma regions_byte_alter nf rs k r b x :
  regions_ok nf rs -> rs !! k = Some r -> length b = length (region_bytes r) ->
  regions_byte (<[k := mkRegion (region_start r) b]> rs) x =
  (if decide (region_start r <= x < region_end r)
   then default 0 (b !! Z.to_nat (x - region_start r)) else regions_byte rs x).
Proof.
  revert nf k; induction rs as [ | r0 rs IH]; intros nf [ | k] Hok Hk Hl; simplify_eq/=.
  - by repeat case_decide; unfold region_end in *; simpl in *; try lia.
  - destruct Hok as (_ & _ & _ & _ & Hok). pose proof (regions_ok_start _ _ _ _ Hok Hk).
    rewrite (IH _ _ Hok Hk Hl). repeat case_decide; try done; lia.
Qed.

Lemma alter_insert {A} (f : A -> A) (l : list A) k x :
  l !! k = Some x -> alter f k l = <[k := f x]> l.
Proof.
  intros Hk. apply list_eq. intros i. destruct (decide (i = k)) as [-> | Hne].
  - rewrite list_lookup_alter_eq, Hk, list_lookup_insert_eq by (by eapply lookup_lt_Some). done.
  - by rewrite list_lookup_alter_ne, list_lookup_insert_ne by done.
Qed.

Lemma Forall_inserts {A} (P : A -> Prop) i (k l : list A) :
  Forall P k -> Forall P l -> Forall P (list_inserts i k l).
Proof.
  intros Hk. revert i. induction Hk as [ | x k Hx Hk IH]; intros i Hl; simpl; [done | ].
  apply Forall_insert; [by apply IH | done].
Qed.

Lemma vec_write_spec mem addr b mem' :
  vec_wf mem -> all_bytes b -> vec_write_bytes mem addr b = Ok mem' ->
  vec_wf mem' /\ region_range <$> vec_regions mem' = region_range <$> vec_regions mem /\
  forall x, regions_byte (vec_regions mem') x =
    (if decide (addr <= x < addr + Z.of_nat (length b))
     then default 0 (b !! Z.to_nat (x - addr)) else regions_byte (vec_regions mem) x).
Proof.
  intros Hwf Hb. unfold vec_write_bytes.
  destruct (locate mem addr (Z.of_nat (length b))) as [[k off] | ] eqn:Hl; [ | done].
  intros [= <-]. apply locate_spec in Hl as (_ & r & Hr & H1 & H2 & Hoff).
  unfold vec_wf in *; cbn [vec_regions fst snd]. rewrite (alter_insert _ _ _ _ Hr).
  set (b' := list_inserts off b (region_bytes r)).
  assert (Hlen : length b' = length (region_bytes r)) by apply length_inserts.
  destruct (regions_ok_lookup _ _ _ _ Hwf Hr) as [_ Hrb].
  destruct (regions_ok_alter _ _ _ _ b' Hwf Hr Hlen) as [HA HB]; [by apply Forall_inserts | ].
  split_and!; [done | done | ]. intros x. rewrite (regions_byte_alter _ _ _ _ _ _ Hwf Hr Hlen).
  unfold region_end in *. case_decide as Hx1.
  - case_decide as Hx2; subst b'.
    + rewrite list_lookup_inserts by lia. f_equal. f_equal. lia.
    + destruct (decide (x < addr)).
      * rewrite list_lookup_inserts_lt by lia. by erewrite regions_byte_lookup.
      * rewrite list_lookup_inserts_ge by lia. by erewrite regions_byte_lookup.
  - by rewrite decide_False by lia.
Qed.

Lemma vec_read_spec mem addr n buf :
  vec_wf mem ->
  vec_read_bytes mem addr n = Ok buf <->
  registered (region_range <$> vec_regions mem) addr (Z.of_nat n) /\
  buf = (regions_byte (vec_regions mem) <$> seqZ addr (Z.of_nat n)).
Proof.
  intros Hwf. rewrite locate_total. unfold vec_read_bytes.
  destruct (locate mem addr (Z.of_nat n)) as [[k off] | ] eqn:Hl; simpl; [ | naive_solver].
  apply locate_spec in Hl as (_ & r & Hr & H1 & H2 & Hoff). rewrite Hr.
  enough (take n (drop off (region_bytes r)) =
    (regions_byte (vec_regions mem) <$> seqZ addr (Z.of_nat n))) as ->
    by (split; [by intros [= <-] | by intros [_ ->]]).
  apply list_eq. intros i. rewrite list_lookup_fmap. destruct (decide (i < n)%nat).
  - rewrite lookup_take_lt by lia. rewrite lookup_drop.
    rewrite (proj2 (lookup_seqZ addr (Z.of_nat n) i (addr + Z.of_nat i))) by lia. simpl.
    unfold region_end in H2. erewrite regions_byte_lookup by (done || (unfold region_end; lia)).
    replace (Z.to_nat (addr + Z.of_nat i - region_start r)) with (off + i)%nat by lia.
    destruct (region_bytes r !! (off + i)%nat) eqn:E; [done | ].
    apply lookup_ge_None in E. lia.
  - rewrite lookup_take_ge, lookup_seqZ_ge by lia. done.
Qed.

Lemma vec_check_spec mem addr len :
  vec_check_range mem addr len = Ok tt <-> registered (region_range <$> vec_regions mem) addr len.
Proof. rewrite locate_total. unfold vec_check_range. by destruct (locate mem addr len). Qed.

Lemma vec_write_registered mem addr b :
  is_ok (vec_write_bytes mem addr b) = true <->
  registered (region_range <$> vec_regions mem) addr (Z.of_nat (length b)).
Proof. rewrite locate_total. unfold vec_write_bytes. by destruct (locate _ _ _). Qed.

Lemma vec_write_laws mem addr b mem' :
  vec_wf mem -> all_bytes b -> vec_write_bytes mem addr b = Ok mem' ->
  registered (region_range <$> vec_regions mem) addr (Z.of_nat (length b)) /\
  vec_wf mem' /\ region_range <$> vec_regions mem' = region_range <$> vec_regions mem /\
  forall x, regions_byte (vec_regions mem') x =
    (if decide (addr <= x < addr + Z.of_nat (length b))
     then default 0 (b !! Z.to_nat (x - addr)) else regions_byte (vec_regions mem) x).
Proof.
  intros Hwf Hb Hw. split; [ | by apply vec_write_spec].
  apply vec_write_registered. by rewrite Hw.
Qed.

#[export] Instance VecGuestMemory_laws : GuestMemoryLaws VecGuestMemory := {
  mem_wf := vec_wf;
  mem_regions mem := region_range <$> vec_regions mem;
  mem_byte mem := regions_byte (vec_regions mem);
  mem_byte_u8 mem addr := regions_byte_u8 0 (vec_regions mem) addr;
  check_range_spec mem addr len _ := vec_check_spec mem addr len;
  read_bytes_spec := vec_read_spec;
  write_bytes_total mem addr b _ := proj2 (vec_write_registered mem addr b);
  write_bytes_spec := vec_write_laws;
}.

(** A successful write of bytes. *)
Definition vec_writes (mem mem' : VecGuestMemory) : Prop :=
  exists addr b, all_bytes b /\ vec_write_bytes mem addr b = Ok mem'.

Lemma vec_writes_kept mem mem' :
  rtc vec_writes mem mem' -> vec_wf mem ->
  vec_wf mem' /\ region_range <$> vec_regions mem' = region_range <$> vec_regions mem.
Proof.
  induction 1 as [ | m1 m2 m3 (addr & b & Hb & Hw) _ IH]; intros Hwf; [done | ].
  destruct (vec_write_spec _ _ _ _ Hwf Hb Hw) as (H2 & Hr & _). destruct (IH H2) as [H3 Hr3]. by rewrite Hr3, Hr.
Qed.

(** The heap-backed memory keeps the promise of the interface, for any layout [new]
    accepts and after any sequence of writes: accesses succeed exactly on ranges inside
    one region of that layout, a read returns the bytes at those addresses, a write
    changes exactly the addressed bytes. *)
Theorem vec_memory_refines layout mem0 mem addr b :
  Forall (fun p : Z * Z => 0 <= p.1 /\ 0 <= p.2) layout -> vec_new layout = Ok mem0 ->
  rtc vec_writes mem0 mem -> all_bytes b ->
  (vec_check_range mem addr (Z.of_nat (length b)) = Ok tt <->
     registered layout addr (Z.of_nat (length b))) /\
  (forall buf, vec_read_bytes mem addr (length b) = Ok buf <->
     registered layout addr (Z.of_nat (length b)) /\
     buf = (regions_byte (vec_regions mem) <$> seqZ addr (Z.of_nat (length b)))) /\
  match vec_write_bytes mem addr b with
  | Ok mem' =>
      vec_read_bytes mem' addr (length b) = Ok b /\
      forall x, ~ addr <= x < addr + Z.of_nat (length b) ->
        regions_byte (vec_regions mem') x = regions_byte (vec_regions mem) x
  | Err _ => ~ registered layout addr (Z.of_nat (length b))
  end.
Proof.
  intros Hl Hnew Hrun Hb. destruct (vec_new_ok layout mem0 Hl Hnew) as [Hwf0 Hr0].
  destruct (vec_writes_kept _ _ Hrun Hwf0) as [Hwf Hr]. rewrite <- Hr0, <- Hr. split_and!.
  - apply vec_check_spec.
  - intros buf. by apply vec_read_spec.
  - destruct (vec_write_bytes mem addr b) as [mem' | e] eqn:Hw.
    + destruct (vec_write_spec _ _ _ _ Hwf Hb Hw) as (HA & HB & HC). split.
      * exact (read_bytes_written mem addr b mem' Hwf Hb Hw).
      * intros x Hx. by rewrite HC, decide_False.
    + rewrite <- vec_write_registered, Hw. done.
Qed.

Definition sample_layout : list (Z * Z) := [(16, 4); (32, 2)].

Definition sample_memory : VecGuestMemory :=
  mkVecGuestMemory [mkRegion 16 [0; 7; 6; 0]; mkRegion 32 [0; 0]].

Lemma vec_memory_refines_witness :
  vec_read_bytes sample_memory 17 2 = Ok [7; 6] /\
  match vec_write_bytes sample_memory 17 [8; 9] with
  | Ok mem' => vec_read_bytes mem' 17 2 = Ok [8; 9]
  | Err _ => False
  end.
Proof.
  destruct (vec_memory_refines sample_layout (mkVecGuestMemory [mkRegion 16 [0; 0; 0; 0]; mkRegion 32 [0; 0]])
    sample_memory 17 [8; 9]) as (_ & Hr & Hw).
  - by repeat constructor.
  - reflexivity.
  - apply rtc_once. exists 17, [7; 6]. split; [by repeat constructor; unfold is_uint | by vm_compute].
  - by repeat constructor; unfold is_uint.
  - split; [by vm_compute | ]. simpl in *. apply Hw.
Defined.
