(* ===== verification/QueueChain.v ===== *)
(** Walking one split-virtqueue descriptor chain
    ([crates/soma-kvm/src/virtio/queue/chain.rs]): the descriptor codec, the bounded
    walk over a hostile table, and a declarative description of the chains it
    accepts. *)

From S2P Require Import Prelude Bytes GuestMemory.
From stdpp Require Import options.

Definition VIRTQ_DESC_F_NEXT : Z := 1.
Definition VIRTQ_DESC_F_WRITE : Z := 2.
Definition VIRTQ_DESC_F_INDIRECT : Z := 4.
Definition DESCRIPTOR_SIZE : Z := 16.
Definition MAX_QUEUE_SIZE : Z := 32768.

Definition KNOWN_FLAGS : Z :=
  Z.lor (Z.lor VIRTQ_DESC_F_NEXT VIRTQ_DESC_F_WRITE) VIRTQ_DESC_F_INDIRECT.

Record Descriptor : Type := mkDescriptor {
  desc_addr : Z;
  desc_len : Z;
  desc_flags : Z;
  desc_next : Z
}.

#[export] Instance Descriptor_eq_dec : EqDecision Descriptor.
Proof. solve_decision. Defined.

Definition descriptor_to_bytes (d : Descriptor) : bytes :=
  le_bytes 8 (desc_addr d) ++ le_bytes 4 (desc_len d) ++ le_bytes 2 (desc_flags d) ++
  le_bytes 2 (desc_next d).

Definition descriptor_from_bytes (raw : bytes) : Descriptor :=
  mkDescriptor (le_val (take 8 raw)) (le_val (take 4 (drop 8 raw)))
    (le_val (take 2 (drop 12 raw))) (le_val (take 2 (drop 14 raw))).

Record ChainSegment : Type := mkChainSegment {
  segment_addr : GuestAddress;
  segment_len : Z;
  segment_writable : bool
}.

Record DescriptorChain : Type := mkDescriptorChain {
  chain_head : Z;
  chain_segments : list ChainSegment;
  chain_readable_len : Z;
  chain_writable_len : Z
}.

#[export] Instance ChainSegment_eq_dec : EqDecision ChainSegment.
Proof. solve_decision. Defined.
#[export] Instance DescriptorChain_eq_dec : EqDecision DescriptorChain.
Proof. solve_decision. Defined.

Definition chain_readable (c : DescriptorChain) : list ChainSegment :=
  filter (fun s => segment_writable s = false) (chain_segments c).
Definition chain_writable (c : DescriptorChain) : list ChainSegment :=
  filter (fun s => segment_writable s = true) (chain_segments c).

Record ChainLimits : Type := mkChainLimits {
  max_descriptors : Z;
  max_bytes : Z
}.

Inductive ChainViolation : Type :=
| ChainViolation_InvalidQueueSize (size : Z)
| ChainViolation_IndexOutOfRange (index size : Z)
| ChainViolation_DescriptorUnreadable (index : Z)
| ChainViolation_RepeatedIndex (index : Z)
| ChainViolation_TooLong (limit : Z)
| ChainViolation_Indirect (index : Z)
| ChainViolation_UnknownFlags (index : Z)
| ChainViolation_ZeroLength (index : Z)
| ChainViolation_AddressOverflow (index : Z)
| ChainViolation_OutOfRegion (index : Z)
| ChainViolation_ReadableAfterWritable (index : Z)
| ChainViolation_BytesExceeded (limit : Z).

#[export] Instance ChainViolation_eq_dec : EqDecision ChainViolation.
Proof. solve_decision. Defined.

Definition flag_set (flags mask : Z) : bool := negb (Z.land flags mask =? 0).

Section walk.
Context {M : Type} `{GuestMemory M}.

Definition read_descriptor (mem : M) (table : GuestAddress) (index : Z)
    : Result Descriptor ChainViolation :=
  let unreadable := ChainViolation_DescriptorUnreadable index in
  let? addr := ok_or unreadable (addr_checked_add table (index * DESCRIPTOR_SIZE)) in
  let? raw := map_err (fun _ => unreadable) (read_bytes mem addr 16) in
  Ok (descriptor_from_bytes raw).

(** The variables the loop carries from one descriptor to the next. *)
Record WalkState : Type := mkWalkState {
  walk_visited : list Z;
  walk_segments : list ChainSegment;
  walk_readable_len : Z;
  walk_writable_len : Z
}.

(** The checks of one iteration once the descriptor is read: the segment and the
    lengths, or the violation. *)
Definition admit_descriptor (mem : M) (limits : ChainLimits) (index : Z) (d : Descriptor)
    (readable_len writable_len : Z) : Result (ChainSegment * Z * Z) ChainViolation :=
  if flag_set (desc_flags d) VIRTQ_DESC_F_INDIRECT then Err (ChainViolation_Indirect index)
  else if flag_set (desc_flags d) (lnot_w 16 KNOWN_FLAGS) then Err (ChainViolation_UnknownFlags index)
  else if desc_len d =? 0 then Err (ChainViolation_ZeroLength index)
  else match addr_checked_add (desc_addr d) (desc_len d) with
  | None => Err (ChainViolation_AddressOverflow index)
  | Some _ =>
      if negb (is_ok (check_range mem (desc_addr d) (desc_len d)))
      then Err (ChainViolation_OutOfRegion index)
      else
        let writable := flag_set (desc_flags d) VIRTQ_DESC_F_WRITE in
        if negb writable && (0 <? writable_len)
        then Err (ChainViolation_ReadableAfterWritable index)
        else
          let '(readable_len, writable_len, total) :=
            if writable then
              let writable_len := saturating_add U64_MAX writable_len (desc_len d) in
              (readable_len, writable_len, saturating_add U64_MAX readable_len writable_len)
            else
              let readable_len := saturating_add U64_MAX readable_len (desc_len d) in
              (readable_len, writable_len, readable_len) in
          if total >? max_bytes limits then Err (ChainViolation_BytesExceeded (max_bytes limits))
          else Ok (mkChainSegment (desc_addr d) (desc_len d) writable, readable_len, writable_len)
  end.

(** The loop, with the iterations it may still take; [None] is an iteration too many
    or an index outside the bitmap, which would panic. *)
Fixpoint walk_loop (fuel : nat) (mem : M) (table : GuestAddress) (queue_size limit : Z)
    (limits : ChainLimits) (head index : Z) (s : WalkState)
    : option (Result DescriptorChain ChainViolation) :=
  match fuel with
  | O => None
  | S fuel =>
      if index >=? queue_size then Some (Err (ChainViolation_IndexOutOfRange index queue_size))
      else
        let word := Z.to_nat (index / 64) in
        let bit := index mod 64 in
        match walk_visited s !! word with
        | None => None
        | Some w =>
            if negb (Z.land w (Z.shiftl 1 bit) =? 0)
            then Some (Err (ChainViolation_RepeatedIndex index))
            else
              let visited := <[word := Z.lor w (Z.shiftl 1 bit)]> (walk_visited s) in
              if Z.of_nat (length (walk_segments s)) >=? limit
              then Some (Err (ChainViolation_TooLong limit))
              else match read_descriptor mem table index with
              | Err e => Some (Err e)
              | Ok d =>
                  match admit_descriptor mem limits index d (walk_readable_len s) (walk_writable_len s) with
                  | Err e => Some (Err e)
                  | Ok (segment, readable_len, writable_len) =>
                      let segments := walk_segments s ++ [segment] in
                      if flag_set (desc_flags d) VIRTQ_DESC_F_NEXT then
                        walk_loop fuel mem table queue_size limit limits head (desc_next d)
                          (mkWalkState visited segments readable_len writable_len)
                      else Some (Ok (mkDescriptorChain head segments readable_len writable_len))
                  end
              end
        end
  end.

(** [usize::div_ceil(64)] *)
Definition bitmap_words (queue_size : Z) : nat := Z.to_nat ((queue_size + 63) / 64).

Definition walk_chain (mem : M) (table : GuestAddress) (queue_size head : Z) (limits : ChainLimits)
    : option (Result DescriptorChain ChainViolation) :=
  if (queue_size =? 0) || (queue_size >? MAX_QUEUE_SIZE) || negb (is_power_of_two queue_size)
  then Some (Err (ChainViolation_InvalidQueueSize queue_size))
  else
    walk_loop (S (Z.to_nat queue_size)) mem table queue_size (Z.min (max_descriptors limits) queue_size)
      limits head head (mkWalkState (replicate (bitmap_words queue_size) 0) [] 0 0).
End walk.

(** * The codec *)

Definition wf_descriptor (d : Descriptor) : Prop :=
  is_u64 (desc_addr d) /\ is_u32 (desc_len d) /\ is_u16 (desc_flags d) /\ is_u16 (desc_next d).

Lemma descriptor_codec d : wf_descriptor d -> descriptor_from_bytes (descriptor_to_bytes d) = d.
Proof.
  destruct d as [a l f n]. intros (Ha & Hl & Hf & Hn). unfold descriptor_from_bytes. f_equal.
  - exact (le_val_bytes 8 a Ha).
  - exact (le_val_bytes 4 l Hl).
  - exact (le_val_bytes 2 f Hf).
  - exact (le_val_bytes 2 n Hn).
Qed.

Lemma descriptor_from_bytes_wf raw :
  all_bytes raw -> length raw = 16%nat -> wf_descriptor (descriptor_from_bytes raw).
Proof.
  intros Hb Hl.
  assert (Hf : forall i n, (i + n <= 16)%nat ->
    is_uint (8 * Z.of_nat n) (le_val (take n (drop i raw)))).
  { intros i n Hin. assert (Hln : length (take n (drop i raw)) = n)
      by (rewrite length_take, length_drop; lia).
    rewrite <- Hln at 1. by apply le_val_range, Forall_take, Forall_drop. }
  unfold wf_descriptor, descriptor_from_bytes; simpl. split_and!.
  - exact (Hf 0%nat 8%nat ltac:(lia)).
  - exact (Hf 8%nat 4%nat ltac:(lia)).
  - exact (Hf 12%nat 2%nat ltac:(lia)).
  - exact (Hf 14%nat 2%nat ltac:(lia)).
Qed.

(** * Bits *)

Lemma land_shiftl_testbit w bit :
  0 <= bit -> (Z.land w (Z.shiftl 1 bit) =? 0) = negb (Z.testbit w bit).
Proof.
  intros Hb. destruct (Z.testbit w bit) eqn:E; simpl.
  - apply Z.eqb_neq. intros H0. apply (f_equal (fun z => Z.testbit z bit)) in H0.
    rewrite Z.land_spec, Z.bits_0, E, Z.shiftl_spec, Z.sub_diag in H0 by lia. done.
  - apply Z.eqb_eq, Z.bits_inj'. intros n Hn. rewrite Z.land_spec, Z.bits_0, Z.shiftl_spec by lia.
    destruct (decide (n = bit)) as [-> | ]; [by rewrite E | ].
    destruct (decide (n < bit)); [rewrite (Z.testbit_neg_r 1) by lia; apply andb_false_r | ].
    destruct (n - bit) eqn:Hd; try lia. by rewrite andb_false_r.
Qed.

Lemma testbit_set w bit n :
  0 <= bit -> 0 <= n ->
  Z.testbit (Z.lor w (Z.shiftl 1 bit)) n = Z.testbit w n || (n =? bit).
Proof.
  intros Hb Hn. rewrite Z.lor_spec, Z.shiftl_spec by lia. f_equal.
  destruct (Z.eqb_spec n bit) as [-> | ]; [by rewrite Z.sub_diag | ].
  destruct (decide (n < bit)); [by rewrite Z.testbit_neg_r by lia | ].
  by destruct (n - bit) eqn:Hd; try lia.
Qed.

(** The bitmap holds exactly the indices of [path]. *)
Definition bitmap_ok (queue_size : Z) (visited : list Z) (path : list Z) : Prop :=
  length visited = bitmap_words queue_size /\
  forall i, 0 <= i < queue_size ->
    exists w, visited !! Z.to_nat (i / 64) = Some w /\
              (Z.testbit w (i mod 64) = true <-> i ∈ path).

Lemma bitmap_ok_empty queue_size :
  bitmap_ok queue_size (replicate (bitmap_words queue_size) 0) [].
Proof.
  split; [by rewrite length_replicate | ]. intros i Hi. exists 0. split.
  - apply lookup_replicate. split; [done | ]. unfold bitmap_words.
    apply Z2Nat.inj_lt; [apply Z.div_pos; lia.. | ].
    apply Z.div_lt_upper_bound; [lia | ].
    pose proof (Z.div_mod (queue_size + 63) 64). pose proof (Z.mod_pos_bound (queue_size + 63) 64). lia.
  - rewrite Z.bits_0, elem_of_nil. done.
Qed.

Lemma bitmap_ok_insert queue_size visited path index w :
  bitmap_ok queue_size visited path -> 0 <= index < queue_size ->
  visited !! Z.to_nat (index / 64) = Some w ->
  bitmap_ok queue_size
    (<[Z.to_nat (index / 64) := Z.lor w (Z.shiftl 1 (index mod 64))]> visited) (path ++ [index]).
Proof.
  intros [Hl Hb] Hi Hw. split; [by rewrite length_insert | ]. intros i Hi'.
  destruct (Hb i Hi') as (v & Hv & Hiff).
  pose proof (Z.mod_pos_bound i 64). pose proof (Z.mod_pos_bound index 64).
  pose proof (Z.div_mod i 64). pose proof (Z.div_mod index 64).
  pose proof (Z.div_pos i 64). pose proof (Z.div_pos index 64).
  assert (Hin : i ∈ path ++ [index] <-> i ∈ path \/ i = index) by set_solver.
  destruct (decide (i / 64 = index / 64)) as [Heq | Hne].
  - rewrite Heq in *. simplify_eq. exists (Z.lor w (Z.shiftl 1 (index mod 64))).
    rewrite list_lookup_insert_eq by (by eapply lookup_lt_Some). split; [done | ].
    rewrite Hin, testbit_set, orb_true_iff, Hiff, Z.eqb_eq by lia.
    assert (i mod 64 = index mod 64 <-> i = index) by lia. tauto.
  - exists v. rewrite list_lookup_insert_ne by lia. split; [done | ]. rewrite Hin, Hiff.
    assert (i <> index) by congruence. tauto.
Qed.

(** * The chains the walk accepts *)

Definition desc_writable (d : Descriptor) : bool := flag_set (desc_flags d) VIRTQ_DESC_F_WRITE.
Definition desc_has_next (d : Descriptor) : bool := flag_set (desc_flags d) VIRTQ_DESC_F_NEXT.

(** A chain is the list of the table entries it goes through. *)
Abbreviation entry := (Z * Descriptor)%type.
Definition entry_writable (x : entry) : Prop := desc_writable x.2 = true.
Definition entry_readable (x : entry) : Prop := desc_writable x.2 = false.

Definition segment_of (d : Descriptor) : ChainSegment :=
  mkChainSegment (desc_addr d) (desc_len d) (desc_writable d).

Definition readable_total (p : list entry) : Z :=
  foldr (fun x n => (if desc_writable x.2 then 0 else desc_len x.2) + n) 0 p.
Definition writable_total (p : list entry) : Z :=
  foldr (fun x n => (if desc_writable x.2 then desc_len x.2 else 0) + n) 0 p.

Definition chain_of (head : Z) (p : list entry) : DescriptorChain :=
  mkDescriptorChain head ((fun x => segment_of x.2) <$> p) (readable_total p) (writable_total p).

(** Once an entry is writable, so is the rest. *)
Fixpoint readable_first (p : list entry) : Prop :=
  match p with
  | [] => True
  | x :: p => if desc_writable x.2 then Forall entry_writable p else readable_first p
  end.

Section spec.
Context {M : Type} `{GuestMemoryLaws M}.

(** Following [next] from an index of the table until a descriptor without it. *)
Inductive links (mem : M) (table : Z) : Z -> list entry -> Prop :=
| links_last index d :
    read_descriptor mem table index = Ok d -> desc_has_next d = false ->
    links mem table index [(index, d)]
| links_next index d rest :
    read_descriptor mem table index = Ok d -> desc_has_next d = true ->
    links mem table (desc_next d) rest -> links mem table index ((index, d) :: rest).

Definition desc_ok (mem : M) (d : Descriptor) : Prop :=
  flag_set (desc_flags d) VIRTQ_DESC_F_INDIRECT = false /\
  flag_set (desc_flags d) (lnot_w 16 KNOWN_FLAGS) = false /\
  0 < desc_len d /\ registered (mem_regions mem) (desc_addr d) (desc_len d).

Definition path_ok (mem : M) (queue_size : Z) (limits : ChainLimits) (p : list entry) : Prop :=
  Forall (fun x : entry => 0 <= x.1 < queue_size /\ wf_descriptor x.2 /\ desc_ok mem x.2) p /\
  NoDup p.*1 /\
  Z.of_nat (length p) <= Z.min (max_descriptors limits) queue_size /\
  readable_first p /\
  readable_total p + writable_total p <= max_bytes limits.

Definition wf_limits (limits : ChainLimits) : Prop :=
  is_u16 (max_descriptors limits) /\ is_u64 (max_bytes limits).

Lemma totals_app p q :
  readable_total (p ++ q) = readable_total p + readable_total q /\
  writable_total (p ++ q) = writable_total p + writable_total q.
Proof. induction p as [ | x p IH]; simpl; [lia | ]. destruct IH as [-> ->]. lia. Qed.

Lemma totals_bounds p :
  Forall (fun x : entry => 0 < desc_len x.2 < 2 ^ 32) p ->
  0 <= readable_total p /\ 0 <= writable_total p /\
  readable_total p + writable_total p <= Z.of_nat (length p) * (2 ^ 32 - 1) /\
  (writable_total p = 0 <-> Forall entry_readable p).
Proof.
  induction 1 as [ | x p Hx Hp IH]; cbn [readable_total writable_total foldr length].
  { split_and!; try lia. split; [constructor | done]. }
  destruct IH as (H1 & H2 & H3 & H4). rewrite Forall_cons, <- H4.
  unfold entry_readable, readable_total, writable_total in *.
  destruct (desc_writable x.2); split_and!; try lia.
Qed.

Lemma readable_first_snoc p x :
  readable_first (p ++ [x]) <-> readable_first p /\ (entry_writable x \/ Forall entry_readable p).
Proof.
  induction p as [ | y p IH]; simpl.
  - destruct (desc_writable x.2); split; try done; intros _; split; try done; right; constructor.
  - unfold entry_readable. rewrite Forall_cons. destruct (desc_writable y.2) eqn:E.
    + rewrite Forall_app, Forall_singleton. naive_solver.
    + rewrite IH. naive_solver.
Qed.

Context (mem : M) (table queue_size : Z) (limits : ChainLimits).
Context (Hwf : mem_wf mem) (Hqs : 0 < queue_size <= MAX_QUEUE_SIZE) (Hlim : wf_limits limits).

Lemma path_ok_nil : path_ok mem queue_size limits [].
Proof using Type Hqs Hlim.
  destruct Hlim as [[? _] [? _]]. repeat split; try constructor; simpl; lia.
Qed.

Lemma path_ok_snoc p x :
  path_ok mem queue_size limits (p ++ [x]) <->
  path_ok mem queue_size limits p /\
  (0 <= x.1 < queue_size /\ wf_descriptor x.2 /\ desc_ok mem x.2) /\ x.1 ∉ p.*1 /\
  Z.of_nat (length p) < Z.min (max_descriptors limits) queue_size /\
  (entry_writable x \/ Forall entry_readable p) /\
  readable_total p + writable_total p + desc_len x.2 <= max_bytes limits.
Proof using Type Hqs.
  unfold path_ok. rewrite Forall_app, Forall_singleton, fmap_app, NoDup_app, length_app,
    readable_first_snoc.
  destruct (totals_app p [x]) as [-> ->]. simpl length.
  assert (Hl : readable_total [x] + writable_total [x] = desc_len x.2)
    by (unfold readable_total, writable_total; simpl; case_match; lia).
  assert (Hd : (NoDup p.*1 /\ (forall i, i ∈ p.*1 -> i ∉ [x].*1) /\ NoDup [x].*1) <->
               NoDup p.*1 /\ x.1 ∉ p.*1).
  { split; [intros (? & Hx & _) | intros [? Hx]].
    - split; [done | ]. intros Hin. apply (Hx _ Hin). simpl. by constructor.
    - split_and!; [done | | simpl; apply NoDup_singleton].
      intros i Hi Hi2. simpl in Hi2. apply list_elem_of_singleton in Hi2 as ->. done. }
  rewrite Hd. split.
  - intros ((HF & Hx) & (Hn & Hni) & Hlen & (Hrf & Hw) & Ht). 
    destruct Hx as (Hi & Hwd & Hok). pose proof Hok as (_ & _ & Hpos & _).
    split_and!; try done; lia.
  - intros ((HF & Hn & Hlen & Hrf & Ht) & Hx & Hni & Hlt & Hw & Ht'). split_and!; try done; try lia; tauto.
Qed.

Lemma path_ok_prefix p q : path_ok mem queue_size limits (p ++ q) -> path_ok mem queue_size limits p.
Proof using Type Hqs.
  induction q as [ | x q IH] using rev_ind; [by rewrite app_nil_r | ].
  rewrite app_assoc, path_ok_snoc. intros [Hp _]. by apply IH.
Qed.

(** Distinct indices of the table are at most as many as its entries. *)
Lemma path_ok_length p : path_ok mem queue_size limits p -> (length p <= Z.to_nat queue_size)%nat.
Proof using Type Hqs. intros (_ & _ & Hl & _). lia. Qed.

Lemma links_inv index rest :
  links mem table index rest ->
  exists d rest', read_descriptor mem table index = Ok d /\ rest = (index, d) :: rest' /\
    (if desc_has_next d then links mem table (desc_next d) rest' else rest' = []).
Proof. intros Hl. destruct Hl as [? d ? E | ? d r ? E ?]; eexists d, _; by rewrite E. Qed.

Lemma read_descriptor_wf index d : read_descriptor mem table index = Ok d -> wf_descriptor d.
Proof using Type Hwf.
  unfold read_descriptor. destruct (addr_checked_add _ _) as [a | ]; simpl; [ | done].
  destruct (read_bytes mem a 16) as [raw | ] eqn:E; simpl; [ | done]. intros [= <-].
  destruct (read_bytes_ok _ _ _ _ Hwf E). by apply descriptor_from_bytes_wf.
Qed.

Lemma path_ok_totals p :
  path_ok mem queue_size limits p ->
  0 <= readable_total p /\ 0 <= writable_total p /\
  readable_total p + writable_total p <= 32768 * (2 ^ 32 - 1) /\
  (writable_total p = 0 <-> Forall entry_readable p).
Proof using Type Hqs.
  intros (HF & _ & Hlen & _).
  destruct (totals_bounds p) as (H1 & H2 & H3 & H4).
  { eapply Forall_impl; [exact HF | ]. intros x (_ & (_ & Hl & _) & (_ & _ & Hp & _)).
    unfold is_uint in Hl. lia. }
  split_and!; try done. unfold MAX_QUEUE_SIZE in *. nia.
Qed.

(** One iteration's checks are what extending the path requires. *)
Lemma admit_descriptor_spec p index d r :
  path_ok mem queue_size limits p -> wf_descriptor d ->
  admit_descriptor mem limits index d (readable_total p) (writable_total p) = Ok r <->
  r = (segment_of d, readable_total (p ++ [(index, d)]), writable_total (p ++ [(index, d)])) /\
  desc_ok mem d /\ (entry_writable (index, d) \/ Forall entry_readable p) /\
  readable_total p + writable_total p + desc_len d <= max_bytes limits.
Proof using Type Hwf Hqs.
  intros Hp (_ & [Hl0 Hl] & _). pose proof (path_ok_totals p Hp) as (Hr & Hw & Hs & Hz).
  destruct (totals_app p [(index, d)]) as [-> ->].
  unfold admit_descriptor, desc_ok, entry_writable, segment_of.
  change (readable_total [(index, d)]) with ((if desc_writable d then 0 else desc_len d) + 0).
  change (writable_total [(index, d)]) with ((if desc_writable d then desc_len d else 0) + 0).
  fold (desc_writable d).
  destruct (flag_set _ VIRTQ_DESC_F_INDIRECT); [naive_solver | ].
  destruct (flag_set _ (lnot_w _ _)); [naive_solver | ].
  destruct (Z.eqb_spec (desc_len d) 0); [split; [done | ]; intros (_ & (_ & _ & ? & _) & _); lia | ].
  unfold addr_checked_add, checked_add_u64.
  destruct (Z.leb_spec (desc_addr d + desc_len d) U64_MAX).
  2: { split; [done | ]. intros (_ & (_ & _ & _ & [Hov _]) & _). lia. }
  pose proof (check_range_spec mem (desc_addr d) (desc_len d) Hwf) as Hc.
  destruct (check_range mem (desc_addr d) (desc_len d)) as [[] | e]; simpl.
  2: { split; [done | ]. intros (_ & (_ & _ & _ & Hreg) & _). apply Hc in Hreg. done. }
  assert (Hreg : registered (mem_regions mem) (desc_addr d) (desc_len d)) by (by apply Hc).
  assert (Hsat : forall x y, x + y <= 2 ^ 60 -> saturating_add U64_MAX x y = x + y)
    by (intros; unfold saturating_add, U64_MAX; lia).
  cbv zeta. destruct (desc_writable d) eqn:E; cbn [negb andb].
  - rewrite (Hsat (writable_total p)), Hsat, !Z.add_0_r by lia.
    destruct (Z.gtb_spec (readable_total p + (writable_total p + desc_len d)) (max_bytes limits)).
    + split; [done | ]. intros (_ & _ & _ & ?). lia.
    + split; [intros [= <-] | intros [-> _]; done]. split_and!; try done; [lia | by left | lia].
  - destruct (Z.ltb_spec 0 (writable_total p)).
    { split; [done | ]. intros (_ & _ & [? | Hf] & _); [done | ]. apply Hz in Hf. lia. }
    rewrite Hsat, !Z.add_0_r by lia.
    destruct (Z.gtb_spec (readable_total p + desc_len d) (max_bytes limits)).
    + split; [done | ]. intros (_ & _ & _ & ?). lia.
    + split; [intros [= <-] | intros [-> _]; done].
      split_and!; try done; [lia | right; apply Hz; lia | lia].
Qed.

Context (head : Z).

Definition state_of (visited : list Z) (p : list entry) : WalkState :=
  mkWalkState visited ((fun x => segment_of x.2) <$> p) (readable_total p) (writable_total p).

(** The chains found from [index] on after the entries [p]. *)
Definition completes (p : list entry) (index : Z) (chain : DescriptorChain) : Prop :=
  exists rest, links mem table index rest /\ path_ok mem queue_size limits (p ++ rest) /\
    chain = chain_of head (p ++ rest).

(** Every completion goes through the descriptor at [index]. *)
Lemma completes_step p index chain :
  completes p index chain ->
  exists d, read_descriptor mem table index = Ok d /\
    path_ok mem queue_size limits (p ++ [(index, d)]) /\
    (if desc_has_next d then completes (p ++ [(index, d)]) (desc_next d) chain
     else chain = chain_of head (p ++ [(index, d)])).
Proof using Type Hqs.
  intros (rest & Hl & Hp & ->). destruct (links_inv _ _ Hl) as (d & rest' & Hd & -> & Hn).
  exists d. change ((index, d) :: rest') with ([(index, d)] ++ rest') in Hp |- *.
  rewrite app_assoc in Hp |- *. split_and!; [done | by eapply path_ok_prefix | ].
  destruct (desc_has_next d); [by exists rest' | ]. subst. by rewrite app_nil_r.
Qed.

Lemma completes_intro p index d chain :
  read_descriptor mem table index = Ok d -> path_ok mem queue_size limits (p ++ [(index, d)]) ->
  (if desc_has_next d then completes (p ++ [(index, d)]) (desc_next d) chain
   else chain = chain_of head (p ++ [(index, d)])) ->
  completes p index chain.
Proof.
  intros Hd Hp Hn. destruct (desc_has_next d) eqn:E.
  - destruct Hn as (rest & Hl & Hp' & ->). exists ((index, d) :: rest).
    rewrite <- app_assoc in Hp' |- *. split_and!; try done. by constructor.
  - subst. exists [(index, d)]. split_and!; try done. by constructor.
Qed.

(** A violation is right when the path cannot be extended. *)
Lemma no_completion p index (e : ChainViolation) :
  (forall d, read_descriptor mem table index = Ok d ->
     ~ path_ok mem queue_size limits (p ++ [(index, d)])) ->
  exists r, Some (Err e) = Some r /\ forall chain, r = Ok chain <-> completes p index chain.
Proof using Type Hqs.
  intros Hno. eexists. split; [done | ]. intros chain. split; [done | ].
  intros (d & Hd & Hp & _)%completes_step. by destruct (Hno d Hd).
Qed.

Lemma walk_loop_spec fuel visited p index :
  0 <= index -> path_ok mem queue_size limits p -> bitmap_ok queue_size visited p.*1 ->
  (Z.to_nat queue_size < fuel + length p)%nat ->
  exists r, walk_loop fuel mem table queue_size (Z.min (max_descriptors limits) queue_size) limits
              head index (state_of visited p) = Some r /\
    forall chain, r = Ok chain <-> completes p index chain.
Proof using Type Hwf Hqs.
  revert visited p index. induction fuel as [ | fuel IH]; intros visited p index Hi Hp Hb Hf.
  { apply path_ok_length in Hp. lia. }
  cbn [walk_loop state_of walk_visited walk_segments walk_readable_len walk_writable_len].
  destruct (Z.geb_spec index queue_size).
  { apply no_completion. intros d _ (_ & [Hx _] & _)%path_ok_snoc. simpl in Hx. lia. }
  destruct Hb as [Hbl Hbm] eqn:HB. destruct (Hbm index ltac:(lia)) as (w & Hw & Hiff). rewrite Hw.
  rewrite land_shiftl_testbit, negb_involutive by (apply Z.mod_pos_bound; lia).
  destruct (Z.testbit w (index mod 64)) eqn:Hbit.
  { apply no_completion. intros d _ (_ & _ & Hni & _)%path_ok_snoc. by apply Hni, Hiff. }
  rewrite length_fmap.
  destruct (Z.geb_spec (Z.of_nat (length p)) (Z.min (max_descriptors limits) queue_size)).
  { apply no_completion. intros d _ (_ & _ & _ & Hlt & _)%path_ok_snoc. lia. }
  destruct (read_descriptor mem table index) as [d | e] eqn:Hd;
    [ | by apply no_completion; intros d Hd'; congruence].
  pose proof (read_descriptor_wf _ _ Hd) as Hwd.
  pose proof (fun r => admit_descriptor_spec p index d r Hp Hwd) as Had.
  destruct (admit_descriptor mem limits index d _ _) as [[[seg rl] wl] | e].
  2: { apply no_completion. intros d' Hd' (_ & Hx & _ & _ & Hwr & Ht)%path_ok_snoc.
    rewrite Hd in Hd'. injection Hd' as <-.
    destruct Hx as (_ & _ & Hx).
    specialize (proj2 (Had _) (conj eq_refl (conj Hx (conj Hwr Ht)))). done. }
  destruct (proj1 (Had _) eq_refl) as ([= -> -> ->] & Hdok & Hwr & Ht).
  assert (Hp' : path_ok mem queue_size limits (p ++ [(index, d)])).
  { apply path_ok_snoc. split_and!; try done; simpl; try lia. intros Hin. apply Hiff in Hin. congruence. }
  assert (Hseg : ((fun x : entry => segment_of x.2) <$> p) ++ [segment_of d] =
    ((fun x : entry => segment_of x.2) <$> p ++ [(index, d)])) by (by rewrite fmap_app).
  rewrite Hseg. change (flag_set (desc_flags d) VIRTQ_DESC_F_NEXT) with (desc_has_next d).
  destruct (desc_has_next d) eqn:Hnext.
  - destruct (IH (<[Z.to_nat (index / 64) := Z.lor w (Z.shiftl 1 (index mod 64))]> visited)
      (p ++ [(index, d)]) (desc_next d)) as (r & Hr & Hc); [ | done | | | ].
    + by destruct Hwd as (_ & _ & _ & ? & _).
    + rewrite fmap_app. by apply bitmap_ok_insert; [ | lia | ].
    + rewrite length_app. simpl. lia.
    + exists r. split; [done | ]. intros chain. rewrite Hc. split.
      * intros Hcomp. eapply completes_intro; [done | done | ]. by rewrite Hnext.
      * intros (d' & Hd' & _ & Hc')%completes_step. rewrite Hd in Hd'. injection Hd' as <-. by rewrite Hnext in Hc'.
  - eexists. split; [done | ]. intros chain. split.
    + intros [= <-]. eapply completes_intro; [done | done | ]. by rewrite Hnext.
    + intros (d' & Hd' & _ & Hc')%completes_step. rewrite Hd in Hd'. injection Hd' as <-. rewrite Hnext in Hc'. by subst.
Qed.
End spec.

Definition segment_total (l : list ChainSegment) : Z := foldr (fun s n => segment_len s + n) 0 l.

(** What a device may rely on in a chain it is given. *)
Definition chain_safe {M} `{GuestMemoryLaws M} (mem : M) (queue_size : Z) (limits : ChainLimits)
    (c : DescriptorChain) : Prop :=
  chain_segments c <> [] /\
  Z.of_nat (length (chain_segments c)) <= Z.min (max_descriptors limits) queue_size /\
  Forall (fun s => 0 < segment_len s < 2 ^ 32 /\
            registered (mem_regions mem) (segment_addr s) (segment_len s)) (chain_segments c) /\
  chain_segments c = chain_readable c ++ chain_writable c /\
  chain_readable_len c = segment_total (chain_readable c) /\
  chain_writable_len c = segment_total (chain_writable c) /\
  chain_readable_len c + chain_writable_len c <= max_bytes limits.

Section sound.
Context {M : Type} `{GuestMemoryLaws M}.

Lemma chain_of_split head p :
  readable_first p ->
  chain_segments (chain_of head p) =
  chain_readable (chain_of head p) ++ chain_writable (chain_of head p).
Proof.
  unfold chain_readable, chain_writable; simpl. induction p as [ | x p IH]; intros Hp; [done | ].
  simpl in Hp. cbn [fmap list_fmap]. rewrite !filter_cons.
  change (segment_writable (segment_of x.2)) with (desc_writable x.2).
  destruct (desc_writable x.2) eqn:E.
  - rewrite decide_False, decide_True by done.
    assert (Hw : Forall (fun s => segment_writable s = true) ((fun x : entry => segment_of x.2) <$> p))
      by (by apply Forall_fmap).
    rewrite (filter_all (fun s => segment_writable s = true)) by done.
    replace (filter (fun s => segment_writable s = false) ((fun x : entry => segment_of x.2) <$> p))
      with (@nil ChainSegment); [done | ].
    symmetry. clear -Hw. induction Hw as [ | s l Hs Hl IHl]; [done | ].
    rewrite filter_cons, decide_False by congruence. done.
  - rewrite decide_True, decide_False by done. cbn [app]. f_equal. by apply IH.
Qed.

Lemma chain_of_totals head p :
  chain_readable_len (chain_of head p) = segment_total (chain_readable (chain_of head p)) /\
  chain_writable_len (chain_of head p) = segment_total (chain_writable (chain_of head p)).
Proof.
  unfold chain_readable, chain_writable; simpl.
  induction p as [ | x p [IH1 IH2]]; [done | ]. cbn [fmap list_fmap]. rewrite !filter_cons.
  change (segment_writable (segment_of x.2)) with (desc_writable x.2).
  unfold readable_total, writable_total in *; cbn [foldr]. rewrite IH1, IH2.
  destruct (desc_writable x.2).
  - rewrite decide_False, decide_True by done. simpl. lia.
  - rewrite decide_True, decide_False by done. simpl. lia.
Qed.

Lemma chain_of_safe (mem : M) queue_size limits head p :
  p <> [] -> path_ok mem queue_size limits p -> chain_safe mem queue_size limits (chain_of head p).
Proof.
  intros Hne (HF & _ & Hlen & Hrf & Ht). destruct (chain_of_totals head p) as [H1 H2].
  unfold chain_safe. split_and!; try done.
  - simpl. by destruct p.
  - simpl. by rewrite length_fmap.
  - simpl. apply Forall_fmap. eapply Forall_impl; [exact HF | ].
    intros x (_ & (_ & Hl & _) & (_ & _ & Hp & Hr)). simpl. unfold is_uint in Hl.
    split; [lia | done].
  - by apply chain_of_split.
Qed.

Lemma walk_chain_total (mem : M) table queue_size head limits :
  mem_wf mem -> is_u16 queue_size -> is_u16 head -> wf_limits limits ->
  exists r, walk_chain mem table queue_size head limits = Some r /\
    forall chain, r = Ok chain <->
      is_power_of_two queue_size = true /\ queue_size <= MAX_QUEUE_SIZE /\
      exists p, links mem table head p /\ path_ok mem queue_size limits p /\
        chain = chain_of head p.
Proof.
  intros Hwf Hq Hh Hlim. unfold walk_chain.
  destruct (_ || _) eqn:E.
  - eexists. split; [done | ]. intros chain. split; [done | ]. intros (Hp & Hm & _).
    rewrite Hp, orb_false_r in E. apply orb_true_iff in E as [E | E]; zbool; [ | lia].
    subst. by vm_compute in Hp.
  - zbool. unfold is_uint in *.
    destruct (walk_loop_spec mem table queue_size limits Hwf ltac:(lia) head
      (S (Z.to_nat queue_size)) (replicate (bitmap_words queue_size) 0) [] head) as (r & Hr & Hc).
    + lia.
    + by apply path_ok_nil; [lia | ].
    + apply bitmap_ok_empty.
    + simpl. lia.
    + exists r. split; [exact Hr | ]. intros chain. rewrite Hc. unfold completes; simpl.
      split; [intros (p & ?); split_and!; [done | lia | by exists p] | intros (_ & _ & p & ?); by exists p].
Qed.

Lemma walk_chain_safe (mem : M) table queue_size head limits chain :
  mem_wf mem -> is_u16 queue_size -> is_u16 head -> wf_limits limits ->
  walk_chain mem table queue_size head limits = Some (Ok chain) ->
  chain_safe mem queue_size limits chain /\ chain_head chain = head.
Proof.
  intros Hwf Hq Hh Hl Hw.
  destruct (walk_chain_total mem table queue_size head limits Hwf Hq Hh Hl) as (r & Hr & Hc).
  rewrite Hr in Hw. injection Hw as ->. destruct (proj1 (Hc chain) eq_refl) as (_ & _ & p & Hlk & Hp & ->).
  split; [ | done]. apply chain_of_safe; [ | done]. by destruct Hlk.
Qed.

(** C15: the walk of a hostile table always ends within [queue_size + 1] descriptors and
    inside its bitmap, and it accepts exactly the well-formed chains: following [next]
    from [head] visits distinct in-range table entries, none indirect or with unknown
    flags, each a non-empty buffer inside one registered region, device-readable ones
    first, within the descriptor and byte limits; the result lists those buffers with
    their exact totals. *)
Theorem walk_chain_spec (mem : M) table queue_size head limits :
  mem_wf mem -> is_u16 queue_size -> is_u16 head -> wf_limits limits ->
  exists r, walk_chain mem table queue_size head limits = Some r /\
    forall chain, r = Ok chain <->
      is_power_of_two queue_size = true /\ queue_size <= MAX_QUEUE_SIZE /\
      exists p, links mem table head p /\ path_ok mem queue_size limits p /\
        chain = chain_of head p.
Proof. apply walk_chain_total. Qed.

(** A chain the walk returns is safe to serve: its segments are non-empty buffers
    inside registered memory, at most as many as the limits allow, the readable ones
    precede the writable ones, the two lengths are their exact sums and stay within the
    byte limit. *)
Theorem walk_chain_sound (mem : M) table queue_size head limits chain :
  mem_wf mem -> is_u16 queue_size -> is_u16 head -> wf_limits limits ->
  walk_chain mem table queue_size head limits = Some (Ok chain) ->
  chain_safe mem queue_size limits chain /\ chain_head chain = head.
Proof. apply walk_chain_safe. Qed.
End sound.

(** * A sample table: a four-byte readable buffer, then a two-byte writable one *)

Definition sample_table : VecGuestMemory :=
  mkVecGuestMemory
    [mkRegion 0 (descriptor_to_bytes (mkDescriptor 64 4 VIRTQ_DESC_F_NEXT 1) ++
                 descriptor_to_bytes (mkDescriptor 70 2 VIRTQ_DESC_F_WRITE 0));
     mkRegion 64 (repeat 0 16)].

Definition sample_limits : ChainLimits := mkChainLimits 8 1024.

Definition sample_chain : DescriptorChain :=
  mkDescriptorChain 0 [mkChainSegment 64 4 false; mkChainSegment 70 2 true] 4 2.

Lemma sample_table_wf : vec_wf sample_table.
Proof. by vm_compute; repeat (split || constructor). Qed.

Lemma walk_chain_spec_witness :
  exists r, walk_chain sample_table 0 2 0 sample_limits = Some r /\
    (r = Ok sample_chain -> exists p, links sample_table 0 0 p).
Proof.
  destruct (walk_chain_spec (M:=VecGuestMemory) sample_table 0 2 0 sample_limits) as (r & Hr & Hc).
  - exact sample_table_wf.
  - by vm_compute.
  - by vm_compute.
  - by vm_compute.
  - exists r. split; [done | ]. intros Hok. apply Hc in Hok as (_ & _ & p & Hp & _). by exists p.
Defined.

Lemma walk_chain_sound_witness :
  chain_safe sample_table 2 sample_limits sample_chain /\ chain_head sample_chain = 0.
Proof.
  apply (walk_chain_sound (M:=VecGuestMemory) sample_table 0 2 0 sample_limits).
  - exact sample_table_wf.
  - by vm_compute.
  - by vm_compute.
  - by vm_compute.
  - by vm_compute.
Defined.
