(* ===== verification/Virtqueue.v ===== *)
(** One split virtqueue ([crates/soma-kvm/src/virtio/queue.rs], [queue/layout.rs],
    [queue/violation.rs], [queue/state.rs]): geometry validation, cursors, the available
    and used rings, and the snapshot record. *)

From S2P Require Import Prelude Bytes GuestMemory QueueChain.
From stdpp Require Import options.

(** * Geometry ([layout.rs]) *)

Definition DESC_ALIGN : Z := 16.
Definition AVAIL_ALIGN : Z := 2.
Definition USED_ALIGN : Z := 4.

Inductive LayoutViolation : Type :=
| LayoutViolation_SizeZero
| LayoutViolation_SizeNotPowerOfTwo (size : Z)
| LayoutViolation_SizeExceedsMax (size max : Z)
| LayoutViolation_DescMisaligned
| LayoutViolation_AvailMisaligned
| LayoutViolation_UsedMisaligned
| LayoutViolation_DescOutOfRegion
| LayoutViolation_AvailOutOfRegion
| LayoutViolation_UsedOutOfRegion
| LayoutViolation_RingsOverlap.

#[export] Instance LayoutViolation_eq_dec : EqDecision LayoutViolation.
Proof. solve_decision. Defined.

Definition validate_size (size max : Z) : Result Z LayoutViolation :=
  if size =? 0 then Err LayoutViolation_SizeZero
  else if negb (is_power_of_two size) then Err (LayoutViolation_SizeNotPowerOfTwo size)
  else if (size >? max) || (size >? MAX_QUEUE_SIZE)
  then Err (LayoutViolation_SizeExceedsMax size max)
  else Ok size.

Record QueueLayout : Type := mkQueueLayout {
  layout_size : Z;
  layout_desc : GuestAddress;
  layout_avail : GuestAddress;
  layout_used : GuestAddress
}.

#[export] Instance QueueLayout_eq_dec : EqDecision QueueLayout.
Proof. solve_decision. Defined.

Definition desc_len_of (l : QueueLayout) : Z := layout_size l * DESCRIPTOR_SIZE.
Definition avail_len_of (l : QueueLayout) : Z := 6 + 2 * layout_size l.
Definition used_len_of (l : QueueLayout) : Z := 6 + 8 * layout_size l.

(** Two ranges share an address. *)
Definition overlaps (a a_len b b_len : Z) : bool := (a <? b + b_len) && (b <? a + a_len).

Definition layout_validate {M} `{GuestMemory M} (mem : M) (size max : Z)
    (desc avail used : GuestAddress) : Result QueueLayout LayoutViolation :=
  let? size := validate_size size max in
  if negb (is_aligned desc DESC_ALIGN) then Err LayoutViolation_DescMisaligned
  else if negb (is_aligned avail AVAIL_ALIGN) then Err LayoutViolation_AvailMisaligned
  else if negb (is_aligned used USED_ALIGN) then Err LayoutViolation_UsedMisaligned
  else
    let l := mkQueueLayout size desc avail used in
    let? _ := map_err (fun _ => LayoutViolation_DescOutOfRegion)
                (check_range mem desc (desc_len_of l)) in
    let? _ := map_err (fun _ => LayoutViolation_AvailOutOfRegion)
                (check_range mem avail (avail_len_of l)) in
    let? _ := map_err (fun _ => LayoutViolation_UsedOutOfRegion)
                (check_range mem used (used_len_of l)) in
    if overlaps desc (desc_len_of l) avail (avail_len_of l) ||
       overlaps desc (desc_len_of l) used (used_len_of l) ||
       overlaps avail (avail_len_of l) used (used_len_of l)
    then Err LayoutViolation_RingsOverlap
    else Ok l.

(** * Violations ([violation.rs]) *)

Inductive QueueStateError : Type :=
| QueueStateError_Length (actual : Z)
| QueueStateError_InvalidFlag (offset : Z)
| QueueStateError_ReservedNonZero (offset : Z).

#[export] Instance QueueStateError_eq_dec : EqDecision QueueStateError.
Proof. solve_decision. Defined.

Inductive QueueViolation : Type :=
| QueueViolation_NotReady
| QueueViolation_AlreadyActivated
| QueueViolation_Layout (violation : LayoutViolation)
| QueueViolation_Memory (error : GuestMemoryError)
| QueueViolation_AvailIndexOverrun (pending size : Z)
| QueueViolation_Chain (head : Z) (violation : ChainViolation)
| QueueViolation_UsedLengthExceedsCapacity (len capacity : Z)
| QueueViolation_InvalidState (error : QueueStateError)
| QueueViolation_InconsistentState.

#[export] Instance QueueViolation_eq_dec : EqDecision QueueViolation.
Proof. solve_decision. Defined.

(** [kind() as usize] *)
Definition queue_violation_kind (v : QueueViolation) : nat :=
  match v with
  | QueueViolation_NotReady => 0
  | QueueViolation_AlreadyActivated => 1
  | QueueViolation_Layout _ => 2
  | QueueViolation_Memory _ => 3
  | QueueViolation_AvailIndexOverrun _ _ => 4
  | QueueViolation_Chain _ _ => 5
  | QueueViolation_UsedLengthExceedsCapacity _ _ => 6
  | QueueViolation_InvalidState _ => 7
  | QueueViolation_InconsistentState => 8
  end.

Definition KIND_COUNT : nat := 9.

(** The saturating counters, one per kind. *)
Abbreviation QueueViolationCounters := (list Z).
Definition queue_counters_default : QueueViolationCounters := replicate KIND_COUNT 0.

Definition queue_counters_record (counts : QueueViolationCounters) (v : QueueViolation)
    : QueueViolationCounters :=
  alter (fun slot => saturating_add U32_MAX slot 1) (queue_violation_kind v) counts.

Definition queue_counters_total (counts : QueueViolationCounters) : Z :=
  foldl (fun acc count => saturating_add U32_MAX acc count) 0 counts.

(** * The queue ([queue.rs]) *)

Definition VIRTQ_AVAIL_F_NO_INTERRUPT : Z := 1.

Record Queue : Type := mkQueue {
  q_max_size : Z;
  q_size : Z;
  q_desc : GuestAddress;
  q_avail : GuestAddress;
  q_used : GuestAddress;
  q_layout : option QueueLayout;
  q_activated : bool;
  q_next_avail : Z;
  q_next_used : Z;
  q_violations : QueueViolationCounters
}.

#[export] Instance Queue_eq_dec : EqDecision Queue.
Proof. solve_decision. Defined.

Definition queue_new (max_size : Z) : Result Queue LayoutViolation :=
  let? _ := validate_size max_size MAX_QUEUE_SIZE in
  Ok (mkQueue max_size max_size 0 0 0 None false 0 0 queue_counters_default).

Definition queue_is_ready (q : Queue) : bool :=
  match q_layout q with Some _ => true | None => false end.

(** Field updates. *)
Definition q_with_size (q : Queue) (size : Z) : Queue :=
  mkQueue (q_max_size q) size (q_desc q) (q_avail q) (q_used q) (q_layout q) (q_activated q)
    (q_next_avail q) (q_next_used q) (q_violations q).
Definition set_desc_addr (q : Queue) (addr : Z) : Queue :=
  mkQueue (q_max_size q) (q_size q) addr (q_avail q) (q_used q) (q_layout q) (q_activated q)
    (q_next_avail q) (q_next_used q) (q_violations q).
Definition set_avail_addr (q : Queue) (addr : Z) : Queue :=
  mkQueue (q_max_size q) (q_size q) (q_desc q) addr (q_used q) (q_layout q) (q_activated q)
    (q_next_avail q) (q_next_used q) (q_violations q).
Definition set_used_addr (q : Queue) (addr : Z) : Queue :=
  mkQueue (q_max_size q) (q_size q) (q_desc q) (q_avail q) addr (q_layout q) (q_activated q)
    (q_next_avail q) (q_next_used q) (q_violations q).
Definition q_with_next_avail (q : Queue) (next_avail : Z) : Queue :=
  mkQueue (q_max_size q) (q_size q) (q_desc q) (q_avail q) (q_used q) (q_layout q) (q_activated q)
    next_avail (q_next_used q) (q_violations q).
Definition q_with_next_used (q : Queue) (next_used : Z) : Queue :=
  mkQueue (q_max_size q) (q_size q) (q_desc q) (q_avail q) (q_used q) (q_layout q) (q_activated q)
    (q_next_avail q) next_used (q_violations q).
Definition q_with_violations (q : Queue) (violations : QueueViolationCounters) : Queue :=
  mkQueue (q_max_size q) (q_size q) (q_desc q) (q_avail q) (q_used q) (q_layout q) (q_activated q)
    (q_next_avail q) (q_next_used q) violations.

(** [record] and return: the violation is counted and is the error. *)
Definition queue_record {A} (v : QueueViolation) : ST Queue QueueViolation A :=
  fun q => (q_with_violations q (queue_counters_record (q_violations q) v), Err v).

(** [.map_err(|error| self.record(...))?] *)
Definition queue_try {A E} (f : E -> QueueViolation) (r : Result A E) : ST Queue QueueViolation A :=
  match r with Ok a => st_ret a | Err e => queue_record (f e) end.

Definition set_size (size : Z) : ST Queue QueueViolation unit :=
  q <-- st_get ;;
  size <-- queue_try QueueViolation_Layout (validate_size size (q_max_size q)) ;;
  st_modify (fun q => q_with_size q size).

Section memory.
Context {M : Type} `{GuestMemory M}.

Definition queue_activate (mem : M) : ST Queue QueueViolation unit :=
  q <-- st_get ;;
  if q_activated q then queue_record QueueViolation_AlreadyActivated
  else
    layout <-- queue_try QueueViolation_Layout
      (layout_validate mem (q_size q) (q_max_size q) (q_desc q) (q_avail q) (q_used q)) ;;
    st_modify (fun q => mkQueue (q_max_size q) (q_size q) (q_desc q) (q_avail q) (q_used q)
                          (Some layout) true 0 0 (q_violations q)).

Definition queue_deactivate (q : Queue) : Queue :=
  mkQueue (q_max_size q) (q_size q) (q_desc q) (q_avail q) (q_used q) None (q_activated q)
    (q_next_avail q) (q_next_used q) (q_violations q).

Definition queue_reset (q : Queue) : Queue :=
  mkQueue (q_max_size q) (q_max_size q) 0 0 0 None false 0 0 (q_violations q).

Definition ready_layout : ST Queue QueueViolation QueueLayout :=
  q <-- st_get ;;
  match q_layout q with
  | Some layout => st_ret layout
  | None => queue_record QueueViolation_NotReady
  end.

Definition ring_addr (base : GuestAddress) (offset : Z) : ST Queue QueueViolation GuestAddress :=
  match addr_checked_add base offset with
  | Some addr => st_ret addr
  | None => queue_record (QueueViolation_Memory (GuestMemoryError_Overflow base offset))
  end.

Definition pending (mem : M) : ST Queue QueueViolation Z :=
  layout <-- ready_layout ;;
  idx_addr <-- ring_addr (layout_avail layout) 2 ;;
  avail_idx <-- queue_try QueueViolation_Memory (read_obj_at 2 mem idx_addr) ;;
  q <-- st_get ;;
  let pending := wrapping_sub16 avail_idx (q_next_avail q) in
  if pending >? layout_size layout
  then queue_record (QueueViolation_AvailIndexOverrun pending (layout_size layout))
  else st_ret pending.

(** The head index of the next available chain, with the cursor advanced; [None] when
    idle.  The part of [pop_descriptor_chain] before the walk. *)
Definition pop_head (mem : M) : ST Queue QueueViolation (option (QueueLayout * Z)) :=
  n <-- pending mem ;;
  if n =? 0 then st_ret None
  else
    layout <-- ready_layout ;;
    q <-- st_get ;;
    let slot := q_next_avail q mod layout_size layout in
    head_addr <-- ring_addr (layout_avail layout) (4 + 2 * slot) ;;
    head <-- queue_try QueueViolation_Memory (read_obj_at 2 mem head_addr) ;;
    st_modify (fun q => q_with_next_avail q (wrapping_add16 (q_next_avail q) 1)) ;;;
    st_ret (Some (layout, head)).

(** [None] where the walk would not return. *)
Definition pop_descriptor_chain (mem : M) (limits : ChainLimits) (q : Queue)
    : option (Queue * Result (option DescriptorChain) QueueViolation) :=
  match pop_head mem q with
  | (q, Err e) => Some (q, Err e)
  | (q, Ok None) => Some (q, Ok None)
  | (q, Ok (Some (layout, head))) =>
      match walk_chain mem (layout_desc layout) (layout_size layout) head limits with
      | None => None
      | Some (Ok chain) => Some (q, Ok (Some chain))
      | Some (Err violation) => Some (queue_record (QueueViolation_Chain head violation) q)
      end
  end.

(** The used element: head and written length. *)
Definition used_element (head len : Z) : bytes := le_bytes 4 head ++ le_bytes 4 len.

(** The memory is part of the state: the element may be written when the index is
    not. *)
Definition with_mem {A} (c : ST Queue QueueViolation A) : ST (Queue * M) QueueViolation A :=
  fun '(q, mem) => let '(q, r) := c q in ((q, mem), r).

Definition write_ring (write : M -> Result M GuestMemoryError) : ST (Queue * M) QueueViolation unit :=
  fun '(q, mem) =>
    match write mem with
    | Ok mem' => ((q, mem'), Ok tt)
    | Err e => let '(q, r) := queue_record (QueueViolation_Memory e) q in ((q, mem), r)
    end.

Definition add_used (chain : DescriptorChain) (len : Z) : ST (Queue * M) QueueViolation unit :=
  layout <-- with_mem ready_layout ;;
  if len >? chain_writable_len chain
  then with_mem (queue_record
         (QueueViolation_UsedLengthExceedsCapacity len (chain_writable_len chain)))
  else
    q <-- with_mem st_get ;;
    let slot := q_next_used q mod layout_size layout in
    elem <-- with_mem (ring_addr (layout_used layout) (4 + 8 * slot)) ;;
    idx_addr <-- with_mem (ring_addr (layout_used layout) 2) ;;
    write_ring (fun mem => write_bytes mem elem (used_element (chain_head chain) len)) ;;;
    with_mem (st_modify (fun q => q_with_next_used q (wrapping_add16 (q_next_used q) 1))) ;;;
    q <-- with_mem st_get ;;
    write_ring (fun mem => write_obj_at 2 mem idx_addr (q_next_used q)).

Definition needs_notification (mem : M) : ST Queue QueueViolation bool :=
  layout <-- ready_layout ;;
  flags <-- queue_try QueueViolation_Memory (read_obj_at 2 mem (layout_avail layout)) ;;
  st_ret (Z.land flags VIRTQ_AVAIL_F_NO_INTERRUPT =? 0).
End memory.

(** * The snapshot record ([state.rs]) *)

Definition QUEUE_STATE_LEN : nat := 32.

Record QueueState : Type := mkQueueState {
  qs_size : Z;
  qs_ready : bool;
  qs_activated : bool;
  qs_desc : Z;
  qs_avail : Z;
  qs_used : Z;
  qs_next_avail : Z;
  qs_next_used : Z
}.

#[export] Instance QueueState_eq_dec : EqDecision QueueState.
Proof. solve_decision. Defined.

Definition flag_byte (b : bool) : Z := if b then 1 else 0.

Definition queue_state_to_bytes (s : QueueState) : bytes :=
  le_bytes 2 (qs_size s) ++ [flag_byte (qs_ready s)] ++ [flag_byte (qs_activated s)] ++
  le_bytes 8 (qs_desc s) ++ le_bytes 8 (qs_avail s) ++ le_bytes 8 (qs_used s) ++
  le_bytes 2 (qs_next_avail s) ++ le_bytes 2 (qs_next_used s).

(** [iter().rev().fold(0, |acc, byte| (acc << 8) | byte)] in 64 bits. *)
Definition le_u64 (b : bytes) : Z :=
  foldl (fun acc byte => Z.lor (Z.shiftl acc 8 mod 2 ^ 64) byte) 0 (rev b).

Definition state_flag (raw : bytes) (offset : nat) : Result bool QueueStateError :=
  match raw !! offset with
  | Some 0 => Ok false
  | Some 1 => Ok true
  | _ => Err (QueueStateError_InvalidFlag (Z.of_nat offset))
  end.

Definition u16_at (raw : bytes) (offset : nat) : Z := le_val (take 2 (drop offset raw)).

Definition queue_state_from_bytes (raw : bytes) : Result QueueState QueueStateError :=
  if negb (length raw =? QUEUE_STATE_LEN)%nat
  then Err (QueueStateError_Length (Z.of_nat (length raw)))
  else
    let? ready := state_flag raw 2 in
    let? activated := state_flag raw 3 in
    Ok (mkQueueState (u16_at raw 0) ready activated (le_u64 (take 8 (drop 4 raw)))
          (le_u64 (take 8 (drop 12 raw))) (le_u64 (take 8 (drop 20 raw)))
          (u16_at raw 28) (u16_at raw 30)).

(** [Queue::state] *)
Definition queue_state (q : Queue) : QueueState :=
  mkQueueState (q_size q) (queue_is_ready q) (q_activated q) (q_desc q) (q_avail q) (q_used q)
    (q_next_avail q) (q_next_used q).

Definition queue_restore {M} `{GuestMemory M} (mem : M) (max_size : Z) (state : QueueState)
    : Result Queue QueueViolation :=
  let? q := map_err QueueViolation_Layout (queue_new max_size) in
  match set_size (qs_size state) q with
  | (_, Err e) => Err e
  | (q, Ok _) =>
      let q := set_used_addr (set_avail_addr (set_desc_addr q (qs_desc state)) (qs_avail state))
                 (qs_used state) in
      if qs_ready state && negb (qs_activated state) then Err QueueViolation_InconsistentState
      else if negb (qs_activated state) &&
              (negb (qs_next_avail state =? 0) || negb (qs_next_used state =? 0))
      then Err QueueViolation_InconsistentState
      else
        let? q := (if qs_ready state
                   then match queue_activate mem q with
                        | (q, Ok _) => Ok q
                        | (_, Err e) => Err e
                        end
                   else Ok q) in
        Ok (mkQueue (q_max_size q) (q_size q) (q_desc q) (q_avail q) (q_used q) (q_layout q)
              (qs_activated state) (qs_next_avail state) (qs_next_used state) (q_violations q))
  end.
