(* ===== verification/VirtqueueFacts.v ===== *)
(** Properties of one virtqueue: exact geometry validation, the queue invariant over
    every driver and device operation, the available ring as a first-in-first-out
    sequence, publication in the used ring, and the snapshot record. *)

From S2P Require Import Prelude Bytes GuestMemory QueueChain Virtqueue.
From stdpp Require Import options.

(** * Geometry *)

Definition size_ok (size max : Z) : Prop :=
  is_power_of_two size = true /\ 0 < size <= max /\ size <= MAX_QUEUE_SIZE.

Lemma validate_size_spec size max r :
  0 <= size -> validate_size size max = Ok r <-> r = size /\ size_ok size max.
Proof.
  intros Hs. unfold validate_size, size_ok. destruct (Z.eqb_spec size 0).
  { split; [done | ]. intros (_ & _ & ? & _). lia. }
  destruct (is_power_of_two size); simpl; [ | naive_solver].
  destruct (Z.gtb_spec size max); simpl; [split; [done | ]; intros (_ & _ & ? & _); lia | ].
  destruct (Z.gtb_spec size MAX_QUEUE_SIZE); simpl; [split; [done | ]; intros (_ & _ & _ & ?); lia | ].
  split; [intros [= <-] | by intros [-> _]]. split_and!; done || lia.
Qed.

Definition disjoint (a a_len b b_len : Z) : Prop := a + a_len <= b \/ b + b_len <= a.

(** A layout whose rings are aligned, registered and apart. *)
Definition geometry_ok (regions : list (Z * Z)) (max : Z) (l : QueueLayout) : Prop :=
  size_ok (layout_size l) max /\
  layout_desc l mod 16 = 0 /\ layout_avail l mod 2 = 0 /\ layout_used l mod 4 = 0 /\
  registered regions (layout_desc l) (16 * layout_size l) /\
  registered regions (layout_avail l) (6 + 2 * layout_size l) /\
  registered regions (layout_used l) (6 + 8 * layout_size l) /\
  disjoint (layout_desc l) (16 * layout_size l) (layout_avail l) (6 + 2 * layout_size l) /\
  disjoint (layout_desc l) (16 * layout_size l) (layout_used l) (6 + 8 * layout_size l) /\
  disjoint (layout_avail l) (6 + 2 * layout_size l) (layout_used l) (6 + 8 * layout_size l).

Lemma overlaps_spec a a_len b b_len : overlaps a a_len b b_len = false <-> disjoint a a_len b b_len.
Proof.
  unfold overlaps, disjoint. destruct (Z.ltb_spec a (b + b_len)), (Z.ltb_spec b (a + a_len)); simpl;
    split; intros; try done; lia.
Qed.

Lemma is_aligned_spec addr align : align <> 0 -> is_aligned addr align = true <-> addr mod align = 0.
Proof.
  intros Ha. unfold is_aligned. destruct (Z.eqb_spec align 0); [done | ]. simpl. apply Z.eqb_eq.
Qed.

Section laws.
Context {M : Type} `{GuestMemoryLaws M}.

Lemma layout_validate_iff (mem : M) size max desc avail used l :
  mem_wf mem -> 0 <= size ->
  layout_validate mem size max desc avail used = Ok l <->
  l = mkQueueLayout size desc avail used /\ geometry_ok (mem_regions mem) max l.
Proof.
  intros Hwf Hs. unfold layout_validate.
  pose proof (fun r => validate_size_spec size max r Hs) as Hv.
  destruct (validate_size size max) as [s | e].
  2: { split; [done | ]. intros [-> [Hg _]]. simpl in Hg.
    pose proof (proj2 (Hv size) (conj eq_refl Hg)). done. }
  destruct (proj1 (Hv s) eq_refl) as [-> Hsz]. unfold geometry_ok.
  pose proof (is_aligned_spec desc DESC_ALIGN) as A1. pose proof (is_aligned_spec avail AVAIL_ALIGN) as A2.
  pose proof (is_aligned_spec used USED_ALIGN) as A3.
  unfold DESC_ALIGN, AVAIL_ALIGN, USED_ALIGN in *.
  destruct (is_aligned desc 16); simpl; [ | split; [done | ]; intros (-> & _ & Hd & _); by apply A1 in Hd].
  destruct (is_aligned avail 2); simpl;
    [ | split; [done | ]; intros (-> & _ & _ & Hd & _); by apply A2 in Hd].
  destruct (is_aligned used 4); simpl;
    [ | split; [done | ]; intros (-> & _ & _ & _ & Hd & _); by apply A3 in Hd].
  unfold desc_len_of, avail_len_of, used_len_of, DESCRIPTOR_SIZE; cbn [layout_size].
  rewrite (Z.mul_comm size 16).
  pose proof (check_range_spec mem desc (16 * size) Hwf) as C1.
  pose proof (check_range_spec mem avail (6 + 2 * size) Hwf) as C2.
  pose proof (check_range_spec mem used (6 + 8 * size) Hwf) as C3.
  destruct (check_range mem desc (16 * size)) as [[] | ]; simpl;
    [ | split; [done | ]; intros (-> & _ & _ & _ & _ & Hr & _); by apply C1 in Hr].
  destruct (check_range mem avail (6 + 2 * size)) as [[] | ]; simpl;
    [ | split; [done | ]; intros (-> & _ & _ & _ & _ & _ & Hr & _); by apply C2 in Hr].
  destruct (check_range mem used (6 + 8 * size)) as [[] | ]; simpl;
    [ | split; [done | ]; intros (-> & _ & _ & _ & _ & _ & _ & Hr & _); by apply C3 in Hr].
  pose proof (overlaps_spec desc (16 * size) avail (6 + 2 * size)) as O1.
  pose proof (overlaps_spec desc (16 * size) used (6 + 8 * size)) as O2.
  pose proof (overlaps_spec avail (6 + 2 * size) used (6 + 8 * size)) as O3.
  destruct (overlaps desc _ avail _); simpl;
    [split; [done | ]; intros (-> & _ & _ & _ & _ & _ & _ & _ & Hr & _); by apply O1 in Hr | ].
  destruct (overlaps desc _ used _); simpl;
    [split; [done | ]; intros (-> & _ & _ & _ & _ & _ & _ & _ & _ & Hr & _); by apply O2 in Hr | ].
  destruct (overlaps avail _ used _); simpl;
    [split; [done | ]; intros (-> & _ & _ & _ & _ & _ & _ & _ & _ & _ & Hr); by apply O3 in Hr | ].
  split; [intros [= <-] | by intros [-> _]]. simpl. split; [done | ].
  split_and!; try tauto; try (by apply A1); try (by apply A2); try (by apply A3).
Qed.
End laws.

(** * The queue invariant *)

(** The geometry is validated, the registers and cursors keep their widths, a ready
    queue was activated, and a queue never activated since its reset has zero
    cursors. *)
Definition queue_ok (regions : list (Z * Z)) (q : Queue) : Prop :=
  size_ok (q_max_size q) MAX_QUEUE_SIZE /\ size_ok (q_size q) (q_max_size q) /\
  is_u64 (q_desc q) /\ is_u64 (q_avail q) /\ is_u64 (q_used q) /\
  is_u16 (q_next_avail q) /\ is_u16 (q_next_used q) /\
  (forall l, q_layout q = Some l -> geometry_ok regions (q_max_size q) l /\ q_activated q = true) /\
  (q_activated q = false -> q_next_avail q = 0 /\ q_next_used q = 0) /\
  length (q_violations q) = KIND_COUNT /\ Forall is_u32 (q_violations q).

Lemma counters_ok counts v :
  length counts = KIND_COUNT -> Forall is_u32 counts ->
  length (queue_counters_record counts v) = KIND_COUNT /\
  Forall is_u32 (queue_counters_record counts v).
Proof.
  intros Hl Hf. unfold queue_counters_record. split; [by rewrite length_alter | ].
  apply Forall_alter; [done | ]. intros x _ Hx. unfold saturating_add, is_uint, U32_MAX in *. lia.
Qed.

Lemma queue_ok_record regions q v :
  queue_ok regions q ->
  queue_ok regions (q_with_violations q (queue_counters_record (q_violations q) v)).
Proof.
  intros (H1 & H2 & H3 & H4 & H5 & H6 & H7 & H8 & H9 & H10 & H11).
  destruct (counters_ok _ v H10 H11). unfold queue_ok; simpl. by split_and!.
Qed.

Lemma queue_record_ok regions {A} v : st_preserves (queue_ok regions) (queue_record (A:=A) v).
Proof. intros q Hq. by apply queue_ok_record. Qed.

Lemma queue_try_ok regions {A E} (f : E -> QueueViolation) (r : Result A E) :
  st_preserves (queue_ok regions) (queue_try f r).
Proof. destruct r; [apply st_preserves_ret | apply queue_record_ok]. Qed.

Lemma ready_layout_ok regions : st_preserves (queue_ok regions) ready_layout.
Proof.
  apply st_preserves_bind; [by intros q | ]. intros q.
  destruct (q_layout q); [apply st_preserves_ret | apply queue_record_ok].
Qed.

Lemma ring_addr_ok regions base offset : st_preserves (queue_ok regions) (ring_addr base offset).
Proof. unfold ring_addr. case_match; [apply st_preserves_ret | apply queue_record_ok]. Qed.

Lemma queue_new_ok regions max q : is_u16 max -> queue_new max = Ok q -> queue_ok regions q.
Proof.
  unfold queue_new. intros [H0 _]. pose proof (fun r => validate_size_spec max MAX_QUEUE_SIZE r H0) as Hv.
  destruct (validate_size _ _) as [s | ]; [ | done].
  destruct (proj1 (Hv s) eq_refl) as [-> Hs]. intros [= <-].
  assert (size_ok max max) by (destruct Hs as (? & ? & ?); split_and!; done || lia).
  unfold queue_ok, is_uint; simpl. split_and!; try done.
  by repeat constructor.
Qed.

Lemma set_size_ok regions size : 0 <= size -> st_preserves (queue_ok regions) (set_size size).
Proof.
  intros Hs q Hq. unfold set_size, st_bind at 1, st_get. unfold st_bind.
  pose proof (fun r => validate_size_spec size (q_max_size q) r Hs) as Hv.
  destruct (validate_size size (q_max_size q)) as [s | e]; simpl; [ | by apply queue_ok_record].
  destruct (proj1 (Hv s) eq_refl) as [-> Hsz].
  destruct Hq as (H1 & H2 & H3 & H4 & H5 & H6 & H7 & H8 & H9 & H10 & H11).
  unfold queue_ok; simpl. by split_and!.
Qed.

Lemma set_addr_ok regions q addr :
  queue_ok regions q -> is_u64 addr ->
  queue_ok regions (set_desc_addr q addr) /\ queue_ok regions (set_avail_addr q addr) /\
  queue_ok regions (set_used_addr q addr).
Proof. unfold queue_ok; simpl. naive_solver. Qed.

Lemma queue_deactivate_ok regions q : queue_ok regions q -> queue_ok regions (queue_deactivate q).
Proof. unfold queue_ok; simpl. naive_solver. Qed.

Lemma queue_reset_ok regions q : queue_ok regions q -> queue_ok regions (queue_reset q).
Proof.
  intros (H1 & H2 & H3 & H4 & H5 & H6 & H7 & H8 & H9 & H10 & H11).
  unfold queue_ok, is_uint; simpl. split_and!; try done.
  destruct H1 as (? & ? & ?). split_and!; done || lia.
Qed.

Section laws2.
Context {M : Type} `{GuestMemoryLaws M}.

Lemma queue_activate_ok (mem : M) :
  mem_wf mem -> st_preserves (queue_ok (mem_regions mem)) (queue_activate mem).
Proof.
  intros Hwf q Hq. unfold queue_activate, st_bind at 1, st_get.
  destruct (q_activated q); [by apply queue_ok_record | ].
  unfold st_bind. pose proof Hq as (H1 & H2 & H3 & H4 & H5 & H6 & H7 & H8 & H9 & H10 & H11).
  destruct (layout_validate _ _ _ _ _ _) as [l | e] eqn:Hl; simpl; [ | by apply queue_ok_record].
  apply layout_validate_iff in Hl as [-> Hg]; [ | done | destruct H2 as (_ & ? & _); lia].
  assert (Hz : is_u16 0) by done. unfold queue_ok; simpl.
  split_and!; try assumption; try done. intros l [= <-]. done.
Qed.

Lemma pending_ok regions (mem : M) : st_preserves (queue_ok regions) (pending mem).
Proof.
  unfold pending. apply st_preserves_bind; [apply ready_layout_ok | intros layout].
  apply st_preserves_bind; [apply ring_addr_ok | intros idx_addr].
  apply st_preserves_bind; [apply queue_try_ok | intros avail_idx].
  apply st_preserves_bind; [by intros ? | intros q'].
  simpl. destruct (_ >? _); [apply queue_record_ok | apply st_preserves_ret].
Qed.

Lemma advance_avail_ok regions q :
  queue_ok regions q -> q_activated q = true ->
  queue_ok regions (q_with_next_avail q (wrapping_add16 (q_next_avail q) 1)).
Proof.
  intros (H1 & H2 & H3 & H4 & H5 & H6 & H7 & H8 & H9 & H10 & H11) Ha.
  pose proof (wrapping_add16_range (q_next_avail q) 1 : is_u16 _).
  unfold queue_ok; simpl. split_and!; try assumption; congruence.
Qed.

Lemma advance_used_ok regions q :
  queue_ok regions q -> q_activated q = true ->
  queue_ok regions (q_with_next_used q (wrapping_add16 (q_next_used q) 1)).
Proof.
  intros (H1 & H2 & H3 & H4 & H5 & H6 & H7 & H8 & H9 & H10 & H11) Ha.
  pose proof (wrapping_add16_range (q_next_used q) 1 : is_u16 _).
  unfold queue_ok; simpl. split_and!; try assumption; congruence.
Qed.

(** * Reading the available ring *)

Context (mem : M) (q : Queue) (l : QueueLayout).
Context (Hwf : mem_wf mem) (Hq : queue_ok (mem_regions mem) q) (Hl : q_layout q = Some l).

Lemma ready_geometry : geometry_ok (mem_regions mem) (q_max_size q) l /\ q_activated q = true.
Proof using Type Hq Hl. by apply Hq. Qed.

Lemma ready_layout_ready : ready_layout q = (q, Ok l).
Proof using Type Hl. unfold ready_layout, st_bind, st_get. by rewrite Hl. Qed.

Lemma registered_add regions base total offset len :
  registered regions base total -> 0 <= offset -> 0 <= len -> offset + len <= total ->
  registered regions (base + offset) len /\ addr_checked_add base offset = Some (base + offset).
Proof.
  intros Hr Ho Hlen Ht. split.
  - eapply registered_sub; [exact Hr | lia | lia].
  - destruct Hr as [Hov _]. apply checked_add_u64_Some. split; [done | lia].
Qed.

Lemma ring_addr_ready base total offset len :
  registered (mem_regions mem) base total -> 0 <= offset -> 0 <= len -> offset + len <= total ->
  ring_addr base offset q = (q, Ok (base + offset)).
Proof.
  intros Hr Ho Hlen Ht. unfold ring_addr.
  by destruct (registered_add _ _ _ _ len Hr Ho Hlen Ht) as [_ ->].
Qed.

(** The driver's published index and how far it is ahead. *)
Definition avail_idx_at (idx : Z) : Prop := read_obj_at 2 mem (layout_avail l + 2) = Ok idx.

Lemma avail_idx_readable : exists idx, avail_idx_at idx /\ is_u16 idx.
Proof using Type Hwf Hq Hl.
  destruct ready_geometry as [(Hs & _ & _ & _ & _ & Ha & _) _]. destruct Hs as (_ & Hs & _).
  destruct (registered_add _ _ _ 2 2 Ha) as [Hr _]; [lia.. | ].
  destruct (read_obj_at_total mem (layout_avail l + 2) 2 Hwf Hr) as (v & Hv & Hrange). by exists v.
Qed.

Lemma pending_ready idx :
  avail_idx_at idx ->
  pending mem q =
    (let n := wrapping_sub16 idx (q_next_avail q) in
     if n >? layout_size l then queue_record (QueueViolation_AvailIndexOverrun n (layout_size l)) q
     else (q, Ok n)).
Proof using Type Hwf Hq Hl.
  intros Hidx. unfold pending, st_bind. rewrite ready_layout_ready.
  destruct ready_geometry as [(Hs & _ & _ & _ & _ & Ha & _) _]. destruct Hs as (_ & Hs & _).
  rewrite (ring_addr_ready _ _ 2 2 Ha) by lia. unfold avail_idx_at in Hidx. rewrite Hidx. simpl.
  by destruct (_ >? _).
Qed.

Lemma slot_range c : 0 <= c mod layout_size l < layout_size l.
Proof using Type Hq Hl.
  destruct ready_geometry as [((_ & Hs & _) & _) _]. apply Z.mod_pos_bound. lia.
Qed.

Lemma head_readable :
  exists head, read_obj_at 2 mem (layout_avail l + (4 + 2 * (q_next_avail q mod layout_size l))) = Ok head /\
    is_u16 head.
Proof using Type Hwf Hq Hl.
  destruct ready_geometry as [(_ & _ & _ & _ & _ & Ha & _) _]. pose proof (slot_range (q_next_avail q)).
  destruct (registered_add _ _ _ (4 + 2 * (q_next_avail q mod layout_size l)) 2 Ha) as [Hr _]; [lia.. | ].
  destruct (read_obj_at_total mem _ 2 Hwf Hr) as (v & Hv & Hrange). by exists v.
Qed.

Lemma pop_head_ready idx head :
  avail_idx_at idx ->
  read_obj_at 2 mem (layout_avail l + (4 + 2 * (q_next_avail q mod layout_size l))) = Ok head ->
  0 < wrapping_sub16 idx (q_next_avail q) <= layout_size l ->
  pop_head mem q = (q_with_next_avail q (wrapping_add16 (q_next_avail q) 1), Ok (Some (l, head))).
Proof using Type Hwf Hq Hl.
  intros Hidx Hh Hn. unfold pop_head, st_bind. rewrite (pending_ready idx Hidx). cbv zeta.
  destruct (Z.gtb_spec (wrapping_sub16 idx (q_next_avail q)) (layout_size l)); [lia | ].
  destruct (Z.eqb_spec (wrapping_sub16 idx (q_next_avail q)) 0); [lia | ].
  rewrite ready_layout_ready. simpl.
  destruct ready_geometry as [(_ & _ & _ & _ & _ & Ha & _) _]. pose proof (slot_range (q_next_avail q)).
  rewrite (ring_addr_ready _ _ _ 2 Ha) by lia. by rewrite Hh.
Qed.

(** * Popping *)

Lemma wrapping_sub16_step idx c :
  is_u16 c -> 0 < wrapping_sub16 idx c ->
  wrapping_sub16 idx (wrapping_add16 c 1) = wrapping_sub16 idx c - 1.
Proof.
  unfold wrapping_sub16, wrapping_add16, is_uint. intros Hc Hn.
  rewrite Zminus_mod_idemp_r. replace (idx - (c + 1)) with ((idx - c) - 1) by lia.
  rewrite <- Zminus_mod_idemp_l. apply Z.mod_small.
  pose proof (Z.mod_pos_bound (idx - c) (2 ^ 16)). lia.
Qed.

(** Cursors wrap at 2^16, slots at the queue size: since the size divides 2^16, the
    slots follow one another across the wrap. *)
Lemma slot_step size max c :
  size_ok size max -> wrapping_add16 c 1 mod size = (c mod size + 1) mod size.
Proof.
  intros (Hp & Hs & Hm). apply is_power_of_two_spec in Hp as (k & Hk & ->).
  unfold wrapping_add16, MAX_QUEUE_SIZE in *. rewrite Zplus_mod_idemp_l.
  assert (Hk16 : k <= 15).
  { destruct (decide (k <= 15)); [done | ]. exfalso.
    assert (2 ^ 16 <= 2 ^ k) by (apply Z.pow_le_mono_r; lia). lia. }
  rewrite <- Znumtheory.Zmod_div_mod; [done | lia | lia | ].
  exists (2 ^ (16 - k)). rewrite <- Z.pow_add_r by lia. f_equal. lia.
Qed.

(** What one pop does on a ready queue. *)
Definition pop_result (limits : ChainLimits) (idx : Z)
    (out : Queue * Result (option DescriptorChain) QueueViolation) : Prop :=
  let n := wrapping_sub16 idx (q_next_avail q) in
  let advanced := q_with_next_avail q (wrapping_add16 (q_next_avail q) 1) in
  (n = 0 /\ out = (q, Ok None)) \/
  (layout_size l < n /\
   out = queue_record (QueueViolation_AvailIndexOverrun n (layout_size l)) q) \/
  (0 < n <= layout_size l /\ exists head,
     read_obj_at 2 mem (layout_avail l + (4 + 2 * (q_next_avail q mod layout_size l))) = Ok head /\
     ((exists chain,
         walk_chain mem (layout_desc l) (layout_size l) head limits = Some (Ok chain) /\
         chain_safe mem (layout_size l) limits chain /\ chain_head chain = head /\
         out = (advanced, Ok (Some chain))) \/
      (exists v,
         walk_chain mem (layout_desc l) (layout_size l) head limits = Some (Err v) /\
         out = queue_record (QueueViolation_Chain head v) advanced))).

Lemma pop_ready limits idx :
  wf_limits limits -> avail_idx_at idx ->
  exists out, pop_descriptor_chain mem limits q = Some out /\ pop_result limits idx out.
Proof using Type Hwf Hq Hl.
  intros Hlim Hidx. pose proof (wrapping_sub16_range idx (q_next_avail q)) as Hn.
  unfold pop_result. set (n := wrapping_sub16 idx (q_next_avail q)) in *.
  destruct ready_geometry as [((_ & Hs & Hm) & _) Ha].
  destruct (decide (layout_size l < n)) as [Hov | Hov]; [ | destruct (decide (n = 0)) as [Hz | Hz]].
  - eexists. split; [ | right; left; done]. unfold pop_descriptor_chain, pop_head, st_bind.
    rewrite (pending_ready idx Hidx). fold n. cbv zeta.
    by destruct (Z.gtb_spec n (layout_size l)); [ | lia].
  - eexists. split; [ | left; done]. unfold pop_descriptor_chain, pop_head, st_bind.
    rewrite (pending_ready idx Hidx). fold n. cbv zeta. rewrite Hz.
    by destruct (Z.gtb_spec 0 (layout_size l)); [lia | ].
  - destruct head_readable as (head & Hh & Hhr). unfold MAX_QUEUE_SIZE in *.
    assert (Hq16 : is_u16 (layout_size l)) by (unfold is_uint; lia).
    destruct (walk_chain_total mem (layout_desc l) _ head limits Hwf Hq16 Hhr Hlim) as (r & Hr & _).
    unfold pop_descriptor_chain. rewrite (pop_head_ready idx head Hidx Hh) by (fold n; lia).
    rewrite Hr. destruct r as [chain | v]; (eexists; split; [done | ]); right; right;
      (split; [lia | ]); exists head; (split; [done | ]).
    + left. exists chain. destruct (walk_chain_safe _ _ _ _ _ _ Hwf Hq16 Hhr Hlim Hr). by split_and!.
    + right. by exists v.
Qed.

(** * Publishing *)

Definition used_slot : Z := layout_used l + (4 + 8 * (q_next_used q mod layout_size l)).

Lemma used_element_bytes head len :
  all_bytes (used_element head len) /\ length (used_element head len) = 8%nat.
Proof.
  unfold used_element. split; [ | by rewrite length_app, !length_le_bytes].
  apply Forall_app. split; apply le_bytes_all_bytes.
Qed.

Lemma used_addresses :
  registered (mem_regions mem) used_slot 8 /\ registered (mem_regions mem) (layout_used l + 2) 2 /\
  ring_addr (layout_used l) (4 + 8 * (q_next_used q mod layout_size l)) q = (q, Ok used_slot) /\
  ring_addr (layout_used l) 2 q = (q, Ok (layout_used l + 2)).
Proof using Type Hq Hl.
  destruct ready_geometry as [(_ & _ & _ & _ & _ & _ & Hu & _) _].
  pose proof (slot_range (q_next_used q)). unfold used_slot. split_and!.
  - eapply registered_sub; [exact Hu | lia | lia].
  - eapply registered_sub; [exact Hu | lia | lia].
  - eapply (ring_addr_ready _ _ _ 8 Hu); lia.
  - eapply (ring_addr_ready _ _ _ 2 Hu); lia.
Qed.

Definition published : Queue := q_with_next_used q (wrapping_add16 (q_next_used q) 1).

Lemma add_used_ready chain len :
  0 <= len <= chain_writable_len chain ->
  exists mem1 mem2,
    write_bytes mem used_slot (used_element (chain_head chain) len) = Ok mem1 /\
    write_obj_at 2 mem1 (layout_used l + 2) (q_next_used published) = Ok mem2 /\
    add_used chain len (q, mem) = ((published, mem2), Ok tt) /\
    mem_wf mem1 /\ mem_regions mem1 = mem_regions mem.
Proof using Type Hwf Hq Hl.
  intros Hlen. destruct used_addresses as (R1 & R2 & A1 & A2).
  destruct (used_element_bytes (chain_head chain) len) as [Hb Hbl].
  assert (Hok : is_ok (write_bytes mem used_slot (used_element (chain_head chain) len)) = true)
    by (apply write_bytes_total; [done | by rewrite Hbl]).
  destruct (write_bytes mem used_slot _) as [mem1 | ] eqn:Hw; [ | done]. clear Hok.
  destruct (write_bytes_spec _ _ _ _ Hwf Hb Hw) as (_ & Hwf1 & Hr1 & _).
  assert (Hok : is_ok (write_obj_at 2 mem1 (layout_used l + 2) (q_next_used published)) = true).
  { apply write_bytes_total; [done | ]. rewrite length_le_bytes, Hr1. done. }
  destruct (write_obj_at 2 mem1 _ _) as [mem2 | ] eqn:Hw2; [ | done].
  exists mem1, mem2. split_and!; try done.
  unfold add_used, st_bind, with_mem. rewrite ready_layout_ready.
  destruct (Z.gtb_spec len (chain_writable_len chain)); [lia | ].
  cbn [st_get]. rewrite A1, A2. cbn [write_ring]. rewrite Hw. cbn [st_modify write_ring].
  unfold published in Hw2. by rewrite Hw2.
Qed.
End laws2.

(** * Runs of a queue beside its guest

    The driver configures the queue and writes guest memory as it pleases; the device
    pops, publishes and polls. *)

Section runs.
Context {M : Type} `{GuestMemoryLaws M}.

Inductive qstep : Queue * M -> Queue * M -> Prop :=
| qstep_set_size q mem size :
    is_u16 size -> qstep (q, mem) ((set_size size q).1, mem)
| qstep_set_addr q mem addr f :
    is_u64 addr -> f ∈ [set_desc_addr; set_avail_addr; set_used_addr] -> qstep (q, mem) (f q addr, mem)
| qstep_activate q mem : qstep (q, mem) ((queue_activate mem q).1, mem)
| qstep_deactivate q mem : qstep (q, mem) (queue_deactivate q, mem)
| qstep_reset q mem : qstep (q, mem) (queue_reset q, mem)
| qstep_pending q mem : qstep (q, mem) ((pending mem q).1, mem)
| qstep_pop q mem limits q' r :
    wf_limits limits -> pop_descriptor_chain mem limits q = Some (q', r) -> qstep (q, mem) (q', mem)
| qstep_add_used q mem chain len :
    0 <= len -> qstep (q, mem) (add_used chain len (q, mem)).1
| qstep_needs_notification q mem : qstep (q, mem) ((needs_notification mem q).1, mem)
| qstep_guest q mem mem' :
    mem_wf mem' -> mem_regions mem' = mem_regions mem -> qstep (q, mem) (q, mem').

Definition machine_queue_ok (s : Queue * M) : Prop :=
  mem_wf s.2 /\ queue_ok (mem_regions s.2) s.1.

Lemma not_ready q : q_layout q = None -> ready_layout q = queue_record QueueViolation_NotReady q.
Proof. intros Hl. unfold ready_layout, st_bind, st_get. by rewrite Hl. Qed.

Lemma pop_ok (mem : M) limits q :
  mem_wf mem -> queue_ok (mem_regions mem) q -> wf_limits limits ->
  exists q' r, pop_descriptor_chain mem limits q = Some (q', r) /\ queue_ok (mem_regions mem) q'.
Proof.
  intros Hwf Hq Hlim. destruct (q_layout q) as [l | ] eqn:Hl.
  - destruct (avail_idx_readable mem q l Hwf Hq Hl) as (idx & Hidx & _).
    destruct (pop_ready mem q l Hwf Hq Hl limits idx Hlim Hidx) as ([q' r] & Hp & Hr).
    exists q', r. split; [done | ].
    pose proof (proj2 (ready_geometry mem q l Hq Hl)) as Ha.
    pose proof (advance_avail_ok _ _ Hq Ha) as Hadv.
    destruct Hr as [[_ Ho] | [[_ Ho] | (_ & head & _ & [(c & _ & _ & _ & Ho) | (v & _ & Ho)])]];
      unfold queue_record in Ho; injection Ho as -> ->; try done.
    + by apply queue_ok_record.
    + exact (queue_ok_record _ _ (QueueViolation_Chain head v) Hadv).
  - eexists _, _. split; [ | exact (queue_ok_record _ q QueueViolation_NotReady Hq)].
    unfold pop_descriptor_chain, pop_head, pending, st_bind. by rewrite not_ready.
Qed.

Lemma add_used_ok (mem : M) chain len q :
  mem_wf mem -> queue_ok (mem_regions mem) q -> 0 <= len ->
  machine_queue_ok (add_used chain len (q, mem)).1 /\
  mem_regions (add_used chain len (q, mem)).1.2 = mem_regions mem.
Proof.
  intros Hwf Hq Hlen. destruct (q_layout q) as [l | ] eqn:Hl.
  - destruct (decide (len <= chain_writable_len chain)).
    + destruct (add_used_ready mem q l Hwf Hq Hl chain len) as (m1 & m2 & Hw1 & Hw2 & -> & Hm1 & Hr1); [done | ].
      destruct (write_bytes_spec _ _ _ _ Hm1 (le_bytes_all_bytes 2 _) Hw2) as (_ & Hm2 & Hr2 & _).
      simpl. rewrite Hr2, Hr1. split; [ | done]. split; simpl; [done | ]. rewrite Hr2, Hr1.
      by apply advance_used_ok, (ready_geometry mem q l Hq Hl).
    + unfold add_used, st_bind, with_mem. rewrite (ready_layout_ready q l Hl).
      destruct (Z.gtb_spec len (chain_writable_len chain)); [ | lia]. simpl.
      split; [split; [done | by apply queue_ok_record] | done].
  - unfold add_used, st_bind, with_mem. rewrite not_ready by done. simpl.
    split; [split; [done | by apply queue_ok_record] | done].
Qed.

Lemma qstep_ok s s' : machine_queue_ok s -> qstep s s' -> machine_queue_ok s'.
Proof.
  intros [Hwf Hq] Hs.
  destruct Hs as [q mem size [Hs _] | q mem addr f Ha Hf | q mem | q mem | q mem | q mem
    | q mem limits q' r Hl Hp | q mem chain len Hlen | q mem | q mem mem' Hwf' Hr]; simpl in *.
  - split; [done | ]. by apply set_size_ok.
  - split; [done | ]. destruct (set_addr_ok _ _ _ Hq Ha) as (? & ? & ?).
    repeat (apply elem_of_cons in Hf as [-> | Hf]; [done | ]). by apply elem_of_nil in Hf.
  - split; [done | ]. by apply queue_activate_ok.
  - split; [done | ]. by apply queue_deactivate_ok.
  - split; [done | ]. by apply queue_reset_ok.
  - split; [done | ]. by apply pending_ok.
  - split; [done | ]. destruct (pop_ok mem limits q Hwf Hq Hl) as (q1 & r1 & Hp1 & Hq1).
    simpl. congruence.
  - by apply add_used_ok.
  - split; [done | ]. unfold needs_notification.
    apply (st_preserves_bind (queue_ok (mem_regions mem))); [apply ready_layout_ok | intros l | done].
    apply st_preserves_bind; [apply queue_try_ok | intros flags; apply st_preserves_ret].
  - split; [done | ]. simpl. by rewrite Hr.
Qed.

(** Whatever the driver configures, publishes or scribbles into guest memory and in
    whatever order the device polls, pops and publishes, a queue keeps its invariant: a
    ready queue has a power-of-two size within its maximum, aligned, registered and
    pairwise disjoint rings, and cursors and counters of their widths.  Popping never
    diverges or leaves the bitmap. *)
Theorem queue_invariant max (mem : M) q0 q mem' limits :
  is_u16 max -> mem_wf mem -> queue_new max = Ok q0 ->
  rtc qstep (q0, mem) (q, mem') -> wf_limits limits ->
  queue_ok (mem_regions mem') q /\ exists out, pop_descriptor_chain mem' limits q = Some out.
Proof.
  intros Hmax Hwf Hnew Hrun Hlim.
  assert (Hok : machine_queue_ok (q, mem')).
  { assert (H0' : machine_queue_ok (q0, mem)) by (split; [done | by eapply queue_new_ok]).
    revert H0'. generalize (q, mem') (q0, mem) Hrun. clear.
    intros s' s Hrun. induction Hrun as [ | s1 s2 s3 H12 _ IH]; [done | ]. intros H1. apply IH.
    by eapply qstep_ok. }
  destruct Hok as [Hwf' Hq]. split; [done | ].
  destruct (pop_ok mem' limits q Hwf' Hq Hlim) as (q1 & r & Hp & _). by eexists.
Qed.

(** The available ring is consumed in order, one head at a time: on a ready queue a
    pop finds nothing when the driver's index equals the cursor, refuses an index more
    than a queue ahead, and otherwise takes the head at the cursor's slot and advances
    the cursor by exactly one, modulo 2^16, even when the chain is refused; a chain it
    returns is safe.  The next slot is the next one around the ring and one head fewer
    is pending. *)
Theorem pop_fifo (mem : M) q l limits :
  mem_wf mem -> queue_ok (mem_regions mem) q -> q_layout q = Some l -> wf_limits limits ->
  exists idx out,
    read_obj_at 2 mem (layout_avail l + 2) = Ok idx /\
    pop_descriptor_chain mem limits q = Some out /\ pop_result mem q l limits idx out /\
    wrapping_add16 (q_next_avail q) 1 mod layout_size l =
      (q_next_avail q mod layout_size l + 1) mod layout_size l /\
    (0 < wrapping_sub16 idx (q_next_avail q) ->
     wrapping_sub16 idx (wrapping_add16 (q_next_avail q) 1) =
     wrapping_sub16 idx (q_next_avail q) - 1).
Proof.
  intros Hwf Hq Hl Hlim. destruct (avail_idx_readable mem q l Hwf Hq Hl) as (idx & Hidx & _).
  destruct (pop_ready mem q l Hwf Hq Hl limits idx Hlim Hidx) as (out & Hp & Hr).
  exists idx, out. split_and!; try done.
  - destruct (ready_geometry mem q l Hq Hl) as [(Hs & _) _]. by eapply slot_step.
  - apply wrapping_sub16_step. by destruct Hq as (_ & _ & _ & _ & _ & ? & _).
Qed.

(** Publishing a chain writes its used element (head and length) into the cursor's
    slot, then the index that reveals it, and nothing else: every byte outside those ten
    is unchanged, so descriptors, available ring and buffers outside the used ring are
    never disturbed. *)
Theorem add_used_publishes (mem : M) q l chain len :
  mem_wf mem -> queue_ok (mem_regions mem) q -> q_layout q = Some l ->
  is_u16 (chain_head chain) -> is_u32 len -> len <= chain_writable_len chain ->
  exists mem', add_used chain len (q, mem) = ((published q, mem'), Ok tt) /\
    mem_wf mem' /\ mem_regions mem' = mem_regions mem /\
    read_bytes mem' (used_slot q l) 8 = Ok (used_element (chain_head chain) len) /\
    read_obj_at 2 mem' (layout_used l + 2) = Ok (wrapping_add16 (q_next_used q) 1) /\
    (forall x, ~ used_slot q l <= x < used_slot q l + 8 ->
       ~ layout_used l + 2 <= x < layout_used l + 4 -> mem_byte mem' x = mem_byte mem x) /\
    layout_used l + 4 <= used_slot q l /\
    used_slot q l + 8 <= layout_used l + (6 + 8 * layout_size l).
Proof.
  intros Hwf Hq Hl Hh Hlen Hcap.
  destruct (add_used_ready mem q l Hwf Hq Hl chain len) as (m1 & m2 & Hw1 & Hw2 & Ha & Hm1 & Hr1);
    [unfold is_uint in Hlen; lia | ].
  destruct (used_element_bytes (chain_head chain) len) as [Hb Hbl].
  destruct (write_bytes_spec _ _ _ _ Hwf Hb Hw1) as (_ & _ & _ & Hx1).
  destruct (write_bytes_spec _ _ _ _ Hm1 (le_bytes_all_bytes 2 _) Hw2) as (_ & Hm2 & Hr2 & Hx2).
  pose proof (read_bytes_written _ _ _ _ Hwf Hb Hw1) as Hback. rewrite Hbl in Hback, Hx1.
  rewrite length_le_bytes in Hx2.
  pose proof (slot_range mem q l Hq Hl (q_next_used q)) as Hslot.
  exists m2. split_and!; try done; try (unfold used_slot; lia).
  - congruence.
  - destruct (read_bytes_frame m1 (layout_used l + 2) (le_bytes 2 (q_next_used (published q))) m2
      (used_slot q l) 8 Hm1 (le_bytes_all_bytes _ _) Hw2) as [Hf | [_ Hf]].
    + right. rewrite length_le_bytes. unfold used_slot. lia.
    + rewrite Hf. exact Hback.
    + by rewrite Hback in Hf.
  - eapply read_obj_at_written; [exact Hm1 | | exact Hw2].
    exact (wrapping_add16_range (q_next_used q) 1).
  - intros x Hn1 Hn2. rewrite Hx2, decide_False by lia. rewrite Hx1, decide_False by lia. done.
Qed.
End runs.

(** * What device work leaves alone

    Polling, popping and publishing touch cursors and counters only. *)

Definition same_config (q0 q : Queue) : Prop :=
  q_max_size q = q_max_size q0 /\ q_size q = q_size q0 /\ q_desc q = q_desc q0 /\
  q_avail q = q_avail q0 /\ q_used q = q_used q0 /\ q_layout q = q_layout q0 /\
  q_activated q = q_activated q0.

Section fixed.
Context {M : Type} `{GuestMemory M} (q0 : Queue).

Lemma record_fixed {A} v : st_preserves (same_config q0) (queue_record (A:=A) v).
Proof. by intros q Hq. Qed.

Lemma try_fixed {A E} (f : E -> QueueViolation) (r : Result A E) :
  st_preserves (same_config q0) (queue_try f r).
Proof. destruct r; [apply st_preserves_ret | apply record_fixed]. Qed.

Lemma ready_layout_fixed : st_preserves (same_config q0) ready_layout.
Proof.
  apply st_preserves_bind; [by intros q | ]. intros q.
  destruct (q_layout q); [apply st_preserves_ret | apply record_fixed].
Qed.

Lemma ring_addr_fixed base offset : st_preserves (same_config q0) (ring_addr base offset).
Proof. unfold ring_addr. case_match; [apply st_preserves_ret | apply record_fixed]. Qed.

Lemma needs_notification_fixed (mem : M) : st_preserves (same_config q0) (needs_notification mem).
Proof.
  apply st_preserves_bind; [apply ready_layout_fixed | intros l].
  apply st_preserves_bind; [apply try_fixed | intros flags; apply st_preserves_ret].
Qed.

Lemma pending_fixed (mem : M) : st_preserves (same_config q0) (pending mem).
Proof.
  apply st_preserves_bind; [apply ready_layout_fixed | intros l].
  apply st_preserves_bind; [apply ring_addr_fixed | intros a].
  apply st_preserves_bind; [apply try_fixed | intros i].
  apply st_preserves_bind; [by intros q | intros q].
  simpl. destruct (_ >? _); [apply record_fixed | apply st_preserves_ret].
Qed.

Lemma pop_head_fixed (mem : M) : st_preserves (same_config q0) (pop_head mem).
Proof.
  apply st_preserves_bind; [apply pending_fixed | ].
  intros n. destruct (n =? 0); [apply st_preserves_ret | ].
  apply st_preserves_bind; [apply ready_layout_fixed | intros l].
  apply st_preserves_bind; [by intros q | intros q].
  apply st_preserves_bind; [apply ring_addr_fixed | intros a].
  apply st_preserves_bind; [apply try_fixed | intros head].
  apply st_preserves_bind; [by intros q' Hq' | intros _; apply st_preserves_ret].
Qed.

Lemma pop_fixed (mem : M) limits q q' r :
  same_config q0 q -> pop_descriptor_chain mem limits q = Some (q', r) -> same_config q0 q'.
Proof.
  intros Hq. unfold pop_descriptor_chain. pose proof (pop_head_fixed mem q Hq) as Hp.
  destruct (pop_head mem q) as [q1 [[[l head] | ] | e]]; simpl in Hp; [ | by intros [= <- <-]..].
  destruct (walk_chain _ _ _ _ _) as [[c | v] | ]; intros [= <- <-]; done.
Qed.

Lemma with_mem_fixed {A} (c : ST Queue QueueViolation A) :
  st_preserves (same_config q0) c ->
  st_preserves (fun s : Queue * M => same_config q0 s.1) (with_mem c).
Proof. intros Hc [q mem] Hq. specialize (Hc q Hq). simpl. by destruct (c q). Qed.

Lemma write_ring_fixed (write : M -> Result M GuestMemoryError) :
  st_preserves (fun s : Queue * M => same_config q0 s.1) (write_ring write).
Proof. intros [q mem] Hq. simpl. by destruct (write mem). Qed.

Lemma add_used_fixed chain len :
  st_preserves (fun s : Queue * M => same_config q0 s.1) (add_used chain len).
Proof.
  apply st_preserves_bind; [apply with_mem_fixed, ready_layout_fixed | intros l].
  destruct (_ >? _); [apply with_mem_fixed, record_fixed | ].
  apply st_preserves_bind; [by apply with_mem_fixed; intros q | intros q].
  apply st_preserves_bind; [apply with_mem_fixed, ring_addr_fixed | intros elem].
  apply st_preserves_bind; [apply with_mem_fixed, ring_addr_fixed | intros idx].
  apply st_preserves_bind; [apply write_ring_fixed | intros _].
  apply st_preserves_bind; [by apply with_mem_fixed; intros q' Hq' | intros _].
  apply st_preserves_bind; [by apply with_mem_fixed; intros q' | intros q'].
  apply write_ring_fixed.
Qed.
End fixed.

Lemma same_config_refl q : same_config q q.
Proof. by unfold same_config. Qed.

Lemma same_config_ready q q' :
  same_config q q' -> queue_is_ready q' = queue_is_ready q /\ q_max_size q' = q_max_size q.
Proof. intros (Hm & _ & _ & _ & _ & Hl & _). unfold queue_is_ready. by rewrite Hl. Qed.

(** * The snapshot record *)

Lemma lor_shiftl_byte x b : 0 <= x -> is_u8 b -> Z.lor (Z.shiftl x 8) b = b + 256 * x.
Proof.
  intros Hx [Hb0 Hb].
  assert (Hand : Z.land (Z.shiftl x 8) b = 0).
  { apply Z.bits_inj'. intros n Hn. rewrite Z.land_spec, Z.bits_0, Z.shiftl_spec by lia.
    destruct (decide (n < 8)); [by rewrite (Z.testbit_neg_r x) by lia | ].
    rewrite (Z.bounded_iff_bits_nonneg 8 b) in Hb by lia.
    by rewrite (Hb n), andb_false_r by lia. }
  rewrite <- Z.lxor_lor, <- Z.add_nocarry_lxor, Z.shiftl_mul_pow2 by (done || lia). lia.
Qed.

Lemma le_u64_val b : all_bytes b -> (length b <= 8)%nat -> le_u64 b = le_val b.
Proof.
  unfold le_u64. intros Hb. induction Hb as [ | x b Hx Hb IH]; intros Hl; [done | ].
  simpl in *. rewrite foldl_snoc, IH by lia. simpl.
  pose proof (le_val_range b Hb) as [H0 Hr].
  assert (2 ^ (8 * Z.of_nat (length b)) <= 2 ^ 56) by (apply Z.pow_le_mono_r; lia).
  rewrite Z.mod_small; [by apply lor_shiftl_byte | ]. rewrite Z.shiftl_mul_pow2 by lia. lia.
Qed.

Lemma le_u64_exact (b : bytes) n z :
  all_bytes b -> length b = n -> (n <= 8)%nat -> is_uint (8 * Z.of_nat n) z ->
  le_u64 b = z <-> b = le_bytes n z.
Proof.
  intros Hb Hl Hn Hz. rewrite le_u64_val by (done || lia). split.
  - intros <-. rewrite <- Hl. by rewrite le_bytes_val.
  - intros ->. by apply le_val_bytes.
Qed.

Definition wf_queue_state (s : QueueState) : Prop :=
  is_u16 (qs_size s) /\ is_u64 (qs_desc s) /\ is_u64 (qs_avail s) /\ is_u64 (qs_used s) /\
  is_u16 (qs_next_avail s) /\ is_u16 (qs_next_used s).

Lemma le_u64_bytes z : is_u64 z -> le_u64 (le_bytes 8 z) = z.
Proof.
  intros Hz. rewrite le_u64_val; [by apply (le_val_bytes 8) | apply le_bytes_all_bytes | done].
Qed.

Lemma queue_state_bytes_length s : length (queue_state_to_bytes s) = QUEUE_STATE_LEN.
Proof. done. Qed.

Lemma queue_state_codec s :
  wf_queue_state s -> queue_state_from_bytes (queue_state_to_bytes s) = Ok s.
Proof.
  destruct s as [size ready activated desc avail used na nu].
  intros (H1 & H2 & H3 & H4 & H5 & H6). simpl in *. unfold queue_state_from_bytes.
  rewrite queue_state_bytes_length. cbn [negb Nat.eqb].
  set (s := mkQueueState _ _ _ _ _ _ _ _).
  replace (state_flag (queue_state_to_bytes s) 2) with (@Ok bool QueueStateError ready) by (by destruct ready).
  replace (state_flag (queue_state_to_bytes s) 3) with (@Ok bool QueueStateError activated)
    by (by destruct activated).
  unfold QUEUE_STATE_LEN; cbn [negb Nat.eqb]. unfold s. do 2 f_equal.
  - exact (le_val_bytes 2 size H1).
  - exact (le_u64_bytes desc H2).
  - exact (le_u64_bytes avail H3).
  - exact (le_u64_bytes used H4).
  - exact (le_val_bytes 2 na H5).
  - exact (le_val_bytes 2 nu H6).
Qed.

(** The running rings are the registers' ones. *)
Definition coherent (q : Queue) : Prop :=
  forall l, q_layout q = Some l -> l = mkQueueLayout (q_size q) (q_desc q) (q_avail q) (q_used q).

Section restore.
Context {M : Type} `{GuestMemoryLaws M}.

Lemma queue_restore_new max : size_ok max MAX_QUEUE_SIZE ->
  queue_new max = Ok (mkQueue max max 0 0 0 None false 0 0 queue_counters_default).
Proof.
  intros Hm. unfold queue_new.
  assert (0 <= max) by (destruct Hm as (_ & ? & _); lia).
  by rewrite (proj2 (validate_size_spec max MAX_QUEUE_SIZE max H1)).
Qed.

Lemma set_size_new q size :
  size_ok size (q_max_size q) -> set_size size q = (q_with_size q size, Ok tt).
Proof.
  intros Hs. unfold set_size, st_bind, st_get.
  assert (0 <= size) by (destruct Hs as (_ & ? & _); lia).
  by rewrite (proj2 (validate_size_spec size (q_max_size q) size H1)).
Qed.

(** What restoring a queue's own record gives: the same queue with the registers'
    geometry and fresh counters, if that geometry is still valid. *)
Lemma queue_restore_state (mem : M) q :
  mem_wf mem -> queue_ok (mem_regions mem) q ->
  queue_restore mem (q_max_size q) (queue_state q) =
  (let rebuilt layout := mkQueue (q_max_size q) (q_size q) (q_desc q) (q_avail q) (q_used q) layout
                           (q_activated q) (q_next_avail q) (q_next_used q) queue_counters_default in
   if queue_is_ready q then
     map_ok (fun l => rebuilt (Some l)) (map_err QueueViolation_Layout
       (layout_validate mem (q_size q) (q_max_size q) (q_desc q) (q_avail q) (q_used q)))
   else Ok (rebuilt None)).
Proof.
  intros Hwf (H1 & H2 & H3 & H4 & H5 & H6 & H7 & H8 & H9 & H10 & H11).
  unfold queue_restore. rewrite queue_restore_new by done. cbn [map_err].
  cbn [queue_state qs_size]. rewrite set_size_new by done.
  cbn [queue_state qs_ready qs_activated qs_next_avail qs_next_used qs_desc qs_avail qs_used].
  unfold queue_is_ready. destruct (q_layout q) as [l | ] eqn:Hl; cbn [andb].
  - destruct (H8 l eq_refl) as [_ Ha]. rewrite Ha. cbn [negb andb].
    unfold queue_activate, st_bind, st_get. cbn.
    by destruct (layout_validate _ _ _ _ _ _).
  - destruct (q_activated q); cbn [negb andb]; [done | ].
    destruct H9 as [-> ->]; [done | ]. done.
Qed.

Definition fresh_counters (q : Queue) : Queue := q_with_violations q queue_counters_default.

Lemma queue_state_wf regions q : queue_ok regions q -> wf_queue_state (queue_state q).
Proof.
  intros (_ & (_ & H2 & H2') & H3 & H4 & H5 & H6 & H7 & _). unfold wf_queue_state; simpl.
  split_and!; try done. unfold is_uint, MAX_QUEUE_SIZE in *. lia.
Qed.

Lemma queue_restore_coherent (mem : M) q :
  mem_wf mem -> queue_ok (mem_regions mem) q -> coherent q ->
  queue_restore mem (q_max_size q) (queue_state q) = Ok (fresh_counters q).
Proof.
  intros Hwf Hq Hco. rewrite queue_restore_state by done. cbv zeta. unfold queue_is_ready, fresh_counters.
  destruct (q_layout q) as [l | ] eqn:Hl; unfold q_with_violations; rewrite Hl; [ | done].
  pose proof Hq as (_ & (_ & Hs & _) & _ & _ & _ & _ & _ & H8 & _).
  destruct (H8 l Hl) as [Hg _]. rewrite (Hco l Hl) in Hg |- *.
  assert (Hs0 : 0 <= q_size q) by lia.
  by rewrite (proj2 (layout_validate_iff mem _ _ _ _ _ _ Hwf Hs0) (conj eq_refl Hg)).
Qed.

(** A snapshot brings a queue back: encoding the state of a queue whose running
    rings are the ones its registers describe and restoring the decoded record yields
    the same registers, layout, activation and cursors, with fresh violation
    counters. *)
Theorem queue_snapshot_roundtrip (mem : M) q :
  mem_wf mem -> queue_ok (mem_regions mem) q -> coherent q ->
  exists s, queue_state_from_bytes (queue_state_to_bytes (queue_state q)) = Ok s /\
    queue_restore mem (q_max_size q) s = Ok (fresh_counters q).
Proof.
  intros Hwf Hq Hco. exists (queue_state q). split.
  - by eapply queue_state_codec, queue_state_wf.
  - by apply queue_restore_coherent.
Qed.
End restore.

(** * A sample queue: one writable four-byte buffer published *)

Definition ring_memory : VecGuestMemory :=
  mkVecGuestMemory
    [mkRegion 0 (descriptor_to_bytes (mkDescriptor 256 4 VIRTQ_DESC_F_WRITE 0) ++ repeat 0 48 ++
                 le_bytes 2 0 ++ le_bytes 2 1 ++ le_bytes 2 0 ++ repeat 0 442)].

Definition ring_registers : Queue :=
  mkQueue 2 2 0 64 128 None false 0 0 queue_counters_default.

Definition ring_layout : QueueLayout := mkQueueLayout 2 0 64 128.

Definition ring_queue : Queue :=
  mkQueue 2 2 0 64 128 (Some ring_layout) true 0 0 queue_counters_default.

Definition ring_limits : ChainLimits := mkChainLimits 2 1024.

Definition ring_chain : DescriptorChain := mkDescriptorChain 0 [mkChainSegment 256 4 true] 0 4.

Lemma ring_memory_wf : mem_wf ring_memory.
Proof. by vm_compute; repeat (split || constructor). Qed.

Lemma ring_queue_activated : queue_activate ring_memory ring_registers = (ring_queue, Ok tt).
Proof. by vm_compute. Qed.

Lemma ring_registers_reached :
  exists q0, queue_new 2 = Ok q0 /\ rtc qstep (q0, ring_memory) (ring_queue, ring_memory).
Proof.
  eexists. split; [reflexivity | ].
  eapply rtc_l; [apply (qstep_set_addr _ _ 64 set_avail_addr); [by vm_compute | set_solver] | ].
  eapply rtc_l; [apply (qstep_set_addr _ _ 128 set_used_addr); [by vm_compute | set_solver] | ].
  eapply rtc_l; [apply qstep_activate | ].
  change (set_used_addr _ 128) with ring_registers. rewrite ring_queue_activated. done.
Qed.

Lemma ring_queue_ok : queue_ok (mem_regions ring_memory) ring_queue.
Proof.
  change ring_queue with (ring_queue, @Ok unit QueueViolation tt).1. rewrite <- ring_queue_activated.
  apply (queue_activate_ok ring_memory ring_memory_wf).
  apply (set_addr_ok _ (set_avail_addr (mkQueue 2 2 0 0 0 None false 0 0 queue_counters_default) 64)).
  - apply (set_addr_ok _ (mkQueue 2 2 0 0 0 None false 0 0 queue_counters_default)); [ | by vm_compute].
    by apply (queue_new_ok _ 2).
  - by vm_compute.
Qed.

(** The same ring on a queue with a larger maximum. *)
Definition ring_queue_of (max : Z) : Queue :=
  mkQueue max 2 0 64 128 (Some ring_layout) true 0 0 queue_counters_default.

Lemma ring_queue_of_ok max : max = 64 \/ max = 256 -> queue_ok (mem_regions ring_memory) (ring_queue_of max).
Proof.
  intros Hmax. destruct ring_queue_ok as (_ & _ & H3 & H4 & H5 & H6 & H7 & H8 & H9 & H10 & H11).
  unfold queue_ok; cbn in *. split_and!; try done; [destruct Hmax as [-> | ->]; by vm_compute.. | ].
  intros l Hl. destruct (H8 l Hl) as [(_ & Hg) _]. split; [ | done]. split; [ | done].
  injection Hl as <-. destruct Hmax as [-> | ->]; by vm_compute.
Qed.

Lemma ring_limits_wf : wf_limits ring_limits.
Proof. by vm_compute. Qed.

Lemma queue_invariant_witness :
  queue_ok (mem_regions ring_memory) ring_queue /\
  exists out, pop_descriptor_chain ring_memory ring_limits ring_queue = Some out.
Proof.
  destruct ring_registers_reached as (q0 & Hnew & Hrun).
  apply (queue_invariant 2 ring_memory q0 ring_queue ring_memory ring_limits);
    [by vm_compute | exact ring_memory_wf | exact Hnew | exact Hrun | exact ring_limits_wf].
Defined.

Lemma pop_fifo_witness :
  exists idx out, read_obj_at 2 ring_memory 66 = Ok idx /\
    pop_descriptor_chain ring_memory ring_limits ring_queue = Some out /\
    pop_result ring_memory ring_queue ring_layout ring_limits idx out.
Proof.
  destruct (pop_fifo ring_memory ring_queue ring_layout ring_limits ring_memory_wf ring_queue_ok
    eq_refl ring_limits_wf) as (idx & out & Hi & Hp & Hr & _).
  by exists idx, out.
Defined.

Lemma ring_pop :
  pop_descriptor_chain ring_memory ring_limits ring_queue =
  Some (q_with_next_avail ring_queue 1, Ok (Some ring_chain)).
Proof. by vm_compute. Qed.

Lemma add_used_publishes_witness :
  exists mem', add_used ring_chain 4 (ring_queue, ring_memory) = ((published ring_queue, mem'), Ok tt) /\
    read_obj_at 2 mem' 130 = Ok 1.
Proof.
  destruct (add_used_publishes ring_memory ring_queue ring_layout ring_chain 4 ring_memory_wf
    ring_queue_ok eq_refl) as (mem' & Ha & _ & _ & _ & Hi & _);
    [by vm_compute | by vm_compute | by vm_compute | ].
  exists mem'. split; [exact Ha | exact Hi].
Defined.

Lemma queue_snapshot_roundtrip_witness :
  exists s, queue_state_from_bytes (queue_state_to_bytes (queue_state ring_queue)) = Ok s /\
    queue_restore ring_memory 2 s = Ok (fresh_counters ring_queue).
Proof.
  apply (queue_snapshot_roundtrip ring_memory ring_queue ring_memory_wf ring_queue_ok).
  intros l [= <-]. reflexivity.
Defined.
