(* ===== verification/Transport.v ===== *)
(** The virtio-mmio transport ([crates/soma-kvm/src/virtio/transport.rs], [transport/],
    [device.rs]): the register file, the status lifecycle, feature negotiation, queue
    configuration, host-side completion and the snapshot record. *)

From S2P Require Import Prelude Bytes GuestMemory QueueChain Virtqueue.
From stdpp Require Import options.

(** * The device seam ([device.rs]) *)

Definition VIRTIO_F_VERSION_1 : Z := 2 ^ 32.
Definition MAX_CONFIG_LEN : Z := 0x1000 - 0x100.
Definition MAX_QUEUES : nat := 8.
Definition SOMA_VENDOR_ID : Z := 0x534f4d41.

Inductive ConfigAccessError : Type :=
| ConfigAccessError_OutOfBounds
| ConfigAccessError_ReadOnly
| ConfigAccessError_Unaligned.

Inductive ActivateError : Type :=
| ActivateError_UnsupportedFeatures (negotiated : Z)
| ActivateError_BackendUnavailable.

Inductive DeviceStateError : Type :=
| DeviceStateError_Malformed
| DeviceStateError_Incompatible.

#[export] Instance ConfigAccessError_eq_dec : EqDecision ConfigAccessError.
Proof. solve_decision. Defined.
#[export] Instance ActivateError_eq_dec : EqDecision ActivateError.
Proof. solve_decision. Defined.

Class VirtioDevice (D : Type) : Type := {
  device_id : D -> Z;
  vendor_id : D -> Z;
  feature_allowlist : D -> Z;
  queue_max_sizes : D -> list Z;
  config_len : D -> Z;
  device_read_config : D -> Z -> nat -> Result bytes ConfigAccessError;
  device_write_config : D -> Z -> bytes -> D * Result unit ConfigAccessError;
  device_activate : D -> Z -> D * Result unit ActivateError;
  device_reset : D -> D;
  device_snapshot_state : D -> bytes;
  device_restore_state : D -> bytes -> D * Result unit DeviceStateError;
}.

(** * Registers ([registers.rs]) *)

Definition MAGIC_VALUE : Z := 0x74726976.
Definition MMIO_VERSION : Z := 2.
Definition MMIO_PAGE_SIZE : Z := 0x1000.
Definition CONFIG_OFFSET : Z := 0x100.

Inductive AccessWidth : Type := AccessWidth_U8 | AccessWidth_U16 | AccessWidth_U32 | AccessWidth_U64.

#[export] Instance AccessWidth_eq_dec : EqDecision AccessWidth.
Proof. solve_decision. Defined.

Definition width_bytes (w : AccessWidth) : nat :=
  match w with
  | AccessWidth_U8 => 1
  | AccessWidth_U16 => 2
  | AccessWidth_U32 => 4
  | AccessWidth_U64 => 8
  end.

Inductive Register : Type :=
| Register_MagicValue
| Register_Version
| Register_DeviceId
| Register_VendorId
| Register_DeviceFeatures
| Register_DeviceFeaturesSel
| Register_DriverFeatures
| Register_DriverFeaturesSel
| Register_QueueSel
| Register_QueueNumMax
| Register_QueueNum
| Register_QueueReady
| Register_QueueNotify
| Register_InterruptStatus
| Register_InterruptAck
| Register_Status
| Register_QueueDescLow
| Register_QueueDescHigh
| Register_QueueDriverLow
| Register_QueueDriverHigh
| Register_QueueDeviceLow
| Register_QueueDeviceHigh
| Register_ShmSel
| Register_ShmLenLow
| Register_ShmLenHigh
| Register_ShmBaseLow
| Register_ShmBaseHigh
| Register_QueueReset
| Register_ConfigGeneration
| Register_Config (offset : Z).

(** The [REG_*] constants with the register each one decodes to. *)
Definition REGISTERS : list (Z * Register) :=
  [(0x000, Register_MagicValue); (0x004, Register_Version); (0x008, Register_DeviceId);
   (0x00c, Register_VendorId); (0x010, Register_DeviceFeatures);
   (0x014, Register_DeviceFeaturesSel); (0x020, Register_DriverFeatures);
   (0x024, Register_DriverFeaturesSel); (0x030, Register_QueueSel);
   (0x034, Register_QueueNumMax); (0x038, Register_QueueNum); (0x044, Register_QueueReady);
   (0x050, Register_QueueNotify); (0x060, Register_InterruptStatus);
   (0x064, Register_InterruptAck); (0x070, Register_Status); (0x080, Register_QueueDescLow);
   (0x084, Register_QueueDescHigh); (0x090, Register_QueueDriverLow);
   (0x094, Register_QueueDriverHigh); (0x0a0, Register_QueueDeviceLow);
   (0x0a4, Register_QueueDeviceHigh); (0x0ac, Register_ShmSel); (0x0b0, Register_ShmLenLow);
   (0x0b4, Register_ShmLenHigh); (0x0b8, Register_ShmBaseLow); (0x0bc, Register_ShmBaseHigh);
   (0x0c0, Register_QueueReset); (0x0fc, Register_ConfigGeneration)].

Definition register_decode (offset : Z) : option Register :=
  match list_find (fun p : Z * Register => p.1 = offset) REGISTERS with
  | Some (_, (_, register)) => Some register
  | None =>
      if (CONFIG_OFFSET <=? offset) && (offset <? MMIO_PAGE_SIZE)
      then Some (Register_Config (offset - CONFIG_OFFSET)) else None
  end.

(** * Status ([status.rs]) *)

Definition STATUS_ACKNOWLEDGE : Z := 1.
Definition STATUS_DRIVER : Z := 2.
Definition STATUS_DRIVER_OK : Z := 4.
Definition STATUS_FEATURES_OK : Z := 8.
Definition STATUS_DEVICE_NEEDS_RESET : Z := 64.
Definition STATUS_FAILED : Z := 128.

Definition KNOWN_BITS : Z := 1 + 2 + 4 + 8 + 64 + 128.
Definition DRIVER_SETTABLE : Z := 1 + 2 + 4 + 8 + 128.

Inductive StatusViolation : Type :=
| StatusViolation_UnknownBits (value : Z)
| StatusViolation_ClearedBits (current value : Z)
| StatusViolation_MultipleBits (value : Z)
| StatusViolation_DriverSetNeedsReset
| StatusViolation_OutOfOrder (bit : Z).

#[export] Instance StatusViolation_eq_dec : EqDecision StatusViolation.
Proof. solve_decision. Defined.

Inductive StatusWrite : Type :=
| StatusWrite_Reset
| StatusWrite_Unchanged
| StatusWrite_SetBit (bit : Z).

Definition status_has (status bit : Z) : bool := Z.land status bit =? bit.
Definition status_driver_ok (status : Z) : bool := status_has status STATUS_DRIVER_OK.
Definition status_features_ok (status : Z) : bool := status_has status STATUS_FEATURES_OK.
Definition status_is_failed (status : Z) : bool :=
  status_has status STATUS_DEVICE_NEEDS_RESET || status_has status STATUS_FAILED.
Definition status_with (status bit : Z) : Z := Z.lor status bit.

Definition prerequisite (bit : Z) : Z :=
  if bit =? STATUS_DRIVER then STATUS_ACKNOWLEDGE
  else if bit =? STATUS_FEATURES_OK then STATUS_DRIVER
  else if bit =? STATUS_DRIVER_OK then STATUS_FEATURES_OK
  else 0.

(** The loop of [from_bits] over the lifecycle bits. *)
Fixpoint status_order (bits : Z) (chain : list Z) : option Z :=
  match chain with
  | [] => None
  | bit :: chain =>
      if status_has bits bit && negb (status_has bits (prerequisite bit)) then Some bit
      else status_order bits chain
  end.

Definition status_from_bits (bits : Z) : Result Z StatusViolation :=
  if negb (Z.land bits (lnot_w 8 KNOWN_BITS) =? 0) then Err (StatusViolation_UnknownBits bits)
  else match status_order bits [STATUS_DRIVER_OK; STATUS_FEATURES_OK; STATUS_DRIVER; STATUS_ACKNOWLEDGE] with
       | Some bit => Err (StatusViolation_OutOfOrder bit)
       | None => Ok bits
       end.

(** [u8::count_ones] *)
Definition count_ones (b : Z) : nat := length (filter (fun i => Z.testbit b i = true) (seqZ 0 8)).

Definition classify_write (status value : Z) : Result StatusWrite StatusViolation :=
  if value =? 0 then Ok StatusWrite_Reset
  else if negb ((value <=? U8_MAX) && (Z.land value (lnot_w 8 KNOWN_BITS) =? 0))
  then Err (StatusViolation_UnknownBits value)
  else if negb (Z.land status (lnot_w 8 value) =? 0)
  then Err (StatusViolation_ClearedBits status value)
  else
    let new_bits := Z.land value (lnot_w 8 status) in
    if new_bits =? 0 then Ok StatusWrite_Unchanged
    else if negb (Z.land new_bits STATUS_DEVICE_NEEDS_RESET =? 0)
    then Err StatusViolation_DriverSetNeedsReset
    else if negb (count_ones new_bits =? 1)%nat || negb (Z.land new_bits (lnot_w 8 DRIVER_SETTABLE) =? 0)
    then Err (StatusViolation_MultipleBits value)
    else if negb (new_bits =? STATUS_FAILED) && negb (status_has status (prerequisite new_bits))
    then Err (StatusViolation_OutOfOrder new_bits)
    else Ok (StatusWrite_SetBit new_bits).

(** * Violations ([violation.rs]) *)

Inductive TransportViolation : Type :=
| TransportViolation_UnknownRegister (offset : Z)
| TransportViolation_WidthMismatch (offset : Z)
| TransportViolation_ReadOfWriteOnly (offset : Z)
| TransportViolation_WriteOfReadOnly (offset : Z)
| TransportViolation_ConfigurationLocked (offset : Z)
| TransportViolation_FeaturesRejected (unsupported : Z) (missing_version_1 : bool)
| TransportViolation_Status (violation : StatusViolation)
| TransportViolation_QueueSelOutOfRange (sel : Z)
| TransportViolation_Queue (violation : QueueViolation)
| TransportViolation_NotifyBeforeDriverOk
| TransportViolation_NotifyOutOfRange (index : Z)
| TransportViolation_NotifyQueueNotReady (index : Z)
| TransportViolation_ConfigOutOfBounds (offset : Z)
| TransportViolation_ConfigAccess (error : ConfigAccessError)
| TransportViolation_InterruptAckUnknownBits (value : Z)
| TransportViolation_Activate (error : ActivateError)
| TransportViolation_RingResetUnsupported.

#[export] Instance TransportViolation_eq_dec : EqDecision TransportViolation.
Proof. solve_decision. Defined.

(** [kind() as usize] *)
Definition transport_violation_kind (v : TransportViolation) : nat :=
  match v with
  | TransportViolation_UnknownRegister _ => 0
  | TransportViolation_WidthMismatch _ => 1
  | TransportViolation_ReadOfWriteOnly _ => 2
  | TransportViolation_WriteOfReadOnly _ => 3
  | TransportViolation_ConfigurationLocked _ => 4
  | TransportViolation_FeaturesRejected _ _ => 5
  | TransportViolation_Status _ => 6
  | TransportViolation_QueueSelOutOfRange _ => 7
  | TransportViolation_Queue _ => 8
  | TransportViolation_NotifyBeforeDriverOk => 9
  | TransportViolation_NotifyOutOfRange _ => 10
  | TransportViolation_NotifyQueueNotReady _ => 11
  | TransportViolation_ConfigOutOfBounds _ => 12
  | TransportViolation_ConfigAccess _ => 13
  | TransportViolation_InterruptAckUnknownBits _ => 14
  | TransportViolation_Activate _ => 15
  | TransportViolation_RingResetUnsupported => 16
  end.

Definition TRANSPORT_KIND_COUNT : nat := 17.

Definition transport_counters_record (counts : list Z) (v : TransportViolation) : list Z :=
  alter (fun slot => saturating_add U32_MAX slot 1) (transport_violation_kind v) counts.

(** * The transport ([transport.rs]) *)

Definition INTERRUPT_USED_BUFFER : Z := 1.
Definition INTERRUPT_CONFIG_CHANGE : Z := 2.
Definition INTERRUPT_KNOWN : Z := Z.lor INTERRUPT_USED_BUFFER INTERRUPT_CONFIG_CHANGE.

Inductive TransportEvent : Type :=
| TransportEvent_None
| TransportEvent_QueueNotify (index : Z)
| TransportEvent_DriverOk
| TransportEvent_Reset
| TransportEvent_ConfigWritten (offset : Z) (len : nat).

Inductive TransportConfigError : Type :=
| TransportConfigError_MissingVersion1
| TransportConfigError_QueueCount (count : nat)
| TransportConfigError_QueueMax (index : nat) (violation : LayoutViolation)
| TransportConfigError_ConfigTooLarge (len : Z).

Record MmioTransport (D : Type) : Type := mkMmioTransport {
  t_device : D;
  t_queues : list Queue;
  t_status : Z;
  t_device_features_sel : Z;
  t_driver_features_sel : Z;
  t_driver_features : Z;
  t_queue_sel : Z;
  t_interrupt_status : Z;
  t_config_generation : Z;
  t_violations : list Z
}.
Arguments mkMmioTransport {D} _ _ _ _ _ _ _ _ _ _.
Arguments t_device {D} _.
Arguments t_queues {D} _.
Arguments t_status {D} _.
Arguments t_device_features_sel {D} _.
Arguments t_driver_features_sel {D} _.
Arguments t_driver_features {D} _.
Arguments t_queue_sel {D} _.
Arguments t_interrupt_status {D} _.
Arguments t_config_generation {D} _.
Arguments t_violations {D} _.

(** The loop of [new] over the device's queue maxima. *)
Fixpoint queues_new (index : nat) (maxes : list Z) : Result (list Queue) TransportConfigError :=
  match maxes with
  | [] => Ok []
  | max :: maxes =>
      let? q := map_err (TransportConfigError_QueueMax index) (queue_new max) in
      let? qs := queues_new (S index) maxes in
      Ok (q :: qs)
  end.

Section transport.
Context {D : Type} `{VirtioDevice D}.

Abbreviation T := (MmioTransport D).
Abbreviation TM := (ST T TransportViolation).

Definition transport_new (device : D) : Result T TransportConfigError :=
  if Z.land (feature_allowlist device) VIRTIO_F_VERSION_1 =? 0
  then Err TransportConfigError_MissingVersion1
  else
    let maxes := queue_max_sizes device in
    if ((length maxes =? 0) || (MAX_QUEUES <? length maxes))%nat
    then Err (TransportConfigError_QueueCount (length maxes))
    else if config_len device >? MAX_CONFIG_LEN
    then Err (TransportConfigError_ConfigTooLarge (config_len device))
    else
      let? queues := queues_new 0 maxes in
      Ok (mkMmioTransport device queues 0 0 0 0 0 0 0 (replicate TRANSPORT_KIND_COUNT 0)).

(** Field updates. *)
Definition t_set_device (t : T) (device : D) : T :=
  mkMmioTransport device (t_queues t) (t_status t) (t_device_features_sel t)
    (t_driver_features_sel t) (t_driver_features t) (t_queue_sel t) (t_interrupt_status t)
    (t_config_generation t) (t_violations t).
Definition t_set_queues (t : T) (queues : list Queue) : T :=
  mkMmioTransport (t_device t) queues (t_status t) (t_device_features_sel t)
    (t_driver_features_sel t) (t_driver_features t) (t_queue_sel t) (t_interrupt_status t)
    (t_config_generation t) (t_violations t).
Definition t_set_status (t : T) (status : Z) : T :=
  mkMmioTransport (t_device t) (t_queues t) status (t_device_features_sel t)
    (t_driver_features_sel t) (t_driver_features t) (t_queue_sel t) (t_interrupt_status t)
    (t_config_generation t) (t_violations t).
Definition t_set_device_features_sel (t : T) (sel : Z) : T :=
  mkMmioTransport (t_device t) (t_queues t) (t_status t) sel
    (t_driver_features_sel t) (t_driver_features t) (t_queue_sel t) (t_interrupt_status t)
    (t_config_generation t) (t_violations t).
Definition t_set_driver_features_sel (t : T) (sel : Z) : T :=
  mkMmioTransport (t_device t) (t_queues t) (t_status t) (t_device_features_sel t)
    sel (t_driver_features t) (t_queue_sel t) (t_interrupt_status t)
    (t_config_generation t) (t_violations t).
Definition t_set_driver_features (t : T) (features : Z) : T :=
  mkMmioTransport (t_device t) (t_queues t) (t_status t) (t_device_features_sel t)
    (t_driver_features_sel t) features (t_queue_sel t) (t_interrupt_status t)
    (t_config_generation t) (t_violations t).
Definition t_set_queue_sel (t : T) (sel : Z) : T :=
  mkMmioTransport (t_device t) (t_queues t) (t_status t) (t_device_features_sel t)
    (t_driver_features_sel t) (t_driver_features t) sel (t_interrupt_status t)
    (t_config_generation t) (t_violations t).
Definition t_set_interrupt_status (t : T) (interrupt : Z) : T :=
  mkMmioTransport (t_device t) (t_queues t) (t_status t) (t_device_features_sel t)
    (t_driver_features_sel t) (t_driver_features t) (t_queue_sel t) interrupt
    (t_config_generation t) (t_violations t).
Definition t_set_config_generation (t : T) (generation : Z) : T :=
  mkMmioTransport (t_device t) (t_queues t) (t_status t) (t_device_features_sel t)
    (t_driver_features_sel t) (t_driver_features t) (t_queue_sel t) (t_interrupt_status t)
    generation (t_violations t).
Definition t_set_violations (t : T) (violations : list Z) : T :=
  mkMmioTransport (t_device t) (t_queues t) (t_status t) (t_device_features_sel t)
    (t_driver_features_sel t) (t_driver_features t) (t_queue_sel t) (t_interrupt_status t)
    (t_config_generation t) violations.

(** [Err(self.record(violation))] *)
Definition transport_record {A} (v : TransportViolation) : TM A :=
  fun t => (t_set_violations t (transport_counters_record (t_violations t) v), Err v).

Definition is_active (t : T) : bool := status_driver_ok (t_status t) && negb (status_is_failed (t_status t)).

Definition selected_queue (t : T) : option Queue := t_queues t !! Z.to_nat (t_queue_sel t).

Definition device_features_word (t : T) : Z :=
  let allowlist := feature_allowlist (t_device t) in
  if t_device_features_sel t =? 0 then Z.land allowlist 0xffffffff
  else if t_device_features_sel t =? 1 then Z.shiftr allowlist 32
  else 0.

Definition config_range (offset : Z) (len : nat) : TM Z :=
  t <-- st_get ;;
  if (offset + Z.of_nat len <=? USIZE_MAX) && (offset + Z.of_nat len <=? config_len (t_device t))
  then st_ret offset
  else transport_record (TransportViolation_ConfigOutOfBounds offset).

(** The bytes read fill the low end of a zeroed eight-byte buffer. *)
Definition transport_read_config (offset : Z) (width : AccessWidth) : TM Z :=
  start <-- config_range offset (width_bytes width) ;;
  t <-- st_get ;;
  match device_read_config (t_device t) start (width_bytes width) with
  | Ok buf => st_ret (le_val (buf ++ replicate (8 - width_bytes width) 0))
  | Err error => transport_record (TransportViolation_ConfigAccess error)
  end.

Definition queue_ready_word (q : option Queue) : Z :=
  match q with Some q => if queue_is_ready q then 1 else 0 | None => 0 end.

Definition transport_read (offset : Z) (width : AccessWidth) : TM Z :=
  match register_decode offset with
  | None => st_err (TransportViolation_UnknownRegister offset)
  | Some (Register_Config config_offset) => transport_read_config config_offset width
  | Some register =>
      if bool_decide (width <> AccessWidth_U32)
      then transport_record (TransportViolation_WidthMismatch offset)
      else
        t <-- st_get ;;
        match register with
        | Register_MagicValue => st_ret MAGIC_VALUE
        | Register_Version => st_ret MMIO_VERSION
        | Register_DeviceId => st_ret (device_id (t_device t))
        | Register_VendorId => st_ret (vendor_id (t_device t))
        | Register_DeviceFeatures => st_ret (device_features_word t)
        | Register_QueueNumMax =>
            st_ret match selected_queue t with Some q => q_max_size q | None => 0 end
        | Register_QueueReady => st_ret (queue_ready_word (selected_queue t))
        | Register_InterruptStatus => st_ret (t_interrupt_status t)
        | Register_Status => st_ret (t_status t)
        | Register_ShmLenLow | Register_ShmLenHigh | Register_ShmBaseLow | Register_ShmBaseHigh =>
            st_ret U32_MAX
        | Register_QueueReset => st_ret 0
        | Register_ConfigGeneration => st_ret (t_config_generation t)
        | _ => transport_record (TransportViolation_ReadOfWriteOnly offset)
        end
  end.

Definition reset_all (t : T) : T :=
  mkMmioTransport (device_reset (t_device t)) (queue_reset <$> t_queues t) 0 0 0 0 0 0
    (t_config_generation t) (t_violations t).

(** * Driver writes ([write.rs]) *)

Definition write_driver_features (offset word : Z) : TM unit :=
  t <-- st_get ;;
  if status_features_ok (t_status t)
  then transport_record (TransportViolation_ConfigurationLocked offset)
  else if t_driver_features_sel t =? 0 then
    st_modify (fun t => t_set_driver_features t
      (Z.lor (Z.land (t_driver_features t) (lnot_w 64 0xffffffff)) word))
  else if t_driver_features_sel t =? 1 then
    st_modify (fun t => t_set_driver_features t
      (Z.lor (Z.land (t_driver_features t) 0xffffffff) (Z.shiftl word 32)))
  else st_ret tt.

(** [apply] runs on the selected queue and may leave it changed with an error. *)
Definition with_selected_queue (offset : Z) (apply : ST Queue TransportViolation unit) : TM unit :=
  t <-- st_get ;;
  if status_driver_ok (t_status t)
  then transport_record (TransportViolation_ConfigurationLocked offset)
  else match selected_queue t with
  | None => transport_record (TransportViolation_QueueSelOutOfRange (t_queue_sel t))
  | Some q =>
      let '(q', r) := apply q in
      st_modify (fun t => t_set_queues t (<[Z.to_nat (t_queue_sel t) := q']> (t_queues t))) ;;;
      match r with
      | Ok _ => st_ret tt
      | Err v => transport_record v
      end
  end.

(** A queue method inside the closure, its violation wrapped. *)
Definition queue_call {A} (c : ST Queue QueueViolation A) : ST Queue TransportViolation A :=
  fun q => let '(q, r) := c q in (q, map_err TransportViolation_Queue r).

Definition write_queue_ready {M} `{GuestMemory M} (offset word : Z) (mem : M) : TM TransportEvent :=
  if word =? 0 then
    with_selected_queue offset (st_modify queue_deactivate) ;;;
    st_ret TransportEvent_None
  else
    t <-- st_get ;;
    if negb (status_features_ok (t_status t))
    then transport_record (TransportViolation_ConfigurationLocked offset)
    else
      with_selected_queue offset (queue_call (queue_activate mem)) ;;;
      st_ret TransportEvent_None.

Definition write_queue_notify (value : Z) : TM TransportEvent :=
  t <-- st_get ;;
  if negb (is_active t) then transport_record TransportViolation_NotifyBeforeDriverOk
  else if negb ((value <=? U16_MAX) && (value <? Z.of_nat (length (t_queues t))))
  then transport_record (TransportViolation_NotifyOutOfRange value)
  else match t_queues t !! Z.to_nat value with
  | Some q =>
      if queue_is_ready q then st_ret (TransportEvent_QueueNotify value)
      else transport_record (TransportViolation_NotifyQueueNotReady value)
  | None => transport_record (TransportViolation_NotifyOutOfRange value)
  end.

Definition write_interrupt_ack (value : Z) : TM unit :=
  let acked := if value <=? U32_MAX then value else U32_MAX in
  st_modify (fun t => t_set_interrupt_status t
    (Z.land (t_interrupt_status t) (lnot_w 32 (Z.land acked INTERRUPT_KNOWN)))) ;;;
  if negb (Z.land value (lnot_w 64 INTERRUPT_KNOWN) =? 0)
  then transport_record (TransportViolation_InterruptAckUnknownBits value)
  else st_ret tt.

(** [set_needs_reset] of [host.rs]. *)
Definition set_needs_reset (t : T) : T :=
  t_set_queues (t_set_status t (status_with (t_status t) STATUS_DEVICE_NEEDS_RESET))
    (queue_deactivate <$> t_queues t).

Definition check_features : TM unit :=
  t <-- st_get ;;
  let unsupported := Z.land (t_driver_features t) (lnot_w 64 (feature_allowlist (t_device t))) in
  let missing_version_1 := Z.land (t_driver_features t) VIRTIO_F_VERSION_1 =? 0 in
  if negb (unsupported =? 0) || missing_version_1
  then transport_record (TransportViolation_FeaturesRejected unsupported missing_version_1)
  else st_ret tt.

Definition write_status (value : Z) : TM TransportEvent :=
  t <-- st_get ;;
  match classify_write (t_status t) value with
  | Err violation => transport_record (TransportViolation_Status violation)
  | Ok StatusWrite_Reset => st_modify reset_all ;;; st_ret TransportEvent_Reset
  | Ok StatusWrite_Unchanged => st_ret TransportEvent_None
  | Ok (StatusWrite_SetBit bit) =>
      if bit =? STATUS_FEATURES_OK then
        check_features ;;;
        st_modify (fun t => t_set_status t (status_with (t_status t) STATUS_FEATURES_OK)) ;;;
        st_ret TransportEvent_None
      else if bit =? STATUS_DRIVER_OK then
        let '(device, r) := device_activate (t_device t) (t_driver_features t) in
        st_modify (fun t => t_set_device t device) ;;;
        match r with
        | Err error =>
            st_modify set_needs_reset ;;;
            transport_record (TransportViolation_Activate error)
        | Ok _ =>
            st_modify (fun t => t_set_status t (status_with (t_status t) STATUS_DRIVER_OK)) ;;;
            st_ret TransportEvent_DriverOk
        end
      else
        st_modify (fun t => t_set_status t (status_with (t_status t) bit)) ;;;
        st_ret TransportEvent_None
  end.

Definition transport_write_config (offset : Z) (width : AccessWidth) (value : Z) : TM TransportEvent :=
  start <-- config_range offset (width_bytes width) ;;
  t <-- st_get ;;
  let '(device, r) :=
    device_write_config (t_device t) start (take (width_bytes width) (le_bytes 8 value)) in
  st_modify (fun t => t_set_device t device) ;;;
  match r with
  | Ok _ => st_ret (TransportEvent_ConfigWritten offset (width_bytes width))
  | Err error => transport_record (TransportViolation_ConfigAccess error)
  end.

Definition low (current word : Z) : Z := Z.lor (Z.land current (lnot_w 64 0xffffffff)) word.
Definition high (current word : Z) : Z := Z.lor (Z.land current 0xffffffff) (Z.shiftl word 32).

(** [Ok(TransportEvent::None)] after a register that only changes state. *)
Definition then_none (c : TM unit) : TM TransportEvent := c ;;; st_ret TransportEvent_None.

Definition transport_write {M} `{GuestMemory M} (offset : Z) (width : AccessWidth) (value : Z) (mem : M)
    : TM TransportEvent :=
  match register_decode offset with
  | None => st_err (TransportViolation_UnknownRegister offset)
  | Some (Register_Config config_offset) => transport_write_config config_offset width value
  | Some register =>
      if bool_decide (width <> AccessWidth_U32)
      then transport_record (TransportViolation_WidthMismatch offset)
      else if value >? U32_MAX
      then transport_record (TransportViolation_WidthMismatch offset)
      else
        let word := value in
        match register with
        | Register_DeviceFeaturesSel => then_none (st_modify (fun t => t_set_device_features_sel t word))
        | Register_DriverFeaturesSel => then_none (st_modify (fun t => t_set_driver_features_sel t word))
        | Register_DriverFeatures => then_none (write_driver_features offset word)
        | Register_QueueSel => then_none (st_modify (fun t => t_set_queue_sel t word))
        | Register_QueueNum =>
            then_none (with_selected_queue offset
              (queue_call (set_size (if word <=? U16_MAX then word else U16_MAX))))
        | Register_QueueReady => write_queue_ready offset word mem
        | Register_QueueNotify => write_queue_notify value
        | Register_InterruptAck => then_none (write_interrupt_ack value)
        | Register_Status => write_status value
        | Register_QueueDescLow =>
            then_none (with_selected_queue offset
              (st_modify (fun q => set_desc_addr q (low (q_desc q) word))))
        | Register_QueueDescHigh =>
            then_none (with_selected_queue offset
              (st_modify (fun q => set_desc_addr q (high (q_desc q) word))))
        | Register_QueueDriverLow =>
            then_none (with_selected_queue offset
              (st_modify (fun q => set_avail_addr q (low (q_avail q) word))))
        | Register_QueueDriverHigh =>
            then_none (with_selected_queue offset
              (st_modify (fun q => set_avail_addr q (high (q_avail q) word))))
        | Register_QueueDeviceLow =>
            then_none (with_selected_queue offset
              (st_modify (fun q => set_used_addr q (low (q_used q) word))))
        | Register_QueueDeviceHigh =>
            then_none (with_selected_queue offset
              (st_modify (fun q => set_used_addr q (high (q_used q) word))))
        | Register_ShmSel => st_ret TransportEvent_None
        | Register_QueueReset => transport_record TransportViolation_RingResetUnsupported
        | _ => transport_record (TransportViolation_WriteOfReadOnly offset)
        end
  end.

(** * Host operations ([host.rs]) *)

(** The memory is part of the state, as in [add_used]. *)
Definition complete_used {M} `{GuestMemory M} (index : Z) (chain : DescriptorChain) (len : Z)
    (t : T) (mem : M) : T * M * Result bool TransportViolation :=
  if negb (is_active t) then
    let '(t, r) := transport_record TransportViolation_NotifyBeforeDriverOk t in (t, mem, r)
  else match t_queues t !! Z.to_nat index with
  | None => let '(t, r) := transport_record (TransportViolation_NotifyOutOfRange index) t in (t, mem, r)
  | Some q =>
      let '((q1, mem1), r1) := add_used chain len (q, mem) in
      let '(q2, r2) := match r1 with
                       | Ok _ => needs_notification mem1 q1
                       | Err v => (q1, Err v)
                       end in
      let t := t_set_queues t (<[Z.to_nat index := q2]> (t_queues t)) in
      match r2 with
      | Err v => let '(t, r) := transport_record (TransportViolation_Queue v) t in (t, mem1, r)
      | Ok notify =>
          (t_set_interrupt_status t (Z.lor (t_interrupt_status t) INTERRUPT_USED_BUFFER), mem1, Ok notify)
      end
  end.

Definition signal_config_change (t : T) : T :=
  t_set_interrupt_status
    (t_set_config_generation t (wrapping_add32 (t_config_generation t) 1))
    (Z.lor (t_interrupt_status t) INTERRUPT_CONFIG_CHANGE).
End transport.

(** * The snapshot record ([state.rs]) *)

Definition TRANSPORT_STATE_HEADER_LEN : nat := 30.

Record TransportState : Type := mkTransportState {
  ts_status : Z;
  ts_device_features_sel : Z;
  ts_driver_features_sel : Z;
  ts_driver_features : Z;
  ts_queue_sel : Z;
  ts_interrupt_status : Z;
  ts_config_generation : Z;
  ts_queues : list QueueState
}.

Inductive TransportStateError : Type :=
| TransportStateError_Length (actual : nat)
| TransportStateError_QueueCount (count : Z)
| TransportStateError_Queue (index : nat) (error : QueueStateError).

Definition transport_header (s : TransportState) : bytes :=
  [ts_status s] ++ le_bytes 4 (ts_device_features_sel s) ++ le_bytes 4 (ts_driver_features_sel s) ++
  le_bytes 8 (ts_driver_features s) ++ le_bytes 4 (ts_queue_sel s) ++
  le_bytes 4 (ts_interrupt_status s) ++ le_bytes 4 (ts_config_generation s) ++
  [Z.of_nat (length (ts_queues s))].

Definition transport_state_to_bytes (s : TransportState) : Result bytes TransportStateError :=
  if (MAX_QUEUES <? length (ts_queues s))%nat then Err (TransportStateError_QueueCount U8_MAX)
  else Ok (transport_header s ++ concat (queue_state_to_bytes <$> ts_queues s)).

Definition u32_at (raw : bytes) (offset : nat) : Z :=
  let v := le_u64 (take 4 (drop offset raw)) in if v <=? U32_MAX then v else 0.

(** The loop over the queue records from [index] on. *)
Fixpoint queue_records (raw : bytes) (index remaining : nat)
    : Result (list QueueState) TransportStateError :=
  match remaining with
  | O => Ok []
  | S remaining =>
      let start := (TRANSPORT_STATE_HEADER_LEN + index * QUEUE_STATE_LEN)%nat in
      let? q := map_err (TransportStateError_Queue index)
                  (queue_state_from_bytes (take QUEUE_STATE_LEN (drop start raw))) in
      let? qs := queue_records raw (S index) remaining in
      Ok (q :: qs)
  end.

Definition transport_state_from_bytes (raw : bytes) : Result TransportState TransportStateError :=
  if (length raw <? TRANSPORT_STATE_HEADER_LEN)%nat then Err (TransportStateError_Length (length raw))
  else
    let count := default 0 (raw !! 29%nat) in
    if count >? Z.of_nat MAX_QUEUES then Err (TransportStateError_QueueCount count)
    else if negb (length raw =? TRANSPORT_STATE_HEADER_LEN + Z.to_nat count * QUEUE_STATE_LEN)%nat
    then Err (TransportStateError_Length (length raw))
    else
      let? queues := queue_records raw 0 (Z.to_nat count) in
      Ok (mkTransportState (default 0 (raw !! 0%nat)) (u32_at raw 1) (u32_at raw 5)
            (le_u64 (take 8 (drop 9 raw))) (u32_at raw 17) (u32_at raw 21) (u32_at raw 25) queues).

Inductive RestoreError : Type :=
| RestoreError_Config (error : TransportConfigError)
| RestoreError_Status (violation : StatusViolation)
| RestoreError_QueueCount (expected actual : nat)
| RestoreError_InterruptStatus (value : Z)
| RestoreError_Transport (violation : TransportViolation)
| RestoreError_Queue (index : nat) (violation : TransportViolation).

Section transport_state.
Context {D : Type} `{VirtioDevice D}.

(** [MmioTransport::state] *)
Definition transport_state (t : MmioTransport D) : TransportState :=
  mkTransportState (t_status t) (t_device_features_sel t) (t_driver_features_sel t)
    (t_driver_features t) (t_queue_sel t) (t_interrupt_status t) (t_config_generation t)
    (queue_state <$> t_queues t).

(** The loop of [restore] over the queue records, with the queues of the fresh
    transport for their maxima. *)
Fixpoint restore_queues {M} `{GuestMemory M} (mem : M) (features_ok : bool) (index : nat)
    (fresh : list Queue) (states : list QueueState) : Result (list Queue) RestoreError :=
  match fresh, states with
  | q :: fresh, s :: states =>
      if qs_ready s && negb features_ok
      then Err (RestoreError_Queue index (TransportViolation_ConfigurationLocked 0))
      else
        let? q := map_err (fun v => RestoreError_Queue index (TransportViolation_Queue v))
                    (queue_restore mem (q_max_size q) s) in
        let? qs := restore_queues mem features_ok (S index) fresh states in
        Ok (q :: qs)
  | _, _ => Ok []
  end.

Definition transport_restore {M} `{GuestMemory M} (device : D) (state : TransportState) (mem : M)
    : Result (MmioTransport D) RestoreError :=
  let? t := map_err RestoreError_Config (transport_new device) in
  let? status := map_err RestoreError_Status (status_from_bits (ts_status state)) in
  if negb (length (ts_queues state) =? length (t_queues t))%nat
  then Err (RestoreError_QueueCount (length (t_queues t)) (length (ts_queues state)))
  else if negb (Z.land (ts_interrupt_status state) (lnot_w 32 INTERRUPT_KNOWN) =? 0)
  then Err (RestoreError_InterruptStatus (ts_interrupt_status state))
  else
    let t := t_set_driver_features t (ts_driver_features state) in
    let? _ := (if status_features_ok status
               then map_err RestoreError_Transport (check_features t).2
               else Ok tt) in
    let? queues := restore_queues mem (status_features_ok status) 0 (t_queues t) (ts_queues state) in
    let? device := (if status_driver_ok status then
                      match device_activate (t_device t) (ts_driver_features state) with
                      | (device, Ok _) => Ok device
                      | (_, Err error) => Err (RestoreError_Transport (TransportViolation_Activate error))
                      end
                    else Ok (t_device t)) in
    Ok (mkMmioTransport device queues status (ts_device_features_sel state)
          (ts_driver_features_sel state) (ts_driver_features state) (ts_queue_sel state)
          (ts_interrupt_status state) (ts_config_generation state) (t_violations t)).
End transport_state.
