(* ===== verification/TransportFacts.v ===== *)
(** The invariant of the virtio-mmio transport, which every driver and host operation
    keeps, and what a device promises the transport. *)

From S2P Require Import Prelude Bytes GuestMemory QueueChain Virtqueue VirtqueueFacts Transport.
From stdpp Require Import options.

(** * What a device promises the transport

    Its feature allowlist, queue limits and configuration length are fixed. *)

Class VirtioDeviceLaws (D : Type) `{VirtioDevice D} : Prop := {
  allowlist_u64 device : is_u64 (feature_allowlist device);
  queue_max_u16 device : Forall is_u16 (queue_max_sizes device);
  reset_fixed device :
    feature_allowlist (device_reset device) = feature_allowlist device /\
    queue_max_sizes (device_reset device) = queue_max_sizes device /\
    config_len (device_reset device) = config_len device;
  activate_fixed device features :
    feature_allowlist (device_activate device features).1 = feature_allowlist device /\
    queue_max_sizes (device_activate device features).1 = queue_max_sizes device /\
    config_len (device_activate device features).1 = config_len device;
  write_config_fixed device offset data :
    feature_allowlist (device_write_config device offset data).1 = feature_allowlist device /\
    queue_max_sizes (device_write_config device offset data).1 = queue_max_sizes device /\
    config_len (device_write_config device offset data).1 = config_len device;
}.

(** * Status *)

(** A status register the lifecycle can reach: what [from_bits] accepts. *)
Definition status_ok (status : Z) : Prop := is_u8 status /\ status_from_bits status = Ok status.

(** The order of the lifecycle bits. *)
Definition status_ordered (status : Z) : Prop :=
  (status_driver_ok status = true -> status_features_ok status = true) /\
  (status_features_ok status = true -> status_has status STATUS_DRIVER = true) /\
  (status_has status STATUS_DRIVER = true -> status_has status STATUS_ACKNOWLEDGE = true).

Definition u8_all (f : Z -> bool) : bool := forallb f (seqZ 0 256).

Lemma u8_all_spec f b : u8_all f = true -> is_u8 b -> f b = true.
Proof.
  unfold u8_all. rewrite forallb_forall. intros Hf Hb. apply Hf, list_elem_of_In, elem_of_seqZ.
  exact Hb.
Qed.

Definition is_u8b (b : Z) : bool := (0 <=? b) && (b <? 256).

Definition status_okb (s : Z) : bool := is_u8b s && bool_decide (is_ok (status_from_bits s) = true).

Lemma status_from_bits_id s r : status_from_bits s = Ok r -> r = s.
Proof. unfold status_from_bits. case_match; [done | ]. case_match; congruence. Qed.

Lemma status_okb_spec s : status_okb s = true <-> status_ok s.
Proof.
  unfold status_okb, status_ok, is_u8b, is_uint. rewrite !andb_true_iff, Z.leb_le, Z.ltb_lt, bool_decide_eq_true.
  destruct (status_from_bits s) as [r | e] eqn:E; simpl.
  - apply status_from_bits_id in E as ->. naive_solver.
  - naive_solver.
Qed.

Lemma status_ok_ordered s : status_ok s -> status_ordered s.
Proof.
  intros [Hs Hok].
  assert (Hall : u8_all (fun s => negb (status_okb s) ||
    (implb (status_driver_ok s) (status_features_ok s) &&
     implb (status_features_ok s) (status_has s STATUS_DRIVER) &&
     implb (status_has s STATUS_DRIVER) (status_has s STATUS_ACKNOWLEDGE))) = true) by (by vm_compute).
  apply (u8_all_spec _ s) in Hall; [ | done]. cbv beta in Hall.
  rewrite (proj2 (status_okb_spec s)) in Hall by done. simpl in Hall.
  unfold status_ordered. zbool.
  repeat match goal with H : implb _ _ = true |- _ => rewrite implb_true_iff in H end. done.
Qed.

(** Every bit the transport sets keeps the order. *)
Definition set_bits_ok (s v : Z) : bool :=
  match classify_write s v with
  | Ok (StatusWrite_SetBit b) =>
      status_okb (status_with s b) && (v =? status_with s b) &&
      Bool.eqb (status_features_ok (status_with s b)) (status_features_ok s || (b =? STATUS_FEATURES_OK)) &&
      Bool.eqb (status_driver_ok (status_with s b)) (status_driver_ok s || (b =? STATUS_DRIVER_OK)) &&
      implb (b =? STATUS_DRIVER_OK) (negb (status_driver_ok s))
  | Ok StatusWrite_Unchanged => v =? s
  | _ => true
  end.

Lemma classify_write_ok s v :
  status_ok s -> 0 <= v -> set_bits_ok s v = true.
Proof.
  intros Hs Hv. destruct (decide (v < 256)) as [Hlt | Hge].
  - assert (Hall : u8_all (fun s => negb (status_okb s) || u8_all (fun v => set_bits_ok s v)) = true)
      by (by vm_compute).
    apply (u8_all_spec _ s) in Hall; [ | by destruct Hs]. cbv beta in Hall.
    rewrite (proj2 (status_okb_spec s)) in Hall by done. simpl in Hall.
    by apply (u8_all_spec (fun v => set_bits_ok s v) v) in Hall.
  - unfold set_bits_ok, classify_write. destruct (Z.eqb_spec v 0); [lia | ].
    unfold U8_MAX. destruct (Z.leb_spec v (2 ^ 8 - 1)); [lia | ]. done.
Qed.

Lemma classify_set_bit s v b :
  status_ok s -> 0 <= v -> classify_write s v = Ok (StatusWrite_SetBit b) ->
  status_ok (status_with s b) /\ v = status_with s b /\
  status_features_ok (status_with s b) = status_features_ok s || (b =? STATUS_FEATURES_OK) /\
  status_driver_ok (status_with s b) = status_driver_ok s || (b =? STATUS_DRIVER_OK) /\
  (b = STATUS_DRIVER_OK -> status_driver_ok s = false).
Proof.
  intros Hs Hv Hc. pose proof (classify_write_ok s v Hs Hv) as Hok. unfold set_bits_ok in Hok.
  rewrite Hc in Hok. rewrite !andb_true_iff, !Bool.eqb_true_iff, Z.eqb_eq in Hok.
  destruct Hok as [[[[H1 H2] H3] H4] H5]. split_and!; try done; [by apply status_okb_spec | ].
  intros ->. simpl in H5. by apply negb_true_iff in H5.
Qed.

Lemma needs_reset_ok s :
  status_ok s -> status_ok (status_with s STATUS_DEVICE_NEEDS_RESET) /\
    status_features_ok (status_with s STATUS_DEVICE_NEEDS_RESET) = status_features_ok s /\
    status_driver_ok (status_with s STATUS_DEVICE_NEEDS_RESET) = status_driver_ok s.
Proof.
  intros Hs.
  assert (Hall : u8_all (fun s => negb (status_okb s) ||
    (status_okb (status_with s STATUS_DEVICE_NEEDS_RESET) &&
     bool_decide (status_features_ok (status_with s STATUS_DEVICE_NEEDS_RESET) = status_features_ok s) &&
     bool_decide (status_driver_ok (status_with s STATUS_DEVICE_NEEDS_RESET) = status_driver_ok s))) = true)
    by (by vm_compute).
  apply (u8_all_spec _ s) in Hall; [ | by destruct Hs]. cbv beta in Hall.
  rewrite (proj2 (status_okb_spec s)) in Hall by done. simpl in Hall. zbool.
  rewrite !bool_decide_eq_true in *. split_and!; try done. by apply status_okb_spec.
Qed.

Lemma status_ok_zero : status_ok 0.
Proof. by apply status_okb_spec. Qed.

(** * The transport invariant *)

Definition features_accepted (allowlist features : Z) : Prop :=
  Z.land features (lnot_w 64 allowlist) = 0 /\ Z.land features VIRTIO_F_VERSION_1 <> 0.

(** Only the two bits the transport raises. *)
Definition interrupt_ok (interrupt : Z) : Prop := is_uint 2 interrupt.

(** A queue of a transport: only after [FEATURES_OK] may it be ready. *)
Definition tq_ok (regions : list (Z * Z)) (features_ok : bool) (q : Queue) : Prop :=
  queue_ok regions q /\ (queue_is_ready q = true -> features_ok = true).

Section invariant.
Context {D : Type} `{VirtioDeviceLaws D}.

Definition transport_ok (regions : list (Z * Z)) (t : MmioTransport D) : Prop :=
  status_ok (t_status t) /\
  (status_features_ok (t_status t) = true ->
     features_accepted (feature_allowlist (t_device t)) (t_driver_features t)) /\
  Forall (tq_ok regions (status_features_ok (t_status t))) (t_queues t) /\
  q_max_size <$> t_queues t = queue_max_sizes (t_device t) /\
  interrupt_ok (t_interrupt_status t) /\
  is_u32 (t_device_features_sel t) /\ is_u32 (t_driver_features_sel t) /\
  is_u64 (t_driver_features t) /\ is_u32 (t_queue_sel t) /\ is_u32 (t_config_generation t) /\
  length (t_violations t) = TRANSPORT_KIND_COUNT.

Lemma transport_counted_ok regions t v :
  transport_ok regions t ->
  transport_ok regions (t_set_violations t (transport_counters_record (t_violations t) v)).
Proof.
  intros (H1 & H2 & H3 & H4 & H5 & H6 & H7 & H8 & H9 & H10 & H11). unfold transport_ok; simpl.
  split_and!; try done. unfold transport_counters_record. by rewrite length_alter.
Qed.

Lemma transport_record_ok regions {A} v :
  st_preserves (transport_ok regions) (transport_record (D:=D) (A:=A) v).
Proof.
  intros t Ht. by apply transport_counted_ok.
Qed.

(** Changing one queue in a way that keeps what the transport needs of it. *)
Definition apply_ok (regions : list (Z * Z)) (features_ok : bool)
    (apply : ST Queue TransportViolation unit) : Prop :=
  forall q, tq_ok regions features_ok q ->
    tq_ok regions features_ok (apply q).1 /\ q_max_size (apply q).1 = q_max_size q.

Lemma set_queue_ok regions t i q q' :
  transport_ok regions t -> t_queues t !! i = Some q ->
  tq_ok regions (status_features_ok (t_status t)) q' -> q_max_size q' = q_max_size q ->
  transport_ok regions (t_set_queues t (<[i := q']> (t_queues t))).
Proof.
  intros (H1 & H2 & H3 & H4 & H5 & H6 & H7 & H8 & H9 & H10 & H11) Hi Hq' Hm.
  unfold transport_ok; simpl. split_and!; try done.
  - by apply Forall_insert.
  - rewrite <- H4, list_fmap_insert, Hm. apply list_insert_id. by rewrite list_lookup_fmap, Hi.
Qed.

Lemma transport_queue_ok regions t i q :
  transport_ok regions t -> t_queues t !! i = Some q ->
  tq_ok regions (status_features_ok (t_status t)) q.
Proof. intros (_ & _ & H3 & _) Hi. rewrite Forall_lookup in H3. by eapply H3. Qed.

Lemma with_selected_queue_ok regions offset apply t :
  transport_ok regions t -> apply_ok regions (status_features_ok (t_status t)) apply ->
  transport_ok regions (with_selected_queue offset apply t).1.
Proof.
  intros Ht Ha. unfold with_selected_queue, st_bind, st_get.
  destruct (status_driver_ok _); [by apply transport_record_ok | ].
  destruct (selected_queue t) as [q | ] eqn:Hq; [ | by apply transport_record_ok].
  destruct (Ha q (transport_queue_ok _ _ _ _ Ht Hq)) as [Hq1 Hm1]. destruct (apply q) as [q' r]; simpl in *.
  pose proof (set_queue_ok _ _ _ _ _ Ht Hq Hq1 Hm1) as Hset.
  destruct r; [done | by apply transport_record_ok].
Qed.

Lemma set_size_apply regions fo size :
  0 <= size -> apply_ok regions fo (queue_call (set_size size)).
Proof.
  intros Hs q [Hq Hr]. pose proof (set_size_ok regions size Hs q Hq) as Hok.
  unfold queue_call. destruct (set_size size q) as [q' r] eqn:E; simpl in *.
  unfold set_size, st_bind, st_get, queue_try in E.
  destruct (validate_size _ _); simpl in E; injection E as <- <-; by split; [split | ].
Qed.

Lemma modify_apply regions fo (f : Queue -> Queue) :
  (forall q, queue_ok regions q -> queue_ok regions (f q)) ->
  (forall q, queue_is_ready (f q) = true -> queue_is_ready q = true) ->
  (forall q, q_max_size (f q) = q_max_size q) ->
  apply_ok regions fo (st_modify f).
Proof. intros Hf Hr Hm q [Hq Hfo]. simpl. split; [split; auto | done]. Qed.

Lemma activate_apply {M} `{GuestMemoryLaws M} (mem : M) :
  mem_wf mem -> apply_ok (mem_regions mem) true (queue_call (queue_activate mem)).
Proof.
  intros Hwf q [Hq _]. pose proof (queue_activate_ok mem Hwf q Hq) as Hok.
  unfold queue_call. destruct (queue_activate mem q) as [q' r] eqn:E; simpl in *.
  split; [by split | ]. unfold queue_activate, st_bind, st_get in E.
  destruct (q_activated q); [by injection E as <- <- | ]. unfold queue_try in E.
  by destruct (layout_validate _ _ _ _ _ _); simpl in E; injection E as <- <-.
Qed.

Lemma is_u64_low current word : is_u64 current -> is_u32 word -> is_u64 (low current word).
Proof.
  intros Hc Hw. unfold low. apply is_uint_lor; [lia | | unfold is_uint in *; lia].
  apply is_uint_land; [lia | done | by vm_compute].
Qed.

Lemma is_u64_high current word : is_u64 current -> is_u32 word -> is_u64 (high current word).
Proof.
  intros Hc Hw. unfold high. apply is_uint_lor; [lia | | ].
  - apply is_uint_land; [lia | done | by vm_compute].
  - rewrite Z.shiftl_mul_pow2 by lia. unfold is_uint in *. lia.
Qed.

Lemma addr_apply regions fo (set : Queue -> Z -> Queue) (get : Queue -> Z) (part : Z -> Z -> Z) word :
  set ∈ [set_desc_addr; set_avail_addr; set_used_addr] ->
  (forall q, queue_ok regions q -> is_u64 (get q)) ->
  (forall current, is_u64 current -> is_u64 (part current word)) ->
  apply_ok regions fo (st_modify (fun q => set q (part (get q) word))).
Proof.
  intros Hset Hget Hpart. apply modify_apply.
  - intros q Hq. destruct (set_addr_ok regions q (part (get q) word) Hq) as (? & ? & ?); [by auto | ].
    repeat (apply elem_of_cons in Hset as [-> | Hset]; [done | ]). by apply elem_of_nil in Hset.
  - intros q. repeat (apply elem_of_cons in Hset as [-> | Hset]; [done | ]). by apply elem_of_nil in Hset.
  - intros q. repeat (apply elem_of_cons in Hset as [-> | Hset]; [done | ]). by apply elem_of_nil in Hset.
Qed.

Lemma status_change_ok regions t status :
  transport_ok regions t -> status_ok status ->
  status_features_ok status = status_features_ok (t_status t) ->
  transport_ok regions (t_set_status t status).
Proof.
  intros (H1 & H2 & H3 & H4 & H5 & H6 & H7 & H8 & H9 & H10 & H11) Hs Hf.
  unfold transport_ok; simpl. rewrite Hf. by split_and!.
Qed.

Lemma set_device_ok regions t device :
  transport_ok regions t ->
  feature_allowlist device = feature_allowlist (t_device t) ->
  queue_max_sizes device = queue_max_sizes (t_device t) ->
  transport_ok regions (t_set_device t device).
Proof.
  intros (H1 & H2 & H3 & H4 & H5 & H6 & H7 & H8 & H9 & H10 & H11) Ha Hm.
  unfold transport_ok; simpl. rewrite Ha, Hm. by split_and!.
Qed.

Lemma reset_all_ok regions t : transport_ok regions t -> transport_ok regions (reset_all t).
Proof using Type*.
  intros (H1 & H2 & H3 & H4 & H5 & H6 & H7 & H8 & H9 & H10 & H11).
  destruct (reset_fixed (t_device t)) as (Ha & Hm & _).
  assert (Hz : is_u32 0) by done. assert (Hz' : is_u64 0) by done.
  unfold transport_ok; simpl. split_and!; try assumption; try done.
  - apply Forall_fmap. eapply Forall_impl; [exact H3 | ]. intros q [Hq _]. split; [by apply queue_reset_ok | done].
  - rewrite Hm, <- H4, <- list_fmap_compose. by apply list_fmap_ext.
Qed.

Lemma deactivate_all_ok regions t :
  transport_ok regions t -> transport_ok regions (t_set_queues t (queue_deactivate <$> t_queues t)).
Proof.
  intros (H1 & H2 & H3 & H4 & H5 & H6 & H7 & H8 & H9 & H10 & H11).
  unfold transport_ok; simpl. split_and!; try done.
  - apply Forall_fmap. eapply Forall_impl; [exact H3 | ].
    intros q [Hq _]. split; [by apply queue_deactivate_ok | done].
  - rewrite <- H4, <- list_fmap_compose. by apply list_fmap_ext.
Qed.

Lemma set_needs_reset_ok regions t : transport_ok regions t -> transport_ok regions (set_needs_reset t).
Proof.
  intros Ht. destruct (needs_reset_ok (t_status t)) as (Hs & Hf & _); [by destruct Ht | ].
  apply (deactivate_all_ok regions (t_set_status t _)). by apply status_change_ok.
Qed.

(** * Driver accesses *)

Lemma write_driver_features_ok regions offset word t :
  transport_ok regions t -> is_u32 word -> transport_ok regions (write_driver_features offset word t).1.
Proof.
  intros Ht Hw. pose proof Ht as (H1 & H2 & H3 & H4 & H5 & H6 & H7 & H8 & H9 & H10 & H11).
  unfold write_driver_features, st_bind, st_get.
  destruct (status_features_ok (t_status t)) eqn:Hf; [by apply transport_record_ok | ].
  pose proof (is_u64_low _ _ H8 Hw). pose proof (is_u64_high _ _ H8 Hw).
  destruct (_ =? 0); [ | destruct (_ =? 1)]; [ | | done];
    unfold transport_ok; simpl; rewrite Hf; by split_and!.
Qed.

Lemma write_queue_ready_ok {M} `{GuestMemoryLaws M} (mem : M) offset word t :
  mem_wf mem -> transport_ok (mem_regions mem) t ->
  transport_ok (mem_regions mem) (write_queue_ready offset word mem t).1.
Proof.
  intros Hwf Ht. unfold write_queue_ready. destruct (word =? 0).
  - unfold st_bind. pose proof (with_selected_queue_ok (mem_regions mem) offset (st_modify queue_deactivate) t Ht) as Hw.
    destruct (with_selected_queue _ _ t) as [t' [[] | e]]; simpl in *; apply Hw, modify_apply; try done;
      apply queue_deactivate_ok.
  - unfold st_bind at 1, st_get. destruct (status_features_ok (t_status t)) eqn:Hf; simpl;
      [ | by apply transport_counted_ok].
    unfold st_bind. pose proof (with_selected_queue_ok (mem_regions mem) offset (queue_call (queue_activate mem)) t Ht) as Hw.
    rewrite Hf in Hw.
    destruct (with_selected_queue _ _ t) as [t' [[] | e]]; simpl in *; by apply Hw, activate_apply.
Qed.

Lemma write_queue_notify_same value (t : MmioTransport D) :
  (write_queue_notify value t).1 = t \/
  exists v, write_queue_notify value t = transport_record v t.
Proof.
  unfold write_queue_notify, st_bind, st_get. destruct (is_active t); simpl; [ | by right; eexists].
  destruct (_ && _); simpl; [ | by right; eexists].
  destruct (t_queues t !! _) as [q | ]; [ | by right; eexists].
  destruct (queue_is_ready q); [by left | by right; eexists].
Qed.

Lemma interrupt_ack_ok regions value t :
  transport_ok regions t -> 0 <= value -> transport_ok regions (write_interrupt_ack value t).1.
Proof.
  intros Ht Hv. unfold write_interrupt_ack, st_bind, st_modify. cbv zeta.
  set (acked := if value <=? U32_MAX then value else U32_MAX).
  assert (Hack : 0 <= acked) by (subst acked; case_match; unfold U32_MAX; lia).
  assert (Hint : transport_ok regions (t_set_interrupt_status t
    (Z.land (t_interrupt_status t) (lnot_w 32 (Z.land acked INTERRUPT_KNOWN))))).
  { destruct Ht as (H1 & H2 & H3 & H4 & H5 & H6 & H7 & H8 & H9 & H10 & H11).
    assert (Hk : is_uint 2 (Z.land acked INTERRUPT_KNOWN)).
    { rewrite Z.land_comm. apply is_uint_land; [lia | by vm_compute | lia]. }
    unfold transport_ok; simpl. split_and!; try done. apply is_uint_land; [lia | done | ].
    unfold lnot_w, is_uint in *. lia. }
  destruct (negb _); [by apply transport_counted_ok | done].
Qed.

Lemma check_features_result (t : MmioTransport D) :
  (check_features t = (t, Ok tt) /\
   features_accepted (feature_allowlist (t_device t)) (t_driver_features t)) \/
  exists v, check_features t = transport_record v t.
Proof.
  unfold check_features, st_bind, st_get, features_accepted. cbv zeta.
  destruct (Z.eqb_spec (Z.land (t_driver_features t) (lnot_w 64 (feature_allowlist (t_device t)))) 0);
    simpl; [ | by right; eexists].
  destruct (Z.eqb_spec (Z.land (t_driver_features t) VIRTIO_F_VERSION_1) 0);
    [by right; eexists | by left].
Qed.

Lemma features_status_ok regions t status :
  transport_ok regions t -> status_ok status ->
  features_accepted (feature_allowlist (t_device t)) (t_driver_features t) ->
  (status_features_ok (t_status t) = true -> status_features_ok status = true) ->
  transport_ok regions (t_set_status t status).
Proof.
  intros (H1 & H2 & H3 & H4 & H5 & H6 & H7 & H8 & H9 & H10 & H11) Hs Hf Hmono.
  unfold transport_ok; simpl. split_and!; try done.
  eapply Forall_impl; [exact H3 | ]. intros q [Hq Hr]. split; auto.
Qed.

Lemma write_status_ok regions value t :
  transport_ok regions t -> 0 <= value -> transport_ok regions (write_status value t).1.
Proof using Type*.
  intros Ht Hv. unfold write_status, st_bind at 1, st_get.
  destruct (classify_write (t_status t) value) as [[ | | bit] | v] eqn:Hc;
    [by apply reset_all_ok | done | | by apply transport_counted_ok].
  destruct (classify_set_bit _ _ _ (proj1 Ht) Hv Hc) as (Hs & _ & Hfo & _).
  destruct (Z.eqb_spec bit STATUS_FEATURES_OK) as [-> | Hnf].
  - unfold st_bind. destruct (check_features_result t) as [[-> Hf] | [v ->]]; [ | by apply transport_counted_ok].
    simpl. apply features_status_ok; try done. intros Hf'. by rewrite Hfo, Hf'.
  - rewrite orb_false_r in Hfo.
    destruct (Z.eqb_spec bit STATUS_DRIVER_OK) as [-> | Hnd]; [ | by apply status_change_ok].
    destruct (activate_fixed (t_device t) (t_driver_features t)) as (Ha & Hm & _).
    destruct (device_activate _ _) as [device [[] | e]]; simpl in *; unfold st_bind; simpl.
    + apply (status_change_ok regions (t_set_device t device)); [by apply set_device_ok | done | done].
    + apply (transport_counted_ok regions (set_needs_reset (t_set_device t device))).
      by apply set_needs_reset_ok, set_device_ok.
Qed.

Lemma config_range_same offset len (t : MmioTransport D) :
  config_range offset len t = (t, Ok offset) \/
  config_range offset len t = transport_record (TransportViolation_ConfigOutOfBounds offset) t.
Proof. unfold config_range, st_bind, st_get. destruct (_ && _); auto. Qed.

Lemma write_config_ok regions offset width value t :
  transport_ok regions t -> transport_ok regions (transport_write_config offset width value t).1.
Proof using Type*.
  intros Ht. unfold transport_write_config, st_bind.
  destruct (config_range_same offset (width_bytes width) t) as [-> | ->]; [ | by apply transport_counted_ok].
  simpl. destruct (write_config_fixed (t_device t) offset (take (width_bytes width) (le_bytes 8 value)))
    as (Ha & Hm & _).
  destruct (device_write_config _ _ _) as [device [[] | e]]; simpl in *.
  - by apply set_device_ok.
  - apply (transport_counted_ok regions (t_set_device t device)). by apply set_device_ok.
Qed.

Lemma then_none_fst (c : ST (MmioTransport D) TransportViolation unit) t : (then_none c t).1 = (c t).1.
Proof. unfold then_none, st_bind. by destruct (c t) as [t' [[] | e]]. Qed.

Lemma set_sel_ok regions t (f : MmioTransport D -> Z -> MmioTransport D) word :
  f ∈ [t_set_device_features_sel; t_set_driver_features_sel; t_set_queue_sel] ->
  transport_ok regions t -> is_u32 word -> transport_ok regions (f t word).
Proof.
  intros Hf (H1 & H2 & H3 & H4 & H5 & H6 & H7 & H8 & H9 & H10 & H11) Hw.
  repeat (apply elem_of_cons in Hf as [-> | Hf]; [unfold transport_ok; simpl; by split_and! | ]).
  by apply elem_of_nil in Hf.
Qed.

Lemma transport_write_ok {M} `{GuestMemoryLaws M} (mem : M) offset width value t :
  mem_wf mem -> is_u64 value -> transport_ok (mem_regions mem) t ->
  transport_ok (mem_regions mem) (transport_write offset width value mem t).1.
Proof using Type*.
  intros Hwf [Hv _] Ht. unfold transport_write.
  destruct (register_decode offset) as [[] | ]; try (by apply write_config_ok);
    destruct (bool_decide (width <> AccessWidth_U32)); try (by apply transport_counted_ok); try done;
    destruct (Z.gtb_spec value U32_MAX) as [ | Hw]; try (by apply transport_counted_ok);
    cbv zeta; rewrite ?then_none_fst;
    assert (Hw32 : is_u32 value) by (unfold is_uint, U32_MAX in *; lia); try done.
  - apply (set_sel_ok _ t t_set_device_features_sel); [set_solver | done | done].
  - by apply write_driver_features_ok.
  - apply (set_sel_ok _ t t_set_driver_features_sel); [set_solver | done | done].
  - apply (set_sel_ok _ t t_set_queue_sel); [set_solver | done | done].
  - apply with_selected_queue_ok, set_size_apply; [done | ]. case_match; [lia | by vm_compute].
  - by apply write_queue_ready_ok.
  - destruct (write_queue_notify_same value t) as [-> | [v ->]]; [done | by apply transport_counted_ok].
  - by apply interrupt_ack_ok.
  - by apply write_status_ok.
  - apply with_selected_queue_ok, (addr_apply _ _ set_desc_addr q_desc low);
      [done | set_solver | by intros q (_ & _ & ? & _) | intros; by apply is_u64_low].
  - apply with_selected_queue_ok, (addr_apply _ _ set_desc_addr q_desc high);
      [done | set_solver | by intros q (_ & _ & ? & _) | intros; by apply is_u64_high].
  - apply with_selected_queue_ok, (addr_apply _ _ set_avail_addr q_avail low);
      [done | set_solver | by intros q (_ & _ & _ & ? & _) | intros; by apply is_u64_low].
  - apply with_selected_queue_ok, (addr_apply _ _ set_avail_addr q_avail high);
      [done | set_solver | by intros q (_ & _ & _ & ? & _) | intros; by apply is_u64_high].
  - apply with_selected_queue_ok, (addr_apply _ _ set_used_addr q_used low);
      [done | set_solver | by intros q (_ & _ & _ & _ & ? & _) | intros; by apply is_u64_low].
  - apply with_selected_queue_ok, (addr_apply _ _ set_used_addr q_used high);
      [done | set_solver | by intros q (_ & _ & _ & _ & ? & _) | intros; by apply is_u64_high].
Qed.
End invariant.

(** * Runs of a transport beside its guest and its device thread *)

Section runs.
Context {D : Type} `{VirtioDeviceLaws D} {M : Type} `{GuestMemoryLaws M}.

Inductive tstep : MmioTransport D * M -> MmioTransport D * M -> Prop :=
| tstep_read t mem offset width : tstep (t, mem) ((transport_read offset width t).1, mem)
| tstep_write t mem offset width value :
    is_u64 value -> tstep (t, mem) ((transport_write offset width value mem t).1, mem)
| tstep_complete t mem index chain len :
    0 <= len -> tstep (t, mem) (complete_used index chain len t mem).1
| tstep_pop t mem i q limits q' r :
    t_queues t !! i = Some q -> wf_limits limits ->
    pop_descriptor_chain mem limits q = Some (q', r) ->
    tstep (t, mem) (t_set_queues t (<[i := q']> (t_queues t)), mem)
| tstep_pending t mem i q :
    t_queues t !! i = Some q ->
    tstep (t, mem) (t_set_queues t (<[i := (pending mem q).1]> (t_queues t)), mem)
| tstep_config_change t mem : tstep (t, mem) (signal_config_change t, mem)
| tstep_needs_reset t mem : tstep (t, mem) (set_needs_reset t, mem)
| tstep_device t mem device :
    feature_allowlist device = feature_allowlist (t_device t) ->
    queue_max_sizes device = queue_max_sizes (t_device t) ->
    tstep (t, mem) (t_set_device t device, mem)
| tstep_guest t mem mem' :
    mem_wf mem' -> mem_regions mem' = mem_regions mem -> tstep (t, mem) (t, mem').

Definition system_ok (s : MmioTransport D * M) : Prop :=
  mem_wf s.2 /\ transport_ok (mem_regions s.2) s.1.

Lemma queues_new_ok regions index maxes queues :
  Forall is_u16 maxes -> queues_new index maxes = Ok queues ->
  Forall (tq_ok regions false) queues /\ q_max_size <$> queues = maxes.
Proof.
  intros Hu. revert index queues. induction Hu as [ | max maxes Hm Hu IH]; intros index queues Hq;
    simpl in Hq; [by simplify_eq | ].
  destruct (queue_new max) as [q | ] eqn:Hn; simpl in Hq; [ | done].
  destruct (queues_new (S index) maxes) as [qs | ] eqn:Hqs; simpl in Hq; [ | done]. simplify_eq.
  destruct (IH _ _ Hqs) as [HF Hmx]. pose proof (queue_new_ok regions _ _ Hm Hn) as Hok.
  assert (Hfields : q_layout q = None /\ q_max_size q = max).
  { unfold queue_new in Hn. destruct (validate_size _ _); [ | done]. by simplify_eq. }
  destruct Hfields as [Hl Hmax]. split.
  - constructor; [ | done]. split; [done | ]. unfold queue_is_ready. by rewrite Hl.
  - cbn [fmap list_fmap]. by rewrite Hmx, Hmax.
Qed.

Lemma transport_new_ok regions device t : transport_new device = Ok t -> transport_ok regions t.
Proof using Type*.
  unfold transport_new. destruct (_ =? 0); [done | ]. cbv zeta.
  destruct ((_ || _)%nat); [done | ]. destruct (_ >? _); [done | ].
  destruct (queues_new 0 (queue_max_sizes device)) as [qs | ] eqn:Hq; [ | done]. intros [= <-].
  destruct (queues_new_ok regions 0 _ _ (queue_max_u16 device) Hq) as [HF Hm].
  pose proof status_ok_zero. assert (Hz : is_u32 0) by done. assert (Hz' : is_u64 0) by done.
  unfold transport_ok; simpl. by split_and!.
Qed.

Lemma transport_read_ok regions offset width t :
  transport_ok regions t -> transport_ok regions (transport_read offset width t).1.
Proof using H.
  intros Ht. unfold transport_read.
  destruct (register_decode offset) as [[] | ]; try done;
    [.. | unfold transport_read_config, st_bind;
          destruct (config_range_same offset0 (width_bytes width) t) as [-> | ->];
          [ | by apply transport_counted_ok]; simpl;
          destruct (device_read_config _ _ _); [done | by apply transport_counted_ok]];
    (destruct (bool_decide (width <> AccessWidth_U32)); [by apply transport_counted_ok | ]);
    unfold st_bind, st_get; first [done | by apply transport_counted_ok].
Qed.

Lemma complete_used_ok (mem : M) index chain len t :
  mem_wf mem -> transport_ok (mem_regions mem) t -> 0 <= len ->
  system_ok (complete_used index chain len t mem).1.
Proof using Type*.
  intros Hwf Ht Hlen. unfold complete_used.
  destruct (is_active t); simpl; [ | split; [done | by apply transport_counted_ok]].
  destruct (t_queues t !! Z.to_nat index) as [q | ] eqn:Hq;
    [ | split; [done | by apply transport_counted_ok]].
  destruct (transport_queue_ok _ _ _ _ Ht Hq) as [Hqo Hr].
  destruct (add_used_ok mem chain len q Hwf Hqo Hlen) as [[Hwf1 Hq1] Hreg].
  destruct (same_config_ready _ _ (add_used_fixed q chain len (q, mem) (same_config_refl q))) as [Hrd Hmx].
  destruct (add_used chain len (q, mem)) as [[q1 mem1] r1]; simpl in *.
  assert (Hq2 : queue_ok (mem_regions mem1) (match r1 with Ok _ => needs_notification mem1 q1
                                             | Err v => (q1, Err v) end).1 /\
    queue_is_ready (match r1 with Ok _ => needs_notification mem1 q1 | Err v => (q1, Err v) end).1 =
      queue_is_ready q1 /\
    q_max_size (match r1 with Ok _ => needs_notification mem1 q1 | Err v => (q1, Err v) end).1 =
      q_max_size q1).
  { destruct r1; [ | by split_and!]. 
    destruct (same_config_ready _ _ (needs_notification_fixed q1 mem1 q1 (same_config_refl q1))).
    split_and!; [ | done | done].
    by apply (qstep_ok (q1, mem1) _ (conj Hwf1 Hq1) (qstep_needs_notification q1 mem1)). }
  destruct (match r1 with Ok _ => needs_notification mem1 q1 | Err v => (q1, Err v) end) as [q2 r2].
  destruct Hq2 as (Hq2 & Hrd2 & Hmx2); simpl in *. rewrite <- Hreg in Ht.
  assert (Hset : transport_ok (mem_regions mem1) (t_set_queues t (<[Z.to_nat index := q2]> (t_queues t)))).
  { eapply set_queue_ok; [done | done | split; [done | ] | congruence].
    rewrite Hrd2, Hrd. done. }
  destruct r2; (split; simpl; [done | ]).
  - destruct Hset as (H1' & H2' & H3' & H4' & H5' & H6' & H7' & H8' & H9' & H10' & H11').
    unfold transport_ok; simpl in *. split_and!; try done.
    apply is_uint_lor; [lia | done | by vm_compute].
  - exact (transport_counted_ok _ _ (TransportViolation_Queue error) Hset).
Qed.

Lemma tstep_ok s s' : system_ok s -> tstep s s' -> system_ok s'.
Proof using Type*.
  intros [Hwf Ht] Hs.
  destruct Hs as [t mem offset width | t mem offset width value Hv | t mem index chain len Hlen
    | t mem i q limits q' r Hi Hlim Hp | t mem i q Hi | t mem | t mem | t mem device Ha Hm | t mem mem' Hwf' Hr]; simpl in *.
  - split; [done | by apply transport_read_ok].
  - split; [done | by apply transport_write_ok].
  - by apply complete_used_ok.
  - split; [done | ]. simpl.
    destruct (transport_queue_ok _ _ _ _ Ht Hi) as [Hqo Hr].
    destruct (same_config_ready _ _ (pop_fixed q mem limits q q' r (same_config_refl q) Hp)) as [Hrd Hmx].
    destruct (pop_ok mem limits q Hwf Hqo Hlim) as (q1 & r1 & Hp1 & Hq1).
    eapply set_queue_ok; [done | done | split; [congruence | by rewrite Hrd] | done].
  - split; [done | ]. simpl. destruct (transport_queue_ok _ _ _ _ Ht Hi) as [Hqo Hr].
    destruct (same_config_ready _ _ (pending_fixed q mem q (same_config_refl q))) as [Hrd Hmx].
    eapply set_queue_ok; [done | done | split; [by apply pending_ok | by rewrite Hrd] | done].
  - split; [done | ]. destruct Ht as (H1' & H2' & H3' & H4' & H5' & H6' & H7' & H8' & H9' & H10' & H11').
    unfold transport_ok; simpl. split_and!; try done.
    + apply is_uint_lor; [lia | done | by vm_compute].
    + unfold is_uint, wrapping_add32. apply Z.mod_pos_bound. lia.
  - split; [done | by apply set_needs_reset_ok].
  - split; [done | by apply set_device_ok].
  - split; [done | ]. simpl. by rewrite Hr.
Qed.

Lemma tsteps_ok s s' : rtc tstep s s' -> system_ok s -> system_ok s'.
Proof using Type*. induction 1 as [ | s1 s2 s3 H12 _ IH]; [done | ]. intros H1'. apply IH. by eapply tstep_ok. Qed.

(** C16: whatever registers the driver reads or writes in whatever order, whatever it does to
    guest memory, and however the device thread pops, completes and signals, a transport
    keeps its invariant: [DRIVER_OK] only after [FEATURES_OK], after [DRIVER], after
    [ACKNOWLEDGE]; [FEATURES_OK] only with features inside the device's allowlist and
    including [VERSION_1]; a queue ready only after [FEATURES_OK], every queue keeping its
    own invariant; no interrupt bit the transport does not define. *)
Theorem transport_invariant device t0 (mem : M) t mem' :
  mem_wf mem -> transport_new device = Ok t0 -> rtc tstep (t0, mem) (t, mem') ->
  transport_ok (mem_regions mem') t /\ status_ordered (t_status t).
Proof using Type*.
  intros Hwf Hnew Hrun.
  destruct (tsteps_ok _ _ Hrun (conj Hwf (transport_new_ok _ _ _ Hnew))) as [_ Hok].
  split; [exact Hok | ]. apply status_ok_ordered. apply Hok.
Qed.
End runs.
