(* ===== verification/TransportProps.v ===== *)
(** Properties of single accesses to a transport and of its snapshots: what a rejected
    write leaves, what the lifecycle locks, the snapshot codec and restore, and where a
    restored queue differs from the running one. *)

From S2P Require Import Prelude Bytes GuestMemory QueueChain Virtqueue VirtqueueFacts Transport TransportFacts.
From stdpp Require Import options.

(** * Rejected writes *)

(** A queue and a transport up to their violation counters. *)
Definition forget_queue (q : Queue) : Queue := q_with_violations q [].

Section writes.
Context {D : Type} `{VirtioDevice D} {M : Type} `{GuestMemory M}.

Definition forget_counters (t : MmioTransport D) : MmioTransport D :=
  t_set_violations (t_set_queues t (forget_queue <$> t_queues t)) [].

(** What a violation found in a write is allowed to have changed. *)
Definition rejection_effect (t : MmioTransport D) (v : TransportViolation) (t' : MmioTransport D) : Prop :=
  match v with
  | TransportViolation_InterruptAckUnknownBits value =>
      forget_counters t' = forget_counters
        (t_set_interrupt_status t
           (Z.land (t_interrupt_status t) (lnot_w 32 (Z.land value INTERRUPT_KNOWN))))
  | TransportViolation_Activate _ =>
      exists device, forget_counters t' = forget_counters (set_needs_reset (t_set_device t device))
  | TransportViolation_ConfigAccess _ =>
      exists device, forget_counters t' = forget_counters (t_set_device t device)
  | _ => forget_counters t' = forget_counters t
  end.

Definition counted (t : MmioTransport D) (v : TransportViolation) (t' : MmioTransport D) : Prop :=
  t_violations t' = transport_counters_record (t_violations t) v.

Definition rejected_as (t : MmioTransport D) (v : TransportViolation) (t' : MmioTransport D) : Prop :=
  rejection_effect t v t' /\
  (counted t v t' \/ exists offset, v = TransportViolation_UnknownRegister offset /\ t' = t).

(** A violation recorded on an otherwise untouched transport. *)
Lemma recorded_rejected {A} t v v' t' :
  transport_record (A:=A) v t = (t', Err v') ->
  match v with
  | TransportViolation_InterruptAckUnknownBits _ | TransportViolation_Activate _
  | TransportViolation_ConfigAccess _ => False
  | _ => True
  end -> rejected_as t v' t'.
Proof. intros [= <- <-] Hv. split; [by destruct v | by left]. Qed.

Lemma forget_insert (l : list Queue) i q q' :
  l !! i = Some q -> forget_queue q' = forget_queue q ->
  forget_queue <$> <[i := q']> l = forget_queue <$> l.
Proof.
  intros Hi Hq. rewrite list_fmap_insert, Hq. apply list_insert_id. by rewrite list_lookup_fmap, Hi.
Qed.

Lemma selected_rejected offset apply t t' v :
  (forall q q' v, apply q = (q', Err v) -> forget_queue q' = forget_queue q /\
     exists w, v = TransportViolation_Queue w) ->
  with_selected_queue offset apply t = (t', Err v) -> rejected_as t v t'.
Proof.
  intros Ha. unfold with_selected_queue, st_bind, st_get.
  destruct (status_driver_ok _); [intros Hr; by apply (recorded_rejected _ _ _ _ Hr) | ].
  destruct (selected_queue t) as [q | ] eqn:Hq;
    [ | intros Hr; by apply (recorded_rejected _ _ _ _ Hr)].
  destruct (apply q) as [q' [[] | w]] eqn:E; [done | ].
  destruct (Ha _ _ _ E) as [Hf [w' ->]]. simpl. intros [= <- <-].
  split; [ | by left]. simpl. unfold forget_counters; simpl.
  by rewrite (forget_insert _ _ q q').
Qed.

Lemma modify_rejected (f : Queue -> Queue) q q' v :
  st_modify f q = (q', @Err unit TransportViolation v) ->
  forget_queue q' = forget_queue q /\ exists w, v = TransportViolation_Queue w.
Proof. done. Qed.

Lemma set_size_rejected size q q' v :
  queue_call (set_size size) q = (q', Err v) ->
  forget_queue q' = forget_queue q /\ exists w, v = TransportViolation_Queue w.
Proof.
  unfold queue_call, set_size, st_bind, st_get, queue_try.
  destruct (validate_size _ _); simpl; [done | ]. intros [= <- <-]. split; [done | by eexists].
Qed.

Lemma activate_rejected (mem : M) q q' v :
  queue_call (queue_activate mem) q = (q', Err v) ->
  forget_queue q' = forget_queue q /\ exists w, v = TransportViolation_Queue w.
Proof.
  unfold queue_call, queue_activate, st_bind, st_get, queue_try. destruct (q_activated q).
  - intros [= <- <-]. split; [done | by eexists].
  - destruct (layout_validate _ _ _ _ _ _); simpl; [done | ]. intros [= <- <-]. split; [done | by eexists].
Qed.

Lemma then_none_err (c : ST (MmioTransport D) TransportViolation unit) t t' v :
  then_none c t = (t', Err v) -> c t = (t', Err v).
Proof. unfold then_none, st_bind. destruct (c t) as [t1 [[] | e]]; [done | by intros [= -> ->]]. Qed.

Lemma write_status_rejected value t t' v : write_status value t = (t', Err v) -> rejected_as t v t'.
Proof.
  unfold write_status, st_bind at 1, st_get.
  destruct (classify_write _ _) as [[ | | bit] | w]; [done | done | | intros Hr; by apply (recorded_rejected _ _ _ _ Hr)].
  destruct (_ =? STATUS_FEATURES_OK).
  - unfold st_bind. destruct (check_features_result t) as [[-> _] | [w Hw]]; [done | ].
    rewrite Hw. simpl. intros Hr.
    unfold check_features, st_bind, st_get in Hw. cbv zeta in Hw.
    destruct (_ || _) in Hw; [ | done]. injection Hw as Hcount <-. simplify_eq/=.
    split; [done | by left].
  - destruct (_ =? STATUS_DRIVER_OK); [ | done].
    destruct (device_activate _ _) as [device [[] | e]]; simpl; [done | ].
    intros [= <- <-]. split; [by exists device | by left].
Qed.

Lemma write_config_rejected offset width value t t' v :
  transport_write_config offset width value t = (t', Err v) -> rejected_as t v t'.
Proof.
  unfold transport_write_config, st_bind.
  destruct (config_range_same offset (width_bytes width) t) as [-> | ->]; simpl.
  - destruct (device_write_config _ _ _) as [device [[] | e]]; simpl; [done | ].
    intros [= <- <-]. split; [by exists device | by left].
  - intros [= <- <-]. split; [done | by left].
Qed.

(** What a rejected register write leaves behind, exactly: the transport, its device and
    its queues are unchanged but for violation counters, except that an acknowledgement
    with unknown bits still clears the known bits it names, a failed device activation
    marks the device as needing reset and deactivates the queues, and a configuration
    write is the device's own.  Every violation is counted once in its class, except an
    access to an unknown register, which is reported and not counted. *)
Theorem rejected_write offset width value (mem : M) t t' v :
  transport_write offset width value mem t = (t', Err v) -> rejected_as t v t'.
Proof.
  unfold transport_write.
  destruct (register_decode offset) as [[] | ]; try (by apply write_config_rejected);
    try (destruct (bool_decide (width <> AccessWidth_U32));
         [by intros Hr; apply (recorded_rejected _ _ _ _ Hr) | ];
         destruct (Z.gtb_spec value U32_MAX);
         [by intros Hr; apply (recorded_rejected _ _ _ _ Hr) | ]); cbv zeta;
    try done; try (intros Hr; by apply (recorded_rejected _ _ _ _ Hr)).
  - intros Hr%then_none_err. unfold write_driver_features, st_bind, st_get in Hr.
    destruct (status_features_ok _); [by apply (recorded_rejected _ _ _ _ Hr) | ].
    by destruct (_ =? 0); [ | destruct (_ =? 1)].
  - intros Hr%then_none_err. eapply selected_rejected; [ | exact Hr]. apply set_size_rejected.
  - unfold write_queue_ready. destruct (value =? 0).
    + unfold st_bind. destruct (with_selected_queue _ _ t) as [t1 [[] | e]] eqn:E; [done | ].
      intros [= <- <-]. eapply selected_rejected; [ | exact E]. apply modify_rejected.
    + unfold st_bind at 1, st_get. destruct (status_features_ok _); simpl;
        [ | intros Hr; by apply (recorded_rejected _ _ _ _ Hr)].
      unfold st_bind. destruct (with_selected_queue _ _ t) as [t1 [[] | e]] eqn:E; [done | ].
      intros [= <- <-]. eapply selected_rejected; [ | exact E]. apply activate_rejected.
  - unfold write_queue_notify, st_bind, st_get.
    destruct (is_active t); simpl; [ | intros Hr; by apply (recorded_rejected _ _ _ _ Hr)].
    destruct (_ && _); simpl; [ | intros Hr; by apply (recorded_rejected _ _ _ _ Hr)].
    destruct (t_queues t !! _) as [q | ]; [ | intros Hr; by apply (recorded_rejected _ _ _ _ Hr)].
    destruct (queue_is_ready q); [done | intros Hr; by apply (recorded_rejected _ _ _ _ Hr)].
  - intros Hr%then_none_err. unfold write_interrupt_ack, st_bind, st_modify in Hr.
    destruct (Z.leb_spec value U32_MAX); [ | lia]. cbv zeta in Hr.
    destruct (negb _); [ | done]. injection Hr as <- <-. split; [done | by left].
  - by apply write_status_rejected.
  - intros Hr%then_none_err. eapply selected_rejected; [ | exact Hr]. apply modify_rejected.
  - intros Hr%then_none_err. eapply selected_rejected; [ | exact Hr]. apply modify_rejected.
  - intros Hr%then_none_err. eapply selected_rejected; [ | exact Hr]. apply modify_rejected.
  - intros Hr%then_none_err. eapply selected_rejected; [ | exact Hr]. apply modify_rejected.
  - intros Hr%then_none_err. eapply selected_rejected; [ | exact Hr]. apply modify_rejected.
  - intros Hr%then_none_err. eapply selected_rejected; [ | exact Hr]. apply modify_rejected.
  - intros [= <- <-]. split; [done | ]. right. by eexists.
Qed.

(** * What the lifecycle locks *)

(** A write that changes neither negotiated features nor status, and queues only before
    [DRIVER_OK]. *)
Definition keeps (t t' : MmioTransport D) : Prop :=
  t_driver_features t' = t_driver_features t /\ t_status t' = t_status t /\
  (status_driver_ok (t_status t) = true -> forget_queue <$> t_queues t' = forget_queue <$> t_queues t).

Lemma keeps_selected offset apply t : keeps t (with_selected_queue offset apply t).1.
Proof.
  unfold with_selected_queue, st_bind, st_get. destruct (status_driver_ok _) eqn:Hd; [done | ].
  destruct (selected_queue t) as [q | ]; [ | done]. destruct (apply q) as [q' r]; simpl.
  destruct r; (split_and!; [done | done | simpl; by rewrite Hd]).
Qed.

Lemma keeps_config offset width value t : keeps t (transport_write_config offset width value t).1.
Proof.
  unfold transport_write_config, st_bind.
  destruct (config_range_same offset (width_bytes width) t) as [-> | ->]; simpl; [ | done].
  by destruct (device_write_config _ _ _) as [device [[] | e]].
Qed.

Lemma keeps_queue_ready offset word (mem : M) t : keeps t (write_queue_ready offset word mem t).1.
Proof.
  unfold write_queue_ready. destruct (word =? 0).
  - unfold st_bind. pose proof (keeps_selected offset (st_modify queue_deactivate) t) as Hk.
    by destruct (with_selected_queue _ _ t) as [t1 [[] | e]].
  - unfold st_bind at 1, st_get. destruct (negb _); [done | ]. unfold st_bind.
    pose proof (keeps_selected offset (queue_call (queue_activate mem)) t) as Hk.
    by destruct (with_selected_queue _ _ t) as [t1 [[] | e]].
Qed.

(** The two promises of [keeps] that matter once the bits are set. *)
Definition locked (t t' : MmioTransport D) : Prop :=
  (status_features_ok (t_status t) = true ->
     t_driver_features t' = t_driver_features t /\ status_features_ok (t_status t') = true) /\
  (status_driver_ok (t_status t) = true ->
     forget_queue <$> t_queues t' = forget_queue <$> t_queues t /\
     status_driver_ok (t_status t') = true).

Lemma keeps_locked t t' : keeps t t' -> locked t t'.
Proof. intros (Hf & Hs & Hq). unfold locked. rewrite Hs. by split; intros ?; split; auto. Qed.

Lemma write_status_locked value t :
  status_ok (t_status t) -> 0 <= value ->
  (write_status value t).2 = Ok TransportEvent_Reset \/ locked t (write_status value t).1.
Proof.
  intros Hs Hv. destruct (write_status value t) as [t' r] eqn:E. simpl.
  unfold write_status, st_bind at 1, st_get in E.
  destruct (classify_write (t_status t) value) as [[ | | bit] | w] eqn:Hc.
  { injection E as <- <-. by left. }
  { injection E as <- <-. right. by apply keeps_locked. }
  2: { injection E as <- <-. right. by apply keeps_locked. }
  right. destruct (classify_set_bit _ _ _ Hs Hv Hc) as (_ & _ & Hf & Hd & Hnew).
  destruct (Z.eqb_spec bit STATUS_FEATURES_OK) as [-> | Hnf].
  - unfold st_bind in E. destruct (check_features_result t) as [[Hck _] | [w Hck]]; rewrite Hck in E;
      injection E as <- <-; [ | by apply keeps_locked].
    unfold locked; simpl. rewrite Hf, Hd. simpl. split; intros ->; done.
  - destruct (Z.eqb_spec bit STATUS_DRIVER_OK) as [-> | Hnd].
    + specialize (Hnew eq_refl). rewrite orb_false_r in Hf.
      destruct (device_activate _ _) as [device [[] | e]]; injection E as <- <-; unfold locked; simpl;
        rewrite Hnew.
      * rewrite Hf. by split.
      * destruct (needs_reset_ok _ Hs) as (_ & -> & _). by split.
    + injection E as <- <-. unfold locked; simpl. rewrite Hf, Hd, !orb_false_r. by split.
Qed.

(** The lifecycle locks what was negotiated: once [FEATURES_OK] is set no register write
    short of a reset changes the accepted features or clears the bit, and once
    [DRIVER_OK] is set none changes any queue's size, addresses, rings, activation or
    cursors, or clears that bit. *)
Theorem lifecycle_locks offset width value (mem : M) t :
  status_ok (t_status t) -> 0 <= value ->
  (transport_write offset width value mem t).2 = Ok TransportEvent_Reset \/
  locked t (transport_write offset width value mem t).1.
Proof.
  intros Hs Hv. unfold transport_write.
  destruct (register_decode offset) as [[] | ];
    try (right; by apply keeps_locked, keeps_config);
    try (destruct (bool_decide (width <> AccessWidth_U32)); [by right; apply keeps_locked | ];
         destruct (Z.gtb_spec value U32_MAX); [by right; apply keeps_locked | ]); cbv zeta;
    try (by right; apply keeps_locked); rewrite ?then_none_fst;
    try (right; apply keeps_locked, keeps_selected).
  - right. unfold write_driver_features, st_bind, st_get.
    destruct (status_features_ok (t_status t)) eqn:Hf; [by apply keeps_locked | ].
    unfold locked. rewrite Hf. destruct (_ =? 0); [ | destruct (_ =? 1)]; by split.
  - right. by apply keeps_locked, keeps_queue_ready.
  - right. destruct (write_queue_notify_same value t) as [-> | [v ->]]; by apply keeps_locked.
  - right. apply keeps_locked. unfold write_interrupt_ack, st_bind. simpl. by destruct (negb _).
  - by apply write_status_locked.
Qed.
End writes.

(** * Snapshots *)

Definition wf_transport_state (s : TransportState) : Prop :=
  is_u8 (ts_status s) /\ is_u32 (ts_device_features_sel s) /\ is_u32 (ts_driver_features_sel s) /\
  is_u64 (ts_driver_features s) /\ is_u32 (ts_queue_sel s) /\ is_u32 (ts_interrupt_status s) /\
  is_u32 (ts_config_generation s) /\ Forall wf_queue_state (ts_queues s) /\
  (length (ts_queues s) <= MAX_QUEUES)%nat.

Lemma u32_at_bytes raw offset z :
  is_u32 z -> take 4 (drop offset raw) = le_bytes 4 z -> u32_at raw offset = z.
Proof.
  intros Hz Ht. unfold u32_at. rewrite Ht, le_u64_val; [ | apply le_bytes_all_bytes | rewrite length_le_bytes; lia].
  rewrite (le_val_bytes 4) by done. unfold is_uint, U32_MAX in *.
  by destruct (Z.leb_spec z (2 ^ 32 - 1)); [ | lia].
Qed.

Lemma queue_records_app pre qs index :
  Forall wf_queue_state qs ->
  length pre = (TRANSPORT_STATE_HEADER_LEN + index * QUEUE_STATE_LEN)%nat ->
  queue_records (pre ++ concat (queue_state_to_bytes <$> qs)) index (length qs) = Ok qs.
Proof.
  intros Hqs. revert pre index. induction Hqs as [ | q qs Hq Hqs IH]; intros pre index Hl; [done | ].
  cbn [fmap list_fmap concat length queue_records].
  rewrite <- Hl, drop_app_length, take_app_length' by (by rewrite queue_state_bytes_length).
  rewrite queue_state_codec by done. cbn [map_err]. rewrite app_assoc.
  rewrite (IH (pre ++ queue_state_to_bytes q) (S index)); [done | ].
  rewrite length_app, queue_state_bytes_length, Hl. lia.
Qed.

Lemma length_records qs : length (concat (queue_state_to_bytes <$> qs)) = (length qs * QUEUE_STATE_LEN)%nat.
Proof.
  induction qs as [ | q qs IH]; [done | ]. cbn [fmap list_fmap concat length].
  rewrite length_app, IH, queue_state_bytes_length. lia.
Qed.

Lemma transport_state_codec s :
  wf_transport_state s ->
  exists raw, transport_state_to_bytes s = Ok raw /\ transport_state_from_bytes raw = Ok s.
Proof.
  intros (H1 & H2 & H3 & H4 & H5 & H6 & H7 & H8 & H9).
  unfold transport_state_to_bytes. destruct (Nat.ltb_spec MAX_QUEUES (length (ts_queues s))); [lia | ].
  eexists. split; [done | ]. set (recs := concat (queue_state_to_bytes <$> ts_queues s)).
  assert (Hlen : length (transport_header s ++ recs) =
    (TRANSPORT_STATE_HEADER_LEN + length (ts_queues s) * QUEUE_STATE_LEN)%nat).
  { rewrite length_app. unfold recs. by rewrite length_records. }
  unfold transport_state_from_bytes. rewrite Hlen.
  destruct (Nat.ltb_spec (TRANSPORT_STATE_HEADER_LEN + length (ts_queues s) * QUEUE_STATE_LEN)
    TRANSPORT_STATE_HEADER_LEN); [lia | ].
  change ((transport_header s ++ recs) !! 29%nat) with (Some (Z.of_nat (length (ts_queues s)))).
  cbn [default from_option id]. destruct (Z.gtb_spec (Z.of_nat (length (ts_queues s))) (Z.of_nat MAX_QUEUES)); [lia | ].
  rewrite Nat2Z.id, Nat.eqb_refl. cbn [negb]. unfold recs at 1.
  rewrite queue_records_app by done. destruct s as [st dfs dvs df sel int gen qs]; simpl in *. do 2 f_equal.
  - by apply u32_at_bytes.
  - by apply u32_at_bytes.
  - exact (le_u64_bytes df H4).
  - by apply u32_at_bytes.
  - by apply u32_at_bytes.
  - by apply u32_at_bytes.
Qed.

Section snapshots.
Context {D : Type} `{VirtioDeviceLaws D} {M : Type} `{GuestMemoryLaws M}.

Lemma restore_queues_coherent (mem : M) fo index fresh qs :
  mem_wf mem -> Forall (tq_ok (mem_regions mem) fo) qs -> Forall coherent qs ->
  q_max_size <$> fresh = q_max_size <$> qs ->
  restore_queues mem fo index fresh (queue_state <$> qs) = Ok (fresh_counters <$> qs).
Proof.
  intros Hwf Hq. revert index fresh. induction Hq as [ | q qs [Hq Hr] Hqs IH]; intros index fresh Hco Hm.
  - by destruct fresh.
  - destruct fresh as [ | f fresh]; [done | ]. apply Forall_cons in Hco as [Hc Hco].
    cbn [fmap list_fmap] in *. injection Hm as Hmf Hm. cbn [restore_queues].
    change (qs_ready (queue_state q)) with (queue_is_ready q).
    assert (Hb : queue_is_ready q && negb fo = false)
      by (destruct (queue_is_ready q); [by rewrite Hr | done]).
    rewrite Hb, Hmf, queue_restore_coherent by done. cbn [map_err]. by rewrite IH.
Qed.

Lemma transport_new_queues device t0 :
  transport_new device = Ok t0 ->
  t_device t0 = device /\ q_max_size <$> t_queues t0 = queue_max_sizes device /\
  (length (t_queues t0) <= MAX_QUEUES)%nat /\ t_violations t0 = replicate TRANSPORT_KIND_COUNT 0.
Proof using H0.
  intros Hnew. pose proof (transport_new_ok [] device t0 Hnew) as (_ & _ & _ & Hm & _).
  unfold transport_new in Hnew. destruct (_ =? 0); [done | ]. cbv zeta in Hnew.
  destruct ((_ || _)%nat) eqn:Hc; [done | ]. destruct (_ >? _); [done | ].
  destruct (queues_new 0 _); [ | done]. injection Hnew as <-. simpl in *. split_and!; try done.
  apply (f_equal length) in Hm. rewrite length_fmap in Hm. rewrite Hm.
  apply orb_false_iff in Hc as [_ Hc]. by apply Nat.ltb_ge in Hc.
Qed.

Lemma interrupt_ok_known v : interrupt_ok v -> Z.land v (lnot_w 32 INTERRUPT_KNOWN) = 0.
Proof.
  unfold interrupt_ok, is_uint. intros Hv.
  assert (v = 0 \/ v = 1 \/ v = 2 \/ v = 3) as [-> | [-> | [-> | ->]]] by lia; done.
Qed.

Lemma check_features_accepted (t : MmioTransport D) :
  features_accepted (feature_allowlist (t_device t)) (t_driver_features t) ->
  check_features t = (t, Ok tt).
Proof.
  intros [Hu Hv]. unfold check_features, st_bind, st_get. cbv zeta. rewrite Hu.
  by rewrite (proj2 (Z.eqb_neq _ _) Hv).
Qed.

(** A snapshot brings a transport back: its state encodes within the format's limits,
    decodes to itself, and restoring it onto a device with the same fixed limits that
    activates again yields the same registers, status, features, interrupts and queues,
    with fresh violation counters, provided every running ring is the one its registers
    describe. *)
Theorem transport_snapshot_roundtrip (mem : M) t device device' t0 :
  mem_wf mem -> transport_ok (mem_regions mem) t -> Forall coherent (t_queues t) ->
  transport_new device = Ok t0 ->
  feature_allowlist device = feature_allowlist (t_device t) ->
  queue_max_sizes device = queue_max_sizes (t_device t) ->
  (if status_driver_ok (t_status t)
   then device_activate device (t_driver_features t) = (device', Ok tt) else device' = device) ->
  exists raw s,
    transport_state_to_bytes (transport_state t) = Ok raw /\
    transport_state_from_bytes raw = Ok s /\
    transport_restore device s mem =
      Ok (t_set_violations (t_set_device (t_set_queues t (fresh_counters <$> t_queues t)) device')
            (replicate TRANSPORT_KIND_COUNT 0)).
Proof using H0.
  intros Hwf Ht Hco Hnew Ha Hm Hact.
  pose proof Ht as (T1 & T2 & T3 & T4 & T5 & T6 & T7 & T8 & T9 & T10 & T11).
  destruct (transport_new_queues device t0 Hnew) as (Hd & Hq & Hl & Hv).
  assert (Hmax : q_max_size <$> t_queues t0 = q_max_size <$> t_queues t) by congruence.
  assert (Hlen : length (t_queues t0) = length (t_queues t)).
  { apply (f_equal length) in Hmax. by rewrite !length_fmap in Hmax. }
  assert (Hint : is_u32 (t_interrupt_status t)) by (unfold interrupt_ok, is_uint in *; lia).
  destruct (transport_state_codec (transport_state t)) as (raw & Hto & Hfrom).
  { unfold wf_transport_state; simpl. destruct T1 as [? _]. split_and!; try done.
    - apply Forall_fmap. eapply Forall_impl; [exact T3 | ]. intros q [Hqo _]. by eapply queue_state_wf.
    - rewrite length_fmap. lia. }
  exists raw, (transport_state t). split_and!; [done | done | ].
  unfold transport_restore. rewrite Hnew. cbn [map_err transport_state ts_status ts_queues ts_interrupt_status ts_driver_features].
  rewrite (proj2 T1). cbn [map_err]. rewrite length_fmap, Hlen, Nat.eqb_refl. cbn [negb].
  rewrite interrupt_ok_known by done. cbn [Z.eqb negb]. cbv zeta.
  assert (Hck : (if status_features_ok (t_status t)
    then map_err RestoreError_Transport (check_features (t_set_driver_features t0 (t_driver_features t))).2
    else Ok tt) = Ok tt).
  { destruct (status_features_ok _); [ | done]. rewrite check_features_accepted; [done | ].
    simpl. rewrite Hd, Ha. by apply T2. }
  rewrite Hck, (restore_queues_coherent _ _ 0 (t_queues t0)) by done. simpl. rewrite Hd, Hv.
  destruct (status_driver_ok _); [by rewrite Hact | by rewrite Hact].
Qed.
(** C38: between a queue becoming ready and [DRIVER_OK] the driver may still write the queue's
    address registers: the write succeeds, the ring in use stays where it was validated,
    and the snapshot records the new address, so a restore runs the queue on a ring other
    than the one the device was using. *)
Theorem ready_geometry_diverges (mem : M) t q l word :
  let moved := mkQueueLayout (q_size q) (low (q_desc q) word) (q_avail q) (q_used q) in
  mem_wf mem -> transport_ok (mem_regions mem) t -> status_driver_ok (t_status t) = false ->
  selected_queue t = Some q -> q_layout q = Some l -> is_u32 word ->
  geometry_ok (mem_regions mem) (q_max_size q) moved ->
  exists t' q' restored,
    transport_write 0x080 AccessWidth_U32 word mem t = (t', Ok TransportEvent_None) /\
    selected_queue t' = Some q' /\ q_layout q' = Some l /\
    queue_restore mem (q_max_size q') (queue_state q') = Ok restored /\
    q_layout restored = Some moved.
Proof.
  intros moved Hwf Ht Hd Hsel Hl Hw Hg. set (q' := set_desc_addr q (low (q_desc q) word)).
  pose proof (proj1 (transport_queue_ok _ _ _ _ Ht Hsel)) as Hq.
  assert (Hq' : queue_ok (mem_regions mem) q').
  { apply set_addr_ok; [done | ]. apply is_u64_low; [by destruct Hq as (_ & _ & ? & _) | done]. }
  assert (Hsize : 0 <= q_size q) by (destruct Hq as (_ & (_ & ? & _) & _); lia).
  eexists _, q', _. split_and!.
  - unfold transport_write. simpl. destruct (Z.gtb_spec word U32_MAX); [unfold is_uint, U32_MAX in *; lia | ].
    unfold then_none, with_selected_queue, st_bind, st_get. rewrite Hd, Hsel. done.
  - unfold selected_queue; simpl. rewrite list_lookup_insert_eq; [done | by eapply lookup_lt_Some].
  - done.
  - rewrite queue_restore_state by done. cbv zeta. unfold queue_is_ready. simpl. rewrite Hl.
    by rewrite (proj2 (layout_validate_iff mem _ _ _ _ _ _ Hwf Hsize) (conj eq_refl Hg)).
  - done.
Qed.
End snapshots.

(** * A sample device and a driver that brings it up *)

(** One queue of two entries, four bytes of read-only configuration. *)
Inductive SampleDevice : Type := Idle | Activated (features : Z).

#[export] Instance sample_device : VirtioDevice SampleDevice := {|
  device_id _ := 4;
  vendor_id _ := SOMA_VENDOR_ID;
  feature_allowlist _ := VIRTIO_F_VERSION_1;
  queue_max_sizes _ := [2];
  config_len _ := 4;
  device_read_config _ offset len := Ok (take len (drop (Z.to_nat offset) [1; 2; 3; 4]));
  device_write_config device _ _ := (device, Err ConfigAccessError_ReadOnly);
  device_activate _ features := (Activated features, Ok tt);
  device_reset _ := Idle;
  device_snapshot_state _ := [];
  device_restore_state device _ := (device, Ok tt);
|}.

#[export] Instance sample_device_laws : VirtioDeviceLaws SampleDevice.
Proof. split; repeat constructor; done. Qed.

Definition fresh_transport : MmioTransport SampleDevice :=
  mkMmioTransport Idle [mkQueue 2 2 0 0 0 None false 0 0 queue_counters_default]
    0 0 0 0 0 0 0 (replicate TRANSPORT_KIND_COUNT 0).

(** The driver's register writes, up to the queue being ready and up to [DRIVER_OK]. *)
Definition bring_up : list (Z * Z) :=
  [(0x070, 1); (0x070, 3); (0x024, 1); (0x020, 1); (0x070, 11); (0x030, 0); (0x038, 2);
   (0x090, 64); (0x0a0, 128); (0x044, 1)].

Definition drive (writes : list (Z * Z)) (t : MmioTransport SampleDevice) : MmioTransport SampleDevice :=
  foldl (fun t w => (transport_write w.1 AccessWidth_U32 w.2 ring_memory t).1) t writes.

Definition ready_transport : MmioTransport SampleDevice := Eval vm_compute in drive bring_up fresh_transport.
Definition live_transport : MmioTransport SampleDevice :=
  Eval vm_compute in drive (bring_up ++ [(0x070, 15)]) fresh_transport.

Lemma drive_steps writes t :
  forallb (fun w => (0 <=? w.2) && (w.2 <? 2 ^ 64)) writes = true ->
  rtc tstep (t, ring_memory) (drive writes t, ring_memory).
Proof.
  revert t. induction writes as [ | w writes IH]; intros t Hw; [done | ].
  simpl in Hw. zbool. eapply rtc_l; [by apply (tstep_write t ring_memory w.1 AccessWidth_U32 w.2) | ].
  by apply IH.
Qed.

Lemma ready_reached : rtc tstep (fresh_transport, ring_memory) (ready_transport, ring_memory).
Proof. apply (drive_steps bring_up fresh_transport). by vm_compute. Qed.

Lemma live_reached : rtc tstep (fresh_transport, ring_memory) (live_transport, ring_memory).
Proof.
  apply (drive_steps (bring_up ++ [(0x070, 15)]) fresh_transport). by vm_compute.
Qed.

Lemma reached_ok t :
  rtc tstep (fresh_transport, ring_memory) (t, ring_memory) -> transport_ok (mem_regions ring_memory) t.
Proof.
  intros Hrun. apply (tsteps_ok _ _ Hrun). split; [exact ring_memory_wf | ].
  by apply (transport_new_ok _ Idle).
Qed.

Lemma transport_invariant_witness :
  transport_ok (mem_regions ring_memory) live_transport /\ status_ordered (t_status live_transport).
Proof.
  apply (transport_invariant Idle fresh_transport ring_memory live_transport ring_memory);
    [exact ring_memory_wf | reflexivity | exact live_reached].
Defined.

(** An acknowledgement with an unknown bit. *)
Lemma rejected_write_witness :
  exists t', rejected_as live_transport (TransportViolation_InterruptAckUnknownBits 5) t'.
Proof.
  eexists. eapply (rejected_write 0x064 AccessWidth_U32 5 ring_memory live_transport). by vm_compute.
Defined.

Lemma lifecycle_locks_witness :
  (transport_write 0x080 AccessWidth_U32 32 ring_memory live_transport).2 = Ok TransportEvent_Reset \/
  locked live_transport (transport_write 0x080 AccessWidth_U32 32 ring_memory live_transport).1.
Proof. apply (lifecycle_locks 0x080 AccessWidth_U32 32 ring_memory live_transport); by vm_compute. Defined.

Lemma transport_snapshot_roundtrip_witness :
  exists raw s,
    transport_state_to_bytes (transport_state live_transport) = Ok raw /\
    transport_state_from_bytes raw = Ok s /\
    transport_restore Idle s ring_memory = Ok live_transport.
Proof.
  apply (transport_snapshot_roundtrip ring_memory live_transport Idle
    (Activated VIRTIO_F_VERSION_1) fresh_transport);
    [exact ring_memory_wf | exact (reached_ok _ live_reached) | | reflexivity | reflexivity | reflexivity
    | by vm_compute].
  apply Forall_singleton. intros l [= <-]. reflexivity.
Defined.

Lemma ready_geometry_diverges_witness :
  exists t' q' restored,
    transport_write 0x080 AccessWidth_U32 32 ring_memory ready_transport = (t', Ok TransportEvent_None) /\
    selected_queue t' = Some q' /\ q_layout q' = Some (mkQueueLayout 2 0 64 128) /\
    queue_restore ring_memory (q_max_size q') (queue_state q') = Ok restored /\
    q_layout restored = Some (mkQueueLayout 2 32 64 128).
Proof.
  apply (ready_geometry_diverges ring_memory ready_transport ring_queue);
    [exact ring_memory_wf | exact (reached_ok _ ready_reached) | by vm_compute | by vm_compute
    | by vm_compute | by vm_compute | ].
  apply (layout_validate_iff ring_memory 2 2 32 64 128 (mkQueueLayout 2 32 64 128) ring_memory_wf);
    [lia | by vm_compute].
Defined.
