(* ===== verification/Segments.v ===== *)
(** Copies between the segments of a descriptor chain and host buffers
    ([crates/soma-kvm/src/virtio/devices/segments.rs]), and their meaning over the one
    sequence of guest addresses the segments make up. *)

From S2P Require Import Prelude Bytes GuestMemory QueueChain.
From stdpp Require Import options.

(** * The code *)

(** [copy addr start end] moves the host bytes [start, end) and changes the state [S]:
    the host buffer of a read, guest memory for a write. *)
Fixpoint span {S : Type} (copy : GuestAddress -> nat -> nat -> ST S GuestMemoryError unit)
    (segments : list ChainSegment) (skip : Z) (len done : nat) : ST S GuestMemoryError nat :=
  match segments with
  | [] => st_ret done
  | segment :: segments =>
      if (done =? len)%nat then st_ret done
      else if skip >=? segment_len segment
      then span copy segments (skip - segment_len segment) len done
      else
        let start := skip in
        let remaining := Z.of_nat (len - done) in
        let taken := Z.to_nat (Z.min (segment_len segment - start) remaining) in
        match addr_checked_add (segment_addr segment) start with
        | None => st_err (GuestMemoryError_Overflow (segment_addr segment) start)
        | Some addr =>
            copy addr done (done + taken)%nat ;;;
            span copy segments 0 len (done + taken)%nat
        end
  end.

Section code.
Context {M : Type} `{GuestMemory M}.

Definition read_into (mem : M) (addr : GuestAddress) (start end_ : nat)
    : ST bytes GuestMemoryError unit := fun buf =>
  match read_bytes mem addr (end_ - start) with
  | Ok b => (take start buf ++ b ++ drop end_ buf, Ok tt)
  | Err e => (buf, Err e)
  end.

(** The state is the caller's buffer. *)
Definition read_readable (mem : M) (chain : DescriptorChain) (skip : Z) (buf : bytes)
    : bytes * Result nat GuestMemoryError :=
  span (read_into mem) (chain_readable chain) skip (length buf) 0 buf.

Definition write_from (b : bytes) (addr : GuestAddress) (start end_ : nat)
    : ST M GuestMemoryError unit := fun mem =>
  match write_bytes mem addr (take (end_ - start) (drop start b)) with
  | Ok mem' => (mem', Ok tt)
  | Err e => (mem, Err e)
  end.

(** The state is guest memory, kept as written when a later segment is refused. *)
Definition write_writable (mem : M) (chain : DescriptorChain) (skip : Z) (b : bytes)
    : M * Result nat GuestMemoryError :=
  span (write_from b) (chain_writable chain) skip (length b) 0 mem.
End code.

(** * The addresses of a list of segments *)

Definition area (segments : list ChainSegment) : list Z :=
  concat ((fun s => seqZ (segment_addr s) (segment_len s)) <$> segments).

(** The addresses a copy of [len] bytes after [skip] covers. *)
Definition window (segments : list ChainSegment) (skip : Z) (len : nat) : list Z :=
  take len (drop (Z.to_nat skip) (area segments)).

Definition segments_ok (regions : list (Z * Z)) (segments : list ChainSegment) : Prop :=
  Forall (fun s => 0 < segment_len s < 2 ^ 32 /\
            registered regions (segment_addr s) (segment_len s)) segments.

Lemma area_cons s segments :
  area (s :: segments) = seqZ (segment_addr s) (segment_len s) ++ area segments.
Proof. done. Qed.

Lemma length_area regions segments :
  segments_ok regions segments -> Z.of_nat (length (area segments)) = segment_total segments.
Proof.
  induction 1 as [ | s segments [Hs _] _ IH]; [done | ].
  rewrite area_cons, length_app, length_seqZ. simpl. lia.
Qed.

Lemma segment_total_zero regions segments :
  segments_ok regions segments -> 0 <= segment_total segments /\ (segment_total segments = 0 <-> segments = []).
Proof.
  induction 1 as [ | s segments [Hs _] _ [IH _]]; simpl; [done | ]. split; [lia | ]. split; [lia | done].
Qed.

Lemma drop_seqZ k addr len :
  0 <= k <= len -> drop (Z.to_nat k) (seqZ addr len) = seqZ (addr + k) (len - k).
Proof.
  intros Hk. replace len with (k + (len - k)) at 1 by lia. rewrite seqZ_app by lia.
  rewrite drop_app_length' by (rewrite length_seqZ; lia). done.
Qed.

Lemma take_seqZ k addr len : 0 <= k <= len -> take (Z.to_nat k) (seqZ addr len) = seqZ addr k.
Proof.
  intros Hk. replace len with (k + (len - k)) by lia. rewrite seqZ_app by lia.
  by rewrite take_app_length' by (rewrite length_seqZ; lia).
Qed.

(** Skipping a whole segment, and starting inside one. *)
Lemma window_skip s segments skip len :
  0 <= segment_len s <= skip ->
  window (s :: segments) skip len = window segments (skip - segment_len s) len.
Proof.
  intros Hs. unfold window. rewrite area_cons, drop_app_ge by (rewrite length_seqZ; lia).
  rewrite length_seqZ. do 2 f_equal. lia.
Qed.

Lemma window_start s segments skip len :
  0 <= skip < segment_len s ->
  let taken := Z.min (segment_len s - skip) (Z.of_nat len) in
  window (s :: segments) skip len =
  seqZ (segment_addr s + skip) taken ++ window segments 0 (len - Z.to_nat taken).
Proof.
  intros Hs taken. unfold window.
  rewrite area_cons, drop_app_le by (rewrite length_seqZ; lia). rewrite drop_seqZ by lia.
  rewrite drop_0, take_app, length_seqZ. f_equal.
  - destruct (Z.le_ge_cases (segment_len s - skip) (Z.of_nat len)).
    + rewrite take_ge by (rewrite length_seqZ; lia). f_equal. lia.
    + replace len with (Z.to_nat taken) by lia. by rewrite take_seqZ by lia.
  - f_equal. lia.
Qed.

(** * What a copy does

    [step s at addrs s'] says that moving the guest addresses [addrs] to or from the
    host bytes from [at] on takes [s] to [s']. *)

Section span.
Context {S : Type} (regions : list (Z * Z)) (limit : nat).
Context (copy : GuestAddress -> nat -> nat -> ST S GuestMemoryError unit).
Context (Inv : S -> Prop) (step : S -> nat -> list Z -> S -> Prop).
Hypothesis step_nil : forall s pos, (pos <= limit)%nat -> Inv s -> step s pos [] s.
Hypothesis step_app : forall s pos a s' b s'',
  (pos + length a + length b <= limit)%nat ->
  step s pos a s' -> step s' (pos + length a) b s'' -> step s pos (a ++ b) s''.
Hypothesis copy_step : forall s addr start n,
  Inv s -> (start + n <= limit)%nat -> registered regions addr (Z.of_nat n) ->
  exists s', copy addr start (start + n)%nat s = (s', Ok tt) /\ Inv s' /\
    step s start (seqZ addr (Z.of_nat n)) s'.

Lemma span_spec segments skip done s :
  segments_ok regions segments -> Inv s -> 0 <= skip -> (done <= limit)%nat ->
  let w := window segments skip (limit - done) in
  exists s', span copy segments skip limit done s = (s', Ok (done + length w)%nat) /\ Inv s' /\
    step s done w s'.
Proof using Type*.
  intros Hsegs. revert skip done s. induction Hsegs as [ | g segments [Hlen Hreg] Hsegs IH];
    intros skip done s Hs Hskip Hdone; cbn [span]; cbv zeta.
  { exists s. unfold window. change (area []) with (@nil Z). rewrite drop_nil, take_nil, Nat.add_0_r.
    split_and!; auto. }
  destruct (Nat.eqb_spec done limit) as [-> | Hne].
  { exists s. rewrite Nat.sub_diag. unfold window. rewrite take_0, Nat.add_0_r. split_and!; auto. }
  destruct (Z.geb_spec skip (segment_len g)).
  { rewrite window_skip by lia. apply IH; [done | lia | done]. }
  set (taken := Z.min (segment_len g - skip) (Z.of_nat (limit - done))).
  pose proof (window_start g segments skip (limit - done) ltac:(lia)) as Hw. cbv zeta in Hw. fold taken in Hw.
  assert (Hadd : addr_checked_add (segment_addr g) skip = Some (segment_addr g + skip)).
  { destruct Hreg as [Hov _]. apply checked_add_u64_Some. split; [done | lia]. }
  rewrite Hadd. destruct (copy_step s (segment_addr g + skip) done (Z.to_nat taken))
    as (s1 & Hc & Hs1 & Hst1); [done | lia | | ].
  { apply (registered_sub _ _ _ _ _ Hreg); lia. }
  unfold st_bind. rewrite Hc. destruct (IH 0 (done + Z.to_nat taken)%nat s1) as (s2 & Hsp & Hs2 & Hst2);
    [done | lia | lia | ].
  rewrite Z2Nat.id in Hst1 by lia. rewrite Hw.
  replace (limit - (done + Z.to_nat taken))%nat with (limit - done - Z.to_nat taken)%nat in Hsp, Hst2 by lia.
  exists s2. split_and!; [ | done | ].
  - rewrite Hsp, length_app, length_seqZ. do 2 f_equal. lia.
  - eapply step_app; [ | exact Hst1 | by rewrite length_seqZ].
    rewrite length_seqZ. unfold window. rewrite length_take. lia.
Qed.
End span.

(** * Gathering *)

Section gather.
Context {M : Type} `{GuestMemoryLaws M}.

(** The host buffer after the bytes at [addrs] arrived from [at] on. *)
Definition gathered (mem : M) (buf : bytes) (pos : nat) (addrs : list Z) : bytes :=
  take pos buf ++ (mem_byte mem <$> addrs) ++ drop (pos + length addrs) buf.

Lemma gathered_app mem buf pos a b :
  (pos + length a + length b <= length buf)%nat ->
  gathered mem (gathered mem buf pos a) (pos + length a) b = gathered mem buf pos (a ++ b).
Proof.
  intros Hl. unfold gathered.
  assert (Hp : length (take pos buf) = pos) by (rewrite length_take; lia).
  assert (Ha : length (take pos buf ++ (mem_byte mem <$> a)) = (pos + length a)%nat)
    by (rewrite length_app, Hp, length_fmap; done).
  rewrite (app_assoc (take pos buf)), take_app_length' by done.
  rewrite drop_app_ge by lia. rewrite Ha, drop_drop, fmap_app, length_app, <- !app_assoc.
  do 3 f_equal. f_equal. lia.
Qed.

Lemma read_readable_gathers mem chain skip buf :
  mem_wf mem -> segments_ok (mem_regions mem) (chain_readable chain) -> 0 <= skip ->
  let w := window (chain_readable chain) skip (length buf) in
  read_readable mem chain skip buf = ((mem_byte mem <$> w) ++ drop (length w) buf, Ok (length w)).
Proof.
  intros Hwf Hsegs Hskip w. unfold read_readable.
  destruct (span_spec (mem_regions mem) (length buf) (read_into mem)
    (fun b => length b = length buf) (fun b pos a b' => length b = length buf /\ b' = gathered mem b pos a))
    with (segments := chain_readable chain) (skip := skip) (done := 0%nat) (s := buf)
    as (b' & Hsp & _ & _ & Hb'); try done.
  - intros b pos Hp Hb. split; [done | ]. unfold gathered. simpl. by rewrite Nat.add_0_r, take_drop.
  - intros b pos a b' c b'' Hl [Hb ->] [Hb' ->]. split; [done | ]. apply gathered_app. by rewrite Hb.
  - intros b addr start n Hb Hn Hreg. unfold read_into. rewrite Nat.add_comm, Nat.add_sub.
    rewrite (proj2 (read_bytes_spec mem addr n (mem_byte mem <$> seqZ addr (Z.of_nat n)) Hwf)) by done.
    eexists. split_and!; [done | | done | ].
    + rewrite !length_app, length_fmap, length_seqZ, length_take, length_drop. lia.
    + unfold gathered. rewrite length_seqZ, Nat2Z.id. by rewrite Nat.add_comm.
  - lia.
  - rewrite Nat.sub_0_r in Hsp, Hb'. rewrite Hsp, Hb'. done.
Qed.
End gather.

(** * Scattering *)

(** Byte writes one after the other. *)
Fixpoint scatter (f : Z -> Z) (writes : list (Z * Z)) : Z -> Z :=
  match writes with
  | [] => f
  | (addr, v) :: writes => scatter (fun x => if decide (x = addr) then v else f x) writes
  end.

Lemma scatter_ext f g writes x :
  (forall y, f y = g y) -> scatter f writes x = scatter g writes x.
Proof.
  revert f g. induction writes as [ | [a v] writes IH]; intros f g Hfg; simpl; [done | ].
  apply IH. intros y. by destruct (decide (y = a)).
Qed.

Lemma scatter_app f a b x : scatter f (a ++ b) x = scatter (scatter f a) b x.
Proof. revert f. induction a as [ | [addr v] a IH]; intros f; simpl; [done | apply IH]. Qed.

Lemma scatter_run f addr b x :
  scatter f (zip (seqZ addr (Z.of_nat (length b))) b) x =
  (if decide (addr <= x < addr + Z.of_nat (length b))
   then default 0 (b !! Z.to_nat (x - addr)) else f x).
Proof.
  revert f addr. induction b as [ | v b IH]; intros f addr; cbn [length].
  { by rewrite decide_False by (simpl; lia). }
  rewrite seqZ_cons by lia. cbn [zip zip_with scatter].
  replace (Z.pred (Z.of_nat (S (length b)))) with (Z.of_nat (length b)) by lia. rewrite IH.
  destruct (decide (x = addr)) as [-> | Hne].
  - rewrite decide_False, decide_True by lia. by rewrite Z.sub_diag.
  - destruct (decide (Z.succ addr <= x < Z.succ addr + Z.of_nat (length b))).
    + rewrite decide_True by lia.
      replace (Z.to_nat (x - addr)) with (S (Z.to_nat (x - Z.succ addr))) by lia. done.
    + by rewrite decide_False by lia.
Qed.

Lemma zip_app_l {A B} (a c : list A) (l : list B) :
  zip (a ++ c) l = zip a l ++ zip c (drop (length a) l).
Proof.
  revert l. induction a as [ | x a IH]; intros l; simpl; [by rewrite drop_0 | ].
  destruct l as [ | y l]; [by destruct c | ]. simpl. f_equal. apply IH.
Qed.

Lemma zip_take_r {A B} (a : list A) (l : list B) : zip a (take (length a) l) = zip a l.
Proof.
  revert l. induction a as [ | x a IH]; intros [ | y l]; simpl; [done | done | done | ].
  f_equal. apply IH.
Qed.

Section scatter.
Context {M : Type} `{GuestMemoryLaws M}.

(** Guest memory after bytes were written one after the other. *)
Definition scattered (mem : M) (writes : list (Z * Z)) (mem' : M) : Prop :=
  mem_wf mem' /\ mem_regions mem' = mem_regions mem /\
  forall x, mem_byte mem' x = scatter (mem_byte mem) writes x.

Lemma write_writable_scatters mem chain skip b :
  mem_wf mem -> segments_ok (mem_regions mem) (chain_writable chain) -> 0 <= skip -> all_bytes b ->
  let w := window (chain_writable chain) skip (length b) in
  exists mem', write_writable mem chain skip b = (mem', Ok (length w)) /\ scattered mem (zip w b) mem'.
Proof.
  intros Hwf Hsegs Hskip Hb w. unfold write_writable.
  destruct (span_spec (mem_regions mem) (length b) (write_from b)
    (fun m => mem_wf m /\ mem_regions m = mem_regions mem)
    (fun m pos a m' => mem_wf m' /\ mem_regions m' = mem_regions m /\
       forall x, mem_byte m' x = scatter (mem_byte m) (zip a (drop pos b)) x))
    with (segments := chain_writable chain) (skip := skip) (done := 0%nat) (s := mem)
    as (mem' & Hsp & _ & Hst); try done.
  - intros m pos _ [Hm _]. done.
  - intros m pos a m' c m'' Hl (_ & Hr' & Hx') (Hm'' & Hr'' & Hx''). split_and!; [done | congruence | ].
    intros x. rewrite Hx'', (scatter_ext _ _ _ _ Hx'), <- scatter_app. f_equal.
    by rewrite zip_app_l, drop_drop.
  - intros m addr start n [Hm Hr] Hn Hreg. unfold write_from. rewrite Nat.add_comm, Nat.add_sub.
    assert (Hlen : length (take n (drop start b)) = n) by (rewrite length_take, length_drop; lia).
    assert (Hbytes : all_bytes (take n (drop start b))) by (by apply Forall_take, Forall_drop).
    pose proof (write_bytes_total m addr (take n (drop start b)) Hm) as Ht.
    rewrite Hlen, Hr in Ht. specialize (Ht Hreg).
    destruct (write_bytes m addr _) as [m' | e] eqn:Hw; [ | done].
    destruct (write_bytes_spec _ _ _ _ Hm Hbytes Hw) as (_ & Hm' & Hr' & Hx').
    exists m'. split_and!; try done; [congruence | ]. intros x.
    rewrite Hx', <- scatter_run, Hlen. f_equal.
    rewrite <- (Nat2Z.id n) at 2. rewrite <- (length_seqZ addr (Z.of_nat n)). apply zip_take_r.
  - lia.
  - rewrite Nat.sub_0_r in Hsp, Hst. by exists mem'.
Qed.
End scatter.

Lemma length_window regions segments skip len :
  segments_ok regions segments -> 0 <= skip ->
  Z.of_nat (length (window segments skip len)) =
  Z.min (Z.of_nat len) (Z.max 0 (segment_total segments - skip)).
Proof.
  intros Hsegs Hskip. unfold window. rewrite length_take, length_drop.
  pose proof (length_area _ _ Hsegs). lia.
Qed.

Section copies.
Context {M : Type} `{GuestMemoryLaws M}.

Lemma chain_safe_segments (mem : M) queue_size limits chain :
  chain_safe mem queue_size limits chain ->
  segments_ok (mem_regions mem) (chain_readable chain) /\
  segments_ok (mem_regions mem) (chain_writable chain).
Proof.
  intros (_ & _ & Hs & Hsplit & _). rewrite Hsplit in Hs. by apply Forall_app in Hs.
Qed.

(** The bytes the guest put in the readable part of a chain. *)
Definition readable_bytes (mem : M) (chain : DescriptorChain) : bytes :=
  mem_byte mem <$> area (chain_readable chain).

Lemma readable_bytes_ok (mem : M) queue_size limits chain :
  mem_wf mem -> chain_safe mem queue_size limits chain ->
  all_bytes (readable_bytes mem chain) /\
  Z.of_nat (length (readable_bytes mem chain)) = chain_readable_len chain.
Proof.
  intros Hwf Hsafe. destruct (chain_safe_segments _ _ _ _ Hsafe) as [Hr _].
  pose proof Hsafe as (_ & _ & _ & _ & -> & _). unfold readable_bytes.
  rewrite length_fmap, (length_area _ _ Hr). split; [ | done].
  apply Forall_fmap, Forall_true. intros x. by apply mem_byte_u8.
Qed.

(** Reading [n] bytes after [skip] when they are there. *)
Lemma read_readable_exact (mem : M) queue_size limits chain skip n :
  mem_wf mem -> chain_safe mem queue_size limits chain -> 
  (skip + n <= length (readable_bytes mem chain))%nat ->
  read_readable mem chain (Z.of_nat skip) (replicate n 0) =
  (take n (drop skip (readable_bytes mem chain)), Ok n).
Proof.
  intros Hwf Hsafe Hn. destruct (chain_safe_segments _ _ _ _ Hsafe) as [Hr _].
  rewrite (read_readable_gathers mem chain (Z.of_nat skip) (replicate n 0)) by (done || lia).
  unfold window. rewrite length_replicate, Nat2Z.id. unfold readable_bytes in *. rewrite length_fmap in Hn.
  rewrite <- fmap_drop, <- fmap_take.
  assert (Hl : length (take n (drop skip (area (chain_readable chain)))) = n)
    by (rewrite length_take, length_drop; lia).
  rewrite Hl, (drop_ge (replicate n 0)), app_nil_r by (rewrite length_replicate; lia). done.
Qed.

(** On a chain the walk accepted, the two copies always succeed and treat its segments
    as one sequence of bytes: reading fills the buffer with exactly the readable bytes
    from [skip] on, as many as fit, and writing stores exactly the given bytes at the
    writable addresses from [skip] on, in order, and touches no other byte; both report
    how many bytes that was, the smaller of the request and what lies beyond [skip]. *)
Theorem chain_copies (mem : M) queue_size limits chain skip buf b :
  mem_wf mem -> chain_safe mem queue_size limits chain -> 0 <= skip -> all_bytes b ->
  let r := window (chain_readable chain) skip (length buf) in
  let w := window (chain_writable chain) skip (length b) in
  read_readable mem chain skip buf = ((mem_byte mem <$> r) ++ drop (length r) buf, Ok (length r)) /\
  Z.of_nat (length r) = Z.min (Z.of_nat (length buf)) (Z.max 0 (chain_readable_len chain - skip)) /\
  (exists mem', write_writable mem chain skip b = (mem', Ok (length w)) /\ scattered mem (zip w b) mem') /\
  Z.of_nat (length w) = Z.min (Z.of_nat (length b)) (Z.max 0 (chain_writable_len chain - skip)).
Proof.
  intros Hwf Hsafe Hskip Hb r w. destruct (chain_safe_segments _ _ _ _ Hsafe) as [Hr Hw].
  pose proof Hsafe as (_ & _ & _ & _ & -> & -> & _). split_and!.
  - by apply read_readable_gathers.
  - by eapply length_window.
  - by apply write_writable_scatters.
  - by eapply length_window.
Qed.
End copies.

Lemma chain_copies_witness :
  read_readable sample_table sample_chain 1 [9; 9; 9; 9] = ([0; 0; 0; 9], Ok 3%nat) /\
  exists mem', write_writable sample_table sample_chain 0 [5; 6; 7] = (mem', Ok 2%nat) /\
    mem_byte mem' 70 = 5 /\ mem_byte mem' 71 = 6.
Proof.
  destruct (walk_chain_safe (M:=VecGuestMemory) sample_table 0 2 0 sample_limits sample_chain)
    as [Hsafe _]; [exact sample_table_wf | by vm_compute.. | ].
  destruct (chain_copies (M:=VecGuestMemory) sample_table 2 sample_limits sample_chain 1 [9; 9; 9; 9] [])
    as (Hr & _); [exact sample_table_wf | exact Hsafe | lia | constructor | ].
  destruct (chain_copies (M:=VecGuestMemory) sample_table 2 sample_limits sample_chain 0 [] [5; 6; 7])
    as (_ & _ & (mem' & Hw & _ & _ & Hx) & _);
    [exact sample_table_wf | exact Hsafe | lia | by repeat constructor; unfold is_uint | ].
  split; [exact Hr | ]. exists mem'. split; [exact Hw | ]. rewrite !Hx. by vm_compute.
Defined.
