(* ===== verification/Service.v ===== *)
(** Bounded servicing of one guest-driven queue
    ([crates/soma-kvm/src/virtio/devices/service.rs]): the [ChainHandler] seam, the service
    pass and its account of the work done. *)

From S2P Require Import Prelude Bytes GuestMemory QueueChain Virtqueue VirtqueueFacts Transport TransportFacts TransportProps.
From stdpp Require Import options.

(** * The code *)

Inductive DeviceFault : Type :=
| DeviceFault_Memory (error : GuestMemoryError)
| DeviceFault_Backend
| DeviceFault_Protocol.

(** [handle_chain] may change the device and guest memory, also when it faults. *)
Class ChainHandler (D : Type) : Type := {
  chain_limits : D -> Z -> ChainLimits;
  handle_chain {M : Type} `{GuestMemory M} :
    D -> Z -> DescriptorChain -> M -> D * M * Result Z DeviceFault;
}.

Record ServiceReport : Type := mkServiceReport {
  report_completed : Z;
  report_rejected : Z;
  report_interrupt : bool;
  report_exhausted : bool
}.

Definition service_report_default : ServiceReport := mkServiceReport 0 0 false false.

Inductive ServiceError : Type :=
| ServiceError_Transport (violation : TransportViolation)
| ServiceError_Queue (violation : QueueViolation)
| ServiceError_Fault (fault : DeviceFault).

Section code.
Context {D : Type} `{VirtioDevice D, ChainHandler D} {M : Type} `{GuestMemory M}.

(** The ring of [queue_and_device_mut] put back after a change. *)
Definition set_ring (t : MmioTransport D) (queue : Z) (ring : Queue) : MmioTransport D :=
  t_set_queues t (<[Z.to_nat queue := ring]> (t_queues t)).

Definition has_pending (queue : Z) (t : MmioTransport D) (mem : M)
    : MmioTransport D * Result bool ServiceError :=
  match t_queues t !! Z.to_nat queue with
  | None => (t, Ok false)
  | Some ring =>
      let '(ring, r) := pending mem ring in
      let t := set_ring t queue ring in
      match r with
      | Ok pending => (t, Ok (pending >? 0))
      | Err violation => (set_needs_reset t, Err (ServiceError_Queue violation))
      end
  end.

(** The part of an iteration after a chain was popped; [continue] is the rest of the
    loop. *)
Definition serve_chain
    (continue : ServiceReport -> MmioTransport D -> M ->
                option (MmioTransport D * M * Result ServiceReport ServiceError))
    (queue : Z) (chain : DescriptorChain) (report : ServiceReport) (t : MmioTransport D) (mem : M)
    : option (MmioTransport D * M * Result ServiceReport ServiceError) :=
  let '(device, mem, handled) := handle_chain (t_device t) queue chain mem in
  let t := t_set_device t device in
  match handled with
  | Err fault => Some (set_needs_reset t, mem, Err (ServiceError_Fault fault))
  | Ok len =>
      let '(t, mem, completed) := complete_used queue chain len t mem in
      match completed with
      | Err violation => Some (set_needs_reset t, mem, Err (ServiceError_Transport violation))
      | Ok notify =>
          continue (mkServiceReport (saturating_add U32_MAX (report_completed report) 1)
                      (report_rejected report) (report_interrupt report || notify)
                      (report_exhausted report)) t mem
      end
  end.

(** The loop, on the remaining budget; [None] where a chain walk would not return. *)
Fixpoint service_loop (queue : Z) (remaining : nat) (report : ServiceReport)
    (t : MmioTransport D) (mem : M)
    : option (MmioTransport D * M * Result ServiceReport ServiceError) :=
  match remaining with
  | O =>
      let '(t, r) := has_pending queue t mem in
      Some (t, mem, map_ok (fun exhausted =>
        mkServiceReport (report_completed report) (report_rejected report)
          (report_interrupt report) exhausted) r)
  | S remaining =>
      match t_queues t !! Z.to_nat queue with
      | None => Some (t, mem, Err (ServiceError_Transport (TransportViolation_NotifyOutOfRange queue)))
      | Some ring =>
          match pop_descriptor_chain mem (chain_limits (t_device t) queue) ring with
          | None => None
          | Some (ring, popped) =>
              let t := set_ring t queue ring in
              match popped with
              | Ok None => Some (t, mem, Ok report)
              | Err (QueueViolation_Chain _ _) =>
                  service_loop queue remaining
                    (mkServiceReport (report_completed report)
                       (saturating_add U32_MAX (report_rejected report) 1)
                       (report_interrupt report) (report_exhausted report)) t mem
              | Err violation => Some (set_needs_reset t, mem, Err (ServiceError_Queue violation))
              | Ok (Some chain) =>
                  serve_chain (service_loop queue remaining) queue chain report t mem
              end
          end
      end
  end.

Definition service_queue (queue budget : Z) (t : MmioTransport D) (mem : M)
    : option (MmioTransport D * M * Result ServiceReport ServiceError) :=
  if negb (is_active t)
  then Some (t, mem, Err (ServiceError_Transport TransportViolation_NotifyBeforeDriverOk))
  else service_loop queue (Z.to_nat budget) service_report_default t mem.
End code.

(** * What a handler promises the service loop

    On a chain the walk accepted it keeps guest memory well formed, its own fixed limits
    and its own invariant, and returns a 32-bit length. *)

Definition same_limits {D} `{VirtioDevice D} (device device' : D) : Prop :=
  feature_allowlist device' = feature_allowlist device /\
  queue_max_sizes device' = queue_max_sizes device.

Class ChainHandlerLaws (D : Type) `{VirtioDevice D, ChainHandler D} : Type := {
  device_inv : D -> Prop;
  chain_limits_wf device queue : wf_limits (chain_limits device queue);
  handle_chain_ok {M : Type} `{GuestMemoryLaws M} (device : D) queue queue_size chain (mem : M) :
    mem_wf mem -> device_inv device -> chain_safe mem queue_size (chain_limits device queue) chain ->
    let '(device', mem', r) := handle_chain device queue chain mem in
    same_limits device device' /\ device_inv device' /\ mem_wf mem' /\ mem_regions mem' = mem_regions mem /\
    (forall len, r = Ok len -> is_u32 len);
}.

(** * The account of one pass *)

(** What a stopped device looks like. *)
Definition stopped {D} (t : MmioTransport D) : Prop :=
  status_has (t_status t) STATUS_DEVICE_NEEDS_RESET = true /\
  Forall (fun q => queue_is_ready q = false) (t_queues t).

Lemma status_with_has s b : status_has (status_with s b) b = true.
Proof.
  unfold status_has, status_with. apply Z.eqb_eq, Z.bits_inj'. intros n Hn.
  rewrite Z.land_spec, Z.lor_spec. by destruct (Z.testbit s n), (Z.testbit b n).
Qed.

(** Cursors after [popped] heads were taken and [used] chains published. *)
Definition advanced (q q' : Queue) (popped used : Z) : Prop :=
  same_config q q' /\ q_next_avail q' = wrapping_add16 (q_next_avail q) popped /\
  q_next_used q' = wrapping_add16 (q_next_used q) used.

Lemma same_config_trans q1 q2 q3 : same_config q1 q2 -> same_config q2 q3 -> same_config q1 q3.
Proof. unfold same_config. intuition congruence. Qed.

Lemma advanced_refl q regions : queue_ok regions q -> advanced q q 0 0.
Proof.
  intros (_ & _ & _ & _ & _ & Ha & Hu & _). split; [apply same_config_refl | ].
  unfold wrapping_add16, is_uint in *. rewrite !Z.add_0_r, !Z.mod_small by done. done.
Qed.

Lemma advanced_trans q1 q2 q3 p u p' u' :
  advanced q1 q2 p u -> advanced q2 q3 p' u' -> advanced q1 q3 (p + p') (u + u').
Proof.
  intros (S1 & A1 & U1) (S2 & A2 & U2). split; [by eapply same_config_trans | ].
  unfold wrapping_add16 in *. rewrite A2, A1, U2, U1, !Zplus_mod_idemp_l. split; f_equal; lia.
Qed.

Section account.
Context {D : Type} `{VirtioDeviceLaws D} {M : Type} `{GuestMemoryLaws M}.

Lemma set_needs_reset_stopped (t : MmioTransport D) : stopped (set_needs_reset t).
Proof.
  split; [apply status_with_has | ]. simpl. apply Forall_fmap, Forall_true. done.
Qed.

Lemma complete_used_device (t : MmioTransport D) (mem : M) index chain len :
  t_device (complete_used index chain len t mem).1.1 = t_device t.
Proof.
  unfold complete_used. destruct (is_active t); [ | done]. simpl.
  destruct (t_queues t !! Z.to_nat index) as [q | ]; [ | done].
  destruct (add_used chain len (q, mem)) as [[q1 mem1] r1].
  destruct (match r1 with Ok _ => _ | Err _ => _ end) as [q2 [notify | v]]; done.
Qed.

(** A completion that succeeds publishes on the queue and leaves the rest. *)
Lemma complete_used_published (t t' : MmioTransport D) (mem mem' : M) index q l chain len notify :
  mem_wf mem -> queue_ok (mem_regions mem) q -> t_queues t !! Z.to_nat index = Some q ->
  q_layout q = Some l -> 0 <= len ->
  complete_used index chain len t mem = (t', mem', Ok notify) ->
  t_queues t' = <[Z.to_nat index := published q]> (t_queues t) /\ t_status t' = t_status t.
Proof.
  intros Hwf Hq Hi Hl Hlen. unfold complete_used. destruct (is_active t); [ | done]. cbn [negb].
  rewrite Hi. destruct (decide (len <= chain_writable_len chain)) as [Hcap | Hcap].
  - destruct (add_used_ready mem q l Hwf Hq Hl chain len) as (m1 & m2 & _ & _ & -> & _); [lia | ].
    unfold needs_notification, st_bind. rewrite (ready_layout_ready (published q) l) by done.
    destruct (read_obj_at 2 m2 _); [ | done]. by intros [= <- <- _].
  - unfold add_used, st_bind, with_mem. rewrite (ready_layout_ready q l) by done.
    by destruct (Z.gtb_spec len (chain_writable_len chain)); [ | lia].
Qed.

(** What a pop leaves for the loop. *)
Definition pop_account (mem : M) limits (q q' : Queue)
    (r : Result (option DescriptorChain) QueueViolation) : Prop :=
  match r with
  | Ok None => q' = q /\ exists l, q_layout q = Some l /\ read_obj_at 2 mem (layout_avail l + 2) = Ok (q_next_avail q)
  | Ok (Some chain) => advanced q q' 1 0 /\ exists l, q_layout q = Some l /\ chain_safe mem (layout_size l) limits chain
  | Err (QueueViolation_Chain _ _) => advanced q q' 1 0
  | Err _ => True
  end.

Lemma advance_avail q regions v :
  queue_ok regions q ->
  advanced q (q_with_next_avail q (wrapping_add16 (q_next_avail q) 1)) 1 0 /\
  advanced q (queue_record (A:=unit) v (q_with_next_avail q (wrapping_add16 (q_next_avail q) 1))).1 1 0.
Proof.
  intros (_ & _ & _ & _ & _ & _ & Hu & _). unfold advanced; simpl.
  assert (Hw : wrapping_add16 (q_next_used q) 0 = q_next_used q).
  { unfold wrapping_add16, is_uint in *. rewrite Z.add_0_r, Z.mod_small; done. }
  rewrite Hw. by repeat split.
Qed.

Lemma wrapping_sub16_zero a b : is_u16 a -> is_u16 b -> wrapping_sub16 a b = 0 -> a = b.
Proof. unfold wrapping_sub16, is_uint. intros Ha Hb Hm. apply Z.mod_divide in Hm as [k Hk]; lia. Qed.

Lemma pending_keeps (mem : M) q q' n :
  mem_wf mem -> queue_ok (mem_regions mem) q -> pending mem q = (q', Ok n) -> q' = q.
Proof.
  intros Hwf Hq. destruct (q_layout q) as [l | ] eqn:Hl.
  - destruct (avail_idx_readable mem q l Hwf Hq Hl) as (idx & Hidx & _).
    rewrite (pending_ready mem q l Hwf Hq Hl idx Hidx). cbv zeta. by destruct (_ >? _); intros [= <-].
  - unfold pending, st_bind. by rewrite not_ready.
Qed.

Lemma pop_accounts (mem : M) limits q :
  mem_wf mem -> queue_ok (mem_regions mem) q -> wf_limits limits ->
  exists q' r, pop_descriptor_chain mem limits q = Some (q', r) /\ pop_account mem limits q q' r.
Proof.
  intros Hwf Hq Hlim. destruct (q_layout q) as [l | ] eqn:Hl.
  - destruct (avail_idx_readable mem q l Hwf Hq Hl) as (idx & Hidx & Hi16).
    destruct (pop_ready mem q l Hwf Hq Hl limits idx Hlim Hidx) as ([q' r] & Hp & Hr).
    exists q', r. split; [done | ].
    destruct Hr as [[Hn Ho] | [[_ Ho] | (_ & head & _ & [(c & _ & Hs & _ & Ho) | (v & _ & Ho)])]];
      unfold queue_record in Ho; injection Ho as -> ->; simpl; try done.
    + split; [done | ]. exists l. split; [done | ]. rewrite <- (wrapping_sub16_zero idx (q_next_avail q)); try done.
      by destruct Hq as (_ & _ & _ & _ & _ & ? & _).
    + split; [ | by exists l]. by eapply (advance_avail q _ QueueViolation_NotReady).
    + by eapply (advance_avail q _ (QueueViolation_Chain head v)).
  - eexists _, _. unfold pop_descriptor_chain, pop_head, pending, st_bind. by rewrite not_ready.
Qed.
End account.

(** * Passes over a queue

    A bounded pass pops heads of one queue and publishes some of them.  [Inv] is the
    device's invariant, [Done] what a pass that ends regularly promises beside its account
    and [Stop] the errors it may stop with. *)

Section pass.
Context {D : Type} `{VirtioDeviceLaws D} {M : Type} `{GuestMemoryLaws M}.
Context (Inv : D -> Prop) (Done : ServiceReport -> Queue -> M -> Prop) (Stop : ServiceError -> Prop).

(** What a pass over [queue] with budget [n] left and [report] so far may end in: the
    work it reports is the work the cursors show, and where it stops early the device is
    stopped. *)
Definition pass_ok (queue : Z) (n : nat) (report : ServiceReport) (q : Queue)
    (t : MmioTransport D) (mem : M) (out : MmioTransport D * M * Result ServiceReport ServiceError) : Prop :=
  let '(t', mem', r) := out in
  rtc tstep (t, mem) (t', mem') /\ Inv (t_device t') /\
  match r with
  | Err e => Stop e /\ stopped t'
  | Ok report' =>
      exists q' popped used,
        t_queues t' = <[Z.to_nat queue := q']> (t_queues t) /\ t_status t' = t_status t /\
        advanced q q' popped used /\ 0 <= used <= popped /\ popped <= Z.of_nat n /\
        report_completed report' = report_completed report + used /\
        report_rejected report' = report_rejected report + (popped - used) /\
        Done report' q' mem'
  end.

Lemma ring_back (t : MmioTransport D) i q q' :
  <[i := q']> (<[i := q]> (t_queues t)) = <[i := q']> (t_queues t).
Proof. apply list_insert_insert_eq. Qed.

Lemma set_ring_same (t : MmioTransport D) queue q :
  t_queues t !! Z.to_nat queue = Some q -> set_ring t queue q = t.
Proof. intros Hi. unfold set_ring. rewrite list_insert_id by done. by destruct t. Qed.

(** The two ways a pass ends at once. *)
Lemma pass_stops queue n report q (t t1 : MmioTransport D) (mem mem1 : M) e :
  rtc tstep (t, mem) (t1, mem1) -> Inv (t_device t1) -> Stop e ->
  pass_ok queue n report q t mem (set_needs_reset t1, mem1, Err e).
Proof.
  intros Hrun Hinv He. split_and!; [ | done | done | apply set_needs_reset_stopped].
  eapply rtc_r; [exact Hrun | apply tstep_needs_reset].
Qed.

Lemma pass_idle queue n report report' q (t : MmioTransport D) (mem : M) :
  system_ok (t, mem) -> t_queues t !! Z.to_nat queue = Some q -> Inv (t_device t) ->
  report_completed report' = report_completed report ->
  report_rejected report' = report_rejected report -> Done report' q mem ->
  pass_ok queue n report q t mem (t, mem, Ok report').
Proof.
  intros [Hwf Ht] Hi Hinv Hc Hr Hd. split_and!; [done | done | ].
  pose proof (proj1 (transport_queue_ok _ _ _ _ Ht Hi)) as Hq.
  exists q, 0, 0. split_and!; try done; try lia.
  - by rewrite list_insert_id.
  - by eapply advanced_refl.
Qed.

(** A pass that first took one head and then went on. *)
Lemma pass_step queue n report report1 q q1 used1 (t t1 : MmioTransport D) (mem mem1 : M) out :
  rtc tstep (t, mem) (t1, mem1) ->
  t_queues t1 = <[Z.to_nat queue := q1]> (t_queues t) -> t_status t1 = t_status t ->
  advanced q q1 1 used1 -> 0 <= used1 <= 1 ->
  report_completed report1 = report_completed report + used1 ->
  report_rejected report1 = report_rejected report + (1 - used1) ->
  pass_ok queue n report1 q1 t1 mem1 out -> pass_ok queue (S n) report q t mem out.
Proof.
  intros Hrun Hqs Hst Hadv Hu Hc Hr. destruct out as [[t' mem'] r]. intros (Hrun' & Hinv & Hp).
  split_and!; [by etrans | done | ]. destruct r as [report' | e]; [ | done].
  destruct Hp as (q' & popped & used & Hq' & Hs' & Hadv' & Hle & Hn & Hc' & Hr' & Hd).
  exists q', (1 + popped), (used1 + used). rewrite Hq', Hqs, ring_back.
  split_and!; try done; try lia. by eapply advanced_trans.
Qed.

(** A pass that first used budget without touching the queue. *)
Lemma pass_skip queue n report q (t t1 : MmioTransport D) (mem mem1 : M) out :
  rtc tstep (t, mem) (t1, mem1) -> t_queues t1 = t_queues t -> t_status t1 = t_status t ->
  pass_ok queue n report q t1 mem1 out -> pass_ok queue (S n) report q t mem out.
Proof.
  intros Hrun Hqs Hst. destruct out as [[t' mem'] r]. intros (Hrun' & Hinv & Hp).
  split_and!; [by etrans | done | ]. destruct r as [report' | e]; [ | done].
  destruct Hp as (q' & popped & used & Hq' & Hs' & Hadv & Hle & Hn & Hrest).
  exists q', popped, used. rewrite Hq', Hqs. split; [done | ]. split; [congruence | ]. split; [done | ].
  split; [done | ]. split; [lia | done].
Qed.

Lemma advanced_published q q1 regions popped :
  queue_ok regions q1 -> advanced q q1 popped 0 -> advanced q (published q1) popped 1.
Proof.
  intros (_ & _ & _ & _ & _ & Ha & _) Hadv. rewrite <- (Z.add_0_r popped), <- (Z.add_0_l 1).
  eapply advanced_trans; [exact Hadv | ]. split; [by unfold same_config | ]. simpl. split; [ | done].
  unfold wrapping_add16, is_uint in *. rewrite Z.add_0_r, Z.mod_small; done.
Qed.

(** The report leaves room for [n] more chains in its counters. *)
Definition room (report : ServiceReport) (n : nat) : Prop :=
  report_exhausted report = false /\ 0 <= report_completed report /\ 0 <= report_rejected report /\
  report_completed report + report_rejected report + Z.of_nat n <= U32_MAX.

Definition completed_one (report : ServiceReport) (notify : bool) : ServiceReport :=
  mkServiceReport (saturating_add U32_MAX (report_completed report) 1)
    (report_rejected report) (report_interrupt report || notify) (report_exhausted report).

Definition rejected_one (report : ServiceReport) : ServiceReport :=
  mkServiceReport (report_completed report) (saturating_add U32_MAX (report_rejected report) 1)
    (report_interrupt report) (report_exhausted report).

Lemma room_next report n notify :
  room report (S n) ->
  room (completed_one report notify) n /\ room (rejected_one report) n /\
  report_completed (completed_one report notify) = report_completed report + 1 /\
  report_rejected (rejected_one report) = report_rejected report + 1.
Proof. unfold room, saturating_add; simpl. unfold saturating_add. intros (? & ? & ? & ?). split_and!; try done; lia. Qed.

(** The rest of a loop, as a pass for every state it may be entered in. *)
Definition passes (n : nat) (loop : ServiceReport -> MmioTransport D -> M ->
    option (MmioTransport D * M * Result ServiceReport ServiceError)) (queue : Z)
    (Enter : ServiceReport -> Prop) : Prop :=
  forall report q (t : MmioTransport D) (mem : M),
    system_ok (t, mem) -> t_queues t !! Z.to_nat queue = Some q -> Inv (t_device t) ->
    room report n -> Enter report ->
    exists out, loop report t mem = Some out /\ pass_ok queue n report q t mem out.

(** Publishing a chain that was popped, and going on. *)
Lemma publish_pass n loop queue Enter report q q1 l chain len (t t1 : MmioTransport D) (mem mem1 : M) :
  passes n loop queue Enter -> system_ok (t, mem) -> rtc tstep (t, mem) (t1, mem1) ->
  t_queues t1 = <[Z.to_nat queue := q1]> (t_queues t) -> t_queues t1 !! Z.to_nat queue = Some q1 ->
  t_status t1 = t_status t -> Inv (t_device t1) -> advanced q q1 1 0 -> q_layout q1 = Some l ->
  room report (S n) -> (forall notify, Enter (completed_one report notify)) -> 0 <= len ->
  (forall violation, Stop (ServiceError_Transport violation)) ->
  exists out,
    (let '(t, mem, completed) := complete_used queue chain len t1 mem1 in
     match completed with
     | Err violation => Some (set_needs_reset t, mem, Err (ServiceError_Transport violation))
     | Ok notify => loop (completed_one report notify) t mem
     end) = Some out /\ pass_ok queue (S n) report q t mem out.
Proof using Type*.
  intros Hnext Hok Hrun1 Hqs1 Hi1 Hst1 Hinv Hadv Hl1 Hroom Henter Hlen Hstop.
  pose proof (tstep_complete t1 mem1 queue chain len Hlen) as Hstep.
  pose proof (complete_used_device t1 mem1 queue chain len) as Hdev.
  destruct (complete_used queue chain len t1 mem1) as [[t2 mem2] r] eqn:Hcomp. simpl in Hdev.
  assert (Hrun2 : rtc tstep (t, mem) (t2, mem2)) by (by eapply rtc_r).
  rewrite <- Hdev in Hinv. destruct r as [notify | violation]; [ | eexists; split; [done | by apply pass_stops]].
  destruct (tsteps_ok _ _ Hrun1 Hok) as [Hwf1 Ht1].
  pose proof (proj1 (transport_queue_ok _ _ _ _ Ht1 Hi1)) as Hq1.
  destruct (complete_used_published t1 t2 mem1 mem2 queue q1 l chain len notify) as [Hqs Hst]; try done.
  destruct (room_next report n notify Hroom) as (Hroom1 & _ & Hc & _).
  destruct (Hnext (completed_one report notify) (published q1) t2 mem2) as (out & Hout & Hpass);
    [by eapply tsteps_ok | | done | done | done | ].
  { rewrite Hqs. apply list_lookup_insert_eq. by eapply lookup_lt_Some. }
  exists out. split; [exact Hout | ].
  eapply (pass_step _ _ _ _ _ (published q1) 1); [exact Hrun2 | | congruence | | done | done | | exact Hpass].
  - by rewrite Hqs, Hqs1, ring_back.
  - by eapply advanced_published.
  - simpl. lia.
Qed.

(** A head whose chain was refused, and going on. *)
Lemma reject_pass n loop queue Enter report q q1 (t : MmioTransport D) (mem : M) :
  passes n loop queue Enter -> system_ok (t, mem) -> rtc tstep (t, mem) (set_ring t queue q1, mem) ->
  t_queues t !! Z.to_nat queue = Some q -> Inv (t_device t) -> advanced q q1 1 0 ->
  room report (S n) -> Enter (rejected_one report) ->
  exists out, loop (rejected_one report) (set_ring t queue q1) mem = Some out /\
    pass_ok queue (S n) report q t mem out.
Proof using Type*.
  intros Hnext Hok Hrun1 Hi Hinv Hadv Hroom Henter.
  destruct (room_next report n false Hroom) as (_ & Hroom1 & _ & Hr).
  destruct (Hnext (rejected_one report) q1 (set_ring t queue q1) mem) as (out & Hout & Hpass);
    [by eapply tsteps_ok | | done | done | done | ].
  { apply list_lookup_insert_eq. by eapply lookup_lt_Some. }
  exists out. split; [exact Hout | ].
  eapply (pass_step _ _ _ _ _ q1 0); [exact Hrun1 | done | done | done | done | | | exact Hpass]; simpl in *; lia.
Qed.
End pass.

(** * The service pass *)

Section service.
Context {D : Type} `{VirtioDeviceLaws D} `{!ChainHandler D} `{!ChainHandlerLaws D}.
Context {M : Type} `{GuestMemoryLaws M}.

(** The report says whether the driver's index is still ahead of the cursor. *)
Definition told_pending (report : ServiceReport) (q : Queue) (mem : M) : Prop :=
  exists l idx, q_layout q = Some l /\ read_obj_at 2 mem (layout_avail l + 2) = Ok idx /\
    report_exhausted report = (wrapping_sub16 idx (q_next_avail q) >? 0).

(** A service pass may stop with any error. *)
Definition any_error (_ : ServiceError) : Prop := True.

Abbreviation service_pass_ok := (pass_ok (D:=D) (M:=M) device_inv told_pending any_error).

Lemma has_pending_pass queue report q (t : MmioTransport D) (mem : M) :
  system_ok (t, mem) -> t_queues t !! Z.to_nat queue = Some q -> device_inv (t_device t) ->
  exists out, service_loop queue 0 report t mem = Some out /\ service_pass_ok queue 0 report q t mem out.
Proof.
  intros [Hwf Ht] Hi Hinv. pose proof (proj1 (transport_queue_ok _ _ _ _ Ht Hi)) as Hq.
  assert (Hrun : rtc tstep (t, mem) (set_ring t queue (pending mem q).1, mem))
    by (by apply rtc_once, tstep_pending).
  cbn [service_loop]. unfold has_pending. rewrite Hi.
  destruct (q_layout q) as [l | ] eqn:Hl.
  - destruct (avail_idx_readable mem q l Hwf Hq Hl) as (idx & Hidx & _).
    rewrite (pending_ready mem q l Hwf Hq Hl idx Hidx) in Hrun |- *. cbv zeta in Hrun |- *.
    destruct (_ >? layout_size l); (eexists; split; [done | ]); [by apply pass_stops | ].
    rewrite set_ring_same by done. apply pass_idle; try done. by exists l, idx.
  - assert (Hp : pending mem q = queue_record QueueViolation_NotReady q)
      by (unfold pending, st_bind; by rewrite not_ready).
    rewrite Hp in Hrun |- *. eexists. split; [done | by apply pass_stops].
Qed.

Lemma serve_chain_pass queue n report q q1 l chain (t : MmioTransport D) (mem : M) :
  passes device_inv told_pending any_error n (service_loop queue n) queue (fun _ => True) ->
  system_ok (t, mem) -> rtc tstep (t, mem) (set_ring t queue q1, mem) -> room report (S n) ->
  t_queues t !! Z.to_nat queue = Some q -> device_inv (t_device t) -> advanced q q1 1 0 ->
  q_layout q1 = Some l -> chain_safe mem (layout_size l) (chain_limits (t_device t) queue) chain ->
  exists out, serve_chain (service_loop queue n) queue chain report (set_ring t queue q1) mem = Some out /\
    service_pass_ok queue (S n) report q t mem out.
Proof using Type*.
  intros Hnext Hok Hrun1 Hroom Hi Hinv Hadv Hl1 Hsafe. unfold serve_chain.
  change (t_device (set_ring t queue q1)) with (t_device t).
  pose proof (handle_chain_ok (t_device t) queue (layout_size l) chain mem (proj1 Hok) Hinv Hsafe) as Hh.
  destruct (handle_chain (t_device t) queue chain mem) as [[device mem2] handled].
  destruct Hh as ((Ha & Hm) & Hinv2 & Hwf2 & Hr2 & Hlen).
  set (t2 := t_set_device (set_ring t queue q1) device).
  assert (Hrun2 : rtc tstep (t, mem) (t2, mem2)).
  { eapply rtc_r; [eapply rtc_r; [exact Hrun1 | by apply (tstep_device (set_ring t queue q1) mem device)]
                  | by apply tstep_guest]. }
  destruct handled as [len | fault]; [ | eexists; split; [done | by apply pass_stops]].
  specialize (Hlen len eq_refl).
  apply (publish_pass device_inv told_pending any_error n (service_loop queue n) queue (fun _ => True) report q q1 l
    chain len t t2 mem mem2); try done.
  - apply list_lookup_insert_eq. by eapply lookup_lt_Some.
  - unfold is_uint in Hlen. lia.
Qed.

Lemma service_loop_pass queue n :
  passes device_inv told_pending any_error n (service_loop queue n) queue (fun _ => True).
Proof using Type*.
  induction n as [ | n IH]; intros report q t mem Hok Hi Hinv Hroom _; [by apply has_pending_pass | ].
  pose proof Hok as [Hwf Ht]. pose proof (proj1 (transport_queue_ok _ _ _ _ Ht Hi)) as Hq.
  cbn [service_loop]. rewrite Hi. pose proof (chain_limits_wf (t_device t) queue) as Hlim.
  destruct (pop_accounts mem _ q Hwf Hq Hlim) as (q1 & r & Hpop & Hacc). rewrite Hpop.
  assert (Hrun1 : rtc tstep (t, mem) (set_ring t queue q1, mem)) by (by eapply rtc_once, tstep_pop).
  destruct r as [[chain | ] | e].
  - destruct Hacc as (Hadv & l & Hl & Hsafe). eapply serve_chain_pass; try done.
    by destruct Hadv as ((_ & _ & _ & _ & _ & -> & _) & _).
  - destruct Hacc as (-> & l & Hl & Hidx). rewrite set_ring_same by done. eexists. split; [done | ].
    apply pass_idle; try done. exists l, (q_next_avail q). split_and!; try done.
    destruct Hroom as [-> _]. unfold wrapping_sub16. by rewrite Z.sub_diag.
  - assert (Hstop : exists out, Some (set_needs_reset (set_ring t queue q1), mem, Err (ServiceError_Queue e)) =
      Some out /\ service_pass_ok queue (S n) report q t mem out)
      by (eexists; split; [done | by apply pass_stops]).
    destruct e; try exact Hstop. by apply (reject_pass _ _ _ n _ _ (fun _ => True)).
Qed.

(** C14: a service pass over a queue of an active device always ends, within its budget, and
    its report is exact: the available cursor advanced by completed plus rejected, the
    used cursor by completed, at most [budget] heads were taken, no other queue and no
    status bit changed, and [exhausted] says whether the driver's index is still ahead.
    When the pass stops early, on an unusable ring, a device fault or a refused
    completion, the device has [DEVICE_NEEDS_RESET] and no ready queue.  All of it is a
    run of transport operations, so the transport's invariant is kept, and so is the
    device's own. *)
Theorem service_pass queue budget q (t : MmioTransport D) (mem : M) :
  system_ok (t, mem) -> is_active t = true -> t_queues t !! Z.to_nat queue = Some q ->
  device_inv (t_device t) -> is_u32 budget ->
  exists out, service_queue queue budget t mem = Some out /\
    service_pass_ok queue (Z.to_nat budget) service_report_default q t mem out /\ system_ok out.1.
Proof using Type*.
  intros Hok Ha Hi Hinv Hb. unfold service_queue. rewrite Ha. cbn [negb].
  destruct (service_loop_pass queue (Z.to_nat budget) service_report_default q t mem)
    as (out & Hout & Hpass); try done.
  { unfold room, is_uint, U32_MAX in *. simpl. split_and!; [done | lia..]. }
  exists out. split_and!; [done | done | ]. destruct out as [[t' mem'] r].
  destruct Hpass as [Hrun _]. by apply (tsteps_ok _ _ Hrun).
Qed.
End service.
