(* ===== verification/Rng.v ===== *)
(** The entropy device ([crates/soma-kvm/src/virtio/devices/rng.rs], [rng/state.rs],
    [rng/backend.rs]): one queue filled from a host source, over the seams of the
    transport and of the service loop. *)

From S2P Require Import Prelude Bytes GuestMemory QueueChain Virtqueue VirtqueueFacts Transport TransportFacts TransportProps Segments Service.
From stdpp Require Import options.

(** * The code *)

(** An [io::ErrorKind] by its discriminant. *)
Inductive EntropyError : Type :=
| EntropyError_Unavailable (kind : Z)
| EntropyError_Short.

(** [fill] overwrites the whole buffer it is given, here [n] bytes. *)
Class EntropyBackend (B : Type) : Type := {
  fill : B -> nat -> B * Result bytes EntropyError;
}.

(** What the buffer's type gives: as many bytes as the buffer has. *)
Class EntropyBackendLaws (B : Type) `{EntropyBackend B} : Prop := {
  fill_bytes backend n backend' b :
    fill backend n = (backend', Ok b) -> length b = n /\ all_bytes b;
}.

Definition VIRTIO_RNG_DEVICE_ID : Z := 4.
Definition RNG_FEATURES : Z := VIRTIO_F_VERSION_1.
Definition RNG_QUEUE_MAX : list Z := [64].
Definition MAX_ENTROPY_REQUEST : Z := 65536.
Definition RNG_CHAIN_LIMITS : ChainLimits := mkChainLimits 64 1048576.

Record RngCounters : Type := mkRngCounters {
  rng_filled : Z;
  rng_bytes : Z;
  rng_rejected : Z
}.

Record RngDevice (B : Type) : Type := mkRngDevice {
  rng_backend : B;
  rng_activated : bool;
  rng_counters : RngCounters
}.
Arguments mkRngDevice {B} _ _ _.
Arguments rng_backend {B} _.
Arguments rng_activated {B} _.
Arguments rng_counters {B} _.

Definition rng_new {B} (backend : B) : RngDevice B := mkRngDevice backend false (mkRngCounters 0 0 0).

(** The snapshot record ([rng/state.rs]). *)
Definition RNG_STATE_VERSION : Z := 1.
Definition RNG_STATE_LEN : nat := 13.

Record RngState : Type := mkRngState {
  rng_state_device_id : Z;
  rng_state_features : Z
}.

#[export] Instance RngState_eq_dec : EqDecision RngState.
Proof. solve_decision. Defined.

Definition rng_state_capture : RngState := mkRngState VIRTIO_RNG_DEVICE_ID RNG_FEATURES.

Definition rng_state_to_bytes (s : RngState) : bytes :=
  [RNG_STATE_VERSION] ++ le_bytes 4 (rng_state_device_id s) ++ le_bytes 8 (rng_state_features s).

Definition rng_state_from_bytes (raw : bytes) : Result RngState DeviceStateError :=
  if negb (length raw =? RNG_STATE_LEN)%nat || negb (default 0 (raw !! 0%nat) =? RNG_STATE_VERSION)
  then Err DeviceStateError_Malformed
  else
    let device_id := le_u64 (take 4 (drop 1 raw)) in
    if device_id <=? U32_MAX
    then Ok (mkRngState device_id (le_u64 (take 8 (drop 5 raw))))
    else Err DeviceStateError_Malformed.

Definition rng_state_apply (s : RngState) : Result unit DeviceStateError :=
  if bool_decide (s = rng_state_capture) then Ok tt else Err DeviceStateError_Incompatible.

Section device.
Context {B : Type} `{EntropyBackend B}.

Definition rng_activate (device : RngDevice B) (negotiated_features : Z)
    : RngDevice B * Result unit ActivateError :=
  if negb (Z.land negotiated_features (lnot_w 64 RNG_FEATURES) =? 0)
  then (device, Err (ActivateError_UnsupportedFeatures negotiated_features))
  else (mkRngDevice (rng_backend device) true (rng_counters device), Ok tt).

Definition rng_reset (device : RngDevice B) : RngDevice B :=
  mkRngDevice (rng_backend device) false (rng_counters device).

Definition rng_restore_state (device : RngDevice B) (raw : bytes)
    : RngDevice B * Result unit DeviceStateError :=
  (device, let? s := rng_state_from_bytes raw in rng_state_apply s).

#[export] Instance RngDevice_VirtioDevice : VirtioDevice (RngDevice B) := {|
  device_id _ := VIRTIO_RNG_DEVICE_ID;
  vendor_id _ := SOMA_VENDOR_ID;
  feature_allowlist _ := RNG_FEATURES;
  queue_max_sizes _ := RNG_QUEUE_MAX;
  config_len _ := 0;
  device_read_config _ _ _ := Err ConfigAccessError_OutOfBounds;
  device_write_config device _ _ := (device, Err ConfigAccessError_OutOfBounds);
  device_activate := rng_activate;
  device_reset := rng_reset;
  device_snapshot_state _ := rng_state_to_bytes rng_state_capture;
  device_restore_state := rng_restore_state;
|}.

Definition rng_count_rejected (c : RngCounters) : RngCounters :=
  mkRngCounters (rng_filled c) (rng_bytes c) (saturating_add U32_MAX (rng_rejected c) 1).

Definition rng_count_filled (c : RngCounters) (len : Z) : RngCounters :=
  mkRngCounters (saturating_add U32_MAX (rng_filled c) 1) (saturating_add U64_MAX (rng_bytes c) len)
    (rng_rejected c).

Definition rng_handle_chain {M} `{GuestMemory M} (device : RngDevice B) (chain : DescriptorChain) (mem : M)
    : RngDevice B * M * Result Z DeviceFault :=
  if negb (chain_readable_len chain =? 0) then
    (mkRngDevice (rng_backend device) (rng_activated device) (rng_count_rejected (rng_counters device)),
     mem, Ok 0)
  else
    let len := Z.min (chain_writable_len chain) MAX_ENTROPY_REQUEST in
    let '(backend, filled) := fill (rng_backend device) (Z.to_nat len) in
    let device := mkRngDevice backend (rng_activated device) (rng_counters device) in
    match filled with
    | Err _ => (device, mem, Err DeviceFault_Backend)
    | Ok b =>
        let '(mem, written) := write_writable mem chain 0 b in
        match written with
        | Err error => (device, mem, Err (DeviceFault_Memory error))
        | Ok n =>
            if negb (Z.of_nat n =? len) then (device, mem, Err DeviceFault_Protocol)
            else
              (mkRngDevice (rng_backend device) (rng_activated device)
                 (rng_count_filled (rng_counters device) len), mem,
               if len <=? U32_MAX then Ok len else Err DeviceFault_Protocol)
        end
    end.

#[export] Instance RngDevice_ChainHandler : ChainHandler (RngDevice B) := {|
  chain_limits _ _ := RNG_CHAIN_LIMITS;
  handle_chain _ _ device _ chain mem := rng_handle_chain device chain mem;
|}.
End device.

(** * The seams are kept *)

Section laws.
Context {B : Type} `{EntropyBackendLaws B}.

#[export] Instance RngDevice_laws : VirtioDeviceLaws (RngDevice B).
Proof.
  split; try done. intros device. by repeat constructor.
Qed.

(** What serving one accepted chain does. *)
Definition rng_served {M} `{GuestMemoryLaws M} (device : RngDevice B) (chain : DescriptorChain) (mem : M)
    (out : RngDevice B * M * Result Z DeviceFault) : Prop :=
  let len := Z.min (chain_writable_len chain) MAX_ENTROPY_REQUEST in
  let with_counters backend c := mkRngDevice backend (rng_activated device) c in
  if decide (chain_readable_len chain = 0) then
    match fill (rng_backend device) (Z.to_nat len) with
    | (backend, Ok b) =>
        exists mem', out = (with_counters backend (rng_count_filled (rng_counters device) len), mem', Ok len) /\
          scattered mem (zip (take (Z.to_nat len) (area (chain_writable chain))) b) mem'
    | (backend, Err _) => out = (with_counters backend (rng_counters device), mem, Err DeviceFault_Backend)
    end
  else out = (with_counters (rng_backend device) (rng_count_rejected (rng_counters device)), mem, Ok 0).

Lemma rng_handles {M} `{GuestMemoryLaws M} (device : RngDevice B) queue queue_size chain (mem : M) :
  mem_wf mem -> chain_safe mem queue_size (chain_limits device queue) chain ->
  rng_served device chain mem (handle_chain device queue chain mem).
Proof using H0.
  intros Hwf Hsafe. destruct (chain_safe_segments _ _ _ _ Hsafe) as [_ Hw].
  pose proof Hsafe as (_ & _ & _ & _ & _ & Hcap & _). unfold rng_served. simpl. unfold rng_handle_chain.
  destruct (Z.eqb_spec (chain_readable_len chain) 0) as [Hz | Hz];
    [rewrite decide_True by done | by rewrite decide_False by done]. cbn [negb]. cbv zeta.
  set (len := Z.min (chain_writable_len chain) MAX_ENTROPY_REQUEST).
  destruct (segment_total_zero _ _ Hw) as [Hnn _]. rewrite <- Hcap in Hnn.
  assert (Hlen : 0 <= len <= chain_writable_len chain /\ len <= 65536) by (unfold len, MAX_ENTROPY_REQUEST; lia).
  destruct (fill (rng_backend device) (Z.to_nat len)) as [backend [b | e]] eqn:Hf; [ | done].
  destruct (fill_bytes _ _ _ _ Hf) as [Hb Hbytes].
  destruct (write_writable_scatters mem chain 0 b Hwf Hw ltac:(lia) Hbytes) as (mem' & -> & Hsc).
  pose proof (length_window _ _ 0 (length b) Hw ltac:(lia)) as Hwin. rewrite <- Hcap in Hwin.
  destruct (Z.eqb_spec (Z.of_nat (length (window (chain_writable chain) 0 (length b)))) len) as [_ | Hne]; [ | lia].
  cbn [negb]. exists mem'. unfold window in Hsc. simpl in Hsc. rewrite drop_0, Hb in Hsc. split; [ | done].
  by destruct (Z.leb_spec len U32_MAX); [ | unfold U32_MAX in *; lia].
Qed.

Lemma rng_limits_wf : wf_limits RNG_CHAIN_LIMITS.
Proof. by vm_compute. Qed.

Lemma rng_handle_ok {M} `{GuestMemoryLaws M} (device : RngDevice B) queue queue_size chain (mem : M) :
  mem_wf mem -> True -> chain_safe mem queue_size (chain_limits device queue) chain ->
  let '(device', mem', r) := handle_chain device queue chain mem in
  same_limits device device' /\ True /\ mem_wf mem' /\ mem_regions mem' = mem_regions mem /\
  (forall len, r = Ok len -> is_u32 len).
Proof using H0.
  intros Hwf _ Hsafe.
  pose proof (rng_handles device queue queue_size chain mem Hwf Hsafe) as Hs. unfold rng_served in Hs.
  destruct (chain_safe_segments _ _ _ _ Hsafe) as [_ Hw].
  pose proof Hsafe as (_ & _ & _ & _ & _ & Hcap & _).
  destruct (segment_total_zero _ _ Hw) as [Hnn _]. rewrite <- Hcap in Hnn.
  destruct (decide (chain_readable_len chain = 0)) as [Hz | Hz].
  - destruct (fill _ _) as [backend [b | e]]; [ | by rewrite Hs; split_and!].
    destruct Hs as (mem' & -> & Hm' & Hr' & _). split_and!; try done.
    intros len [= <-]. unfold is_uint, MAX_ENTROPY_REQUEST. lia.
  - rewrite Hs. split_and!; try done. by intros len [= <-].
Qed.

#[export] Instance RngDevice_handler_laws : ChainHandlerLaws (RngDevice B) := {|
  device_inv _ := True;
  chain_limits_wf _ _ := rng_limits_wf;
  handle_chain_ok _ _ _ := rng_handle_ok;
|}.

(** The entropy device serves every accepted chain that is all writable with exactly the
    host source's bytes: the first [min capacity 65536] writable bytes become what the
    source produced, no other byte of guest memory changes, and the length it reports is
    that many, so never more than the chain holds.  A source failure writes nothing and
    stops the device; a chain with a readable part is refused with length zero. *)
Theorem rng_serves {M} `{GuestMemoryLaws M} (device : RngDevice B) queue queue_size chain (mem : M) :
  mem_wf mem -> chain_safe mem queue_size (chain_limits device queue) chain ->
  rng_served device chain mem (handle_chain device queue chain mem).
Proof using H0. apply rng_handles. Qed.

(** A snapshot of the entropy device carries its identity and nothing of the source: the
    record is the same for every device, and restoring accepts exactly that record,
    leaving the device as it is. *)
Theorem rng_snapshot_identity (device device' : RngDevice B) raw :
  all_bytes raw ->
  device_snapshot_state device = device_snapshot_state device' /\
  (device_restore_state device raw).1 = device /\
  ((device_restore_state device raw).2 = Ok tt <-> raw = device_snapshot_state device).
Proof.
  intros Hraw. split_and!; [done | done | ]. simpl. split; [ | intros ->; by vm_compute].
  unfold rng_state_from_bytes. destruct (Nat.eqb_spec (length raw) RNG_STATE_LEN) as [Hl | Hl]; [ | done].
  destruct (Z.eqb_spec (default 0 (raw !! 0%nat)) RNG_STATE_VERSION) as [Hv | Hv]; [ | done]. simpl.
  destruct (_ <=? U32_MAX); [ | done]. unfold rng_state_apply.
  case_bool_decide as Heq; [ | done]. intros _. injection Heq as Hid Hft. unfold RNG_STATE_LEN in Hl.
  apply (le_u64_exact _ 4) in Hid; [ | by apply Forall_take, Forall_drop
    | rewrite length_take, length_drop; lia | lia | by vm_compute].
  apply (le_u64_exact _ 8) in Hft; [ | by apply Forall_take, Forall_drop
    | rewrite length_take, length_drop; lia | lia | by vm_compute].
  destruct raw as [ | v raw]; [done | ]. simpl in Hv, Hl, Hid, Hft. rewrite drop_0 in Hid. subst v.
  rewrite (take_ge (drop 4 raw)) in Hft by (rewrite length_drop; lia).
  rewrite <- (take_drop 4 raw), Hid, Hft. done.
Qed.
End laws.

(** * A sample device over a source that counts *)

#[export] Instance counter_entropy : EntropyBackend Z := {|
  fill next n := ((next + Z.of_nat n) mod 256, Ok ((fun z => z mod 256) <$> seqZ next (Z.of_nat n)));
|}.

#[export] Instance counter_entropy_laws : EntropyBackendLaws Z.
Proof.
  split. intros backend n backend' b [= <- <-]. split; [rewrite length_fmap, length_seqZ; lia | ].
  apply Forall_fmap, Forall_true. intros x. unfold is_uint; simpl. apply Z.mod_pos_bound. lia.
Qed.

Definition sample_rng : RngDevice Z := rng_new 7.

Lemma rng_serves_witness :
  rng_served sample_rng ring_chain ring_memory (handle_chain sample_rng 0 ring_chain ring_memory) /\
  (handle_chain sample_rng 0 ring_chain ring_memory).2 = Ok 4.
Proof.
  split; [ | by vm_compute]. apply (rng_serves sample_rng 0 2 ring_chain ring_memory ring_memory_wf).
  eapply (walk_chain_safe ring_memory 0 2 0); [exact ring_memory_wf | by vm_compute..].
Defined.

Lemma rng_snapshot_identity_witness :
  (device_restore_state sample_rng (rng_state_to_bytes rng_state_capture)).2 = Ok tt.
Proof.
  apply (rng_snapshot_identity sample_rng (rng_new 9)); [ | reflexivity].
  unfold rng_state_to_bytes. apply Forall_app. split; [by repeat constructor | ].
  apply Forall_app. split; apply le_bytes_all_bytes.
Defined.

(** The device active on its ring: registers and status as the driver leaves them. *)
Definition rng_transport : MmioTransport (RngDevice Z) :=
  mkMmioTransport (mkRngDevice 7 true (mkRngCounters 0 0 0))
    [ring_queue_of 64]
    15 0 0 VIRTIO_F_VERSION_1 0 0 0 (replicate TRANSPORT_KIND_COUNT 0).

Lemma rng_transport_ok : system_ok (rng_transport, ring_memory).
Proof.
  split; [exact ring_memory_wf | ]. unfold transport_ok; cbn [t_status t_driver_features t_queues fst snd].
  split_and!; [by apply status_okb_spec | by intros _; split | | done | by vm_compute..].
  apply Forall_singleton. split; [apply (ring_queue_of_ok 64); by auto | done].
Qed.

Lemma service_pass_witness :
  exists out, service_queue 0 3 rng_transport ring_memory = Some out /\
    out.2 = Ok (mkServiceReport 1 0 true false) /\ system_ok out.1.
Proof.
  destruct (service_pass 0 3 (ring_queue_of 64)
    rng_transport ring_memory rng_transport_ok eq_refl eq_refl) as (out & Hout & _ & Hok); [exact I | by vm_compute | ].
  exists out. split; [exact Hout | ]. split; [ | exact Hok].
  vm_compute in Hout. injection Hout as <-. reflexivity.
Defined.
