(* ===== verification/Block.v ===== *)
(** The block device ([crates/soma-kvm/src/virtio/devices/block.rs], [block/construct.rs],
    [block/attachment.rs], [block/request.rs], [block/execute.rs], [block/state.rs],
    [block/backend/]): validated sector requests against a backing store, over the seams of
    the transport and of the service loop. *)

From S2P Require Import Prelude Bytes GuestMemory QueueChain Virtqueue Transport Segments Service.
From stdpp Require Import options.

(** * Requests ([request.rs]) *)

Definition VIRTIO_BLK_T_IN : Z := 0.
Definition VIRTIO_BLK_T_OUT : Z := 1.
Definition VIRTIO_BLK_T_FLUSH : Z := 4.
Definition VIRTIO_BLK_T_GET_ID : Z := 8.
Definition VIRTIO_BLK_S_OK : Z := 0.
Definition VIRTIO_BLK_S_IOERR : Z := 1.
Definition VIRTIO_BLK_S_UNSUPP : Z := 2.
Definition SECTOR_SIZE : Z := 512.
Definition REQUEST_HEADER_LEN : Z := 16.
Definition BLK_ID_LEN : Z := 20.
Definition MAX_REQUEST_BYTES : Z := 1048576.

Inductive BlockOp : Type :=
| BlockOp_Read (offset len : Z)
| BlockOp_Write (offset len : Z)
| BlockOp_Flush
| BlockOp_GetId (len : Z).

Record BlockRequest : Type := mkBlockRequest {
  request_op : BlockOp;
  status_skip : Z
}.

Inductive RequestError : Type :=
| RequestError_HeaderShort
| RequestError_NoStatus
| RequestError_Memory (error : GuestMemoryError)
| RequestError_UnsupportedType (ty : Z)
| RequestError_ReadOnly
| RequestError_DirectionMismatch
| RequestError_SectorOverflow
| RequestError_RangeOverflow
| RequestError_Unaligned (len : Z)
| RequestError_BeyondCapacity
| RequestError_TooLarge (len : Z).

Definition error_status (e : RequestError) : Z :=
  match e with RequestError_UnsupportedType _ => VIRTIO_BLK_S_UNSUPP | _ => VIRTIO_BLK_S_IOERR end.

Record RequestLimits : Type := mkRequestLimits {
  limit_capacity_bytes : Z;
  limit_read_only : bool;
  limit_flush : bool
}.

Definition data_range (sector len capacity_bytes : Z) : Result (Z * Z) RequestError :=
  if (len =? 0) || negb (len mod SECTOR_SIZE =? 0) then Err (RequestError_Unaligned len)
  else if len >? MAX_REQUEST_BYTES then Err (RequestError_TooLarge len)
  else if sector * SECTOR_SIZE >? U64_MAX then Err RequestError_SectorOverflow
  else
    let offset := sector * SECTOR_SIZE in
    match checked_add_u64 offset len with
    | None => Err RequestError_RangeOverflow
    | Some end_ =>
        if end_ >? capacity_bytes then Err RequestError_BeyondCapacity
        else if len <=? U32_MAX then Ok (offset, len) else Err (RequestError_TooLarge len)
    end.

(** The operation a header of type [ty] at [sector] asks for, given the readable bytes after
    the header and the writable bytes before the status. *)
Definition parse_op (limits : RequestLimits) (ty sector extra_readable data_writable : Z)
    : Result BlockOp RequestError :=
  if ty =? VIRTIO_BLK_T_IN then
    if negb (extra_readable =? 0) then Err RequestError_DirectionMismatch
    else
      let? (offset, len) := data_range sector data_writable (limit_capacity_bytes limits) in
      Ok (BlockOp_Read offset len)
  else if (ty =? VIRTIO_BLK_T_OUT) && limit_read_only limits then Err RequestError_ReadOnly
  else if ty =? VIRTIO_BLK_T_OUT then
    if negb (data_writable =? 0) then Err RequestError_DirectionMismatch
    else
      let? (offset, len) := data_range sector extra_readable (limit_capacity_bytes limits) in
      Ok (BlockOp_Write offset len)
  else if (ty =? VIRTIO_BLK_T_FLUSH) && limit_flush limits then
    if negb (extra_readable =? 0) || negb (data_writable =? 0) then Err RequestError_DirectionMismatch
    else Ok BlockOp_Flush
  else if ty =? VIRTIO_BLK_T_GET_ID then
    if negb (extra_readable =? 0) || (data_writable =? 0) || (data_writable >? BLK_ID_LEN)
    then Err RequestError_DirectionMismatch
    else Ok (BlockOp_GetId (Z.min data_writable U32_MAX))
  else Err (RequestError_UnsupportedType ty).

Definition parse_request {M} `{GuestMemory M} (mem : M) (chain : DescriptorChain) (limits : RequestLimits)
    : Result BlockRequest RequestError :=
  let readable := chain_readable_len chain in
  let writable := chain_writable_len chain in
  if writable <? 1 then Err RequestError_NoStatus
  else if readable <? REQUEST_HEADER_LEN then Err RequestError_HeaderShort
  else
    let '(header, r) := read_readable mem chain 0 (replicate 16 0) in
    let? _ := map_err RequestError_Memory r in
    let ty := le_val (take 4 header) in
    let sector := le_val (take 8 (drop 8 header)) in
    let data_writable := writable - 1 in
    let? op := parse_op limits ty sector (readable - REQUEST_HEADER_LEN) data_writable in
    Ok (mkBlockRequest op data_writable).

(** * Backing stores ([backend/mod.rs], [backend/detached.rs]) *)

(** An [io::ErrorKind] by its discriminant. *)
Inductive BackendError : Type :=
| BackendError_Io (kind : Z)
| BackendError_ReadOnly
| BackendError_OutOfRange.

(** [read_at] fills the caller's buffer, also partly when it fails. *)
Class BlockBackend (B : Type) : Type := {
  capacity_bytes : B -> Z;
  backend_read_only : B -> bool;
  read_at : B -> Z -> bytes -> B * bytes * Result nat BackendError;
  write_at : B -> Z -> bytes -> B * Result nat BackendError;
  backend_flush : B -> B * Result unit BackendError;
}.

Definition in_range (capacity offset : Z) (len : nat) : Result unit BackendError :=
  match checked_add_u64 offset (Z.of_nat len) with
  | Some end_ => if end_ <=? capacity then Ok tt else Err BackendError_OutOfRange
  | None => Err BackendError_OutOfRange
  end.

(** An open host file: positional reads and writes of whole buffers, and [sync_data]; an
    error is the [io::ErrorKind] it has. *)
Class HostFile (F : Type) : Type := {
  file_len : F -> Result Z Z;
  read_exact_at : F -> Z -> bytes -> F * bytes * Result unit Z;
  write_all_at : F -> Z -> bytes -> F * Result unit Z;
  sync_data : F -> F * Result unit Z;
}.

Record FileBackend (F : Type) : Type := mkFileBackend {
  fb_file : F;
  fb_capacity : Z;
  fb_read_only : bool
}.
Arguments mkFileBackend {F} _ _ _.
Arguments fb_file {F} _.
Arguments fb_capacity {F} _.
Arguments fb_read_only {F} _.

Section file.
Context {F : Type} `{HostFile F}.

Definition fb_with_file (b : FileBackend F) (file : F) : FileBackend F :=
  mkFileBackend file (fb_capacity b) (fb_read_only b).

Definition file_backend_new (file : F) (read_only : bool) : Result (FileBackend F) Z :=
  let? len := file_len file in
  Ok (mkFileBackend file (len - len mod SECTOR_SIZE) read_only).

Definition file_read_at (b : FileBackend F) (offset : Z) (buf : bytes)
    : FileBackend F * bytes * Result nat BackendError :=
  match in_range (fb_capacity b) offset (length buf) with
  | Err e => (b, buf, Err e)
  | Ok _ =>
      let '(file, buf, r) := read_exact_at (fb_file b) offset buf in
      (fb_with_file b file, buf, map_ok (fun _ => length buf) (map_err BackendError_Io r))
  end.

Definition file_write_at (b : FileBackend F) (offset : Z) (data : bytes)
    : FileBackend F * Result nat BackendError :=
  if fb_read_only b then (b, Err BackendError_ReadOnly)
  else match in_range (fb_capacity b) offset (length data) with
  | Err e => (b, Err e)
  | Ok _ =>
      let '(file, r) := write_all_at (fb_file b) offset data in
      (fb_with_file b file, map_ok (fun _ => length data) (map_err BackendError_Io r))
  end.

Definition file_flush (b : FileBackend F) : FileBackend F * Result unit BackendError :=
  if fb_read_only b then (b, Err BackendError_ReadOnly)
  else
    let '(file, r) := sync_data (fb_file b) in
    (fb_with_file b file, map_err BackendError_Io r).

#[export] Instance FileBackend_BlockBackend : BlockBackend (FileBackend F) := {|
  capacity_bytes := fb_capacity;
  backend_read_only := fb_read_only;
  read_at := file_read_at;
  write_at := file_write_at;
  backend_flush := file_flush;
|}.
End file.

Record MemoryBackend : Type := mkMemoryBackend {
  mb_bytes : bytes;
  mb_read_only : bool;
  mb_flushes : Z;
  mb_short_by : nat;
  mb_fail : option Z
}.

Definition memory_zeroed (sectors : nat) (read_only : bool) : MemoryBackend :=
  mkMemoryBackend (replicate (sectors * 512) 0) read_only 0 0 None.

Definition memory_capacity (b : MemoryBackend) : Z := Z.min (Z.of_nat (length (mb_bytes b))) U64_MAX.

Definition memory_read_at (b : MemoryBackend) (offset : Z) (buf : bytes)
    : MemoryBackend * bytes * Result nat BackendError :=
  match mb_fail b with
  | Some kind => (b, buf, Err (BackendError_Io kind))
  | None =>
      match in_range (memory_capacity b) offset (length buf) with
      | Err e => (b, buf, Err e)
      | Ok _ =>
          let taken := (length buf - mb_short_by b)%nat in
          (b, take taken (drop (Z.to_nat offset) (mb_bytes b)) ++ drop taken buf, Ok taken)
      end
  end.

(** [bytes[start..start + n].copy_from_slice(data)] *)
Definition overwrite (b : bytes) (start : nat) (data : bytes) : bytes :=
  take start b ++ data ++ drop (start + length data) b.

Definition memory_write_at (b : MemoryBackend) (offset : Z) (data : bytes)
    : MemoryBackend * Result nat BackendError :=
  match mb_fail b with
  | Some kind => (b, Err (BackendError_Io kind))
  | None =>
      if mb_read_only b then (b, Err BackendError_ReadOnly)
      else match in_range (memory_capacity b) offset (length data) with
      | Err e => (b, Err e)
      | Ok _ =>
          let taken := (length data - mb_short_by b)%nat in
          (mkMemoryBackend (overwrite (mb_bytes b) (Z.to_nat offset) (take taken data)) (mb_read_only b)
             (mb_flushes b) (mb_short_by b) (mb_fail b), Ok taken)
      end
  end.

Definition memory_flush (b : MemoryBackend) : MemoryBackend * Result unit BackendError :=
  match mb_fail b with
  | Some kind => (b, Err (BackendError_Io kind))
  | None =>
      if mb_read_only b then (b, Err BackendError_ReadOnly)
      else (mkMemoryBackend (mb_bytes b) (mb_read_only b) (saturating_add U32_MAX (mb_flushes b) 1)
              (mb_short_by b) (mb_fail b), Ok tt)
  end.

#[export] Instance MemoryBackend_BlockBackend : BlockBackend MemoryBackend := {|
  capacity_bytes := memory_capacity;
  backend_read_only := mb_read_only;
  read_at := memory_read_at;
  write_at := memory_write_at;
  backend_flush := memory_flush;
|}.

Record Detached : Type := mkDetached {
  detached_capacity_bytes : Z;
  detached_read_only : bool
}.

#[export] Instance Detached_BlockBackend : BlockBackend Detached := {|
  capacity_bytes := detached_capacity_bytes;
  backend_read_only := detached_read_only;
  read_at b _ buf := (b, buf, Err BackendError_OutOfRange);
  write_at b _ _ := (b, Err BackendError_OutOfRange);
  backend_flush b := (b, Err BackendError_OutOfRange);
|}.

(** * The device ([block.rs], [construct.rs], [attachment.rs], [execute.rs]) *)

Definition VIRTIO_BLK_DEVICE_ID : Z := 2.
Definition VIRTIO_BLK_F_RO : Z := Z.shiftl 1 5.
Definition VIRTIO_BLK_F_BLK_SIZE : Z := Z.shiftl 1 6.
Definition VIRTIO_BLK_F_FLUSH : Z := Z.shiftl 1 9.
Definition BLOCK_QUEUE_MAX : list Z := [256].
Definition BLOCK_CONFIG_LEN : Z := 24.
Definition BLOCK_SERIAL_LEN : Z := BLK_ID_LEN.
Definition BLOCK_CHAIN_LIMITS : ChainLimits :=
  mkChainLimits 256 (MAX_REQUEST_BYTES + REQUEST_HEADER_LEN + 1).

Inductive BlockRole : Type := BlockRole_ImmutableRoot | BlockRole_PrivateOverlay.

#[export] Instance BlockRole_eq_dec : EqDecision BlockRole.
Proof. solve_decision. Defined.

Definition role_features (role : BlockRole) : Z :=
  match role with
  | BlockRole_ImmutableRoot => Z.lor (Z.lor VIRTIO_F_VERSION_1 VIRTIO_BLK_F_RO) VIRTIO_BLK_F_BLK_SIZE
  | BlockRole_PrivateOverlay => Z.lor (Z.lor VIRTIO_F_VERSION_1 VIRTIO_BLK_F_BLK_SIZE) VIRTIO_BLK_F_FLUSH
  end.

Definition role_read_only (role : BlockRole) : bool :=
  match role with BlockRole_ImmutableRoot => true | BlockRole_PrivateOverlay => false end.

Inductive BlockConfigError : Type :=
| BlockConfigError_RoleMismatch
| BlockConfigError_InvalidBlockSize (blk_size : Z)
| BlockConfigError_InvalidCapacity (capacity_bytes : Z)
| BlockConfigError_AttachedShapeDiffers.

Record BlockCounters : Type := mkBlockCounters {
  bc_ok : Z;
  bc_io_error : Z;
  bc_unsupported : Z;
  bc_malformed : Z
}.

(** The device owns its store as [Box<dyn BlockBackend>]; [B] is the store's type. *)
Record BlockDevice (B : Type) : Type := mkBlockDevice {
  bd_role : BlockRole;
  bd_backend : B;
  bd_blk_size : Z;
  bd_capacity_sectors : Z;
  bd_serial : bytes;
  bd_activated : bool;
  bd_counters : BlockCounters
}.
Arguments mkBlockDevice {B} _ _ _ _ _ _ _.
Arguments bd_role {B} _.
Arguments bd_backend {B} _.
Arguments bd_blk_size {B} _.
Arguments bd_capacity_sectors {B} _.
Arguments bd_serial {B} _.
Arguments bd_activated {B} _.
Arguments bd_counters {B} _.

Definition bd_set_backend {B} (d : BlockDevice B) (backend : B) : BlockDevice B :=
  mkBlockDevice (bd_role d) backend (bd_blk_size d) (bd_capacity_sectors d) (bd_serial d)
    (bd_activated d) (bd_counters d).
Definition bd_set_activated {B} (d : BlockDevice B) (activated : bool) : BlockDevice B :=
  mkBlockDevice (bd_role d) (bd_backend d) (bd_blk_size d) (bd_capacity_sectors d) (bd_serial d)
    activated (bd_counters d).
Definition bd_set_counters {B} (d : BlockDevice B) (counters : BlockCounters) : BlockDevice B :=
  mkBlockDevice (bd_role d) (bd_backend d) (bd_blk_size d) (bd_capacity_sectors d) (bd_serial d)
    (bd_activated d) counters.

Definition count_slot (c : BlockCounters) (status : Z) (error : option RequestError) : BlockCounters :=
  let bump := saturating_add U32_MAX in
  match error with
  | Some (RequestError_UnsupportedType _) =>
      mkBlockCounters (bc_ok c) (bc_io_error c) (bump (bc_unsupported c) 1) (bc_malformed c)
  | Some _ => mkBlockCounters (bc_ok c) (bc_io_error c) (bc_unsupported c) (bump (bc_malformed c) 1)
  | None =>
      if status =? VIRTIO_BLK_S_OK
      then mkBlockCounters (bump (bc_ok c) 1) (bc_io_error c) (bc_unsupported c) (bc_malformed c)
      else mkBlockCounters (bc_ok c) (bump (bc_io_error c) 1) (bc_unsupported c) (bc_malformed c)
  end.

Definition block_count {B} (d : BlockDevice B) (status : Z) (error : option RequestError) : BlockDevice B :=
  bd_set_counters d (count_slot (bd_counters d) status error).

Section device.
Context {B : Type} `{BlockBackend B}.

Definition block_new (role : BlockRole) (backend : B) (blk_size : Z) (serial : bytes)
    : Result (BlockDevice B) BlockConfigError :=
  if negb (Bool.eqb (backend_read_only backend) (role_read_only role)) then Err BlockConfigError_RoleMismatch
  else if negb (is_power_of_two blk_size) || negb ((512 <=? blk_size) && (blk_size <=? 4096))
  then Err (BlockConfigError_InvalidBlockSize blk_size)
  else
    let capacity := capacity_bytes backend in
    if (capacity =? 0) || negb (capacity mod blk_size =? 0)
    then Err (BlockConfigError_InvalidCapacity capacity)
    else Ok (mkBlockDevice role backend blk_size (capacity / SECTOR_SIZE) serial false
               (mkBlockCounters 0 0 0 0)).

Definition block_attach (d : BlockDevice B) (backend : B) : BlockDevice B * Result unit BlockConfigError :=
  if negb (Bool.eqb (backend_read_only backend) (role_read_only (bd_role d)))
  then (d, Err BlockConfigError_RoleMismatch)
  else if negb (capacity_bytes backend =? bd_capacity_sectors d * SECTOR_SIZE)
  then (d, Err BlockConfigError_AttachedShapeDiffers)
  else (bd_set_backend d backend, Ok tt).

Definition block_limits (d : BlockDevice B) : RequestLimits :=
  mkRequestLimits (bd_capacity_sectors d * SECTOR_SIZE) (role_read_only (bd_role d))
    (negb (Z.land (role_features (bd_role d)) VIRTIO_BLK_F_FLUSH =? 0)).

(** [config_bytes]: the capacity at 0, the block size at 20, zeros between. *)
Definition config_bytes (d : BlockDevice B) : bytes :=
  le_bytes 8 (bd_capacity_sectors d) ++ replicate 12 0 ++ le_bytes 4 (bd_blk_size d).

Definition block_read_config (d : BlockDevice B) (offset : Z) (len : nat) : Result bytes ConfigAccessError :=
  match checked_add_u64 offset (Z.of_nat len) with
  | Some end_ =>
      if end_ <=? BLOCK_CONFIG_LEN then Ok (take len (drop (Z.to_nat offset) (config_bytes d)))
      else Err ConfigAccessError_OutOfBounds
  | None => Err ConfigAccessError_OutOfBounds
  end.

Definition block_activate (d : BlockDevice B) (negotiated_features : Z)
    : BlockDevice B * Result unit ActivateError :=
  if negb (Z.land negotiated_features (lnot_w 64 (role_features (bd_role d))) =? 0)
  then (d, Err (ActivateError_UnsupportedFeatures negotiated_features))
  else (bd_set_activated d true, Ok tt).

Section execute.
Context {M : Type} `{GuestMemory M}.

(** [write_writable(..)? != size] turned into a fault. *)
Definition write_whole (mem : M) (chain : DescriptorChain) (skip : Z) (b : bytes)
    : M * Result unit DeviceFault :=
  let '(mem, written) := write_writable mem chain skip b in
  match written with
  | Err e => (mem, Err (DeviceFault_Memory e))
  | Ok n => (mem, if (n =? length b)%nat then Ok tt else Err DeviceFault_Protocol)
  end.

Definition execute_read (d : BlockDevice B) (offset len : Z) (chain : DescriptorChain) (mem : M)
    : BlockDevice B * M * Result (Z * Z) DeviceFault :=
  let size := Z.to_nat len in
  let '(backend, buf, read) := read_at (bd_backend d) offset (replicate size 0) in
  let d := bd_set_backend d backend in
  if match read with Ok n => (n =? size)%nat | Err _ => false end then
    let '(mem, written) := write_whole mem chain 0 buf in
    (d, mem, map_ok (fun _ => (VIRTIO_BLK_S_OK, len)) written)
  else (d, mem, Ok (VIRTIO_BLK_S_IOERR, 0)).

Definition execute_write (d : BlockDevice B) (offset len : Z) (chain : DescriptorChain) (mem : M)
    : BlockDevice B * M * Result (Z * Z) DeviceFault :=
  let size := Z.to_nat len in
  let '(buf, r) := read_readable mem chain REQUEST_HEADER_LEN (replicate size 0) in
  match r with
  | Err e => (d, mem, Err (DeviceFault_Memory e))
  | Ok n =>
      if negb (n =? size)%nat then (d, mem, Err DeviceFault_Protocol)
      else
        let '(backend, written) := write_at (bd_backend d) offset buf in
        (bd_set_backend d backend, mem,
         Ok (if match written with Ok n => (n =? size)%nat | Err _ => false end
             then (VIRTIO_BLK_S_OK, 0) else (VIRTIO_BLK_S_IOERR, 0)))
  end.

Definition execute_op (d : BlockDevice B) (op : BlockOp) (chain : DescriptorChain) (mem : M)
    : BlockDevice B * M * Result (Z * Z) DeviceFault :=
  match op with
  | BlockOp_Read offset len => execute_read d offset len chain mem
  | BlockOp_Write offset len => execute_write d offset len chain mem
  | BlockOp_Flush =>
      let '(backend, flushed) := backend_flush (bd_backend d) in
      (bd_set_backend d backend, mem,
       Ok (match flushed with Ok _ => VIRTIO_BLK_S_OK | Err _ => VIRTIO_BLK_S_IOERR end, 0))
  | BlockOp_GetId len =>
      if len <=? BLOCK_SERIAL_LEN then
        let '(mem, written) := write_whole mem chain 0 (take (Z.to_nat len) (bd_serial d)) in
        (d, mem, map_ok (fun _ => (VIRTIO_BLK_S_OK, len)) written)
      else (d, mem, Err DeviceFault_Protocol)
  end.

(** The end of [handle_chain]: the status byte and the length to publish. *)
Definition finish_request (d : BlockDevice B) (status data_len skip : Z) (error : option RequestError)
    (chain : DescriptorChain) (mem : M) : BlockDevice B * M * Result Z DeviceFault :=
  let d := block_count d status error in
  let '(mem, written) := write_whole mem chain skip [status] in
  (d, mem, map_ok (fun _ => saturating_add U32_MAX data_len 1) written).

Definition block_handle_chain (d : BlockDevice B) (chain : DescriptorChain) (mem : M)
    : BlockDevice B * M * Result Z DeviceFault :=
  match parse_request mem chain (block_limits d) with
  | Ok request =>
      match execute_op d (request_op request) chain mem with
      | (d, mem, Err fault) => (d, mem, Err fault)
      | (d, mem, Ok (status, data_len)) => finish_request d status data_len (status_skip request) None chain mem
      end
  | Err RequestError_NoStatus => (block_count d VIRTIO_BLK_S_IOERR (Some RequestError_NoStatus), mem, Ok 0)
  | Err error =>
      finish_request d (error_status error) 0 (saturating_sub (chain_writable_len chain) 1) (Some error) chain mem
  end.
End execute.
End device.

(** * The snapshot record ([state.rs]) *)

Definition BLOCK_STATE_VERSION : Z := 1.
Definition BLOCK_STATE_LEN : nat := 46.

Record BlockState : Type := mkBlockState {
  bs_device_id : Z;
  bs_features : Z;
  bs_role : BlockRole;
  bs_blk_size : Z;
  bs_capacity_sectors : Z;
  bs_serial : bytes
}.

#[export] Instance BlockState_eq_dec : EqDecision BlockState.
Proof. solve_decision. Defined.

Definition block_state_capture {B} (d : BlockDevice B) : BlockState :=
  mkBlockState VIRTIO_BLK_DEVICE_ID (role_features (bd_role d)) (bd_role d) (bd_blk_size d)
    (bd_capacity_sectors d) (bd_serial d).

Definition role_byte (role : BlockRole) : Z :=
  match role with BlockRole_ImmutableRoot => 0 | BlockRole_PrivateOverlay => 1 end.

Definition block_state_to_bytes (s : BlockState) : bytes :=
  [BLOCK_STATE_VERSION] ++ le_bytes 4 (bs_device_id s) ++ le_bytes 8 (bs_features s) ++
  [role_byte (bs_role s)] ++ le_bytes 4 (bs_blk_size s) ++ le_bytes 8 (bs_capacity_sectors s) ++ bs_serial s.

Definition block_state_from_bytes (raw : bytes) : Result BlockState DeviceStateError :=
  if negb (length raw =? BLOCK_STATE_LEN)%nat || negb (default 0 (raw !! 0%nat) =? BLOCK_STATE_VERSION)
  then Err DeviceStateError_Malformed
  else
    let byte := default 0 (raw !! 13%nat) in
    let? role := if byte =? 0 then Ok BlockRole_ImmutableRoot
                 else if byte =? 1 then Ok BlockRole_PrivateOverlay
                 else Err DeviceStateError_Malformed in
    let device_id := le_u64 (take 4 (drop 1 raw)) in
    if negb (device_id <=? U32_MAX) then Err DeviceStateError_Malformed
    else
      let blk_size := le_u64 (take 4 (drop 14 raw)) in
      if negb (blk_size <=? U32_MAX) then Err DeviceStateError_Malformed
      else Ok (mkBlockState device_id (le_u64 (take 8 (drop 5 raw))) role blk_size
                 (le_u64 (take 8 (drop 18 raw))) (drop 26 raw)).

Definition block_state_apply {B} (s : BlockState) (d : BlockDevice B) : Result unit DeviceStateError :=
  if bool_decide (s = block_state_capture d) then Ok tt else Err DeviceStateError_Incompatible.

(** * The seams *)

Section seams.
Context {B : Type} `{BlockBackend B}.

#[export] Instance BlockDevice_VirtioDevice : VirtioDevice (BlockDevice B) := {|
  device_id _ := VIRTIO_BLK_DEVICE_ID;
  vendor_id _ := SOMA_VENDOR_ID;
  feature_allowlist d := role_features (bd_role d);
  queue_max_sizes _ := BLOCK_QUEUE_MAX;
  config_len _ := BLOCK_CONFIG_LEN;
  device_read_config := block_read_config;
  device_write_config d _ _ := (d, Err ConfigAccessError_ReadOnly);
  device_activate := block_activate;
  device_reset d := bd_set_activated d false;
  device_snapshot_state d := block_state_to_bytes (block_state_capture d);
  device_restore_state d raw := (d, let? s := block_state_from_bytes raw in block_state_apply s d);
|}.

#[export] Instance BlockDevice_ChainHandler : ChainHandler (BlockDevice B) := {|
  chain_limits _ _ := BLOCK_CHAIN_LIMITS;
  handle_chain _ _ d _ chain mem := block_handle_chain d chain mem;
|}.
End seams.
