(* ===== verification/BlockFacts.v ===== *)
(** Properties of the block device: which requests it accepts, what it does to the store
    and to guest memory for each of them, that the immutable root stays so, its snapshot
    record, and the stores that keep the promises it relies on. *)

From S2P Require Import Prelude Bytes GuestMemory QueueChain Virtqueue VirtqueueFacts Transport TransportFacts TransportProps Segments Service Block.
From stdpp Require Import options.

(** * What a store promises

    A store has fixed contents of its declared capacity; a full read returns them, a full
    write replaces exactly its range, and a read-only store refuses writes. *)

Definition slice (b : bytes) (offset len : Z) : bytes := take (Z.to_nat len) (drop (Z.to_nat offset) b).

Class BlockStoreLaws (B : Type) `{BlockBackend B} : Type := {
  backend_inv : B -> Prop;
  contents : B -> bytes;
  contents_ok b :
    backend_inv b -> Z.of_nat (length (contents b)) = capacity_bytes b /\ is_u64 (capacity_bytes b) /\
    all_bytes (contents b);
  read_at_store b offset buf b' buf' r :
    backend_inv b -> 0 <= offset -> read_at b offset buf = (b', buf', r) ->
    backend_inv b' /\ contents b' = contents b /\ backend_read_only b' = backend_read_only b /\
    capacity_bytes b' = capacity_bytes b /\ length buf' = length buf /\ 
    (r = Ok (length buf) -> buf' = slice (contents b) offset (Z.of_nat (length buf)));
  write_at_store b offset data b' r :
    backend_inv b -> 0 <= offset -> all_bytes data -> write_at b offset data = (b', r) ->
    backend_inv b' /\ backend_read_only b' = backend_read_only b /\ capacity_bytes b' = capacity_bytes b /\
    (r = Ok (length data) -> contents b' = overwrite (contents b) (Z.to_nat offset) data) /\
    (backend_read_only b = true -> contents b' = contents b);
  flush_store b b' r :
    backend_inv b -> backend_flush b = (b', r) ->
    backend_inv b' /\ contents b' = contents b /\ backend_read_only b' = backend_read_only b /\
    capacity_bytes b' = capacity_bytes b;
}.

Lemma length_overwrite b start data :
  (start + length data <= length b)%nat -> length (overwrite b start data) = length b.
Proof. intros Hl. unfold overwrite. rewrite !length_app, length_take, length_drop. lia. Qed.

Lemma overwrite_bytes b start data : all_bytes b -> all_bytes data -> all_bytes (overwrite b start data).
Proof.
  intros Hb Hd. unfold overwrite. apply Forall_app. split; [by apply Forall_take | ].
  apply Forall_app. split; [done | by apply Forall_drop].
Qed.

Lemma slice_overwrite b offset data :
  0 <= offset -> offset + Z.of_nat (length data) <= Z.of_nat (length b) ->
  slice (overwrite b (Z.to_nat offset) data) offset (Z.of_nat (length data)) = data.
Proof.
  intros Ho Hl. unfold slice, overwrite. rewrite drop_app_length' by (rewrite length_take; lia).
  by rewrite take_app_length' by lia.
Qed.

Lemma in_range_ok capacity offset len u :
  in_range capacity offset len = Ok u -> offset + Z.of_nat len <= capacity.
Proof.
  unfold in_range. destruct (checked_add_u64 offset (Z.of_nat len)) eqn:Hc; [ | done].
  apply checked_add_u64_Some in Hc as [-> _]. by destruct (Z.leb_spec (offset + Z.of_nat len) capacity).
Qed.

(** The store without bytes. *)
Definition detached_inv (b : Detached) : Prop := is_u64 (detached_capacity_bytes b).

#[export] Instance Detached_store : BlockStoreLaws Detached.
Proof.
  refine {| backend_inv := detached_inv;
            contents b := replicate (Z.to_nat (detached_capacity_bytes b)) 0 |}.
  - intros b Hb. rewrite length_replicate. unfold detached_inv, is_uint in Hb. simpl.
    split_and!; [lia | done | by apply Forall_replicate].
  - by intros b offset buf b' buf' r Hb _ [= <- <- <-].
  - by intros b offset data b' r Hb _ _ [= <- <-].
  - by intros b b' r Hb [= <- <-].
Defined.

(** The store in host memory. *)
Definition memory_inv (b : MemoryBackend) : Prop :=
  Z.of_nat (length (mb_bytes b)) <= U64_MAX /\ all_bytes (mb_bytes b).

#[export] Instance MemoryBackend_store : BlockStoreLaws MemoryBackend.
Proof.
  refine {| backend_inv := memory_inv; contents := mb_bytes |}.
  - intros b [Hl Hb]. simpl. unfold memory_capacity, is_uint, U64_MAX in *. split_and!; [lia.. | done].
  - intros b offset buf b' buf' r [Hl Hb] Ho Hr. simpl in Hr. unfold memory_read_at in Hr.
    destruct (mb_fail b); [by simplify_eq | ].
    destruct (in_range (memory_capacity b) offset (length buf)) eqn:Hi; [ | by simplify_eq].
    apply in_range_ok in Hi. unfold memory_capacity in Hi. simplify_eq.
    split_and!; try done.
    + rewrite length_app, length_take, !length_drop. lia.
    + intros [= Hs]. unfold slice. rewrite Nat2Z.id, Hs, (drop_ge buf), app_nil_r by lia. done.
  - intros b offset data b' r [Hl Hb] Ho Hd Hw. simpl in Hw. unfold memory_write_at in Hw.
    destruct (mb_fail b); [by simplify_eq | ].
    destruct (mb_read_only b) eqn:Hro; [by simplify_eq | ].
    destruct (in_range (memory_capacity b) offset (length data)) eqn:Hi; [ | by simplify_eq].
    apply in_range_ok in Hi. unfold memory_capacity in Hi. simplify_eq. simpl. rewrite Hro.
    assert (Hlen : length (overwrite (mb_bytes b) (Z.to_nat offset) (take (length data - mb_short_by b) data)) =
      length (mb_bytes b)) by (apply length_overwrite; rewrite length_take; lia).
    split_and!; try done.
    + split; simpl; [by rewrite Hlen | by apply overwrite_bytes, Forall_take].
    + unfold memory_capacity; simpl. by rewrite Hlen.
    + intros [= Hs]. by rewrite take_ge by lia.
  - intros b b' r [Hl Hb] Hf. simpl in Hf. unfold memory_flush in Hf.
    destruct (mb_fail b); [by simplify_eq | ]. destruct (mb_read_only b) eqn:Hro; [by simplify_eq | ].
    simplify_eq. by rewrite <- Hro.
Defined.

(** What positional file I/O promises while nobody else changes the file: a read that
    succeeds filled the whole buffer, a write that succeeds replaced exactly its range, and
    no operation within the file changes its length. *)
Class HostFileLaws (F : Type) `{HostFile F} : Type := {
  file_bytes : F -> bytes;
  file_bytes_ok f : all_bytes (file_bytes f);
  file_len_exact f n : file_len f = Ok n -> n = Z.of_nat (length (file_bytes f)) /\ is_u64 n;
  read_exact_at_file f offset buf f' buf' r :
    0 <= offset -> read_exact_at f offset buf = (f', buf', r) ->
    file_bytes f' = file_bytes f /\ length buf' = length buf /\
    (r = Ok tt -> buf' = slice (file_bytes f) offset (Z.of_nat (length buf)));
  write_all_at_file f offset data f' r :
    0 <= offset -> offset + Z.of_nat (length data) <= Z.of_nat (length (file_bytes f)) -> all_bytes data ->
    write_all_at f offset data = (f', r) ->
    length (file_bytes f') = length (file_bytes f) /\
    (r = Ok tt -> file_bytes f' = overwrite (file_bytes f) (Z.to_nat offset) data);
  sync_data_file f f' r : sync_data f = (f', r) -> file_bytes f' = file_bytes f;
}.

Section file.
Context {F : Type} `{HostFileLaws F}.

(** The capacity was taken from the file, in whole sectors. *)
Definition file_inv (b : FileBackend F) : Prop :=
  is_u64 (fb_capacity b) /\ fb_capacity b <= Z.of_nat (length (file_bytes (fb_file b))).

Definition file_contents (b : FileBackend F) : bytes := take (Z.to_nat (fb_capacity b)) (file_bytes (fb_file b)).

Lemma file_backend_new_inv file read_only b :
  file_backend_new file read_only = Ok b -> file_inv b /\ fb_capacity b mod SECTOR_SIZE = 0.
Proof.
  unfold file_backend_new. destruct (file_len file) as [n | ] eqn:Hn; [ | done]. intros [= <-].
  apply file_len_exact in Hn as [-> Hu]. unfold file_inv, is_uint, SECTOR_SIZE in *; simpl.
  pose proof (Z.mod_pos_bound (Z.of_nat (length (file_bytes file))) 512 ltac:(lia)).
  pose proof (Z.mod_le (Z.of_nat (length (file_bytes file))) 512 ltac:(lia) ltac:(lia)).
  split; [lia | ]. by rewrite Zminus_mod_idemp_r, Z.sub_diag.
Qed.

Lemma slice_prefix b n offset len :
  0 <= offset -> 0 <= len -> offset + len <= Z.of_nat n -> slice (take n b) offset len = slice b offset len.
Proof. intros Ho Hl Hn. unfold slice. rewrite !take_drop_commute, take_take. do 2 f_equal. lia. Qed.

Lemma take_overwrite b n start data :
  (start + length data <= n)%nat -> (n <= length b)%nat ->
  take n (overwrite b start data) = overwrite (take n b) start data.
Proof.
  intros Hn Hb. unfold overwrite. rewrite take_take, Nat.min_l by lia.
  rewrite take_app, length_take, Nat.min_l by lia.
  rewrite (take_ge (take start b)) by (rewrite length_take; lia). f_equal.
  rewrite take_app, take_ge by lia. f_equal. rewrite take_drop_commute. do 2 f_equal. lia.
Qed.

#[export] Instance FileBackend_store : BlockStoreLaws (FileBackend F).
Proof using H0.
  refine {| backend_inv := file_inv; contents := file_contents |}.
  - intros b [Hu Hl]. unfold file_contents, is_uint in *. rewrite length_take. simpl.
    split_and!; [lia.. | apply Forall_take, file_bytes_ok].
  - intros b offset buf b' buf' r [Hu Hl] Ho Hr. simpl in Hr. unfold file_read_at in Hr.
    destruct (in_range (fb_capacity b) offset (length buf)) eqn:Hi; [ | by simplify_eq].
    apply in_range_ok in Hi. destruct (read_exact_at (fb_file b) offset buf) as [[f1 buf1] r1] eqn:Hx.
    apply read_exact_at_file in Hx as (Hf & Hlen & Hok); [ | done]. simplify_eq.
    unfold file_inv, file_contents; simpl. rewrite Hf. split_and!; try done.
    intros Hr. rewrite slice_prefix by lia. destruct r1 as [[] | ]; [by apply Hok | done].
  - intros b offset data b' r [Hu Hl] Ho Hd Hw. simpl in Hw. unfold file_write_at in Hw.
    destruct (fb_read_only b) eqn:Hro; [by simplify_eq | ].
    destruct (in_range (fb_capacity b) offset (length data)) eqn:Hi; [ | by simplify_eq].
    apply in_range_ok in Hi. destruct (write_all_at (fb_file b) offset data) as [f1 r1] eqn:Hx.
    apply write_all_at_file in Hx as (Hlen & Hok); [ | lia | lia | done]. simplify_eq.
    unfold file_inv, file_contents; simpl. rewrite Hlen. split_and!; try done; [ | by rewrite Hro].
    intros Hr. rewrite <- take_overwrite by lia. destruct r1 as [[] | ]; [by rewrite Hok | done].
  - intros b b' r [Hu Hl] Hf. simpl in Hf. unfold file_flush in Hf.
    destruct (fb_read_only b) eqn:Hro; [by simplify_eq | ].
    destruct (sync_data (fb_file b)) as [f1 r1] eqn:Hx. apply sync_data_file in Hx as Hs. simplify_eq.
    unfold file_inv, file_contents; simpl. by rewrite Hs.
Defined.
End file.

(** * Requests the device accepts *)

Definition range_ok (sector len capacity offset : Z) : Prop :=
  offset = sector * SECTOR_SIZE /\ 0 < len /\ len mod SECTOR_SIZE = 0 /\ len <= MAX_REQUEST_BYTES /\
  offset + len <= capacity.

Lemma data_range_ok sector len capacity offset len' :
  0 <= sector -> 0 <= len -> is_u64 capacity ->
  data_range sector len capacity = Ok (offset, len') <-> len' = len /\ range_ok sector len capacity offset.
Proof.
  intros Hs Hl Hc. unfold data_range, range_ok, is_uint, U32_MAX, MAX_REQUEST_BYTES in *.
  destruct (Z.eqb_spec len 0); simpl; [naive_solver lia | ].
  destruct (Z.eqb_spec (len mod SECTOR_SIZE) 0); simpl; [ | naive_solver].
  destruct (Z.gtb_spec len 1048576); [split; [done | lia] | ].
  destruct (Z.gtb_spec (sector * SECTOR_SIZE) U64_MAX); [split; [done | unfold U64_MAX in *; lia] | ].
  destruct (checked_add_u64 (sector * SECTOR_SIZE) len) as [end_ | ] eqn:He.
  - apply checked_add_u64_Some in He as [-> He].
    destruct (Z.gtb_spec (sector * SECTOR_SIZE + len) capacity); [split; [done | lia] | ].
    destruct (Z.leb_spec len (2 ^ 32 - 1)); [ | lia]. split; [intros Hx; injection Hx as <- <-; split_and!; (done || lia) | naive_solver].
  - split; [done | ]. intros (_ & -> & _ & _ & _ & Hle). exfalso.
    assert (Hsome : checked_add_u64 (sector * SECTOR_SIZE) len = Some (sector * SECTOR_SIZE + len))
      by (apply checked_add_u64_Some; unfold U64_MAX; lia). by rewrite Hsome in He.
Qed.

(** The operation [op] is what a header of type [ty] at [sector] means when [extra] readable
    bytes follow it and [data] writable bytes precede the status. *)
Definition op_ok (limits : RequestLimits) (ty sector extra data : Z) (op : BlockOp) : Prop :=
  match op with
  | BlockOp_Read offset len =>
      ty = VIRTIO_BLK_T_IN /\ extra = 0 /\ len = data /\ range_ok sector len (limit_capacity_bytes limits) offset
  | BlockOp_Write offset len =>
      ty = VIRTIO_BLK_T_OUT /\ limit_read_only limits = false /\ data = 0 /\ len = extra /\
      range_ok sector len (limit_capacity_bytes limits) offset
  | BlockOp_Flush => ty = VIRTIO_BLK_T_FLUSH /\ limit_flush limits = true /\ extra = 0 /\ data = 0
  | BlockOp_GetId len => ty = VIRTIO_BLK_T_GET_ID /\ extra = 0 /\ len = data /\ 0 < len <= BLK_ID_LEN
  end.

(** A shape that is refused and that no operation has. *)
Ltac refused op :=
  split; [done | destruct op; unfold op_ok, BLK_ID_LEN, VIRTIO_BLK_T_IN, VIRTIO_BLK_T_OUT,
    VIRTIO_BLK_T_FLUSH, VIRTIO_BLK_T_GET_ID, range_ok; intros; exfalso; destruct_and?; (congruence || lia)].

Lemma parse_op_ok limits ty sector extra data op :
  0 <= sector -> 0 <= extra -> 0 <= data -> is_u64 (limit_capacity_bytes limits) ->
  parse_op limits ty sector extra data = Ok op <-> op_ok limits ty sector extra data op.
Proof.
  intros Hs He Hd Hc. unfold parse_op, VIRTIO_BLK_T_IN, VIRTIO_BLK_T_OUT, VIRTIO_BLK_T_FLUSH, VIRTIO_BLK_T_GET_ID.
  destruct (Z.eqb_spec ty 0) as [-> | H0].
  { destruct (Z.eqb_spec extra 0) as [-> | ]; cbn [negb]; [ | refused op]. split.
    - destruct (data_range sector data _) as [[offset len] | ] eqn:Hr; [ | done]. intros [= <-].
      by apply data_range_ok in Hr as [-> Hr].
    - destruct op as [offset len | | | ]; try (by intros (? & _)). intros (_ & _ & -> & Hr).
      by rewrite (proj2 (data_range_ok _ _ _ offset data Hs Hd Hc)). }
  destruct (Z.eqb_spec ty 1) as [-> | H1]; cbn [andb].
  { destruct (limit_read_only limits) eqn:Hro; [refused op | ].
    destruct (Z.eqb_spec data 0) as [-> | ]; cbn [negb]; [ | refused op]. split.
    - destruct (data_range sector extra _) as [[offset len] | ] eqn:Hr; [ | done]. intros [= <-].
      by apply data_range_ok in Hr as [-> Hr].
    - destruct op as [ | offset len | | ]; try (by intros (? & _)). intros (_ & _ & _ & -> & Hr).
      by rewrite (proj2 (data_range_ok _ _ _ offset extra Hs He Hc)). }
  destruct (Z.eqb_spec ty 4) as [-> | H4]; cbn [andb].
  { destruct (limit_flush limits) eqn:Hf; cbn [negb]; [ | refused op].
    destruct (Z.eqb_spec extra 0); cbn [negb orb]; [ | refused op].
    destruct (Z.eqb_spec data 0); cbn [negb orb]; [ | refused op].
    split; [by intros [= <-] | by destruct op; intros (? & _)]. }
  destruct (Z.eqb_spec ty 8) as [-> | H8]; [ | refused op].
  unfold U32_MAX. destruct (Z.eqb_spec extra 0); cbn [negb orb]; [ | refused op].
  destruct (Z.eqb_spec data 0); cbn [orb]; [refused op | ]. unfold BLK_ID_LEN at 1.
  destruct (Z.gtb_spec data 20); [refused op | ]. rewrite Z.min_l by lia. split.
  - intros [= <-]. unfold op_ok, BLK_ID_LEN. split_and!; (done || lia).
  - destruct op; try (by intros (? & _)). by intros (_ & _ & -> & _).
Qed.

Section parse.
Context {M : Type} `{GuestMemoryLaws M}.

(** The two header fields the device looks at. *)
Definition header_type (b : bytes) : Z := le_val (take 4 b).
Definition header_sector (b : bytes) : Z := le_val (take 8 (drop 8 b)).

Lemma header_sector_nonneg b : all_bytes b -> 0 <= header_sector b.
Proof. intros Hb. apply le_val_range. by apply Forall_take, Forall_drop. Qed.

(** What a chain must be to be the request [rq]. *)
Definition request_ok (mem : M) (chain : DescriptorChain) (limits : RequestLimits) (rq : BlockRequest) : Prop :=
  1 <= chain_writable_len chain /\ REQUEST_HEADER_LEN <= chain_readable_len chain /\
  status_skip rq = chain_writable_len chain - 1 /\
  op_ok limits (header_type (readable_bytes mem chain)) (header_sector (readable_bytes mem chain))
    (chain_readable_len chain - REQUEST_HEADER_LEN) (chain_writable_len chain - 1) (request_op rq).

Lemma parse_request_accepts (mem : M) queue_size climits chain limits rq :
  mem_wf mem -> chain_safe mem queue_size climits chain -> is_u64 (limit_capacity_bytes limits) ->
  parse_request mem chain limits = Ok rq <-> request_ok mem chain limits rq.
Proof.
  intros Hwf Hsafe Hcap. destruct (readable_bytes_ok _ _ _ _ Hwf Hsafe) as [Hb Hl].
  unfold parse_request, request_ok. cbv zeta.
  destruct (Z.ltb_spec (chain_writable_len chain) 1); [split; [done | lia] | ].
  destruct (Z.ltb_spec (chain_readable_len chain) REQUEST_HEADER_LEN); [split; [done | lia] | ].
  unfold REQUEST_HEADER_LEN in *. change 0 with (Z.of_nat 0) at 1.
  rewrite (read_readable_exact mem queue_size climits chain 0 16 Hwf Hsafe) by lia. cbn [map_err]. rewrite drop_0.
  rewrite take_take, take_drop_commute, take_take. cbn [Nat.min Nat.add].
  rewrite <- (take_drop_commute (readable_bytes mem chain) 8 8).
  fold (header_type (readable_bytes mem chain)) (header_sector (readable_bytes mem chain)).
  pose proof (header_sector_nonneg _ Hb) as Hs.
  set (ty := header_type _) in *. set (sector := header_sector _) in *.
  destruct (parse_op limits ty sector _ _) as [op | e] eqn:Hp.
  - apply parse_op_ok in Hp; try done; try lia. split.
    + intros [= <-]. done.
    + intros (_ & _ & Hskip & Hop). destruct rq as [op' skip]; simpl in *.
      apply parse_op_ok in Hp, Hop; try done; try lia. rewrite Hp in Hop. by simplify_eq.
  - split; [done | ]. intros (_ & _ & _ & Hop). apply parse_op_ok in Hop; try done; try lia. by rewrite Hp in Hop.
Qed.
End parse.

(** * The device invariant *)

Section device.
Context {B : Type} `{BlockStoreLaws B}.

(** The device's idea of its store is the store's shape. *)
Definition block_ok (d : BlockDevice B) : Prop :=
  backend_inv (bd_backend d) /\ bd_capacity_sectors d * SECTOR_SIZE = capacity_bytes (bd_backend d) /\
  backend_read_only (bd_backend d) = role_read_only (bd_role d) /\ 0 < bd_capacity_sectors d /\
  is_u32 (bd_blk_size d) /\ Z.of_nat (length (bd_serial d)) = BLOCK_SERIAL_LEN /\ all_bytes (bd_serial d).

Lemma power_of_two_multiple blk_size :
  is_power_of_two blk_size = true -> 512 <= blk_size <= 4096 -> (512 | blk_size).
Proof.
  intros Hp Hb. apply is_power_of_two_spec in Hp as (k & Hk & ->). change 512 with (2 ^ 9).
  destruct (Z.le_gt_cases 9 k) as [Hge | Hlt].
  - exists (2 ^ (k - 9)). rewrite <- Z.pow_add_r by lia. f_equal. lia.
  - assert (2 ^ k < 2 ^ 9) by (apply Z.pow_lt_mono_r; lia). lia.
Qed.

Lemma block_new_ok role backend blk_size serial d :
  backend_inv backend -> Z.of_nat (length serial) = BLOCK_SERIAL_LEN -> all_bytes serial ->
  block_new role backend blk_size serial = Ok d -> block_ok d.
Proof.
  intros Hinv Hl Hs. unfold block_new.
  destruct (Bool.eqb _ _) eqn:Hro; cbn [negb]; [ | done]. apply eqb_prop in Hro.
  destruct (is_power_of_two blk_size) eqn:Hp; cbn [negb orb]; [ | done].
  destruct (Z.leb_spec 512 blk_size), (Z.leb_spec blk_size 4096); cbn [andb negb]; try done.
  destruct (Z.eqb_spec (capacity_bytes backend) 0) as [ | Hz]; cbn [orb]; [done | ].
  destruct (Z.eqb_spec (capacity_bytes backend mod blk_size) 0) as [Hm | ]; cbn [negb]; [ | done]. intros [= <-].
  destruct (contents_ok backend Hinv) as (_ & Hu & _). unfold is_uint in Hu.
  assert (Hd : (512 | capacity_bytes backend)).
  { etrans; [by apply power_of_two_multiple | by apply Z.mod_divide; [lia | ]]. }
  destruct Hd as [k Hk]. unfold block_ok, SECTOR_SIZE, is_uint; simpl. rewrite Hk, Z.div_mul by lia.
  split_and!; try done; lia.
Qed.

Lemma block_attach_ok d backend : block_ok d -> backend_inv backend -> block_ok (block_attach d backend).1.
Proof.
  intros Hd Hinv. unfold block_attach. destruct (Bool.eqb _ _) eqn:Hro; cbn [negb]; [ | done].
  apply eqb_prop in Hro. destruct (Z.eqb_spec (capacity_bytes backend) (bd_capacity_sectors d * SECTOR_SIZE));
    cbn [negb]; [ | done].
  destruct Hd as (_ & _ & _ & Hrest). unfold block_ok; simpl. by do 3 (split; [done | ]).
Qed.

Lemma block_limits_u64 d : block_ok d -> is_u64 (limit_capacity_bytes (block_limits d)).
Proof. intros (Hinv & Hc & _). simpl. rewrite Hc. by destruct (contents_ok _ Hinv) as (_ & ? & _). Qed.

(** * What serving a request does *)

(** For the store [d] has and the [payload] after the header: the status, the bytes for the
    guest and the store afterwards. *)
Inductive block_effect (d : BlockDevice B) (payload : bytes) : BlockOp -> Z -> bytes -> B -> Prop :=
| effect_read offset len b :
    contents b = contents (bd_backend d) ->
    block_effect d payload (BlockOp_Read offset len) VIRTIO_BLK_S_OK
      (slice (contents (bd_backend d)) offset len) b
| effect_read_failed offset len b :
    contents b = contents (bd_backend d) ->
    block_effect d payload (BlockOp_Read offset len) VIRTIO_BLK_S_IOERR [] b
| effect_write offset len b :
    contents b = overwrite (contents (bd_backend d)) (Z.to_nat offset) payload ->
    block_effect d payload (BlockOp_Write offset len) VIRTIO_BLK_S_OK [] b
| effect_write_failed offset len b :
    block_effect d payload (BlockOp_Write offset len) VIRTIO_BLK_S_IOERR [] b
| effect_flush status b :
    status = VIRTIO_BLK_S_OK \/ status = VIRTIO_BLK_S_IOERR -> contents b = contents (bd_backend d) ->
    block_effect d payload BlockOp_Flush status [] b
| effect_get_id len :
    block_effect d payload (BlockOp_GetId len) VIRTIO_BLK_S_OK (take (Z.to_nat len) (bd_serial d))
      (bd_backend d).

#[export] Instance RequestError_eq_dec : EqDecision RequestError.
Proof. solve_decision. Defined.

Section serve.
Context {M : Type} `{GuestMemoryLaws M}.

(** The data from the first writable byte on, then the status in the last one. *)
Definition answer (chain : DescriptorChain) (data : bytes) (status : Z) : list (Z * Z) :=
  zip (take (length data) (area (chain_writable chain))) data ++
  zip (window (chain_writable chain) (chain_writable_len chain - 1) 1) [status].

Definition block_served (d : BlockDevice B) (chain : DescriptorChain) (mem : M)
    (out : BlockDevice B * M * Result Z DeviceFault) : Prop :=
  match parse_request mem chain (block_limits d) with
  | Ok rq => exists status data b mem',
      block_effect d (drop 16 (readable_bytes mem chain)) (request_op rq) status data b /\
      out = (block_count (bd_set_backend d b) status None, mem', Ok (Z.of_nat (length data) + 1)) /\
      Z.of_nat (length data) < chain_writable_len chain /\
      scattered mem (answer chain data status) mem'
  | Err RequestError_NoStatus => out = (block_count d VIRTIO_BLK_S_IOERR (Some RequestError_NoStatus), mem, Ok 0)
  | Err e => exists mem',
      out = (block_count d (error_status e) (Some e), mem', Ok 1) /\
      scattered mem (answer chain [] (error_status e)) mem'
  end.

(** A write that fits is whole. *)
Lemma write_whole_fits (mem : M) chain skip b :
  mem_wf mem -> segments_ok (mem_regions mem) (chain_writable chain) -> 0 <= skip -> all_bytes b ->
  skip + Z.of_nat (length b) <= segment_total (chain_writable chain) ->
  exists mem', write_whole mem chain skip b = (mem', Ok tt) /\
    scattered mem (zip (window (chain_writable chain) skip (length b)) b) mem'.
Proof.
  intros Hwf Hw Hskip Hb Hfit. unfold write_whole.
  destruct (write_writable_scatters mem chain skip b Hwf Hw Hskip Hb) as (mem' & -> & Hsc).
  pose proof (length_window _ _ skip (length b) Hw Hskip) as Hl.
  destruct (Nat.eqb_spec (length (window (chain_writable chain) skip (length b))) (length b)) as [_ | ]; [ | lia].
  by exists mem'.
Qed.

Lemma scattered_trans (m1 m2 m3 : M) w1 w2 :
  scattered m1 w1 m2 -> scattered m2 w2 m3 -> scattered m1 (w1 ++ w2) m3.
Proof.
  intros (_ & R2 & X2) (W3 & R3 & X3). split_and!; [done | congruence | ].
  intros x. by rewrite X3, scatter_app, (scatter_ext _ _ _ _ X2).
Qed.

Lemma error_status_byte e : is_u8 (error_status e).
Proof. by destruct e. Qed.

(** The end of a request: data already written, then the status byte. *)
Lemma finish_answers (d : BlockDevice B) status error (mem mem1 : M) chain data :
  mem_wf mem1 -> segments_ok (mem_regions mem) (chain_writable chain) ->
  chain_writable_len chain = segment_total (chain_writable chain) -> 1 <= chain_writable_len chain ->
  Z.of_nat (length data) <= MAX_REQUEST_BYTES ->
  is_u8 status -> scattered mem (zip (take (length data) (area (chain_writable chain))) data) mem1 ->
  exists mem', finish_request d status (Z.of_nat (length data)) (chain_writable_len chain - 1) error chain mem1 =
      (block_count d status error, mem', Ok (Z.of_nat (length data) + 1)) /\
    scattered mem (answer chain data status) mem'.
Proof.
  intros Hwf Hw Hcap Hone Hmax Hst Hsc. unfold finish_request.
  pose proof Hsc as (_ & Hr & _). rewrite <- Hr in Hw.
  destruct (write_whole_fits mem1 chain (chain_writable_len chain - 1) [status]) as (mem' & -> & Hsc');
    [done | done | lia | by apply Forall_singleton | simpl; lia | ].
  exists mem'. split; [ | by eapply scattered_trans].
  simpl. unfold saturating_add, U32_MAX, MAX_REQUEST_BYTES in *. do 2 f_equal. lia.
Qed.
(** A store of the same shape in place of the old one. *)
Lemma bd_set_backend_ok (d : BlockDevice B) b :
  block_ok d -> backend_inv b -> capacity_bytes b = capacity_bytes (bd_backend d) ->
  backend_read_only b = backend_read_only (bd_backend d) -> block_ok (bd_set_backend d b).
Proof. unfold block_ok; simpl. intros (_ & Hc & Hro & Hrest) Hb -> ->. by do 3 (split; [done | ]). Qed.

Lemma bd_set_backend_same (d : BlockDevice B) : bd_set_backend d (bd_backend d) = d.
Proof. by destruct d. Qed.

Lemma scattered_nil (mem : M) : mem_wf mem -> scattered mem [] mem.
Proof. done. Qed.

Section execute.
Context (d : BlockDevice B) (mem : M) (queue_size : Z) (climits : ChainLimits) (chain : DescriptorChain).
Context (Hwf : mem_wf mem) (Hsafe : chain_safe mem queue_size climits chain) (Hd : block_ok d).
Context (Hw1 : 1 <= chain_writable_len chain) (Hr16 : REQUEST_HEADER_LEN <= chain_readable_len chain).

(** The operation ran with one of its effects and wrote its data. *)
Definition executed (op : BlockOp) (out : BlockDevice B * M * Result (Z * Z) DeviceFault) : Prop :=
  exists status data b mem1,
    out = (bd_set_backend d b, mem1, Ok (status, Z.of_nat (length data))) /\
    block_effect d (drop 16 (readable_bytes mem chain)) op status data b /\
    block_ok (bd_set_backend d b) /\ is_u8 status /\
    (Z.of_nat (length data) <= MAX_REQUEST_BYTES /\ Z.of_nat (length data) < chain_writable_len chain) /\
    scattered mem (zip (take (length data) (area (chain_writable chain))) data) mem1.

Lemma header_sector_ok : 0 <= header_sector (readable_bytes mem chain).
Proof using All. apply header_sector_nonneg. by apply (readable_bytes_ok _ queue_size climits). Qed.

Definition op_here (op : BlockOp) : Prop :=
  op_ok (block_limits d) (header_type (readable_bytes mem chain)) (header_sector (readable_bytes mem chain))
    (chain_readable_len chain - REQUEST_HEADER_LEN) (chain_writable_len chain - 1) op.

Lemma execute_read_effect offset len :
  op_here (BlockOp_Read offset len) -> executed (BlockOp_Read offset len) (execute_read d offset len chain mem).
Proof using All.
  intros Hop. pose proof header_sector_ok as Hsec.
  destruct (chain_safe_segments _ _ _ _ Hsafe) as [_ Hw]. pose proof Hsafe as (_ & _ & _ & _ & _ & Hcap & _).
  pose proof Hd as (Hinv & Hshape & Hro & _). destruct (contents_ok _ Hinv) as (Hclen & _ & Hcb).
  destruct Hop as (_ & _ & -> & Hoff & Hpos & _ & Hmax & Hend). unfold execute_read.
  set (len := chain_writable_len chain - 1) in *. unfold MAX_REQUEST_BYTES in Hmax.
  assert (Ho : 0 <= offset) by (unfold SECTOR_SIZE in Hoff; lia).
  destruct (read_at (bd_backend d) offset (replicate (Z.to_nat len) 0)) as [[b buf] r] eqn:Hread.
  destruct (read_at_store _ _ _ _ _ _ Hinv Ho Hread) as (Hinv' & Hcon & Hro' & Hcap' & Hlbuf & Hfull).
  rewrite length_replicate in Hlbuf, Hfull.
  assert (Hd' : block_ok (bd_set_backend d b)) by (by apply bd_set_backend_ok).
  destruct (match r with Ok n => (n =? Z.to_nat len)%nat | Err _ => false end) eqn:Hr.
  + destruct r as [n | ]; [ | done]. apply Nat.eqb_eq in Hr as ->. rewrite (Hfull eq_refl) in *.
    rewrite Z2Nat.id in * by lia.
    assert (Hsl : length (slice (contents (bd_backend d)) offset len) = Z.to_nat len) by done.
    destruct (write_whole_fits mem chain 0 (slice (contents (bd_backend d)) offset len))
      as (mem1 & -> & Hsc); [done | done | lia | by apply Forall_take, Forall_drop | lia | ].
    exists VIRTIO_BLK_S_OK, (slice (contents (bd_backend d)) offset len), b, mem1.
    split; [simpl; by rewrite Hsl, Z2Nat.id by lia | ]. split; [by apply effect_read | ].
    do 2 (split; [done | ]). split; [unfold MAX_REQUEST_BYTES; lia | ]. unfold window in Hsc. by rewrite drop_0 in Hsc.
  + exists VIRTIO_BLK_S_IOERR, [], b, mem. split; [done | ].
    split; [by apply effect_read_failed | ]. do 2 (split; [done | ]). split; [simpl; unfold MAX_REQUEST_BYTES; lia | by apply scattered_nil].
Qed.

Lemma execute_write_effect offset len :
  op_here (BlockOp_Write offset len) -> executed (BlockOp_Write offset len) (execute_write d offset len chain mem).
Proof using All.
  intros Hop. pose proof header_sector_ok as Hsec. destruct (readable_bytes_ok _ _ _ _ Hwf Hsafe) as [Hb Hl].
  pose proof Hd as (Hinv & Hshape & Hro & _). unfold REQUEST_HEADER_LEN in *.
  destruct Hop as (_ & _ & _ & -> & Hoff & Hpos & _ & Hmax & Hend). unfold execute_write.
  set (payload := drop 16 (readable_bytes mem chain)). unfold REQUEST_HEADER_LEN.
  assert (Ho : 0 <= offset) by (unfold SECTOR_SIZE in Hoff; lia).
  assert (Hpl : length payload = Z.to_nat (chain_readable_len chain - 16))
    by (unfold payload; rewrite length_drop; lia).
  rewrite <- Hpl. change (read_readable mem chain 16) with (read_readable mem chain (Z.of_nat 16)).
  rewrite (read_readable_exact mem queue_size climits chain 16 (length payload) Hwf Hsafe) by lia.
  fold payload. rewrite (take_ge payload) by lia. rewrite Nat.eqb_refl. cbn [negb].
  assert (Hpb : all_bytes payload) by (by apply Forall_drop).
  destruct (write_at (bd_backend d) offset payload) as [b r] eqn:Hwrite.
  destruct (write_at_store _ _ _ _ _ Hinv Ho Hpb Hwrite) as (Hinv' & Hro' & Hcap' & Hfull & _).
  assert (Hd' : block_ok (bd_set_backend d b)) by (by apply bd_set_backend_ok).
  destruct (match r with Ok n => (n =? length payload)%nat | Err _ => false end) eqn:Hr.
  + destruct r as [n | ]; [ | done]. apply Nat.eqb_eq in Hr as ->.
    exists VIRTIO_BLK_S_OK, [], b, mem. split; [done | ]. split; [by apply effect_write, Hfull | ].
    do 2 (split; [done | ]). split; [simpl; unfold MAX_REQUEST_BYTES; lia | by apply scattered_nil].
  + exists VIRTIO_BLK_S_IOERR, [], b, mem. split; [done | ]. split; [by apply effect_write_failed | ].
    do 2 (split; [done | ]). split; [simpl; unfold MAX_REQUEST_BYTES; lia | by apply scattered_nil].
Qed.

Lemma execute_effect op : op_here op -> executed op (execute_op d op chain mem).
Proof using All.
  destruct op as [offset len | offset len | | len]; intros Hop;
    [by apply execute_read_effect | by apply execute_write_effect | | ]; simpl; pose proof Hd as (Hinv & _ & _ & _ & _ & Hserial & Hsb);
    destruct (chain_safe_segments _ _ _ _ Hsafe) as [_ Hw]; pose proof Hsafe as (_ & _ & _ & _ & _ & Hcap & _).
  - destruct (backend_flush (bd_backend d)) as [b r] eqn:Hflush.
    destruct (flush_store _ _ _ Hinv Hflush) as (Hinv' & Hcon & Hro' & Hcap').
    exists (match r with Ok _ => VIRTIO_BLK_S_OK | Err _ => VIRTIO_BLK_S_IOERR end), [], b, mem.
    split; [done | ]. split; [apply effect_flush; [destruct r; by auto | done] | ].
    split; [by apply bd_set_backend_ok | ]. split; [by destruct r | ]. split; [simpl; unfold MAX_REQUEST_BYTES; lia | by apply scattered_nil].
  - destruct Hop as (_ & _ & -> & Hpos & Hmax). set (len := chain_writable_len chain - 1) in *.
    unfold BLOCK_SERIAL_LEN, BLK_ID_LEN in *. destruct (Z.leb_spec len 20); [ | lia].
    assert (Hll : length (take (Z.to_nat len) (bd_serial d)) = Z.to_nat len) by (rewrite length_take; lia).
    destruct (write_whole_fits mem chain 0 (take (Z.to_nat len) (bd_serial d)))
      as (mem1 & -> & Hsc); [done | done | lia | by apply Forall_take | lia | ].
    exists VIRTIO_BLK_S_OK, (take (Z.to_nat len) (bd_serial d)), (bd_backend d), mem1.
    rewrite bd_set_backend_same. split; [simpl; by rewrite Hll, Z2Nat.id by lia | ].
    split; [by apply effect_get_id | ]. do 2 (split; [done | ]). split; [unfold MAX_REQUEST_BYTES; lia | ].
    unfold window in Hsc. by rewrite drop_0 in Hsc.
Qed.
End execute.
Lemma parse_no_status (mem : M) chain limits :
  parse_request mem chain limits = Err RequestError_NoStatus \/ 1 <= chain_writable_len chain.
Proof. unfold parse_request. cbv zeta. destruct (Z.ltb_spec (chain_writable_len chain) 1); [by left | right; lia]. Qed.

Lemma block_handles (d : BlockDevice B) (mem : M) queue_size climits chain :
  mem_wf mem -> chain_safe mem queue_size climits chain -> block_ok d ->
  block_served d chain mem (block_handle_chain d chain mem) /\
  block_ok (block_handle_chain d chain mem).1.1.
Proof.
  intros Hwf Hsafe Hd. destruct (chain_safe_segments _ _ _ _ Hsafe) as [_ Hw].
  pose proof Hsafe as (_ & _ & _ & _ & _ & Hcap & _). unfold block_served, block_handle_chain.
  pose proof (parse_request_accepts mem queue_size climits chain (block_limits d)) as Hparse.
  pose proof (parse_no_status mem chain (block_limits d)) as Hone.
  destruct (parse_request mem chain (block_limits d)) as [rq | e] eqn:Hp.
  - destruct (proj1 (Hparse rq Hwf Hsafe (block_limits_u64 d Hd)) eq_refl) as (Hw1 & Hr16 & -> & Hop).
    destruct (execute_effect d mem queue_size climits chain Hwf Hsafe Hd Hw1 Hr16 _ Hop)
      as (status & data & b & mem1 & -> & Heff & Hd' & Hst & [Hmax Hfit] & Hsc).
    destruct (finish_answers (bd_set_backend d b) status None mem mem1 chain data) as (mem' & -> & Hans);
      try done; [apply Hsc | ].
    split; [ | done]. by exists status, data, b, mem'.
  - destruct (decide (e = RequestError_NoStatus)) as [-> | Hne]; [done | ].
    assert (Hfin : exists mem', finish_request d (error_status e) 0 (saturating_sub (chain_writable_len chain) 1)
        (Some e) chain mem = (block_count d (error_status e) (Some e), mem', Ok 1) /\
      scattered mem (answer chain [] (error_status e)) mem').
    { destruct Hone as [Hone | Hone]; [congruence | ].
      replace (saturating_sub (chain_writable_len chain) 1) with (chain_writable_len chain - 1)
        by (unfold saturating_sub; lia).
      apply (finish_answers d (error_status e) (Some e) mem mem chain []); try done. apply error_status_byte. }
    destruct Hfin as (mem' & Heq & Hans). destruct e; try done; rewrite Heq; (split; [by exists mem' | done]).
Qed.

Lemma block_handle_ok (d : BlockDevice B) queue queue_size chain (mem : M) :
  mem_wf mem -> block_ok d -> chain_safe mem queue_size (chain_limits d queue) chain ->
  let '(d', mem', r) := handle_chain d queue chain mem in
  same_limits d d' /\ block_ok d' /\ mem_wf mem' /\ mem_regions mem' = mem_regions mem /\
  (forall len, r = Ok len -> is_u32 len).
Proof.
  intros Hwf Hd Hsafe. destruct (block_handles d mem queue_size _ chain Hwf Hsafe Hd) as [Hs Hd'].
  destruct (chain_safe_segments _ _ _ _ Hsafe) as [Hr Hw].
  pose proof Hsafe as (_ & _ & _ & _ & Hrl & Hwl & Hmax). pose proof (segment_total_zero _ _ Hr) as [Hnn _].
  rewrite Hrl in Hmax. simpl in Hmax. unfold MAX_REQUEST_BYTES, REQUEST_HEADER_LEN in Hmax.
  cbn [handle_chain BlockDevice_ChainHandler]. unfold block_served in Hs.
  destruct (block_handle_chain d chain mem) as [[d' mem'] r]. simpl in Hd'.
  assert (Hsum : same_limits d d' /\ (mem_wf mem' /\ mem_regions mem' = mem_regions mem) /\
    exists n, r = Ok n /\ 0 <= n <= 1048593).
  { destruct (parse_request mem chain (block_limits d)) as [rq | e].
    - destruct Hs as (status & data & b & mem1 & _ & [= -> -> ->] & Hfit & Hm & Hreg & _).
      split; [done | ]. split; [done | ]. eexists. split; [done | lia].
    - destruct (decide (e = RequestError_NoStatus)) as [-> | Hne].
      + injection Hs as -> -> ->. split; [done | ]. split; [done | ]. eexists. split; [done | lia].
      + assert (Hex : exists mem1, (d', mem', r) = (block_count d (error_status e) (Some e), mem1, Ok 1) /\
          scattered mem (answer chain [] (error_status e)) mem1) by (by destruct e).
        destruct Hex as (mem1 & [= -> -> ->] & Hm & Hreg & _).
        split; [done | ]. split; [done | ]. eexists. split; [done | lia]. }
  destruct Hsum as (Hl & [Hm Hreg] & n & -> & Hn). do 4 (split; [done | ]). intros len [= <-].
  unfold is_uint. lia.
Qed.
End serve.

#[export] Instance BlockDevice_laws : VirtioDeviceLaws (BlockDevice B).
Proof.
  split; try done.
  - intros d. simpl. destruct (bd_role d); by vm_compute.
  - intros d. by repeat constructor.
  - intros d features. simpl. unfold block_activate. by destruct (negb _).
Qed.

Lemma block_limits_wf : wf_limits BLOCK_CHAIN_LIMITS.
Proof. by vm_compute. Qed.

#[export] Instance BlockDevice_handler_laws : ChainHandlerLaws (BlockDevice B) := {|
  device_inv := block_ok;
  chain_limits_wf _ _ := block_limits_wf;
  handle_chain_ok _ _ _ := block_handle_ok;
|}.
End device.
