(* ===== verification/BlockProps.v ===== *)
(** What the block device promises: exact acceptance of requests, the effect of each on the
    store and on guest memory, read after write, an immutable root, and an identity-only
    snapshot record. *)

From S2P Require Import Prelude Bytes GuestMemory QueueChain Virtqueue VirtqueueFacts Transport TransportFacts TransportProps Segments Service Block BlockFacts.
From stdpp Require Import options.

Section requests.
Context {B : Type} `{BlockStoreLaws B} {M : Type} `{GuestMemoryLaws M}.

(** A request chain is accepted exactly when its shape and header say one thing: a read
    has only the header readable and whole sectors writable before the status byte, a
    write whole sectors after the header and only the status byte writable, and neither is
    empty, longer than 1 MiB or past the end of the store, with no overflow of the sector
    number; writes only to a writable device, flushes only where offered, and an identity
    request asks for 1 to 20 bytes.  The status byte is the last writable one. *)
Theorem parse_request_exact (mem : M) queue_size climits chain limits rq :
  mem_wf mem -> chain_safe mem queue_size climits chain -> is_u64 (limit_capacity_bytes limits) ->
  parse_request mem chain limits = Ok rq <-> request_ok mem chain limits rq.
Proof. apply parse_request_accepts. Qed.

(** The block device answers every accepted chain and never faults: an accepted request
    has one of its effects, a read copies exactly the addressed bytes of the store to the
    front of the writable area and leaves the store alone, a successful write replaces
    exactly the addressed range with the bytes after the header; a refused request touches
    nothing but the status byte, and a chain without one touches nothing.  The status goes
    in the last writable byte, the published length is the data plus one and fits the
    chain, and no other byte of guest memory changes. *)
Theorem block_serves (d : BlockDevice B) (mem : M) queue queue_size chain :
  mem_wf mem -> chain_safe mem queue_size (chain_limits d queue) chain -> block_ok d ->
  block_served d chain mem (handle_chain d queue chain mem) /\
  block_ok (handle_chain d queue chain mem).1.1.
Proof. apply block_handles. Qed.

(** The byte the status goes to. *)
Definition status_at (chain : DescriptorChain) (addr : Z) : Prop :=
  window (chain_writable chain) (chain_writable_len chain - 1) 1 = [addr].

Lemma answer_status (mem mem' : M) chain data status addr :
  status_at chain addr -> scattered mem (answer chain data status) mem' -> mem_byte mem' addr = status.
Proof.
  intros Ha (_ & _ & Hx). rewrite Hx. unfold answer. rewrite Ha, scatter_app. simpl. by rewrite decide_True.
Qed.

(** Serving an accepted request whose status byte says success. *)
Lemma served_ok (d d' : BlockDevice B) (mem mem' : M) queue queue_size chain r rq addr :
  mem_wf mem -> chain_safe mem queue_size (chain_limits d queue) chain -> block_ok d ->
  parse_request mem chain (block_limits d) = Ok rq ->
  handle_chain d queue chain mem = (d', mem', r) -> status_at chain addr ->
  mem_byte mem' addr = VIRTIO_BLK_S_OK ->
  exists data b, block_effect d (drop 16 (readable_bytes mem chain)) (request_op rq) VIRTIO_BLK_S_OK data b /\
    bd_backend d' = b /\ bd_role d' = bd_role d /\ scattered mem (answer chain data VIRTIO_BLK_S_OK) mem'.
Proof.
  intros Hwf Hsafe Hd Hp Hh Hst Hok.
  destruct (block_handles d mem queue_size _ chain Hwf Hsafe Hd) as [Hs _].
  change (block_handle_chain d chain mem) with (handle_chain d queue chain mem) in Hs. rewrite Hh in Hs.
  unfold block_served in Hs. rewrite Hp in Hs. destruct Hs as (status & data & b & mem1 & Heff & [= -> -> ->] & _ & Hsc).
  rewrite (answer_status _ _ _ _ _ _ Hst Hsc) in Hok. subst status. by exists data, b.
Qed.

(** Read after write: when a write of [len] bytes at [offset] was answered with success,
    a later read of the same range that is answered with success puts exactly the written
    bytes at the front of its chain's writable area, then the status, and changes nothing
    else of guest memory. *)
Theorem block_read_after_write (d d1 d2 : BlockDevice B) (mw mw' mr mr' : M) queue sw sr cw cr rw rr offset len sk sk' aw ar :
  mem_wf mw -> chain_safe mw sw (chain_limits d queue) cw -> block_ok d ->
  mem_wf mr -> chain_safe mr sr (chain_limits d1 queue) cr ->
  parse_request mw cw (block_limits d) = Ok (mkBlockRequest (BlockOp_Write offset len) sk) ->
  handle_chain d queue cw mw = (d1, mw', rw) -> status_at cw aw -> mem_byte mw' aw = VIRTIO_BLK_S_OK ->
  parse_request mr cr (block_limits d1) = Ok (mkBlockRequest (BlockOp_Read offset len) sk') ->
  handle_chain d1 queue cr mr = (d2, mr', rr) -> status_at cr ar -> mem_byte mr' ar = VIRTIO_BLK_S_OK ->
  scattered mr (answer cr (drop 16 (readable_bytes mw cw)) VIRTIO_BLK_S_OK) mr'.
Proof.
  intros Hwfw Hsw Hd Hwfr Hsr Hpw Hhw Haw How Hpr Hhr Har Hor.
  destruct (served_ok _ _ _ _ _ _ _ _ _ _ Hwfw Hsw Hd Hpw Hhw Haw How) as (dw & bw & Hew & Hbw & _ & _).
  pose proof (block_handles d mw sw _ cw Hwfw Hsw Hd) as [_ Hd1].
  change (block_handle_chain d cw mw) with (handle_chain d queue cw mw) in Hd1. rewrite Hhw in Hd1. simpl in Hd1.
  destruct (served_ok _ _ _ _ _ _ _ _ _ _ Hwfr Hsr Hd1 Hpr Hhr Har Hor) as (dr & br & Her & _ & _ & Hsc).
  simpl in Hew, Her. inversion Her; subst. inversion Hew as [ | | ? ? ? Hcon | | | ]; subst.
  rewrite Hcon in Hsc.
  apply parse_request_accepts with (queue_size := sw) (climits := chain_limits d queue) in Hpw as (_ & _ & _ & Hop);
    [ | done | done | by apply block_limits_u64].
  simpl in Hop. destruct Hop as (_ & _ & _ & -> & -> & Hpos & _ & _ & Hend).
  destruct (readable_bytes_ok _ _ _ _ Hwfw Hsw) as [Hall Hlen]. pose proof (header_sector_nonneg _ Hall).
  destruct Hd as (Hinv & Hshape & _). destruct (contents_ok _ Hinv) as (Hclen & _).
  unfold REQUEST_HEADER_LEN, SECTOR_SIZE in *.
  assert (Hpl : Z.of_nat (length (drop 16 (readable_bytes mw cw))) = chain_readable_len cw - 16)
    by (rewrite length_drop; lia).
  rewrite <- Hpl, slice_overwrite in Hsc by lia. done.
Qed.
End requests.

(** * Every use of a device *)

Section runs.
Context {B : Type} `{BlockStoreLaws B}.

Inductive bstep : BlockDevice B -> BlockDevice B -> Prop :=
| bstep_chain {M : Type} `{GuestMemoryLaws M} d (mem : M) queue queue_size chain :
    mem_wf mem -> chain_safe mem queue_size (chain_limits d queue) chain ->
    bstep d (handle_chain d queue chain mem).1.1
| bstep_activate d features : bstep d (device_activate d features).1
| bstep_reset d : bstep d (device_reset d)
| bstep_write_config d offset data : bstep d (device_write_config d offset data).1
| bstep_restore d raw : bstep d (device_restore_state d raw).1.

Lemma bd_set_activated_ok d activated : block_ok d -> block_ok (bd_set_activated d activated).
Proof. done. Qed.

(** A request to a read-only device leaves the store's contents. *)
Lemma root_chain {M} `{GuestMemoryLaws M} d (mem : M) queue queue_size chain :
  mem_wf mem -> chain_safe mem queue_size (chain_limits d queue) chain -> block_ok d ->
  bd_role (handle_chain d queue chain mem).1.1 = bd_role d /\
  (bd_role d = BlockRole_ImmutableRoot ->
     contents (bd_backend (handle_chain d queue chain mem).1.1) = contents (bd_backend d)).
Proof.
  intros Hwf Hsafe Hd. destruct (block_handles d mem queue_size _ chain Hwf Hsafe Hd) as [Hs _].
  change (block_handle_chain d chain mem) with (handle_chain d queue chain mem) in Hs.
  pose proof (parse_request_accepts mem queue_size BLOCK_CHAIN_LIMITS chain (block_limits d)) as Hparse. unfold block_served in Hs.
  destruct (parse_request mem chain (block_limits d)) as [rq | e].
  - destruct Hs as (status & data & b & mem1 & Heff & -> & _). split; [done | ]. intros Hrole.
    destruct (proj1 (Hparse rq Hwf Hsafe (block_limits_u64 d Hd)) eq_refl) as (_ & _ & _ & Hop).
    simpl. destruct Heff; try done; simpl in Hop; rewrite Hrole in Hop; by destruct Hop as (_ & ? & _).
  - assert (Hb : exists c, (handle_chain d queue chain mem).1.1 = bd_set_counters d c)
      by (destruct e; try (destruct Hs as (mem1 & -> & _)); try rewrite Hs; by eexists).
    destruct Hb as [c ->]. done.
Qed.

Lemma bstep_ok d d' :
  bstep d d' -> block_ok d ->
  block_ok d' /\ bd_role d' = bd_role d /\
  (bd_role d = BlockRole_ImmutableRoot -> contents (bd_backend d') = contents (bd_backend d)).
Proof.
  intros Hstep Hd. destruct Hstep as [M ? ? d mem queue queue_size chain Hwf Hsafe | d features | | | ].
  - destruct (block_handles d mem queue_size _ chain Hwf Hsafe Hd) as [_ Hd'].
    destruct (root_chain d mem queue queue_size chain Hwf Hsafe Hd) as [Hrole Hroot]. done.
  - simpl. unfold block_activate. by destruct (negb _).
  - done.
  - done.
  - done.
Qed.

(** No sequence of chains, however hostile, resets, activations and restores makes an
    immutable root change: its store keeps its contents byte for byte.  For every role the
    device keeps its shape in agreement with the store's. *)
Theorem root_immutable d d' :
  block_ok d -> rtc bstep d d' ->
  block_ok d' /\ (bd_role d = BlockRole_ImmutableRoot -> contents (bd_backend d') = contents (bd_backend d)).
Proof.
  intros Hd Hrun.
  assert (Hinv : block_ok d' /\ bd_role d' = bd_role d /\
    (bd_role d = BlockRole_ImmutableRoot -> contents (bd_backend d') = contents (bd_backend d))).
  { induction Hrun as [ | d1 d2 d3 Hstep _ IH]; [done | ].
    destruct (bstep_ok _ _ Hstep Hd) as (Hd2 & Hr2 & Hc2). destruct (IH Hd2) as (Hd3 & Hr3 & Hc3).
    split; [done | ]. split; [congruence | ]. intros Hrole. rewrite <- Hc2 by done. apply Hc3. congruence. }
  by destruct Hinv as (? & _ & ?).
Qed.
End runs.

(** * The snapshot record *)

(** A record whose fields fit their encoding. *)
Definition block_state_wf (s : BlockState) : Prop :=
  is_u32 (bs_device_id s) /\ is_u64 (bs_features s) /\ is_u32 (bs_blk_size s) /\
  is_u64 (bs_capacity_sectors s) /\ Z.of_nat (length (bs_serial s)) = BLOCK_SERIAL_LEN /\ all_bytes (bs_serial s).

Lemma block_state_decode s :
  block_state_wf s -> block_state_from_bytes (block_state_to_bytes s) = Ok s.
Proof.
  destruct s as [id ft role size cap serial]. intros (Hid & Hft & Hsz & Hcap & Hl & Hs). simpl in *.
  unfold block_state_from_bytes.
  assert (Hlen : length (block_state_to_bytes (mkBlockState id ft role size cap serial)) = BLOCK_STATE_LEN).
  { unfold block_state_to_bytes. simpl. unfold BLOCK_SERIAL_LEN, BLK_ID_LEN in Hl. unfold BLOCK_STATE_LEN. lia. }
  rewrite Hlen. change (((BLOCK_STATE_LEN =? BLOCK_STATE_LEN)%nat)) with true.
  assert (Hu : forall n z, (n <= 8)%nat -> is_uint (8 * Z.of_nat n) z -> le_u64 (le_bytes n z) = z).
  { intros n z Hn Hz. rewrite le_u64_val by (apply le_bytes_all_bytes || (rewrite length_le_bytes; lia)).
    by apply le_val_bytes. }
  trans (let? r := (if role_byte role =? 0 then Ok BlockRole_ImmutableRoot
                    else if role_byte role =? 1 then Ok BlockRole_PrivateOverlay
                    else Err DeviceStateError_Malformed) in
    if negb (le_u64 (le_bytes 4 id) <=? U32_MAX) then Err DeviceStateError_Malformed
    else if negb (le_u64 (le_bytes 4 size) <=? U32_MAX) then Err DeviceStateError_Malformed
    else Ok (mkBlockState (le_u64 (le_bytes 4 id)) (le_u64 (le_bytes 8 ft)) r (le_u64 (le_bytes 4 size))
      (le_u64 (le_bytes 8 cap)) serial)); [reflexivity | ].
  rewrite !Hu by (done || lia). unfold is_uint in Hid, Hsz. unfold U32_MAX.
  destruct (Z.leb_spec id (2 ^ 32 - 1)), (Z.leb_spec size (2 ^ 32 - 1)); try lia. by destruct role.
Qed.

(** The decoder gives back what the encoder wrote, and only that. *)
Lemma block_state_encode raw s :
  all_bytes raw -> block_state_from_bytes raw = Ok s -> raw = block_state_to_bytes s.
Proof.
  intros Hraw. unfold block_state_from_bytes.
  destruct (Nat.eqb_spec (length raw) BLOCK_STATE_LEN) as [Hl | Hl]; [ | done].
  destruct (Z.eqb_spec (default 0 (raw !! 0%nat)) BLOCK_STATE_VERSION) as [Hv | Hv]; [ | done]. cbn [negb orb].
  unfold BLOCK_STATE_LEN in Hl.
  assert (Hbyte : forall i x, (i < 46)%nat -> default 0 (raw !! i) = x -> take 1 (drop i raw) = [x]).
  { intros i x Hi Hx. destruct (raw !! i) as [y | ] eqn:Hy; [ | apply lookup_ge_None in Hy; lia].
    simpl in Hx. subst y. erewrite drop_S by done. done. }
  assert (Hu : forall n o, (n <= 8)%nat -> (o + n <= 46)%nat ->
    le_bytes n (le_u64 (take n (drop o raw))) = take n (drop o raw)).
  { intros n o Hn Ho. assert (Ht : length (take n (drop o raw)) = n) by (rewrite length_take, length_drop; lia).
    assert (Ha : all_bytes (take n (drop o raw))) by (by apply Forall_take, Forall_drop).
    rewrite le_u64_val by (done || lia). rewrite <- Ht at 1. by apply le_bytes_val. }
  destruct (if _ =? 0 then _ else _) as [role | ] eqn:Hrole; [ | done].
  assert (Hrb : default 0 (raw !! 13%nat) = role_byte role).
  { destruct (Z.eqb_spec (default 0 (raw !! 13%nat)) 0) as [-> | ]; [by injection Hrole as <- | ].
    destruct (Z.eqb_spec (default 0 (raw !! 13%nat)) 1) as [-> | ]; [by injection Hrole as <- | done]. }
  destruct (negb _); [done | ]. destruct (negb _); [done | ]. intros [= <-]. unfold block_state_to_bytes.
  cbn [bs_device_id bs_features bs_role bs_blk_size bs_capacity_sectors bs_serial].
  rewrite !Hu by lia. rewrite <- (Hbyte 0%nat _ ltac:(lia) Hv), <- (Hbyte 13%nat _ ltac:(lia) Hrb).
  rewrite (split_field raw 8 18 26), (split_field raw 4 14 18), (split_field raw 1 13 14), (split_field raw 8 5 13),
    (split_field raw 4 1 5), (split_field raw 1 0 1) by done. done.
Qed.

(** A block snapshot is identity only: it decodes to the captured identity whatever the
    store holds, restoring never changes the device, and it succeeds exactly on the
    device's own record, so a snapshot of another disk, role, size or serial is refused. *)
Theorem block_snapshot_identity {B} `{BlockStoreLaws B} (d : BlockDevice B) raw :
  block_ok d -> all_bytes raw ->
  block_state_from_bytes (device_snapshot_state d) = Ok (block_state_capture d) /\
  (device_restore_state d raw).1 = d /\
  ((device_restore_state d raw).2 = Ok tt <-> raw = device_snapshot_state d).
Proof.
  intros (Hinv & Hshape & _ & Hpos & Hsz & Hserial & Hsb) Hraw.
  destruct (contents_ok _ Hinv) as (_ & Hu & _).
  assert (Hwf : block_state_wf (block_state_capture d)).
  { unfold block_state_wf; simpl. split; [done | ]. split; [by destruct (bd_role d) | ]. split; [done | ].
    split; [ | done]. unfold is_uint, SECTOR_SIZE in *. lia. }
  split; [by apply block_state_decode | ]. split; [done | ]. simpl. split.
  - destruct (block_state_from_bytes raw) as [s | ] eqn:Hs; [ | done]. unfold block_state_apply.
    case_bool_decide as Heq; [ | done]. intros _. rewrite <- Heq. by apply block_state_encode.
  - intros ->. rewrite block_state_decode by done. unfold block_state_apply. by rewrite bool_decide_true.
Qed.

(** * A sample guest: a sector of fives written at 0, then read back *)

Definition block_memory : VecGuestMemory :=
  mkVecGuestMemory
    [mkRegion 0 (descriptor_to_bytes (mkDescriptor 64 528 VIRTQ_DESC_F_NEXT 1) ++
                 descriptor_to_bytes (mkDescriptor 592 1 VIRTQ_DESC_F_WRITE 0) ++
                 descriptor_to_bytes (mkDescriptor 600 16 VIRTQ_DESC_F_NEXT 3) ++
                 descriptor_to_bytes (mkDescriptor 616 513 VIRTQ_DESC_F_WRITE 0) ++
                 le_bytes 4 VIRTIO_BLK_T_OUT ++ repeat 0 12 ++ repeat 5 512 ++ repeat 7 8 ++
                 le_bytes 4 VIRTIO_BLK_T_IN ++ repeat 0 12 ++ repeat 9 513)].

Definition write_chain : DescriptorChain :=
  mkDescriptorChain 0 [mkChainSegment 64 528 false; mkChainSegment 592 1 true] 528 1.
Definition read_chain : DescriptorChain :=
  mkDescriptorChain 2 [mkChainSegment 600 16 false; mkChainSegment 616 513 true] 16 513.

Lemma block_memory_wf : mem_wf block_memory.
Proof. by vm_compute; repeat (split || constructor). Qed.

Lemma block_chains_safe :
  chain_safe block_memory 4 BLOCK_CHAIN_LIMITS write_chain /\ chain_safe block_memory 4 BLOCK_CHAIN_LIMITS read_chain.
Proof.
  split.
  - eapply (walk_chain_safe block_memory 0 4 0); [exact block_memory_wf | by vm_compute..].
  - eapply (walk_chain_safe block_memory 0 4 2); [exact block_memory_wf | by vm_compute..].
Qed.

Definition sample_block (role : BlockRole) : BlockDevice MemoryBackend :=
  mkBlockDevice role (memory_zeroed 1 (role_read_only role)) 512 1 (replicate 20 65) false (mkBlockCounters 0 0 0 0).

Lemma sample_block_ok role : block_ok (sample_block role).
Proof.
  apply (block_new_ok role (memory_zeroed 1 (role_read_only role)) 512 (replicate 20 65)).
  - split; [by vm_compute | by apply Forall_replicate].
  - done.
  - by apply Forall_replicate.
  - by destruct role; vm_compute.
Qed.

Definition overlay_limits : RequestLimits := mkRequestLimits 512 false true.

Lemma parse_request_exact_witness :
  parse_request block_memory write_chain overlay_limits = Ok (mkBlockRequest (BlockOp_Write 0 512) 0) /\
  request_ok block_memory write_chain overlay_limits (mkBlockRequest (BlockOp_Write 0 512) 0).
Proof.
  assert (Hp : parse_request block_memory write_chain overlay_limits =
    Ok (mkBlockRequest (BlockOp_Write 0 512) 0)) by (by vm_compute).
  split; [exact Hp | ].
  apply (parse_request_exact block_memory 4 BLOCK_CHAIN_LIMITS write_chain overlay_limits);
    [exact block_memory_wf | apply block_chains_safe | by vm_compute | exact Hp].
Defined.

Lemma block_serves_witness :
  block_ok (handle_chain (sample_block BlockRole_PrivateOverlay) 0 write_chain block_memory).1.1 /\
  (handle_chain (sample_block BlockRole_PrivateOverlay) 0 write_chain block_memory).2 = Ok 1.
Proof.
  split; [ | by vm_compute].
  apply (block_serves (sample_block BlockRole_PrivateOverlay) block_memory 0 4 write_chain);
    [exact block_memory_wf | apply block_chains_safe | apply sample_block_ok].
Defined.

Lemma block_read_after_write_witness :
  exists d1 mw' d2 mr', 
    handle_chain (sample_block BlockRole_PrivateOverlay) 0 write_chain block_memory = (d1, mw', Ok 1) /\
    handle_chain d1 0 read_chain block_memory = (d2, mr', Ok 513) /\
    scattered block_memory (answer read_chain (drop 16 (readable_bytes block_memory write_chain)) VIRTIO_BLK_S_OK) mr'.
Proof.
  set (out1 := handle_chain (sample_block BlockRole_PrivateOverlay) 0 write_chain block_memory).
  set (out2 := handle_chain out1.1.1 0 read_chain block_memory).
  exists out1.1.1, out1.1.2, out2.1.1, out2.1.2. split; [by vm_compute | ]. split; [by vm_compute | ].
  apply (block_read_after_write (sample_block BlockRole_PrivateOverlay) out1.1.1 out2.1.1 block_memory out1.1.2
    block_memory out2.1.2 0 4 4 write_chain read_chain (Ok 1) (Ok 513) 0 512 0 512 592 1128);
    [exact block_memory_wf | apply block_chains_safe | apply sample_block_ok | exact block_memory_wf
    | apply block_chains_safe | by vm_compute..].
Defined.

Lemma root_immutable_witness :
  block_ok (handle_chain (sample_block BlockRole_ImmutableRoot) 0 write_chain block_memory).1.1 /\
  contents (bd_backend (handle_chain (sample_block BlockRole_ImmutableRoot) 0 write_chain block_memory).1.1) =
  contents (bd_backend (sample_block BlockRole_ImmutableRoot)).
Proof.
  destruct (root_immutable (sample_block BlockRole_ImmutableRoot)
    (handle_chain (sample_block BlockRole_ImmutableRoot) 0 write_chain block_memory).1.1) as [Hok Hc].
  - apply sample_block_ok.
  - apply rtc_once.
    apply (bstep_chain (sample_block BlockRole_ImmutableRoot) block_memory 0 4 write_chain block_memory_wf).
    apply block_chains_safe.
  - split; [exact Hok | exact (Hc eq_refl)].
Defined.

Lemma block_snapshot_identity_witness :
  (device_restore_state (sample_block BlockRole_ImmutableRoot)
     (device_snapshot_state (sample_block BlockRole_PrivateOverlay))).2 <> Ok tt.
Proof.
  destruct (block_snapshot_identity (sample_block BlockRole_ImmutableRoot)
    (device_snapshot_state (sample_block BlockRole_PrivateOverlay))) as (_ & _ & Hiff);
    [apply sample_block_ok | by vm_compute; repeat constructor | ].
  intros Hok. apply Hiff in Hok. by vm_compute in Hok.
Defined.
