(* ===== verification/Net.v ===== *)
(** The network device ([crates/soma-kvm/src/virtio/devices/net.rs], [net/frame.rs],
    [net/rx.rs], [net/attachment.rs], [net/backend.rs], [net/state.rs]): frames between the
    guest and a host endpoint behind a link gate the host controls. *)

From S2P Require Import Prelude Bytes GuestMemory QueueChain Virtqueue Transport Segments Service.
From stdpp Require Import options.

(** * Frames ([frame.rs]) *)

Definition VIRTIO_NET_HDR_LEN : nat := 12.
Definition MIN_FRAME_LEN : nat := 14.
Definition MAX_FRAME_LEN : nat := 1514.

Inductive FrameError : Type :=
| FrameError_TooShort (len : Z)
| FrameError_TooLong (len : Z)
| FrameError_WritableSegment
| FrameError_HeaderNonZero
| FrameError_Memory (error : GuestMemoryError).

Definition validate_tx {M} `{GuestMemory M} (mem : M) (chain : DescriptorChain) : Result nat FrameError :=
  if negb (chain_writable_len chain =? 0) then Err FrameError_WritableSegment
  else
    let len := chain_readable_len chain in
    if len <? Z.of_nat (VIRTIO_NET_HDR_LEN + MIN_FRAME_LEN) then Err (FrameError_TooShort len)
    else if len >? Z.of_nat (VIRTIO_NET_HDR_LEN + MAX_FRAME_LEN) then Err (FrameError_TooLong len)
    else
      let '(header, r) := read_readable mem chain 0 (replicate VIRTIO_NET_HDR_LEN 0) in
      let? _ := map_err FrameError_Memory r in
      if negb (bool_decide (header = replicate VIRTIO_NET_HDR_LEN 0)) then Err FrameError_HeaderNonZero
      else Ok (Z.to_nat (len - Z.of_nat VIRTIO_NET_HDR_LEN)).

Definition rx_frame_ok (len : nat) : bool := (MIN_FRAME_LEN <=? len)%nat && (len <=? MAX_FRAME_LEN)%nat.

(** * Host endpoints ([backend.rs]) *)

(** An [io::ErrorKind]: the two the endpoint treats as idle, and the rest by discriminant. *)
Inductive IoErrorKind : Type :=
| IoErrorKind_WouldBlock
| IoErrorKind_Interrupted
| IoErrorKind_Other (kind : Z).

Inductive NetBackendError : Type :=
| NetBackendError_Io (kind : IoErrorKind)
| NetBackendError_ShortWrite.

(** [receive] reads one frame into the front of the buffer. *)
Class NetBackend (B : Type) : Type := {
  transmit : B -> bytes -> B * Result unit NetBackendError;
  receive : B -> bytes -> B * bytes * Result (option nat) NetBackendError;
}.

(** A TAP descriptor: one [read] or [write] system call each. *)
Class TapFile (F : Type) : Type := {
  tap_write : F -> bytes -> F * Result nat IoErrorKind;
  tap_read : F -> bytes -> F * bytes * Result nat IoErrorKind;
}.

Record TapBackend (F : Type) : Type := mkTapBackend { tap_file : F }.
Arguments mkTapBackend {F} _.
Arguments tap_file {F} _.

Section tap.
Context {F : Type} `{TapFile F}.

Definition tap_transmit (b : TapBackend F) (frame : bytes) : TapBackend F * Result unit NetBackendError :=
  let '(file, written) := tap_write (tap_file b) frame in
  (mkTapBackend file,
   match written with
   | Err kind => Err (NetBackendError_Io kind)
   | Ok n => if (n =? length frame)%nat then Ok tt else Err NetBackendError_ShortWrite
   end).

Definition tap_receive (b : TapBackend F) (buf : bytes)
    : TapBackend F * bytes * Result (option nat) NetBackendError :=
  let '(file, buf, read) := tap_read (tap_file b) buf in
  (mkTapBackend file, buf,
   match read with
   | Ok O => Ok None
   | Ok len => Ok (Some len)
   | Err IoErrorKind_WouldBlock | Err IoErrorKind_Interrupted => Ok None
   | Err kind => Err (NetBackendError_Io kind)
   end).

#[export] Instance TapBackend_NetBackend : NetBackend (TapBackend F) := {|
  transmit := tap_transmit;
  receive := tap_receive;
|}.
End tap.

Definition LOOPBACK_QUEUE_LIMIT : nat := 64.

(** The queues are shared with the [LoopbackHandle]s; [loopback_push_inbound] and
    [loopback_take_sent] are what a handle does to them. *)
Record LoopbackBackend : Type := mkLoopbackBackend {
  lb_sent : list bytes;
  lb_inbound : list bytes;
  lb_echo : bool;
  lb_fail : option IoErrorKind
}.

Definition loopback_push_inbound (b : LoopbackBackend) (frame : bytes) : LoopbackBackend :=
  if (length (lb_inbound b) <? LOOPBACK_QUEUE_LIMIT)%nat
  then mkLoopbackBackend (lb_sent b) (lb_inbound b ++ [frame]) (lb_echo b) (lb_fail b) else b.

Definition loopback_take_sent (b : LoopbackBackend) : LoopbackBackend * list bytes :=
  (mkLoopbackBackend [] (lb_inbound b) (lb_echo b) (lb_fail b), lb_sent b).

Definition loopback_transmit (b : LoopbackBackend) (frame : bytes) : LoopbackBackend * Result unit NetBackendError :=
  match lb_fail b with
  | Some kind => (b, Err (NetBackendError_Io kind))
  | None =>
      let b := if (length (lb_sent b) <? LOOPBACK_QUEUE_LIMIT)%nat
               then mkLoopbackBackend (lb_sent b ++ [frame]) (lb_inbound b) (lb_echo b) (lb_fail b) else b in
      (if lb_echo b then loopback_push_inbound b frame else b, Ok tt)
  end.

Definition loopback_receive (b : LoopbackBackend) (buf : bytes)
    : LoopbackBackend * bytes * Result (option nat) NetBackendError :=
  match lb_fail b with
  | Some kind => (b, buf, Err (NetBackendError_Io kind))
  | None =>
      match lb_inbound b with
      | [] => (b, buf, Ok None)
      | frame :: rest =>
          let len := Nat.min (length frame) (length buf) in
          (mkLoopbackBackend (lb_sent b) rest (lb_echo b) (lb_fail b),
           take len frame ++ drop len buf, Ok (Some len))
      end
  end.

#[export] Instance LoopbackBackend_NetBackend : NetBackend LoopbackBackend := {|
  transmit := loopback_transmit;
  receive := loopback_receive;
|}.

(** * The device ([net.rs], [attachment.rs]) *)

Definition VIRTIO_NET_DEVICE_ID : Z := 1.
Definition VIRTIO_NET_F_MAC : Z := Z.shiftl 1 5.
Definition NET_FEATURES : Z := Z.lor VIRTIO_F_VERSION_1 VIRTIO_NET_F_MAC.
Definition NET_RX_QUEUE : Z := 0.
Definition NET_TX_QUEUE : Z := 1.
Definition NET_QUEUE_MAX : list Z := [256; 256].
Definition NET_CONFIG_LEN : Z := 8.
Definition MAX_RX_CHAIN_BYTES : Z := 65536.
Definition TX_LIMITS : ChainLimits := mkChainLimits 256 (Z.of_nat (VIRTIO_NET_HDR_LEN + MAX_FRAME_LEN)).
Definition RX_LIMITS : ChainLimits := mkChainLimits 256 MAX_RX_CHAIN_BYTES.

Record NetCounters : Type := mkNetCounters {
  nc_tx_ok : Z;
  nc_tx_dropped : Z;
  nc_rx_ok : Z;
  nc_rx_dropped : Z
}.

Record NetDevice (B : Type) : Type := mkNetDevice {
  nd_backend : B;
  nd_mac : bytes;
  nd_link_up : bool;
  nd_activated : bool;
  nd_counters : NetCounters
}.
Arguments mkNetDevice {B} _ _ _ _ _.
Arguments nd_backend {B} _.
Arguments nd_mac {B} _.
Arguments nd_link_up {B} _.
Arguments nd_activated {B} _.
Arguments nd_counters {B} _.

Section device.
Context {B : Type} `{NetBackend B}.

Definition net_new (backend : B) (mac : bytes) : NetDevice B :=
  mkNetDevice backend mac false false (mkNetCounters 0 0 0 0).

Definition nd_set_backend (d : NetDevice B) (backend : B) : NetDevice B :=
  mkNetDevice backend (nd_mac d) (nd_link_up d) (nd_activated d) (nd_counters d).
Definition set_mac (d : NetDevice B) (mac : bytes) : NetDevice B :=
  mkNetDevice (nd_backend d) mac (nd_link_up d) (nd_activated d) (nd_counters d).
Definition set_link (d : NetDevice B) (up : bool) : NetDevice B :=
  mkNetDevice (nd_backend d) (nd_mac d) up (nd_activated d) (nd_counters d).
Definition nd_set_activated (d : NetDevice B) (activated : bool) : NetDevice B :=
  mkNetDevice (nd_backend d) (nd_mac d) (nd_link_up d) activated (nd_counters d).
Definition nd_set_counters (d : NetDevice B) (counters : NetCounters) : NetDevice B :=
  mkNetDevice (nd_backend d) (nd_mac d) (nd_link_up d) (nd_activated d) counters.

Definition net_attach (d : NetDevice B) (backend : B) (mac : bytes) : NetDevice B :=
  set_mac (nd_set_backend d backend) mac.

Definition net_tick (n : Z) : Z := saturating_add U32_MAX n 1.

Definition net_count_rx_ok (d : NetDevice B) : NetDevice B :=
  let c := nd_counters d in
  nd_set_counters d (mkNetCounters (nc_tx_ok c) (nc_tx_dropped c) (net_tick (nc_rx_ok c)) (nc_rx_dropped c)).
Definition net_count_rx_dropped (d : NetDevice B) : NetDevice B :=
  let c := nd_counters d in
  nd_set_counters d (mkNetCounters (nc_tx_ok c) (nc_tx_dropped c) (nc_rx_ok c) (net_tick (nc_rx_dropped c))).
Definition drop_tx (d : NetDevice B) : NetDevice B :=
  let c := nd_counters d in
  nd_set_counters d (mkNetCounters (nc_tx_ok c) (net_tick (nc_tx_dropped c)) (nc_rx_ok c) (nc_rx_dropped c)).
Definition count_tx_ok (d : NetDevice B) : NetDevice B :=
  let c := nd_counters d in
  nd_set_counters d (mkNetCounters (net_tick (nc_tx_ok c)) (nc_tx_dropped c) (nc_rx_ok c) (nc_rx_dropped c)).

(** [receive_frame]: any error is the one failure. *)
Definition receive_frame (d : NetDevice B) (buf : bytes) : NetDevice B * bytes * Result (option nat) unit :=
  let '(backend, buf, r) := receive (nd_backend d) buf in
  (nd_set_backend d backend, buf, map_err (fun _ => tt) r).

Definition net_read_config (d : NetDevice B) (offset : Z) (len : nat) : Result bytes ConfigAccessError :=
  let raw := nd_mac d ++ [0; 0] in
  match checked_add_u64 offset (Z.of_nat len) with
  | Some end_ =>
      if end_ <=? NET_CONFIG_LEN then Ok (take len (drop (Z.to_nat offset) raw))
      else Err ConfigAccessError_OutOfBounds
  | None => Err ConfigAccessError_OutOfBounds
  end.

Definition net_activate (d : NetDevice B) (negotiated_features : Z) : NetDevice B * Result unit ActivateError :=
  if negb (Z.land negotiated_features (lnot_w 64 NET_FEATURES) =? 0)
  then (d, Err (ActivateError_UnsupportedFeatures negotiated_features))
  else (nd_set_activated d true, Ok tt).

Definition net_handle_chain {M} `{GuestMemory M} (d : NetDevice B) (queue : Z) (chain : DescriptorChain) (mem : M)
    : NetDevice B * M * Result Z DeviceFault :=
  if negb (queue =? NET_TX_QUEUE) then (d, mem, Err DeviceFault_Protocol)
  else match validate_tx mem chain with
  | Err _ => (drop_tx d, mem, Ok 0)
  | Ok frame_len =>
      if negb (nd_link_up d) then (drop_tx d, mem, Ok 0)
      else
        let '(frame, r) := read_readable mem chain (Z.of_nat VIRTIO_NET_HDR_LEN) (replicate frame_len 0) in
        match r with
        | Err e => (d, mem, Err (DeviceFault_Memory e))
        | Ok n =>
            if negb (n =? frame_len)%nat then (d, mem, Err DeviceFault_Protocol)
            else
              let '(backend, sent) := transmit (nd_backend d) frame in
              let d := nd_set_backend d backend in
              (match sent with Ok _ => count_tx_ok d | Err _ => drop_tx d end, mem, Ok 0)
        end
  end.
End device.

(** * The snapshot record ([state.rs]) *)

Definition NET_STATE_VERSION : Z := 1.
Definition NET_STATE_LEN : nat := 20.

Record NetState : Type := mkNetState {
  ns_device_id : Z;
  ns_features : Z;
  ns_mac : bytes;
  ns_link_up : bool
}.

Definition net_state_capture {B} (d : NetDevice B) : NetState :=
  mkNetState VIRTIO_NET_DEVICE_ID NET_FEATURES (nd_mac d) (nd_link_up d).

Definition net_state_to_bytes (s : NetState) : bytes :=
  [NET_STATE_VERSION] ++ le_bytes 4 (ns_device_id s) ++ le_bytes 8 (ns_features s) ++ ns_mac s ++
  [if ns_link_up s then 1 else 0].

Definition net_state_from_bytes (raw : bytes) : Result NetState DeviceStateError :=
  if negb (length raw =? NET_STATE_LEN)%nat || negb (default 0 (raw !! 0%nat) =? NET_STATE_VERSION)
  then Err DeviceStateError_Malformed
  else
    let byte := default 0 (raw !! 19%nat) in
    let? link_up := if byte =? 0 then Ok false else if byte =? 1 then Ok true
                    else Err DeviceStateError_Malformed in
    let device_id := le_u64 (take 4 (drop 1 raw)) in
    if device_id <=? U32_MAX
    then Ok (mkNetState device_id (le_u64 (take 8 (drop 5 raw))) (take 6 (drop 13 raw)) link_up)
    else Err DeviceStateError_Malformed.

Definition net_state_apply {B} (s : NetState) (d : NetDevice B) : NetDevice B * Result unit DeviceStateError :=
  if negb (ns_device_id s =? VIRTIO_NET_DEVICE_ID) || negb (ns_features s =? NET_FEATURES) || ns_link_up s
  then (d, Err DeviceStateError_Incompatible)
  else (set_link (set_mac d (ns_mac s)) false, Ok tt).

(** * The seams *)

Section seams.
Context {B : Type} `{NetBackend B}.

Definition net_restore_state (d : NetDevice B) (raw : bytes) : NetDevice B * Result unit DeviceStateError :=
  match net_state_from_bytes raw with
  | Err e => (d, Err e)
  | Ok s => net_state_apply s d
  end.

#[export] Instance NetDevice_VirtioDevice : VirtioDevice (NetDevice B) := {|
  device_id _ := VIRTIO_NET_DEVICE_ID;
  vendor_id _ := SOMA_VENDOR_ID;
  feature_allowlist _ := NET_FEATURES;
  queue_max_sizes _ := NET_QUEUE_MAX;
  config_len _ := NET_CONFIG_LEN;
  device_read_config := net_read_config;
  device_write_config d _ _ := (d, Err ConfigAccessError_ReadOnly);
  device_activate := net_activate;
  device_reset d := nd_set_activated d false;
  device_snapshot_state d := net_state_to_bytes (net_state_capture d);
  device_restore_state := net_restore_state;
|}.

Definition net_chain_limits (queue : Z) : ChainLimits := if queue =? NET_TX_QUEUE then TX_LIMITS else RX_LIMITS.

#[export] Instance NetDevice_ChainHandler : ChainHandler (NetDevice B) := {|
  chain_limits _ queue := net_chain_limits queue;
  handle_chain _ _ := net_handle_chain;
|}.
End seams.

(** * Delivery to the guest ([rx.rs]) *)

Section rx.
Context {B : Type} `{NetBackend B} {M : Type} `{GuestMemory M}.

Abbreviation Loop := (ServiceReport -> bytes -> MmioTransport (NetDevice B) -> M ->
  option (MmioTransport (NetDevice B) * M * Result ServiceReport ServiceError)).

(** An iteration once a frame of [frame_len] bytes lies at the front of [tail], the buffer
    after its header part, and a chain was popped for it. *)
Definition deliver_frame (continue : Loop) (frame_len : nat) (chain : DescriptorChain) (report : ServiceReport)
    (tail : bytes) (t : MmioTransport (NetDevice B)) (mem : M)
    : option (MmioTransport (NetDevice B) * M * Result ServiceReport ServiceError) :=
  let total := (VIRTIO_NET_HDR_LEN + frame_len)%nat in
  let fits := (chain_readable_len chain =? 0) && (chain_writable_len chain >=? Z.of_nat total) in
  let '(t, mem, used) :=
    if fits then
      match write_writable mem chain 0 (take total (replicate VIRTIO_NET_HDR_LEN 0 ++ tail)) with
      | (mem, Ok written) =>
          if (written =? total)%nat
          then (t_set_device t (net_count_rx_ok (t_device t)), mem, Some (Z.min (Z.of_nat total) U32_MAX))
          else (t, mem, None)
      | (mem, Err _) => (t, mem, None)
      end
    else (t_set_device t (net_count_rx_dropped (t_device t)), mem, Some 0) in
  match used with
  | None => Some (set_needs_reset t, mem, Err (ServiceError_Fault DeviceFault_Protocol))
  | Some used =>
      let '(t, mem, completed) := complete_used NET_RX_QUEUE chain used t mem in
      match completed with
      | Err violation => Some (set_needs_reset t, mem, Err (ServiceError_Transport violation))
      | Ok notify =>
          continue (mkServiceReport (saturating_add U32_MAX (report_completed report) 1)
                      (report_rejected report) (report_interrupt report || notify)
                      (report_exhausted report)) tail t mem
      end
  end.

(** An iteration once a frame was received. *)
Definition place_frame (continue : Loop) (frame_len : nat) (ring : Queue) (report : ServiceReport)
    (tail : bytes) (t : MmioTransport (NetDevice B)) (mem : M)
    : option (MmioTransport (NetDevice B) * M * Result ServiceReport ServiceError) :=
  if negb (rx_frame_ok frame_len)
  then continue report tail (t_set_device t (net_count_rx_dropped (t_device t))) mem
  else match pop_descriptor_chain mem RX_LIMITS ring with
  | None => None
  | Some (ring, popped) =>
      let t := set_ring t NET_RX_QUEUE ring in
      match popped with
      | Ok None => Some (t, mem, Ok report)
      | Ok (Some chain) => deliver_frame continue frame_len chain report tail t mem
      | Err (QueueViolation_Chain _ _) =>
          continue (mkServiceReport (report_completed report) (saturating_add U32_MAX (report_rejected report) 1)
                      (report_interrupt report) (report_exhausted report)) tail
            (t_set_device t (net_count_rx_dropped (t_device t))) mem
      | Err violation => Some (set_needs_reset t, mem, Err (ServiceError_Queue violation))
      end
  end.

Fixpoint net_deliver_loop (remaining : nat) (report : ServiceReport) (tail : bytes)
    (t : MmioTransport (NetDevice B)) (mem : M)
    : option (MmioTransport (NetDevice B) * M * Result ServiceReport ServiceError) :=
  match remaining with
  | O => Some (t, mem, Ok (mkServiceReport (report_completed report) (report_rejected report)
                             (report_interrupt report) true))
  | S remaining =>
      match t_queues t !! Z.to_nat NET_RX_QUEUE with
      | None => Some (t, mem, Err (ServiceError_Transport (TransportViolation_NotifyOutOfRange NET_RX_QUEUE)))
      | Some ring =>
          if negb (nd_link_up (t_device t)) then Some (t, mem, Ok report)
          else
            let '(ring, available) := pending mem ring in
            let t := set_ring t NET_RX_QUEUE ring in
            match available with
            | Err violation => Some (set_needs_reset t, mem, Err (ServiceError_Queue violation))
            | Ok n =>
                if n =? 0 then Some (t, mem, Ok report)
                else
                  let '(device, tail, received) := receive_frame (t_device t) tail in
                  let t := t_set_device t device in
                  match received with
                  | Err _ => Some (set_needs_reset t, mem, Err (ServiceError_Fault DeviceFault_Backend))
                  | Ok None => Some (t, mem, Ok report)
                  | Ok (Some frame_len) =>
                      place_frame (net_deliver_loop remaining) frame_len ring report tail t mem
                  end
            end
      end
  end.

Definition net_deliver_rx (t : MmioTransport (NetDevice B)) (mem : M) (budget : Z)
    : option (MmioTransport (NetDevice B) * M * Result ServiceReport ServiceError) :=
  if negb (is_active t)
  then Some (t, mem, Err (ServiceError_Transport TransportViolation_NotifyBeforeDriverOk))
  else net_deliver_loop (Z.to_nat budget) service_report_default (replicate (MAX_FRAME_LEN + 1) 0) t mem.
End rx.
