(* ===== verification/NetProps.v ===== *)
(** Properties of the network device: which frames leave the guest, what delivery does, the
    link gate and the snapshot record. *)

From S2P Require Import Prelude Bytes GuestMemory QueueChain Virtqueue VirtqueueFacts Transport TransportFacts TransportProps Segments Service Net.
From stdpp Require Import options.

(** * What an endpoint promises: the buffer it is lent stays a buffer of that length *)

Class NetBackendLaws (B : Type) `{NetBackend B} : Type := {
  endpoint_inv : B -> Prop;
  transmit_inv b frame : endpoint_inv b -> all_bytes frame -> endpoint_inv (transmit b frame).1;
  receive_buffer b buf b' buf' r :
    endpoint_inv b -> all_bytes buf -> receive b buf = (b', buf', r) ->
    endpoint_inv b' /\ length buf' = length buf /\ all_bytes buf';
}.

Class TapFileLaws (F : Type) `{TapFile F} : Prop := {
  tap_read_buffer f buf f' buf' r :
    all_bytes buf -> tap_read f buf = (f', buf', r) -> length buf' = length buf /\ all_bytes buf';
}.

Lemma tap_receive_buffer {F} `{TapFileLaws F} (b : TapBackend F) buf b' buf' r :
  True -> all_bytes buf -> receive b buf = (b', buf', r) -> True /\ length buf' = length buf /\ all_bytes buf'.
Proof.
  intros _ Hb. simpl. unfold tap_receive.
  destruct (tap_read (tap_file b) buf) as [[f1 buf1] r1] eqn:Hr. intros [= <- <- _].
  split; [done | ]. by eapply tap_read_buffer.
Qed.

#[export] Instance TapBackend_laws {F} `{TapFileLaws F} : NetBackendLaws (TapBackend F) := {|
  endpoint_inv _ := True;
  transmit_inv _ _ _ _ := I;
  receive_buffer := tap_receive_buffer;
|}.

(** Frames waiting in a loopback endpoint are bytes. *)
Definition loopback_inv (b : LoopbackBackend) : Prop := Forall all_bytes (lb_inbound b).

Lemma loopback_push_inv b frame : loopback_inv b -> all_bytes frame -> loopback_inv (loopback_push_inbound b frame).
Proof.
  intros Hb Hf. unfold loopback_push_inbound. destruct (_ <? _)%nat; [ | done].
  apply Forall_app. split; [done | by apply Forall_singleton].
Qed.

Lemma loopback_transmit_inv b frame :
  loopback_inv b -> all_bytes frame -> loopback_inv (transmit b frame).1.
Proof.
  intros Hb Hf. simpl. unfold loopback_transmit. destruct (lb_fail b); [done | ]. simpl.
  destruct (_ <? _)%nat; simpl; destruct (lb_echo b); by apply loopback_push_inv || done.
Qed.

Lemma loopback_receive_buffer b buf b' buf' r :
  loopback_inv b -> all_bytes buf -> receive b buf = (b', buf', r) ->
  loopback_inv b' /\ length buf' = length buf /\ all_bytes buf'.
Proof.
  intros Hb Hbuf. simpl. unfold loopback_receive. destruct (lb_fail b); [by intros [= <- <- _] | ].
  unfold loopback_inv in Hb. destruct (lb_inbound b) as [ | frame rest] eqn:Hin.
  { intros [= <- <- _]. unfold loopback_inv. by rewrite Hin. }
  apply Forall_cons in Hb as [Hf Hrest]. intros [= <- <- _]. split; [done | ]. split.
  - rewrite length_app, length_take, length_drop. lia.
  - apply Forall_app. split; [by apply Forall_take | by apply Forall_drop].
Qed.

#[export] Instance LoopbackBackend_laws : NetBackendLaws LoopbackBackend := {|
  endpoint_inv := loopback_inv;
  transmit_inv := loopback_transmit_inv;
  receive_buffer := loopback_receive_buffer;
|}.

(** * Frames that leave the guest *)

Definition frame_chain {M} `{GuestMemoryLaws M} (mem : M) (chain : DescriptorChain) (frame : bytes) : Prop :=
  chain_writable chain = [] /\ readable_bytes mem chain = replicate VIRTIO_NET_HDR_LEN 0 ++ frame /\
  (MIN_FRAME_LEN <= length frame <= MAX_FRAME_LEN)%nat.

Section tx.
Context {M : Type} `{GuestMemoryLaws M}.

Lemma validate_tx_accepts (mem : M) queue_size limits chain n :
  mem_wf mem -> chain_safe mem queue_size limits chain ->
  validate_tx mem chain = Ok n <-> exists frame, frame_chain mem chain frame /\ n = length frame.
Proof.
  intros Hwf Hsafe. destruct (readable_bytes_ok _ _ _ _ Hwf Hsafe) as [Hb Hl].
  destruct (chain_safe_segments _ _ _ _ Hsafe) as [_ Hw].
  pose proof Hsafe as (_ & _ & _ & _ & _ & Hcap & _). unfold validate_tx, frame_chain.
  destruct (segment_total_zero _ _ Hw) as [_ Hempty]. rewrite <- Hcap in Hempty.
  destruct (Z.eqb_spec (chain_writable_len chain) 0) as [Hz | Hz]; cbn [negb]; [ | naive_solver].
  rewrite <- Hl. cbv zeta. set (raw := readable_bytes mem chain) in *.
  assert (Hpre : forall frame, raw = replicate VIRTIO_NET_HDR_LEN 0 ++ frame ->
    length raw = (12 + length frame)%nat) by (intros frame ->; by rewrite length_app, length_replicate).
  unfold VIRTIO_NET_HDR_LEN, MIN_FRAME_LEN, MAX_FRAME_LEN in *.
  destruct (Z.ltb_spec (Z.of_nat (length raw)) (Z.of_nat (12 + 14))) as [Hs | Hs].
  { split; [done | ]. intros (frame & (_ & Hf & Hn & _) & _). apply Hpre in Hf. lia. }
  destruct (Z.gtb_spec (Z.of_nat (length raw)) (Z.of_nat (12 + 1514))) as [Hg | Hg].
  { split; [done | ]. intros (frame & (_ & Hf & _ & Hn) & _). apply Hpre in Hf. lia. }
  change 0 with (Z.of_nat 0) at 1.
  rewrite (read_readable_exact mem queue_size limits chain 0 12 Hwf Hsafe) by (fold raw; lia).
  cbn [map_err]. rewrite drop_0. fold raw.
  case_bool_decide as Hh; cbn [negb].
  - split.
    + intros [= <-]. exists (drop 12 raw). rewrite <- Hh, take_drop, length_drop.
      split_and!; [by apply Hempty | done | lia | lia | lia].
    + intros (frame & (_ & Hf & _) & ->). apply Hpre in Hf. f_equal. lia.
  - split; [done | ]. intros (frame & (_ & Hf & _) & _). destruct Hh. rewrite Hf.
    by rewrite take_app_length' by (by rewrite length_replicate).
Qed.
End tx.

(** * The device over the service loop *)

Section device.
Context {B : Type} `{NetBackendLaws B}.

Definition net_ok (d : NetDevice B) : Prop :=
  endpoint_inv (nd_backend d) /\ length (nd_mac d) = 6%nat /\ all_bytes (nd_mac d).

#[export] Instance NetDevice_laws : VirtioDeviceLaws (NetDevice B).
Proof.
  split; try done. intros d. by repeat constructor.
Qed.

Section serve.
Context {M : Type} `{GuestMemoryLaws M}.

(** What the device does with a transmit chain: the frame of a valid one goes to the
    endpoint while the link is up, anything else is dropped. *)
Definition net_sent (d : NetDevice B) (chain : DescriptorChain) (mem : M)
    (out : NetDevice B * M * Result Z DeviceFault) : Prop :=
  (exists frame, frame_chain mem chain frame /\ nd_link_up d = true /\
     out = (match transmit (nd_backend d) frame with
            | (backend, Ok _) => count_tx_ok (nd_set_backend d backend)
            | (backend, Err _) => drop_tx (nd_set_backend d backend)
            end, mem, Ok 0)) \/
  ((nd_link_up d = false \/ forall frame, ~ frame_chain mem chain frame) /\ out = (drop_tx d, mem, Ok 0)).

Lemma net_handles (d : NetDevice B) (mem : M) queue_size limits chain :
  mem_wf mem -> chain_safe mem queue_size limits chain ->
  net_sent d chain mem (handle_chain d NET_TX_QUEUE chain mem).
Proof.
  intros Hwf Hsafe. pose proof (validate_tx_accepts mem queue_size limits chain) as Hv.
  cbn [handle_chain NetDevice_ChainHandler]. unfold net_handle_chain. cbn [NET_TX_QUEUE Z.eqb Pos.eqb negb].
  destruct (validate_tx mem chain) as [n | e].
  - destruct (proj1 (Hv n Hwf Hsafe) eq_refl) as (frame & Hf & ->).
    destruct (nd_link_up d) eqn:Hup; cbn [negb]; [ | right; by split; [left | ]].
    left. exists frame. split; [done | ]. split; [done | ]. pose proof Hf as (_ & Hraw & _).
    rewrite (read_readable_exact mem queue_size limits chain VIRTIO_NET_HDR_LEN (length frame) Hwf Hsafe)
      by (rewrite Hraw, length_app, length_replicate; lia).
    rewrite Hraw, drop_app_length' by (by rewrite length_replicate). rewrite take_ge by lia.
    rewrite Nat.eqb_refl. cbn [negb]. by destruct (transmit (nd_backend d) frame) as [backend [u | err]].
  - right. split; [ | done]. right. intros frame Hf.
    by pose proof (proj2 (Hv (length frame) Hwf Hsafe) (ex_intro _ frame (conj Hf eq_refl))).
Qed.

Lemma frame_bytes (mem : M) queue_size limits chain frame :
  mem_wf mem -> chain_safe mem queue_size limits chain -> frame_chain mem chain frame -> all_bytes frame.
Proof.
  intros Hwf Hsafe (_ & Hraw & _). destruct (readable_bytes_ok _ _ _ _ Hwf Hsafe) as [Hb _].
  rewrite Hraw in Hb. by apply Forall_app in Hb as [_ Hb].
Qed.

Lemma net_handle_ok (d : NetDevice B) queue queue_size chain (mem : M) :
  mem_wf mem -> net_ok d -> chain_safe mem queue_size (chain_limits d queue) chain ->
  let '(d', mem', r) := handle_chain d queue chain mem in
  same_limits d d' /\ net_ok d' /\ mem_wf mem' /\ mem_regions mem' = mem_regions mem /\
  (forall len, r = Ok len -> is_u32 len).
Proof.
  intros Hwf Hd Hsafe. destruct (Z.eqb_spec queue NET_TX_QUEUE) as [-> | Hq].
  - destruct (net_handles d mem _ _ chain Hwf Hsafe) as [(frame & Hf & _ & ->) | [_ ->]].
    + pose proof (transmit_inv (nd_backend d) frame (proj1 Hd) (frame_bytes _ _ _ _ _ Hwf Hsafe Hf)) as Hinv.
      destruct (transmit (nd_backend d) frame) as [backend [u | err]]; simpl in Hinv;
        (split; [done | ]; split; [by split; [ | apply Hd] | ]; split; [done | ]; split; [done | ];
         by intros len [= <-]).
    + split; [done | ]. split; [done | ]. split; [done | ]. split; [done | ]. by intros len [= <-].
  - cbn [handle_chain NetDevice_ChainHandler]. unfold net_handle_chain.
    destruct (Z.eqb_spec queue NET_TX_QUEUE); [done | ]. by cbn [negb].
Qed.
End serve.

Lemma net_limits_wf queue : wf_limits (net_chain_limits queue).
Proof. unfold net_chain_limits. destruct (_ =? _); by vm_compute. Qed.

#[export] Instance NetDevice_handler_laws : ChainHandlerLaws (NetDevice B) := {|
  device_inv := net_ok;
  chain_limits_wf _ queue := net_limits_wf queue;
  handle_chain_ok _ _ _ := net_handle_ok;
|}.
End device.

(** What the network device promises: exactly the guest's valid frames leave while the link
    is up, delivery is bounded and accounted for, the gate holds, and a restore brings the
    link down. *)

(** * Delivery *)

Section deliver.
Context {B : Type} `{NetBackendLaws B} {M : Type} `{GuestMemoryLaws M}.

(** The receive buffer after its header part. *)
Definition tail_ok (tail : bytes) : Prop := length tail = (MAX_FRAME_LEN + 1)%nat /\ all_bytes tail.

Definition any_done (_ : ServiceReport) (_ : Queue) (_ : M) : Prop := True.
Definition any_report (_ : ServiceReport) : Prop := True.

(** The errors delivery may stop with: the ring's, the transport's, and an endpoint that
    failed. *)
Definition backend_only (e : ServiceError) : Prop :=
  match e with ServiceError_Fault fault => fault = DeviceFault_Backend | _ => True end.

Abbreviation net_pass_ok := (pass_ok (D:=NetDevice B) (M:=M) net_ok any_done backend_only).
Abbreviation net_passes n tail :=
  (passes (D:=NetDevice B) (M:=M) net_ok any_done backend_only n
     (fun report => net_deliver_loop n report tail) NET_RX_QUEUE any_report).

Lemma receive_frame_ok (d d' : NetDevice B) tail tail' r :
  net_ok d -> tail_ok tail -> receive_frame d tail = (d', tail', r) -> net_ok d' /\ tail_ok tail'.
Proof.
  intros (Hinv & Hmac) [Hl Hb]. unfold receive_frame.
  destruct (receive (nd_backend d) tail) as [[b tail1] r1] eqn:Hr. intros [= <- <- _].
  destruct (receive_buffer _ _ _ _ _ Hinv Hb Hr) as (Hinv' & Hl' & Hb'). split; [done | ]. by split; [congruence | ].
Qed.

(** The bytes put before a frame are zero and the frame is what was received. *)
Lemma frame_image frame_len tail :
  tail_ok tail -> (frame_len <= MAX_FRAME_LEN)%nat ->
  take (VIRTIO_NET_HDR_LEN + frame_len) (replicate VIRTIO_NET_HDR_LEN 0 ++ tail) =
    replicate VIRTIO_NET_HDR_LEN 0 ++ take frame_len tail /\
  all_bytes (replicate VIRTIO_NET_HDR_LEN 0 ++ take frame_len tail) /\
  length (replicate VIRTIO_NET_HDR_LEN 0 ++ take frame_len tail) = (VIRTIO_NET_HDR_LEN + frame_len)%nat.
Proof.
  intros [Hl Hb] Hle. split.
  - rewrite take_app, length_replicate, take_ge by (rewrite length_replicate; lia).
    by rewrite Nat.add_comm, Nat.add_sub.
  - split; [apply Forall_app; split; [by apply Forall_replicate | by apply Forall_take] | ].
    rewrite length_app, length_replicate, length_take. lia.
Qed.

Lemma deliver_frame_pass n report q q1 l chain frame_len tail (t t1 : MmioTransport (NetDevice B)) (mem : M) :
  net_passes n tail -> tail_ok tail -> (frame_len <= MAX_FRAME_LEN)%nat -> system_ok (t, mem) ->
  rtc tstep (t, mem) (t1, mem) -> t_queues t1 = <[Z.to_nat NET_RX_QUEUE := q1]> (t_queues t) ->
  t_status t1 = t_status t -> net_ok (t_device t1) -> room report (S n) ->
  t_queues t !! Z.to_nat NET_RX_QUEUE = Some q -> advanced q q1 1 0 -> q_layout q1 = Some l ->
  chain_safe mem (layout_size l) RX_LIMITS chain ->
  exists out, deliver_frame (net_deliver_loop n) frame_len chain report tail t1 mem = Some out /\
    net_pass_ok NET_RX_QUEUE (S n) report q t mem out.
Proof using Type*.
  intros Hnext Htail Hlen Hok Hrun1 Hqs Hst Hinv Hroom Hi Hadv Hl1 Hsafe. unfold deliver_frame. cbv zeta.
  destruct (chain_safe_segments _ _ _ _ Hsafe) as [_ Hw]. pose proof Hsafe as (_ & _ & _ & _ & _ & Hcap & _).
  assert (Hpublish : forall d' mem' used, net_ok d' -> mem_wf mem' -> mem_regions mem' = mem_regions mem ->
    same_limits (t_device t1) d' -> 0 <= used -> exists out,
      (let '(t2, mem2, completed) := complete_used NET_RX_QUEUE chain used (t_set_device t1 d') mem' in
       match completed with
       | Err violation => Some (set_needs_reset t2, mem2, Err (ServiceError_Transport violation))
       | Ok notify => net_deliver_loop n (completed_one report notify) tail t2 mem2
       end) = Some out /\ net_pass_ok NET_RX_QUEUE (S n) report q t mem out).
  { intros d' mem' used Hd' Hwf' Hr' [Ha Hm] Hused.
    apply (publish_pass net_ok any_done backend_only n (fun report => net_deliver_loop n report tail) NET_RX_QUEUE
      any_report report q q1 l chain used t (t_set_device t1 d') mem mem'); try done.
    - eapply rtc_r; [eapply rtc_r; [exact Hrun1 | by apply (tstep_device t1 mem d')] | by apply tstep_guest].
    - simpl. rewrite Hqs. apply list_lookup_insert_eq. by eapply lookup_lt_Some. }
  destruct ((chain_readable_len chain =? 0) && _) eqn:Hfits; [ | by apply Hpublish; [ | apply Hok | | | ]].
  destruct (frame_image frame_len tail Htail Hlen) as (-> & Hall & Hil).
  destruct (write_writable_scatters mem chain 0 (replicate VIRTIO_NET_HDR_LEN 0 ++ take frame_len tail)
    (proj1 Hok) Hw ltac:(lia) Hall) as (mem' & -> & Hwf' & Hr' & _).
  pose proof (length_window _ _ 0 (length (replicate VIRTIO_NET_HDR_LEN 0 ++ take frame_len tail)) Hw ltac:(lia)) as Hwin.
  apply andb_true_iff in Hfits as [_ Hge]. apply Z.geb_le in Hge. rewrite Hil in *. rewrite <- Hcap in Hwin.
  destruct (Nat.eqb_spec (length (window (chain_writable chain) 0 (VIRTIO_NET_HDR_LEN + frame_len)))
    (VIRTIO_NET_HDR_LEN + frame_len)) as [_ | Hne]; [ | lia].
  apply Hpublish; try done. unfold U32_MAX. lia.
Qed.

Lemma place_frame_pass n report q frame_len tail (t t1 : MmioTransport (NetDevice B)) (mem : M) :
  net_passes n tail -> tail_ok tail -> system_ok (t, mem) -> rtc tstep (t, mem) (t1, mem) ->
  t_queues t1 = t_queues t -> t_status t1 = t_status t -> net_ok (t_device t1) -> room report (S n) ->
  t_queues t !! Z.to_nat NET_RX_QUEUE = Some q ->
  exists out, place_frame (net_deliver_loop n) frame_len q report tail t1 mem = Some out /\
    net_pass_ok NET_RX_QUEUE (S n) report q t mem out.
Proof using Type*.
  intros Hnext Htail Hok Hrun Hqs Hst Hinv Hroom Hi. unfold place_frame.
  destruct (tsteps_ok _ _ Hrun Hok) as [Hwf Ht1]. simpl in Hwf, Ht1. rewrite <- Hqs in Hi.
  pose proof (proj1 (transport_queue_ok _ _ _ _ Ht1 Hi)) as Hq.
  destruct (rx_frame_ok frame_len) eqn:Hrx; cbn [negb].
  2: { set (t2 := t_set_device t1 (net_count_rx_dropped (t_device t1))).
    assert (Hrun2 : rtc tstep (t, mem) (t2, mem)) by (eapply rtc_r; [exact Hrun | by apply tstep_device]).
    destruct (Hnext report q t2 mem) as (out & Hout & Hpass); try done.
    { destruct Hroom as (? & ? & ? & ?). split; [done | lia]. }
    exists out. split; [done | ]. by eapply (pass_skip _ _ _ _ _ _ _ _ t2). }
  apply andb_true_iff in Hrx as [_ Hle]. apply Nat.leb_le in Hle.
  assert (Hlim : wf_limits RX_LIMITS) by (by vm_compute).
  destruct (pop_accounts mem RX_LIMITS q Hwf Hq Hlim) as (q1 & r & Hpop & Hacc). rewrite Hpop.
  assert (Hrun1 : rtc tstep (t, mem) (set_ring t1 NET_RX_QUEUE q1, mem))
    by (eapply rtc_r; [exact Hrun | by eapply tstep_pop]).
  destruct r as [[chain | ] | e].
  - destruct Hacc as (Hadv & l & Hl & Hsafe).
    eapply (deliver_frame_pass n report q q1 l); try done; [by rewrite <- Hqs | by rewrite <- Hqs | ].
    by destruct Hadv as ((_ & _ & _ & _ & _ & -> & _) & _).
  - destruct Hacc as (-> & _). rewrite set_ring_same by done. eexists. split; [done | ].
    eapply (pass_skip _ _ _ _ _ _ _ _ t1); [exact Hrun | done | done | ].
    by apply pass_idle; [by eapply tsteps_ok | done..].
  - assert (Hstop : exists out, Some (set_needs_reset (set_ring t1 NET_RX_QUEUE q1), mem, Err (ServiceError_Queue e)) =
      Some out /\ net_pass_ok NET_RX_QUEUE (S n) report q t mem out)
      by (eexists; split; [done | by apply pass_stops]).
    destruct e; try exact Hstop.
    set (t2 := t_set_device (set_ring t1 NET_RX_QUEUE q1) (net_count_rx_dropped (t_device t1))).
    assert (Hrun2 : rtc tstep (t, mem) (t2, mem)) by (eapply rtc_r; [exact Hrun1 | by apply tstep_device]).
    destruct (room_next report n false Hroom) as (_ & Hroom1 & _ & Hr).
    assert (Hi2 : t_queues t2 !! Z.to_nat NET_RX_QUEUE = Some q1)
      by (apply list_lookup_insert_eq; by eapply lookup_lt_Some).
    destruct (Hnext (rejected_one report) q1 t2 mem) as (out & Hout & Hpass); try done; [by eapply tsteps_ok | ].
    exists out. split; [exact Hout | ].
    eapply (pass_step _ _ _ _ _ _ _ _ q1 0 t t2); [exact Hrun2 | simpl; by rewrite Hqs | done | done | done | | | exact Hpass];
      simpl in *; lia.
Qed.

Lemma net_deliver_pass_loop n : forall tail, tail_ok tail -> net_passes n tail.
Proof using Type*.
  induction n as [ | n IH]; intros tail Htail report q t mem Hok Hi Hinv Hroom _.
  { eexists. split; [done | ]. by apply pass_idle. }
  pose proof Hok as [Hwf Ht]. pose proof (proj1 (transport_queue_ok _ _ _ _ Ht Hi)) as Hq.
  assert (Hidle : net_pass_ok NET_RX_QUEUE (S n) report q t mem (t, mem, Ok report)) by (by apply pass_idle).
  cbn [net_deliver_loop]. rewrite Hi. destruct (nd_link_up (t_device t)); cbn [negb]; [ | by eexists].
  assert (Hrun0 : rtc tstep (t, mem) (set_ring t NET_RX_QUEUE (pending mem q).1, mem))
    by (by apply rtc_once, tstep_pending).
  destruct (pending mem q) as [q0 [available | v]] eqn:Hp; simpl in Hrun0;
    [ | by eexists; split; [ | apply pass_stops]].
  apply pending_keeps in Hp as ->; [ | done | done]. rewrite set_ring_same by done.
  destruct (available =? 0); [by eexists | ].
  destruct (receive_frame (t_device t) tail) as [[d' tail'] received] eqn:Hrecv.
  destruct (receive_frame_ok _ _ _ _ _ Hinv Htail Hrecv) as [Hd' Htail'].
  assert (Hrun1 : rtc tstep (t, mem) (t_set_device t d', mem)) by (by apply rtc_once, tstep_device).
  destruct received as [[frame_len | ] | ].
  - apply (place_frame_pass n report q frame_len tail' t (t_set_device t d')); try done. by apply IH.
  - eexists. split; [done | ]. eapply (pass_skip _ _ _ _ _ _ _ _ (t_set_device t d')); [exact Hrun1 | done | done | ].
    by apply pass_idle; [by eapply tsteps_ok | done..].
  - eexists. split; [done | ]. by apply pass_stops.
Qed.
End deliver.

(** What leaves the guest is exactly what it asked to send, and only through an open
    link: a transmit chain never faults the device, its frame reaches the endpoint iff the
    chain is all readable, its first 12 bytes are zero and 14 to 1514 bytes follow, and
    the link is up; the endpoint then gets exactly those bytes, once.  Anything else is
    dropped and counted without the endpoint being called, and guest memory is never
    written. *)
Theorem net_tx_exact {B} `{NetBackendLaws B} {M} `{GuestMemoryLaws M} (d : NetDevice B) (mem : M) queue_size chain :
  mem_wf mem -> chain_safe mem queue_size (chain_limits d NET_TX_QUEUE) chain ->
  net_sent d chain mem (handle_chain d NET_TX_QUEUE chain mem).
Proof. apply net_handles. Qed.

Lemma net_deliver_run {B} `{NetBackendLaws B} {M} `{GuestMemoryLaws M} (t : MmioTransport (NetDevice B)) (mem : M) q budget :
  system_ok (t, mem) -> is_active t = true -> net_ok (t_device t) -> is_u32 budget ->
  t_queues t !! Z.to_nat NET_RX_QUEUE = Some q ->
  exists out, net_deliver_rx t mem budget = Some out /\ system_ok out.1 /\
    pass_ok net_ok any_done backend_only NET_RX_QUEUE (Z.to_nat budget) service_report_default q t mem out.
Proof.
  intros Hok Ha Hinv Hb Hi. unfold net_deliver_rx. rewrite Ha. cbn [negb]. unfold is_uint in Hb.
  assert (Htail : tail_ok (replicate (MAX_FRAME_LEN + 1) 0)).
  { split; [by rewrite length_replicate | by apply Forall_replicate]. }
  destruct (net_deliver_pass_loop (Z.to_nat budget) _ Htail service_report_default q t mem)
    as (out & Hout & Hpass); try done.
  { unfold room, U32_MAX. simpl. split_and!; [done | lia..]. }
  exists out. split; [done | ]. split; [ | done]. destruct out as [[t' mem'] r].
  destruct Hpass as [Hrun _]. by apply (tsteps_ok _ _ Hrun).
Qed.

(** Delivery of received frames always ends within its budget and accounts for every
    buffer it took, on an active transport and for every endpoint: completed plus rejected
    heads are the movement of the available cursor, completed ones that of the used
    cursor, at most [budget] in all, no other queue or status bit changes, and a pass that
    stops early leaves the device marked [DEVICE_NEEDS_RESET] with no ready queue, never
    because of a frame that did not fit.  The transport's and the device's invariants are
    kept. *)
Theorem net_deliver_pass {B} `{NetBackendLaws B} {M} `{GuestMemoryLaws M} (t : MmioTransport (NetDevice B)) (mem : M) q budget :
  system_ok (t, mem) -> is_active t = true -> net_ok (t_device t) -> is_u32 budget ->
  t_queues t !! Z.to_nat NET_RX_QUEUE = Some q ->
  exists out, net_deliver_rx t mem budget = Some out /\ system_ok out.1 /\
    pass_ok net_ok any_done backend_only NET_RX_QUEUE (Z.to_nat budget) service_report_default q t mem out.
Proof. apply net_deliver_run. Qed.

(** * The link gate *)

Section gate.
Context {B : Type} `{NetBackend B}.

(** Everything that happens to a device short of the host raising the link or attaching
    another endpoint. *)
Inductive nstep : NetDevice B -> NetDevice B -> Prop :=
| nstep_chain {M : Type} `{GuestMemory M} d queue chain (mem : M) : nstep d (handle_chain d queue chain mem).1.1
| nstep_deliver {M : Type} `{GuestMemory M} t (mem : M) budget t' mem' r :
    net_deliver_rx t mem budget = Some (t', mem', r) -> nstep (t_device t) (t_device t')
| nstep_activate d features : nstep d (device_activate d features).1
| nstep_reset d : nstep d (device_reset d)
| nstep_write_config d offset data : nstep d (device_write_config d offset data).1
| nstep_restore d raw : nstep d (device_restore_state d raw).1
| nstep_set_mac d mac : nstep d (set_mac d mac)
| nstep_link_down d : nstep d (set_link d false).

Definition gated (d d' : NetDevice B) : Prop := nd_link_up d' = false /\ nd_backend d' = nd_backend d.

Lemma gated_chain {M} `{GuestMemory M} d queue chain (mem : M) :
  nd_link_up d = false -> gated d (handle_chain d queue chain mem).1.1.
Proof.
  intros Hd. cbn [handle_chain NetDevice_ChainHandler]. unfold net_handle_chain.
  destruct (negb _); [done | ]. destruct (validate_tx mem chain); [ | done]. by rewrite Hd.
Qed.

Lemma gated_deliver {M} `{GuestMemory M} t (mem : M) budget t' mem' r :
  nd_link_up (t_device t) = false -> net_deliver_rx t mem budget = Some (t', mem', r) ->
  gated (t_device t) (t_device t').
Proof.
  intros Hd. unfold net_deliver_rx. destruct (negb (is_active t)); [by intros [= <- _ _] | ].
  destruct (Z.to_nat budget) as [ | n]; cbn [net_deliver_loop]; [by intros [= <- _ _] | ].
  destruct (t_queues t !! _); [ | by intros [= <- _ _]]. rewrite Hd. by intros [= <- _ _].
Qed.

Lemma gated_restore d raw : nd_link_up d = false -> gated d (device_restore_state d raw).1.
Proof.
  intros Hd. simpl. unfold net_restore_state. destruct (net_state_from_bytes raw) as [s | ]; [ | done].
  unfold net_state_apply. by destruct (_ || _).
Qed.

Lemma nstep_gated d d' : nstep d d' -> nd_link_up d = false -> gated d d'.
Proof.
  intros Hstep Hd. destruct Hstep as [M ? d queue chain mem | M ? t mem budget t' mem' r Hr | d features | | | | | ];
    try done.
  - by apply gated_chain.
  - by eapply gated_deliver.
  - simpl. unfold net_activate. by destruct (negb _).
  - by apply gated_restore.
Qed.

(** While the link is down no traffic flows: whatever the guest submits and however often
    the device is served, asked to deliver, activated, reset or restored, over any memory
    and any chains, the host endpoint is not called, neither to send nor to receive, and
    the link stays down; only the host can raise it. *)
Theorem link_gate d d' : nd_link_up d = false -> rtc nstep d d' -> gated d d'.
Proof.
  intros Hd Hrun. induction Hrun as [ | d1 d2 d3 Hstep _ IH]; [done | ].
  destruct (nstep_gated _ _ Hstep Hd) as [Hd2 Hb2]. destruct (IH Hd2) as [Hd3 Hb3]. split; [done | congruence].
Qed.

(** A restore installs the recorded address with the link down, from exactly the records of
    devices whose link was down; a record taken with the link up is refused. *)
Theorem net_restore (d d0 : NetDevice B) :
  length (nd_mac d0) = 6%nat ->
  device_restore_state d (device_snapshot_state d0) =
    if nd_link_up d0 then (d, Err DeviceStateError_Incompatible)
    else (set_link (set_mac d (nd_mac d0)) false, Ok tt).
Proof.
  intros Hl. destruct d0 as [backend mac up activated counters]; simpl in *.
  destruct mac as [ | m1 [ | m2 [ | m3 [ | m4 [ | m5 [ | m6 [ | m7 mac]]]]]]]; try done.
  unfold net_restore_state. destruct up; reflexivity.
Qed.
End gate.

(** * A sample guest: a 14-byte frame at 0x20 *)

Definition frame_memory : VecGuestMemory :=
  mkVecGuestMemory [mkRegion 0 (descriptor_to_bytes (mkDescriptor 32 26 0 0) ++ repeat 0 16 ++ repeat 0 12 ++ repeat 6 14)].
Definition tx_chain : DescriptorChain := mkDescriptorChain 0 [mkChainSegment 32 26 false] 26 0.

Lemma frame_memory_wf : mem_wf frame_memory.
Proof. by vm_compute; repeat (split || constructor). Qed.

Definition quiet_endpoint : LoopbackBackend := mkLoopbackBackend [] [] false None.
Definition net_down : NetDevice LoopbackBackend := net_new quiet_endpoint (replicate 6 2).
Definition net_up : NetDevice LoopbackBackend := set_link net_down true.

Lemma net_tx_exact_witness :
  net_sent net_up tx_chain frame_memory (handle_chain net_up NET_TX_QUEUE tx_chain frame_memory) /\
  lb_sent (nd_backend (handle_chain net_up NET_TX_QUEUE tx_chain frame_memory).1.1) = [repeat 6 14].
Proof.
  split; [ | by vm_compute]. apply (net_tx_exact net_up frame_memory 2 tx_chain frame_memory_wf).
  eapply (walk_chain_safe frame_memory 0 2 0); [exact frame_memory_wf | by vm_compute..].
Defined.

Lemma link_gate_witness :
  gated net_down (handle_chain net_down NET_TX_QUEUE tx_chain frame_memory).1.1.
Proof. apply link_gate; [reflexivity | ]. apply rtc_once, nstep_chain. Defined.

(** A receiving device whose driver posted one four-byte buffer: the frame is dropped and
    the buffer returned. *)
Definition net_transport : MmioTransport (NetDevice LoopbackBackend) :=
  mkMmioTransport (set_link (net_new (mkLoopbackBackend [] [repeat 6 14] false None) (replicate 6 2)) true)
    [ring_queue_of 256;
     mkQueue 256 256 0 0 0 None false 0 0 queue_counters_default]
    15 0 0 VIRTIO_F_VERSION_1 0 0 0 (replicate TRANSPORT_KIND_COUNT 0).

Lemma net_transport_ok : system_ok (net_transport, ring_memory).
Proof.
  split; [exact ring_memory_wf | ]. unfold transport_ok; cbn [t_status t_driver_features t_queues fst snd].
  split_and!; [by apply status_okb_spec | by intros _; split | | done | by vm_compute..].
  apply Forall_cons. split; [ | apply Forall_singleton; split; [by apply (queue_new_ok _ 256) | done]].
  split; [apply (ring_queue_of_ok 256); by auto | done].
Qed.

Lemma net_deliver_pass_witness :
  exists out, net_deliver_rx net_transport ring_memory 4 = Some out /\
    out.2 = Ok (mkServiceReport 1 0 true false) /\ system_ok out.1.
Proof.
  destruct (net_deliver_pass net_transport ring_memory
    (ring_queue_of 256) 4 net_transport_ok eq_refl)
    as (out & Hout & Hok & _).
  - split; [by vm_compute; repeat constructor | ]. split; [done | by apply Forall_replicate].
  - by vm_compute.
  - reflexivity.
  - exists out. split; [exact Hout | ]. split; [ | exact Hok].
    vm_compute in Hout. injection Hout as <-. reflexivity.
Defined.
