(* ===== verification/VsockStream.v ===== *)
(** One vsock stream connection as the host keeps it
    ([crates/soma-kvm/src/virtio/devices/vsock/credit.rs], [vsock/connection.rs]): credit
    accounting modulo 2^32 and the bounded byte buffers of both directions. *)

From S2P Require Import Prelude Bytes.
From stdpp Require Import options.

(** * Credit ([credit.rs]) *)

Definition HOST_BUF_ALLOC : Z := 65536.

Inductive CreditError : Type :=
| CreditError_ImpossibleAccounting (buf_alloc fwd_cnt : Z)
| CreditError_Exceeded (len : Z).

Record Credit : Type := mkCredit {
  peer_buf_alloc : Z;
  peer_fwd_cnt : Z;
  tx_cnt : Z;
  rx_cnt : Z;
  fwd_cnt : Z
}.

Definition update_peer (c : Credit) (buf_alloc fwd : Z) : Result Credit CreditError :=
  let unconsumed := wrapping_sub32 (tx_cnt c) fwd in
  if unconsumed >? buf_alloc then Err (CreditError_ImpossibleAccounting buf_alloc fwd)
  else Ok (mkCredit buf_alloc fwd (tx_cnt c) (rx_cnt c) (fwd_cnt c)).

Definition credit_new (buf_alloc fwd : Z) : Result Credit CreditError :=
  update_peer (mkCredit 0 0 0 0 0) buf_alloc fwd.

Definition peer_free (c : Credit) : Z :=
  let unconsumed := wrapping_sub32 (tx_cnt c) (peer_fwd_cnt c) in
  saturating_sub (peer_buf_alloc c) unconsumed.

Definition credit_sent (c : Credit) (len : Z) : Credit :=
  mkCredit (peer_buf_alloc c) (peer_fwd_cnt c) (wrapping_add32 (tx_cnt c) len) (rx_cnt c) (fwd_cnt c).

Definition in_flight (c : Credit) : Z := wrapping_sub32 (rx_cnt c) (fwd_cnt c).

Definition accept_rx (c : Credit) (len : Z) : Result Credit CreditError :=
  match checked_add_u32 (in_flight c) len with
  | Some total =>
      if total <=? HOST_BUF_ALLOC
      then Ok (mkCredit (peer_buf_alloc c) (peer_fwd_cnt c) (tx_cnt c)
                 (wrapping_add32 (rx_cnt c) len) (fwd_cnt c))
      else Err (CreditError_Exceeded len)
  | None => Err (CreditError_Exceeded len)
  end.

Definition credit_consumed (c : Credit) (len : Z) : Credit :=
  mkCredit (peer_buf_alloc c) (peer_fwd_cnt c) (tx_cnt c) (rx_cnt c) (wrapping_add32 (fwd_cnt c) len).

Definition local_fields (c : Credit) : Z * Z := (HOST_BUF_ALLOC, fwd_cnt c).

(** * The endpoint ([connection.rs]) *)

Definition VSOCK_SHUTDOWN_RCV : Z := 1.
Definition VSOCK_SHUTDOWN_SEND : Z := 2.
Definition HOST_TX_BUFFER : Z := 65536.

Inductive HostShutdown : Type :=
| HostShutdown_None
| HostShutdown_Requested
| HostShutdown_Sent.

#[export] Instance HostShutdown_eq_dec : EqDecision HostShutdown.
Proof. solve_decision. Defined.

Record HostEndpoint : Type := mkHostEndpoint {
  ep_peer_port : Z;
  ep_generation : Z;
  ep_credit : Credit;
  ep_from_guest : bytes;
  ep_to_guest : bytes;
  ep_open : bool;
  ep_peer_shutdown : Z;
  ep_host_shutdown : HostShutdown;
  ep_credit_update_due : bool
}.

Definition endpoint_accept (peer_port generation buf_alloc fwd : Z) : Result HostEndpoint CreditError :=
  let? credit := credit_new buf_alloc fwd in
  Ok (mkHostEndpoint peer_port generation credit [] [] true 0 HostShutdown_None false).

(** [u32::try_from(n).unwrap_or(u32::MAX)] *)
Definition u32_or_max (n : nat) : Z := Z.min (Z.of_nat n) U32_MAX.

(** [read] into a buffer of [n] bytes: the bytes copied to its front. *)
Definition endpoint_read (e : HostEndpoint) (n : nat) : HostEndpoint * bytes :=
  let copied := take n (ep_from_guest e) in
  let rest := drop n (ep_from_guest e) in
  if (0 <? length copied)%nat then
    (mkHostEndpoint (ep_peer_port e) (ep_generation e)
       (credit_consumed (ep_credit e) (u32_or_max (length copied)))
       rest (ep_to_guest e) (ep_open e) (ep_peer_shutdown e) (ep_host_shutdown e) true, copied)
  else
    (mkHostEndpoint (ep_peer_port e) (ep_generation e) (ep_credit e) rest (ep_to_guest e) (ep_open e)
       (ep_peer_shutdown e) (ep_host_shutdown e) (ep_credit_update_due e), copied).

Definition set_to_guest (e : HostEndpoint) (credit : Credit) (to_guest : bytes) (due : bool) : HostEndpoint :=
  mkHostEndpoint (ep_peer_port e) (ep_generation e) credit (ep_from_guest e) to_guest (ep_open e)
    (ep_peer_shutdown e) (ep_host_shutdown e) due.

(** [write]: how many bytes were accepted. *)
Definition endpoint_write (e : HostEndpoint) (b : bytes) : HostEndpoint * nat :=
  if negb (ep_open e) || negb (Z.land (ep_peer_shutdown e) VSOCK_SHUTDOWN_RCV =? 0)
     || bool_decide (ep_host_shutdown e <> HostShutdown_None)
  then (e, 0%nat)
  else
    let room := Z.to_nat (saturating_sub HOST_TX_BUFFER (Z.of_nat (length (ep_to_guest e)))) in
    let taken := Nat.min (length b) room in
    (set_to_guest e (ep_credit e) (ep_to_guest e ++ take taken b) (ep_credit_update_due e), taken).

Definition set_host_shutdown (e : HostEndpoint) (s : HostShutdown) : HostEndpoint :=
  mkHostEndpoint (ep_peer_port e) (ep_generation e) (ep_credit e) (ep_from_guest e) (ep_to_guest e)
    (ep_open e) (ep_peer_shutdown e) s (ep_credit_update_due e).

Definition endpoint_shutdown (e : HostEndpoint) : HostEndpoint :=
  match ep_host_shutdown e with
  | HostShutdown_None => set_host_shutdown e HostShutdown_Requested
  | _ => e
  end.

Definition at_eof (e : HostEndpoint) : bool :=
  (negb (Z.land (ep_peer_shutdown e) VSOCK_SHUTDOWN_SEND =? 0) || negb (ep_open e))
  && (length (ep_from_guest e) =? 0)%nat.

Definition set_credit (e : HostEndpoint) (credit : Credit) : HostEndpoint :=
  set_to_guest e credit (ep_to_guest e) (ep_credit_update_due e).

Definition update_peer_credit (e : HostEndpoint) (buf_alloc fwd : Z) : Result HostEndpoint CreditError :=
  map_ok (set_credit e) (update_peer (ep_credit e) buf_alloc fwd).

Definition push_from_guest (e : HostEndpoint) (b : bytes) : Result HostEndpoint CreditError :=
  if Z.of_nat (length b) >? U32_MAX then Err (CreditError_Exceeded U32_MAX)
  else
    let? credit := accept_rx (ep_credit e) (Z.of_nat (length b)) in
    Ok (mkHostEndpoint (ep_peer_port e) (ep_generation e) credit (ep_from_guest e ++ b) (ep_to_guest e)
          (ep_open e) (ep_peer_shutdown e) (ep_host_shutdown e) (ep_credit_update_due e)).

Definition take_to_guest (e : HostEndpoint) (max : nat) : HostEndpoint * bytes :=
  let free := Z.to_nat (peer_free (ep_credit e)) in
  let taken := Nat.min (Nat.min max free) (length (ep_to_guest e)) in
  (set_to_guest e (credit_sent (ep_credit e) (u32_or_max taken)) (drop taken (ep_to_guest e)) false,
   take taken (ep_to_guest e)).

Definition can_send_data (e : HostEndpoint) : bool :=
  ep_open e && negb (length (ep_to_guest e) =? 0)%nat && (peer_free (ep_credit e) >? 0).

Definition clear_credit_update (e : HostEndpoint) : HostEndpoint :=
  set_to_guest e (ep_credit e) (ep_to_guest e) false.

Definition endpoint_peer_shutdown (e : HostEndpoint) (flags : Z) : HostEndpoint :=
  mkHostEndpoint (ep_peer_port e) (ep_generation e) (ep_credit e) (ep_from_guest e) (ep_to_guest e)
    (ep_open e)
    (Z.lor (ep_peer_shutdown e) (Z.land flags (Z.lor VSOCK_SHUTDOWN_RCV VSOCK_SHUTDOWN_SEND)))
    (ep_host_shutdown e) (ep_credit_update_due e).

Definition peer_fully_shut (e : HostEndpoint) : bool :=
  ep_peer_shutdown e =? Z.lor VSOCK_SHUTDOWN_RCV VSOCK_SHUTDOWN_SEND.

Definition shutdown_ready (e : HostEndpoint) : bool :=
  ep_open e && bool_decide (ep_host_shutdown e = HostShutdown_Requested)
  && (length (ep_to_guest e) =? 0)%nat.

Definition mark_shutdown_sent (e : HostEndpoint) : HostEndpoint := set_host_shutdown e HostShutdown_Sent.

Definition endpoint_close (e : HostEndpoint) : HostEndpoint :=
  mkHostEndpoint (ep_peer_port e) (ep_generation e) (ep_credit e) (ep_from_guest e) [] false
    (ep_peer_shutdown e) (ep_host_shutdown e) (ep_credit_update_due e).

(** * The connection invariant

    Counters keep their width; what the guest sent and the host has not read is exactly
    the credit in flight and fits the advertised window; what the host sent and the guest
    has not consumed fits the guest's window; the host's own buffer is bounded. *)

Definition credit_ok (c : Credit) : Prop :=
  is_u32 (peer_buf_alloc c) /\ is_u32 (peer_fwd_cnt c) /\ is_u32 (tx_cnt c) /\
  is_u32 (rx_cnt c) /\ is_u32 (fwd_cnt c) /\
  wrapping_sub32 (tx_cnt c) (peer_fwd_cnt c) <= peer_buf_alloc c.

Definition endpoint_ok (e : HostEndpoint) : Prop :=
  credit_ok (ep_credit e) /\
  in_flight (ep_credit e) = Z.of_nat (length (ep_from_guest e)) /\
  in_flight (ep_credit e) <= HOST_BUF_ALLOC /\
  Z.of_nat (length (ep_to_guest e)) <= HOST_TX_BUFFER /\
  all_bytes (ep_from_guest e) /\ all_bytes (ep_to_guest e) /\
  is_u32 (ep_peer_port e) /\ is_uint 2 (ep_peer_shutdown e) /\
  (ep_open e = false -> ep_to_guest e = []).

Lemma wrapping_add32_range x y : is_u32 (wrapping_add32 x y).
Proof. unfold wrapping_add32, is_uint. apply Z.mod_pos_bound. lia. Qed.

Lemma wrapping_sub32_range x y : is_u32 (wrapping_sub32 x y).
Proof. unfold wrapping_sub32, is_uint. apply Z.mod_pos_bound. lia. Qed.

(** Moving either end of a window that does not overflow. *)
Lemma wrapping_sub32_grow a b n :
  0 <= n -> wrapping_sub32 a b + n < 2 ^ 32 ->
  wrapping_sub32 (wrapping_add32 a n) b = wrapping_sub32 a b + n.
Proof.
  intros Hn Hlt. pose proof (wrapping_sub32_range a b) as Hr. unfold wrapping_sub32, wrapping_add32, is_uint in *.
  rewrite Zminus_mod_idemp_l. replace (a + n - b) with (a - b + n) by lia.
  rewrite <- Zplus_mod_idemp_l. apply Z.mod_small. lia.
Qed.

Lemma wrapping_sub32_shrink a b n :
  0 <= n <= wrapping_sub32 a b ->
  wrapping_sub32 a (wrapping_add32 b n) = wrapping_sub32 a b - n.
Proof.
  intros Hn. pose proof (wrapping_sub32_range a b) as Hr. unfold wrapping_sub32, wrapping_add32, is_uint in *.
  rewrite Zminus_mod_idemp_r. replace (a - (b + n)) with (a - b - n) by lia.
  rewrite <- Zminus_mod_idemp_l. apply Z.mod_small. lia.
Qed.

#[export] Hint Resolve wrapping_add32_range wrapping_sub32_range : soma.

Lemma u32_or_max_small n : Z.of_nat n < 2 ^ 32 -> u32_or_max n = Z.of_nat n.
Proof. unfold u32_or_max, U32_MAX. lia. Qed.

Lemma update_peer_ok c buf_alloc fwd c' :
  credit_ok c -> is_u32 buf_alloc -> is_u32 fwd -> update_peer c buf_alloc fwd = Ok c' ->
  credit_ok c' /\ rx_cnt c' = rx_cnt c /\ fwd_cnt c' = fwd_cnt c /\ tx_cnt c' = tx_cnt c.
Proof.
  intros (H1 & H2 & H3 & H4 & H5 & H6) Hb Hf. unfold update_peer.
  destruct (Z.gtb_spec (wrapping_sub32 (tx_cnt c) fwd) buf_alloc); [done | ]. intros [= <-].
  unfold credit_ok; simpl. by split_and!.
Qed.

Lemma accept_ok peer_port generation buf_alloc fwd e :
  is_u32 peer_port -> is_u32 buf_alloc -> is_u32 fwd ->
  endpoint_accept peer_port generation buf_alloc fwd = Ok e -> endpoint_ok e.
Proof.
  intros Hp Hb Hf. unfold endpoint_accept, credit_new.
  destruct (update_peer _ buf_alloc fwd) as [c | ] eqn:Hu; [ | done]. intros [= <-].
  assert (Hz : is_u32 0) by done.
  apply update_peer_ok in Hu as (Hc & Hr & Hfw & _); try done.
  unfold endpoint_ok, in_flight; simpl. rewrite Hr, Hfw. split_and!; try done; by constructor.
Qed.

Lemma endpoint_read_ok e n :
  endpoint_ok e ->
  endpoint_ok (endpoint_read e n).1 /\
  ep_from_guest e = (endpoint_read e n).2 ++ ep_from_guest (endpoint_read e n).1 /\
  ep_to_guest (endpoint_read e n).1 = ep_to_guest e /\
  length (endpoint_read e n).2 = Nat.min n (length (ep_from_guest e)).
Proof.
  intros (Hc & Hin & Hmax & Hto & Hbf & Hbt & Hp & Hs & Ho). unfold endpoint_read. cbv zeta.
  pose proof (length_take (ep_from_guest e) n) as Hlen.
  destruct (Nat.ltb_spec 0 (length (take n (ep_from_guest e)))); simpl.
  - split_and!; [ | by rewrite take_drop | done | lia].
    unfold endpoint_ok; simpl. destruct Hc as (H1 & H2 & H3 & H4 & H5 & H6). unfold HOST_BUF_ALLOC in *.
    rewrite u32_or_max_small by lia.
    assert (Hin' : in_flight (credit_consumed (ep_credit e) (Z.of_nat (length (take n (ep_from_guest e))))) =
      Z.of_nat (length (drop n (ep_from_guest e)))).
    { unfold in_flight in *; simpl. rewrite wrapping_sub32_shrink by lia. rewrite length_drop. lia. }
    rewrite Hin', length_drop. split_and!; try done; try lia.
    + unfold credit_ok; simpl. split_and!; try done. apply wrapping_add32_range.
    + by apply Forall_drop.
  - assert (Hd : drop n (ep_from_guest e) = ep_from_guest e).
    { destruct n as [ | n]; [done | ]. destruct (ep_from_guest e); [done | simpl in *; lia]. }
    rewrite Hd. split_and!; [by unfold endpoint_ok; split_and! | | done | lia].
    destruct (take n (ep_from_guest e)); [done | simpl in *; lia].
Qed.

Lemma endpoint_write_ok e b :
  endpoint_ok e -> all_bytes b ->
  endpoint_ok (endpoint_write e b).1 /\
  ep_to_guest (endpoint_write e b).1 = ep_to_guest e ++ take (endpoint_write e b).2 b /\
  ep_from_guest (endpoint_write e b).1 = ep_from_guest e /\
  ((endpoint_write e b).2 <= length b)%nat.
Proof.
  intros He Hb. unfold endpoint_write.
  destruct (_ || _ || _) eqn:Hclosed; simpl; [rewrite app_nil_r; split_and!; (done || lia) | ].
  destruct He as (Hc & Hin & Hmax & Hto & Hbf & Hbt & Hp & Hs & Ho).
  split_and!; [ | done | done | lia]. unfold endpoint_ok; simpl. split_and!; try done.
  - rewrite length_app, length_take. unfold saturating_sub, HOST_TX_BUFFER in *. lia.
  - apply Forall_app. split; [done | by apply Forall_take].
  - intros Hcl. rewrite Hcl in Hclosed. done.
Qed.

Lemma push_from_guest_ok e b e' :
  endpoint_ok e -> all_bytes b -> push_from_guest e b = Ok e' ->
  endpoint_ok e' /\ ep_from_guest e' = ep_from_guest e ++ b /\ ep_to_guest e' = ep_to_guest e /\
  ep_open e' = ep_open e /\ ep_peer_port e' = ep_peer_port e.
Proof.
  intros (Hc & Hin & Hmax & Hto & Hbf & Hbt & Hp & Hs & Ho) Hb. unfold push_from_guest, accept_rx.
  destruct (Z.gtb_spec (Z.of_nat (length b)) U32_MAX); [done | ]. unfold checked_add_u32.
  destruct (Z.leb_spec (in_flight (ep_credit e) + Z.of_nat (length b)) U32_MAX); [ | done].
  destruct (Z.leb_spec (in_flight (ep_credit e) + Z.of_nat (length b)) HOST_BUF_ALLOC); [ | done].
  intros [= <-]. simpl. split_and!; try done. unfold endpoint_ok, in_flight in *; simpl.
  unfold U32_MAX, HOST_BUF_ALLOC in *. rewrite wrapping_sub32_grow by lia.
  destruct Hc as (C1 & C2 & C3 & C4 & C5 & C6). split_and!; try done.
  - unfold credit_ok; simpl. split_and!; try done. apply wrapping_add32_range.
  - rewrite length_app. lia.
  - apply Forall_app. done.
Qed.

(** The host never sends more than the guest's window has free. *)
Lemma take_to_guest_ok e max :
  endpoint_ok e ->
  let out := take_to_guest e max in
  endpoint_ok out.1 /\ ep_to_guest e = out.2 ++ ep_to_guest out.1 /\
  ep_from_guest out.1 = ep_from_guest e /\ ep_open out.1 = ep_open e /\ ep_peer_port out.1 = ep_peer_port e /\
  (length out.2 <= max)%nat /\ Z.of_nat (length out.2) <= peer_free (ep_credit e) /\ all_bytes out.2.
Proof.
  intros (Hc & Hin & Hmax & Hto & Hbf & Hbt & Hp & Hs & Ho). unfold take_to_guest; simpl.
  set (taken := Nat.min (Nat.min max (Z.to_nat (peer_free (ep_credit e)))) (length (ep_to_guest e))).
  assert (Ht : (taken <= length (ep_to_guest e) /\ taken <= max /\ taken <= Z.to_nat (peer_free (ep_credit e)))%nat)
    by (unfold taken; lia). clearbody taken. unfold HOST_TX_BUFFER in *. destruct Hc as (H1 & H2 & H3 & H4 & H5 & H6).
  pose proof (wrapping_sub32_range (tx_cnt (ep_credit e)) (peer_fwd_cnt (ep_credit e))) as Hw.
  assert (Hf : peer_free (ep_credit e) = peer_buf_alloc (ep_credit e) -
    wrapping_sub32 (tx_cnt (ep_credit e)) (peer_fwd_cnt (ep_credit e))).
  { unfold peer_free, saturating_sub. lia. }
  rewrite u32_or_max_small by lia. rewrite length_take. split_and!; try done; try lia.
  - unfold endpoint_ok; simpl. split_and!; try done.
    + unfold credit_ok; simpl. split_and!; try done; [apply wrapping_add32_range | ].
      unfold is_uint in *. rewrite wrapping_sub32_grow by lia. lia.
    + rewrite length_drop. unfold HOST_TX_BUFFER. lia.
    + by apply Forall_drop.
    + intros Hcl. rewrite (Ho Hcl). apply drop_nil.
  - by rewrite take_drop.
  - by apply Forall_take.
Qed.
