(* ===== verification/Vsock.v ===== *)
(** The vsock device ([crates/soma-kvm/src/virtio/devices/vsock.rs], [vsock/packet.rs],
    [vsock/tx.rs], [vsock/outbound.rs], [vsock/state.rs]): packet headers and their
    validation, the single connection, what it sends and the snapshot record. *)

From S2P Require Import Prelude Bytes GuestMemory QueueChain Virtqueue Transport Segments Service VsockStream.
From stdpp Require Import options.

(** * Packets ([packet.rs]) *)

Definition VIRTIO_VSOCK_DEVICE_ID : Z := 19.
Definition HOST_CID : Z := 2.
Definition SOMA_CONTROL_PORT : Z := 0x534f4d41.
Definition VSOCK_HDR_LEN : nat := 44.
Definition MAX_PAYLOAD_LEN : Z := 65536.
Definition VSOCK_TYPE_STREAM : Z := 1.
Definition VSOCK_OP_REQUEST : Z := 1.
Definition VSOCK_OP_RESPONSE : Z := 2.
Definition VSOCK_OP_RST : Z := 3.
Definition VSOCK_OP_SHUTDOWN : Z := 4.
Definition VSOCK_OP_RW : Z := 5.
Definition VSOCK_OP_CREDIT_UPDATE : Z := 6.
Definition VSOCK_OP_CREDIT_REQUEST : Z := 7.
Definition VSOCK_EVENT_TRANSPORT_RESET : Z := 0.

Record VsockHeader : Type := mkVsockHeader {
  hdr_src_cid : Z;
  hdr_dst_cid : Z;
  hdr_src_port : Z;
  hdr_dst_port : Z;
  hdr_len : Z;
  hdr_ty : Z;
  hdr_op : Z;
  hdr_flags : Z;
  hdr_buf_alloc : Z;
  hdr_fwd_cnt : Z
}.

Definition header_to_bytes (h : VsockHeader) : bytes :=
  le_bytes 8 (hdr_src_cid h) ++ le_bytes 8 (hdr_dst_cid h) ++ le_bytes 4 (hdr_src_port h) ++
  le_bytes 4 (hdr_dst_port h) ++ le_bytes 4 (hdr_len h) ++ le_bytes 2 (hdr_ty h) ++
  le_bytes 2 (hdr_op h) ++ le_bytes 4 (hdr_flags h) ++ le_bytes 4 (hdr_buf_alloc h) ++
  le_bytes 4 (hdr_fwd_cnt h).

(** [uN_at] for an [n]-byte field. *)
Definition uint_at (raw : bytes) (n o : nat) : Z := le_val (take n (drop o raw)).

Definition header_from_bytes (raw : bytes) : VsockHeader :=
  mkVsockHeader (uint_at raw 8 0) (uint_at raw 8 8) (uint_at raw 4 16) (uint_at raw 4 20)
    (uint_at raw 4 24) (uint_at raw 2 28) (uint_at raw 2 30) (uint_at raw 4 32)
    (uint_at raw 4 36) (uint_at raw 4 40).

Inductive PacketError : Type :=
| PacketError_WritableSegment
| PacketError_NoHeader (len : Z)
| PacketError_Memory (error : GuestMemoryError)
| PacketError_Type (ty : Z)
| PacketError_Op (op : Z)
| PacketError_SourceCid (cid : Z)
| PacketError_DestinationCid (cid : Z)
| PacketError_LengthMismatch (declared actual : Z)
| PacketError_PayloadTooLarge (len : Z)
| PacketError_PayloadOnControl (op : Z)
| PacketError_Flags (op flags : Z).

Definition ALLOWED_OPS : list Z :=
  [VSOCK_OP_REQUEST; VSOCK_OP_RESPONSE; VSOCK_OP_RST; VSOCK_OP_SHUTDOWN; VSOCK_OP_RW;
   VSOCK_OP_CREDIT_UPDATE; VSOCK_OP_CREDIT_REQUEST].

Definition flags_ok (op flags : Z) : bool :=
  if op =? VSOCK_OP_SHUTDOWN
  then negb (flags =? 0) &&
       (Z.land flags (lnot_w 32 (Z.lor VSOCK_SHUTDOWN_RCV VSOCK_SHUTDOWN_SEND)) =? 0)
  else flags =? 0.

(** The checks of [parse_tx] on a header that was read. *)
Definition check_header (h : VsockHeader) (readable guest_cid : Z) : Result VsockHeader PacketError :=
  if negb (hdr_ty h =? VSOCK_TYPE_STREAM) then Err (PacketError_Type (hdr_ty h))
  else if negb (bool_decide (hdr_op h ∈ ALLOWED_OPS)) then Err (PacketError_Op (hdr_op h))
  else if negb (hdr_src_cid h =? guest_cid) then Err (PacketError_SourceCid (hdr_src_cid h))
  else if negb (hdr_dst_cid h =? HOST_CID) then Err (PacketError_DestinationCid (hdr_dst_cid h))
  else
    let actual := readable - Z.of_nat VSOCK_HDR_LEN in
    if negb (hdr_len h =? actual) then Err (PacketError_LengthMismatch (hdr_len h) actual)
    else if hdr_len h >? MAX_PAYLOAD_LEN then Err (PacketError_PayloadTooLarge (hdr_len h))
    else if negb (hdr_op h =? VSOCK_OP_RW) && negb (hdr_len h =? 0)
    then Err (PacketError_PayloadOnControl (hdr_op h))
    else if negb (flags_ok (hdr_op h) (hdr_flags h))
    then Err (PacketError_Flags (hdr_op h) (hdr_flags h))
    else Ok h.

Definition parse_tx {M} `{GuestMemory M} (mem : M) (chain : DescriptorChain) (guest_cid : Z)
    : Result VsockHeader PacketError :=
  if negb (chain_writable_len chain =? 0) then Err PacketError_WritableSegment
  else
    let readable := chain_readable_len chain in
    if readable <? Z.of_nat VSOCK_HDR_LEN then Err (PacketError_NoHeader readable)
    else
      let '(raw, r) := read_readable mem chain 0 (replicate VSOCK_HDR_LEN 0) in
      let? _ := map_err PacketError_Memory r in
      check_header (header_from_bytes raw) readable guest_cid.

(** * The device ([vsock.rs]) *)

Definition VSOCK_FEATURES : Z := VIRTIO_F_VERSION_1.
Definition VSOCK_RX_QUEUE : Z := 0.
Definition VSOCK_TX_QUEUE : Z := 1.
Definition VSOCK_EVENT_QUEUE : Z := 2.
Definition VSOCK_QUEUE_MAX : list Z := [256; 256; 64].
Definition VSOCK_CONFIG_LEN : Z := 8.
Definition MAX_OUTBOUND_PACKETS : nat := 64.
Definition MIN_GUEST_CID : Z := 3.
Definition CID_ANY : Z := 0xffffffff.
Definition PACKET_LIMITS : ChainLimits := mkChainLimits 256 (44 + 65536).
Definition EVENT_LIMITS : ChainLimits := mkChainLimits 64 4096.

Inductive VsockConfigError : Type := VsockConfigError_InvalidCid (cid : Z).

Record VsockCounters : Type := mkVsockCounters {
  vc_accepted : Z;
  vc_rejected : Z;
  vc_rst_sent : Z;
  vc_tx_packets : Z;
  vc_rx_packets : Z;
  vc_rx_dropped : Z
}.

Record Outbound : Type := mkOutbound {
  out_op : Z;
  out_dst_port : Z;
  out_flags : Z
}.

Record VsockDevice : Type := mkVsockDevice {
  vd_guest_cid : Z;
  vd_generation : Z;
  vd_endpoint : option HostEndpoint;
  vd_outbound : list Outbound;
  vd_events : list Z;
  vd_activated : bool;
  vd_counters : VsockCounters
}.

(** Field updates. *)
Definition vd_set_guest_cid (d : VsockDevice) (cid : Z) : VsockDevice :=
  mkVsockDevice cid (vd_generation d) (vd_endpoint d) (vd_outbound d) (vd_events d) (vd_activated d) (vd_counters d).
Definition vd_set_generation (d : VsockDevice) (generation : Z) : VsockDevice :=
  mkVsockDevice (vd_guest_cid d) generation (vd_endpoint d) (vd_outbound d) (vd_events d) (vd_activated d) (vd_counters d).
Definition vd_set_endpoint (d : VsockDevice) (endpoint : option HostEndpoint) : VsockDevice :=
  mkVsockDevice (vd_guest_cid d) (vd_generation d) endpoint (vd_outbound d) (vd_events d) (vd_activated d) (vd_counters d).
Definition vd_set_outbound (d : VsockDevice) (outbound : list Outbound) : VsockDevice :=
  mkVsockDevice (vd_guest_cid d) (vd_generation d) (vd_endpoint d) outbound (vd_events d) (vd_activated d) (vd_counters d).
Definition vd_set_events (d : VsockDevice) (events : list Z) : VsockDevice :=
  mkVsockDevice (vd_guest_cid d) (vd_generation d) (vd_endpoint d) (vd_outbound d) events (vd_activated d) (vd_counters d).
Definition vd_set_activated (d : VsockDevice) (activated : bool) : VsockDevice :=
  mkVsockDevice (vd_guest_cid d) (vd_generation d) (vd_endpoint d) (vd_outbound d) (vd_events d) activated (vd_counters d).
Definition vd_set_counters (d : VsockDevice) (counters : VsockCounters) : VsockDevice :=
  mkVsockDevice (vd_guest_cid d) (vd_generation d) (vd_endpoint d) (vd_outbound d) (vd_events d) (vd_activated d) counters.

(** One tick of a saturating 32-bit counter. *)
Definition tick (n : Z) : Z := saturating_add U32_MAX n 1.

Definition count_accepted (d : VsockDevice) : VsockDevice :=
  let c := vd_counters d in
  vd_set_counters d (mkVsockCounters (tick (vc_accepted c)) (vc_rejected c) (vc_rst_sent c)
    (vc_tx_packets c) (vc_rx_packets c) (vc_rx_dropped c)).
Definition vsock_reject (d : VsockDevice) : VsockDevice :=
  let c := vd_counters d in
  vd_set_counters d (mkVsockCounters (vc_accepted c) (tick (vc_rejected c)) (vc_rst_sent c)
    (vc_tx_packets c) (vc_rx_packets c) (vc_rx_dropped c)).
Definition count_rst_sent (d : VsockDevice) : VsockDevice :=
  let c := vd_counters d in
  vd_set_counters d (mkVsockCounters (vc_accepted c) (vc_rejected c) (tick (vc_rst_sent c))
    (vc_tx_packets c) (vc_rx_packets c) (vc_rx_dropped c)).
Definition count_tx_packet (d : VsockDevice) : VsockDevice :=
  let c := vd_counters d in
  vd_set_counters d (mkVsockCounters (vc_accepted c) (vc_rejected c) (vc_rst_sent c)
    (tick (vc_tx_packets c)) (vc_rx_packets c) (vc_rx_dropped c)).
Definition count_rx_packet (d : VsockDevice) : VsockDevice :=
  let c := vd_counters d in
  vd_set_counters d (mkVsockCounters (vc_accepted c) (vc_rejected c) (vc_rst_sent c)
    (vc_tx_packets c) (tick (vc_rx_packets c)) (vc_rx_dropped c)).
Definition count_rx_dropped (d : VsockDevice) : VsockDevice :=
  let c := vd_counters d in
  vd_set_counters d (mkVsockCounters (vc_accepted c) (vc_rejected c) (vc_rst_sent c)
    (vc_tx_packets c) (vc_rx_packets c) (tick (vc_rx_dropped c))).

Definition check_cid (cid : Z) : Result unit VsockConfigError :=
  if (cid <? MIN_GUEST_CID) || (cid >=? CID_ANY) then Err (VsockConfigError_InvalidCid cid) else Ok tt.

Definition vsock_new (guest_cid : Z) : Result VsockDevice VsockConfigError :=
  let? _ := check_cid guest_cid in
  Ok (mkVsockDevice guest_cid 0 None [] [] false (mkVsockCounters 0 0 0 0 0 0)).

Definition set_guest_cid (d : VsockDevice) (cid : Z) : VsockDevice * Result unit VsockConfigError :=
  match check_cid cid with
  | Err e => (d, Err e)
  | Ok _ => (vd_set_guest_cid d cid, Ok tt)
  end.

Definition vsock_queue (d : VsockDevice) (op dst_port flags : Z) : VsockDevice :=
  if (length (vd_outbound d) <? MAX_OUTBOUND_PACKETS)%nat
  then vd_set_outbound d (vd_outbound d ++ [mkOutbound op dst_port flags]) else d.

Definition close_endpoint (d : VsockDevice) : VsockDevice :=
  match vd_endpoint d with
  | None => d
  | Some e =>
      let d := vd_set_endpoint d None in
      if ep_open e then count_rst_sent (vsock_queue d VSOCK_OP_RST (ep_peer_port e) 0) else d
  end.

Definition is_quiescent (d : VsockDevice) : bool :=
  match vd_endpoint d, vd_outbound d, vd_events d with
  | None, [], [] => true
  | _, _, _ => false
  end.

Definition clear_transient (d : VsockDevice) : VsockDevice :=
  vd_set_generation (vd_set_events (vd_set_outbound (vd_set_endpoint d None) []) [])
    (wrapping_add32 (vd_generation d) 1).

Definition after_restore (d : VsockDevice) : VsockDevice :=
  let d := clear_transient d in
  vd_set_events d (vd_events d ++ [VSOCK_EVENT_TRANSPORT_RESET]).

(** * Guest to host ([tx.rs]) *)

Definition send_rst (d : VsockDevice) (port : Z) : VsockDevice :=
  count_rst_sent (vsock_queue d VSOCK_OP_RST port 0).

Definition vsock_abort (d : VsockDevice) (port : Z) : VsockDevice :=
  send_rst (vd_set_endpoint d (endpoint_close <$> vd_endpoint d)) port.

Definition on_request (d : VsockDevice) (h : VsockHeader) : VsockDevice :=
  if match vd_endpoint d with Some e => ep_open e | None => false end
  then vsock_reject (send_rst d (hdr_src_port h))
  else
    let d := vd_set_generation d (wrapping_add32 (vd_generation d) 1) in
    match endpoint_accept (hdr_src_port h) (vd_generation d) (hdr_buf_alloc h) (hdr_fwd_cnt h) with
    | Err _ => vsock_reject (send_rst d (hdr_src_port h))
    | Ok endpoint =>
        count_accepted (vsock_queue (vd_set_endpoint d (Some endpoint)) VSOCK_OP_RESPONSE (hdr_src_port h) 0)
    end.

Section code.
Context {M : Type} `{GuestMemory M}.

Definition on_rw (d : VsockDevice) (endpoint : HostEndpoint) (h : VsockHeader) (chain : DescriptorChain)
    (mem : M) : VsockDevice * Result unit DeviceFault :=
  let n := Z.to_nat (hdr_len h) in
  let '(payload, r) := read_readable mem chain (Z.of_nat VSOCK_HDR_LEN) (replicate n 0) in
  match r with
  | Err e => (d, Err (DeviceFault_Memory e))
  | Ok read =>
      if negb (read =? n)%nat then (d, Err DeviceFault_Protocol)
      else match push_from_guest endpoint payload with
      | Err _ => (vsock_reject (vsock_abort d (hdr_src_port h)), Ok tt)
      | Ok endpoint => (vd_set_endpoint d (Some endpoint), Ok tt)
      end
  end.

Definition on_connected (d : VsockDevice) (h : VsockHeader) (chain : DescriptorChain) (mem : M)
    : VsockDevice * Result unit DeviceFault :=
  match vd_endpoint d with
  | None => (d, Ok tt)
  | Some endpoint =>
      match update_peer_credit endpoint (hdr_buf_alloc h) (hdr_fwd_cnt h) with
      | Err _ => (vsock_reject (vsock_abort d (hdr_src_port h)), Ok tt)
      | Ok endpoint =>
          let d := vd_set_endpoint d (Some endpoint) in
          let op := hdr_op h in
          if op =? VSOCK_OP_RST then (vd_set_endpoint d (Some (endpoint_close endpoint)), Ok tt)
          else if op =? VSOCK_OP_SHUTDOWN then
            let endpoint := endpoint_peer_shutdown endpoint (hdr_flags h) in
            let d := vd_set_endpoint d (Some endpoint) in
            (if peer_fully_shut endpoint then vsock_abort d (hdr_src_port h) else d, Ok tt)
          else if op =? VSOCK_OP_RW then on_rw d endpoint h chain mem
          else if op =? VSOCK_OP_CREDIT_UPDATE then (d, Ok tt)
          else if op =? VSOCK_OP_CREDIT_REQUEST
          then (vsock_queue d VSOCK_OP_CREDIT_UPDATE (hdr_src_port h) 0, Ok tt)
          else if op =? VSOCK_OP_RESPONSE then (vsock_reject (vsock_abort d (hdr_src_port h)), Ok tt)
          else (vsock_reject d, Ok tt)
      end
  end.

Definition handle_tx (d : VsockDevice) (chain : DescriptorChain) (mem : M)
    : VsockDevice * Result unit DeviceFault :=
  match parse_tx mem chain (vd_guest_cid d) with
  | Err _ => (vsock_reject d, Ok tt)
  | Ok h =>
      let d := count_tx_packet d in
      if negb (hdr_dst_port h =? SOMA_CONTROL_PORT) then
        let d := if hdr_op h =? VSOCK_OP_REQUEST then send_rst d (hdr_src_port h) else d in
        (vsock_reject d, Ok tt)
      else if hdr_op h =? VSOCK_OP_REQUEST then (on_request d h, Ok tt)
      else
        let connected := match vd_endpoint d with
                         | Some e => ep_open e && (ep_peer_port e =? hdr_src_port h)
                         | None => false
                         end in
        if negb connected then
          let d := if negb (hdr_op h =? VSOCK_OP_RST) then send_rst d (hdr_src_port h) else d in
          (vsock_reject d, Ok tt)
        else on_connected d h chain mem
  end.
End code.

(** * Host to guest ([outbound.rs]) *)

Definition has_outbound (d : VsockDevice) : bool :=
  negb (length (vd_outbound d) =? 0)%nat
  || match vd_endpoint d with
     | None => false
     | Some e => can_send_data e || shutdown_ready e || (ep_open e && ep_credit_update_due e)
     end.

Definition outbound_header (d : VsockDevice) (dst_port op flags len fwd : Z) : VsockHeader :=
  mkVsockHeader HOST_CID (vd_guest_cid d) SOMA_CONTROL_PORT dst_port len VSOCK_TYPE_STREAM op flags
    HOST_BUF_ALLOC fwd.

Definition next_outbound (d : VsockDevice) (cap : nat) : VsockDevice * option (VsockHeader * bytes) :=
  let fwd := match vd_endpoint d with Some e => (local_fields (ep_credit e)).2 | None => 0 end in
  match vd_outbound d with
  | control :: rest =>
      (vd_set_outbound d rest,
       Some (outbound_header d (out_dst_port control) (out_op control) (out_flags control) 0 fwd, []))
  | [] =>
      match vd_endpoint d with
      | None => (d, None)
      | Some e =>
          if shutdown_ready e then
            (vd_set_endpoint d (Some (mark_shutdown_sent e)),
             Some (outbound_header d (ep_peer_port e) VSOCK_OP_SHUTDOWN
                     (Z.lor VSOCK_SHUTDOWN_RCV VSOCK_SHUTDOWN_SEND) 0 fwd, []))
          else if can_send_data e && (0 <? cap)%nat then
            let '(e', payload) := take_to_guest e cap in
            (vd_set_endpoint d (Some e'),
             Some (outbound_header d (ep_peer_port e) VSOCK_OP_RW 0 (u32_or_max (length payload))
                     (local_fields (ep_credit e')).2, payload))
          else if ep_open e && ep_credit_update_due e then
            (vd_set_endpoint d (Some (clear_credit_update e)),
             Some (outbound_header d (ep_peer_port e) VSOCK_OP_CREDIT_UPDATE 0 0 fwd, []))
          else (d, None)
      end
  end.

Definition chain_limits_for (queue : Z) : ChainLimits :=
  if queue =? VSOCK_EVENT_QUEUE then EVENT_LIMITS else PACKET_LIMITS.

Definition pop_event (d : VsockDevice) : VsockDevice * option Z :=
  match vd_events d with
  | [] => (d, None)
  | event :: rest => (vd_set_events d rest, Some event)
  end.

(** * The snapshot record ([state.rs]) *)

Definition VSOCK_STATE_VERSION : Z := 1.
Definition VSOCK_STATE_LEN : nat := 21.

Record VsockState : Type := mkVsockState {
  vs_device_id : Z;
  vs_features : Z;
  vs_guest_cid : Z
}.

Definition vsock_state_capture (d : VsockDevice) : VsockState :=
  mkVsockState VIRTIO_VSOCK_DEVICE_ID VSOCK_FEATURES (vd_guest_cid d).

Definition vsock_state_to_bytes (s : VsockState) : bytes :=
  [VSOCK_STATE_VERSION] ++ le_bytes 4 (vs_device_id s) ++ le_bytes 8 (vs_features s) ++
  le_bytes 8 (vs_guest_cid s).

Definition vsock_state_from_bytes (raw : bytes) : Result VsockState DeviceStateError :=
  if negb (length raw =? VSOCK_STATE_LEN)%nat || negb (default 0 (raw !! 0%nat) =? VSOCK_STATE_VERSION)
  then Err DeviceStateError_Malformed
  else
    let device_id := le_u64 (take 4 (drop 1 raw)) in
    if device_id <=? U32_MAX
    then Ok (mkVsockState device_id (le_u64 (take 8 (drop 5 raw))) (le_u64 (take 8 (drop 13 raw))))
    else Err DeviceStateError_Malformed.

Definition vsock_state_apply (s : VsockState) (d : VsockDevice) : VsockDevice * Result unit DeviceStateError :=
  if negb (vs_device_id s =? VIRTIO_VSOCK_DEVICE_ID) || negb (vs_features s =? VSOCK_FEATURES)
  then (d, Err DeviceStateError_Incompatible)
  else match set_guest_cid d (vs_guest_cid s) with
  | (d, Err _) => (d, Err DeviceStateError_Incompatible)
  | (d, Ok _) => (after_restore d, Ok tt)
  end.

(** * The seams *)

Definition vsock_read_config (d : VsockDevice) (offset : Z) (len : nat) : Result bytes ConfigAccessError :=
  match checked_add_u64 offset (Z.of_nat len) with
  | Some end_ =>
      if end_ <=? VSOCK_CONFIG_LEN then Ok (take len (drop (Z.to_nat offset) (le_bytes 8 (vd_guest_cid d))))
      else Err ConfigAccessError_OutOfBounds
  | None => Err ConfigAccessError_OutOfBounds
  end.

Definition vsock_activate (d : VsockDevice) (negotiated_features : Z) : VsockDevice * Result unit ActivateError :=
  if negb (Z.land negotiated_features (lnot_w 64 VSOCK_FEATURES) =? 0)
  then (d, Err (ActivateError_UnsupportedFeatures negotiated_features))
  else (vd_set_activated d true, Ok tt).

Definition vsock_reset (d : VsockDevice) : VsockDevice := clear_transient (vd_set_activated d false).

Definition vsock_restore_state (d : VsockDevice) (raw : bytes) : VsockDevice * Result unit DeviceStateError :=
  match vsock_state_from_bytes raw with
  | Err e => (d, Err e)
  | Ok s => vsock_state_apply s d
  end.

#[export] Instance VsockDevice_VirtioDevice : VirtioDevice VsockDevice := {|
  device_id _ := VIRTIO_VSOCK_DEVICE_ID;
  vendor_id _ := SOMA_VENDOR_ID;
  feature_allowlist _ := VSOCK_FEATURES;
  queue_max_sizes _ := VSOCK_QUEUE_MAX;
  config_len _ := VSOCK_CONFIG_LEN;
  device_read_config := vsock_read_config;
  device_write_config d _ _ := (d, Err ConfigAccessError_ReadOnly);
  device_activate := vsock_activate;
  device_reset := vsock_reset;
  device_snapshot_state d := vsock_state_to_bytes (vsock_state_capture d);
  device_restore_state := vsock_restore_state;
|}.

Definition vsock_handle_chain {M} `{GuestMemory M} (d : VsockDevice) (queue : Z) (chain : DescriptorChain)
    (mem : M) : VsockDevice * M * Result Z DeviceFault :=
  if negb (queue =? VSOCK_TX_QUEUE) then (d, mem, Err DeviceFault_Protocol)
  else
    let '(d, r) := handle_tx d chain mem in
    (d, mem, map_ok (fun _ => 0) r).

#[export] Instance VsockDevice_ChainHandler : ChainHandler VsockDevice := {|
  chain_limits _ queue := chain_limits_for queue;
  handle_chain _ _ := vsock_handle_chain;
|}.
