(* ===== verification/VsockFacts.v ===== *)
(** Properties of the vsock device: packet validation, the device invariant over every
    guest, host and transport operation, in-order streams, and what it sends. *)

From S2P Require Import Prelude Bytes GuestMemory QueueChain Virtqueue VirtqueueFacts Transport TransportFacts TransportProps Segments Service VsockStream Vsock.
From stdpp Require Import options.

(** * Headers *)

Definition wf_header (h : VsockHeader) : Prop :=
  is_u64 (hdr_src_cid h) /\ is_u64 (hdr_dst_cid h) /\ is_u32 (hdr_src_port h) /\
  is_u32 (hdr_dst_port h) /\ is_u32 (hdr_len h) /\ is_u16 (hdr_ty h) /\ is_u16 (hdr_op h) /\
  is_u32 (hdr_flags h) /\ is_u32 (hdr_buf_alloc h) /\ is_u32 (hdr_fwd_cnt h).

Lemma length_header h : length (header_to_bytes h) = VSOCK_HDR_LEN.
Proof. done. Qed.

Lemma header_codec h rest : wf_header h -> header_from_bytes (header_to_bytes h ++ rest) = h.
Proof.
  intros (H1 & H2 & H3 & H4 & H5 & H6 & H7 & H8 & H9 & H10). destruct h as [a b c d e f g i j k]; simpl in *.
  unfold header_from_bytes. f_equal.
  - exact (le_val_bytes 8 a H1).
  - exact (le_val_bytes 8 b H2).
  - exact (le_val_bytes 4 c H3).
  - exact (le_val_bytes 4 d H4).
  - exact (le_val_bytes 4 e H5).
  - exact (le_val_bytes 2 f H6).
  - exact (le_val_bytes 2 g H7).
  - exact (le_val_bytes 4 i H8).
  - exact (le_val_bytes 4 j H9).
  - exact (le_val_bytes 4 k H10).
Qed.

Lemma uint_at_field raw n o :
  all_bytes raw -> (o + n <= length raw)%nat ->
  is_uint (8 * Z.of_nat n) (uint_at raw n o) /\ le_bytes n (uint_at raw n o) = take n (drop o raw).
Proof.
  intros Hb Hl. assert (Ha : all_bytes (take n (drop o raw))) by (by apply Forall_take, Forall_drop).
  assert (Hn : length (take n (drop o raw)) = n) by (rewrite length_take, length_drop; lia).
  unfold uint_at. split; [rewrite <- Hn at 1; by apply le_val_range | ].
  rewrite <- Hn at 1. by apply le_bytes_val.
Qed.

Lemma header_decode raw :
  all_bytes raw -> (VSOCK_HDR_LEN <= length raw)%nat ->
  wf_header (header_from_bytes raw) /\ header_to_bytes (header_from_bytes raw) ++ drop VSOCK_HDR_LEN raw = raw.
Proof.
  intros Hb Hl. unfold VSOCK_HDR_LEN in Hl.
  assert (Hr : forall n o, (o + n <= 44)%nat -> is_uint (8 * Z.of_nat n) (uint_at raw n o))
    by (intros; apply uint_at_field; [done | lia]).
  assert (Hf : forall n o, (o + n <= 44)%nat -> le_bytes n (uint_at raw n o) = take n (drop o raw))
    by (intros; apply uint_at_field; [done | lia]).
  split.
  - unfold wf_header. split_and!; [apply (Hr 8%nat) | apply (Hr 8%nat) | apply (Hr 4%nat) | apply (Hr 4%nat)
      | apply (Hr 4%nat) | apply (Hr 2%nat) | apply (Hr 2%nat) | apply (Hr 4%nat) | apply (Hr 4%nat)
      | apply (Hr 4%nat)]; lia.
  - unfold header_to_bytes, header_from_bytes.
    cbn [hdr_src_cid hdr_dst_cid hdr_src_port hdr_dst_port hdr_len hdr_ty hdr_op hdr_flags hdr_buf_alloc hdr_fwd_cnt].
    rewrite !Hf by lia. rewrite <- !app_assoc.
    unfold VSOCK_HDR_LEN. rewrite (split_field raw 4 40 44), (split_field raw 4 36 40), (split_field raw 4 32 36),
      (split_field raw 2 30 32), (split_field raw 2 28 30), (split_field raw 4 24 28), (split_field raw 4 20 24),
      (split_field raw 4 16 20), (split_field raw 8 8 16), (split_field raw 8 0 8) by done. done.
Qed.

Lemma uint_at_take raw n o k : (o + n <= k)%nat -> uint_at (take k raw) n o = uint_at raw n o.
Proof. intros Hk. unfold uint_at. by rewrite !take_drop_commute, take_take, Nat.min_l by lia. Qed.

Lemma header_prefix raw : header_from_bytes (take VSOCK_HDR_LEN raw) = header_from_bytes raw.
Proof. unfold header_from_bytes, VSOCK_HDR_LEN. by rewrite !uint_at_take by lia. Qed.

(** * Packets the device accepts *)

Definition header_ok (guest_cid : Z) (h : VsockHeader) (payload : bytes) : Prop :=
  hdr_ty h = VSOCK_TYPE_STREAM /\ hdr_op h ∈ ALLOWED_OPS /\ hdr_src_cid h = guest_cid /\
  hdr_dst_cid h = HOST_CID /\ hdr_len h = Z.of_nat (length payload) /\ hdr_len h <= MAX_PAYLOAD_LEN /\
  (hdr_op h <> VSOCK_OP_RW -> payload = []) /\ flags_ok (hdr_op h) (hdr_flags h) = true.

Lemma check_header_spec h readable guest_cid h' payload :
  readable = Z.of_nat VSOCK_HDR_LEN + Z.of_nat (length payload) ->
  check_header h readable guest_cid = Ok h' <-> h' = h /\ header_ok guest_cid h payload.
Proof.
  intros ->. unfold check_header, header_ok.
  destruct (Z.eqb_spec (hdr_ty h) VSOCK_TYPE_STREAM); simpl; [ | naive_solver].
  case_bool_decide; simpl; [ | naive_solver].
  destruct (Z.eqb_spec (hdr_src_cid h) guest_cid); simpl; [ | naive_solver].
  destruct (Z.eqb_spec (hdr_dst_cid h) HOST_CID); simpl; [ | naive_solver].
  replace (Z.of_nat VSOCK_HDR_LEN + Z.of_nat (length payload) - Z.of_nat VSOCK_HDR_LEN)
    with (Z.of_nat (length payload)) by lia.
  destruct (Z.eqb_spec (hdr_len h) (Z.of_nat (length payload))) as [Hl | ]; simpl; [ | naive_solver].
  destruct (Z.gtb_spec (hdr_len h) MAX_PAYLOAD_LEN); simpl; [split; [done | naive_solver lia] | ].
  destruct (Z.eqb_spec (hdr_op h) VSOCK_OP_RW) as [Hop | Hop]; simpl.
  - destruct (flags_ok _ _); simpl; [ | naive_solver]. split; [intros [= <-]; by split_and! | naive_solver].
  - destruct (Z.eqb_spec (hdr_len h) 0) as [Hz | Hz]; simpl.
    + assert (payload = []) as -> by (destruct payload; [done | simpl in *; lia]).
      destruct (flags_ok _ _); simpl; [ | naive_solver]. split; [intros [= <-]; by split_and! | naive_solver].
    + split; [done | ]. intros (_ & _ & _ & _ & _ & _ & _ & Hp & _). rewrite Hp in Hl by done. simpl in Hl. lia.
Qed.

Section parse.
Context {M : Type} `{GuestMemoryLaws M}.

Lemma parse_tx_accepts (mem : M) queue_size limits chain guest_cid h :
  mem_wf mem -> chain_safe mem queue_size limits chain ->
  parse_tx mem chain guest_cid = Ok h <->
  chain_writable chain = [] /\ wf_header h /\ exists payload,
    readable_bytes mem chain = header_to_bytes h ++ payload /\ header_ok guest_cid h payload.
Proof.
  intros Hwf Hsafe. destruct (readable_bytes_ok _ _ _ _ Hwf Hsafe) as [Hb Hl].
  destruct (chain_safe_segments _ _ _ _ Hsafe) as [_ Hw].
  pose proof Hsafe as (_ & _ & _ & _ & _ & Hcap & _). unfold parse_tx.
  destruct (segment_total_zero _ _ Hw) as [_ Hempty]. rewrite <- Hcap in Hempty.
  destruct (Z.eqb_spec (chain_writable_len chain) 0) as [Hz | Hz]; cbn [negb]; [ | naive_solver].
  rewrite <- Hl. cbv zeta.
  destruct (Z.ltb_spec (Z.of_nat (length (readable_bytes mem chain))) (Z.of_nat VSOCK_HDR_LEN)) as [Hs | Hs].
  { split; [done | ]. intros (_ & _ & payload & Hp & _). rewrite Hp, length_app, length_header in Hs.
    unfold VSOCK_HDR_LEN in Hs. lia. }
  change 0 with (Z.of_nat 0) at 1.
  rewrite (read_readable_exact mem queue_size limits chain 0 VSOCK_HDR_LEN Hwf Hsafe) by lia.
  cbn [map_err]. rewrite drop_0. set (raw := readable_bytes mem chain) in *.
  assert (Hhdr : header_from_bytes (take VSOCK_HDR_LEN raw) = header_from_bytes raw) by (apply header_prefix).
  rewrite Hhdr. destruct (header_decode raw Hb) as [Hwfh Hsplit]; [lia | ].
  rewrite (check_header_spec _ _ _ _ (drop VSOCK_HDR_LEN raw))
    by (rewrite length_drop; lia).
  split.
  - intros [-> Hh]. split_and!; [by apply Hempty | done | ]. exists (drop VSOCK_HDR_LEN raw). by rewrite Hsplit.
  - intros (_ & Hwf' & payload & Hp & Hh). rewrite Hp, header_codec by done. split; [done | ].
    by rewrite drop_app_length' by (by rewrite length_header).
Qed.
End parse.

(** * The device invariant *)

Definition endpoint_opt_ok (e : option HostEndpoint) : Prop := from_option endpoint_ok True e.

Definition vsock_ok (d : VsockDevice) : Prop :=
  MIN_GUEST_CID <= vd_guest_cid d < CID_ANY /\ is_u32 (vd_generation d) /\
  endpoint_opt_ok (vd_endpoint d) /\ (length (vd_outbound d) <= MAX_OUTBOUND_PACKETS)%nat /\
  Forall (fun o => is_u16 (out_op o) /\ is_u32 (out_dst_port o) /\ is_u32 (out_flags o)) (vd_outbound d) /\
  (length (vd_events d) <= 1)%nat /\ Forall is_u32 (vd_events d).

Create HintDb vsock.

Lemma set_counters_ok d c : vsock_ok d -> vsock_ok (vd_set_counters d c).
Proof. done. Qed.

Lemma set_endpoint_ok d e : vsock_ok d -> endpoint_opt_ok e -> vsock_ok (vd_set_endpoint d e).
Proof. unfold vsock_ok; simpl. tauto. Qed.

Lemma set_generation_ok d n : vsock_ok d -> vsock_ok (vd_set_generation d (wrapping_add32 n 1)).
Proof. pose proof (wrapping_add32_range n 1). unfold vsock_ok; simpl. tauto. Qed.

Lemma set_activated_ok d b : vsock_ok d -> vsock_ok (vd_set_activated d b).
Proof. done. Qed.

Lemma vsock_queue_ok d op port flags :
  vsock_ok d -> is_u16 op -> is_u32 port -> is_u32 flags -> vsock_ok (vsock_queue d op port flags).
Proof.
  intros (H1 & H2 & H3 & H4 & H5 & H6 & H7) Hop Hport Hflags. unfold vsock_queue.
  destruct (Nat.ltb_spec (length (vd_outbound d)) MAX_OUTBOUND_PACKETS); [ | unfold vsock_ok; tauto].
  unfold vsock_ok; simpl. rewrite length_app, Forall_app, Forall_singleton. simpl.
  split; [done | ]. split_and!; (done || lia).
Qed.

Lemma send_rst_ok d port : vsock_ok d -> is_u32 port -> vsock_ok (send_rst d port).
Proof. intros Hd Hp. apply set_counters_ok, vsock_queue_ok; done. Qed.

Lemma vsock_reject_ok d : vsock_ok d -> vsock_ok (vsock_reject d).
Proof. apply set_counters_ok. Qed.

Lemma endpoint_close_ok e : endpoint_ok e -> endpoint_ok (endpoint_close e).
Proof.
  intros (Hc & Hin & Hmax & Hto & Hbf & Hbt & Hp & Hs & Ho). unfold endpoint_ok; simpl.
  split_and!; try done. by constructor.
Qed.

Lemma vsock_abort_ok d port : vsock_ok d -> is_u32 port -> vsock_ok (vsock_abort d port).
Proof.
  intros Hd Hp. apply send_rst_ok; [ | done]. apply set_endpoint_ok; [done | ].
  pose proof Hd as (_ & _ & He & _). destruct (vd_endpoint d); [ | done]. by apply endpoint_close_ok.
Qed.

Lemma set_credit_ok e c :
  endpoint_ok e -> credit_ok c -> rx_cnt c = rx_cnt (ep_credit e) -> fwd_cnt c = fwd_cnt (ep_credit e) ->
  endpoint_ok (set_credit e c).
Proof.
  intros (Hc & Hin & Hmax & Hto & Hbf & Hbt & Hp & Hs & Ho) Hok Hr Hf. unfold endpoint_ok, in_flight; simpl.
  rewrite Hr, Hf. by split_and!.
Qed.

Lemma update_peer_credit_ok e buf_alloc fwd e' :
  endpoint_ok e -> is_u32 buf_alloc -> is_u32 fwd -> update_peer_credit e buf_alloc fwd = Ok e' ->
  endpoint_ok e' /\ ep_from_guest e' = ep_from_guest e /\ ep_to_guest e' = ep_to_guest e /\
  ep_open e' = ep_open e /\ ep_peer_port e' = ep_peer_port e.
Proof.
  intros He Hb Hf. unfold update_peer_credit.
  destruct (update_peer (ep_credit e) buf_alloc fwd) as [c | ] eqn:Hu; [ | done]. intros [= <-].
  destruct (update_peer_ok _ _ _ _ (proj1 He) Hb Hf Hu) as (Hc & Hr & Hfw & _).
  split_and!; [by apply set_credit_ok | done..].
Qed.

Lemma endpoint_peer_shutdown_ok e flags :
  endpoint_ok e -> 0 <= flags -> endpoint_ok (endpoint_peer_shutdown e flags).
Proof.
  intros (Hc & Hin & Hmax & Hto & Hbf & Hbt & Hp & Hs & Ho) Hf. unfold endpoint_ok; simpl. split_and!; try done.
  apply is_uint_lor; [lia | done | ]. rewrite Z.land_comm. apply is_uint_land; [lia | by vm_compute | done].
Qed.

Lemma set_host_shutdown_ok e s : endpoint_ok e -> endpoint_ok (set_host_shutdown e s).
Proof. done. Qed.

Lemma clear_credit_update_ok e : endpoint_ok e -> endpoint_ok (clear_credit_update e).
Proof. done. Qed.

#[export] Hint Resolve set_counters_ok set_endpoint_ok set_generation_ok set_activated_ok vsock_queue_ok
  send_rst_ok vsock_reject_ok vsock_abort_ok endpoint_close_ok endpoint_peer_shutdown_ok : vsock.

Lemma clear_transient_ok d : vsock_ok d -> vsock_ok (clear_transient d).
Proof.
  intros (H1 & H2 & _). unfold vsock_ok; simpl. split; [done | ]. split; [apply wrapping_add32_range | ].
  split; [done | ]. split_and!; (lia || by constructor).
Qed.

Lemma check_cid_ok cid u : check_cid cid = Ok u -> MIN_GUEST_CID <= cid < CID_ANY.
Proof.
  unfold check_cid. destruct (Z.ltb_spec cid MIN_GUEST_CID), (Z.geb_spec cid CID_ANY); simpl; try done.
Qed.

Lemma vsock_new_ok cid d : vsock_new cid = Ok d -> vsock_ok d.
Proof.
  unfold vsock_new. destruct (check_cid cid) eqn:Hc; [ | done]. intros [= <-].
  apply check_cid_ok in Hc. unfold vsock_ok; simpl. split; [done | ]. split; [done | ].
  split; [done | ]. split_and!; (lia || by constructor).
Qed.

Lemma set_guest_cid_ok d cid : vsock_ok d -> vsock_ok (set_guest_cid d cid).1.
Proof.
  intros Hd. unfold set_guest_cid. destruct (check_cid cid) eqn:Hc; [ | done]. apply check_cid_ok in Hc.
  unfold vsock_ok in *; simpl. tauto.
Qed.

Lemma vsock_restore_ok d raw : vsock_ok d -> vsock_ok (vsock_restore_state d raw).1.
Proof.
  intros Hd. unfold vsock_restore_state. destruct (vsock_state_from_bytes raw) as [s | ]; [ | done].
  unfold vsock_state_apply. destruct (_ || _); [done | ].
  pose proof (set_guest_cid_ok d (vs_guest_cid s) Hd) as Hs.
  destruct (set_guest_cid d (vs_guest_cid s)) as [d1 [[] | ]]; [ | done]. simpl in *.
  destruct (clear_transient_ok _ Hs) as (H1 & H2 & H3 & H4 & H5 & _). unfold vsock_ok; simpl in *.
  do 5 (split; [done | ]). split; [lia | ]. by apply Forall_singleton.
Qed.

Lemma on_request_ok d h : vsock_ok d -> wf_header h -> vsock_ok (on_request d h).
Proof.
  intros Hd (_ & _ & Hp & _ & _ & _ & _ & _ & Hb & Hf). unfold on_request.
  destruct (match vd_endpoint d with Some e => _ | None => _ end); [auto with vsock | ].
  destruct (endpoint_accept _ _ _ _) as [e | ] eqn:Ha; [ | auto with vsock].
  apply set_counters_ok, vsock_queue_ok; try done. apply set_endpoint_ok; [by apply set_generation_ok | ].
  exact (accept_ok _ _ _ _ _ Hp Hb Hf Ha).
Qed.

Lemma close_endpoint_ok d : vsock_ok d -> vsock_ok (close_endpoint d).
Proof.
  intros Hd. unfold close_endpoint. pose proof Hd as (_ & _ & He & _). destruct (vd_endpoint d) as [e | ]; [ | done].
  destruct (ep_open e); [ | by apply set_endpoint_ok].
  apply set_counters_ok, vsock_queue_ok; [by apply set_endpoint_ok | done | | done]. apply He.
Qed.

(** * Every operation keeps the invariant *)

Section handle.
Context {M : Type} `{GuestMemoryLaws M}.

Lemma on_connected_ok (mem : M) queue_size limits d h chain payload :
  mem_wf mem -> chain_safe mem queue_size limits chain -> vsock_ok d -> wf_header h ->
  readable_bytes mem chain = header_to_bytes h ++ payload -> hdr_len h = Z.of_nat (length payload) ->
  vsock_ok (on_connected d h chain mem).1.
Proof.
  intros Hwf Hsafe Hd Hh Hbytes Hlen. pose proof Hd as (_ & _ & He & _). unfold on_connected.
  pose proof Hh as (_ & _ & Hport & _ & _ & _ & _ & Hflags & Hb & Hf).
  destruct (vd_endpoint d) as [e | ]; [ | done]. simpl in He.
  destruct (update_peer_credit e _ _) as [e1 | ] eqn:Hu; [ | simpl; auto with vsock].
  destruct (update_peer_credit_ok _ _ _ _ He Hb Hf Hu) as (He1 & _).
  assert (Hd1 : forall e', endpoint_ok e' -> vsock_ok (vd_set_endpoint d (Some e')))
    by (intros; by apply set_endpoint_ok).
  pose proof (Hd1 _ He1) as Hs. pose proof (endpoint_peer_shutdown_ok e1 (hdr_flags h) He1 (proj1 Hflags)) as Hp.
  repeat case_match; simpl; auto with vsock.
  - apply set_endpoint_ok; [done | by apply endpoint_close_ok].
  - unfold on_rw. rewrite Hlen, Nat2Z.id.
    rewrite (read_readable_exact mem queue_size limits chain VSOCK_HDR_LEN (length payload) Hwf Hsafe)
      by (rewrite Hbytes, length_app, length_header; lia).
    rewrite Hbytes, drop_app_length' by (by rewrite length_header). rewrite take_ge by lia.
    rewrite Nat.eqb_refl. cbn [negb].
    destruct (push_from_guest e1 payload) as [e2 | ] eqn:Hpush; simpl; [ | auto with vsock].
    destruct (readable_bytes_ok _ _ _ _ Hwf Hsafe) as [Hall _]. rewrite Hbytes in Hall.
    apply Forall_app in Hall as [_ Hall]. destruct (push_from_guest_ok _ _ _ He1 Hall Hpush) as [He2 _].
    by apply set_endpoint_ok.
  - by apply vsock_queue_ok.
Qed.

Lemma handle_tx_ok (mem : M) queue_size limits d chain :
  mem_wf mem -> chain_safe mem queue_size limits chain -> vsock_ok d ->
  vsock_ok (handle_tx d chain mem).1.
Proof.
  intros Hwf Hsafe Hd. unfold handle_tx.
  destruct (parse_tx mem chain (vd_guest_cid d)) as [h | ] eqn:Hp; [ | simpl; auto with vsock].
  apply (parse_tx_accepts _ _ _ _ _ _ Hwf Hsafe) in Hp as (_ & Hh & payload & Hbytes & Hok).
  pose proof (proj1 (proj2 (proj2 Hh))) as Hport.
  assert (Hc : vsock_ok (count_tx_packet d)) by (by apply set_counters_ok).
  case_match; [simpl; case_match; auto with vsock | ].
  case_match; [by apply on_request_ok | ].
  destruct (negb (match vd_endpoint _ with Some _ => _ | None => _ end));
    [destruct (hdr_op h =? VSOCK_OP_RST); simpl; auto with vsock | ].
  apply (on_connected_ok mem queue_size limits _ _ _ payload); try done.
  by destruct Hok as (_ & _ & _ & _ & ? & _).
Qed.
End handle.

(** A packet the device builds: its header fits its wire fields and names exactly the
    payload, which fits the receive buffer and the window the guest advertised. *)
Definition packet_ok (d : VsockDevice) (cap : nat) (h : VsockHeader) (payload : bytes) : Prop :=
  wf_header h /\ hdr_len h = Z.of_nat (length payload) /\ (length payload <= cap)%nat /\ all_bytes payload /\
  hdr_src_cid h = HOST_CID /\ hdr_dst_cid h = vd_guest_cid d /\ hdr_buf_alloc h = HOST_BUF_ALLOC /\
  (hdr_op h <> VSOCK_OP_RW -> payload = []) /\
  (payload <> [] -> exists e, vd_endpoint d = Some e /\ hdr_dst_port h = ep_peer_port e /\ ep_open e = true /\
     Z.of_nat (length payload) <= peer_free (ep_credit e) /\
     ep_to_guest e = payload ++ drop (length payload) (ep_to_guest e)).

Lemma outbound_header_wf d port op flags len fwd :
  vsock_ok d -> is_u32 port -> is_u16 op -> is_u32 flags -> is_u32 len -> is_u32 fwd ->
  wf_header (outbound_header d port op flags len fwd).
Proof.
  intros (Hcid & _) Hport Hop Hflags Hlen Hfwd. unfold wf_header; simpl.
  unfold MIN_GUEST_CID, CID_ANY in Hcid. assert (Hc : is_u64 (vd_guest_cid d)) by (unfold is_uint; lia).
  by split_and!.
Qed.

(** A packet without payload. *)
Lemma control_packet_ok d cap port op flags fwd :
  vsock_ok d -> is_u32 port -> is_u16 op -> is_u32 flags -> is_u32 fwd ->
  packet_ok d cap (outbound_header d port op flags 0 fwd) [].
Proof.
  intros Hd Hport Hop Hflags Hfwd. split_and!; try done; [by apply outbound_header_wf | simpl; lia | by constructor].
Qed.

Lemma next_outbound_ok d cap :
  vsock_ok d ->
  vsock_ok (next_outbound d cap).1 /\
  (forall h payload, (next_outbound d cap).2 = Some (h, payload) -> packet_ok d cap h payload).
Proof.
  intros Hd. pose proof Hd as (H1 & H2 & He & H4 & H5 & H6 & H7). unfold next_outbound.
  set (fwd := match vd_endpoint d with Some e => _ | None => 0 end).
  assert (Hfwd : is_u32 fwd). { unfold fwd. destruct (vd_endpoint d); [ | done]. by destruct He as [(_ & _ & _ & _ & ? & _) _]. }
  clearbody fwd. destruct (vd_outbound d) as [ | control rest] eqn:Ho.
  2: { apply Forall_cons in H5 as [(Hop & Hport & Hflags) H5]. simpl in H4 |- *. split.
    - unfold vsock_ok; simpl. split; [done | ]. split_and!; (done || lia).
    - intros h payload [= <- <-]. by apply control_packet_ok. }
  destruct (vd_endpoint d) as [e | ] eqn:Hep; [ | done]. simpl in He.
  assert (Hport : is_u32 (ep_peer_port e)) by apply He.
  destruct (shutdown_ready e) eqn:Hs.
  { split; [by apply set_endpoint_ok | ]. intros h payload [= <- <-]. by apply control_packet_ok. }
  destruct (can_send_data e && (0 <? cap)%nat) eqn:Hcan.
  - apply andb_true_iff in Hcan as [Hcan _]. unfold can_send_data in Hcan.
    apply andb_true_iff in Hcan as [Hcan _]. apply andb_true_iff in Hcan as [Hopen _].
    pose proof (take_to_guest_ok e cap He) as Ht. destruct (take_to_guest e cap) as [e' payload0] eqn:Htake.
    cbv zeta in Ht; simpl in Ht. destruct Ht as (He' & Hsplit & _ & _ & _ & Hcap & Hfree & Hall).
    split; [by apply set_endpoint_ok | ]. intros h payload [= <- <-].
    assert (Hlen : Z.of_nat (length payload0) <= HOST_TX_BUFFER).
    { destruct He as (_ & _ & _ & Hto & _). rewrite Hsplit, length_app in Hto. lia. }
    unfold HOST_TX_BUFFER in Hlen. rewrite u32_or_max_small by lia.
    assert (Hf' : is_u32 (fwd_cnt (ep_credit e'))) by (by destruct He' as [(_ & _ & _ & _ & ? & _) _]).
    assert (Hl : is_u32 (Z.of_nat (length payload0))) by (unfold is_uint; lia).
    split_and!; try done; [by apply outbound_header_wf | ]. intros _. exists e. split_and!; try done.
    by rewrite !Hsplit, drop_app_length.
  - destruct (ep_open e && ep_credit_update_due e); [ | done].
    split; [by apply set_endpoint_ok | ]. intros h payload [= <- <-]. by apply control_packet_ok.
Qed.

(** * The streams are in order

    What the guest pushed, the host read, the host wrote and the device sent to the guest,
    beside the endpoint the operations act on. *)

Record StreamLog : Type := mkStreamLog {
  log_pushed : bytes;
  log_read : bytes;
  log_written : bytes;
  log_sent : bytes
}.

Inductive StreamOp : Type :=
| StreamOp_push (b : bytes)
| StreamOp_read (n : nat)
| StreamOp_write (b : bytes)
| StreamOp_send (max : nat)
| StreamOp_credit (buf_alloc fwd : Z)
| StreamOp_peer_shutdown (flags : Z)
| StreamOp_shutdown
| StreamOp_close.

Definition stream_step (s : HostEndpoint * StreamLog) (op : StreamOp) : HostEndpoint * StreamLog :=
  let '(e, log) := s in
  let '(mkStreamLog pushed read written sent) := log in
  match op with
  | StreamOp_push b =>
      match push_from_guest e b with
      | Ok e => (e, mkStreamLog (pushed ++ b) read written sent)
      | Err _ => (endpoint_close e, log)
      end
  | StreamOp_read n => let '(e, b) := endpoint_read e n in (e, mkStreamLog pushed (read ++ b) written sent)
  | StreamOp_write b => let '(e, n) := endpoint_write e b in (e, mkStreamLog pushed read (written ++ take n b) sent)
  | StreamOp_send max => let '(e, b) := take_to_guest e max in (e, mkStreamLog pushed read written (sent ++ b))
  | StreamOp_credit buf_alloc fwd =>
      match update_peer_credit e buf_alloc fwd with Ok e => (e, log) | Err _ => (endpoint_close e, log) end
  | StreamOp_peer_shutdown flags => (endpoint_peer_shutdown e flags, log)
  | StreamOp_shutdown => (endpoint_shutdown e, log)
  | StreamOp_close => (endpoint_close e, log)
  end.

Definition stream_op_wf (op : StreamOp) : Prop :=
  match op with
  | StreamOp_push b | StreamOp_write b => all_bytes b
  | StreamOp_credit buf_alloc fwd => is_u32 buf_alloc /\ is_u32 fwd
  | StreamOp_peer_shutdown flags => is_u32 flags
  | _ => True
  end.

(** Nothing is lost, repeated or reordered before a close; a close drops only what the
    host wrote and the device had not sent. *)
Definition in_order (s : HostEndpoint * StreamLog) : Prop :=
  let '(e, log) := s in
  endpoint_ok e /\ log_pushed log = log_read log ++ ep_from_guest e /\
  exists lost, log_written log = log_sent log ++ ep_to_guest e ++ lost /\ (ep_open e = true -> lost = []).

Lemma close_in_order e log : in_order (e, log) -> in_order (endpoint_close e, log).
Proof.
  intros (He & Hp & lost & Hw & _). split_and!; [by apply endpoint_close_ok | done | ].
  exists (ep_to_guest e ++ lost). by split.
Qed.

Lemma same_streams e e' log :
  in_order (e, log) -> endpoint_ok e' -> ep_from_guest e' = ep_from_guest e ->
  ep_to_guest e' = ep_to_guest e -> ep_open e' = ep_open e -> in_order (e', log).
Proof.
  intros (_ & Hp & lost & Hw & Ho) He' Hf Ht Hopen. unfold in_order. rewrite Hf, Ht, Hopen. by eauto.
Qed.

Lemma endpoint_shutdown_ok e : endpoint_ok e -> endpoint_ok (endpoint_shutdown e).
Proof. intros He. unfold endpoint_shutdown. by destruct (ep_host_shutdown e). Qed.

Lemma endpoint_read_open e n : ep_open (endpoint_read e n).1 = ep_open e.
Proof. unfold endpoint_read. simpl. by case_match. Qed.

Lemma endpoint_write_closed e b :
  ep_open (endpoint_write e b).1 = ep_open e /\ (ep_open e = false -> (endpoint_write e b).2 = 0%nat).
Proof. unfold endpoint_write. destruct (ep_open e) eqn:Ho; simpl; [by case_match | done]. Qed.

Lemma stream_step_in_order s op : in_order s -> stream_op_wf op -> in_order (stream_step s op).
Proof.
  destruct s as [e [pushed read written sent]]. intros Hs Hop. pose proof Hs as (He & Hp & lost & Hw & Ho).
  simpl in Hp, Hw. destruct op as [b | n | b | max | buf fwd | flags | | ]; cbn [stream_step stream_op_wf] in *.
  - destruct (push_from_guest e b) as [e' | ] eqn:Hpush; [ | by apply close_in_order].
    destruct (push_from_guest_ok _ _ _ He Hop Hpush) as (He' & Hf & Ht & Hopen & _). unfold in_order; simpl.
    rewrite Hf, Ht, Hopen, Hp, app_assoc. by eauto.
  - pose proof (endpoint_read_ok e n He) as (He' & Hf & Ht & _). pose proof (endpoint_read_open e n) as Hopen.
    destruct (endpoint_read e n) as [e' b]; simpl in *. unfold in_order; simpl.
    rewrite Ht, Hopen, <- app_assoc, <- Hf. by eauto.
  - pose proof (endpoint_write_ok e b He Hop) as (He' & Ht & Hf & _).
    pose proof (endpoint_write_closed e b) as [Hopen Hz].
    destruct (endpoint_write e b) as [e' n]; simpl in *. unfold in_order; simpl.
    rewrite Hf, Ht, Hopen, Hw. split_and!; [done | done | ]. exists lost. split; [ | done].
    destruct (ep_open e); [rewrite Ho by done; by rewrite !app_nil_r, app_assoc | ].
    rewrite Hz by done. by rewrite !app_nil_r.
  - pose proof (take_to_guest_ok e max He) as (He' & Ht & Hf & Hopen & _).
    destruct (take_to_guest e max) as [e' b]; simpl in *. unfold in_order; simpl.
    rewrite Hf, Hopen, Hw, Ht. split_and!; [done | done | ]. exists lost. by rewrite <- !app_assoc.
  - destruct (update_peer_credit e buf fwd) as [e' | ] eqn:Hu; [ | by apply close_in_order].
    destruct (update_peer_credit_ok _ _ _ _ He (proj1 Hop) (proj2 Hop) Hu) as (He' & Hf & Ht & Hopen & _).
    by eapply same_streams.
  - eapply same_streams; [exact Hs | by apply endpoint_peer_shutdown_ok, Hop | done..].
  - eapply same_streams; [exact Hs | by apply endpoint_shutdown_ok | by unfold endpoint_shutdown; case_match..].
  - by apply close_in_order.
Qed.

Lemma streams_in_order ops s : in_order s -> Forall stream_op_wf ops -> in_order (foldl stream_step s ops).
Proof.
  revert s. induction ops as [ | op ops IH]; intros s Hs Hops; simpl; [done | ].
  apply Forall_cons in Hops as [Hop Hops]. apply IH; [by apply stream_step_in_order | done].
Qed.

Lemma accepted_in_order peer_port generation buf_alloc fwd e :
  is_u32 peer_port -> is_u32 buf_alloc -> is_u32 fwd ->
  endpoint_accept peer_port generation buf_alloc fwd = Ok e -> in_order (e, mkStreamLog [] [] [] []).
Proof.
  intros Hp Hb Hf Ha. pose proof (accept_ok _ _ _ _ _ Hp Hb Hf Ha) as He. unfold endpoint_accept in Ha.
  destruct (credit_new buf_alloc fwd); [ | done]. injection Ha as <-. split_and!; [done | done | by exists []].
Qed.
