(* ===== verification/VsockProps.v ===== *)
(** The vsock device against the seams it implements, and what its packets, its state
    over every operation, its streams and its snapshot record promise. *)

From S2P Require Import Prelude Bytes GuestMemory QueueChain Virtqueue VirtqueueFacts Transport TransportFacts TransportProps Segments Service VsockStream Vsock VsockFacts.
From stdpp Require Import options.

(** * The seams are kept *)

#[export] Instance VsockDevice_laws : VirtioDeviceLaws VsockDevice.
Proof. split; try done. intros device. by repeat constructor. Qed.

Lemma chain_limits_for_wf queue : wf_limits (chain_limits_for queue).
Proof. unfold chain_limits_for. case_match; by vm_compute. Qed.

Lemma vsock_handle_ok {M} `{GuestMemoryLaws M} (d : VsockDevice) queue queue_size chain (mem : M) :
  mem_wf mem -> vsock_ok d -> chain_safe mem queue_size (chain_limits d queue) chain ->
  let '(d', mem', r) := handle_chain d queue chain mem in
  same_limits d d' /\ vsock_ok d' /\ mem_wf mem' /\ mem_regions mem' = mem_regions mem /\
  (forall len, r = Ok len -> is_u32 len).
Proof.
  intros Hwf Hd Hsafe. cbn [handle_chain VsockDevice_ChainHandler]. unfold vsock_handle_chain.
  destruct (negb _); [by split_and! | ].
  pose proof (handle_tx_ok mem _ _ d chain Hwf Hsafe Hd) as Hd'.
  destruct (handle_tx d chain mem) as [d' r]. split_and!; try done.
  destruct r; [ | done]. by intros len [= <-].
Qed.

#[export] Instance VsockDevice_handler_laws : ChainHandlerLaws VsockDevice := {|
  device_inv := vsock_ok;
  chain_limits_wf _ queue := chain_limits_for_wf queue;
  handle_chain_ok _ _ _ := vsock_handle_ok;
|}.

(** * Everything that can happen to a device *)

Inductive vstep : VsockDevice -> VsockDevice -> Prop :=
| vstep_tx {M : Type} `{GuestMemoryLaws M} d (mem : M) queue_size limits chain :
    mem_wf mem -> chain_safe mem queue_size limits chain -> vstep d (handle_tx d chain mem).1
| vstep_next_outbound d cap : vstep d (next_outbound d cap).1
| vstep_pop_event d : vstep d (pop_event d).1
| vstep_rx_packet d : vstep d (count_rx_packet d)
| vstep_rx_dropped d : vstep d (count_rx_dropped d)
| vstep_host_read d e n : vd_endpoint d = Some e -> vstep d (vd_set_endpoint d (Some (endpoint_read e n).1))
| vstep_host_write d e b :
    all_bytes b -> vd_endpoint d = Some e -> vstep d (vd_set_endpoint d (Some (endpoint_write e b).1))
| vstep_host_shutdown d e : vd_endpoint d = Some e -> vstep d (vd_set_endpoint d (Some (endpoint_shutdown e)))
| vstep_host_close d : vstep d (close_endpoint d)
| vstep_set_guest_cid d cid : vstep d (set_guest_cid d cid).1
| vstep_activate d features : vstep d (device_activate d features).1
| vstep_reset d : vstep d (device_reset d)
| vstep_restore d raw : vstep d (device_restore_state d raw).1.

Lemma pop_event_ok d : vsock_ok d -> vsock_ok (pop_event d).1.
Proof.
  intros Hd. pose proof Hd as (H1 & H2 & H3 & H4 & H5 & H6 & H7). unfold pop_event.
  destruct (vd_events d) as [ | event rest]; [exact Hd | ].
  apply Forall_cons in H7 as [_ H7]. unfold vsock_ok; simpl in *. split; [done | ]. split_and!; (done || lia).
Qed.

Lemma vstep_ok d d' : vstep d d' -> vsock_ok d -> vsock_ok d'.
Proof.
  intros Hstep Hd. pose proof Hd as (_ & _ & He & _).
  destruct Hstep as [ | | | | | d e n Hep | d e b Hb Hep | d e Hep | | | d features | d | d raw]; try done.
  - by eapply handle_tx_ok.
  - by apply next_outbound_ok.
  - by apply pop_event_ok.
  - rewrite Hep in He. apply set_endpoint_ok; [done | ]. by apply endpoint_read_ok.
  - rewrite Hep in He. apply set_endpoint_ok; [done | ]. by apply endpoint_write_ok.
  - rewrite Hep in He. apply set_endpoint_ok; [done | ]. by apply endpoint_shutdown_ok.
  - by apply close_endpoint_ok.
  - by apply set_guest_cid_ok.
  - simpl. unfold vsock_activate. by case_match.
  - by apply clear_transient_ok, set_activated_ok.
  - by apply vsock_restore_ok.
Qed.

Lemma vsteps_ok d d' : rtc vstep d d' -> vsock_ok d -> vsock_ok d'.
Proof. induction 1; eauto using vstep_ok. Qed.

(** C28: over every sequence of guest packets from accepted chains, host calls on the open
    stream, deliveries, activation, reset and restore, the device keeps its state bounded
    and its accounting exact: at most 64 queued control packets and one event, a guest
    CID in the assignable range, and, for the connection, what the guest sent and the host
    has not read is exactly the credit in flight and at most the 64 KiB window, what the
    host sent and the guest has not consumed fits the window the guest advertised, the
    host's own buffer holds at most 64 KiB and is empty once the stream is closed. *)
Theorem vsock_invariant cid d d' : vsock_new cid = Ok d -> rtc vstep d d' -> vsock_ok d'.
Proof. intros Hnew Hrun. eapply vsteps_ok; [exact Hrun | by eapply vsock_new_ok]. Qed.

(** C29: a stream between guest and host is two bounded queues in order: whatever sequence of
    pushes, reads, writes, sends, credit updates, shutdowns and closes is applied to an
    accepted connection, the bytes pushed are the bytes read followed by the bytes still
    buffered, and the bytes written are the bytes sent followed by those still buffered,
    followed, only after a close, by bytes that were dropped. *)
Theorem connection_in_order peer_port generation buf_alloc fwd e ops :
  is_u32 peer_port -> is_u32 buf_alloc -> is_u32 fwd ->
  endpoint_accept peer_port generation buf_alloc fwd = Ok e -> Forall stream_op_wf ops ->
  in_order (foldl stream_step (e, mkStreamLog [] [] [] []) ops).
Proof. intros Hp Hb Hf Ha Hops. apply streams_in_order; [exact (accepted_in_order _ _ _ _ _ Hp Hb Hf Ha) | done]. Qed.

(** What the device hands the guest is a packet the guest can decode: its header survives
    encoding and decoding, names exactly the payload that follows, comes from the host to
    the configured guest CID and advertises the host window; the payload fits the receive
    buffer, is the oldest unsent bytes the host wrote, and never exceeds what the guest's
    advertised window has free. *)
Theorem outbound_packet d cap d' h payload :
  vsock_ok d -> next_outbound d cap = (d', Some (h, payload)) ->
  packet_ok d cap h payload /\ header_from_bytes (header_to_bytes h ++ payload) = h /\ vsock_ok d'.
Proof.
  intros Hd Hn. destruct (next_outbound_ok d cap Hd) as [Hd' Hp]. rewrite Hn in Hd', Hp.
  specialize (Hp h payload eq_refl). split_and!; [done | | done]. apply header_codec, Hp.
Qed.

Section tx.
Context {M : Type} `{GuestMemoryLaws M}.

(** A transmit chain is taken as a packet exactly when it is all readable and its bytes
    are the encoding of a stream header followed by precisely the payload it names, at
    most 64 KiB, from this guest to the host, with an allowed operation, data only on
    [OP_RW] and only the flags that operation may carry; nothing else is accepted. *)
Theorem parse_tx_exact (mem : M) queue_size limits chain guest_cid h :
  mem_wf mem -> chain_safe mem queue_size limits chain ->
  parse_tx mem chain guest_cid = Ok h <->
  chain_writable chain = [] /\ wf_header h /\ exists payload,
    readable_bytes mem chain = header_to_bytes h ++ payload /\ header_ok guest_cid h payload.
Proof. apply parse_tx_accepts. Qed.

Lemma vsock_queue_endpoint d op port flags : vd_endpoint (vsock_queue d op port flags) = vd_endpoint d.
Proof. unfold vsock_queue. by case_match. Qed.

(** The packet is addressed to the open connection. *)
Definition for_connection (d : VsockDevice) (h : VsockHeader) : Prop :=
  exists e, vd_endpoint d = Some e /\ ep_open e = true /\ ep_peer_port e = hdr_src_port h.

Lemma on_connected_total (mem : M) queue_size limits d h chain payload :
  mem_wf mem -> chain_safe mem queue_size limits chain ->
  readable_bytes mem chain = header_to_bytes h ++ payload -> hdr_len h = Z.of_nat (length payload) ->
  (on_connected d h chain mem).2 = Ok tt.
Proof.
  intros Hwf Hsafe Hbytes Hlen. unfold on_connected. destruct (vd_endpoint d) as [e | ]; [ | done].
  destruct (update_peer_credit _ _ _) as [e1 | ]; [ | done]. repeat case_match; try done.
  unfold on_rw. rewrite Hlen, Nat2Z.id.
  rewrite (read_readable_exact mem queue_size limits chain VSOCK_HDR_LEN (length payload) Hwf Hsafe)
    by (rewrite Hbytes, length_app, length_header; lia).
  rewrite Nat.eqb_refl. simpl. by destruct (push_from_guest _ _).
Qed.

(** A guest packet never faults the device, and only the peer of the open connection
    can touch it: the connection changes only by a well-formed packet to the control port
    that either comes from the connection's own port or opens one while none is open.
    Any other chain leaves the connection, the window it advertised and the bytes
    buffered as they were. *)
Theorem connection_isolated (mem : M) queue_size limits d chain :
  mem_wf mem -> chain_safe mem queue_size limits chain ->
  (handle_tx d chain mem).2 = Ok tt /\
  (vd_endpoint (handle_tx d chain mem).1 <> vd_endpoint d -> exists h,
     parse_tx mem chain (vd_guest_cid d) = Ok h /\ hdr_dst_port h = SOMA_CONTROL_PORT /\
     (for_connection d h \/
      hdr_op h = VSOCK_OP_REQUEST /\ forall e, vd_endpoint d = Some e -> ep_open e = false)).
Proof.
  intros Hwf Hsafe. unfold handle_tx.
  destruct (parse_tx mem chain (vd_guest_cid d)) as [h | ] eqn:Hp; [ | done].
  apply (parse_tx_accepts _ _ _ _ _ _ Hwf Hsafe) in Hp as Hok. destruct Hok as (_ & _ & payload & Hbytes & Hok).
  destruct (Z.eqb_spec (hdr_dst_port h) SOMA_CONTROL_PORT) as [Hport | Hport]; cbn [negb].
  2: { split; [done | ]. intros Hne. destruct Hne. simpl. case_match; [simpl; by rewrite vsock_queue_endpoint | done]. }
  destruct (Z.eqb_spec (hdr_op h) VSOCK_OP_REQUEST) as [Hop | Hop].
  { split; [done | ]. intros Hne. exists h. split_and!; [done | done | ]. right. split; [done | ].
    intros e He. destruct (ep_open e) eqn:Hopen; [ | done]. destruct Hne. simpl. unfold on_request; simpl.
    rewrite He, Hopen. simpl. by rewrite vsock_queue_endpoint. }
  change (vd_endpoint (count_tx_packet d)) with (vd_endpoint d).
  destruct (match vd_endpoint d with Some e => _ | None => _ end) eqn:Hc; cbn [negb].
  - split. { eapply on_connected_total; [exact Hwf | exact Hsafe | exact Hbytes | apply Hok]. }
    intros _. exists h. split_and!; [done | done | ]. left. destruct (vd_endpoint d) as [e | ] eqn:He; [ | done].
    apply andb_true_iff in Hc as [Ho Hpp]. apply Z.eqb_eq in Hpp. by exists e.
  - split; [done | ]. intros Hne. destruct Hne. simpl.
    destruct (hdr_op h =? VSOCK_OP_RST); simpl; [done | by rewrite vsock_queue_endpoint].
Qed.
End tx.

(** * The snapshot record *)

Lemma vsock_record_decodes raw cid :
  all_bytes raw -> is_u64 cid ->
  vsock_state_from_bytes raw = Ok (mkVsockState VIRTIO_VSOCK_DEVICE_ID VSOCK_FEATURES cid) <->
  raw = vsock_state_to_bytes (mkVsockState VIRTIO_VSOCK_DEVICE_ID VSOCK_FEATURES cid).
Proof.
  intros Hraw Hcid. unfold vsock_state_from_bytes. split.
  - destruct (Nat.eqb_spec (length raw) VSOCK_STATE_LEN) as [Hl | Hl]; [ | done].
    destruct (Z.eqb_spec (default 0 (raw !! 0%nat)) VSOCK_STATE_VERSION) as [Hv | Hv]; [ | done]. simpl.
    destruct (_ <=? U32_MAX); [ | done]. intros [= Hid Hft Hc]. unfold VSOCK_STATE_LEN in Hl.
    assert (Hlen : forall n o, (o + n <= 21)%nat -> length (take n (drop o raw)) = n)
      by (intros; rewrite length_take, length_drop; lia).
    assert (Hall : forall n o, all_bytes (take n (drop o raw))) by (intros; by apply Forall_take, Forall_drop).
    apply (le_u64_exact _ 4) in Hid; [ | done | by apply Hlen; lia | lia | by vm_compute].
    apply (le_u64_exact _ 8) in Hft; [ | done | by apply Hlen; lia | lia | by vm_compute].
    apply (le_u64_exact _ 8) in Hc; [ | done | by apply Hlen; lia | lia | done].
    assert (Hhead : take 1 raw = [VSOCK_STATE_VERSION])
      by (destruct raw; [done | simpl in *; by subst]).
    unfold vsock_state_to_bytes. cbn [vs_device_id vs_features vs_guest_cid].
    rewrite <- Hhead, <- Hid, <- Hft, <- Hc. rewrite (take_ge (drop 13 raw)) by (rewrite length_drop; lia).
    rewrite (split_field raw 8 5 13), (split_field raw 4 1 5), take_drop by done. done.
  - intros ->. trans (Ok (E:=DeviceStateError) (mkVsockState VIRTIO_VSOCK_DEVICE_ID VSOCK_FEATURES
      (le_u64 (le_bytes 8 cid)))); [reflexivity | by rewrite le_u64_bytes].
Qed.

(** What a restore leaves: the recorded address and a reset announced to the guest. *)
Definition restored_as (d : VsockDevice) (cid : Z) : VsockDevice :=
  mkVsockDevice cid (wrapping_add32 (vd_generation d) 1) None [] [VSOCK_EVENT_TRANSPORT_RESET]
    (vd_activated d) (vd_counters d).

(** Restoring accepts exactly the record of some device with an assignable guest address
    and is all or nothing: on success the device has that address, no connection, no
    queued packet, a bumped generation and exactly one [TRANSPORT_RESET] event for the
    guest, whatever connection the record's device or this one had; on any other bytes the
    device is unchanged.  A live device's snapshot is such a record. *)
Theorem vsock_restore d d0 raw :
  vsock_ok d0 -> all_bytes raw ->
  (forall d', device_restore_state d raw = (d', Ok tt) <-> exists cid, MIN_GUEST_CID <= cid < CID_ANY /\
     raw = vsock_state_to_bytes (mkVsockState VIRTIO_VSOCK_DEVICE_ID VSOCK_FEATURES cid) /\
     d' = restored_as d cid) /\
  (forall e, (device_restore_state d raw).2 = Err e -> (device_restore_state d raw).1 = d) /\
  device_restore_state d (device_snapshot_state d0) = (restored_as d (vd_guest_cid d0), Ok tt).
Proof.
  intros (Hcid0 & _) Hraw.
  assert (Hu : forall cid, MIN_GUEST_CID <= cid < CID_ANY -> is_u64 cid)
    by (unfold is_uint, MIN_GUEST_CID, CID_ANY; lia).
  assert (Hre : forall cid b, MIN_GUEST_CID <= cid < CID_ANY -> all_bytes b ->
    b = vsock_state_to_bytes (mkVsockState VIRTIO_VSOCK_DEVICE_ID VSOCK_FEATURES cid) ->
    device_restore_state d b = (restored_as d cid, Ok tt)).
  { intros cid b Hc Hb Heq. apply vsock_record_decodes in Heq; [ | done | by apply Hu].
    simpl. unfold vsock_restore_state. rewrite Heq. unfold vsock_state_apply, set_guest_cid, check_cid. simpl.
    destruct (Z.ltb_spec cid MIN_GUEST_CID); [lia | ]. destruct (Z.geb_spec cid CID_ANY); [lia | done]. }
  split; [ | split].
  - intros d'. split; [ | by intros (cid & Hc & Hr & ->); apply Hre].
    simpl. unfold vsock_restore_state. destruct (vsock_state_from_bytes raw) as [[id ft cid] | ] eqn:Hf; [ | done].
    unfold vsock_state_apply; simpl.
    destruct (Z.eqb_spec id VIRTIO_VSOCK_DEVICE_ID) as [-> | ]; [ | done].
    destruct (Z.eqb_spec ft VSOCK_FEATURES) as [-> | ]; [ | done]. simpl. unfold set_guest_cid.
    destruct (check_cid cid) as [u | ] eqn:Hc; [ | done]. intros [= <-]. apply check_cid_ok in Hc.
    exists cid. split_and!; [lia.. | by apply vsock_record_decodes; [ | apply Hu | ] | done].
  - intros e. simpl. unfold vsock_restore_state, vsock_state_apply, set_guest_cid.
    destruct (vsock_state_from_bytes raw) as [s | ]; [ | done]. destruct (_ || _); [done | ].
    by destruct (check_cid _).
  - apply Hre; [done | | done]. apply Forall_app. split; [by repeat constructor | ].
    repeat (apply Forall_app; split); apply le_bytes_all_bytes.
Qed.

(** * A sample guest: a connection request at 0x40, then three bytes of data at 0x80 *)

Definition sample_request : VsockHeader :=
  mkVsockHeader 3 HOST_CID 1024 SOMA_CONTROL_PORT 0 VSOCK_TYPE_STREAM VSOCK_OP_REQUEST 0 4096 0.
Definition sample_rw : VsockHeader :=
  mkVsockHeader 3 HOST_CID 1024 SOMA_CONTROL_PORT 3 VSOCK_TYPE_STREAM VSOCK_OP_RW 0 4096 0.

Definition vsock_memory : VecGuestMemory :=
  mkVecGuestMemory
    [mkRegion 0 (descriptor_to_bytes (mkDescriptor 64 44 0 0) ++ descriptor_to_bytes (mkDescriptor 128 47 0 0) ++
                 repeat 0 32 ++ header_to_bytes sample_request ++ repeat 0 20 ++ header_to_bytes sample_rw ++
                 [7; 8; 9])].

Definition request_chain : DescriptorChain := mkDescriptorChain 0 [mkChainSegment 64 44 false] 44 0.
Definition rw_chain : DescriptorChain := mkDescriptorChain 1 [mkChainSegment 128 47 false] 47 0.

Lemma vsock_memory_wf : mem_wf vsock_memory.
Proof. by vm_compute; repeat (split || constructor). Qed.

Lemma vsock_chains_safe :
  chain_safe vsock_memory 2 PACKET_LIMITS request_chain /\ chain_safe vsock_memory 2 PACKET_LIMITS rw_chain.
Proof.
  split.
  - eapply (walk_chain_safe vsock_memory 0 2 0); [exact vsock_memory_wf | by vm_compute..].
  - eapply (walk_chain_safe vsock_memory 0 2 1); [exact vsock_memory_wf | by vm_compute..].
Qed.

Definition fresh_vsock : VsockDevice := mkVsockDevice 3 0 None [] [] false (mkVsockCounters 0 0 0 0 0 0).
Definition connected_vsock : VsockDevice :=
  Eval vm_compute in (handle_tx (handle_tx fresh_vsock request_chain vsock_memory).1 rw_chain vsock_memory).1.

Lemma connected_reached : rtc vstep fresh_vsock connected_vsock.
Proof.
  change connected_vsock
    with (handle_tx (handle_tx fresh_vsock request_chain vsock_memory).1 rw_chain vsock_memory).1.
  destruct vsock_chains_safe as [Hrq Hrw].
  eapply rtc_l; [by apply (vstep_tx _ vsock_memory 2 PACKET_LIMITS request_chain vsock_memory_wf) | ].
  apply rtc_once. by apply (vstep_tx _ vsock_memory 2 PACKET_LIMITS rw_chain vsock_memory_wf).
Qed.

Lemma vsock_invariant_witness :
  vsock_ok connected_vsock /\ (ep_from_guest <$> vd_endpoint connected_vsock) = Some [7; 8; 9].
Proof.
  split; [ | reflexivity]. apply (vsock_invariant 3 fresh_vsock connected_vsock eq_refl connected_reached).
Defined.

Lemma connection_in_order_witness :
  exists e, endpoint_accept 1024 1 4096 0 = Ok e /\
    in_order (foldl stream_step (e, mkStreamLog [] [] [] [])
      [StreamOp_push [1; 2; 3]; StreamOp_read 2; StreamOp_write [5; 6]; StreamOp_send 1; StreamOp_close]).
Proof.
  eexists. split; [reflexivity | ]. eapply (connection_in_order 1024 1 4096 0);
    [by vm_compute.. | reflexivity | by repeat constructor].
Defined.

Lemma outbound_packet_witness :
  exists d' h, next_outbound connected_vsock 100 = (d', Some (h, [])) /\ hdr_op h = VSOCK_OP_RESPONSE /\
    vsock_ok d'.
Proof.
  eexists _, _. split; [reflexivity | ]. split; [reflexivity | ].
  eapply (outbound_packet connected_vsock 100); [ | reflexivity].
  eapply vsteps_ok; [exact connected_reached | by apply (vsock_new_ok 3)].
Defined.

Lemma parse_tx_exact_witness :
  parse_tx vsock_memory rw_chain 3 = Ok sample_rw /\ exists payload,
    readable_bytes vsock_memory rw_chain = header_to_bytes sample_rw ++ payload.
Proof.
  destruct (parse_tx_exact vsock_memory 2 PACKET_LIMITS rw_chain 3 sample_rw vsock_memory_wf
    (proj2 vsock_chains_safe)) as [Hto _].
  split; [by vm_compute | ]. destruct Hto as (_ & _ & payload & Hp & _); [by vm_compute | ]. by exists payload.
Defined.

Lemma connection_isolated_witness :
  (handle_tx connected_vsock rw_chain vsock_memory).2 = Ok tt /\
  vd_endpoint (handle_tx connected_vsock rw_chain vsock_memory).1 <> vd_endpoint connected_vsock.
Proof.
  destruct (connection_isolated vsock_memory 2 PACKET_LIMITS connected_vsock rw_chain vsock_memory_wf
    (proj2 vsock_chains_safe)) as [Hok _]. split; [exact Hok | ]. by vm_compute.
Defined.

Lemma vsock_restore_witness :
  device_restore_state connected_vsock (device_snapshot_state fresh_vsock) =
  (restored_as connected_vsock 3, Ok tt).
Proof.
  apply (vsock_restore connected_vsock fresh_vsock []); [by apply (vsock_new_ok 3) | by constructor].
Defined.
