(* ===== verification/VsockRx.v ===== *)
(** Delivery of host packets and transport events to the guest
    ([crates/soma-kvm/src/virtio/devices/vsock/rx.rs]): the bounded loop and its account. *)

From S2P Require Import Prelude Bytes GuestMemory QueueChain Virtqueue VirtqueueFacts Transport TransportFacts TransportProps Segments Service VsockStream Vsock VsockFacts VsockProps.
From stdpp Require Import options.

(** * The code *)

(** What [build] makes of the device for a chain; [None]: nothing fits it. *)
Definition Builder : Type := VsockDevice -> DescriptorChain -> VsockDevice * option bytes.

Definition build_rx : Builder := fun device chain =>
  let hdr := Z.of_nat VSOCK_HDR_LEN in
  if negb (chain_readable_len chain =? 0) || (chain_writable_len chain <? hdr)
  then (count_rx_dropped device, Some [])
  else
    let cap := Z.min (chain_writable_len chain - hdr) MAX_PAYLOAD_LEN in
    match next_outbound device (Z.to_nat cap) with
    | (device, None) => (device, None)
    | (device, Some (header, payload)) => (count_rx_packet device, Some (header_to_bytes header ++ payload))
    end.

Definition build_event : Builder := fun device chain =>
  if negb (chain_readable_len chain =? 0) || (chain_writable_len chain <? 4)
  then (count_rx_dropped device, Some [])
  else match pop_event device with
  | (device, None) => (device, None)
  | (device, Some event) => (device, Some (le_bytes 4 event))
  end.

Definition has_work (queue : Z) (device : VsockDevice) : bool :=
  if queue =? VSOCK_EVENT_QUEUE then (0 <? length (vd_events device))%nat else has_outbound device.

Section code.
Context {M : Type} `{GuestMemory M}.

(** [continue] is the rest of the loop after a completion that succeeded. *)
Definition deliver_complete
    (continue : ServiceReport -> MmioTransport VsockDevice -> M ->
                option (MmioTransport VsockDevice * M * Result ServiceReport ServiceError))
    (queue : Z) (chain : DescriptorChain) (used : Z) (report : ServiceReport)
    (t : MmioTransport VsockDevice) (mem : M)
    : option (MmioTransport VsockDevice * M * Result ServiceReport ServiceError) :=
  let '(t, mem, completed) := complete_used queue chain used t mem in
  match completed with
  | Err violation => Some (set_needs_reset t, mem, Err (ServiceError_Transport violation))
  | Ok notify =>
      continue (mkServiceReport (saturating_add U32_MAX (report_completed report) 1)
                  (report_rejected report) (report_interrupt report || notify)
                  (report_exhausted report)) t mem
  end.

(** The part of an iteration after a chain was popped. *)
Definition deliver_chain
    (continue : ServiceReport -> MmioTransport VsockDevice -> M ->
                option (MmioTransport VsockDevice * M * Result ServiceReport ServiceError))
    (build : Builder) (queue : Z) (chain : DescriptorChain) (report : ServiceReport)
    (t : MmioTransport VsockDevice) (mem : M)
    : option (MmioTransport VsockDevice * M * Result ServiceReport ServiceError) :=
  match build (t_device t) chain with
  | (device, None) =>
      deliver_complete continue queue chain 0 report (t_set_device t (count_rx_dropped device)) mem
  | (device, Some b) =>
      let t := t_set_device t device in
      let '(mem, written) := write_writable mem chain 0 b in
      match written with
      | Ok n =>
          if (n =? length b)%nat
          then deliver_complete continue queue chain (u32_or_max n) report t mem
          else Some (set_needs_reset t, mem, Err (ServiceError_Fault DeviceFault_Protocol))
      | Err _ => Some (set_needs_reset t, mem, Err (ServiceError_Fault DeviceFault_Protocol))
      end
  end.

Fixpoint deliver_loop (build : Builder) (queue : Z) (remaining : nat) (report : ServiceReport)
    (t : MmioTransport VsockDevice) (mem : M)
    : option (MmioTransport VsockDevice * M * Result ServiceReport ServiceError) :=
  match remaining with
  | O => Some (t, mem, Ok (mkServiceReport (report_completed report) (report_rejected report)
                             (report_interrupt report) true))
  | S remaining =>
      match t_queues t !! Z.to_nat queue with
      | None => Some (t, mem, Err (ServiceError_Transport (TransportViolation_NotifyOutOfRange queue)))
      | Some ring =>
          if negb (has_work queue (t_device t)) then Some (t, mem, Ok report)
          else
            let '(ring, available) := pending mem ring in
            let t := set_ring t queue ring in
            match available with
            | Err violation => Some (set_needs_reset t, mem, Err (ServiceError_Queue violation))
            | Ok n =>
                if n =? 0 then Some (t, mem, Ok report)
                else match pop_descriptor_chain mem (chain_limits_for queue) ring with
                | None => None
                | Some (ring, popped) =>
                    let t := set_ring t queue ring in
                    match popped with
                    | Ok None => Some (t, mem, Ok report)
                    | Err (QueueViolation_Chain _ _) =>
                        deliver_loop build queue remaining
                          (mkServiceReport (report_completed report)
                             (saturating_add U32_MAX (report_rejected report) 1)
                             (report_interrupt report) (report_exhausted report)) t mem
                    | Err violation => Some (set_needs_reset t, mem, Err (ServiceError_Queue violation))
                    | Ok (Some chain) =>
                        deliver_chain (deliver_loop build queue remaining) build queue chain report t mem
                    end
                end
            end
      end
  end.

Definition deliver (build : Builder) (queue budget : Z) (t : MmioTransport VsockDevice) (mem : M)
    : option (MmioTransport VsockDevice * M * Result ServiceReport ServiceError) :=
  if negb (is_active t)
  then Some (t, mem, Err (ServiceError_Transport TransportViolation_NotifyBeforeDriverOk))
  else deliver_loop build queue (Z.to_nat budget) service_report_default t mem.

Definition deliver_rx (t : MmioTransport VsockDevice) (mem : M) (budget : Z) := deliver build_rx VSOCK_RX_QUEUE budget t mem.
Definition deliver_events (t : MmioTransport VsockDevice) (mem : M) := deliver build_event VSOCK_EVENT_QUEUE 64 t mem.
End code.

(** * What the builders promise *)

(** The bytes always fit the chain, so a write of them is never short. *)
Definition builder_ok (build : Builder) : Prop :=
  forall device chain, vsock_ok device -> 0 <= chain_writable_len chain ->
    vsock_ok (build device chain).1 /\
    (forall b, (build device chain).2 = Some b ->
       all_bytes b /\ Z.of_nat (length b) <= chain_writable_len chain /\ Z.of_nat (length b) < 2 ^ 32).

Lemma header_all_bytes h : all_bytes (header_to_bytes h).
Proof. unfold header_to_bytes. repeat (apply Forall_app; split); apply le_bytes_all_bytes. Qed.

Lemma build_rx_ok : builder_ok build_rx.
Proof.
  intros device chain Hd Hw. unfold build_rx. cbv zeta.
  destruct (negb (chain_readable_len chain =? 0)); cbn [orb].
  { split; [done | ]. intros b [= <-]. split_and!; [by constructor | done | simpl; lia]. }
  destruct (Z.ltb_spec (chain_writable_len chain) (Z.of_nat VSOCK_HDR_LEN)) as [Hs | Hs].
  { split; [done | ]. intros b [= <-]. split_and!; [by constructor | done | simpl; lia]. }
  set (cap := Z.to_nat (Z.min (chain_writable_len chain - Z.of_nat VSOCK_HDR_LEN) MAX_PAYLOAD_LEN)).
  destruct (next_outbound_ok device cap Hd) as [Hd' Hp].
  destruct (next_outbound device cap) as [d' [[h payload] | ]]; [ | done].
  destruct (Hp h payload eq_refl) as (_ & _ & Hcap & Hall & _). split; [done | ].
  intros b Hb. assert (b = header_to_bytes h ++ payload) as -> by (symmetry; exact (inj Some _ _ Hb)).
  rewrite length_app, length_header. unfold VSOCK_HDR_LEN, MAX_PAYLOAD_LEN in *.
  split; [apply Forall_app; split; [apply header_all_bytes | done] | ]. unfold cap in Hcap. lia.
Qed.

Lemma build_event_ok : builder_ok build_event.
Proof.
  intros device chain Hd Hw. unfold build_event.
  destruct (negb (chain_readable_len chain =? 0)); cbn [orb].
  { split; [done | ]. intros b [= <-]. split_and!; [by constructor | done | simpl; lia]. }
  destruct (Z.ltb_spec (chain_writable_len chain) 4) as [Hs | Hs].
  { split; [done | ]. intros b [= <-]. split_and!; [by constructor | done | simpl; lia]. }
  pose proof (pop_event_ok device Hd) as Hd'. destruct (pop_event device) as [d' [event | ]]; [ | done].
  split; [done | ]. intros b Hb. assert (b = le_bytes 4 event) as -> by (symmetry; exact (inj Some _ _ Hb)).
  rewrite length_le_bytes. split_and!; [apply le_bytes_all_bytes | lia..].
Qed.

(** * The account of a delivery pass *)

Section pass.
Context {M : Type} `{GuestMemoryLaws M}.
Context (build : Builder) (Hbuild : builder_ok build).

(** A pass that used up its budget says so, and only then. *)
Definition told_exhausted (budget : Z) (report : ServiceReport) (_ : Queue) (_ : M) : Prop :=
  report_exhausted report = true -> report_completed report + report_rejected report = budget.

(** The errors a delivery may stop with: the ring's and the transport's. *)
Definition no_fault (e : ServiceError) : Prop :=
  match e with ServiceError_Fault _ => False | _ => True end.

(** The work so far and the work left make the budget. *)
Definition paced (budget : Z) (n : nat) (report : ServiceReport) : Prop :=
  report_completed report + report_rejected report + Z.of_nat n = budget.

Abbreviation deliver_pass_ok budget := (pass_ok (D:=VsockDevice) (M:=M) vsock_ok (told_exhausted budget) no_fault).

Lemma deliver_chain_pass budget queue n report q q1 l chain (t : MmioTransport VsockDevice) (mem : M) :
  passes vsock_ok (told_exhausted budget) no_fault n (deliver_loop build queue n) queue (paced budget n) ->
  system_ok (t, mem) -> rtc tstep (t, mem) (set_ring t queue q1, mem) -> room report (S n) ->
  paced budget (S n) report -> t_queues t !! Z.to_nat queue = Some q -> vsock_ok (t_device t) ->
  advanced q q1 1 0 -> q_layout q1 = Some l ->
  chain_safe mem (layout_size l) (chain_limits_for queue) chain ->
  exists out,
    deliver_chain (deliver_loop build queue n) build queue chain report (set_ring t queue q1) mem = Some out /\
    deliver_pass_ok budget queue (S n) report q t mem out.
Proof using Type*.
  intros Hnext Hok Hrun1 Hroom Hpaced Hi Hinv Hadv Hl1 Hsafe. unfold deliver_chain.
  change (t_device (set_ring t queue q1)) with (t_device t).
  destruct (chain_safe_segments _ _ _ _ Hsafe) as [_ Hw].
  pose proof Hsafe as (_ & _ & _ & _ & _ & Hcap & _).
  destruct (segment_total_zero _ _ Hw) as [Hnn _]. rewrite <- Hcap in Hnn.
  destruct (Hbuild (t_device t) chain Hinv Hnn) as [Hinv2 Hbytes].
  destruct (build (t_device t) chain) as [device built]; simpl in Hinv2, Hbytes.
  assert (Hdone : forall device' mem' len, vsock_ok device' -> mem_wf mem' -> mem_regions mem' = mem_regions mem ->
    0 <= len -> exists out,
      deliver_complete (deliver_loop build queue n) queue chain len report
        (t_set_device (set_ring t queue q1) device') mem' = Some out /\
      deliver_pass_ok budget queue (S n) report q t mem out).
  { intros device' mem' len Hd' Hwf' Hr' Hlen.
    apply (publish_pass vsock_ok (told_exhausted budget) no_fault n (deliver_loop build queue n) queue (paced budget n)
      report q q1 l chain len t (t_set_device (set_ring t queue q1) device') mem mem'); try done.
    - eapply rtc_r; [eapply rtc_r; [exact Hrun1 | by apply (tstep_device (set_ring t queue q1) mem device')]
                    | by apply tstep_guest].
    - apply list_lookup_insert_eq. by eapply lookup_lt_Some.
    - intros notify. destruct (room_next report n notify Hroom) as (_ & _ & Hc & _).
      unfold paced in *. rewrite Hc. simpl. lia. }
  destruct built as [b | ]; [ | by apply Hdone; [apply set_counters_ok | apply Hok | | ]].
  destruct (Hbytes b eq_refl) as (Hall & Hfit & Hu).
  destruct (write_writable_scatters mem chain 0 b (proj1 Hok) Hw ltac:(lia) Hall) as (mem' & -> & Hwf' & Hr' & _).
  pose proof (length_window _ _ 0 (length b) Hw ltac:(lia)) as Hwin. rewrite <- Hcap in Hwin.
  destruct (Nat.eqb_spec (length (window (chain_writable chain) 0 (length b))) (length b)) as [_ | Hne]; [ | lia].
  apply Hdone; try done. unfold u32_or_max, U32_MAX. lia.
Qed.

Lemma deliver_loop_pass budget queue n :
  passes vsock_ok (told_exhausted budget) no_fault n (deliver_loop build queue n) queue (paced budget n).
Proof using Type*.
  induction n as [ | n IH]; intros report q t mem Hok Hi Hinv Hroom Hpaced.
  { eexists. split; [done | ]. apply pass_idle; try done. intros _. unfold paced in Hpaced. simpl in *. lia. }
  pose proof Hok as [Hwf Ht]. pose proof (proj1 (transport_queue_ok _ _ _ _ Ht Hi)) as Hq.
  assert (Hidle : deliver_pass_ok budget queue (S n) report q t mem (t, mem, Ok report)).
  { apply pass_idle; try done. intros He. destruct Hroom as [Hno _]. by rewrite Hno in He. }
  cbn [deliver_loop]. rewrite Hi. destruct (has_work queue (t_device t)); cbn [negb]; [ | by eexists].
  assert (Hrun0 : rtc tstep (t, mem) (set_ring t queue (pending mem q).1, mem))
    by (by apply rtc_once, tstep_pending).
  destruct (pending mem q) as [q0 [available | v]] eqn:Hp; simpl in Hrun0;
    [ | by eexists; split; [ | apply pass_stops]].
  apply pending_keeps in Hp as ->; [ | done | done]. rewrite set_ring_same by done.
  destruct (available =? 0); [by eexists | ].
  destruct (pop_accounts mem _ q Hwf Hq (chain_limits_for_wf queue)) as (q1 & r & Hpop & Hacc). rewrite Hpop.
  assert (Hrun1 : rtc tstep (t, mem) (set_ring t queue q1, mem))
    by (eapply rtc_once, tstep_pop; [done | apply chain_limits_for_wf | done]).
  destruct r as [[chain | ] | e].
  - destruct Hacc as (Hadv & l & Hl & Hsafe). eapply deliver_chain_pass; try done.
    by destruct Hadv as ((_ & _ & _ & _ & _ & -> & _) & _).
  - destruct Hacc as (-> & _). rewrite set_ring_same by done. by eexists.
  - assert (Hstop : exists out, Some (set_needs_reset (set_ring t queue q1), mem, Err (ServiceError_Queue e)) =
      Some out /\ deliver_pass_ok budget queue (S n) report q t mem out)
      by (eexists; split; [done | by apply pass_stops]).
    destruct e; try exact Hstop. apply (reject_pass _ _ _ n _ _ (paced budget n)); try done.
    unfold paced in *. destruct (room_next report n false Hroom) as (_ & _ & _ & Hr). rewrite Hr. simpl. lia.
Qed.
End pass.

Lemma deliver_run {M} `{GuestMemoryLaws M} build queue budget q (t : MmioTransport VsockDevice) (mem : M) :
  builder_ok build -> system_ok (t, mem) -> is_active t = true ->
  t_queues t !! Z.to_nat queue = Some q -> vsock_ok (t_device t) -> is_u32 budget ->
  exists out, deliver build queue budget t mem = Some out /\
    pass_ok vsock_ok (told_exhausted budget) no_fault queue (Z.to_nat budget) service_report_default q t mem out /\
    system_ok out.1.
Proof.
  intros Hb Hok Ha Hi Hinv Hu. unfold deliver. rewrite Ha. cbn [negb]. unfold is_uint in Hu.
  destruct (deliver_loop_pass build Hb budget queue (Z.to_nat budget) service_report_default q t mem)
    as (out & Hout & Hpass); try done.
  { unfold room, U32_MAX. simpl. split_and!; [done | lia..]. }
  { unfold paced. simpl. lia. }
  exists out. split_and!; [done | done | ]. destruct out as [[t' mem'] r].
  destruct Hpass as [Hrun _]. by apply (tsteps_ok _ _ Hrun).
Qed.

(** Delivery to the guest always ends within its budget and accounts for every buffer
    it took, for packets and for events: on an active transport the available cursor
    advanced by completed plus rejected and the used cursor by completed, no other queue
    or status bit changed, [exhausted] is only reported when the whole budget was used,
    and a pass that stops early leaves the device marked [DEVICE_NEEDS_RESET] with no
    ready queue.  What is delivered is sized to the buffer it goes into, so a delivery
    never stops with a device fault; the transport's and the device's invariants are
    kept. *)
Theorem deliver_pass {M} `{GuestMemoryLaws M} (t : MmioTransport VsockDevice) (mem : M) q budget :
  system_ok (t, mem) -> is_active t = true -> vsock_ok (t_device t) -> is_u32 budget ->
  (t_queues t !! Z.to_nat VSOCK_RX_QUEUE = Some q ->
     exists out, deliver_rx t mem budget = Some out /\ system_ok out.1 /\
       pass_ok vsock_ok (told_exhausted budget) no_fault VSOCK_RX_QUEUE (Z.to_nat budget)
         service_report_default q t mem out) /\
  (t_queues t !! Z.to_nat VSOCK_EVENT_QUEUE = Some q ->
     exists out, deliver_events t mem = Some out /\ system_ok out.1 /\
       pass_ok vsock_ok (told_exhausted 64) no_fault VSOCK_EVENT_QUEUE 64 service_report_default q t mem out).
Proof.
  intros Hok Ha Hinv Hb. split; intros Hi.
  - destruct (deliver_run build_rx VSOCK_RX_QUEUE budget q t mem build_rx_ok) as (out & ? & ? & ?); try done.
    by exists out.
  - destruct (deliver_run build_event VSOCK_EVENT_QUEUE 64 q t mem build_event_ok) as (out & ? & ? & ?); try done.
    by exists out.
Qed.

(** * A restored device that owes the guest one event *)

Definition event_queue : Queue := ring_queue_of 64.
Definition idle_queue : Queue := mkQueue 256 256 0 0 0 None false 0 0 queue_counters_default.

Definition vsock_transport : MmioTransport VsockDevice :=
  mkMmioTransport (restored_as fresh_vsock 3) [idle_queue; idle_queue; event_queue]
    15 0 0 VIRTIO_F_VERSION_1 0 0 0 (replicate TRANSPORT_KIND_COUNT 0).

Lemma vsock_transport_ok : system_ok (vsock_transport, ring_memory).
Proof.
  split; [exact ring_memory_wf | ]. unfold transport_ok; cbn [t_status t_driver_features t_queues fst snd].
  split_and!; [by apply status_okb_spec | by intros _; split | | done | by vm_compute..].
  assert (Hidle : queue_ok (mem_regions ring_memory) idle_queue) by (by apply (queue_new_ok _ 256)).
  apply Forall_cons. split; [by split | ]. apply Forall_cons. split; [by split | ].
  apply Forall_singleton. split; [apply (ring_queue_of_ok 64); by auto | done].
Qed.

Lemma restored_vsock_ok : vsock_ok (t_device vsock_transport).
Proof.
  change (t_device vsock_transport) with (after_restore fresh_vsock).
  assert (Hr : vsock_restore_state fresh_vsock (device_snapshot_state fresh_vsock) =
    (after_restore fresh_vsock, Ok tt)) by (by vm_compute).
  pose proof (vsock_restore_ok fresh_vsock (device_snapshot_state fresh_vsock)) as Hok.
  rewrite Hr in Hok. apply Hok. by apply (vsock_new_ok 3).
Qed.

Lemma deliver_pass_witness :
  exists out, deliver_events vsock_transport ring_memory = Some out /\
    out.2 = Ok (mkServiceReport 1 0 true false) /\ system_ok out.1.
Proof.
  destruct (deliver_pass vsock_transport ring_memory event_queue 8 vsock_transport_ok eq_refl restored_vsock_ok)
    as [_ He]; [by vm_compute | ]. destruct (He eq_refl) as (out & Hout & Hok & _).
  exists out. split; [exact Hout | ]. split; [ | exact Hok].
  vm_compute in Hout. injection Hout as <-. reflexivity.
Defined.
