(* ===== verification/Bus.v ===== *)
(** The device bus ([crates/soma-kvm/src/virtio/bus.rs], [bus/table.rs], [bus/access.rs],
    [bus/slots.rs]): the fixed table of slots, dispatch of guest accesses, servicing and
    delivery by slot, snapshot records, and the assignment of an Instance's resources to the
    devices of a restored machine. *)

From Stdlib Require Import String.
From S2P Require Import Prelude Bytes GuestMemory QueueChain Virtqueue Transport Segments Service Rng Block Net VsockStream Vsock VsockRx.
From stdpp Require Import options.

(** * The table ([table.rs]) *)

Definition MMIO_WINDOW_BASE : Z := 0xd0000000.
Definition SLOT_COUNT : nat := 5.
Definition FIRST_GSI : Z := 5.
Definition REG_QUEUE_NOTIFY : Z := 0x050.

Inductive Slot : Type := Slot_Root | Slot_Overlay | Slot_Net | Slot_Vsock | Slot_Rng.

#[export] Instance Slot_eq_dec : EqDecision Slot.
Proof. solve_decision. Defined.

Definition SLOT_ALL : list Slot := [Slot_Root; Slot_Overlay; Slot_Net; Slot_Vsock; Slot_Rng].

Definition slot_index (s : Slot) : Z :=
  match s with Slot_Root => 0 | Slot_Overlay => 1 | Slot_Net => 2 | Slot_Vsock => 3 | Slot_Rng => 4 end.

Definition slot_base (s : Slot) : Z := MMIO_WINDOW_BASE + MMIO_PAGE_SIZE * slot_index s.
Definition slot_end (s : Slot) : Z := slot_base s + MMIO_PAGE_SIZE - 1.
Definition notify_addr (s : Slot) : Z := slot_base s + REG_QUEUE_NOTIFY.
Definition slot_gsi (s : Slot) : Z := FIRST_GSI + slot_index s.

Definition slot_device_id (s : Slot) : Z :=
  match s with Slot_Root | Slot_Overlay => 2 | Slot_Net => 1 | Slot_Vsock => 19 | Slot_Rng => 4 end.

Definition queue_count (s : Slot) : nat :=
  match s with Slot_Root | Slot_Overlay | Slot_Rng => 1 | Slot_Net => 2 | Slot_Vsock => 3 end.

Definition from_gpa (gpa : Z) : option (Slot * Z) :=
  if gpa <? MMIO_WINDOW_BASE then None
  else
    let relative := gpa - MMIO_WINDOW_BASE in
    match SLOT_ALL !! Z.to_nat (relative / MMIO_PAGE_SIZE) with
    | Some slot => Some (slot, relative mod MMIO_PAGE_SIZE)
    | None => None
    end.

(** [{:x}] of a 64-bit number. *)
Fixpoint hex_go (fuel : nat) (n : Z) (acc : bytes) : bytes :=
  match fuel with
  | O => acc
  | S fuel =>
      let acc := hex_digit (n mod 16) :: acc in
      if n / 16 =? 0 then acc else hex_go fuel (n / 16) acc
  end.

Definition command_line_entry (s : Slot) : bytes :=
  str "virtio_mmio.device=4K@0x" ++ hex_go 16 (slot_base s) [] ++ str ":" ++ dec (slot_gsi s) ++ str ":" ++
  dec (slot_index s).

Record DeviceSet : Type := mkDeviceSet {
  set_overlay : bool;
  set_net : bool
}.

#[export] Instance DeviceSet_eq_dec : EqDecision DeviceSet.
Proof. solve_decision. Defined.

Definition DEVICE_SET_FULL : DeviceSet := mkDeviceSet true true.

Definition set_has (s : DeviceSet) (slot : Slot) : bool :=
  match slot with
  | Slot_Root | Slot_Vsock | Slot_Rng => true
  | Slot_Overlay => set_overlay s
  | Slot_Net => set_net s
  end.

Definition present (s : DeviceSet) : list Slot := List.filter (set_has s) SLOT_ALL.

Definition kernel_command_line (devices : DeviceSet) : bytes := join_sp (command_line_entry <$> present devices).

(** * Accesses ([access.rs]) *)

Inductive BusConfigError : Type :=
| BusConfigError_BlockRole (slot : Slot) (role : BlockRole)
| BusConfigError_Transport (slot : Slot) (error : TransportConfigError).

Inductive BusViolation : Type :=
| BusViolation_UnmappedAddress (gpa : Z)
| BusViolation_Transport (slot : Slot) (violation : TransportViolation).

Record BusEvent : Type := mkBusEvent {
  event_slot : Slot;
  event_event : TransportEvent
}.

Definition event_notify (e : BusEvent) : option (Slot * Z) :=
  match event_event e with TransportEvent_QueueNotify queue => Some (event_slot e, queue) | _ => None end.

Class IrqSink (S : Type) : Type := {
  sink_error : Type;
  sink_signal : S -> Z -> S * Result unit sink_error;
}.

Class NotifySource (S : Type) : Type := {
  source_error : Type;
  source_register : S -> Z -> Slot -> Z -> S * Result unit source_error;
}.

(** * The bus ([bus.rs]) *)

Section bus.
Context {B : Type} `{BlockBackend B} {NB : Type} `{NetBackend NB} {E : Type} `{EntropyBackend E}.

Record BusDevices : Type := mkBusDevices {
  dev_root : BlockDevice B;
  dev_overlay : option (BlockDevice B);
  dev_net : option (NetDevice NB);
  dev_vsock : VsockDevice;
  dev_rng : RngDevice E
}.

Definition devices_set (d : BusDevices) : DeviceSet :=
  mkDeviceSet (bool_decide (is_Some (dev_overlay d))) (bool_decide (is_Some (dev_net d))).

Record MmioBus : Type := mkMmioBus {
  bus_root : MmioTransport (BlockDevice B);
  bus_overlay : option (MmioTransport (BlockDevice B));
  bus_net : option (MmioTransport (NetDevice NB));
  bus_vsock : MmioTransport VsockDevice;
  bus_rng : MmioTransport (RngDevice E)
}.

Definition set_root (b : MmioBus) t := mkMmioBus t (bus_overlay b) (bus_net b) (bus_vsock b) (bus_rng b).
Definition set_overlay_t (b : MmioBus) t := mkMmioBus (bus_root b) (Some t) (bus_net b) (bus_vsock b) (bus_rng b).
Definition set_net_t (b : MmioBus) t := mkMmioBus (bus_root b) (bus_overlay b) (Some t) (bus_vsock b) (bus_rng b).
Definition set_vsock (b : MmioBus) t := mkMmioBus (bus_root b) (bus_overlay b) (bus_net b) t (bus_rng b).
Definition set_rng (b : MmioBus) t := mkMmioBus (bus_root b) (bus_overlay b) (bus_net b) (bus_vsock b) t.

(** [with_slot!]: the body against the slot's transport, [None] when the slot is absent. *)
Definition with_slot {A : Type} (b : MmioBus) (slot : Slot)
    (body : forall D, VirtioDevice D -> MmioTransport D -> MmioTransport D * A) : MmioBus * option A :=
  match slot with
  | Slot_Root => let '(t, a) := body _ _ (bus_root b) in (set_root b t, Some a)
  | Slot_Overlay =>
      match bus_overlay b with
      | Some t => let '(t, a) := body _ _ t in (set_overlay_t b t, Some a)
      | None => (b, None)
      end
  | Slot_Net =>
      match bus_net b with
      | Some t => let '(t, a) := body _ _ t in (set_net_t b t, Some a)
      | None => (b, None)
      end
  | Slot_Vsock => let '(t, a) := body _ _ (bus_vsock b) in (set_vsock b t, Some a)
  | Slot_Rng => let '(t, a) := body _ _ (bus_rng b) in (set_rng b t, Some a)
  end.

Definition check_role (slot : Slot) (device : BlockDevice B) (expected : BlockRole) : Result unit BusConfigError :=
  if bool_decide (bd_role device = expected) then Ok tt
  else Err (BusConfigError_BlockRole slot (bd_role device)).

Definition bus_transport {D} `{VirtioDevice D} (slot : Slot) (device : D) : Result (MmioTransport D) BusConfigError :=
  map_err (BusConfigError_Transport slot) (transport_new device).

(** [Option::map] to a result, then [transpose]. *)
Definition transpose_map {A C Er} (f : A -> Result C Er) (o : option A) : Result (option C) Er :=
  match o with Some a => map_ok Some (f a) | None => Ok None end.

Definition bus_new (d : BusDevices) : Result MmioBus BusConfigError :=
  let? _ := check_role Slot_Root (dev_root d) BlockRole_ImmutableRoot in
  let? _ := match dev_overlay d with
            | Some overlay => check_role Slot_Overlay overlay BlockRole_PrivateOverlay
            | None => Ok tt
            end in
  let? root := bus_transport Slot_Root (dev_root d) in
  let? overlay := transpose_map (bus_transport Slot_Overlay) (dev_overlay d) in
  let? net := transpose_map (bus_transport Slot_Net) (dev_net d) in
  let? vsock := bus_transport Slot_Vsock (dev_vsock d) in
  let? rng := bus_transport Slot_Rng (dev_rng d) in
  Ok (mkMmioBus root overlay net vsock rng).

Definition bus_device_set (b : MmioBus) : DeviceSet :=
  mkDeviceSet (bool_decide (is_Some (bus_overlay b))) (bool_decide (is_Some (bus_net b))).

Definition dispatch_read (b : MmioBus) (gpa : Z) (width : AccessWidth) : MmioBus * Result Z BusViolation :=
  match from_gpa gpa with
  | None => (b, Err (BusViolation_UnmappedAddress gpa))
  | Some (slot, offset) =>
      let '(b, r) := with_slot b slot (fun D _ t => transport_read offset width t) in
      (b, match r with
          | None => Err (BusViolation_UnmappedAddress gpa)
          | Some r => map_err (BusViolation_Transport slot) r
          end)
  end.

Definition dispatch_write {M} `{GuestMemory M} (b : MmioBus) (gpa : Z) (width : AccessWidth) (value : Z) (mem : M)
    : MmioBus * Result BusEvent BusViolation :=
  match from_gpa gpa with
  | None => (b, Err (BusViolation_UnmappedAddress gpa))
  | Some (slot, offset) =>
      let '(b, r) := with_slot b slot (fun D _ t => transport_write offset width value mem t) in
      (b, match r with
          | None => Err (BusViolation_UnmappedAddress gpa)
          | Some r => map_ok (mkBusEvent slot) (map_err (BusViolation_Transport slot) r)
          end)
  end.

Definition bus_interrupt_status (b : MmioBus) (slot : Slot) : Z :=
  match slot with
  | Slot_Root => t_interrupt_status (bus_root b)
  | Slot_Overlay => from_option t_interrupt_status 0 (bus_overlay b)
  | Slot_Net => from_option t_interrupt_status 0 (bus_net b)
  | Slot_Vsock => t_interrupt_status (bus_vsock b)
  | Slot_Rng => t_interrupt_status (bus_rng b)
  end.

Definition interrupt_pending (b : MmioBus) (slot : Slot) : bool := negb (bus_interrupt_status b slot =? 0).

Definition bus_signal {S} `{IrqSink S} (slot : Slot) (sink : S) : S * Result unit sink_error :=
  sink_signal sink (slot_gsi slot).

(** The [(slot, queue)] pairs in registration order. *)
Definition notify_pairs (s : DeviceSet) : list (Slot * Z) :=
  concat ((fun slot => (fun q => (slot, Z.of_nat q)) <$> seq 0 (queue_count slot)) <$> present s).

Fixpoint register_pairs {S} `{NotifySource S} (pairs : list (Slot * Z)) (source : S)
    : S * Result unit source_error :=
  match pairs with
  | [] => (source, Ok tt)
  | (slot, queue) :: pairs =>
      match source_register source (notify_addr slot) slot queue with
      | (source, Ok _) => register_pairs pairs source
      | (source, Err e) => (source, Err e)
      end
  end.

Definition register_notify_sources {S} `{NotifySource S} (b : MmioBus) (source : S)
    : S * Result unit source_error := register_pairs (notify_pairs (bus_device_set b)) source.

(** * Servicing, delivery and records ([slots.rs]) *)

Section slots.
Context {M : Type} `{GuestMemory M}.

(** What a pass over one slot leaves: the bus and guest memory, and the report. *)
Definition Served : Type := option (MmioBus * M * Result ServiceReport ServiceError).

Definition in_bus {T} (put : T -> MmioBus) (out : option (T * M * Result ServiceReport ServiceError)) : Served :=
  match out with Some (t, mem, r) => Some (put t, mem, r) | None => None end.

(** Two passes over the socket device, the second one's work added to the first's report. *)
Definition combine_passes (b : MmioBus) (first : option (MmioTransport VsockDevice * M * Result ServiceReport ServiceError))
    (second : MmioTransport VsockDevice -> M -> option (MmioTransport VsockDevice * M * Result ServiceReport ServiceError))
    : Served :=
  match first with
  | None => None
  | Some (t, mem, Err e) => Some (set_vsock b t, mem, Err e)
  | Some (t, mem, Ok report) =>
      match second t mem with
      | None => None
      | Some (t, mem, Err e) => Some (set_vsock b t, mem, Err e)
      | Some (t, mem, Ok more) =>
          Some (set_vsock b t, mem,
            Ok (mkServiceReport (saturating_add U32_MAX (report_completed report) (report_completed more))
                  (report_rejected report) (report_interrupt report || report_interrupt more)
                  (report_exhausted report)))
      end
  end.

Definition bus_service (b : MmioBus) (slot : Slot) (queue : Z) (mem : M) (budget : Z) : Served :=
  if queue >=? Z.of_nat (queue_count slot)
  then Some (b, mem, Err (ServiceError_Transport (TransportViolation_NotifyOutOfRange queue)))
  else match slot with
  | Slot_Root => in_bus (set_root b) (service_queue queue budget (bus_root b) mem)
  | Slot_Overlay =>
      match bus_overlay b with
      | Some overlay => in_bus (set_overlay_t b) (service_queue queue budget overlay mem)
      | None => Some (b, mem, Ok service_report_default)
      end
  | Slot_Net =>
      match bus_net b with
      | Some net =>
          if queue =? NET_RX_QUEUE then in_bus (set_net_t b) (net_deliver_rx net mem budget)
          else in_bus (set_net_t b) (service_queue queue budget net mem)
      | None => Some (b, mem, Ok service_report_default)
      end
  | Slot_Vsock =>
      if queue =? VSOCK_RX_QUEUE then in_bus (set_vsock b) (deliver_rx (bus_vsock b) mem budget)
      else if queue =? VSOCK_EVENT_QUEUE then in_bus (set_vsock b) (deliver_events (bus_vsock b) mem)
      else combine_passes b (service_queue queue budget (bus_vsock b) mem) (fun t mem => deliver_rx t mem budget)
  | Slot_Rng => in_bus (set_rng b) (service_queue queue budget (bus_rng b) mem)
  end.

Definition deliver_inbound (b : MmioBus) (slot : Slot) (mem : M) (budget : Z) : Served :=
  match slot with
  | Slot_Net =>
      match bus_net b with
      | Some net => in_bus (set_net_t b) (net_deliver_rx net mem budget)
      | None => Some (b, mem, Ok service_report_default)
      end
  | Slot_Vsock => combine_passes b (deliver_rx (bus_vsock b) mem budget) deliver_events
  | Slot_Root | Slot_Overlay | Slot_Rng => Some (b, mem, Ok service_report_default)
  end.

(** [queue.is_ready().then(|| queue.pending(mem))] on queue [index] of a transport. *)
Definition queue_pending (mem : M) (index : Z) (D : Type) (_ : VirtioDevice D) (t : MmioTransport D)
    : MmioTransport D * option (option (Result Z QueueViolation)) :=
  match t_queues t !! Z.to_nat index with
  | None => (t, None)
  | Some q =>
      if queue_is_ready q
      then let '(q, r) := pending mem q in (set_ring t index q, Some (Some r))
      else (t, Some None)
  end.

(** The counts are indexed by slot and queue; entries never written stay zero. *)
Definition PendingWork : Type := list (list Z).
Definition pending_default : PendingWork := replicate SLOT_COUNT (replicate MAX_QUEUES 0).
Definition set_pending (p : PendingWork) (slot : Slot) (index count : Z) : PendingWork :=
  alter (fun row => <[Z.to_nat index := count]> row) (Z.to_nat (slot_index slot)) p.

Fixpoint pending_loop (mem : M) (pairs : list (Slot * Z)) (b : MmioBus) (p : PendingWork)
    : MmioBus * Result PendingWork (Slot * Z * QueueViolation) :=
  match pairs with
  | [] => (b, Ok p)
  | (slot, index) :: pairs =>
      let '(b, queue) := with_slot b slot (queue_pending mem index) in
      match mjoin queue with
      | Some (Some (Ok count)) => pending_loop mem pairs b (set_pending p slot index count)
      | Some (Some (Err violation)) => (b, Err (slot, index, violation))
      | Some None | None => pending_loop mem pairs b p
      end
  end.

(** Every queue of every slot in table order, whether present or not. *)
Definition ALL_QUEUES : list (Slot * Z) := notify_pairs DEVICE_SET_FULL.

Definition pending_work (b : MmioBus) (mem : M) : MmioBus * Result PendingWork (Slot * Z * QueueViolation) :=
  pending_loop mem ALL_QUEUES b pending_default.
End slots.

Record SlotSnapshot : Type := mkSlotSnapshot {
  snap_slot : Slot;
  snap_transport : TransportState;
  snap_device : bytes
}.

Inductive SlotRestoreError : Type :=
| SlotRestoreError_SlotMismatch (expected actual : Slot)
| SlotRestoreError_SlotSetMismatch (expected actual : nat)
| SlotRestoreError_Device (slot : Slot) (error : DeviceStateError)
| SlotRestoreError_Transport (slot : Slot) (error : RestoreError).

(** Reading a slot changes nothing. *)
Definition slot_snapshot (b : MmioBus) (slot : Slot) : option SlotSnapshot :=
  (fun '(transport, device) => mkSlotSnapshot slot transport device) <$>
  (with_slot b slot (fun D _ t => (t, (transport_state t, device_snapshot_state (t_device t))))).2.

Definition snapshot_all (b : MmioBus) : list SlotSnapshot := omap (slot_snapshot b) (present (bus_device_set b)).

Fixpoint check_slots (expected : list Slot) (records : list SlotSnapshot) : Result unit SlotRestoreError :=
  match expected, records with
  | e :: expected, r :: records =>
      if bool_decide (snap_slot r = e) then check_slots expected records
      else Err (SlotRestoreError_SlotMismatch e (snap_slot r))
  | _, _ => Ok tt
  end.

Definition find_record (records : list SlotSnapshot) (slot : Slot) : option SlotSnapshot :=
  snd <$> list_find (fun r => snap_slot r = slot) records.

Definition apply_device {D} `{VirtioDevice D} (slot : Slot) (device : D) (record : SlotSnapshot)
    : Result D SlotRestoreError :=
  match device_restore_state device (snap_device record) with
  | (device, Ok _) => Ok device
  | (_, Err error) => Err (SlotRestoreError_Device slot error)
  end.

(** [if let (Some(device), Some(record))] around [apply_device]. *)
Definition apply_optional {D} `{VirtioDevice D} (slot : Slot) (device : option D) (record : option SlotSnapshot)
    : Result (option D) SlotRestoreError :=
  match device, record with
  | Some device, Some record => map_ok Some (apply_device slot device record)
  | _, _ => Ok device
  end.

Definition restore_transport {D} `{VirtioDevice D} {M} `{GuestMemory M} (slot : Slot) (device : D)
    (record : SlotSnapshot) (mem : M) : Result (MmioTransport D) SlotRestoreError :=
  map_err (SlotRestoreError_Transport slot) (transport_restore device (snap_transport record) mem).

Definition restore_optional {D} `{VirtioDevice D} {M} `{GuestMemory M} (slot : Slot) (device : option D)
    (record : option SlotSnapshot) (mem : M) : Result (option (MmioTransport D)) SlotRestoreError :=
  match device, record with
  | Some device, Some record => map_ok Some (restore_transport slot device record mem)
  | _, _ => Ok None
  end.

Definition bus_restore {M} `{GuestMemory M} (d : BusDevices) (records : list SlotSnapshot) (mem : M)
    : Result MmioBus SlotRestoreError :=
  let expected := present (devices_set d) in
  if negb (length records =? length expected)%nat
  then Err (SlotRestoreError_SlotSetMismatch (length expected) (length records))
  else
    let? _ := check_slots expected records in
    match find_record records Slot_Root, find_record records Slot_Vsock, find_record records Slot_Rng with
    | Some root_record, Some vsock_record, Some rng_record =>
        let overlay_record := find_record records Slot_Overlay in
        let net_record := find_record records Slot_Net in
        let? root := apply_device Slot_Root (dev_root d) root_record in
        let? overlay := apply_optional Slot_Overlay (dev_overlay d) overlay_record in
        let? net := apply_optional Slot_Net (dev_net d) net_record in
        let? vsock := apply_device Slot_Vsock (dev_vsock d) vsock_record in
        let? rng := apply_device Slot_Rng (dev_rng d) rng_record in
        let? root := restore_transport Slot_Root root root_record mem in
        let? overlay := restore_optional Slot_Overlay overlay overlay_record mem in
        let? net := restore_optional Slot_Net net net_record mem in
        let? vsock := restore_transport Slot_Vsock vsock vsock_record mem in
        let? rng := restore_transport Slot_Rng rng rng_record mem in
        Ok (mkMmioBus root overlay net vsock rng)
    | _, _, _ => Err (SlotRestoreError_SlotSetMismatch (length expected) (length records))
    end.

(** * Assigning an Instance's resources ([x86_64/sandbox/restored.rs], [network.rs]) *)

Inductive AssignError : Type :=
| AssignError_Vsock (error : VsockConfigError)
| AssignError_Io (errno : Z)
| AssignError_Block (error : BlockConfigError)
| AssignError_Disagree.

Record NetworkAttachment (T : Type) : Type := mkNetworkAttachment {
  attachment_tap : T;
  attachment_mac : bytes
}.
Arguments mkNetworkAttachment {T} _ _.
Arguments attachment_tap {T} _.
Arguments attachment_mac {T} _.

Section assign.
(** [Box::new] of a file-backed store and of a frame path, as the bus's backends. *)
Context {F : Type} `{HostFile F} (block_box : FileBackend F -> B).
Context {T : Type} (net_box : TapBackend T -> NB).

Definition attach_network (b : MmioBus) (network : NetworkAttachment T) : MmioBus :=
  match bus_net b with
  | Some net =>
      set_net_t b (t_set_device net
        (net_attach (t_device net) (net_box (mkTapBackend (attachment_tap network))) (attachment_mac network)))
  | None => b
  end.

Definition set_network_link (b : MmioBus) (up : bool) : MmioBus :=
  match bus_net b with
  | Some net => set_net_t b (t_set_device net (set_link (t_device net) up))
  | None => b
  end.

Definition attach_overlay (b : MmioBus) (backend : option B) : MmioBus * Result unit AssignError :=
  match bus_overlay b, backend with
  | Some overlay, Some backend =>
      let '(device, r) := block_attach (t_device overlay) backend in
      (set_overlay_t b (t_set_device overlay device), map_err AssignError_Block r)
  | None, None => (b, Ok tt)
  | _, _ => (b, Err AssignError_Disagree)
  end.

Definition assign_instance_resources (b : MmioBus) (overlay : option F) (guest_cid : Z)
    (network : option (NetworkAttachment T)) : MmioBus * Result unit AssignError :=
  match check_cid guest_cid with
  | Err e => (b, Err (AssignError_Vsock e))
  | Ok _ =>
      match transpose_map (fun file => file_backend_new file false) overlay with
      | Err e => (b, Err (AssignError_Io e))
      | Ok backend =>
          match attach_overlay b (block_box <$> backend) with
          | (b, Err e) => (b, Err e)
          | (b, Ok _) =>
              let '(device, r) := set_guest_cid (t_device (bus_vsock b)) guest_cid in
              let b := set_vsock b (t_set_device (bus_vsock b) device) in
              match r with
              | Err e => (b, Err (AssignError_Vsock e))
              | Ok _ => (match network with Some network => attach_network b network | None => b end, Ok tt)
              end
          end
      end
  end.

End assign.
End bus.
Arguments BusDevices : clear implicits.
Arguments MmioBus : clear implicits.
Arguments mkNetworkAttachment {T} _ _.
Arguments attachment_tap {T} _.
Arguments attachment_mac {T} _.
