(* ===== verification/BusRestore.v ===== *)
(** The bus against the devices behind it: what an access or a pass does to the slot it
    reaches, that nothing reaches another slot, and the invariant of the whole device set
    over every use. *)

From S2P Require Import Prelude Bytes GuestMemory QueueChain Virtqueue VirtqueueFacts Transport TransportFacts TransportProps Segments Service Rng Block BlockFacts BlockProps Net NetProps VsockStream Vsock VsockFacts VsockProps VsockRx Bus.
From stdpp Require Import options.

(** * One transport, with an invariant of its device *)

(** What driver accesses may do to a device keeps [I]. *)
Class Kept {D : Type} `{VirtioDevice D} (I : D -> Prop) : Prop := {
  kept_reset d : I d -> I (device_reset d);
  kept_activate d features : I d -> I (device_activate d features).1;
  kept_write_config d offset data : I d -> I (device_write_config d offset data).1;
}.

Definition slot_ok {D} `{VirtioDevice D} (I : D -> Prop) (regions : list (Z * Z)) (t : MmioTransport D) : Prop :=
  transport_ok regions t /\ I (t_device t).

Section access.
Context {D : Type} `{VirtioDeviceLaws D}.

Lemma read_device offset width (t : MmioTransport D) : t_device (transport_read offset width t).1 = t_device t.
Proof using H.
  unfold transport_read. destruct (register_decode offset) as [[] | ]; try done;
    [.. | unfold transport_read_config, st_bind;
          destruct (config_range_same offset0 (width_bytes width) t) as [-> | ->]; [ | done]; simpl;
          by destruct (device_read_config _ _ _)];
    (destruct (bool_decide (width <> AccessWidth_U32)); [done | ]); unfold st_bind, st_get; done.
Qed.

Lemma selected_device offset apply (t : MmioTransport D) :
  t_device (with_selected_queue offset apply t).1 = t_device t.
Proof using H.
  unfold with_selected_queue, st_bind, st_get. destruct (status_driver_ok _); [done | ].
  destruct (selected_queue t) as [q | ]; [ | done]. by destruct (apply q) as [q' [[] | v]].
Qed.

Context (I : D -> Prop) `{!Kept I}.

Lemma write_status_keeps value (t : MmioTransport D) :
  I (t_device t) -> I (t_device (write_status value t).1).
Proof using Type*.
  intros Hd. unfold write_status, st_bind at 1, st_get.
  destruct (classify_write (t_status t) value) as [[ | | bit] | v]; [by apply kept_reset | done | | done].
  destruct (bit =? STATUS_FEATURES_OK).
  - unfold st_bind. destruct (check_features_result t) as [[-> _] | [v ->]]; done.
  - destruct (bit =? STATUS_DRIVER_OK); [ | done].
    pose proof (kept_activate (t_device t) (t_driver_features t) Hd).
    by destruct (device_activate _ _) as [device [[] | e]].
Qed.

Lemma write_config_keeps offset width value (t : MmioTransport D) :
  I (t_device t) -> I (t_device (transport_write_config offset width value t).1).
Proof using Type*.
  intros Hd. unfold transport_write_config, st_bind.
  destruct (config_range_same offset (width_bytes width) t) as [-> | ->]; [ | done]. simpl.
  pose proof (kept_write_config (t_device t) offset (take (width_bytes width) (le_bytes 8 value)) Hd).
  by destruct (device_write_config _ _ _) as [device [[] | e]].
Qed.

Lemma write_keeps {M} `{GuestMemory M} (mem : M) offset width value (t : MmioTransport D) :
  I (t_device t) -> I (t_device (transport_write offset width value mem t).1).
Proof using Type*.
  intros Hd. unfold transport_write.
  destruct (register_decode offset) as [[] | ]; try (by apply write_config_keeps); try done;
    (destruct (bool_decide (width <> AccessWidth_U32)); [done | ]; destruct (value >? U32_MAX); [done | ]);
    cbv zeta; rewrite ?then_none_fst, ?selected_device; try done.
  - unfold write_driver_features, st_bind, st_get. by repeat case_match.
  - unfold write_queue_ready. destruct (value =? 0).
    + unfold st_bind. pose proof (selected_device offset (st_modify queue_deactivate) t) as Hs.
      destruct (with_selected_queue _ _ t) as [t' [[] | e]]; simpl in *; by rewrite Hs.
    + unfold st_bind at 1, st_get. destruct (status_features_ok _); simpl; [ | done].
      unfold st_bind. pose proof (selected_device offset (queue_call (queue_activate mem)) t) as Hs.
      destruct (with_selected_queue _ _ t) as [t' [[] | e]]; simpl in *; by rewrite Hs.
  - destruct (write_queue_notify_same value t) as [-> | [v ->]]; done.
  - unfold write_interrupt_ack, st_bind, st_modify. by destruct (negb _).
  - by apply write_status_keeps.
Qed.

Lemma slot_read regions offset width t : slot_ok I regions t -> slot_ok I regions (transport_read offset width t).1.
Proof using Type*. intros [Ht Hd]. split; [by apply transport_read_ok | by rewrite read_device]. Qed.

Lemma slot_write {M} `{GuestMemoryLaws M} (mem : M) offset width value t :
  mem_wf mem -> is_u64 value -> slot_ok I (mem_regions mem) t ->
  slot_ok I (mem_regions mem) (transport_write offset width value mem t).1.
Proof using Type*. intros Hwf Hv [Ht Hd]. split; [by apply transport_write_ok | by apply write_keeps]. Qed.
End access.

(** * Passes over one transport *)

Section passes.
Context {D : Type} `{VirtioDeviceLaws D} {M : Type} `{GuestMemoryLaws M}.

Lemma complete_used_regions (mem : M) index chain len (t : MmioTransport D) :
  system_ok (t, mem) -> 0 <= len -> mem_regions (complete_used index chain len t mem).1.2 = mem_regions mem.
Proof using Type*.
  intros [Hwf Ht] Hlen. unfold complete_used. destruct (is_active t); simpl; [ | done].
  destruct (t_queues t !! Z.to_nat index) as [q | ] eqn:Hq; [ | done].
  destruct (transport_queue_ok _ _ _ _ Ht Hq) as [Hqo _].
  destruct (add_used_ok mem chain len q Hwf Hqo Hlen) as [_ Hreg].
  destruct (add_used chain len (q, mem)) as [[q1 mem1] r1]; simpl in *.
  by destruct (match r1 with Ok _ => _ | Err _ => _ end) as [q2 [notify | v]].
Qed.

Lemma tsteps_regions (s s' : MmioTransport D * M) :
  rtc tstep s s' -> system_ok s -> mem_regions s'.2 = mem_regions s.2.
Proof using Type*.
  induction 1 as [ | s1 s2 s3 H12 _ IH]; [done | ]. intros Hok.
  rewrite IH by (by eapply tstep_ok). destruct H12; try done. by apply complete_used_regions.
Qed.

(** What a pass leaves: it ends, and the slot and guest memory are as good as before. *)
Definition slot_served (I : D -> Prop) (mem : M)
    (out : option (MmioTransport D * M * Result ServiceReport ServiceError)) : Prop :=
  exists t' mem' r, out = Some (t', mem', r) /\ mem_wf mem' /\ mem_regions mem' = mem_regions mem /\
    slot_ok I (mem_regions mem) t'.

Lemma slot_served_same I (mem : M) (t : MmioTransport D) r :
  mem_wf mem -> slot_ok I (mem_regions mem) t -> slot_served I mem (Some (t, mem, r)).
Proof. intros Hwf Hs. by exists t, mem, r. Qed.

Lemma slot_served_pass I Done Stop queue n report q (t : MmioTransport D) (mem : M) out :
  system_ok (t, mem) -> pass_ok I Done Stop queue n report q t mem out -> slot_served I mem (Some out).
Proof using Type*.
  intros Hok Hp. destruct out as [[t' mem'] r]. destruct Hp as (Hrun & Hinv & _).
  pose proof (tsteps_regions _ _ Hrun Hok) as Hreg. destruct (tsteps_ok _ _ Hrun Hok) as [Hwf' Ht'].
  simpl in *. rewrite Hreg in Ht'. by exists t', mem', r.
Qed.

Lemma service_slot `{!ChainHandler D} `{L : !ChainHandlerLaws D} queue budget (t : MmioTransport D) (mem : M) :
  mem_wf mem -> slot_ok device_inv (mem_regions mem) t -> is_u32 budget ->
  slot_served device_inv mem (service_queue queue budget t mem).
Proof using Type*.
  intros Hwf Hs Hb. pose proof (slot_served_same device_inv mem t) as Hsame. destruct Hs as [Ht Hd].
  destruct (is_active t) eqn:Ha; [ | unfold service_queue; rewrite Ha; by apply Hsame].
  destruct (t_queues t !! Z.to_nat queue) as [q | ] eqn:Hq.
  - destruct (service_loop_pass queue (Z.to_nat budget) service_report_default q t mem)
      as (out & Hout & Hpass); try done.
    { unfold room, is_uint, U32_MAX in *. simpl. split_and!; [done | lia..]. }
    unfold service_queue. rewrite Ha. cbn [negb]. rewrite Hout. by eapply slot_served_pass.
  - unfold service_queue. rewrite Ha. cbn [negb]. destruct (Z.to_nat budget) as [ | n]; cbn [service_loop].
    + unfold has_pending. rewrite Hq. by apply Hsame.
    + rewrite Hq. by apply Hsame.
Qed.
End passes.

Lemma net_deliver_slot {B} `{NetBackendLaws B} {M} `{GuestMemoryLaws M} (t : MmioTransport (NetDevice B)) (mem : M) budget :
  mem_wf mem -> slot_ok net_ok (mem_regions mem) t -> is_u32 budget ->
  slot_served net_ok mem (net_deliver_rx t mem budget).
Proof.
  intros Hwf Hs Hb. pose proof (slot_served_same net_ok mem t) as Hsame. destruct Hs as [Ht Hd].
  unfold net_deliver_rx. destruct (is_active t) eqn:Ha; cbn [negb]; [ | by apply Hsame].
  destruct (t_queues t !! Z.to_nat NET_RX_QUEUE) as [q | ] eqn:Hq.
  - destruct (net_deliver_run t mem q budget) as (out & Hout & _ & Hpass); try done.
    unfold net_deliver_rx in Hout. rewrite Ha in Hout. cbn [negb] in Hout. rewrite Hout. by eapply slot_served_pass.
  - destruct (Z.to_nat budget) as [ | n]; cbn [net_deliver_loop]; rewrite ?Hq; by apply Hsame.
Qed.

Lemma vsock_deliver_slot {M} `{GuestMemoryLaws M} build queue (t : MmioTransport VsockDevice) (mem : M) budget :
  builder_ok build -> mem_wf mem -> slot_ok vsock_ok (mem_regions mem) t -> is_u32 budget ->
  slot_served vsock_ok mem (deliver build queue budget t mem).
Proof.
  intros Hbuild Hwf Hs Hb. pose proof (slot_served_same vsock_ok mem t) as Hsame. destruct Hs as [Ht Hd].
  destruct (is_active t) eqn:Ha; [ | unfold deliver; rewrite Ha; by apply Hsame].
  destruct (t_queues t !! Z.to_nat queue) as [q | ] eqn:Hq.
  - destruct (deliver_run build queue budget q t mem) as (out & Hout & Hpass & _); try done.
    rewrite Hout. by eapply slot_served_pass.
  - unfold deliver. rewrite Ha. cbn [negb]. destruct (Z.to_nat budget) as [ | n]; cbn [deliver_loop].
    + by apply Hsame.
    + rewrite Hq. by apply Hsame.
Qed.

(** * Invariants of the devices on the bus *)

Section devices.
Context {B : Type} `{BlockStoreLaws B}.

(** A block device in its slot's role; an immutable root also holds [image]. *)
Definition role_inv (role : BlockRole) (image : bytes) (d : BlockDevice B) : Prop :=
  block_ok d /\ bd_role d = role /\ (role = BlockRole_ImmutableRoot -> contents (bd_backend d) = image).

Lemma role_bstep role image d d' : bstep d d' -> role_inv role image d -> role_inv role image d'.
Proof.
  intros Hs (Hd & Hr & Hc). destruct (bstep_ok _ _ Hs Hd) as (Hd' & Hr' & Hc').
  split; [done | ]. split; [congruence | ]. intros Hro. rewrite Hc' by congruence. by apply Hc.
Qed.

#[export] Instance role_kept role image : Kept (role_inv role image).
Proof. split; intros; (eapply role_bstep; [ | done]); constructor. Qed.

Lemma role_handle_ok role image {M} `{GuestMemoryLaws M} (d : BlockDevice B) queue queue_size chain (mem : M) :
  mem_wf mem -> role_inv role image d -> chain_safe mem queue_size (chain_limits d queue) chain ->
  let '(d', mem', r) := handle_chain d queue chain mem in
  same_limits d d' /\ role_inv role image d' /\ mem_wf mem' /\ mem_regions mem' = mem_regions mem /\
  (forall len, r = Ok len -> is_u32 len).
Proof.
  intros Hwf Hd Hsafe.
  pose proof (role_bstep role image _ _ (bstep_chain d mem queue queue_size chain Hwf Hsafe) Hd) as Hrole.
  pose proof (block_handle_ok d queue queue_size chain mem Hwf (proj1 Hd) Hsafe) as Hok.
  destruct (handle_chain d queue chain mem) as [[d' mem'] r]. by destruct Hok as (? & _ & ? & ? & ?).
Qed.

(** The block device's handler, with what its slot fixes. *)
Definition role_handler_laws (role : BlockRole) (image : bytes) : ChainHandlerLaws (BlockDevice B) := {|
  device_inv := role_inv role image;
  chain_limits_wf _ _ := block_limits_wf;
  handle_chain_ok _ _ _ := role_handle_ok role image;
|}.

Lemma role_service role image {M} `{GuestMemoryLaws M} queue budget (t : MmioTransport (BlockDevice B)) (mem : M) :
  mem_wf mem -> slot_ok (role_inv role image) (mem_regions mem) t -> is_u32 budget ->
  slot_served (role_inv role image) mem (service_queue queue budget t mem).
Proof. exact (service_slot (L := role_handler_laws role image) queue budget t mem). Qed.

Lemma role_attach role image d backend :
  role = BlockRole_PrivateOverlay -> role_inv role image d -> backend_inv backend ->
  role_inv role image (block_attach d backend).1.
Proof.
  intros -> (Hd & Hr & _) Hb. split; [by apply block_attach_ok | ]. split; [ | done].
  unfold block_attach. by repeat case_match.
Qed.
End devices.

#[export] Instance net_kept {B} `{NetBackendLaws B} : Kept (D := NetDevice B) net_ok.
Proof. split; try done. intros d features Hd. simpl. unfold net_activate. by destruct (negb _). Qed.

#[export] Instance vsock_kept : Kept vsock_ok.
Proof.
  split.
  - intros d. exact (vstep_ok _ _ (vstep_reset d)).
  - intros d features. exact (vstep_ok _ _ (vstep_activate d features)).
  - done.
Qed.

#[export] Instance rng_kept {E} `{EntropyBackendLaws E} : Kept (D := RngDevice E) (fun _ => True).
Proof. done. Qed.

(** * The whole bus *)

Section bus.
Context {B : Type} `{BlockStoreLaws B} {NB : Type} `{NetBackendLaws NB} {E : Type} `{EntropyBackendLaws E}.

Abbreviation Bus := (MmioBus B NB E).

Definition bus_ok (image : bytes) (regions : list (Z * Z)) (b : Bus) : Prop :=
  slot_ok (role_inv BlockRole_ImmutableRoot image) regions (bus_root b) /\
  from_option (slot_ok (role_inv BlockRole_PrivateOverlay []) regions) True (bus_overlay b) /\
  from_option (slot_ok net_ok regions) True (bus_net b) /\
  slot_ok vsock_ok regions (bus_vsock b) /\ slot_ok (fun _ => True) regions (bus_rng b).

(** A body that keeps any slot keeps the bus. *)
Lemma with_slot_ok {A} image regions (b : Bus) slot
    (body : forall D, VirtioDevice D -> MmioTransport D -> MmioTransport D * A) :
  (forall D (V : VirtioDevice D) (L : VirtioDeviceLaws D) (I : D -> Prop) (K : Kept I) t,
     slot_ok I regions t -> slot_ok I regions (body D V t).1) ->
  bus_ok image regions b -> bus_ok image regions (with_slot b slot body).1.
Proof using Type*.
  intros Hbody (Hr & Ho & Hn & Hv & Hg). destruct b as [root overlay net vsock rng]; simpl in *.
  destruct slot; simpl.
  - pose proof (Hbody _ _ _ _ _ _ Hr) as Hb. destruct (body _ _ root). done.
  - destruct overlay as [t | ]; [ | done]. pose proof (Hbody _ _ _ _ _ _ Ho) as Hb. destruct (body _ _ t). done.
  - destruct net as [t | ]; [ | done]. pose proof (Hbody _ _ _ _ _ _ Hn) as Hb. destruct (body _ _ t). done.
  - pose proof (Hbody _ _ _ _ _ _ Hv) as Hb. destruct (body _ _ vsock). done.
  - pose proof (Hbody _ _ _ _ _ _ Hg) as Hb. destruct (body _ _ rng). done.
Qed.

Lemma dispatch_read_ok image regions (b : Bus) gpa width :
  bus_ok image regions b -> bus_ok image regions (dispatch_read b gpa width).1.
Proof using Type*.
  intros Hb. unfold dispatch_read. destruct (from_gpa gpa) as [[slot offset] | ]; [ | done].
  pose proof (with_slot_ok image regions b slot (fun D _ t => transport_read offset width t)) as Hw.
  destruct (with_slot _ _ _) as [b' r]. apply Hw; [ | done]. intros. by apply slot_read.
Qed.

Section memory.
Context {M : Type} `{GuestMemoryLaws M}.

Lemma dispatch_write_ok image (b : Bus) gpa width value (mem : M) :
  mem_wf mem -> is_u64 value -> bus_ok image (mem_regions mem) b ->
  bus_ok image (mem_regions mem) (dispatch_write b gpa width value mem).1.
Proof using Type*.
  intros Hwf Hv Hb. unfold dispatch_write. destruct (from_gpa gpa) as [[slot offset] | ]; [ | done].
  pose proof (with_slot_ok image (mem_regions mem) b slot (fun D _ t => transport_write offset width value mem t)) as Hw.
  destruct (with_slot _ _ _) as [b' r]. apply Hw; [ | done]. intros. by apply slot_write.
Qed.

Lemma queue_pending_ok (mem : M) index D (V : VirtioDevice D) (L : VirtioDeviceLaws D) (I : D -> Prop) t :
  mem_wf mem -> slot_ok I (mem_regions mem) t -> slot_ok I (mem_regions mem) (queue_pending mem index D V t).1.
Proof using Type*.
  intros Hwf [Ht Hd]. unfold queue_pending. destruct (t_queues t !! Z.to_nat index) as [q | ] eqn:Hq; [ | done].
  destruct (queue_is_ready q); [ | done].
  pose proof (tstep_ok (t, mem) _ (conj Hwf Ht) (tstep_pending t mem _ q Hq)) as [_ Ht'].
  destruct (pending mem q) as [q' r]. done.
Qed.

Lemma pending_loop_ok image (mem : M) pairs (b : Bus) p :
  mem_wf mem -> bus_ok image (mem_regions mem) b -> bus_ok image (mem_regions mem) (pending_loop mem pairs b p).1.
Proof using Type*.
  intros Hwf. revert b p. induction pairs as [ | [slot index] pairs IH]; intros b p Hb; simpl; [done | ].
  pose proof (with_slot_ok image (mem_regions mem) b slot (queue_pending mem index)) as Hw.
  destruct (with_slot b slot _) as [b' r]. simpl in Hw.
  assert (Hb' : bus_ok image (mem_regions mem) b') by (apply Hw; [intros; by apply queue_pending_ok | done]).
  destruct (mjoin r) as [[[count | v] | ] | ]; simpl; auto.
Qed.

(** What a pass through the bus leaves. *)
Definition bus_served (image : bytes) (mem : M) (out : Served) : Prop :=
  exists (b' : Bus) mem' r, out = Some (b', mem', r) /\ mem_wf mem' /\ mem_regions mem' = mem_regions mem /\
    bus_ok image (mem_regions mem) b'.

Lemma bus_served_same image (mem : M) (b : Bus) r :
  mem_wf mem -> bus_ok image (mem_regions mem) b -> bus_served image mem (Some (b, mem, r)).
Proof using Type*. intros Hwf Hb. by exists b, mem, r. Qed.

Lemma in_bus_served {D} `{VirtioDeviceLaws D} (I : D -> Prop) image (mem : M) (put : MmioTransport D -> Bus) out :
  (forall t, slot_ok I (mem_regions mem) t -> bus_ok image (mem_regions mem) (put t)) ->
  slot_served I mem out -> bus_served image mem (in_bus put out).
Proof using Type*.
  intros Hput (t & mem' & r & -> & Hwf & Hreg & Ht). simpl. exists (put t), mem', r.
  split; [done | ]. split; [done | ]. split; [done | ]. by apply Hput.
Qed.

Lemma combine_served image (mem : M) (b : Bus) first second :
  bus_ok image (mem_regions mem) b -> slot_served vsock_ok mem first ->
  (forall t mem', mem_wf mem' -> mem_regions mem' = mem_regions mem -> slot_ok vsock_ok (mem_regions mem') t ->
     slot_served vsock_ok mem' (second t mem')) ->
  bus_served image mem (combine_passes b first second).
Proof using Type*.
  intros (Hr & Ho & Hn & _ & Hg) (t & mem1 & r & -> & Hwf & Hreg & Ht) Hsecond.
  assert (Hput : forall t, slot_ok vsock_ok (mem_regions mem) t -> bus_ok image (mem_regions mem) (set_vsock b t))
    by done.
  unfold combine_passes. destruct r as [report | e]; [ | by eexists _, _, _].
  rewrite <- Hreg in Ht. destruct (Hsecond t mem1 Hwf Hreg Ht) as (t2 & mem2 & r2 & -> & Hwf2 & Hreg2 & Ht2).
  rewrite Hreg in Hreg2, Ht2. destruct r2; eexists _, _, _; (split; [done | ]); (split; [done | ]); (split; [done | ]);
    by apply Hput.
Qed.

Lemma bus_service_ok image (b : Bus) slot queue (mem : M) budget :
  mem_wf mem -> bus_ok image (mem_regions mem) b -> is_u32 budget ->
  bus_served image mem (bus_service b slot queue mem budget).
Proof using Type*.
  intros Hwf Hb Hu. unfold bus_service. destruct (queue >=? _); [by apply bus_served_same | ].
  pose proof Hb as (Hr & Ho & Hn & Hv & Hg). destruct slot.
  - eapply in_bus_served; [ | by apply role_service]. done.
  - destruct (bus_overlay b) as [t | ] eqn:Eo; [ | by apply bus_served_same].
    eapply in_bus_served; [ | by apply role_service]. done.
  - destruct (bus_net b) as [t | ] eqn:En; [ | by apply bus_served_same].
    destruct (queue =? NET_RX_QUEUE); (eapply (in_bus_served net_ok); [done | ]);
      [by apply net_deliver_slot | exact (service_slot (L := NetDevice_handler_laws) _ _ t mem Hwf Hn Hu)].
  - destruct (queue =? VSOCK_RX_QUEUE); [ | destruct (queue =? VSOCK_EVENT_QUEUE)].
    + eapply (in_bus_served vsock_ok); [done | ]. by apply vsock_deliver_slot; [apply build_rx_ok | ..].
    + eapply (in_bus_served vsock_ok); [done | ]. by apply vsock_deliver_slot; [apply build_event_ok | ..].
    + apply combine_served; [done | exact (service_slot (L := VsockDevice_handler_laws) _ _ _ mem Hwf Hv Hu) | ].
      intros. by apply vsock_deliver_slot; [apply build_rx_ok | ..].
  - eapply (in_bus_served (fun _ => True)); [done | ]. exact (service_slot (L := RngDevice_handler_laws) _ _ _ mem Hwf Hg Hu).
Qed.

Lemma deliver_inbound_ok image (b : Bus) slot (mem : M) budget :
  mem_wf mem -> bus_ok image (mem_regions mem) b -> is_u32 budget ->
  bus_served image mem (deliver_inbound b slot mem budget).
Proof using Type*.
  intros Hwf Hb Hu. pose proof Hb as (Hr & Ho & Hn & Hv & Hg). unfold deliver_inbound.
  destruct slot; try (by apply bus_served_same).
  - destruct (bus_net b) as [t | ] eqn:En; [ | by apply bus_served_same].
    eapply (in_bus_served net_ok); [done | ]. by apply net_deliver_slot.
  - apply combine_served; [done | by apply vsock_deliver_slot; [apply build_rx_ok | ..] | ].
    intros. by apply vsock_deliver_slot; [apply build_event_ok | ..].
Qed.
End memory.
End bus.

(** Restoring from records of any content: a queue, a transport and the bus that a restore
    yields satisfy the invariants of a running one. *)

(** * Queues *)

Section queue.
Context {M : Type} `{GuestMemoryLaws M}.

Lemma set_size_keeps size q q' r : set_size size q = (q', r) ->
  q_max_size q' = q_max_size q /\ q_layout q' = q_layout q /\ q_activated q' = q_activated q.
Proof.
  unfold set_size, st_bind, st_get, queue_try. by destruct (validate_size _ _); intros [= <- _].
Qed.

Lemma activate_keeps (mem : M) q q' u : queue_activate mem q = (q', Ok u) ->
  q_max_size q' = q_max_size q /\ queue_is_ready q' = true.
Proof.
  unfold queue_activate, st_bind, st_get. destruct (q_activated q); [done | ]. unfold queue_try.
  by destruct (layout_validate _ _ _ _ _ _); intros [= <- _].
Qed.

Lemma queue_restore_ok (mem : M) max s q :
  mem_wf mem -> is_u16 max -> wf_queue_state s -> queue_restore mem max s = Ok q ->
  queue_ok (mem_regions mem) q /\ q_max_size q = max /\ queue_is_ready q = qs_ready s.
Proof.
  intros Hwf Hmax (S1 & S2 & S3 & S4 & S5 & S6) Hr. unfold queue_restore in Hr.
  destruct (queue_new max) as [q0 | ] eqn:Hnew; [ | done]. cbn [map_err] in Hr.
  pose proof (queue_new_ok (mem_regions mem) max q0 Hmax Hnew) as Hq0.
  assert (Hfresh : q_max_size q0 = max /\ q_layout q0 = None /\ q_activated q0 = false).
  { unfold queue_new in Hnew. destruct (validate_size _ _); [by injection Hnew as <- | done]. }
  assert (Hsz : 0 <= qs_size s) by (unfold is_uint in S1; lia).
  pose proof (set_size_ok (mem_regions mem) (qs_size s) Hsz q0 Hq0) as Hq1.
  destruct (set_size (qs_size s) q0) as [q1 r1] eqn:Hset.
  destruct (set_size_keeps _ _ _ _ Hset) as (K1 & K2 & K3). simpl in Hq1. destruct r1 as [u1 | ]; [ | done].
  remember (set_used_addr (set_avail_addr (set_desc_addr q1 (qs_desc s)) (qs_avail s)) (qs_used s)) as q2 eqn:E2 in Hr.
  assert (Hq2 : queue_ok (mem_regions mem) q2)
    by (rewrite E2; exact (proj2 (proj2 (set_addr_ok _ _ _ (proj1 (proj2 (set_addr_ok _ _ _ (proj1 (set_addr_ok _ _ _ Hq1 S2)) S3))) S4)))).
  destruct Hfresh as (F1 & F2 & F3).
  assert (Hm2 : q_max_size q2 = max /\ q_layout q2 = None) by (rewrite E2; simpl; split; congruence).
  clear E2.
  destruct (qs_ready s && negb (qs_activated s)) eqn:Hra; [done | ].
  destruct (negb (qs_activated s) && _) eqn:Hac; [done | ].
  assert (Hcur : qs_activated s = false -> qs_next_avail s = 0 /\ qs_next_used s = 0).
  { intros Hf. rewrite Hf in Hac. cbn [negb andb] in Hac. by zbool. }
  destruct (qs_ready s) eqn:Hrd.
  - assert (Hact : qs_activated s = true) by (by destruct (qs_activated s)).
    pose proof (queue_activate_ok mem Hwf q2 Hq2) as Hq3.
    destruct (queue_activate mem q2) as [q3 [u3 | ]] eqn:Ha; [ | done]. simpl in Hq3.
    destruct (activate_keeps _ _ _ _ Ha) as [Hm3 Hr3].
    injection Hr as <-. destruct Hq3 as (H1 & H2 & H3 & H4 & H5 & _ & _ & H8 & _ & H10 & H11).
    split; [ | split; [cbn [q_max_size]; destruct Hm2; congruence | exact Hr3]].
    unfold queue_ok; cbn [q_max_size q_size q_desc q_avail q_used q_next_avail q_next_used q_layout q_activated q_violations].
    split_and!; try done. intros l Hl. by destruct (H8 l Hl).
  - injection Hr as <-. destruct Hq2 as (H1 & H2 & H3 & H4 & H5 & _ & _ & H8 & _ & H10 & H11).
    destruct Hm2 as [Hm2 Hl2]. split; [ | split; [done | unfold queue_is_ready; cbn [q_layout]; by rewrite Hl2]].
    unfold queue_ok; cbn [q_max_size q_size q_desc q_avail q_used q_next_avail q_next_used q_layout q_activated q_violations].
    rewrite Hl2. split_and!; done.
Qed.

Lemma restore_queues_ok (mem : M) fo index fresh states qs :
  mem_wf mem -> Forall is_u16 (q_max_size <$> fresh) -> Forall wf_queue_state states ->
  length states = length fresh -> restore_queues mem fo index fresh states = Ok qs ->
  Forall (tq_ok (mem_regions mem) fo) qs /\ q_max_size <$> qs = q_max_size <$> fresh.
Proof.
  intros Hwf Hmax Hst. revert index fresh qs Hmax.
  induction Hst as [ | s states Hs Hst IH]; intros index fresh qs Hmax Hlen; destruct fresh as [ | f fresh]; try done;
    cbn [restore_queues]; [by intros [= <-] | ].
  apply Forall_cons in Hmax as [Hf Hmax].
  destruct (qs_ready s && negb fo) eqn:Hr; [done | ].
  destruct (queue_restore mem (q_max_size f) s) as [q | ] eqn:Hq; [ | done]. cbn [map_err].
  destruct (queue_restore_ok _ _ _ _ Hwf Hf Hs Hq) as (Hok & Hm & Hready).
  destruct (restore_queues mem fo (S index) fresh states) as [rest | ] eqn:Hrest; [ | done]. intros [= <-].
  destruct (IH (S index) fresh rest Hmax) as [HF Hms]; [by injection Hlen | done | ].
  split; [ | by rewrite !fmap_cons, Hm, Hms]. constructor; [ | done]. split; [done | ].
  rewrite Hready. intros Hrd. rewrite Hrd in Hr. by destruct fo.
Qed.
End queue.

(** * Transports *)

Definition wf_restored_state (s : TransportState) : Prop :=
  is_u8 (ts_status s) /\ is_u32 (ts_device_features_sel s) /\ is_u32 (ts_driver_features_sel s) /\
  is_u64 (ts_driver_features s) /\ is_u32 (ts_queue_sel s) /\ is_u32 (ts_interrupt_status s) /\
  is_u32 (ts_config_generation s) /\ Forall wf_queue_state (ts_queues s).

Lemma interrupt_known_ok v : is_u32 v -> Z.land v (lnot_w 32 INTERRUPT_KNOWN) = 0 -> interrupt_ok v.
Proof.
  intros Hv Hz. unfold interrupt_ok.
  assert (Heq : v = Z.land v INTERRUPT_KNOWN).
  { apply Z.bits_inj'. intros n Hn. rewrite Z.land_spec.
    destruct (decide (n < 32)) as [Hlt | Hge].
    - pose proof (f_equal (fun z => Z.testbit z n) Hz) as Hb. simpl in Hb.
      rewrite Z.land_spec, Z.bits_0, lnot_w_testbit, bool_decide_true in Hb by (done || lia).
      by destruct (Z.testbit v n), (Z.testbit INTERRUPT_KNOWN n).
    - rewrite (Z.bits_above_log2 v n); [done | unfold is_uint in Hv; lia | ].
      destruct (decide (v = 0)) as [-> | Hv0]; [simpl; lia | ].
      apply (Z.lt_le_trans _ 32); [ | lia]. apply Z.log2_lt_pow2; unfold is_uint in Hv; lia. }
  rewrite Heq, Z.land_comm. apply is_uint_land; [lia | by vm_compute | ]. unfold is_uint in Hv. lia.
Qed.

Section transport.
Context {D : Type} `{VirtioDeviceLaws D} {M : Type} `{GuestMemoryLaws M}.

Lemma checked_features (t : MmioTransport D) u :
  (check_features t).2 = Ok u -> features_accepted (feature_allowlist (t_device t)) (t_driver_features t).
Proof. destruct (check_features_result t) as [[_ Hf] | [v ->]]; done. Qed.

Lemma transport_restore_ok (I : D -> Prop) `{!Kept I} (device : D) s (mem : M) t :
  mem_wf mem -> I device -> wf_restored_state s -> transport_restore device s mem = Ok t ->
  slot_ok I (mem_regions mem) t.
Proof using Type*.
  intros Hwf Hd (S1 & S2 & S3 & S4 & S5 & S6 & S7 & S8) Hr. unfold transport_restore in Hr.
  destruct (transport_new device) as [t0 | ] eqn:Hnew; [ | done]. cbn [map_err] in Hr.
  destruct (transport_new_queues device t0 Hnew) as (Hdev & Hmax & _ & Hvio).
  destruct (status_from_bits (ts_status s)) as [status | ] eqn:Hst; [ | done]. cbn [map_err] in Hr.
  pose proof (status_from_bits_id _ _ Hst) as ->.
  destruct (Nat.eqb_spec (length (ts_queues s)) (length (t_queues t0))) as [Hlen | ]; [ | done].
  destruct (Z.eqb_spec (Z.land (ts_interrupt_status s) (lnot_w 32 INTERRUPT_KNOWN)) 0) as [Hint | ]; [ | done].
  cbn [negb] in Hr. cbv zeta in Hr.
  destruct (if status_features_ok (ts_status s) then _ else _) as [u | ] eqn:Hck; [ | done].
  destruct (restore_queues _ _ _ _ _) as [qs | ] eqn:Hqs; [ | done].
  assert (H16 : Forall is_u16 (q_max_size <$> t_queues t0)) by (rewrite Hmax; apply queue_max_u16).
  destruct (restore_queues_ok mem _ 0 (t_queues t0) _ qs Hwf H16 S8 Hlen Hqs) as [HF Hms].
  destruct (if status_driver_ok (ts_status s) then _ else _) as [device' | ] eqn:Hact; [ | done].
  assert (Hfix : feature_allowlist device' = feature_allowlist device /\
    queue_max_sizes device' = queue_max_sizes device /\ I device').
  { simpl in Hact. rewrite Hdev in Hact. destruct (status_driver_ok _); [ | by injection Hact as <-].
    destruct (activate_fixed device (ts_driver_features s)) as (Ha & Hm & _).
    pose proof (kept_activate device (ts_driver_features s) Hd) as Hk.
    destruct (device_activate device _) as [d' [[] | ]]; [ | done]. by injection Hact as <-. }
  destruct Hfix as (Ha & Hm & Hinv). injection Hr as <-. split; [ | done].
  unfold transport_ok; cbn [t_status t_device t_queues t_driver_features t_interrupt_status t_device_features_sel
    t_driver_features_sel t_queue_sel t_config_generation t_violations].
  split; [by split | ]. rewrite Ha, Hm, Hvio, Hms, Hmax, length_replicate.
  split_and!; try done; [ | by apply interrupt_known_ok].
  intros Hfo. rewrite Hfo in Hck. destruct (check_features _).2 as [v | ] eqn:Hcf; [ | done].
  apply checked_features in Hcf. simpl in Hcf. by rewrite Hdev in Hcf.
Qed.
End transport.

(** * The bus *)

Section bus.
Context {B : Type} `{BlockStoreLaws B} {NB : Type} `{NetBackendLaws NB} {E : Type} `{EntropyBackendLaws E}.
Context {M : Type} `{GuestMemoryLaws M}.

Definition wf_record (r : SlotSnapshot) : Prop := wf_restored_state (snap_transport r) /\ all_bytes (snap_device r).

(** The devices a bus is built from. *)
Definition devices_ok (d : BusDevices B NB E) : Prop :=
  role_inv BlockRole_ImmutableRoot (contents (bd_backend (dev_root d))) (dev_root d) /\
  from_option (role_inv BlockRole_PrivateOverlay []) True (dev_overlay d) /\
  from_option net_ok True (dev_net d) /\ vsock_ok (dev_vsock d).

Lemma net_restore_keeps (d : NetDevice NB) raw : all_bytes raw -> net_ok d -> net_ok (device_restore_state d raw).1.
Proof.
  intros Hraw Hd. pose proof Hd as (He & Hl & Hm). simpl. unfold net_restore_state, net_state_from_bytes.
  destruct (Nat.eqb_spec (length raw) NET_STATE_LEN) as [Hlen | ]; [ | done].
  cbn [negb orb]. destruct (negb _); [done | ]. cbv zeta.
  destruct (if default 0 _ =? 0 then _ else _) as [up | ]; [ | done].
  destruct (_ <=? U32_MAX); [ | done]. unfold net_state_apply. destruct (_ || _); [done | ]. simpl.
  split; [done | ]. cbn [nd_mac set_link set_mac ns_mac]. unfold NET_STATE_LEN in Hlen. split.
  - rewrite length_take, length_drop. lia.
  - by apply Forall_take, Forall_drop.
Qed.

Lemma apply_device_ok {D} `{VirtioDevice D} (I : D -> Prop) slot device record device' :
  I (device_restore_state device (snap_device record)).1 ->
  apply_device slot device record = Ok device' -> I device'.
Proof.
  intros Hk. unfold apply_device. destruct (device_restore_state _ _) as [d' [[] | ]]; [ | done].
  by intros [= <-].
Qed.

Lemma restore_slot_ok {D} `{VirtioDeviceLaws D} (I : D -> Prop) `{!Kept I} slot device record (mem : M) t :
  mem_wf mem -> I device -> wf_record record -> restore_transport slot device record mem = Ok t ->
  slot_ok I (mem_regions mem) t.
Proof using Type*.
  intros Hwf Hd [Hs _]. unfold restore_transport.
  destruct (transport_restore device _ mem) as [t' | ] eqn:Ht; [ | done]. intros [= <-].
  by eapply transport_restore_ok.
Qed.

(** An optional slot: present with a device and a record, or absent. *)
Lemma optional_ok {D} `{VirtioDeviceLaws D} (I : D -> Prop) `{!Kept I} slot device record (mem : M) device' t :
  mem_wf mem -> from_option I True device -> from_option wf_record True record ->
  (forall d r, I d -> wf_record r -> I (device_restore_state d (snap_device r)).1) ->
  apply_optional slot device record = Ok device' -> restore_optional slot device' record mem = Ok t ->
  from_option (slot_ok I (mem_regions mem)) True t.
Proof using Type*.
  intros Hwf Hd Hrec Hk. unfold apply_optional, restore_optional.
  destruct device as [d | ], record as [r | ]; try (by intros [= <-] [= <-]).
  destruct (apply_device slot d r) as [d' | ] eqn:Ha; [ | done]. intros [= <-].
  destruct (restore_transport slot d' r mem) as [t' | ] eqn:Ht; [ | done]. intros [= <-]. simpl in *.
  refine (restore_slot_ok I slot d' r mem t' Hwf _ Hrec Ht). exact (apply_device_ok I slot d r d' (Hk d r Hd Hrec) Ha).
Qed.

Lemma find_record_wf records slot : Forall wf_record records -> from_option wf_record True (find_record records slot).
Proof.
  intros Hr. unfold find_record. destruct (list_find _ records) as [[i r] | ] eqn:Hf; [ | done]. simpl.
  apply list_find_Some in Hf as (Hi & _). rewrite Forall_lookup in Hr. by eapply Hr.
Qed.

Lemma check_slots_exact expected records u :
  length records = length expected -> check_slots expected records = Ok u -> snap_slot <$> records = expected.
Proof.
  revert records. induction expected as [ | e expected IH]; intros [ | r records] Hl; try done. injection Hl as Hl. simpl.
  destruct (bool_decide_reflect (snap_slot r = e)) as [He | ]; [ | done]. intros Hc. rewrite He. f_equal. by apply IH.
Qed.
End bus.
