(* ===== verification/BusProps.v ===== *)
(** What the bus promises: the address map, one slot per access, the invariant of the whole
    device set over every use, which records a restore accepts, and an assignment that is
    all or nothing. *)

From S2P Require Import Prelude Bytes GuestMemory QueueChain Virtqueue VirtqueueFacts Transport TransportFacts TransportProps Segments Service Rng Block BlockFacts BlockProps Net NetProps VsockStream Vsock VsockFacts VsockProps VsockRx Bus BusRestore.
From stdpp Require Import options.

(** * The table *)

Lemma slot_index_lookup s : SLOT_ALL !! Z.to_nat (slot_index s) = Some s.
Proof. by destruct s. Qed.

Lemma lookup_slot_index k s : 0 <= k -> SLOT_ALL !! Z.to_nat k = Some s -> k = slot_index s.
Proof.
  intros Hk Hl. assert (Hlt : (Z.to_nat k < 5)%nat) by (by apply lookup_lt_Some in Hl).
  assert (k = 0 \/ k = 1 \/ k = 2 \/ k = 3 \/ k = 4) as [-> | [-> | [-> | [-> | ->]]]] by lia;
    by injection Hl as <-.
Qed.

(** An address resolves to a slot and an offset exactly when it lies in the slot's page,
    so every address belongs to at most one slot; the pages and the interrupt lines of
    different slots do not meet, and the notification register of a slot is in its own
    page. *)
Theorem from_gpa_exact gpa slot offset :
  (from_gpa gpa = Some (slot, offset) <->
   slot_base slot <= gpa <= slot_end slot /\ offset = gpa - slot_base slot) /\
  from_gpa (notify_addr slot) = Some (slot, REG_QUEUE_NOTIFY) /\
  (forall slot', slot_gsi slot' = slot_gsi slot -> slot' = slot).
Proof.
  split; [ | split; [by destruct slot | by destruct slot, slot']].
  unfold from_gpa, slot_end, slot_base, MMIO_WINDOW_BASE, MMIO_PAGE_SIZE.
  destruct (Z.ltb_spec gpa 0xd0000000) as [Hlt | Hge].
  - split; [done | ]. destruct slot; simpl; lia.
  - set (rel := gpa - 0xd0000000).
    pose proof (Z.div_mod rel 0x1000 ltac:(lia)) as Hdm. pose proof (Z.mod_pos_bound rel 0x1000 ltac:(lia)) as Hmod.
    assert (Hq : 0 <= rel / 0x1000) by (apply Z.div_pos; lia). split.
    + destruct (SLOT_ALL !! _) as [s | ] eqn:Hs; [ | done]. intros [= <- <-].
      apply lookup_slot_index in Hs; [ | done]. rewrite <- Hs. lia.
    + intros [Hin ->]. assert (Hk : rel / 0x1000 = slot_index slot).
      { symmetry. apply (Z.div_unique_pos rel 0x1000 (slot_index slot) (rel - 0x1000 * slot_index slot)); lia. }
      rewrite Hk, slot_index_lookup. do 2 f_equal. lia.
Qed.

Lemma present_has s slot : slot ∈ present s <-> set_has s slot = true.
Proof. destruct s as [[] []], slot; vm_compute; set_solver. Qed.

(** * One slot per access *)

Section isolation.
Context {B : Type} `{BlockBackend B} {NB : Type} `{NetBackend NB} {E : Type} `{EntropyBackend E}.

Definition same_slot (b b' : MmioBus B NB E) (slot : Slot) : Prop :=
  match slot with
  | Slot_Root => bus_root b' = bus_root b
  | Slot_Overlay => bus_overlay b' = bus_overlay b
  | Slot_Net => bus_net b' = bus_net b
  | Slot_Vsock => bus_vsock b' = bus_vsock b
  | Slot_Rng => bus_rng b' = bus_rng b
  end.

(** Only [slot] may have changed, and no device appeared or vanished. *)
Definition only_slot (slot : Slot) (b b' : MmioBus B NB E) : Prop :=
  bus_device_set b' = bus_device_set b /\ forall slot', slot' <> slot -> same_slot b b' slot'.

Lemma only_slot_refl slot b : only_slot slot b b.
Proof. split; [done | ]. by intros [] _. Qed.

Lemma with_slot_only {A} b slot (body : forall D, VirtioDevice D -> MmioTransport D -> MmioTransport D * A) :
  only_slot slot b (with_slot b slot body).1 /\
  ((with_slot b slot body).2 = None -> (with_slot b slot body).1 = b) /\
  (is_Some (with_slot b slot body).2 <-> set_has (bus_device_set b) slot = true).
Proof.
  destruct b as [root overlay net vsock rng]. destruct slot; simpl;
    try (destruct overlay as [overlay | ]); try (destruct net as [net | ]); simpl;
    repeat (let t := fresh in destruct (body _ _ _) as [t ?]); simpl;
    (split; [split; [done | by intros [] ?] | split; [done | split; [done | by eauto]]]).
Qed.

Lemma in_bus_only {T M} slot b (put : T -> MmioBus B NB E) (out : option (T * M * Result ServiceReport ServiceError)) b' mem' r :
  (forall t, only_slot slot b (put t)) -> in_bus put out = Some (b', mem', r) -> only_slot slot b b'.
Proof. intros Hput. unfold in_bus. destruct out as [[[t m] r'] | ]; [ | done]. by intros [= <- _ _]. Qed.

Lemma combine_only {M} b first second (b' : MmioBus B NB E) (mem' : M) r :
  combine_passes b first second = Some (b', mem', r) -> only_slot Slot_Vsock b b'.
Proof.
  assert (Hput : forall t, only_slot Slot_Vsock b (set_vsock b t)) by (intros t; split; [done | by intros [] ?]).
  unfold combine_passes. destruct first as [[[t m] [report | e]] | ]; [ | by intros [= <- _ _] | done].
  destruct (second t m) as [[[t2 m2] [more | e]] | ]; [by intros [= <- _ _].. | done].
Qed.

Context {M : Type} `{GuestMemory M}.

Lemma only_root b t : only_slot Slot_Root b (set_root b t).
Proof. split; [done | by intros [] ?]. Qed.
Lemma only_overlay b t t' : bus_overlay b = Some t' -> only_slot Slot_Overlay b (set_overlay_t b t).
Proof. intros Ho. split; [unfold bus_device_set; simpl; by rewrite Ho | by intros [] ?]. Qed.
Lemma only_net b t t' : bus_net b = Some t' -> only_slot Slot_Net b (set_net_t b t).
Proof. intros Ho. split; [unfold bus_device_set; simpl; by rewrite Ho | by intros [] ?]. Qed.
Lemma only_vsock b t : only_slot Slot_Vsock b (set_vsock b t).
Proof. split; [done | by intros [] ?]. Qed.
Lemma only_rng b t : only_slot Slot_Rng b (set_rng b t).
Proof. split; [done | by intros [] ?]. Qed.

Lemma service_only b slot queue (mem : M) budget b' mem' r :
  bus_service b slot queue mem budget = Some (b', mem', r) -> only_slot slot b b'.
Proof.
  unfold bus_service. destruct (queue >=? _); [intros [= <- _ _]; apply only_slot_refl | ]. destruct slot.
  - apply in_bus_only, only_root.
  - destruct (bus_overlay b) as [t | ] eqn:Ho; [ | intros [= <- _ _]; apply only_slot_refl].
    apply in_bus_only. intros. by eapply only_overlay.
  - destruct (bus_net b) as [t | ] eqn:Ho; [ | intros [= <- _ _]; apply only_slot_refl].
    destruct (queue =? _); apply in_bus_only; intros; by eapply only_net.
  - destruct (queue =? _); [apply in_bus_only, only_vsock | ].
    destruct (queue =? _); [apply in_bus_only, only_vsock | apply combine_only].
  - apply in_bus_only, only_rng.
Qed.

Lemma inbound_only b slot (mem : M) budget b' mem' r :
  deliver_inbound b slot mem budget = Some (b', mem', r) -> only_slot slot b b'.
Proof.
  unfold deliver_inbound. destruct slot; try (intros [= <- _ _]; apply only_slot_refl).
  - destruct (bus_net b) as [t | ] eqn:Ho; [ | intros [= <- _ _]; apply only_slot_refl].
    apply in_bus_only. intros. by eapply only_net.
  - apply combine_only.
Qed.

(** Every use of the bus reaches one slot at most: a guest access changes only the slot
    whose page holds its address, a service or delivery pass only the slot it names, and
    no device appears or vanishes.  An access outside every page, or to the page of a slot
    this machine does not have, changes nothing and is refused as unmapped. *)
Theorem bus_isolated b gpa width value (mem : M) :
  (match from_gpa gpa with
  | Some (slot, _) =>
      only_slot slot b (dispatch_read b gpa width).1 /\ only_slot slot b (dispatch_write b gpa width value mem).1 /\
      (set_has (bus_device_set b) slot = false ->
         dispatch_read b gpa width = (b, Err (BusViolation_UnmappedAddress gpa)) /\
         dispatch_write b gpa width value mem = (b, Err (BusViolation_UnmappedAddress gpa)))
  | None =>
      dispatch_read b gpa width = (b, Err (BusViolation_UnmappedAddress gpa)) /\
      dispatch_write b gpa width value mem = (b, Err (BusViolation_UnmappedAddress gpa))
  end) /\
  (forall slot queue budget b' mem' r,
     bus_service b slot queue mem budget = Some (b', mem', r) -> only_slot slot b b') /\
  (forall slot budget b' mem' r,
     deliver_inbound b slot mem budget = Some (b', mem', r) -> only_slot slot b b').
Proof.
  split; [ | split; [intros *; apply service_only | intros *; apply inbound_only]].
  unfold dispatch_read, dispatch_write. destruct (from_gpa gpa) as [[slot offset] | ]; [ | done].
  pose proof (with_slot_only b slot (fun D _ t => transport_read offset width t)) as (R1 & R2 & R3).
  pose proof (with_slot_only b slot (fun D _ t => transport_write offset width value mem t)) as (W1 & W2 & W3).
  destruct (with_slot b slot (fun D _ t => transport_read offset width t)) as [b1 r1].
  destruct (with_slot b slot (fun D _ t => transport_write offset width value mem t)) as [b2 r2]; simpl in *.
  split; [done | ]. split; [done | ]. intros Hno. rewrite Hno in R3, W3.
  destruct r1; [by pose proof (proj1 R3 (ex_intro _ _ eq_refl)) | ].
  destruct r2; [by pose proof (proj1 W3 (ex_intro _ _ eq_refl)) | ]. by rewrite R2, W2.
Qed.
End isolation.

(** * Every use of the bus *)

Section runs.
Context {B : Type} `{BlockStoreLaws B} {NB : Type} `{NetBackendLaws NB} {E : Type} `{EntropyBackendLaws E}.
Context {M : Type} `{GuestMemoryLaws M}.

Definition t_map {D} (f : D -> D) (t : MmioTransport D) : MmioTransport D := t_set_device t (f (t_device t)).

(** Guest accesses, passes, scans, what the host does to the devices, and guest stores. *)
Inductive busstep : MmioBus B NB E * M -> MmioBus B NB E * M -> Prop :=
| busstep_read b mem gpa width : busstep (b, mem) ((dispatch_read b gpa width).1, mem)
| busstep_write b mem gpa width value :
    is_u64 value -> busstep (b, mem) ((dispatch_write b gpa width value mem).1, mem)
| busstep_service b mem slot queue budget b' mem' r :
    is_u32 budget -> bus_service b slot queue mem budget = Some (b', mem', r) -> busstep (b, mem) (b', mem')
| busstep_inbound b mem slot budget b' mem' r :
    is_u32 budget -> deliver_inbound b slot mem budget = Some (b', mem', r) -> busstep (b, mem) (b', mem')
| busstep_pending b mem : busstep (b, mem) ((pending_work b mem).1, mem)
| busstep_attach_overlay b mem backend :
    from_option backend_inv True backend -> busstep (b, mem) ((attach_overlay b backend).1, mem)
| busstep_attach_network {T} (net_box : TapBackend T -> NB) b mem network :
    endpoint_inv (net_box (mkTapBackend (attachment_tap network))) ->
    length (attachment_mac network) = 6%nat -> all_bytes (attachment_mac network) ->
    busstep (b, mem) (attach_network net_box b network, mem)
| busstep_link b mem up : busstep (b, mem) (set_network_link b up, mem)
| busstep_vsock b mem device :
    vstep (t_device (bus_vsock b)) device -> busstep (b, mem) (set_vsock b (t_set_device (bus_vsock b) device), mem)
| busstep_guest b mem mem' :
    mem_wf mem' -> mem_regions mem' = mem_regions mem -> busstep (b, mem) (b, mem').

Definition bus_system (image : bytes) (s : MmioBus B NB E * M) : Prop :=
  mem_wf s.2 /\ bus_ok image (mem_regions s.2) s.1.

Lemma served_system image (mem : M) out b' mem' r :
  bus_served (B := B) (NB := NB) (E := E) image mem out -> out = Some (b', mem', r) -> bus_system image (b', mem').
Proof.
  intros (b1 & m1 & r1 & -> & Hwf & Hreg & Hb) [= -> -> ->]. split; [done | ]. simpl. by rewrite Hreg.
Qed.

Lemma slot_set_device {D} `{VirtioDeviceLaws D} (I : D -> Prop) regions t device :
  slot_ok I regions t -> I device -> feature_allowlist device = feature_allowlist (t_device t) ->
  queue_max_sizes device = queue_max_sizes (t_device t) -> slot_ok I regions (t_set_device t device).
Proof. intros [Ht _] Hd Ha Hm. split; [by apply set_device_ok | done]. Qed.

Lemma attach_overlay_ok image regions (b : MmioBus B NB E) backend :
  from_option backend_inv True backend -> bus_ok image regions b -> bus_ok image regions (attach_overlay b backend).1.
Proof using Type*.
  intros Hbk Hb. pose proof Hb as (Hr & Ho & Hrest). unfold attach_overlay.
  destruct (bus_overlay b) as [t | ] eqn:Eo, backend as [backend | ]; try done. simpl in Ho, Hbk.
  pose proof (role_attach BlockRole_PrivateOverlay [] (t_device t) backend eq_refl (proj2 Ho) Hbk) as Hd.
  assert (Hrole : bd_role (block_attach (t_device t) backend).1 = bd_role (t_device t))
    by (unfold block_attach; by repeat case_match).
  destruct (block_attach (t_device t) backend) as [device r]. simpl in *. split; [done | ]. split; [ | done]. simpl.
  apply slot_set_device; try done. simpl. by rewrite Hrole.
Qed.

Lemma busstep_ok image s s' : busstep s s' -> bus_system image s -> bus_system image s'.
Proof using Type*.
  intros Hs [Hwf Hb]. destruct Hs; simpl in *.
  - split; [done | by apply dispatch_read_ok].
  - split; [done | by apply dispatch_write_ok].
  - eapply served_system; [ | done]. by apply bus_service_ok.
  - eapply served_system; [ | done]. by apply deliver_inbound_ok.
  - split; [done | by apply pending_loop_ok].
  - split; [done | by apply attach_overlay_ok].
  - split; [done | ]. pose proof Hb as (Hr & Ho & Hn & Hrest). simpl. unfold attach_network.
    destruct (bus_net b) as [t | ] eqn:En; [ | done]. split; [done | ]. split; [done | ]. split; [ | done]. simpl.
    by apply slot_set_device.
  - split; [done | ]. pose proof Hb as (Hr & Ho & Hn & Hrest). simpl. unfold set_network_link.
    destruct (bus_net b) as [t | ] eqn:En; [ | done]. split; [done | ]. split; [done | ]. split; [ | done]. simpl.
    apply slot_set_device; try done. exact (proj2 Hn).
  - split; [done | ]. destruct Hb as (Hr & Ho & Hn & Hv & Hg). simpl. do 3 (split; [done | ]). split; [ | done]. simpl.
    apply slot_set_device; try done. by eapply vstep_ok, Hv.
  - split; [done | ]. simpl. congruence.
Qed.

Lemma bussteps_ok image s s' : rtc busstep s s' -> bus_system image s -> bus_system image s'.
Proof using Type*. induction 1; eauto using busstep_ok. Qed.

Lemma new_slot_ok {D} `{VirtioDeviceLaws D} (I : D -> Prop) regions slot device t :
  I device -> bus_transport slot device = Ok t -> slot_ok I regions t.
Proof.
  intros Hd. unfold bus_transport. destruct (transport_new device) as [t' | ] eqn:Hnew; [ | done].
  intros [= <-]. split; [by eapply transport_new_ok | ].
  by destruct (transport_new_queues device t' Hnew) as (-> & _).
Qed.

Lemma new_optional_ok {D} `{VirtioDeviceLaws D} (I : D -> Prop) regions slot device t :
  from_option I True device -> transpose_map (bus_transport slot) device = Ok t ->
  from_option (slot_ok I regions) True t /\ (is_Some t <-> is_Some device).
Proof.
  intros Hd. unfold transpose_map. destruct device as [device | ]; [ | by intros [= <-]].
  destruct (bus_transport slot device) as [t' | ] eqn:Ht; [ | done]. intros [= <-].
  split; [exact (new_slot_ok I regions slot device t' Hd Ht) | done].
Qed.

Lemma check_role_ok slot (device : BlockDevice B) role u : check_role slot device role = Ok u -> bd_role device = role.
Proof. unfold check_role. by destruct (bool_decide_reflect (bd_role device = role)). Qed.

(** What the devices must be for a bus to be built; their roles are checked. *)
Definition parts_ok (d : BusDevices B NB E) : Prop :=
  block_ok (dev_root d) /\ from_option block_ok True (dev_overlay d) /\ from_option net_ok True (dev_net d) /\
  vsock_ok (dev_vsock d).

Lemma bus_new_ok regions d b :
  parts_ok d -> bus_new d = Ok b -> bus_ok (contents (bd_backend (dev_root d))) regions b.
Proof using Type*.
  intros (Hr & Ho & Hn & Hv). unfold bus_new.
  destruct (check_role Slot_Root _ _) as [u1 | ] eqn:C1; [ | done]. apply check_role_ok in C1.
  destruct (match dev_overlay d with Some _ => _ | None => _ end) as [u2 | ] eqn:C2; [ | done].
  destruct (bus_transport Slot_Root _) as [root | ] eqn:T1; [ | done].
  destruct (transpose_map (bus_transport Slot_Overlay) _) as [overlay | ] eqn:T2; [ | done].
  destruct (transpose_map (bus_transport Slot_Net) _) as [net | ] eqn:T3; [ | done].
  destruct (bus_transport Slot_Vsock _) as [vsock | ] eqn:T4; [ | done].
  destruct (bus_transport Slot_Rng _) as [rng | ] eqn:T5; [ | done]. intros [= <-]. unfold bus_ok; simpl.
  split; [by eapply new_slot_ok in T1 | ]. split; [ | split; [ | split]].
  - eapply (new_optional_ok (role_inv BlockRole_PrivateOverlay []) regions) in T2 as [Ht _]; [done | ].
    destruct (dev_overlay d) as [o | ]; [ | done]. apply check_role_ok in C2. by split.
  - by eapply (new_optional_ok net_ok regions) in T3 as [Ht _].
  - by eapply (new_slot_ok vsock_ok) in T4.
  - by eapply (new_slot_ok (fun _ => True)) in T5.
Qed.

(** C6: over every sequence of guest accesses at any address and of any value, service and
    delivery passes, pending scans, host attachments, link changes, socket calls and guest
    stores, every transport on a bus keeps its invariant and every device its own, a block
    device stays in its slot's role, and the root keeps the contents it was built with,
    byte for byte.  In every state so reached a pass over any queue of any slot with any
    32-bit budget ends. *)
Theorem bus_invariant d b (mem : M) b' mem' :
  parts_ok d -> bus_new d = Ok b -> mem_wf mem -> rtc busstep (b, mem) (b', mem') ->
  bus_ok (contents (bd_backend (dev_root d))) (mem_regions mem') b' /\
  contents (bd_backend (t_device (bus_root b'))) = contents (bd_backend (dev_root d)) /\
  forall slot queue budget, is_u32 budget ->
    is_Some (bus_service b' slot queue mem' budget) /\ is_Some (deliver_inbound b' slot mem' budget).
Proof using Type*.
  intros Hd Hnew Hwf Hrun.
  destruct (bussteps_ok _ _ _ Hrun (conj Hwf (bus_new_ok (mem_regions mem) d b Hd Hnew))) as [Hwf' Hb]; simpl in *.
  split; [done | ]. split; [by destruct Hb as ((_ & _ & _ & Hc) & _); apply Hc | ]. intros slot queue budget Hu. split.
  - by destruct (bus_service_ok _ b' slot queue mem' budget Hwf' Hb Hu) as (? & ? & ? & -> & _).
  - by destruct (deliver_inbound_ok _ b' slot mem' budget Hwf' Hb Hu) as (? & ? & ? & -> & _).
Qed.

(** * Restoring *)

Lemma find_record_named records slot : slot ∈ snap_slot <$> records -> is_Some (find_record records slot).
Proof.
  intros Hs. apply list_elem_of_fmap in Hs as (r & -> & Hr). unfold find_record.
  destruct (list_find_elem_of (fun r' => snap_slot r' = snap_slot r) records r Hr eq_refl) as [[i r'] ->]. done.
Qed.

Lemma optional_present {D} `{VirtioDevice D} slot device records (mem : M) device' t :
  (is_Some device -> slot ∈ snap_slot <$> records) ->
  apply_optional slot device (find_record records slot) = Ok device' ->
  restore_optional slot device' (find_record records slot) mem = Ok t -> is_Some t <-> is_Some device.
Proof.
  intros Hin. unfold apply_optional, restore_optional. destruct device as [d | ].
  - destruct (find_record_named records slot (Hin (ex_intro _ d eq_refl))) as [r ->].
    destruct (apply_device slot d r) as [d' | ]; [ | done]. intros [= <-].
    destruct (restore_transport slot d' r mem); [ | done]. by intros [= <-].
  - intros [= <-] [= <-]. done.
Qed.

(** C17: whatever the records say, a restore that succeeds yields a sound machine: the records
    named exactly the slots of the devices, in table order, the bus has exactly those
    devices, every transport, queue and device satisfies the invariant of a running one
    over the guest memory restored into, and the root's contents are those of the device
    handed in. *)
Theorem bus_restore_sound (d : BusDevices B NB E) records (mem : M) (b : MmioBus B NB E) :
  devices_ok d -> Forall wf_record records -> mem_wf mem -> bus_restore d records mem = Ok b ->
  snap_slot <$> records = present (devices_set d) /\ bus_device_set b = devices_set d /\
  bus_ok (contents (bd_backend (dev_root d))) (mem_regions mem) b.
Proof using Type*.
  intros (Hr & Ho & Hn & Hv) Hrec Hwf. unfold bus_restore.
  destruct (Nat.eqb_spec (length records) (length (present (devices_set d)))) as [Hlen | ]; [ | done]. cbn [negb].
  destruct (check_slots _ records) as [u | ] eqn:Hcheck; [ | done].
  pose proof (check_slots_exact _ _ _ Hlen Hcheck) as Hnames.
  pose proof (fun slot => find_record_wf records slot Hrec) as Hfound.
  assert (Hhas : forall slot, set_has (devices_set d) slot = true -> slot ∈ snap_slot <$> records)
    by (intros slot; rewrite Hnames; apply present_has).
  destruct (find_record records Slot_Root) as [rr | ] eqn:Fr; [ | done].
  destruct (find_record records Slot_Vsock) as [rv | ] eqn:Fv; [ | done].
  destruct (find_record records Slot_Rng) as [rg | ] eqn:Fg; [ | done].
  pose proof (Hfound Slot_Root) as Wr. pose proof (Hfound Slot_Vsock) as Wv. pose proof (Hfound Slot_Rng) as Wg.
  rewrite Fr in Wr. rewrite Fv in Wv. rewrite Fg in Wg. simpl in Wr, Wv, Wg.
  destruct (apply_device Slot_Root _ _) as [root | ] eqn:A1; [ | done].
  destruct (apply_optional Slot_Overlay _ _) as [overlay | ] eqn:A2; [ | done].
  destruct (apply_optional Slot_Net _ _) as [net | ] eqn:A3; [ | done].
  destruct (apply_device Slot_Vsock _ _) as [vsock | ] eqn:A4; [ | done].
  destruct (apply_device Slot_Rng _ _) as [rng | ] eqn:A5; [ | done].
  destruct (restore_transport Slot_Root _ _ _) as [troot | ] eqn:T1; [ | done].
  destruct (restore_optional Slot_Overlay _ _ _) as [toverlay | ] eqn:T2; [ | done].
  destruct (restore_optional Slot_Net _ _ _) as [tnet | ] eqn:T3; [ | done].
  destruct (restore_transport Slot_Vsock _ _ _) as [tvsock | ] eqn:T4; [ | done].
  destruct (restore_transport Slot_Rng _ _ _) as [trng | ] eqn:T5; [ | done]. intros [= <-].
  split; [done | ]. split.
  - unfold bus_device_set, devices_set; simpl. f_equal; apply bool_decide_ext.
    + refine (optional_present Slot_Overlay _ records mem _ _ _ A2 T2). intros Hs. apply Hhas. simpl. by apply bool_decide_eq_true.
    + refine (optional_present Slot_Net _ records mem _ _ _ A3 T3). intros Hs. apply Hhas. simpl. by apply bool_decide_eq_true.
  - unfold bus_ok; simpl. split; [ | split; [ | split; [ | split]]].
    + refine (restore_slot_ok _ Slot_Root root rr mem troot Hwf _ Wr T1).
      refine (apply_device_ok _ Slot_Root _ rr root _ A1). eapply role_bstep; [apply bstep_restore | done].
    + refine (optional_ok (role_inv BlockRole_PrivateOverlay []) _ _ _ mem _ _ Hwf Ho (Hfound Slot_Overlay) _ A2 T2).
      intros o r Hi _. eapply role_bstep; [apply bstep_restore | done].
    + refine (optional_ok net_ok _ _ _ mem _ _ Hwf Hn (Hfound Slot_Net) _ A3 T3).
      intros o r Hi [_ Hall]. by apply net_restore_keeps.
    + refine (restore_slot_ok vsock_ok Slot_Vsock vsock rv mem tvsock Hwf _ Wv T4).
      refine (apply_device_ok vsock_ok Slot_Vsock _ rv vsock _ A4). exact (vstep_ok _ _ (vstep_restore _ _) Hv).
    + exact (restore_slot_ok (fun _ => True) Slot_Rng rng rg mem trng Hwf I Wg T5).
Qed.

(** * Assignment *)

(** Attaching a store to the overlay slot, refused or done. *)
Lemma attach_overlay_cases (b : MmioBus B NB E) backend b' r :
  attach_overlay b backend = (b', r) ->
  match r with
  | Err _ => b' = b
  | Ok _ =>
      (is_Some backend <-> is_Some (bus_overlay b)) /\
      bus_root b' = bus_root b /\ bus_net b' = bus_net b /\ bus_vsock b' = bus_vsock b /\ bus_rng b' = bus_rng b /\
      forall store t, backend = Some store -> bus_overlay b = Some t ->
        exists t', bus_overlay b' = Some t' /\ bd_backend (t_device t') = store /\
          capacity_bytes store = bd_capacity_sectors (t_device t) * SECTOR_SIZE
  end.
Proof.
  unfold attach_overlay. destruct (bus_overlay b) as [t | ] eqn:Ho, backend as [store | ]; try (by intros [= <- <-]).
  unfold block_attach. destruct (negb (Bool.eqb _ _)); [ | destruct (Z.eqb_spec (capacity_bytes store)
    (bd_capacity_sectors (t_device t) * SECTOR_SIZE)) as [Hcap | ]]; cbn [negb map_err]; intros [= <- <-].
  - destruct b as [root overlay net vsock rng]; simpl in *. rewrite Ho. by destruct t.
  - split; [done | ]. do 4 (split; [done | ]). intros store' t' [= <-] [= <-]. by eexists.
  - destruct b as [root overlay net vsock rng]; simpl in *. rewrite Ho. by destruct t.
Qed.

(** Assigning an Instance's disk head, context identifier and frame path to a restored
    machine is all or nothing: it fails without changing the bus, whichever step refuses,
    and when it succeeds the guest has exactly the assigned identifier, the overlay exactly
    the assigned store, of the device's shape, a machine has an overlay exactly when a head
    was given, and the link is left as it was. *)
Theorem assignment_atomic {F} `{HostFile F} (block_box : FileBackend F -> B) {T} (net_box : TapBackend T -> NB)
    (b b' : MmioBus B NB E) overlay cid network r :
  assign_instance_resources block_box net_box b overlay cid network = (b', r) ->
  match r with
  | Err _ => b' = b
  | Ok _ =>
      vd_guest_cid (t_device (bus_vsock b')) = cid /\ MIN_GUEST_CID <= cid < CID_ANY /\
      (is_Some overlay <-> is_Some (bus_overlay b)) /\
      (forall file t, overlay = Some file -> bus_overlay b = Some t ->
         exists store t', file_backend_new file false = Ok store /\ bus_overlay b' = Some t' /\
           bd_backend (t_device t') = block_box store /\
           capacity_bytes (block_box store) = bd_capacity_sectors (t_device t) * SECTOR_SIZE) /\
      (forall n t, network = Some n -> bus_net b = Some t ->
         exists t', bus_net b' = Some t' /\
           t_device t' = net_attach (t_device t) (net_box (mkTapBackend (attachment_tap n))) (attachment_mac n) /\
           nd_link_up (t_device t') = nd_link_up (t_device t)) /\
      bus_root b' = bus_root b /\ bus_rng b' = bus_rng b
  end.
Proof.
  unfold assign_instance_resources. pose proof (check_cid_ok cid) as Hcid.
  destruct (check_cid cid) as [u | e] eqn:Hc; [ | by intros [= <- <-]]. specialize (Hcid u eq_refl).
  destruct (transpose_map _ overlay) as [backend | e] eqn:Hb; [ | by intros [= <- <-]].
  assert (Hsome : is_Some (block_box <$> backend) <-> is_Some overlay).
  { rewrite fmap_is_Some. unfold transpose_map in Hb. destruct overlay as [file | ]; [ | by injection Hb as <-].
    destruct (file_backend_new file false); [by injection Hb as <- | done]. }
  pose proof (attach_overlay_cases b (block_box <$> backend)) as Hover.
  destruct (attach_overlay b (block_box <$> backend)) as [b1 r1]. specialize (Hover b1 r1 eq_refl).
  destruct r1 as [[] | e]; [ | by intros [= <- <-]]. unfold set_guest_cid. rewrite Hc.
  destruct Hover as (Hov & Hroot & Hnet & _ & Hrng & Hst). intros [= <- <-].
  split; [by destruct network as [n | ]; unfold attach_network; [case_match | ] | ]. split; [done | ].
  split; [tauto | ]. split; [ | split].
  - intros file t -> Ht. simpl in Hb. destruct (file_backend_new file false) as [store | ]; [ | done].
    injection Hb as <-. destruct (Hst (block_box store) t eq_refl Ht) as (t' & Ho' & Hbk & Hcap).
    exists store, t'. split; [done | ]. split; [ | done].
    destruct network as [n | ]; unfold attach_network; [by case_match | done].
  - intros n t -> Ht. unfold attach_network. simpl. rewrite Hnet, Ht. by eexists.
  - destruct network as [n | ]; unfold attach_network; [by case_match | done].
Qed.
End runs.

(** * A sample machine: a one-sector root and overlay, a network device, one guest *)

Definition sample_devices : BusDevices MemoryBackend LoopbackBackend Z :=
  mkBusDevices (sample_block BlockRole_ImmutableRoot) (Some (sample_block BlockRole_PrivateOverlay)) (Some net_down)
    (mkVsockDevice 3 0 None [] [] false (mkVsockCounters 0 0 0 0 0 0)) sample_rng.

Lemma sample_parts : parts_ok sample_devices.
Proof.
  split; [apply sample_block_ok | ]. split; [apply sample_block_ok | ]. split; [ | by apply (vsock_new_ok 3)].
  split; [by constructor | ]. split; [done | by apply Forall_replicate].
Qed.

Lemma sample_devices_ok : devices_ok sample_devices.
Proof. split; [ | split; [ | apply sample_parts]]; (split; [apply sample_block_ok | done]). Qed.

Definition sample_bus : MmioBus MemoryBackend LoopbackBackend Z :=
  match bus_new sample_devices with
  | Ok b => b
  | Err _ => mkMmioBus (mkMmioTransport (sample_block BlockRole_ImmutableRoot) [] 0 0 0 0 0 0 0 []) None None
      (mkMmioTransport (dev_vsock sample_devices) [] 0 0 0 0 0 0 0 [])
      (mkMmioTransport sample_rng [] 0 0 0 0 0 0 0 [])
  end.

(** The guest acknowledges the entropy device, writes past the window, and the root is
    served. *)
Lemma bus_invariant_witness :
  contents (bd_backend (t_device (bus_root (dispatch_write
    (dispatch_write sample_bus 0xd0004070 AccessWidth_U32 1 ring_memory).1 0xd0005000 AccessWidth_U32 1 ring_memory).1)))
  = replicate 512 0.
Proof.
  refine (proj1 (proj2 (bus_invariant sample_devices sample_bus ring_memory _ ring_memory sample_parts _ ring_memory_wf _)));
    [reflexivity | ].
  eapply rtc_l; [by apply (busstep_write sample_bus ring_memory 0xd0004070 AccessWidth_U32 1) | ].
  apply rtc_once. by apply busstep_write.
Defined.

Definition sample_records : list SlotSnapshot := Eval vm_compute in snapshot_all sample_bus.

Lemma sample_records_wf : Forall wf_record sample_records.
Proof.
  repeat (apply Forall_cons; split); try apply Forall_nil; try done;
    (split; [by repeat (split; [by vm_compute | ]); repeat constructor | ]);
    by repeat (apply Forall_cons; split; [by vm_compute | ]).
Qed.

Lemma bus_restore_sound_witness :
  exists b, bus_restore sample_devices sample_records ring_memory = Ok b /\
    snap_slot <$> sample_records = SLOT_ALL /\ bus_device_set b = DEVICE_SET_FULL.
Proof.
  destruct (bus_restore sample_devices sample_records ring_memory) as [b | e] eqn:Hr;
    [ | by vm_compute in Hr].
  exists b. split; [done | ].
  apply (bus_restore_sound sample_devices sample_records ring_memory b) in Hr as (Hs & Hd & _);
    [ | exact sample_devices_ok | | exact ring_memory_wf].
  - split; [exact Hs | exact Hd].
  - exact sample_records_wf.
Defined.

(** A host file held in memory. *)
#[export] Instance bytes_file : HostFile bytes := {|
  file_len f := Ok (Z.of_nat (length f));
  read_exact_at f offset buf :=
    let got := slice f offset (Z.of_nat (length buf)) in
    if (length got =? length buf)%nat then (f, got, Ok tt) else (f, buf, Err 5);
  write_all_at f offset data := (overwrite f (Z.to_nat offset) data, Ok tt);
  sync_data f := (f, Ok tt);
|}.

(** A one-sector head, identifier 7 and a frame path for the sample machine. *)
Lemma assignment_atomic_witness :
  let out := assign_instance_resources (fun store => mkMemoryBackend (fb_file store) false 0 0 None)
    (fun _ : TapBackend unit => quiet_endpoint) sample_bus (Some (replicate 512 9)) 7
    (Some (mkNetworkAttachment tt (replicate 6 4))) in
  out.2 = Ok tt /\ vd_guest_cid (t_device (bus_vsock out.1)) = 7 /\ bus_root out.1 = bus_root sample_bus.
Proof.
  cbv zeta. set (out := assign_instance_resources _ _ _ _ _ _).
  assert (Hok : out.2 = Ok tt) by (by vm_compute).
  pose proof (assignment_atomic (fun store => mkMemoryBackend (fb_file store) false 0 0 None)
    (fun _ : TapBackend unit => quiet_endpoint) sample_bus out.1 (Some (replicate 512 9)) 7
    (Some (mkNetworkAttachment tt (replicate 6 4))) out.2 (surjective_pairing out)) as Hall.
  rewrite Hok in Hall. destruct Hall as (Hcid & _ & _ & _ & _ & Hroot & _). exact (conj Hok (conj Hcid Hroot)).
Defined.
