(* ===== verification/SeccompProps.v ===== *)
(** The filters of a jailed worker decide exactly what the policy tables say. *)

From S2P Require Import Prelude Bytes Seccomp.
From Stdlib Require Import String.
From stdpp Require Import strings sorting.
From stdpp Require Import options.
Local Open Scope Z_scope.

(** * What the tables say *)

(** The arguments of a call are six 64-bit words. *)
Definition data_ok (d : SeccompData) : Prop := length (data_args d) = 6%nat /\ Forall is_u64 (data_args d).

#[export] Instance data_ok_dec d : Decision (data_ok d).
Proof. unfold data_ok. apply _. Defined.

Definition argument (d : SeccompData) (index : Z) : Z := default 0 (data_args d !! Z.to_nat index).

Definition verdict (allowed : bool) : Z := if allowed then RET_ALLOW else RET_KILL_PROCESS.

(** Whether the arguments of a call pass a check. *)
Definition check_decision (check : ArgCheck) (requests : list Z) (d : SeccompData) : Z :=
  match check with
  | ArgCheck_Any => RET_ALLOW
  | ArgCheck_Errno code => Z.lor RET_ERRNO code
  | ArgCheck_ArgEqualsAny index values => verdict (bool_decide (argument d index ∈ values))
  | ArgCheck_IoctlAllowlist => verdict (bool_decide (argument d 1 ∈ requests))
  | ArgCheck_Flags index forbidden required =>
      let low := argument d index mod 2 ^ 32 in
      verdict ((Z.land low forbidden =? 0) && ((required =? 0) || negb (Z.land low required =? 0)))
  end.

Definition rule_for (nr : Z) : option SyscallRule := head (filter (fun r => rule_nr r = nr) RULES).

Definition policy (phase : Phase) (d : SeccompData) : Z :=
  if negb (data_arch d =? AUDIT_ARCH_X86_64) then RET_KILL_PROCESS
  else match rule_for (data_nr d) ≫= phase_check phase with
       | Some (_, check) => check_decision check (requests_for phase) d
       | None => RET_KILL_PROCESS
       end.

(** * Programs as big steps

    A program suffix, an accumulator and the value it returns. *)

Inductive returns (d : SeccompData) : list Instruction -> Z -> Z -> Prop :=
| returns_ret l acc x : returns d (ins_ret x :: l) acc x
| returns_load l acc offset w x : data_word d offset = Some w -> returns d l w x -> returns d (ins_load offset :: l) acc x
| returns_eq l acc n t f x : returns d (drop (Z.to_nat (if acc =? n then t else f)) l) acc x ->
    returns d (ins_jump_eq n t f :: l) acc x
| returns_set l acc n t f x : returns d (drop (Z.to_nat (if Z.land acc n =? 0 then f else t)) l) acc x ->
    returns d (ins_jump_set n t f :: l) acc x.

(** The interpreter computes the big steps, with fuel for every instruction left. *)
Lemma returns_evaluate d l acc x : returns d l acc x -> forall p pc fuel, drop pc p = l -> (length l <= fuel)%nat ->
  evaluate_from fuel p d pc acc = Some x.
Proof.
  induction 1 as [l acc x | l acc o w x Hw _ IH | l acc n t f x _ IH | l acc n t f x _ IH]; intros p pc [ | fuel] Hd Hf; cbn in Hf; try lia;
    assert (p !! pc = Some (hd (ins_ret 0) (drop pc p)) /\ drop (S pc) p = tl (drop pc p)) as [Hi Ht]
    by (rewrite Hd; cbn; rewrite <- (Nat.add_0_r pc) at 1; rewrite <- lookup_drop, Hd;
        replace (S pc) with (pc + 1)%nat by lia; by rewrite <- drop_drop, Hd);
    rewrite Hd in Hi, Ht; cbn in Hi, Ht; cbn [evaluate_from mbind option_bind]; rewrite Hi; cbn; try done.
  - rewrite Hw. cbn. apply IH; [done | lia].
  - apply IH; [by rewrite <- Ht, drop_drop | ]. rewrite length_drop. lia.
  - apply IH; [by rewrite <- Ht, drop_drop | ]. rewrite length_drop. lia.
Qed.

Section data.
Context (d : SeccompData) (Hd : data_ok d).

Lemma argument_lookup i : 0 <= i < 6 -> data_args d !! Z.to_nat i = Some (argument d i) /\ is_u64 (argument d i).
Proof using Hd.
  intros Hi. destruct Hd as [Hlen Hall]. unfold argument.
  destruct (lookup_lt_is_Some_2 (data_args d) (Z.to_nat i)) as [a Ha]; [lia | ]. rewrite Ha. split; [done | ].
  by eapply Forall_lookup_1.
Qed.

Lemma word_low i : 0 <= i < 6 -> data_word d (arg_low i) = Some (argument d i mod 2 ^ 32).
Proof using Hd.
  intros Hi. destruct (argument_lookup i Hi) as [Ha _]. unfold data_word, arg_low, DATA_ARGS, DATA_NR, DATA_ARCH.
  rewrite !(proj2 (Z.eqb_neq _ _)) by lia. rewrite !(proj2 (Z.leb_le _ _)) by lia. cbn [andb].
  replace (16 + i * 8 - 16) with (i * 8) by lia. rewrite Z.div_mul, Ha, Z.mod_mul by lia. cbn.
  f_equal. change 0xffffffff with (Z.ones 32). by rewrite Z.land_ones.
Qed.

Lemma word_high i : 0 <= i < 6 -> data_word d (arg_high i) = Some (argument d i / 2 ^ 32).
Proof using Hd.
  intros Hi. destruct (argument_lookup i Hi) as [Ha _]. unfold data_word, arg_high, arg_low, DATA_ARGS, DATA_NR, DATA_ARCH.
  rewrite !(proj2 (Z.eqb_neq _ _)) by lia. rewrite !(proj2 (Z.leb_le _ _)) by lia. cbn [andb].
  replace (16 + i * 8 + 4 - 16) with (4 + i * 8) by lia. rewrite Z.div_add, Z.mod_add by lia.
  change (4 / 8) with 0. rewrite Z.add_0_l, Ha. cbn. by rewrite Z.shiftr_div_pow2.
Qed.
End data.

(** * Bodies of rules *)

Section bodies.
Context (d : SeccompData) (Hd : data_ok d).

Lemma returns_equals_jumps count position values rest acc : count - position = Z.of_nat (length values) ->
  returns d (equals_jumps count position values ++ ins_ret RET_KILL_PROCESS :: ins_ret RET_ALLOW :: rest) acc
    (verdict (bool_decide (acc ∈ values))).
Proof using Type.
  revert position. induction values as [ | v values IH]; intros position Hc; cbn [equals_jumps app].
  - rewrite bool_decide_eq_false_2 by apply not_elem_of_nil. constructor.
  - apply returns_eq. destruct (Z.eqb_spec acc v) as [-> | Hne].
    + rewrite bool_decide_eq_true_2 by left. cbn in Hc. replace (Z.to_nat (count - position)) with (S (length values)) by lia.
      assert (length (equals_jumps count (position + 1) values) = length values) as Hl.
      { generalize (position + 1). clear. induction values; intros; cbn; [done | by f_equal]. }
      rewrite drop_app_ge by lia. rewrite Hl. replace (S (length values) - length values)%nat with 1%nat by lia. constructor.
    + cbn [drop Z.to_nat]. rewrite (bool_decide_ext (acc ∈ v :: values) (acc ∈ values)) by (rewrite elem_of_cons; tauto).
      apply IH. cbn in Hc. lia.
Qed.

Lemma returns_equals_any index values body rest acc : 0 <= index < 6 -> Forall is_u32 values ->
  equals_any index values = Some body -> returns d (body ++ rest) acc (verdict (bool_decide (argument d index ∈ values))).
Proof using Hd.
  intros Hi Hv. unfold equals_any, u8_try_from, u8_succ. destruct (Z.leb_spec (Z.of_nat (length values)) U8_MAX); [ | done]. cbn.
  destruct (Z.leb_spec (Z.of_nat (length values) + 1) U8_MAX); [ | done]. cbn. intros [= <-]. cbn [app].
  destruct (argument_lookup d Hd index Hi) as [_ Hu]. unfold is_uint in Hu.
  eapply returns_load; [by apply word_high | ]. apply returns_eq. rewrite <- app_assoc. cbn [app].
  destruct (Z.eqb_spec (argument d index / 2 ^ 32) 0) as [Hz | Hnz]; cbn [Z.to_nat drop].
  - eapply returns_load; [by apply word_low | ]. assert (argument d index < 2 ^ 32) by (apply Z.div_small_iff in Hz; lia).
    rewrite Z.mod_small by lia. apply returns_equals_jumps. lia.
  - rewrite bool_decide_eq_false_2; last first.
    { intros Hin. rewrite Forall_forall in Hv. specialize (Hv _ Hin). unfold is_uint in Hv. apply Hnz, Z.div_small. lia. }
    replace (Z.to_nat (Z.of_nat (length values) + 1)) with (S (length values)) by lia. cbn [drop].
    assert (length (equals_jumps (Z.of_nat (length values)) 0 values) = length values) as Hl.
    { generalize (Z.of_nat (length values)) 0. clear. induction values; intros; cbn; [done | by f_equal]. }
    rewrite drop_app_ge by lia. rewrite Hl, Nat.sub_diag. constructor.
Qed.

Lemma returns_flags index forbidden required rest acc : 0 <= index < 6 ->
  returns d (flags_body index forbidden required ++ rest) acc
    (check_decision (ArgCheck_Flags index forbidden required) [] d).
Proof using Hd.
  intros Hi. unfold flags_body. cbn [check_decision]. destruct (Z.eqb_spec required 0) as [-> | Hne]; cbn [app orb];
    (eapply returns_load; [by apply word_low | ]); apply returns_set; destruct (Z.eqb_spec (Z.land (argument d index mod 2 ^ 32) forbidden) 0);
    cbn; try constructor. destruct (Z.eqb_spec (Z.land (argument d index mod 2 ^ 32) required) 0); cbn; constructor.
Qed.

(** The indices are of the six arguments and the values are words. *)
Definition check_ok (check : ArgCheck) : Prop :=
  match check with
  | ArgCheck_ArgEqualsAny index values => 0 <= index < 6 /\ Forall is_u32 values
  | ArgCheck_Flags index _ _ => 0 <= index < 6
  | _ => True
  end.

Lemma returns_body check requests body rest acc : check_ok check -> Forall is_u32 requests ->
  body_for check requests = Some body -> returns d (body ++ rest) acc (check_decision check requests d).
Proof using Hd.
  destruct check as [ | c | i vs | i f r | ]; cbn [body_for check_ok]; intros Hc Hr Hb.
  - injection Hb as <-. constructor.
  - injection Hb as <-. constructor.
  - destruct Hc. by apply returns_equals_any.
  - injection Hb as <-. by apply returns_flags.
  - by apply returns_equals_any.
Qed.

(** What the first rule with the number of the call decides. *)
Fixpoint decide_rules (rules : list (Z * ArgCheck)) (requests : list Z) : Z :=
  match rules with
  | [] => RET_KILL_PROCESS
  | (nr, check) :: rest => if data_nr d =? nr then check_decision check requests d else decide_rules rest requests
  end.

Lemma returns_blocks rules requests blocks rest : Forall (fun r => check_ok r.2) rules -> Forall is_u32 requests ->
  rule_blocks rules requests = Some blocks ->
  returns d (blocks ++ ins_ret RET_KILL_PROCESS :: rest) (data_nr d) (decide_rules rules requests).
Proof using Hd.
  intros Hrules Hr. revert blocks. induction Hrules as [ | [nr check] rules Hc _ IH]; intros blocks; cbn [rule_blocks decide_rules].
  { intros [= <-]. constructor. }
  destruct (body_for check requests) as [body | ] eqn:Hb; [cbn | done]. unfold u8_try_from.
  destruct (Z.leb_spec (Z.of_nat (length body)) U8_MAX); [cbn | done].
  destruct (rule_blocks rules requests) as [blocks' | ] eqn:Hbl; [cbn | done]. intros [= <-]. cbn [app]. apply returns_eq.
  rewrite <- app_assoc. destruct (data_nr d =? nr); cbn [Z.to_nat drop].
  - by apply returns_body.
  - rewrite Nat2Z.id, drop_app_length. by apply IH.
Qed.

(** Any table that assembles decides as it reads. *)
Lemma assemble_correct rules requests p : Forall (fun r => check_ok r.2) rules -> Forall is_u32 requests ->
  assemble rules requests = Some p ->
  evaluate p d = Some (if negb (data_arch d =? AUDIT_ARCH_X86_64) then RET_KILL_PROCESS else decide_rules rules requests).
Proof using Hd.
  intros Hrules Hr. unfold assemble. destruct (rule_blocks rules requests) as [blocks | ] eqn:Hb; [cbn | done]. intros [= <-].
  unfold evaluate. eapply returns_evaluate; [ | done | done]. eapply returns_load; [done | ]. apply returns_eq.
  destruct (data_arch d =? AUDIT_ARCH_X86_64); cbn [negb Z.to_nat drop].
  - change (Z.to_nat 1) with 1%nat. cbn [drop]. eapply returns_load; [done | ]. by apply returns_blocks.
  - constructor.
Qed.
End bodies.

(** * The shipped tables *)

Lemma requests_words phase : Forall is_u32 (requests_for phase).
Proof. destruct phase; apply (bool_decide_unpack _); by vm_compute. Qed.

#[export] Instance check_ok_dec check : Decision (check_ok check).
Proof. destruct check; cbn [check_ok]; apply _. Defined.

Lemma rules_ok phase : Forall (fun r => check_ok r.2) (phase_rules phase).
Proof. destruct phase; apply (bool_decide_unpack _); by vm_compute. Qed.

Lemma rules_in_order phase : phase_rules phase = omap (phase_check phase) RULES.
Proof. destruct phase; by vm_compute. Qed.

Lemma rules_once : NoDup (rule_nr <$> RULES).
Proof. apply (bool_decide_unpack _). by vm_compute. Qed.

(** A table that names every number once decides by the rule of the number. *)
Lemma decide_rules_find d phase requests (rules : list SyscallRule) : NoDup (rule_nr <$> rules) ->
  decide_rules d (omap (phase_check phase) rules) requests =
    match head (filter (fun r => rule_nr r = data_nr d) rules) ≫= phase_check phase with
    | Some (_, check) => check_decision check requests d
    | None => RET_KILL_PROCESS
    end.
Proof.
  induction rules as [ | r rules IH]; cbn [fmap list_fmap]; [done | ]. intros [Hnot Hnd]%NoDup_cons. specialize (IH Hnd).
  rewrite filter_cons. cbn [omap list_omap]. destruct (decide (rule_nr r = data_nr d)) as [Heq | Hne].
  - cbn [head mbind option_bind]. assert (filter (fun r => rule_nr r = data_nr d) rules = []) as Hnil.
    { apply elem_of_nil_inv. intros r' [Hr' Hin]%list_elem_of_filter. apply Hnot, list_elem_of_fmap. exists r'. by rewrite Hr', Heq. }
    rewrite Hnil in IH. destruct phase; cbn [phase_check].
    + cbn [decide_rules]. rewrite (proj2 (Z.eqb_eq _ _)) by done. done.
    + destruct (rule_steady r) as [c | ]; cbn; [ | done]. by rewrite (proj2 (Z.eqb_eq _ _)) by done.
  - destruct phase; cbn [phase_check].
    + cbn [decide_rules]. by rewrite (proj2 (Z.eqb_neq _ _)) by done.
    + destruct (rule_steady r) as [c | ]; cbn; [ | done]. by rewrite (proj2 (Z.eqb_neq _ _)) by done.
Qed.

#[local] Strategy expand [program_for].

Lemma program_assembled phase : program_for phase = assemble (phase_rules phase) (requests_for phase).
Proof. reflexivity. Qed.

Lemma filter_spec phase : exists p, program_for phase = Some p /\ forall d, data_ok d -> evaluate p d = Some (policy phase d).
Proof.
  assert (is_Some (program_for phase)) as [p Hp] by (destruct phase; eexists; vm_compute; reflexivity).
  exists p. split; [done | ]. intros d Hd. rewrite program_assembled in Hp.
  pose proof (assemble_correct d Hd (phase_rules phase) (requests_for phase) p (rules_ok phase) (requests_words phase) Hp) as ->.
  unfold policy, rule_for. by rewrite rules_in_order, (decide_rules_find d phase _ RULES rules_once).
Qed.

(** C7: the filter is the policy.  For both phases of a worker's life the tables assemble, and
    the program's answer to any system call, of any architecture, number and arguments, is
    the one the tables state: kill for another architecture or an unlisted number, and
    otherwise the verdict of the rule's argument check over the whole 64-bit argument. *)
Theorem filter_exact phase : exists p, program_for phase = Some p /\
  forall d, data_ok d -> evaluate p d = Some (policy phase d).
Proof. exact (filter_spec phase). Qed.

(** A KVM_RUN request in the steady phase, and the same with a bit set above the low word. *)
Lemma filter_exact_witness : exists p, program_for SteadyState = Some p /\
  evaluate p (mkSeccompData AUDIT_ARCH_X86_64 16 [3; 0xAE80; 0; 0; 0; 0]) = Some RET_ALLOW /\
  evaluate p (mkSeccompData AUDIT_ARCH_X86_64 16 [3; 0x10000AE80; 0; 0; 0; 0]) = Some RET_KILL_PROCESS.
Proof.
  destruct (filter_exact SteadyState) as (p & Hp & Hall). exists p. split; [done | ].
  split; (rewrite Hall by (apply (bool_decide_unpack _); vm_compute; reflexivity); vm_compute; reflexivity).
Defined.

(** * What the filters keep out *)

(** Every call the check [c] admits is admitted by [c0]. *)
Definition tightens (c c0 : ArgCheck) : bool :=
  match c, c0 with
  | _, ArgCheck_Any => true
  | ArgCheck_Errno code, ArgCheck_Errno _ => bool_decide (is_u16 code)
  | ArgCheck_ArgEqualsAny i vs, ArgCheck_ArgEqualsAny j ws => (i =? j) && bool_decide (Forall (fun v => v ∈ ws) vs)
  | ArgCheck_Flags i f r, ArgCheck_Flags j g s => (i =? j) && (f =? g) && (r =? s)
  | ArgCheck_IoctlAllowlist, ArgCheck_IoctlAllowlist => true
  | _, _ => false
  end.

Lemma errno_not_allow c : is_u16 c -> Z.lor RET_ERRNO c <> RET_ALLOW.
Proof.
  intros Hc Heq. assert (Z.testbit (Z.lor RET_ERRNO c) 17 = true) as H17 by by rewrite Heq.
  rewrite Z.lor_spec in H17. change (Z.testbit RET_ERRNO 17) with false in H17. cbn [orb] in H17.
  rewrite <- (Z.mod_small c (2 ^ 16)) in H17 by apply Hc. by rewrite Z.mod_pow2_bits_high in H17.
Qed.

Lemma verdict_allow b : verdict b = RET_ALLOW <-> b = true.
Proof. by destruct b. Qed.

Lemma requests_tighten v : v ∈ requests_for SteadyState -> v ∈ requests_for Startup.
Proof.
  assert (Forall (fun v => v ∈ requests_for Startup) (requests_for SteadyState)) as Hall by (apply (bool_decide_unpack _); by vm_compute).
  rewrite Forall_forall in Hall. apply Hall.
Qed.

Lemma tightens_sound c c0 d : tightens c c0 = true -> check_decision c (requests_for SteadyState) d = RET_ALLOW ->
  check_decision c0 (requests_for Startup) d = RET_ALLOW.
Proof.
  destruct c as [ | e | i vs | i f r | ], c0 as [ | e0 | j ws | j g s | ]; cbn [tightens]; try done.
  - intros Hc%bool_decide_eq_true Hal. by apply errno_not_allow in Hal.
  - intros [->%Z.eqb_eq Hsub%bool_decide_eq_true]%andb_true_iff. unfold check_decision.
    rewrite !verdict_allow, !bool_decide_eq_true, Forall_forall in *. auto.
  - intros [[->%Z.eqb_eq ->%Z.eqb_eq]%andb_true_iff ->%Z.eqb_eq]%andb_true_iff. done.
  - intros _. unfold check_decision. rewrite !verdict_allow, !bool_decide_eq_true. apply requests_tighten.
Qed.

Lemma rules_tighten : Forall (fun r => match rule_steady r with Some c => tightens c (rule_startup r) = true | None => True end) RULES.
Proof. repeat (apply Forall_cons; split; [by vm_compute | ]). by apply Forall_nil. Qed.

Lemma rule_for_in nr r : rule_for nr = Some r -> r ∈ RULES /\ rule_nr r = nr.
Proof.
  unfold rule_for. intros Hr. assert (r ∈ filter (fun r => rule_nr r = nr) RULES) as [? ?]%list_elem_of_filter; [ | done].
  destruct (filter _ RULES); [done | ]. injection Hr as ->. left.
Qed.

Lemma policy_tightens d : policy SteadyState d = RET_ALLOW -> policy Startup d = RET_ALLOW.
Proof.
  unfold policy. destruct (negb _); [done | ]. destruct (rule_for (data_nr d)) as [r | ] eqn:Hr; cbn [mbind option_bind]; [ | done].
  apply rule_for_in in Hr as [Hin _]. pose proof rules_tighten as Hall. rewrite Forall_forall in Hall. specialize (Hall r Hin).
  unfold phase_check. destruct (rule_steady r); cbn [mbind option_bind]; [ | done]. by apply tightens_sound.
Qed.

(** A number without a rule is killed. *)
Lemma policy_absent phase d : rule_for (data_nr d) = None -> policy phase d = RET_KILL_PROCESS.
Proof. unfold policy. intros ->. by destruct (negb _). Qed.

Lemma never_allowed_absent : Forall (fun n => rule_for n = None) NEVER_ALLOWED.*2.
Proof. repeat (apply Forall_cons; split; [by vm_compute | ]). by apply Forall_nil. Qed.

Lemma startup_only_dropped : Forall (fun r => rule_name r ∈ STARTUP_ONLY -> rule_steady r = None) RULES.
Proof. apply (bool_decide_unpack _). by vm_compute. Qed.

Lemma policy_rule phase d r c : rule_for (data_nr d) = Some r -> phase_check phase r = Some (rule_nr r, c) ->
  policy phase d = RET_ALLOW -> check_decision c (requests_for phase) d = RET_ALLOW.
Proof. unfold policy. intros -> Hc. destruct (negb _); [done | ]. cbn [mbind option_bind]. by rewrite Hc. Qed.

Lemma flags_allow i f r requests d : check_decision (ArgCheck_Flags i f r) requests d = RET_ALLOW ->
  Z.land (argument d i mod 2 ^ 32) f = 0 /\ (r <> 0 -> Z.land (argument d i mod 2 ^ 32) r <> 0).
Proof.
  unfold check_decision. rewrite verdict_allow. intros [Hf Hr]%andb_true_iff. split; [by apply Z.eqb_eq | ]. intros Hne.
  apply orb_true_iff in Hr as [Hr%Z.eqb_eq | Hr]; [done | ]. by apply negb_true_iff, Z.eqb_neq in Hr.
Qed.

(** C26: what a confined worker cannot do.  The steady filter never admits a call the startup
    filter refuses, so the change of phase only takes away; every call of the denied surface
    is killed in both phases; after startup the setup-only calls are killed, no mapping is
    made or changed to executable, and in either phase a clone makes a thread of the same
    namespaces. *)
Theorem filter_confines startup steady d : program_for Startup = Some startup -> program_for SteadyState = Some steady -> data_ok d ->
  (evaluate steady d = Some RET_ALLOW -> evaluate startup d = Some RET_ALLOW) /\
  (data_nr d ∈ NEVER_ALLOWED.*2 -> evaluate startup d = Some RET_KILL_PROCESS /\ evaluate steady d = Some RET_KILL_PROCESS) /\
  (forall r, rule_for (data_nr d) = Some r -> rule_name r ∈ STARTUP_ONLY -> evaluate steady d = Some RET_KILL_PROCESS) /\
  (data_nr d ∈ [9; 10] -> evaluate steady d = Some RET_ALLOW -> Z.land (argument d 2 mod 2 ^ 32) PROT_EXEC = 0) /\
  (data_nr d = 56 -> evaluate startup d = Some RET_ALLOW ->
     Z.land (argument d 0 mod 2 ^ 32) CLONE_NAMESPACE_MASK = 0 /\ Z.land (argument d 0 mod 2 ^ 32) CLONE_THREAD <> 0).
Proof.
  intros Hp0 Hp1 Hd. destruct (filter_spec Startup) as (p0 & Hq0 & H0), (filter_spec SteadyState) as (p1 & Hq1 & H1).
  rewrite Hq0 in Hp0. rewrite Hq1 in Hp1. injection Hp0 as <-. injection Hp1 as <-. rewrite (H0 d Hd), (H1 d Hd). clear H0 H1.
  split; [intros [= Hal]; by rewrite (policy_tightens d Hal) | ]. split; [ | split; [ | split]].
  - intros Hin. pose proof never_allowed_absent as Hall. rewrite Forall_forall in Hall. by rewrite !policy_absent by auto.
  - intros r Hr Hin. apply rule_for_in in Hr as Hin'. destruct Hin' as [Hin' _]. unfold policy. rewrite Hr. destruct (negb _); [done | ].
    pose proof startup_only_dropped as Hall. rewrite Forall_forall in Hall. cbn [mbind option_bind phase_check]. by rewrite (Hall r Hin' Hin).
  - intros Hnr [= Hal]. repeat (apply elem_of_cons in Hnr as [Hnr | Hnr]); [ | | by apply elem_of_nil in Hnr];
      refine (proj1 (flags_allow _ _ _ _ _ (policy_rule SteadyState d _ NO_EXEC_MAPPING _ _ Hal))); rewrite ?Hnr; reflexivity.
  - intros Hnr [= Hal]. eapply policy_rule in Hal; [ | rewrite Hnr; reflexivity | reflexivity].
    apply flags_allow in Hal as [? Ht]. split; [done | by apply Ht].
Qed.

(** A write in the steady phase was admitted at startup too. *)
Lemma filter_confines_witness : exists startup steady, program_for Startup = Some startup /\ program_for SteadyState = Some steady /\
  evaluate startup (mkSeccompData AUDIT_ARCH_X86_64 1 [1; 4096; 8; 0; 0; 0]) = Some RET_ALLOW.
Proof.
  assert (is_Some (program_for Startup)) as [startup H0] by (eexists; vm_compute; reflexivity).
  assert (is_Some (program_for SteadyState)) as [steady H1] by (eexists; vm_compute; reflexivity).
  exists startup, steady. split; [exact H0 | ]. split; [exact H1 | ].
  apply (filter_confines startup steady _ H0 H1).
  - apply (bool_decide_unpack _). vm_compute. reflexivity.
  - vm_compute in H1. injection H1 as <-. vm_compute. reflexivity.
Defined.
