(* ===== verification/NetdAddr.v ===== *)
(** Addresses of the network broker ([soma-netd] ids.rs, cidr.rs, ipam.rs, protected.rs,
    profile.rs, error.rs): identities, prefixes, lease plans and the allocator over them, the
    protected destinations and the operator's profile. *)

From S2P Require Import Prelude Bytes Wire.
From Stdlib Require Import String.
From stdpp Require Import strings.
From stdpp Require Import options.
Local Open Scope string_scope.
Local Open Scope list_scope.
Local Open Scope Z_scope.

(** * Errors *)

Inductive IntentRejection : Type :=
| EgressUnspecified | DnsUnspecified | DnsWithoutEgress | ResolverFamily | ResolverProtected | ProxyUnimplemented
| StaticAddress | Ipv6Unimplemented | ProfileMismatch | PublicationFamily.

Inductive Step : Type :=
| Unshare | MountNamespace | OpenNamespace | EnterNamespace | OpenTun | TunSetIff | Socket | SetHwaddr | SetMtu | GetFlags
| SetFlags | SetAddress | SetNetmask | AddRoute | Netlink | Sysctl | Thread | LedgerOpen | LedgerWrite | LedgerSync
| LedgerRead | Bind | Unmount | Unlink | SendMsg | RecvMsg | Clock | ListLinks.

Inductive Tool : Type := Nft | Conntrack.

Inductive Drift : Type :=
| NamespaceMissing | TapMissing | VethMissing | HostVethMissing | RulesetMissing | HostRulesetMissing
| ForwardingAlreadyEnabled | LinkAlreadyUp | PublicationRulesetPresent.

Inductive TransferRejection : Type :=
| BadMagic | BadVersion | BadLength | DescriptorCount | ControlShort | ZeroBundle | ZeroGeneration.

Inductive Error : Type :=
| Error_InvalidIntent (r : IntentRejection)
| Error_InvalidProfile (what : string)
| Error_PoolExhausted
| Error_InvalidId (what : string)
| Error_MissingPrivilege (what : string)
| Error_Kernel (step : Step) (errno : Z)
| Error_Tool (tool : Tool) (status : option Z)
| Error_LedgerConflict
| Error_ReplayMismatch
| Error_LedgerCorrupt
| Error_NotAssigned
| Error_Drift (d : Drift)
| Error_Transfer (r : TransferRejection)
| Error_PortUnavailable
| Error_Unimplemented (what : string)
| Error_InvalidState (what : string)
| Error_Protocol (what : string)
| Error_Unauthorized (what : string).

(** * Identities *)

Notation BundleId := bytes (only parsing).
Notation InstanceId := bytes (only parsing).
Notation OperationId := bytes (only parsing).
Notation CleanupGeneration := Z (only parsing).
Notation ConntrackZone := Z (only parsing).


(** The macro [fixed_id], one constructor per label. *)
Definition fixed_id (label : string) (raw : bytes) : Result bytes Error :=
  if all_zero raw then Err (Error_InvalidId label) else Ok raw.

Definition short_hex (id : bytes) : bytes := hex (take 4 id).

Definition generation_new (value : Z) : Result CleanupGeneration Error :=
  if value =? 0 then Err (Error_InvalidId "generation") else Ok value.

Definition zone_new (value : Z) : Result ConntrackZone Error :=
  if value =? 0 then Err (Error_InvalidId "zone") else Ok value.

(** * Prefixes *)

Notation Ipv4Addr := Z (only parsing).
Notation Ipv6Addr := Z (only parsing).

Inductive IpAddr : Type := IpAddr_V4 (a : Ipv4Addr) | IpAddr_V6 (a : Ipv6Addr).

#[export] Instance IpAddr_eq_dec : EqDecision IpAddr.
Proof. solve_decision. Defined.

Inductive Cidr : Type := Cidr_V4 (network : Ipv4Addr) (length : Z) | Cidr_V6 (network : Ipv6Addr) (length : Z).

#[export] Instance Cidr_eq_dec : EqDecision Cidr.
Proof. solve_decision. Defined.

(** Ones shifted left out of a word of [w] bits. *)
Definition word_mask (w length : Z) : Z :=
  if length =? 0 then 0 else Z.land (Z.shiftl (Z.ones w) (w - length)) (Z.ones w).

Definition mask4 (length : Z) : Z := word_mask 32 length.
Definition mask6 (length : Z) : Z := word_mask 128 length.

Definition cidr_v4 (address : Ipv4Addr) (length : Z) : Result Cidr Error :=
  if length >? 32 then Err (Error_InvalidProfile "ipv4 prefix length")
  else Ok (Cidr_V4 (Z.land address (mask4 length)) length).

Definition cidr_v6 (address : Ipv6Addr) (length : Z) : Result Cidr Error :=
  if length >? 128 then Err (Error_InvalidProfile "ipv6 prefix length")
  else Ok (Cidr_V6 (Z.land address (mask6 length)) length).

Definition cidr_host (a : IpAddr) : Cidr :=
  match a with IpAddr_V4 a => Cidr_V4 a 32 | IpAddr_V6 a => Cidr_V6 a 128 end.

Definition cidr_contains (c : Cidr) (a : IpAddr) : bool :=
  match c, a with
  | Cidr_V4 network length, IpAddr_V4 a => Z.land a (mask4 length) =? network
  | Cidr_V6 network length, IpAddr_V6 a => Z.land a (mask6 length) =? network
  | _, _ => false
  end.

Definition cidr_first (c : Cidr) : IpAddr :=
  match c with Cidr_V4 a _ => IpAddr_V4 a | Cidr_V6 a _ => IpAddr_V6 a end.

Definition cidr_overlaps (c d : Cidr) : bool := cidr_contains c (cidr_first d) || cidr_contains d (cidr_first c).

Definition cidr_is_v4 (c : Cidr) : bool := match c with Cidr_V4 _ _ => true | Cidr_V6 _ _ => false end.

(** Octets of an address, in network byte order. *)

Definition cidr_encode (c : Cidr) : bytes :=
  match c with
  | Cidr_V4 a length => 4 :: be_bytes 4 a ++ replicate 12 0 ++ [length]
  | Cidr_V6 a length => 6 :: be_bytes 16 a ++ [length]
  end.

(** * Leases *)

Definition LEASE_PREFIX : Z := 30.
Definition MIN_PLAN_PREFIX : Z := 8.
Definition MAX_PLAN_PREFIX : Z := 28.

Record SubnetPlan : Type := mkSubnetPlan { plan_cidr : Cidr }.

Definition plan_new (base : Ipv4Addr) (prefix : Z) : Result SubnetPlan Error :=
  if negb ((MIN_PLAN_PREFIX <=? prefix) && (prefix <=? MAX_PLAN_PREFIX))
  then Err (Error_InvalidProfile "plan prefix length")
  else let? c := cidr_v4 base prefix in Ok (mkSubnetPlan c).

Definition plan_capacity (p : SubnetPlan) : Z :=
  match plan_cidr p with Cidr_V4 _ prefix => Z.shiftl 1 (LEASE_PREFIX - prefix) | Cidr_V6 _ _ => 0 end.

Record Lease : Type := mkLease {
  lease_network : Ipv4Addr;
  lease_index : Z
}.

Definition checked_mul_u32 (x y : Z) : option Z := if x * y <=? U32_MAX then Some (x * y) else None.

Definition plan_lease (p : SubnetPlan) (index : Z) : option Lease :=
  match plan_cidr p with
  | Cidr_V4 base _ =>
      if index >=? plan_capacity p then None
      else offset ← checked_mul_u32 index 4;
           network ← checked_add_u32 base offset;
           Some (mkLease network index)
  | Cidr_V6 _ _ => None
  end.

Definition lease_cidr (l : Lease) : Cidr := Cidr_V4 (lease_network l) LEASE_PREFIX.
Definition lease_host (l : Lease) : Ipv4Addr := lease_network l + 1.
Definition lease_guest (l : Lease) : Ipv4Addr := lease_network l + 2.

Record LeasePair : Type := mkLeasePair {
  pair_guest : Lease;
  pair_transit : Lease
}.

Record Ipam : Type := mkIpam {
  ipam_leases : SubnetPlan;
  ipam_transit : SubnetPlan;
  ipam_generation : CleanupGeneration;
  ipam_next : Z;
  ipam_limit : Z
}.

Definition ipam_new (leases transit : SubnetPlan) (generation : CleanupGeneration) (limit : Z) : Result Ipam Error :=
  if limit =? 0 then Err (Error_InvalidProfile "lease limit")
  else Ok (mkIpam leases transit generation 0 (Z.min (Z.min limit (plan_capacity leases)) (plan_capacity transit))).

Definition ipam_advance (next : Z) (i : Ipam) : Ipam :=
  mkIpam (ipam_leases i) (ipam_transit i) (ipam_generation i) next (ipam_limit i).

Definition ipam_allocate : ST Ipam Error LeasePair :=
  i <-- st_get ;;
  if ipam_next i >=? ipam_limit i then st_err Error_PoolExhausted
  else
    let index := ipam_next i in
    st_modify (ipam_advance (ipam_next i + 1)) ;;;
    guest <-- st_lift (ok_or Error_PoolExhausted (plan_lease (ipam_leases i) index)) ;;
    transit <-- st_lift (ok_or Error_PoolExhausted (plan_lease (ipam_transit i) index)) ;;
    st_ret (mkLeasePair guest transit).

Definition ipam_next_generation : ST Ipam Error CleanupGeneration :=
  i <-- st_get ;;
  next <-- st_lift (ok_or (Error_InvalidId "generation") (checked_add_u32 (ipam_generation i) 1)) ;;
  generation <-- st_lift (generation_new next) ;;
  st_modify (fun i => mkIpam (ipam_leases i) (ipam_transit i) generation 0 (ipam_limit i)) ;;;
  st_ret generation.

(** * Hardware addresses *)

Record MacPair : Type := mkMacPair {
  mac_guest : bytes;
  mac_tap : bytes
}.

Definition derive_macs (sha256 : bytes -> bytes) (bundle : BundleId) : MacPair :=
  let digest := sha256 (str "soma-netd-mac-v1" ++ [0] ++ bundle) in
  mkMacPair (0x02 :: take 5 digest) (0x06 :: take 5 digest).

(** * Protected destinations *)

Inductive ProtectedReason : Type :=
| R_Unspecified | R_Loopback | R_LinkLocal | R_Rfc1918 | R_SharedAddressSpace | R_UniqueLocal | R_Multicast | R_Broadcast
| R_Reserved | R_Benchmark | R_Ipv4Mapped | R_AwsMetadata | R_AwsResolver | R_AwsTimeSync | R_AwsEcsMetadata
| R_GoogleMetadata | R_AzureMetadata | R_AzureWireServer | R_HostAddress | R_Peer | R_ControlPlane.

(** [reason as u8] *)
Definition reason_code (r : ProtectedReason) : Z :=
  match r with
  | R_Unspecified => 0 | R_Loopback => 1 | R_LinkLocal => 2 | R_Rfc1918 => 3 | R_SharedAddressSpace => 4 | R_UniqueLocal => 5
  | R_Multicast => 6 | R_Broadcast => 7 | R_Reserved => 8 | R_Benchmark => 9 | R_Ipv4Mapped => 10 | R_AwsMetadata => 11
  | R_AwsResolver => 12 | R_AwsTimeSync => 13 | R_AwsEcsMetadata => 14 | R_GoogleMetadata => 15 | R_AzureMetadata => 16
  | R_AzureWireServer => 17 | R_HostAddress => 18 | R_Peer => 19 | R_ControlPlane => 20
  end.

Record ProtectedDestination : Type := mkProtectedDestination {
  dest_cidr : Cidr;
  dest_reason : ProtectedReason
}.

Notation ProtectedSet := (list ProtectedDestination).

Definition ipv4_new (a b c d : Z) : Ipv4Addr := a * 2 ^ 24 + b * 2 ^ 16 + c * 2 ^ 8 + d.

Definition v4 (a b c d length : Z) : Cidr := Cidr_V4 (ipv4_new a b c d) length.

Definition v6 (segments : list Z) (length : Z) : Cidr := Cidr_V6 (foldl (fun acc s => acc * 2 ^ 16 + s) 0 segments) length.

Definition CERTIFIED_DEFAULT : ProtectedSet := [
  mkProtectedDestination (v4 0 0 0 0 8) R_Unspecified;
  mkProtectedDestination (v4 10 0 0 0 8) R_Rfc1918;
  mkProtectedDestination (v4 100 64 0 0 10) R_SharedAddressSpace;
  mkProtectedDestination (v4 127 0 0 0 8) R_Loopback;
  mkProtectedDestination (v4 169 254 0 0 16) R_LinkLocal;
  mkProtectedDestination (v4 169 254 169 254 32) R_AwsMetadata;
  mkProtectedDestination (v4 169 254 169 254 32) R_GoogleMetadata;
  mkProtectedDestination (v4 169 254 169 254 32) R_AzureMetadata;
  mkProtectedDestination (v4 169 254 169 253 32) R_AwsResolver;
  mkProtectedDestination (v4 169 254 169 123 32) R_AwsTimeSync;
  mkProtectedDestination (v4 169 254 170 2 32) R_AwsEcsMetadata;
  mkProtectedDestination (v4 168 63 129 16 32) R_AzureWireServer;
  mkProtectedDestination (v4 172 16 0 0 12) R_Rfc1918;
  mkProtectedDestination (v4 192 0 0 0 24) R_Reserved;
  mkProtectedDestination (v4 192 168 0 0 16) R_Rfc1918;
  mkProtectedDestination (v4 198 18 0 0 15) R_Benchmark;
  mkProtectedDestination (v4 224 0 0 0 4) R_Multicast;
  mkProtectedDestination (v4 240 0 0 0 4) R_Reserved;
  mkProtectedDestination (v4 255 255 255 255 32) R_Broadcast;
  mkProtectedDestination (v6 [0; 0; 0; 0; 0; 0; 0; 0] 128) R_Unspecified;
  mkProtectedDestination (v6 [0; 0; 0; 0; 0; 0; 0; 1] 128) R_Loopback;
  mkProtectedDestination (v6 [0; 0; 0; 0; 0; 0xffff; 0; 0] 96) R_Ipv4Mapped;
  mkProtectedDestination (v6 [0xfd00; 0x0ec2; 0; 0; 0; 0; 0; 0x254] 128) R_AwsMetadata;
  mkProtectedDestination (v6 [0xfc00; 0; 0; 0; 0; 0; 0; 0] 7) R_UniqueLocal;
  mkProtectedDestination (v6 [0xfe80; 0; 0; 0; 0; 0; 0; 0] 10) R_LinkLocal;
  mkProtectedDestination (v6 [0xff00; 0; 0; 0; 0; 0; 0; 0] 8) R_Multicast
].

Definition protected_push (c : Cidr) (r : ProtectedReason) (s : ProtectedSet) : ProtectedSet :=
  s ++ [mkProtectedDestination c r].

Definition protected_contains (s : ProtectedSet) (a : IpAddr) : bool := existsb (fun e => cidr_contains (dest_cidr e) a) s.

Definition protected_encode (s : ProtectedSet) : bytes :=
  concat ((fun e => cidr_encode (dest_cidr e) ++ [reason_code (dest_reason e)]) <$> s).

(** * Profiles *)

Definition MAX_DNS_SERVERS : nat := 8.
Definition MAX_INTERFACE_NAME : nat := 15.

Definition is_ascii_alphanumeric (b : Z) : bool :=
  ((48 <=? b) && (b <=? 57)) || ((65 <=? b) && (b <=? 90)) || ((97 <=? b) && (b <=? 122)).

Definition interface_name_new (name : bytes) : Result bytes Error :=
  if negb (bool_decide (name = [])) && (length name <=? MAX_INTERFACE_NAME)%nat &&
     negb (bool_decide (name = str ".")) && negb (bool_decide (name = str "..")) &&
     forallb (fun b => is_ascii_alphanumeric b || (b =? 45) || (b =? 46)) name
  then Ok name else Err (Error_InvalidProfile "interface name").

Record NetworkProfile : Type := mkNetworkProfile {
  profile_uplink : bytes;
  profile_leases : SubnetPlan;
  profile_transit : SubnetPlan;
  profile_resolvers : list Ipv4Addr;
  profile_protected : ProtectedSet
}.

Definition profile_new (uplink : bytes) (leases transit : SubnetPlan) (resolvers : list Ipv4Addr)
    (host_addresses : list IpAddr) (control_plane : list Cidr) : Result NetworkProfile Error :=
  if cidr_overlaps (plan_cidr leases) (plan_cidr transit) then Err (Error_InvalidProfile "plans overlap")
  else if (MAX_DNS_SERVERS <? length resolvers)%nat then Err (Error_InvalidProfile "too many resolvers")
  else
    let protected := protected_push (plan_cidr transit) R_Peer (protected_push (plan_cidr leases) R_Peer CERTIFIED_DEFAULT) in
    let protected := foldl (fun s a => protected_push (cidr_host a) R_HostAddress s) protected host_addresses in
    let protected := foldl (fun s c => protected_push c R_ControlPlane s) protected control_plane in
    if existsb (fun r => protected_contains protected (IpAddr_V4 r)) resolvers
    then Err (Error_InvalidProfile "resolver protected")
    else Ok (mkNetworkProfile uplink leases transit resolvers protected).

Definition profile_bytes (p : NetworkProfile) : bytes :=
  str "soma-netd-profile-v1" ++ [0] ++ profile_uplink p ++ [0] ++ cidr_encode (plan_cidr (profile_leases p)) ++
  cidr_encode (plan_cidr (profile_transit p)) ++ [u8_saturated (length (profile_resolvers p))] ++
  concat (be_bytes 4 <$> profile_resolvers p) ++ protected_encode (profile_protected p).

Definition profile_digest (sha256 : bytes -> bytes) (p : NetworkProfile) : bytes := sha256 (profile_bytes p).
