(* ===== verification/NetdAddrProps.v ===== *)
(** Prefixes as ranges of addresses, leases that never meet, and profiles whose resolvers are
    outside every protected range. *)

From S2P Require Import Prelude Bytes NetdAddr.
From Stdlib Require Import String.
From stdpp Require Import strings.
From stdpp Require Import options.
Local Open Scope Z_scope.

(** * Prefixes are ranges *)

Lemma land_mask w length a : 0 <= length <= w -> is_uint w a -> Z.land a (word_mask w length) = a - a mod 2 ^ (w - length).
Proof.
  intros Hl Ha. unfold word_mask, is_uint in *. destruct (Z.eqb_spec length 0) as [-> | Hne].
  { rewrite Z.sub_0_r, Z.land_0_r, Z.mod_small by lia. lia. }
  rewrite (Z.land_comm (Z.shiftl _ _)), Z.land_assoc, Z.land_ones, Z.mod_small by lia.
  transitivity (Z.shiftl (Z.shiftr a (w - length)) (w - length)).
  - apply Z.bits_inj'. intros n Hn. rewrite Z.land_spec, !Z.shiftl_spec by lia. destruct (Z.ltb_spec n (w - length)).
    + rewrite !(Z.testbit_neg_r _ (n - _)) by lia. apply andb_false_r.
    + rewrite Z.shiftr_spec by lia. replace (n - (w - length) + (w - length)) with n by lia.
      destruct (Z.ltb_spec n w).
      * rewrite Z.ones_spec_low by lia. apply andb_true_r.
      * rewrite <- (Z.mod_small a (2 ^ w)) by lia. by rewrite Z.mod_pow2_bits_high by lia.
  - rewrite Z.shiftl_mul_pow2, Z.shiftr_div_pow2 by lia.
    pose proof (Z.div_mod a (2 ^ (w - length)) ltac:(apply Z.pow_nonzero; lia)). lia.
Qed.

(** A canonical prefix of [w]-bit addresses: no host bit is set. *)
Definition prefix_ok (w network length : Z) : Prop := 0 <= length <= w /\ is_uint w network /\ network mod 2 ^ (w - length) = 0.

Lemma prefix_member w network length a : prefix_ok w network length -> is_uint w a ->
  (Z.land a (word_mask w length) =? network) = true <-> network <= a < network + 2 ^ (w - length).
Proof.
  intros (Hl & Hn & Hm) Ha. rewrite land_mask, Z.eqb_eq by done. pose proof (Z.pow_pos_nonneg 2 (w - length) ltac:(lia) ltac:(lia)) as Hp.
  split.
  - intros <-. pose proof (Z.mod_pos_bound a (2 ^ (w - length)) Hp). lia.
  - intros Hr. assert (a mod 2 ^ (w - length) = a - network) as ->; [ | lia].
    replace a with ((a - network) + network / 2 ^ (w - length) * 2 ^ (w - length)) at 1.
    + rewrite Z.mod_add by lia. apply Z.mod_small. lia.
    + pose proof (Z.div_mod network (2 ^ (w - length)) ltac:(lia)). lia.
Qed.

Lemma prefix_canonical w length a : 0 <= length <= w -> is_uint w a -> prefix_ok w (Z.land a (word_mask w length)) length.
Proof.
  intros Hl Ha. rewrite land_mask by done. pose proof (Z.pow_pos_nonneg 2 (w - length) ltac:(lia) ltac:(lia)) as Hp.
  pose proof (Z.mod_pos_bound a (2 ^ (w - length)) Hp). unfold is_uint in *. split; [done | ].
  pose proof (Z.mod_le a (2 ^ (w - length)) ltac:(lia) Hp). split; [unfold is_uint; lia | ].
  rewrite Zminus_mod_idemp_r, Z.sub_diag. by apply Z.mod_0_l; lia.
Qed.

(** Two canonical prefixes meet only when one holds the first address of the other. *)
Lemma prefixes_meet w n1 l1 n2 l2 a : prefix_ok w n1 l1 -> prefix_ok w n2 l2 -> l1 <= l2 ->
  n1 <= a < n1 + 2 ^ (w - l1) -> n2 <= a < n2 + 2 ^ (w - l2) -> n1 <= n2 < n1 + 2 ^ (w - l1).
Proof.
  intros (Hl1 & Hn1 & Hm1) (Hl2 & Hn2 & Hm2) Hle H1 H2.
  pose proof (Z.pow_pos_nonneg 2 (w - l2) ltac:(lia) ltac:(lia)) as Hp.
  assert (2 ^ (w - l1) = 2 ^ (w - l2) * 2 ^ (l2 - l1)) as Heq by (rewrite <- Z.pow_add_r by lia; f_equal; lia).
  pose proof (Z.pow_pos_nonneg 2 (w - l1) ltac:(lia) ltac:(lia)) as Hp1.
  split; [ | lia].
  assert (n1 mod 2 ^ (w - l2) = 0) as Hm1'.
  { apply Z.mod_divide; [lia | ]. apply Z.mod_divide in Hm1 as [c Hc]; [ | lia].
    exists (c * 2 ^ (l2 - l1)). rewrite Hc, Heq. ring. }
  apply Z.mod_divide in Hm2 as [c2 Hc2]; [ | lia]. apply Z.mod_divide in Hm1' as [c1 Hc1]; [ | lia].
  assert (c1 < c2 + 1) by (apply (Z.mul_lt_mono_pos_r (2 ^ (w - l2))); lia).
  rewrite Hc1, Hc2. apply Z.mul_le_mono_nonneg_r; lia.
Qed.

Definition cidr_ok (c : Cidr) : Prop :=
  match c with Cidr_V4 n l => prefix_ok 32 n l | Cidr_V6 n l => prefix_ok 128 n l end.

Definition addr_ok (a : IpAddr) : Prop := match a with IpAddr_V4 a => is_u32 a | IpAddr_V6 a => is_uint 128 a end.

Lemma cidr_v4_ok a l c : is_u32 a -> 0 <= l -> cidr_v4 a l = Ok c -> cidr_ok c.
Proof. unfold cidr_v4. rewrite Z.gtb_ltb. destruct (Z.ltb_spec 32 l); [done | ]. intros Ha Hl [= <-]. by apply prefix_canonical. Qed.

Lemma cidr_v6_ok a l c : is_uint 128 a -> 0 <= l -> cidr_v6 a l = Ok c -> cidr_ok c.
Proof. unfold cidr_v6. rewrite Z.gtb_ltb. destruct (Z.ltb_spec 128 l); [done | ]. intros Ha Hl [= <-]. by apply prefix_canonical. Qed.

(** The addresses of a prefix: a family, a first one and how many. *)
Definition cidr_range (c : Cidr) (a : IpAddr) : Prop :=
  match c, a with
  | Cidr_V4 n l, IpAddr_V4 a => n <= a < n + 2 ^ (32 - l)
  | Cidr_V6 n l, IpAddr_V6 a => n <= a < n + 2 ^ (128 - l)
  | _, _ => False
  end.

Lemma contains_range c a : cidr_ok c -> addr_ok a -> cidr_contains c a = true <-> cidr_range c a.
Proof. destruct c, a; cbn [cidr_ok addr_ok cidr_contains cidr_range]; try done; apply prefix_member. Qed.

Lemma first_in_range c : cidr_ok c -> cidr_range c (cidr_first c) /\ addr_ok (cidr_first c).
Proof.
  destruct c as [n l | n l]; cbn; intros (Hl & Hn & _); (split; [ | done]);
    pose proof (Z.pow_pos_nonneg 2 (32 - l) ltac:(lia)); pose proof (Z.pow_pos_nonneg 2 (128 - l) ltac:(lia)); lia.
Qed.

Lemma contains_first c : cidr_ok c -> cidr_contains c (cidr_first c) = true.
Proof. intros Hc. by apply contains_range; [ | apply first_in_range | apply first_in_range]. Qed.

Lemma overlaps_common c d : cidr_ok c -> cidr_ok d ->
  cidr_overlaps c d = true <-> exists a, addr_ok a /\ cidr_contains c a = true /\ cidr_contains d a = true.
Proof.
  intros Hc Hd. unfold cidr_overlaps. rewrite orb_true_iff. split.
  - intros [Ho | Ho]; [exists (cidr_first d) | exists (cidr_first c)];
      (split; [by apply first_in_range | ]); (split; [ | ]); by rewrite ?contains_first.
  - intros (a & Ha & H1 & H2). apply contains_range in H1; [ | done | done]. apply contains_range in H2; [ | done | done].
    pose proof (first_in_range c Hc) as [_ Hfc]. pose proof (first_in_range d Hd) as [_ Hfd].
    rewrite !contains_range by done.
    destruct c as [n1 l1 | n1 l1], d as [n2 l2 | n2 l2], a as [a | a]; try done; cbn in *;
      (destruct (Z.le_ge_cases l1 l2); [left; by eapply prefixes_meet | right; by eapply prefixes_meet]).
Qed.

(** * Leases *)

Definition plan_ok (p : SubnetPlan) : Prop := exists n l, plan_cidr p = Cidr_V4 n l /\ 8 <= l <= 28 /\ prefix_ok 32 n l.

Lemma plan_new_ok base prefix p : is_u32 base -> plan_new base prefix = Ok p -> plan_ok p.
Proof.
  intros Hb. unfold plan_new, MIN_PLAN_PREFIX, MAX_PLAN_PREFIX. destruct (Z.leb_spec 8 prefix), (Z.leb_spec prefix 28); try done. cbn [negb andb].
  intros (c & Hc & [= <-])%bind_Ok. assert (cidr_ok c) as Hok by (eapply (cidr_v4_ok base prefix); [done | lia | done]).
  unfold cidr_v4 in Hc. rewrite Z.gtb_ltb in Hc. destruct (32 <? prefix); [done | ]. injection Hc as <-. eexists _, prefix. by split.
Qed.

Lemma plan_capacity_pow p n l : plan_cidr p = Cidr_V4 n l -> l <= 28 -> plan_capacity p = 2 ^ (30 - l).
Proof. intros Hp Hl. unfold plan_capacity, LEASE_PREFIX. rewrite Hp, Z.shiftl_mul_pow2 by lia. lia. Qed.

(** A plan is cut into prefixes of four addresses, one after the other. *)
Lemma plan_lease_at p i : plan_ok p -> 0 <= i < plan_capacity p -> exists n l, plan_cidr p = Cidr_V4 n l /\
  plan_lease p i = Some (mkLease (n + 4 * i) i) /\ 0 <= n /\ n + 4 * i + 4 <= n + 2 ^ (32 - l) /\ n + 4 * i + 4 <= 2 ^ 32 /\ n mod 4 = 0.
Proof.
  intros (n & l & Hp & Hl & (Hl' & Hn & Hm)) Hi. exists n, l. split; [done | ]. unfold is_uint in Hn.
  rewrite (plan_capacity_pow p n l) in Hi by (done || lia).
  assert (2 ^ (32 - l) = 4 * 2 ^ (30 - l)) as H4 by (change 4 with (2 ^ 2); rewrite <- Z.pow_add_r by lia; f_equal; lia).
  pose proof (Z.pow_pos_nonneg 2 (30 - l) ltac:(lia) ltac:(lia)). apply Z.mod_divide in Hm as [c Hc]; [ | lia].
  assert (2 ^ 32 = 2 ^ (32 - l) * 2 ^ l) as H32 by (rewrite <- Z.pow_add_r by lia; f_equal; lia).
  assert (c < 2 ^ l) as Hcl by (apply (Z.mul_lt_mono_pos_r (2 ^ (32 - l))); lia).
  assert (n + 2 ^ (32 - l) <= 2 ^ 32) as Hend. { rewrite H32, Hc. pose proof (Z.mul_le_mono_nonneg_r (c + 1) (2 ^ l) (2 ^ (32 - l)) ltac:(lia) ltac:(lia)). lia. }
  split; [ | ].
  - unfold plan_lease. rewrite Hp, Z.geb_leb, (plan_capacity_pow p n l) by (done || lia). rewrite (proj2 (Z.leb_gt _ _)) by lia.
    unfold checked_mul_u32, checked_add_u32, U32_MAX. rewrite (proj2 (Z.leb_le (i * 4) _)) by lia. cbn.
    rewrite (proj2 (Z.leb_le _ _)) by lia. cbn. do 2 f_equal. lia.
  - split; [lia | ]. split; [lia | ]. split; [lia | ]. rewrite Hc, H4. replace (c * (4 * 2 ^ (30 - l))) with (c * 2 ^ (30 - l) * 4) by lia.
    apply Z.mod_mul. lia.
Qed.

(** The lease [i] of a plan. *)
Definition lease_at (p : SubnetPlan) (i : Z) (l : Lease) : Prop := 0 <= i < plan_capacity p /\ plan_lease p i = Some l.

Lemma lease_at_ok p i l : plan_ok p -> lease_at p i l -> cidr_ok (lease_cidr l) /\ lease_index l = i /\
  cidr_contains (lease_cidr l) (IpAddr_V4 (lease_host l)) = true /\ cidr_contains (lease_cidr l) (IpAddr_V4 (lease_guest l)) = true.
Proof.
  intros Hp [Hi Hl]. destruct (plan_lease_at p i Hp Hi) as (n & len & _ & Heq & Hn & _ & Hend & Hm). rewrite Hl in Heq. injection Heq as ->.
  assert (cidr_ok (lease_cidr (mkLease (n + 4 * i) i))) as Hok.
  { unfold lease_cidr, LEASE_PREFIX, cidr_ok, prefix_ok, is_uint. cbn [lease_network]. change (2 ^ (32 - 30)) with 4.
    split; [lia | ]. split; [lia | ]. replace (4 * i) with (i * 4) by lia. by rewrite Z.mod_add. }
  split; [done | ]. split; [done | ]. split; apply contains_range; try done; unfold lease_host, lease_guest, addr_ok, is_uint;
    cbn [lease_cidr cidr_range lease_network LEASE_PREFIX]; change (2 ^ (32 - LEASE_PREFIX)) with 4; lia.
Qed.

Lemma leases_apart p i j l m : plan_ok p -> lease_at p i l -> lease_at p j m -> i <> j ->
  cidr_overlaps (lease_cidr l) (lease_cidr m) = false.
Proof.
  intros Hp Hl Hm Hne. apply not_true_is_false. rewrite overlaps_common; [ | by eapply lease_at_ok | by eapply lease_at_ok].
  pose proof (lease_at_ok p i l Hp Hl) as (Hok1 & _). pose proof (lease_at_ok p j m Hp Hm) as (Hok2 & _).
  intros (a & Ha & H1 & H2). apply contains_range in H1; [ | done | done]. apply contains_range in H2; [ | done | done].
  destruct Hl as [Hi Hl], Hm as [Hj Hm].
  destruct (plan_lease_at p i Hp Hi) as (n & len & Hc & Heq & _), (plan_lease_at p j Hp Hj) as (n' & len' & Hc' & Heq' & _).
  rewrite Hl in Heq. rewrite Hm in Heq'. rewrite Hc in Hc'. injection Hc' as <- <-. injection Heq as ->. injection Heq' as ->.
  destruct a as [a | a]; [ | done]. cbn in H1, H2. unfold LEASE_PREFIX in *. change (2 ^ (32 - 30)) with 4 in *. lia.
Qed.

Lemma lease_inside p i l a : plan_ok p -> lease_at p i l -> addr_ok a -> cidr_contains (lease_cidr l) a = true ->
  cidr_contains (plan_cidr p) a = true.
Proof.
  intros Hp Hl Ha H1. pose proof (lease_at_ok p i l Hp Hl) as (Hok & _). apply contains_range in H1; [ | done | done].
  pose proof Hp as (n0 & l0 & Hc0 & _ & Hpre). destruct Hl as [Hi Hl].
  destruct (plan_lease_at p i Hp Hi) as (n & len & Hc & Heq & Hn & Hend & _). rewrite Hl in Heq. injection Heq as ->.
  rewrite Hc in Hc0. injection Hc0 as <- <-. apply contains_range; [by rewrite Hc | done | ]. rewrite Hc.
  destruct a as [a | a]; [ | done]. cbn in H1 |- *. unfold LEASE_PREFIX in *. change (2 ^ (32 - 30)) with 4 in *. lia.
Qed.

Lemma leases_of_plans_apart p q i j l m : plan_ok p -> plan_ok q -> cidr_overlaps (plan_cidr p) (plan_cidr q) = false ->
  lease_at p i l -> lease_at q j m -> cidr_overlaps (lease_cidr l) (lease_cidr m) = false.
Proof.
  intros Hp Hq Hno Hl Hm. apply not_true_is_false. rewrite overlaps_common; [ | by apply (lease_at_ok p i l) | by apply (lease_at_ok q j m)].
  intros (a & Ha & H1 & H2). apply not_true_iff_false in Hno. apply Hno.
  apply overlaps_common; [destruct Hp as (? & ? & -> & _ & ?); done | destruct Hq as (? & ? & -> & _ & ?); done | ].
  exists a. split; [done | ]. split; [by apply (lease_inside p i l) | by apply (lease_inside q j m)].
Qed.

(** * The allocator *)

(** The life of one allocator, with the lease pairs it handed out under each generation. *)
Inductive ipam_run (i0 : Ipam) : Ipam -> list (CleanupGeneration * LeasePair) -> Prop :=
| ipam_start : ipam_run i0 i0 []
| ipam_allocated i i' log pair : ipam_run i0 i log -> ipam_allocate i = (i', Ok pair) ->
    ipam_run i0 i' ((ipam_generation i, pair) :: log)
| ipam_refused i i' log e : ipam_run i0 i log -> ipam_allocate i = (i', Err e) -> ipam_run i0 i' log
| ipam_renewed i i' log r : ipam_run i0 i log -> ipam_next_generation i = (i', r) -> ipam_run i0 i' log.

Definition of_generation (g : CleanupGeneration) (log : list (CleanupGeneration * LeasePair)) : list LeasePair :=
  snd <$> filter (fun e => e.1 = g) log.

(** The lease pair at an index of both plans. *)
Definition pair_at (i : Ipam) (k : Z) (p : LeasePair) : Prop :=
  lease_at (ipam_leases i) k (pair_guest p) /\ lease_at (ipam_transit i) k (pair_transit p).

Record ipam_inv (i0 i : Ipam) (log : list (CleanupGeneration * LeasePair)) : Prop := {
  inv_plans : ipam_leases i = ipam_leases i0 /\ ipam_transit i = ipam_transit i0 /\ ipam_limit i = ipam_limit i0;
  inv_next : 0 <= ipam_next i <= ipam_limit i;
  inv_limit : ipam_limit i <= plan_capacity (ipam_leases i) /\ ipam_limit i <= plan_capacity (ipam_transit i);
  inv_count : Z.of_nat (length (of_generation (ipam_generation i) log)) = ipam_next i;
  inv_old : forall g p, (g, p) ∈ log -> g <= ipam_generation i;
  inv_ordered : forall g k p, of_generation g log !! k = Some p ->
    pair_at i (Z.of_nat (length (of_generation g log)) - 1 - Z.of_nat k) p
}.

Lemma allocate_spec i : 0 <= ipam_next i -> plan_ok (ipam_leases i) -> plan_ok (ipam_transit i) ->
  ipam_limit i <= plan_capacity (ipam_leases i) -> ipam_limit i <= plan_capacity (ipam_transit i) ->
  if ipam_next i <? ipam_limit i then exists p, pair_at i (ipam_next i) p /\ ipam_allocate i = (ipam_advance (ipam_next i + 1) i, Ok p)
  else ipam_allocate i = (i, Err Error_PoolExhausted).
Proof.
  intros Hn Hl Ht Hcl Hct. unfold ipam_allocate, st_bind, st_get. rewrite Z.geb_leb.
  destruct (Z.ltb_spec (ipam_next i) (ipam_limit i)).
  - rewrite (proj2 (Z.leb_gt _ _)) by lia. unfold st_modify, st_lift.
    destruct (plan_lease_at (ipam_leases i) (ipam_next i) Hl ltac:(lia)) as (n & l & _ & Hg & _),
      (plan_lease_at (ipam_transit i) (ipam_next i) Ht ltac:(lia)) as (n' & l' & _ & Hg' & _).
    rewrite Hg, Hg'. cbn [ok_or st_ret]. eexists. split; [ | reflexivity]. split; split; cbn; done || lia.
  - by rewrite (proj2 (Z.leb_le _ _)).
Qed.

Lemma of_generation_cons g g' p log : of_generation g ((g', p) :: log) =
  if decide (g' = g) then p :: of_generation g log else of_generation g log.
Proof. unfold of_generation. rewrite filter_cons. cbn. by case_decide. Qed.

Lemma of_generation_fresh g log : (forall g' p, (g', p) ∈ log -> g' < g) -> of_generation g log = [].
Proof.
  intros Hlt. unfold of_generation. destruct (filter _ log) as [ | [g' p] l] eqn:Hf; [done | ].
  assert ((g', p) ∈ filter (fun e => e.1 = g) log) as [Heq Hin]%list_elem_of_filter by (rewrite Hf; left). cbn in Heq. apply Hlt in Hin. lia.
Qed.

Lemma ipam_run_inv i0 i log : plan_ok (ipam_leases i0) -> plan_ok (ipam_transit i0) -> ipam_next i0 = 0 -> 0 <= ipam_limit i0 ->
  ipam_limit i0 <= plan_capacity (ipam_leases i0) -> ipam_limit i0 <= plan_capacity (ipam_transit i0) ->
  ipam_run i0 i log -> ipam_inv i0 i log.
Proof.
  intros Hl Ht Hn Hlim Hcl Hct. induction 1 as [ | i i' log pair _ IH Ha | i i' log e _ IH Ha | i i' log r _ IH Hg].
  - split; try done; cbn; rewrite ?Hn; try done. by intros g p ?%elem_of_nil.
  - pose proof IH as [(Hpl & Hpt & Hpm) Hnx [Hc1 Hc2] Hcount Hold Hord].
    pose proof (allocate_spec i ltac:(lia) ltac:(by rewrite Hpl) ltac:(by rewrite Hpt) Hc1 Hc2) as Hspec.
    destruct (Z.ltb_spec (ipam_next i) (ipam_limit i)); [ | rewrite Ha in Hspec; done].
    destruct Hspec as (p & Hp & Heq). rewrite Ha in Heq. injection Heq as -> ->. split; cbn [ipam_next ipam_limit ipam_generation ipam_leases ipam_transit ipam_advance]; try done.
    + lia.
    + rewrite of_generation_cons, decide_True by done. cbn [length]. lia.
    + intros g q [[= -> ->] | Hin]%elem_of_cons; [done | by eapply Hold].
    + intros g k q. rewrite of_generation_cons. case_decide as Hg; [ | apply Hord]. subst g. destruct k as [ | k]; cbn [lookup list_lookup length].
      * intros [= ->]. replace (Z.of_nat _ - 1 - Z.of_nat 0) with (ipam_next i) by lia. exact Hp.
      * intros Hq. replace (Z.of_nat _ - 1 - Z.of_nat (S k)) with (Z.of_nat (length (of_generation (ipam_generation i) log)) - 1 - Z.of_nat k) by lia.
        by apply Hord.
  - pose proof IH as [(Hpl & Hpt & Hpm) Hnx [Hc1 Hc2] _ _ _].
    pose proof (allocate_spec i ltac:(lia) ltac:(by rewrite Hpl) ltac:(by rewrite Hpt) Hc1 Hc2) as Hspec.
    destruct (ipam_next i <? ipam_limit i); [destruct Hspec as (p & _ & Heq) | rename Hspec into Heq]; rewrite Ha in Heq; [done | ].
    by injection Heq as -> ->.
  - destruct IH as [Hpl Hnx Hc Hcount Hold Hord]. unfold ipam_next_generation, st_bind, st_get, st_lift, st_modify, st_ret in Hg.
    destruct (checked_add_u32 (ipam_generation i) 1) as [n | ] eqn:Hadd; cbn [ok_or] in Hg; [ | by injection Hg as <- <-].
    unfold generation_new in Hg. destruct (n =? 0); injection Hg as <- <-; [done | ].
    unfold checked_add_u32 in Hadd. destruct (_ <=? _); [ | done]. injection Hadd as <-. split; cbn [ipam_next ipam_limit ipam_generation ipam_leases ipam_transit ipam_advance]; try done; [lia | | ].
    + rewrite of_generation_fresh; [done | ]. intros g p Hin%Hold. lia.
    + intros g p Hin%Hold. lia.
Qed.

Lemma ipam_new_facts leases transit generation limit i : 0 <= limit -> plan_ok leases -> plan_ok transit ->
  ipam_new leases transit generation limit = Ok i ->
  ipam_leases i = leases /\ ipam_transit i = transit /\ ipam_next i = 0 /\ 0 <= ipam_limit i /\
  ipam_limit i <= plan_capacity leases /\ ipam_limit i <= plan_capacity transit.
Proof.
  intros Hlim (n & l & Hp & Hl & _) (m & k & Hq & Hk & _). unfold ipam_new. destruct (limit =? 0); [done | ]. intros [= <-]. cbn.
  rewrite (plan_capacity_pow _ _ _ Hp), (plan_capacity_pow _ _ _ Hq) by lia.
  pose proof (Z.pow_pos_nonneg 2 (30 - l) ltac:(lia) ltac:(lia)). pose proof (Z.pow_pos_nonneg 2 (30 - k) ltac:(lia) ltac:(lia)).
  split; [done | ]. split; [done | ]. lia.
Qed.

(** The prefixes of a lease pair. *)
Definition pair_cidrs (p : LeasePair) : list Cidr := [lease_cidr (pair_guest p); lease_cidr (pair_transit p)].

Definition apart (p q : LeasePair) : Prop :=
  forall c d, c ∈ pair_cidrs p -> d ∈ pair_cidrs q -> cidr_overlaps c d = false.

Lemma pairs_apart i j k p q : plan_ok (ipam_leases i) -> plan_ok (ipam_transit i) ->
  cidr_overlaps (plan_cidr (ipam_leases i)) (plan_cidr (ipam_transit i)) = false ->
  pair_at i j p -> pair_at i k q -> j <> k -> apart p q.
Proof.
  intros Hl Ht Hno [Hg1 Ht1] [Hg2 Ht2] Hne c d Hc Hd. unfold pair_cidrs in *.
  assert (cidr_overlaps (plan_cidr (ipam_transit i)) (plan_cidr (ipam_leases i)) = false) as Hon.
  { unfold cidr_overlaps in *. by rewrite orb_comm. }
  rewrite !elem_of_cons, elem_of_nil in Hc, Hd. destruct Hc as [-> | [-> | []]], Hd as [-> | [-> | []]].
  - by eapply (leases_apart (ipam_leases i) j k).
  - by eapply (leases_of_plans_apart (ipam_leases i) (ipam_transit i) j k).
  - by eapply (leases_of_plans_apart (ipam_transit i) (ipam_leases i) j k).
  - by eapply (leases_apart (ipam_transit i) j k).
Qed.

(** C21: within the life of one allocator no address belongs to two bundles.  Over the plans of a
    profile, whatever sequence of allocations and new generations one allocator goes through from
    the moment it was made, any two pairs it handed out under one generation share no address,
    neither do the guest and transit sides of one pair; both usable addresses of a lease lie in
    its prefix and the prefix in its plan; and an allocation is refused exactly when this
    generation already handed out as many pairs as the limit, without any effect.  A broker that
    is opened again makes a new allocator, which starts from the first pair under whatever
    generation it is given: nothing here relates the pairs of two allocators. *)
Theorem ipam_exclusive base prefix base' prefix' leases transit uplink resolvers hosts control profile generation limit i0 i log :
  is_u32 base -> is_u32 base' -> 0 <= limit -> plan_new base prefix = Ok leases -> plan_new base' prefix' = Ok transit ->
  profile_new uplink leases transit resolvers hosts control = Ok profile ->
  ipam_new leases transit generation limit = Ok i0 -> ipam_run i0 i log ->
  (forall g j k p q, of_generation g log !! j = Some p -> of_generation g log !! k = Some q -> j <> k -> apart p q) /\
  (forall g p, (g, p) ∈ log -> cidr_overlaps (lease_cidr (pair_guest p)) (lease_cidr (pair_transit p)) = false /\
     forall l plan, (l, plan) ∈ [(pair_guest p, leases); (pair_transit p, transit)] ->
       cidr_contains (lease_cidr l) (IpAddr_V4 (lease_host l)) = true /\
       cidr_contains (lease_cidr l) (IpAddr_V4 (lease_guest l)) = true /\
       forall a, addr_ok a -> cidr_contains (lease_cidr l) a = true -> cidr_contains (plan_cidr plan) a = true) /\
  (if Z.of_nat (length (of_generation (ipam_generation i) log)) <? ipam_limit i0
   then exists p, (ipam_allocate i).2 = Ok p else ipam_allocate i = (i, Err Error_PoolExhausted)).
Proof.
  intros Hb Hb' Hlim Hl%plan_new_ok Ht%plan_new_ok Hprof Hnew Hrun; [ | done | done].
  assert (cidr_overlaps (plan_cidr leases) (plan_cidr transit) = false) as Hno.
  { unfold profile_new in Hprof. by destruct (cidr_overlaps _ _). }
  destruct (ipam_new_facts _ _ _ _ _ Hlim Hl Ht Hnew) as (Hil & Hit & Hn & Hlim0 & Hc1 & Hc2).
  destruct (ipam_run_inv i0 i log) as [(Hpl & Hpt & Hpm) Hnx [Hk1 Hk2] Hcount _ Hord]; rewrite ?Hil, ?Hit; try done.
  rewrite Hil in Hpl. rewrite Hit in Hpt. split; [ | split].
  - intros g j k p q Hp Hq Hne. pose proof (lookup_lt_Some _ _ _ Hp). pose proof (lookup_lt_Some _ _ _ Hq).
    apply Hord in Hp, Hq. eapply (pairs_apart i); rewrite ?Hpl, ?Hpt; [done | done | done | exact Hp | exact Hq | lia].
  - intros g p Hin. assert (p ∈ of_generation g log) as [k Hk]%list_elem_of_lookup.
    { unfold of_generation. apply list_elem_of_fmap. exists (g, p). split; [done | ]. by apply list_elem_of_filter. }
    apply Hord in Hk as [Hg Hr]. rewrite Hpl in Hg. rewrite Hpt in Hr. split; [by eapply (leases_of_plans_apart leases transit) | ].
    intros l plan Hlp. assert (exists k, plan_ok plan /\ lease_at plan k l) as (k' & Hok & Hat).
    { repeat (apply elem_of_cons in Hlp as [[= -> ->] | Hlp]); [eauto | eauto | by apply elem_of_nil in Hlp]. }
    destruct (lease_at_ok plan k' l Hok Hat) as (_ & _ & Hh & Hg'). split; [done | ]. split; [done | ].
    intros a Ha. by apply (lease_inside plan k' l).
  - rewrite Hcount, <- Hpm. pose proof (allocate_spec i ltac:(lia) ltac:(by rewrite Hpl) ltac:(by rewrite Hpt) Hk1 Hk2) as Hspec.
    destruct (_ <? _); [ | done]. destruct Hspec as (p & _ & ->). by exists p.
Qed.

Definition demo_plan (third : Z) : SubnetPlan := mkSubnetPlan (v4 10 third 0 0 16).

Definition demo_profile : Result NetworkProfile Error :=
  profile_new (str "uplink0") (demo_plan 200) (demo_plan 201) [ipv4_new 1 1 1 1] [IpAddr_V4 (ipv4_new 203 0 113 1)] [v4 198 51 100 0 24].

Definition demo_ipam : Ipam := mkIpam (demo_plan 200) (demo_plan 201) 1 0 2.

(** The plans of the daemon, and three allocations of which two fit. *)
Lemma ipam_exclusive_witness : exists p q i,
  ipam_allocate demo_ipam = (ipam_advance 1 demo_ipam, Ok p) /\ ipam_allocate (ipam_advance 1 demo_ipam) = (i, Ok q) /\
  apart q p /\ lease_guest (pair_guest q) = ipv4_new 10 200 0 6 /\ ipam_allocate i = (i, Err Error_PoolExhausted).
Proof.
  assert (exists p, ipam_allocate demo_ipam = (ipam_advance 1 demo_ipam, Ok p)) as [p Hp] by (eexists; vm_compute; reflexivity).
  assert (exists q, ipam_allocate (ipam_advance 1 demo_ipam) = (ipam_advance 2 demo_ipam, Ok q) /\ lease_guest (pair_guest q) = ipv4_new 10 200 0 6)
    as (q & Hq & Hg) by (eexists; split; [vm_compute; reflexivity | vm_compute; reflexivity]).
  exists p, q, (ipam_advance 2 demo_ipam).
  assert (ipam_run demo_ipam (ipam_advance 2 demo_ipam) [(1, q); (1, p)]) as Hrun.
  { eapply (ipam_allocated _ (ipam_advance 1 demo_ipam)); [ | exact Hq]. eapply (ipam_allocated _ demo_ipam); [constructor | exact Hp]. }
  assert (exists profile, demo_profile = Ok profile) as [profile Hprofile] by (eexists; vm_compute; reflexivity).
  destruct (ipam_exclusive (ipv4_new 10 200 0 0) 16 (ipv4_new 10 201 0 0) 16 (demo_plan 200) (demo_plan 201) (str "uplink0") _ _ _
    profile 1 2 demo_ipam _ _ ltac:(vm_compute; split; congruence) ltac:(vm_compute; split; congruence) ltac:(lia) eq_refl eq_refl
    Hprofile eq_refl Hrun) as (Hapart & _ & Hfull).
  split; [exact Hp | ]. split; [exact Hq | ]. split; [ | split; [exact Hg | exact Hfull]].
  apply (Hapart 1 0%nat 1%nat); [reflexivity | reflexivity | lia].
Defined.
