(* ===== verification/NetPolicy.v ===== *)
(** The portable network policy of a request ([soma] request/network/): publications, DNS,
    egress, proxies, profiles and guest addresses, the constructors that refuse what the
    contract does not allow, and the policy they compose. *)

From S2P Require Import Prelude Bytes Wire NetdAddr.
From Stdlib Require Import String.
From stdpp Require Import strings.
From stdpp Require Import options.
Local Open Scope string_scope.
Local Open Scope list_scope.
Local Open Scope Z_scope.

Inductive ValidationError : Type :=
| InvalidIdentity | InvalidMachineName | InvalidImageReference | InvalidDigest | InvalidPlatform | InvalidShape
| InvalidNetworkPolicy | InvalidCommand | InvalidLimits.

(** * Addresses of the standard library *)

Definition ipv4_is_unspecified (a : Ipv4Addr) : bool := a =? 0.
Definition ipv4_is_loopback (a : Ipv4Addr) : bool := Z.shiftr a 24 =? 127.
Definition ipv4_is_multicast (a : Ipv4Addr) : bool := Z.shiftr a 28 =? 14.
Definition ipv4_is_broadcast (a : Ipv4Addr) : bool := a =? U32_MAX.
Definition ipv6_is_unspecified (a : Ipv6Addr) : bool := a =? 0.
Definition ipv6_is_loopback (a : Ipv6Addr) : bool := a =? 1.
Definition ipv6_is_multicast (a : Ipv6Addr) : bool := Z.shiftr a 120 =? 255.
Definition ipv6_is_unicast_link_local (a : Ipv6Addr) : bool := Z.land (Z.shiftr a 112) 0xffc0 =? 0xfe80.

(** * Publications *)

Inductive TransportProtocol : Type := Tcp | Udp.

Inductive HostPort : Type := HostPort_Automatic | HostPort_Fixed (port : Z).

Inductive HostBind : Type :=
| HostBind_Ipv4 (address : Ipv4Addr)
| HostBind_Ipv6 (address : Ipv6Addr) (v6_only : bool).

Record PortPublication : Type := mkPortPublication {
  pub_bind : HostBind;
  pub_host_port : HostPort;
  pub_guest_port : Z;
  pub_protocol : TransportProtocol
}.

#[export] Instance TransportProtocol_eq_dec : EqDecision TransportProtocol.
Proof. solve_decision. Defined.
#[export] Instance HostPort_eq_dec : EqDecision HostPort.
Proof. solve_decision. Defined.
#[export] Instance HostBind_eq_dec : EqDecision HostBind.
Proof. solve_decision. Defined.
#[export] Instance PortPublication_eq_dec : EqDecision PortPublication.
Proof. solve_decision. Defined.

(** [NonZeroU16::new] *)
Definition non_zero_u16 (value : Z) : option Z := if value =? 0 then None else Some value.

Definition host_port_from_u16 (port : Z) : HostPort :=
  match non_zero_u16 port with Some port => HostPort_Fixed port | None => HostPort_Automatic end.

Definition host_port_requested (p : HostPort) : option Z :=
  match p with HostPort_Automatic => None | HostPort_Fixed port => Some port end.

Definition bind_ipv4 (address : Ipv4Addr) : Result HostBind ValidationError :=
  if ipv4_is_multicast address || ipv4_is_broadcast address then Err InvalidNetworkPolicy else Ok (HostBind_Ipv4 address).

Definition bind_ipv6 (address : Ipv6Addr) (v6_only : bool) : Result HostBind ValidationError :=
  if ipv6_is_multicast address then Err InvalidNetworkPolicy else Ok (HostBind_Ipv6 address v6_only).

Definition bind_new (address : IpAddr) : Result HostBind ValidationError :=
  match address with IpAddr_V4 address => bind_ipv4 address | IpAddr_V6 address => bind_ipv6 address true end.

Definition loopback_v4 : HostBind := HostBind_Ipv4 (ipv4_new 127 0 0 1).

Definition bind_address (b : HostBind) : IpAddr :=
  match b with HostBind_Ipv4 a => IpAddr_V4 a | HostBind_Ipv6 a _ => IpAddr_V6 a end.

Definition bind_v6_only (b : HostBind) : option bool :=
  match b with HostBind_Ipv4 _ => None | HostBind_Ipv6 _ v6_only => Some v6_only end.

Definition conflicts (self other : HostBind) : bool :=
  match self, other with
  | HostBind_Ipv4 a, HostBind_Ipv4 b => ipv4_is_unspecified a || ipv4_is_unspecified b || (a =? b)
  | HostBind_Ipv6 a _, HostBind_Ipv6 b _ => ipv6_is_unspecified a || ipv6_is_unspecified b || (a =? b)
  | HostBind_Ipv6 address v6_only, HostBind_Ipv4 _ | HostBind_Ipv4 _, HostBind_Ipv6 address v6_only =>
      ipv6_is_unspecified address && negb v6_only
  end.

Definition publication_new (bind : HostBind) (host_port : HostPort) (guest_port : Z) (protocol : TransportProtocol) :
    Result PortPublication ValidationError :=
  match non_zero_u16 guest_port with
  | Some guest_port => Ok (mkPortPublication bind host_port guest_port protocol)
  | None => Err InvalidNetworkPolicy
  end.

Definition loopback_tcp (guest_port : Z) : Result PortPublication ValidationError :=
  publication_new loopback_v4 HostPort_Automatic guest_port Tcp.

(** The order [Ord] derives: of the fields in turn, of the variants in their order. *)
Definition bind_key (b : HostBind) : list Z :=
  match b with HostBind_Ipv4 a => [0; a; 0] | HostBind_Ipv6 a v6_only => [1; a; Z.b2z v6_only] end.

Definition host_port_key (p : HostPort) : list Z :=
  match p with HostPort_Automatic => [0; 0] | HostPort_Fixed port => [1; port] end.

Definition publication_key (p : PortPublication) : list Z :=
  bind_key (pub_bind p) ++ host_port_key (pub_host_port p) ++
  [pub_guest_port p; match pub_protocol p with Tcp => 0 | Udp => 1 end].

(** * DNS *)

Inductive DnsPolicy : Type := Dns_Unspecified | Dns_Denied | Dns_System | Dns_Custom (servers : list IpAddr).

#[export] Instance DnsPolicy_eq_dec : EqDecision DnsPolicy.
Proof. solve_decision. Defined.

Definition invalid_resolver (address : IpAddr) : bool :=
  match address with
  | IpAddr_V4 a => ipv4_is_unspecified a || ipv4_is_multicast a || ipv4_is_broadcast a
  | IpAddr_V6 a => ipv6_is_unspecified a || ipv6_is_multicast a
  end.

Definition ip_key (a : IpAddr) : list Z := match a with IpAddr_V4 a => [0; a] | IpAddr_V6 a => [1; a] end.

Definition dns_custom (servers : list IpAddr) : Result DnsPolicy ValidationError :=
  if bool_decide (servers = []) || (MAX_DNS_SERVERS <? length servers)%nat || existsb invalid_resolver servers ||
     negb (length (remove_dups servers) =? length servers)%nat
  then Err InvalidNetworkPolicy else Ok (Dns_Custom (sort_on ip_key servers)).

Definition dns_servers (d : DnsPolicy) : list IpAddr := match d with Dns_Custom servers => servers | _ => [] end.

(** * Egress, profiles and proxies *)

Inductive EgressPolicy : Type := Egress_Unspecified | Egress_Denied | Egress_PublicInternet | Egress_Unrestricted.

#[export] Instance EgressPolicy_eq_dec : EqDecision EgressPolicy.
Proof. solve_decision. Defined.

(** The text of an identifier, as its bytes. *)
Notation NetworkProfileId := bytes (only parsing).
Notation ProxyProfileId := bytes (only parsing).
Notation ProfileRevision := bytes (only parsing).

Definition is_ascii_lowercase (b : Z) : bool := (97 <=? b) && (b <=? 122).
Definition is_ascii_digit (b : Z) : bool := (48 <=? b) && (b <=? 57).

(** A digit, or a letter from a to f. *)
Definition is_lower_hex (b : Z) : bool := is_ascii_digit b || ((97 <=? b) && (b <=? 102)).

Definition is_some_and {A} (p : A -> bool) (o : option A) : bool := match o with Some a => p a | None => false end.

(** [str::strip_prefix] *)
Definition text_strip_prefix (prefix value : bytes) : option bytes :=
  if bool_decide (take (length prefix) value = prefix) then Some (drop (length prefix) value) else None.

Definition valid_profile_id (value : bytes) : bool :=
  ((1 <=? length value)%nat && (length value <=? 63)%nat) && is_some_and is_ascii_alphanumeric (head value) &&
  is_some_and is_ascii_alphanumeric (last value) &&
  forallb (fun b => is_ascii_lowercase b || is_ascii_digit b || (b =? 45)) value.

Definition profile_id_parse (value : bytes) : Result NetworkProfileId ValidationError :=
  if negb (valid_profile_id value) then Err InvalidNetworkPolicy else Ok value.

Definition revision_parse (value : bytes) : Result ProfileRevision ValidationError :=
  let valid := is_some_and (fun hex => (length hex =? 64)%nat && forallb is_lower_hex hex) (text_strip_prefix (str "sha256:") value) in
  if negb valid then Err InvalidNetworkPolicy else Ok value.

Inductive NetworkProfileSelector : Type :=
| Selector_Disabled
| Selector_OperatorDefault
| Selector_Named (profile_id : NetworkProfileId) (revision : ProfileRevision).

Definition selector_is_operator_default (s : NetworkProfileSelector) : bool :=
  match s with Selector_OperatorDefault => true | _ => false end.
Definition selector_is_disabled (s : NetworkProfileSelector) : bool :=
  match s with Selector_Disabled => true | _ => false end.

Inductive ProxyProfileSelector : Type :=
| ProxySelector_OperatorDefault
| ProxySelector_Named (profile_id : ProxyProfileId) (revision : ProfileRevision).

Inductive ProxyPolicy : Type := Proxy_Disabled | Proxy_Required (profile : ProxyProfileSelector).

Definition proxy_is_disabled (p : ProxyPolicy) : bool := match p with Proxy_Disabled => true | _ => false end.

(** * Guest addresses *)

Inductive Ipv4AddressIntent : Type := Ipv4_Unspecified | Ipv4_Disabled | Ipv4_Allocated | Ipv4_Requested (address : Ipv4Addr).
Inductive Ipv6AddressIntent : Type := Ipv6_Unspecified | Ipv6_Disabled | Ipv6_Allocated | Ipv6_Requested (address : Ipv6Addr).

Definition invalid_ipv4 (a : Ipv4Addr) : bool :=
  ipv4_is_unspecified a || ipv4_is_loopback a || ipv4_is_multicast a || ipv4_is_broadcast a.

Definition invalid_ipv6 (a : Ipv6Addr) : bool :=
  ipv6_is_unspecified a || ipv6_is_loopback a || ipv6_is_multicast a || ipv6_is_unicast_link_local a.

Definition ipv4_requested (a : Ipv4Addr) : Result Ipv4AddressIntent ValidationError :=
  if invalid_ipv4 a then Err InvalidNetworkPolicy else Ok (Ipv4_Requested a).

Definition ipv6_requested (a : Ipv6Addr) : Result Ipv6AddressIntent ValidationError :=
  if invalid_ipv6 a then Err InvalidNetworkPolicy else Ok (Ipv6_Requested a).

Definition ipv4_intent_is_unspecified (i : Ipv4AddressIntent) : bool := match i with Ipv4_Unspecified => true | _ => false end.
Definition ipv4_intent_is_disabled (i : Ipv4AddressIntent) : bool := match i with Ipv4_Disabled => true | _ => false end.
Definition ipv4_intent_is_enabled (i : Ipv4AddressIntent) : bool :=
  match i with Ipv4_Allocated | Ipv4_Requested _ => true | _ => false end.
Definition ipv4_requested_address (i : Ipv4AddressIntent) : option Ipv4Addr :=
  match i with Ipv4_Requested a => Some a | _ => None end.
Definition ipv4_fingerprint_code (i : Ipv4AddressIntent) : Z :=
  match i with Ipv4_Unspecified => 0 | Ipv4_Disabled => 1 | Ipv4_Allocated => 2 | Ipv4_Requested _ => 3 end.

Definition ipv6_intent_is_unspecified (i : Ipv6AddressIntent) : bool := match i with Ipv6_Unspecified => true | _ => false end.
Definition ipv6_intent_is_disabled (i : Ipv6AddressIntent) : bool := match i with Ipv6_Disabled => true | _ => false end.
Definition ipv6_intent_is_enabled (i : Ipv6AddressIntent) : bool :=
  match i with Ipv6_Allocated | Ipv6_Requested _ => true | _ => false end.
Definition ipv6_requested_address (i : Ipv6AddressIntent) : option Ipv6Addr :=
  match i with Ipv6_Requested a => Some a | _ => None end.
Definition ipv6_fingerprint_code (i : Ipv6AddressIntent) : Z :=
  match i with Ipv6_Unspecified => 0 | Ipv6_Disabled => 1 | Ipv6_Allocated => 2 | Ipv6_Requested _ => 3 end.

Record GuestAddressIntent : Type := mkGuestAddressIntent {
  addresses_ipv4 : Ipv4AddressIntent;
  addresses_ipv6 : Ipv6AddressIntent
}.

Definition addresses_disabled : GuestAddressIntent := mkGuestAddressIntent Ipv4_Disabled Ipv6_Disabled.
Definition addresses_runtime_default : GuestAddressIntent := mkGuestAddressIntent Ipv4_Unspecified Ipv6_Unspecified.

Definition addresses_new (ipv4 : Ipv4AddressIntent) (ipv6 : Ipv6AddressIntent) : Result GuestAddressIntent ValidationError :=
  if negb (Bool.eqb (ipv4_intent_is_unspecified ipv4) (ipv6_intent_is_unspecified ipv6))
  then Err InvalidNetworkPolicy else Ok (mkGuestAddressIntent ipv4 ipv6).

Definition is_runtime_default (g : GuestAddressIntent) : bool :=
  ipv4_intent_is_unspecified (addresses_ipv4 g) && ipv6_intent_is_unspecified (addresses_ipv6 g).
Definition any_enabled (g : GuestAddressIntent) : bool :=
  ipv4_intent_is_enabled (addresses_ipv4 g) || ipv6_intent_is_enabled (addresses_ipv6 g).
Definition all_disabled (g : GuestAddressIntent) : bool :=
  ipv4_intent_is_disabled (addresses_ipv4 g) && ipv6_intent_is_disabled (addresses_ipv6 g).

(** * The policy *)

Definition MAX_PORT_PUBLICATIONS : nat := 32.

Record NetworkPolicy : Type := mkNetworkPolicy {
  policy_profile : NetworkProfileSelector;
  policy_guest_addresses : GuestAddressIntent;
  policy_proxy : ProxyPolicy;
  policy_egress : EgressPolicy;
  policy_dns : DnsPolicy;
  policy_published_ports : list PortPublication
}.

Definition policy_isolated : NetworkPolicy :=
  mkNetworkPolicy Selector_Disabled addresses_disabled Proxy_Disabled Egress_Denied Dns_Denied [].

Definition policy_runtime_default : NetworkPolicy :=
  mkNetworkPolicy Selector_OperatorDefault addresses_runtime_default Proxy_Disabled Egress_Unspecified Dns_Unspecified [].

Definition valid_dns (addresses : GuestAddressIntent) (dns : DnsPolicy) : bool :=
  match dns with
  | Dns_Unspecified => false
  | Dns_Denied => true
  | Dns_System => any_enabled addresses
  | Dns_Custom servers =>
      any_enabled addresses &&
      forallb (fun server => match server with
                             | IpAddr_V4 _ => ipv4_intent_is_enabled (addresses_ipv4 addresses)
                             | IpAddr_V6 _ => ipv6_intent_is_enabled (addresses_ipv6 addresses)
                             end) servers
  end.

(** The first loop: the set of the publications seen so far. *)
Fixpoint repeats (complete : list PortPublication) (publications : list PortPublication) : bool :=
  match publications with
  | [] => false
  | p :: rest => if bool_decide (p ∈ complete) then true else repeats (p :: complete) rest
  end.

(** Whether [other] would take the host endpoint [first] asks for. *)
Definition endpoint_taken (first other : PortPublication) : bool :=
  match host_port_requested (pub_host_port first) with
  | None => false
  | Some left_port =>
      bool_decide (host_port_requested (pub_host_port other) = Some left_port) &&
      bool_decide (pub_protocol other = pub_protocol first) && conflicts (pub_bind other) (pub_bind first)
  end.

(** The second loop: every publication against those after it. *)
Fixpoint collides (publications : list PortPublication) : bool :=
  match publications with
  | [] => false
  | first :: rest => existsb (endpoint_taken first) rest || collides rest
  end.

Definition has_publication_collision (publications : list PortPublication) : bool :=
  repeats [] publications || collides publications.

Definition valid_intent (profile : NetworkProfileSelector) (addresses : GuestAddressIntent) (proxy : ProxyPolicy)
    (egress : EgressPolicy) (dns : DnsPolicy) (publications : list PortPublication) : bool :=
  let no_publications := bool_decide (publications = []) in
  if (MAX_PORT_PUBLICATIONS <? length publications)%nat || has_publication_collision publications then false
  else if is_runtime_default addresses || bool_decide (egress = Egress_Unspecified) || bool_decide (dns = Dns_Unspecified) then
    selector_is_operator_default profile && is_runtime_default addresses && bool_decide (egress = Egress_Unspecified) &&
    bool_decide (dns = Dns_Unspecified) && proxy_is_disabled proxy && no_publications
  else if selector_is_disabled profile then
    all_disabled addresses && proxy_is_disabled proxy && bool_decide (egress = Egress_Denied) && bool_decide (dns = Dns_Denied) &&
    no_publications
  else if negb no_publications && negb (any_enabled addresses) then false
  else if negb (valid_dns addresses dns) then false
  else match egress with
       | Egress_Unspecified => false
       | Egress_Denied => bool_decide (dns = Dns_Denied) && proxy_is_disabled proxy
       | Egress_PublicInternet => any_enabled addresses
       | Egress_Unrestricted => any_enabled addresses && proxy_is_disabled proxy
       end.

Definition from_intent (profile : NetworkProfileSelector) (addresses : GuestAddressIntent) (proxy : ProxyPolicy)
    (egress : EgressPolicy) (dns : DnsPolicy) (published_ports : list PortPublication) : Result NetworkPolicy ValidationError :=
  if negb (valid_intent profile addresses proxy egress dns published_ports) then Err InvalidNetworkPolicy
  else Ok (mkNetworkPolicy profile addresses proxy egress dns (sort_on publication_key published_ports)).

Definition policy_new (egress : EgressPolicy) (dns : DnsPolicy) (published_ports : list PortPublication) :
    Result NetworkPolicy ValidationError :=
  let closed := bool_decide (egress = Egress_Denied) && bool_decide (published_ports = []) in
  let? guest_addresses :=
    (if bool_decide (egress = Egress_Unspecified) then Ok addresses_runtime_default
     else if closed then Ok addresses_disabled
     else addresses_new Ipv4_Allocated Ipv6_Disabled) in
  let profile := if closed then Selector_Disabled else Selector_OperatorDefault in
  from_intent profile guest_addresses Proxy_Disabled egress dns published_ports.
