(* ===== verification/NetPolicyProps.v ===== *)
(** The portable network policy: which policies the constructor builds, and that the order in
    which publications are given is not part of one. *)

From S2P Require Import Prelude Bytes Wire NetdAddr NetPolicy.
From stdpp Require Import sorting.
From stdpp Require Import options.
Local Open Scope Z_scope.

(** * Keys *)

#[export] Instance publication_key_inj : Inj (=) (=) publication_key.
Proof.
  intros [[a | a []] [ | p] g []] [[b | b []] [ | q] h []]; cbn; intros Hk; simplify_eq; reflexivity.
Qed.

#[export] Instance ip_key_inj : Inj (=) (=) ip_key.
Proof. intros [a | a] [b | b]; cbn; intros [=]; by subst. Qed.

(** * Collisions *)

Lemma repeats_spec complete l : repeats complete l = false <-> NoDup l /\ forall p, p ∈ l -> p ∉ complete.
Proof.
  revert complete. induction l as [ | p l IH]; intros complete; cbn.
  - split; [ | done]. intros _. split; [constructor | ]. by intros p ?%elem_of_nil.
  - case_bool_decide as Hp.
    + split; [done | ]. intros [_ Hno]. destruct (Hno p); [left | done].
    + rewrite IH, NoDup_cons. setoid_rewrite elem_of_cons. split.
      * intros [Hnd Hno]. split; [split; [ | done] | ].
        -- intros Hin. apply (Hno p Hin). by left.
        -- intros q [-> | Hq]; [done | ]. intros Hc. apply (Hno q Hq). by right.
      * intros [[Hp' Hnd] Hno]. split; [done | ]. intros q Hq [-> | Hc]; [done | ]. by apply (Hno q (or_intror Hq)).
Qed.

Lemma repeats_nodup l : repeats [] l = false <-> NoDup l.
Proof. rewrite repeats_spec. split; [by intros [? _] | ]. intros ?. split; [done | ]. intros ? _ ?%elem_of_nil. done. Qed.

Lemma conflicts_sym a b : conflicts a b = conflicts b a.
Proof.
  destruct a as [x | x u], b as [y | y v]; cbn; try done; rewrite (orb_comm (_ x)), (Z.eqb_sym x y); done.
Qed.

Lemma endpoint_taken_iff p q : endpoint_taken p q = true <->
  exists port, pub_host_port p = HostPort_Fixed port /\ pub_host_port q = HostPort_Fixed port /\
    pub_protocol p = pub_protocol q /\ conflicts (pub_bind p) (pub_bind q) = true.
Proof.
  unfold endpoint_taken. rewrite (conflicts_sym (pub_bind q)). destruct (pub_host_port p) as [ | port]; cbn.
  - split; [done | ]. by intros (? & [=] & _).
  - rewrite !andb_true_iff, !bool_decide_eq_true. destruct (pub_host_port q) as [ | port']; cbn; split.
    + by intros [[[=] _] _].
    + by intros (? & _ & [=] & _).
    + intros [[[= ->] ?] ?]. eauto.
    + intros (? & [= ->] & [= ->] & ? & ?). done.
Qed.

Lemma endpoint_taken_sym p q : endpoint_taken p q = endpoint_taken q p.
Proof.
  apply eq_true_iff_eq. rewrite !endpoint_taken_iff. setoid_rewrite (conflicts_sym (pub_bind q)). naive_solver.
Qed.

Lemma existsb_perm {A} (f : A -> bool) l l' : Permutation l l' -> existsb f l = existsb f l'.
Proof.
  intros Hp. apply eq_true_iff_eq. rewrite !existsb_exists. split; intros (x & Hin & Hx); exists x; split; try done;
    eapply Permutation_in; [exact Hp | done | symmetry; exact Hp | done].
Qed.

Lemma collides_perm l l' : Permutation l l' -> collides l = collides l'.
Proof.
  induction 1 as [ | p l l' Hp IH | p q l | l1 l2 l3 _ IH1 _ IH2]; cbn; [done | | | congruence].
  - by rewrite IH, (existsb_perm _ _ _ Hp).
  - rewrite (endpoint_taken_sym q p). destruct (endpoint_taken p q), (existsb (endpoint_taken p) l), (existsb (endpoint_taken q) l); done.
Qed.

Lemma collision_perm l l' : Permutation l l' -> has_publication_collision l = has_publication_collision l'.
Proof.
  intros Hp. unfold has_publication_collision. rewrite (collides_perm _ _ Hp). f_equal.
  destruct (repeats [] l) eqn:E1, (repeats [] l') eqn:E2; try done; exfalso.
  - apply repeats_nodup in E2. rewrite <- Hp in E2. apply repeats_nodup in E2. congruence.
  - apply repeats_nodup in E1. rewrite Hp in E1. apply repeats_nodup in E1. congruence.
Qed.

Lemma collides_lookup l i j p q : collides l = false -> l !! i = Some p -> l !! j = Some q -> i <> j -> endpoint_taken p q = false.
Proof.
  intros Hc Hi Hj Hne.
  assert (forall i j p q, l !! i = Some p -> l !! j = Some q -> (i < j)%nat -> endpoint_taken p q = false) as Hlt.
  { clear -Hc. revert Hc. induction l as [ | x l IH]; intros Hc i j p q Hi Hj Hlt; [done | ]. cbn in Hc. apply orb_false_iff in Hc as [Hx Hl].
    destruct j as [ | j]; [lia | ]. destruct i as [ | i]; cbn in Hi, Hj; [ | apply (IH Hl i j); [done.. | lia]].
    injection Hi as ->. destruct (endpoint_taken p q) eqn:E; [ | done]. rewrite <- Hx. symmetry. apply existsb_exists.
    exists q. split; [ | done]. apply list_elem_of_In. by eapply list_elem_of_lookup_2. }
  destruct (decide (i < j)%nat); [by apply (Hlt i j) | ]. rewrite endpoint_taken_sym. apply (Hlt j i); [done.. | lia].
Qed.

(** * The gate *)

Lemma valid_intent_perm profile addresses proxy egress dns l l' : Permutation l l' ->
  valid_intent profile addresses proxy egress dns l = valid_intent profile addresses proxy egress dns l'.
Proof.
  intros Hp. unfold valid_intent. rewrite (Permutation_length Hp), (collision_perm _ _ Hp).
  assert (bool_decide (l = []) = bool_decide (l' = [])) as ->; [ | done].
  apply bool_decide_ext. split; intros ->; [by apply Permutation_nil in Hp | by apply Permutation_nil_r in Hp].
Qed.

Lemma from_intent_ok profile addresses proxy egress dns l p : from_intent profile addresses proxy egress dns l = Ok p <->
  valid_intent profile addresses proxy egress dns l = true /\
  p = mkNetworkPolicy profile addresses proxy egress dns (sort_on publication_key l).
Proof. unfold from_intent. destruct (valid_intent _ _ _ _ _ _); cbn; split; [intros [= <-] | intros [_ ->] | | intros [[=] _]]; done. Qed.

Lemma is_runtime_default_iff g : is_runtime_default g = true <-> g = addresses_runtime_default.
Proof. destruct g as [[] []]; cbn; split; done. Qed.

Lemma all_disabled_iff g : all_disabled g = true <-> g = addresses_disabled.
Proof. destruct g as [[] []]; cbn; split; done. Qed.

(** A policy leaves everything to the runtime, or nothing is connected, or every dimension is
    given and they agree. *)
Inductive coherent : NetworkPolicy -> Prop :=
| coherent_default : coherent policy_runtime_default
| coherent_isolated : coherent policy_isolated
| coherent_given profile addresses proxy egress dns l :
    profile <> Selector_Disabled -> is_runtime_default addresses = false -> egress <> Egress_Unspecified ->
    (l = [] \/ any_enabled addresses = true) -> valid_dns addresses dns = true ->
    match egress with
    | Egress_Denied => dns = Dns_Denied /\ proxy = Proxy_Disabled
    | Egress_Unrestricted => proxy = Proxy_Disabled
    | _ => True
    end ->
    coherent (mkNetworkPolicy profile addresses proxy egress dns l).

Lemma valid_intent_coherent profile addresses proxy egress dns l : valid_intent profile addresses proxy egress dns l = true ->
  coherent (mkNetworkPolicy profile addresses proxy egress dns l).
Proof.
  unfold valid_intent. destruct (_ || has_publication_collision l); [done | ].
  destruct (is_runtime_default addresses || _ || _) eqn:Hu.
  { rewrite !andb_true_iff, !bool_decide_eq_true, is_runtime_default_iff. intros [[[[[Hs ->] ->] ->] Hp] ->].
    destruct profile, proxy; try done. apply coherent_default. }
  apply orb_false_iff in Hu as [[Hd He%bool_decide_eq_false]%orb_false_iff Hn%bool_decide_eq_false].
  destruct (selector_is_disabled profile) eqn:Hs.
  { rewrite !andb_true_iff, !bool_decide_eq_true, all_disabled_iff. intros [[[[-> Hp] ->] ->] ->].
    destruct profile, proxy; try done. apply coherent_isolated. }
  destruct (negb (bool_decide (l = [])) && _) eqn:Hl; [done | ]. destruct (valid_dns addresses dns) eqn:Hdns; cbn [negb]; [ | done].
  intros Hv. apply coherent_given; try done.
  - by intros ->.
  - destruct (any_enabled addresses); [by right | left]. rewrite andb_true_r in Hl. by apply negb_false_iff, bool_decide_eq_true in Hl.
  - destruct egress; try done; apply andb_true_iff in Hv as [Hx Hy]; destruct proxy; try done. by apply bool_decide_eq_true in Hx.
Qed.

(** The intent of a policy, built again. *)
Definition rebuild (p : NetworkPolicy) : Result NetworkPolicy ValidationError :=
  from_intent (policy_profile p) (policy_guest_addresses p) (policy_proxy p) (policy_egress p) (policy_dns p) (policy_published_ports p).

(** C22: the policy a request builds is canonical: the order in which its publications are given
    does not matter, neither to whether it is accepted nor to the policy built, and a policy
    taken apart and built again, as it is when it is read from its serialized form, is itself. *)
Theorem policy_canonical profile addresses proxy egress dns l l' : Permutation l l' ->
  from_intent profile addresses proxy egress dns l = from_intent profile addresses proxy egress dns l' /\
  forall p, from_intent profile addresses proxy egress dns l = Ok p -> rebuild p = Ok p.
Proof.
  intros Hp. split.
  - unfold from_intent. by rewrite (valid_intent_perm _ _ _ _ _ _ _ Hp), (sort_on_canonical publication_key _ _ Hp).
  - intros p [Hv ->]%from_intent_ok. unfold rebuild. apply from_intent_ok.
    cbn [policy_profile policy_guest_addresses policy_proxy policy_egress policy_dns policy_published_ports].
    rewrite (valid_intent_perm _ _ _ _ _ _ l (sort_on_perm _ _)). split; [done | ].
    by rewrite (sort_on_canonical publication_key _ _ (sort_on_perm publication_key l)).
Qed.

Definition web : PortPublication := mkPortPublication loopback_v4 (HostPort_Fixed 8080) 80 Tcp.
Definition dns_pub : PortPublication := mkPortPublication loopback_v4 HostPort_Automatic 53 Udp.
Definition v4_only : GuestAddressIntent := mkGuestAddressIntent Ipv4_Allocated Ipv6_Disabled.

Lemma policy_canonical_witness :
  policy_new Egress_PublicInternet Dns_System [web; dns_pub] = policy_new Egress_PublicInternet Dns_System [dns_pub; web] /\
  from_intent Selector_OperatorDefault v4_only Proxy_Disabled Egress_PublicInternet Dns_System [web; dns_pub] =
    Ok (mkNetworkPolicy Selector_OperatorDefault v4_only Proxy_Disabled Egress_PublicInternet Dns_System [dns_pub; web]).
Proof.
  assert (Permutation [web; dns_pub] [dns_pub; web]) as Hp by apply perm_swap.
  split; [exact (proj1 (policy_canonical Selector_OperatorDefault v4_only Proxy_Disabled Egress_PublicInternet Dns_System _ _ Hp)) | ].
  vm_compute. reflexivity.
Defined.

(** What a policy promises whoever serves it. *)
Record policy_ok (p : NetworkPolicy) : Prop := {
  ok_bounded : (length (policy_published_ports p) <= MAX_PORT_PUBLICATIONS)%nat;
  ok_nodup : NoDup (policy_published_ports p);
  ok_endpoints : forall i j a b port, policy_published_ports p !! i = Some a -> policy_published_ports p !! j = Some b -> i <> j ->
    pub_host_port a = HostPort_Fixed port -> pub_host_port b = HostPort_Fixed port -> pub_protocol a = pub_protocol b ->
    conflicts (pub_bind a) (pub_bind b) = false;
  ok_denied : policy_egress p = Egress_Denied -> policy_dns p = Dns_Denied /\ policy_proxy p = Proxy_Disabled;
  ok_disabled : policy_profile p = Selector_Disabled -> p = policy_isolated;
  ok_default : is_runtime_default (policy_guest_addresses p) = true \/ policy_egress p = Egress_Unspecified \/ policy_dns p = Dns_Unspecified ->
    p = policy_runtime_default;
  ok_reachable : policy_published_ports p <> [] \/ dns_servers (policy_dns p) <> [] \/ policy_dns p = Dns_System ->
    any_enabled (policy_guest_addresses p) = true;
  ok_resolvers : forall a, a ∈ dns_servers (policy_dns p) ->
    match a with
    | IpAddr_V4 _ => ipv4_intent_is_enabled (addresses_ipv4 (policy_guest_addresses p))
    | IpAddr_V6 _ => ipv6_intent_is_enabled (addresses_ipv6 (policy_guest_addresses p))
    end = true
}.

Lemma coherent_closed p : coherent p ->
  (policy_egress p = Egress_Denied -> policy_dns p = Dns_Denied /\ policy_proxy p = Proxy_Disabled) /\
  (policy_profile p = Selector_Disabled -> p = policy_isolated) /\
  (is_runtime_default (policy_guest_addresses p) = true \/ policy_egress p = Egress_Unspecified \/ policy_dns p = Dns_Unspecified ->
    p = policy_runtime_default).
Proof.
  destruct 1 as [ | | profile addresses proxy egress dns l Hp Hd He Hl Hdns Hc]; [by naive_solver | by naive_solver | ].
  cbn. split; [by intros -> | ]. split; [done | ]. intros [? | [? | ->]]; [congruence | done | done].
Qed.

Lemma coherent_reachable p : coherent p ->
  (policy_published_ports p <> [] \/ dns_servers (policy_dns p) <> [] \/ policy_dns p = Dns_System ->
    any_enabled (policy_guest_addresses p) = true) /\
  forall a, a ∈ dns_servers (policy_dns p) ->
    match a with
    | IpAddr_V4 _ => ipv4_intent_is_enabled (addresses_ipv4 (policy_guest_addresses p))
    | IpAddr_V6 _ => ipv6_intent_is_enabled (addresses_ipv6 (policy_guest_addresses p))
    end = true.
Proof.
  destruct 1 as [ | | profile addresses proxy egress dns l Hp Hd He Hl Hdns Hc].
  1, 2: split; [cbn; naive_solver | by intros a ?%elem_of_nil].
  cbn in *. destruct dns as [ | | | servers]; cbn in *; try (split; [naive_solver | by intros a ?%elem_of_nil]).
  apply andb_true_iff in Hdns as [Hany Hall]. split; [done | ]. rewrite forallb_forall in Hall.
  intros a Ha%list_elem_of_In. by apply Hall.
Qed.

Lemma valid_intent_sound profile addresses proxy egress dns l : valid_intent profile addresses proxy egress dns l = true ->
  policy_ok (mkNetworkPolicy profile addresses proxy egress dns l).
Proof.
  intros Hv. pose proof (valid_intent_coherent _ _ _ _ _ _ Hv) as Hc.
  destruct (coherent_closed _ Hc) as (H1 & H2 & H3). destruct (coherent_reachable _ Hc) as (H4 & H5).
  unfold valid_intent in Hv.
  destruct ((MAX_PORT_PUBLICATIONS <? length l)%nat || has_publication_collision l) eqn:Hb; [done | ].
  apply orb_false_iff in Hb as [Hlen [Hrep Hcol]%orb_false_iff].
  split; [by apply Nat.ltb_ge | by apply repeats_nodup | | done..].
  cbn. intros i j a b port Ha Hb' Hne Hpa Hpb Hpr. pose proof (collides_lookup l i j a b Hcol Ha Hb' Hne) as He.
  destruct (conflicts (pub_bind a) (pub_bind b)) eqn:Hx; [ | done].
  assert (endpoint_taken a b = true) by (apply endpoint_taken_iff; eauto). congruence.
Qed.

(** A policy the constructor accepts has at most 32 publications, no two of them the same
    and no two asking for the same host endpoint; it is exactly the isolated policy when its
    profile is disabled and exactly the runtime default when any dimension is left unspecified;
    a denied egress denies DNS and the proxy; and nothing is published or resolved for a guest
    without an address of that family. *)
Theorem policy_sound profile addresses proxy egress dns l p :
  from_intent profile addresses proxy egress dns l = Ok p -> policy_ok p.
Proof.
  intros [Hv ->]%from_intent_ok. rewrite <- (valid_intent_perm _ _ _ _ _ _ _ (sort_on_perm publication_key l)) in Hv.
  apply valid_intent_sound, Hv.
Qed.

Lemma policy_sound_witness : policy_ok (mkNetworkPolicy Selector_OperatorDefault v4_only Proxy_Disabled Egress_Denied Dns_Denied [dns_pub; web]).
Proof. apply (policy_sound Selector_OperatorDefault v4_only Proxy_Disabled Egress_Denied Dns_Denied [web; dns_pub]). vm_compute. reflexivity. Defined.
