(* ===== verification/NetIntent.v ===== *)
(** The intent of the network broker ([soma-netd] intent.rs, intent/codec.rs): the portable
    policy as one operator profile accepts it, and its canonical encoding. *)

From S2P Require Import Prelude Bytes Wire NetdAddr NetPolicy.
From Stdlib Require Import String.
From stdpp Require Import strings.
From stdpp Require Import options.
Local Open Scope string_scope.
Local Open Scope list_scope.
Local Open Scope Z_scope.

(** * Intents *)

Inductive EgressClass : Type := Class_Denied | Class_PublicInternet | Class_Unrestricted.

#[export] Instance EgressClass_eq_dec : EqDecision EgressClass.
Proof. solve_decision. Defined.

Definition forwards (c : EgressClass) : bool := match c with Class_Denied => false | _ => true end.

Definition class_code (c : EgressClass) : Z :=
  match c with Class_Denied => 1 | Class_PublicInternet => 2 | Class_Unrestricted => 3 end.

Definition class_from_code (code : Z) : option EgressClass :=
  if code =? 1 then Some Class_Denied else if code =? 2 then Some Class_PublicInternet
  else if code =? 3 then Some Class_Unrestricted else None.

Record NetworkIntent : Type := mkNetworkIntent {
  intent_egress : EgressClass;
  intent_resolvers : list Ipv4Addr;
  intent_publications : list PortPublication;
  intent_profile : bytes
}.

Definition intent_new (egress : EgressClass) (resolvers : list Ipv4Addr) (publications : list PortPublication) (profile : bytes) :
    Result NetworkIntent Error :=
  if (MAX_PORT_PUBLICATIONS <? length publications)%nat || (MAX_DNS_SERVERS <? length resolvers)%nat
  then Err (Error_Protocol "intent bounds") else Ok (mkNetworkIntent egress resolvers publications profile).

Fixpoint custom_resolvers (servers : list IpAddr) (profile : NetworkProfile) : Result (list Ipv4Addr) Error :=
  match servers with
  | [] => Ok []
  | server :: servers =>
      match server with
      | IpAddr_V6 _ => Err (Error_InvalidIntent ResolverFamily)
      | IpAddr_V4 address =>
          if protected_contains (profile_protected profile) server then Err (Error_InvalidIntent ResolverProtected)
          else let? rest := custom_resolvers servers profile in Ok (address :: rest)
      end
  end.

Section intent.
Context (sha256 : bytes -> bytes).

Definition admit_policy (policy : NetworkPolicy) (profile : NetworkProfile) : Result NetworkIntent Error :=
  let reject {A} reason : Result A Error := Err (Error_InvalidIntent reason) in
  if negb (selector_is_disabled (policy_profile policy)) && negb (selector_is_operator_default (policy_profile policy))
  then reject ProfileMismatch
  else if negb (proxy_is_disabled (policy_proxy policy)) then reject ProxyUnimplemented
  else
    let addresses := policy_guest_addresses policy in
    if bool_decide (is_Some (ipv4_requested_address (addresses_ipv4 addresses))) then reject StaticAddress
    else if ipv6_intent_is_enabled (addresses_ipv6 addresses) then reject Ipv6Unimplemented
    else
      let? egress :=
        match policy_egress policy with
        | Egress_Unspecified => reject EgressUnspecified
        | Egress_Denied => Ok Class_Denied
        | Egress_PublicInternet => Ok Class_PublicInternet
        | Egress_Unrestricted => Ok Class_Unrestricted
        end in
      let? resolvers :=
        match policy_dns policy with
        | Dns_Unspecified => reject DnsUnspecified
        | Dns_Denied => Ok []
        | Dns_System => Ok (profile_resolvers profile)
        | Dns_Custom servers => custom_resolvers servers profile
        end in
      if bool_decide (egress = Class_Denied) && negb (bool_decide (resolvers = [])) then reject DnsWithoutEgress
      else if existsb (fun p => match bind_address (pub_bind p) with IpAddr_V6 _ => true | _ => false end) (policy_published_ports policy)
      then reject PublicationFamily
      else intent_new egress resolvers (policy_published_ports policy) (profile_digest sha256 profile).

Definition intent_denied (profile : NetworkProfile) : NetworkIntent :=
  mkNetworkIntent Class_Denied [] [] (profile_digest sha256 profile).
End intent.

Definition dns_allowed (i : NetworkIntent) : bool := negb (bool_decide (intent_resolvers i = [])).

(** * The encoding *)

Definition PUBLICATION_SIZE : nat := 1 + 16 + 1 + 2 + 2 + 1.

Definition MAX_ENCODED_INTENT : nat := 1 + 32 + 1 + 4 * MAX_DNS_SERVERS + 1 + PUBLICATION_SIZE * MAX_PORT_PUBLICATIONS.

(** [::ffff:a.b.c.d] *)
Definition to_ipv6_mapped (a : Ipv4Addr) : Ipv6Addr := 0xffff * 2 ^ 32 + a.

Definition to_ipv4_mapped (a : Ipv6Addr) : option Ipv4Addr :=
  if Z.shiftr a 32 =? 0xffff then Some (Z.land a U32_MAX) else None.

Definition encode_bind (b : HostBind) : bytes :=
  match b with
  | HostBind_Ipv4 address => [4] ++ be_bytes 16 (to_ipv6_mapped address) ++ [0]
  | HostBind_Ipv6 address v6_only => [6] ++ be_bytes 16 address ++ [Z.b2z v6_only]
  end.

Definition protocol_code (p : TransportProtocol) : Z := match p with Tcp => 6 | Udp => 17 end.

Definition encode_publication (p : PortPublication) : bytes :=
  encode_bind (pub_bind p) ++ be_bytes 2 (default 0 (host_port_requested (pub_host_port p))) ++
  be_bytes 2 (pub_guest_port p) ++ [protocol_code (pub_protocol p)].

Definition intent_encode (i : NetworkIntent) : bytes :=
  [class_code (intent_egress i)] ++ intent_profile i ++
  [u8_saturated (length (intent_resolvers i))] ++ concat (be_bytes 4 <$> intent_resolvers i) ++
  [u8_saturated (length (intent_publications i))] ++ concat (encode_publication <$> intent_publications i).

(** [Reader]: the cursor cannot overflow, as the buffer is shorter than the address space. *)
Definition short : Error := Error_Protocol "short".

Definition bind_of (family : Z) (raw : Ipv6Addr) (v6_only : Z) : Result HostBind Error :=
  let invalid (r : Result HostBind ValidationError) := map_err (fun _ => Error_Protocol "bind") r in
  if (family =? 4) && (v6_only =? 0) then
    match to_ipv4_mapped raw with
    | None => Err (Error_Protocol "bind address")
    | Some address => invalid (bind_new (IpAddr_V4 address))
    end
  else if (family =? 6) && ((v6_only =? 0) || (v6_only =? 1)) then invalid (bind_ipv6 raw (v6_only =? 1))
  else Err (Error_Protocol "bind family").

Definition decode_bind : ST bytes Error HostBind :=
  family <-- read_u8 short ;;
  raw <-- read_uint short 16 ;;
  v6_only <-- read_u8 short ;;
  st_lift (bind_of family raw v6_only).

Definition protocol_of (code : Z) : Result TransportProtocol Error :=
  if code =? 6 then Ok Tcp else if code =? 17 then Ok Udp else Err (Error_Protocol "transport").

Definition read_protocol : ST bytes Error TransportProtocol := code <-- read_u8 short ;; st_lift (protocol_of code).

Definition decode_publication : ST bytes Error PortPublication :=
  bind <-- decode_bind ;;
  host_port <-- read_uint short 2 ;;
  guest_port <-- read_uint short 2 ;;
  protocol <-- read_protocol ;;
  st_lift (map_err (fun _ => Error_Protocol "publication") (publication_new bind (host_port_from_u16 host_port) guest_port protocol)).

Definition read_class : ST bytes Error EgressClass :=
  code <-- read_u8 short ;; st_lift (ok_or (Error_Protocol "egress") (class_from_code code)).

Definition intent_reader : ST bytes Error NetworkIntent :=
  egress <-- read_class ;;
  profile <-- read_array short 32 ;;
  resolvers <-- read_counted short (Error_Protocol "resolver count") MAX_DNS_SERVERS (read_uint short 4) ;;
  publications <-- read_counted short (Error_Protocol "publication count") MAX_PORT_PUBLICATIONS decode_publication ;;
  st_ret (mkNetworkIntent egress resolvers publications profile).

Definition intent_decode (l : bytes) : Result NetworkIntent Error :=
  let? i := read_all (Error_Protocol "trailing bytes") intent_reader l in
  intent_new (intent_egress i) (intent_resolvers i) (intent_publications i) (intent_profile i).

Definition intent_digest (sha256 : bytes -> bytes) (i : NetworkIntent) : bytes :=
  sha256 (str "soma-netd-intent-v1" ++ [0] ++ intent_encode i).
