(* ===== verification/NetIntentProps.v ===== *)
(** The intent of the network broker: its encoding is canonical and bounded, and an accepted
    intent grants nothing the profile protects. *)

From S2P Require Import Prelude Bytes Wire NetdAddr NetdAddrProps NetPolicy NetPolicyProps NetIntent.
From Stdlib Require Import String.
From stdpp Require Import strings.
From stdpp Require Import options.
Local Open Scope string_scope.
Local Open Scope list_scope.
Local Open Scope Z_scope.

(** * Fields *)

Definition bind_wf (b : HostBind) : Prop :=
  match b with
  | HostBind_Ipv4 a => is_uint 32 a /\ bind_ipv4 a = Ok b
  | HostBind_Ipv6 a v6_only => is_uint 128 a /\ bind_ipv6 a v6_only = Ok b
  end.

Definition publication_wf (p : PortPublication) : Prop :=
  bind_wf (pub_bind p) /\ is_uint 16 (default 0 (host_port_requested (pub_host_port p))) /\
  pub_host_port p <> HostPort_Fixed 0 /\ is_uint 16 (pub_guest_port p) /\ pub_guest_port p <> 0.

Definition intent_wf (i : NetworkIntent) : Prop :=
  (length (intent_profile i) = 32%nat /\ all_bytes (intent_profile i)) /\
  ((length (intent_resolvers i) <= MAX_DNS_SERVERS)%nat /\ Forall (is_uint 32) (intent_resolvers i)) /\
  ((length (intent_publications i) <= MAX_PORT_PUBLICATIONS)%nat /\ Forall publication_wf (intent_publications i)).

Lemma to_ipv4_mapped_iff raw a : is_uint 128 raw -> to_ipv4_mapped raw = Some a <-> is_uint 32 a /\ raw = to_ipv6_mapped a.
Proof.
  intros Hraw. unfold to_ipv4_mapped, to_ipv6_mapped, is_uint in *. change U32_MAX with (Z.ones 32).
  rewrite Z.land_ones, Z.shiftr_div_pow2 by lia. change (2 ^ 32) with 4294967296 in *.
  destruct (Z.eqb_spec (raw / 4294967296) 0xffff) as [Hd | Hd].
  - split.
    + intros [= <-]. pose proof (Z.div_mod raw 4294967296). pose proof (Z.mod_pos_bound raw 4294967296). lia.
    + intros [Ha ->]. f_equal. rewrite Z.add_comm, Z.mod_add, Z.mod_small by lia. done.
  - split; [done | ]. intros [Ha ->]. destruct Hd. rewrite Z.add_comm, Z.div_add, Z.div_small by lia. done.
Qed.

Definition bind_family (b : HostBind) : Z := match b with HostBind_Ipv4 _ => 4 | HostBind_Ipv6 _ _ => 6 end.
Definition bind_raw (b : HostBind) : Z := match b with HostBind_Ipv4 a => to_ipv6_mapped a | HostBind_Ipv6 a _ => a end.
Definition bind_only (b : HostBind) : Z := match b with HostBind_Ipv4 _ => 0 | HostBind_Ipv6 _ o => Z.b2z o end.

Lemma bind_of_iff family raw v6_only b : is_uint 128 raw ->
  ((bind_wf b /\ bind_family b = family) /\ bind_raw b = raw) /\ bind_only b = v6_only <-> bind_of family raw v6_only = Ok b.
Proof.
  intros Hraw. unfold bind_of. split.
  - destruct b as [a | a o]; intros [[[[Ha Hb] <-] <-] <-].
    + cbn [bind_family bind_only]. cbn [Z.eqb andb Pos.eqb]. rewrite (proj2 (to_ipv4_mapped_iff _ a Hraw)) by done. cbn [bind_new]. by rewrite Hb.
    + cbn [bind_family bind_only bind_raw]. cbn [Z.eqb andb Pos.eqb]. destruct o; cbn [Z.b2z Z.eqb orb Pos.eqb]; by rewrite Hb.
  - destruct (Z.eqb_spec family 4) as [-> | ]; cbn [andb]; [destruct (Z.eqb_spec v6_only 0) as [-> | ]; cbn [andb] | ].
    + destruct (to_ipv4_mapped raw) as [a | ] eqn:Hm; [ | done]. apply (to_ipv4_mapped_iff _ _ Hraw) in Hm as [Ha ->]. cbn [bind_new].
      rewrite map_err_Ok. intros Hb. assert (b = HostBind_Ipv4 a) as ->; [ | done].
      unfold bind_ipv4 in Hb. destruct (_ || _); [done | ]. by injection Hb.
    + done.
    + destruct (Z.eqb_spec family 6) as [-> | ]; cbn [andb]; [ | done].
      assert (forall o, bind_ipv6 raw o = Ok b -> b = HostBind_Ipv6 raw o) as Hv6.
      { intros o. unfold bind_ipv6. destruct (ipv6_is_multicast raw); [done | ]. by intros [= <-]. }
      destruct (Z.eqb_spec v6_only 0) as [-> | ]; [ | destruct (Z.eqb_spec v6_only 1) as [-> | ]; [ | done]];
        cbn [orb Z.eqb Pos.eqb]; rewrite map_err_Ok; intros Hb; pose proof (Hv6 _ Hb) as ->; done.
Qed.

Lemma bind_codec : codec decode_bind encode_bind bind_wf.
Proof.
  eapply codec_ext with (ok := bind_wf).
  - apply (codec_bind _ _ (fun z => [z]) is_u8 bind_family
             (fun b => be_bytes 16 (bind_raw b) ++ [bind_only b] ++ [])); [apply codec_u8 | | ].
    + intros family _.
      apply (codec_bind _ _ (be_bytes 16) (is_uint 128) bind_raw (fun b => [bind_only b] ++ [])); [apply (codec_uint short 16) | | ].
      * intros raw Hraw. apply (codec_bind _ _ (fun z => [z]) is_u8 bind_only (fun _ => [])); [apply codec_u8 | | ].
        -- intros v6_only _. apply codec_done. intros b. by apply bind_of_iff.
        -- intros [a | a []] _; unfold is_uint; cbn; lia.
      * intros [a | a o] [[Ha _] _]; unfold is_uint, bind_raw, to_ipv6_mapped in *; lia.
    + intros [a | a o] _; unfold is_uint; cbn; lia.
  - done.
  - intros [a | a o] _; reflexivity.
Qed.

Lemma protocol_codec : codec read_protocol (fun p => [protocol_code p]) (fun _ => True).
Proof.
  apply (codec_lift (read_u8 short) protocol_of (fun z => [z]) is_u8 protocol_code); [apply codec_u8 | | ].
  - intros code p _. unfold protocol_of. destruct (Z.eqb_spec code 6) as [-> | ]; [by intros [= <-] | ].
    destruct (Z.eqb_spec code 17) as [-> | ]; [by intros [= <-] | done].
  - intros [] _; unfold is_uint; cbn; split; done || lia.
Qed.

Lemma class_codec : codec read_class (fun c => [class_code c]) (fun _ => True).
Proof.
  apply (codec_lift (read_u8 short) (fun code => ok_or (Error_Protocol "egress") (class_from_code code)) (fun z => [z]) is_u8 class_code); [apply codec_u8 | | ].
  - intros code c _. rewrite ok_or_Ok. unfold class_from_code. destruct (Z.eqb_spec code 1) as [-> | ]; [by intros [= <-] | ].
    destruct (Z.eqb_spec code 2) as [-> | ]; [by intros [= <-] | ]. destruct (Z.eqb_spec code 3) as [-> | ]; [by intros [= <-] | done].
  - intros [] _; unfold is_uint; cbn; split; done || lia.
Qed.

Lemma host_port_code p port : p <> HostPort_Fixed 0 /\ default 0 (host_port_requested p) = port <-> p = host_port_from_u16 port.
Proof.
  unfold host_port_from_u16, non_zero_u16. destruct p as [ | q]; cbn; destruct (Z.eqb_spec port 0) as [-> | Hne]; split.
  all: try done. all: try (intros [? ?]; congruence). all: intros [=]; subst; split; congruence.
Qed.

Lemma publication_codec : codec decode_publication encode_publication publication_wf.
Proof.
  eapply codec_ext with (ok := publication_wf).
  - apply (codec_bind _ _ encode_bind bind_wf pub_bind
             (fun p => be_bytes 2 (default 0 (host_port_requested (pub_host_port p))) ++ be_bytes 2 (pub_guest_port p) ++ [protocol_code (pub_protocol p)] ++ []));
      [apply bind_codec | | by intros p (? & _)].
    intros bind Hbind.
    apply (codec_bind _ _ (be_bytes 2) (is_uint 16) (fun p => default 0 (host_port_requested (pub_host_port p)))
             (fun p => be_bytes 2 (pub_guest_port p) ++ [protocol_code (pub_protocol p)] ++ []));
      [apply (codec_uint short 2) | | by intros p [(_ & ? & _) _]].
    intros host_port Hhost.
    apply (codec_bind _ _ (be_bytes 2) (is_uint 16) pub_guest_port (fun p => [protocol_code (pub_protocol p)] ++ []));
      [apply (codec_uint short 2) | | by intros p [[(_ & _ & _ & ? & _) _] _]].
    intros guest Hguest.
    apply (codec_bind _ _ (fun p => [protocol_code p]) (fun _ => True) pub_protocol (fun _ => [])); [apply protocol_codec | | done].
    intros protocol _. apply codec_done. intros p. rewrite map_err_Ok. unfold publication_new, non_zero_u16. split.
    + intros [[[[(_ & _ & Hnz & _ & Hg) <-] Hp] <-] <-]. destruct (Z.eqb_spec (pub_guest_port p) 0); [done | ].
      rewrite <- (proj1 (host_port_code (pub_host_port p) host_port)) by done. by destruct p.
    + destruct (Z.eqb_spec guest 0) as [ | Hg]; [done | ]. intros [= <-].
      destruct (proj2 (host_port_code _ host_port) eq_refl) as [Hnz Hp].
      unfold publication_wf. cbn [pub_bind pub_host_port pub_guest_port pub_protocol]. rewrite Hp. done.
  - done.
  - intros p _. unfold encode_publication. by rewrite app_nil_r.
Qed.

Lemma intent_reader_codec : codec intent_reader intent_encode intent_wf.
Proof.
  eapply codec_ext with (ok := intent_wf).
  - apply (codec_bind _ _ (fun c => [class_code c]) (fun _ => True) intent_egress
             (fun i => intent_profile i ++ (u8_saturated (length (intent_resolvers i)) :: concat (be_bytes 4 <$> intent_resolvers i)) ++
                       (u8_saturated (length (intent_publications i)) :: concat (encode_publication <$> intent_publications i)) ++ []));
      [apply class_codec | | done].
    intros egress _.
    apply (codec_bind _ _ id _ intent_profile _ _ (codec_array short 32)); [ | by intros i [[? _] _]].
    intros profile Hprofile.
    apply (codec_bind _ _ _ _ intent_resolvers _ _ (codec_counted short _ MAX_DNS_SERVERS _ _ _ (codec_uint short 4) ltac:(unfold MAX_DNS_SERVERS; lia)));
      [ | by intros i [[(_ & ? & _) _] _]].
    intros resolvers Hresolvers.
    apply (codec_bind _ _ _ _ intent_publications (fun _ => []) _
             (codec_counted short _ MAX_PORT_PUBLICATIONS _ _ _ publication_codec ltac:(unfold MAX_PORT_PUBLICATIONS; lia)));
      [ | by intros i [[[(_ & _ & ?) _] _] _]].
    intros publications Hpublications. apply codec_ret; [done | ]. intros [e r p d]. unfold intent_wf. cbn. naive_solver.
  - done.
  - intros i _. unfold intent_encode. by rewrite app_nil_r.
Qed.

Lemma length_encode_publication p : length (encode_publication p) = PUBLICATION_SIZE.
Proof. unfold encode_publication. destruct (pub_bind p); cbn; rewrite ?length_app, ?length_be_bytes; reflexivity. Qed.

Lemma length_concat_same {A} (f : A -> bytes) n l : (forall a, length (f a) = n) -> length (concat (f <$> l)) = (n * length l)%nat.
Proof. intros Hf. induction l as [ | a l IH]; [cbn; lia | ]. rewrite fmap_cons. cbn [concat length]. rewrite length_app, Hf, IH. lia. Qed.

Lemma intent_new_wf i : intent_wf i -> intent_new (intent_egress i) (intent_resolvers i) (intent_publications i) (intent_profile i) = Ok i.
Proof.
  intros (_ & [Hr _] & [Hp _]). unfold intent_new. rewrite (proj2 (Nat.ltb_ge _ _) Hr), (proj2 (Nat.ltb_ge _ _) Hp). by destruct i.
Qed.

(** C25: the encoding of an intent is canonical and bounded: every intent of the broker is decoded
    from its encoding, which is never longer than the protocol allows; and whatever bytes the
    decoder accepts are exactly the encoding of the intent it returns, so two different byte
    strings never stand for the same intent and a digest over them names one. *)
Theorem intent_roundtrip i l : all_bytes l ->
  (intent_wf i -> intent_decode (intent_encode i) = Ok i /\ (length (intent_encode i) <= MAX_ENCODED_INTENT)%nat) /\
  (intent_decode l = Ok i <-> intent_wf i /\ l = intent_encode i).
Proof.
  intros Hl. assert (intent_wf i -> intent_decode (intent_encode i) = Ok i) as Hread.
  { intros Hi. unfold intent_decode.
    rewrite (proj1 (read_all_codec _ _ _ _ [] i intent_reader_codec) Hi). by apply intent_new_wf. }
  split; [intros Hi; split; [by apply Hread | ] | split].
  - destruct Hi as ([Hp _] & [Hr _] & [Hq _]). unfold intent_encode. rewrite !length_app, Hp.
    rewrite (length_concat_same _ 4) by apply length_be_bytes. rewrite (length_concat_same _ _ _ length_encode_publication).
    unfold MAX_ENCODED_INTENT, PUBLICATION_SIZE, MAX_DNS_SERVERS, MAX_PORT_PUBLICATIONS in *. cbn [length]. lia.
  - unfold intent_decode. intros (i' & Hall & Hnew)%bind_Ok.
    destruct (proj2 (read_all_codec _ _ _ _ l i' intent_reader_codec) Hl Hall) as [Hi ->].
    rewrite (intent_new_wf i' Hi) in Hnew. by injection Hnew as <-.
  - intros [Hi ->]. by apply Hread.
Qed.

Definition demo_intent : NetworkIntent :=
  mkNetworkIntent Class_PublicInternet [ipv4_new 1 1 1 1; ipv4_new 9 9 9 9]
    [mkPortPublication loopback_v4 HostPort_Automatic 8080 Tcp; mkPortPublication (HostBind_Ipv6 1 true) (HostPort_Fixed 5353) 53 Udp]
    (replicate 32 7).

Lemma demo_intent_wf : intent_wf demo_intent.
Proof. repeat split; try (cbn; lia); repeat constructor; cbn; try lia; done. Qed.

Lemma intent_roundtrip_witness : intent_decode (intent_encode demo_intent) = Ok demo_intent /\ length (intent_encode demo_intent) = 89%nat.
Proof.
  split; [ | vm_compute; reflexivity].
  apply (intent_roundtrip demo_intent []); [constructor | exact demo_intent_wf].
Defined.

(** * Admission *)

Lemma protected_contains_app s t a : protected_contains (s ++ t) a = protected_contains s a || protected_contains t a.
Proof. apply existsb_app. Qed.

Lemma protected_push_all {A} (f : A -> Cidr) r s l a :
  protected_contains (foldl (fun s x => protected_push (f x) r s) s l) a = protected_contains s a || existsb (fun x => cidr_contains (f x) a) l.
Proof.
  revert s. induction l as [ | x l IH]; intros s; cbn [foldl existsb]; [by rewrite orb_false_r | ].
  rewrite IH. unfold protected_push. rewrite protected_contains_app. cbn. rewrite orb_false_r. by rewrite orb_assoc.
Qed.

(** What the operator's profile protects, and that it serves no resolver in it. *)
Lemma profile_new_protects uplink leases transit resolvers hosts control p :
  profile_new uplink leases transit resolvers hosts control = Ok p ->
  (forall a, protected_contains (profile_protected p) a =
     protected_contains CERTIFIED_DEFAULT a || cidr_contains (plan_cidr leases) a || cidr_contains (plan_cidr transit) a ||
     existsb (fun h => cidr_contains (cidr_host h) a) hosts || existsb (fun c => cidr_contains c a) control) /\
  profile_resolvers p = resolvers /\ Forall (fun r => protected_contains (profile_protected p) (IpAddr_V4 r) = false) resolvers.
Proof.
  unfold profile_new. destruct (cidr_overlaps _ _); [done | ]. destruct (_ <? _)%nat; [done | ].
  destruct (existsb _ resolvers) eqn:Hr; [done | ]. intros [= <-]. cbn [profile_protected profile_resolvers]. split; [ | split; [done | ]].
  - intros a. rewrite (protected_push_all (fun c => c)), protected_push_all. unfold protected_push. rewrite !protected_contains_app.
    cbn. by rewrite !orb_false_r.
  - apply Forall_forall. intros r Hin. destruct (protected_contains _ (IpAddr_V4 r)) eqn:Hc; [ | done]. rewrite <- Hr. symmetry.
    apply existsb_exists. exists r. split; [by apply list_elem_of_In | done].
Qed.

Lemma custom_resolvers_ok servers profile l : custom_resolvers servers profile = Ok l ->
  servers = IpAddr_V4 <$> l /\ Forall (fun r => protected_contains (profile_protected profile) (IpAddr_V4 r) = false) l.
Proof.
  revert l. induction servers as [ | [a | a] servers IH]; cbn; intros l; [intros [= <-]; split; [done | constructor] | | done].
  destruct (protected_contains _ _) eqn:Hp; [done | ]. intros (rest & Hrest & [= <-])%bind_Ok.
  destruct (IH rest Hrest) as [-> Hall]. split; [done | by constructor].
Qed.

Definition policy_resolvers (policy : NetworkPolicy) (profile : NetworkProfile) : Result (list Ipv4Addr) Error :=
  match policy_dns policy with
  | Dns_Unspecified => Err (Error_InvalidIntent DnsUnspecified)
  | Dns_Denied => Ok []
  | Dns_System => Ok (profile_resolvers profile)
  | Dns_Custom servers => custom_resolvers servers profile
  end.

(** An accepted policy, dimension by dimension. *)
Record accepted (sha256 : bytes -> bytes) (policy : NetworkPolicy) (profile : NetworkProfile) (i : NetworkIntent) : Prop := {
  accepted_profile : policy_profile policy = Selector_Disabled \/ policy_profile policy = Selector_OperatorDefault;
  accepted_proxy : policy_proxy policy = Proxy_Disabled;
  accepted_ipv4 : ipv4_requested_address (addresses_ipv4 (policy_guest_addresses policy)) = None;
  accepted_ipv6 : ipv6_intent_is_enabled (addresses_ipv6 (policy_guest_addresses policy)) = false;
  accepted_egress : match intent_egress i with
                    | Class_Denied => policy_egress policy = Egress_Denied /\ intent_resolvers i = []
                    | Class_PublicInternet => policy_egress policy = Egress_PublicInternet
                    | Class_Unrestricted => policy_egress policy = Egress_Unrestricted
                    end;
  accepted_resolvers : policy_resolvers policy profile = Ok (intent_resolvers i);
  accepted_families : Forall (fun p => exists a, pub_bind p = HostBind_Ipv4 a) (policy_published_ports policy);
  accepted_publications : intent_publications i = policy_published_ports policy;
  accepted_digest : intent_profile i = profile_digest sha256 profile;
  accepted_bounds : (length (intent_publications i) <= MAX_PORT_PUBLICATIONS)%nat /\ (length (intent_resolvers i) <= MAX_DNS_SERVERS)%nat
}.

Lemma no_v6_bind l : existsb (fun p => match bind_address (pub_bind p) with IpAddr_V6 _ => true | _ => false end) l = false <->
  Forall (fun p => exists a, pub_bind p = HostBind_Ipv4 a) l.
Proof.
  induction l as [ | p l IH]; cbn; [split; [constructor | done] | ]. rewrite orb_false_iff, Forall_cons, IH.
  destruct (pub_bind p); cbn; naive_solver.
Qed.

Lemma accepted_iff sha256 policy profile i : admit_policy sha256 policy profile = Ok i <-> accepted sha256 policy profile i.
Proof.
  split.
  - unfold admit_policy.
    destruct (negb (selector_is_disabled _) && _) eqn:Hs; [done | ]. destruct (proxy_is_disabled _) eqn:Hp; cbn [negb]; [ | done].
    case_bool_decide as H4; [done | ]. destruct (ipv6_intent_is_enabled _) eqn:H6; [done | ].
    intros (egress & He & (resolvers & Hr & Hrest)%bind_Ok)%bind_Ok. fold (policy_resolvers policy profile) in Hr.
    destruct (bool_decide (egress = Class_Denied) && _) eqn:Hd; [done | ]. destruct (existsb _ _) eqn:Hv6; [done | ].
    unfold intent_new in Hrest. destruct (_ || _) eqn:Hb; [done | ]. injection Hrest as <-.
    apply orb_false_iff in Hb as [Hb1%Nat.ltb_ge Hb2%Nat.ltb_ge]. split; cbn; try done.
    + destruct (policy_profile policy); auto. done.
    + by destruct (policy_proxy policy).
    + by apply eq_None_not_Some.
    + destruct (policy_egress policy); simplify_eq; try done. split; [done | ]. cbn in Hd.
      by apply negb_false_iff, bool_decide_eq_true in Hd.
    + by apply no_v6_bind.
  - intros [Hprofile Hproxy H4 H6 He Hr Hf Hp Hdig [Hb1 Hb2]]. unfold admit_policy.
    assert (negb (selector_is_disabled (policy_profile policy)) && negb (selector_is_operator_default (policy_profile policy)) = false)
      as -> by by destruct Hprofile as [-> | ->].
    rewrite Hproxy, H4, H6. cbn [proxy_is_disabled negb]. rewrite bool_decide_eq_false_2 by (by intros [? ?]).
    apply bind_Ok. exists (intent_egress i). split.
    { destruct (intent_egress i); [destruct He as [-> _] | rewrite He..]; done. }
    apply bind_Ok. exists (intent_resolvers i). split; [exact Hr | ]. apply no_v6_bind in Hf. rewrite Hf.
    assert (bool_decide (intent_egress i = Class_Denied) && negb (bool_decide (intent_resolvers i = [])) = false) as ->.
    { case_bool_decide as Hc; [ | done]. rewrite Hc in He. destruct He as [_ ->]. done. }
    unfold intent_new. rewrite <- Hp, <- Hdig. rewrite (proj2 (Nat.ltb_ge _ _) Hb1), (proj2 (Nat.ltb_ge _ _) Hb2). by destruct i.
Qed.

(** The broker accepts a policy exactly when every dimension of it is one this profile serves,
    and what it accepts lets the guest resolve names only at addresses nothing protects: no
    resolver of an accepted intent is in the certified default set, in either plan of leases, an
    address of the host or part of the control plane; and a denied egress has no resolver. *)
Theorem admission_grants sha256 uplink leases transit served hosts control profile policy i :
  profile_new uplink leases transit served hosts control = Ok profile ->
  (admit_policy sha256 policy profile = Ok i <-> accepted sha256 policy profile i) /\
  (admit_policy sha256 policy profile = Ok i -> forall r, r ∈ intent_resolvers i ->
     protected_contains CERTIFIED_DEFAULT (IpAddr_V4 r) = false /\ cidr_contains (plan_cidr leases) (IpAddr_V4 r) = false /\
     cidr_contains (plan_cidr transit) (IpAddr_V4 r) = false /\ (is_uint 32 r -> IpAddr_V4 r ∉ hosts) /\
     (forall c, c ∈ control -> cidr_contains c (IpAddr_V4 r) = false) /\ intent_egress i <> Class_Denied).
Proof.
  intros Hnew. destruct (profile_new_protects _ _ _ _ _ _ _ Hnew) as (Hprot & Hserved & Hclear).
  split; [apply accepted_iff | ]. intros Ha%accepted_iff r Hr.
  assert (protected_contains (profile_protected profile) (IpAddr_V4 r) = false) as Hc.
  { pose proof (accepted_resolvers _ _ _ _ Ha) as Hres. unfold policy_resolvers in Hres.
    destruct (policy_dns policy) as [ | | | servers]; [done | injection Hres as Hres; rewrite <- Hres in Hr; by apply elem_of_nil in Hr | | ].
    - injection Hres as Hres. rewrite Hserved in Hres. rewrite <- Hres in Hr. rewrite Forall_forall in Hclear. by apply Hclear.
    - destruct (custom_resolvers_ok _ _ _ Hres) as [_ Hall]. rewrite Forall_forall in Hall. by apply Hall. }
  rewrite Hprot, !orb_false_iff in Hc. destruct Hc as [[[[H1 H2] H3] H4] H5]. repeat split; try done.
  - intros Hu Hin. assert (existsb (fun h => cidr_contains (cidr_host h) (IpAddr_V4 r)) hosts = true) as Hex; [ | congruence].
    apply existsb_exists. exists (IpAddr_V4 r). split; [by apply list_elem_of_In | ].
    unfold cidr_contains, cidr_host. apply Z.eqb_eq. change (mask4 32) with (Z.ones 32). rewrite Z.land_ones by lia. by apply Z.mod_small.
  - intros c Hin. destruct (cidr_contains c (IpAddr_V4 r)) eqn:Hx; [ | done]. rewrite <- H5. symmetry. apply existsb_exists.
    exists c. split; [by apply list_elem_of_In | done].
  - intros Hd. pose proof (accepted_egress _ _ _ _ Ha) as He. rewrite Hd in He. destruct He as [_ He]. rewrite He in Hr. by apply elem_of_nil in Hr.
Qed.

Definition demo_policy : NetworkPolicy :=
  mkNetworkPolicy Selector_OperatorDefault v4_only Proxy_Disabled Egress_PublicInternet (Dns_Custom [IpAddr_V4 (ipv4_new 8 8 8 8)]) [dns_pub; web].

Lemma admission_grants_witness : exists profile i,
  demo_profile = Ok profile /\ admit_policy (fun _ => replicate 32 7) demo_policy profile = Ok i /\
  accepted (fun _ => replicate 32 7) demo_policy profile i /\
  cidr_contains (plan_cidr (demo_plan 200)) (IpAddr_V4 (ipv4_new 8 8 8 8)) = false.
Proof.
  assert (match demo_profile with
          | Ok profile => match admit_policy (fun _ => replicate 32 7) demo_policy profile with
                          | Ok i => intent_resolvers i = [ipv4_new 8 8 8 8]
                          | Err _ => False
                          end
          | Err _ => False
          end) as Hdemo by (vm_compute; reflexivity).
  destruct demo_profile as [profile | e] eqn:Hprofile; [ | done].
  destruct (admit_policy _ demo_policy profile) as [i | e] eqn:Hi; [ | done].
  destruct (admission_grants (fun _ => replicate 32 7) _ _ _ _ _ _ profile demo_policy i Hprofile) as [Hiff Hsafe].
  exists profile, i. split; [done | ]. split; [done | ]. split; [by apply Hiff | ].
  assert (ipv4_new 8 8 8 8 ∈ intent_resolvers i) as Hin by (rewrite Hdemo; left).
  by destruct (Hsafe Hi _ Hin) as (_ & ? & _).
Defined.
