(* ===== verification/IpText.v ===== *)
(** The text of an IP address, as [Display] of the standard library writes it: four decimal
    octets, or hexadecimal groups with the first longest run of zero groups left out.  Two
    addresses never have the same text. *)

From S2P Require Import Prelude Bytes Wire NetdAddr NetPolicy NetIntent NetIntentProps.
From Stdlib Require Import String.
From stdpp Require Import strings.
From stdpp Require Import options.
Local Open Scope string_scope.
Local Open Scope list_scope.
Local Open Scope Z_scope.

(** * Text *)

(** [LowerHex] of a 16-bit group: no leading zeros. *)
Fixpoint hex_go (fuel : nat) (n : Z) (acc : bytes) : bytes :=
  match fuel with
  | O => acc
  | S fuel =>
      let acc := hex_digit (n mod 16) :: acc in
      if n / 16 =? 0 then acc else hex_go fuel (n / 16) acc
  end.

(** Four digits are enough for 16 bits. *)
Definition lower_hex (n : Z) : bytes := hex_go 4 n [].

(** The [n] low 16-bit groups, the most significant first. *)
Fixpoint groups (n : nat) (a : Z) : list Z :=
  match n with O => [] | S n => groups n (a / 2 ^ 16) ++ [a mod 2 ^ 16] end.

Definition segments (a : Ipv6Addr) : list Z := groups 8 a.

Definition octets (a : Ipv4Addr) : bytes := be_bytes 4 a.

Definition ipv4_text (a : Ipv4Addr) : bytes := join_on 46 (dec <$> octets a).

(** The first longest run of zeros: where it starts and how long it is.  [current] is the run
    the scan is in. *)
Record Span : Type := mkSpan { span_start : nat; span_len : nat }.

Fixpoint zeroes_span (i : nat) (longest current : Span) (l : list Z) : Span :=
  match l with
  | [] => longest
  | segment :: l =>
      if segment =? 0 then
        let current := mkSpan (if (span_len current =? 0)%nat then i else span_start current) (S (span_len current)) in
        let longest := if (span_len longest <? span_len current)%nat then current else longest in
        zeroes_span (S i) longest current l
      else zeroes_span (S i) longest (mkSpan 0 0) l
  end.

Definition inner_zeroes (l : list Z) : Span := zeroes_span 0 (mkSpan 0 0) (mkSpan 0 0) l.

Definition fmt_subslice (chunk : list Z) : bytes := join_on 58 (lower_hex <$> chunk).

Definition ipv6_text (a : Ipv6Addr) : bytes :=
  match to_ipv4_mapped a with
  | Some ipv4 => str "::ffff:" ++ ipv4_text ipv4
  | None =>
      let zeroes := inner_zeroes (segments a) in
      if (1 <? span_len zeroes)%nat
      then fmt_subslice (take (span_start zeroes) (segments a)) ++ str "::" ++
           fmt_subslice (drop (span_start zeroes + span_len zeroes) (segments a))
      else fmt_subslice (segments a)
  end.

Definition ip_text (a : IpAddr) : bytes := match a with IpAddr_V4 a => ipv4_text a | IpAddr_V6 a => ipv6_text a end.

Example text_loopback : ipv6_text 1 = str "::1". Proof. reflexivity. Qed.
Example text_any : ipv6_text 0 = str "::". Proof. reflexivity. Qed.
Example text_doc : ipv6_text (0x20010db8 * 2 ^ 96 + 5 * 2 ^ 64) = str "2001:db8:0:5::". Proof. reflexivity. Qed.
Example text_mapped : ipv6_text (to_ipv6_mapped (ipv4_new 192 0 2 128)) = str "::ffff:192.0.2.128". Proof. reflexivity. Qed.

(** * Numbers *)

Fixpoint hex_val (acc : Z) (l : bytes) : option Z :=
  match l with
  | [] => Some acc
  | b :: l => match to_digit 16 b with Some d => hex_val (acc * 16 + d) l | None => None end
  end.

Lemma hex_val_go fuel n acc : 0 <= n < 16 ^ Z.of_nat fuel -> hex_val 0 (hex_go fuel n acc) = hex_val n acc.
Proof.
  revert n acc. induction fuel as [ | fuel IH]; intros n acc Hn; cbn [hex_go].
  - change (16 ^ Z.of_nat 0) with 1 in Hn. by replace n with 0 by lia.
  - pose proof (Z.mod_pos_bound n 16 ltac:(lia)). pose proof (Z.div_mod n 16 ltac:(lia)) as Hdm.
    assert (forall m, hex_val m (hex_digit (n mod 16) :: acc) = hex_val (m * 16 + n mod 16) acc) as Hstep.
    { intros m. cbn [hex_val]. by rewrite to_digit_hex_digit by lia. }
    destruct (Z.eqb_spec (n / 16) 0) as [Hz | Hz].
    + rewrite Hstep. f_equal. lia.
    + rewrite IH, Hstep; [f_equal; lia | ].
      rewrite Nat2Z.inj_succ, Z.pow_succ_r in Hn by lia. split; [apply Z.div_pos; lia | apply Z.div_lt_upper_bound; lia].
Qed.

Lemma lower_hex_inj m n : is_uint 16 m -> is_uint 16 n -> lower_hex m = lower_hex n -> m = n.
Proof.
  unfold lower_hex, is_uint. intros Hm Hn Heq.
  pose proof (hex_val_go 4 m [] ltac:(change (16 ^ Z.of_nat 4) with (2 ^ 16); lia)) as Em.
  pose proof (hex_val_go 4 n [] ltac:(change (16 ^ Z.of_nat 4) with (2 ^ 16); lia)) as En. rewrite Heq, En in Em. by injection Em.
Qed.

(** Bytes of a token: neither a colon nor a dot, and at least one. *)
Definition token (t : bytes) : Prop := t <> [] /\ 58 ∉ t /\ 46 ∉ t.

Lemma hex_go_token fuel n acc : 0 <= n -> (acc = [] -> fuel <> O) -> 58 ∉ acc -> 46 ∉ acc -> token (hex_go fuel n acc).
Proof.
  revert n acc. induction fuel as [ | fuel IH]; intros n acc Hn Hne H58 H46; cbn [hex_go].
  - split; [ | done]. intros ->. by apply Hne.
  - pose proof (Z.mod_pos_bound n 16 ltac:(lia)).
    assert (forall c, c ∉ acc -> c < 48 \/ 57 < c < 97 -> c ∉ hex_digit (n mod 16) :: acc) as Hc.
    { intros c Hacc Hr. apply not_elem_of_cons. split; [ | done]. unfold hex_digit. case_match; lia. }
    assert (58 ∉ hex_digit (n mod 16) :: acc) by (apply Hc; [done | lia]).
    assert (46 ∉ hex_digit (n mod 16) :: acc) by (apply Hc; [done | lia]).
    case_match; [done | ]. apply IH; try done. apply Z.div_pos; lia.
Qed.

Lemma lower_hex_token n : 0 <= n -> token (lower_hex n).
Proof. intros. apply hex_go_token; [done | done | by apply not_elem_of_nil..]. Qed.

Lemma dec_u8_token n : is_u8 n -> token (dec n).
Proof.
  intros Hn. unfold dec, dec_nat. unfold is_uint in Hn. replace (n <? 0) with false by lia.
  destruct (dec_go_cons 19 n []) as (b & l & Hbl). pose proof (dec_go_decimal 20 n [] ltac:(lia) ltac:(constructor)) as Hd.
  unfold DECIMAL_FUEL. rewrite Forall_forall in Hd. split; [rewrite Hbl; discriminate | ].
  split; intros Hin%Hd; unfold is_decimal in Hin; lia.
Qed.

Lemma dec_inj m n : is_u8 m -> is_u8 n -> dec m = dec n -> m = n.
Proof.
  unfold is_uint. intros Hm Hn Heq. change (2 ^ 8) with 256 in *.
  pose proof (parse_int_dec 0 255 m ltac:(lia) ltac:(lia) ltac:(lia)) as Em. pose proof (parse_int_dec 0 255 n ltac:(lia) ltac:(lia) ltac:(lia)) as En.
  rewrite Heq, En in Em. symmetry. by injection Em.
Qed.

Lemma map_inj {A B} (P : A -> Prop) (f : A -> B) l l' : (forall x y, P x -> P y -> f x = f y -> x = y) -> Forall P l -> Forall P l' ->
  f <$> l = f <$> l' -> l = l'.
Proof.
  intros Hf Hl. revert l'. induction Hl as [ | x l Hx Hl IH]; intros [ | y l'] Hl'; [done.. | ].
  apply Forall_cons in Hl' as [Hy Hl']. cbn. intros [= Hxy Heq]. f_equal; [by apply Hf | by apply IH].
Qed.

Lemma length_groups n a : length (groups n a) = n.
Proof. revert a. induction n as [ | n IH]; intros a; cbn [groups]; [done | ]. rewrite length_app, IH. cbn. lia. Qed.

Lemma groups_range n a : Forall (is_uint 16) (groups n a).
Proof.
  revert a. induction n as [ | n IH]; intros a; cbn [groups]; [constructor | ]. apply Forall_app. split; [apply IH | ].
  constructor; [ | done]. apply Z.mod_pos_bound. lia.
Qed.

Lemma groups_inj n a b : is_uint (16 * Z.of_nat n) a -> is_uint (16 * Z.of_nat n) b -> groups n a = groups n b -> a = b.
Proof.
  revert a b. induction n as [ | n IH]; intros a b Ha Hb; cbn [groups]; unfold is_uint in *.
  - change (2 ^ (16 * Z.of_nat 0)) with 1 in *. lia.
  - intros [Hd Hm]%app_inj_2; [ | done]. injection Hm as Hm.
    assert (2 ^ (16 * Z.of_nat (S n)) = 2 ^ 16 * 2 ^ (16 * Z.of_nat n)) as Hp by (rewrite <- Z.pow_add_r by lia; f_equal; lia).
    rewrite Hp in *. assert (forall x, 0 <= x < 2 ^ 16 * 2 ^ (16 * Z.of_nat n) -> 0 <= x / 2 ^ 16 < 2 ^ (16 * Z.of_nat n)) as Hdiv.
    { intros x Hx. split; [apply Z.div_pos; lia | apply Z.div_lt_upper_bound; lia]. }
    specialize (IH _ _ (Hdiv a Ha) (Hdiv b Hb) Hd).
    rewrite (Z.div_mod a (2 ^ 16)), (Z.div_mod b (2 ^ 16)) by lia. by rewrite IH, Hm.
Qed.

(** * Texts *)

Lemma octets_bytes a : Forall is_u8 (octets a).
Proof. apply be_bytes_all. Qed.

Lemma dec_tokens l : Forall is_u8 l -> Forall token (dec <$> l).
Proof. intros Hl. apply Forall_fmap. eapply Forall_impl; [exact Hl | ]. intros x Hx. by apply dec_u8_token. Qed.

Lemma hex_tokens l : Forall (is_uint 16) l -> Forall token (lower_hex <$> l).
Proof. intros Hl. apply Forall_fmap. eapply Forall_impl; [exact Hl | ]. intros x Hx. apply lower_hex_token. unfold is_uint in Hx. lia. Qed.

Lemma token_sep sep l : sep = 58 \/ sep = 46 -> Forall token l -> Forall (fun t => sep ∉ t) l.
Proof. intros Hs Hl. eapply Forall_impl; [exact Hl | ]. intros t (_ & ? & ?). by destruct Hs as [-> | ->]. Qed.

Lemma ipv4_text_inj a b : is_uint 32 a -> is_uint 32 b -> ipv4_text a = ipv4_text b -> a = b.
Proof.
  intros Ha Hb Heq. apply (f_equal (split_char 46)) in Heq. unfold ipv4_text in Heq.
  assert (forall x, split_char 46 (join_on 46 (dec <$> octets x)) = dec <$> octets x) as Hs.
  { intros x. apply split_char_join; [ | apply token_sep; [auto | apply dec_tokens, octets_bytes]].
    intros Hn%(f_equal length). rewrite length_fmap in Hn. unfold octets in Hn. by rewrite length_be_bytes in Hn. }
  rewrite !Hs in Heq. apply (map_inj is_u8) in Heq; [ | apply dec_inj | apply octets_bytes..].
  unfold octets in Heq. apply (f_equal be_val) in Heq. by rewrite !be_val_bytes in Heq.
Qed.

(** A dotted text: one token as far as colons go, with a dot in it. *)
Lemma ipv4_text_shape a : ipv4_text a <> [] /\ 58 ∉ ipv4_text a /\ 46 ∈ ipv4_text a.
Proof.
  unfold ipv4_text. pose proof (octets_bytes a) as Ho. pose proof (length_be_bytes 4 a) as Hl. fold (octets a) in Hl.
  destruct (octets a) as [ | b0 [ | b1 [ | b2 [ | b3 [ | ]]]]]; try done.
  rewrite !Forall_cons in Ho. destruct Ho as (H0 & H1 & H2 & H3 & _).
  destruct (dec_u8_token _ H0) as (N0 & C0 & _), (dec_u8_token _ H1) as (_ & C1 & _), (dec_u8_token _ H2) as (_ & C2 & _), (dec_u8_token _ H3) as (_ & C3 & _).
  cbn [fmap list_fmap join_on]. split; [by destruct (dec b0) | ]. split.
  - rewrite !not_elem_of_app, !not_elem_of_cons, !not_elem_of_app, !not_elem_of_cons, not_elem_of_app, !not_elem_of_cons. naive_solver lia.
  - apply elem_of_app. right. left.
Qed.

Lemma split_char_app sep x y : split_char sep (x ++ sep :: y) = split_char sep x ++ split_char sep y.
Proof.
  unfold split_char. generalize (@nil Z) at 1 2 as tok. induction x as [ | b x IH]; intros tok; cbn [split_on app].
  - by rewrite Z.eqb_refl.
  - destruct (b =? sep); cbn [app]; by rewrite IH.
Qed.

Lemma split_char_cons sep y : split_char sep (sep :: y) = [] :: split_char sep y.
Proof. apply (split_char_app sep []). Qed.

(** The pieces of a run of groups: one empty piece when there is none. *)
Definition pieces (chunk : list Z) : list bytes := match chunk with [] => [[]] | _ => lower_hex <$> chunk end.

Lemma split_subslice chunk : Forall (is_uint 16) chunk -> split_char 58 (fmt_subslice chunk) = pieces chunk.
Proof.
  intros Hc. unfold fmt_subslice, pieces. destruct chunk as [ | g chunk]; [done | ]. apply split_char_join; [done | ].
  apply token_sep; [auto | by apply hex_tokens].
Qed.

Lemma pieces_cases chunk : Forall (is_uint 16) chunk -> (chunk = [] /\ pieces chunk = [[]]) \/
  (chunk <> [] /\ pieces chunk = lower_hex <$> chunk /\ Forall token (pieces chunk)).
Proof.
  intros Hc. destruct chunk as [ | g chunk]; [by left | right]. split; [done | ]. split; [done | ]. by apply hex_tokens.
Qed.

Lemma hex_list_inj l l' : Forall (is_uint 16) l -> Forall (is_uint 16) l' -> lower_hex <$> l = lower_hex <$> l' -> l = l'.
Proof. apply map_inj, lower_hex_inj. Qed.

Lemma pieces_inj l l' : Forall (is_uint 16) l -> Forall (is_uint 16) l' -> pieces l = pieces l' -> l = l'.
Proof.
  intros Hl Hl' Heq. destruct (pieces_cases l Hl) as [[-> E] | (N & E & T)], (pieces_cases l' Hl') as [[-> E'] | (N' & E' & T')].
  - done.
  - rewrite E in Heq. rewrite <- Heq in T'. apply Forall_cons in T' as [[[] _] _]. done.
  - rewrite E' in Heq. rewrite Heq in T. apply Forall_cons in T as [[[] _] _]. done.
  - rewrite E, E' in Heq. by apply hex_list_inj.
Qed.

Lemma first_empty (x y : bytes) l l' m m' : x <> [] -> y <> [] -> Forall (fun t => t <> []) l -> Forall (fun t => t <> []) l' ->
  (x :: l) ++ [] :: m = (y :: l') ++ [] :: m' -> x :: l = y :: l' /\ m = m'.
Proof.
  intros Hx Hy Hl. revert x y l' Hx Hy. induction Hl as [ | t l Ht Hl IH]; intros x y l' Hx Hy Hl' [= <- Heq].
  - destruct Hl' as [ | t' l' Ht' Hl']; [by injection Heq as <- | ]. by injection Heq as <-.
  - destruct Hl' as [ | t' l' Ht' Hl']; [by injection Heq as -> | ]. destruct (IH t t' l' Ht Ht' Hl' Heq) as [-> ->]. done.
Qed.

(** The gap of a compressed text is at its first empty piece. *)
Lemma gap_unique l r l' r' : Forall (is_uint 16) l -> Forall (is_uint 16) r -> Forall (is_uint 16) l' -> Forall (is_uint 16) r' ->
  pieces l ++ [] :: pieces r = pieces l' ++ [] :: pieces r' -> l = l' /\ r = r'.
Proof.
  intros Hl Hr Hl' Hr' Heq.
  assert (forall c, Forall token c -> Forall (fun t : bytes => t <> []) c) as Hne by (intros c Hc; eapply Forall_impl; [exact Hc | by intros t [? _]]).
  destruct (pieces_cases l Hl) as [[-> E] | (N & E & T)], (pieces_cases l' Hl') as [[-> E'] | (N' & E' & T')].
  - rewrite E in Heq. injection Heq as Heq. split; [done | by apply pieces_inj].
  - exfalso. rewrite E in Heq. destruct (pieces l') as [ | t ts]; [by destruct l' | ]. injection Heq as <- _. apply Forall_cons in T' as [[[] _] _]. done.
  - exfalso. rewrite E' in Heq. destruct (pieces l) as [ | t ts]; [by destruct l | ]. injection Heq as -> _. apply Forall_cons in T as [[[] _] _]. done.
  - apply Hne in T, T'. destruct (pieces l) as [ | x xs] eqn:Ex; [by destruct l | ]. destruct (pieces l') as [ | y ys] eqn:Ey; [by destruct l' | ].
    apply Forall_cons in T as [Hx Hxs]. apply Forall_cons in T' as [Hy Hys].
    destruct (first_empty x y xs ys _ _ Hx Hy Hxs Hys Heq) as [Hlr Hrr]. split; [ | by apply pieces_inj].
    apply pieces_inj; [done | done | congruence].
Qed.

(** A span of [l] that is all zeros. *)
Definition zero_span (l : list Z) (s : Span) : Prop :=
  (span_start s + span_len s <= length l)%nat /\
  l = take (span_start s) l ++ replicate (span_len s) 0 ++ drop (span_start s + span_len s) l.

Lemma zero_span_nil l : zero_span l (mkSpan 0 0).
Proof. split; cbn; [lia | by rewrite drop_0]. Qed.

Lemma zero_span_app l m s : zero_span l s -> zero_span (l ++ m) s.
Proof.
  intros [Hle Heq]. split; [rewrite length_app; lia | ]. rewrite take_app_le, drop_app_le by lia.
  rewrite (assoc_L (++)), (assoc_L (++)), <- (assoc_L (++) (take _ _)). by rewrite <- Heq.
Qed.

Lemma zero_span_snoc l s : zero_span l s -> (span_start s + span_len s = length l)%nat -> zero_span (l ++ [0]) (mkSpan (span_start s) (S (span_len s))).
Proof.
  intros [Hle Heq] Hend. unfold zero_span. cbn [span_start span_len]. split; [rewrite length_app; cbn; lia | ].
  rewrite take_app_le by lia. rewrite (drop_ge (l ++ [0])) by (rewrite length_app; cbn; lia). rewrite app_nil_r.
  rewrite drop_ge, app_nil_r in Heq by lia. rewrite Heq at 1. rewrite <- app_assoc. f_equal.
  change [0] with (replicate 1 0). rewrite <- replicate_add. f_equal. lia.
Qed.

Lemma zeroes_span_ok pre l longest current : zero_span pre longest -> zero_span pre current ->
  (span_len current = 0 \/ span_start current + span_len current = length pre)%nat ->
  zero_span (pre ++ l) (zeroes_span (length pre) longest current l).
Proof.
  revert pre longest current. induction l as [ | g l IH]; intros pre longest current Hl Hc Hend; cbn [zeroes_span]; [by rewrite app_nil_r | ].
  replace (pre ++ g :: l) with ((pre ++ [g]) ++ l) by by rewrite <- app_assoc.
  replace (S (length pre)) with (length (pre ++ [g])) by (rewrite length_app; cbn; lia).
  destruct (Z.eqb_spec g 0) as [-> | ].
  - set (current' := mkSpan _ _). assert (zero_span (pre ++ [0]) current') as Hc'.
    { subst current'. destruct (Nat.eqb_spec (span_len current) 0) as [Hz | ].
      - rewrite Hz. apply (zero_span_snoc pre (mkSpan (length pre) 0)); [ | cbn; lia]. split; cbn; [lia | ].
        rewrite firstn_all, drop_ge by lia. by rewrite app_nil_r.
      - apply zero_span_snoc; [done | lia]. }
    apply IH.
    + case_match; [done | by apply zero_span_app].
    + done.
    + right. subst current'. cbn. rewrite length_app. cbn. case_match eqn:Hz; [apply Nat.eqb_eq in Hz | apply Nat.eqb_neq in Hz]; lia.
  - apply IH; [by apply zero_span_app | apply zero_span_nil | by left].
Qed.

Lemma inner_zeroes_ok l : zero_span l (inner_zeroes l).
Proof. apply (zeroes_span_ok [] l); [apply zero_span_nil.. | by left]. Qed.

(** The pieces of the text of an address, between its colons. *)
Inductive pieces_of (a : Ipv6Addr) : list bytes -> Prop :=
| pieces_mapped v4 : to_ipv4_mapped a = Some v4 -> pieces_of a [[]; []; str "ffff"; ipv4_text v4]
| pieces_gap l n r : Forall (is_uint 16) l -> Forall (is_uint 16) r -> segments a = l ++ replicate n 0 ++ r ->
    pieces_of a (pieces l ++ [] :: pieces r)
| pieces_full : pieces_of a (lower_hex <$> segments a).

Lemma ipv6_text_pieces a : pieces_of a (split_char 58 (ipv6_text a)).
Proof.
  unfold ipv6_text. pose proof (groups_range 8 a : Forall (is_uint 16) (segments a)) as Hs. destruct (to_ipv4_mapped a) as [v4 | ] eqn:Hm.
  - change (str "::ffff:" ++ ipv4_text v4) with (58 :: 58 :: str "ffff" ++ 58 :: ipv4_text v4).
    rewrite !split_char_cons, split_char_app. assert (split_char 58 (ipv4_text v4) = [ipv4_text v4]) as ->.
    { apply (split_char_join 58 [ipv4_text v4]); [done | ]. constructor; [apply ipv4_text_shape | done]. }
    by apply pieces_mapped.
  - destruct (inner_zeroes_ok (segments a)) as [_ Heq]. destruct (inner_zeroes (segments a)) as [start len]. cbn [span_start span_len] in *.
    destruct (1 <? len)%nat.
    + change (str "::" ++ fmt_subslice (drop (start + len) (segments a))) with (58 :: 58 :: fmt_subslice (drop (start + len) (segments a))).
      rewrite split_char_app, split_char_cons.
      rewrite !split_subslice by (by apply Forall_take || by apply Forall_drop).
      apply (pieces_gap a _ len); [by apply Forall_take | by apply Forall_drop | exact Heq].
    + unfold fmt_subslice. rewrite split_char_join; [apply pieces_full | | apply token_sep; [auto | by apply hex_tokens]].
      intros Hn%(f_equal length). rewrite length_fmap in Hn. unfold segments in Hn. by rewrite length_groups in Hn.
Qed.

(** Whether a dot is in some piece. *)
Lemma pieces_dot a ps : pieces_of a ps -> Exists (fun t => 46 ∈ t) ps -> exists v4, to_ipv4_mapped a = Some v4 /\ ps = [[]; []; str "ffff"; ipv4_text v4].
Proof.
  assert (forall c, Forall token c -> ~ Exists (fun t : bytes => 46 ∈ t) c) as Htok.
  { intros c Hc (t & Hin & Hd)%Exists_exists. rewrite Forall_forall in Hc. by destruct (Hc t Hin) as (_ & _ & ?). }
  assert (forall c, Forall (is_uint 16) c -> ~ Exists (fun t : bytes => 46 ∈ t) (pieces c)) as Hpc.
  { intros c Hc. destruct (pieces_cases c Hc) as [[-> ->] | (_ & _ & ?)]; [ | by apply Htok]. by intros [?%elem_of_nil | ?%Exists_nil]%Exists_cons. }
  destruct 1 as [v4 Hv4 | l n r Hl Hr Hs | ].
  - eauto.
  - intros [He | [He%elem_of_nil | He]%Exists_cons]%Exists_app; [by apply Hpc in He | done | by apply Hpc in He].
  - intros He. apply Htok in He; [done | ]. apply hex_tokens, groups_range.
Qed.

Lemma mapped_dot v4 : Exists (fun t => 46 ∈ t) [[]; []; str "ffff"; ipv4_text v4].
Proof. do 3 right. left. apply ipv4_text_shape. Qed.

Lemma pieces_no_dot a ps : pieces_of a ps -> ~ Exists (fun t => 46 ∈ t) ps ->
  (exists l n r, Forall (is_uint 16) l /\ Forall (is_uint 16) r /\ segments a = l ++ replicate n 0 ++ r /\ ps = pieces l ++ [] :: pieces r) \/
  ps = lower_hex <$> segments a.
Proof. destruct 1 as [v4 Hv4 | l n r Hl Hr Hs | ]; intros Hd; [by destruct Hd; apply mapped_dot | left; eauto 10 | by right]. Qed.

Lemma ipv6_text_inj a b : is_uint 128 a -> is_uint 128 b -> ipv6_text a = ipv6_text b -> a = b.
Proof.
  intros Ha Hb Heq. pose proof (ipv6_text_pieces a) as Pa. pose proof (ipv6_text_pieces b) as Pb. rewrite Heq in Pa.
  revert Pa Pb. generalize (split_char 58 (ipv6_text b)). intros ps Pa Pb.
  assert (segments a = segments b -> a = b) as Hseg by by apply (groups_inj 8).
  assert (forall l r (c : list Z), Forall (is_uint 16) c -> pieces l ++ [] :: pieces r = lower_hex <$> c -> False) as Hfull.
  { intros l r c Hc He. pose proof (hex_tokens c Hc) as Ht. rewrite <- He in Ht. apply Forall_app in Ht as [_ [[[] _] _]%Forall_cons]. done. }
  destruct (decide (Exists (fun t => 46 ∈ t) ps)) as [Hd | Hd].
  - destruct (pieces_dot a ps Pa Hd) as (va & Hva & ->). destruct (pieces_dot b _ Pb Hd) as (vb & Hvb & [= Htext]).
    apply (to_ipv4_mapped_iff _ _ Ha) in Hva as [Hva ->]. apply (to_ipv4_mapped_iff _ _ Hb) in Hvb as [Hvb ->].
    by rewrite (ipv4_text_inj va vb).
  - destruct (pieces_no_dot a ps Pa Hd) as [(l & n & r & Hl & Hr & Hs & Ea) | Ea], (pieces_no_dot b ps Pb Hd) as [(l' & n' & r' & Hl' & Hr' & Hs' & Eb) | Eb];
      rewrite Ea in Eb.
    + destruct (gap_unique l r l' r') as [-> ->]; try done. apply Hseg. rewrite Hs, Hs'. do 3 f_equal.
      apply (f_equal length) in Hs, Hs'. unfold segments in Hs, Hs'. rewrite length_groups, !length_app, length_replicate in Hs, Hs'. lia.
    + destruct (Hfull l r (segments b)); [apply groups_range | done].
    + destruct (Hfull l' r' (segments a)); [apply groups_range | done].
    + apply Hseg, hex_list_inj; [apply groups_range.. | done].
Qed.

Lemma ipv6_text_colon a : 58 ∈ ipv6_text a.
Proof.
  destruct (decide (58 ∈ ipv6_text a)) as [ | Hno]; [done | exfalso].
  pose proof (ipv6_text_pieces a) as Hp. rewrite <- (app_nil_r (ipv6_text a)) in Hp at 1. unfold split_char in Hp. rewrite split_on_skip in Hp by done.
  cbn [split_on app] in Hp. remember [ipv6_text a] as ps eqn:Heq. destruct Hp as [v4 Hv4 | l n r Hl Hr Hs | ]; [done | | ]; apply (f_equal length) in Heq.
  - rewrite length_app in Heq. cbn [length] in Heq. destruct l, r; cbn [pieces length fmap list_fmap] in Heq; lia.
  - rewrite length_fmap in Heq. unfold segments in Heq. by rewrite length_groups in Heq.
Qed.

(** An address fits its family. *)
Definition ip_ok (a : IpAddr) : Prop := match a with IpAddr_V4 a => is_uint 32 a | IpAddr_V6 a => is_uint 128 a end.

Lemma ip_text_inj a b : ip_ok a -> ip_ok b -> ip_text a = ip_text b -> a = b.
Proof.
  destruct a as [a | a], b as [b | b]; cbn [ip_text ip_ok]; intros Ha Hb Heq.
  - f_equal. by apply ipv4_text_inj.
  - destruct (ipv4_text_shape a) as (_ & Hno & _). rewrite Heq in Hno. by destruct Hno; apply ipv6_text_colon.
  - destruct (ipv4_text_shape b) as (_ & Hno & _). rewrite <- Heq in Hno. by destruct Hno; apply ipv6_text_colon.
  - f_equal. by apply ipv6_text_inj.
Qed.
