(* ===== verification/Portable.v ===== *)
(** The portable request ([soma] identity.rs, machine_name.rs, request/, evidence/workload.rs):
    identities, images, platforms, shapes, commands and limits, with the constructors that
    validate them. *)

From S2P Require Import Prelude Bytes Wire NetdAddr NetPolicy.
From Stdlib Require Import String.
From stdpp Require Import strings.
From stdpp Require Import options.
Local Open Scope string_scope.
Local Open Scope list_scope.
Local Open Scope Z_scope.

(** A [String] is its bytes. *)
Notation OperationId := bytes (only parsing).
Notation InstanceId := bytes (only parsing).
Notation GenerationId := bytes (only parsing).
Notation RequestFingerprint := bytes (only parsing).
Notation MachineName := bytes (only parsing).
Notation OciImage := bytes (only parsing).
Notation OciDigest := bytes (only parsing).

(** [str::contains] of a text. *)
Fixpoint contains_text (needle l : bytes) : bool :=
  bool_decide (take (length needle) l = needle) || match l with [] => false | _ :: l => contains_text needle l end.

(** [str::contains(char::is_whitespace)] *)
Fixpoint contains_whitespace (l : bytes) : bool :=
  match l with [] => false | _ :: rest => bool_decide (is_Some (whitespace_at l)) || contains_whitespace rest end.

Definition starts_with (b : Z) (l : bytes) : bool := bool_decide (head l = Some b).

(** * Identities *)

Definition validate_fixed_hex (value : bytes) (expected_length : nat) (reject_zero : bool) : Result unit ValidationError :=
  if negb (length value =? expected_length)%nat || negb (forallb is_lower_hex value) ||
     (reject_zero && forallb (fun b => b =? 48) value)
  then Err InvalidIdentity else Ok tt.

(** [OperationId::new] and [InstanceId::new], one macro. *)
Definition runtime_id_new (value : bytes) : Result bytes ValidationError :=
  let? _ := validate_fixed_hex value 32 true in Ok value.

Definition generation_id_new (value : bytes) : Result GenerationId ValidationError :=
  match text_strip_prefix (str "sha256:") value with
  | None => Err InvalidIdentity
  | Some hex => let? _ := validate_fixed_hex hex 64 true in Ok value
  end.

Definition fingerprint_from_digest (digest : bytes) : RequestFingerprint := str "sha256:" ++ hex digest.

Definition fingerprint_new (value : bytes) : Result RequestFingerprint ValidationError :=
  match text_strip_prefix (str "sha256:") value with
  | None => Err InvalidIdentity
  | Some hex => let? _ := validate_fixed_hex hex 64 false in Ok value
  end.

Definition machine_name_parse (value : bytes) : Result MachineName ValidationError :=
  let valid_character b := is_ascii_lowercase b || is_ascii_digit b || (b =? 45) in
  if (length value <? 1)%nat || (63 <? length value)%nat || negb (forallb valid_character value) ||
     negb (is_some_and is_ascii_alphanumeric (head value)) || negb (is_some_and is_ascii_alphanumeric (last value))
  then Err InvalidMachineName else Ok value.

(** * Images *)

Definition image_parse (value : bytes) : Result OciImage ValidationError :=
  let valid := negb (bool_decide (value = [])) && (length value <=? 1024)%nat && negb (contains_text (str "://") value) &&
               negb (contains_whitespace value) && negb (existsb (fun b => (b =? 0) || (b =? 92)) value) &&
               negb (starts_with 45 value) in
  if negb valid then Err InvalidImageReference else Ok value.

Definition to_ascii_lowercase (b : Z) : Z := if (65 <=? b) && (b <=? 90) then b + 32 else b.

Definition digest_parse (value : bytes) : Result OciDigest ValidationError :=
  match text_strip_prefix (str "sha256:") value with
  | None => Err InvalidDigest
  | Some hex =>
      if negb (length hex =? 64)%nat || negb (forallb is_lower_hex hex) then Err InvalidDigest
      else Ok (str "sha256:" ++ (to_ascii_lowercase <$> hex))
  end.

Record OciPlatform : Type := mkOciPlatform {
  platform_operating_system : bytes;
  platform_architecture : bytes;
  platform_variant : option bytes
}.

Definition valid_platform_part (value : bytes) : bool :=
  negb (bool_decide (value = [])) && (length value <=? 64)%nat &&
  forallb (fun b => is_ascii_lowercase b || is_ascii_digit b || (b =? 95) || (b =? 45) || (b =? 46)) value.

Definition platform_new (operating_system architecture : bytes) (variant : option bytes) : Result OciPlatform ValidationError :=
  if negb (valid_platform_part operating_system) || negb (valid_platform_part architecture) ||
     is_some_and (fun value => negb (valid_platform_part value)) variant
  then Err InvalidPlatform else Ok (mkOciPlatform operating_system architecture variant).

Definition linux_arm64 : OciPlatform := mkOciPlatform (str "linux") (str "arm64") None.
Definition linux_amd64 : OciPlatform := mkOciPlatform (str "linux") (str "amd64") None.

Record WorkloadIdentity : Type := mkWorkloadIdentity {
  workload_index_digest : option OciDigest;
  workload_manifest_digest : OciDigest;
  workload_platform : OciPlatform;
  workload_generation_id : option GenerationId
}.

Definition workload_new (manifest_digest : OciDigest) (platform : OciPlatform) (generation_id : option GenerationId) : WorkloadIdentity :=
  mkWorkloadIdentity None manifest_digest platform generation_id.

Definition with_index_digest (w : WorkloadIdentity) (index_digest : OciDigest) : WorkloadIdentity :=
  mkWorkloadIdentity (Some index_digest) (workload_manifest_digest w) (workload_platform w) (workload_generation_id w).

(** * Shapes *)

Notation Capabilities := NetworkPolicy (only parsing).

Record MachineShape : Type := mkMachineShape {
  shape_vcpu_count : Z;
  shape_memory_mib : Z;
  shape_storage_mib : Z;
  shape_capabilities : Capabilities
}.

Definition capabilities_isolated : Capabilities := policy_isolated.
Definition capabilities_unspecified : Capabilities := policy_runtime_default.

(** The policies the two builders expect to be valid; [None] where they would panic. *)
Definition with_network_access : option Capabilities :=
  match policy_new Egress_PublicInternet Dns_System [] with Ok p => Some p | Err _ => None end.
Definition with_unrestricted_network : option Capabilities :=
  match policy_new Egress_Unrestricted Dns_System [] with Ok p => Some p | Err _ => None end.

Definition shape_new (vcpu_count memory_mib storage_mib : Z) : Result MachineShape ValidationError :=
  if negb ((1 <=? vcpu_count) && (vcpu_count <=? U16_MAX)) || negb ((1 <=? memory_mib) && (memory_mib <=? U64_MAX)) ||
     negb ((0 <=? storage_mib) && (storage_mib <=? U64_MAX))
  then Err InvalidShape else Ok (mkMachineShape vcpu_count memory_mib storage_mib capabilities_isolated).

Definition with_capabilities (s : MachineShape) (c : Capabilities) : MachineShape :=
  mkMachineShape (shape_vcpu_count s) (shape_memory_mib s) (shape_storage_mib s) c.

(** * Commands *)

Record DirectCommand : Type := mkDirectCommand {
  command_executable : bytes;
  command_arguments : list bytes
}.

Definition MAX_EXECUTABLE_BYTES : nat := 4096.
Definition MAX_ARGUMENTS : nat := 4096.
Definition MAX_ARGUMENT_BYTES : Z := 128 * 1024.
Definition MAX_AGGREGATE_BYTES : Z := 1024 * 1024.

(** [try_fold(0, checked_add)] *)
Fixpoint checked_sum (acc : Z) (l : list Z) : option Z :=
  match l with
  | [] => Some acc
  | n :: l => if acc + n >? U64_MAX then None else checked_sum (acc + n) l
  end.

(** The executable's own length is added unchecked: both texts are in memory. *)
Definition command_new (executable : bytes) (arguments : list bytes) : Result DirectCommand ValidationError :=
  match checked_sum 0 ((fun a => Z.of_nat (length a)) <$> arguments) with
  | None => Err InvalidCommand
  | Some sum =>
      let total_bytes := Z.of_nat (length executable) + sum in
      if negb (starts_with 47 executable) || existsb (fun b => b =? 0) executable ||
         (MAX_EXECUTABLE_BYTES <? length executable)%nat || (MAX_ARGUMENTS <? length arguments)%nat ||
         existsb (fun value => (Z.of_nat (length value) >? MAX_ARGUMENT_BYTES) || existsb (fun b => b =? 0) value) arguments ||
         (total_bytes >? MAX_AGGREGATE_BYTES)
      then Err InvalidCommand else Ok (mkDirectCommand executable arguments)
  end.

Record ExecutionLimits : Type := mkExecutionLimits {
  limits_timeout_ms : Z;
  limits_max_output_bytes : Z
}.

Definition MAX_TIMEOUT_MS : Z := 24 * 60 * 60 * 1000.
Definition MAX_OUTPUT_BYTES : Z := 16 * 1024 * 1024.

Definition limits_new (timeout_ms max_output_bytes : Z) : Result ExecutionLimits ValidationError :=
  if negb ((1 <=? timeout_ms) && (timeout_ms <=? MAX_TIMEOUT_MS)) ||
     negb ((1 <=? max_output_bytes) && (max_output_bytes <=? MAX_OUTPUT_BYTES))
  then Err InvalidLimits else Ok (mkExecutionLimits timeout_ms max_output_bytes).

Record RunRequest : Type := mkRunRequest {
  run_operation_id : OperationId;
  run_instance_id : InstanceId;
  run_image : OciImage;
  run_shape : MachineShape;
  run_command : DirectCommand;
  run_limits : ExecutionLimits;
  run_machine_name : option MachineName
}.

Definition run_request_new (operation_id : OperationId) (instance_id : InstanceId) (image : OciImage) (shape : MachineShape)
    (command : DirectCommand) (limits : ExecutionLimits) : RunRequest :=
  mkRunRequest operation_id instance_id image shape command limits None.
