(* ===== verification/Fingerprint.v ===== *)
(** Fingerprints of requests ([soma] fingerprint.rs, fingerprint/network.rs): every operation is
    hashed over a domain and a sequence of named, length-prefixed fields.  Two requests that
    differ anywhere are hashed over different bytes, so equal fingerprints of different requests
    exhibit a collision of the hash. *)

From S2P Require Import Prelude Bytes Wire NetdAddr NetPolicy NetIntent NetIntentProps IpText Portable.
From Stdlib Require Import String.
From stdpp Require Import strings.
From stdpp Require Import options.
Local Open Scope string_scope.
Local Open Scope list_scope.
Local Open Scope Z_scope.

(** * The canonical hash *)

(** What has been given to the hash so far. *)
Notation CanonicalHash := bytes (only parsing).

(** [len().to_be_bytes()] of a 64-bit [usize]. *)
Definition len_bytes (l : bytes) : bytes := be_bytes 8 (Z.of_nat (length l)).

Definition hash_new (domain : bytes) : CanonicalHash := len_bytes domain ++ domain.

Definition field (name value : bytes) (encoder : CanonicalHash) : CanonicalHash :=
  encoder ++ len_bytes name ++ name ++ len_bytes value ++ value.

Definition optional_field (name : bytes) (value : option bytes) (encoder : CanonicalHash) : CanonicalHash :=
  match value with
  | Some value => field name value (field name [1] encoder)
  | None => field name [0] encoder
  end.

Definition field_u64 (name : bytes) (value : Z) (encoder : CanonicalHash) : CanonicalHash := field name (be_bytes 8 value) encoder.

(** A [for] loop over the values of a list. *)
Definition each {A} (f : A -> CanonicalHash -> CanonicalHash) (l : list A) (encoder : CanonicalHash) : CanonicalHash :=
  foldl (fun encoder a => f a encoder) encoder l.

Notation "e |> f" := (f e) (at level 61, left associativity, only parsing).

(** * The network half *)

Definition network_profile_fields (profile : NetworkProfileSelector) (encoder : CanonicalHash) : CanonicalHash :=
  match profile with
  | Selector_Disabled => encoder |> field (str "network_profile_mode") [0]
  | Selector_OperatorDefault => encoder |> field (str "network_profile_mode") [1]
  | Selector_Named profile_id revision =>
      encoder |> field (str "network_profile_mode") [2] |> field (str "network_profile_id") profile_id
              |> field (str "network_profile_revision") revision
  end.

Definition proxy_fields (proxy : ProxyPolicy) (encoder : CanonicalHash) : CanonicalHash :=
  match proxy with
  | Proxy_Disabled => encoder |> field (str "network_proxy_mode") [0]
  | Proxy_Required profile =>
      let encoder := encoder |> field (str "network_proxy_mode") [1] in
      match profile with
      | ProxySelector_OperatorDefault => encoder |> field (str "network_proxy_profile_mode") [0]
      | ProxySelector_Named profile_id revision =>
          encoder |> field (str "network_proxy_profile_mode") [1] |> field (str "network_proxy_profile_id") profile_id
                  |> field (str "network_proxy_profile_revision") revision
      end
  end.

Definition egress_code (e : EgressPolicy) : Z :=
  match e with Egress_Unspecified => 0 | Egress_Denied => 1 | Egress_PublicInternet => 2 | Egress_Unrestricted => 3 end.

Definition dns_code (d : DnsPolicy) : Z :=
  match d with Dns_Unspecified => 0 | Dns_Denied => 1 | Dns_System => 2 | Dns_Custom _ => 3 end.

(** A field only where there is an address to give. *)
Definition address_field (name : bytes) (address : option IpAddr) (encoder : CanonicalHash) : CanonicalHash :=
  match address with Some address => encoder |> field name (ip_text address) | None => encoder end.

Definition publication_fields (p : PortPublication) (encoder : CanonicalHash) : CanonicalHash :=
  encoder
  |> field (str "network_bind_address") (ip_text (bind_address (pub_bind p)))
  |> field (str "network_bind_v6_only") [match bind_v6_only (pub_bind p) with None => 0 | Some true => 2 | Some false => 1 end]
  |> field_u64 (str "network_host_port") (default 0 (host_port_requested (pub_host_port p)))
  |> field_u64 (str "network_guest_port") (pub_guest_port p)
  |> field (str "network_protocol") [match pub_protocol p with Tcp => 0 | Udp => 1 end].

Definition network_fields (policy : NetworkPolicy) (encoder : CanonicalHash) : CanonicalHash :=
  let addresses := policy_guest_addresses policy in
  encoder
  |> network_profile_fields (policy_profile policy)
  |> field (str "network_ipv4_mode") [ipv4_fingerprint_code (addresses_ipv4 addresses)]
  |> address_field (str "network_ipv4_address") (IpAddr_V4 <$> ipv4_requested_address (addresses_ipv4 addresses))
  |> field (str "network_ipv6_mode") [ipv6_fingerprint_code (addresses_ipv6 addresses)]
  |> address_field (str "network_ipv6_address") (IpAddr_V6 <$> ipv6_requested_address (addresses_ipv6 addresses))
  |> proxy_fields (policy_proxy policy)
  |> field (str "network_egress") [egress_code (policy_egress policy)]
  |> field (str "network_dns_mode") [dns_code (policy_dns policy)]
  |> field_u64 (str "network_dns_server_count") (Z.of_nat (length (dns_servers (policy_dns policy))))
  |> each (fun server => field (str "network_dns_server") (ip_text server)) (dns_servers (policy_dns policy))
  |> field_u64 (str "network_publication_count") (Z.of_nat (length (policy_published_ports policy)))
  |> each publication_fields (policy_published_ports policy).

(** * Requests *)

Definition workload_fields (w : WorkloadIdentity) (encoder : CanonicalHash) : CanonicalHash :=
  encoder
  |> optional_field (str "index_digest") (workload_index_digest w)
  |> field (str "manifest_digest") (workload_manifest_digest w)
  |> field (str "operating_system") (platform_operating_system (workload_platform w))
  |> field (str "architecture") (platform_architecture (workload_platform w))
  |> optional_field (str "variant") (platform_variant (workload_platform w))
  |> optional_field (str "generation_id") (workload_generation_id w).

Definition shape_fields (s : MachineShape) (encoder : CanonicalHash) : CanonicalHash :=
  encoder
  |> field_u64 (str "vcpu_count") (shape_vcpu_count s)
  |> field_u64 (str "memory_mib") (shape_memory_mib s)
  |> field_u64 (str "storage_mib") (shape_storage_mib s)
  |> network_fields (shape_capabilities s).

Definition machine_name_field (name : option MachineName) (encoder : CanonicalHash) : CanonicalHash :=
  encoder |> optional_field (str "machine_name") name.

Definition command_fields (c : DirectCommand) (encoder : CanonicalHash) : CanonicalHash :=
  encoder
  |> field (str "executable") (command_executable c)
  |> field_u64 (str "argument_count") (Z.of_nat (length (command_arguments c)))
  |> each (fun argument => field (str "argument") argument) (command_arguments c).

Definition limits_fields (l : ExecutionLimits) (encoder : CanonicalHash) : CanonicalHash :=
  encoder |> field_u64 (str "timeout_ms") (limits_timeout_ms l) |> field_u64 (str "max_output_bytes") (limits_max_output_bytes l).

Definition instance_field (instance_id : InstanceId) (encoder : CanonicalHash) : CanonicalHash :=
  encoder |> field (str "instance_id") instance_id.

(** What is fingerprinted. *)
Inductive Fingerprinted : Type :=
| F_source (image : OciImage)
| F_run (w : WorkloadIdentity) (i : InstanceId) (name : option MachineName) (s : MachineShape) (c : DirectCommand) (l : ExecutionLimits)
| F_launch (w : WorkloadIdentity) (i : InstanceId) (name : option MachineName) (s : MachineShape)
| F_execute (w : WorkloadIdentity) (i : InstanceId) (c : DirectCommand) (l : ExecutionLimits)
| F_stop (w : WorkloadIdentity) (i : InstanceId)
| F_inspect (w : WorkloadIdentity) (i : InstanceId)
| F_destroy (w : WorkloadIdentity) (i : InstanceId).

(** The bytes hashed for each. *)
Definition hashed (f : Fingerprinted) : CanonicalHash :=
  match f with
  | F_source image => hash_new (str "soma.oci-source.v1") |> field (str "image") image
  | F_run w i name s c l =>
      hash_new (str "soma.run-request.v2") |> workload_fields w |> instance_field i |> machine_name_field name
      |> shape_fields s |> command_fields c |> limits_fields l
  | F_launch w i name s =>
      hash_new (str "soma.managed-launch.v2") |> workload_fields w |> instance_field i |> machine_name_field name |> shape_fields s
  | F_execute w i c l =>
      hash_new (str "soma.managed-execute.v1") |> workload_fields w |> instance_field i |> command_fields c |> limits_fields l
  | F_stop w i => hash_new (str "soma.managed-stop.v1") |> workload_fields w |> instance_field i
  | F_inspect w i => hash_new (str "soma.managed-inspect.v1") |> workload_fields w |> instance_field i
  | F_destroy w i => hash_new (str "soma.managed-destroy.v1") |> workload_fields w |> instance_field i
  end.

Section fingerprints.
Context (sha256 : bytes -> bytes).

(** [CanonicalHash::finish] *)
Definition finish (encoder : CanonicalHash) : RequestFingerprint := fingerprint_from_digest (sha256 encoder).

Definition source_fingerprint (image : OciImage) : RequestFingerprint := finish (hashed (F_source image)).
Definition run_fingerprint w i name s c l : RequestFingerprint := finish (hashed (F_run w i name s c l)).
Definition launch_fingerprint w i name s : RequestFingerprint := finish (hashed (F_launch w i name s)).
Definition execute_fingerprint w i c l : RequestFingerprint := finish (hashed (F_execute w i c l)).
Definition stop_fingerprint w i : RequestFingerprint := finish (hashed (F_stop w i)).
Definition inspect_fingerprint w i : RequestFingerprint := finish (hashed (F_inspect w i)).
Definition destroy_fingerprint w i : RequestFingerprint := finish (hashed (F_destroy w i)).
Definition digest_bytes (value : bytes) : RequestFingerprint := finish value.
End fingerprints.
