(* ===== verification/FingerprintProps.v ===== *)
(** Fingerprints: what is hashed determines the request. *)

From S2P Require Import Prelude Bytes Wire NetdAddr NetPolicy NetIntent NetIntentProps IpText Portable Fingerprint.
From Stdlib Require Import String.
From stdpp Require Import strings.
From stdpp Require Import options.
Local Open Scope string_scope.
Local Open Scope list_scope.
Local Open Scope Z_scope.

(** * Encoders that delimit what they write *)

(** An encoder appends, and whatever follows, what it appended determines [key]. *)
Definition delimits {A C} (P : A -> Prop) (f : A -> bytes -> bytes) (key : A -> C) : Prop :=
  (forall a e, f a e = e ++ f a []) /\
  forall a b r s, P a -> P b -> f a [] ++ r = f b [] ++ s -> key a = key b /\ r = s.

Definition short_text (l : bytes) : Prop := Z.of_nat (length l) < 2 ^ 64.

Lemma len_bytes_inj l m r s : short_text l -> short_text m -> len_bytes l ++ l ++ r = len_bytes m ++ m ++ s -> l = m /\ r = s.
Proof.
  unfold len_bytes, short_text. intros Hl Hm Heq. apply app_inj_1 in Heq as [Hlen Heq]; [ | by rewrite !length_be_bytes].
  apply (f_equal be_val) in Hlen. rewrite !be_val_bytes in Hlen by (unfold is_uint; change (8 * Z.of_nat 8) with 64; lia).
  apply app_inj_1 in Heq; [done | lia].
Qed.

Lemma field_app name v e : field name v e = e ++ field name v [].
Proof. reflexivity. Qed.

Lemma field_inj name v w r s : short_text v -> short_text w -> field name v [] ++ r = field name w [] ++ s -> v = w /\ r = s.
Proof.
  unfold field. rewrite !app_nil_l, <- !app_assoc. intros Hv Hw Heq. do 2 apply app_inv_head in Heq. by apply len_bytes_inj.
Qed.

Section delimits.
Context {A : Type} (P : A -> Prop).

Lemma delimits_field name (v : A -> bytes) : (forall a, P a -> short_text (v a)) -> delimits P (fun a => field name (v a)) v.
Proof. intros Hv. split; [intros; apply field_app | ]. intros a b r s Ha Hb. apply field_inj; auto. Qed.

Lemma delimits_u64 name (v : A -> Z) : (forall a, P a -> is_uint 64 (v a)) -> delimits P (fun a => field_u64 name (v a)) v.
Proof.
  intros Hv. split; [intros; apply field_app | ]. intros a b r s Ha Hb Heq.
  apply field_inj in Heq as [Heq ->]; [ | unfold short_text; rewrite length_be_bytes; lia..].
  split; [ | done]. apply (f_equal be_val) in Heq. by rewrite !be_val_bytes in Heq by by apply Hv.
Qed.

Lemma delimits_byte name (v : A -> Z) : delimits P (fun a => field name [v a]) v.
Proof.
  split; [intros; apply field_app | ]. intros a b r s _ _ Heq. apply field_inj in Heq as [[= ->] ->]; [done | unfold short_text; cbn; lia..].
Qed.

Lemma delimits_seq {C D} f (key1 : A -> C) g (key2 : A -> D) : delimits P f key1 -> delimits P g key2 ->
  delimits P (fun a e => g a (f a e)) (fun a => (key1 a, key2 a)).
Proof.
  intros [Happ1 Hinj1] [Happ2 Hinj2]. split.
  - intros a e. rewrite Happ2, (Happ1 a e), (Happ2 a (f a [])). by rewrite app_assoc.
  - intros a b r s Ha Hb. rewrite (Happ2 a), (Happ2 b), <- !app_assoc. intros Heq.
    destruct (Hinj1 a b _ _ Ha Hb Heq) as [-> Heq2]. by destruct (Hinj2 a b _ _ Ha Hb Heq2) as [-> ->].
Qed.

Lemma delimits_key {C D} f (key : A -> C) (key' : A -> D) : delimits P f key ->
  (forall a b, P a -> P b -> key a = key b -> key' a = key' b) -> delimits P f key'.
Proof. intros [Happ Hinj] Hk. split; [done | ]. intros a b r s Ha Hb Heq. destruct (Hinj a b r s Ha Hb Heq) as [Hkey ->]. auto. Qed.

Lemma delimits_of {B C} (Q : B -> Prop) (p : A -> B) f (key : B -> C) : delimits Q f key -> (forall a, P a -> Q (p a)) ->
  delimits P (fun a => f (p a)) (fun a => key (p a)).
Proof. intros [Happ Hinj] Hp. split; [intros; apply Happ | ]. intros a b r s Ha Hb. apply Hinj; auto. Qed.

Lemma delimits_optional name (o : A -> option bytes) : (forall a v, P a -> o a = Some v -> short_text v) ->
  delimits P (fun a => optional_field name (o a)) o.
Proof.
  intros Ho. unfold optional_field. split.
  - intros a e. destruct (o a); [ | apply field_app]. rewrite (field_app _ _ (field _ _ _)), field_app. by rewrite <- app_assoc.
  - intros a b r s Ha Hb. destruct (o a) as [v | ] eqn:Ea, (o b) as [w | ] eqn:Eb; rewrite ?(field_app _ _ (field _ _ _)), <- ?app_assoc; intros Heq;
      apply field_inj in Heq as [Hmode Heq]; try (unfold short_text; cbn; lia); try done.
    apply field_inj in Heq as [-> ->]; [done | by apply (Ho a) | by apply (Ho b)].
Qed.

Lemma delimits_ext {C} f f' (key : A -> C) : delimits P f key -> (forall a e, f' a e = f a e) -> delimits P f' key.
Proof. intros [Happ Hinj] Hf. split; [intros; by rewrite !Hf | ]. intros a b r s. rewrite !Hf. apply Hinj. Qed.

(** A byte that says which case it is, then what that case has. *)
Lemma delimits_mode {C} name (mode : A -> Z) g (key : A -> C) : (forall a e, g a e = e ++ g a []) ->
  (forall a b r s, P a -> P b -> mode a = mode b -> g a [] ++ r = g b [] ++ s -> key a = key b /\ r = s) ->
  delimits P (fun a e => g a (field name [mode a] e)) key.
Proof.
  intros Happ Hinj. split.
  - intros a e. rewrite Happ, (field_app _ _ e), (Happ a (field _ _ [])). by rewrite app_assoc.
  - intros a b r s Ha Hb. rewrite (Happ a), (Happ b), <- !app_assoc. intros Heq.
    destruct (delimits_byte name mode) as [_ Hmode]. destruct (Hmode a b _ _ Ha Hb Heq) as [Hm Heq2]. by apply Hinj.
Qed.

(** A count, then that many values. *)
Lemma delimits_list {B C} (Q : B -> Prop) name (l : A -> list B) f (key : B -> C) : delimits Q f key ->
  (forall a, P a -> Z.of_nat (length (l a)) < 2 ^ 64 /\ Forall Q (l a)) ->
  delimits P (fun a e => each f (l a) (field_u64 name (Z.of_nat (length (l a))) e)) (fun a => key <$> l a).
Proof.
  intros [Happ Hinj] Hl. assert (forall m e, each f m e = e ++ each f m []) as Heach.
  { unfold each. induction m as [ | x m IH]; intros e; cbn [foldl]; [by rewrite app_nil_r | ]. rewrite IH, (Happ x e), (IH (f x [])). by rewrite app_assoc. }
  split.
  - intros a e. rewrite Heach, (Heach _ (field_u64 _ _ [])). unfold field_u64. rewrite field_app. by rewrite <- app_assoc.
  - intros a b r s Ha Hb. destruct (Hl a Ha) as [Hla Qa], (Hl b Hb) as [Hlb Qb]. rewrite (Heach (l a)), (Heach (l b)), <- !app_assoc.
    intros Heq. destruct (delimits_u64 name (fun a => Z.of_nat (length (l a)))) as [_ Hcount]; [intros x Hx; apply Hl in Hx; unfold is_uint; lia | ].
    destruct (Hcount a b _ _ Ha Hb Heq) as [Hlen Heq2]. clear Heq Hcount Hla Hlb.
    revert Hlen Heq2 Qb. generalize (l b). induction Qa as [ | x m Hx Qa IH]; intros [ | y n] Hlen Heq Qb; try (cbn in Hlen; lia); [done | ].
    apply Forall_cons in Qb as [Hy Qb]. unfold each in Heq. cbn [foldl] in Heq. fold (each f m (f x [])) in Heq. fold (each f n (f y [])) in Heq.
    rewrite (Heach m (f x [])), (Heach n (f y [])), <- !app_assoc in Heq. destruct (Hinj x y _ _ Hx Hy Heq) as [Hk Heq2].
    destruct (IH n ltac:(cbn in Hlen; lia) Heq2 Qb) as [Hks ->]. cbn. by rewrite Hk, Hks.
Qed.
End delimits.

(** * Texts are short *)

Lemma length_hex_go fuel n acc : (length (hex_go fuel n acc) <= fuel + length acc)%nat.
Proof. revert n acc. induction fuel as [ | fuel IH]; intros n acc; cbn [hex_go]; [lia | ]. case_match; cbn [length]; [lia | ]. specialize (IH (n / 16) (hex_digit (n mod 16) :: acc)). cbn [length] in IH. lia. Qed.

Lemma length_dec_go fuel n acc : (length (dec_go fuel n acc) <= fuel + length acc)%nat.
Proof. revert n acc. induction fuel as [ | fuel IH]; intros n acc; cbn [dec_go]; [lia | ]. case_match; cbn [length]; [lia | ]. specialize (IH (n / 10) (48 + n mod 10 :: acc)). cbn [length] in IH. lia. Qed.

Lemma length_join sep k l : Forall (fun t : bytes => (length t <= k)%nat) l -> (length (join_on sep l) <= S k * length l)%nat.
Proof.
  induction 1 as [ | t l Ht Hl IH]; [cbn; lia | ]. destruct l as [ | u l]; [cbn in *; lia | ].
  change (join_on sep (t :: u :: l)) with (t ++ sep :: join_on sep (u :: l)). rewrite length_app. cbn [length] in *. lia.
Qed.

Lemma length_dec n : (length (dec n) <= 21)%nat.
Proof.
  unfold dec, dec_nat, DECIMAL_FUEL. pose proof (length_dec_go 20 (- n) []) as H1. pose proof (length_dec_go 20 n []) as H2.
  destruct (n <? 0); cbn [length] in *; lia.
Qed.

Lemma length_ipv4_text a : (length (ipv4_text a) <= 88)%nat.
Proof.
  unfold ipv4_text. pose proof (length_join 46 21 (dec <$> octets a)) as Hj. rewrite length_fmap in Hj. unfold octets in *. rewrite length_be_bytes in Hj.
  apply Hj. apply Forall_fmap, Forall_true. intros x. apply length_dec.
Qed.

Lemma length_subslice c : (length (fmt_subslice c) <= 5 * length c)%nat.
Proof.
  unfold fmt_subslice. pose proof (length_join 58 4 (lower_hex <$> c)) as Hj. rewrite length_fmap in Hj. apply Hj, Forall_fmap, Forall_true.
  intros x. change (length (hex_go 4 x []) <= 4)%nat. pose proof (length_hex_go 4 x []) as Hl. cbn [length] in Hl. lia.
Qed.

Lemma ip_text_short a : short_text (ip_text a).
Proof.
  assert (length (ip_text a) <= 200)%nat; [ | unfold short_text; lia]. destruct a as [a | a]; cbn [ip_text]; [pose proof (length_ipv4_text a); lia | ].
  unfold ipv6_text. destruct (to_ipv4_mapped a) as [v4 | ].
  - rewrite length_app. change (length (str "::ffff:")) with 7%nat. pose proof (length_ipv4_text v4). lia.
  - assert (length (segments a) = 8%nat) as H8 by apply length_groups. case_match.
    + rewrite !length_app. change (length (str "::")) with 2%nat.
      pose proof (length_subslice (take (span_start (inner_zeroes (segments a))) (segments a))) as H1.
      pose proof (length_subslice (drop (span_start (inner_zeroes (segments a)) + span_len (inner_zeroes (segments a))) (segments a))) as H2.
      rewrite length_take in H1. rewrite length_drop in H2. lia.
    + pose proof (length_subslice (segments a)). lia.
Qed.

(** * Values as the types have them *)

(** Integers fit their width, ports are not zero where the type says so, and a text or a list
    is shorter than the address space. *)
Definition publication_typed (p : PortPublication) : Prop :=
  ip_ok (bind_address (pub_bind p)) /\ is_uint 64 (default 0 (host_port_requested (pub_host_port p))) /\
  pub_host_port p <> HostPort_Fixed 0 /\ is_uint 64 (pub_guest_port p).

Definition profile_typed (s : NetworkProfileSelector) : Prop :=
  match s with Selector_Named id revision => short_text id /\ short_text revision | _ => True end.

Definition proxy_typed (p : ProxyPolicy) : Prop :=
  match p with Proxy_Required (ProxySelector_Named id revision) => short_text id /\ short_text revision | _ => True end.

Definition short_list {A} (l : list A) : Prop := Z.of_nat (length l) < 2 ^ 64.

Definition policy_typed (p : NetworkPolicy) : Prop :=
  profile_typed (policy_profile p) /\
  (forall a, ipv4_requested_address (addresses_ipv4 (policy_guest_addresses p)) = Some a -> is_uint 32 a) /\
  (forall a, ipv6_requested_address (addresses_ipv6 (policy_guest_addresses p)) = Some a -> is_uint 128 a) /\
  proxy_typed (policy_proxy p) /\
  (short_list (dns_servers (policy_dns p)) /\ Forall ip_ok (dns_servers (policy_dns p))) /\
  (short_list (policy_published_ports p) /\ Forall publication_typed (policy_published_ports p)).

Definition opt_short (o : option bytes) : Prop := forall v, o = Some v -> short_text v.

Definition workload_typed (w : WorkloadIdentity) : Prop :=
  opt_short (workload_index_digest w) /\ short_text (workload_manifest_digest w) /\
  short_text (platform_operating_system (workload_platform w)) /\ short_text (platform_architecture (workload_platform w)) /\
  opt_short (platform_variant (workload_platform w)) /\ opt_short (workload_generation_id w).

Definition shape_typed (s : MachineShape) : Prop :=
  is_uint 64 (shape_vcpu_count s) /\ is_uint 64 (shape_memory_mib s) /\ is_uint 64 (shape_storage_mib s) /\ policy_typed (shape_capabilities s).

Definition command_typed (c : DirectCommand) : Prop :=
  short_text (command_executable c) /\ short_list (command_arguments c) /\ Forall short_text (command_arguments c).

Definition limits_typed (l : ExecutionLimits) : Prop := is_uint 64 (limits_timeout_ms l) /\ is_uint 64 (limits_max_output_bytes l).

Definition request_typed (f : Fingerprinted) : Prop :=
  match f with
  | F_source image => short_text image
  | F_run w i name s c l => workload_typed w /\ short_text i /\ opt_short name /\ shape_typed s /\ command_typed c /\ limits_typed l
  | F_launch w i name s => workload_typed w /\ short_text i /\ opt_short name /\ shape_typed s
  | F_execute w i c l => workload_typed w /\ short_text i /\ command_typed c /\ limits_typed l
  | F_stop w i | F_inspect w i | F_destroy w i => workload_typed w /\ short_text i
  end.

(** * Every part is delimited *)

Lemma two_fields n m v w e : field m w (field n v e) = e ++ field m w (field n v []).
Proof. rewrite (field_app m), (field_app n), (field_app m _ (field n v [])). by rewrite <- app_assoc. Qed.

Lemma two_fields_inj n m v w v' w' r s : short_text v -> short_text w -> short_text v' -> short_text w' ->
  field m w (field n v []) ++ r = field m w' (field n v' []) ++ s -> (v = v' /\ w = w') /\ r = s.
Proof.
  intros Hv Hw Hv' Hw'. rewrite !(field_app m _ (field n _ [])), <- !app_assoc.
  intros [-> [-> ->]%field_inj]%field_inj; done.
Qed.

Definition profile_code (p : NetworkProfileSelector) : Z :=
  match p with Selector_Disabled => 0 | Selector_OperatorDefault => 1 | Selector_Named _ _ => 2 end.

Definition profile_rest (p : NetworkProfileSelector) (e : bytes) : bytes :=
  match p with
  | Selector_Named id revision => e |> field (str "network_profile_id") id |> field (str "network_profile_revision") revision
  | _ => e
  end.

Lemma profile_delimited : delimits profile_typed network_profile_fields (fun p => p).
Proof.
  apply (delimits_ext _ (fun p e => profile_rest p (field (str "network_profile_mode") [profile_code p] e))); [ | by intros []].
  apply delimits_mode.
  - intros [ | | id revision] e; [by rewrite app_nil_r.. | apply two_fields].
  - intros [ | | id revision] [ | | id' revision'] r s Ha Hb Hm Heq; try discriminate Hm; [done.. | ].
    destruct Ha, Hb. apply two_fields_inj in Heq as [[-> ->] ->]; done.
Qed.

Definition proxy_rest (p : ProxyPolicy) (e : bytes) : bytes :=
  match p with
  | Proxy_Disabled => e
  | Proxy_Required ProxySelector_OperatorDefault => e |> field (str "network_proxy_profile_mode") [0]
  | Proxy_Required (ProxySelector_Named id revision) =>
      e |> field (str "network_proxy_profile_mode") [1] |> field (str "network_proxy_profile_id") id |> field (str "network_proxy_profile_revision") revision
  end.

Lemma proxy_delimited : delimits proxy_typed proxy_fields (fun p => p).
Proof.
  apply (delimits_ext _ (fun p e => proxy_rest p (field (str "network_proxy_mode") [match p with Proxy_Disabled => 0 | _ => 1 end] e))).
  2: by intros [ | []].
  assert (forall l, (length l <= 1)%nat -> short_text l) as H1 by (unfold short_text; lia).
  apply delimits_mode.
  - intros [ | [ | id revision]] e; cbn [proxy_rest]; [by rewrite app_nil_r | apply field_app | ].
    rewrite two_fields, (field_app _ [1] e), (two_fields _ _ _ _ (field _ [1] [])). by rewrite <- app_assoc.
  - intros [ | [ | id revision]] [ | [ | id' revision']] r s Ha Hb Hm; cbn [proxy_rest]; try discriminate Hm;
      rewrite ?(two_fields _ _ _ _ (field _ [1] [])), <- ?app_assoc; intros Heq; [done | apply field_inj in Heq as [Hf Heq]; [ | apply H1; cbn; lia..].. ];
      try discriminate Hf; [by rewrite Heq | ].
    destruct Ha, Hb. apply two_fields_inj in Heq as [[-> ->] ->]; done.
Qed.

Lemma address_delimited {I} (P : I -> Prop) mode_name name (code : I -> Z) (address : I -> option IpAddr) :
  (forall i a, P i -> address i = Some a -> ip_ok a) ->
  (forall i j, code i = code j -> (address i = None <-> address j = None)) ->
  (forall i j, code i = code j -> address i = address j -> i = j) ->
  delimits P (fun i e => address_field name (address i) (field mode_name [code i] e)) (fun i => i).
Proof.
  intros Hok Hnone Hinj. apply (delimits_mode P mode_name code (fun i e => address_field name (address i) e)).
  - intros i e. unfold address_field. destruct (address i); [apply field_app | by rewrite app_nil_r].
  - intros i j r s Hi Hj Hm. unfold address_field.
    destruct (address i) as [a | ] eqn:Ei, (address j) as [b | ] eqn:Ej.
    + intros [Ht ->]%field_inj; [ | apply ip_text_short..]. split; [ | done]. apply Hinj; [done | ]. rewrite Ei, Ej. f_equal.
      apply ip_text_inj; [by apply (Hok i) | by apply (Hok j) | done].
    + apply (Hnone i j Hm) in Ej. congruence.
    + apply (Hnone i j Hm) in Ei. congruence.
    + cbn [app]. intros ->. split; [ | done]. apply Hinj; [done | congruence].
Qed.

Lemma ipv4_delimited :
  delimits (fun i => forall a, ipv4_requested_address i = Some a -> is_uint 32 a)
    (fun i e => address_field (str "network_ipv4_address") (IpAddr_V4 <$> ipv4_requested_address i) (field (str "network_ipv4_mode") [ipv4_fingerprint_code i] e))
    (fun i => i).
Proof.
  apply address_delimited.
  - intros i a Hi (x & Hx & ->)%fmap_Some. by apply Hi.
  - intros [ | | | a] [ | | | b]; cbn; done.
  - intros [ | | | a] [ | | | b]; cbn; intros; by simplify_eq.
Qed.

Lemma ipv6_delimited :
  delimits (fun i => forall a, ipv6_requested_address i = Some a -> is_uint 128 a)
    (fun i e => address_field (str "network_ipv6_address") (IpAddr_V6 <$> ipv6_requested_address i) (field (str "network_ipv6_mode") [ipv6_fingerprint_code i] e))
    (fun i => i).
Proof.
  apply address_delimited.
  - intros i a Hi (x & Hx & ->)%fmap_Some. by apply Hi.
  - intros [ | | | a] [ | | | b]; cbn; done.
  - intros [ | | | a] [ | | | b]; cbn; intros; by simplify_eq.
Qed.

(** The text of an address the caller maps to. *)
Lemma delimits_text {A} (P : A -> Prop) name (a : A -> IpAddr) : (forall x, P x -> ip_ok (a x)) ->
  delimits P (fun x => field name (ip_text (a x))) a.
Proof.
  intros Ha. eapply delimits_key; [apply (delimits_field P name (fun x => ip_text (a x))); intros; apply ip_text_short | ].
  intros x y Hx Hy. apply ip_text_inj; auto.
Qed.

(** Composes encoders, each delimiting its own part. *)
Notation "H1 >> H2" := (delimits_seq _ _ _ _ _ H1 H2) (at level 61, left associativity, only parsing).

Lemma publication_delimited : delimits publication_typed publication_fields (fun p => p).
Proof.
  eapply delimits_key; [eapply delimits_ext; [refine (
    delimits_text _ (str "network_bind_address") (fun p => bind_address (pub_bind p)) _ >>
    delimits_byte _ (str "network_bind_v6_only") (fun p => match bind_v6_only (pub_bind p) with None => 0 | Some true => 2 | Some false => 1 end) >>
    delimits_u64 _ (str "network_host_port") (fun p => default 0 (host_port_requested (pub_host_port p))) _ >>
    delimits_u64 _ (str "network_guest_port") pub_guest_port _ >>
    delimits_byte _ (str "network_protocol") (fun p => match pub_protocol p with Tcp => 0 | Udp => 1 end)) | reflexivity] | ].
  - by intros p (? & _).
  - by intros p (_ & ? & _).
  - by intros p (_ & _ & _ & ?).
  - intros [b h g p] [b' h' g' p'] (_ & _ & Hh & _) (_ & _ & Hh' & _). cbn in *. intros [= Hb Hv Hp -> Hpr]. f_equal.
    + destruct b as [? | ? []], b' as [? | ? []]; cbn in *; by simplify_eq.
    + destruct h, h'; cbn in Hp; congruence.
    + destruct p, p'; done.
Qed.

Lemma network_delimited : delimits policy_typed network_fields (fun p => p).
Proof.
  eapply delimits_key; [eapply delimits_ext; [refine (
    delimits_of _ profile_typed policy_profile _ _ profile_delimited _ >>
    delimits_of _ _ (fun a => addresses_ipv4 (policy_guest_addresses a)) _ _ ipv4_delimited _ >>
    delimits_of _ _ (fun a => addresses_ipv6 (policy_guest_addresses a)) _ _ ipv6_delimited _ >>
    delimits_of _ proxy_typed policy_proxy _ _ proxy_delimited _ >>
    delimits_byte _ (str "network_egress") (fun a => egress_code (policy_egress a)) >>
    delimits_byte _ (str "network_dns_mode") (fun a => dns_code (policy_dns a)) >>
    delimits_list _ ip_ok (str "network_dns_server_count") (fun a => dns_servers (policy_dns a)) _ (fun a => a)
      (delimits_text ip_ok (str "network_dns_server") (fun a => a) (fun a Ha => Ha)) _ >>
    delimits_list _ publication_typed (str "network_publication_count") policy_published_ports _ (fun p => p) publication_delimited _) | reflexivity] | ].
  - by intros a (? & _).
  - by intros a (_ & ? & _).
  - by intros a (_ & _ & ? & _).
  - by intros a (_ & _ & _ & ? & _).
  - by intros a (_ & _ & _ & _ & ? & _).
  - by intros a (_ & _ & _ & _ & _ & ?).
  - intros [s [i4 i6] x e d l] [s' [i4' i6'] x' e' d' l'] _ _. cbn. rewrite !list_fmap_id. intros [= -> -> -> -> He Hd Hs ->]. f_equal.
    + by destruct e, e'.
    + destruct d, d'; cbn in *; by simplify_eq.
Qed.

(** * Requests *)

Lemma workload_delimited : delimits workload_typed workload_fields (fun w => w).
Proof.
  eapply delimits_key; [eapply delimits_ext; [refine (
    delimits_optional _ (str "index_digest") workload_index_digest _ >>
    delimits_field _ (str "manifest_digest") workload_manifest_digest _ >>
    delimits_field _ (str "operating_system") (fun w => platform_operating_system (workload_platform w)) _ >>
    delimits_field _ (str "architecture") (fun w => platform_architecture (workload_platform w)) _ >>
    delimits_optional _ (str "variant") (fun w => platform_variant (workload_platform w)) _ >>
    delimits_optional _ (str "generation_id") workload_generation_id _) | reflexivity] | ].
  - intros w v (H & _). apply H.
  - by intros w (_ & ? & _).
  - by intros w (_ & _ & ? & _).
  - by intros w (_ & _ & _ & ? & _).
  - intros w v (_ & _ & _ & _ & H & _). apply H.
  - intros w v (_ & _ & _ & _ & _ & H). apply H.
  - intros [a b [c d e] f] [a' b' [c' d' e'] f'] _ _. cbn. intros [=]. by subst.
Qed.

Lemma shape_delimited : delimits shape_typed shape_fields (fun s => s).
Proof.
  eapply delimits_key; [eapply delimits_ext; [refine (
    delimits_u64 _ (str "vcpu_count") shape_vcpu_count _ >> delimits_u64 _ (str "memory_mib") shape_memory_mib _ >>
    delimits_u64 _ (str "storage_mib") shape_storage_mib _ >> delimits_of _ policy_typed shape_capabilities _ _ network_delimited _) | reflexivity] | ].
  - by intros s (? & _).
  - by intros s (_ & ? & _).
  - by intros s (_ & _ & ? & _).
  - by intros s (_ & _ & _ & ?).
  - intros [] [] _ _. cbn. intros [=]. by subst.
Qed.

Lemma command_delimited : delimits command_typed command_fields (fun c => c).
Proof.
  eapply delimits_key; [eapply delimits_ext; [refine (
    delimits_field _ (str "executable") command_executable _ >>
    delimits_list _ short_text (str "argument_count") command_arguments _ (fun a => a)
      (delimits_field short_text (str "argument") (fun a => a) (fun a Ha => Ha)) _) | reflexivity] | ].
  - by intros c (? & _).
  - by intros c (_ & ? & ?).
  - intros [] [] _ _. cbn. rewrite !list_fmap_id. intros [=]. by subst.
Qed.

Lemma limits_delimited : delimits limits_typed limits_fields (fun l => l).
Proof.
  eapply delimits_key; [eapply delimits_ext; [refine (
    delimits_u64 _ (str "timeout_ms") limits_timeout_ms _ >> delimits_u64 _ (str "max_output_bytes") limits_max_output_bytes _) | reflexivity] | ].
  - by intros l (? & _).
  - by intros l (_ & ?).
  - intros [] [] _ _. cbn. intros [=]. by subst.
Qed.

Definition domain (f : Fingerprinted) : bytes :=
  match f with
  | F_source _ => str "soma.oci-source.v1" | F_run _ _ _ _ _ _ => str "soma.run-request.v2" | F_launch _ _ _ _ => str "soma.managed-launch.v2"
  | F_execute _ _ _ _ => str "soma.managed-execute.v1" | F_stop _ _ => str "soma.managed-stop.v1"
  | F_inspect _ _ => str "soma.managed-inspect.v1" | F_destroy _ _ => str "soma.managed-destroy.v1"
  end.

(** A request of one kind, after its domain: an image, or a workload and an Instance with what
    the kind adds. *)
Definition image_of (f : Fingerprinted) : bytes := match f with F_source image => image | _ => [] end.

Record target : Type := mkTarget { target_workload : WorkloadIdentity; target_instance : InstanceId }.
Definition target_typed (t : target) : Prop := workload_typed (target_workload t) /\ short_text (target_instance t).
Definition target_fields (t : target) (e : bytes) : bytes := e |> workload_fields (target_workload t) |> instance_field (target_instance t).

Lemma target_delimited : delimits target_typed target_fields (fun t => t).
Proof.
  eapply delimits_key; [eapply delimits_ext; [refine (
    delimits_of _ workload_typed target_workload _ _ workload_delimited _ >> delimits_field _ (str "instance_id") target_instance _) | reflexivity] | ].
  - by intros t [? _].
  - by intros t [_ ?].
  - intros [] [] _ _. cbn. intros [=]. by subst.
Qed.

Definition machine_typed (m : option MachineName * MachineShape) : Prop := opt_short m.1 /\ shape_typed m.2.
Definition machine_fields (m : option MachineName * MachineShape) (e : bytes) : bytes := e |> machine_name_field m.1 |> shape_fields m.2.

Lemma machine_delimited : delimits machine_typed machine_fields (fun m => m).
Proof.
  eapply delimits_key; [eapply delimits_ext; [refine (
    delimits_optional _ (str "machine_name") fst _ >> delimits_of _ shape_typed snd _ _ shape_delimited _) | reflexivity] | ].
  - intros m v [H _]. apply H.
  - by intros m [_ ?].
  - intros [] [] _ _. cbn. intros [=]. by subst.
Qed.

Definition work_typed (w : DirectCommand * ExecutionLimits) : Prop := command_typed w.1 /\ limits_typed w.2.
Definition work_fields (w : DirectCommand * ExecutionLimits) (e : bytes) : bytes := e |> command_fields w.1 |> limits_fields w.2.

Lemma work_delimited : delimits work_typed work_fields (fun w => w).
Proof.
  eapply delimits_key; [eapply delimits_ext; [refine (
    delimits_of _ command_typed fst _ _ command_delimited _ >> delimits_of _ limits_typed snd _ _ limits_delimited _) | reflexivity] | ].
  - by intros w [? _].
  - by intros w [_ ?].
  - intros [] [] _ _. cbn. intros [=]. by subst.
Qed.

(** What follows the domain. *)
Definition body (f : Fingerprinted) (e : bytes) : bytes :=
  match f with
  | F_source image => e |> field (str "image") image
  | F_run w i name s c l => e |> target_fields (mkTarget w i) |> machine_fields (name, s) |> work_fields (c, l)
  | F_launch w i name s => e |> target_fields (mkTarget w i) |> machine_fields (name, s)
  | F_execute w i c l => e |> target_fields (mkTarget w i) |> work_fields (c, l)
  | F_stop w i | F_inspect w i | F_destroy w i => e |> target_fields (mkTarget w i)
  end.

Definition appends (f : bytes -> bytes) : Prop := forall e, f e = e ++ f [].

Lemma appends_then f g : appends f -> appends g -> appends (fun e => g (f e)).
Proof. intros Hf Hg e. rewrite (Hg (f e)), (Hf e), (Hg (f [])). by rewrite app_assoc. Qed.

Lemma body_app f : appends (body f).
Proof.
  assert (forall t, appends (target_fields t)) as Ht by (intros t; exact (proj1 target_delimited t)).
  assert (forall m, appends (machine_fields m)) as Hm by (intros m; exact (proj1 machine_delimited m)).
  assert (forall w, appends (work_fields w)) as Hw by (intros w; exact (proj1 work_delimited w)).
  destruct f as [image | w i n s c l | w i n s | w i c l | w i | w i | w i].
  - exact (field_app _ image).
  - exact (appends_then _ _ (appends_then _ _ (Ht _) (Hm _)) (Hw _)).
  - exact (appends_then _ _ (Ht _) (Hm _)).
  - exact (appends_then _ _ (Ht _) (Hw _)).
  - apply Ht.
  - apply Ht.
  - apply Ht.
Qed.

Lemma hashed_body f : hashed f = hash_new (domain f) ++ body f [].
Proof. rewrite <- body_app. by destruct f. Qed.

Lemma body_inj f g : request_typed f -> request_typed g -> domain f = domain g -> body f [] = body g [] -> f = g.
Proof.
  destruct target_delimited as [Ht Hti], machine_delimited as [Hm Hmi], work_delimited as [Hw Hwi].
  intros Hf Hg Hd Heq. rewrite <- (app_nil_r (body f [])), <- (app_nil_r (body g [])) in Heq.
  destruct f as [im | w i n s c l | w i n s | w i c l | w i | w i | w i], g as [im' | w' i' n' s' c' l' | w' i' n' s' | w' i' c' l' | w' i' | w' i' | w' i'];
    try discriminate Hd; cbn [body request_typed] in *; clear Hd.
  - by apply field_inj in Heq as [-> _].
  - destruct Hf as (? & ? & ? & ? & ? & ?), Hg as (? & ? & ? & ? & ? & ?).
    rewrite (Hw (c, l)), (Hm (n, s)), (Hw (c', l')), (Hm (n', s')), <- !app_assoc in Heq.
    apply Hti in Heq as [[= -> ->] Heq]; [ | done..]. apply Hmi in Heq as [[= -> ->] Heq]; [ | done..]. by apply Hwi in Heq as [[= -> ->] _].
  - destruct Hf as (? & ? & ? & ?), Hg as (? & ? & ? & ?).
    rewrite (Hm (n, s)), (Hm (n', s')), <- !app_assoc in Heq.
    apply Hti in Heq as [[= -> ->] Heq]; [ | done..]. by apply Hmi in Heq as [[= -> ->] Heq].
  - destruct Hf as (? & ? & ? & ?), Hg as (? & ? & ? & ?).
    rewrite (Hw (c, l)), (Hw (c', l')), <- !app_assoc in Heq.
    apply Hti in Heq as [[= -> ->] Heq]; [ | done..]. by apply Hwi in Heq as [[= -> ->] Heq].
  - by apply Hti in Heq as [[= -> ->] Heq].
  - by apply Hti in Heq as [[= -> ->] Heq].
  - by apply Hti in Heq as [[= -> ->] Heq].
Qed.

Lemma domain_short f : short_text (domain f).
Proof. unfold short_text. by destruct f. Qed.

Lemma hashed_inj f g : request_typed f -> request_typed g -> hashed f = hashed g -> f = g.
Proof.
  intros Hf Hg. rewrite !hashed_body. unfold hash_new. rewrite <- !app_assoc.
  intros [Hd Hb]%len_bytes_inj; [ | apply domain_short..]. by apply body_inj.
Qed.

(** * Fingerprints *)

Lemma hex_inj l m : all_bytes l -> all_bytes m -> hex l = hex m -> l = m.
Proof.
  intros Hl. revert m. induction Hl as [ | b l Hb Hl IH]; intros [ | c m] Hm; [done.. | ]. apply Forall_cons in Hm as [Hc Hm].
  cbn [hex]. intros [= H1 H2 H3]. destruct (nibbles b Hb) as (B1 & B2 & ->), (nibbles c Hc) as (C1 & C2 & ->).
  apply (f_equal (to_digit 16)) in H1, H2. rewrite !to_digit_hex_digit in H1, H2 by done. injection H1 as ->. injection H2 as ->.
  f_equal. by apply IH.
Qed.

Lemma hex_lower l : all_bytes l -> forallb is_lower_hex (hex l) = true.
Proof.
  induction 1 as [ | b l Hb Hl IH]; [done | ]. destruct (nibbles b Hb) as (B1 & B2 & _). cbn [hex forallb]. rewrite IH.
  assert (forall d, 0 <= d < 16 -> is_lower_hex (hex_digit d) = true) as Hd.
  { intros d Hd. unfold hex_digit, is_lower_hex, is_ascii_digit. destruct (Z.ltb_spec d 10); apply orb_true_iff; [left | right]; lia. }
  by rewrite !Hd.
Qed.

Lemma fingerprint_new_digest d : length d = 32%nat -> all_bytes d -> fingerprint_new (fingerprint_from_digest d) = Ok (fingerprint_from_digest d).
Proof.
  intros Hlen Hd. unfold fingerprint_new, fingerprint_from_digest, text_strip_prefix. rewrite take_app_length, bool_decide_eq_true_2, drop_app_length by done.
  unfold validate_fixed_hex. rewrite length_hex, Hlen, hex_lower by done. reflexivity.
Qed.

(** C8: a fingerprint names one request.  When two requests have the same fingerprint, of
    whichever kinds they are (an image, a run, a launch, an execution, a stop, an inspection or a
    destruction) they are the same request in every field, or their encodings are two different
    texts with one digest: a collision of the hash.  And every fingerprint made is one the
    parser of fingerprints accepts. *)
Theorem fingerprint_injective sha256 f g :
  (forall x, length (sha256 x) = 32%nat /\ all_bytes (sha256 x)) -> request_typed f -> request_typed g ->
  finish sha256 (hashed f) = finish sha256 (hashed g) ->
  (f = g \/ (hashed f <> hashed g /\ sha256 (hashed f) = sha256 (hashed g))) /\
  fingerprint_new (finish sha256 (hashed f)) = Ok (finish sha256 (hashed f)).
Proof.
  intros Hsha Hf Hg Heq. destruct (Hsha (hashed f)) as [Hlen Hb]. split; [ | by apply fingerprint_new_digest].
  destruct (decide (hashed f = hashed g)) as [Hh | Hne]; [left; by apply hashed_inj | right]. split; [done | ].
  unfold finish, fingerprint_from_digest in Heq. apply app_inv_head in Heq. apply hex_inj in Heq; [done | done | apply Hsha].
Qed.

Definition demo_workload : WorkloadIdentity := workload_new (str "sha256:manifest") linux_amd64 None.

Lemma fingerprint_injective_witness :
  let f := F_stop demo_workload (str "instance") in let g := F_destroy demo_workload (str "instance") in
  f = g \/ (hashed f <> hashed g /\ replicate 32 0 = replicate 32 0).
Proof.
  assert (forall k, (k <= 100)%nat -> Z.of_nat k < 2 ^ 64) as Hk by lia.
  assert (forall i, i = str "instance" -> target_typed (mkTarget demo_workload i)) as Ht.
  { intros i ->. unfold target_typed, workload_typed, opt_short, short_text. cbn [target_workload target_instance].
    repeat split; try (apply Hk; cbn; lia); done. }
  destruct (fingerprint_injective (fun _ => replicate 32 0) (F_stop demo_workload (str "instance")) (F_destroy demo_workload (str "instance"))) as [H _].
  - intros _. split; [done | ]. repeat constructor; lia.
  - by apply Ht.
  - by apply Ht.
  - done.
  - exact H.
Defined.
