(* ===== verification/Evidence.v ===== *)
(** Evidence and receipts ([soma] evidence/, output.rs, receipt.rs, receipt/validation.rs): what a
    backend observed, whether it matches what was asked, and the receipt that binds both, with
    the validation every receipt read back from a record goes through. *)

From S2P Require Import Prelude Bytes Wire NetdAddr NetPolicy Portable.
From Stdlib Require Import String.
From stdpp Require Import strings.
From stdpp Require Import options.
Local Open Scope string_scope.
Local Open Scope list_scope.
Local Open Scope Z_scope.

#[export] Instance NetworkProfileSelector_eq_dec : EqDecision NetworkProfileSelector.
Proof. solve_decision. Defined.
#[export] Instance ProxyProfileSelector_eq_dec : EqDecision ProxyProfileSelector.
Proof. solve_decision. Defined.
#[export] Instance ProxyPolicy_eq_dec : EqDecision ProxyPolicy.
Proof. solve_decision. Defined.
#[export] Instance Ipv4AddressIntent_eq_dec : EqDecision Ipv4AddressIntent.
Proof. solve_decision. Defined.
#[export] Instance Ipv6AddressIntent_eq_dec : EqDecision Ipv6AddressIntent.
Proof. solve_decision. Defined.
#[export] Instance GuestAddressIntent_eq_dec : EqDecision GuestAddressIntent.
Proof. solve_decision. Defined.
#[export] Instance NetworkPolicy_eq_dec : EqDecision NetworkPolicy.
Proof. solve_decision. Defined.
#[export] Instance MachineShape_eq_dec : EqDecision MachineShape.
Proof. solve_decision. Defined.
#[export] Instance OciPlatform_eq_dec : EqDecision OciPlatform.
Proof. solve_decision. Defined.
#[export] Instance WorkloadIdentity_eq_dec : EqDecision WorkloadIdentity.
Proof. solve_decision. Defined.

(** * Classes *)

Inductive BackendKind : Type := LinuxKvm | MacosVirtualization | DockerContainer | Remote.
Inductive IsolationClass : Type := HardwareVirtualMachine | LinuxContainer.
Inductive PreparationClass : Type := OnDemand | PreparedWorker | PausedLease | ReadyLease.
Inductive DigestBinding : Type := ObservedOnly | LaunchEnforced.
Inductive EvidenceClass : Type := BasicBackendReported.
Inductive OperationKind : Type := Op_Run | Op_Launch | Op_Execute | Op_Stop | Op_Inspect | Op_Destroy.
Inductive MachineState : Type := State_Ready | State_Stopping.

Inductive TerminalStatus : Type :=
| Status_Exited (code : Z) | Status_Signaled (signal : option Z) | Status_TimedOut | Status_OutputLimitExceeded | Status_Failed
| Status_Ready | Status_Stopped | Status_Inspected (state : MachineState) | Status_Destroyed.

Inductive CommandStatus : Type :=
| Command_Exited (code : Z) | Command_Signaled (signal : option Z) | Command_TimedOut | Command_OutputLimitExceeded.

Inductive MeasurementClass : Type :=
| FacadeRunEndToEnd | FacadeManagedLaunch | FacadeManagedCommand | FacadeManagedStop | FacadeManagedInspect | FacadeManagedDestroy.

Inductive MilestoneKind : Type :=
| M_Accepted | M_WorkloadResolved | M_Admitted | M_MachineLaunched | M_Ready | M_CommandStarted | M_CommandFinished
| M_CleanupStarted | M_CleanupFinished | M_FailureObserved | M_Inspected.

#[export] Instance BackendKind_eq_dec : EqDecision BackendKind.
Proof. solve_decision. Defined.
#[export] Instance OperationKind_eq_dec : EqDecision OperationKind.
Proof. solve_decision. Defined.
#[export] Instance MachineState_eq_dec : EqDecision MachineState.
Proof. solve_decision. Defined.
#[export] Instance TerminalStatus_eq_dec : EqDecision TerminalStatus.
Proof. solve_decision. Defined.
#[export] Instance MilestoneKind_eq_dec : EqDecision MilestoneKind.
Proof. solve_decision. Defined.

Record Milestone : Type := mkMilestone { milestone_kind : MilestoneKind; milestone_elapsed_ns : Z }.

#[export] Instance Milestone_eq_dec : EqDecision Milestone.
Proof. solve_decision. Defined.

(** [MeasurementBoundary::for_class]: the clock, the origin and the terminal have one value each. *)
Record MeasurementBoundary : Type := mkMeasurementBoundary { measurement_class : MeasurementClass }.

Inductive WorkloadEvidence : Type :=
| Workload_Resolved (identity : WorkloadIdentity)
| Workload_Unresolved (source_fingerprint : RequestFingerprint).

(** * Observations *)

Inductive ObservationUnavailable : Type := NotReached | NotVerified.

Inductive Observation (T : Type) : Type := Observed (value : T) | Unavailable (why : ObservationUnavailable).
Arguments Observed {T} value.
Arguments Unavailable {T} why.

#[export] Instance ObservationUnavailable_eq_dec : EqDecision ObservationUnavailable.
Proof. solve_decision. Defined.
#[export] Instance Observation_eq_dec {T} `{!EqDecision T} : EqDecision (Observation T).
Proof. solve_decision. Defined.

Definition is_observed {T} (o : Observation T) : bool := match o with Observed _ => true | Unavailable _ => false end.

Record EffectiveShape : Type := mkEffectiveShape {
  effective_vcpu_count : Observation Z;
  effective_memory_mib : Observation Z;
  effective_storage_mib : Observation Z
}.

Definition effective_shape_new (vcpu_count memory_mib storage_mib : Observation Z) : Result EffectiveShape ValidationError :=
  if bool_decide (vcpu_count = Observed 0) || bool_decide (memory_mib = Observed 0) then Err InvalidShape
  else Ok (mkEffectiveShape vcpu_count memory_mib storage_mib).

Definition fully_observed (s : MachineShape) : EffectiveShape :=
  mkEffectiveShape (Observed (shape_vcpu_count s)) (Observed (shape_memory_mib s)) (Observed (shape_storage_mib s)).

Definition shape_unavailable (reason : ObservationUnavailable) : EffectiveShape :=
  mkEffectiveShape (Unavailable reason) (Unavailable reason) (Unavailable reason).

Definition observation_matches (o : Observation Z) (requested : Z) : bool :=
  match o with Observed value => value =? requested | Unavailable _ => true end.

Definition shape_matches_request (e : EffectiveShape) (requested : MachineShape) : bool :=
  observation_matches (effective_vcpu_count e) (shape_vcpu_count requested) &&
  observation_matches (effective_memory_mib e) (shape_memory_mib requested) &&
  observation_matches (effective_storage_mib e) (shape_storage_mib requested).

Definition shape_all_unavailable (e : EffectiveShape) : bool :=
  negb (is_observed (effective_vcpu_count e)) && negb (is_observed (effective_memory_mib e)) && negb (is_observed (effective_storage_mib e)).

(** * The effective network *)

Inductive NetworkAttachment : Type := Detached | Attached.
Inductive PortActivationClass : Type := NotApplicable | AtomicSocketHandoff | VerifiedRuntimeRebind.

#[export] Instance PortActivationClass_eq_dec : EqDecision PortActivationClass.
Proof. solve_decision. Defined.

Definition MAX_ASSIGNED_ADDRESSES : nat := 16.

Record AssignedAddress : Type := mkAssignedAddress { assigned_address : IpAddr; assigned_prefix_length : Z }.

#[export] Instance AssignedAddress_eq_dec : EqDecision AssignedAddress.
Proof. solve_decision. Defined.

Definition assigned_new (address : IpAddr) (prefix_length : Z) : Result AssignedAddress ValidationError :=
  let prefix_is_valid := match address with IpAddr_V4 _ => prefix_length <=? 32 | IpAddr_V6 _ => prefix_length <=? 128 end in
  let unusable := match address with
                  | IpAddr_V4 a => ipv4_is_unspecified a || ipv4_is_multicast a
                  | IpAddr_V6 a => ipv6_is_unspecified a || ipv6_is_multicast a
                  end in
  if negb prefix_is_valid || unusable then Err InvalidNetworkPolicy else Ok (mkAssignedAddress address prefix_length).

Record EffectivePortPublication : Type := mkEffectivePort {
  eport_bind : HostBind;
  eport_host_port : Z;
  eport_guest_port : Z;
  eport_protocol : TransportProtocol
}.

#[export] Instance EffectivePortPublication_eq_dec : EqDecision EffectivePortPublication.
Proof. solve_decision. Defined.

Definition effective_port_new (bind : HostBind) (host_port guest_port : Z) (protocol : TransportProtocol) :
    Result EffectivePortPublication ValidationError :=
  let? _ := publication_new bind (host_port_from_u16 host_port) guest_port protocol in
  let? host_port := ok_or InvalidNetworkPolicy (non_zero_u16 host_port) in
  let? guest_port := ok_or InvalidNetworkPolicy (non_zero_u16 guest_port) in
  Ok (mkEffectivePort bind host_port guest_port protocol).

Record EffectiveNetwork : Type := mkEffectiveNetwork {
  net_attachment : Observation NetworkAttachment;
  net_egress : Observation EgressPolicy;
  net_dns : Observation DnsPolicy;
  net_addresses : Observation (list AssignedAddress);
  net_published_ports : Observation (list EffectivePortPublication);
  net_port_activation : Observation PortActivationClass
}.

Definition egress_matches (observed : Observation EgressPolicy) (requested : EgressPolicy) : bool :=
  bool_decide (requested = Egress_Unspecified) || bool_decide (observed = Observed requested).

Definition dns_matches (observed : Observation DnsPolicy) (requested : DnsPolicy) : bool :=
  bool_decide (requested = Dns_Unspecified) || bool_decide (observed = Observed requested).

Definition publication_served (effective : EffectivePortPublication) (request : PortPublication) : bool :=
  bool_decide (eport_bind effective = pub_bind request) && (eport_guest_port effective =? pub_guest_port request) &&
  bool_decide (eport_protocol effective = pub_protocol request) &&
  match host_port_requested (pub_host_port request) with None => true | Some port => eport_host_port effective =? port end.

Definition publications_match (observed : Observation (list EffectivePortPublication)) (requested : list PortPublication) : bool :=
  match observed with
  | Unavailable _ => false
  | Observed observed =>
      (length observed =? length requested)%nat &&
      forallb (fun request => existsb (fun effective => publication_served effective request) observed) requested
  end.

Definition requested_activation_matches (observed : Observation PortActivationClass) (requested : list PortPublication) : bool :=
  if bool_decide (requested = []) then bool_decide (observed = Observed NotApplicable)
  else bool_decide (observed = Observed AtomicSocketHandoff) || bool_decide (observed = Observed VerifiedRuntimeRebind).

Definition activation_matches_publications (publications : Observation (list EffectivePortPublication))
    (activation : Observation PortActivationClass) : bool :=
  match publications, activation with
  | Observed values, Observed NotApplicable => bool_decide (values = [])
  | Observed values, Observed _ => negb (bool_decide (values = []))
  | Unavailable _, Unavailable _ => true
  | _, _ => false
  end.

(** Every mapping against those after it. *)
Fixpoint endpoint_collision (publications : list EffectivePortPublication) : bool :=
  match publications with
  | [] => false
  | first :: rest =>
      existsb (fun other => (eport_host_port first =? eport_host_port other) &&
                            bool_decide (eport_protocol first = eport_protocol other) &&
                            conflicts (eport_bind first) (eport_bind other)) rest || endpoint_collision rest
  end.

(** [windows(2).any(pair[0] == pair[1])] *)
Fixpoint adjacent_equal {A} `{!EqDecision A} (l : list A) : bool :=
  match l with
  | x :: ((y :: _) as rest) => bool_decide (x = y) || adjacent_equal rest
  | _ => false
  end.

Definition assigned_key (a : AssignedAddress) : list Z := ip_key (assigned_address a) ++ [assigned_prefix_length a].

Definition eport_key (p : EffectivePortPublication) : list Z :=
  bind_key (eport_bind p) ++ [eport_host_port p; eport_guest_port p; match eport_protocol p with Tcp => 0 | Udp => 1 end].

Definition observation_map {A B} (f : A -> B) (o : Observation A) : Observation B :=
  match o with Observed a => Observed (f a) | Unavailable why => Unavailable why end.

Definition effective_network_new (attachment : Observation NetworkAttachment) (egress : Observation EgressPolicy)
    (dns : Observation DnsPolicy) (addresses : Observation (list AssignedAddress))
    (published_ports : Observation (list EffectivePortPublication)) (port_activation : Observation PortActivationClass) :
    Result EffectiveNetwork ValidationError :=
  let addresses := observation_map (sort_on assigned_key) addresses in
  let published_ports := observation_map (sort_on eport_key) published_ports in
  if bool_decide (egress = Observed Egress_Unspecified) || bool_decide (dns = Observed Dns_Unspecified) then Err InvalidNetworkPolicy
  else if match addresses with
          | Observed values => (MAX_ASSIGNED_ADDRESSES <? length values)%nat || adjacent_equal values
          | Unavailable _ => false
          end then Err InvalidNetworkPolicy
  else if match published_ports with
          | Observed values => (MAX_PORT_PUBLICATIONS <? length values)%nat || adjacent_equal values || endpoint_collision values
          | Unavailable _ => false
          end then Err InvalidNetworkPolicy
  else if negb (activation_matches_publications published_ports port_activation) then Err InvalidNetworkPolicy
  else Ok (mkEffectiveNetwork attachment egress dns addresses published_ports port_activation).

Definition network_unavailable (reason : ObservationUnavailable) : EffectiveNetwork :=
  mkEffectiveNetwork (Unavailable reason) (Unavailable reason) (Unavailable reason) (Unavailable reason) (Unavailable reason) (Unavailable reason).

Definition network_matches_request (n : EffectiveNetwork) (requested : NetworkPolicy) : bool :=
  egress_matches (net_egress n) (policy_egress requested) && dns_matches (net_dns n) (policy_dns requested) &&
  publications_match (net_published_ports n) (policy_published_ports requested) &&
  requested_activation_matches (net_port_activation n) (policy_published_ports requested).

Definition network_all_unavailable (n : EffectiveNetwork) : bool :=
  negb (is_observed (net_attachment n)) && negb (is_observed (net_egress n)) && negb (is_observed (net_dns n)) &&
  negb (is_observed (net_addresses n)) && negb (is_observed (net_published_ports n)) && negb (is_observed (net_port_activation n)).

(** * Cleanup *)

Inductive CleanupDisposition : Type := Cleanup_Complete | Cleanup_Incomplete | Cleanup_NotOwned | Cleanup_UnsupportedVerification.
Inductive CleanupMethod : Type := Method_NotApplicable | Method_Graceful | Method_Forced | Method_GracefulThenForced | Method_Unavailable.

Record NetworkCleanupEvidence : Type := mkNetworkCleanup {
  nc_lease : CleanupDisposition;
  nc_runtime_attachment : CleanupDisposition;
  nc_address_leases : CleanupDisposition;
  nc_egress_policy : CleanupDisposition;
  nc_dns_policy : CleanupDisposition;
  nc_proxy_policy : CleanupDisposition;
  nc_ingress_bindings : CleanupDisposition
}.

Definition cleanup_uniform (d : CleanupDisposition) : NetworkCleanupEvidence := mkNetworkCleanup d d d d d d d.

Definition cleanup_terminal (d : CleanupDisposition) : bool :=
  match d with Cleanup_Complete | Cleanup_NotOwned => true | _ => false end.

Definition disposition_not_owned (d : CleanupDisposition) : bool := match d with Cleanup_NotOwned => true | _ => false end.

Definition network_dispositions (n : NetworkCleanupEvidence) : list CleanupDisposition :=
  [nc_lease n; nc_runtime_attachment n; nc_address_leases n; nc_egress_policy n; nc_dns_policy n; nc_proxy_policy n; nc_ingress_bindings n].

Definition network_cleanup_is_complete (n : NetworkCleanupEvidence) : bool := forallb cleanup_terminal (network_dispositions n).
Definition network_cleanup_all_not_owned (n : NetworkCleanupEvidence) : bool := forallb disposition_not_owned (network_dispositions n).

Record CleanupEvidence : Type := mkCleanupEvidence {
  cleanup_method : CleanupMethod;
  cleanup_machine : CleanupDisposition;
  cleanup_memory : CleanupDisposition;
  cleanup_storage : CleanupDisposition;
  cleanup_network : NetworkCleanupEvidence;
  cleanup_guest_authority : CleanupDisposition
}.

Definition cleanup_new (machine memory storage network guest_authority : CleanupDisposition) : CleanupEvidence :=
  mkCleanupEvidence Method_Unavailable machine memory storage (cleanup_uniform network) guest_authority.

Definition with_method (m : CleanupMethod) (c : CleanupEvidence) : CleanupEvidence :=
  mkCleanupEvidence m (cleanup_machine c) (cleanup_memory c) (cleanup_storage c) (cleanup_network c) (cleanup_guest_authority c).

Definition complete_owned_machine : CleanupEvidence :=
  cleanup_new Cleanup_Complete Cleanup_Complete Cleanup_Complete Cleanup_Complete Cleanup_Complete.
Definition cleanup_not_owned : CleanupEvidence :=
  with_method Method_NotApplicable (cleanup_new Cleanup_NotOwned Cleanup_NotOwned Cleanup_NotOwned Cleanup_NotOwned Cleanup_NotOwned).
Definition incomplete_owned_machine : CleanupEvidence :=
  cleanup_new Cleanup_Incomplete Cleanup_Incomplete Cleanup_Incomplete Cleanup_Incomplete Cleanup_Incomplete.

Definition cleanup_is_complete (c : CleanupEvidence) : bool :=
  cleanup_terminal (cleanup_machine c) && cleanup_terminal (cleanup_memory c) && cleanup_terminal (cleanup_storage c) &&
  network_cleanup_is_complete (cleanup_network c) && cleanup_terminal (cleanup_guest_authority c).

Definition cleanup_all_not_owned (c : CleanupEvidence) : bool :=
  match cleanup_method c with Method_NotApplicable => true | _ => false end &&
  disposition_not_owned (cleanup_machine c) && disposition_not_owned (cleanup_memory c) && disposition_not_owned (cleanup_storage c) &&
  network_cleanup_all_not_owned (cleanup_network c) && disposition_not_owned (cleanup_guest_authority c).

(** * Output *)

Record ObservedOutput : Type := mkObservedOutput {
  observed_stdout : bytes;
  observed_stdout_bytes : Z;
  observed_stderr : bytes;
  observed_stderr_bytes : Z
}.

Record CapturedOutput : Type := mkCapturedOutput { captured_stdout : bytes; captured_stderr : bytes }.

Record StreamMetadata : Type := mkStreamMetadata {
  stream_captured_bytes : Z;
  stream_observed_bytes : Z;
  stream_truncated : bool;
  stream_sha256 : bytes
}.

Record OutputMetadata : Type := mkOutputMetadata { output_stdout : StreamMetadata; output_stderr : StreamMetadata }.

Definition valid_sha256 (value : bytes) : bool :=
  is_some_and (fun hex => (length hex =? 64)%nat && forallb is_lower_hex hex) (text_strip_prefix (str "sha256:") value).

Definition stream_is_valid (s : StreamMetadata) : bool :=
  (stream_captured_bytes s <=? stream_observed_bytes s) &&
  Bool.eqb (stream_truncated s) (stream_captured_bytes s <? stream_observed_bytes s) && valid_sha256 (stream_sha256 s).

Definition output_is_valid (o : OutputMetadata) : bool := stream_is_valid (output_stdout o) && stream_is_valid (output_stderr o).

(** * Receipts *)

Definition RECEIPT_SCHEMA_VERSION : Z := 3.

(** [CARGO_PKG_VERSION] of the workspace. *)
Definition SOMA_VERSION : bytes := str "1.0.0-alpha.1".

Record ExecutionReceipt : Type := mkReceipt {
  receipt_schema_version : Z;
  receipt_soma_version : bytes;
  receipt_evidence_class : EvidenceClass;
  receipt_operation : OperationKind;
  receipt_operation_id : OperationId;
  receipt_instance_id : InstanceId;
  receipt_machine_name : option MachineName;
  receipt_request_fingerprint : RequestFingerprint;
  receipt_workload : WorkloadEvidence;
  receipt_backend : BackendKind;
  receipt_isolation : Observation IsolationClass;
  receipt_preparation : Observation PreparationClass;
  receipt_digest_binding : Observation DigestBinding;
  receipt_requested_shape : MachineShape;
  receipt_effective_shape : EffectiveShape;
  receipt_effective_network : EffectiveNetwork;
  receipt_milestones : list Milestone;
  receipt_terminal_status : TerminalStatus;
  receipt_output : Observation OutputMetadata;
  receipt_cleanup : CleanupEvidence;
  receipt_measurement : MeasurementBoundary
}.

(** [ExecutionReceipt::new] *)
Definition receipt_new : OperationKind -> OperationId -> InstanceId -> option MachineName -> RequestFingerprint -> WorkloadEvidence ->
    BackendKind -> Observation IsolationClass -> Observation PreparationClass -> Observation DigestBinding -> MachineShape ->
    EffectiveShape -> EffectiveNetwork -> list Milestone -> TerminalStatus -> Observation OutputMetadata -> CleanupEvidence ->
    MeasurementBoundary -> ExecutionReceipt :=
  mkReceipt RECEIPT_SCHEMA_VERSION SOMA_VERSION BasicBackendReported.

Definition milestone_allowed (operation : OperationKind) (kind : MilestoneKind) : bool :=
  match operation with
  | Op_Run => negb (bool_decide (kind = M_Inspected))
  | Op_Launch =>
      match kind with
      | M_Accepted | M_WorkloadResolved | M_Admitted | M_MachineLaunched | M_Ready | M_FailureObserved | M_CleanupStarted
      | M_CleanupFinished => true
      | _ => false
      end
  | Op_Execute =>
      match kind with
      | M_Accepted | M_CommandStarted | M_CommandFinished | M_FailureObserved | M_CleanupStarted | M_CleanupFinished => true
      | _ => false
      end
  | Op_Stop | Op_Destroy =>
      match kind with M_Accepted | M_CleanupStarted | M_CleanupFinished | M_FailureObserved => true | _ => false end
  | Op_Inspect => match kind with M_Accepted | M_Inspected | M_FailureObserved => true | _ => false end
  end.

Definition milestone_rank (kind : MilestoneKind) : Z :=
  match kind with
  | M_Accepted => 0 | M_WorkloadResolved | M_Inspected => 1 | M_Admitted => 2 | M_MachineLaunched => 3 | M_Ready => 4
  | M_CommandStarted => 5 | M_CommandFinished => 6 | M_CleanupStarted => 7 | M_CleanupFinished => 8 | M_FailureObserved => 9
  end.

(** The loop of [allowed_milestones]: the kinds seen so far stand for the table of slots. *)
Fixpoint milestones_allowed_from (operation : OperationKind) (index : nat) (seen : list MilestoneKind) (last_rank : Z) (failed : bool)
    (l : list Milestone) : bool :=
  match l with
  | [] => true
  | m :: l =>
      let kind := milestone_kind m in
      if bool_decide (kind ∈ seen) || negb (Bool.eqb (index =? 0)%nat (bool_decide (kind = M_Accepted))) || negb (milestone_allowed operation kind)
      then false
      else if bool_decide (kind = M_FailureObserved) then milestones_allowed_from operation (S index) (kind :: seen) last_rank true l
      else if failed && negb (bool_decide (kind = M_CleanupStarted) || bool_decide (kind = M_CleanupFinished)) then false
      else if milestone_rank kind <? last_rank then false
      else milestones_allowed_from operation (S index) (kind :: seen) (milestone_rank kind) failed l
  end.

Definition allowed_milestones (r : ExecutionReceipt) : bool :=
  if (10 <? length (receipt_milestones r))%nat then false
  else milestones_allowed_from (receipt_operation r) 0 [] 0 false (receipt_milestones r).

Definition receipt_has (r : ExecutionReceipt) (kind : MilestoneKind) : bool :=
  existsb (fun m => bool_decide (milestone_kind m = kind)) (receipt_milestones r).

Definition phase_dependencies_hold (r : ExecutionReceipt) : bool :=
  let has := receipt_has r in
  let is_run := bool_decide (receipt_operation r = Op_Run) in
  let is_launch := bool_decide (receipt_operation r = Op_Launch) in
  (negb (has M_Admitted) || has M_WorkloadResolved) && (negb (has M_MachineLaunched) || has M_Admitted) &&
  (negb (has M_Ready) || has M_MachineLaunched) && (negb (has M_CommandStarted) || negb is_run || has M_Ready) &&
  (negb (has M_CommandFinished) || has M_CommandStarted) &&
  (negb (has M_CleanupStarted) || negb (is_run || is_launch) || has M_WorkloadResolved) &&
  (negb (has M_CleanupFinished) || has M_CleanupStarted).

Definition has_launch_chain (r : ExecutionReceipt) : bool :=
  receipt_has r M_WorkloadResolved && receipt_has r M_Admitted && receipt_has r M_MachineLaunched && receipt_has r M_Ready.

Definition has_command_chain (r : ExecutionReceipt) : bool := receipt_has r M_CommandStarted && receipt_has r M_CommandFinished.

Definition command_chain_holds (r : ExecutionReceipt) : bool :=
  match receipt_operation r with
  | Op_Run => has_launch_chain r && has_command_chain r
  | Op_Execute => has_command_chain r
  | _ => false
  end.

Definition terminal_is_consistent (r : ExecutionReceipt) : bool :=
  let operation := receipt_operation r in
  let cleanup := receipt_cleanup r in
  match receipt_terminal_status r with
  | Status_Ready => bool_decide (operation = Op_Launch) && has_launch_chain r && cleanup_all_not_owned cleanup
  | Status_Stopped =>
      bool_decide (operation = Op_Stop) && receipt_has r M_CleanupFinished && cleanup_is_complete cleanup &&
      match cleanup_method cleanup with Method_Graceful | Method_GracefulThenForced | Method_NotApplicable => true | _ => false end
  | Status_Destroyed =>
      bool_decide (operation = Op_Destroy) && receipt_has r M_CleanupFinished && cleanup_is_complete cleanup &&
      match cleanup_method cleanup with Method_Forced | Method_NotApplicable => true | _ => false end
  | Status_Inspected _ => bool_decide (operation = Op_Inspect) && receipt_has r M_Inspected && cleanup_all_not_owned cleanup
  | Status_Exited _ => command_chain_holds r
  | Status_Signaled _ | Status_TimedOut | Status_OutputLimitExceeded => command_chain_holds r && negb (cleanup_all_not_owned cleanup)
  | Status_Failed => true
  end.

Definition workload_is_consistent (r : ExecutionReceipt) : bool :=
  let resolved := match receipt_workload r with Workload_Resolved _ => true | _ => false end in
  let identity_is_consistent :=
    match receipt_workload r, receipt_digest_binding r with
    | Workload_Unresolved _, Observed _ => false
    | Workload_Unresolved _, Unavailable _ =>
        shape_all_unavailable (receipt_effective_shape r) && network_all_unavailable (receipt_effective_network r)
    | Workload_Resolved _, Observed _ => is_observed (receipt_isolation r) && is_observed (receipt_preparation r)
    | Workload_Resolved _, Unavailable _ => true
    end in
  identity_is_consistent &&
  (negb (bool_decide (receipt_operation r = Op_Run) || bool_decide (receipt_operation r = Op_Launch)) ||
   Bool.eqb (receipt_has r M_WorkloadResolved) resolved).

Definition measurement_is_consistent (r : ExecutionReceipt) : bool :=
  match receipt_operation r, measurement_class (receipt_measurement r) with
  | Op_Run, FacadeRunEndToEnd | Op_Launch, FacadeManagedLaunch | Op_Execute, FacadeManagedCommand | Op_Stop, FacadeManagedStop
  | Op_Inspect, FacadeManagedInspect | Op_Destroy, FacadeManagedDestroy => true
  | _, _ => false
  end.

(** [windows(2).all(pair[0] <= pair[1])] *)
Fixpoint non_decreasing (l : list Z) : bool :=
  match l with
  | x :: ((y :: _) as rest) => (x <=? y) && non_decreasing rest
  | _ => true
  end.

Definition receipt_validate (r : ExecutionReceipt) : bool :=
  (receipt_schema_version r =? RECEIPT_SCHEMA_VERSION) && negb (bool_decide (receipt_soma_version r = [])) &&
  bool_decide (head (receipt_milestones r) = Some (mkMilestone M_Accepted 0)) &&
  non_decreasing (milestone_elapsed_ns <$> receipt_milestones r) && allowed_milestones r && phase_dependencies_hold r &&
  terminal_is_consistent r && workload_is_consistent r &&
  shape_matches_request (receipt_effective_shape r) (receipt_requested_shape r) &&
  network_matches_request (receipt_effective_network r) (shape_capabilities (receipt_requested_shape r)) &&
  measurement_is_consistent r &&
  match receipt_output r with
  | Observed output =>
      match receipt_operation r with Op_Run | Op_Execute => output_is_valid output | _ => false end
  | Unavailable _ => true
  end.
