(* ===== verification/EngineState.v ===== *)
(** The durable state of the engine ([soma] state_store.rs, state_store/memory.rs,
    engine/machine_state/): the store of records by Instance and revision, the machine a record
    holds and its phases, the checks a record passes when it is written and read, and the text of
    a completed execution with its round trip. *)

From S2P Require Import Prelude Bytes Wire NetPolicy Portable Fingerprint FingerprintProps Evidence.
From Stdlib Require Import String.
From stdpp Require Import strings.
From stdpp Require Import options.
Local Open Scope string_scope.
Local Open Scope list_scope.
Local Open Scope Z_scope.

(** * The store *)

Definition MAX_STATE_RECORD_BYTES : Z := 256 * 1024.

Inductive StateStoreFailureKind : Type :=
| Store_InvalidRecord | Store_Conflict | Store_Unavailable | Store_Corrupt | Store_UnsupportedVersion | Store_CapacityExceeded.

#[export] Instance StateStoreFailureKind_eq_dec : EqDecision StateStoreFailureKind.
Proof. solve_decision. Defined.

Notation StateRecord := bytes (only parsing).
Notation StateRevision := Z (only parsing).

Definition record_from_bytes (b : bytes) : Result StateRecord StateStoreFailureKind :=
  if bool_decide (b = []) || (Z.of_nat (length b) >? MAX_STATE_RECORD_BYTES) then Err Store_InvalidRecord else Ok b.

Definition REVISION_INITIAL : StateRevision := 1.

Definition revision_new (value : Z) : Result StateRevision StateStoreFailureKind :=
  if value =? 0 then Err Store_InvalidRecord else Ok value.

Definition revision_next (r : StateRevision) : Result StateRevision StateStoreFailureKind :=
  if r + 1 >? U64_MAX then Err Store_CapacityExceeded else Ok (r + 1).

Record StoredState : Type := mkStoredState { stored_revision : StateRevision; stored_record : StateRecord }.

(** [MemoryStateStore]: the map under its lock; [poisoned] when a holder of the lock panicked. *)
Record MemoryStateStore : Type := mkMemoryStore {
  memory_poisoned : bool;
  memory_records : gmap InstanceId StoredState
}.

Definition memory_new : MemoryStateStore := mkMemoryStore false ∅.

Definition memory_put (i : InstanceId) (st : StoredState) (s : MemoryStateStore) : MemoryStateStore :=
  mkMemoryStore (memory_poisoned s) (<[i := st]> (memory_records s)).

Definition memory_create (i : InstanceId) (record : StateRecord) : ST MemoryStateStore StateStoreFailureKind StateRevision :=
  fun s =>
    if memory_poisoned s then (s, Err Store_Unavailable)
    else match memory_records s !! i with
         | Some _ => (s, Err Store_Conflict)
         | None => (memory_put i (mkStoredState REVISION_INITIAL record) s, Ok REVISION_INITIAL)
         end.

Definition memory_load (i : InstanceId) : ST MemoryStateStore StateStoreFailureKind (option StoredState) :=
  fun s => if memory_poisoned s then (s, Err Store_Unavailable) else (s, Ok (memory_records s !! i)).

Definition memory_compare_exchange (i : InstanceId) (expected : StateRevision) (replacement : StateRecord) :
    ST MemoryStateStore StateStoreFailureKind StateRevision :=
  fun s =>
    if memory_poisoned s then (s, Err Store_Unavailable)
    else match memory_records s !! i with
         | None => (s, Err Store_Conflict)
         | Some current =>
             if negb (stored_revision current =? expected) then (s, Err Store_Conflict)
             else match revision_next expected with
                  | Err e => (s, Err e)
                  | Ok revision => (memory_put i (mkStoredState revision replacement) s, Ok revision)
                  end
         end.

(** * Machines *)

Definition STATE_SCHEMA_VERSION : Z := 2.
Definition MAX_EXECUTION_TOMBSTONES : nat := 1024.

Record LaunchIntent : Type := mkLaunchIntent {
  intent_operation_id : OperationId;
  intent_machine_name : option MachineName;
  intent_workload : WorkloadIdentity;
  intent_requested_shape : MachineShape;
  intent_backend : BackendKind;
  intent_request_fingerprint : RequestFingerprint
}.

#[export] Instance LaunchIntent_eq_dec : EqDecision LaunchIntent.
Proof. solve_decision. Defined.

Record ExecutionTombstone : Type := mkTombstone {
  tomb_operation_id : OperationId;
  tomb_request_fingerprint : RequestFingerprint;
  tomb_terminal_status : TerminalStatus;
  tomb_receipt_digest : RequestFingerprint
}.

Record ActiveMachine : Type := mkActiveMachine {
  active_launch_receipt : ExecutionReceipt;
  active_completed_executions : list ExecutionTombstone
}.

Inductive TerminalBasis : Type :=
| Basis_Launch (intent : LaunchIntent)
| Basis_Active (active : ActiveMachine).

Inductive DurablePhase : Type :=
| Phase_Launching (intent : LaunchIntent)
| Phase_Active (active : ActiveMachine)
| Phase_Executing (active : ActiveMachine) (operation_id : OperationId) (request_fingerprint : RequestFingerprint)
| Phase_Terminating (active : ActiveMachine) (operation : OperationKind) (operation_id : OperationId) (request_fingerprint : RequestFingerprint)
| Phase_Terminal (basis : TerminalBasis) (operation : OperationKind) (operation_id : OperationId)
    (request_fingerprint : RequestFingerprint) (receipt : ExecutionReceipt).

Record DurableMachine : Type := mkDurableMachine {
  machine_schema_version : Z;
  machine_instance_id : InstanceId;
  machine_phase : DurablePhase
}.

Record VersionedMachine : Type := mkVersionedMachine { versioned_revision : StateRevision; versioned_machine : DurableMachine }.

Definition machine_launching (i : InstanceId) (intent : LaunchIntent) : DurableMachine :=
  mkDurableMachine STATE_SCHEMA_VERSION i (Phase_Launching intent).

Definition machine_active (i : InstanceId) (launch_receipt : ExecutionReceipt) : DurableMachine :=
  mkDurableMachine STATE_SCHEMA_VERSION i (Phase_Active (mkActiveMachine launch_receipt [])).

(** [durable_with_phase] of the execution and of the termination, and [durable_with_terminal]:
    an active machine whose phase is replaced. *)
Definition durable_with_phase (i : InstanceId) (phase : DurablePhase) : DurableMachine :=
  mkDurableMachine STATE_SCHEMA_VERSION i phase.

Definition is_command_outcome (s : TerminalStatus) : bool :=
  match s with Status_Exited _ | Status_Signaled _ => true | _ => false end.

(** The loop over the tombstones: the operations seen so far. *)
Fixpoint tombstones_valid (seen : list OperationId) (l : list ExecutionTombstone) : bool :=
  match l with
  | [] => true
  | t :: l =>
      if bool_decide (tomb_operation_id t ∈ seen) || negb (is_command_outcome (tomb_terminal_status t)) then false
      else tombstones_valid (tomb_operation_id t :: seen) l
  end.

Definition active_validate (a : ActiveMachine) (i : InstanceId) : Result unit StateStoreFailureKind :=
  let r := active_launch_receipt a in
  if negb (bool_decide (receipt_operation r = Op_Launch)) || negb (bool_decide (receipt_instance_id r = i)) ||
     negb (bool_decide (receipt_terminal_status r = Status_Ready)) ||
     (MAX_EXECUTION_TOMBSTONES <? length (active_completed_executions a))%nat
  then Err Store_Corrupt
  else if tombstones_valid [] (active_completed_executions a) then Ok tt else Err Store_Corrupt.

Definition basis_validate (b : TerminalBasis) (i : InstanceId) : Result unit StateStoreFailureKind :=
  match b with Basis_Launch _ => Ok tt | Basis_Active active => active_validate active i end.

Definition machine_validate (m : DurableMachine) : Result unit StateStoreFailureKind :=
  let i := machine_instance_id m in
  match machine_phase m with
  | Phase_Launching _ => Ok tt
  | Phase_Active active | Phase_Executing active _ _ => active_validate active i
  | Phase_Terminating active operation _ _ =>
      match operation with Op_Stop | Op_Destroy => active_validate active i | _ => Err Store_Corrupt end
  | Phase_Terminal basis operation operation_id request_fingerprint receipt =>
      let? _ := basis_validate basis i in
      let matches := match basis, operation with
                     | Basis_Launch _, Op_Launch | Basis_Active _, (Op_Stop | Op_Destroy | Op_Execute) => true
                     | _, _ => false
                     end in
      if negb matches || negb (bool_decide (receipt_operation receipt = operation)) ||
         negb (bool_decide (receipt_operation_id receipt = operation_id)) || negb (bool_decide (receipt_instance_id receipt = i)) ||
         negb (bool_decide (receipt_request_fingerprint receipt = request_fingerprint))
      then Err Store_Corrupt else Ok tt
  end.

Definition active_workload (a : ActiveMachine) : option WorkloadIdentity :=
  match receipt_workload (active_launch_receipt a) with Workload_Resolved identity => Some identity | Workload_Unresolved _ => None end.

Definition active_machine_name (a : ActiveMachine) : option MachineName := receipt_machine_name (active_launch_receipt a).
Definition active_shape (a : ActiveMachine) : MachineShape := receipt_requested_shape (active_launch_receipt a).
Definition active_backend (a : ActiveMachine) : BackendKind := receipt_backend (active_launch_receipt a).

Definition active_completed (a : ActiveMachine) (operation_id : OperationId) : option ExecutionTombstone :=
  List.find (fun t => bool_decide (tomb_operation_id t = operation_id)) (active_completed_executions a).

(** * Records *)

(** The JSON of a machine: how it is written, and how its fields are read back.  The custom
    readers of receipts and of the machine itself are not in here: they are [machine_from_slice]. *)
Class Json := {
  json_to_vec : DurableMachine -> option bytes;
  json_schema_version : bytes -> option Z;
  json_machine : bytes -> option DurableMachine;
  json_receipt : ExecutionReceipt -> bytes
}.

(** What is written is read back. *)
Class JsonLaws `{Json} : Prop := {
  json_roundtrip : forall m b, json_to_vec m = Some b ->
    json_machine b = Some m /\ json_schema_version b = Some (machine_schema_version m)
}.

(** The receipts a machine holds; each is validated as it is read. *)
Definition phase_receipts (p : DurablePhase) : list ExecutionReceipt :=
  match p with
  | Phase_Launching _ => []
  | Phase_Active active | Phase_Executing active _ _ | Phase_Terminating active _ _ _ => [active_launch_receipt active]
  | Phase_Terminal basis _ _ _ receipt =>
      match basis with Basis_Launch _ => [] | Basis_Active active => [active_launch_receipt active] end ++ [receipt]
  end.

Section records.
Context `{Json} (sha256 : bytes -> bytes).

(** [DurableMachine::deserialize] over [serde_json::from_slice] *)
Definition machine_from_slice (b : bytes) : option DurableMachine :=
  match json_machine b with
  | None => None
  | Some m =>
      if forallb receipt_validate (phase_receipts (machine_phase m)) && (machine_schema_version m =? STATE_SCHEMA_VERSION) &&
         match machine_validate m with Ok _ => true | Err _ => false end
      then Some m else None
  end.

Definition machine_encode (m : DurableMachine) : Result StateRecord StateStoreFailureKind :=
  let? _ := machine_validate m in
  let? b := ok_or Store_Corrupt (json_to_vec m) in
  record_from_bytes b.

Definition machine_decode (stored : StoredState) (expected_instance : InstanceId) : Result VersionedMachine StateStoreFailureKind :=
  let? schema := ok_or Store_Corrupt (json_schema_version (stored_record stored)) in
  if negb (schema =? STATE_SCHEMA_VERSION) then Err Store_UnsupportedVersion
  else
    let? machine := ok_or Store_Corrupt (machine_from_slice (stored_record stored)) in
    if negb (bool_decide (machine_instance_id machine = expected_instance)) then Err Store_Corrupt
    else Ok (mkVersionedMachine (stored_revision stored) machine).

Definition tombstone_from_receipt (r : ExecutionReceipt) : Result ExecutionTombstone StateStoreFailureKind :=
  if negb (bool_decide (receipt_operation r = Op_Execute)) || negb (is_command_outcome (receipt_terminal_status r)) then Err Store_Corrupt
  else Ok (mkTombstone (receipt_operation_id r) (receipt_request_fingerprint r) (receipt_terminal_status r)
             (digest_bytes sha256 (json_receipt r))).
End records.

(** The text of a completed execution ([soma] engine/machine_state/tombstone.rs): one string of five
    fields, and what is read back from it. *)

From Stdlib Require Import String.
From stdpp Require Import strings.
Local Open Scope string_scope.
Local Open Scope list_scope.
Local Open Scope Z_scope.

(** [i32::cast_unsigned] and [u32::cast_signed] *)
Definition cast_unsigned (n : Z) : Z := n mod 2 ^ 32.
Definition cast_signed (n : Z) : Z := if n <? 2 ^ 31 then n else n - 2 ^ 32.

(** [{:08x}] of a [u32] *)
Definition hex08 (n : Z) : bytes := hex (be_bytes 4 n).

(** The five fields of the text; [None] where the code is unreachable or expects a prefix. *)
Definition digest_hex (value : RequestFingerprint) : option bytes := text_strip_prefix (str "sha256:") value.

Definition encode_status (s : TerminalStatus) : option bytes :=
  match s with
  | Status_Exited code => Some (str "e" ++ hex08 (cast_unsigned code))
  | Status_Signaled None => Some (str "sn")
  | Status_Signaled (Some signal) => Some (str "s" ++ hex08 (cast_unsigned signal))
  | _ => None
  end.

Definition tombstone_encode (t : ExecutionTombstone) : option bytes :=
  status ← encode_status (tomb_terminal_status t);
  request ← digest_hex (tomb_request_fingerprint t);
  receipt ← digest_hex (tomb_receipt_digest t);
  Some (join_on 58 [str "v1"; tomb_operation_id t; request; receipt; status]).

Definition parse_digest_hex (value : bytes) : Result RequestFingerprint StateStoreFailureKind :=
  map_err (fun _ => Store_Corrupt) (fingerprint_new (str "sha256:" ++ value)).

(** [split_at_checked(1)] is refused for an empty text and within a character. *)
Definition parse_terminal (value : bytes) : Result TerminalStatus StateStoreFailureKind :=
  if bool_decide (value = str "sn") then Ok (Status_Signaled None)
  else match value with
       | [] => Err Store_Corrupt
       | kind :: encoded =>
           if 128 <=? kind then Err Store_Corrupt
           else if negb (length encoded =? 8)%nat then Err Store_Corrupt
           else
             let? number := ok_or Store_Corrupt (from_str_radix 16 0 U32_MAX encoded) in
             if kind =? 101 then Ok (Status_Exited (cast_signed number))
             else if kind =? 115 then Ok (Status_Signaled (Some (cast_signed number))) else Err Store_Corrupt
       end.

Definition tombstone_decode (value : bytes) : Result ExecutionTombstone StateStoreFailureKind :=
  match split_char 58 value with
  | version :: fields =>
      if negb (bool_decide (version = str "v1")) then Err Store_Corrupt
      else match fields with
           | [] => Err Store_Corrupt
           | operation :: fields =>
               let? operation_id := map_err (fun _ => Store_Corrupt) (runtime_id_new operation) in
               match fields with
               | [] => Err Store_Corrupt
               | request :: fields =>
                   let? request_fingerprint := parse_digest_hex request in
                   match fields with
                   | [] => Err Store_Corrupt
                   | receipt :: fields =>
                       let? receipt_digest := parse_digest_hex receipt in
                       match fields with
                       | [] => Err Store_Corrupt
                       | status :: fields =>
                           let? terminal_status := parse_terminal status in
                           match fields with
                           | [] => Ok (mkTombstone operation_id request_fingerprint terminal_status receipt_digest)
                           | _ :: _ => Err Store_Corrupt
                           end
                       end
                   end
               end
           end
  | [] => Err Store_Corrupt
  end.

(** * Numbers *)

Lemma be_val_snoc l b : be_val (l ++ [b]) = be_val l * 256 + b.
Proof. unfold be_val. rewrite rev_unit. cbn [le_val]. lia. Qed.

Lemma parse_digits_app radix lo hi acc l m : parse_digits radix lo hi acc 1 (l ++ m) =
  match parse_digits radix lo hi acc 1 l with Some v => parse_digits radix lo hi v 1 m | None => None end.
Proof.
  revert acc. induction l as [ | b l IH]; intros acc; [done | ]. cbn [app parse_digits]. destruct (to_digit radix b); [ | done].
  destruct (_ && _); [apply IH | done].
Qed.

Lemma hex_app l m : hex (l ++ m) = hex l ++ hex m.
Proof. induction l as [ | b l IH]; [done | ]. cbn. by rewrite IH. Qed.

Lemma parse_hex hi l : all_bytes l -> be_val l <= hi -> parse_digits 16 0 hi 0 1 (hex l) = Some (be_val l).
Proof.
  induction l as [ | b l IH] using rev_ind; intros Hl Hle; [done | ]. apply Forall_app in Hl as [Hl Hb]. apply Forall_cons in Hb as [Hb _].
  rewrite be_val_snoc in *. pose proof (be_val_range l Hl) as Hr. unfold is_uint in Hr. destruct (nibbles b Hb) as (H1 & H2 & Heq).
  rewrite hex_app, parse_digits_app, IH by (done || lia). cbn [hex parse_digits]. rewrite !to_digit_hex_digit by done. cbv zeta.
  replace (0 <=? be_val l * 16 + 1 * Z.shiftr b 4) with true by lia. replace (be_val l * 16 + 1 * Z.shiftr b 4 <=? hi) with true by lia. cbn [andb].
  replace ((be_val l * 16 + 1 * Z.shiftr b 4) * 16 + 1 * Z.land b 15) with (be_val l * 256 + b) by lia.
  replace (0 <=? be_val l * 256 + b) with true by lia. by replace (be_val l * 256 + b <=? hi) with true by lia.
Qed.

Lemma hex08_read n : is_u32 n -> length (hex08 n) = 8%nat /\ from_str_radix 16 0 U32_MAX (hex08 n) = Some n.
Proof.
  intros Hn. unfold hex08. rewrite length_hex, length_be_bytes. split; [done | ].
  pose proof (be_bytes_all 4 n) as Hb. pose proof (be_val_bytes 4 n Hn) as Hv. pose proof (length_be_bytes 4 n) as Hlen.
  assert (parse_digits 16 0 U32_MAX 0 1 (hex (be_bytes 4 n)) = Some n) as Hp.
  { rewrite parse_hex, Hv; [done | done | ]. rewrite Hv. unfold U32_MAX, is_uint in *. lia. }
  destruct (be_bytes 4 n) as [ | b [ | c l]]; [done | done | ]. apply Forall_cons in Hb as [Hb _]. destruct (nibbles b Hb) as (H1 & H2 & _).
  pose proof (hex_digit_graphic _ H1) as Hg. cbn [hex] in *. unfold from_str_radix. rewrite Hp.
  assert ((hex_digit (Z.shiftr b 4) =? 43) = false) as -> by (unfold hex_digit; apply Z.eqb_neq; case_match; zbool; lia).
  by rewrite andb_false_r.
Qed.

Lemma cast_roundtrip n : - 2 ^ 31 <= n < 2 ^ 31 -> is_u32 (cast_unsigned n) /\ cast_signed (cast_unsigned n) = n.
Proof.
  intros Hn. unfold cast_unsigned, cast_signed, is_uint. pose proof (Z.mod_pos_bound n (2 ^ 32)). split; [lia | ].
  destruct (Z.leb_spec 0 n).
  - rewrite Z.mod_small by lia. by replace (n <? 2 ^ 31) with true by lia.
  - rewrite <- (Z_mod_plus_full n 1 (2 ^ 32)), Z.mod_small by lia. replace (n + 1 * 2 ^ 32 <? 2 ^ 31) with false by lia. lia.
Qed.

(** * The round trip *)

(** What the types of a tombstone and the checks of its making guarantee. *)
Definition tombstone_typed (t : ExecutionTombstone) : Prop :=
  runtime_id_new (tomb_operation_id t) = Ok (tomb_operation_id t) /\
  fingerprint_new (tomb_request_fingerprint t) = Ok (tomb_request_fingerprint t) /\
  fingerprint_new (tomb_receipt_digest t) = Ok (tomb_receipt_digest t) /\
  match tomb_terminal_status t with
  | Status_Exited n | Status_Signaled (Some n) => - 2 ^ 31 <= n < 2 ^ 31
  | Status_Signaled None => True
  | _ => False
  end.

Lemma lower_hex_no_colon l : forallb is_lower_hex l = true -> 58 ∉ l.
Proof. intros Hl Hin%list_elem_of_In. eapply forallb_forall in Hl; [ | exact Hin]. done. Qed.

Lemma fixed_hex_no_colon value n z : validate_fixed_hex value n z = Ok tt -> 58 ∉ value.
Proof.
  unfold validate_fixed_hex. destruct (_ || _) eqn:Hv; [done | ]. rewrite !orb_false_iff, !negb_false_iff in Hv. destruct Hv as [[_ Hv] _]. intros _.
  by apply lower_hex_no_colon.
Qed.

Lemma runtime_id_no_colon v : runtime_id_new v = Ok v -> 58 ∉ v.
Proof. unfold runtime_id_new. destruct (validate_fixed_hex v 32 true) as [[] | ] eqn:Hv; cbn; [intros _; by eapply fixed_hex_no_colon | done]. Qed.

Lemma fingerprint_parts v : fingerprint_new v = Ok v -> exists h, digest_hex v = Some h /\ v = str "sha256:" ++ h /\ 58 ∉ h.
Proof.
  unfold fingerprint_new, digest_hex. destruct (text_strip_prefix (str "sha256:") v) as [h | ] eqn:Hp; [ | done].
  destruct (validate_fixed_hex h 64 false) as [[] | ] eqn:Hv; cbn; [ | done]. intros _. exists h. split; [done | ]. split; [ | by eapply fixed_hex_no_colon].
  unfold text_strip_prefix in Hp. case_bool_decide as Ht; [ | done]. injection Hp as <-.
  transitivity (take (length (str "sha256:")) v ++ drop (length (str "sha256:")) v); [symmetry; apply take_drop | by rewrite Ht].
Qed.

Lemma hex08_lower n : forallb is_lower_hex (hex08 n) = true.
Proof. apply hex_lower, be_bytes_all. Qed.

Lemma status_roundtrip s : match s with
    | Status_Exited n | Status_Signaled (Some n) => - 2 ^ 31 <= n < 2 ^ 31 | Status_Signaled None => True | _ => False end ->
  exists text, encode_status s = Some text /\ 58 ∉ text /\ parse_terminal text = Ok s.
Proof.
  assert (forall k n, k = 101 \/ k = 115 -> - 2 ^ 31 <= n < 2 ^ 31 -> 58 ∉ k :: hex08 (cast_unsigned n) /\
    parse_terminal (k :: hex08 (cast_unsigned n)) = if k =? 101 then Ok (Status_Exited n) else Ok (Status_Signaled (Some n))) as Hnum.
  { intros k n Hk Hn. destruct (cast_roundtrip n Hn) as [Hu Hs]. destruct (hex08_read _ Hu) as [Hlen Hread]. split.
    - apply not_elem_of_cons. split; [lia | apply lower_hex_no_colon, hex08_lower].
    - unfold parse_terminal. rewrite bool_decide_eq_false_2 by (intros Heq; apply (f_equal length) in Heq; cbn [length] in Heq; rewrite Hlen in Heq; done).
      replace (128 <=? k) with false by lia. rewrite Hlen. cbn [Nat.eqb negb]. rewrite Hread. cbn [ok_or]. rewrite Hs. by destruct Hk as [-> | ->]. }
  destruct s as [n | [n | ] | | | | | | | ]; intros Hs; try done; (eexists; split; [reflexivity | ]).
  - by apply (Hnum 101 n); [left | ].
  - by apply (Hnum 115 n); [right | ].
  - split; [ | reflexivity]. by apply (bool_decide_unpack (58 ∉ _)).
Qed.

(** A completed execution that is remembered is remembered as it was: its text is written, for every operation,
    pair of digests and outcome, exit codes and signals of any sign included, and it is read back as the
    same tombstone. *)
Theorem tombstone_roundtrip t : tombstone_typed t -> exists text, tombstone_encode t = Some text /\ tombstone_decode text = Ok t.
Proof.
  destruct t as [op request status receipt]. intros (Hid & Hreq & Hrec & Hst). cbn in Hid, Hreq, Hrec, Hst.
  destruct (fingerprint_parts _ Hreq) as (h & Hh & Hheq & Hhc). destruct (fingerprint_parts _ Hrec) as (h' & Hh' & Hheq' & Hhc').
  destruct (status_roundtrip status Hst) as (text & Ht & Htc & Hparse).
  exists (join_on 58 [str "v1"; op; h; h'; text]). unfold tombstone_encode. cbn [tomb_operation_id tomb_request_fingerprint tomb_terminal_status tomb_receipt_digest].
  rewrite Ht, Hh, Hh'. split; [reflexivity | ]. unfold tombstone_decode. rewrite split_char_join; [ | done | ].
  - rewrite bool_decide_eq_true_2 by done. cbn [negb]. rewrite Hid. cbn [map_err]. unfold parse_digest_hex. rewrite <- Hheq, Hreq, <- Hheq', Hrec. cbn [map_err].
    by rewrite Hparse.
  - repeat constructor; [by apply (bool_decide_unpack (58 ∉ _)) | by apply runtime_id_no_colon | done | done | done].
Qed.

Definition demo_tombstone : ExecutionTombstone :=
  mkTombstone (hex (repeat 17 16)) (fingerprint_from_digest (repeat 1 32)) (Status_Exited (-1)) (fingerprint_from_digest (repeat 2 32)).

Lemma tombstone_roundtrip_witness : tombstone_typed demo_tombstone /\
  exists text, tombstone_encode demo_tombstone = Some text /\ tombstone_decode text = Ok demo_tombstone.
Proof.
  assert (Ht : tombstone_typed demo_tombstone).
  { split; [vm_compute; reflexivity | ]. split; [vm_compute; reflexivity | ]. split; [vm_compute; reflexivity | ]. cbn. lia. }
  split; [exact Ht | exact (tombstone_roundtrip demo_tombstone Ht)].
Defined.
