(* ===== verification/Engine.v ===== *)
(** The engine of managed machines ([soma] engine/): launch, execute, stop, destroy, inspect and
    file operations as programs over two seams, the store of durable records and the backend.  A
    program is a tree of calls, so that its calls can be interleaved with those of other engines
    over the same store, and it can be cut short anywhere. *)

From S2P Require Import Prelude Bytes Wire NetPolicy Portable Fingerprint Evidence EngineState.
From Stdlib Require Import String.
From stdpp Require Import strings.
From stdpp Require Import options.
Local Open Scope string_scope.
Local Open Scope list_scope.
Local Open Scope Z_scope.

(** * The backend's seam *)

Inductive BackendFailureKind : Type :=
| Failure_Unsupported | Failure_Unavailable | Failure_ResourceConflict | Failure_WorkloadRejected | Failure_IsolationFailure
| Failure_GuestFailure | Failure_Timeout | Failure_OutputLimit | Failure_CleanupFailure.

Record BackendFailure : Type := mkBackendFailure { failure_kind : BackendFailureKind; failure_occurred_at_ns : Z }.

Inductive CleanupReason : Type := RunCompleted | Rollback | GracefulStop | ForcedDestroy | UncertainCommandTermination.

Record CleanupObservation : Type := mkCleanupObservation {
  cleaned_operation_id : OperationId;
  cleaned_instance_id : InstanceId;
  cleaned_evidence : CleanupEvidence;
  cleaned_started_at_ns : Z;
  cleaned_finished_at_ns : Z
}.

Record CommandObservation : Type := mkCommandObservation {
  command_operation_id : OperationId;
  command_instance_id : InstanceId;
  command_status : CommandStatus;
  command_output : ObservedOutput;
  command_started_at_ns : Z;
  command_finished_at_ns : Z
}.

Record LaunchTimes : Type := mkLaunchTimes { time_admitted : Z; time_launched : Z; time_ready : Z }.

Record LaunchObservation : Type := mkLaunchObservation {
  launched_operation_id : OperationId;
  launched_instance_id : InstanceId;
  launched_workload : WorkloadIdentity;
  launched_backend : BackendKind;
  launched_isolation : IsolationClass;
  launched_preparation : PreparationClass;
  launched_digest_binding : DigestBinding;
  launched_effective_shape : EffectiveShape;
  launched_effective_network : EffectiveNetwork;
  launched_times : LaunchTimes
}.

Record ResolutionObservation (P : Type) : Type := mkResolutionObservation {
  resolved_operation_id : OperationId;
  resolved_source_fingerprint : RequestFingerprint;
  resolved_workload : WorkloadIdentity;
  resolved_prepared : P;
  resolved_at_ns : Z
}.
Arguments mkResolutionObservation {P}.
Arguments resolved_operation_id {P}.
Arguments resolved_source_fingerprint {P}.
Arguments resolved_workload {P}.
Arguments resolved_prepared {P}.
Arguments resolved_at_ns {P}.

Record InspectionObservation : Type := mkInspectionObservation {
  inspected_operation_id : OperationId;
  inspected_instance_id : InstanceId;
  inspected_workload : WorkloadIdentity;
  inspected_backend : BackendKind;
  inspected_state : MachineState;
  inspected_effective_network : EffectiveNetwork;
  inspected_at_ns : Z
}.

(** * Files *)

Definition MAX_GUEST_PATH_BYTES : nat := 4096.

Inductive PathRejected : Type := Path_Empty | Path_TooLong | Path_Relative | Path_InteriorNul.

Definition check_guest_path (path : bytes) : Result unit PathRejected :=
  match path with
  | [] => Err Path_Empty
  | first :: _ =>
      if (MAX_GUEST_PATH_BYTES <? length path)%nat then Err Path_TooLong
      else if negb (first =? 47) then Err Path_Relative
      else if existsb (fun b => b =? 0) path then Err Path_InteriorNul else Ok tt
  end.

Inductive FileOperation : Type :=
| File_Read (path : bytes)
| File_Write (path contents : bytes)
| File_MakeDirectory (path : bytes)
| File_ReadDirectory (path : bytes)
| File_Exists (path : bytes)
| File_Remove (path : bytes) (recursive : bool).

Definition file_path (op : FileOperation) : bytes :=
  match op with
  | File_Read path | File_Write path _ | File_MakeDirectory path | File_ReadDirectory path | File_Exists path | File_Remove path _ => path
  end.

Inductive FileRefusal : Type :=
| Refusal_NotFound | Refusal_Denied | Refusal_WrongKind | Refusal_Exists | Refusal_NotEmpty | Refusal_TooLarge | Refusal_Failed.

Inductive FileKind : Type := Kind_File | Kind_Directory | Kind_Other.

Record FileEntry : Type := mkFileEntry { entry_name : bytes; entry_kind : FileKind }.

Inductive FileAnswer : Type :=
| Answer_Read (contents : bytes)
| Answer_Written (count : Z)
| Answer_Listed (entries : list FileEntry) (more : bool)
| Answer_Status (kind : option FileKind)
| Answer_Done
| Answer_Refused (refusal : FileRefusal).

Record FileObservation : Type := mkFileObservation {
  file_operation_id : OperationId;
  file_instance_id : InstanceId;
  file_answer : FileAnswer
}.

(** * Programs *)

Section prog.
Context {P : Type}.

(** A program of the engine: it returns, or it makes one call and goes on with its answer. *)
Inductive prog (A : Type) : Type :=
| Ret (a : A)
| Create (i : InstanceId) (record : StateRecord) (k : Result StateRevision StateStoreFailureKind -> prog A)
| Load (i : InstanceId) (k : Result (option StoredState) StateStoreFailureKind -> prog A)
| CompareExchange (i : InstanceId) (expected : StateRevision) (replacement : StateRecord)
    (k : Result StateRevision StateStoreFailureKind -> prog A)
| Resolve (op : OperationId) (image : OciImage) (source : RequestFingerprint)
    (k : Result (ResolutionObservation P) BackendFailure -> prog A)
| Launch (op : OperationId) (i : InstanceId) (w : WorkloadIdentity) (prepared : P) (s : MachineShape)
    (k : Result LaunchObservation BackendFailure -> prog A)
| Execute (op : OperationId) (i : InstanceId) (c : DirectCommand) (l : ExecutionLimits)
    (k : Result CommandObservation BackendFailure -> prog A)
| File (op : OperationId) (i : InstanceId) (f : FileOperation) (k : Result FileObservation BackendFailure -> prog A)
| Inspect (op : OperationId) (i : InstanceId) (w : WorkloadIdentity) (s : MachineShape)
    (k : Result InspectionObservation BackendFailure -> prog A)
| Cleanup (op : OperationId) (i : InstanceId) (reason : CleanupReason) (k : Result CleanupObservation BackendFailure -> prog A).

Arguments Ret {A}. Arguments Create {A}. Arguments Load {A}. Arguments CompareExchange {A}. Arguments Resolve {A}.
Arguments Launch {A}. Arguments Execute {A}. Arguments File {A}. Arguments Inspect {A}. Arguments Cleanup {A}.

Fixpoint bind {A B} (p : prog A) (f : A -> prog B) : prog B :=
  match p with
  | Ret a => f a
  | Create i record k => Create i record (fun r => bind (k r) f)
  | Load i k => Load i (fun r => bind (k r) f)
  | CompareExchange i expected replacement k => CompareExchange i expected replacement (fun r => bind (k r) f)
  | Resolve op image source k => Resolve op image source (fun r => bind (k r) f)
  | Launch op i w prepared s k => Launch op i w prepared s (fun r => bind (k r) f)
  | Execute op i c l k => Execute op i c l (fun r => bind (k r) f)
  | File op i x k => File op i x (fun r => bind (k r) f)
  | Inspect op i w s k => Inspect op i w s (fun r => bind (k r) f)
  | Cleanup op i reason k => Cleanup op i reason (fun r => bind (k r) f)
  end.

(** [?] on the result of a call. *)
Definition try_bind {A B E} (p : prog (Result A E)) (f : A -> prog (Result B E)) : prog (Result B E) :=
  bind p (fun r => match r with Ok a => f a | Err e => Ret (Err e) end).
End prog.

Arguments prog P A : clear implicits.
Arguments Ret {P A}. Arguments Create {P A}. Arguments Load {P A}. Arguments CompareExchange {P A}. Arguments Resolve {P A}.
Arguments Launch {P A}. Arguments Execute {P A}. Arguments File {P A}. Arguments Inspect {P A}. Arguments Cleanup {P A}.

Declare Scope prog_scope.
Delimit Scope prog_scope with prog.
Notation "x <- p ;; k" := (bind p (fun x => k)) (at level 100, p at next level, right associativity) : prog_scope.
Notation "x <?- p ;; k" := (try_bind p (fun x => k)) (at level 100, p at next level, right associativity) : prog_scope.

(** * Failures *)

Inductive FailurePhase : Type := At_Resolution | At_Launch | At_Command | At_Cleanup | At_Inspect.

Inductive RunFailureKind : Type :=
| Run_Backend (phase : FailurePhase) (kind : BackendFailureKind)
| Run_ObservationMismatch | Run_CleanupIncomplete | Run_TimedOut | Run_OutputLimitExceeded | Run_Interrupted
| Run_StateStore (kind : StateStoreFailureKind).

#[export] Instance BackendFailureKind_eq_dec : EqDecision BackendFailureKind.
Proof. solve_decision. Defined.
#[export] Instance FailurePhase_eq_dec : EqDecision FailurePhase.
Proof. solve_decision. Defined.
#[export] Instance RunFailureKind_eq_dec : EqDecision RunFailureKind.
Proof. solve_decision. Defined.

Record RunFailure : Type := mkRunFailure {
  run_failure_kind : RunFailureKind;
  run_failure_receipt : ExecutionReceipt;
  run_failure_output : option CapturedOutput
}.

Inductive ManagedStateError : Type :=
| MachineAlreadyExists | MachineNotFound | MachineStopped | OperationConflict | RecoveryRequired | ReplayCapacityReached.

Record ReplayEvidence : Type := mkReplayEvidence {
  replay_operation_id : OperationId;
  replay_request_fingerprint : RequestFingerprint;
  replay_terminal_status : TerminalStatus;
  replay_receipt_digest : RequestFingerprint;
  replay_receipt : option ExecutionReceipt
}.

Inductive ManagedFailure : Type :=
| Managed_State (e : ManagedStateError)
| Managed_StateStore (k : StateStoreFailureKind)
| Managed_Operation (f : RunFailure)
| Managed_ReplayUnavailable (e : ReplayEvidence)
| Managed_Backend (k : BackendFailureKind).

Definition operation_failure (kind : RunFailureKind) (receipt : ExecutionReceipt) (output : option CapturedOutput) : RunFailure :=
  mkRunFailure kind receipt output.

(** [store_operation_failure] of the three operations. *)
Definition store_operation_failure (failure : ManagedFailure) (receipt : ExecutionReceipt) (output : option CapturedOutput) : ManagedFailure :=
  let kind := match failure with Managed_StateStore kind => kind | _ => Store_Corrupt end in
  Managed_Operation (operation_failure (Run_StateStore kind) receipt output).

Definition is_store_conflict (failure : ManagedFailure) : bool :=
  match failure with Managed_StateStore Store_Conflict => true | _ => false end.

Definition replay_from_tombstone (t : ExecutionTombstone) : ReplayEvidence :=
  mkReplayEvidence (tomb_operation_id t) (tomb_request_fingerprint t) (tomb_terminal_status t) (tomb_receipt_digest t) None.

(** * Evidence of a run *)

(** The milestones, and whether one was appended. *)
Definition append_milestone (ms : list Milestone) (kind : MilestoneKind) (elapsed_ns : Z) : list Milestone * bool :=
  if is_some_and (fun previous => elapsed_ns <? milestone_elapsed_ns previous) (last ms) then (ms, false)
  else (ms ++ [mkMilestone kind elapsed_ns], true).

Definition append_failure (ms : list Milestone) (f : BackendFailure) : list Milestone * bool :=
  append_milestone ms M_FailureObserved (failure_occurred_at_ns f).

Definition append_launch (ms : list Milestone) (t : LaunchTimes) : list Milestone :=
  let ms := (append_milestone ms M_Admitted (time_admitted t)).1 in
  let ms := (append_milestone ms M_MachineLaunched (time_launched t)).1 in
  (append_milestone ms M_Ready (time_ready t)).1.

Definition append_command (ms : list Milestone) (started finished : Z) : list Milestone :=
  (append_milestone (append_milestone ms M_CommandStarted started).1 M_CommandFinished finished).1.

Definition times_follow (ms : list Milestone) (values : list Z) : bool :=
  let previous := match last ms with Some m => milestone_elapsed_ns m | None => 0 end in
  match head values with None => true | Some first => first >=? previous end && non_decreasing values.

Definition terminal_status (s : CommandStatus) : TerminalStatus :=
  match s with
  | Command_Exited code => Status_Exited code
  | Command_Signaled signal => Status_Signaled signal
  | Command_TimedOut => Status_TimedOut
  | Command_OutputLimitExceeded => Status_OutputLimitExceeded
  end.

Record LaunchEvidence : Type := mkLaunchEvidence {
  ev_backend : BackendKind;
  ev_isolation : IsolationClass;
  ev_preparation : PreparationClass;
  ev_digest_binding : DigestBinding;
  ev_effective_shape : EffectiveShape;
  ev_effective_network : EffectiveNetwork;
  ev_times : LaunchTimes
}.

Definition validate_launch (o : LaunchObservation) (op : OperationId) (i : InstanceId) (w : WorkloadIdentity) (backend : BackendKind)
    (requested_shape : MachineShape) (previous_time : Z) : option LaunchEvidence :=
  let t := launched_times o in
  if bool_decide (launched_operation_id o = op) && bool_decide (launched_instance_id o = i) && bool_decide (launched_workload o = w) &&
     bool_decide (launched_backend o = backend) && shape_matches_request (launched_effective_shape o) requested_shape &&
     network_matches_request (launched_effective_network o) (shape_capabilities requested_shape) &&
     (time_admitted t >=? previous_time) && non_decreasing [time_admitted t; time_launched t; time_ready t]
  then Some (mkLaunchEvidence backend (launched_isolation o) (launched_preparation o) (launched_digest_binding o)
               (launched_effective_shape o) (launched_effective_network o) t)
  else None.

Record ValidatedCommand : Type := mkValidatedCommand {
  validated_status : CommandStatus;
  validated_output : CapturedOutput;
  validated_metadata : OutputMetadata;
  validated_started : Z;
  validated_finished : Z
}.

(** [u64::checked_add] *)
Definition checked_u64 (x y : Z) : option Z := if x + y >? U64_MAX then None else Some (x + y).

Section evidence.
Context (sha256 : bytes -> bytes).

Definition validate_command (o : CommandObservation) (op : OperationId) (i : InstanceId) (limits : ExecutionLimits) (previous_time : Z) :
    option ValidatedCommand :=
  let started := command_started_at_ns o in
  let finished := command_finished_at_ns o in
  if negb (bool_decide (command_operation_id o = op)) || negb (bool_decide (command_instance_id o = i)) || (started <? previous_time) ||
     (finished <? started)
  then None
  else
    let out := command_output o in
    let stdout_captured := Z.of_nat (length (observed_stdout out)) in
    let stderr_captured := Z.of_nat (length (observed_stderr out)) in
    captured ← checked_u64 stdout_captured stderr_captured;
    observed ← checked_u64 (observed_stdout_bytes out) (observed_stderr_bytes out);
    let within_capture := (captured <=? limits_max_output_bytes limits) && (observed_stdout_bytes out >=? stdout_captured) &&
                          (observed_stderr_bytes out >=? stderr_captured) in
    let exceeded := observed >? limits_max_output_bytes limits in
    let reported := match command_status o with Command_OutputLimitExceeded => true | _ => false end in
    if negb within_capture || negb (Bool.eqb exceeded reported) then None
    else
      let stream content observed :=
        mkStreamMetadata (Z.of_nat (length content)) observed (observed >? Z.of_nat (length content)) (digest_bytes sha256 content) in
      Some (mkValidatedCommand (command_status o) (mkCapturedOutput (observed_stdout out) (observed_stderr out))
              (mkOutputMetadata (stream (observed_stdout out) (observed_stdout_bytes out)) (stream (observed_stderr out) (observed_stderr_bytes out)))
              started finished).
End evidence.

Record CleanupResult : Type := mkCleanupResult {
  result_complete : bool;
  result_evidence : CleanupEvidence;
  result_failure_kind : option RunFailureKind
}.

Definition cleanup_invalid : CleanupResult := mkCleanupResult false incomplete_owned_machine (Some Run_ObservationMismatch).

Definition cleanup_method_matches (reason : CleanupReason) (evidence : CleanupEvidence) : bool :=
  if cleanup_all_not_owned evidence then true
  else match reason, cleanup_method evidence with
       | RunCompleted, (Method_Graceful | Method_Forced | Method_GracefulThenForced)
       | (Rollback | ForcedDestroy | UncertainCommandTermination), (Method_Forced | Method_GracefulThenForced)
       | GracefulStop, (Method_Graceful | Method_GracefulThenForced) => true
       | _, _ => false
       end.

(** What [perform_cleanup] makes of the backend's answer. *)
Definition cleanup_outcome (op : OperationId) (i : InstanceId) (reason : CleanupReason) (ms : list Milestone)
    (answer : Result CleanupObservation BackendFailure) : CleanupResult * list Milestone :=
  match answer with
  | Ok o =>
      let started := cleaned_started_at_ns o in
      let finished := cleaned_finished_at_ns o in
      let evidence := cleaned_evidence o in
      if negb (bool_decide (cleaned_operation_id o = op)) || negb (bool_decide (cleaned_instance_id o = i)) ||
         negb (cleanup_method_matches reason evidence) || negb (times_follow ms [started; finished])
      then (cleanup_invalid, ms)
      else
        let ms := (append_milestone ms M_CleanupStarted started).1 in
        let ms := (append_milestone ms M_CleanupFinished finished).1 in
        (mkCleanupResult (cleanup_is_complete evidence) evidence None, ms)
  | Err failure =>
      let '(ms', appended) := append_failure ms failure in
      if negb appended then (cleanup_invalid, ms)
      else (mkCleanupResult false incomplete_owned_machine (Some (Run_Backend At_Cleanup (failure_kind failure))), ms')
  end.

(** * Receipts of managed operations *)

Inductive ManagedLaunch : Type :=
| Launch_NotReached
| Launch_Fresh (e : LaunchEvidence)
| Launch_Stored (r : ExecutionReceipt)
| Launch_Inspected (r : ExecutionReceipt) (effective_network : EffectiveNetwork).

Definition managed_receipt (operation : OperationKind) (op : OperationId) (i : InstanceId) (name : option MachineName)
    (fingerprint : RequestFingerprint) (workload : WorkloadEvidence) (backend : BackendKind) (launch : ManagedLaunch)
    (shape : MachineShape) (ms : list Milestone) (terminal : TerminalStatus) (output : Observation OutputMetadata)
    (cleanup : CleanupEvidence) (measurement : MeasurementClass) : ExecutionReceipt :=
  let '(isolation, preparation, binding, effective_shape, effective_network) :=
    match launch with
    | Launch_NotReached =>
        (Unavailable NotReached, Unavailable NotReached, Unavailable NotReached, shape_unavailable NotReached, network_unavailable NotReached)
    | Launch_Fresh e =>
        (Observed (ev_isolation e), Observed (ev_preparation e), Observed (ev_digest_binding e), ev_effective_shape e, ev_effective_network e)
    | Launch_Stored r =>
        (receipt_isolation r, receipt_preparation r, receipt_digest_binding r, receipt_effective_shape r, receipt_effective_network r)
    | Launch_Inspected r effective_network =>
        (receipt_isolation r, receipt_preparation r, receipt_digest_binding r, receipt_effective_shape r, effective_network)
    end in
  receipt_new operation op i name fingerprint workload backend isolation preparation binding shape effective_shape effective_network
    ms terminal output cleanup (mkMeasurementBoundary measurement).

(** * Requests *)

Record LaunchMachineRequest : Type := mkLaunchRequest {
  lreq_operation_id : OperationId;
  lreq_instance_id : InstanceId;
  lreq_image : OciImage;
  lreq_shape : MachineShape;
  lreq_machine_name : option MachineName
}.

Record ExecuteMachineRequest : Type := mkExecuteRequest {
  ereq_operation_id : OperationId;
  ereq_instance_id : InstanceId;
  ereq_command : DirectCommand;
  ereq_limits : ExecutionLimits
}.

(** A request that only names an operation and an Instance: stop, destroy and inspect. *)
Record InstanceRequest : Type := mkInstanceRequest { ireq_operation_id : OperationId; ireq_instance_id : InstanceId }.

Record FileMachineRequest : Type := mkFileRequest {
  freq_operation_id : OperationId;
  freq_instance_id : InstanceId;
  freq_operation : FileOperation
}.

Definition launch_receipt (request : LaunchMachineRequest) (fingerprint : RequestFingerprint) (workload : WorkloadEvidence)
    (backend : BackendKind) (launch : ManagedLaunch) (ms : list Milestone) (cleanup : CleanupEvidence) (terminal : TerminalStatus) :
    ExecutionReceipt :=
  managed_receipt Op_Launch (lreq_operation_id request) (lreq_instance_id request) (lreq_machine_name request) fingerprint workload
    backend launch (lreq_shape request) ms terminal (Unavailable NotReached) cleanup FacadeManagedLaunch.

(** * The operations *)

Section engine.
Context {P : Type} `{Json} (sha256 : bytes -> bytes).

(** [Backend::kind] *)
Context (kind : BackendKind).
Local Open Scope prog_scope.
Notation managed A := (prog P (Result A ManagedFailure)).

Definition fail {A} (e : ManagedFailure) : managed A := Ret (Err e).
Definition done {A} (a : A) : managed A := Ret (Ok a).
Definition lift {A} (r : Result A ManagedFailure) : managed A := Ret r.

Definition replay_from_receipt (r : ExecutionReceipt) : ReplayEvidence :=
  mkReplayEvidence (receipt_operation_id r) (receipt_request_fingerprint r) (receipt_terminal_status r)
    (digest_bytes sha256 (json_receipt r)) (Some r).

(** ** The store *)

Definition load_machine (i : InstanceId) : managed (option VersionedMachine) :=
  Load i (fun answer =>
    match answer with
    | Err k => fail (Managed_StateStore k)
    | Ok None => done None
    | Ok (Some stored) =>
        match machine_decode stored i with
        | Err k => fail (Managed_StateStore k)
        | Ok v => done (Some v)
        end
    end).

Definition create_machine (m : DurableMachine) : managed StateRevision :=
  match machine_encode m with
  | Err k => fail (Managed_StateStore k)
  | Ok record => Create (machine_instance_id m) record (fun answer => lift (map_err Managed_StateStore answer))
  end.

Definition replace_machine (revision : StateRevision) (m : DurableMachine) : managed StateRevision :=
  match machine_encode m with
  | Err k => fail (Managed_StateStore k)
  | Ok record => CompareExchange (machine_instance_id m) revision record (fun answer => lift (map_err Managed_StateStore answer))
  end.

(** A machine that must exist. *)
Definition load_existing (i : InstanceId) (missing : ManagedFailure) : managed VersionedMachine :=
  stored <?- load_machine i ;; lift (ok_or missing stored).

(** ** Cleanup *)

Definition perform_cleanup (op : OperationId) (i : InstanceId) (reason : CleanupReason) (ms : list Milestone) :
    prog P (CleanupResult * list Milestone) :=
  Cleanup op i reason (fun answer => Ret (cleanup_outcome op i reason ms answer)).

Definition accepted : list Milestone := [mkMilestone M_Accepted 0].

(** The kind of a failure the backend reported, and the milestones with it. *)
Definition observed_failure (ms : list Milestone) (phase : FailurePhase) (f : BackendFailure) : list Milestone * RunFailureKind :=
  let '(ms', appended) := append_failure ms f in
  if appended then (ms', Run_Backend phase (failure_kind f)) else (ms, Run_ObservationMismatch).

Definition ensure_backend (a : ActiveMachine) : Result unit ManagedFailure :=
  if bool_decide (active_backend a = kind) then Ok tt else Err (Managed_StateStore Store_Corrupt).

Definition the_workload (a : ActiveMachine) : Result WorkloadIdentity ManagedFailure :=
  ok_or (Managed_StateStore Store_Corrupt) (active_workload a).

(** ** Launch *)

Inductive LaunchAdmission : Type :=
| Launch_Proceed (revision : StateRevision) (ms : list Milestone)
| Launch_Replay (r : ExecutionReceipt).

Definition admit_launch (request : LaunchMachineRequest) (intent : LaunchIntent) (resolved_at : Z) (ms : list Milestone) :
    managed LaunchAdmission :=
  let pending := machine_launching (lreq_instance_id request) intent in
  created <- create_machine pending ;;
  match created with
  | Ok revision => done (Launch_Proceed revision ms)
  | Err failure =>
      if negb (is_store_conflict failure) then fail failure
      else
        stored <?- load_existing (lreq_instance_id request) (Managed_StateStore Store_Conflict) ;;
        match machine_phase (versioned_machine stored) with
        | Phase_Launching existing =>
            if bool_decide (existing = intent) then
              cleaned <- perform_cleanup (intent_operation_id existing) (lreq_instance_id request) Rollback ms ;;
              let '(cleanup, ms) := cleaned in
              if negb (result_complete cleanup) then
                let receipt := launch_receipt request (intent_request_fingerprint intent) (Workload_Resolved (intent_workload intent))
                                 (intent_backend intent) Launch_NotReached ms (result_evidence cleanup) Status_Failed in
                fail (Managed_Operation (operation_failure (default Run_CleanupIncomplete (result_failure_kind cleanup)) receipt None))
              else
                revision <?- replace_machine (versioned_revision stored) pending ;;
                done (Launch_Proceed revision [mkMilestone M_Accepted 0; mkMilestone M_WorkloadResolved resolved_at])
            else fail (Managed_State OperationConflict)
        | Phase_Active active =>
            if bool_decide (receipt_operation_id (active_launch_receipt active) = lreq_operation_id request) &&
               bool_decide (receipt_request_fingerprint (active_launch_receipt active) = intent_request_fingerprint intent)
            then done (Launch_Replay (active_launch_receipt active))
            else fail (Managed_State MachineAlreadyExists)
        | Phase_Terminal (Basis_Launch existing) Op_Launch operation_id request_fingerprint receipt =>
            if bool_decide (existing = intent) && bool_decide (operation_id = lreq_operation_id request) &&
               bool_decide (request_fingerprint = intent_request_fingerprint intent)
            then fail (Managed_ReplayUnavailable (replay_from_receipt receipt))
            else fail (Managed_State OperationConflict)
        | _ => fail (Managed_State OperationConflict)
        end
  end.

Definition fail_launch {A} (request : LaunchMachineRequest) (intent : LaunchIntent) (revision : StateRevision)
    (fingerprint : RequestFingerprint) (workload : WorkloadIdentity) (ms : list Milestone) (why : RunFailureKind) : managed A :=
  cleaned <- perform_cleanup (lreq_operation_id request) (lreq_instance_id request) Rollback ms ;;
  let '(cleanup, ms) := cleaned in
  let receipt := launch_receipt request fingerprint (Workload_Resolved workload) kind Launch_NotReached ms (result_evidence cleanup) Status_Failed in
  let failure := Managed_Operation (operation_failure (default why (result_failure_kind cleanup)) receipt None) in
  if result_complete cleanup then
    let terminal := mkDurableMachine STATE_SCHEMA_VERSION (lreq_instance_id request)
                      (Phase_Terminal (Basis_Launch intent) Op_Launch (lreq_operation_id request) fingerprint receipt) in
    replaced <- replace_machine revision terminal ;;
    match replaced with
    | Err e => fail (store_operation_failure e receipt None)
    | Ok _ => fail failure
    end
  else fail failure.

Definition launch_machine (request : LaunchMachineRequest) : managed ExecutionReceipt :=
  let source := source_fingerprint sha256 (lreq_image request) in
  Resolve (lreq_operation_id request) (lreq_image request) source (fun resolution =>
    match resolution with
    | Err failure =>
        let '(ms, why) := observed_failure accepted At_Resolution failure in
        let receipt := launch_receipt request source (Workload_Unresolved source) kind Launch_NotReached ms cleanup_not_owned Status_Failed in
        fail (Managed_Operation (operation_failure why receipt None))
    | Ok o =>
        let workload := resolved_workload o in
        let '(ms, appended) := append_milestone accepted M_WorkloadResolved (resolved_at_ns o) in
        if negb (bool_decide (resolved_operation_id o = lreq_operation_id request)) ||
           negb (bool_decide (resolved_source_fingerprint o = source)) || negb appended
        then fail (Managed_State OperationConflict)
        else
          let fingerprint := launch_fingerprint sha256 workload (lreq_instance_id request) (lreq_machine_name request) (lreq_shape request) in
          let intent := mkLaunchIntent (lreq_operation_id request) (lreq_machine_name request) workload (lreq_shape request) kind fingerprint in
          admission <?- admit_launch request intent (resolved_at_ns o) ms ;;
          match admission with
          | Launch_Replay receipt => done receipt
          | Launch_Proceed revision ms =>
              Launch (lreq_operation_id request) (lreq_instance_id request) workload (resolved_prepared o) (lreq_shape request) (fun observation =>
                match observation with
                | Err failure =>
                    let '(ms, why) := observed_failure ms At_Launch failure in
                    fail_launch request intent revision fingerprint workload ms why
                | Ok observation =>
                    match validate_launch observation (lreq_operation_id request) (lreq_instance_id request) workload kind (lreq_shape request)
                            (resolved_at_ns o) with
                    | None => fail_launch request intent revision fingerprint workload ms Run_ObservationMismatch
                    | Some launch =>
                        let ms := append_launch ms (ev_times launch) in
                        let receipt := launch_receipt request fingerprint (Workload_Resolved workload) (ev_backend launch) (Launch_Fresh launch) ms
                                         cleanup_not_owned Status_Ready in
                        replaced <- replace_machine revision (machine_active (lreq_instance_id request) receipt) ;;
                        match replaced with
                        | Err e => fail (store_operation_failure e receipt None)
                        | Ok _ => done receipt
                        end
                    end
                end)
          end
    end).

(** ** Execute *)

(** The evidence kept at launch; the reader of records refuses a launch receipt that is ready and
    whose workload is not resolved, so the code's [expect] holds. *)
Definition active_evidence (a : ActiveMachine) : WorkloadEvidence := receipt_workload (active_launch_receipt a).

Definition execution_receipt (op : OperationId) (i : InstanceId) (active : ActiveMachine) (fingerprint : RequestFingerprint)
    (ms : list Milestone) (terminal : TerminalStatus) (output : Observation OutputMetadata) (cleanup : CleanupEvidence) : ExecutionReceipt :=
  managed_receipt Op_Execute op i (active_machine_name active) fingerprint (active_evidence active) (active_backend active)
    (Launch_Stored (active_launch_receipt active)) (active_shape active) ms terminal output cleanup FacadeManagedCommand.

Record ExecutionAdmission : Type := mkExecutionAdmission {
  admission_revision : StateRevision;
  admission_active : ActiveMachine;
  admission_fingerprint : RequestFingerprint
}.

(** Cleans up after a command whose fate is uncertain and records the machine as terminal. *)
Definition settle_execution {A} (revision : StateRevision) (i : InstanceId) (active : ActiveMachine) (op : OperationId)
    (fingerprint : RequestFingerprint) (ms : list Milestone) (why : RunFailureKind)
    (observed : option (CapturedOutput * OutputMetadata * CommandStatus)) : managed A :=
  cleaned <- perform_cleanup op i UncertainCommandTermination ms ;;
  let '(cleanup, ms) := cleaned in
  let '(output, output_evidence, terminal) :=
    match observed with
    | None => (None, Unavailable NotReached, Status_Failed)
    | Some (output, metadata, status) => (Some output, Observed metadata, terminal_status status)
    end in
  let receipt := execution_receipt op i active fingerprint ms terminal output_evidence (result_evidence cleanup) in
  let failure := Managed_Operation (operation_failure (default why (result_failure_kind cleanup)) receipt output) in
  if result_complete cleanup then
    replaced <- replace_machine revision
                  (durable_with_phase i (Phase_Terminal (Basis_Active active) Op_Execute op fingerprint receipt)) ;;
    match replaced with
    | Err e => fail (store_operation_failure e receipt output)
    | Ok _ => fail failure
    end
  else fail failure.

Definition fail_execution {A} (request : ExecuteMachineRequest) (admission : ExecutionAdmission) (ms : list Milestone) (why : RunFailureKind)
    (observed : option (CapturedOutput * OutputMetadata * CommandStatus)) : managed A :=
  settle_execution (admission_revision admission) (ereq_instance_id request) (admission_active admission) (ereq_operation_id request)
    (admission_fingerprint admission) ms why observed.

Definition recover_interrupted_execution {A} (revision : StateRevision) (i : InstanceId) (active : ActiveMachine) (op : OperationId)
    (fingerprint : RequestFingerprint) : managed A :=
  settle_execution revision i active op fingerprint accepted Run_Interrupted None.

Definition admit_execution (request : ExecuteMachineRequest) : managed ExecutionAdmission :=
  let i := ereq_instance_id request in
  let fingerprint_of w := execute_fingerprint sha256 w i (ereq_command request) (ereq_limits request) in
  stored <?- load_existing i (Managed_State MachineNotFound) ;;
  let revision := versioned_revision stored in
  match machine_phase (versioned_machine stored) with
  | Phase_Active active =>
      _ <?- lift (ensure_backend active) ;;
      workload <?- lift (the_workload active) ;;
      let fingerprint := fingerprint_of workload in
      match active_completed active (ereq_operation_id request) with
      | Some completed =>
          if bool_decide (tomb_request_fingerprint completed = fingerprint)
          then fail (Managed_ReplayUnavailable (replay_from_tombstone completed))
          else fail (Managed_State OperationConflict)
      | None =>
          if (MAX_EXECUTION_TOMBSTONES <=? length (active_completed_executions active))%nat then fail (Managed_State ReplayCapacityReached)
          else
            revision <?- replace_machine revision (durable_with_phase i (Phase_Executing active (ereq_operation_id request) fingerprint)) ;;
            done (mkExecutionAdmission revision active fingerprint)
      end
  | Phase_Executing active operation_id request_fingerprint =>
      recover_interrupted_execution revision (machine_instance_id (versioned_machine stored)) active operation_id request_fingerprint
  | Phase_Terminal basis operation operation_id request_fingerprint receipt =>
      if bool_decide (operation = Op_Execute) && bool_decide (operation_id = ereq_operation_id request) then
        match basis with
        | Basis_Launch _ => fail (Managed_StateStore Store_Corrupt)
        | Basis_Active active =>
            if bool_decide (fingerprint_of <$> active_workload active = Some request_fingerprint)
            then fail (Managed_ReplayUnavailable (replay_from_receipt receipt))
            else fail (Managed_State OperationConflict)
        end
      else fail (Managed_State MachineStopped)
  | Phase_Launching _ | Phase_Terminating _ _ _ _ => fail (Managed_State RecoveryRequired)
  end.

(** The kind of failure an abnormal end of a command is; [None] for an exit. *)
Definition abnormal_kind (s : CommandStatus) : option RunFailureKind :=
  match s with
  | Command_Exited _ => None
  | Command_Signaled _ => Some Run_Interrupted
  | Command_TimedOut => Some Run_TimedOut
  | Command_OutputLimitExceeded => Some Run_OutputLimitExceeded
  end.

Definition execute_machine (request : ExecuteMachineRequest) : managed (ExecutionReceipt * CapturedOutput) :=
  let i := ereq_instance_id request in
  admission <?- admit_execution request ;;
  Execute (ereq_operation_id request) i (ereq_command request) (ereq_limits request) (fun observation =>
    match observation with
    | Err failure =>
        let '(ms, why) := observed_failure accepted At_Command failure in
        fail_execution request admission ms why None
    | Ok observation =>
        match validate_command sha256 observation (ereq_operation_id request) i (ereq_limits request) 0 with
        | None => fail_execution request admission accepted Run_ObservationMismatch None
        | Some v =>
            let ms := append_command accepted (validated_started v) (validated_finished v) in
            match abnormal_kind (validated_status v) with
            | Some why => fail_execution request admission ms why (Some (validated_output v, validated_metadata v, validated_status v))
            | None =>
                let active := admission_active admission in
                let receipt := execution_receipt (ereq_operation_id request) i active (admission_fingerprint admission) ms
                                 (terminal_status (validated_status v)) (Observed (validated_metadata v)) cleanup_not_owned in
                tombstone <?- lift (map_err Managed_StateStore (tombstone_from_receipt sha256 receipt)) ;;
                let next := mkActiveMachine (active_launch_receipt active) (active_completed_executions active ++ [tombstone]) in
                replaced <- replace_machine (admission_revision admission) (durable_with_phase i (Phase_Active next)) ;;
                match replaced with
                | Err e => fail (store_operation_failure e receipt (Some (validated_output v)))
                | Ok _ => done (receipt, validated_output v)
                end
            end
        end
    end).

(** ** Stop and destroy *)

Inductive TerminationMode : Type := Graceful | Forced.

Definition mode_operation (m : TerminationMode) : OperationKind := match m with Graceful => Op_Stop | Forced => Op_Destroy end.
Definition mode_cleanup_reason (m : TerminationMode) : CleanupReason := match m with Graceful => GracefulStop | Forced => ForcedDestroy end.
Definition mode_terminal_status (m : TerminationMode) : TerminalStatus := match m with Graceful => Status_Stopped | Forced => Status_Destroyed end.
Definition mode_measurement (m : TerminationMode) : MeasurementClass :=
  match m with Graceful => FacadeManagedStop | Forced => FacadeManagedDestroy end.
Definition mode_fingerprint (m : TerminationMode) (w : WorkloadIdentity) (i : InstanceId) : RequestFingerprint :=
  match m with Graceful => stop_fingerprint sha256 w i | Forced => destroy_fingerprint sha256 w i end.

Inductive TerminationAdmission : Type :=
| Termination_Proceed (revision : StateRevision) (active : ActiveMachine) (fingerprint : RequestFingerprint)
| Termination_Replay (r : ExecutionReceipt).

Definition admit_termination (op : OperationId) (i : InstanceId) (mode : TerminationMode) : managed TerminationAdmission :=
  stored <?- load_existing i (Managed_State MachineNotFound) ;;
  let revision := versioned_revision stored in
  match machine_phase (versioned_machine stored) with
  | Phase_Active active =>
      _ <?- lift (ensure_backend active) ;;
      workload <?- lift (the_workload active) ;;
      let fingerprint := mode_fingerprint mode workload i in
      revision <?- replace_machine revision (durable_with_phase i (Phase_Terminating active (mode_operation mode) op fingerprint)) ;;
      done (Termination_Proceed revision active fingerprint)
  | Phase_Terminating active operation existing_operation request_fingerprint =>
      if bool_decide (operation = mode_operation mode) && bool_decide (existing_operation = op) then
        workload <?- lift (the_workload active) ;;
        if bool_decide (mode_fingerprint mode workload i = request_fingerprint)
        then done (Termination_Proceed revision active request_fingerprint)
        else fail (Managed_State OperationConflict)
      else fail (Managed_State OperationConflict)
  | Phase_Terminal _ operation existing_operation request_fingerprint receipt =>
      if bool_decide (operation = mode_operation mode) && bool_decide (existing_operation = op) then
        if bool_decide (receipt_request_fingerprint receipt = request_fingerprint)
        then done (Termination_Replay receipt)
        else fail (Managed_State OperationConflict)
      else if bool_decide (existing_operation = op) then fail (Managed_State OperationConflict)
      else fail (Managed_State MachineStopped)
  | Phase_Executing active operation_id request_fingerprint =>
      recover_interrupted_execution revision i active operation_id request_fingerprint
  | Phase_Launching _ => fail (Managed_State RecoveryRequired)
  end.

Definition termination_receipt (op : OperationId) (i : InstanceId) (active : ActiveMachine) (fingerprint : RequestFingerprint)
    (mode : TerminationMode) (ms : list Milestone) (terminal : TerminalStatus) (cleanup : CleanupEvidence) : ExecutionReceipt :=
  managed_receipt (mode_operation mode) op i (active_machine_name active) fingerprint (active_evidence active) (active_backend active)
    (Launch_Stored (active_launch_receipt active)) (active_shape active) ms terminal (Unavailable NotReached) cleanup (mode_measurement mode).

Definition terminate_machine (op : OperationId) (i : InstanceId) (mode : TerminationMode) : managed ExecutionReceipt :=
  admission <?- admit_termination op i mode ;;
  match admission with
  | Termination_Replay receipt => done receipt
  | Termination_Proceed revision active fingerprint =>
      cleaned <- perform_cleanup op i (mode_cleanup_reason mode) accepted ;;
      let '(cleanup, ms) := cleaned in
      let terminal := if result_complete cleanup then mode_terminal_status mode else Status_Failed in
      let receipt := termination_receipt op i active fingerprint mode ms terminal (result_evidence cleanup) in
      if negb (result_complete cleanup) then
        fail (Managed_Operation (operation_failure (default Run_CleanupIncomplete (result_failure_kind cleanup)) receipt None))
      else
        replaced <- replace_machine revision
                      (durable_with_phase i (Phase_Terminal (Basis_Active active) (mode_operation mode) op fingerprint receipt)) ;;
        match replaced with
        | Err e => fail (store_operation_failure e receipt None)
        | Ok _ => done receipt
        end
  end.

Definition stop_machine (request : InstanceRequest) : managed ExecutionReceipt :=
  terminate_machine (ireq_operation_id request) (ireq_instance_id request) Graceful.

Definition destroy_machine (request : InstanceRequest) : managed ExecutionReceipt :=
  terminate_machine (ireq_operation_id request) (ireq_instance_id request) Forced.

(** ** Inspect *)

Definition inspection_receipt (request : InstanceRequest) (active : ActiveMachine) (fingerprint : RequestFingerprint) (ms : list Milestone)
    (terminal : TerminalStatus) (effective_network : option EffectiveNetwork) : ExecutionReceipt :=
  let launch := match effective_network with
                | None => Launch_Stored (active_launch_receipt active)
                | Some n => Launch_Inspected (active_launch_receipt active) n
                end in
  managed_receipt Op_Inspect (ireq_operation_id request) (ireq_instance_id request) (active_machine_name active) fingerprint
    (active_evidence active) (active_backend active) launch (active_shape active) ms terminal (Unavailable NotReached) cleanup_not_owned
    FacadeManagedInspect.

Definition inspect_machine (request : InstanceRequest) : managed (MachineState * ExecutionReceipt) :=
  let op := ireq_operation_id request in
  let i := ireq_instance_id request in
  stored <?- load_existing i (Managed_State MachineNotFound) ;;
  match machine_phase (versioned_machine stored) with
  | Phase_Terminal _ _ _ _ _ => fail (Managed_State MachineStopped)
  | Phase_Launching _ | Phase_Executing _ _ _ | Phase_Terminating _ _ _ _ => fail (Managed_State RecoveryRequired)
  | Phase_Active active =>
      _ <?- lift (ensure_backend active) ;;
      workload <?- lift (the_workload active) ;;
      let fingerprint := inspect_fingerprint sha256 workload i in
      Inspect op i workload (active_shape active) (fun observation =>
        match observation with
        | Err failure =>
            let '(ms, why) := observed_failure accepted At_Inspect failure in
            fail (Managed_Operation (operation_failure why (inspection_receipt request active fingerprint ms Status_Failed None) None))
        | Ok o =>
            let '(ms, appended) := append_milestone accepted M_Inspected (inspected_at_ns o) in
            if negb (bool_decide (inspected_operation_id o = op)) || negb (bool_decide (inspected_instance_id o = i)) ||
               negb (bool_decide (inspected_workload o = workload)) || negb (bool_decide (inspected_backend o = active_backend active)) ||
               negb (network_matches_request (inspected_effective_network o) (shape_capabilities (active_shape active))) || negb appended
            then fail (Managed_State OperationConflict)
            else
              current <?- load_existing i (Managed_State MachineNotFound) ;;
              if negb (versioned_revision current =? versioned_revision stored) then fail (Managed_State OperationConflict)
              else done (inspected_state o,
                         inspection_receipt request active fingerprint ms (Status_Inspected (inspected_state o)) (Some (inspected_effective_network o)))
        end)
  end.

(** ** Files *)

Definition admit_file (i : InstanceId) : managed unit :=
  stored <?- load_existing i (Managed_State MachineNotFound) ;;
  match machine_phase (versioned_machine stored) with
  | Phase_Active active => lift (ensure_backend active)
  | Phase_Executing _ _ _ | Phase_Launching _ | Phase_Terminating _ _ _ _ => fail (Managed_State RecoveryRequired)
  | Phase_Terminal _ _ _ _ _ => fail (Managed_State MachineStopped)
  end.

(** [accept] *)
Definition accept_answer (o : FileObservation) (op : OperationId) (i : InstanceId) : option FileAnswer :=
  if bool_decide (file_operation_id o = op) && bool_decide (file_instance_id o = i) then Some (file_answer o) else None.

Definition file_machine (request : FileMachineRequest) : managed (InstanceId * FileOperation * FileAnswer) :=
  let op := freq_operation_id request in
  let i := freq_instance_id request in
  _ <?- admit_file i ;;
  File op i (freq_operation request) (fun observation =>
    match observation with
    | Err failure => fail (Managed_Backend (failure_kind failure))
    | Ok o =>
        match accept_answer o op i with
        | None => fail (Managed_State OperationConflict)
        | Some answer => done (i, freq_operation request, answer)
        end
    end).
End engine.
