(* ===== verification/EngineSteps.v ===== *)
(** Engines over one store: the calls of any number of programs, interleaved, each of which may be
    cut short, against a store that keeps its contract and a backend that answers anything; and
    a scripted history of one machine. *)

From S2P Require Import Prelude Bytes Wire NetPolicy Portable Fingerprint Evidence EngineState Engine.
From stdpp Require Import options.
Local Open Scope Z_scope.

(** * Traces *)

(** What has happened to Instances so far: a record committed at a revision, a command the
    backend was asked to execute. *)
Inductive event : Type :=
| Committed (i : InstanceId) (revision : StateRevision) (record : StateRecord)
| Executed (i : InstanceId) (op : OperationId).

Notation trace := (list event).

#[export] Instance event_eq_dec : EqDecision event.
Proof. solve_decision. Defined.

(** The record an event commits for an Instance, all of them, and the latest. *)
Definition commit_of (i : InstanceId) (e : event) : option StoredState :=
  match e with
  | Committed j revision record => if bool_decide (j = i) then Some (mkStoredState revision record) else None
  | Executed _ _ => None
  end.

Definition commits (i : InstanceId) (t : trace) : list StoredState := omap (commit_of i) t.

Definition current (i : InstanceId) (t : trace) : option StoredState := last (commits i t).

(** * The store's contract

    [create] is exclusive and [compare_exchange] replaces exactly the revision it expects, with a
    later one; both are atomic, and a failure that is reported may or may not have happened. *)

Inductive create_step (t : trace) (i : InstanceId) (record : StateRecord) : trace -> Result StateRevision StateStoreFailureKind -> Prop :=
| create_done revision : current i t = None -> create_step t i record (t ++ [Committed i revision record]) (Ok revision)
| create_lost revision e : current i t = None -> create_step t i record (t ++ [Committed i revision record]) (Err e)
| create_refused e : create_step t i record t (Err e).

Inductive load_step (t : trace) (i : InstanceId) : Result (option StoredState) StateStoreFailureKind -> Prop :=
| load_done : load_step t i (Ok (current i t))
| load_refused e : load_step t i (Err e).

Inductive exchange_step (t : trace) (i : InstanceId) (expected : StateRevision) (record : StateRecord) :
    trace -> Result StateRevision StateStoreFailureKind -> Prop :=
| exchange_done st revision : current i t = Some st -> stored_revision st = expected -> expected < revision ->
    exchange_step t i expected record (t ++ [Committed i revision record]) (Ok revision)
| exchange_lost st revision e : current i t = Some st -> stored_revision st = expected -> expected < revision ->
    exchange_step t i expected record (t ++ [Committed i revision record]) (Err e)
| exchange_refused e : exchange_step t i expected record t (Err e).

(** The in-memory store keeps the contract: its map holds the latest record of every Instance. *)
Definition holds (s : MemoryStateStore) (t : trace) : Prop := forall i, memory_records s !! i = current i t.

Lemma commit_of_self i revision record : commit_of i (Committed i revision record) = Some (mkStoredState revision record).
Proof. cbn. by rewrite bool_decide_eq_true_2. Qed.

Lemma commit_of_other i j revision record : j <> i -> commit_of i (Committed j revision record) = None.
Proof. intros Hne. cbn. by rewrite bool_decide_eq_false_2. Qed.

Lemma commits_snoc i t e : commits i (t ++ [e]) = commits i t ++ option_list (commit_of i e).
Proof. unfold commits. rewrite omap_app. cbn. by destruct (commit_of i e). Qed.

Lemma commits_self i t revision record : commits i (t ++ [Committed i revision record]) = commits i t ++ [mkStoredState revision record].
Proof. by rewrite commits_snoc, commit_of_self. Qed.

Lemma commits_other i t e : commit_of i e = None -> commits i (t ++ [e]) = commits i t.
Proof. intros He. rewrite commits_snoc, He. cbn. by rewrite app_nil_r. Qed.

Lemma holds_put s t i st : holds s t -> holds (memory_put i st s) (t ++ [Committed i (stored_revision st) (stored_record st)]).
Proof.
  intros Hs j. cbn. destruct (decide (j = i)) as [-> | Hne].
  - rewrite lookup_insert_eq. unfold current. rewrite commits_self, last_snoc. by destruct st.
  - rewrite lookup_insert_ne by done. unfold current. rewrite commits_other; [apply Hs | by apply commit_of_other].
Qed.

Lemma memory_contract s t : holds s t ->
  (forall i record s' r, memory_create i record s = (s', r) -> exists t', create_step t i record t' r /\ holds s' t') /\
  (forall i s' r, memory_load i s = (s', r) -> s' = s /\ load_step t i r) /\
  (forall i expected record s' r, memory_compare_exchange i expected record s = (s', r) ->
     exists t', exchange_step t i expected record t' r /\ holds s' t').
Proof.
  intros Hs. split; [ | split].
  - intros i record s' r. unfold memory_create. destruct (memory_poisoned s); [intros [= <- <-]; exists t; split; [constructor | done] | ].
    destruct (memory_records s !! i) eqn:Hi; intros [= <- <-]; [exists t; split; [constructor | done] | ].
    eexists. split; [apply create_done; by rewrite <- Hs | ]. apply (holds_put s t i (mkStoredState REVISION_INITIAL record) Hs).
  - intros i s' r. unfold memory_load. destruct (memory_poisoned s); intros [= <- <-]; split; try done; [constructor | ]. rewrite Hs. constructor.
  - intros i expected record s' r. unfold memory_compare_exchange.
    destruct (memory_poisoned s); [intros [= <- <-]; exists t; split; [constructor | done] | ].
    destruct (memory_records s !! i) as [st | ] eqn:Hi; [ | intros [= <- <-]; exists t; split; [constructor | done]].
    destruct (Z.eqb_spec (stored_revision st) expected) as [He | ]; cbn [negb]; [ | intros [= <- <-]; exists t; split; [constructor | done]].
    unfold revision_next. destruct (_ >? _); intros [= <- <-]; [exists t; split; [constructor | done] | ].
    eexists. split; [eapply exchange_done; [by rewrite <- Hs | done | lia] | ].
    apply (holds_put s t i (mkStoredState (expected + 1) record) Hs).
Qed.

(** * Steps *)

Section steps.
Context {P : Type} `{Json} (sha256 : bytes -> bytes).

(** One call of a program. *)
Inductive call_step (t : trace) : prog P unit -> trace -> prog P unit -> Prop :=
| call_create i record k t' r : create_step t i record t' r -> call_step t (Create i record k) t' (k r)
| call_load i k r : load_step t i r -> call_step t (Load i k) t (k r)
| call_exchange i expected record k t' r : exchange_step t i expected record t' r -> call_step t (CompareExchange i expected record k) t' (k r)
| call_resolve op image source k r : call_step t (Resolve op image source k) t (k r)
| call_launch op i w prepared s k r : call_step t (Launch op i w prepared s k) t (k r)
| call_execute op i c l k r : call_step t (Execute op i c l k) (t ++ [Executed i op]) (k r)
| call_file op i f k r : call_step t (File op i f k) t (k r)
| call_inspect op i w s k r : call_step t (Inspect op i w s k) t (k r)
| call_cleanup op i reason k r : call_step t (Cleanup op i reason k) t (k r).

(** What may be started, by an engine over a backend of some kind. *)
Inductive operation : Type :=
| Do_launch (request : LaunchMachineRequest)
| Do_execute (request : ExecuteMachineRequest)
| Do_stop (request : InstanceRequest)
| Do_destroy (request : InstanceRequest)
| Do_inspect (request : InstanceRequest)
| Do_file (request : FileMachineRequest).

Definition discard {A} (p : prog P A) : prog P unit := bind p (fun _ => Ret tt).

Definition program (kind : BackendKind) (o : operation) : prog P unit :=
  match o with
  | Do_launch request => discard (launch_machine sha256 kind request)
  | Do_execute request => discard (execute_machine sha256 kind request)
  | Do_stop request => discard (stop_machine sha256 kind request)
  | Do_destroy request => discard (destroy_machine sha256 kind request)
  | Do_inspect request => discard (inspect_machine sha256 kind request)
  | Do_file request => discard (file_machine kind request)
  end.

Notation config := (trace * list (prog P unit))%type.

(** A request arrives, a running program makes its next call, or it is cut short where it is. *)
Inductive step : config -> config -> Prop :=
| step_start t ps kind o : step (t, ps) (t, program kind o :: ps)
| step_call t ps qs p t' p' : call_step t p t' p' -> step (t, ps ++ p :: qs) (t', ps ++ p' :: qs)
| step_crash t ps qs p : step (t, ps ++ p :: qs) (t, ps ++ qs).

Definition reachable (c : config) : Prop := rtc step ([], []) c.
End steps.

(** Scripted runs of the engine: a JSON that writes the machines of a catalogue, and a schedule that
    answers the calls of one program from a script. *)

(** * Equality of machines *)

#[export] Instance IsolationClass_eq_dec : EqDecision IsolationClass.
Proof. solve_decision. Defined.
#[export] Instance PreparationClass_eq_dec : EqDecision PreparationClass.
Proof. solve_decision. Defined.
#[export] Instance DigestBinding_eq_dec : EqDecision DigestBinding.
Proof. solve_decision. Defined.
#[export] Instance EvidenceClass_eq_dec : EqDecision EvidenceClass.
Proof. solve_decision. Defined.
#[export] Instance MeasurementClass_eq_dec : EqDecision MeasurementClass.
Proof. solve_decision. Defined.
#[export] Instance MeasurementBoundary_eq_dec : EqDecision MeasurementBoundary.
Proof. solve_decision. Defined.
#[export] Instance WorkloadEvidence_eq_dec : EqDecision WorkloadEvidence.
Proof. solve_decision. Defined.
#[export] Instance EffectiveShape_eq_dec : EqDecision EffectiveShape.
Proof. solve_decision. Defined.
#[export] Instance NetworkAttachment_eq_dec : EqDecision NetworkAttachment.
Proof. solve_decision. Defined.
#[export] Instance EffectiveNetwork_eq_dec : EqDecision EffectiveNetwork.
Proof. solve_decision. Defined.
#[export] Instance CleanupDisposition_eq_dec : EqDecision CleanupDisposition.
Proof. solve_decision. Defined.
#[export] Instance CleanupMethod_eq_dec : EqDecision CleanupMethod.
Proof. solve_decision. Defined.
#[export] Instance NetworkCleanupEvidence_eq_dec : EqDecision NetworkCleanupEvidence.
Proof. solve_decision. Defined.
#[export] Instance CleanupEvidence_eq_dec : EqDecision CleanupEvidence.
Proof. solve_decision. Defined.
#[export] Instance StreamMetadata_eq_dec : EqDecision StreamMetadata.
Proof. solve_decision. Defined.
#[export] Instance OutputMetadata_eq_dec : EqDecision OutputMetadata.
Proof. solve_decision. Defined.
#[export] Instance ExecutionReceipt_eq_dec : EqDecision ExecutionReceipt.
Proof. solve_decision. Defined.
#[export] Instance ExecutionTombstone_eq_dec : EqDecision ExecutionTombstone.
Proof. solve_decision. Defined.
#[export] Instance ActiveMachine_eq_dec : EqDecision ActiveMachine.
Proof. solve_decision. Defined.
#[export] Instance TerminalBasis_eq_dec : EqDecision TerminalBasis.
Proof. solve_decision. Defined.
#[export] Instance DurablePhase_eq_dec : EqDecision DurablePhase.
Proof. solve_decision. Defined.
#[export] Instance DurableMachine_eq_dec : EqDecision DurableMachine.
Proof. solve_decision. Defined.

(** * A JSON of finitely many machines *)

Section catalogue.
Context (catalogue : list DurableMachine).

(** A machine is written as its place in the catalogue. *)
Definition catalogue_write (m : DurableMachine) : option bytes := (fun found => [Z.of_nat found.1]) <$> list_find (.= m) catalogue.
Definition catalogue_read (b : bytes) : option DurableMachine := match b with [z] => catalogue !! Z.to_nat z | _ => None end.

#[local] Instance catalogue_json : Json := {|
  json_to_vec := catalogue_write;
  json_schema_version := fun b => machine_schema_version <$> catalogue_read b;
  json_machine := catalogue_read;
  json_receipt := fun r => receipt_operation_id r ++ receipt_instance_id r
|}.

#[local] Instance catalogue_laws : JsonLaws.
Proof.
  constructor. intros m b Hb. cbn in *. unfold catalogue_write in Hb. apply fmap_Some in Hb as ([n x] & Hf & ->). cbn.
  apply list_find_Some in Hf as (Hn & -> & _). by rewrite Nat2Z.id, Hn.
Qed.
End catalogue.

(** * Scripts *)

Section scripts.
Context {P : Type} `{Json}.

(** The answer to a call: of the store, as its contract has it, or of the backend. *)
Inductive answer : Type :=
| Answer_store
| Answer_resolve (r : Result (ResolutionObservation P) BackendFailure)
| Answer_launch (r : Result LaunchObservation BackendFailure)
| Answer_execute (r : Result CommandObservation BackendFailure)
| Answer_cleanup (r : Result CleanupObservation BackendFailure).

Definition respond (t : trace) (p : prog P unit) (a : answer) : option (trace * prog P unit) :=
  match p, a with
  | Create i record k, Answer_store =>
      match current i t with
      | None => Some (t ++ [Committed i REVISION_INITIAL record], k (Ok REVISION_INITIAL))
      | Some _ => Some (t, k (Err Store_Conflict))
      end
  | Load i k, Answer_store => Some (t, k (Ok (current i t)))
  | CompareExchange i expected record k, Answer_store =>
      match current i t with
      | Some st => if stored_revision st =? expected then Some (t ++ [Committed i (expected + 1) record], k (Ok (expected + 1)))
                   else Some (t, k (Err Store_Conflict))
      | None => Some (t, k (Err Store_Conflict))
      end
  | Resolve _ _ _ k, Answer_resolve r => Some (t, k r)
  | Launch _ _ _ _ _ k, Answer_launch r => Some (t, k r)
  | Execute op i _ _ k, Answer_execute r => Some (t ++ [Executed i op], k r)
  | Cleanup _ _ _ k, Answer_cleanup r => Some (t, k r)
  | _, _ => None
  end.

Lemma respond_sound t p a t' p' : respond t p a = Some (t', p') -> call_step t p t' p'.
Proof.
  destruct p, a; cbn; try done; try (intros [= <- <-]; by repeat constructor).
  - destruct (current i t) eqn:Hc; intros [= <- <-]; repeat constructor; done.
  - destruct (current i t) as [st | ] eqn:Hc; [ | intros [= <- <-]; repeat constructor].
    destruct (Z.eqb_spec (stored_revision st) expected) as [He | ]; intros [= <- <-]; [ | repeat constructor].
    constructor. eapply exchange_done; [done | done | lia].
Qed.

Fixpoint play (t : trace) (p : prog P unit) (script : list answer) : option (trace * prog P unit) :=
  match script with
  | [] => Some (t, p)
  | a :: script => match respond t p a with Some (t', p') => play t' p' script | None => None end
  end.

Context (sha256 : bytes -> bytes).

Lemma play_reachable t ps p script t' p' : play t p script = Some (t', p') -> reachable sha256 (t, p :: ps) -> reachable sha256 (t', p' :: ps).
Proof.
  revert t p. induction script as [ | a script IH]; intros t p; cbn; [by intros [= <- <-] | ].
  destruct (respond t p a) as [[t1 p1] | ] eqn:Hr; [ | done]. intros Hplay Hreach. apply (IH t1 p1 Hplay).
  eapply rtc_r; [exact Hreach | ]. apply (step_call sha256 t [] ps p t1 p1). by apply respond_sound in Hr.
Qed.

(** The requests of a script, one after the other. *)
Fixpoint play_all (t : trace) (kind : BackendKind) (runs : list (operation * list answer)) : option (trace * list (prog P unit)) :=
  match runs with
  | [] => Some (t, [])
  | (o, script) :: runs =>
      match play t (program sha256 kind o) script with
      | Some (t', p') => match play_all t' kind runs with Some (t'', ps) => Some (t'', ps ++ [p']) | None => None end
      | None => None
      end
  end.

Lemma play_all_reachable t ps kind runs t' qs : play_all t kind runs = Some (t', qs) -> reachable sha256 (t, ps) ->
  reachable sha256 (t', qs ++ ps).
Proof.
  revert t ps t' qs. induction runs as [ | [o script] runs IH]; intros t ps t' qs; cbn; [by intros [= <- <-] | ].
  destruct (play t _ script) as [[t1 p1] | ] eqn:Hp; [ | done]. destruct (play_all t1 kind runs) as [[t2 ps2] | ] eqn:Hall; [ | done].
  intros [= <- <-] Hreach. rewrite <- app_assoc. apply (IH t1 (p1 :: ps) _ _ Hall). eapply play_reachable; [exact Hp | ].
  eapply rtc_r; [exact Hreach | apply step_start].
Qed.
End scripts.
Arguments answer : clear implicits.

(** * One machine: launched, run, asked again, destroyed *)

Module Demo.
Definition sha256 (b : bytes) : bytes := repeat (Z.of_nat (length b) mod 256) 32.
Definition instance : InstanceId := repeat 1 16.
Definition launch_op : OperationId := repeat 2 16.
Definition command_op : OperationId := repeat 3 16.
Definition destroy_op : OperationId := repeat 4 16.
Definition image : OciImage := [110; 111; 100; 101].
Definition workload : WorkloadIdentity := workload_new [115; 104; 97] linux_amd64 None.
Definition shape : MachineShape := mkMachineShape 1 256 1024 capabilities_isolated.
Definition launch_request : LaunchMachineRequest := mkLaunchRequest launch_op instance image shape None.
Definition execute_request : ExecuteMachineRequest := mkExecuteRequest command_op instance (mkDirectCommand [47; 98] []) (mkExecutionLimits 1000 64).
Definition destroy_request : InstanceRequest := mkInstanceRequest destroy_op instance.
Definition network : EffectiveNetwork :=
  mkEffectiveNetwork (Observed Detached) (Observed Egress_Denied) (Observed Dns_Denied) (Observed []) (Observed []) (Observed NotApplicable).

Definition times : LaunchTimes := mkLaunchTimes 20 30 40.
Definition resolved : ResolutionObservation unit := mkResolutionObservation launch_op (source_fingerprint sha256 image) workload tt 10.
Definition launched : LaunchObservation :=
  mkLaunchObservation launch_op instance workload LinuxKvm HardwareVirtualMachine OnDemand ObservedOnly (fully_observed shape) network times.
Definition exited : CommandObservation := mkCommandObservation command_op instance (Command_Exited 0) (mkObservedOutput [49] 1 [] 0) 50 60.
Definition destroyed (m : CleanupMethod) : CleanupObservation :=
  mkCleanupObservation destroy_op instance (with_method m complete_owned_machine) 70 80.

(** The machines these runs record. *)
Definition fingerprint : RequestFingerprint := launch_fingerprint sha256 workload instance None shape.
Definition intent : LaunchIntent := mkLaunchIntent launch_op None workload shape LinuxKvm fingerprint.
Definition evidence : LaunchEvidence :=
  mkLaunchEvidence LinuxKvm HardwareVirtualMachine OnDemand ObservedOnly (fully_observed shape) network times.
Definition receipt : ExecutionReceipt :=
  launch_receipt launch_request fingerprint (Workload_Resolved workload) LinuxKvm (Launch_Fresh evidence)
    (append_launch [mkMilestone M_Accepted 0; mkMilestone M_WorkloadResolved 10] times) cleanup_not_owned Status_Ready.
Definition active : ActiveMachine := mkActiveMachine receipt [].
Definition command_fp : RequestFingerprint := execute_fingerprint sha256 workload instance (ereq_command execute_request) (ereq_limits execute_request).
Definition tomb (digest : RequestFingerprint) : ExecutionTombstone := mkTombstone command_op command_fp (Status_Exited 0) digest.
Definition ran : ActiveMachine := mkActiveMachine receipt [tomb (digest_bytes sha256 (command_op ++ instance))].
Definition destroy_fp : RequestFingerprint := destroy_fingerprint sha256 workload instance.
Definition end_receipt (m : CleanupMethod) : ExecutionReceipt :=
  termination_receipt destroy_op instance ran destroy_fp Forced
    [mkMilestone M_Accepted 0; mkMilestone M_CleanupStarted 70; mkMilestone M_CleanupFinished 80] Status_Destroyed
    (with_method m complete_owned_machine).

Definition machines : list DurableMachine :=
  durable_with_phase instance <$>
    [Phase_Launching intent; Phase_Active active; Phase_Executing active command_op command_fp; Phase_Active ran;
     Phase_Terminating ran Op_Destroy destroy_op destroy_fp;
     Phase_Terminal (Basis_Active ran) Op_Destroy destroy_op destroy_fp (end_receipt Method_Forced)].

#[export] Instance json : Json := catalogue_json machines.
#[export] Instance laws : JsonLaws := catalogue_laws machines.

Definition runs : list (operation * list (answer unit)) :=
  [(Do_launch launch_request, [Answer_resolve (Ok resolved); Answer_store; Answer_launch (Ok launched); Answer_store]);
   (Do_execute execute_request, [Answer_store; Answer_store; Answer_execute (Ok exited); Answer_store]);
   (Do_execute execute_request, [Answer_store]);
   (Do_destroy destroy_request, [Answer_store; Answer_store; Answer_cleanup (Ok (destroyed Method_Forced)); Answer_store])].

Definition history : trace :=
  [Committed instance 1 [0]; Committed instance 2 [1]; Committed instance 3 [2]; Executed instance command_op;
   Committed instance 4 [3]; Committed instance 5 [4]; Committed instance 6 [5]].

Example played : fst <$> play_all sha256 [] LinuxKvm runs = Some history.
Proof. vm_compute. reflexivity. Qed.

Lemma history_reachable : exists ps : list (prog unit unit), reachable sha256 (history, ps).
Proof.
  destruct (play_all sha256 [] LinuxKvm runs) as [[t ps] | ] eqn:Hplay; pose proof played as Hp; rewrite Hplay in Hp; [ | done].
  injection Hp as ->. exists (ps ++ []). eapply play_all_reachable; [exact Hplay | ]. apply rtc_refl.
Qed.
End Demo.
