(* ===== verification/EngineOnce.v ===== *)
(** Engines over one store run a command at most once and never revive a machine: every record a
    program commits is a legal successor of the record it read, and a command is only executed by
    the program whose commit opened it. *)

From S2P Require Import Prelude Bytes Wire NetPolicy Portable Fingerprint Evidence EngineState Engine EngineSteps.
From stdpp Require Import options.
Local Open Scope Z_scope.

(** * Legal successors *)

Definition completed_ids (a : ActiveMachine) : list OperationId := tomb_operation_id <$> active_completed_executions a.

Inductive legal : DurablePhase -> DurablePhase -> Prop :=
| legal_retry intent : legal (Phase_Launching intent) (Phase_Launching intent)
| legal_ready intent receipt : legal (Phase_Launching intent) (Phase_Active (mkActiveMachine receipt []))
| legal_failed intent operation op fp receipt : legal (Phase_Launching intent) (Phase_Terminal (Basis_Launch intent) operation op fp receipt)
| legal_open a op fp : op ∉ completed_ids a -> legal (Phase_Active a) (Phase_Executing a op fp)
| legal_close a op fp tomb : tomb_operation_id tomb = op ->
    legal (Phase_Executing a op fp) (Phase_Active (mkActiveMachine (active_launch_receipt a) (active_completed_executions a ++ [tomb])))
| legal_settle a op fp operation op' fp' receipt : legal (Phase_Executing a op fp) (Phase_Terminal (Basis_Active a) operation op' fp' receipt)
| legal_terminate a operation op fp : legal (Phase_Active a) (Phase_Terminating a operation op fp)
| legal_end a operation op fp operation' op' fp' receipt :
    legal (Phase_Terminating a operation op fp) (Phase_Terminal (Basis_Active a) operation' op' fp' receipt).

Definition terminal_phase (p : DurablePhase) : bool := match p with Phase_Terminal _ _ _ _ _ => true | _ => false end.

(** The commands a machine has opened and not forgotten. *)
Definition opened (p : DurablePhase) : list OperationId :=
  match p with
  | Phase_Active a | Phase_Terminating a _ _ _ => completed_ids a
  | Phase_Executing a op _ => op :: completed_ids a
  | _ => []
  end.

Lemma legal_not_terminal p q : legal p q -> terminal_phase p = false.
Proof. by destruct 1. Qed.

(** A command opened before stays opened, until the machine is terminal. *)
Lemma legal_opened p q op : legal p q -> op ∈ opened p -> op ∈ opened q \/ terminal_phase q = true.
Proof.
  destruct 1; cbn; intros Hin; auto.
  - left. by apply elem_of_cons; right.
  - left. unfold completed_ids in *. cbn. rewrite fmap_app, elem_of_app. cbn. apply elem_of_cons in Hin as [-> | Hin]; [right | by left].
    by apply list_elem_of_singleton.
Qed.

Section safety.
Context {P : Type} `{Json}.
Notation prog := (prog P).

(** * What a program knows

    [fact]: the record of an Instance at a revision; facts stay true, as a revision is committed
    once.  [token]: a command this program has opened and not yet executed. *)

Notation fact := (InstanceId * StateRevision * DurableMachine)%type.
Notation token := (InstanceId * OperationId)%type.

Definition opens (i : InstanceId) (p : DurablePhase) : list token :=
  match p with Phase_Executing _ op _ => [(i, op)] | _ => [] end.

Definition initial (p : DurablePhase) : Prop := match p with Phase_Launching _ => True | _ => False end.

(** Every commit a program makes, knowing [K], is legal; every command it executes it holds a
    token for, and gives it up. *)
Fixpoint obeys {A} (K : list fact) (T : list token) (p : prog A) (Q : list fact -> list token -> A -> Prop) : Prop :=
  match p with
  | Ret a => Q K T a
  | Create i record k => exists m, json_machine record = Some m /\ initial (machine_phase m) /\
      (forall revision, obeys ((i, revision, m) :: K) T (k (Ok revision)) Q) /\ (forall e, obeys K T (k (Err e)) Q)
  | Load i k => (forall e, obeys K T (k (Err e)) Q) /\ obeys K T (k (Ok None)) Q /\
      (forall st m, json_machine (stored_record st) = Some m -> obeys ((i, stored_revision st, m) :: K) T (k (Ok (Some st))) Q) /\
      (forall st, json_machine (stored_record st) = None -> obeys K T (k (Ok (Some st))) Q)
  | CompareExchange i expected record k => exists m0 m, (i, expected, m0) ∈ K /\ json_machine record = Some m /\
      legal (machine_phase m0) (machine_phase m) /\
      (forall revision, obeys ((i, revision, m) :: K) (opens i (machine_phase m) ++ T) (k (Ok revision)) Q) /\ (forall e, obeys K T (k (Err e)) Q)
  | Resolve _ _ _ k => forall r, obeys K T (k r) Q
  | Launch _ _ _ _ _ k => forall r, obeys K T (k r) Q
  | Execute op i _ _ k => exists T', Permutation T ((i, op) :: T') /\ forall r, obeys K T' (k r) Q
  | File _ _ _ k => forall r, obeys K T (k r) Q
  | Inspect _ _ _ _ k => forall r, obeys K T (k r) Q
  | Cleanup _ _ _ k => forall r, obeys K T (k r) Q
  end.

Lemma obeys_mono {A} (p : prog A) K T (Q R : list fact -> list token -> A -> Prop) :
  obeys K T p Q -> (forall K' T' a, K ⊆ K' -> Q K' T' a -> R K' T' a) -> obeys K T p R.
Proof.
  revert K T. induction p as [a | i record k IH | i k IH | i expected record k IH | op im src k IH | op i w pr s k IH | op i c l k IH
                              | op i f k IH | op i w s k IH | op i reason k IH]; intros K T Hp HQ; cbn in *.
  - by apply HQ.
  - destruct Hp as (m & Hm & Hi & Hok & Herr). exists m. split; [done | ]. split; [done | ]. split; intros x; eapply IH; eauto.
    intros K' T' a Hsub. apply HQ. set_solver.
  - destruct Hp as (Herr & Hnone & Hsome & Hbad). split; [intros e; eapply IH; eauto | ]. split; [eapply IH; eauto | ].
    split; [intros st m Hm; eapply IH; [by eapply Hsome | ] | intros st Hst; eapply IH; eauto]. intros K' T' a Hsub. apply HQ. set_solver.
  - destruct Hp as (m0 & m & Hin & Hm & Hleg & Hok & Herr). exists m0, m. repeat (split; [done | ]). split; intros x; eapply IH; eauto.
    intros K' T' a Hsub. apply HQ. set_solver.
  - intros r. eapply IH; eauto.
  - intros r. eapply IH; eauto.
  - destruct Hp as (T' & Hperm & Hk). exists T'. split; [done | ]. intros r. eapply IH; eauto.
  - intros r. eapply IH; eauto.
  - intros r. eapply IH; eauto.
  - intros r. eapply IH; eauto.
Qed.

Lemma obeys_bind {A B} (p : prog A) (f : A -> prog B) K T Q : obeys K T p (fun K' T' a => obeys K' T' (f a) Q) -> obeys K T (bind p f) Q.
Proof.
  revert K T. induction p as [a | i record k IH | i k IH | i expected record k IH | op im src k IH | op i w pr s k IH | op i c l k IH
                              | op i f' k IH | op i w s k IH | op i reason k IH]; intros K T Hp; cbn in *; eauto.
  - destruct Hp as (m & Hm & Hi & Hok & Herr). exists m. eauto 10.
  - destruct Hp as (Herr & Hnone & Hsome & Hbad). eauto 10.
  - destruct Hp as (m0 & m & Hin & Hm & Hleg & Hok & Herr). exists m0, m. eauto 10.
  - destruct Hp as (T' & Hperm & Hk). eauto.
Qed.

Lemma obeys_try {A B E} (p : prog (Result A E)) (f : A -> prog (Result B E)) K T Q :
  obeys K T p (fun K' T' r => match r with Ok a => obeys K' T' (f a) Q | Err e => Q K' T' (Err e) end) -> obeys K T (try_bind p f) Q.
Proof. intros Hp. apply obeys_bind. eapply obeys_mono; [exact Hp | ]. by intros K' T' [a | e] _. Qed.

(** The calls that change no record, without unfolding what follows them. *)
Lemma obeys_execute {A} op i c l (k : _ -> prog A) K T Q : (forall r, obeys K T (k r) Q) -> obeys K ((i, op) :: T) (Execute op i c l k) Q.
Proof. intros Hk. by exists T. Qed.

Lemma obeys_resolve {A} op image source (k : _ -> prog A) K T Q : (forall r, obeys K T (k r) Q) -> obeys K T (Resolve op image source k) Q.
Proof. done. Qed.

Lemma obeys_launch {A} op i w pr s (k : _ -> prog A) K T Q : (forall r, obeys K T (k r) Q) -> obeys K T (Launch op i w pr s k) Q.
Proof. done. Qed.

Lemma obeys_inspect {A} op i w s (k : _ -> prog A) K T Q : (forall r, obeys K T (k r) Q) -> obeys K T (Inspect op i w s k) Q.
Proof. done. Qed.

Lemma obeys_perform_cleanup {B} op i reason ms (k : _ -> prog B) K T Q : (forall cleanup ms', obeys K T (k (cleanup, ms')) Q) ->
  obeys K T (bind (perform_cleanup op i reason ms) k) Q.
Proof. intros Hk r. cbn. destruct (cleanup_outcome _ _ _ _ _). apply Hk. Qed.

Lemma obeys_lift {A B} (r : Result A ManagedFailure) (f : A -> prog (Result B ManagedFailure)) K T Q :
  (forall a, r = Ok a -> obeys K T (f a) Q) -> (forall e, r = Err e -> Q K T (Err e)) -> obeys K T (try_bind (lift r) f) Q.
Proof. intros Hok Herr. destruct r; [by apply Hok | by apply Herr]. Qed.

(** A program that keeps the rules whatever it knows and holds. *)
Definition settled {A} : list fact -> list token -> A -> Prop := fun _ _ _ => True.

Lemma obeys_ret_settled {A} (a : A) K T : obeys K T (Ret a) settled.
Proof. done. Qed.
End safety.

#[local] Hint Resolve obeys_ret_settled : core.

(** * The programs keep the rules *)

Section programs.
Context {P : Type} `{HL : JsonLaws}.
Notation prog := (prog P).
Notation fact := (InstanceId * StateRevision * DurableMachine)%type.
Notation token := (InstanceId * OperationId)%type.

Implicit Types (K : list fact) (T : list token).

Lemma encode_means m record : machine_encode m = Ok record -> json_machine record = Some m.
Proof using Type*.
  unfold machine_encode. destruct (machine_validate m); cbn; [ | done]. destruct (json_to_vec m) as [b | ] eqn:Hb; cbn; [ | done].
  unfold record_from_bytes. destruct (_ || _); [done | ]. intros [= <-]. by apply json_roundtrip.
Qed.

Lemma decode_means st i v : machine_decode st i = Ok v ->
  json_machine (stored_record st) = Some (versioned_machine v) /\ versioned_revision v = stored_revision st /\
  machine_instance_id (versioned_machine v) = i.
Proof using Type.
  unfold machine_decode. destruct (json_schema_version _) as [z | ]; cbn; [ | done]. destruct (negb _); [done | ].
  unfold machine_from_slice. destruct (json_machine _) as [m | ]; cbn; [ | done]. destruct (_ && _); cbn; [ | done].
  destruct (bool_decide _) eqn:Hi; cbn; [ | done]. intros [= <-]. cbn. by apply bool_decide_eq_true in Hi.
Qed.

Lemma obeys_load_existing i missing K T (Q : list fact -> list token -> Result VersionedMachine ManagedFailure -> Prop) :
  (forall v, machine_instance_id (versioned_machine v) = i -> Q ((i, versioned_revision v, versioned_machine v) :: K) T (Ok v)) ->
  (forall K' e, K ⊆ K' -> Q K' T (Err e)) -> obeys K T (load_existing (P := P) i missing) Q.
Proof using Type*.
  intros Hok Herr. apply obeys_try. cbn. split; [intros e; by apply Herr | ]. split; [by apply Herr | ].
  split; [intros st m Hm | intros st Hm]; destruct (machine_decode st i) as [v | k] eqn:Hd; cbn; try (apply Herr; set_solver).
  - apply decode_means in Hd as (Hj & Hr & Hi). assert (m = versioned_machine v) as -> by congruence. rewrite <- Hr. by apply Hok.
  - apply decode_means in Hd as (Hj & _). congruence.
Qed.

Lemma obeys_create_machine m K T (Q : list fact -> list token -> Result StateRevision ManagedFailure -> Prop) : initial (machine_phase m) ->
  (forall revision, Q ((machine_instance_id m, revision, m) :: K) T (Ok revision)) -> (forall e, Q K T (Err e)) ->
  obeys K T (create_machine (P := P) m) Q.
Proof using Type*.
  intros Hi Hok Herr. unfold create_machine. destruct (machine_encode m) as [record | k] eqn:Hm; cbn; [ | done].
  exists m. split; [by apply encode_means | ]. split; [done | ]. split; intros x; cbn; [apply Hok | apply Herr].
Qed.

Lemma obeys_replace_machine revision m0 m K T (Q : list fact -> list token -> Result StateRevision ManagedFailure -> Prop) :
  (machine_instance_id m, revision, m0) ∈ K -> legal (machine_phase m0) (machine_phase m) ->
  (forall revision', Q ((machine_instance_id m, revision', m) :: K) (opens (machine_instance_id m) (machine_phase m) ++ T) (Ok revision')) ->
  (forall e, Q K T (Err e)) -> obeys K T (replace_machine (P := P) revision m) Q.
Proof using Type*.
  intros Hk Hl Hok Herr. unfold replace_machine. destruct (machine_encode m) as [record | k] eqn:Hm; cbn; [ | done].
  exists m0, m. split; [done | ]. split; [by apply encode_means | ]. split; [done | ]. split; intros x; cbn; [apply Hok | apply Herr].
Qed.

(** A program knows the phase of an Instance at a revision. *)
Definition knows K (i : InstanceId) (revision : StateRevision) (p : DurablePhase) : Prop :=
  exists m, (i, revision, m) ∈ K /\ machine_phase m = p.

Lemma knows_here K i revision m : knows ((i, revision, m) :: K) i revision (machine_phase m).
Proof using Type. exists m. by split; [left | ]. Qed.

Lemma knows_new K i revision p : knows ((i, revision, durable_with_phase i p) :: K) i revision p.
Proof using Type. apply (knows_here K i revision (durable_with_phase i p)). Qed.

(** A last commit: what is made of its answer makes no call. *)
Lemma obeys_commit_last {A} revision i p q K T (f : Result StateRevision ManagedFailure -> prog A) :
  (forall r, exists a, f r = Ret a) -> knows K i revision p -> legal p q ->
  obeys K T (bind (replace_machine (P := P) revision (durable_with_phase i q)) f) settled.
Proof using Type*.
  intros Hf (m & Hk & <-) Hl. apply obeys_bind.
  eapply obeys_replace_machine; eauto; intros x; [destruct (Hf (Ok x)) as [a ->] | destruct (Hf (Err x)) as [a ->]]; done.
Qed.

Lemma obeys_settle {A} revision i active op fp ms why observed K T (Q : list fact -> list token -> Result A ManagedFailure -> Prop) :
  knows K i revision (Phase_Executing active op fp) -> (forall K' T' e, K ⊆ K' -> Q K' T' (Err e)) ->
  obeys K T (settle_execution (P := P) revision i active op fp ms why observed) Q.
Proof using Type*.
  intros (m & Hk & Hp) HQ. apply obeys_perform_cleanup. intros cleanup ms'. cbv beta iota zeta.
  destruct observed as [[[output metadata] status] | ]; destruct (result_complete cleanup); try (by apply HQ);
    (apply obeys_bind; eapply obeys_replace_machine; [exact Hk | rewrite Hp; apply legal_settle | | ]; intros x; apply HQ; set_solver).
Qed.

Context (sha256 : bytes -> bytes) (kind : BackendKind).

Ltac answers := intros [? | ?]; eexists; reflexivity.

(** An execution that is let in has just opened its command, and may run it. *)
Lemma obeys_admit_execution request K T (Q : list fact -> list token -> Result ExecutionAdmission ManagedFailure -> Prop) :
  (forall K' a, K ⊆ K' ->
     knows K' (ereq_instance_id request) (admission_revision a)
       (Phase_Executing (admission_active a) (ereq_operation_id request) (admission_fingerprint a)) ->
     Q K' ((ereq_instance_id request, ereq_operation_id request) :: T) (Ok a)) ->
  (forall K' T' e, K ⊆ K' -> Q K' T' (Err e)) -> obeys K T (admit_execution (P := P) sha256 kind request) Q.
Proof using Type*.
  intros Hok Herr. unfold admit_execution. apply obeys_try. apply obeys_load_existing; [intros v Hi | intros; by apply Herr].
  pose proof (knows_here K (ereq_instance_id request) (versioned_revision v) (versioned_machine v)) as Hk.
  destruct (machine_phase (versioned_machine v)) as [intent | active | active op' fp' | active o op' fp' | basis o op' fp' receipt] eqn:Hp;
    try (apply Herr; set_solver).
  - apply obeys_lift; [intros _ _ | intros; apply Herr; set_solver]. apply obeys_lift; [intros w _ | intros; apply Herr; set_solver]. cbv beta zeta.
    destruct (active_completed _ _) as [tomb | ] eqn:Hc.
    { destruct (bool_decide _); apply Herr; set_solver. }
    destruct (_ <=? _)%nat; [apply Herr; set_solver | ]. apply obeys_try. eapply obeys_replace_machine; [by left | | | intros; apply Herr; set_solver].
    + rewrite Hp. cbn. apply legal_open. unfold completed_ids. rewrite list_elem_of_fmap. intros (tomb & Hop & Hin).
      unfold active_completed in Hc. eapply List.find_none in Hc; [ | by apply list_elem_of_In]. rewrite bool_decide_eq_true_2 in Hc; done.
    + intros revision. apply Hok; [set_solver | ]. apply knows_here.
  - rewrite Hi. apply obeys_settle; [done | ]. intros; apply Herr; set_solver.
  - destruct (_ && _); [ | apply Herr; set_solver]. destruct basis; [apply Herr; set_solver | ]. destruct (bool_decide _); apply Herr; set_solver.
Qed.

Lemma obeys_execute_machine request K T : obeys K T (execute_machine (P := P) sha256 kind request) settled.
Proof using Type*.
  apply obeys_try. apply obeys_admit_execution; [intros K' a Hsub Hk | done]. apply obeys_execute. intros observation.
  assert (Hfail : forall ms why observed, obeys K' T (fail_execution (P := P) (A := ExecutionReceipt * CapturedOutput) request a ms why observed) settled).
  { intros. by apply obeys_settle. }
  destruct observation as [o | failure]; [ | destruct (observed_failure _ _ _); apply Hfail].
  destruct (validate_command _ _ _ _ _ _) as [v | ]; [ | apply Hfail]. destruct (abnormal_kind _); [apply Hfail | ].
  apply obeys_lift; [intros tomb Ht | done]. destruct (tombstone_from_receipt _ _) as [tomb' | ] eqn:Hf; [injection Ht as -> | done].
  eapply obeys_commit_last; [answers | exact Hk | ]. apply legal_close. unfold tombstone_from_receipt in Hf. destruct (_ || _); [done | ].
  by injection Hf as <-.
Qed.

Lemma obeys_terminate_machine op i mode K T : obeys K T (terminate_machine (P := P) sha256 kind op i mode) settled.
Proof using Type*.
  apply obeys_try.
  apply (obeys_mono _ _ _ (fun K' _ r => match r with
    | Ok (Termination_Proceed revision active fp) => exists o op', knows K' i revision (Phase_Terminating active o op' fp)
    | _ => True end)).
  - unfold admit_termination. apply obeys_try. apply obeys_load_existing; [intros v Hi | done].
    pose proof (knows_here K i (versioned_revision v) (versioned_machine v)) as Hk. cbv zeta.
    destruct (machine_phase (versioned_machine v)) as [intent | active | active op' fp' | active o op' fp' | basis o op' fp' receipt] eqn:Hp; try done.
    + apply obeys_lift; [intros _ _ | done]. apply obeys_lift; [intros w _ | done]. apply obeys_try.
      eapply obeys_replace_machine; [by left | rewrite Hp; apply legal_terminate | | done]. intros revision. cbn. eexists _, _. apply knows_new.
    + by apply obeys_settle.
    + destruct (_ && _); [ | done]. apply obeys_lift; [intros w _ | done]. destruct (bool_decide _); [ | done]. cbn. eauto.
    + repeat (destruct (_ && _) || destruct (bool_decide _)); done.
  - intros K' T' [[revision active fp | receipt] | e] _; [ | done | done]. intros (o & op' & Hk).
    apply obeys_perform_cleanup. intros cleanup ms. cbv beta iota zeta. destruct (negb _); [done | ].
    eapply obeys_commit_last; [answers | exact Hk | apply legal_end].
Qed.

Lemma obeys_inspect_machine request K T : obeys K T (inspect_machine (P := P) sha256 kind request) settled.
Proof using Type*.
  apply obeys_try. apply obeys_load_existing; [intros v Hi | done]. destruct (machine_phase _) as [ | active | | | ]; try done.
  apply obeys_lift; [intros _ _ | done]. apply obeys_lift; [intros w _ | done]. apply obeys_inspect. intros [o | failure].
  - destruct (append_milestone _ _ _) as [ms appended]. destruct (_ || _); [done | ].
    apply obeys_try. apply obeys_load_existing; [intros v' Hi' | done]. by destruct (negb _).
  - by destruct (observed_failure _ _ _).
Qed.

Lemma obeys_file_machine request K T : obeys K T (file_machine (P := P) kind request) settled.
Proof using Type*.
  apply obeys_try. apply obeys_try. apply obeys_load_existing; [intros v Hi | done]. destruct (machine_phase _) as [ | active | | | ]; try done.
  cbn. destruct (ensure_backend kind active); [ | done]. intros [o | failure]; [ | done]. by destruct (accept_answer _ _ _).
Qed.

Lemma obeys_launch_machine request K T : obeys K T (launch_machine (P := P) sha256 kind request) settled.
Proof using Type*.
  apply obeys_resolve. intros [o | failure]; [ | by destruct (observed_failure _ _ _)]. cbv zeta.
  destruct (append_milestone _ _ _) as [ms appended]. destruct (_ || _); [done | ]. set (intent := mkLaunchIntent _ _ _ _ _ _).
  apply obeys_try.
  apply (obeys_mono _ _ _ (fun K' _ r => match r with
    | Ok (Launch_Proceed revision _) => knows K' (lreq_instance_id request) revision (Phase_Launching intent)
    | _ => True end)).
  - unfold admit_launch. cbv zeta. apply obeys_bind. apply obeys_create_machine; [done | intros; apply knows_here | ]. intros e.
    destruct (negb _); [done | ]. apply obeys_try. apply obeys_load_existing; [intros v Hi | done].
    pose proof (knows_here K (lreq_instance_id request) (versioned_revision v) (versioned_machine v)) as Hk.
    destruct (machine_phase (versioned_machine v)) as [existing | active | | | basis op' opid fp receipt] eqn:Hp; try done.
    + destruct (bool_decide_reflect (existing = intent)) as [-> | ]; [ | done]. apply obeys_perform_cleanup. intros cleanup ms'. cbv beta iota zeta.
      destruct (negb _); [done | ]. apply obeys_try. eapply obeys_replace_machine; [by left | rewrite Hp; apply legal_retry | | done].
      intros revision. cbn. apply knows_here.
    + by destruct (_ && _).
    + destruct basis; [ | done]. destruct op'; try done. by destruct (_ && _).
  - intros K' T' [[revision ms' | receipt] | e] _; [ | done | done]. intros Hk.
    assert (Hfail : forall ms why, obeys K' T' (fail_launch (P := P) (A := ExecutionReceipt) kind request intent revision
                                            (intent_request_fingerprint intent) (resolved_workload o) ms why) settled).
    { intros ms0 why. apply obeys_perform_cleanup. intros cleanup ms1. cbv beta iota zeta. destruct (result_complete cleanup); [ | done].
      eapply obeys_commit_last; [answers | exact Hk | apply legal_failed]. }
    apply obeys_launch. intros [observation | failure]; [ | destruct (observed_failure _ _ _); apply Hfail].
    destruct (validate_launch _ _ _ _ _ _ _) as [launch | ]; [ | apply Hfail].
    eapply obeys_commit_last; [answers | exact Hk | apply legal_ready].
Qed.

Theorem obeys_program o K T : obeys K T (program (P := P) sha256 kind o) settled.
Proof using Type*.
  unfold program, discard. destruct o; apply obeys_bind; (eapply obeys_mono; [ | by intros K' T' a _ _]);
    first [apply obeys_launch_machine | apply obeys_execute_machine | apply obeys_terminate_machine | apply obeys_inspect_machine | apply obeys_file_machine].
Qed.
End programs.

(** Engines over one store run a command at most once and never revive a machine. *)

Section once.
Context {P : Type} `{HL : JsonLaws}.
Notation prog := (prog P).
Notation fact := (InstanceId * StateRevision * DurableMachine)%type.
Notation token := (InstanceId * OperationId)%type.

(** * The history of an Instance *)

(** The records of an Instance: the first is a launch, each replaces the one before it legally, at
    a later revision. *)
Inductive lawful : list StoredState -> Prop :=
| lawful_none : lawful []
| lawful_first st m : json_machine (stored_record st) = Some m -> initial (machine_phase m) -> lawful [st]
| lawful_next l st st' m m' : lawful (l ++ [st]) -> json_machine (stored_record st) = Some m -> json_machine (stored_record st') = Some m' ->
    legal (machine_phase m) (machine_phase m') -> stored_revision st < stored_revision st' -> lawful ((l ++ [st]) ++ [st']).

Lemma lawful_revisions l : lawful l -> forall st st', last l = Some st -> st' ∈ l -> stored_revision st' <= stored_revision st.
Proof using Type.
  induction 1 as [ | st0 m Hm Hi | l st0 st1 m m' Hl IH Hm Hm' Hleg Hrev]; intros st st' Hlast Hin.
  - done.
  - injection Hlast as <-. apply list_elem_of_singleton in Hin as ->. lia.
  - rewrite last_snoc in Hlast. injection Hlast as <-. apply elem_of_app in Hin as [Hin | Hin].
    + assert (stored_revision st' <= stored_revision st0) by (apply IH; [apply last_snoc | done]). lia.
    + apply list_elem_of_singleton in Hin as ->. lia.
Qed.

(** A revision is committed once: what is known of it is what the store holds. *)
Lemma lawful_unique l : lawful l -> forall st st', st ∈ l -> st' ∈ l -> stored_revision st = stored_revision st' -> st = st'.
Proof using Type.
  induction 1 as [ | st0 m Hm Hi | l st0 st1 m m' Hl IH Hm Hm' Hleg Hrev]; intros st st' Hin Hin' Heq.
  - by apply not_elem_of_nil in Hin.
  - apply list_elem_of_singleton in Hin as ->. by apply list_elem_of_singleton in Hin' as ->.
  - pose proof (lawful_revisions _ Hl st0) as Hle. rewrite last_snoc in Hle.
    rewrite elem_of_app, list_elem_of_singleton in Hin, Hin'. destruct Hin as [Hin | ->], Hin' as [Hin' | ->]; [by apply IH | | | done];
      [specialize (Hle st eq_refl Hin) | specialize (Hle st' eq_refl Hin')]; lia.
Qed.

Definition opens_command (op : OperationId) (st : StoredState) : Prop :=
  exists m a fp, json_machine (stored_record st) = Some m /\ machine_phase m = Phase_Executing a op fp.

#[global] Instance opens_command_dec op st : Decision (opens_command op st).
Proof.
  unfold opens_command. destruct (json_machine (stored_record st)) as [m | ]; [ | right; by intros (? & ? & ? & ? & ?)].
  destruct (machine_phase m) as [ | | a op' fp | | ] eqn:Hm; try (right; intros (m' & a' & fp' & [= <-] & Hp); congruence).
  destruct (decide (op' = op)) as [-> | Hne]; [left; eauto 10 | right; intros (m' & a' & fp' & [= <-] & Hp); congruence].
Defined.

Definition openings (op : OperationId) (l : list StoredState) : nat := length (filter (opens_command op) l).

Lemma openings_snoc op l st : openings op (l ++ [st]) = (openings op l + if decide (opens_command op st) then 1 else 0)%nat.
Proof using Type. unfold openings. rewrite filter_app, length_app. cbn. by destruct (decide _). Qed.

(** A command is opened once, and remembered until the machine is terminal. *)
Lemma lawful_opens_once l op : lawful l ->
  (openings op l <= 1)%nat /\
  forall st m, last l = Some st -> json_machine (stored_record st) = Some m -> (0 < openings op l)%nat ->
    op ∈ opened (machine_phase m) \/ terminal_phase (machine_phase m) = true.
Proof using Type.
  induction 1 as [ | st0 m Hm Hi | l st0 st1 m m' Hl [IHle IH] Hm Hm' Hleg Hrev].
  - split; [cbn; lia | done].
  - assert (openings op [st0] = 0%nat) as ->; [ | split; [lia | intros; lia]].
    change [st0] with ([] ++ [st0]). rewrite openings_snoc. destruct (decide _) as [(m' & a & fp & Hm' & Hp) | ]; [ | done].
    rewrite Hm in Hm'. injection Hm' as <-. by rewrite Hp in Hi.
  - specialize (IH st0 m (last_snoc _ _) Hm). rewrite (openings_snoc op (l ++ [st0]) st1). rewrite last_snoc.
    destruct (decide _) as [(m1 & a & fp & Hm1 & Hp) | Hno].
    + rewrite Hm' in Hm1. injection Hm1 as <-. rewrite Hp in *.
      assert (openings op (l ++ [st0]) = 0%nat) as ->.
      { inversion Hleg as [ | | | a' op' fp' Hfresh Ha Hb | | | | ]; subst. destruct (openings op (l ++ [st0])) eqn:Ho; [done | ].
        exfalso. rewrite <- Ha in IH. destruct IH as [Hin | Ht]; [lia | by apply Hfresh | done]. }
      split; [lia | ]. intros st m2 [= <-] Hm2 _. rewrite Hm' in Hm2. injection Hm2 as <-. rewrite Hp. left. by left.
    + rewrite Nat.add_0_r. split; [done | ]. intros st m2 [= <-] Hm2 Hpos. rewrite Hm' in Hm2. injection Hm2 as <-.
      destruct (IH Hpos) as [Hin | Ht]; [by eapply legal_opened | ]. apply legal_not_terminal in Hleg. congruence.
Qed.

(** Nothing follows a terminal record. *)
Lemma lawful_terminal l l' st m : lawful (l ++ st :: l') -> json_machine (stored_record st) = Some m -> terminal_phase (machine_phase m) = true -> l' = [].
Proof using Type.
  remember (l ++ st :: l') as whole eqn:Hw. intros Hl. revert l l' Hw.
  induction Hl as [ | st0 m0 Hm0 Hi | k st0 st1 m0 m1 Hl IH Hm0 Hm1 Hleg Hrev]; intros l l' Hw Hm Ht.
  - by destruct l.
  - destruct l as [ | ? [ | ? ?]]; [by injection Hw as -> <- | done | done].
  - induction l' as [ | x l' _] using rev_ind; [done | exfalso]. rewrite app_comm_cons, app_assoc in Hw. apply app_inj_tail in Hw as [Hw _].
    pose proof (IH _ _ Hw Hm Ht) as ->. apply app_inj_tail in Hw as [_ ->]. rewrite Hm0 in Hm. injection Hm as <-.
    apply legal_not_terminal in Hleg. congruence.
Qed.

(** * What a trace accounts for *)

Definition known (t : trace) (f : fact) : Prop :=
  exists record, mkStoredState f.1.2 record ∈ commits f.1.1 t /\ json_machine record = Some f.2.

Definition executions (i : InstanceId) (op : OperationId) (t : trace) : nat := length (filter (.= Executed i op) t).
Definition held (i : InstanceId) (op : OperationId) (T : list token) : nat := length (filter (.= (i, op)) T).

(** Every command executed or about to be was opened by a commit of its own. *)
Definition balanced (t : trace) (T : list token) : Prop :=
  forall i op, (executions i op t + held i op T <= openings op (commits i t))%nat.

Definition written_ahead (t : trace) : Prop :=
  forall t1 i op t2, t = t1 ++ Executed i op :: t2 -> (0 < openings op (commits i t1))%nat.

Lemma known_snoc t e f : known t f -> known (t ++ [e]) f.
Proof using Type. intros (record & Hin & Hm). exists record. rewrite commits_snoc, elem_of_app. auto. Qed.

Lemma held_app i op T T' : held i op (T ++ T') = (held i op T + held i op T')%nat.
Proof using Type. unfold held. by rewrite filter_app, length_app. Qed.

Lemma executions_snoc i op t e : executions i op (t ++ [e]) = (executions i op t + if decide (e = Executed i op) then 1 else 0)%nat.
Proof using Type. unfold executions. rewrite filter_app, length_app. cbn. by destruct (decide _). Qed.

Lemma held_opens i op j m record revision : json_machine record = Some m ->
  (held i op (opens j (machine_phase m)) <= openings op (option_list (commit_of i (Committed j revision record))))%nat.
Proof using Type.
  intros Hm. destruct (machine_phase m) as [ | | a op' fp | | ] eqn:Hp; try (cbn; lia). cbn [opens].
  destruct (decide ((j, op') = (i, op))) as [[= -> ->] | Hne]; [ | unfold held; rewrite filter_cons_False by done; cbn; lia].
  rewrite commit_of_self. change (option_list (Some (mkStoredState revision record))) with ([] ++ [mkStoredState revision record]).
  rewrite openings_snoc. rewrite decide_True by (exists m, a, fp; done). unfold held. rewrite filter_cons_True by done. cbn. lia.
Qed.

Lemma balanced_commit t T i revision record m : json_machine record = Some m -> balanced t T ->
  balanced (t ++ [Committed i revision record]) (opens i (machine_phase m) ++ T).
Proof using Type.
  intros Hm Hb j op. specialize (Hb j op). rewrite executions_snoc, decide_False by done. rewrite held_app, commits_snoc.
  pose proof (held_opens j op i m record revision Hm) as Ho. unfold openings in *. rewrite filter_app, length_app. lia.
Qed.

Lemma balanced_drop t T T' : balanced t (T ++ T') -> balanced t T'.
Proof using Type. intros Hb i op. specialize (Hb i op). rewrite held_app in Hb. lia. Qed.

Lemma balanced_execute t T i op : balanced t ((i, op) :: T) -> balanced (t ++ [Executed i op]) T.
Proof using Type.
  intros Hb j op'. specialize (Hb j op'). rewrite executions_snoc, commits_other by done. change ((i, op) :: T) with ([(i, op)] ++ T) in Hb.
  rewrite held_app in Hb. destruct (decide (Executed i op = Executed j op')) as [[= -> ->] | ]; [ | lia].
  unfold held at 1 in Hb. rewrite filter_cons_True in Hb by done. cbn in Hb. lia.
Qed.

Lemma balanced_perm t T T' : Permutation T T' -> balanced t T -> balanced t T'.
Proof using Type. intros Hp Hb i op. specialize (Hb i op). unfold held in *. by rewrite Hp in Hb. Qed.

Lemma written_ahead_snoc t e : written_ahead t -> (forall i op, e = Executed i op -> (0 < openings op (commits i t))%nat) -> written_ahead (t ++ [e]).
Proof using Type.
  intros Ht He t1 i op t2 Heq. induction t2 as [ | x t2 _] using rev_ind.
  - apply app_inj_tail in Heq as [-> ->]. by apply He.
  - rewrite app_comm_cons, app_assoc in Heq. apply app_inj_tail in Heq as [-> _]. by eapply Ht.
Qed.

Lemma lawful_commit t i revision record : (forall j, lawful (commits j t)) -> lawful (commits i t ++ [mkStoredState revision record]) ->
  forall j, lawful (commits j (t ++ [Committed i revision record])).
Proof using Type.
  intros Ht Hi j. destruct (decide (i = j)) as [-> | Hne]; [by rewrite commits_self | ]. by rewrite commits_other by (by apply commit_of_other).
Qed.

(** An exchange that replaces the record a program knows is lawful. *)
Lemma lawful_exchange t i st revision record m0 m : lawful (commits i t) -> current i t = Some st -> known t (i, stored_revision st, m0) ->
  json_machine record = Some m -> legal (machine_phase m0) (machine_phase m) -> stored_revision st < revision ->
  lawful (commits i t ++ [mkStoredState revision record]).
Proof using Type.
  intros Hl Hcur (known_record & Hin & Hm0) Hm Hleg Hrev. cbn in *. unfold current in Hcur.
  pose proof Hcur as (l & Hlast)%last_Some. assert (mkStoredState (stored_revision st) known_record = st) as Hst.
  { apply (lawful_unique _ Hl); [done | | done]. rewrite Hlast. apply elem_of_app. right. by left. }
  rewrite Hlast in *. eapply lawful_next; eauto. by rewrite <- Hst.
Qed.

(** * Steps keep the account *)

(** What holds of a trace, with the tokens its programs hold. *)
Record accounted (t : trace) (T : list token) : Prop := {
  accounted_lawful : forall i, lawful (commits i t);
  accounted_balanced : balanced t T;
  accounted_ahead : written_ahead t
}.

Definition follows (t : trace) (p : prog unit) (K : list fact) (T : list token) : Prop := obeys K T p settled /\ Forall (known t) K.

Lemma known_all_snoc t e K : Forall (known t) K -> Forall (known (t ++ [e])) K.
Proof using Type. intros HK. eapply Forall_impl; [exact HK | ]. intros f. apply known_snoc. Qed.

Lemma accounted_commit t T i revision record m : json_machine record = Some m -> lawful (commits i t ++ [mkStoredState revision record]) ->
  accounted t T -> accounted (t ++ [Committed i revision record]) (opens i (machine_phase m) ++ T).
Proof using Type.
  intros Hm Hl [H1 H2 H3]. split; [by apply lawful_commit | by apply balanced_commit | ]. by apply written_ahead_snoc.
Qed.

Lemma accounted_drop t T T' : accounted t (T ++ T') -> accounted t T'.
Proof using Type. intros [H1 H2 H3]. split; [done | by eapply balanced_drop | done]. Qed.

Lemma accounted_execute t T T' i op : Permutation T ((i, op) :: T') -> accounted t T -> accounted (t ++ [Executed i op]) T'.
Proof using Type.
  intros Hp [H1 H2 H3]. apply (balanced_perm _ _ _ Hp) in H2. split.
  - intros j. by rewrite commits_other.
  - by apply balanced_execute.
  - apply written_ahead_snoc; [done | ]. intros j op' [= <- <-]. specialize (H2 i op). unfold held in H2. rewrite filter_cons_True in H2 by done. cbn in H2. lia.
Qed.

Lemma known_new t i revision record m K : json_machine record = Some m -> Forall (known t) K ->
  Forall (known (t ++ [Committed i revision record])) ((i, revision, m) :: K).
Proof using Type.
  intros Hm HK. constructor; [ | by apply known_all_snoc]. exists record. split; [ | done]. cbn [fst snd]. rewrite commits_self, elem_of_app. right. by left.
Qed.

Lemma call_keeps t p t' p' K T rest : call_step t p t' p' -> follows t p K T -> accounted t (T ++ rest) ->
  (exists K' T', follows t' p' K' T' /\ accounted t' (T' ++ rest)) /\ forall f, known t f -> known t' f.
Proof using Type.
  intros Hstep [Hp HK] Ha. pose proof (accounted_lawful _ _ Ha) as Hlaw.
  destruct Hstep as [i record k t' r Hc | i k r Hl | i expected record k t' r He | | | op i c l k r | | | ]; cbn in Hp.
  - destruct Hp as (m & Hm & Hi & Hok & Herr).
    assert (Hnew : forall revision, current i t = None -> lawful (commits i t ++ [mkStoredState revision record])).
    { intros revision Hnone. unfold current in Hnone. apply last_None in Hnone as ->. by eapply lawful_first. }
    destruct Hc as [revision Hnone | revision e Hnone | e]; (split; [ | intros f; try apply known_snoc; done]).
    + exists ((i, revision, m) :: K), T. split; [split; [done | by apply known_new] | ]. eapply accounted_drop, accounted_commit; eauto.
    + exists K, T. split; [split; [done | by apply known_all_snoc] | ]. eapply accounted_drop, accounted_commit; eauto.
    + exists K, T. done.
  - destruct Hp as (Herr & Hnone & Hsome & Hbad). split; [ | done]. destruct Hl as [ | e]; [ | by exists K, T].
    destruct (current i t) as [st | ] eqn:Hcur; [ | by exists K, T]. destruct (json_machine (stored_record st)) as [m | ] eqn:Hm; [ | exists K, T; split; [split; auto | done]].
    exists ((i, stored_revision st, m) :: K), T. split; [split; [auto | ] | done]. constructor; [ | done]. exists (stored_record st). split; [ | done].
    cbn. unfold current in Hcur. apply last_Some_elem_of in Hcur. by destruct st.
  - destruct Hp as (m0 & m & Hin & Hm & Hleg & Hok & Herr). rewrite Forall_forall in HK. pose proof (HK _ Hin) as Hkn. rewrite <- Forall_forall in HK.
    destruct He as [st revision Hcur <- Hlt | st revision e Hcur <- Hlt | e]; (split; [ | intros f; try apply known_snoc; done]);
      [ | | by exists K, T]; (assert (lawful (commits i t ++ [mkStoredState revision record])) by (by eapply lawful_exchange)).
    + exists ((i, revision, m) :: K), (opens i (machine_phase m) ++ T). split; [split; [done | by apply known_new] | ].
      rewrite <- app_assoc. by apply accounted_commit.
    + exists K, T. split; [split; [done | by apply known_all_snoc] | ]. eapply accounted_drop, accounted_commit; eauto.
  - split; [by exists K, T | done].
  - split; [by exists K, T | done].
  - destruct Hp as (T' & Hperm & Hk). split; [ | intros f; apply known_snoc]. exists K, T'. split; [split; [done | by apply known_all_snoc] | ].
    eapply accounted_execute; [ | exact Ha]. by rewrite Hperm.
  - split; [by exists K, T | done].
  - split; [by exists K, T | done].
  - split; [by exists K, T | done].
Qed.

(** * Reachable configurations *)

Context (sha256 : bytes -> bytes).

Definition tokens (gs : list (list fact * list token)) : list token := concat (gs.*2).

Definition safe (c : trace * list (prog unit)) : Prop :=
  exists gs, Forall2 (fun p g => follows c.1 p g.1 g.2) c.2 gs /\ accounted c.1 (tokens gs).

Lemma tokens_middle gs g hs : Permutation (tokens (gs ++ g :: hs)) (g.2 ++ tokens (gs ++ hs)).
Proof using Type. unfold tokens. rewrite !fmap_app, fmap_cons, !concat_app. cbn. by rewrite app_assoc, (Permutation_app_comm (concat _) g.2), <- app_assoc. Qed.

Lemma accounted_perm t T T' : Permutation T T' -> accounted t T -> accounted t T'.
Proof using Type. intros Hp [H1 H2 H3]. split; [done | by eapply balanced_perm | done]. Qed.

Lemma step_safe c c' : step sha256 c c' -> safe c -> safe c'.
Proof using Type*.
  intros Hstep (gs & Hgs & Ha). destruct Hstep as [t ps kind o | t ps qs p t' p' Hcall | t ps qs p]; cbn in *.
  - exists (([], []) :: gs). split; [ | done]. constructor; [ | done]. split; [apply obeys_program | constructor].
  - apply Forall2_app_inv_l in Hgs as (g1 & g2 & H1 & H2 & ->). apply Forall2_cons_inv_l in H2 as (g & g3 & Hg & H3 & ->).
    apply (accounted_perm _ _ _ (tokens_middle g1 g g3)) in Ha.
    destruct (call_keeps _ _ _ _ _ _ _ Hcall Hg Ha) as ((K' & T' & Hf & Ha') & Hmono).
    assert (Hkeep : forall p g, follows t p g.1 g.2 -> follows t' p g.1 g.2).
    { intros q h [Hw HK]. split; [done | ]. by eapply Forall_impl. }
    exists (g1 ++ (K', T') :: g3). split.
    + apply Forall2_app; [by eapply Forall2_impl | constructor; [done | by eapply Forall2_impl]].
    + eapply accounted_perm; [symmetry; apply tokens_middle | done].
  - apply Forall2_app_inv_l in Hgs as (g1 & g2 & H1 & H2 & ->). apply Forall2_cons_inv_l in H2 as (g & g3 & Hg & H3 & ->).
    exists (g1 ++ g3). split; [by apply Forall2_app | ]. eapply accounted_drop, accounted_perm; [apply tokens_middle | done].
Qed.

Lemma reachable_safe c : reachable sha256 c -> safe c.
Proof using Type*.
  unfold reachable. intros Hr. eapply (rtc_ind_r (fun c => safe c)); [ | | exact Hr].
  - exists []. split; [constructor | ]. split; [constructor | intros i op; cbn; lia | by intros [] ? ? ? ?].
  - intros y z _ Hyz Hy. by eapply step_safe.
Qed.
End once.

(** C2: whatever requests arrive at engines over one store, however their calls interleave, and wherever
    they are cut short or lose an answer: a command is executed at most once; it is executed only after a
    record that opens it was committed; and once a terminal record is committed, no record of that
    machine follows. *)
Theorem executes_once {P} `{JsonLaws} (sha256 : bytes -> bytes) (t : trace) (ps : list (prog P unit)) :
  reachable sha256 (t, ps) ->
  (forall i op, (executions i op t <= 1)%nat) /\
  (forall t1 i op t2, t = t1 ++ Executed i op :: t2 -> exists revision record m a fp,
     Committed i revision record ∈ t1 /\ json_machine record = Some m /\ machine_phase m = Phase_Executing a op fp) /\
  (forall t1 i revision record t2 m, t = t1 ++ Committed i revision record :: t2 -> json_machine record = Some m ->
     terminal_phase (machine_phase m) = true -> forall revision' record', Committed i revision' record' ∉ t2).
Proof.
  intros (gs & _ & [Hlaw Hbal Hahead])%reachable_safe. cbn [fst snd] in *. split; [ | split].
  - intros i op. specialize (Hbal i op). pose proof (lawful_opens_once _ op (Hlaw i)) as [Hle _]. lia.
  - intros t1 i op t2 Heq. specialize (Hahead _ _ _ _ Heq). unfold openings in Hahead.
    destruct (filter (opens_command op) (commits i t1)) as [ | st l] eqn:Hf; [cbn in Hahead; lia | ].
    assert (st ∈ filter (opens_command op) (commits i t1)) as [(m & a & fp & Hm & Hp) Hin]%list_elem_of_filter by (rewrite Hf; by left).
    apply list_elem_of_omap in Hin as ([j revision record | ] & Hin & Hc); [ | done]. cbn in Hc. case_bool_decide; [subst j | done].
    injection Hc as <-. exists revision, record, m, a, fp. done.
  - intros t1 i revision record t2 m -> Hm Ht revision' record' Hin. specialize (Hlaw i).
    unfold commits in Hlaw. rewrite omap_app in Hlaw. cbn in Hlaw. rewrite bool_decide_eq_true_2 in Hlaw by done.
    pose proof (lawful_terminal _ _ _ _ Hlaw Hm Ht) as Hnil.
    assert (mkStoredState revision' record' ∈ omap (commit_of i) t2) as Hc.
    { apply list_elem_of_omap. exists (Committed i revision' record'). split; [done | apply commit_of_self]. }
    rewrite Hnil in Hc. by apply not_elem_of_nil in Hc.
Qed.

#[local] Existing Instance Demo.json.
#[local] Existing Instance Demo.laws.

Lemma executes_once_witness : exists ps : list (prog unit unit), reachable Demo.sha256 (Demo.history, ps) /\
  executions Demo.instance Demo.command_op Demo.history = 1%nat /\
  (forall i op, (executions i op Demo.history <= 1)%nat) /\
  (forall revision record, Committed Demo.instance revision record ∉ []).
Proof.
  destruct Demo.history_reachable as [ps Hr]. exists ps. split; [exact Hr | ]. split; [vm_compute; reflexivity | ].
  pose proof (executes_once Demo.sha256 Demo.history ps Hr) as (Hone & _ & Hend). split; [exact Hone | ].
  apply (Hend (take 6 Demo.history) Demo.instance 6 [5] [] (durable_with_phase Demo.instance
    (Phase_Terminal (Basis_Active Demo.ran) Op_Destroy Demo.destroy_op Demo.destroy_fp (Demo.end_receipt Method_Forced)))); reflexivity.
Defined.
