(* ===== verification/EngineReplay.v ===== *)
(** Which of the records an engine writes can be read again. *)

From S2P Require Import Prelude Bytes Wire NetPolicy Portable Fingerprint FingerprintProps Evidence EngineState Engine EngineSteps EngineOnce.
From stdpp Require Import options.
Local Open Scope Z_scope.

(** * The records a program writes *)

Section writes.
Context {P : Type} `{Json}.

(** Every record [p] may write satisfies [R], and whatever it returns [Q]. *)
Fixpoint writes {A} (R : InstanceId -> StateRecord -> Prop) (p : prog P A) (Q : A -> Prop) : Prop :=
  match p with
  | Ret a => Q a
  | Create i record k => R i record /\ forall r, writes R (k r) Q
  | Load i k => forall r, writes R (k r) Q
  | CompareExchange i _ record k => R i record /\ forall r, writes R (k r) Q
  | Resolve _ _ _ k => forall r, writes R (k r) Q
  | Launch _ _ _ _ _ k => forall r, writes R (k r) Q
  | Execute _ _ _ _ k => forall r, writes R (k r) Q
  | File _ _ _ k => forall r, writes R (k r) Q
  | Inspect _ _ _ _ k => forall r, writes R (k r) Q
  | Cleanup _ _ _ k => forall r, writes R (k r) Q
  end.

Lemma writes_bind {A B} R (p : prog P A) (f : A -> prog P B) Q : writes R p (fun a => writes R (f a) Q) -> writes R (bind p f) Q.
Proof.
  induction p as [a | i record k IH | i k IH | i expected record k IH | op im src k IH | op i w pr s k IH | op i c l k IH
                  | op i f' k IH | op i w s k IH | op i reason k IH]; cbn; intros Hp; eauto.
  - destruct Hp as [HR Hk]. eauto.
  - destruct Hp as [HR Hk]. eauto.
Qed.

Lemma writes_mono {A} R (p : prog P A) (Q Q' : A -> Prop) : writes R p Q -> (forall a, Q a -> Q' a) -> writes R p Q'.
Proof.
  intros Hp HQ. induction p as [a | i record k IH | i k IH | i expected record k IH | op im src k IH | op i w pr s k IH | op i c l k IH
                  | op i f' k IH | op i w s k IH | op i reason k IH]; cbn in *; eauto.
  - destruct Hp as [HR Hk]. eauto.
  - destruct Hp as [HR Hk]. eauto.
Qed.

Lemma writes_try {A B E} R (p : prog P (Result A E)) (f : A -> prog P (Result B E)) Q :
  writes R p (fun r => match r with Ok a => writes R (f a) Q | Err e => Q (Err e) end) -> writes R (try_bind p f) Q.
Proof. intros Hp. apply writes_bind. eapply writes_mono; [exact Hp | ]. by intros [a | e]. Qed.

Lemma writes_lift {A B} R (r : Result A ManagedFailure) (f : A -> prog P (Result B ManagedFailure)) Q :
  (forall a, r = Ok a -> writes R (f a) Q) -> (forall e, r = Err e -> Q (Err e)) -> writes R (try_bind (lift r) f) Q.
Proof. intros Hok Herr. destruct r; [by apply Hok | by apply Herr]. Qed.

(** A cleanup: what the engine makes of any answer. *)
Lemma writes_cleanup {B} R op i reason ms (k : _ -> prog P B) Q :
  (forall cleanup ms' answer, cleanup_outcome op i reason ms answer = (cleanup, ms') -> writes R (k (cleanup, ms')) Q) ->
  writes R (bind (perform_cleanup op i reason ms) k) Q.
Proof. intros Hk r. cbn. destruct (cleanup_outcome _ _ _ _ _) as [cleanup ms'] eqn:Hc. by eapply Hk. Qed.

Lemma writes_load R i missing (Q : Result VersionedMachine ManagedFailure -> Prop) :
  (forall st v, machine_decode st i = Ok v -> Q (Ok v)) -> (forall e, Q (Err e)) -> writes R (load_existing (P := P) i missing) Q.
Proof.
  intros Hok Herr. apply writes_try. intros [[st | ] | k]; cbn; [ | done | done]. destruct (machine_decode st i) eqn:Hd; cbn; [by eapply Hok | done].
Qed.

Lemma writes_replace R revision m (Q : Result StateRevision ManagedFailure -> Prop) :
  (forall record, machine_encode m = Ok record -> R (machine_instance_id m) record) -> (forall r, Q r) ->
  writes R (replace_machine (P := P) revision m) Q.
Proof. intros Hm HQ. unfold replace_machine. destruct (machine_encode m) as [record | k]; cbn; [split; [by apply Hm | intros r; apply HQ] | apply HQ]. Qed.

Lemma writes_create R m (Q : Result StateRevision ManagedFailure -> Prop) :
  (forall record, machine_encode m = Ok record -> R (machine_instance_id m) record) -> (forall r, Q r) ->
  writes R (create_machine (P := P) m) Q.
Proof. intros Hm HQ. unfold create_machine. destruct (machine_encode m) as [record | k]; cbn; [split; [by apply Hm | intros r; apply HQ] | apply HQ]. Qed.
End writes.

(** * Valid receipts *)

(** The records that can be read back: those of failed launches cannot, nor those of a destroyed
    machine whose cleanup was graceful first, nor those of an interrupted command where nothing was
    owned. *)
Definition rereadable (p : DurablePhase) : bool :=
  match p with
  | Phase_Terminal _ operation _ _ r =>
      negb (bool_decide (operation = Op_Launch)) &&
      match receipt_terminal_status r with
      | Status_Destroyed => negb (bool_decide (cleanup_method (receipt_cleanup r) = Method_GracefulThenForced))
      | Status_Signaled _ | Status_TimedOut | Status_OutputLimitExceeded => negb (cleanup_all_not_owned (receipt_cleanup r))
      | _ => true
      end
  | _ => true
  end.

Lemma decode_written `{JsonLaws} m record revision : machine_encode m = Ok record -> machine_schema_version m = STATE_SCHEMA_VERSION ->
  machine_decode (mkStoredState revision record) (machine_instance_id m) =
  if forallb receipt_validate (phase_receipts (machine_phase m)) then Ok (mkVersionedMachine revision m) else Err Store_Corrupt.
Proof.
  unfold machine_encode. destruct (machine_validate m) as [[] | ] eqn:Hv; cbn; [ | done]. destruct (json_to_vec m) as [b | ] eqn:Hb; cbn; [ | done].
  unfold record_from_bytes. destruct (_ || _); [done | ]. intros [= <-] Hs. apply json_roundtrip in Hb as [Hm Hz].
  unfold machine_decode, machine_from_slice. cbn [stored_record]. rewrite Hz, Hm. cbn [ok_or]. rewrite Hs, Z.eqb_refl, Hv.
  cbn [negb ok_or]. destruct (forallb _ _); cbn; [ | done]. by rewrite bool_decide_eq_true_2.
Qed.

(** The part of [receipt_validate] that depends on the end of an operation, not on the launch. *)
Definition sequence_valid (r : ExecutionReceipt) : bool :=
  bool_decide (head (receipt_milestones r) = Some (mkMilestone M_Accepted 0)) &&
  non_decreasing (milestone_elapsed_ns <$> receipt_milestones r) && allowed_milestones r && phase_dependencies_hold r &&
  terminal_is_consistent r.

Definition launch_valid (r : ExecutionReceipt) : bool :=
  workload_is_consistent r && shape_matches_request (receipt_effective_shape r) (receipt_requested_shape r) &&
  network_matches_request (receipt_effective_network r) (shape_capabilities (receipt_requested_shape r)).

Definition output_allowed (r : ExecutionReceipt) : bool :=
  match receipt_output r with
  | Observed output => match receipt_operation r with Op_Run | Op_Execute => output_is_valid output | _ => false end
  | Unavailable _ => true
  end.

Lemma validate_split r : receipt_schema_version r = RECEIPT_SCHEMA_VERSION -> receipt_soma_version r = SOMA_VERSION ->
  receipt_validate r = sequence_valid r && launch_valid r && measurement_is_consistent r && output_allowed r.
Proof.
  intros Hs Hv. unfold receipt_validate, sequence_valid, launch_valid, output_allowed. rewrite Hs, Hv. change (RECEIPT_SCHEMA_VERSION =? RECEIPT_SCHEMA_VERSION) with true.
  rewrite bool_decide_eq_false_2 by done. cbn [negb andb]. by rewrite <- !andb_assoc.
Qed.

Lemma launch_valid_of r : receipt_validate r = true -> launch_valid r = true.
Proof.
  unfold receipt_validate, launch_valid. rewrite !andb_true_iff. intuition.
Qed.

(** A later receipt of a machine carries what its launch receipt says of the launch. *)
Lemma launch_valid_stored launch operation op i name fp backend ms terminal output cleanup measurement :
  receipt_validate launch = true -> operation = Op_Execute \/ operation = Op_Stop \/ operation = Op_Destroy ->
  launch_valid (managed_receipt operation op i name fp (receipt_workload launch) backend (Launch_Stored launch)
                  (receipt_requested_shape launch) ms terminal output cleanup measurement) = true.
Proof.
  intros Hl%launch_valid_of Hop. unfold launch_valid in *. rewrite !andb_true_iff in *. destruct Hl as [[Hw Hs] Hn].
  split; [split; [ | done] | done]. unfold workload_is_consistent in *. apply andb_true_iff in Hw as [Hw _]. apply andb_true_iff.
  split; [exact Hw | ]. by destruct Hop as [-> | [-> | ->]].
Qed.

(** * Milestones *)

Definition latest (ms : list Milestone) : Z := match last ms with Some m => milestone_elapsed_ns m | None => 0 end.

Lemma append_milestone_later ms kind t : latest ms <= t -> append_milestone ms kind t = (ms ++ [mkMilestone kind t], true).
Proof.
  unfold latest, append_milestone. destruct (last ms) as [m | ]; cbn; [ | done]. intros Hle. by rewrite (proj2 (Z.ltb_ge _ _)).
Qed.

Lemma append_milestone_done ms kind t ms' : append_milestone ms kind t = (ms', true) ->
  ms' = ms ++ [mkMilestone kind t] /\ (ms <> [] -> latest ms <= t).
Proof.
  unfold latest, append_milestone. destruct (last ms) as [m | ] eqn:Hl; cbn.
  - destruct (Z.ltb_spec t (milestone_elapsed_ns m)); [done | ]. by intros [= <-].
  - intros [= <-]. apply last_None in Hl as ->. done.
Qed.

(** A cleanup that completes is dated after what came before it. *)
Lemma cleanup_done op i reason ms answer c ms' : cleanup_outcome op i reason ms answer = (c, ms') -> result_complete c = true ->
  exists s f, ms' = ms ++ [mkMilestone M_CleanupStarted s; mkMilestone M_CleanupFinished f] /\ latest ms <= s <= f /\
    cleanup_is_complete (result_evidence c) = true /\ cleanup_method_matches reason (result_evidence c) = true.
Proof.
  unfold cleanup_outcome. destruct answer as [o | failure].
  - destruct (_ || _ || _ || _) eqn:Hbad; [by intros [= <- _] | ]. rewrite !orb_false_iff, !negb_false_iff in Hbad. destruct Hbad as [[_ Hm] Ht].
    unfold times_follow in Ht. fold (latest ms) in Ht. cbn [head non_decreasing] in Ht. apply andb_true_iff in Ht as [Hs Hf]. rewrite andb_true_r in Hf.
    rewrite (append_milestone_later ms) by lia. cbn [fst]. rewrite append_milestone_later; [ | unfold latest; rewrite last_snoc; cbn; lia].
    intros [= <- <-] Hc. cbn in *. eexists _, _. split; [by rewrite <- app_assoc | ]. split; [lia | done].
  - destruct (append_failure ms failure) as [ms0 appended]. destruct appended; by intros [= <- _].
Qed.

(** Every cleanup: nothing dated, both dates, or the failure's. *)
Lemma cleanup_cases op i reason ms answer c ms' : cleanup_outcome op i reason ms answer = (c, ms') ->
  (ms' = ms /\ result_evidence c = incomplete_owned_machine) \/
  (exists s f, ms' = ms ++ [mkMilestone M_CleanupStarted s; mkMilestone M_CleanupFinished f] /\ latest ms <= s <= f) \/
  (exists t, ms' = ms ++ [mkMilestone M_FailureObserved t] /\ (ms <> [] -> latest ms <= t) /\ result_evidence c = incomplete_owned_machine).
Proof.
  unfold cleanup_outcome. destruct answer as [o | failure].
  - destruct (_ || _ || _ || _) eqn:Hbad; [intros [= <- <-]; by left | ]. rewrite !orb_false_iff, !negb_false_iff in Hbad. destruct Hbad as [_ Ht].
    unfold times_follow in Ht. fold (latest ms) in Ht. cbn [head non_decreasing] in Ht. apply andb_true_iff in Ht as [Hs Hf]. rewrite andb_true_r in Hf.
    rewrite (append_milestone_later ms) by lia. cbn [fst]. rewrite append_milestone_later; [ | unfold latest; rewrite last_snoc; cbn; lia].
    intros [= <- <-]. right. left. eexists _, _. split; [by rewrite <- app_assoc | lia].
  - unfold append_failure. destruct (append_milestone ms _ _) as [ms0 [ | ]] eqn:Hm; intros [= <- <-]; [ | by left].
    apply append_milestone_done in Hm as [-> Hle]. right. right. eauto.
Qed.

(** * Receipts of written records *)

Ltac timed :=
  cbv [accepted termination_receipt execution_receipt launch_receipt managed_receipt receipt_new receipt_milestones fmap list_fmap app
       milestone_elapsed_ns non_decreasing]; lia.
Ltac sequence :=
  unfold sequence_valid; rewrite bool_decide_eq_true_2 by reflexivity;
  match goal with |- context [non_decreasing ?l] => replace (non_decreasing l) with true by (symmetry; timed) end;
  match goal with |- context [allowed_milestones ?r] => change (allowed_milestones r) with true end;
  match goal with |- context [phase_dependencies_hold ?r] => change (phase_dependencies_hold r) with true end;
  cbn [andb].

Lemma termination_valid op i active fp mode s f ev : receipt_validate (active_launch_receipt active) = true -> 0 <= s <= f ->
  cleanup_is_complete ev = true -> cleanup_method_matches (mode_cleanup_reason mode) ev = true ->
  let r := termination_receipt op i active fp mode [mkMilestone M_Accepted 0; mkMilestone M_CleanupStarted s; mkMilestone M_CleanupFinished f]
             (mode_terminal_status mode) ev in
  receipt_validate r = rereadable (Phase_Terminal (Basis_Active active) (mode_operation mode) op fp r).
Proof.
  intros Hl Ht Hc Hm r. rewrite validate_split by reflexivity.
  assert (launch_valid r = true) as -> by (apply launch_valid_stored; [done | destruct mode; auto]).
  assert (measurement_is_consistent r = true) as -> by (by destruct mode). change (output_allowed r) with true.
  assert (sequence_valid r = terminal_is_consistent r) as -> by (subst r; destruct mode; sequence; reflexivity).
  rewrite !andb_true_r. unfold terminal_is_consistent, rereadable. destruct mode; cbn; rewrite Hc; cbn; unfold cleanup_method_matches in Hm;
    destruct (cleanup_all_not_owned ev) eqn:Hno; cbn in Hm; unfold cleanup_all_not_owned in Hno; by destruct (cleanup_method ev).
Qed.

(** How a command whose machine is cleaned up had ended. *)
Inductive uncertain : list Milestone -> option (CapturedOutput * OutputMetadata * CommandStatus) -> Prop :=
| uncertain_unseen : uncertain accepted None
| uncertain_failed t : 0 <= t -> uncertain (accepted ++ [mkMilestone M_FailureObserved t]) None
| uncertain_ended a b output metadata status : 0 <= a <= b -> output_is_valid metadata = true -> abnormal_kind status <> None ->
    uncertain (accepted ++ [mkMilestone M_CommandStarted a; mkMilestone M_CommandFinished b]) (Some (output, metadata, status)).

Definition uncertain_status (observed : option (CapturedOutput * OutputMetadata * CommandStatus)) : TerminalStatus :=
  match observed with None => Status_Failed | Some (_, _, status) => terminal_status status end.

Definition uncertain_output (observed : option (CapturedOutput * OutputMetadata * CommandStatus)) : Observation OutputMetadata :=
  match observed with None => Unavailable NotReached | Some (_, metadata, _) => Observed metadata end.

Lemma settle_valid op i active fp ms observed s f ev : receipt_validate (active_launch_receipt active) = true -> uncertain ms observed ->
  latest ms <= s <= f ->
  let r := execution_receipt op i active fp (ms ++ [mkMilestone M_CleanupStarted s; mkMilestone M_CleanupFinished f])
             (uncertain_status observed) (uncertain_output observed) ev in
  receipt_validate r = rereadable (Phase_Terminal (Basis_Active active) Op_Execute op fp r).
Proof.
  intros Hl Hu Ht r. rewrite validate_split by reflexivity. assert (launch_valid r = true) as -> by (apply launch_valid_stored; auto).
  change (measurement_is_consistent r) with true. rewrite !andb_true_r.
  destruct Hu as [ | t Ht0 | a b output metadata status Hab Ho Hs]; unfold latest in Ht; cbn in Ht.
  - assert (sequence_valid r = terminal_is_consistent r) as -> by (subst r; sequence; reflexivity). reflexivity.
  - assert (sequence_valid r = terminal_is_consistent r) as -> by (subst r; sequence; reflexivity). reflexivity.
  - assert (sequence_valid r = terminal_is_consistent r) as -> by (subst r; sequence; reflexivity).
    change (output_allowed r) with (output_is_valid metadata). rewrite Ho, andb_true_r. by destruct status.
Qed.

Lemma ready_valid request fp w backend e resolved_at : 0 <= resolved_at -> non_decreasing [resolved_at; time_admitted (ev_times e); time_launched (ev_times e); time_ready (ev_times e)] = true ->
  shape_matches_request (ev_effective_shape e) (lreq_shape request) = true ->
  network_matches_request (ev_effective_network e) (shape_capabilities (lreq_shape request)) = true ->
  receipt_validate (launch_receipt request fp (Workload_Resolved w) backend (Launch_Fresh e)
    (append_launch [mkMilestone M_Accepted 0; mkMilestone M_WorkloadResolved resolved_at] (ev_times e)) cleanup_not_owned Status_Ready) = true.
Proof.
  intros H0 Ht Hs Hn. cbn [non_decreasing] in Ht. set (t := ev_times e) in *.
  assert (append_launch [mkMilestone M_Accepted 0; mkMilestone M_WorkloadResolved resolved_at] t =
          [mkMilestone M_Accepted 0; mkMilestone M_WorkloadResolved resolved_at; mkMilestone M_Admitted (time_admitted t);
           mkMilestone M_MachineLaunched (time_launched t); mkMilestone M_Ready (time_ready t)]) as ->.
  { unfold append_launch. rewrite (append_milestone_later [_; _]) by (unfold latest; cbn; lia). cbn [fst app].
    rewrite (append_milestone_later [_; _; _]) by (unfold latest; cbn; lia). cbn [fst app].
    rewrite (append_milestone_later [_; _; _; _]) by (unfold latest; cbn; lia). done. }
  rewrite validate_split by reflexivity. rewrite !andb_true_iff. split; [split; [split | ] | ]; try reflexivity.
  - sequence. reflexivity.
  - unfold launch_valid. rewrite !andb_true_iff. split; [split; [reflexivity | exact Hs] | exact Hn].
Qed.

(** A receipt of a launch that was not reached says nothing of the network: no policy is matched. *)
Lemma not_reached_invalid request fp w backend ms cleanup terminal :
  receipt_validate (launch_receipt request fp w backend Launch_NotReached ms cleanup terminal) = false.
Proof.
  rewrite validate_split by reflexivity. assert (launch_valid (launch_receipt request fp w backend Launch_NotReached ms cleanup terminal) = false) as ->.
  { unfold launch_valid, network_matches_request. cbn. by rewrite !andb_false_r. }
  by rewrite andb_false_r.
Qed.

(** * The programs *)

Section programs.
Context {P : Type} `{HL : JsonLaws} (sha256 : bytes -> bytes) (kind : BackendKind).
Hypothesis Hsha : forall x, length (sha256 x) = 32%nat /\ all_bytes (sha256 x).

(** A record reads back as it was written, or not at all. *)
Definition reread (i : InstanceId) (record : StateRecord) : Prop :=
  exists m, json_machine record = Some m /\ forall revision,
    machine_decode (mkStoredState revision record) i =
    if rereadable (machine_phase m) then Ok (mkVersionedMachine revision m) else Err Store_Corrupt.

Lemma reread_phase i p record : forallb receipt_validate (phase_receipts p) = rereadable p ->
  machine_encode (durable_with_phase i p) = Ok record -> reread i record.
Proof using HL.
  intros Hp He. exists (durable_with_phase i p). split; [by apply encode_means | ]. intros revision. cbn [machine_phase durable_with_phase].
  rewrite <- Hp. by apply (decode_written (durable_with_phase i p)).
Qed.

Definition valid_active (a : ActiveMachine) : Prop := receipt_validate (active_launch_receipt a) = true.

Lemma decode_valid st i v : machine_decode st i = Ok v -> forallb receipt_validate (phase_receipts (machine_phase (versioned_machine v))) = true.
Proof using Type.
  unfold machine_decode. destruct (json_schema_version _) as [z | ]; cbn; [ | done]. destruct (negb _); [done | ].
  unfold machine_from_slice. destruct (json_machine _) as [m | ]; cbn; [ | done]. destruct (forallb _ _) eqn:Hf; cbn; [ | done].
  destruct (_ && _); cbn; [ | done]. destruct (negb _); [done | ]. by intros [= <-].
Qed.

Lemma digest_valid x : valid_sha256 (digest_bytes sha256 x) = true.
Proof using Hsha.
  destruct (Hsha x) as [Hlen Hb]. unfold digest_bytes, finish, fingerprint_from_digest, valid_sha256, text_strip_prefix.
  rewrite take_app_length, bool_decide_eq_true_2, drop_app_length by done. cbn [is_some_and]. by rewrite length_hex, Hlen, hex_lower.
Qed.

Lemma validate_command_valid o op i limits previous v : validate_command sha256 o op i limits previous = Some v ->
  previous <= validated_started v <= validated_finished v /\ output_is_valid (validated_metadata v) = true.
Proof using Hsha.
  unfold validate_command. destruct (_ || _) eqn:Ht; [done | ]. rewrite !orb_false_iff in Ht. destruct Ht as [[_ Hs] Hf].
  destruct (checked_u64 (Z.of_nat _) _) as [captured | ]; cbn [mbind option_bind]; [ | done].
  destruct (checked_u64 _ _) as [observed | ]; cbn [mbind option_bind]; [ | done].
  destruct (negb _ || _) eqn:Hw; [done | ]. apply orb_false_iff in Hw as [Hw _]. rewrite negb_false_iff, !andb_true_iff in Hw. destruct Hw as [[_ Hout] Herr].
  intros [= <-]. cbn [validated_started validated_finished validated_metadata]. split; [lia | ]. unfold output_is_valid, stream_is_valid.
  cbn [output_stdout output_stderr stream_captured_bytes stream_observed_bytes stream_truncated stream_sha256]. rewrite !digest_valid, !andb_true_r.
  rewrite !andb_true_iff. repeat split; try lia; apply eqb_true_iff; lia.
Qed.

Lemma writes_settle {A} revision i active op fp ms why observed (Q : Result A ManagedFailure -> Prop) : valid_active active -> uncertain ms observed ->
  (forall e, Q (Err e)) -> writes reread (settle_execution (P := P) revision i active op fp ms why observed) Q.
Proof using HL.
  intros Ha Hu HQ. apply writes_cleanup. intros cleanup ms' answer Hc. cbv beta iota zeta.
  assert (Hgo : result_complete cleanup = true -> forall record,
    machine_encode (durable_with_phase i (Phase_Terminal (Basis_Active active) Op_Execute op fp
      (execution_receipt op i active fp ms' (uncertain_status observed) (uncertain_output observed) (result_evidence cleanup)))) = Ok record ->
    reread i record).
  { intros Hdone record. destruct (cleanup_done _ _ _ _ _ _ _ Hc Hdone) as (s & f & -> & Hsf & _). apply reread_phase. cbn [phase_receipts app forallb].
    rewrite Ha, (settle_valid op i active fp ms observed s f) by done. by rewrite andb_true_r. }
  destruct observed as [[[output metadata] status] | ]; destruct (result_complete cleanup); try apply HQ;
    (apply writes_bind, writes_replace; [by apply Hgo | intros [? | ?]; apply HQ]).
Qed.

Lemma writes_execute_machine request : writes reread (execute_machine (P := P) sha256 kind request) (fun _ => True).
Proof using HL Hsha.
  apply writes_try. apply (writes_mono _ _ (fun r => match r with Ok a => valid_active (admission_active a) | Err _ => True end)).
  - unfold admit_execution. apply writes_try, writes_load; [ | done]. intros st v Hd%decode_valid. cbv zeta.
    destruct (machine_phase (versioned_machine v)) as [intent | active | active op' fp' | active o op' fp' | basis o op' fp' receipt]; try done;
      cbn [phase_receipts forallb] in Hd.
    + rewrite andb_true_r in Hd. apply writes_lift; [intros _ _ | done]. apply writes_lift; [intros w _ | done].
      destruct (active_completed _ _); [by destruct (bool_decide _) | ]. destruct (_ <=? _)%nat; [done | ].
      apply writes_try, writes_replace; [ | by intros [? | ?]]. intros record. apply reread_phase. cbn. by rewrite Hd.
    + rewrite andb_true_r in Hd. apply writes_settle; [done | constructor | done].
    + destruct (_ && _); [ | done]. destruct basis; [done | ]. by destruct (bool_decide _).
  - intros [a | e]; [ | done]. intros Ha observation.
    assert (Hfail : forall ms why observed, uncertain ms observed ->
      writes reread (fail_execution (P := P) (A := ExecutionReceipt * CapturedOutput) request a ms why observed) (fun _ => True)).
    { intros. by apply writes_settle. }
    destruct observation as [o | failure].
    + destruct (validate_command _ _ _ _ _ _) as [v | ] eqn:Hv; [ | apply Hfail; constructor].
      apply validate_command_valid in Hv as [Ht Ho].
      assert (append_command accepted (validated_started v) (validated_finished v) =
              accepted ++ [mkMilestone M_CommandStarted (validated_started v); mkMilestone M_CommandFinished (validated_finished v)]) as ->.
      { unfold append_command. rewrite (append_milestone_later accepted) by (unfold latest; cbn; lia). cbn [fst].
        rewrite append_milestone_later; [done | unfold latest; cbn; lia]. }
      destruct (abnormal_kind (validated_status v)) eqn:Hab; [apply Hfail; constructor; [done | done | congruence] | ].
      apply writes_lift; [intros tomb _ | done]. apply writes_bind, writes_replace; [ | by intros [? | ?]].
      intros record. apply reread_phase. cbn. by rewrite Ha.
    + unfold observed_failure, append_failure. destruct (append_milestone _ _ _) as [ms' [ | ]] eqn:Hm; [ | apply Hfail; constructor].
      apply append_milestone_done in Hm as [-> Hle]. apply Hfail. constructor. apply Hle. done.
Qed.

Lemma writes_terminate_machine op i mode : writes reread (terminate_machine (P := P) sha256 kind op i mode) (fun _ => True).
Proof using HL.
  apply writes_try. apply (writes_mono _ _ (fun r => match r with Ok (Termination_Proceed _ active _) => valid_active active | _ => True end)).
  - unfold admit_termination. apply writes_try, writes_load; [ | done]. intros st v Hd%decode_valid. cbv zeta.
    destruct (machine_phase (versioned_machine v)) as [intent | active | active op' fp' | active o op' fp' | basis o op' fp' receipt]; try done;
      cbn [phase_receipts forallb] in Hd; rewrite ?andb_true_r in Hd.
    + apply writes_lift; [intros _ _ | done]. apply writes_lift; [intros w _ | done].
      apply writes_try, writes_replace; [ | by intros [? | ?]]. intros record. apply reread_phase. cbn. by rewrite Hd.
    + apply writes_settle; [done | constructor | done].
    + destruct (_ && _); [ | done]. apply writes_lift; [intros w _ | done]. by destruct (bool_decide _).
    + repeat (destruct (_ && _) || destruct (bool_decide _)); done.
  - intros [[revision active fp | receipt] | e] Ha; [ | done | done]. apply writes_cleanup. intros cleanup ms answer Hc. cbv beta iota zeta.
    destruct (result_complete cleanup) eqn:Hdone; cbn [negb]; [ | done].
    destruct (cleanup_done _ _ _ _ _ _ _ Hc Hdone) as (s & f & -> & Hsf & Hcomplete & Hm).
    apply writes_bind, writes_replace; [ | by intros [? | ?]]. intros record. apply reread_phase. cbn [phase_receipts app forallb].
    rewrite Ha. change (accepted ++ ?l) with (mkMilestone M_Accepted 0 :: l). rewrite termination_valid by done. by rewrite andb_true_r.
Qed.

Lemma writes_launch_machine request : writes reread (launch_machine (P := P) sha256 kind request) (fun _ => True).
Proof using HL.
  intros [o | failure]; [ | by destruct (observed_failure _ _ _)]. cbv zeta.
  destruct (append_milestone _ _ _) as [ms appended] eqn:Hms. destruct (_ || _) eqn:Hbad; [done | ]. apply orb_false_iff in Hbad as [_ Happ].
  apply negb_false_iff in Happ as ->. apply append_milestone_done in Hms as [-> Hat]. specialize (Hat ltac:(done)). unfold latest in Hat. cbn in Hat.
  set (intent := mkLaunchIntent _ _ _ _ _ _). apply writes_try.
  apply (writes_mono _ _ (fun r => match r with
    | Ok (Launch_Proceed _ ms) => ms = [mkMilestone M_Accepted 0; mkMilestone M_WorkloadResolved (resolved_at_ns o)]
    | _ => True end)).
  - unfold admit_launch. cbv zeta. apply writes_bind, writes_create; [intros record; by apply (reread_phase _ (Phase_Launching intent)) | ].
    intros [revision | e]; [done | ]. destruct (negb _); [done | ]. apply writes_try, writes_load; [ | done]. intros st v _.
    destruct (machine_phase (versioned_machine v)) as [existing | active | | | basis op' opid fp receipt]; try done.
    + destruct (bool_decide _); [ | done]. apply writes_cleanup. intros cleanup ms' answer _. cbv beta iota zeta. destruct (negb _); [done | ].
      apply writes_try, writes_replace; [intros record; by apply (reread_phase _ (Phase_Launching intent)) | by intros [? | ?]].
    + by destruct (_ && _).
    + destruct basis; [ | done]. destruct op'; try done. by destruct (_ && _).
  - intros [[revision ms' | receipt] | e]; [ | done | done]. intros ->.
    assert (Hfail : forall ms why, writes reread (fail_launch (P := P) (A := ExecutionReceipt) kind request intent revision
                                            (intent_request_fingerprint intent) (resolved_workload o) ms why) (fun _ => True)).
    { intros ms0 why. apply writes_cleanup. intros cleanup ms1 answer _. cbv beta iota zeta. destruct (result_complete cleanup); [ | done].
      apply writes_bind, writes_replace; [ | by intros [? | ?]]. intros record.
      apply (reread_phase _ (Phase_Terminal _ _ _ _ _)). cbn [phase_receipts app forallb]. by rewrite not_reached_invalid. }
    intros [observation | failure]; [ | destruct (observed_failure _ _ _); apply Hfail].
    destruct (validate_launch _ _ _ _ _ _ _) as [launch | ] eqn:Hv; [ | apply Hfail].
    apply writes_bind, writes_replace; [ | by intros [? | ?]]. intros record. apply (reread_phase _ (Phase_Active _)). cbn [phase_receipts forallb rereadable].
    unfold validate_launch in Hv. destruct (_ && _) eqn:Hchecks; [ | done]. injection Hv as <-. rewrite !andb_true_iff in Hchecks.
    cbn [active_launch_receipt ev_times]. rewrite andb_true_r. apply ready_valid; [done | | tauto | tauto].
    cbn [ev_times non_decreasing]. rewrite !andb_true_iff. cbn [non_decreasing] in Hchecks. rewrite !andb_true_iff in Hchecks. repeat split; try tauto. lia.
Qed.

Lemma writes_program o : writes reread (program (P := P) sha256 kind o) (fun _ => True).
Proof using HL Hsha.
  unfold program, discard. destruct o; apply writes_bind;
    first [apply writes_launch_machine | apply writes_execute_machine | apply writes_terminate_machine | idtac].
  - apply writes_try, writes_load; [intros st v _ | done]. destruct (machine_phase _) as [ | active | | | ]; try done.
    apply writes_lift; [intros _ _ | done]. apply writes_lift; [intros w _ | done]. intros [o | failure]; [ | by destruct (observed_failure _ _ _)].
    destruct (append_milestone _ _ _) as [ms appended]. destruct (_ || _); [done | ]. apply writes_try, writes_load; [intros st' v' _ | done]. by destruct (negb _).
  - apply writes_try, writes_try, writes_load; [intros st v _ | done]. destruct (machine_phase _) as [ | active | | | ]; try done.
    cbn. destruct (ensure_backend kind active); [ | done]. intros [o | failure]; [ | done]. by destruct (accept_answer _ _ _).
Qed.
End programs.

(** * Reachable traces *)

Section reachable.
Context {P : Type} `{HL : JsonLaws} (sha256 : bytes -> bytes).
Hypothesis Hsha : forall x, length (sha256 x) = 32%nat /\ all_bytes (sha256 x).

Definition all_reread (t : trace) : Prop := forall i revision record, Committed i revision record ∈ t -> reread i record.

Lemma all_reread_snoc t e : all_reread t -> (forall i revision record, e = Committed i revision record -> reread i record) -> all_reread (t ++ [e]).
Proof using Type. intros Ht He i revision record [Hin | Hin%list_elem_of_singleton]%elem_of_app; [by eapply Ht | by eapply He]. Qed.

Lemma call_reread t (p : prog P unit) t' p' : call_step t p t' p' -> writes reread p (fun _ => True) -> all_reread t ->
  writes reread p' (fun _ => True) /\ all_reread t'.
Proof using Type.
  intros Hc Hp Ht. destruct Hc as [i record k t' r Hc | i k r Hl | i expected record k t' r He | | | op i c l k r | | | ]; cbn in Hp;
    try (split; [apply Hp | done]).
  - destruct Hp as [HR Hk]. split; [apply Hk | ]. destruct Hc; try done; (apply all_reread_snoc; [done | by intros ? ? ? [= <- <- <-]]).
  - destruct Hp as [HR Hk]. split; [apply Hk | ]. destruct He; try done; (apply all_reread_snoc; [done | by intros ? ? ? [= <- <- <-]]).
  - split; [apply Hp | ]. by apply all_reread_snoc.
Qed.

Lemma reachable_reread c : reachable (P := P) sha256 c -> all_reread c.1 /\ Forall (fun p => writes reread p (fun _ => True)) c.2.
Proof using HL Hsha.
  intros Hr. eapply (rtc_ind_r (fun c => all_reread c.1 /\ Forall (fun p => writes reread p (fun _ => True)) c.2)); [ | | exact Hr].
  - split; [by intros i revision record Hin%not_elem_of_nil | constructor].
  - intros y z _ Hyz [Ht Hps]. destruct Hyz as [t ps kind o | t ps qs p t' p' Hcall | t ps qs p]; cbn in *.
    + split; [done | ]. constructor; [by apply writes_program | done].
    + apply Forall_app in Hps as [H1 H2]. apply Forall_cons in H2 as [Hp H2]. destruct (call_reread _ _ _ _ Hcall Hp Ht) as [Hp' Ht'].
      split; [done | ]. apply Forall_app. split; [done | by constructor].
    + apply Forall_app in Hps as [H1 H2]. apply Forall_cons in H2 as [Hp H2]. split; [done | ]. by apply Forall_app.
Qed.
End reachable.

(** C27: the records engines commit, whatever the backend answers, and which of them can be read again: a
    record reads back as the machine that was written, at its revision, unless it is terminal and is
    the record of a failed launch, of a destroyed machine whose cleanup was graceful before it was forced, or of
    a command that was signalled, timed out or ran over its output where the cleanup owned nothing; those are
    corrupt to every later operation. *)
Theorem records_readable {P} `{JsonLaws} (sha256 : bytes -> bytes) (t : trace) (ps : list (prog P unit)) i revision record :
  (forall x, length (sha256 x) = 32%nat /\ all_bytes (sha256 x)) -> reachable sha256 (t, ps) -> Committed i revision record ∈ t ->
  exists m, json_machine record = Some m /\
    machine_decode (mkStoredState revision record) i =
    if rereadable (machine_phase m) then Ok (mkVersionedMachine revision m) else Err Store_Corrupt.
Proof.
  intros Hsha Hr Hin. destruct (reachable_reread sha256 Hsha _ Hr) as [Ht _]. destruct (Ht _ _ _ Hin) as (m & Hm & Hd). eauto.
Qed.

#[local] Existing Instance Demo.json.
#[local] Existing Instance Demo.laws.

Lemma demo_digests x : length (Demo.sha256 x) = 32%nat /\ all_bytes (Demo.sha256 x).
Proof. unfold Demo.sha256. split; [apply repeat_length | ]. apply Forall_forall. intros y Hy%list_elem_of_In%repeat_spec. subst y. pose proof (Z.mod_pos_bound (Z.of_nat (length x)) 256). unfold is_u8, is_uint. cbn. lia. Qed.

Lemma records_readable_witness : exists ps : list (prog unit unit), reachable Demo.sha256 (Demo.history, ps) /\
  exists m, json_machine [5] = Some m /\ machine_decode (mkStoredState 6 [5]) Demo.instance =
    if rereadable (machine_phase m) then Ok (mkVersionedMachine 6 m) else Err Store_Corrupt.
Proof.
  destruct Demo.history_reachable as [ps Hr]. exists ps. split; [exact Hr | ].
  apply (records_readable Demo.sha256 Demo.history ps Demo.instance 6 [5] demo_digests Hr). by repeat (left || right).
Defined.
