(* ===== verification/EngineRun.v ===== *)
(** One-shot runs ([soma] engine/run.rs, run_cleanup.rs, run_evidence.rs): a machine is resolved,
    launched, given one command and released, without a store; a run leaves nothing behind, and
    which of its receipts are valid. *)

From S2P Require Import Prelude Bytes Wire NetPolicy Portable Fingerprint FingerprintProps Evidence EngineState Engine EngineSteps EngineReplay.
From stdpp Require Import options.
Local Open Scope Z_scope.

Record FailureContext : Type := mkFailureContext {
  context_kind : RunFailureKind;
  context_operation_id : OperationId;
  context_instance_id : InstanceId;
  context_machine_name : option MachineName;
  context_fingerprint : RequestFingerprint;
  context_workload : WorkloadEvidence;
  context_requested_shape : MachineShape;
  context_milestones : list Milestone
}.

Definition successful_receipt (op : OperationId) (i : InstanceId) (name : option MachineName) (fingerprint : RequestFingerprint)
    (workload : WorkloadIdentity) (shape : MachineShape) (launch : LaunchEvidence) (ms : list Milestone) (terminal : TerminalStatus)
    (output : OutputMetadata) (cleanup : CleanupEvidence) : ExecutionReceipt :=
  receipt_new Op_Run op i name fingerprint (Workload_Resolved workload) (ev_backend launch) (Observed (ev_isolation launch))
    (Observed (ev_preparation launch)) (Observed (ev_digest_binding launch)) shape (ev_effective_shape launch) (ev_effective_network launch)
    ms terminal (Observed output) cleanup (mkMeasurementBoundary FacadeRunEndToEnd).

Definition failure_receipt (c : FailureContext) (backend : BackendKind) (cleanup : CleanupEvidence) : ExecutionReceipt :=
  receipt_new Op_Run (context_operation_id c) (context_instance_id c) (context_machine_name c) (context_fingerprint c) (context_workload c)
    backend (Unavailable NotReached) (Unavailable NotReached) (Unavailable NotReached) (context_requested_shape c)
    (shape_unavailable NotReached) (network_unavailable NotReached) (context_milestones c) Status_Failed (Unavailable NotReached) cleanup
    (mkMeasurementBoundary FacadeRunEndToEnd).

Definition failure_receipt_after_launch (c : FailureContext) (launch : LaunchEvidence) (cleanup : CleanupEvidence) : ExecutionReceipt :=
  receipt_new Op_Run (context_operation_id c) (context_instance_id c) (context_machine_name c) (context_fingerprint c) (context_workload c)
    (ev_backend launch) (Observed (ev_isolation launch)) (Observed (ev_preparation launch)) (Observed (ev_digest_binding launch))
    (context_requested_shape c) (ev_effective_shape launch) (ev_effective_network launch) (context_milestones c) Status_Failed
    (Unavailable NotReached) cleanup (mkMeasurementBoundary FacadeRunEndToEnd).

Section run.
Context {P : Type} (sha256 : bytes -> bytes) (kind : BackendKind).
Local Open Scope prog_scope.
Notation outcome := (Result (ExecutionReceipt * CapturedOutput) RunFailure).

Definition failure_without_cleanup (c : FailureContext) : RunFailure :=
  mkRunFailure (context_kind c) (failure_receipt c kind cleanup_not_owned) None.

Definition with_milestones (c : FailureContext) (ms : list Milestone) : FailureContext :=
  mkFailureContext (context_kind c) (context_operation_id c) (context_instance_id c) (context_machine_name c) (context_fingerprint c)
    (context_workload c) (context_requested_shape c) ms.

Definition failure_with_cleanup (c : FailureContext) (reason : CleanupReason) (launch : option LaunchEvidence) : prog P RunFailure :=
  cleaned <- perform_cleanup (context_operation_id c) (context_instance_id c) reason (context_milestones c) ;;
  let '(cleanup, ms) := cleaned in
  let failure_kind := match result_failure_kind cleanup with
                      | Some k => if bool_decide (context_kind c = Run_CleanupIncomplete) then k else context_kind c
                      | None => context_kind c
                      end in
  let c := with_milestones c ms in
  let receipt := match launch with
                 | Some launch => failure_receipt_after_launch c launch (result_evidence cleanup)
                 | None => failure_receipt c kind (result_evidence cleanup)
                 end in
  Ret (mkRunFailure failure_kind receipt None).

(** [Engine::run] *)
Definition run_machine (request : RunRequest) : prog P outcome :=
  let op := run_operation_id request in
  let i := run_instance_id request in
  let name := run_machine_name request in
  let shape := run_shape request in
  let source := source_fingerprint sha256 (run_image request) in
  Resolve op (run_image request) source (fun resolution =>
    let unresolved why ms := mkFailureContext why op i name source (Workload_Unresolved source) shape ms in
    match resolution with
    | Err failure => let '(ms, why) := observed_failure accepted At_Resolution failure in Ret (Err (failure_without_cleanup (unresolved why ms)))
    | Ok o =>
        let workload := resolved_workload o in
        let '(ms, appended) := append_milestone accepted M_WorkloadResolved (resolved_at_ns o) in
        if negb (bool_decide (resolved_operation_id o = op)) || negb (bool_decide (resolved_source_fingerprint o = source)) || negb appended
        then Ret (Err (failure_without_cleanup (unresolved Run_ObservationMismatch accepted)))
        else
          let fingerprint := run_fingerprint sha256 workload i name shape (run_command request) (run_limits request) in
          let context why ms := mkFailureContext why op i name fingerprint (Workload_Resolved workload) shape ms in
          let rollback why ms launch := f <- failure_with_cleanup (context why ms) Rollback launch ;; Ret (Err f) in
          Launch op i workload (resolved_prepared o) shape (fun launched =>
            match launched with
            | Err failure => let '(ms, why) := observed_failure ms At_Launch failure in rollback why ms None
            | Ok observation =>
                match validate_launch observation op i workload kind shape (resolved_at_ns o) with
                | None => rollback Run_ObservationMismatch ms None
                | Some launch =>
                    let ms := append_launch ms (ev_times launch) in
                    Execute op i (run_command request) (run_limits request) (fun executed =>
                      match executed with
                      | Err failure => let '(ms, why) := observed_failure ms At_Command failure in rollback why ms (Some launch)
                      | Ok observation =>
                          match validate_command sha256 observation op i (run_limits request) (time_ready (ev_times launch)) with
                          | None => rollback Run_ObservationMismatch ms (Some launch)
                          | Some v =>
                              let ms := append_command ms (validated_started v) (validated_finished v) in
                              cleaned <- perform_cleanup op i RunCompleted ms ;;
                              let '(cleanup, ms) := cleaned in
                              let receipt := successful_receipt op i name fingerprint workload shape launch ms
                                               (terminal_status (validated_status v)) (validated_metadata v) (result_evidence cleanup) in
                              let failed why := Ret (Err (mkRunFailure why receipt (Some (validated_output v)))) in
                              if negb (result_complete cleanup) then failed (default Run_CleanupIncomplete (result_failure_kind cleanup))
                              else match validated_status v with
                                   | Command_Exited _ | Command_Signaled _ => Ret (Ok (receipt, validated_output v))
                                   | Command_TimedOut => failed Run_TimedOut
                                   | Command_OutputLimitExceeded => failed Run_OutputLimitExceeded
                                   end
                          end
                      end)
                end
            end)
    end).
End run.

(** * The calls of a run *)

Inductive backend_call : Type :=
| Called_resolve (op : OperationId)
| Called_launch (op : OperationId) (i : InstanceId)
| Called_execute (op : OperationId) (i : InstanceId)
| Called_cleanup (op : OperationId) (i : InstanceId) (reason : CleanupReason).

(** A program that calls the backend and no store runs to an end. *)
Inductive ran {P A} : prog P A -> list backend_call -> A -> Prop :=
| ran_ret a : ran (Ret a) [] a
| ran_resolve op image source k r calls a : ran (k r) calls a -> ran (Resolve op image source k) (Called_resolve op :: calls) a
| ran_launch op i w prepared s k r calls a : ran (k r) calls a -> ran (Launch op i w prepared s k) (Called_launch op i :: calls) a
| ran_execute op i c l k r calls a : ran (k r) calls a -> ran (Execute op i c l k) (Called_execute op i :: calls) a
| ran_cleanup op i reason k r calls a : ran (k r) calls a -> ran (Cleanup op i reason k) (Called_cleanup op i reason :: calls) a.

(** One-shot runs leave nothing behind, and which of their receipts are valid. *)

Definition failures (r : ExecutionReceipt) : nat := length (filter (fun m => milestone_kind m = M_FailureObserved) (receipt_milestones r)).

(** The receipts of a run that are valid: the launch was observed, one failure at most is dated, and
    an abnormal end came with something owned. *)
Definition run_receipt_valid (r : ExecutionReceipt) : bool :=
  is_observed (receipt_isolation r) && (failures r <=? 1)%nat &&
  match receipt_terminal_status r with
  | Status_Signaled _ | Status_TimedOut | Status_OutputLimitExceeded => negb (cleanup_all_not_owned (receipt_cleanup r))
  | _ => true
  end.

Definition result_receipt (r : Result (ExecutionReceipt * CapturedOutput) RunFailure) : ExecutionReceipt :=
  match r with Ok (receipt, _) => receipt | Err f => run_failure_receipt f end.

Lemma unlaunched_exact c backend cleanup :
  receipt_validate (failure_receipt c backend cleanup) = run_receipt_valid (failure_receipt c backend cleanup).
Proof.
  rewrite validate_split by reflexivity. assert (launch_valid (failure_receipt c backend cleanup) = false) as ->.
  { unfold launch_valid, network_matches_request. cbn. by rewrite !andb_false_r. }
  by rewrite andb_false_r.
Qed.

(** The milestones of a machine that became ready. *)
Definition ready_milestones (r : Z) (t : LaunchTimes) : list Milestone :=
  [mkMilestone M_Accepted 0; mkMilestone M_WorkloadResolved r; mkMilestone M_Admitted (time_admitted t);
   mkMilestone M_MachineLaunched (time_launched t); mkMilestone M_Ready (time_ready t)].

Definition ordered (r : Z) (t : LaunchTimes) : Prop := 0 <= r <= time_admitted t /\ time_admitted t <= time_launched t <= time_ready t.

Lemma append_launch_ready r t : ordered r t -> append_launch [mkMilestone M_Accepted 0; mkMilestone M_WorkloadResolved r] t = ready_milestones r t.
Proof.
  intros Ho. unfold ordered in Ho. unfold append_launch. rewrite (append_milestone_later [_; _]) by (unfold latest; cbn; lia). cbn [fst app].
  rewrite (append_milestone_later [_; _; _]) by (unfold latest; cbn; lia). cbn [fst app].
  rewrite (append_milestone_later [_; _; _; _]) by (unfold latest; cbn; lia). done.
Qed.

Lemma append_command_ready r t a b : time_ready t <= a <= b ->
  append_command (ready_milestones r t) a b = ready_milestones r t ++ [mkMilestone M_CommandStarted a; mkMilestone M_CommandFinished b].
Proof.
  intros Hab. unfold append_command. rewrite (append_milestone_later (ready_milestones r t)) by (unfold latest; cbn; lia). cbn [fst].
  rewrite append_milestone_later; [by rewrite <- app_assoc | ]. unfold latest. rewrite last_snoc. cbn. lia.
Qed.

Section receipts.
Context (op : OperationId) (i : InstanceId) (name : option MachineName) (fp : RequestFingerprint) (w : WorkloadIdentity)
  (shape : MachineShape) (launch : LaunchEvidence) (r : Z).
Hypothesis Hordered : ordered r (ev_times launch).
Hypothesis Hshape : shape_matches_request (ev_effective_shape launch) shape = true.
Hypothesis Hnetwork : network_matches_request (ev_effective_network launch) (shape_capabilities shape) = true.

Definition run_receipt (ms : list Milestone) (terminal : TerminalStatus) (output : Observation OutputMetadata) (cleanup : CleanupEvidence) :
    ExecutionReceipt :=
  receipt_new Op_Run op i name fp (Workload_Resolved w) (ev_backend launch) (Observed (ev_isolation launch)) (Observed (ev_preparation launch))
    (Observed (ev_digest_binding launch)) shape (ev_effective_shape launch) (ev_effective_network launch) ms terminal output cleanup
    (mkMeasurementBoundary FacadeRunEndToEnd).

Lemma run_launch_valid ms terminal output cleanup : receipt_has (run_receipt ms terminal output cleanup) M_WorkloadResolved = true ->
  launch_valid (run_receipt ms terminal output cleanup) = true.
Proof using Hnetwork Hshape.
  intros Hw. unfold launch_valid. rewrite !andb_true_iff. split; [split; [ | exact Hshape] | exact Hnetwork]. unfold workload_is_consistent.
  rewrite Hw. reflexivity.
Qed.

Ltac timed_run := cbv [run_receipt ready_milestones receipt_new receipt_milestones fmap list_fmap app milestone_elapsed_ns non_decreasing]; lia.
Ltac sequence_run :=
  unfold sequence_valid; rewrite bool_decide_eq_true_2 by reflexivity;
  match goal with |- context [non_decreasing ?l] => replace (non_decreasing l) with true by (symmetry; timed_run) end.

(** After a launch: a command that failed or was not understood, then the cleanup. *)
Lemma rollback_valid ms why phase failure observed c ms' reason answer :
  (observed_failure (ready_milestones r (ev_times launch)) phase failure = (ms, why) \/ ms = ready_milestones r (ev_times launch)) ->
  cleanup_outcome op i reason ms answer = (c, ms') ->
  observed = Unavailable NotReached ->
  let receipt := run_receipt ms' Status_Failed observed (result_evidence c) in receipt_validate receipt = run_receipt_valid receipt.
Proof using Hnetwork Hshape Hordered.
  intros Hms Hc -> receipt. unfold ordered in Hordered.
  assert (ms = ready_milestones r (ev_times launch) \/ exists t, ms = ready_milestones r (ev_times launch) ++ [mkMilestone M_FailureObserved t] /\
          time_ready (ev_times launch) <= t) as Hbase.
  { destruct Hms as [Hms | ->]; [ | by left]. unfold observed_failure, append_failure in Hms.
    destruct (append_milestone _ _ _) as [ms0 [ | ]] eqn:Hm; injection Hms as <- <-; [ | by left].
    apply append_milestone_done in Hm as [-> Hle]. right. eexists. split; [done | ]. apply Hle. done. }
  apply cleanup_cases in Hc.
  destruct Hbase as [-> | (t & -> & Ht)], Hc as [[-> He] | [(s & f & -> & Hsf) | (t' & -> & Hle & He)]]; subst receipt; rewrite validate_split by reflexivity;
    rewrite run_launch_valid by reflexivity; try (specialize (Hle ltac:(done))); unfold latest in *; cbn in *; try (sequence_run; reflexivity).
Qed.

Lemma completed_valid a b status metadata c ms' reason answer : time_ready (ev_times launch) <= a <= b -> output_is_valid metadata = true ->
  cleanup_outcome op i reason (ready_milestones r (ev_times launch) ++ [mkMilestone M_CommandStarted a; mkMilestone M_CommandFinished b]) answer = (c, ms') ->
  let receipt := run_receipt ms' (terminal_status status) (Observed metadata) (result_evidence c) in receipt_validate receipt = run_receipt_valid receipt.
Proof using Hnetwork Hshape Hordered.
  intros Hab Ho Hc receipt. unfold ordered in Hordered. apply cleanup_cases in Hc.
  destruct Hc as [[-> He] | [(s & f & -> & Hsf) | (t' & -> & Hle & He)]]; subst receipt; rewrite validate_split by reflexivity;
    rewrite run_launch_valid by reflexivity; change (output_allowed _) with (output_is_valid metadata); rewrite Ho, ?He;
    try (specialize (Hle ltac:(done))); unfold latest in *; cbn in *; sequence_run; destruct status; cbn; rewrite ?andb_true_r; reflexivity.
Qed.
End receipts.

(** Inversions that leave what follows a call as it is written. *)
Lemma ran_ret_inv {P A} (x : A) calls a : ran (P := P) (Ret x) calls a -> calls = [] /\ a = x.
Proof. by inversion 1. Qed.

Lemma ran_resolve_inv {P A} op image source (k : _ -> prog P A) calls a : ran (Resolve op image source k) calls a ->
  exists r calls', calls = Called_resolve op :: calls' /\ ran (k r) calls' a.
Proof. inversion 1; eauto. Qed.

Lemma ran_launch_inv {P A} op i w prepared s (k : _ -> prog P A) calls a : ran (Launch op i w prepared s k) calls a ->
  exists r calls', calls = Called_launch op i :: calls' /\ ran (k r) calls' a.
Proof. inversion 1; eauto. Qed.

Lemma ran_execute_inv {P A} op i c l (k : _ -> prog P A) calls a : ran (Execute op i c l k) calls a ->
  exists r calls', calls = Called_execute op i :: calls' /\ ran (k r) calls' a.
Proof. inversion 1; eauto. Qed.

Lemma validate_launch_exact o op i w backend shape previous launch : validate_launch o op i w backend shape previous = Some launch ->
  previous <= time_admitted (ev_times launch) /\ time_admitted (ev_times launch) <= time_launched (ev_times launch) <= time_ready (ev_times launch) /\
  shape_matches_request (ev_effective_shape launch) shape = true /\
  network_matches_request (ev_effective_network launch) (shape_capabilities shape) = true.
Proof.
  unfold validate_launch. destruct (_ && _) eqn:Hc; [ | done]. intros [= <-]. cbn [ev_times ev_effective_shape ev_effective_network].
  cbn [non_decreasing] in Hc. rewrite !andb_true_iff in Hc. destruct Hc as [[[[_ Hs] Hn] Hp] (Ht & Ht' & _)]. repeat split; try done; lia.
Qed.

Lemma ran_rollback {P} kind c launch calls (result : Result (ExecutionReceipt * CapturedOutput) RunFailure) :
  ran (bind (failure_with_cleanup (P := P) kind c Rollback launch) (fun f => Ret (Err f))) calls result ->
  calls = [Called_cleanup (context_operation_id c) (context_instance_id c) Rollback] /\
  exists cleanup ms answer why,
    cleanup_outcome (context_operation_id c) (context_instance_id c) Rollback (context_milestones c) answer = (cleanup, ms) /\
    result = Err (mkRunFailure why (match launch with
                                    | Some launch => failure_receipt_after_launch (with_milestones c ms) launch (result_evidence cleanup)
                                    | None => failure_receipt (with_milestones c ms) kind (result_evidence cleanup)
                                    end) None).
Proof.
  unfold failure_with_cleanup, perform_cleanup. cbn [bind]. intros Hran. inversion Hran as [ | | | | op i reason k r calls' a Hk]; subst. clear Hran.
  destruct (cleanup_outcome _ _ _ _ r) as [cleanup ms] eqn:Hc. cbn [bind] in Hk. inversion Hk; subst. split; [done | ].
  eexists cleanup, ms, r, _. split; [done | reflexivity].
Qed.

Lemma ran_command {P} op i name fp w shape launch v ms calls (result : Result (ExecutionReceipt * CapturedOutput) RunFailure) :
  ran (bind (perform_cleanup (P := P) op i RunCompleted ms) (fun cleaned =>
    let '(cleanup, ms) := cleaned in
    let receipt := successful_receipt op i name fp w shape launch ms (terminal_status (validated_status v)) (validated_metadata v) (result_evidence cleanup) in
    let failed why := Ret (Err (mkRunFailure why receipt (Some (validated_output v)))) in
    if negb (result_complete cleanup) then failed (default Run_CleanupIncomplete (result_failure_kind cleanup))
    else match validated_status v with
         | Command_Exited _ | Command_Signaled _ => Ret (Ok (receipt, validated_output v))
         | Command_TimedOut => failed Run_TimedOut
         | Command_OutputLimitExceeded => failed Run_OutputLimitExceeded
         end)) calls result ->
  calls = [Called_cleanup op i RunCompleted] /\
  exists cleanup ms' answer, cleanup_outcome op i RunCompleted ms answer = (cleanup, ms') /\
    result_receipt result = run_receipt op i name fp w shape launch ms' (terminal_status (validated_status v)) (Observed (validated_metadata v)) (result_evidence cleanup) /\
    forall receipt output, result = Ok (receipt, output) ->
      cleanup_is_complete (receipt_cleanup receipt) = true /\ is_command_outcome (receipt_terminal_status receipt) = true.
Proof.
  unfold perform_cleanup. cbn [bind]. intros Hran. inversion Hran as [ | | | | op' i' reason k r calls' a Hk]; subst. clear Hran.
  destruct (cleanup_outcome _ _ _ _ r) as [cleanup ms'] eqn:Hc. cbn [bind] in Hk. cbv zeta in Hk.
  destruct (result_complete cleanup) eqn:Hdone; cbn [negb] in Hk.
  - apply cleanup_done in Hc as Hd; [ | done]. destruct Hd as (s & f & _ & _ & Hcomplete & _).
    destruct (validated_status v) eqn:Hv; inversion Hk; subst; (split; [done | ]); exists cleanup, ms', r; (split; [done | ]); (split; [reflexivity | ]);
      intros receipt output [= <- <-]; done.
  - inversion Hk; subst. split; [done | ]. exists cleanup, ms', r. split; [done | ]. by split.
Qed.

(** C10: a run ends in one of three ways.  It stops at the resolution, before anything exists; it launches and rolls back; or it
    launches, executes once and cleans up.  So whatever the backend answers, a launch that was asked for is followed by exactly one
    cleanup of the same operation and Instance, as the last call, and a run is successful only when that cleanup is
    complete and the command exited or was signalled.  The receipt it ends with is valid exactly when the launch
    was observed, one failure at most is dated, and an abnormal end came with something owned. *)
Theorem run_cleans_up {P} (sha256 : bytes -> bytes) (kind : BackendKind) (request : RunRequest) calls result :
  (forall x, length (sha256 x) = 32%nat /\ all_bytes (sha256 x)) ->
  ran (run_machine (P := P) sha256 kind request) calls result ->
  let op := run_operation_id request in
  let i := run_instance_id request in
  ((calls = [Called_resolve op] /\ exists f, result = Err f /\ run_failure_output f = None) \/
   (calls = [Called_resolve op; Called_launch op i; Called_cleanup op i Rollback] /\ exists f, result = Err f /\ run_failure_output f = None) \/
   (calls = [Called_resolve op; Called_launch op i; Called_execute op i; Called_cleanup op i Rollback] /\ exists f, result = Err f) \/
   (calls = [Called_resolve op; Called_launch op i; Called_execute op i; Called_cleanup op i RunCompleted] /\
    forall receipt output, result = Ok (receipt, output) ->
      cleanup_is_complete (receipt_cleanup receipt) = true /\ is_command_outcome (receipt_terminal_status receipt) = true)) /\
  receipt_validate (result_receipt result) = run_receipt_valid (result_receipt result).
Proof.
  intros Hsha Hran op i. apply ran_resolve_inv in Hran as (r & calls1 & -> & Hk). fold op i in Hk |- *.
  destruct r as [o | failure].
  2: { destruct (observed_failure _ _ _) as [ms why]. apply ran_ret_inv in Hk as [-> ->]. split; [left; eauto | apply unlaunched_exact]. }
  destruct (append_milestone _ _ _) as [ms appended] eqn:Hms. destruct (_ || _) eqn:Hbad.
  { apply ran_ret_inv in Hk as [-> ->]. split; [left; eauto | apply unlaunched_exact]. }
  apply orb_false_iff in Hbad as [_ ->%negb_false_iff]. apply append_milestone_done in Hms as [-> Hat]. specialize (Hat ltac:(done)).
  unfold latest in Hat. cbn in Hat. apply ran_launch_inv in Hk as (r & calls2 & -> & Hk). destruct r as [observation | failure].
  2: { destruct (observed_failure _ _ _) as [ms why]. apply ran_rollback in Hk as (-> & cleanup & ms' & answer & why' & Hc & ->).
       split; [right; left; eauto | apply unlaunched_exact]. }
  destruct (validate_launch _ _ _ _ _ _ _) as [launch | ] eqn:Hv.
  2: { apply ran_rollback in Hk as (-> & cleanup & ms' & answer & why' & Hc & ->). split; [right; left; eauto | apply unlaunched_exact]. }
  apply validate_launch_exact in Hv as (Hadm & Htimes & Hs & Hn). assert (Ho : ordered (resolved_at_ns o) (ev_times launch)) by (unfold ordered; lia).
  change (accepted ++ _) with [mkMilestone M_Accepted 0; mkMilestone M_WorkloadResolved (resolved_at_ns o)] in Hk. rewrite (append_launch_ready _ _ Ho) in Hk.
  apply ran_execute_inv in Hk as (r & calls3 & -> & Hk). destruct r as [command | failure].
  2: { destruct (observed_failure _ _ _) as [ms why] eqn:Hf. apply ran_rollback in Hk as (-> & cleanup & ms' & answer & why' & Hc & ->).
       split; [right; right; left; eauto | ]. by eapply (rollback_valid _ _ _ _ _ _ _ _ Ho Hs Hn); [left; exact Hf | exact Hc | ]. }
  destruct (validate_command _ _ _ _ _ _) as [v | ] eqn:Hv.
  2: { apply ran_rollback in Hk as (-> & cleanup & ms' & answer & why' & Hc & ->). split; [right; right; left; eauto | ].
       eapply (rollback_valid _ _ _ _ _ _ _ _ Ho Hs Hn _ why' At_Command (mkBackendFailure Failure_Timeout 0)); [by right | exact Hc | done]. }
  apply (validate_command_valid sha256 Hsha) in Hv as [Hab Hout]. apply ran_command in Hk as (-> & cleanup & ms' & answer & Hc & Hreceipt & Hok).
  split; [right; right; right; eauto | ]. rewrite Hreceipt. rewrite append_command_ready in Hc by done.
  by eapply (completed_valid _ _ _ _ _ _ _ _ Ho Hs Hn); [exact Hab | exact Hout | exact Hc].
Qed.

(** * A scripted run *)

Fixpoint follow {P A} (p : prog P A) (script : list (answer P)) : option (list backend_call * A) :=
  match p, script with
  | Ret a, [] => Some ([], a)
  | Resolve op _ _ k, Answer_resolve r :: script => (fun x => (Called_resolve op :: x.1, x.2)) <$> follow (k r) script
  | Launch op i _ _ _ k, Answer_launch r :: script => (fun x => (Called_launch op i :: x.1, x.2)) <$> follow (k r) script
  | Execute op i _ _ k, Answer_execute r :: script => (fun x => (Called_execute op i :: x.1, x.2)) <$> follow (k r) script
  | Cleanup op i reason k, Answer_cleanup r :: script => (fun x => (Called_cleanup op i reason :: x.1, x.2)) <$> follow (k r) script
  | _, _ => None
  end.

Lemma follow_ran {P A} (p : prog P A) script calls a : follow p script = Some (calls, a) -> ran p calls a.
Proof.
  revert script calls. induction p; intros [ | [ | r | r | r | r] script] calls; cbn; try done; try (by intros [= <- <-]; constructor);
    intros ([calls' a'] & Hf & [= -> ->])%fmap_Some; econstructor; eauto.
Qed.

Definition demo_run : RunRequest :=
  mkRunRequest Demo.launch_op Demo.instance Demo.image Demo.shape (ereq_command Demo.execute_request) (ereq_limits Demo.execute_request) None.

Definition demo_script (failure : option BackendFailure) : list (answer unit) :=
  [Answer_resolve (Ok Demo.resolved); Answer_launch (Ok Demo.launched);
   Answer_execute (Ok (mkCommandObservation Demo.launch_op Demo.instance (Command_Exited 0) (mkObservedOutput [49] 1 [] 0) 50 60));
   Answer_cleanup (match failure with
                   | None => Ok (mkCleanupObservation Demo.launch_op Demo.instance (with_method Method_Graceful complete_owned_machine) 70 80)
                   | Some f => Err f
                   end)].

Definition demo_result (script : list (answer unit)) : list backend_call * bool * bool :=
  match follow (run_machine Demo.sha256 LinuxKvm demo_run) script with
  | Some (calls, result) => (calls, match result with Ok _ => true | Err _ => false end, receipt_validate (result_receipt result))
  | None => ([], false, false)
  end.

Definition demo_calls : list backend_call :=
  [Called_resolve Demo.launch_op; Called_launch Demo.launch_op Demo.instance; Called_execute Demo.launch_op Demo.instance;
   Called_cleanup Demo.launch_op Demo.instance RunCompleted].

Example demo_success : demo_result (demo_script None) = (demo_calls, true, true).
Proof. vm_compute. reflexivity. Qed.

Example demo_unclean : demo_result (demo_script (Some (mkBackendFailure Failure_CleanupFailure 90))) = (demo_calls, false, true).
Proof. vm_compute. reflexivity. Qed.

(** A launch the backend refuses: rolled back, with a receipt that does not validate. *)
Example demo_refused : demo_result [Answer_resolve (Ok Demo.resolved); Answer_launch (Err (mkBackendFailure Failure_Unavailable 20));
    Answer_cleanup (Ok (mkCleanupObservation Demo.launch_op Demo.instance (with_method Method_Forced complete_owned_machine) 30 40))] =
  ([Called_resolve Demo.launch_op; Called_launch Demo.launch_op Demo.instance; Called_cleanup Demo.launch_op Demo.instance Rollback], false, false).
Proof. vm_compute. reflexivity. Qed.

Lemma run_cleans_up_witness : exists calls result, ran (run_machine (P := unit) Demo.sha256 LinuxKvm demo_run) calls result /\
  calls = demo_calls /\ receipt_validate (result_receipt result) = run_receipt_valid (result_receipt result).
Proof.
  destruct (follow (run_machine Demo.sha256 LinuxKvm demo_run) (demo_script None)) as [[calls result] | ] eqn:Hf;
    pose proof demo_success as Hd; unfold demo_result in Hd; rewrite Hf in Hd; [ | discriminate Hd].
  exists calls, result. apply follow_ran in Hf. split; [exact Hf | ]. split; [congruence | ].
  exact (proj2 (run_cleans_up Demo.sha256 LinuxKvm demo_run calls result demo_digests Hf)).
Defined.
