(* ===== verification/HostAdmission.v ===== *)
(** Capacity admission of the host daemon ([crates/soma-hostd/src/admission/]): the certified
    host profile, Machine shapes, the demand of one shape, the committed usage and its
    gates, reservation, release and the capacity estimate. *)

From S2P Require Import Prelude.
From stdpp Require Import options.

(** * Shapes ([shape.rs]) *)

Inductive WorkloadClass : Type := ApiWaiting | Build | IdleInteractive.

#[export] Instance WorkloadClass_eq_dec : EqDecision WorkloadClass.
Proof. solve_decision. Defined.

Definition WORKLOAD_ALL : list WorkloadClass := [ApiWaiting; Build; IdleInteractive].

Definition workload_code (c : WorkloadClass) : Z :=
  match c with ApiWaiting => 1 | Build => 2 | IdleInteractive => 3 end.

Definition workload_from_code (code : Z) : option WorkloadClass :=
  if code =? 1 then Some ApiWaiting else if code =? 2 then Some Build
  else if code =? 3 then Some IdleInteractive else None.

Inductive MemoryClass : Type :=
| MemoryClass_Guaranteed
| MemoryClass_Elastic (expected_resident_bytes : Z).

Definition memory_class_code (c : MemoryClass) : Z :=
  match c with MemoryClass_Guaranteed => 1 | MemoryClass_Elastic _ => 2 end.

Record MachineShape : Type := mkMachineShape {
  shape_vcpus : Z;
  guest_memory_bytes : Z;
  memory_class : MemoryClass;
  private_storage_bytes : Z;
  shape_workload : WorkloadClass;
  shape_network_units : Z;
  shape_descriptors : Z
}.

Inductive ShapeError : Type := ShapeError_NoVcpus | ShapeError_NoMemory | ShapeError_ElasticAboveGuest.

Record ValidShape : Type := mkValidShape { valid_shape : MachineShape }.

Definition shape_validate (s : MachineShape) : Result ValidShape ShapeError :=
  if shape_vcpus s =? 0 then Err ShapeError_NoVcpus
  else if guest_memory_bytes s =? 0 then Err ShapeError_NoMemory
  else match memory_class s with
  | MemoryClass_Elastic expected =>
      if expected >? guest_memory_bytes s then Err ShapeError_ElasticAboveGuest else Ok (mkValidShape s)
  | MemoryClass_Guaranteed => Ok (mkValidShape s)
  end.

(** * The host profile ([profile.rs], [overhead.rs]) *)

Record CpuInventory : Type := mkCpuInventory {
  hardware_threads : Z;
  reserved_threads : Z;
  numa_nodes : Z
}.

Record MemoryInventory : Type := mkMemoryInventory {
  total_bytes : Z;
  reserved_bytes : Z;
  overhead_bytes_per_instance : Z;
  elastic_budget_bytes : Z
}.

Record ProcessInventory : Type := mkProcessInventory {
  inventory_processes : Z;
  inventory_descriptors : Z
}.

Record OperatorLimits : Type := mkOperatorLimits {
  resident_instances : Z;
  concurrent_launches : Z;
  limit_runnable_vcpus : Z;
  dirty_memory_bytes : Z;
  cleanup_slots : Z
}.

Record Ratio : Type := mkRatio { ratio_vcpus : Z; ratio_threads : Z }.

Definition RATIO_STRICT : Ratio := mkRatio 1 1.

Record OvercommitPolicy : Type := mkOvercommitPolicy {
  policy_api_waiting : Ratio;
  policy_build : Ratio;
  policy_idle_interactive : Ratio
}.

Definition policy_ratio (p : OvercommitPolicy) (class : WorkloadClass) : Ratio :=
  match class with
  | ApiWaiting => policy_api_waiting p
  | Build => policy_build p
  | IdleInteractive => policy_idle_interactive p
  end.

(** The storage and network inventories have one field each. *)
Record HostProfile : Type := mkHostProfile {
  profile_cpu : CpuInventory;
  profile_memory : MemoryInventory;
  private_budget_bytes : Z;
  inventory_network_units : Z;
  profile_process : ProcessInventory;
  profile_limits : OperatorLimits;
  profile_overcommit : OvercommitPolicy
}.

Inductive ProfileError : Type :=
| ProfileError_NoAdmissibleCpu
| ProfileError_NoAdmissibleMemory
| ProfileError_NoNumaNode
| ProfileError_ZeroRatio
| ProfileError_ElasticBudget
| ProfileError_ZeroOverhead.

Definition admissible_cpu_units (p : HostProfile) : Z :=
  saturating_sub (hardware_threads (profile_cpu p)) (reserved_threads (profile_cpu p)).

Definition admissible_memory_bytes (p : HostProfile) : Z :=
  saturating_sub (total_bytes (profile_memory p)) (reserved_bytes (profile_memory p)).

Record CertifiedProfile : Type := mkCertifiedProfile { certified_profile : HostProfile }.

Definition zero_ratio (r : Ratio) : bool := (ratio_vcpus r =? 0) || (ratio_threads r =? 0).

Definition profile_validate (p : HostProfile) : Result CertifiedProfile ProfileError :=
  if hardware_threads (profile_cpu p) <=? reserved_threads (profile_cpu p) then Err ProfileError_NoAdmissibleCpu
  else if total_bytes (profile_memory p) <=? reserved_bytes (profile_memory p) then Err ProfileError_NoAdmissibleMemory
  else if numa_nodes (profile_cpu p) =? 0 then Err ProfileError_NoNumaNode
  else if existsb zero_ratio [policy_api_waiting (profile_overcommit p); policy_build (profile_overcommit p);
                              policy_idle_interactive (profile_overcommit p)] then Err ProfileError_ZeroRatio
  else if elastic_budget_bytes (profile_memory p) >? admissible_memory_bytes p then Err ProfileError_ElasticBudget
  else if overhead_bytes_per_instance (profile_memory p) =? 0 then Err ProfileError_ZeroOverhead
  else Ok (mkCertifiedProfile p).

(** * Rejections ([rejection.rs]) *)

Inductive Gate : Type :=
| Gate_CpuUnits | Gate_HostMemory | Gate_ElasticMemory | Gate_PrivateStorage | Gate_NetworkInventory
| Gate_ProcessLimit | Gate_DescriptorLimit | Gate_OperatorSafetyLimit | Gate_ConcurrentLaunches
| Gate_RunnableVcpus | Gate_DirtyMemory | Gate_CleanupSlots | Gate_NumaFit | Gate_Arithmetic.

#[export] Instance Gate_eq_dec : EqDecision Gate.
Proof. solve_decision. Defined.

Record CapacityRejection : Type := mkCapacityRejection {
  rejection_gate : Gate;
  rejection_requested : Z;
  rejection_committed : Z;
  rejection_limit : Z
}.

Definition rejection_available (r : CapacityRejection) : Z :=
  saturating_sub (rejection_limit r) (rejection_committed r).

(** * Usage ([usage.rs]) *)

(** A [[u64; 3]] indexed by [WorkloadClass::index]. *)
Record Census : Type := mkCensus { census_api : Z; census_build : Z; census_idle : Z }.

Definition census_zero : Census := mkCensus 0 0 0.

Definition census_get (c : Census) (class : WorkloadClass) : Z :=
  match class with ApiWaiting => census_api c | Build => census_build c | IdleInteractive => census_idle c end.

Definition census_set (c : Census) (class : WorkloadClass) (n : Z) : Census :=
  match class with
  | ApiWaiting => mkCensus n (census_build c) (census_idle c)
  | Build => mkCensus (census_api c) n (census_idle c)
  | IdleInteractive => mkCensus (census_api c) (census_build c) n
  end.

Definition checked_mul_u64 (x y : Z) : option Z := if x * y <=? U64_MAX then Some (x * y) else None.

Definition checked_sub_u64 (x y : Z) : option Z := if y <=? x then Some (x - y) else None.

Definition saturating_mul_u64 (x y : Z) : Z := Z.min U64_MAX (x * y).

Definition saturating_add_u64 : Z -> Z -> Z := saturating_add U64_MAX.

Definition class_milli_units (vcpus : Z) (ratio : Ratio) : option Z :=
  thousandths ← checked_mul_u64 vcpus 1000;
  numerator ← checked_mul_u64 thousandths (ratio_threads ratio);
  let denominator := ratio_vcpus ratio in
  less_one ← checked_sub_u64 denominator 1;
  rounded ← checked_add_u64 numerator less_one;
  Some (rounded / denominator).

Fixpoint census_total (census : Census) (profile : HostProfile) (classes : list WorkloadClass) (total : Z)
    : option Z :=
  match classes with
  | [] => Some total
  | class :: classes =>
      cost ← class_milli_units (census_get census class) (policy_ratio (profile_overcommit profile) class);
      total ← checked_add_u64 total cost;
      census_total census profile classes total
  end.

Definition census_milli_units (census : Census) (profile : HostProfile) : option Z :=
  census_total census profile WORKLOAD_ALL 0.

(** * Demand ([demand.rs]) *)

Record Demand : Type := mkDemand {
  demand_cpu_milli_units : Z;
  demand_vcpus : Z;
  demand_workload : WorkloadClass;
  demand_guaranteed_bytes : Z;
  demand_elastic_bytes : Z;
  demand_storage_bytes : Z;
  demand_network_units : Z;
  demand_descriptors : Z;
  demand_runnable_vcpus : Z;
  demand_dirty_bytes : Z
}.

Definition demand_overflow (requested : Z) : CapacityRejection := mkCapacityRejection Gate_Arithmetic requested 0 U64_MAX.

Definition with_overhead (p : HostProfile) (bytes : Z) : Result Z CapacityRejection :=
  ok_or (demand_overflow bytes) (checked_add_u64 bytes (overhead_bytes_per_instance (profile_memory p))).

Definition demand_of (certified : CertifiedProfile) (shape : ValidShape) : Result Demand CapacityRejection :=
  let p := certified_profile certified in
  let s := valid_shape shape in
  let vcpus := shape_vcpus s in
  let? cpu := ok_or (demand_overflow vcpus)
                (class_milli_units vcpus (policy_ratio (profile_overcommit p) (shape_workload s))) in
  let? (memory, dirty) :=
    match memory_class s with
    | MemoryClass_Guaranteed =>
        let? bytes := with_overhead p (guest_memory_bytes s) in Ok ((bytes, 0), guest_memory_bytes s)
    | MemoryClass_Elastic expected =>
        let? bytes := with_overhead p expected in Ok ((0, bytes), expected)
    end in
  Ok (mkDemand cpu vcpus (shape_workload s) memory.1 memory.2 (private_storage_bytes s) (shape_network_units s)
        (shape_descriptors s) vcpus dirty).

Record Usage : Type := mkUsage {
  cpu_milli_units : Z;
  vcpus_by_class : Census;
  guaranteed_bytes : Z;
  elastic_bytes : Z;
  storage_bytes : Z;
  network_units : Z;
  processes : Z;
  descriptors : Z;
  residents : Z;
  launches : Z;
  runnable_vcpus : Z;
  dirty_bytes : Z;
  cleanups : Z;
  node_cpu : list Z;
  node_vcpus : list Census;
  node_memory : list Z
}.

Definition gate (which : Gate) (committed requested limit : Z) : Result Z CapacityRejection :=
  match checked_add_u64 committed requested with
  | None => Err (mkCapacityRejection which requested committed limit)
  | Some total =>
      if total >? limit then Err (mkCapacityRejection which requested committed limit) else Ok total
  end.

Definition cpu_limit (p : HostProfile) : Z := saturating_mul_u64 (admissible_cpu_units p) 1000.

Definition usage_apply (u : Usage) (d : Demand) (p : HostProfile) : Result Usage CapacityRejection :=
  let limits := profile_limits p in
  let overflow := mkCapacityRejection Gate_Arithmetic (demand_vcpus d) (cpu_milli_units u) (cpu_limit p) in
  let? count := ok_or overflow (checked_add_u64 (census_get (vcpus_by_class u) (demand_workload d)) (demand_vcpus d)) in
  let census := census_set (vcpus_by_class u) (demand_workload d) count in
  let? committed := ok_or overflow (census_milli_units census p) in
  if committed >? cpu_limit p
  then Err (mkCapacityRejection Gate_CpuUnits (demand_cpu_milli_units d) (cpu_milli_units u) (cpu_limit p))
  else
    let memory_committed := saturating_add_u64 (guaranteed_bytes u) (elastic_bytes u) in
    let memory_requested := saturating_add_u64 (demand_guaranteed_bytes d) (demand_elastic_bytes d) in
    let? _ := gate Gate_HostMemory memory_committed memory_requested (admissible_memory_bytes p) in
    let guaranteed := saturating_add_u64 (guaranteed_bytes u) (demand_guaranteed_bytes d) in
    let? elastic := gate Gate_ElasticMemory (elastic_bytes u) (demand_elastic_bytes d)
                      (elastic_budget_bytes (profile_memory p)) in
    let? storage := gate Gate_PrivateStorage (storage_bytes u) (demand_storage_bytes d) (private_budget_bytes p) in
    let? network := gate Gate_NetworkInventory (network_units u) (demand_network_units d) (inventory_network_units p) in
    let? process := gate Gate_ProcessLimit (processes u) 1 (inventory_processes (profile_process p)) in
    let? descriptor := gate Gate_DescriptorLimit (descriptors u) (demand_descriptors d)
                         (inventory_descriptors (profile_process p)) in
    let? resident := gate Gate_OperatorSafetyLimit (residents u) 1 (resident_instances limits) in
    let? launch := gate Gate_ConcurrentLaunches (launches u) 1 (concurrent_launches limits) in
    let? runnable := gate Gate_RunnableVcpus (runnable_vcpus u) (demand_runnable_vcpus d) (limit_runnable_vcpus limits) in
    let? dirty := gate Gate_DirtyMemory (dirty_bytes u) (demand_dirty_bytes d) (dirty_memory_bytes limits) in
    let? _ := gate Gate_CleanupSlots (cleanups u) 0 (cleanup_slots limits) in
    Ok (mkUsage committed census guaranteed elastic storage network process descriptor resident launch runnable
          dirty (cleanups u) (node_cpu u) (node_vcpus u) (node_memory u)).

(** * Placement ([numa.rs]) *)

Record NodeFree : Type := mkNodeFree {
  free_node : Z;
  free_cpu_milli_units : Z;
  free_memory_bytes : Z
}.

Record NodeDemand : Type := mkNodeDemand {
  need_cpu_milli_units : Z;
  need_memory_bytes : Z
}.

Inductive NumaRejection : Type :=
| NumaRejection_NoNodes
| NumaRejection_Fragmented (nodes : Z)
| NumaRejection_MultiNodeUnsupported (nodes : Z).

Class NumaPlacement (P : Type) : Type := {
  place : P -> NodeDemand -> list NodeFree -> Result Z NumaRejection;
}.

Inductive SingleNode : Type := mkSingleNode.

#[export] Instance SingleNode_placement : NumaPlacement SingleNode := {|
  place _ demand free :=
    match free with
    | [] => Err NumaRejection_NoNodes
    | [only] =>
        if (need_cpu_milli_units demand <=? free_cpu_milli_units only) &&
           (need_memory_bytes demand <=? free_memory_bytes only)
        then Ok (free_node only) else Err (NumaRejection_Fragmented 1)
    | _ => Err (NumaRejection_MultiNodeUnsupported (Z.min U32_MAX (Z.of_nat (length free))))
    end;
|}.

(** [profile.cpu.numa_nodes.max(1)] *)
Definition node_count (p : HostProfile) : Z := Z.max 1 (numa_nodes (profile_cpu p)).

Definition node_capacity (p : HostProfile) : Z * Z :=
  (cpu_limit p / node_count p, admissible_memory_bytes p / node_count p).

Definition free_nodes (u : Usage) (p : HostProfile) : list NodeFree :=
  let '(cpu_per_node, memory_per_node) := node_capacity p in
  (fun node => mkNodeFree (Z.of_nat node)
     (saturating_sub cpu_per_node (default 0 (node_cpu u !! node)))
     (saturating_sub memory_per_node (default 0 (node_memory u !! node)))) <$> seq 0 (Z.to_nat (node_count p)).

(** * Reservation ([reserve.rs]) *)

Record Reservation : Type := mkReservation {
  reservation_id : Z;
  reservation_node : Z;
  reservation_demand : Demand;
  launching : bool;
  cleanup : bool
}.

Definition set_launching (r : Reservation) (b : bool) : Reservation :=
  mkReservation (reservation_id r) (reservation_node r) (reservation_demand r) b (cleanup r).
Definition set_cleanup (r : Reservation) (b : bool) : Reservation :=
  mkReservation (reservation_id r) (reservation_node r) (reservation_demand r) (launching r) b.

Definition memory_of (d : Demand) : Z := saturating_add_u64 (demand_guaranteed_bytes d) (demand_elastic_bytes d).

Definition with_launches (u : Usage) (n : Z) : Usage :=
  mkUsage (cpu_milli_units u) (vcpus_by_class u) (guaranteed_bytes u) (elastic_bytes u) (storage_bytes u)
    (network_units u) (processes u) (descriptors u) (residents u) n (runnable_vcpus u) (dirty_bytes u)
    (cleanups u) (node_cpu u) (node_vcpus u) (node_memory u).
Definition with_cleanups (u : Usage) (n : Z) : Usage :=
  mkUsage (cpu_milli_units u) (vcpus_by_class u) (guaranteed_bytes u) (elastic_bytes u) (storage_bytes u)
    (network_units u) (processes u) (descriptors u) (residents u) (launches u) (runnable_vcpus u) (dirty_bytes u)
    n (node_cpu u) (node_vcpus u) (node_memory u).
Definition with_nodes (u : Usage) (cpu : list Z) (vcpus : list Census) (memory : list Z) : Usage :=
  mkUsage (cpu_milli_units u) (vcpus_by_class u) (guaranteed_bytes u) (elastic_bytes u) (storage_bytes u)
    (network_units u) (processes u) (descriptors u) (residents u) (launches u) (runnable_vcpus u) (dirty_bytes u)
    (cleanups u) cpu vcpus memory.

(** The change of one node's census, and its milli-units recomputed from it. *)
Definition node_census (u : Usage) (p : HostProfile) (node : nat) (class : WorkloadClass) (f : Z -> Z) (fallback : Z)
    : list Z * list Census :=
  match node_vcpus u !! node with
  | Some census =>
      let census := census_set census class (f (census_get census class)) in
      (<[node := default fallback (census_milli_units census p)]> (node_cpu u), <[node := census]> (node_vcpus u))
  | None => (node_cpu u, node_vcpus u)
  end.

Definition usage_place (u : Usage) (d : Demand) (p : HostProfile) (node : nat) : Usage :=
  let '(cpu, vcpus) := node_census u p node (demand_workload d)
                         (fun n => saturating_add_u64 n (demand_vcpus d)) U64_MAX in
  with_nodes u cpu vcpus (alter (fun bytes => saturating_add_u64 bytes (memory_of d)) node (node_memory u)).

Definition usage_subtract (u : Usage) (r : Reservation) (p : HostProfile) : Usage :=
  let d := reservation_demand r in
  let class := demand_workload d in
  let node := Z.to_nat (reservation_node r) in
  let census := census_set (vcpus_by_class u) class
                  (saturating_sub (census_get (vcpus_by_class u) class) (demand_vcpus d)) in
  let '(cpu, vcpus) := node_census u p node class (fun n => saturating_sub n (demand_vcpus d)) 0 in
  mkUsage (default 0 (census_milli_units census p)) census
    (saturating_sub (guaranteed_bytes u) (demand_guaranteed_bytes d))
    (saturating_sub (elastic_bytes u) (demand_elastic_bytes d))
    (saturating_sub (storage_bytes u) (demand_storage_bytes d))
    (saturating_sub (network_units u) (demand_network_units d))
    (saturating_sub (processes u) 1)
    (saturating_sub (descriptors u) (demand_descriptors d))
    (saturating_sub (residents u) 1)
    (if launching r then saturating_sub (launches u) 1 else launches u)
    (saturating_sub (runnable_vcpus u) (demand_runnable_vcpus d))
    (saturating_sub (dirty_bytes u) (demand_dirty_bytes d))
    (cleanups u) cpu vcpus
    (alter (fun bytes => saturating_sub bytes (memory_of d)) node (node_memory u)).

Definition best_free (f : NodeFree -> Z) (free : list NodeFree) : Z := foldr (fun n best => Z.max (f n) best) 0 free.

Definition numa_rejection (rejection : NumaRejection) (free : list NodeFree) (demand : NodeDemand) (capacity : Z * Z)
    : CapacityRejection :=
  let '(requested, committed, limit) :=
    match rejection with
    | NumaRejection_Fragmented _ =>
        let free_cpu := best_free free_cpu_milli_units free in
        if free_cpu <? need_cpu_milli_units demand
        then (need_cpu_milli_units demand, saturating_sub capacity.1 free_cpu, capacity.1)
        else
          let free_memory := best_free free_memory_bytes free in
          (need_memory_bytes demand, saturating_sub capacity.2 free_memory, capacity.2)
    | NumaRejection_NoNodes => (1, 0, 0)
    | NumaRejection_MultiNodeUnsupported nodes => (nodes, 0, 1)
    end in
  mkCapacityRejection Gate_NumaFit requested committed limit.

Section admission.
Context {P : Type} `{NumaPlacement P}.

Record Admission : Type := mkAdmission {
  adm_certified : CertifiedProfile;
  adm_placement : P;
  adm_usage : Usage;
  adm_next : Z
}.

Definition adm_profile (a : Admission) : HostProfile := certified_profile (adm_certified a).

Definition with_usage (a : Admission) (u : Usage) : Admission :=
  mkAdmission (adm_certified a) (adm_placement a) u (adm_next a).

Definition usage_empty (nodes : nat) : Usage :=
  mkUsage 0 census_zero 0 0 0 0 0 0 0 0 0 0 0 (replicate nodes 0) (replicate nodes census_zero) (replicate nodes 0).

Definition admission_new (certified : CertifiedProfile) (placement : P) : Admission :=
  mkAdmission certified placement (usage_empty (Z.to_nat (node_count (certified_profile certified)))) 1.

(** The numbering of reservations wraps at 2^64. *)
Definition reserve (shape : ValidShape) : ST Admission CapacityRejection Reservation :=
  a <-- st_get ;;
  demand <-- st_lift (demand_of (adm_certified a) shape) ;;
  let p := adm_profile a in
  let u := adm_usage a in
  candidate <-- st_lift (usage_apply u demand p) ;;
  let marginal := saturating_sub (cpu_milli_units candidate) (cpu_milli_units u) in
  let free := free_nodes u p in
  let node_demand := mkNodeDemand marginal (memory_of demand) in
  node <-- st_lift (map_err (fun rejection => numa_rejection rejection free node_demand (node_capacity p))
                      (place (adm_placement a) node_demand free)) ;;
  let candidate := usage_place candidate demand p (Z.to_nat node) in
  let id := adm_next a in
  st_modify (fun a => mkAdmission (adm_certified a) (adm_placement a) candidate ((id + 1) mod 2 ^ 64)) ;;;
  st_ret (mkReservation id node demand true false).

Definition launched (r : Reservation) (a : Admission) : Admission * Reservation :=
  if launching r
  then (with_usage a (with_launches (adm_usage a) (saturating_sub (launches (adm_usage a)) 1)), set_launching r false)
  else (a, r).

Definition begin_cleanup (r : Reservation) (a : Admission) : Admission * Reservation * Result unit CapacityRejection :=
  if cleanup r then (a, r, Ok tt)
  else match gate Gate_CleanupSlots (cleanups (adm_usage a)) 1 (cleanup_slots (profile_limits (adm_profile a))) with
  | Err e => (a, r, Err e)
  | Ok n => (with_usage a (with_cleanups (adm_usage a) n), set_cleanup r true, Ok tt)
  end.

Definition release (r : Reservation) (a : Admission) : Admission :=
  let u := usage_subtract (adm_usage a) r (adm_profile a) in
  with_usage a (if cleanup r then with_cleanups u (saturating_sub (cleanups u) 1) else u).
End admission.
Arguments Admission : clear implicits.

(** * The estimate ([capacity.rs]) *)

Record CapacityEstimate : Type := mkCapacityEstimate {
  cpu_strict : Z;
  cpu_overcommitted : Z;
  estimate_memory : Z;
  estimate_storage : Z;
  estimate_network : Z;
  estimate_process : Z;
  estimate_operator : Z;
  estimate_runnable : Z;
  estimate_dirty : Z;
  estimate_launches : Z;
  safe_count : Z;
  binding : Gate
}.

Definition divide (budget per_instance : Z) : Z := if per_instance =? 0 then U64_MAX else budget / per_instance.

(** [min_by_key]: the first of the least. *)
Fixpoint min_bound (best : Gate * Z) (bounds : list (Gate * Z)) : Gate * Z :=
  match bounds with
  | [] => best
  | b :: bounds => min_bound (if b.2 <? best.2 then b else best) bounds
  end.

Definition is_elastic (c : MemoryClass) : bool :=
  match c with MemoryClass_Elastic _ => true | MemoryClass_Guaranteed => false end.

Definition estimate (certified : CertifiedProfile) (shape : ValidShape) : Result CapacityEstimate CapacityRejection :=
  let? demand := demand_of certified shape in
  let p := certified_profile certified in
  let s := valid_shape shape in
  let units := admissible_cpu_units p in
  let ratio := policy_ratio (profile_overcommit p) (shape_workload s) in
  let cpu_strict := divide units (shape_vcpus s) in
  let cpu_overcommitted := divide (saturating_mul_u64 units (ratio_vcpus ratio))
                             (saturating_mul_u64 (shape_vcpus s) (ratio_threads ratio)) in
  let elastic := is_elastic (memory_class s) in
  let memory := divide (if elastic then elastic_budget_bytes (profile_memory p) else admissible_memory_bytes p)
                  (if elastic then demand_elastic_bytes demand else demand_guaranteed_bytes demand) in
  let storage := divide (private_budget_bytes p) (demand_storage_bytes demand) in
  let network := divide (inventory_network_units p) (demand_network_units demand) in
  let process := Z.min (inventory_processes (profile_process p))
                   (divide (inventory_descriptors (profile_process p)) (demand_descriptors demand)) in
  let operator := resident_instances (profile_limits p) in
  let runnable := divide (limit_runnable_vcpus (profile_limits p)) (demand_runnable_vcpus demand) in
  let dirty := divide (dirty_memory_bytes (profile_limits p)) (demand_dirty_bytes demand) in
  let launches := concurrent_launches (profile_limits p) in
  let '(binding, safe) :=
    min_bound (Gate_CpuUnits, cpu_overcommitted)
      [(Gate_HostMemory, memory); (Gate_PrivateStorage, storage); (Gate_NetworkInventory, network);
       (Gate_ProcessLimit, process); (Gate_OperatorSafetyLimit, operator); (Gate_RunnableVcpus, runnable);
       (Gate_DirtyMemory, dirty); (Gate_ConcurrentLaunches, launches)] in
  Ok (mkCapacityEstimate cpu_strict cpu_overcommitted memory storage network process operator runnable dirty
        launches safe
        (if elastic && bool_decide (binding = Gate_HostMemory) then Gate_ElasticMemory else binding)).
