(* ===== verification/HostAdmissionFacts.v ===== *)
(** The accounting of admission: the committed usage is at every moment the usage recomputed
    from scratch over the outstanding reservations, whatever the order in which they were
    reserved, launched, cleaned up and released, and it stays within the certified limits. *)

From S2P Require Import Prelude HostAdmission.
From stdpp Require Import options.

(** * The usage recomputed from the outstanding reservations *)

Definition sumz {A} (f : A -> Z) (l : list A) : Z := foldr (fun x n => f x + n) 0 l.

Lemma sumz_cons {A} (f : A -> Z) x l : sumz f (x :: l) = f x + sumz f l.
Proof. done. Qed.

#[export] Instance sumz_perm {A} (f : A -> Z) : Proper ((≡ₚ) ==> eq) (sumz f).
Proof. induction 1; rewrite ?sumz_cons; lia. Qed.

Lemma sumz_nonneg {A} (f : A -> Z) l : Forall (fun x => 0 <= f x) l -> 0 <= sumz f l.
Proof. induction 1; [done | rewrite ?sumz_cons; lia]. Qed.

Lemma sumz_le {A} (f g : A -> Z) l : Forall (fun x => f x <= g x) l -> sumz f l <= sumz g l.
Proof. induction 1; [done | rewrite ?sumz_cons; lia]. Qed.

Lemma sumz_add {A} (f g : A -> Z) l : sumz (fun x => f x + g x) l = sumz f l + sumz g l.
Proof. induction l; [done | rewrite !sumz_cons; lia]. Qed.

Lemma sumz_const {A} (f : A -> Z) c n x : f x = c -> sumz f (replicate n x) = Z.of_nat n * c.
Proof. intros Hc. induction n; [done | rewrite replicate_S, sumz_cons; lia]. Qed.

Definition of_demand (f : Demand -> Z) (r : Reservation) : Z := f (reservation_demand r).

Definition one (r : Reservation) : Z := 1.

Definition vcpus_of (class : WorkloadClass) (r : Reservation) : Z :=
  if decide (demand_workload (reservation_demand r) = class) then demand_vcpus (reservation_demand r) else 0.

(** [f] of the reservations on one node. *)
Definition on_node (node : nat) (f : Reservation -> Z) (r : Reservation) : Z :=
  if decide (reservation_node r = Z.of_nat node) then f r else 0.

Definition census_of (on : (Reservation -> Z) -> Reservation -> Z) (outs : list Reservation) : Census :=
  mkCensus (sumz (on (vcpus_of ApiWaiting)) outs) (sumz (on (vcpus_of Build)) outs)
    (sumz (on (vcpus_of IdleInteractive)) outs).

Definition host_census (outs : list Reservation) : Census := census_of id outs.

Definition usage_of (p : HostProfile) (outs : list Reservation) : Usage :=
  let nodes := seq 0 (Z.to_nat (node_count p)) in
  mkUsage (default 0 (census_milli_units (host_census outs) p)) (host_census outs)
    (sumz (of_demand demand_guaranteed_bytes) outs) (sumz (of_demand demand_elastic_bytes) outs)
    (sumz (of_demand demand_storage_bytes) outs) (sumz (of_demand demand_network_units) outs)
    (sumz one outs) (sumz (of_demand demand_descriptors) outs) (sumz one outs)
    (sumz (fun r => Z.b2z (launching r)) outs) (sumz (of_demand demand_runnable_vcpus) outs)
    (sumz (of_demand demand_dirty_bytes) outs) (sumz (fun r => Z.b2z (cleanup r)) outs)
    ((fun n => default 0 (census_milli_units (census_of (on_node n) outs) p)) <$> nodes)
    ((fun n => census_of (on_node n) outs) <$> nodes)
    ((fun n => sumz (on_node n (of_demand memory_of)) outs) <$> nodes).

Lemma sumz_length outs : sumz one outs = Z.of_nat (length outs).
Proof. induction outs; [done | rewrite sumz_cons; cbn -[Z.add Z.of_nat]; unfold one in *; lia]. Qed.

#[export] Instance census_of_perm on : Proper ((≡ₚ) ==> eq) (census_of on).
Proof. intros l k Hp. unfold census_of. by rewrite !Hp. Qed.

#[export] Instance usage_of_perm p : Proper ((≡ₚ) ==> eq) (usage_of p).
Proof.
  intros l k Hp. unfold usage_of, host_census. rewrite !Hp.
  f_equal; apply list_fmap_ext; intros ? n _; by rewrite Hp.
Qed.

(** * The limits of the certified profile *)

Record within (p : HostProfile) (u : Usage) : Prop := {
  in_cpu : census_milli_units (vcpus_by_class u) p = Some (cpu_milli_units u) /\ cpu_milli_units u <= cpu_limit p;
  in_memory : guaranteed_bytes u + elastic_bytes u <= admissible_memory_bytes p;
  in_elastic : elastic_bytes u <= elastic_budget_bytes (profile_memory p);
  in_storage : storage_bytes u <= private_budget_bytes p;
  in_network : network_units u <= inventory_network_units p;
  in_processes : processes u <= inventory_processes (profile_process p);
  in_descriptors : descriptors u <= inventory_descriptors (profile_process p);
  in_residents : residents u <= resident_instances (profile_limits p);
  in_launches : launches u <= concurrent_launches (profile_limits p);
  in_runnable : runnable_vcpus u <= limit_runnable_vcpus (profile_limits p);
  in_dirty : dirty_bytes u <= dirty_memory_bytes (profile_limits p);
  in_cleanups : cleanups u <= cleanup_slots (profile_limits p);
  in_node_memory : Forall (fun bytes => bytes <= admissible_memory_bytes p / node_count p) (node_memory u)
}.

Definition ratio_typed (r : Ratio) : Prop := is_uint 32 (ratio_vcpus r) /\ is_uint 32 (ratio_threads r).

(** The widths of the profile's fields. *)
Record profile_typed (p : HostProfile) : Prop := {
  typed_u32 : Forall (is_uint 32)
    [hardware_threads (profile_cpu p); reserved_threads (profile_cpu p); numa_nodes (profile_cpu p);
     inventory_network_units p; inventory_processes (profile_process p); inventory_descriptors (profile_process p);
     resident_instances (profile_limits p); concurrent_launches (profile_limits p);
     limit_runnable_vcpus (profile_limits p); cleanup_slots (profile_limits p)];
  typed_u64 : Forall (is_uint 64)
    [total_bytes (profile_memory p); reserved_bytes (profile_memory p);
     overhead_bytes_per_instance (profile_memory p); elastic_budget_bytes (profile_memory p);
     private_budget_bytes p; dirty_memory_bytes (profile_limits p)];
  typed_ratio : forall class, ratio_typed (policy_ratio (profile_overcommit p) class)
}.

Definition class_bytes (c : MemoryClass) : Z :=
  match c with MemoryClass_Guaranteed => 0 | MemoryClass_Elastic bytes => bytes end.

Record shape_typed (s : MachineShape) : Prop := {
  shape_u32 : Forall (is_uint 32) [shape_vcpus s; shape_network_units s; shape_descriptors s];
  shape_u64 : Forall (is_uint 64) [guest_memory_bytes s; private_storage_bytes s; class_bytes (memory_class s)]
}.

Definition demand_ok (d : Demand) : Prop :=
  Forall (Z.le 0) [demand_vcpus d; demand_guaranteed_bytes d; demand_elastic_bytes d; demand_storage_bytes d;
    demand_network_units d; demand_descriptors d; demand_runnable_vcpus d; demand_dirty_bytes d] /\
  demand_guaranteed_bytes d + demand_elastic_bytes d <= U64_MAX.

(** Decide a list of bounds. *)
Ltac bounds := repeat match goal with
  | H : Forall _ (_ :: _) |- _ => apply Forall_cons in H as [? H]
  | H : Forall _ [] |- _ => clear H
  end.

Lemma memory_of_sum d : demand_ok d -> memory_of d = demand_guaranteed_bytes d + demand_elastic_bytes d.
Proof. intros [_ ?]. unfold memory_of, saturating_add_u64, saturating_add. lia. Qed.

(** * The CPU census *)

Lemma checked_mul_u64_Some x y z : checked_mul_u64 x y = Some z <-> z = x * y /\ x * y <= U64_MAX.
Proof. unfold checked_mul_u64. destruct (Z.leb_spec (x * y) U64_MAX); split; intros; simplify_eq; naive_solver lia. Qed.

Lemma class_milli_units_Some v r x : 0 <= v -> ratio_typed r ->
  class_milli_units v r = Some x <->
  1 <= ratio_vcpus r /\ v * 1000 <= U64_MAX /\ v * 1000 * ratio_threads r + (ratio_vcpus r - 1) <= U64_MAX /\
  x = (v * 1000 * ratio_threads r + (ratio_vcpus r - 1)) / ratio_vcpus r.
Proof.
  intros Hv [[Hrv _] [Hrt _]]. unfold class_milli_units, checked_mul_u64, checked_sub_u64, checked_add_u64, mbind, option_bind.
  assert (0 <= v * 1000 * ratio_threads r) by nia.
  destruct (Z.leb_spec (v * 1000) U64_MAX); [ | split; [done | intros; lia]].
  destruct (Z.leb_spec (v * 1000 * ratio_threads r) U64_MAX); [ | split; [done | intros; lia]].
  destruct (Z.leb_spec 1 (ratio_vcpus r)); [ | split; [done | intros; lia]].
  destruct (Z.leb_spec (v * 1000 * ratio_threads r + (ratio_vcpus r - 1)) U64_MAX); [ | split; [done | intros; lia]].
  split; [by intros [= <-] | by intros (_ & _ & _ & ->)].
Qed.

Lemma class_milli_units_mono v w r x : 0 <= v <= w -> ratio_typed r -> class_milli_units w r = Some x ->
  exists y, class_milli_units v r = Some y /\ 0 <= y <= x.
Proof.
  intros Hvw Hr (? & ? & ? & ->)%class_milli_units_Some; [ | lia | done].
  destruct (Hr) as [_ [? _]].
  assert (0 <= v * 1000 * ratio_threads r <= w * 1000 * ratio_threads r) by nia.
  eexists; split; [apply class_milli_units_Some; [lia | done | ] | ].
  - split; [done | ]. split; [lia | ]. split; [lia | done].
  - split; [apply Z.div_pos; lia | apply Z.div_le_mono; lia].
Qed.

Definition census_le (c d : Census) : Prop :=
  0 <= census_api c <= census_api d /\ 0 <= census_build c <= census_build d /\ 0 <= census_idle c <= census_idle d.

Lemma census_get_le c d class : census_le c d -> 0 <= census_get c class <= census_get d class.
Proof. intros (? & ? & ?). by destruct class. Qed.

Lemma census_total_mono c d p classes t s x : profile_typed p -> census_le c d -> 0 <= t <= s ->
  census_total d p classes s = Some x -> exists y, census_total c p classes t = Some y /\ 0 <= y <= x.
Proof.
  intros Hp Hcd. revert t s. induction classes as [ | class classes IH]; intros t s Hts; cbn.
  - intros [= ->]. eauto.
  - intros (cost & Hc & Hk)%bind_Some. apply bind_Some in Hk as (s' & Hs & Hk).
    apply checked_add_u64_Some in Hs as [-> ?].
    eapply class_milli_units_mono in Hc as (y & -> & ?); [ | by apply census_get_le | by apply typed_ratio].
    cbn. unfold checked_add_u64. destruct (Z.leb_spec (t + y) U64_MAX); [ | lia]. cbn. eapply IH; [ | done]. lia.
Qed.

Lemma census_milli_units_mono c d p x : profile_typed p -> census_le c d ->
  census_milli_units d p = Some x -> exists y, census_milli_units c p = Some y /\ 0 <= y <= x.
Proof. intros. by eapply census_total_mono. Qed.

Lemma census_get_bound c p x class : profile_typed p -> 0 <= census_get c class -> census_milli_units c p = Some x ->
  census_get c class <= U64_MAX.
Proof.
  intros Hp Hc (a & Ha & Hx)%bind_Some. apply bind_Some in Hx as (? & _ & Hx).
  apply bind_Some in Hx as (b & Hb & Hx). apply bind_Some in Hx as (? & _ & Hx).
  apply bind_Some in Hx as (c' & Hi & Hx).
  destruct class; [apply class_milli_units_Some in Ha | apply class_milli_units_Some in Hb
    | apply class_milli_units_Some in Hi]; cbn in *; try (by apply typed_ratio); try lia;
    by apply (typed_ratio _ Hp ApiWaiting) || by apply (typed_ratio _ Hp Build) || by apply (typed_ratio _ Hp IdleInteractive).
Qed.

(** * Reservations one at a time *)

Definition reservation_ok (p : HostProfile) (r : Reservation) : Prop :=
  demand_ok (reservation_demand r) /\ 0 <= reservation_node r < node_count p.

Lemma census_get_cons on r outs class :
  census_get (census_of on (r :: outs)) class = on (vcpus_of class) r + census_get (census_of on outs) class.
Proof. by destruct class. Qed.

Lemma census_ext c d : (forall class, census_get c class = census_get d class) -> c = d.
Proof.
  intros H. destruct c, d. pose proof (H ApiWaiting). pose proof (H Build). pose proof (H IdleInteractive).
  cbn in *. congruence.
Qed.

Lemma census_get_set c class n class' :
  census_get (census_set c class n) class' = if decide (class = class') then n else census_get c class'.
Proof. by destruct class, class'. Qed.

Section one_reservation.
Context (on : (Reservation -> Z) -> Reservation -> Z) (r : Reservation).
Context (Hon : forall f, on f r = f r).

Let d := reservation_demand r.
Let class := demand_workload d.

Lemma vcpus_of_self : on (vcpus_of class) r = demand_vcpus d.
Proof using Hon. rewrite Hon. unfold vcpus_of. by rewrite decide_True. Qed.

Lemma census_of_push outs : census_of on (r :: outs) =
  census_set (census_of on outs) class (census_get (census_of on outs) class + demand_vcpus d).
Proof using Hon.
  apply census_ext. intros class'. rewrite census_get_cons, census_get_set.
  destruct (decide (class = class')) as [<- | Hne]; [rewrite vcpus_of_self; lia | ].
  rewrite Hon. unfold vcpus_of. by rewrite decide_False.
Qed.

Lemma census_of_pop outs : 0 <= census_get (census_of on outs) class ->
  census_set (census_of on (r :: outs)) class
    (saturating_sub (census_get (census_of on (r :: outs)) class) (demand_vcpus d)) = census_of on outs.
Proof using Hon.
  intros Hnn. apply census_ext. intros class'. rewrite census_get_set, !census_get_cons.
  destruct (decide (class = class')) as [<- | Hne].
  - rewrite vcpus_of_self. unfold saturating_sub. lia.
  - rewrite Hon. unfold vcpus_of. by rewrite decide_False.
Qed.
End one_reservation.

Lemma on_node_here f r : 0 <= reservation_node r -> on_node (Z.to_nat (reservation_node r)) f r = f r.
Proof. intros. unfold on_node. by rewrite decide_True by lia. Qed.

Lemma on_node_other n f r : n <> Z.to_nat (reservation_node r) -> on_node n f r = 0.
Proof. intros. unfold on_node. by rewrite decide_False by lia. Qed.

Lemma census_of_skip n r outs : n <> Z.to_nat (reservation_node r) ->
  census_of (on_node n) (r :: outs) = census_of (on_node n) outs.
Proof. intros. unfold census_of. by rewrite !sumz_cons, !on_node_other. Qed.

Lemma vcpus_of_nonneg p r class : reservation_ok p r -> 0 <= vcpus_of class r.
Proof. intros [[Hd _] _]. bounds. unfold vcpus_of. by case_decide. Qed.

Lemma on_node_range n f r : 0 <= f r -> 0 <= on_node n f r <= f r.
Proof. intros. unfold on_node. case_decide; lia. Qed.

Lemma census_nonneg p outs class : Forall (reservation_ok p) outs -> 0 <= census_get (host_census outs) class.
Proof.
  intros Hok. destruct class; apply sumz_nonneg; eapply Forall_impl; try done; intros; by eapply vcpus_of_nonneg.
Qed.

Lemma node_census_le p n outs : Forall (reservation_ok p) outs ->
  census_le (census_of (on_node n) outs) (host_census outs).
Proof.
  intros Hok.
  assert (forall class, 0 <= sumz (on_node n (vcpus_of class)) outs <= sumz (vcpus_of class) outs) as H.
  { intros class. split; [apply sumz_nonneg | apply sumz_le]; eapply Forall_impl; try done;
      intros; apply on_node_range; by eapply vcpus_of_nonneg. }
  by pose proof (H ApiWaiting); pose proof (H Build); pose proof (H IdleInteractive).
Qed.

Lemma host_census_le p r outs : Forall (reservation_ok p) (r :: outs) ->
  census_le (host_census outs) (host_census (r :: outs)).
Proof.
  intros [Hr Hok]%Forall_cons.
  assert (forall class, 0 <= census_get (host_census outs) class <= census_get (host_census (r :: outs)) class) as H.
  { intros class. pose proof (census_nonneg p outs class Hok). pose proof (vcpus_of_nonneg p r class Hr).
    unfold host_census in *. rewrite census_get_cons. change (id (vcpus_of class) r) with (vcpus_of class r). lia. }
  by pose proof (H ApiWaiting); pose proof (H Build); pose proof (H IdleInteractive).
Qed.

Lemma insert_map_seq {A} (g h : nat -> A) n k x : (k < n)%nat -> x = h k -> (forall i, i <> k -> g i = h i) ->
  <[k := x]> (g <$> seq 0 n) = h <$> seq 0 n.
Proof.
  intros Hk -> Hne. apply list_eq. intros i. destruct (decide (i = k)) as [-> | Hik].
  - rewrite list_lookup_insert_eq by (rewrite length_fmap, length_seq; lia).
    rewrite list_lookup_fmap, lookup_seq_lt by lia. done.
  - rewrite list_lookup_insert_ne by done. rewrite !list_lookup_fmap.
    destruct (seq 0 n !! i) eqn:Hi; [ | done]. apply lookup_seq in Hi as [-> ?]. cbn. by rewrite Hne.
Qed.

Lemma alter_map_seq {A} (f : A -> A) (g h : nat -> A) n k : (k < n)%nat -> f (g k) = h k ->
  (forall i, i <> k -> g i = h i) -> alter f k (g <$> seq 0 n) = h <$> seq 0 n.
Proof.
  intros Hk Hf Hne. rewrite <- (insert_map_seq g h n k (f (g k))) by done.
  apply list_eq. intros i. destruct (decide (i = k)) as [-> | Hik].
  - rewrite list_lookup_alter_eq, list_lookup_insert_eq by (rewrite length_fmap, length_seq; lia).
    by rewrite list_lookup_fmap, lookup_seq_lt by lia.
  - by rewrite list_lookup_alter_ne, list_lookup_insert_ne.
Qed.

Lemma lookup_map_seq {A} (g : nat -> A) n k : (k < n)%nat -> (g <$> seq 0 n) !! k = Some (g k).
Proof. intros. by rewrite list_lookup_fmap, lookup_seq_lt by lia. Qed.

(** * What every operation does to the accounting *)

Lemma gate_Ok g c r l t : gate g c r l = Ok t <-> t = c + r /\ c + r <= U64_MAX /\ c + r <= l.
Proof.
  unfold gate, checked_add_u64. destruct (Z.leb_spec (c + r) U64_MAX); [ | split; [done | intros; lia]].
  rewrite Z.gtb_ltb. destruct (Z.ltb_spec l (c + r)); split; intros; simplify_eq; naive_solver lia.
Qed.

(** The usage after a demand is committed, without the node vectors. *)
Definition charged (u : Usage) (d : Demand) (committed : Z) : Usage :=
  mkUsage committed (census_set (vcpus_by_class u) (demand_workload d)
                       (census_get (vcpus_by_class u) (demand_workload d) + demand_vcpus d))
    (guaranteed_bytes u + demand_guaranteed_bytes d) (elastic_bytes u + demand_elastic_bytes d)
    (storage_bytes u + demand_storage_bytes d) (network_units u + demand_network_units d) (processes u + 1)
    (descriptors u + demand_descriptors d) (residents u + 1) (launches u + 1)
    (runnable_vcpus u + demand_runnable_vcpus d) (dirty_bytes u + demand_dirty_bytes d) (cleanups u)
    (node_cpu u) (node_vcpus u) (node_memory u).

Record nonneg (u : Usage) : Prop := {
  nonneg_census : forall class, 0 <= census_get (vcpus_by_class u) class;
  nonneg_memory : 0 <= guaranteed_bytes u /\ 0 <= elastic_bytes u
}.

Lemma admissible_memory_u64 p : profile_typed p -> 0 <= admissible_memory_bytes p <= U64_MAX.
Proof.
  intros []. bounds. unfold admissible_memory_bytes, saturating_sub, is_uint in *. unfold U64_MAX. lia.
Qed.

(** A demand is committed exactly when the usage with it is within the limits. *)
Lemma usage_apply_Ok u d p u' : profile_typed p -> demand_ok d -> nonneg u -> within p u ->
  usage_apply u d p = Ok u' <-> exists committed, u' = charged u d committed /\ within p (charged u d committed).
Proof.
  intros Hp Hd Hn Hw. pose proof (admissible_memory_u64 p Hp) as Hmem.
  pose proof (memory_of_sum d Hd) as Hm. unfold memory_of in Hm. destruct (Hd) as [Hd1 Hd2]. bounds.
  destruct Hn as [Hnc [Hg He]]. pose proof (in_memory _ _ Hw) as Hin.
  assert (saturating_add_u64 (guaranteed_bytes u) (elastic_bytes u) = guaranteed_bytes u + elastic_bytes u) as Hs.
  { unfold saturating_add_u64, saturating_add. lia. }
  unfold usage_apply. rewrite Hs, Hm, ok_or_bind_Ok. setoid_rewrite ok_or_bind_Ok.
  setoid_rewrite checked_add_u64_Some. split.
  - intros (census & (-> & Hc) & committed & Hcm & Hk).
    rewrite Z.gtb_ltb in Hk. destruct (Z.ltb_spec (cpu_limit p) committed) as [ | Hlim]; [done | ].
    repeat (apply bind_Ok in Hk as (? & (-> & ? & ?)%gate_Ok & Hk)).
    simplify_eq. exists committed. unfold saturating_add_u64, saturating_add. rewrite Z.min_r by lia.
    split; [done | ]. split; cbn; try lia; [done | by apply (in_node_memory _ _ Hw)].
  - intros (committed & -> & Hw').
    assert (census_get (vcpus_by_class u) (demand_workload d) + demand_vcpus d <= U64_MAX).
    { pose proof (in_cpu _ _ Hw') as [Hcm _]. eapply (census_get_bound _ _ _ (demand_workload d)) in Hcm; [ | done | ];
        cbn [vcpus_by_class charged] in *; rewrite census_get_set, decide_True in * by done; [done | ].
      specialize (Hnc (demand_workload d)). lia. }
    destruct (Hp) as [H32 H64 _]. bounds. unfold is_uint in *.
    destruct Hw' as [[Hcm Hlim]]; cbn -[Z.pow census_milli_units] in *.
    eexists; split; [split; [reflexivity | done] | ]. exists committed. split; [done | ].
    rewrite Z.gtb_ltb. destruct (Z.ltb_spec (cpu_limit p) committed); [lia | ].
    assert (2 ^ 32 <= U64_MAX /\ 2 ^ 64 - 1 = U64_MAX) by done.
    repeat (rewrite bind_Ok; eexists; split; [apply gate_Ok; split; [reflexivity | lia] | ]).
    unfold charged, saturating_add_u64, saturating_add. by rewrite Z.min_r by lia.
Qed.

Lemma usage_of_nonneg p outs : Forall (reservation_ok p) outs -> nonneg (usage_of p outs).
Proof.
  intros Hok. split; [intros class; by eapply census_nonneg | ].
  split; apply sumz_nonneg; eapply Forall_impl; try done; intros r [[Hd _] _]; bounds; done.
Qed.

(** The memory of one node is part of the host's. *)
Lemma node_memory_le p n outs : Forall (reservation_ok p) outs ->
  0 <= sumz (on_node n (of_demand memory_of)) outs <=
  sumz (of_demand demand_guaranteed_bytes) outs + sumz (of_demand demand_elastic_bytes) outs.
Proof.
  intros Hok. rewrite <- sumz_add.
  assert (forall r, reservation_ok p r -> 0 <= on_node n (of_demand memory_of) r <=
    of_demand demand_guaranteed_bytes r + of_demand demand_elastic_bytes r) as H.
  { intros r [Hd _]. unfold of_demand at 3 4. rewrite <- (memory_of_sum _ Hd). apply on_node_range. unfold of_demand.
    rewrite (memory_of_sum _ Hd). destruct Hd as [Hd _]. bounds. lia. }
  split; [apply sumz_nonneg | apply sumz_le]; eapply Forall_impl; try done; naive_solver.
Qed.

Lemma demand_sums_nonneg p outs : Forall (reservation_ok p) outs ->
  0 <= sumz one outs /\ 0 <= sumz (fun r => Z.b2z (launching r)) outs /\
  Forall (fun f => 0 <= sumz (of_demand f) outs)
    [demand_guaranteed_bytes; demand_elastic_bytes; demand_storage_bytes; demand_network_units; demand_descriptors;
     demand_runnable_vcpus; demand_dirty_bytes].
Proof.
  intros Hok. split; [by rewrite sumz_length; lia | ].
  split; [apply sumz_nonneg, Forall_forall; intros r _; by destruct (launching r) | ].
  repeat (apply Forall_cons; split); try done; apply sumz_nonneg; eapply Forall_impl; try done;
    intros r [[Hd _] _]; bounds; done.
Qed.

(** What one reservation adds to a sum. *)
Ltac of_here r :=
  change (one r) with 1;
  repeat match goal with |- context [of_demand ?f r] => change (of_demand f r) with (f (reservation_demand r)) end.

Section accounting.
Context (p : HostProfile) (Hp : profile_typed p).

(** Committing a demand on a node is accounting for one more reservation. *)
Lemma usage_push outs r committed :
  Forall (reservation_ok p) (r :: outs) -> launching r = true -> cleanup r = false ->
  within p (charged (usage_of p outs) (reservation_demand r) committed) ->
  usage_place (charged (usage_of p outs) (reservation_demand r) committed) (reservation_demand r) p (Z.to_nat (reservation_node r)) = usage_of p (r :: outs).
Proof using Hp.
  intros Hok Hl Hc Hw. assert (Forall (reservation_ok p) outs) as Hok' by by apply Forall_cons in Hok as [_ ?].
  assert (reservation_ok p r) as [Hd Hn] by by apply Forall_cons in Hok as [? _].
  assert (host_census (r :: outs) = census_set (host_census outs) (demand_workload (reservation_demand r))
    (census_get (host_census outs) (demand_workload (reservation_demand r)) + demand_vcpus (reservation_demand r))) as Hpush by by apply (census_of_push id).
  assert (Z.to_nat (reservation_node r) < Z.to_nat (node_count p))%nat as Hlt by lia.
  destruct (in_cpu _ _ Hw) as [Hcm _]. cbn [charged vcpus_by_class cpu_milli_units usage_of] in Hcm.
  rewrite <- Hpush in Hcm.
  pose proof (fun class => census_get_bound _ p committed class Hp (census_nonneg p (r :: outs) class Hok) Hcm) as Hb.
  pose proof (fun f => on_node_here f r (proj1 Hn)) as Hhere.
  pose proof (census_of_push _ r Hhere outs) as Hnode.
  pose proof (node_census_le p (Z.to_nat (reservation_node r)) (r :: outs) Hok) as Hle.
  unfold usage_place, node_census. cbn [node_vcpus charged usage_of]. rewrite lookup_map_seq by done.
  unfold saturating_add_u64, saturating_add.
  pose proof (census_get_le _ _ (demand_workload (reservation_demand r)) Hle) as Hget. rewrite census_get_cons in Hget.
  rewrite (vcpus_of_self _ r Hhere) in Hget. specialize (Hb (demand_workload (reservation_demand r))).
  rewrite Z.min_r by lia. rewrite <- Hnode.
  destruct (census_milli_units_mono _ _ _ _ Hp Hle Hcm) as (mine & Hmine & _). rewrite Hmine.
  unfold with_nodes, usage_of. cbn [charged usage_of cpu_milli_units vcpus_by_class guaranteed_bytes elastic_bytes
    storage_bytes network_units processes descriptors residents launches runnable_vcpus dirty_bytes cleanups node_cpu
    node_vcpus node_memory]. rewrite <- Hpush, !sumz_cons, Hl, Hc, Hcm.
  of_here r. cbn [Z.b2z default from_option].
  f_equal; try lia.
  - apply insert_map_seq; [done | by rewrite Hmine | intros i Hi; by rewrite census_of_skip].
  - apply insert_map_seq; [done.. | intros i Hi; by rewrite census_of_skip].
  - apply alter_map_seq; [done | | intros i Hi; by rewrite sumz_cons, on_node_other].
    rewrite sumz_cons, Hhere.
    pose proof (node_memory_le p (Z.to_nat (reservation_node r)) (r :: outs) Hok) as Hml.
    rewrite sumz_cons, Hhere in Hml. pose proof (in_memory _ _ Hw) as Hin. cbn in Hin.
    pose proof (admissible_memory_u64 p Hp). rewrite !sumz_cons in Hml. unfold of_demand in *. lia.
Qed.

(** Subtracting a reservation is accounting for the others. *)
Lemma usage_pop outs r x :
  Forall (reservation_ok p) (r :: outs) -> census_milli_units (host_census (r :: outs)) p = Some x ->
  usage_subtract (usage_of p (r :: outs)) r p =
  with_cleanups (usage_of p outs) (Z.b2z (cleanup r) + cleanups (usage_of p outs)).
Proof using Hp.
  intros Hok Hcm. assert (Forall (reservation_ok p) outs) as Hok' by by apply Forall_cons in Hok as [_ ?].
  assert (reservation_ok p r) as [Hd Hn] by by apply Forall_cons in Hok as [? _].
  assert (Z.to_nat (reservation_node r) < Z.to_nat (node_count p))%nat as Hlt by lia.
  assert (census_set (host_census (r :: outs)) (demand_workload (reservation_demand r))
    (saturating_sub (census_get (host_census (r :: outs)) (demand_workload (reservation_demand r)))
       (demand_vcpus (reservation_demand r))) = host_census outs) as Hpop.
  { apply (census_of_pop id); [done | by apply (census_nonneg p)]. }
  pose proof (fun f => on_node_here f r (proj1 Hn)) as Hhere.
  pose proof (node_census_le p (Z.to_nat (reservation_node r)) outs Hok') as Hle.
  pose proof (census_of_pop _ r Hhere outs) as Hnode.
  pose proof (demand_sums_nonneg p outs Hok') as Hsum.
  unfold usage_subtract, node_census. cbn [node_vcpus usage_of]. rewrite lookup_map_seq by done.
  rewrite Hnode by by apply (census_get_le _ _ _ Hle).
  destruct (census_milli_units_mono _ _ _ _ Hp (host_census_le p r outs Hok) Hcm) as (y & Hy & _).
  destruct (census_milli_units_mono _ _ _ _ Hp Hle Hy) as (mine & Hmine & _). rewrite Hmine.
  unfold with_cleanups, usage_of. cbn [cpu_milli_units vcpus_by_class guaranteed_bytes elastic_bytes
    storage_bytes network_units processes descriptors residents launches runnable_vcpus dirty_bytes cleanups node_cpu
    node_vcpus node_memory]. rewrite Hpop, !sumz_cons. of_here r. unfold saturating_sub. cbn [default from_option].
  destruct Hsum as [Hones [Hlaunch Hsum]]. bounds.
  f_equal; try lia.
  - destruct (launching r); cbn [Z.b2z]; lia.
  - apply insert_map_seq; [done | by rewrite Hmine | intros i Hi; by rewrite census_of_skip].
  - apply insert_map_seq; [done.. | intros i Hi; by rewrite census_of_skip].
  - apply alter_map_seq; [done | | intros i Hi; by rewrite sumz_cons, on_node_other].
    rewrite sumz_cons, Hhere.
    pose proof (node_memory_le p (Z.to_nat (reservation_node r)) outs Hok') as Hml.
    unfold of_demand at 1. lia.
Qed.
End accounting.

(** * Placement *)

(** What admission relies on: a placement chooses a free node the demand fits on. *)
Class PlacementLaws (P : Type) `{NumaPlacement P} : Prop := {
  place_fits : forall (q : P) demand free node, place q demand free = Ok node ->
    exists n, n ∈ free /\ free_node n = node /\ need_cpu_milli_units demand <= free_cpu_milli_units n /\
      need_memory_bytes demand <= free_memory_bytes n;
}.

#[export] Instance SingleNode_laws : PlacementLaws SingleNode.
Proof.
  split. intros q demand [ | only [ | ]] node; cbn; try done.
  destruct (Z.leb_spec (need_cpu_milli_units demand) (free_cpu_milli_units only)); [ | done].
  destruct (Z.leb_spec (need_memory_bytes demand) (free_memory_bytes only)); [ | done].
  intros [= <-]. exists only. split; [by left | done].
Qed.

Lemma elem_of_free_nodes p outs n : n ∈ free_nodes (usage_of p outs) p ->
  exists k, (k < Z.to_nat (node_count p))%nat /\ free_node n = Z.of_nat k /\
    free_memory_bytes n = saturating_sub (admissible_memory_bytes p / node_count p)
                            (sumz (on_node k (of_demand memory_of)) outs).
Proof.
  unfold free_nodes. intros (k & -> & [_ Hk]%elem_of_seq)%list_elem_of_fmap. exists k. split; [lia | ]. split; [done | ].
  cbn [free_memory_bytes node_memory usage_of]. by rewrite lookup_map_seq by lia.
Qed.

(** * Steps of admission *)

Lemma within_node_memory p u cpu vcpus memory : within p u ->
  Forall (fun bytes => bytes <= admissible_memory_bytes p / node_count p) memory ->
  within p (with_nodes u cpu vcpus memory).
Proof. intros [] ?. by split. Qed.

Lemma with_overhead_Ok p bytes n : with_overhead p bytes = Ok n <->
  n = bytes + overhead_bytes_per_instance (profile_memory p) /\ n <= U64_MAX.
Proof. unfold with_overhead. rewrite ok_or_Ok, checked_add_u64_Some. naive_solver. Qed.

Lemma demand_of_ok c s d : profile_typed (certified_profile c) -> shape_typed (valid_shape s) ->
  demand_of c s = Ok d -> demand_ok d.
Proof.
  intros [_ Hp _] [H32 H64] (cpu & _ & Hd)%ok_or_bind_Ok. bounds. unfold is_uint in *.
  apply bind_Ok in Hd as ([memory dirty] & Hm & Hd). simplify_eq. unfold demand_ok. cbn.
  destruct (memory_class (valid_shape s)); apply bind_Ok in Hm as (bytes & (-> & ?)%with_overhead_Ok & Hm);
    simplify_eq; cbn in *; (split; [repeat (apply Forall_cons; split); try done; lia | lia]).
Qed.

Section steps.
Context {P : Type} `{NumaPlacement P, !PlacementLaws P}.
Implicit Types (a : Admission P) (outs : list Reservation).

Record accounted a outs : Prop := {
  acc_usage : adm_usage a = usage_of (adm_profile a) outs;
  acc_within : within (adm_profile a) (usage_of (adm_profile a) outs);
  acc_ok : Forall (reservation_ok (adm_profile a)) outs
}.

#[export] Instance accounted_perm a : Proper ((≡ₚ) ==> iff) (accounted a).
Proof.
  intros l k Hp. pose proof (usage_of_perm (adm_profile a) _ _ Hp) as Hu.
  split; intros []; (split; [congruence | congruence | ]).
  - by rewrite <- Hp.
  - by rewrite Hp.
Qed.

Lemma reserve_accounted a a' r shape outs : profile_typed (adm_profile a) -> shape_typed (valid_shape shape) ->
  accounted a outs -> reserve shape a = (a', Ok r) ->
  accounted a' (r :: outs) /\ adm_certified a' = adm_certified a.
Proof using Type*.
  intros Hp Hs [Hu Hw Hok] Hr. unfold reserve, st_bind, st_get, st_lift, st_modify, st_ret in Hr.
  destruct (demand_of (adm_certified a) shape) as [d | e] eqn:Hd; [ | done].
  pose proof (demand_of_ok _ _ _ Hp Hs Hd) as Hdo.
  destruct (usage_apply (adm_usage a) d (adm_profile a)) as [cand | e] eqn:Ha; [ | done].
  destruct (place _ _ _) as [node | e] eqn:Hpl; [ | done]. cbn in Hr. simplify_eq.
  split; [ | done]. rewrite Hu in *.
  apply usage_apply_Ok in Ha as (committed & -> & Hwc); [ | done | done | by apply usage_of_nonneg | done].
  apply place_fits in Hpl as (n & Hin & <- & _ & Hfit). cbn in Hfit.
  apply elem_of_free_nodes in Hin as (k & Hk & Hnode & Hmem). rewrite Hnode.
  pose proof (node_memory_le (adm_profile a) k outs Hok) as Hml.
  rewrite Hmem in Hfit. rewrite (memory_of_sum _ Hdo) in Hfit. unfold saturating_sub in Hfit.
  assert (Forall (reservation_ok (adm_profile a)) (mkReservation (adm_next a) (Z.of_nat k) d true false :: outs)) as Hok'.
  { apply Forall_cons; split; [split; cbn; [done | lia] | done]. }
  pose proof (usage_push _ Hp outs _ committed Hok' eq_refl eq_refl Hwc) as Hpush.
  cbn [reservation_node reservation_demand] in Hpush.
  split; [ | | done]; unfold adm_profile in *; cbn [adm_usage adm_certified]; [done | ].
  rewrite <- Hpush. unfold usage_place. destruct (node_census _ _ _ _ _ _) as [cpu vcpus].
  apply within_node_memory; [done | ]. rewrite Nat2Z.id. cbn [node_memory charged usage_of].
  pose proof (in_node_memory _ _ Hw) as Hnm. cbn [node_memory usage_of] in Hnm.
  apply Forall_alter; [done | ]. intros x Hx Hle. rewrite lookup_map_seq in Hx by done. simplify_eq.
  unfold saturating_add_u64, saturating_add. rewrite (memory_of_sum _ Hdo). cbn in Hdo. unfold demand_ok in Hdo.
  destruct Hdo as [Hdo _]. bounds. lia.
Qed.

Lemma within_fewer p r outs : profile_typed p -> Forall (reservation_ok p) (r :: outs) ->
  within p (usage_of p (r :: outs)) -> within p (usage_of p outs).
Proof using Type.
  intros Hp Hok Hw. assert (Forall (reservation_ok p) outs) as Hok' by by apply Forall_cons in Hok as [_ ?].
  assert (reservation_ok p r) as [Hd Hn] by by apply Forall_cons in Hok as [? _].
  destruct (in_cpu _ _ Hw) as [Hcm Hlim].
  destruct (census_milli_units_mono _ _ _ _ Hp (host_census_le p r outs Hok) Hcm) as (y & Hy & Hyx).
  assert (demand_ok (reservation_demand r)) as [Hr _] by done. bounds.
  destruct Hw as [_ ? ? ? ? ? ? ? ? ? ? ? Hnm].
  cbn [usage_of cpu_milli_units vcpus_by_class guaranteed_bytes elastic_bytes
    storage_bytes network_units processes descriptors residents launches runnable_vcpus dirty_bytes cleanups
    node_memory] in *. rewrite !sumz_cons in *. unfold of_demand, one in *.
  assert (0 <= Z.b2z (launching r) /\ 0 <= Z.b2z (cleanup r)) by by destruct (launching r), (cleanup r).
  split; cbn [usage_of cpu_milli_units vcpus_by_class guaranteed_bytes elastic_bytes
    storage_bytes network_units processes descriptors residents launches runnable_vcpus dirty_bytes cleanups
    node_memory]; unfold of_demand, one in *; try lia.
  - rewrite Hy. split; [done | cbn; lia].
  - apply Forall_fmap, Forall_forall. intros k Hk. rewrite Forall_fmap, Forall_forall in Hnm.
    specialize (Hnm k Hk). unfold compose in Hnm |- *. rewrite sumz_cons in Hnm.
    assert (0 <= on_node k (fun r => memory_of (reservation_demand r)) r); [ | lia].
    apply on_node_range. rewrite memory_of_sum by done. lia.
Qed.

Lemma release_accounted a r outs : profile_typed (adm_profile a) -> accounted a (r :: outs) ->
  accounted (release r a) outs.
Proof using Type.
  intros Hp [Hu Hw Hok].
  pose proof (in_cpu _ _ Hw) as [Hcm _]. cbn [vcpus_by_class usage_of] in Hcm.
  pose proof (usage_pop _ Hp outs r _ Hok Hcm) as Hpop. unfold adm_profile in *.
  assert (0 <= cleanups (usage_of (certified_profile (adm_certified a)) outs)).
  { apply sumz_nonneg, Forall_forall. intros r' _. by destruct (cleanup r'). }
  split; unfold release, adm_profile; cbn [adm_usage adm_certified with_usage].
  - rewrite Hu, Hpop. destruct (cleanup r); [ | done].
    cbn [cleanups with_cleanups]. unfold saturating_sub. cbn [Z.b2z].
    by replace (0 `max` (1 + cleanups (usage_of (certified_profile (adm_certified a)) outs) - 1))
      with (cleanups (usage_of (certified_profile (adm_certified a)) outs)) by lia.
  - by eapply within_fewer.
  - by apply Forall_cons in Hok as [_ ?].
Qed.

Lemma launched_accounted a a' r r' outs : accounted a (r :: outs) -> launched r a = (a', r') ->
  accounted a' (r' :: outs) /\ adm_certified a' = adm_certified a.
Proof using Type.
  intros Hacc. unfold launched. destruct (launching r) eqn:Hl; [ | by intros [= <- <-]].
  intros [= <- <-]. split; [ | done]. destruct Hacc as [Hu Hw Hok]. unfold adm_profile in *.
  assert (with_launches (usage_of (certified_profile (adm_certified a)) (r :: outs))
    (saturating_sub (launches (usage_of (certified_profile (adm_certified a)) (r :: outs))) 1) =
    usage_of (certified_profile (adm_certified a)) (set_launching r false :: outs)) as Heq.
  { assert (0 <= sumz (fun r => Z.b2z (launching r)) outs).
    { apply sumz_nonneg, Forall_forall. intros r' _. by destruct (launching r'). }
    unfold with_launches, usage_of, saturating_sub. cbn [launches]. rewrite !sumz_cons, Hl.
    f_equal. cbn [launching set_launching Z.b2z]. lia. }
  split; unfold adm_profile; cbn [adm_usage adm_certified with_usage]; [by rewrite Hu | | ].
  - rewrite <- Heq. destruct Hw. split; try done. cbn [launches with_launches]. unfold saturating_sub.
    assert (0 <= concurrent_launches (profile_limits (certified_profile (adm_certified a)))); [ | lia].
    etrans; [ | exact in_launches0]. apply sumz_nonneg, Forall_forall. intros r' _. by destruct (launching r').
  - apply Forall_cons in Hok as [? ?]. by apply Forall_cons.
Qed.

Lemma begin_cleanup_accounted a a' r r' res outs : accounted a (r :: outs) -> begin_cleanup r a = (a', r', res) ->
  accounted a' (r' :: outs) /\ adm_certified a' = adm_certified a.
Proof using Type.
  intros Hacc. unfold begin_cleanup. destruct (cleanup r) eqn:Hl; [by intros [= <- <- <-] | ].
  destruct (gate _ _ _ _) as [n | e] eqn:Hg; [ | by intros [= <- <- <-]]. apply gate_Ok in Hg as (-> & _ & Hlim).
  intros [= <- <- <-]. split; [ | done]. destruct Hacc as [Hu Hw Hok]. rewrite Hu in *. unfold adm_profile in *.
  assert (with_cleanups (usage_of (certified_profile (adm_certified a)) (r :: outs))
    (cleanups (usage_of (certified_profile (adm_certified a)) (r :: outs)) + 1) =
    usage_of (certified_profile (adm_certified a)) (set_cleanup r true :: outs)) as Heq.
  { unfold with_cleanups, usage_of. cbn [cleanups]. rewrite !sumz_cons, Hl.
    f_equal. cbn [cleanup set_cleanup Z.b2z]. lia. }
  split; unfold adm_profile; cbn [adm_usage adm_certified with_usage]; [done | | ].
  - rewrite <- Heq. destruct Hw. by split.
  - apply Forall_cons in Hok as [? ?]. by apply Forall_cons.
Qed.
End steps.
