(* ===== verification/HostAdmissionProps.v ===== *)
(** Properties of admission: exact accounting over every sequence of operations, rejections
    that change nothing, and the capacity estimate against what is really admitted. *)

From S2P Require Import Prelude HostAdmission HostAdmissionFacts.
From stdpp Require Import options.

(** * Every sequence of operations *)

Section astep.
Context {P : Type} `{NumaPlacement P}.

(** One call on the admission, beside the reservations the callers hold. *)
Inductive astep : Admission P * list Reservation -> Admission P * list Reservation -> Prop :=
| astep_reserve shape a a' r outs :
    shape_typed (valid_shape shape) -> reserve shape a = (a', Ok r) -> astep (a, outs) (a', r :: outs)
| astep_rejected shape a a' e outs :
    reserve shape a = (a', Err e) -> astep (a, outs) (a', outs)
| astep_launched a a' r r' outs rest :
    outs ≡ₚ r :: rest -> launched r a = (a', r') -> astep (a, outs) (a', r' :: rest)
| astep_begin_cleanup a a' r r' res outs rest :
    outs ≡ₚ r :: rest -> begin_cleanup r a = (a', r', res) -> astep (a, outs) (a', r' :: rest)
| astep_release a r outs rest :
    outs ≡ₚ r :: rest -> astep (a, outs) (release r a, rest).
End astep.

Lemma reserve_rejected {P} `{NumaPlacement P} shape (a a' : Admission P) e : reserve shape a = (a', Err e) -> a' = a.
Proof.
  unfold reserve, st_bind, st_get, st_lift, st_modify, st_ret.
  destruct (demand_of _ _); [ | by intros [= ->]]. destruct (usage_apply _ _ _); [ | by intros [= ->]].
  destruct (map_err _ _); [done | by intros [= ->]].
Qed.

Lemma astep_accounted {P} `{NumaPlacement P, !PlacementLaws P} (x y : Admission P * list Reservation) :
  astep x y -> profile_typed (adm_profile x.1) -> accounted x.1 x.2 ->
  accounted y.1 y.2 /\ adm_certified y.1 = adm_certified x.1.
Proof.
  destruct 1 as [shape a a' r outs Hs Hr | shape a a' e outs Hr | a a' r r' outs rest Hp Hl
    | a a' r r' res outs rest Hp Hb | a r outs rest Hp]; cbn [fst snd]; intros Ht Ha.
  - by eapply reserve_accounted.
  - apply reserve_rejected in Hr as ->. done.
  - rewrite Hp in Ha. by eapply launched_accounted.
  - rewrite Hp in Ha. by eapply begin_cleanup_accounted.
  - rewrite Hp in Ha. split; [by eapply release_accounted | done].
Qed.

Lemma validate_ratio p c class : profile_typed p -> profile_validate p = Ok c ->
  1 <= ratio_vcpus (policy_ratio (profile_overcommit p) class) /\
  1 <= ratio_threads (policy_ratio (profile_overcommit p) class).
Proof.
  intros Hp. unfold profile_validate. repeat (case_match; [done | ]). intros _.
  destruct (typed_ratio _ Hp class) as [[] []]. destruct class; cbn in *; unfold zero_ratio in *; zbool; lia.
Qed.

Lemma validate_same p c : profile_validate p = Ok c -> c = mkCertifiedProfile p.
Proof. unfold profile_validate. repeat (case_match; [done | ]). by intros [= <-]. Qed.

Lemma class_milli_units_0 r : 1 <= ratio_vcpus r -> ratio_typed r -> class_milli_units 0 r = Some 0.
Proof.
  intros H1 Hr. apply class_milli_units_Some; [lia | done | ]. destruct Hr as [[? ?] _].
  unfold U64_MAX. split; [lia | ]. split; [lia | ]. split; [lia | ]. rewrite Z.div_small; lia.
Qed.

Lemma census_milli_units_0 p c : profile_typed p -> profile_validate p = Ok c ->
  census_milli_units census_zero p = Some 0.
Proof.
  intros Hp Hc.
  assert (forall class, class_milli_units 0 (policy_ratio (profile_overcommit p) class) = Some 0) as H0.
  { intros class. apply class_milli_units_0; [by eapply validate_ratio | by apply typed_ratio]. }
  unfold census_milli_units, WORKLOAD_ALL, census_total. change (census_get census_zero _) with 0. by rewrite !H0.
Qed.

Lemma replicate_map_seq {A} (g : nat -> A) x n : (forall i, x = g i) -> replicate n x = g <$> seq 0 n.
Proof. intros Hg. generalize 0%nat as k. induction n as [ | n IH]; intros k; cbn; [done | by rewrite <- Hg, <- IH]. Qed.

Lemma admission_new_accounted {P} p c (q : P) : profile_typed p -> profile_validate p = Ok c ->
  accounted (admission_new c q) [].
Proof.
  intros Hp Hc. rewrite (validate_same _ _ Hc) in *. pose proof (census_milli_units_0 _ _ Hp Hc) as H0.
  pose proof (admissible_memory_u64 p Hp). destruct (Hp) as [H32 H64 _]. bounds. unfold is_uint in *.
  assert (0 <= cpu_limit p).
  { unfold cpu_limit, saturating_mul_u64, admissible_cpu_units, saturating_sub, U64_MAX. lia. }
  assert (1 <= node_count p) by (unfold node_count; lia).
  split; unfold adm_profile; cbn [adm_certified admission_new adm_usage certified_profile]; [ | | done].
  - unfold usage_empty, usage_of. change (host_census []) with census_zero. rewrite H0.
    f_equal; apply replicate_map_seq; intros i; [ | done..]. change (census_of (on_node i) []) with census_zero.
    by rewrite H0.
  - split; cbn [usage_of cpu_milli_units vcpus_by_class guaranteed_bytes elastic_bytes
    storage_bytes network_units processes descriptors residents launches runnable_vcpus dirty_bytes cleanups
    node_memory sumz foldr]; try lia.
    + change (host_census []) with census_zero. by rewrite H0.
    + apply Forall_fmap, Forall_forall. intros k _. apply Z.div_pos; lia.
Qed.

(** C11: whatever sequence of reservations, rejections, launches, cleanups and releases the
    callers make, in whatever order they give reservations back, the committed usage is the
    usage recomputed from scratch over the reservations still held, in every dimension and
    on every node, and it is within every limit of the certified profile: no capacity is
    leaked, none is given back twice, and no saturating operation ever saturates. *)
Theorem admission_exact {P} `{NumaPlacement P, !PlacementLaws P} p c (q : P) a outs :
  profile_typed p -> profile_validate p = Ok c ->
  rtc astep (admission_new c q, []) (a, outs) ->
  adm_usage a = usage_of p outs /\ within p (adm_usage a).
Proof.
  intros Hp Hc Hsteps.
  assert (forall x y, rtc astep x y -> adm_certified x.1 = c -> accounted x.1 x.2 ->
    accounted (P:=P) y.1 y.2 /\ adm_certified y.1 = c) as Hind.
  { induction 1 as [x | x y z Hxy _ IH]; intros Hx Hacc; [done | ].
    destruct (astep_accounted x y Hxy) as [Hy Hcy]; [ | done | ].
    - unfold adm_profile. by rewrite Hx, (validate_same _ _ Hc).
    - apply IH; [by rewrite Hcy | done]. }
  destruct (Hind _ _ Hsteps) as [[Hu Hw _] Hca]; [done | by eapply admission_new_accounted | ].
  cbn [fst snd] in *. unfold adm_profile in *. rewrite Hca, (validate_same _ _ Hc) in *. cbn in Hu, Hw.
  by rewrite Hu.
Qed.

(** A host of 8 threads, one of them reserved, and its overcommit policy. *)
Definition host1 : HostProfile :=
  mkHostProfile (mkCpuInventory 8 1 1) (mkMemoryInventory 4096 96 10 1000) 500 16 (mkProcessInventory 64 256)
    (mkOperatorLimits 10 4 32 2000 3) (mkOvercommitPolicy (mkRatio 4 1) RATIO_STRICT (mkRatio 2 1)).
Definition certified1 : CertifiedProfile := mkCertifiedProfile host1.
Definition shape1 : ValidShape := mkValidShape (mkMachineShape 2 512 MemoryClass_Guaranteed 60 ApiWaiting 1 8).
Definition shape2 : ValidShape := mkValidShape (mkMachineShape 1 512 (MemoryClass_Elastic 100) 0 Build 0 4).

Lemma host1_typed : profile_typed host1.
Proof.
  split; [repeat (apply Forall_cons; split); try done.. | ].
  intros []; repeat split; done.
Qed.
Lemma shape1_typed : shape_typed (valid_shape shape1).
Proof. split; repeat (apply Forall_cons; split); done. Qed.
Lemma shape2_typed : shape_typed (valid_shape shape2).
Proof. split; repeat (apply Forall_cons; split); done. Qed.

(** Two reservations, one launched and taken through cleanup, the other released first. *)
Lemma admission_exact_witness : exists x : Admission SingleNode * list Reservation, length x.2 = 1%nat /\
  adm_usage x.1 = usage_of host1 x.2 /\ cleanups (adm_usage x.1) = 1 /\ launches (adm_usage x.1) = 0.
Proof.
  assert (exists x, rtc astep (admission_new certified1 mkSingleNode, []) x /\
    length x.2 = 1%nat /\ cleanups (adm_usage x.1) = 1 /\ launches (adm_usage x.1) = 0) as ([a outs] & Hx & Hl & Hf).
  { eexists. split.
    - eapply rtc_l; [eapply (astep_reserve shape1); [apply shape1_typed | vm_compute; reflexivity] | ].
      eapply rtc_l; [eapply (astep_reserve shape2); [apply shape2_typed | vm_compute; reflexivity] | ].
      eapply rtc_l; [eapply astep_launched; [reflexivity | vm_compute; reflexivity] | ].
      eapply rtc_l; [eapply astep_begin_cleanup; [reflexivity | vm_compute; reflexivity] | ].
      eapply rtc_l; [eapply astep_release; apply Permutation_swap | ]. apply rtc_refl.
    - vm_compute. repeat split. }
  exists (a, outs). destruct (admission_exact host1 certified1 mkSingleNode a outs host1_typed eq_refl Hx) as [Hu _].
  exact (conj Hl (conj Hu Hf)).
Defined.

(** * The estimate *)

Fixpoint reserve_many {P} `{NumaPlacement P} (n : nat) (shape : ValidShape) (a : Admission P)
    : option (Admission P * list Reservation) :=
  match n with
  | O => Some (a, [])
  | S n =>
      match reserve_many n shape a with
      | Some (a, outs) =>
          match reserve shape a with (a, Ok r) => Some (a, r :: outs) | (_, Err _) => None end
      | None => None
      end
  end.

Lemma min_bound_le n b bs : n <= (min_bound b bs).2 <-> n <= b.2 /\ Forall (fun x => n <= x.2) bs.
Proof.
  revert b. induction bs as [ | c bs IH]; intros b; cbn; [by rewrite Forall_nil; tauto | ].
  rewrite IH, Forall_cons. destruct (Z.ltb_spec c.2 b.2); intuition lia.
Qed.

Lemma divide_le n b x : 0 <= n <= U64_MAX -> 0 <= b -> 0 <= x -> n <= divide b x <-> n * x <= b.
Proof.
  intros Hn Hb Hx. unfold divide. destruct (Z.eqb_spec x 0) as [-> | Hne]; [split; lia | ].
  split; intros Hle.
  - transitivity ((b / x) * x); [nia | ]. pose proof (Z.mul_div_le b x). lia.
  - apply Z.div_le_lower_bound; lia.
Qed.

(** Rounding up, then comparing, is comparing the product. *)
Lemma ceil_le a r b : 0 < r -> (a + (r - 1)) / r <= b <-> a <= b * r.
Proof.
  intros Hr. pose proof (Z.div_mod (a + (r - 1)) r) as Hdm. pose proof (Z.mod_pos_bound (a + (r - 1)) r Hr).
  split; intros; nia.
Qed.

Lemma sumz_uniform {A} (f : A -> Z) x l : Forall (fun y => f y = x) l -> sumz f l = Z.of_nat (length l) * x.
Proof. induction 1; [done | ]. rewrite sumz_cons. cbn [length]. lia. Qed.

Lemma class_milli_units_le v r x : 0 <= v -> ratio_typed r -> class_milli_units v r = Some x -> 0 <= x <= U64_MAX.
Proof.
  intros Hv Hr (? & ? & ? & ->)%class_milli_units_Some; [ | done..]. destruct Hr as [_ [? _]].
  assert (0 <= v * 1000 * ratio_threads r) by nia.
  split; [apply Z.div_pos; lia | ]. etrans; [apply Z.div_le_upper_bound | done]; nia.
Qed.

Lemma census_single p c census class x : profile_typed p -> profile_validate p = Ok c ->
  0 <= census_get census class -> (forall other, other <> class -> census_get census other = 0) ->
  census_milli_units census p = Some x <->
  class_milli_units (census_get census class) (policy_ratio (profile_overcommit p) class) = Some x.
Proof.
  intros Hp Hc Hnn Hz.
  assert (forall other, class_milli_units 0 (policy_ratio (profile_overcommit p) other) = Some 0) as H0.
  { intros other. apply class_milli_units_0; [by eapply validate_ratio | by apply typed_ratio]. }
  unfold census_milli_units, WORKLOAD_ALL, census_total.
  destruct (class_milli_units (census_get census class) _) as [y | ] eqn:Hy.
  - pose proof (class_milli_units_le _ _ _ Hnn (typed_ratio _ Hp class) Hy).
    assert (checked_add_u64 0 y = Some y) as A1 by (apply checked_add_u64_Some; lia).
    assert (checked_add_u64 y 0 = Some y) as A2 by (apply checked_add_u64_Some; lia).
    assert (checked_add_u64 0 0 = Some 0) as A3 by done.
    destruct class; rewrite ?(Hz ApiWaiting), ?(Hz Build), ?(Hz IdleInteractive) by done;
      repeat (rewrite ?H0, ?Hy, ?A1, ?A2, ?A3; cbn [mbind option_bind]); done.
  - split; [ | done]. intros (c1 & Hc1 & Hk)%bind_Some. apply bind_Some in Hk as (? & _ & Hk).
    apply bind_Some in Hk as (c2 & Hc2 & Hk). apply bind_Some in Hk as (? & _ & Hk).
    apply bind_Some in Hk as (c3 & Hc3 & Hk). destruct class; congruence.
Qed.

(** What [n] Instances of one demand need of the profile. *)
Record fits (p : HostProfile) (d : Demand) (n : Z) : Prop := {
  fits_cpu : n * demand_vcpus d * ratio_threads (policy_ratio (profile_overcommit p) (demand_workload d)) <=
    admissible_cpu_units p * ratio_vcpus (policy_ratio (profile_overcommit p) (demand_workload d));
  fits_memory : n * (demand_guaranteed_bytes d + demand_elastic_bytes d) <= admissible_memory_bytes p;
  fits_elastic : n * demand_elastic_bytes d <= elastic_budget_bytes (profile_memory p);
  fits_storage : n * demand_storage_bytes d <= private_budget_bytes p;
  fits_network : n * demand_network_units d <= inventory_network_units p;
  fits_processes : n <= inventory_processes (profile_process p);
  fits_descriptors : n * demand_descriptors d <= inventory_descriptors (profile_process p);
  fits_residents : n <= resident_instances (profile_limits p);
  fits_launches : n <= concurrent_launches (profile_limits p);
  fits_runnable : n * demand_runnable_vcpus d <= limit_runnable_vcpus (profile_limits p);
  fits_dirty : n * demand_dirty_bytes d <= dirty_memory_bytes (profile_limits p)
}.

(** The census arithmetic of [n] Instances fits 64 bits. *)
Definition census_fits (p : HostProfile) (d : Demand) (n : Z) : Prop :=
  n * demand_vcpus d * 1000 * ratio_threads (policy_ratio (profile_overcommit p) (demand_workload d)) +
  ratio_vcpus (policy_ratio (profile_overcommit p) (demand_workload d)) - 1 <= U64_MAX.

Lemma admissible_cpu_u32 p : profile_typed p -> 0 <= admissible_cpu_units p < 2 ^ 32.
Proof. intros []. bounds. unfold admissible_cpu_units, saturating_sub, is_uint in *. lia. Qed.

Lemma estimate_fits p c s d e n : profile_typed p -> profile_validate p = Ok c -> shape_typed (valid_shape s) ->
  demand_of c s = Ok d -> estimate c s = Ok e -> 0 <= n <= U64_MAX ->
  n <= safe_count e <-> fits p d n.
Proof.
  intros Hp Hc Hs Hd He Hn. pose proof (validate_ratio p c (shape_workload (valid_shape s)) Hp Hc) as [Hrv Hrt].
  pose proof (demand_of_ok c s d) as Hdo. rewrite (validate_same _ _ Hc) in Hdo. specialize (Hdo Hp Hs).
  rewrite (validate_same _ _ Hc) in *. specialize (Hdo Hd). destruct Hdo as [Hdo _].
  destruct (typed_ratio _ Hp (shape_workload (valid_shape s))) as [[_ Hrv'] [_ Hrt']].
  pose proof (admissible_cpu_u32 p Hp). pose proof (admissible_memory_u64 p Hp).
  assert (elastic_budget_bytes (profile_memory p) <= admissible_memory_bytes p) as Hel.
  { unfold profile_validate in Hc. repeat (case_match; [done | ]). zbool; lia. }
  destruct (Hp) as [H32 H64 _], Hs as [S32 S64]. bounds. unfold is_uint in *.
  unfold estimate in He. rewrite Hd in He. cbn [certified_profile] in He.
  destruct (min_bound _ _) as [b safe] eqn:Hmb. injection He as <-. cbn [safe_count].
  change safe with ((b, safe).2). rewrite <- Hmb, min_bound_le, !Forall_cons, Forall_nil. cbn [snd].
  unfold saturating_mul_u64. rewrite !Z.min_r by (unfold U64_MAX; nia).
  rewrite Z.min_glb_iff, !divide_le by (lia || nia || (destruct (is_elastic _); lia)).
  apply ok_or_bind_Ok in Hd as (cpu & _ & Hd). apply bind_Ok in Hd as ([memory dirty] & Hm & Hd).
  destruct (memory_class (valid_shape s)); apply bind_Ok in Hm as (bytes & _ & Hm); simplify_eq; cbn [is_elastic fst snd demand_guaranteed_bytes demand_elastic_bytes] in *.
  all: split; [intros (? & ? & ? & ? & (? & ?) & ? & ? & ? & ? & _); split; cbn -[policy_ratio Z.mul Z.add] in *; lia | ].
  all: intros []; cbn -[policy_ratio Z.mul Z.add] in *; repeat (split; [lia | ]); done.
Qed.

(** Reservations of one demand, all still launching on the only node. *)
Definition uniform (d : Demand) (outs : list Reservation) : Prop :=
  Forall (fun r => reservation_demand r = d /\ reservation_node r = 0 /\ launching r = true /\ cleanup r = false) outs.

Lemma uniform_sum d outs f x :
  (forall r, reservation_demand r = d -> reservation_node r = 0 -> launching r = true -> cleanup r = false -> f r = x) ->
  uniform d outs -> sumz f outs = Z.of_nat (length outs) * x.
Proof. intros Hf Hu. apply sumz_uniform. eapply Forall_impl; [exact Hu | ]. naive_solver. Qed.

Lemma uniform_census d outs class : uniform d outs -> census_get (host_census outs) class =
  if decide (demand_workload d = class) then Z.of_nat (length outs) * demand_vcpus d else 0.
Proof.
  intros Hu. assert (forall c, sumz (vcpus_of c) outs =
    Z.of_nat (length outs) * (if decide (demand_workload d = c) then demand_vcpus d else 0)) as Hs.
  { intros c. eapply uniform_sum; [ | done]. intros r <- _ _ _. done. }
  destruct class; cbn; unfold id; rewrite Hs; case_decide; lia.
Qed.

Lemma uniform_node_census d outs : uniform d outs -> census_of (on_node 0) outs = host_census outs.
Proof.
  intros Hu. assert (forall f, sumz (on_node 0 f) outs = sumz f outs) as Hs.
  { intros f. induction Hu as [ | r outs (_ & Hn & _) _ IH]; [done | ].
    rewrite !sumz_cons, IH. unfold on_node. by rewrite decide_True. }
  unfold census_of, host_census, id. by rewrite !Hs.
Qed.

Lemma uniform_sums d outs : uniform d outs ->
  Forall (fun f => sumz (of_demand f) outs = Z.of_nat (length outs) * f d)
    [demand_guaranteed_bytes; demand_elastic_bytes; demand_storage_bytes; demand_network_units; demand_descriptors;
     demand_runnable_vcpus; demand_dirty_bytes] /\
  sumz one outs = Z.of_nat (length outs) /\ sumz (fun r => Z.b2z (launching r)) outs = Z.of_nat (length outs).
Proof.
  intros Hu. split; [ | split; [apply sumz_length | ]].
  - repeat (apply Forall_cons; split); try done; apply uniform_sum with (d := d); try done; by intros r <-.
  - rewrite (uniform_sum d outs _ 1); [lia | by intros r _ _ -> _ | done].
Qed.

Section single_node.
Context (p : HostProfile) (c : CertifiedProfile) (s : ValidShape) (d : Demand).
Context (Hp : profile_typed p) (Hc : profile_validate p = Ok c) (Hs : shape_typed (valid_shape s)).
Context (Hone : numa_nodes (profile_cpu p) = 1) (Hd : demand_of c s = Ok d).
Implicit Types (a : Admission SingleNode) (outs : list Reservation).

Lemma uniform_demand_ok : demand_ok d.
Proof using Hp Hc Hs Hd.
  apply (demand_of_ok c s); [ | done | done]. by rewrite (validate_same _ _ Hc).
Qed.

Lemma charged_census outs committed : uniform d outs ->
  census_milli_units (vcpus_by_class (charged (usage_of p outs) d committed)) p = Some committed <->
  class_milli_units ((Z.of_nat (length outs) + 1) * demand_vcpus d)
    (policy_ratio (profile_overcommit p) (demand_workload d)) = Some committed.
Proof using Hp Hc Hs Hd.
  intros Hu. destruct uniform_demand_ok as [Hdo _]. bounds. cbn [vcpus_by_class charged usage_of].
  assert (forall class, census_get (census_set (host_census outs) (demand_workload d)
    (census_get (host_census outs) (demand_workload d) + demand_vcpus d)) class =
    if decide (demand_workload d = class) then (Z.of_nat (length outs) + 1) * demand_vcpus d else 0) as Hget.
  { intros class. rewrite census_get_set, !(uniform_census d) by done.
    repeat case_decide; try done; lia. }
  rewrite (census_single p c _ (demand_workload d)); [ | done | done | | ].
  - by rewrite Hget, decide_True.
  - rewrite Hget, decide_True by done. lia.
  - intros other Hne. by rewrite Hget, decide_False.
Qed.

Lemma committed_fits n committed : 0 <= n ->
  class_milli_units (n * demand_vcpus d) (policy_ratio (profile_overcommit p) (demand_workload d)) = Some committed ->
  committed <= cpu_limit p <->
  n * demand_vcpus d * ratio_threads (policy_ratio (profile_overcommit p) (demand_workload d)) <=
  admissible_cpu_units p * ratio_vcpus (policy_ratio (profile_overcommit p) (demand_workload d)).
Proof using Hp Hc Hs Hd.
  intros Hn. destruct uniform_demand_ok as [Hdo _]. bounds. pose proof (admissible_cpu_u32 p Hp) as Hcpu.
  assert (cpu_limit p = admissible_cpu_units p * 1000) as Hlim.
  { unfold cpu_limit, saturating_mul_u64, U64_MAX. lia. }
  intros (? & _ & _ & ->)%class_milli_units_Some; [ | lia | by apply typed_ratio].
  rewrite ceil_le, Hlim by lia. lia.
Qed.

(** The next demand is within the limits exactly when one more fits. *)
Lemma charged_within outs committed : uniform d outs -> within p (usage_of p outs) ->
  within p (charged (usage_of p outs) d committed) <->
  fits p d (Z.of_nat (length outs) + 1) /\
  class_milli_units ((Z.of_nat (length outs) + 1) * demand_vcpus d)
    (policy_ratio (profile_overcommit p) (demand_workload d)) = Some committed.
Proof using Hp Hc Hs Hd.
  intros Hu Hw. pose proof (charged_census outs committed Hu) as Hcensus.
  pose proof (committed_fits (Z.of_nat (length outs) + 1) committed ltac:(lia)) as Hceil.
  destruct (uniform_sums d outs Hu) as (Hsum & Hones & Hl). bounds. split.
  - intros [[Hcm Hle]]. apply Hcensus in Hcm. split; [ | done]. apply Hceil in Hle; [ | done].
    cbn [charged usage_of guaranteed_bytes elastic_bytes
    storage_bytes network_units processes descriptors residents launches runnable_vcpus dirty_bytes cleanups] in *.
    split; lia.
  - intros [[] Hcm]. split; cbn [charged usage_of cpu_milli_units guaranteed_bytes elastic_bytes
      storage_bytes network_units processes descriptors residents launches runnable_vcpus dirty_bytes cleanups
      node_memory]; try lia; [ | by apply (in_cleanups _ _ Hw) | by apply (in_node_memory _ _ Hw)].
    split; [by apply Hcensus | by apply Hceil].
Qed.

Lemma free_nodes_single outs : uniform d outs -> within p (usage_of p outs) ->
  free_nodes (usage_of p outs) p =
  [mkNodeFree 0 (cpu_limit p - cpu_milli_units (usage_of p outs))
     (admissible_memory_bytes p - Z.of_nat (length outs) * memory_of d)].
Proof using Hp Hc Hs Hone Hd.
  intros Hu Hw. assert (node_count p = 1) as Hn by (unfold node_count; lia).
  destruct (in_cpu _ _ Hw) as [_ Hlim]. destruct (uniform_sums d outs Hu) as (Hsum & _). bounds.
  pose proof (in_memory _ _ Hw) as Hmem. cbn [guaranteed_bytes elastic_bytes usage_of] in Hmem.
  assert (sumz (on_node 0 (of_demand memory_of)) outs = Z.of_nat (length outs) * memory_of d) as Hm.
  { apply (uniform_sum d); [ | done]. intros r <- Hr _ _. unfold on_node, of_demand. by rewrite decide_True by done. }
  unfold free_nodes, node_capacity. rewrite Hn, !Z.div_1_r. change (Z.to_nat 1) with 1%nat.
  cbn [seq fmap list_fmap].
  cbn [node_cpu node_memory usage_of cpu_milli_units] in *. rewrite !lookup_map_seq by lia. cbn [default from_option].
  rewrite (uniform_node_census d) by done. rewrite Hm, memory_of_sum by apply uniform_demand_ok.
  unfold saturating_sub, id in *. f_equal. f_equal; lia.
Qed.

Lemma reserve_uniform a outs : adm_certified a = c -> accounted a outs -> uniform d outs ->
  (forall a' r, reserve s a = (a', Ok r) -> fits p d (Z.of_nat (length outs) + 1) /\ uniform d (r :: outs)) /\
  (fits p d (Z.of_nat (length outs) + 1) -> census_fits p d (Z.of_nat (length outs) + 1) ->
   exists a' r, reserve s a = (a', Ok r)).
Proof using Hp Hc Hs Hone Hd.
  intros Hca [Hu Hw Hok] Huni. pose proof uniform_demand_ok as Hdo.
  assert (adm_profile a = p) as Hap by (unfold adm_profile; by rewrite Hca, (validate_same _ _ Hc)).
  rewrite Hap in *. pose proof (usage_of_nonneg p outs Hok) as Hnn.
  unfold reserve, st_bind, st_get, st_lift, st_modify, st_ret. rewrite Hca, Hd, Hap, Hu.
  pose proof (fun u' => usage_apply_Ok (usage_of p outs) d p u' Hp Hdo Hnn Hw) as Happly.
  rewrite free_nodes_single by done. split.
  - intros a' r. destruct (usage_apply _ _ _) as [u' | ]; [ | done].
    destruct (proj1 (Happly u') eq_refl) as (committed & -> & Hwc). apply charged_within in Hwc as [Hfits _]; [ | done..].
    unfold place, SingleNode_placement. destruct (andb _ _); [ | done]. cbn. intros [= <- <-]. split; [done | ].
    apply Forall_cons. split; [done | exact Huni].
  - intros Hfits Hcf. destruct Hdo as [Hdo Hsum]. bounds.
    pose proof (validate_ratio p c (demand_workload d) Hp Hc) as [Hrv Hrt].
    eassert (class_milli_units ((Z.of_nat (length outs) + 1) * demand_vcpus d)
      (policy_ratio (profile_overcommit p) (demand_workload d)) = Some _) as Hcm.
    { apply class_milli_units_Some; [lia | by apply typed_ratio | ]. unfold census_fits in Hcf.
      split; [lia | ]. split; [nia | split; [lia | reflexivity]]. }
    pose proof (proj2 (charged_within outs _ Huni Hw) (conj Hfits Hcm)) as Hwc.
    rewrite (proj2 (Happly _) (ex_intro _ _ (conj eq_refl Hwc))). cbn [cpu_milli_units charged].
    unfold place, SingleNode_placement. cbn [need_cpu_milli_units need_memory_bytes free_cpu_milli_units free_memory_bytes].
    destruct (in_cpu _ _ Hwc) as [_ Hlim]. destruct (in_cpu _ _ Hw) as [_ Hlim'].
    pose proof (fits_memory _ _ _ Hfits) as Hm. rewrite <- memory_of_sum in Hm by apply uniform_demand_ok.
    cbn [cpu_milli_units charged] in Hlim. unfold saturating_sub.
    rewrite !(proj2 (Z.leb_le _ _)) by lia. cbn. by eexists _, _.
Qed.
End single_node.

Lemma safe_count_operator c s e : estimate c s = Ok e ->
  safe_count e <= resident_instances (profile_limits (certified_profile c)).
Proof.
  intros (d & _ & He)%bind_Ok. destruct (min_bound _ _) as [b safe] eqn:Hmb. injection He as <-. cbn [safe_count].
  apply (f_equal snd) in Hmb. cbn [snd] in Hmb.
  assert (safe <= safe) as Hf by done. rewrite <- Hmb in Hf at 2. apply min_bound_le in Hf as [_ Hf]. rewrite !Forall_cons in Hf. tauto.
Qed.

Lemma fits_0 p d : profile_typed p -> fits p d 0.
Proof.
  intros Hp. pose proof (admissible_cpu_u32 p Hp). pose proof (admissible_memory_u64 p Hp).
  destruct (typed_ratio _ Hp (demand_workload d)) as [[? _] _]. destruct Hp as [H32 H64 _]. bounds.
  unfold is_uint in *. split; nia.
Qed.

Lemma reserve_many_uniform p c s d n a outs : profile_typed p -> profile_validate p = Ok c ->
  shape_typed (valid_shape s) -> numa_nodes (profile_cpu p) = 1 -> demand_of c s = Ok d ->
  reserve_many n s (admission_new c mkSingleNode) = Some (a, outs) ->
  accounted a outs /\ uniform d outs /\ length outs = n /\ adm_certified a = c.
Proof.
  intros Hp Hc Hs Hone Hd. revert a outs. induction n as [ | n IH]; intros a outs; cbn [reserve_many].
  { intros [= <- <-]. split; [by eapply admission_new_accounted | ]. split; [by apply Forall_nil | done]. }
  destruct (reserve_many n s _) as [[a' outs'] | ]; [ | done]. destruct (IH _ _ eq_refl) as (Hacc & Hu & Hl & Hca).
  destruct (reserve s a') as [a'' [r | ]] eqn:Hr; [ | done]. intros [= <- <-].
  destruct (reserve_accounted a' a'' r s outs') as [Hacc' Hca']; [ | done..| ].
  { unfold adm_profile. by rewrite Hca, (validate_same _ _ Hc). }
  destruct (reserve_uniform p c s d Hp Hc Hs Hone Hd a' outs' Hca Hacc Hu) as [Huni _].
  destruct (Huni _ _ Hr) as [_ ?]. split; [done | ]. split; [done | ]. split; [cbn; lia | congruence].
Qed.

(** On a host with one NUMA node the capacity estimate is exact: starting from an empty
    host, [n] reservations of one shape are all admitted exactly when [n] is at most the
    safe count the estimate reports, as long as the CPU census of that many Instances fits
    64 bits.  The gates together are the minimum over the independent bounds: rounding,
    NUMA placement and the burst limits included. *)
Theorem estimate_exact p c s e n : profile_typed p -> profile_validate p = Ok c -> shape_typed (valid_shape s) ->
  numa_nodes (profile_cpu p) = 1 -> estimate c s = Ok e ->
  (forall d, demand_of c s = Ok d -> census_fits p d (safe_count e)) ->
  is_Some (reserve_many n s (admission_new c mkSingleNode)) <-> Z.of_nat n <= safe_count e.
Proof.
  intros Hp Hc Hs Hone He Hcf.
  assert (exists d, demand_of c s = Ok d) as [d Hd] by (by apply bind_Ok in He as (d & ? & _); exists d).
  specialize (Hcf d Hd). pose proof (fun n => estimate_fits p c s d e n Hp Hc Hs Hd He) as Hfits.
  pose proof (safe_count_operator c s e He) as Hop. rewrite (validate_same _ _ Hc) in Hop. cbn in Hop.
  assert (resident_instances (profile_limits p) < 2 ^ 32) as H32.
  { destruct Hp as [H32 _ _]. bounds. unfold is_uint in *. lia. }
  assert (2 ^ 32 <= U64_MAX) as HU by done.
  pose proof (uniform_demand_ok p c s d Hp Hc Hs Hd) as [Hdo _]. bounds.
  destruct (typed_ratio _ Hp (demand_workload d)) as [_ [Hrt _]].
  induction n as [ | n IH]; [split; [intros _; apply Hfits; [lia | by apply fits_0] | by eexists] | ].
  cbn [reserve_many]. destruct (reserve_many n s _) as [[a outs] | ] eqn:Hm.
  - destruct (reserve_many_uniform p c s d n a outs Hp Hc Hs Hone Hd Hm) as (Hacc & Hu & Hl & Hca).
    destruct (reserve_uniform p c s d Hp Hc Hs Hone Hd a outs Hca Hacc Hu) as [Hto Hfrom]. rewrite Hl in *.
    replace (Z.of_nat (S n)) with (Z.of_nat n + 1) by lia. split.
    + destruct (reserve s a) as [a' [r | ]] eqn:Hr; [ | by intros []]. intros _.
      destruct (Hto _ _ eq_refl) as [Hf _]. pose proof (fits_residents _ _ _ Hf). apply Hfits; [lia | done].
    + intros Hle. destruct Hfrom as (a' & r & ->); [apply Hfits; [lia | done] | | by eexists].
      unfold census_fits in *. assert ((Z.of_nat n + 1) * demand_vcpus d <= safe_count e * demand_vcpus d) by nia. nia.
  - split; [by intros [] | ]. intros Hle. destruct (proj2 IH) as [x Hx]; [lia | done].
Qed.

(** Three Instances of [shape1] are admitted on [host1], bound by the dirty memory. *)
Lemma estimate_exact_witness : exists e, estimate certified1 shape1 = Ok e /\ safe_count e = 3 /\
  is_Some (reserve_many 3 shape1 (admission_new certified1 mkSingleNode)) /\
  ~ is_Some (reserve_many 4 shape1 (admission_new certified1 mkSingleNode)).
Proof.
  assert (exists e, estimate certified1 shape1 = Ok e /\ safe_count e = 3) as (e & He & Hsc)
    by (eexists; split; vm_compute; reflexivity).
  exists e. split; [done | ]. split; [done | ].
  pose proof (fun n => estimate_exact host1 certified1 shape1 e n host1_typed eq_refl shape1_typed eq_refl He) as Hex.
  assert (forall d, demand_of certified1 shape1 = Ok d -> census_fits host1 d (safe_count e)) as Hcf.
  { intros d Hd. rewrite Hsc. vm_compute in Hd. injection Hd as <-. vm_compute. discriminate. }
  split; [apply (Hex 3%nat Hcf); rewrite Hsc; done | ].
  intros Hn. apply (Hex 4%nat Hcf) in Hn. rewrite Hsc in Hn. done.
Defined.

(** With more than one node the shipped placement admits nothing, whatever the estimate says. *)
Theorem multi_node_refused shape (a : Admission SingleNode) : 2 <= numa_nodes (profile_cpu (adm_profile a)) ->
  exists e, reserve shape a = (a, Err e).
Proof.
  intros Hn. unfold reserve, st_bind, st_get, st_lift. destruct (demand_of _ _); [ | by eexists].
  destruct (usage_apply _ _ _); [ | by eexists].
  assert (exists x y l, free_nodes (adm_usage a) (adm_profile a) = x :: y :: l) as (x & y & l & ->); [ | by eexists].
  assert (exists k, Z.to_nat (node_count (adm_profile a)) = S (S k)) as [k Hk].
  { exists (Z.to_nat (node_count (adm_profile a)) - 2)%nat. unfold node_count. lia. }
  unfold free_nodes. rewrite Hk. by eexists _, _, _.
Qed.
