(* ===== verification/HostState.v ===== *)
(** Workers of the host daemon: identities ([ids.rs]), phases and the packed atomic state word
    ([pool/state.rs]), and the typed handles over it ([pool/state/typestate.rs]). *)

From S2P Require Import Prelude Bytes.
From stdpp Require Import options.

(** * Identities ([ids.rs]) *)

Inductive IdError : Type :=
| IdError_Zero
| IdError_GenerationExhausted.

#[export] Instance IdError_eq_dec : EqDecision IdError.
Proof. solve_decision. Defined.

(** The body of [fixed_id!]: every identity is its bytes, and not all of them zero. *)
Definition fixed_id (raw : bytes) : Result bytes IdError :=
  if forallb (fun byte => byte =? 0) raw then Err IdError_Zero else Ok raw.

Notation WorkerId := bytes (only parsing).
Notation InstanceId := bytes (only parsing).
Notation OperationId := bytes (only parsing).
Notation GenerationId := bytes (only parsing).
Notation RequestFingerprint := bytes (only parsing).
Notation PoolKeyDigest := bytes (only parsing).

Notation LeaseGeneration := Z (only parsing).

Definition LEASE_FIRST : LeaseGeneration := 1.
Definition LEASE_MAX : LeaseGeneration := Z.shiftl 1 56 - 1.

Definition lease_new (value : Z) : Result LeaseGeneration IdError :=
  if value =? 0 then Err IdError_Zero
  else if value >? LEASE_MAX then Err IdError_GenerationExhausted
  else Ok value.

Definition lease_next (g : LeaseGeneration) : Result LeaseGeneration IdError :=
  let? value := ok_or IdError_GenerationExhausted (checked_add_u64 g 1) in lease_new value.

(** * Phases ([state.rs]) *)

Inductive Phase : Type := Constructing | Sterile | Claiming | Assigned | Running | Destroying | Dead.

#[export] Instance Phase_eq_dec : EqDecision Phase.
Proof. solve_decision. Defined.

Definition PHASE_ALL : list Phase := [Constructing; Sterile; Claiming; Assigned; Running; Destroying; Dead].

Definition phase_code (p : Phase) : Z :=
  match p with
  | Constructing => 1 | Sterile => 2 | Claiming => 3 | Assigned => 4 | Running => 5 | Destroying => 6 | Dead => 7
  end.

Definition phase_from_code (code : Z) : option Phase :=
  if code =? 1 then Some Constructing else if code =? 2 then Some Sterile else if code =? 3 then Some Claiming
  else if code =? 4 then Some Assigned else if code =? 5 then Some Running else if code =? 6 then Some Destroying
  else if code =? 7 then Some Dead else None.

Definition is_terminal (p : Phase) : bool :=
  match p with Destroying | Dead => true | _ => false end.

Definition is_nonterminal (p : Phase) : bool := match p with Dead => false | _ => true end.

Definition may_transition_to (from to : Phase) : bool :=
  match from, to with
  | Constructing, (Sterile | Dead)
  | Sterile, (Claiming | Destroying)
  | Claiming, (Assigned | Destroying)
  | Assigned, (Running | Destroying)
  | Running, Destroying
  | Destroying, Dead => true
  | _, _ => false
  end.

(** * The packed word *)

Record Packed : Type := mkPacked {
  packed_phase : Phase;
  packed_generation : LeaseGeneration
}.

#[export] Instance Packed_eq_dec : EqDecision Packed.
Proof. solve_decision. Defined.

Inductive StateRace : Type :=
| StateRace_Illegal (from to : Phase)
| StateRace_GenerationRule
| StateRace_Lost (expected observed : Packed).

Definition PHASE_SHIFT : Z := 56.
Definition GENERATION_MASK : Z := Z.shiftl 1 PHASE_SHIFT - 1.

Definition pack (s : Packed) : Z :=
  Z.lor (Z.shiftl (phase_code (packed_phase s)) PHASE_SHIFT) (Z.land (packed_generation s) GENERATION_MASK).

(** [u8::try_from] of the top byte always succeeds, since the word has 64 bits. *)
Definition unpack (word : Z) : Packed :=
  let code := Z.shiftr word PHASE_SHIFT in
  mkPacked (default Dead (phase_from_code code))
    (match lease_new (Z.land word GENERATION_MASK) with Ok g => g | Err _ => LEASE_MAX end).

Definition word_new (phase : Phase) (generation : LeaseGeneration) : Z := pack (mkPacked phase generation).

(** [AtomicU64::compare_exchange]: the word, or the value it really held. *)
Definition compare_exchange (expected next : Z) : ST Z Z unit :=
  fun word => if word =? expected then (next, Ok tt) else (word, Err word).

(** The computation [c] with its errors renamed by [f]. *)
Definition st_map_err {S E F A} (f : E -> F) (c : ST S E A) : ST S F A :=
  fun s => let '(s, r) := c s in (s, map_err f r).

Definition transition (from to : Packed) : ST Z StateRace unit :=
  if negb (may_transition_to (packed_phase from) (packed_phase to))
  then st_err (StateRace_Illegal (packed_phase from) (packed_phase to))
  else
    let claim := bool_decide (packed_phase from = Sterile) && bool_decide (packed_phase to = Claiming) in
    expected_generation <-- st_lift
      (if claim then map_err (fun _ => StateRace_GenerationRule) (lease_next (packed_generation from))
       else Ok (packed_generation from)) ;;
    if negb (packed_generation to =? expected_generation) then st_err StateRace_GenerationRule
    else st_map_err (fun observed => StateRace_Lost from (unpack observed)) (compare_exchange (pack from) (pack to)).

(** * Slots *)

Record Slot : Type := mkSlot {
  slot_id : WorkerId;
  slot_key : PoolKeyDigest;
  slot_word : Z
}.

Definition slot_new (id : WorkerId) (key : PoolKeyDigest) : Slot := mkSlot id key (word_new Constructing LEASE_FIRST).

Definition slot_restore (id : WorkerId) (key : PoolKeyDigest) (phase : Phase) (generation : LeaseGeneration) : Slot :=
  mkSlot id key (word_new phase generation).

Definition observe (s : Slot) : Packed := unpack (slot_word s).

(** An operation on the word of the shared slot. *)
Definition on_word {E A} (c : ST Z E A) : ST Slot E A :=
  fun s => let '(w, r) := c (slot_word s) in (mkSlot (slot_id s) (slot_key s) w, r).

(** * Typed handles ([typestate.rs])

    A [Worker S] is a handle typed for phase [S]; the [Arc<Slot>] it holds is the slot the
    operations run on. *)
Record Worker (S : Phase) : Type := mkWorker { worker_generation : LeaseGeneration }.
Arguments mkWorker S _ : clear implicits.
Arguments worker_generation {S} _.

Definition attach (S : Phase) (s : Slot) : option (Worker S) :=
  let observed := observe s in
  if decide (packed_phase observed = S) then Some (mkWorker S (packed_generation observed)) else None.

Definition advance {S : Phase} (N : Phase) (w : Worker S) (generation : LeaseGeneration) : ST Slot StateRace (Worker N) :=
  on_word (transition (mkPacked S (worker_generation w)) (mkPacked N generation)) ;;;
  st_ret (mkWorker N generation).

Definition keep {S : Phase} (N : Phase) (w : Worker S) : ST Slot StateRace (Worker N) :=
  advance N w (worker_generation w).

Definition worker_open (s : Slot) : Worker Constructing := mkWorker Constructing (packed_generation (observe s)).

Definition sterilize (w : Worker Constructing) : ST Slot StateRace (Worker Sterile) := keep Sterile w.
Definition abort (w : Worker Constructing) : ST Slot StateRace (Worker Dead) := keep Dead w.

Definition claim (w : Worker Sterile) : ST Slot StateRace (Worker Claiming) :=
  next <-- st_lift (map_err (fun _ => StateRace_GenerationRule) (lease_next (worker_generation w))) ;;
  advance Claiming w next.

Definition evict (w : Worker Sterile) : ST Slot StateRace (Worker Destroying) := keep Destroying w.

Definition try_from_sterile {N : Phase} (act : Worker Sterile -> ST Slot StateRace (Worker N)) (s : Slot)
    : Slot * option (Worker N) :=
  let observed := observe s in
  if decide (packed_phase observed = Sterile) then
    match act (mkWorker Sterile (packed_generation observed)) s with
    | (s, Ok w) => (s, Some w)
    | (s, Err _) => (s, None)
    end
  else (s, None).

Definition try_claim : Slot -> Slot * option (Worker Claiming) := try_from_sterile claim.
Definition try_evict : Slot -> Slot * option (Worker Destroying) := try_from_sterile evict.

Definition assign (w : Worker Claiming) : ST Slot StateRace (Worker Assigned) := keep Assigned w.
Definition destroy_claiming_handle (w : Worker Claiming) : ST Slot StateRace (Worker Destroying) := keep Destroying w.
Definition run (w : Worker Assigned) : ST Slot StateRace (Worker Running) := keep Running w.
Definition destroy_assigned (w : Worker Assigned) : ST Slot StateRace (Worker Destroying) := keep Destroying w.
Definition destroy_running (w : Worker Running) : ST Slot StateRace (Worker Destroying) := keep Destroying w.
Definition finish (w : Worker Destroying) : ST Slot StateRace (Worker Dead) := keep Dead w.
