(* ===== verification/HostStateFacts.v ===== *)
(** The worker state word: packing loses nothing, a handle acts only on the state it was taken
    from, and whatever handles race on a slot, it passes through each phase at most once. *)

From S2P Require Import Prelude Bytes HostState.
From Stdlib Require Import Sorted.
From stdpp Require Import options.

(** * Packing *)

Definition packed_ok (s : Packed) : Prop := 1 <= packed_generation s <= LEASE_MAX.

Lemma phase_from_code_code p : phase_from_code (phase_code p) = Some p.
Proof. by destruct p. Qed.

Lemma pack_sum s : packed_ok s -> pack s = phase_code (packed_phase s) * 2 ^ 56 + packed_generation s.
Proof.
  intros [Hlo Hhi]. change LEASE_MAX with (2 ^ 56 - 1) in Hhi. unfold pack, PHASE_SHIFT.
  change GENERATION_MASK with (Z.ones 56). rewrite Z.land_ones, Z.mod_small by lia.
  rewrite Z.shiftl_mul_pow2 by lia. rewrite <- Z.add_lor_land.
  enough (Z.land (phase_code (packed_phase s) * 2 ^ 56) (packed_generation s) = 0) by lia.
  apply Z.bits_inj'. intros i Hi. rewrite Z.land_spec, Z.bits_0.
  destruct (Z.lt_ge_cases i 56); [by rewrite Z.mul_pow2_bits_low | ].
  rewrite (Z.bits_above_log2 (packed_generation s)), andb_false_r; [done | lia | ].
  apply Z.log2_lt_pow2; [lia | ]. eapply Z.lt_le_trans; [ | apply Z.pow_le_mono_r with (b := 56); lia]. lia.
Qed.

Lemma unpack_pack s : packed_ok s -> unpack (pack s) = s.
Proof.
  intros Hs. pose proof (pack_sum s Hs) as Hp. destruct Hs as [Hlo Hhi]. change LEASE_MAX with (2 ^ 56 - 1) in Hhi.
  destruct s as [p g]. cbn [packed_phase packed_generation] in *. unfold unpack, PHASE_SHIFT.
  change GENERATION_MASK with (Z.ones 56). rewrite Z.land_ones, Z.shiftr_div_pow2 by lia. rewrite Hp.
  rewrite Z.div_add_l, (Z.div_small g) by lia. rewrite Z.add_0_r, phase_from_code_code.
  rewrite Z.add_comm, Z.mod_add, Z.mod_small by lia. unfold lease_new.
  destruct (Z.eqb_spec g 0); [lia | ]. rewrite Z.gtb_ltb. change LEASE_MAX with (2 ^ 56 - 1).
  destruct (Z.ltb_spec (2 ^ 56 - 1) g); [lia | done].
Qed.

Lemma pack_inj s t : packed_ok s -> packed_ok t -> pack s = pack t -> s = t.
Proof. intros Hs Ht Heq. by rewrite <- (unpack_pack s), <- (unpack_pack t), Heq. Qed.

Lemma lease_next_Ok g n : 1 <= g <= LEASE_MAX -> lease_next g = Ok n <-> n = g + 1 /\ g < LEASE_MAX.
Proof.
  intros Hg. change LEASE_MAX with (2 ^ 56 - 1) in *. unfold lease_next, lease_new, checked_add_u64, U64_MAX.
  destruct (Z.leb_spec (g + 1) (2 ^ 64 - 1)); [ | lia]. cbn [ok_or].
  destruct (Z.eqb_spec (g + 1) 0); [lia | ]. rewrite Z.gtb_ltb. change LEASE_MAX with (2 ^ 56 - 1).
  destruct (Z.ltb_spec (2 ^ 56 - 1) (g + 1)) as [Hlt | Hle]; split.
  - done.
  - intros [_ ?]. lia.
  - intros [= <-]. lia.
  - by intros [-> _].
Qed.

(** * One transition *)

Definition is_claim (from to : Phase) : bool := bool_decide (from = Sterile) && bool_decide (to = Claiming).

(** The moves of the machine: the table, and the generation bumped by a claim alone. *)
Definition legal (from to : Packed) : Prop :=
  may_transition_to (packed_phase from) (packed_phase to) = true /\
  packed_generation to =
    packed_generation from + Z.b2z (is_claim (packed_phase from) (packed_phase to)) /\
  packed_ok to.

#[export] Instance legal_dec from to : Decision (legal from to).
Proof. unfold legal, packed_ok. apply _. Defined.

Lemma compare_exchange_pack cur from to : packed_ok cur -> packed_ok from ->
  compare_exchange (pack from) (pack to) (pack cur) =
  if decide (cur = from) then (pack to, Ok tt) else (pack cur, Err (pack cur)).
Proof.
  intros Hc Hf. unfold compare_exchange. case_decide as Heq; [by rewrite Heq, Z.eqb_refl | ].
  destruct (Z.eqb_spec (pack cur) (pack from)) as [Hp | ]; [ | done]. by apply pack_inj in Hp.
Qed.

Lemma transition_spec cur from to : packed_ok cur -> packed_ok from ->
  if decide (legal from to /\ cur = from)
  then transition from to (pack cur) = (pack to, Ok tt)
  else exists race, transition from to (pack cur) = (pack cur, Err race) /\
       (legal from to -> race = StateRace_Lost from cur).
Proof.
  intros Hc Hf. unfold transition.
  destruct (may_transition_to (packed_phase from) (packed_phase to)) eqn:Hmay; cbn [negb]; last first.
  { rewrite decide_False; [ | unfold legal; intuition congruence]. eexists. split; [done | ].
    unfold legal. intuition congruence. }
  change (bool_decide (packed_phase from = Sterile) && bool_decide (packed_phase to = Claiming))
    with (is_claim (packed_phase from) (packed_phase to)).
  set (expected := if is_claim _ _ then _ else _).
  assert (expected = Ok (packed_generation to) <-> legal from to) as Hleg.
  { unfold legal, packed_ok, expected in *. destruct (is_claim _ _); cbn [Z.b2z].
    - rewrite map_err_Ok, lease_next_Ok by done. intuition lia.
    - split; [intros [= <-]; split; [done | ]; split; lia | intros (_ & -> & _); f_equal; lia]. }
  unfold st_bind, st_lift. destruct expected as [g | race] eqn:He; cbn beta iota.
  - destruct (Z.eqb_spec (packed_generation to) g) as [<- | Hne]; cbn [negb].
    + unfold st_map_err. rewrite compare_exchange_pack by done. pose proof (proj1 Hleg eq_refl) as Hl.
      destruct (decide (cur = from)); [rewrite decide_True by done; done | ].
      rewrite decide_False by tauto. eexists. split; [done | ]. intros _. by rewrite unpack_pack.
    + rewrite decide_False; [ | intros [Hl _]; apply Hleg in Hl; congruence].
      eexists. split; [done | ]. intros Hl. apply Hleg in Hl. congruence.
  - rewrite decide_False; [ | intros [Hl _]; apply Hleg in Hl; congruence].
    eexists. split; [done | ]. intros Hl. apply Hleg in Hl. congruence.
Qed.

(** * Handles *)

Definition slot_ok (s : Slot) : Prop := exists cur, packed_ok cur /\ slot_word s = pack cur.

Lemma observe_pack id key cur : packed_ok cur -> observe (mkSlot id key (pack cur)) = cur.
Proof. apply unpack_pack. Qed.

Definition with_word (s : Slot) (cur : Packed) : Slot := mkSlot (slot_id s) (slot_key s) (pack cur).

(** The methods of the typed handles. *)
Inductive Act : Phase -> Phase -> Type :=
| Act_sterilize : Act Constructing Sterile
| Act_abort : Act Constructing Dead
| Act_claim : Act Sterile Claiming
| Act_evict : Act Sterile Destroying
| Act_assign : Act Claiming Assigned
| Act_destroy_claiming : Act Claiming Destroying
| Act_run : Act Assigned Running
| Act_destroy_assigned : Act Assigned Destroying
| Act_destroy_running : Act Running Destroying
| Act_finish : Act Destroying Dead.

Definition act {S N} (a : Act S N) : Worker S -> ST Slot StateRace (Worker N) :=
  match a with
  | Act_sterilize => sterilize | Act_abort => abort | Act_claim => claim | Act_evict => evict
  | Act_assign => assign | Act_destroy_claiming => destroy_claiming_handle | Act_run => run
  | Act_destroy_assigned => destroy_assigned | Act_destroy_running => destroy_running | Act_finish => finish
  end.

(** The state a handle stands for. *)
Definition stands_for {S} (w : Worker S) : Packed := mkPacked S (worker_generation w).

Lemma advance_spec {S} N (w : Worker S) g s : slot_ok s -> packed_ok (stands_for w) ->
  if decide (legal (stands_for w) (mkPacked N g) /\ observe s = stands_for w)
  then advance N w g s = (with_word s (mkPacked N g), Ok (mkWorker N g))
  else exists race, advance N w g s = (s, Err race) /\
       (legal (stands_for w) (mkPacked N g) -> race = StateRace_Lost (stands_for w) (observe s)).
Proof.
  intros (cur & Hc & Hw) Hs. destruct s as [id key word]. cbn in Hw. subst word. rewrite observe_pack by done.
  pose proof (transition_spec cur (stands_for w) (mkPacked N g) Hc Hs) as Ht.
  unfold advance, st_bind, on_word, st_ret. cbn [slot_word slot_id slot_key].
  change (mkPacked S (worker_generation w)) with (stands_for w).
  case_decide; [by rewrite Ht | ]. destruct Ht as (race & -> & Hr). eauto.
Qed.

Lemma act_legal {S N} (a : Act S N) : may_transition_to S N = true.
Proof. by destruct a. Qed.

(** What a method does: the move to its target, with the generation a claim bumps. *)
Definition target {S N} (a : Act S N) (w : Worker S) : Packed :=
  mkPacked N (worker_generation w + Z.b2z (is_claim S N)).

Lemma move_spec {S N} (w : Worker S) g s : slot_ok s -> packed_ok (stands_for w) -> may_transition_to S N = true ->
  g = worker_generation w + Z.b2z (is_claim S N) ->
  if decide (observe s = stands_for w /\ packed_ok (mkPacked N g))
  then advance N w g s = (with_word s (mkPacked N g), Ok (mkWorker N g))
  else exists race, advance N w g s = (s, Err race).
Proof.
  intros Hs Hw Hmay Hg. pose proof (advance_spec N w g s Hs Hw) as Hadv.
  assert (legal (stands_for w) (mkPacked N g) <-> packed_ok (mkPacked N g)) as Hleg by (unfold legal; cbn; tauto).
  case_decide as H1; case_decide as H2; try tauto. destruct Hadv as (race & Hr & _). eauto.
Qed.

Lemma act_spec {S N} (a : Act S N) (w : Worker S) s : slot_ok s -> packed_ok (stands_for w) ->
  if decide (observe s = stands_for w /\ packed_ok (target a w))
  then act a w s = (with_word s (target a w), Ok (mkWorker N (packed_generation (target a w))))
  else exists race, act a w s = (s, Err race).
Proof.
  intros Hs Hw. pose proof (move_spec (N := N) w _ s Hs Hw (act_legal a) eq_refl) as Hmove. unfold target.
  cbn [packed_generation]. destruct a; cbn [is_claim bool_decide decide_rel andb Z.b2z act] in *;
    unfold sterilize, abort, evict, assign, destroy_claiming_handle, run, destroy_assigned, destroy_running, finish, keep;
    try (change (Z.b2z (is_claim _ _)) with 0 in *; rewrite Z.add_0_r in *; exact Hmove).
  change (Z.b2z (is_claim _ _)) with 1 in *. unfold claim, st_bind, st_lift.
  destruct (lease_next (worker_generation w)) as [n | e] eqn:Hn; cbn [map_err].
  - apply lease_next_Ok in Hn as [-> _]; [exact Hmove | done].
  - rewrite decide_False; [by eexists | ]. intros [_ Hok]. unfold packed_ok in *.
    cbn [packed_generation stands_for] in *.
    assert (lease_next (worker_generation w) = Ok (worker_generation w + 1)) as Hk.
    { apply lease_next_Ok; [exact Hw | split; [reflexivity | lia]]. }
    rewrite Hk in Hn. discriminate Hn.
Qed.

Lemma with_word_ok s cur : packed_ok cur -> slot_ok (with_word s cur).
Proof. intros. by exists cur. Qed.

Lemma observe_with_word s cur : packed_ok cur -> observe (with_word s cur) = cur.
Proof. apply unpack_pack. Qed.

Lemma observe_ok s : slot_ok s -> packed_ok (observe s) /\ slot_word s = pack (observe s).
Proof. intros (cur & Hc & Hw). unfold observe. rewrite Hw. by rewrite unpack_pack. Qed.

Lemma try_from_sterile_spec {N} (a : Act Sterile N) s : slot_ok s ->
  try_from_sterile (act a) s =
  if decide (packed_phase (observe s) = Sterile /\ packed_ok (target a (mkWorker Sterile (packed_generation (observe s)))))
  then let t := target a (mkWorker Sterile (packed_generation (observe s))) in
       (with_word s t, Some (mkWorker N (packed_generation t)))
  else (s, None).
Proof.
  intros Hs. unfold try_from_sterile. pose proof (observe_ok s Hs) as [Hok _].
  destruct (decide (packed_phase (observe s) = Sterile)) as [Hst | Hst]; [ | by rewrite decide_False by tauto].
  pose proof (act_spec a (mkWorker Sterile (packed_generation (observe s))) s Hs Hok) as Hact.
  assert (observe s = stands_for (mkWorker Sterile (packed_generation (observe s)))) as Hobs.
  { unfold stands_for. cbn [worker_generation]. rewrite <- Hst at 1. by destruct (observe s). }
  case_decide as H1; case_decide as H2; try tauto; [by rewrite Hact | ]. by destruct Hact as [race ->].
Qed.

(** * Racing handles *)

(** One call of a method on some handle, taken at any time by anyone. *)
Inductive ActAttempt : Type :=
| attempt {S N : Phase} (a : Act S N) (w : Worker S).

Definition attempt_ok (x : ActAttempt) : Prop := match x with attempt _ w => packed_ok (stands_for w) end.

Definition perform_act (x : ActAttempt) (s : Slot) : Slot * option Packed :=
  match x with
  | attempt a w => let '(s, r) := act a w s in (s, match r with Ok w => Some (stands_for w) | Err _ => None end)
  end.

(** The attempts in the order their compare-and-swaps happen, and the states reached. *)
Fixpoint race (xs : list ActAttempt) (s : Slot) : Slot * list Packed :=
  match xs with
  | [] => (s, [])
  | x :: xs =>
      let '(s, won) := perform_act x s in
      let '(s, reached) := race xs s in
      (s, match won with Some p => p :: reached | None => reached end)
  end.

Fixpoint path (from : Packed) (l : list Packed) : Prop :=
  match l with [] => True | to :: l => legal from to /\ path to l end.

Lemma perform_spec x s : slot_ok s -> attempt_ok x ->
  match perform_act x s with
  | (s', Some p) => legal (observe s) p /\ s' = with_word s p
  | (s', None) => s' = s
  end.
Proof.
  intros Hs Hx. destruct x as [S N a w]. cbn in *. pose proof (act_spec a w s Hs Hx) as Hact.
  case_decide as Hd; [ | by destruct Hact as [race ->]]. rewrite Hact. destruct Hd as [Hobs Hok]. split; [ | done].
  rewrite Hobs. split; [apply (act_legal a) | done].
Qed.

Lemma race_path xs s : slot_ok s -> Forall attempt_ok xs ->
  path (observe s) (race xs s).2 /\ slot_ok (race xs s).1 /\
  observe (race xs s).1 = default (observe s) (last (race xs s).2).
Proof.
  intros Hs Hx. revert s Hs. induction Hx as [ | x xs Hx _ IH]; intros s Hs; [done | ]. cbn.
  pose proof (perform_spec x s Hs Hx) as Hp. destruct (perform_act x s) as [s' [p | ]].
  - destruct Hp as [Hl ->]. assert (packed_ok p) as Hok by apply Hl.
    specialize (IH _ (with_word_ok s p Hok)). rewrite observe_with_word in IH by done.
    destruct (race xs (with_word s p)) as [s'' reached]. cbn in *. destruct IH as (Hpath & Hs'' & Hlast).
    split; [done | ]. split; [done | ]. rewrite Hlast. change (default p (last reached) = default (observe s) (last (p :: reached))).
    rewrite last_cons. by destruct (last reached).
  - subst s'. specialize (IH s Hs). by destruct (race xs s).
Qed.

Lemma legal_code from to : legal from to -> phase_code (packed_phase from) < phase_code (packed_phase to).
Proof. intros [Hmay _]. by destruct (packed_phase from), (packed_phase to). Qed.

Lemma path_sorted from l : path from l -> StronglySorted Z.lt (phase_code ∘ packed_phase <$> from :: l).
Proof.
  revert from. induction l as [ | to l IH]; intros from; cbn; [by repeat constructor | ].
  intros [Hl%legal_code Hp]. specialize (IH to Hp). constructor; [done | ]. constructor; [done | ].
  inversion IH as [ | ? ? ? Hf]; subst. eapply Forall_impl; [exact Hf | ]. cbn. intros; lia.
Qed.

Lemma phase_code_inj p q : phase_code p = phase_code q -> p = q.
Proof. by destruct p, q. Qed.

Lemma sorted_nodup (l : list Packed) :
  StronglySorted Z.lt (phase_code ∘ packed_phase <$> l) -> NoDup (packed_phase <$> l).
Proof.
  induction l as [ | x l IH]; [constructor | ]. cbn. inversion 1 as [ | ? ? Hs Hf]; subst. constructor; [ | by apply IH].
  intros (y & Hxy & Hy)%list_elem_of_fmap. rewrite Forall_fmap, Forall_forall in Hf. specialize (Hf y Hy).
  cbn in Hf. rewrite Hxy in Hf. lia.
Qed.

Lemma nodup_phases (l : list Phase) : NoDup l -> (length l <= 7)%nat.
Proof.
  intros Hn. change 7%nat with (length PHASE_ALL). apply submseteq_length, NoDup_submseteq; [done | ].
  intros p _. destruct p; set_solver.
Qed.

Lemma nodup_filter_phase (l : list Packed) p : NoDup (packed_phase <$> l) ->
  (length (filter (fun x => packed_phase x = p) l) <= 1)%nat.
Proof.
  induction l as [ | x l IH]; [cbn; lia | ]. rewrite fmap_cons, NoDup_cons. intros [Hx Hl]. specialize (IH Hl).
  rewrite filter_cons. case_decide as Hp; [ | done]. cbn [length].
  destruct (filter (fun x => packed_phase x = p) l) as [ | y k] eqn:Hk; [done | ].
  assert (y ∈ filter (fun x => packed_phase x = p) l) as [Hyp Hy]%list_elem_of_filter by (rewrite Hk; by left).
  destruct Hx. apply list_elem_of_fmap. exists y. split; [congruence | done].
Qed.

Lemma path_generation from l : path from l ->
  packed_generation (default from (last l)) =
  packed_generation from + Z.of_nat (length (filter (fun p => packed_phase p = Claiming) l)).
Proof.
  revert from. induction l as [ | to l IH]; intros from; [cbn; lia | ]. intros [(Hmay & Hg & _) Hp].
  specialize (IH to Hp). rewrite filter_cons, last_cons.
  replace (default from match last l with Some y => Some y | None => Some to end) with (default to (last l))
    by by destruct (last l).
  rewrite IH, Hg.
  assert (is_claim (packed_phase from) (packed_phase to) = bool_decide (packed_phase to = Claiming)) as ->
    by by destruct (packed_phase from), (packed_phase to).
  case_decide; [rewrite bool_decide_true by done | rewrite bool_decide_false by done]; cbn [length Z.b2z]; lia.
Qed.

(** C20: whatever handles race on a slot, stale ones included, in whatever order their
    compare-and-swaps happen: the states the slot goes through are a path of the transition
    table along which the phase only advances, so every phase is entered at most once, the
    worker is claimed by at most one caller, it is never sterile again, and at most six
    attempts succeed; the generation is bumped by the claim alone. *)
Theorem slot_race id key xs : Forall attempt_ok xs ->
  let '(s, reached) := race xs (slot_new id key) in
  path (mkPacked Constructing LEASE_FIRST) reached /\
  NoDup (packed_phase <$> mkPacked Constructing LEASE_FIRST :: reached) /\
  (length reached <= 6)%nat /\
  (length (filter (fun p => packed_phase p = Claiming) reached) <= 1)%nat /\
  observe s = default (mkPacked Constructing LEASE_FIRST) (last reached) /\
  packed_generation (observe s) = LEASE_FIRST + Z.of_nat (length (filter (fun p => packed_phase p = Claiming) reached)).
Proof.
  intros Hx. assert (packed_ok (mkPacked Constructing LEASE_FIRST)) as Hok by done.
  assert (slot_ok (slot_new id key)) as Hs by by exists (mkPacked Constructing LEASE_FIRST).
  assert (observe (slot_new id key) = mkPacked Constructing LEASE_FIRST) as Hobs by by apply observe_pack.
  pose proof (race_path xs _ Hs Hx) as (Hp & _ & Hlast). rewrite Hobs in *.
  destruct (race xs (slot_new id key)) as [s reached]. cbn [fst snd] in *.
  pose proof (sorted_nodup _ (path_sorted _ _ Hp)) as Hnd. split; [done | ]. split; [exact Hnd | ].
  assert (NoDup (packed_phase <$> reached)) as Hnd' by by apply NoDup_cons in Hnd as [_ ?].
  split; [apply nodup_phases in Hnd; cbn in Hnd; rewrite length_fmap in Hnd; lia | ].
  split; [by apply nodup_filter_phase | ]. split; [done | ]. rewrite Hlast. by apply path_generation.
Qed.

(** Two callers hold the same sterile state; the second one's claim is lost, and the stale
    eviction after it too. *)
Lemma slot_race_witness : length (filter (fun p => packed_phase p = Claiming) (race
    [attempt Act_sterilize (mkWorker Constructing 1); attempt Act_claim (mkWorker Sterile 1);
     attempt Act_claim (mkWorker Sterile 1); attempt Act_evict (mkWorker Sterile 1)] (slot_new [1] [2])).2) = 1%nat.
Proof.
  pose proof (slot_race [1] [2] [attempt Act_sterilize (mkWorker Constructing 1); attempt Act_claim (mkWorker Sterile 1);
     attempt Act_claim (mkWorker Sterile 1); attempt Act_evict (mkWorker Sterile 1)]) as H.
  destruct (race _ _) as [s reached] eqn:Hr. destruct H as (_ & _ & _ & _ & _ & Hg).
  { repeat constructor; vm_compute; discriminate. }
  vm_compute in Hr. injection Hr as <- <-. vm_compute. reflexivity.
Defined.

(** A typed handle is exactly as strong as its type says.  A method succeeds precisely
    when the slot is, at that moment, in the phase of the handle's type and at its lease
    generation (and a claim's next generation still packs); the slot is then in the phase
    of the handle it returns, at that handle's generation.  In every other case the slot is
    unchanged. *)
Theorem handle_sound {S N} (a : Act S N) (w : Worker S) s : slot_ok s -> packed_ok (stands_for w) ->
  match act a w s with
  | (s', Ok w') => observe s = stands_for w /\ observe s' = stands_for w' /\ slot_ok s' /\
      slot_id s' = slot_id s /\ slot_key s' = slot_key s /\
      worker_generation w' = worker_generation w + Z.b2z (is_claim S N)
  | (s', Err _) => s' = s /\ (observe s <> stands_for w \/ (is_claim S N = true /\ worker_generation w = LEASE_MAX))
  end.
Proof.
  intros Hs Hw. pose proof (act_spec a w s Hs Hw) as Hact. case_decide as Hd.
  - rewrite Hact. destruct Hd as [Hobs Hok]. split; [done | ]. split; [by rewrite observe_with_word | ].
    split; [by apply with_word_ok | done].
  - destruct Hact as [race ->]. split; [done | ].
    destruct (decide (observe s = stands_for w)) as [Heq | ]; [right | by left].
    assert (~ packed_ok (target a w)) as Hn by tauto. unfold packed_ok, target, stands_for in *. cbn [packed_generation] in *.
    destruct (is_claim S N); cbn [Z.b2z] in *; [split; [done | ] | ]; lia.
Qed.

(** A claim through a current handle. *)
Lemma handle_sound_witness :
  match act Act_claim (mkWorker Sterile 1) (slot_restore [1] [2] Sterile 1) with
  | (s', Ok w') => observe s' = stands_for w'
  | (s', Err _) => False
  end.
Proof.
  pose proof (handle_sound Act_claim (mkWorker Sterile 1) (slot_restore [1] [2] Sterile 1)) as H.
  assert (slot_ok (slot_restore [1] [2] Sterile 1)) as Hs by by exists (mkPacked Sterile 1).
  specialize (H Hs ltac:(by vm_compute)).
  destruct (act _ _ _) as [s' [w' | e]] eqn:Ha; [apply H | vm_compute in Ha; discriminate Ha].
Defined.
