(* ===== verification/HostLedger.v ===== *)
(** The durable ledger of the host daemon: its fixed-layout checksummed records
    ([pool/ledger/record.rs], with the encodings of [pool/resources.rs] and
    [pool/launcher.rs]), the projection of records into one entry per worker
    ([pool/ledger/fold.rs]), and the append-only directory ([pool/ledger.rs]). *)

From S2P Require Import Prelude Bytes Wire HostState.
From stdpp Require Import options.

(** [Result::ok] *)
Definition ok {T E} (r : Result T E) : option T := match r with Ok v => Some v | Err _ => None end.

(** * Identity and resource references *)

Record WorkerIdentity : Type := mkWorkerIdentity {
  identity_process : Z;
  identity_token : bytes
}.

#[export] Instance WorkerIdentity_eq_dec : EqDecision WorkerIdentity.
Proof. solve_decision. Defined.

Definition IDENTITY_LEN : nat := 24.

Definition identity_encode (i : WorkerIdentity) : bytes := be_bytes 8 (identity_process i) ++ identity_token i.

Definition identity_decode (raw : bytes) : option WorkerIdentity :=
  if all_zero raw then None else Some (mkWorkerIdentity (be_val (take 8 raw)) (drop 8 raw)).

(** [HeadToken::new] and [BundleId::new] accept any value that is not all zero. *)
Record ResourceRefs : Type := mkResourceRefs {
  refs_head : option bytes;
  refs_bundle : option (bytes * Z)
}.

#[export] Instance ResourceRefs_eq_dec : EqDecision ResourceRefs.
Proof. solve_decision. Defined.

Definition REFS_LEN : nat := 36.
Definition refs_default : ResourceRefs := mkResourceRefs None None.

Definition cleanup_generation_new (value : Z) : option Z := if value =? 0 then None else Some value.

Definition refs_encode (r : ResourceRefs) : bytes :=
  default (zeroes 16) (refs_head r) ++
  match refs_bundle r with
  | Some (bundle, generation) => bundle ++ be_bytes 4 generation
  | None => zeroes 20
  end.

Definition refs_decode (raw : bytes) : ResourceRefs :=
  mkResourceRefs (ok (fixed_id (take 16 raw)))
    (bundle ← ok (fixed_id (take 16 (drop 16 raw)));
     generation ← cleanup_generation_new (be_val (drop 32 raw));
     Some (bundle, generation)).

(** * Records ([record.rs]) *)

Inductive RecordKind : Type :=
| Kind_Constructing | Kind_Sterile | Kind_ConstructFailed | Kind_Claiming | Kind_TransferStep | Kind_TransferFault
| Kind_Assigned | Kind_Running | Kind_Destroying | Kind_Dead | Kind_Suspect | Kind_Reconciled | Kind_Assigning.

#[export] Instance RecordKind_eq_dec : EqDecision RecordKind.
Proof. solve_decision. Defined.

Definition kind_code (k : RecordKind) : Z :=
  match k with
  | Kind_Constructing => 1 | Kind_Sterile => 2 | Kind_ConstructFailed => 3 | Kind_Claiming => 4
  | Kind_TransferStep => 5 | Kind_TransferFault => 6 | Kind_Assigned => 7 | Kind_Running => 8
  | Kind_Destroying => 9 | Kind_Dead => 10 | Kind_Suspect => 11 | Kind_Reconciled => 12 | Kind_Assigning => 13
  end.

Definition kind_from_code (code : Z) : option RecordKind :=
  match code with
  | 1 => Some Kind_Constructing | 2 => Some Kind_Sterile | 3 => Some Kind_ConstructFailed | 4 => Some Kind_Claiming
  | 5 => Some Kind_TransferStep | 6 => Some Kind_TransferFault | 7 => Some Kind_Assigned | 8 => Some Kind_Running
  | 9 => Some Kind_Destroying | 10 => Some Kind_Dead | 11 => Some Kind_Suspect | 12 => Some Kind_Reconciled
  | 13 => Some Kind_Assigning
  | _ => None
  end.

Record LedgerRecord : Type := mkRecord {
  kind : RecordKind;
  detail : Z;
  worker : WorkerId;
  lease_generation : LeaseGeneration;
  key : PoolKeyDigest;
  operation : option OperationId;
  instance : option InstanceId;
  fingerprint : option RequestFingerprint;
  resources : ResourceRefs;
  identity : option WorkerIdentity;
  time_nanos : Z
}.

(** [Record::new], at the time [now]. *)
Definition record_new (now : Z) (k : RecordKind) (w : WorkerId) (g : LeaseGeneration) (digest : PoolKeyDigest)
    : LedgerRecord :=
  mkRecord k 0 w g digest None None None refs_default None now.

Definition with_detail (d : Z) (r : LedgerRecord) : LedgerRecord :=
  mkRecord (kind r) d (worker r) (lease_generation r) (key r) (operation r) (instance r) (fingerprint r) (resources r)
    (identity r) (time_nanos r).
Definition with_operation (o : OperationId) (r : LedgerRecord) : LedgerRecord :=
  mkRecord (kind r) (detail r) (worker r) (lease_generation r) (key r) (Some o) (instance r) (fingerprint r)
    (resources r) (identity r) (time_nanos r).
Definition with_instance (i : InstanceId) (r : LedgerRecord) : LedgerRecord :=
  mkRecord (kind r) (detail r) (worker r) (lease_generation r) (key r) (operation r) (Some i) (fingerprint r)
    (resources r) (identity r) (time_nanos r).
Definition with_fingerprint (f : RequestFingerprint) (r : LedgerRecord) : LedgerRecord :=
  mkRecord (kind r) (detail r) (worker r) (lease_generation r) (key r) (operation r) (instance r) (Some f)
    (resources r) (identity r) (time_nanos r).
Definition with_resources (refs : ResourceRefs) (r : LedgerRecord) : LedgerRecord :=
  mkRecord (kind r) (detail r) (worker r) (lease_generation r) (key r) (operation r) (instance r) (fingerprint r)
    refs (identity r) (time_nanos r).
Definition with_identity (i : WorkerIdentity) (r : LedgerRecord) : LedgerRecord :=
  mkRecord (kind r) (detail r) (worker r) (lease_generation r) (key r) (operation r) (instance r) (fingerprint r)
    (resources r) (Some i) (time_nanos r).

(** b"SOMAHOST" *)
Definition RECORD_MAGIC : bytes := [83; 79; 77; 65; 72; 79; 83; 84].
Definition RECORD_VERSION : Z := 1.
Definition BODY_LEN : nat := 8 + 2 + 1 + 1 + 16 + 8 + 32 + 16 + 16 + 32 + REFS_LEN + IDENTITY_LEN + 8.
Definition RECORD_LEN : nat := BODY_LEN + 32.

Definition record_body (r : LedgerRecord) : bytes :=
  RECORD_MAGIC ++ be_bytes 2 RECORD_VERSION ++ [kind_code (kind r); detail r] ++ worker r ++
  be_bytes 8 (lease_generation r) ++ key r ++ default (zeroes 16) (operation r) ++ default (zeroes 16) (instance r) ++
  default (zeroes 32) (fingerprint r) ++ refs_encode (resources r) ++
  default (zeroes IDENTITY_LEN) (identity_encode <$> identity r) ++ be_bytes 8 (time_nanos r).

(** The cursor over the record: the next [n] bytes.  The length was checked. *)
Definition take_bytes (n : nat) : ST bytes unit bytes := fun rest => (drop n rest, Ok (take n rest)).

Definition st_ok_or {S A} (o : option A) : ST S unit A := st_lift (ok_or tt o).

Definition first_byte (l : bytes) : Z := default 0 (head l).

Definition record_fields : ST bytes unit LedgerRecord :=
  version <-- take_bytes 2 ;;
  if negb (be_val version =? RECORD_VERSION) then st_err tt
  else
    code <-- take_bytes 1 ;;
    k <-- st_ok_or (kind_from_code (first_byte code)) ;;
    d <-- take_bytes 1 ;;
    raw <-- take_bytes 16 ;;
    w <-- st_ok_or (ok (fixed_id raw)) ;;
    raw <-- take_bytes 8 ;;
    g <-- st_ok_or (ok (lease_new (be_val raw))) ;;
    digest <-- take_bytes 32 ;;
    o <-- take_bytes 16 ;;
    i <-- take_bytes 16 ;;
    f <-- take_bytes 32 ;;
    refs <-- take_bytes REFS_LEN ;;
    ident <-- take_bytes IDENTITY_LEN ;;
    time <-- take_bytes 8 ;;
    st_ret (mkRecord k (first_byte d) w g digest (ok (fixed_id o)) (ok (fixed_id i)) (ok (fixed_id f))
              (refs_decode refs) (identity_decode ident) (be_val time)).

Section codec.
Context (sha256 : bytes -> bytes).

Definition record_encode (r : LedgerRecord) : bytes := record_body r ++ sha256 (record_body r).

Definition record_decode (raw : bytes) : option LedgerRecord :=
  if negb (Nat.eqb (length raw) RECORD_LEN) || negb (bool_decide (take 8 raw = RECORD_MAGIC)) then None
  else if negb (bool_decide (sha256 (take BODY_LEN raw) = drop BODY_LEN raw)) then None
  else ok (record_fields (drop 8 raw)).2.
End codec.

(** * The projection ([fold.rs]) *)

Inductive TransferStep : Type :=
| Step_Identity | Step_Deadline | Step_Entropy | Step_LaunchPage | Step_Disk | Step_Network | Step_Control | Step_Commit.

#[export] Instance TransferStep_eq_dec : EqDecision TransferStep.
Proof. solve_decision. Defined.

Definition STEP_ALL : list TransferStep :=
  [Step_Identity; Step_Deadline; Step_Entropy; Step_LaunchPage; Step_Disk; Step_Network; Step_Control; Step_Commit].

Definition step_code (s : TransferStep) : Z :=
  match s with
  | Step_Identity => 1 | Step_Deadline => 2 | Step_Entropy => 3 | Step_LaunchPage => 4 | Step_Disk => 5
  | Step_Network => 6 | Step_Control => 7 | Step_Commit => 8
  end.

Definition step_from_code (code : Z) : option TransferStep :=
  match code with
  | 1 => Some Step_Identity | 2 => Some Step_Deadline | 3 => Some Step_Entropy | 4 => Some Step_LaunchPage
  | 5 => Some Step_Disk | 6 => Some Step_Network | 7 => Some Step_Control | 8 => Some Step_Commit
  | _ => None
  end.

Inductive ReconcileDisposition : Type := Terminated | Released | Retained.

#[export] Instance ReconcileDisposition_eq_dec : EqDecision ReconcileDisposition.
Proof. solve_decision. Defined.

Definition disposition_code (d : ReconcileDisposition) : Z :=
  match d with Terminated => 1 | Released => 2 | Retained => 3 end.

Definition disposition_from_code (code : Z) : option ReconcileDisposition :=
  match code with 1 => Some Terminated | 2 => Some Released | 3 => Some Retained | _ => None end.

Record WorkerLedgerEntry : Type := mkEntry {
  entry_worker : WorkerId;
  entry_key : PoolKeyDigest;
  entry_phase : Phase;
  entry_generation : LeaseGeneration;
  entry_operation : option OperationId;
  entry_instance : option InstanceId;
  entry_fingerprint : option RequestFingerprint;
  entry_resources : ResourceRefs;
  entry_identity : option WorkerIdentity;
  last_step : option TransferStep;
  was_assigned : bool;
  suspect : bool;
  entry_records : Z
}.

Inductive IoErrorKind : Type := IoErrorKind_AlreadyExists | IoErrorKind_Other.

Inductive LedgerError : Type :=
| LedgerError_Open (kind : IoErrorKind)
| LedgerError_Write (seq : Z) (kind : IoErrorKind)
| LedgerError_Contended (seq : Z)
| LedgerError_Read (kind : IoErrorKind)
| LedgerError_Corrupt (seq : Z)
| LedgerError_Invariant (worker : WorkerId) (kind : RecordKind).

Notation Entries := (gmap WorkerId WorkerLedgerEntry).

Definition fresh (r : LedgerRecord) : WorkerLedgerEntry :=
  mkEntry (worker r) (key r) Constructing (lease_generation r) None None None (resources r) (identity r) None
    false false 1.

Definition moves_to (k : RecordKind) : option Phase :=
  match k with
  | Kind_Sterile => Some Sterile
  | Kind_ConstructFailed | Kind_Dead => Some Dead
  | Kind_Claiming => Some Claiming
  | Kind_Assigned => Some Assigned
  | Kind_Running => Some Running
  | Kind_Destroying => Some Destroying
  | Kind_Constructing | Kind_Assigning | Kind_TransferStep | Kind_TransferFault | Kind_Suspect | Kind_Reconciled => None
  end.

Definition generation_follows (current : LeaseGeneration) (r : LedgerRecord) : bool :=
  let expected := if decide (kind r = Kind_Claiming) then ok (lease_next current) else Some current in
  bool_decide (expected = Some (lease_generation r)).

Definition set_phase (p : Phase) (e : WorkerLedgerEntry) : WorkerLedgerEntry :=
  mkEntry (entry_worker e) (entry_key e) p (entry_generation e) (entry_operation e) (entry_instance e)
    (entry_fingerprint e) (entry_resources e) (entry_identity e) (last_step e) (was_assigned e) (suspect e)
    (entry_records e).
Definition set_refs (refs : ResourceRefs) (e : WorkerLedgerEntry) : WorkerLedgerEntry :=
  mkEntry (entry_worker e) (entry_key e) (entry_phase e) (entry_generation e) (entry_operation e) (entry_instance e)
    (entry_fingerprint e) refs (entry_identity e) (last_step e) (was_assigned e) (suspect e) (entry_records e).

(** [entry.records += 1; entry.lease_generation = record.lease_generation] *)
Definition count_record (g : LeaseGeneration) (e : WorkerLedgerEntry) : WorkerLedgerEntry :=
  mkEntry (entry_worker e) (entry_key e) (entry_phase e) g (entry_operation e) (entry_instance e)
    (entry_fingerprint e) (entry_resources e) (entry_identity e) (last_step e) (was_assigned e) (suspect e)
    ((entry_records e + 1) mod 2 ^ 32).

(** The match of [fold] over the kind of the record; [None] is the invariant violation. *)
Definition fold_kind (r : LedgerRecord) (e : WorkerLedgerEntry) : option WorkerLedgerEntry :=
  match kind r with
  | Kind_Constructing => None
  | Kind_Sterile =>
      if was_assigned e || negb (bool_decide (entry_phase e = Constructing)) then None
      else Some (mkEntry (entry_worker e) (entry_key e) Sterile (entry_generation e) (entry_operation e)
                   (entry_instance e) (entry_fingerprint e) (resources r) (identity r) (last_step e) (was_assigned e)
                   (suspect e) (entry_records e))
  | Kind_ConstructFailed | Kind_Dead => Some (set_phase Dead e)
  | Kind_Claiming =>
      Some (mkEntry (entry_worker e) (entry_key e) Claiming (entry_generation e) (operation r) (entry_instance e)
              (fingerprint r) (entry_resources e) (entry_identity e) (last_step e) (was_assigned e) (suspect e)
              (entry_records e))
  | Kind_Assigning => Some (set_refs (resources r) e)
  | Kind_TransferStep =>
      Some (mkEntry (entry_worker e) (entry_key e) (entry_phase e) (entry_generation e) (entry_operation e)
              (entry_instance e) (entry_fingerprint e) (resources r) (entry_identity e) (step_from_code (detail r))
              (was_assigned e) (suspect e) (entry_records e))
  | Kind_TransferFault => Some e
  | Kind_Assigned =>
      Some (mkEntry (entry_worker e) (entry_key e) Assigned (entry_generation e) (entry_operation e) (instance r)
              (entry_fingerprint e) (resources r) (entry_identity e) (last_step e) true (suspect e) (entry_records e))
  | Kind_Running => Some (set_phase Running e)
  | Kind_Destroying => Some (set_phase Destroying e)
  | Kind_Suspect =>
      Some (mkEntry (entry_worker e) (entry_key e) (entry_phase e) (entry_generation e) (entry_operation e)
              (entry_instance e) (entry_fingerprint e) (entry_resources e) (entry_identity e) (last_step e)
              (was_assigned e) true (entry_records e))
  | Kind_Reconciled =>
      if decide (disposition_from_code (detail r) = Some Retained) then Some e else Some (set_phase Dead e)
  end.

Definition fold (entries : Entries) (r : LedgerRecord) : Result Entries LedgerError :=
  let invariant := LedgerError_Invariant (worker r) (kind r) in
  if decide (kind r = Kind_Constructing) then
    match entries !! worker r with
    | Some _ => Err invariant
    | None => Ok (<[worker r := fresh r]> entries)
    end
  else
    let? entry := ok_or invariant (entries !! worker r) in
    if decide (entry_phase entry = Dead) then Err invariant
    else if negb (generation_follows (entry_generation entry) r) then Err invariant
    else if match moves_to (kind r) with Some next => negb (may_transition_to (entry_phase entry) next) | None => false end
    then Err invariant
    else
      let? entry := ok_or invariant (fold_kind r (count_record (lease_generation r) entry)) in
      Ok (<[worker r := entry]> entries).

Fixpoint fold_all (entries : Entries) (rs : list LedgerRecord) : Result Entries LedgerError :=
  match rs with
  | [] => Ok entries
  | r :: rs => let? entries := fold entries r in fold_all entries rs
  end.

Definition entries_of (rs : list LedgerRecord) : Result Entries LedgerError := fold_all ∅ rs.

Record ClaimRecord : Type := mkClaimRecord {
  claim_operation : OperationId;
  claim_fingerprint : RequestFingerprint;
  claim_worker : WorkerId;
  claim_generation : LeaseGeneration;
  claim_class : Z
}.

Definition claim_record (r : LedgerRecord) : option ClaimRecord :=
  if decide (kind r = Kind_Claiming) then
    o ← operation r;
    f ← fingerprint r;
    Some (mkClaimRecord o f (worker r) (lease_generation r) (detail r))
  else None.

Definition claims_of (rs : list LedgerRecord) : list ClaimRecord := omap claim_record rs.

Definition claim_of (o : OperationId) (rs : list LedgerRecord) : option ClaimRecord :=
  head (filter (fun c => claim_operation c = o) (claims_of rs)).

(** * The directory ([ledger.rs]) *)

(** What the file system does with one append: the record is durable, the file could not be
    created, or it was created and the write or a sync failed, leaving [residue] behind when
    its removal failed too. *)
Inductive AppendIo : Type :=
| Io_Durable
| Io_CreateFailed (kind : IoErrorKind)
| Io_WriteFailed (kind : IoErrorKind) (residue : option bytes).

(** What it does with one read of the directory: whether the listing fails, and the opening or
    reading of each file. *)
Record ReadIo : Type := mkReadIo {
  list_io : option IoErrorKind;
  file_io : Z -> option IoErrorKind
}.

Definition read_fine : ReadIo := mkReadIo None (fun _ => None).

(** The record files in the order of their sequence numbers, and the next number. *)
Record Ledger : Type := mkLedger {
  ledger_files : list (Z * bytes);
  ledger_next : Z
}.

Section directory.
Context (sha256 : bytes -> bytes).

Definition ledger_open (files : list (Z * bytes)) : Ledger :=
  mkLedger files (default 0 (fst <$> last files) + 1).

Definition ledger_append (io : AppendIo) (r : LedgerRecord) : ST Ledger LedgerError Z :=
  fun l =>
    let seq := ledger_next l in
    let next := (seq + 1) mod 2 ^ 64 in
    let created (contents : bytes) := mkLedger (ledger_files l ++ [(seq, contents)]) next in
    if bool_decide (seq ∈ (ledger_files l).*1) then (mkLedger (ledger_files l) next, Err (LedgerError_Contended seq))
    else match io with
    | Io_CreateFailed IoErrorKind_AlreadyExists =>
        (mkLedger (ledger_files l) next, Err (LedgerError_Contended seq))
    | Io_CreateFailed kind => (mkLedger (ledger_files l) next, Err (LedgerError_Write seq kind))
    | Io_WriteFailed kind None => (mkLedger (ledger_files l) next, Err (LedgerError_Write seq kind))
    | Io_WriteFailed kind (Some residue) => (created residue, Err (LedgerError_Write seq kind))
    | Io_Durable => (created (record_encode sha256 r), Ok seq)
    end.

(** Each file is opened and read whole, then decoded. *)
Fixpoint read_files (io : ReadIo) (files : list (Z * bytes)) : Result (list (Z * LedgerRecord)) LedgerError :=
  match files with
  | [] => Ok []
  | (seq, raw) :: files =>
      match file_io io seq with
      | Some kind => Err (LedgerError_Read kind)
      | None =>
          let? r := ok_or (LedgerError_Corrupt seq) (record_decode sha256 raw) in
          let? rs := read_files io files in
          Ok ((seq, r) :: rs)
      end
  end.

Definition ledger_records (io : ReadIo) (files : list (Z * bytes)) : Result (list (Z * LedgerRecord)) LedgerError :=
  match list_io io with
  | Some kind => Err (LedgerError_Read kind)
  | None => read_files io files
  end.

Definition ledger_entries (io : ReadIo) (l : Ledger) : Result Entries LedgerError :=
  let? rs := ledger_records io (ledger_files l) in entries_of rs.*2.

Definition ledger_claims (io : ReadIo) (l : Ledger) : Result (list ClaimRecord) LedgerError :=
  map_ok (fun rs => claims_of rs.*2) (ledger_records io (ledger_files l)).

Definition ledger_claim_of (io : ReadIo) (o : OperationId) (l : Ledger) : Result (option ClaimRecord) LedgerError :=
  map_ok (fun cs => head (filter (fun c => claim_operation c = o) cs)) (ledger_claims io l).
End directory.
