(* ===== verification/HostLedgerFacts.v ===== *)
(** The ledger of the host daemon: every record is read back as it was written, the directory
    refines an append-only list of records, and a list of records that folds is a legal
    history of every worker. *)

From Stdlib Require Import Sorted.
From S2P Require Import Prelude Bytes Wire HostState HostStateFacts HostLedger.
From stdpp Require Import options.

(** * Codecs *)

Lemma fixed_id_ok n raw : id_ok n raw -> ok (fixed_id raw) = Some raw.
Proof. intros [_ Hz]. unfold fixed_id. change (forallb _ raw) with (all_zero raw). by rewrite Hz. Qed.

Lemma fixed_id_zeroes n : ok (fixed_id (zeroes n)) = None.
Proof. unfold fixed_id. change (forallb _ (zeroes n)) with (all_zero (zeroes n)). by rewrite all_zero_zeroes. Qed.

Definition opt_ok {A} (P : A -> Prop) (o : option A) : Prop := match o with Some x => P x | None => True end.

#[export] Instance opt_ok_dec {A} (P : A -> Prop) `{!forall x, Decision (P x)} o : Decision (opt_ok P o).
Proof. destruct o; cbn; apply _. Defined.

Lemma opt_id_length n o : opt_ok (id_ok n) o -> length (default (zeroes n) o) = n.
Proof. destruct o as [raw | ]; [by intros [? _] | intros _; apply length_zeroes]. Qed.

Lemma opt_id_back n o : opt_ok (id_ok n) o -> ok (fixed_id (default (zeroes n) o)) = o.
Proof. destruct o; [apply fixed_id_ok | intros _; apply fixed_id_zeroes]. Qed.

Definition identity_ok (i : WorkerIdentity) : Prop :=
  is_uint 64 (identity_process i) /\ length (identity_token i) = 16%nat /\ all_zero (identity_encode i) = false.

#[export] Instance identity_ok_dec i : Decision (identity_ok i).
Proof. unfold identity_ok. apply _. Defined.

Lemma identity_length o : opt_ok identity_ok o ->
  length (default (zeroes IDENTITY_LEN) (identity_encode <$> o)) = IDENTITY_LEN.
Proof.
  destruct o as [i | ]; [intros (_ & Hl & _) | intros _; apply length_zeroes].
  change (length (identity_encode i) = IDENTITY_LEN). unfold identity_encode. by rewrite length_app, length_be_bytes, Hl.
Qed.

Lemma identity_back o : opt_ok identity_ok o ->
  identity_decode (default (zeroes IDENTITY_LEN) (identity_encode <$> o)) = o.
Proof.
  destruct o as [[process token] | ]; [intros (Hp & Hl & Hz) | by intros _].
  cbn [fmap option_fmap option_map default from_option id]. unfold identity_decode. rewrite Hz. unfold identity_encode.
  cbn [identity_process identity_token] in *.
  rewrite take_app_length', drop_app_length' by by rewrite length_be_bytes. by rewrite be_val_bytes.
Qed.

Definition refs_ok (r : ResourceRefs) : Prop :=
  opt_ok (id_ok 16) (refs_head r) /\ opt_ok (fun b => id_ok 16 b.1 /\ 1 <= b.2 < 2 ^ 32) (refs_bundle r).

#[export] Instance refs_ok_dec r : Decision (refs_ok r).
Proof. unfold refs_ok. apply _. Defined.

Lemma refs_length r : refs_ok r -> length (refs_encode r) = REFS_LEN.
Proof.
  intros [Hh Hb]. unfold refs_encode. rewrite length_app, opt_id_length by done.
  destruct (refs_bundle r) as [[bundle g] | ]; cbn in Hb; [ | by rewrite length_zeroes].
  destruct Hb as [[Hl _] _]. by rewrite length_app, length_be_bytes, Hl.
Qed.

Lemma refs_back r : refs_ok r -> refs_decode (refs_encode r) = r.
Proof.
  intros [Hh Hb]. destruct r as [h b]. unfold refs_decode, refs_encode. cbn [refs_head refs_bundle] in *.
  pose proof (opt_id_length 16 h Hh) as Hl.
  replace (drop 32 (default (zeroes 16) h ++ match b with Some (bundle, g) => bundle ++ be_bytes 4 g | None => zeroes 20 end))
    with (drop 16 (drop 16 (default (zeroes 16) h ++
      match b with Some (bundle, g) => bundle ++ be_bytes 4 g | None => zeroes 20 end))) by by rewrite drop_drop.
  rewrite take_app_length', drop_app_length' by done. rewrite opt_id_back by done. f_equal.
  destruct b as [[bundle g] | ]; cbn in Hb.
  - destruct Hb as [Hid Hg]. destruct (Hid) as [Hlb _].
    rewrite take_app_length', drop_app_length', (fixed_id_ok 16) by done. cbn [mbind option_bind].
    rewrite be_val_bytes by (unfold is_uint; cbn; lia). unfold cleanup_generation_new.
    destruct (Z.eqb_spec g 0); [lia | done].
  - change (take 16 (zeroes 20)) with (zeroes 16). by rewrite fixed_id_zeroes.
Qed.

Record record_ok (r : LedgerRecord) : Prop := {
  ok_worker : id_ok 16 (worker r);
  ok_generation : 1 <= lease_generation r <= LEASE_MAX;
  ok_key : length (key r) = 32%nat;
  ok_operation : opt_ok (id_ok 16) (operation r);
  ok_instance : opt_ok (id_ok 16) (instance r);
  ok_fingerprint : opt_ok (id_ok 32) (fingerprint r);
  ok_resources : refs_ok (resources r);
  ok_identity : opt_ok identity_ok (identity r);
  ok_time : is_uint 64 (time_nanos r)
}.

Lemma take_bytes_app {A} n l rest (k : bytes -> ST bytes unit A) : length l = n ->
  st_bind (take_bytes n) k (l ++ rest) = k l rest.
Proof. intros Hl. unfold st_bind, take_bytes. by rewrite take_app_length', drop_app_length'. Qed.

Lemma st_ok_or_Some {S A B} (x : A) (k : A -> ST S unit B) s : st_bind (st_ok_or (Some x)) k s = k x s.
Proof. done. Qed.

Lemma kind_from_code_code k : kind_from_code (kind_code k) = Some k.
Proof. by destruct k. Qed.

Lemma lease_new_ok g : 1 <= g <= LEASE_MAX -> ok (lease_new g) = Some g.
Proof.
  intros Hg. unfold lease_new. destruct (Z.eqb_spec g 0); [lia | ]. rewrite Z.gtb_ltb.
  destruct (Z.ltb_spec LEASE_MAX g); [lia | done].
Qed.

Lemma record_body_length r : record_ok r -> length (record_body r) = BODY_LEN.
Proof.
  intros [[Hw _] _ Hk Ho Hi Hf Hr Hid _]. unfold record_body. rewrite !length_app, !length_be_bytes, Hw, Hk.
  rewrite !opt_id_length, refs_length, identity_length by done. done.
Qed.

Lemma record_fields_back r rest : record_ok r ->
  record_fields (drop 8 (record_body r ++ rest)) = (rest, Ok r).
Proof.
  intros [Hw Hg Hk Ho Hi Hf Hr Hid Ht]. unfold record_body. rewrite <- !app_assoc, drop_app_length' by done.
  unfold record_fields.
  rewrite take_bytes_app by apply length_be_bytes. rewrite be_val_bytes by done. cbn [negb Z.eqb RECORD_VERSION Pos.eqb].
  change ([kind_code (kind r); detail r] ++ worker r ++ ?rest)
    with ([kind_code (kind r)] ++ [detail r] ++ worker r ++ rest).
  rewrite take_bytes_app by done. cbn [first_byte head default from_option id].
  rewrite kind_from_code_code, st_ok_or_Some.
  rewrite take_bytes_app by done. rewrite take_bytes_app by apply Hw. rewrite (fixed_id_ok 16), st_ok_or_Some by done.
  rewrite take_bytes_app by apply length_be_bytes. change LEASE_MAX with (2 ^ 56 - 1) in Hg.
  rewrite be_val_bytes by (unfold is_uint; cbn; lia). rewrite lease_new_ok, st_ok_or_Some by done.
  rewrite take_bytes_app by done. rewrite !take_bytes_app by by apply opt_id_length.
  rewrite take_bytes_app by by apply refs_length. rewrite take_bytes_app by by apply identity_length.
  rewrite take_bytes_app by apply length_be_bytes.
  unfold st_ret. rewrite !opt_id_back, refs_back, identity_back, be_val_bytes by done. by destruct r.
Qed.

Section roundtrip.
Context (sha256 : bytes -> bytes) (Hsha : forall m, length (sha256 m) = 32%nat).

Lemma record_decode_encode r : record_ok r -> record_decode sha256 (record_encode sha256 r) = Some r.
Proof using Hsha.
  intros Hr. pose proof (record_body_length r Hr) as Hl. unfold record_decode, record_encode.
  rewrite length_app, Hl, Hsha. change (BODY_LEN + 32)%nat with RECORD_LEN. rewrite Nat.eqb_refl. cbn [negb orb].
  assert (take 8 (record_body r ++ sha256 (record_body r)) = RECORD_MAGIC) as ->.
  { unfold record_body. by rewrite <- app_assoc, take_app_length' by done. }
  rewrite bool_decide_true by done. cbn [negb].
  rewrite take_app_length', drop_app_length', bool_decide_true by done. cbn [negb].
  by rewrite record_fields_back.
Qed.
End roundtrip.

(** * The directory refines an append-only list of records *)

Section journal.
Context (sha256 : bytes -> bytes) (Hsha : forall m, length (sha256 m) = 32%nat).

(** The directory [l] holds exactly the records [rs], below the next sequence number. *)
Record journals (l : Ledger) (rs : list LedgerRecord) : Prop := {
  journal_records : map_ok (fun found => found.*2) (ledger_records sha256 read_fine (ledger_files l)) = Ok rs;
  journal_next : Forall (fun file => file.1 < ledger_next l) (ledger_files l)
}.

Lemma ledger_records_snoc files rs seq raw :
  map_ok (fun found => found.*2) (ledger_records sha256 read_fine files) = Ok rs ->
  map_ok (fun found => found.*2) (ledger_records sha256 read_fine (files ++ [(seq, raw)])) =
  match record_decode sha256 raw with Some r => Ok (rs ++ [r]) | None => Err (LedgerError_Corrupt seq) end.
Proof using Type.
  unfold ledger_records. cbn [list_io read_fine]. revert rs. induction files as [ | [seq' raw'] files IH]; intros rs; cbn.
  - intros [= <-]. by destruct (record_decode sha256 raw).
  - destruct (record_decode sha256 raw') as [r' | ]; cbn; [ | done].
    destruct (read_files sha256 read_fine files) as [found | ]; cbn; [ | done]. intros [= <-].
    specialize (IH _ eq_refl). destruct (read_files sha256 read_fine (files ++ [(seq, raw)])) as [found' | ]; cbn in *;
      destruct (record_decode sha256 raw); cbn in *; congruence.
Qed.

(** The failure a read of the directory meets first. *)
Definition read_fault (io : ReadIo) (l : Ledger) : option IoErrorKind :=
  match list_io io with Some kind => Some kind | None => head (omap (file_io io) (ledger_files l).*1) end.

Lemma read_files_fault io files found : read_files sha256 read_fine files = Ok found ->
  read_files sha256 io files = match head (omap (file_io io) files.*1) with Some kind => Err (LedgerError_Read kind) | None => Ok found end.
Proof using Type.
  revert found. induction files as [ | [seq raw] files IH]; intros found; cbn; [by intros [= <-] | ].
  destruct (record_decode sha256 raw) as [r | ]; cbn; [ | done]. intros (found' & Hf & [= <-])%bind_Ok.
  destruct (file_io io seq); cbn; [done | ]. rewrite (IH _ Hf). by destruct (head _).
Qed.

Lemma journals_entries l rs io : journals l rs ->
  ledger_entries sha256 io l = match read_fault io l with Some kind => Err (LedgerError_Read kind) | None => entries_of rs end /\
  (forall o, ledger_claim_of sha256 io o l = match read_fault io l with Some kind => Err (LedgerError_Read kind) | None => Ok (claim_of o rs) end).
Proof using Type.
  intros [Hr _]. unfold ledger_entries, ledger_claim_of, ledger_claims, ledger_records, read_fault in *. cbn [list_io read_fine] in Hr.
  destruct (list_io io); [done | ]. destruct (read_files sha256 read_fine (ledger_files l)) as [found | ] eqn:Hf; cbn in Hr; [ | done].
  injection Hr as <-. rewrite (read_files_fault io _ _ Hf). by destruct (head _).
Qed.

Lemma journals_fresh l rs : journals l rs -> ledger_next l ∉ (ledger_files l).*1.
Proof using Type.
  intros [_ Hn] ([seq raw] & Heq & Hin)%list_elem_of_fmap. rewrite Forall_forall in Hn.
  specialize (Hn _ Hin). cbn in *. lia.
Qed.

(** C13: the ledger directory is an append-only list of records.  An append that returns a
    sequence number has added exactly its record, which is read back as it was written; an
    append that failed and whose file was removed has added nothing; and when it failed and the
    file was left behind, the ledger either holds the record it decodes to, as if it had been
    appended, or refuses to be read at all.  What the daemon reads (its entries and the claim of
    an operation) is the projection of that list, or the first failure of the directory or of a
    file. *)
Theorem ledger_refines l rs io r : journals l rs -> record_ok r -> 0 <= ledger_next l < 2 ^ 64 - 1 ->
  let '(l', res) := ledger_append sha256 io r l in
  match io with
  | Io_Durable => res = Ok (ledger_next l) /\ journals l' (rs ++ [r])
  | Io_CreateFailed _ | Io_WriteFailed _ None => is_ok res = false /\ journals l' rs
  | Io_WriteFailed _ (Some residue) => is_ok res = false /\
      match record_decode sha256 residue with
      | Some left_behind => journals l' (rs ++ [left_behind])
      | None => ledger_entries sha256 read_fine l' = Err (LedgerError_Corrupt (ledger_next l))
      end
  end /\
  forall rio,
    ledger_entries sha256 rio l = match read_fault rio l with Some kind => Err (LedgerError_Read kind) | None => entries_of rs end /\
    (forall o, ledger_claim_of sha256 rio o l =
       match read_fault rio l with Some kind => Err (LedgerError_Read kind) | None => Ok (claim_of o rs) end).
Proof using Hsha.
  intros Hj Hr Hn. pose proof (fun rio => journals_entries l rs rio Hj) as Hent. pose proof (journals_fresh l rs Hj) as Hfresh.
  destruct (Hj) as [Hrec Hnext]. unfold ledger_append. rewrite bool_decide_false by done.
  rewrite (Z.mod_small (ledger_next l + 1)) by lia.
  assert (Forall (fun file => file.1 < ledger_next l + 1) (ledger_files l)) as Hnext'.
  { eapply Forall_impl; [exact Hnext | ]. cbn. intros; lia. }
  assert (forall raw, Forall (fun file => file.1 < ledger_next l + 1) (ledger_files l ++ [(ledger_next l, raw)])) as Hsnoc.
  { intros raw. apply Forall_app. split; [done | ]. apply Forall_singleton. cbn. lia. }
  pose proof (fun raw => ledger_records_snoc _ _ (ledger_next l) raw Hrec) as Happ.
  destruct io as [ | [ | ] | ? [residue | ]]; (split; [ | exact Hent]).
  - split; [done | ]. split; [ | apply Hsnoc]. cbn [ledger_files]. by rewrite Happ, record_decode_encode.
  - by repeat split.
  - by repeat split.
  - split; [done | ]. specialize (Happ residue). destruct (record_decode sha256 residue) as [left_behind | ].
    + split; [exact Happ | apply Hsnoc].
    + unfold ledger_entries. cbn [ledger_files].
      destruct (ledger_records sha256 read_fine (ledger_files l ++ [(ledger_next l, residue)])); cbn in Happ |- *; [done | ].
      by injection Happ as ->.
  - by repeat split.
Qed.
End journal.

(** * Histories *)

(** The phase a record puts its worker in. *)
Definition moved (r : LedgerRecord) : option Phase :=
  match kind r with
  | Kind_Constructing => Some Constructing
  | Kind_Reconciled => if decide (disposition_from_code (detail r) = Some Retained) then None else Some Dead
  | k => moves_to k
  end.

Definition moved_of (w : WorkerId) (r : LedgerRecord) : option Phase :=
  if decide (worker r = w) then moved r else None.

(** The phases the records put [w] in, newest first. *)
Definition visited (w : WorkerId) (rs : list LedgerRecord) : list Phase := rev (omap (moved_of w) rs).

(** A history of the table, which a reconciliation may close from any live phase. *)
Fixpoint lawful (l : list Phase) : Prop :=
  match l with
  | [] => True
  | [p] => p = Constructing
  | p :: (q :: _) as l => (may_transition_to q p = true \/ (q <> Dead /\ p = Dead)) /\ lawful l
  end.

Lemma visited_snoc w rs r :
  visited w (rs ++ [r]) = match moved_of w r with Some p => p :: visited w rs | None => visited w rs end.
Proof.
  unfold visited. rewrite omap_app, rev_app_distr. cbn. by destruct (moved_of w r).
Qed.

Lemma fold_all_app es rs rs' : fold_all es (rs ++ rs') = (let? es := fold_all es rs in fold_all es rs').
Proof.
  revert es. induction rs as [ | r rs IH]; intros es; cbn; [done | ]. destruct (fold es r); [apply IH | done].
Qed.

Lemma fold_all_snoc es rs r : fold_all es (rs ++ [r]) = (let? es := fold_all es rs in fold es r).
Proof. rewrite fold_all_app. destruct (fold_all es rs); [ | done]. cbn. by destruct (fold _ r). Qed.

Definition claims_by (w : WorkerId) (rs : list LedgerRecord) : nat :=
  length (filter (fun r => worker r = w /\ kind r = Kind_Claiming) rs).

Lemma claims_by_snoc w rs r : claims_by w (rs ++ [r]) =
  (claims_by w rs + if decide (worker r = w /\ kind r = Kind_Claiming) then 1 else 0)%nat.
Proof.
  unfold claims_by. rewrite filter_app, length_app. f_equal. rewrite filter_cons. by case_decide.
Qed.

Lemma fold_kind_moved r e e' : kind r <> Kind_Constructing -> fold_kind r e = Some e' ->
  entry_phase e' = default (entry_phase e) (moved r) /\ entry_generation e' = entry_generation e.
Proof.
  unfold fold_kind, moved. destruct (kind r); intros Hk Hf; try done; simplify_eq; try done.
  - destruct (was_assigned e || _); [done | ]. by simplify_eq.
  - case_decide; by simplify_eq.
Qed.

(** One record, folded: the entry moves as the record says, lawfully. *)
Lemma fold_Ok es r es' : fold es r = Ok es' ->
  exists e', es' = <[worker r := e']> es /\
  match es !! worker r with
  | None => kind r = Kind_Constructing /\ entry_phase e' = Constructing /\ entry_generation e' = lease_generation r
  | Some e => kind r <> Kind_Constructing /\ entry_phase e <> Dead /\ entry_phase e' = default (entry_phase e) (moved r) /\
      entry_generation e' = lease_generation r /\
      entry_generation e' = entry_generation e + (if decide (kind r = Kind_Claiming) then 1 else 0) /\
      match moved r with
      | Some p => may_transition_to (entry_phase e) p = true \/ p = Dead
      | None => True
      end
  end.
Proof.
  unfold fold. destruct (decide (kind r = Kind_Constructing)) as [Hc | Hc].
  - destruct (es !! worker r); [done | ]. intros [= <-]. by eexists.
  - destruct (es !! worker r) as [e | ] eqn:He; cbn [ok_or]; [ | done].
    destruct (decide (entry_phase e = Dead)); [done | ].
    destruct (generation_follows (entry_generation e) r) eqn:Hg; cbn [negb]; [ | done].
    destruct (match moves_to (kind r) with Some next => _ | None => _ end) eqn:Hm; [done | ].
    intros (e' & Hk & [= <-])%ok_or_bind_Ok. exists e'. split; [done | ].
    apply fold_kind_moved in Hk as [Hp Hg']; [ | done]. split; [done | ]. split; [done | ]. split; [exact Hp | ].
    split; [exact Hg' | ]. split.
    + rewrite Hg'. cbn. unfold generation_follows in Hg. apply bool_decide_eq_true in Hg. case_decide.
      * unfold lease_next, lease_new, checked_add_u64 in Hg. repeat case_match; cbn in *; simplify_eq; lia.
      * simplify_eq. lia.
    + unfold moved in *. destruct (kind r); cbn in Hm; try done; try (left; by apply negb_false_iff).
      case_decide; [done | by right].
Qed.

Lemma lawful_sorted p l : lawful (p :: l) -> Forall (fun q => phase_code q < phase_code p) l /\ NoDup (p :: l).
Proof.
  revert p. induction l as [ | q l IH]; intros p.
  - intros _. split; [done | apply NoDup_singleton].
  - intros [Hstep Hl]. destruct (IH q Hl) as [Hlt Hnd].
    assert (phase_code q < phase_code p) as Hqp by (destruct Hstep as [Hm | [? ->]]; destruct q; try destruct p; done).
    assert (Forall (fun x => phase_code x < phase_code p) (q :: l)) as Hall.
    { constructor; [done | ]. eapply Forall_impl; [exact Hlt | ]. cbn. intros; lia. }
    split; [done | ]. constructor; [ | done]. intros Hin. rewrite Forall_forall in Hall. specialize (Hall p Hin). lia.
Qed.

(** What the folded entries know of the records. *)
Definition tells (w : WorkerId) (rs : list LedgerRecord) (o : option WorkerLedgerEntry) : Prop :=
  match o with
  | None => visited w rs = [] /\ claims_by w rs = 0%nat
  | Some e => lawful (visited w rs) /\ head (visited w rs) = Some (entry_phase e) /\
      claims_by w rs = length (filter (fun p => p = Claiming) (visited w rs)) /\
      exists first, first ∈ rs /\ worker first = w /\ kind first = Kind_Constructing /\
        entry_generation e = lease_generation first + Z.of_nat (claims_by w rs)
  end.

Lemma moved_claiming r : moved r = Some Claiming <-> kind r = Kind_Claiming.
Proof. unfold moved. destruct (kind r); cbn; try done. by case_decide. Qed.

Lemma fold_tells rs es r es' w :
  (forall w, tells w rs (es !! w)) -> fold es r = Ok es' -> tells w (rs ++ [r]) (es' !! w).
Proof.
  intros Hinv Hf. apply fold_Ok in Hf as (e' & -> & Hf). specialize (Hinv w). unfold tells.
  rewrite visited_snoc, claims_by_snoc. unfold moved_of.
  destruct (decide (worker r = w)) as [<- | Hne]; last first.
  { rewrite lookup_insert_ne by done. rewrite decide_False by tauto. rewrite Nat.add_0_r.
    destruct (es !! w) as [e | ]; [ | done]. destruct Hinv as (? & ? & ? & first & ? & ?).
    repeat (split; [done | ]). exists first. split; [apply elem_of_app; by left | done]. }
  rewrite lookup_insert_eq. destruct (es !! worker r) as [e | ].
  - destruct Hinv as (Hlaw & Hhead & Hcl & first & Hin & Hw & Hk & Hgen).
    destruct Hf as (Hnc & Hdead & Hphase & Hlg & Hg & Hmove).
    destruct (visited (worker r) rs) as [ | q l] eqn:Hv; [done | ]. cbn in Hhead. injection Hhead as ->.
    assert (exists f, f ∈ rs ++ [r] /\ worker f = worker r /\ kind f = Kind_Constructing /\
      lease_generation f = lease_generation first) as (f & Hf1 & Hf2 & Hf3 & Hf4).
    { exists first. split; [apply elem_of_app; by left | done]. }
    assert (entry_generation e' = lease_generation f +
      Z.of_nat (claims_by (worker r) rs + (if decide (worker r = worker r /\ kind r = Kind_Claiming) then 1 else 0))) as Hgen'.
    { rewrite Hg, Hgen, Hf4. repeat case_decide; try tauto; lia. }
    destruct (moved r) as [p | ] eqn:Hmv; cbn in Hphase; rewrite Hphase.
    + split; [split; [destruct Hmove as [ | ->]; [by left | by right] | done] | ]. split; [done | ].
      split; [ | by exists f]. rewrite (filter_cons (fun p => p = Claiming) p), Hcl.
      pose proof (moved_claiming r) as Hmc. rewrite Hmv in Hmc.
      destruct (decide (p = Claiming)) as [-> | Hp].
      * rewrite decide_True by (split; [done | by apply Hmc]). cbn [length]. lia.
      * rewrite decide_False; [lia | ]. intros [_ Hk']. apply Hmc in Hk'. congruence.
    + split; [done | ]. split; [done | ]. split; [ | by exists f].
      rewrite decide_False; [lia | ]. intros [_ Hc]. apply moved_claiming in Hc. congruence.
  - destruct Hinv as [Hv Hc]. destruct Hf as (Hk & Hp & Hg). unfold moved. rewrite Hk, Hv, Hc, Hp.
    rewrite decide_False by (intros [_ ?]; congruence). cbn. split; [done | ]. split; [done | ]. split; [done | ].
    exists r. split; [apply elem_of_app; right; by left | ]. split; [done | ]. split; [done | lia].
Qed.

Lemma entries_tell rs es w : entries_of rs = Ok es -> tells w rs (es !! w).
Proof.
  revert es w. induction rs as [ | r rs IH] using rev_ind; intros es w; unfold entries_of.
  - intros [= <-]. by rewrite lookup_empty.
  - rewrite fold_all_snoc. intros (es' & Hes & Hf)%bind_Ok. eapply fold_tells; [ | exact Hf].
    intros w'. by apply IH.
Qed.

Lemma nodup_claiming (l : list Phase) : NoDup l -> (length (filter (fun p => p = Claiming) l) <= 1)%nat.
Proof.
  intros Hnd. apply (NoDup_filter (fun p => p = Claiming)) in Hnd.
  destruct (filter _ l) as [ | x [ | y k]] eqn:Hf; [cbn; lia | cbn; lia | ].
  assert (x ∈ filter (fun p => p = Claiming) l) as [-> _]%list_elem_of_filter by (rewrite Hf; by left).
  assert (y ∈ filter (fun p => p = Claiming) l) as [-> _]%list_elem_of_filter by (rewrite Hf; right; by left).
  apply NoDup_cons in Hnd as [Hn _]. destruct Hn. by left.
Qed.

(** C18: a ledger that folds proves on its own that every worker lived one legal life: the
    phases its records put a worker in are a path of the transition table from
    [Constructing] (which a reconciliation may close from any live phase), each phase at
    most once; so the worker was claimed at most once and was never sterile again after it
    was assigned; the entry is in the last of these phases, and its lease generation is the
    one it was constructed with, bumped by the claim alone. *)
Theorem ledger_history rs es w e : entries_of rs = Ok es -> es !! w = Some e ->
  lawful (visited w rs) /\ NoDup (visited w rs) /\ head (visited w rs) = Some (entry_phase e) /\
  (claims_by w rs <= 1)%nat /\
  exists first, first ∈ rs /\ worker first = w /\ kind first = Kind_Constructing /\
    entry_generation e = lease_generation first + Z.of_nat (claims_by w rs).
Proof.
  intros Hes He. pose proof (entries_tell rs es w Hes) as Ht. rewrite He in Ht. destruct Ht as (Hl & Hh & Hc & Hf).
  split; [done | ]. assert (NoDup (visited w rs)) as Hnd.
  { destruct (visited w rs); [apply NoDup_nil_2 | by apply lawful_sorted]. }
  split; [done | ]. split; [done | ]. split; [ | done]. rewrite Hc. by apply nodup_claiming.
Qed.

Definition worker7 : WorkerId := replicate 16 7.
Definition key9 : PoolKeyDigest := replicate 32 9.

(** The records of a worker that was constructed, claimed and torn down. *)
Definition life : list LedgerRecord :=
  [record_new 10 Kind_Constructing worker7 1 key9;
   with_identity (mkWorkerIdentity 44 (replicate 16 1)) (record_new 11 Kind_Sterile worker7 1 key9);
   with_fingerprint (replicate 32 3) (with_operation (replicate 16 5) (record_new 12 Kind_Claiming worker7 2 key9));
   record_new 13 Kind_TransferFault worker7 2 key9;
   record_new 14 Kind_Destroying worker7 2 key9;
   record_new 15 Kind_Dead worker7 2 key9].

Lemma ledger_history_witness : visited worker7 life = [Dead; Destroying; Claiming; Sterile; Constructing] /\
  (claims_by worker7 life <= 1)%nat.
Proof.
  split; [vm_compute; reflexivity | ].
  assert (exists es e, entries_of life = Ok es /\ es !! worker7 = Some e) as (es & e & Hes & He)
    by (eexists _, _; split; [vm_compute; reflexivity | vm_compute; reflexivity]).
  apply (ledger_history life es worker7 e Hes He).
Defined.

Lemma ledger_refines_witness :
  let sha (_ : bytes) : bytes := replicate 32 7 in
  exists l, journals sha l life /\
    journals sha (ledger_append sha (Io_WriteFailed IoErrorKind_Other None) (record_new 16 Kind_Constructing worker7 1 key9) l).1 life.
Proof.
  intros sha.
  pose (l := mkLedger (imap (fun n r => (Z.of_nat n + 1, record_encode sha r)) life) 7).
  assert (journals sha l life) as Hl.
  { split; [vm_compute; reflexivity | ]. repeat (apply Forall_cons; split; [vm_compute; reflexivity | ]). by apply Forall_nil. }
  exists l. split; [exact Hl | ].
  assert (record_ok (record_new 16 Kind_Constructing worker7 1 key9)) as Hr.
  { by split. }
  pose proof (ledger_refines sha ltac:(done) l life (Io_WriteFailed IoErrorKind_Other None) _ Hl Hr ltac:(done)) as H.
  destruct (ledger_append _ _ _ l) as [l' res]. exact (proj2 (proj1 H)).
Defined.
