(* ===== verification/HostPool.v ===== *)
(** One bounded pool of the host daemon ([pool.rs]): its limits ([pool/backpressure.rs]), its
    state, the slot table, occupancy ([pool/inspect.rs]), capacity ([pool/capacity.rs]) and
    the teardown of a worker in every phase ([pool/release.rs]).

    An operation runs to completion on the pool and on a world [W]: the clock, the ledger's
    file system, the worker launcher and the resource broker are the operations of a class
    over it. *)

From S2P Require Import Prelude Bytes Wire HostAdmission HostState HostLedger.
From stdpp Require Import options.

(** * Limits ([backpressure.rs]) *)

Inductive ExhaustedBehavior : Type := Exhausted_Reject | Exhausted_ConstructInline.

(** Durations are in nanoseconds. *)
Record Limits : Type := mkLimits {
  limit_min : nat;
  limit_target : nat;
  limit_max : nat;
  replenish_concurrency : nat;
  claim_deadline : Z;
  construction_deadline : Z;
  exhausted_behavior : ExhaustedBehavior;
  binding_limit : nat
}.

Inductive LimitsError : Type :=
| LimitsError_Ordering | LimitsError_ZeroMaximum | LimitsError_ZeroConcurrency | LimitsError_ZeroDeadline
| LimitsError_BindingLimit.

Definition limits_validate (l : Limits) : Result Limits LimitsError :=
  if Nat.eqb (limit_max l) 0 then Err LimitsError_ZeroMaximum
  else if Nat.ltb (limit_target l) (limit_min l) || Nat.ltb (limit_max l) (limit_target l) then Err LimitsError_Ordering
  else if Nat.eqb (replenish_concurrency l) 0 then Err LimitsError_ZeroConcurrency
  else if (claim_deadline l =? 0) || (construction_deadline l =? 0) then Err LimitsError_ZeroDeadline
  else if Nat.ltb (binding_limit l) (limit_max l) then Err LimitsError_BindingLimit
  else Ok l.

Record Occupancy : Type := mkOccupancy {
  occ_constructing : nat;
  occ_sterile : nat;
  occ_claiming : nat;
  occ_assigned : nat;
  occ_running : nat;
  occ_destroying : nat;
  occ_dead : nat
}.

Definition occupancy_live (o : Occupancy) : nat :=
  occ_constructing o + occ_sterile o + occ_claiming o + occ_assigned o + occ_running o + occ_destroying o.

Record Exhausted : Type := mkExhausted {
  exhausted_key : PoolKeyDigest;
  exhausted_occupancy : Occupancy;
  exhausted_max : nat;
  exhausted_by : ExhaustedBehavior
}.

Inductive OverloadGate : Type :=
| OverloadGate_ClaimRegistry | OverloadGate_DuplicateWorker | OverloadGate_ReplenishConcurrency
| OverloadGate_PoolMaximum.

Record Overloaded : Type := mkOverloaded {
  overloaded_gate : OverloadGate;
  overloaded_current : nat;
  overloaded_limit : nat
}.

(** * The seams of the pool ([launcher.rs], [resources.rs], [transfer.rs]) *)

Inductive Liveness : Type := Liveness_Alive | Liveness_Gone | Liveness_Unknown.

#[export] Instance Liveness_eq_dec : EqDecision Liveness.
Proof. solve_decision. Defined.

Inductive ConstructFault : Type :=
| ConstructFault_Timeout (budget : Z) | ConstructFault_Rejected | ConstructFault_Failed.

Inductive Removal : Type := Removed | AlreadyAbsent | RemovalUnknown.

Record DestroyOutcome : Type := mkDestroyOutcome {
  outcome_process : Removal;
  outcome_cgroup : Removal;
  destroy_complete : bool
}.

Inductive StartFault : Type := StartFault_Rejected | StartFault_Closed | StartFault_Timeout.

Inductive Resource : Type := Resource_Disk | Resource_Network | Resource_Control.

Inductive ResourceFaultKind : Type :=
| FaultKind_Exhausted | FaultKind_Denied | FaultKind_Timeout | FaultKind_Lease | FaultKind_Failed.

Record ResourceFault : Type := mkResourceFault {
  fault_resource : Resource;
  fault_kind : ResourceFaultKind
}.

Inductive ResourceLiveness : Type := ResourceLiveness_Present | ResourceLiveness_Absent | ResourceLiveness_Partial.

Record ResourceRelease : Type := mkResourceRelease {
  release_disk : Removal;
  release_network : Removal;
  release_complete : bool
}.

(** What a caller binds to one claim.  The network intent is the encoding [soma-netd] gives it. *)
Record AssignmentIntent : Type := mkAssignmentIntent {
  intent_instance : InstanceId;
  intent_operation : OperationId;
  intent_vsock_cid : Z;
  intent_network : bytes;
  intent_deadline : Z;
  launch_material : bytes
}.

(** The deadline in nanoseconds, saturated. *)
Definition deadline_nanos (i : AssignmentIntent) : Z := Z.min U64_MAX (intent_deadline i).

Definition intent_encode (i : AssignmentIntent) : bytes :=
  intent_instance i ++ intent_operation i ++ be_bytes 4 (intent_vsock_cid i) ++ be_bytes 8 (deadline_nanos i) ++
  launch_material i ++ intent_network i.

Inductive TransferFault : Type :=
| TransferFault_Rejected | TransferFault_Timeout | TransferFault_PartialAck | TransferFault_Closed
| TransferFault_ClaimDeadline | TransferFault_ForeignPool | TransferFault_Entropy
| TransferFault_Resource (fault : ResourceFault)
| TransferFault_Ledger (error : LedgerError)
| TransferFault_State (race : StateRace).

Section seams.
Context {D N : Type}.

(** [D] is an open descriptor, [N] the launch-page network values. *)
Record AssignedResources : Type := mkAssignedResources {
  disk_token : bytes;
  disk_head : D;
  network_bundle : bytes;
  network_generation : Z;
  network_launch : N;
  network_tap : D;
  control_cid : Z;
  control_channel : D
}.

Definition assigned_refs (a : AssignedResources) : ResourceRefs :=
  mkResourceRefs (Some (disk_token a)) (Some (network_bundle a, network_generation a)).

Inductive TransferFrame : Type :=
| Frame_Identity (worker : WorkerId) (generation : LeaseGeneration) (instance : InstanceId) (operation : OperationId)
| Frame_Deadline (nanos : Z)
| Frame_Entropy (seed : bytes)
| Frame_LaunchPage (material : bytes) (network : N)
| Frame_Disk (head : D)
| Frame_Network (tap : D)
| Frame_Control (vsock_cid : Z) (channel : D)
| Frame_Commit.

Definition frame_step (f : TransferFrame) : TransferStep :=
  match f with
  | Frame_Identity _ _ _ _ => Step_Identity | Frame_Deadline _ => Step_Deadline | Frame_Entropy _ => Step_Entropy
  | Frame_LaunchPage _ _ => Step_LaunchPage | Frame_Disk _ => Step_Disk | Frame_Network _ => Step_Network
  | Frame_Control _ _ => Step_Control | Frame_Commit => Step_Commit
  end.

Definition frames (worker : WorkerId) (generation : LeaseGeneration) (intent : AssignmentIntent) (seed : bytes)
    (resources : AssignedResources) : list TransferFrame :=
  [Frame_Identity worker generation (intent_instance intent) (intent_operation intent);
   Frame_Deadline (deadline_nanos intent);
   Frame_Entropy seed;
   Frame_LaunchPage (launch_material intent) (network_launch resources);
   Frame_Disk (disk_head resources);
   Frame_Network (network_tap resources);
   Frame_Control (control_cid resources) (control_channel resources);
   Frame_Commit].
End seams.
Arguments AssignedResources : clear implicits.
Arguments TransferFrame : clear implicits.

(** What a failed append leaves behind: nothing (it was never created, or was removed again), a
    part that no reading accepts, or the whole record (the sync failed, and so did the removal). *)
Inductive Residue : Type := Residue_Nothing | Residue_Part | Residue_Whole.

(** The world: the clock, the ledger's file system, the launcher ([H] is its handle on a live
    worker) and the broker ([R] is one prepared, unassigned resource set).

    [open_io] creates and lists the ledger's directory.  [read_io] lists it again and reads every
    file: it fails when the listing, an open or a read does, and with [Corrupt] when a file holds
    no whole record, as after a [Residue_Part]; else the reading has every whole record. *)
Class PoolWorld (W H R D N : Type) : Type := {
  instant_now : W -> W * Z;
  now_nanos : W -> W * Z;
  append_io : LedgerRecord -> W -> W * option (LedgerError * Residue);
  open_io : W -> W * option LedgerError;
  read_io : W -> W * option LedgerError;
  fresh_worker_id : W -> W * WorkerId;
  read_urandom : W -> W * option bytes;
  launcher_construct : WorkerId -> Z -> W -> W * Result H ConstructFault;
  launcher_probe : WorkerIdentity -> W -> W * Liveness;
  launcher_terminate : WorkerIdentity -> W -> W * DestroyOutcome;
  handle_identity : H -> WorkerIdentity;
  handle_deliver : TransferFrame D N -> H -> W -> W * (H * Result unit TransferFault);
  handle_start : H -> W -> W * (H * Result unit StartFault);
  handle_destroy : H -> W -> W * DestroyOutcome;
  broker_prepare : WorkerId -> Z -> W -> W * Result (R * ResourceRefs) ResourceFault;
  broker_assign : R -> AssignmentIntent -> W -> W * Result (AssignedResources D N) ResourceFault;
  broker_release_sterile : R -> W -> W * ResourceRelease;
  broker_release : ResourceRefs -> W -> W * ResourceRelease;
  broker_verify : ResourceRefs -> W -> W * ResourceLiveness;
}.

(** * Claims *)

Inductive ClaimClass : Type := ClaimClass_Prepared | ClaimClass_OnDemand.

Definition class_code (c : ClaimClass) : Z := match c with ClaimClass_Prepared => 1 | ClaimClass_OnDemand => 2 end.

Definition class_from_code (code : Z) : option ClaimClass :=
  match code with 1 => Some ClaimClass_Prepared | 2 => Some ClaimClass_OnDemand | _ => None end.

Record ClaimOutcome : Type := mkClaimOutcome {
  outcome_worker : WorkerId;
  outcome_generation : LeaseGeneration;
  outcome_operation : OperationId;
  outcome_class : ClaimClass
}.

Inductive Binding : Type :=
| Binding_InFlight (fingerprint : RequestFingerprint)
| Binding_Done (fingerprint : RequestFingerprint) (outcome : ClaimOutcome).

Record Registry : Type := mkRegistry {
  bindings : gmap OperationId Binding;
  order : list OperationId;
  recorded : gset OperationId
}.

Definition registry_default : Registry := mkRegistry ∅ [] ∅.

(** * The pool *)

Inductive DestroyReason : Type :=
| Reason_TransferFault | Reason_ClaimDeadline | Reason_Released | Reason_Evicted | Reason_StartFault | Reason_Reconcile
| Reason_Ledger | Reason_Dropped | Reason_IntentMismatch | Reason_ForeignPool.

Definition reason_code (r : DestroyReason) : Z :=
  match r with
  | Reason_TransferFault => 1 | Reason_ClaimDeadline => 2 | Reason_Released => 3 | Reason_Evicted => 4
  | Reason_StartFault => 5 | Reason_Reconcile => 6 | Reason_Ledger => 7 | Reason_Dropped => 8
  | Reason_IntentMismatch => 9 | Reason_ForeignPool => 10
  end.

(** A handle typed for phase [S] and the slot it shares, by its number in the arena. *)
Record Held (S : Phase) : Type := mkHeld {
  held_slot : nat;
  held_worker : Worker S
}.
Arguments mkHeld {S} _ _.
Arguments held_slot {S} _.
Arguments held_worker {S} _.

Inductive OwnedWorker : Type :=
| OwnedWorker_Assigned (h : Held Assigned)
| OwnedWorker_Running (h : Held Running).

Definition owned_slot (o : OwnedWorker) : nat :=
  match o with OwnedWorker_Assigned h => held_slot h | OwnedWorker_Running h => held_slot h end.

Record ReleaseEvidence : Type := mkReleaseEvidence {
  evidence_worker : WorkerId;
  evidence_generation : LeaseGeneration;
  evidence_reason : DestroyReason;
  evidence_destroyed : DestroyOutcome;
  evidence_released : ResourceRelease;
  evidence_ledger : bool
}.

Record Disposition : Type := mkDisposition {
  disposition_destroyed : DestroyOutcome;
  disposition_released : ResourceRelease
}.

Definition absent : WorkerIdentity := mkWorkerIdentity 0 (zeroes 16).

Definition no_process : DestroyOutcome := mkDestroyOutcome AlreadyAbsent AlreadyAbsent true.

Section pool.
Context {W H R D N P : Type} `{PoolWorld W H R D N, NumaPlacement P}.

Record Prepared : Type := mkPrepared {
  prepared_handle : H;
  prepared_sterile : R;
  prepared_refs : ResourceRefs;
  prepared_identity : WorkerIdentity
}.

Record Owned : Type := mkOwned {
  owned_worker : OwnedWorker;
  owned_handle : option H;
  owned_starting : bool;
  owned_identity : WorkerIdentity;
  owned_refs : ResourceRefs;
  owned_instance : InstanceId;
  owned_operation : OperationId;
  owned_reservation : option Reservation;
  owned_launch : option N
}.

(** The slots ever made are an arena, by number; [table] is the [Vec<Arc<Slot>>] of the pool.
    [pool_records] are the whole records in the ledger's directory. *)
Record Pool : Type := mkPool {
  pool_digest : PoolKeyDigest;
  pool_limits : Limits;
  pool_shape : ValidShape;
  arena : nat -> Slot;
  arena_next : nat;
  table : list nat;
  prepared : gmap WorkerId Prepared;
  owned : gmap WorkerId Owned;
  registry : Registry;
  in_flight : nat;
  reconciled : bool;
  pool_records : list LedgerRecord;
  admission : Admission P;
  world : W
}.

Definition set_arena (f : nat -> Slot) (p : Pool) : Pool :=
  mkPool (pool_digest p) (pool_limits p) (pool_shape p) f (arena_next p) (table p) (prepared p) (owned p) (registry p)
    (in_flight p) (reconciled p) (pool_records p) (admission p) (world p).
Definition set_slots (f : nat -> Slot) (next : nat) (t : list nat) (p : Pool) : Pool :=
  mkPool (pool_digest p) (pool_limits p) (pool_shape p) f next t (prepared p) (owned p) (registry p)
    (in_flight p) (reconciled p) (pool_records p) (admission p) (world p).
Definition set_prepared (m : gmap WorkerId Prepared) (p : Pool) : Pool :=
  mkPool (pool_digest p) (pool_limits p) (pool_shape p) (arena p) (arena_next p) (table p) m (owned p) (registry p)
    (in_flight p) (reconciled p) (pool_records p) (admission p) (world p).
Definition set_owned (m : gmap WorkerId Owned) (p : Pool) : Pool :=
  mkPool (pool_digest p) (pool_limits p) (pool_shape p) (arena p) (arena_next p) (table p) (prepared p) m (registry p)
    (in_flight p) (reconciled p) (pool_records p) (admission p) (world p).
Definition set_registry (r : Registry) (p : Pool) : Pool :=
  mkPool (pool_digest p) (pool_limits p) (pool_shape p) (arena p) (arena_next p) (table p) (prepared p) (owned p) r
    (in_flight p) (reconciled p) (pool_records p) (admission p) (world p).
Definition set_in_flight (n : nat) (p : Pool) : Pool :=
  mkPool (pool_digest p) (pool_limits p) (pool_shape p) (arena p) (arena_next p) (table p) (prepared p) (owned p)
    (registry p) n (reconciled p) (pool_records p) (admission p) (world p).
Definition set_reconciled (b : bool) (p : Pool) : Pool :=
  mkPool (pool_digest p) (pool_limits p) (pool_shape p) (arena p) (arena_next p) (table p) (prepared p) (owned p)
    (registry p) (in_flight p) b (pool_records p) (admission p) (world p).
Definition set_records (rs : list LedgerRecord) (p : Pool) : Pool :=
  mkPool (pool_digest p) (pool_limits p) (pool_shape p) (arena p) (arena_next p) (table p) (prepared p) (owned p)
    (registry p) (in_flight p) (reconciled p) rs (admission p) (world p).
Definition set_admission (a : Admission P) (p : Pool) : Pool :=
  mkPool (pool_digest p) (pool_limits p) (pool_shape p) (arena p) (arena_next p) (table p) (prepared p) (owned p)
    (registry p) (in_flight p) (reconciled p) (pool_records p) a (world p).
Definition set_world (w : W) (p : Pool) : Pool :=
  mkPool (pool_digest p) (pool_limits p) (pool_shape p) (arena p) (arena_next p) (table p) (prepared p) (owned p)
    (registry p) (in_flight p) (reconciled p) (pool_records p) (admission p) w.

(** A call on the world. *)
Definition in_world {E A} (c : W -> W * A) : ST Pool E A :=
  fun p => let '(w, a) := c (world p) in (set_world w p, Ok a).

(** The outcome of a call that may fail, as a value. *)
Definition st_try {S E E' A} (c : ST S E A) : ST S E' (Result A E) :=
  fun s => let '(s, r) := c s in (s, Ok r).

(** A call on the admission the pools share. *)
Definition in_admission {E A} (c : Admission P -> Admission P * A) : ST Pool E A :=
  fun p => let '(a, x) := c (admission p) in (set_admission a p, Ok x).

(** A call on one shared slot. *)
Definition on_slot {E A} (i : nat) (c : ST Slot E A) : ST Pool E A :=
  fun p => let '(s, r) := c (arena p i) in
           (set_arena (fun j => if Nat.eqb j i then s else arena p j) p, r).

(** * The slot table *)

Definition slot_phase (p : Pool) (i : nat) : Phase := packed_phase (observe (arena p i)).

Definition count_phase (p : Pool) (q : Phase) : nat := length (filter (fun i => slot_phase p i = q) (table p)).

Definition occupancy (p : Pool) : Occupancy :=
  mkOccupancy (count_phase p Constructing) (count_phase p Sterile) (count_phase p Claiming) (count_phase p Assigned)
    (count_phase p Running) (count_phase p Destroying) (count_phase p Dead).

Definition find_slot (p : Pool) (w : WorkerId) : option nat :=
  head (filter (fun i => slot_id (arena p i) = w) (table p)).

Definition add_slot (s : Slot) : ST Pool Overloaded nat :=
  p <-- st_get ;;
  let live := filter (fun i => slot_phase p i <> Dead) (table p) in
  st_modify (set_slots (arena p) (arena_next p) live) ;;;
  if existsb (fun i => bool_decide (slot_id (arena p i) = slot_id s)) live
  then st_err (mkOverloaded OverloadGate_DuplicateWorker 1 1)
  else if Nat.leb (limit_max (pool_limits p)) (length live)
  then st_err (mkOverloaded OverloadGate_PoolMaximum (length live) (limit_max (pool_limits p)))
  else
    let i := arena_next p in
    st_modify (set_slots (fun j => if Nat.eqb j i then s else arena p j) (S i) (live ++ [i])) ;;;
    st_ret i.

(** * The ledger *)

Definition keep_record {E} (r : LedgerRecord) : ST Pool E unit :=
  st_modify (fun p => set_records (pool_records p ++ [r]) p).

(** [Ledger::append]: the record is there once it succeeds, and may be there when it fails. *)
Definition record (r : LedgerRecord) : ST Pool LedgerError unit :=
  failed <-- in_world (append_io r) ;;
  match failed with
  | None => keep_record r
  | Some (e, Residue_Whole) => keep_record r ;;; st_err e
  | Some (e, Residue_Nothing) | Some (e, Residue_Part) => st_err e
  end.

(** [Ledger::records], of a directory whose whole records are [records]. *)
Definition ledger_load (records : list LedgerRecord) (w : W) : W * Result (list LedgerRecord) LedgerError :=
  let '(w, failed) := read_io w in
  (w, match failed with Some e => Err e | None => Ok records end).

Definition ledger_read : ST Pool LedgerError (list LedgerRecord) :=
  p <-- st_get ;;
  loaded <-- in_world (ledger_load (pool_records p)) ;;
  st_lift loaded.

(** [Record::new] under the pool's key, at the present time. *)
Definition new_record {E} (k : RecordKind) (w : WorkerId) (g : LeaseGeneration) : ST Pool E LedgerRecord :=
  p <-- st_get ;;
  now <-- in_world now_nanos ;;
  st_ret (record_new now k w g (pool_digest p)).

(** * Capacity ([capacity.rs]) *)

Definition reserve_capacity : ST Pool CapacityRejection Reservation :=
  p <-- st_get ;;
  r <-- in_admission (reserve (pool_shape p)) ;;
  st_lift r.

Definition release_capacity {E} (r : option Reservation) : ST Pool E unit :=
  match r with
  | Some r => in_admission (fun a => (release r a, tt))
  | None => st_ret tt
  end.

Definition capacity_launched {E} (r : option Reservation) : ST Pool E (option Reservation) :=
  match r with
  | Some r => r <-- in_admission (launched r) ;; st_ret (Some r)
  | None => st_ret None
  end.

(** * Teardown ([release.rs]) *)

Inductive Resources : Type :=
| Resources_Sterile (sterile : R)
| Resources_Assigned (refs : ResourceRefs)
| Resources_None.

Record Holdings : Type := mkHoldings {
  holdings_handle : option H;
  holdings_identity : WorkerIdentity;
  holdings_resources : Resources;
  holdings_reservation : option Reservation
}.

Definition release_resources {E} (r : Resources) : ST Pool E ResourceRelease :=
  match r with
  | Resources_Sterile sterile => in_world (broker_release_sterile sterile)
  | Resources_Assigned refs => in_world (broker_release refs)
  | Resources_None => st_ret (mkResourceRelease AlreadyAbsent AlreadyAbsent true)
  end.

Definition destroy_process {E} (handle : option H) (identity : WorkerIdentity) : ST Pool E DestroyOutcome :=
  match handle with
  | Some handle => in_world (handle_destroy handle)
  | None => if negb (identity_process identity =? 0) then in_world (launcher_terminate identity) else st_ret no_process
  end.

Definition teardown {E} (h : Held Destroying) (handle : option H) (ident : WorkerIdentity) (res : Resources)
    (reason : DestroyReason) : ST Pool E ReleaseEvidence :=
  p <-- st_get ;;
  let id := slot_id (arena p (held_slot h)) in
  let generation := worker_generation (held_worker h) in
  r <-- new_record Kind_Destroying id generation ;;
  began <-- st_try (record (with_identity ident (with_detail (reason_code reason) r))) ;;
  destroyed <-- destroy_process handle ident ;;
  released <-- release_resources res ;;
  r <-- new_record Kind_Dead id generation ;;
  ended <-- st_try (record (with_detail (reason_code reason) r)) ;;
  st_try (on_slot (held_slot h) (finish (held_worker h))) ;;;
  st_ret (mkReleaseEvidence id generation reason destroyed released (is_ok began && is_ok ended)).

Definition destroy_handle {E} (handle : option H) : ST Pool E (option DestroyOutcome) :=
  match handle with
  | Some handle => outcome <-- in_world (handle_destroy handle) ;; st_ret (Some outcome)
  | None => st_ret None
  end.

Definition orphan {E} (handle : option H) (res : Resources) : ST Pool E Disposition :=
  destroyed <-- destroy_handle handle ;;
  released <-- release_resources res ;;
  st_ret (mkDisposition (default no_process destroyed) released).

Definition destroy_claiming {E} (h : Held Claiming) (held : Holdings) (reason : DestroyReason) : ST Pool E Disposition :=
  destroying <-- st_try (on_slot (held_slot h) (destroy_claiming_handle (held_worker h))) ;;
  disposition <-- match destroying with
    | Ok w =>
        e <-- teardown (mkHeld (held_slot h) w) (holdings_handle held) (holdings_identity held) (holdings_resources held)
                reason ;;
        st_ret (mkDisposition (evidence_destroyed e) (evidence_released e))
    | Err _ => orphan (holdings_handle held) (holdings_resources held)
    end ;;
  release_capacity (holdings_reservation held) ;;;
  st_ret disposition.

Definition owned_destroy (w : OwnedWorker) : ST Pool StateRace (Held Destroying) :=
  match w with
  | OwnedWorker_Assigned h =>
      w <-- on_slot (held_slot h) (destroy_assigned (held_worker h)) ;; st_ret (mkHeld (held_slot h) w)
  | OwnedWorker_Running h =>
      w <-- on_slot (held_slot h) (destroy_running (held_worker h)) ;; st_ret (mkHeld (held_slot h) w)
  end.

Definition owned_generation (w : OwnedWorker) : LeaseGeneration :=
  match w with
  | OwnedWorker_Assigned h => worker_generation (held_worker h)
  | OwnedWorker_Running h => worker_generation (held_worker h)
  end.

Definition destroy_owned {E} (o : Owned) (reason : DestroyReason) : ST Pool E ReleaseEvidence :=
  release_capacity (owned_reservation o) ;;;
  p <-- st_get ;;
  let id := slot_id (arena p (owned_slot (owned_worker o))) in
  destroying <-- st_try (owned_destroy (owned_worker o)) ;;
  match destroying with
  | Err _ =>
      d <-- orphan (owned_handle o) (Resources_Assigned (owned_refs o)) ;;
      st_ret (mkReleaseEvidence id (owned_generation (owned_worker o)) reason (disposition_destroyed d)
                (disposition_released d) false)
  | Ok h => teardown h (owned_handle o) (owned_identity o) (Resources_Assigned (owned_refs o)) reason
  end.
End pool.
Arguments Prepared : clear implicits.
Arguments Owned : clear implicits.
Arguments Pool : clear implicits.
Arguments Resources : clear implicits.
Arguments Holdings : clear implicits.
