(* ===== verification/HostClaim.v ===== *)
(** Construction toward the target ([pool/replenish.rs]), the idempotency registry
    ([pool/claim/registry.rs]) and the claim ([pool/claim.rs]). *)

From S2P Require Import Prelude Bytes HostAdmission HostState HostLedger HostPool.
From stdpp Require Import options.

(** * Faults *)

Inductive ConstructionFault : Type :=
| ConstructionFault_Overloaded (o : Overloaded)
| ConstructionFault_Unreconciled
| ConstructionFault_Launcher (fault : ConstructFault)
| ConstructionFault_Resources (fault : ResourceFault)
| ConstructionFault_Ledger (error : LedgerError)
| ConstructionFault_State (race : StateRace)
| ConstructionFault_Deadline (budget elapsed : Z).

Record ConstructionFailure : Type := mkConstructionFailure {
  failure_worker : option WorkerId;
  construction_fault : ConstructionFault
}.

Inductive ClaimError : Type :=
| ClaimError_Exhausted (e : Exhausted)
| ClaimError_Capacity (rejection : CapacityRejection)
| ClaimError_Overloaded (o : Overloaded)
| ClaimError_OperationConflict (operation : OperationId) (recorded presented : RequestFingerprint)
| ClaimError_Deadline (operation : OperationId) (waited : Z)
| ClaimError_Ledger (error : LedgerError)
| ClaimError_Construction (failure : ConstructionFailure)
| ClaimError_MissingPayload (worker : WorkerId).

(** * The registry *)

Definition outcome_of (c : ClaimRecord) : option ClaimOutcome :=
  class ← class_from_code (claim_class c);
  Some (mkClaimOutcome (claim_worker c) (claim_generation c) (claim_operation c) class).

Definition binding_of (c : ClaimRecord) : option Binding :=
  outcome ← outcome_of c;
  Some (Binding_Done (claim_fingerprint c) outcome).

(** The loop of [seed] over the claims, newest first. *)
Fixpoint seed_bindings (limit : nat) (claims : list ClaimRecord) (r : Registry) : Registry :=
  match claims with
  | [] => r
  | c :: claims =>
      if Nat.leb limit (size (bindings r)) then r
      else if decide (is_Some (bindings r !! claim_operation c)) then seed_bindings limit claims r
      else match binding_of c with
      | Some b =>
          seed_bindings limit claims
            (mkRegistry (<[claim_operation c := b]> (bindings r)) (claim_operation c :: order r) (recorded r))
      | None => seed_bindings limit claims r
      end
  end.

Definition seed (claims : list ClaimRecord) (limit : nat) (r : Registry) : Registry :=
  seed_bindings limit (rev claims)
    (mkRegistry (bindings r) (order r) (list_to_set (claim_operation <$> claims) ∪ recorded r)).

Definition replay (c : ClaimRecord) (fp : RequestFingerprint) : Result (option ClaimOutcome) ClaimError :=
  if decide (claim_fingerprint c = fp) then
    match outcome_of c with
    | Some outcome => Ok (Some outcome)
    | None => Err (ClaimError_Ledger (LedgerError_Invariant (claim_worker c) Kind_Claiming))
    end
  else Err (ClaimError_OperationConflict (claim_operation c) (claim_fingerprint c) fp).

Definition is_done (b : option Binding) : bool :=
  match b with Some (Binding_Done _ _) => true | _ => false end.

(** [Vec::position] and [VecDeque::remove]. *)
Fixpoint position {A} (f : A -> bool) (l : list A) : option nat :=
  match l with
  | [] => None
  | x :: l => if f x then Some 0%nat else S <$> position f l
  end.

Section claim.
Context {W H R D N P : Type} `{PoolWorld W H R D N, NumaPlacement P}.
Notation Pool := (Pool W H R N P).

Definition binding_dead (p : Pool) (o : OperationId) : bool :=
  match bindings (registry p) !! o with
  | Some (Binding_Done _ outcome) =>
      match find_slot p (outcome_worker outcome) with
      | None => true
      | Some i => bool_decide (slot_phase p i = Dead)
      end
  | _ => false
  end.

Definition evict_bindings : ST Pool ClaimError unit :=
  p <-- st_get ;;
  let r := registry p in
  let limit := binding_limit (pool_limits p) in
  if Nat.ltb (size (bindings r)) limit then st_ret tt
  else
    let completed o := is_done (bindings r !! o) in
    match (match position (binding_dead p) (order r) with Some n => Some n | None => position completed (order r) end) with
    | Some n =>
        match order r !! n with
        | Some o => st_modify (set_registry (mkRegistry (delete o (bindings r)) (delete n (order r)) (recorded r)))
        | None => st_ret tt
        end
    | None => st_err (ClaimError_Overloaded (mkOverloaded OverloadGate_ClaimRegistry (size (bindings r)) limit))
    end.

(** The loop of [reserve_binding]; [wakes] are the registries the waits on the condition
    variable return with, as other callers left them. *)
Fixpoint reserve_binding (wakes : list Registry) (o : OperationId) (fp : RequestFingerprint) (started : Z)
    : ST Pool ClaimError (option ClaimOutcome) :=
  p <-- st_get ;;
  match bindings (registry p) !! o with
  | Some (Binding_Done recorded outcome) =>
      if decide (recorded = fp) then st_ret (Some outcome) else st_err (ClaimError_OperationConflict o recorded fp)
  | Some (Binding_InFlight recorded) =>
      if decide (recorded = fp) then
        now <-- in_world instant_now ;;
        let waited := now - started in
        if claim_deadline (pool_limits p) <? waited then st_err (ClaimError_Deadline o waited)
        else match wakes with
        | [] => st_err (ClaimError_Deadline o (claim_deadline (pool_limits p)))
        | r :: wakes => st_modify (set_registry r) ;;; reserve_binding wakes o fp started
        end
      else st_err (ClaimError_OperationConflict o recorded fp)
  | None =>
      known <-- (if decide (o ∈ recorded (registry p))
                 then records <-- st_map_err ClaimError_Ledger ledger_read ;; st_ret (claim_of o records)
                 else st_ret None) ;;
      match known with
      | Some c => st_lift (replay c fp)
      | None =>
          evict_bindings ;;;
          st_modify (fun p => set_registry
            (mkRegistry (<[o := Binding_InFlight fp]> (bindings (registry p))) (order (registry p) ++ [o])
               (recorded (registry p))) p) ;;;
          st_ret None
      end
  end.

Definition clear_binding {E} (o : OperationId) : ST Pool E unit :=
  st_modify (fun p => set_registry
    (mkRegistry (delete o (bindings (registry p))) (filter (fun c => c <> o) (order (registry p)))
       (recorded (registry p))) p).

Definition finish_binding {E} (o : OperationId) (fp : RequestFingerprint) (outcome : ClaimOutcome) : ST Pool E unit :=
  st_modify (fun p => set_registry
    (mkRegistry (<[o := Binding_Done fp outcome]> (bindings (registry p))) (order (registry p))
       ({[o]} ∪ recorded (registry p))) p).

(** * Construction *)

Definition fail_construction (h : Held Constructing) (handle : option H) (sterile : option R)
    (fault : ConstructionFault) {A : Type} : ST Pool ConstructionFailure A :=
  p <-- st_get ;;
  let id := slot_id (arena p (held_slot h)) in
  destroy_handle handle ;;;
  match sterile with Some s => in_world (broker_release_sterile s) ;;; st_ret tt | None => st_ret tt end ;;;
  r <-- new_record Kind_ConstructFailed id (worker_generation (held_worker h)) ;;
  st_try (record r) ;;;
  st_try (on_slot (held_slot h) (abort (held_worker h))) ;;;
  st_err (mkConstructionFailure (Some id) fault).

(** The rest of [construct_reserved] once the worker and its resources exist. *)
Definition publish (h : Held Constructing) (id : WorkerId) (handle : H) (sterile : R) (refs : ResourceRefs)
    : ST Pool ConstructionFailure WorkerId :=
  let ident := handle_identity handle in
  r <-- new_record Kind_Sterile id (worker_generation (held_worker h)) ;;
  recorded <-- st_try (record (with_resources refs (with_identity ident r))) ;;
  match recorded with
  | Err e => fail_construction h (Some handle) (Some sterile) (ConstructionFault_Ledger e)
  | Ok _ =>
      st_modify (fun p => set_prepared (<[id := mkPrepared handle sterile refs ident]> (prepared p)) p) ;;;
      sterilized <-- st_try (on_slot (held_slot h) (sterilize (held_worker h))) ;;
      match sterilized with
      | Ok _ => st_ret id
      | Err race =>
          p <-- st_get ;;
          st_modify (fun p => set_prepared (delete id (prepared p)) p) ;;;
          match prepared p !! id with
          | Some x =>
              in_world (handle_destroy (prepared_handle x)) ;;;
              in_world (broker_release_sterile (prepared_sterile x)) ;;; st_ret tt
          | None => st_ret tt
          end ;;;
          st_err (mkConstructionFailure (Some id) (ConstructionFault_State race))
      end
  end.

Definition construct_reserved : ST Pool ConstructionFailure WorkerId :=
  p <-- st_get ;;
  if negb (reconciled p) then st_err (mkConstructionFailure None ConstructionFault_Unreconciled)
  else
    id <-- in_world fresh_worker_id ;;
    i <-- st_map_err (fun o => mkConstructionFailure None (ConstructionFault_Overloaded o))
            (add_slot (slot_new id (pool_digest p))) ;;
    p <-- st_get ;;
    let h := mkHeld i (worker_open (arena p i)) in
    r <-- new_record Kind_Constructing id (worker_generation (held_worker h)) ;;
    recorded <-- st_try (record r) ;;
    match recorded with
    | Err e =>
        st_try (on_slot i (abort (held_worker h))) ;;;
        st_err (mkConstructionFailure (Some id) (ConstructionFault_Ledger e))
    | Ok _ =>
        started <-- in_world instant_now ;;
        let budget := construction_deadline (pool_limits p) in
        built <-- in_world (launcher_construct id budget) ;;
        match built with
        | Err fault => fail_construction h None None (ConstructionFault_Launcher fault)
        | Ok handle =>
            now <-- in_world instant_now ;;
            parts <-- in_world (broker_prepare id (saturating_sub budget (now - started))) ;;
            match parts with
            | Err fault => fail_construction h (Some handle) None (ConstructionFault_Resources fault)
            | Ok (sterile, refs) =>
                now <-- in_world instant_now ;;
                let elapsed := now - started in
                if budget <? elapsed
                then fail_construction h (Some handle) (Some sterile) (ConstructionFault_Deadline budget elapsed)
                else publish h id handle sterile refs
            end
        end
    end.

Definition construct_one : ST Pool ConstructionFailure WorkerId :=
  p <-- st_get ;;
  let limit := replenish_concurrency (pool_limits p) in
  if Nat.leb limit (in_flight p)
  then st_err (mkConstructionFailure None (ConstructionFault_Overloaded
         (mkOverloaded OverloadGate_ReplenishConcurrency (in_flight p) limit)))
  else
    st_modify (set_in_flight (S (in_flight p))) ;;;
    result <-- st_try construct_reserved ;;
    st_modify (fun p => set_in_flight (in_flight p - 1) p) ;;;
    st_lift result.

(** The loop of [replenish_blocking]: [None] only when [fuel] ran out. *)
Fixpoint replenish_blocking (fuel built : nat) : ST Pool ConstructionFailure (option nat) :=
  p <-- st_get ;;
  if Nat.ltb (occ_sterile (occupancy p) + in_flight p) (limit_target (pool_limits p)) then
    match fuel with
    | O => st_ret None
    | S fuel => construct_one ;;; replenish_blocking fuel (S built)
    end
  else st_ret (Some built).

(** * The claim *)

(** The grant of the fresh winner: [None] parts were taken by a transfer. *)
Record Claimed : Type := mkClaimed {
  claimed_held : Held Claiming;
  claimed_prepared : Prepared H R;
  claimed_reservation : option Reservation;
  won_at : Z;
  claimed_fingerprint : RequestFingerprint;
  claimed_outcome : ClaimOutcome
}.

Record Claim : Type := mkClaim {
  claim_outcome : ClaimOutcome;
  grant : option Claimed
}.

Definition exhausted (p : Pool) : Exhausted :=
  mkExhausted (pool_digest p) (occupancy p) (limit_max (pool_limits p)) (exhausted_behavior (pool_limits p)).

Definition try_claim_slot {E} (i : nat) : ST Pool E (option (Held Claiming)) :=
  won <-- on_slot i (fun s => let '(s, w) := try_claim s in (s, Ok w)) ;;
  st_ret (mkHeld i <$> won).

(** [find_map(Slot::try_claim)] over the table. *)
Fixpoint claim_first {E} (slots : list nat) : ST Pool E (option (Held Claiming)) :=
  match slots with
  | [] => st_ret None
  | i :: slots =>
      won <-- try_claim_slot i ;;
      match won with Some h => st_ret (Some h) | None => claim_first slots end
  end.

Definition acquire : ST Pool ClaimError (Held Claiming * ClaimClass) :=
  p <-- st_get ;;
  won <-- claim_first (table p) ;;
  match won with
  | Some h => st_ret (h, ClaimClass_Prepared)
  | None =>
      match exhausted_behavior (pool_limits p) with
      | Exhausted_Reject => st_err (ClaimError_Exhausted (exhausted p))
      | Exhausted_ConstructInline =>
          id <-- st_map_err ClaimError_Construction construct_one ;;
          p <-- st_get ;;
          won <-- match find_slot p id with Some i => try_claim_slot i | None => st_ret None end ;;
          match won with
          | Some h => st_ret (h, ClaimClass_OnDemand)
          | None => p <-- st_get ;; st_err (ClaimError_Exhausted (exhausted p))
          end
      end
  end.

(** [claim] once the slot is won. *)
Definition grant_won (o : OperationId) (fp : RequestFingerprint) (reservation : Reservation) (h : Held Claiming)
    (class : ClaimClass) : ST Pool ClaimError Claim :=
  won <-- in_world instant_now ;;
  p <-- st_get ;;
  let id := slot_id (arena p (held_slot h)) in
  st_modify (set_prepared (delete id (prepared p))) ;;;
  match prepared p !! id with
  | None =>
      destroy_claiming h (mkHoldings None absent Resources_None (Some reservation)) Reason_Ledger ;;;
      clear_binding o ;;;
      st_err (ClaimError_MissingPayload id)
  | Some x =>
      let outcome := mkClaimOutcome id (worker_generation (held_worker h)) o class in
      r <-- new_record Kind_Claiming id (worker_generation (held_worker h)) ;;
      recorded <-- st_try (record (with_resources (prepared_refs x) (with_identity (prepared_identity x)
        (with_fingerprint fp (with_operation o (with_detail (class_code class) r)))))) ;;
      match recorded with
      | Err e =>
          destroy_claiming h (mkHoldings (Some (prepared_handle x)) (prepared_identity x)
            (Resources_Sterile (prepared_sterile x)) (Some reservation)) Reason_Ledger ;;;
          clear_binding o ;;;
          st_err (ClaimError_Ledger e)
      | Ok _ =>
          finish_binding o fp outcome ;;;
          st_ret (mkClaim outcome (Some (mkClaimed h x (Some reservation) won fp outcome)))
      end
  end.

Definition claim (wakes : list Registry) (o : OperationId) (fp : RequestFingerprint) : ST Pool ClaimError Claim :=
  started <-- in_world instant_now ;;
  replayed <-- reserve_binding wakes o fp started ;;
  match replayed with
  | Some outcome => st_ret (mkClaim outcome None)
  | None =>
      reserved <-- st_try reserve_capacity ;;
      match reserved with
      | Err rejection => clear_binding o ;;; st_err (ClaimError_Capacity rejection)
      | Ok reservation =>
          acquired <-- st_try acquire ;;
          match acquired with
          | Err e => release_capacity (Some reservation) ;;; clear_binding o ;;; st_err e
          | Ok (h, class) => grant_won o fp reservation h class
          end
      end
  end.

(** [Drop] of a grant that was never transferred. *)
Definition drop_claimed {E} (c : Claimed) : ST Pool E unit :=
  destroy_claiming (claimed_held c) (mkHoldings (Some (prepared_handle (claimed_prepared c)))
    (prepared_identity (claimed_prepared c)) (Resources_Sterile (prepared_sterile (claimed_prepared c)))
    (claimed_reservation c)) Reason_Dropped ;;;
  st_ret tt.
End claim.
Arguments Claimed : clear implicits.
Arguments Claim : clear implicits.
