(* ===== verification/HostTransfer.v ===== *)
(** The life of a claimed worker: the exactly-once transfer of authority
    ([pool/transfer/run.rs]), start, release and eviction ([pool/release.rs]), and what a
    restart does ([pool/reconcile.rs], [Pool::open]). *)

From S2P Require Import Prelude Bytes Wire HostAdmission HostState HostLedger HostPool HostClaim.
From stdpp Require Import sorting.
From stdpp Require Import options.
Local Open Scope Z_scope.

Record TransferFailure : Type := mkTransferFailure {
  transfer_worker : WorkerId;
  transfer_step : option TransferStep;
  transfer_fault : TransferFault;
  transfer_disposition : Disposition
}.

Inductive LifecycleError : Type :=
| LifecycleError_Unknown (worker : WorkerId)
| LifecycleError_Phase (worker : WorkerId) (phase : Phase)
| LifecycleError_Start (fault : StartFault)
| LifecycleError_State (race : StateRace)
| LifecycleError_Ledger (error : LedgerError).

Record ReconcileFinding : Type := mkReconcileFinding {
  finding_worker : WorkerId;
  finding_phase : Phase;
  finding_liveness : option Liveness;
  finding_resources : ResourceLiveness;
  finding_disposition : ReconcileDisposition;
  finding_complete : bool;
  capacity_restored : bool
}.

Record ReconcileReport : Type := mkReconcileReport {
  suspects : nat;
  findings : list ReconcileFinding
}.

Inductive PoolError : Type :=
| PoolError_Limits (e : LimitsError)
| PoolError_Ledger (e : LedgerError).

Definition is_claim_deadline (f : TransferFault) : bool :=
  match f with TransferFault_ClaimDeadline => true | _ => false end.

Definition key_le (x y : WorkerId * WorkerLedgerEntry) : Prop := bytes_leb x.1 y.1 = true.

#[export] Instance key_le_dec : RelDecision key_le.
Proof. intros x y. unfold key_le. apply _. Defined.

(** [values] of the map, in the order of its keys. *)
Definition entry_values (es : Entries) : list WorkerLedgerEntry := (merge_sort key_le (map_to_list es)).*2.

Section transfer.
Context {W H R D N P : Type} `{PoolWorld W H R D N, NumaPlacement P}.
Context (sha256 : bytes -> bytes).
Notation Pool := (Pool W H R N P).

Definition intent_fingerprint (i : AssignmentIntent) : RequestFingerprint := sha256 (intent_encode i).

Record TransferEvidence : Type := mkTransferEvidence {
  transferred_worker : WorkerId;
  transferred_generation : LeaseGeneration;
  transferred_instance : InstanceId;
  transferred_operation : OperationId;
  transferred_launch : N;
  transferred_steps : nat;
  transferred_elapsed : Z
}.

(** * The transfer *)

(** The live state of one transfer. *)
Record Attempt : Type := mkAttempt {
  attempt_held : Held Claiming;
  attempt_handle : H;
  attempt_identity : WorkerIdentity;
  attempt_refs : ResourceRefs;
  attempt_reservation : option Reservation;
  attempt_won_at : Z
}.

Definition set_attempt_handle (h : H) (a : Attempt) : Attempt :=
  mkAttempt (attempt_held a) h (attempt_identity a) (attempt_refs a) (attempt_reservation a) (attempt_won_at a).

Definition held_id (p : Pool) {S} (h : Held S) : WorkerId := slot_id (arena p (held_slot h)).

Definition failure_of (id : WorkerId) (step : option TransferStep) (fault : TransferFault) (d : Disposition) {A}
    : ST Pool TransferFailure A :=
  st_err (mkTransferFailure id step fault d).

Definition abort_transfer (a : Attempt) (step : option TransferStep) (fault : TransferFault) {A}
    : ST Pool TransferFailure A :=
  p <-- st_get ;;
  let reason := if is_claim_deadline fault then Reason_ClaimDeadline else Reason_TransferFault in
  d <-- destroy_claiming (attempt_held a) (mkHoldings (Some (attempt_handle a)) (attempt_identity a)
          (Resources_Assigned (attempt_refs a)) (attempt_reservation a)) reason ;;
  failure_of (held_id p (attempt_held a)) step fault d.

(** [won_at.elapsed() > claim_deadline] *)
Definition past_deadline {E} (won : Z) : ST Pool E bool :=
  p <-- st_get ;;
  now <-- in_world instant_now ;;
  st_ret (claim_deadline (pool_limits p) <? now - won).

Definition assigning (a : Attempt) (intent : AssignmentIntent) : ST Pool TransferFailure unit :=
  p <-- st_get ;;
  r <-- new_record Kind_Assigning (held_id p (attempt_held a)) (worker_generation (held_worker (attempt_held a))) ;;
  recorded <-- st_try (record (with_resources (attempt_refs a) (with_identity (attempt_identity a)
    (with_instance (intent_instance intent) (with_operation (intent_operation intent) r))))) ;;
  match recorded with
  | Ok _ => st_ret tt
  | Err e => abort_transfer a None (TransferFault_Ledger e)
  end.

(** [Pool::admit] of a grant this pool issued. *)
Definition admit_grant (c : Claimed H R) (intent : AssignmentIntent)
    : ST Pool TransferFailure (Attempt * AssignedResources D N) :=
  p <-- st_get ;;
  let id := held_id p (claimed_held c) in
  let x := claimed_prepared c in
  refusal <-- (if decide (intent_fingerprint intent = claimed_fingerprint c) then
      late <-- past_deadline (won_at c) ;;
      st_ret (if late : bool then Some (Reason_ClaimDeadline, TransferFault_ClaimDeadline) else None)
    else st_ret (Some (Reason_IntentMismatch, TransferFault_Rejected))) ;;
  match refusal with
  | Some (reason, fault) =>
      d <-- destroy_claiming (claimed_held c) (mkHoldings (Some (prepared_handle x)) (prepared_identity x)
              (Resources_Sterile (prepared_sterile x)) (claimed_reservation c)) reason ;;
      failure_of id None fault d
  | None =>
      assigned <-- in_world (broker_assign (prepared_sterile x) intent) ;;
      match assigned with
      | Ok resources =>
          let a := mkAttempt (claimed_held c) (prepared_handle x) (prepared_identity x) (assigned_refs resources)
                     (claimed_reservation c) (won_at c) in
          assigning a intent ;;; st_ret (a, resources)
      | Err fault =>
          d <-- destroy_claiming (claimed_held c) (mkHoldings (Some (prepared_handle x)) (prepared_identity x)
                  Resources_None (claimed_reservation c)) Reason_TransferFault ;;
          failure_of id None (TransferFault_Resource fault) d
      end
  end.

(** A grant of another pool: the pool that issued it destroys it. *)
Definition refuse_foreign (c : Claimed H R) {A} : ST Pool TransferFailure A :=
  p <-- st_get ;;
  let x := claimed_prepared c in
  d <-- destroy_claiming (claimed_held c) (mkHoldings (Some (prepared_handle x)) (prepared_identity x)
          (Resources_Sterile (prepared_sterile x)) (claimed_reservation c)) Reason_ForeignPool ;;
  failure_of (held_id p (claimed_held c)) None TransferFault_ForeignPool d.

(** One frame: the attempt with its handle as the delivery left it, and the result. *)
Definition deliver {E} (a : Attempt) (intent : AssignmentIntent) (frame : TransferFrame D N)
    : ST Pool E (Attempt * Result unit TransferFault) :=
  p <-- st_get ;;
  let step := frame_step frame in
  let id := held_id p (attempt_held a) in
  let generation := worker_generation (held_worker (attempt_held a)) in
  late <-- past_deadline (attempt_won_at a) ;;
  out <-- (if late : bool then st_ret (a, Err TransferFault_ClaimDeadline)
    else
      delivered <-- in_world (handle_deliver frame (attempt_handle a)) ;;
      let a := set_attempt_handle delivered.1 a in
      match delivered.2 with
      | Err fault => st_ret (a, Err fault)
      | Ok _ =>
          r <-- new_record Kind_TransferStep id generation ;;
          recorded <-- st_try (record (with_resources (attempt_refs a) (with_identity (attempt_identity a)
            (with_instance (intent_instance intent) (with_operation (intent_operation intent)
              (with_detail (step_code step) r)))))) ;;
          st_ret (a, map_err TransferFault_Ledger recorded)
      end) ;;
  match out.2 with
  | Ok _ => st_ret out
  | Err _ =>
      r <-- new_record Kind_TransferFault id generation ;;
      st_try (record (with_instance (intent_instance intent) (with_operation (intent_operation intent)
        (with_detail (step_code step) r)))) ;;;
      st_ret out
  end.

(** The loop over the frames: the attempt after the last one, and the steps acknowledged. *)
Fixpoint deliver_all (a : Attempt) (intent : AssignmentIntent) (fs : list (TransferFrame D N)) (steps : nat)
    : ST Pool TransferFailure (Attempt * nat) :=
  match fs with
  | [] => st_ret (a, steps)
  | frame :: fs =>
      out <-- deliver a intent frame ;;
      match out.2 with
      | Ok _ => deliver_all out.1 intent fs (S steps)
      | Err fault => abort_transfer out.1 (Some (frame_step frame)) fault
      end
  end.

Definition commit (a : Attempt) (intent : AssignmentIntent) (launch : N) : ST Pool TransferFailure unit :=
  late <-- past_deadline (attempt_won_at a) ;;
  if late : bool then abort_transfer a (Some Step_Commit) TransferFault_ClaimDeadline
  else
    p <-- st_get ;;
    let id := held_id p (attempt_held a) in
    let i := held_slot (attempt_held a) in
    assigned <-- st_try (on_slot i (assign (held_worker (attempt_held a)))) ;;
    match assigned with
    | Err race =>
        destroyed <-- in_world (handle_destroy (attempt_handle a)) ;;
        released <-- in_world (broker_release (attempt_refs a)) ;;
        release_capacity (attempt_reservation a) ;;;
        failure_of id (Some Step_Commit) (TransferFault_State race) (mkDisposition destroyed released)
    | Ok w =>
        reservation <-- capacity_launched (attempt_reservation a) ;;
        let o := mkOwned (OwnedWorker_Assigned (mkHeld i w)) (Some (attempt_handle a)) false (attempt_identity a)
                   (attempt_refs a) (intent_instance intent) (intent_operation intent) reservation (Some launch) in
        r <-- new_record Kind_Assigned id (worker_generation (held_worker (attempt_held a))) ;;
        recorded <-- st_try (record (with_resources (attempt_refs a) (with_identity (attempt_identity a)
          (with_instance (intent_instance intent) (with_operation (intent_operation intent) r))))) ;;
        match recorded with
        | Err e =>
            evidence <-- destroy_owned o Reason_Ledger ;;
            failure_of id (Some Step_Commit) (TransferFault_Ledger e)
              (mkDisposition (evidence_destroyed evidence) (evidence_released evidence))
        | Ok _ => st_modify (fun p => set_owned (<[id := o]> (owned p)) p)
        end
    end.

(** [fresh_entropy]: 32 bytes of [/dev/urandom], refused when all zero. *)
Definition fresh_entropy {E} : ST Pool E (Result bytes TransferFault) :=
  seed <-- in_world read_urandom ;;
  st_ret match seed with
    | Some seed => if all_zero seed then Err TransferFault_Entropy else Ok seed
    | None => Err TransferFault_Entropy
    end.

Definition transfer (c : Claimed H R) (intent : AssignmentIntent) : ST Pool TransferFailure TransferEvidence :=
  admitted <-- admit_grant c intent ;;
  let '(a, resources) := admitted in
  p <-- st_get ;;
  let id := held_id p (attempt_held a) in
  let generation := worker_generation (held_worker (attempt_held a)) in
  seed <-- fresh_entropy ;;
  match seed with
  | Err fault => abort_transfer a None fault
  | Ok seed =>
      out <-- deliver_all a intent (frames id generation intent seed resources) 0 ;;
      commit out.1 intent (network_launch resources) ;;;
      now <-- in_world instant_now ;;
      st_ret (mkTransferEvidence id generation (intent_instance intent) (intent_operation intent)
                (network_launch resources) out.2 (now - attempt_won_at a))
  end.

(** * Start and release *)

Definition set_owned_handle (h : option H) (starting : bool) (o : Owned H N) : Owned H N :=
  mkOwned (owned_worker o) h starting (owned_identity o) (owned_refs o) (owned_instance o) (owned_operation o)
    (owned_reservation o) (owned_launch o).

Definition set_owned_worker (w : OwnedWorker) (o : Owned H N) : Owned H N :=
  mkOwned w (owned_handle o) (owned_starting o) (owned_identity o) (owned_refs o) (owned_instance o)
    (owned_operation o) (owned_reservation o) (owned_launch o).

(** The first section under the lock: the handle is taken out and the entry marked. *)
Definition begin_start (w : WorkerId) : ST Pool LifecycleError (option H) :=
  p <-- st_get ;;
  match owned p !! w with
  | None => st_err (LifecycleError_Unknown w)
  | Some o =>
      if owned_starting o then st_err (LifecycleError_Phase w Assigned)
      else match owned_worker o with
      | OwnedWorker_Running _ => st_err (LifecycleError_Phase w Running)
      | OwnedWorker_Assigned _ =>
          st_modify (set_owned (<[w := set_owned_handle None true o]> (owned p))) ;;;
          st_ret (owned_handle o)
      end
  end.

(** The second section, with the handle and the result of the start round trip. *)
Definition finish_start (w : WorkerId) (handle : option H) (started : Result unit StartFault)
    : ST Pool LifecycleError unit :=
  p <-- st_get ;;
  match owned p !! w with
  | None => st_err (LifecycleError_Unknown w)
  | Some o =>
      let o := set_owned_handle handle false o in
      st_modify (set_owned (<[w := o]> (owned p))) ;;;
      match started with
      | Err fault =>
          st_modify (fun p => set_owned (delete w (owned p)) p) ;;;
          destroy_owned o Reason_StartFault ;;;
          st_err (LifecycleError_Start fault)
      | Ok _ =>
          let i := owned_slot (owned_worker o) in
          match attach Assigned (arena p i) with
          | None => st_err (LifecycleError_Phase w Assigned)
          | Some a =>
              running <-- st_map_err LifecycleError_State (on_slot i (run a)) ;;
              r <-- new_record Kind_Running w (worker_generation running) ;;
              st_modify (fun p => set_owned
                (<[w := set_owned_worker (OwnedWorker_Running (mkHeld i running)) o]> (owned p)) p) ;;;
              st_map_err LifecycleError_Ledger
                (record (with_identity (owned_identity o) (with_resources (owned_refs o)
                  (with_instance (owned_instance o) (with_operation (owned_operation o) r)))))
          end
      end
  end.

Definition start (w : WorkerId) : ST Pool LifecycleError unit :=
  handle <-- begin_start w ;;
  out <-- match handle with
    | None => st_ret (None, Ok tt)
    | Some h => started <-- in_world (handle_start h) ;; st_ret (Some started.1, started.2)
    end ;;
  finish_start w out.1 out.2.

Definition release_worker (w : WorkerId) : ST Pool LifecycleError ReleaseEvidence :=
  p <-- st_get ;;
  match owned p !! w with
  | None => st_err (LifecycleError_Unknown w)
  | Some o =>
      if owned_starting o then st_err (LifecycleError_Phase w Assigned)
      else
        st_modify (set_owned (delete w (owned p))) ;;;
        destroy_owned o Reason_Released
  end.

(** The loop of [evict_sterile] over the slots it found. *)
Fixpoint evict_slots {E} (slots : list nat) : ST Pool E (list ReleaseEvidence) :=
  match slots with
  | [] => st_ret []
  | i :: slots =>
      won <-- on_slot i (fun s => let '(s, w) := try_evict s in (s, Ok w)) ;;
      match won with
      | None => evict_slots slots
      | Some w =>
          p <-- st_get ;;
          let id := slot_id (arena p i) in
          st_modify (set_prepared (delete id (prepared p))) ;;;
          let '(handle, ident, res) :=
            match prepared p !! id with
            | Some x => (Some (prepared_handle x), prepared_identity x, Resources_Sterile (prepared_sterile x))
            | None => (None, absent, Resources_None)
            end in
          e <-- teardown (mkHeld i w) handle ident res Reason_Evicted ;;
          es <-- evict_slots slots ;;
          st_ret (e :: es)
      end
  end.

Definition evict_sterile {E} : ST Pool E (list ReleaseEvidence) :=
  p <-- st_get ;; evict_slots (table p).

(** * Restart *)

(** [retain]: whether the Instance fit the table, and whether its capacity was reserved. *)
Definition retain {E} (e : WorkerLedgerEntry) : ST Pool E (bool * bool) :=
  added <-- st_try (add_slot (slot_restore (entry_worker e) (entry_key e) Running (entry_generation e))) ;;
  match added with
  | Err _ => st_ret (false, false)
  | Ok i =>
      p <-- st_get ;;
      match attach Running (arena p i), entry_instance e, entry_operation e, entry_identity e with
      | Some w, Some inst, Some op, Some ident =>
          reserved <-- st_try reserve_capacity ;;
          reservation <-- capacity_launched (ok reserved) ;;
          st_modify (fun p => set_owned (<[entry_worker e :=
            mkOwned (OwnedWorker_Running (mkHeld i w)) None false ident (entry_resources e) inst op reservation None]>
            (owned p)) p) ;;;
          st_ret (true, is_ok reserved)
      | _, _, _, _ => st_ret (false, false)
      end
  end.

(** One suspect: what the launcher and the brokers found, and what was done with it. *)
Definition settle {E} (e : WorkerLedgerEntry) : ST Pool E ReconcileFinding :=
  liveness <-- match entry_identity e with
    | Some ident => alive <-- in_world (launcher_probe ident) ;; st_ret (Some alive)
    | None => st_ret None
    end ;;
  res <-- in_world (broker_verify (entry_resources e)) ;;
  if bool_decide (entry_phase e = Running) && bool_decide (liveness = Some Liveness_Alive) then
    kept <-- retain e ;;
    st_ret (mkReconcileFinding (entry_worker e) (entry_phase e) liveness res Retained kept.1 kept.2)
  else
    destroyed <-- match entry_identity e, liveness with
      | Some ident, Some (Liveness_Alive | Liveness_Unknown) =>
          outcome <-- in_world (launcher_terminate ident) ;; st_ret (Some outcome)
      | _, _ => st_ret None
      end ;;
    released <-- in_world (broker_release (entry_resources e)) ;;
    st_ret (mkReconcileFinding (entry_worker e) (entry_phase e) liveness res
              (match destroyed with Some _ => Terminated | None => Released end)
              ((match destroyed with Some outcome => destroy_complete outcome | None => true end) &&
               release_complete released) false).

Fixpoint reconcile_entries (es : list WorkerLedgerEntry) : ST Pool LedgerError (list ReconcileFinding) :=
  match es with
  | [] => st_ret []
  | e :: es =>
      p <-- st_get ;;
      if negb (is_nonterminal (entry_phase e)) || bool_decide (is_Some (find_slot p (entry_worker e)))
      then reconcile_entries es
      else
        r <-- new_record Kind_Suspect (entry_worker e) (entry_generation e) ;;
        record (with_detail (phase_code (entry_phase e)) r) ;;;
        f <-- settle e ;;
        r <-- new_record Kind_Reconciled (entry_worker e) (entry_generation e) ;;
        record (with_resources (entry_resources e) (with_identity (default absent (entry_identity e))
          (with_detail (disposition_code (finding_disposition f)) r))) ;;;
        fs <-- reconcile_entries es ;;
        st_ret (f :: fs)
  end.

Definition reconcile : ST Pool LedgerError ReconcileReport :=
  records <-- ledger_read ;;
  es <-- st_lift (entries_of records) ;;
  fs <-- reconcile_entries (entry_values es) ;;
  st_modify (set_reconciled true) ;;;
  st_ret (mkReconcileReport (length fs) fs).

(** [Pool::open] over a ledger whose whole records are [records]: the directory is listed, and
    then read once for the entries and once for the claims. *)
Definition pool_open (digest : PoolKeyDigest) (limits : Limits) (shape : ValidShape) (adm : Admission P)
    (records : list LedgerRecord) (w : W) : Result Pool PoolError :=
  let? limits := map_err PoolError_Limits (limits_validate limits) in
  let '(w, opened) := open_io w in
  let? _ := match opened with Some e => Err (PoolError_Ledger e) | None => Ok tt end in
  let '(w, loaded) := ledger_load records w in
  let? es := map_err PoolError_Ledger (let? records := loaded in entries_of records) in
  let suspect := existsb (fun e => is_nonterminal (entry_phase e)) (map_to_list es).*2 in
  let '(w, loaded) := ledger_load records w in
  let? claims := map_err PoolError_Ledger (let? records := loaded in Ok (claims_of records)) in
  Ok (mkPool digest limits shape (fun _ => slot_new [] digest) 0 [] ∅ ∅
        (seed claims (binding_limit limits) registry_default) 0 (negb suspect) records adm w).
End transfer.
Arguments TransferEvidence : clear implicits.
Arguments Attempt : clear implicits.
