(* ===== verification/HostWorld.v ===== *)
(** A concrete world for the pool: a clock that ticks, workers numbered in the order they are
    built, brokers that always grant, and a ledger whose appends fail, and leave what they leave,
    as a script says. *)

From S2P Require Import Prelude Bytes HostAdmission HostAdmissionFacts HostAdmissionProps HostState HostLedger HostPool HostClaim HostTransfer.
From stdpp Require Import options.

Record Scripted : Type := mkScripted {
  ticks : Z;
  built_workers : Z;
  append_fails : list (option Residue);
  torn : bool
}.

Definition tick (w : Scripted) : Scripted := mkScripted (ticks w + 1) (built_workers w) (append_fails w) (torn w).

(** The world once the next append of the script was tried. *)
Definition next_append (w : Scripted) : Scripted :=
  mkScripted (ticks w) (built_workers w) (tail (append_fails w))
    (torn w || match append_fails w with Some Residue_Part :: _ => true | _ => false end).

Definition grant_all : AssignedResources unit unit := mkAssignedResources (replicate 16 4) tt (replicate 16 5) 1 tt tt 9 tt.

#[export] Instance scripted_world : PoolWorld Scripted Z unit unit unit := {|
  instant_now w := (tick w, ticks w);
  now_nanos w := (tick w, ticks w);
  append_io _ w := (next_append w,
    match append_fails w with
    | Some residue :: _ => Some (LedgerError_Write 0 IoErrorKind_Other, residue)
    | _ => None
    end);
  open_io w := (w, None);
  read_io w := (w, if torn w then Some (LedgerError_Corrupt 0) else None);
  fresh_worker_id w :=
    (mkScripted (ticks w) (built_workers w + 1) (append_fails w) (torn w), replicate 16 (built_workers w + 1));
  read_urandom w := (w, Some (replicate 32 6));
  launcher_construct _ _ w := (w, Ok (built_workers w));
  launcher_probe _ w := (w, Liveness_Alive);
  launcher_terminate _ w := (w, mkDestroyOutcome Removed Removed true);
  handle_identity h := mkWorkerIdentity h (replicate 16 1);
  handle_deliver _ h w := (w, (h, Ok tt));
  handle_start h w := (w, (h, Ok tt));
  handle_destroy _ w := (w, mkDestroyOutcome Removed Removed true);
  broker_prepare _ _ w := (w, Ok (tt, mkResourceRefs (Some (replicate 16 4)) None));
  broker_assign _ _ w := (w, Ok grant_all);
  broker_release_sterile _ w := (w, mkResourceRelease Removed Removed true);
  broker_release _ w := (w, mkResourceRelease Removed Removed true);
  broker_verify _ w := (w, ResourceLiveness_Present);
|}.

Notation demo_pool := (Pool Scripted Z unit unit SingleNode).

Definition demo_limits : Limits := mkLimits 0 2 4 1 1000 1000 Exhausted_Reject 4.
Definition demo_digest : PoolKeyDigest := replicate 32 9.

Definition demo_admission : Admission SingleNode := admission_new certified1 mkSingleNode.

(** A pool opened over an empty ledger whose appends fail as [fails] says. *)
Definition demo_open (fails : list (option Residue)) : Result demo_pool PoolError :=
  pool_open demo_digest demo_limits shape1 demo_admission [] (mkScripted 1 0 fails false).

Definition op1 : OperationId := replicate 16 21.
Definition op2 : OperationId := replicate 16 22.

Definition demo_intent : AssignmentIntent := mkAssignmentIntent (replicate 16 31) op1 9 [1; 2] 5000 (replicate 32 8).

(** A digest for the witnesses: not all zero, 32 bytes, and different for different lengths. *)
Definition demo_sha (m : bytes) : bytes := replicate 32 (Z.of_nat (length m) mod 255 + 1).

Definition demo_fingerprint : RequestFingerprint := intent_fingerprint demo_sha demo_intent.
