(* ===== verification/HostPoolFacts.v ===== *)
(** What the operations of a pool leave alone: a small calculus of relations between the state
    before and after a computation, and the frame of every operation that is not a claim. *)

From S2P Require Import Prelude Bytes HostAdmission HostState HostLedger HostPool HostClaim HostTransfer.
From stdpp Require Import options.

(** * Relations between the states around a computation *)

Definition st_rel {S E A} (Rel : S -> S -> Prop) (c : ST S E A) : Prop := forall s, Rel s (c s).1.

Section st_rel.
Context {S : Type} (Rel : S -> S -> Prop) `{!PreOrder Rel}.

Lemma st_rel_ret {E A : Type} (a : A) : st_rel Rel (st_ret (E := E) a).
Proof using Type*. intros s. cbn. reflexivity. Qed.

Lemma st_rel_err {E A : Type} (e : E) : st_rel Rel (st_err (A := A) e).
Proof using Type*. intros s. cbn. reflexivity. Qed.

Lemma st_rel_lift {E A : Type} (r : Result A E) : st_rel Rel (st_lift r).
Proof using Type*. intros s. cbn. reflexivity. Qed.

Lemma st_rel_get {E : Type} : st_rel Rel (st_get (E := E)).
Proof using Type*. intros s. cbn. reflexivity. Qed.

Lemma st_rel_bind {E A B} (c : ST S E A) (k : A -> ST S E B) :
  st_rel Rel c -> (forall a, st_rel Rel (k a)) -> st_rel Rel (st_bind c k).
Proof using Type*.
  intros Hc Hk s. unfold st_bind. specialize (Hc s). destruct (c s) as [s' [a | e]]; cbn in *; [ | done].
  etrans; [exact Hc | apply Hk].
Qed.

Lemma st_rel_try {E E' A} (c : ST S E A) : st_rel Rel c -> st_rel Rel (st_try (E' := E') c).
Proof using Type*. intros Hc s. specialize (Hc s). unfold st_try. by destruct (c s). Qed.

Lemma st_rel_map_err {E F A} (f : E -> F) (c : ST S E A) : st_rel Rel c -> st_rel Rel (st_map_err f c).
Proof using Type*. intros Hc s. specialize (Hc s). unfold st_map_err. by destruct (c s). Qed.

Lemma st_rel_modify {E : Type} (f : S -> S) : (forall s, Rel s (f s)) -> st_rel Rel (st_modify (E := E) f).
Proof using Type*. intros Hf s. apply Hf. Qed.

(** Reading the state: what follows may use the state it was read from. *)
Lemma st_rel_bind_get {E B : Type} (k : S -> ST S E B) :
  (forall s, Rel s (k s s).1) -> st_rel Rel (st_bind st_get k).
Proof using Type*. intros Hk s. apply Hk. Qed.
End st_rel.

(** * What holds after a computation *)

(** [wp c s Q]: the state and result of [c] from [s] satisfy [Q]. *)
Definition wp {S E A} (c : ST S E A) (s : S) (Q : S -> Result A E -> Prop) : Prop := let '(s', r) := c s in Q s' r.

Section wp.
Context {S : Type}.

Lemma wp_bind {E A B} (c : ST S E A) (k : A -> ST S E B) s Q :
  wp c s (fun s' r => match r with Ok a => wp (k a) s' Q | Err e => Q s' (Err e) end) -> wp (st_bind c k) s Q.
Proof. unfold wp, st_bind. by destruct (c s) as [s' [a | e]]. Qed.

Lemma wp_mono {E A} (c : ST S E A) s (Q Q' : S -> Result A E -> Prop) :
  wp c s Q -> (forall s' r, Q s' r -> Q' s' r) -> wp c s Q'.
Proof. unfold wp. destruct (c s). auto. Qed.

Lemma wp_eq {E A} (c : ST S E A) s Q s' r : wp c s Q -> c s = (s', r) -> Q s' r.
Proof. unfold wp. intros Hw Heq. by rewrite Heq in Hw. Qed.

Lemma wp_intro {E A} (c : ST S E A) s (Q : S -> Result A E -> Prop) :
  (forall s' r, c s = (s', r) -> Q s' r) -> wp c s Q.
Proof. unfold wp. destruct (c s). auto. Qed.

Lemma wp_rel {E A} (Rel : S -> S -> Prop) (c : ST S E A) s (Q : S -> Result A E -> Prop) :
  st_rel Rel c -> (forall s' r, Rel s s' -> Q s' r) -> wp c s Q.
Proof. intros Hc HQ. unfold wp. specialize (Hc s). destruct (c s). auto. Qed.

Lemma wp_ret {E A} (a : A) s (Q : S -> Result A E -> Prop) : Q s (Ok a) -> wp (st_ret a) s Q.
Proof. done. Qed.

Lemma wp_err {E A} (e : E) s (Q : S -> Result A E -> Prop) : Q s (Err e) -> wp (st_err e) s Q.
Proof. done. Qed.

Lemma wp_lift {E A} (r : Result A E) s (Q : S -> Result A E -> Prop) : Q s r -> wp (st_lift r) s Q.
Proof. done. Qed.

Lemma wp_get {E} s (Q : S -> Result S E -> Prop) : Q s (Ok s) -> wp st_get s Q.
Proof. done. Qed.

Lemma wp_modify {E} f s (Q : S -> Result unit E -> Prop) : Q (f s) (Ok tt) -> wp (st_modify f) s Q.
Proof. done. Qed.

Lemma wp_try {E E' A} (c : ST S E A) s (Q : S -> Result (Result A E) E' -> Prop) :
  wp c s (fun s' r => Q s' (Ok r)) -> wp (st_try c) s Q.
Proof. unfold wp, st_try. by destruct (c s). Qed.

Lemma wp_map_err {E F A} (f : E -> F) (c : ST S E A) s (Q : S -> Result A F -> Prop) :
  wp c s (fun s' r => Q s' (map_err f r)) -> wp (st_map_err f c) s Q.
Proof. unfold wp, st_map_err. by destruct (c s). Qed.
End wp.

Create HintDb frame.

(** Walk through a computation by its binds and matches. *)
Ltac frame :=
  repeat first
    [ progress intros
    | match goal with |- st_rel _ (st_bind _ _) => apply st_rel_bind end
    | match goal with |- st_rel _ (match ?x with _ => _ end) => destruct x end
    | solve [eauto with frame]
    | match goal with
      | |- st_rel _ (st_try _) => apply st_rel_try
      | |- st_rel _ (st_map_err _ _) => apply st_rel_map_err
      end ].

(** * Computations that cannot fail *)

Definition st_total {S E A} (c : ST S E A) : Prop := forall s, is_ok (c s).2 = true.

Lemma st_total_ret {S E A} (a : A) : st_total (S := S) (st_ret (E := E) a).
Proof. done. Qed.
Lemma st_total_get {S E} : st_total (st_get (S := S) (E := E)).
Proof. done. Qed.
Lemma st_total_modify {S E} (f : S -> S) : st_total (st_modify (E := E) f).
Proof. done. Qed.
Lemma st_total_try {S E E' A} (c : ST S E A) : st_total (st_try (E' := E') c).
Proof. intros s. unfold st_try. by destruct (c s). Qed.
Lemma st_total_bind {S E A B} (c : ST S E A) (k : A -> ST S E B) :
  st_total c -> (forall a, st_total (k a)) -> st_total (st_bind c k).
Proof. intros Hc Hk s. unfold st_bind. specialize (Hc s). destruct (c s) as [s' [a | e]]; [apply Hk | done]. Qed.
Lemma st_total_in_world {W H R N P E A} (c : W -> W * A) : st_total (in_world (H := H) (R := R) (N := N) (P := P) (E := E) c).
Proof. intros p. unfold in_world. by destruct (c (world p)). Qed.
Lemma st_total_in_admission {W H R N P E A} (c : Admission P -> Admission P * A) :
  st_total (in_admission (W := W) (H := H) (R := R) (N := N) (E := E) c).
Proof. intros p. unfold in_admission. by destruct (c (admission p)). Qed.

Lemma wp_total {S E A} (c : ST S E A) s (Q : S -> Result A E -> Prop) :
  st_total c -> (forall s' a, c s = (s', Ok a) -> Q s' (Ok a)) -> wp c s Q.
Proof. intros Hc HQ. unfold wp. specialize (Hc s). destruct (c s) as [s' [a | e]]; [by apply HQ | done]. Qed.

(** A total computation within a relation. *)
Lemma wp_total_rel {S E A} (Rel : S -> S -> Prop) (c : ST S E A) s (Q : S -> Result A E -> Prop) :
  st_rel Rel c -> st_total c -> (forall s' a, Rel s s' -> Q s' (Ok a)) -> wp c s Q.
Proof.
  intros Hr Hc HQ. apply wp_total; [done | ]. intros s' a Heq. apply HQ. specialize (Hr s). by rewrite Heq in Hr.
Qed.

Create HintDb total.
#[export] Hint Resolve st_total_ret st_total_get st_total_modify st_total_try st_total_in_world st_total_in_admission : total.

Ltac total :=
  repeat first
    [ progress intros
    | match goal with |- st_total (st_bind _ _) => apply st_total_bind end
    | solve [eauto with total]
    | match goal with |- st_total (match ?x with _ => _ end) => destruct x end ].

Section total_ops.
Context {W H R D N P : Type} `{PoolWorld W H R D N, NumaPlacement P}.

Lemma total_new_record {E : Type} k w g : st_total (new_record (E := E) (R := R) (P := P) k w g).
Proof using Type. unfold new_record. total. Qed.
Lemma total_release_capacity {E : Type} r : st_total (release_capacity (W := W) (H := H) (R := R) (N := N) (P := P) (E := E) r).
Proof using Type. unfold release_capacity. total. Qed.
Lemma total_capacity_launched {E : Type} r : st_total (capacity_launched (W := W) (H := H) (R := R) (N := N) (P := P) (E := E) r).
Proof using Type. unfold capacity_launched. total. Qed.
Lemma total_release_resources {E : Type} r : st_total (release_resources (P := P) (E := E) r).
Proof using Type. unfold release_resources. total. Qed.
Lemma total_destroy_process {E : Type} h i : st_total (destroy_process (R := R) (P := P) (E := E) h i).
Proof using Type. unfold destroy_process. total. Qed.
Lemma total_destroy_handle {E : Type} h : st_total (destroy_handle (R := R) (P := P) (E := E) h).
Proof using Type. unfold destroy_handle. total. Qed.
End total_ops.
#[export] Hint Resolve total_new_record total_release_capacity total_capacity_launched total_release_resources
  total_destroy_process total_destroy_handle : total.

Section total_destroy.
Context {W H R D N P : Type} `{PoolWorld W H R D N, NumaPlacement P}.

Lemma total_teardown {E : Type} h handle ident res reason : st_total (teardown (P := P) (E := E) h handle ident res reason).
Proof using Type. unfold teardown. total. Qed.
Lemma total_orphan {E : Type} h res : st_total (orphan (P := P) (E := E) h res).
Proof using Type. unfold orphan. total. Qed.
End total_destroy.
#[export] Hint Resolve total_teardown total_orphan : total.

Section total_close.
Context {W H R D N P : Type} `{PoolWorld W H R D N, NumaPlacement P}.

Lemma total_destroy_claiming {E : Type} h held reason : st_total (destroy_claiming (P := P) (E := E) h held reason).
Proof using Type. unfold destroy_claiming. total. Qed.
Lemma total_destroy_owned {E : Type} o reason : st_total (destroy_owned (R := R) (P := P) (E := E) o reason).
Proof using Type. unfold destroy_owned. total. Qed.
End total_close.
#[export] Hint Resolve total_destroy_claiming total_destroy_owned : total.

(** * The frame of what is not a claim *)

Section quiet.
Context {W H R D N P : Type} `{PoolWorld W H R D N, NumaPlacement P}.
Context (sha256 : bytes -> bytes).
Notation Pool := (Pool W H R N P).

(** Every outcome of an append: either it failed and left no whole record, or the record is there,
    whether the append succeeded or failed. *)
Lemma record_cases r (p : Pool) :
  (exists e, record r p = (set_world (append_io r (world p)).1 p, Err e)) \/
  exists res, record r p = (set_records (pool_records p ++ [r]) (set_world (append_io r (world p)).1 p), res).
Proof using Type.
  unfold record, st_bind, in_world. destruct (append_io r (world p)) as [w [[e []] | ]]; cbn; eauto.
Qed.

Lemma record_Ok r (p : Pool) : (append_io r (world p)).2 = None ->
  record r p = (set_records (pool_records p ++ [r]) (set_world (append_io r (world p)).1 p), Ok tt).
Proof using Type. unfold record, st_bind, in_world. by destruct (append_io r (world p)) as [w [[e []] | ]]. Qed.

(** Every outcome of a reading. *)
Lemma ledger_read_eq (p : Pool) :
  ledger_read p = (set_world (read_io (world p)).1 p,
    match (read_io (world p)).2 with Some e => Err e | None => Ok (pool_records p) end).
Proof using Type.
  unfold ledger_read, ledger_load, st_bind, st_get, in_world, st_lift. by destruct (read_io (world p)) as [w [e | ]].
Qed.

(** The registry, the recorded claims and the settings of the pool are the same. *)
Definition quiet (p q : Pool) : Prop :=
  registry q = registry p /\ claims_of (pool_records q) = claims_of (pool_records p) /\
  pool_limits q = pool_limits p /\ pool_digest q = pool_digest p /\ pool_shape q = pool_shape p.

#[export] Instance quiet_preorder : PreOrder quiet.
Proof.
  split; [by repeat split | ]. intros p q r (? & ? & ? & ? & ?) (? & ? & ? & ? & ?). repeat split; congruence.
Qed.

Lemma quiet_ret {E A : Type} (a : A) : st_rel quiet (st_ret (E := E) a).
Proof using Type. apply st_rel_ret, _. Qed.
Lemma quiet_err {E A : Type} (e : E) : st_rel quiet (st_err (A := A) e).
Proof using Type. apply st_rel_err, _. Qed.
Lemma quiet_lift {E A : Type} (r : Result A E) : st_rel quiet (st_lift r).
Proof using Type. apply st_rel_lift, _. Qed.
Lemma quiet_get {E : Type} : st_rel quiet (st_get (E := E)).
Proof using Type. apply st_rel_get, _. Qed.

Lemma quiet_in_world {E A : Type} (c : W -> W * A) : st_rel quiet (in_world (E := E) c).
Proof using Type. intros p. unfold in_world. destruct (c (world p)). by repeat split. Qed.

Lemma quiet_in_admission {E A : Type} (c : Admission P -> Admission P * A) : st_rel quiet (in_admission (E := E) c).
Proof using Type. intros p. unfold in_admission. destruct (c (admission p)). by repeat split. Qed.

Lemma quiet_on_slot {E A : Type} i (c : ST Slot E A) : st_rel quiet (on_slot i c).
Proof using Type. intros p. unfold on_slot. destruct (c (arena p i)). by repeat split. Qed.

Lemma quiet_set_prepared {E : Type} (f : Pool -> gmap WorkerId (Prepared H R)) :
  st_rel quiet (st_modify (E := E) (fun p => set_prepared (f p) p)).
Proof using Type. intros p. by repeat split. Qed.
Lemma quiet_set_prepared_const {E : Type} m : st_rel quiet (st_modify (E := E) (set_prepared m)).
Proof using Type. intros p. by repeat split. Qed.
Lemma quiet_set_owned {E : Type} (f : Pool -> gmap WorkerId (Owned H N)) :
  st_rel quiet (st_modify (E := E) (fun p => set_owned (f p) p)).
Proof using Type. intros p. by repeat split. Qed.
Lemma quiet_set_owned_const {E : Type} m : st_rel quiet (st_modify (E := E) (set_owned m)).
Proof using Type. intros p. by repeat split. Qed.
Lemma quiet_set_slots {E : Type} f n t : st_rel quiet (st_modify (E := E) (set_slots f n t)).
Proof using Type. intros p. by repeat split. Qed.
Lemma quiet_set_in_flight {E : Type} (f : Pool -> nat) : st_rel quiet (st_modify (E := E) (fun p => set_in_flight (f p) p)).
Proof using Type. intros p. by repeat split. Qed.
Lemma quiet_set_in_flight_const {E : Type} n : st_rel quiet (st_modify (E := E) (set_in_flight n)).
Proof using Type. intros p. by repeat split. Qed.
Lemma quiet_set_reconciled {E : Type} b : st_rel quiet (st_modify (E := E) (set_reconciled b)).
Proof using Type. intros p. by repeat split. Qed.

Lemma claims_of_snoc rs r : claims_of (rs ++ [r]) = claims_of rs ++ option_list (claim_record r).
Proof using Type. unfold claims_of. rewrite omap_app. cbn. by destruct (claim_record r). Qed.

Lemma quiet_record r : kind r <> Kind_Claiming -> st_rel quiet (record r).
Proof using Type.
  intros Hk p. destruct (record_cases r p) as [[e ->] | [res ->]]; [by repeat split | ].
  split; [done | ]. split; [ | done]. cbn [fst pool_records set_records set_world].
  rewrite claims_of_snoc. unfold claim_record. rewrite decide_False by done. by rewrite app_nil_r.
Qed.

(** What follows a new record knows its kind. *)
Lemma quiet_new_record {E B : Type} k w g (c : LedgerRecord -> ST Pool E B) :
  (forall r, kind r = k -> st_rel quiet (c r)) -> st_rel quiet (st_bind (new_record k w g) c).
Proof using Type.
  intros Hc p. unfold new_record, st_bind, st_get, in_world, st_ret. destruct (now_nanos (world p)) as [w' now]. cbn.
  etrans; [ | apply Hc; done]. by repeat split.
Qed.
End quiet.

#[export] Hint Resolve quiet_ret quiet_err quiet_lift quiet_get quiet_in_world quiet_in_admission quiet_on_slot
  quiet_set_prepared quiet_set_prepared_const quiet_set_owned quiet_set_owned_const quiet_set_slots
  quiet_set_in_flight quiet_set_in_flight_const quiet_set_reconciled : frame.

Ltac quiet :=
  repeat first
    [ match goal with |- st_rel _ (st_bind (new_record _ _ _) _) => apply quiet_new_record; intros ? ? end
    | progress intros
    | match goal with |- st_rel _ (st_bind _ _) => apply (st_rel_bind quiet) end
    | match goal with |- st_rel _ (st_try _) => apply (st_rel_try quiet) end
    | match goal with |- st_rel _ (st_map_err _ _) => apply (st_rel_map_err quiet) end
    | match goal with |- st_rel _ (record _) => apply quiet_record; cbn; congruence end
    | solve [eauto with frame]
    | match goal with |- st_rel _ (match ?x with _ => _ end) => destruct x end ].

Section quiet_ops.
Context {W H R D N P : Type} `{PoolWorld W H R D N, NumaPlacement P}.
Context (sha256 : bytes -> bytes).
Notation Pool := (Pool W H R N P).
Notation q := (quiet (W := W) (H := H) (R := R) (N := N) (P := P)).

Lemma quiet_ledger_read : st_rel q ledger_read.
Proof using Type. unfold ledger_read. quiet. Qed.

Lemma quiet_add_slot s : st_rel q (add_slot s).
Proof using Type. unfold add_slot. quiet. Qed.

Lemma quiet_release_capacity {E : Type} r : st_rel q (release_capacity (E := E) r).
Proof using Type. unfold release_capacity. quiet. Qed.

Lemma quiet_capacity_launched {E : Type} r : st_rel q (capacity_launched (E := E) r).
Proof using Type. unfold capacity_launched. quiet. Qed.

Lemma quiet_reserve_capacity : st_rel q reserve_capacity.
Proof using Type. unfold reserve_capacity. quiet. Qed.

Lemma quiet_release_resources {E : Type} r : st_rel q (release_resources (E := E) r).
Proof using Type. unfold release_resources. quiet. Qed.

Lemma quiet_destroy_process {E : Type} h i : st_rel q (destroy_process (E := E) h i).
Proof using Type. unfold destroy_process. quiet. Qed.

Lemma quiet_destroy_handle {E : Type} h : st_rel q (destroy_handle (E := E) h).
Proof using Type. unfold destroy_handle. quiet. Qed.

Hint Resolve quiet_ledger_read quiet_add_slot quiet_release_capacity quiet_capacity_launched quiet_reserve_capacity
  quiet_release_resources quiet_destroy_process quiet_destroy_handle : frame.

Lemma quiet_teardown {E : Type} h handle ident res reason : st_rel q (teardown (E := E) h handle ident res reason).
Proof using Type. unfold teardown. quiet. Qed.

Lemma quiet_orphan {E : Type} h res : st_rel q (orphan (E := E) h res).
Proof using Type. unfold orphan. quiet. Qed.

Hint Resolve quiet_teardown quiet_orphan : frame.

Lemma quiet_destroy_claiming {E : Type} h held reason : st_rel q (destroy_claiming (E := E) h held reason).
Proof using Type. unfold destroy_claiming. quiet. Qed.

Lemma quiet_owned_destroy w : st_rel q (owned_destroy w).
Proof using Type. unfold owned_destroy. quiet. Qed.

Hint Resolve quiet_destroy_claiming quiet_owned_destroy : frame.

Lemma quiet_destroy_owned {E : Type} o reason : st_rel q (destroy_owned (E := E) o reason).
Proof using Type. unfold destroy_owned. quiet. Qed.

Hint Resolve quiet_destroy_owned : frame.

Lemma quiet_fail_construction {A : Type} h handle sterile fault : st_rel q (fail_construction h handle sterile fault (A := A)).
Proof using Type. unfold fail_construction. quiet. Qed.

Hint Resolve quiet_fail_construction : frame.

Lemma quiet_publish h id handle sterile refs : st_rel q (publish h id handle sterile refs).
Proof using Type. unfold publish. quiet. Qed.

Hint Resolve quiet_publish : frame.

Lemma quiet_construct_reserved : st_rel q construct_reserved.
Proof using Type. unfold construct_reserved. quiet. Qed.

Hint Resolve quiet_construct_reserved : frame.

Lemma quiet_construct_one : st_rel q construct_one.
Proof using Type. unfold construct_one. quiet. Qed.

Hint Resolve quiet_construct_one : frame.

Lemma quiet_try_claim_slot {E : Type} i : st_rel q (try_claim_slot (E := E) i).
Proof using Type. unfold try_claim_slot. quiet. Qed.

Hint Resolve quiet_try_claim_slot : frame.

Lemma quiet_claim_first {E : Type} slots : st_rel q (claim_first (E := E) slots).
Proof using Type. induction slots; cbn [claim_first]; quiet. Qed.

Hint Resolve quiet_claim_first : frame.

Lemma quiet_acquire : st_rel q acquire.
Proof using Type. unfold acquire. quiet. Qed.

Lemma quiet_replenish fuel built : st_rel q (replenish_blocking fuel built).
Proof using Type. revert built. induction fuel; intros built; cbn [replenish_blocking]; quiet. Qed.

Lemma quiet_drop_claimed {E : Type} c : st_rel q (drop_claimed (E := E) c).
Proof using Type. unfold drop_claimed. quiet. Qed.

Lemma quiet_failure_of {A : Type} id step fault d : st_rel q (failure_of id step fault d (A := A)).
Proof using Type. unfold failure_of. quiet. Qed.

Hint Resolve quiet_failure_of : frame.

Lemma quiet_abort_transfer {A : Type} a step fault : st_rel q (abort_transfer a step fault (A := A)).
Proof using Type. unfold abort_transfer. quiet. Qed.

Lemma quiet_past_deadline {E : Type} won : st_rel q (past_deadline (E := E) won).
Proof using Type. unfold past_deadline. quiet. Qed.

Hint Resolve quiet_abort_transfer quiet_past_deadline : frame.

Lemma quiet_assigning a intent : st_rel q (assigning a intent).
Proof using Type. unfold assigning. quiet. Qed.

Hint Resolve quiet_assigning : frame.

Lemma quiet_admit c intent : st_rel q (admit_grant sha256 c intent).
Proof using Type. unfold admit_grant. quiet. Qed.

Lemma quiet_refuse_foreign {A : Type} c : st_rel q (refuse_foreign c (A := A)).
Proof using Type. unfold refuse_foreign. quiet. Qed.

Lemma quiet_deliver {E : Type} a intent frame : st_rel q (deliver (E := E) a intent frame).
Proof using Type. unfold deliver. quiet. Qed.

Hint Resolve quiet_admit quiet_deliver : frame.

Lemma quiet_deliver_all a intent fs steps : st_rel q (deliver_all a intent fs steps).
Proof using Type. revert a steps. induction fs; intros b steps; cbn [deliver_all]; quiet. Qed.

Lemma quiet_commit a intent launch : st_rel q (commit a intent launch).
Proof using Type. unfold commit. quiet. Qed.

Lemma quiet_fresh_entropy {E : Type} : st_rel q (fresh_entropy (E := E)).
Proof using Type. unfold fresh_entropy. quiet. Qed.

Hint Resolve quiet_deliver_all quiet_commit quiet_fresh_entropy : frame.

Lemma quiet_transfer c intent : st_rel q (transfer sha256 c intent).
Proof using Type. unfold transfer. quiet. Qed.

Lemma quiet_begin_start w : st_rel q (begin_start w).
Proof using Type. unfold begin_start. quiet. Qed.

Lemma quiet_finish_start w handle started : st_rel q (finish_start w handle started).
Proof using Type. unfold finish_start. quiet. Qed.

Hint Resolve quiet_begin_start quiet_finish_start : frame.

Lemma quiet_start w : st_rel q (start w).
Proof using Type. unfold start. quiet. Qed.

Lemma quiet_release_worker w : st_rel q (release_worker w).
Proof using Type. unfold release_worker. quiet. Qed.

Lemma quiet_evict_slots {E : Type} slots : st_rel q (evict_slots (E := E) slots).
Proof using Type. induction slots; cbn [evict_slots]; quiet. Qed.

Hint Resolve quiet_evict_slots : frame.

Lemma quiet_evict_sterile {E : Type} : st_rel q (evict_sterile (E := E)).
Proof using Type. unfold evict_sterile. quiet. Qed.

Lemma quiet_retain {E : Type} e : st_rel q (retain (E := E) e).
Proof using Type. unfold retain. quiet. Qed.

Hint Resolve quiet_retain : frame.

Lemma quiet_settle {E : Type} e : st_rel q (settle (E := E) e).
Proof using Type. unfold settle. quiet. Qed.

Hint Resolve quiet_settle : frame.

Lemma quiet_reconcile_entries es : st_rel q (reconcile_entries es).
Proof using Type. induction es; cbn [reconcile_entries]; quiet. Qed.

Hint Resolve quiet_reconcile_entries : frame.

Lemma quiet_reconcile : st_rel q reconcile.
Proof using Type. unfold reconcile. quiet. Qed.
End quiet_ops.

(** * Opening *)

Section opening.
Context {W H R D N P : Type} `{PoolWorld W H R D N, NumaPlacement P}.
Notation Pool := (Pool W H R N P).

(** The world once [Pool::open] listed the ledger and read it twice. *)
Definition opened_world (w : W) : W := (read_io (read_io (open_io w).1).1).1.

(** The failure [Pool::open] meets before it folds the records. *)
Definition opening_error (w : W) : option LedgerError :=
  match (open_io w).2 with Some e => Some e | None => (read_io (open_io w).1).2 end.

Lemma ledger_load_Ok records w w' loaded :
  ledger_load records w = (w', Ok loaded) -> w' = (read_io w).1 /\ loaded = records.
Proof using Type. unfold ledger_load. destruct (read_io w) as [w1 [e | ]]; [done | ]. by intros [= <- <-]. Qed.

Lemma pool_open_inv digest limits shape adm records w (p : Pool) :
  pool_open digest limits shape adm records w = Ok p ->
  limits_validate limits = Ok limits /\ exists es, entries_of records = Ok es /\
  p = mkPool digest limits shape (fun _ => slot_new [] digest) 0 [] ∅ ∅
        (seed (claims_of records) (binding_limit limits) registry_default) 0
        (negb (existsb (fun e => is_nonterminal (entry_phase e)) (map_to_list es).*2)) records adm (opened_world w).
Proof using Type.
  unfold pool_open, opened_world. intros (l & Hl%map_err_Ok & Hp)%bind_Ok.
  assert (l = limits) as ->. { clear Hp. unfold limits_validate in Hl. repeat (case_match; [done | ]). by injection Hl. }
  split; [done | ]. destruct (open_io w) as [w1 [e | ]]; cbn [fst]; [done | ].
  destruct (ledger_load records w1) as [w2 [rs | e]] eqn:Hl1; [ | done]. apply ledger_load_Ok in Hl1 as [-> ->].
  apply bind_Ok in Hp as (es & Hes%map_err_Ok & Hp).
  destruct (ledger_load records (read_io w1).1) as [w3 [rs | e]] eqn:Hl2; [ | done]. apply ledger_load_Ok in Hl2 as [-> ->].
  exists es. split; [exact Hes | ]. by injection Hp as <-.
Qed.

(** A ledger that folds opens when it can be read. *)
Lemma pool_open_folds digest limits shape adm records w es : limits_validate limits = Ok limits ->
  entries_of records = Ok es -> opening_error w = None -> (read_io (read_io (open_io w).1).1).2 = None ->
  is_ok (pool_open (W := W) (H := H) (R := R) (N := N) (P := P) digest limits shape adm records w) = true.
Proof using Type.
  unfold pool_open, opening_error, ledger_load. intros -> Hes Ho Hr. cbn [map_err].
  destruct (open_io w) as [w1 [e | ]]; [done | ]. cbn [fst snd] in *. destruct (read_io w1) as [w2 [e | ]]; [done | ].
  rewrite Hes. cbn [fst snd map_err] in *. by destruct (read_io w2) as [w3 [e | ]].
Qed.

(** A ledger that does not fold never opens. *)
Lemma pool_open_stuck digest limits shape adm records w e : limits_validate limits = Ok limits ->
  entries_of records = Err e ->
  pool_open (W := W) (H := H) (R := R) (N := N) (P := P) digest limits shape adm records w =
  Err (PoolError_Ledger (default e (opening_error w))).
Proof using Type.
  unfold pool_open, opening_error, ledger_load. intros -> He. cbn [map_err].
  destruct (open_io w) as [w1 [e' | ]]; [done | ]. cbn [fst snd]. destruct (read_io w1) as [w2 [e' | ]]; [done | ].
  by rewrite He.
Qed.
End opening.
