(* ===== verification/HostClaimProps.v ===== *)
(** The idempotent claim: whatever a pool does between them, restarts included, two claims of
    one operation have one outcome. *)

From S2P Require Import Prelude Bytes HostAdmission HostAdmissionProps HostState HostLedger HostPool HostClaim HostTransfer HostWorld HostPoolFacts.
From stdpp Require Import options.

(** * The registry and the recorded claims *)

Definition lookup_claim (o : OperationId) (cs : list ClaimRecord) : option ClaimRecord :=
  head (filter (fun c => claim_operation c = o) cs).

(** Between calls the registry knows only what the ledger recorded. *)
Record reg_ok (r : Registry) (cs : list ClaimRecord) : Prop := {
  reg_recorded : forall o, o ∈ recorded r -> o ∈ claim_operation <$> cs;
  reg_done : forall o fp out, bindings r !! o = Some (Binding_Done fp out) ->
    exists c, c ∈ cs /\ claim_operation c = o /\ claim_fingerprint c = fp /\ outcome_of c = Some out;
  reg_settled : forall o fp, bindings r !! o <> Some (Binding_InFlight fp);
  reg_classes : Forall (fun c => is_Some (outcome_of c)) cs
}.

Lemma lookup_claim_Some o cs c : lookup_claim o cs = Some c -> claim_operation c = o /\ c ∈ cs.
Proof.
  unfold lookup_claim. intros Hh.
  assert (c ∈ filter (fun c => claim_operation c = o) cs) as [? ?]%list_elem_of_filter; [ | done].
  destruct (filter _ cs) as [ | x l]; [done | ]. cbn in Hh. injection Hh as ->. by left.
Qed.

Lemma lookup_claim_None o cs : lookup_claim o cs = None <-> o ∉ claim_operation <$> cs.
Proof.
  unfold lookup_claim. split.
  - intros Hh (c & -> & Hc)%list_elem_of_fmap.
    assert (c ∈ filter (fun c' => claim_operation c' = claim_operation c) cs) as Hin by by apply list_elem_of_filter.
    destruct (filter _ cs); [by apply not_elem_of_nil in Hin | done].
  - intros Hn. destruct (filter _ cs) as [ | x l] eqn:Hf; [done | ].
    assert (x ∈ filter (fun c => claim_operation c = o) cs) as [? ?]%list_elem_of_filter by (rewrite Hf; by left).
    destruct Hn. apply list_elem_of_fmap. by exists x.
Qed.

Lemma other_claims o o' l : o' <> o -> Forall (fun c => claim_operation c = o) l ->
  filter (fun c => claim_operation c = o') l = [].
Proof. intros Hne Hl. induction Hl as [ | c l Hc _ IH]; [done | ]. rewrite filter_cons, decide_False; [done | congruence]. Qed.

Lemma reg_ok_delete r cs o ord : reg_ok r cs -> reg_ok (mkRegistry (delete o (bindings r)) ord (recorded r)) cs.
Proof.
  intros [Hr Hd Hs Hc]. split; cbn; try done.
  - intros o' fp out [_ Hb]%lookup_delete_Some. by eapply Hd.
  - intros o' fp [_ Hb]%lookup_delete_Some. by eapply Hs.
Qed.

(** A record more in the ledger, known or not. *)
Lemma reg_ok_snoc r cs c : reg_ok r cs -> is_Some (outcome_of c) -> reg_ok r (cs ++ [c]).
Proof.
  intros [Hr Hd Hs Hc] Hout. split; [ | | done | by apply Forall_app_2, Forall_singleton].
  - intros o Ho. rewrite fmap_app, elem_of_app. left. by apply Hr.
  - intros o fp out (c' & Hin & ?)%Hd. exists c'. rewrite elem_of_app. auto.
Qed.

Lemma reg_ok_push r cs c out ord : reg_ok r cs -> outcome_of c = Some out ->
  reg_ok (mkRegistry (<[claim_operation c := Binding_Done (claim_fingerprint c) out]>
           (<[claim_operation c := Binding_InFlight (claim_fingerprint c)]> (bindings r))) ord
           ({[claim_operation c]} ∪ recorded r)) (cs ++ [c]).
Proof.
  intros Hok Hout. rewrite insert_insert_eq. destruct (reg_ok_snoc r cs c Hok) as [Hr Hd Hs Hc]; [by eexists | ].
  split; cbn; [ | | | done].
  - intros o [->%elem_of_singleton | Ho]%elem_of_union; [ | by apply Hr]. rewrite fmap_app, elem_of_app. right. by left.
  - intros o fp out' [[<- [= <- <-]] | [_ Hb]]%lookup_insert_Some; [ | by apply Hd].
    exists c. rewrite elem_of_app, list_elem_of_singleton. auto.
  - intros o fp [[_ ?] | [_ Hb]]%lookup_insert_Some; [done | by eapply Hs].
Qed.

(** * Seeding after a restart *)

Lemma seed_bindings_ok limit cs todo r : Forall (fun c => c ∈ cs) todo -> reg_ok r cs ->
  reg_ok (seed_bindings limit todo r) cs /\ recorded (seed_bindings limit todo r) = recorded r.
Proof.
  intros Htodo. revert r. induction Htodo as [ | c todo Hc _ IH]; intros r Hr; cbn [seed_bindings]; [done | ].
  destruct (Nat.leb limit (size (bindings r))); [done | ]. case_decide; [by apply IH | ].
  destruct (binding_of c) as [b | ] eqn:Hb; [ | by apply IH].
  apply bind_Some in Hb as (out & Hout & [= <-]). destruct Hr as [Hr Hd Hs Hcl].
  set (r' := mkRegistry _ _ _). apply (IH r'). split; cbn; try done; intros o fp.
  - intros out' [[<- [= <- <-]] | [_ Hb]]%lookup_insert_Some; [by exists c | by eapply Hd].
  - intros [[_ ?] | [_ Hb]]%lookup_insert_Some; [done | by eapply Hs].
Qed.

Lemma seed_ok cs limit : Forall (fun c => is_Some (outcome_of c)) cs ->
  reg_ok (seed cs limit registry_default) cs /\
  forall o, o ∈ claim_operation <$> cs -> o ∈ recorded (seed cs limit registry_default).
Proof.
  intros Hc. unfold seed. set (r := mkRegistry _ _ _).
  assert (reg_ok r cs) as Hr.
  { split; cbn; try done. intros o. by rewrite elem_of_union, elem_of_empty, elem_of_list_to_set; intros [? | ]. }
  destruct (seed_bindings_ok limit cs (rev cs) r) as [Hok ->]; [ | done | ].
  - by apply Forall_rev, Forall_forall.
  - split; [done | ]. intros o Ho. cbn. by rewrite elem_of_union, elem_of_list_to_set; left.
Qed.

Section claim_props.
Context {W H R D N P : Type} `{PoolWorld W H R D N, NumaPlacement P}.
Context (sha256 : bytes -> bytes).
Notation Pool := (Pool W H R N P).

Definition claims (p : Pool) : list ClaimRecord := claims_of (pool_records p).

Definition consistent (p : Pool) : Prop := reg_ok (registry p) (claims p).

Lemma quiet_consistent (p q : Pool) : quiet p q -> consistent p -> consistent q.
Proof using Type. intros (Hr & Hc & _) Hp. unfold consistent, claims in *. by rewrite Hr, Hc. Qed.

Lemma quiet_claims (p q : Pool) : quiet p q -> claims q = claims p.
Proof using Type. by intros (_ & Hc & _). Qed.

(** What [reserve_binding] does with an operation the ledger recorded and no call is busy with. *)
Definition reserve_known (o : OperationId) (fp : RequestFingerprint) (p : Pool) : Pool * Result (option ClaimOutcome) ClaimError :=
  match bindings (registry p) !! o with
  | Some (Binding_Done recorded outcome) =>
      (p, if decide (recorded = fp) then Ok (Some outcome) else Err (ClaimError_OperationConflict o recorded fp))
  | _ =>
      (set_world (read_io (world p)).1 p,
       match (read_io (world p)).2, claim_of o (pool_records p) with
       | Some e, _ => Err (ClaimError_Ledger e)
       | None, Some c => replay c fp
       | None, None => Ok None
       end)
  end.

Lemma lookup_claim_elem o cs : o ∈ claim_operation <$> cs -> is_Some (lookup_claim o cs).
Proof using Type. intros Ho. destruct (lookup_claim o cs) eqn:Hl; [by eexists | ]. by apply lookup_claim_None in Hl. Qed.

Lemma reserve_binding_known (p : Pool) o fp started : consistent p -> o ∈ recorded (registry p) ->
  reserve_binding [] o fp started p = reserve_known o fp p.
Proof using Type.
  intros Hp Ho. unfold reserve_known. cbn [reserve_binding]. change (st_bind st_get ?k p) with (k p p). cbv beta.
  destruct (bindings (registry p) !! o) as [[rec | rec out] | ] eqn:Hb.
  - by apply (reg_settled _ _ Hp) in Hb.
  - by case_decide.
  - rewrite decide_True by done. unfold st_bind, st_map_err. rewrite ledger_read_eq.
    destruct (read_io (world p)) as [w [e | ]]; [done | ]. cbn [fst snd map_err st_ret].
    destruct (lookup_claim_elem o (claims p)) as [c Hc]; [by apply (reg_recorded _ _ Hp) | ].
    change (claim_of o (pool_records p)) with (lookup_claim o (claims p)). by rewrite Hc.
Qed.

(** [o] is reserved and not yet settled; [known] are the operations the registry knows. *)
Definition pending_of (o : OperationId) (fp : RequestFingerprint) (known : gset OperationId) (p : Pool) : Prop :=
  exists r ord, registry p = mkRegistry (<[o := Binding_InFlight fp]> (bindings r)) ord (recorded r) /\
    recorded r = known /\ reg_ok r (claims p).

(** The ledger has records of [o] more than [cs], and what the registry knew it still knows. *)
Definition grown (o : OperationId) (known : gset OperationId) (cs : list ClaimRecord) (p : Pool) : Prop :=
  consistent p /\ known ⊆ recorded (registry p) /\
  exists l, claims p = cs ++ l /\ Forall (fun c => claim_operation c = o) l.

Lemma grown_refl o (p : Pool) : consistent p -> grown o (recorded (registry p)) (claims p) p.
Proof using Type. intros Hp. split; [done | ]. split; [done | ]. exists []. by rewrite app_nil_r. Qed.

(** [reserve_binding] of an operation the registry does not know. *)
Lemma reserve_binding_new (p : Pool) o fp started : consistent p -> o ∉ recorded (registry p) ->
  wp (reserve_binding [] o fp started) p (fun p' res => claims p' = claims p /\
    match res with
    | Ok (Some out) => p' = p /\ exists c, c ∈ claims p /\ claim_operation c = o /\ outcome_of c = Some out
    | Ok None => pending_of o fp (recorded (registry p)) p'
    | Err _ => grown o (recorded (registry p)) (claims p) p'
    end).
Proof using Type.
  intros Hp Ho. cbn [reserve_binding]. apply wp_bind, wp_get.
  destruct (bindings (registry p) !! o) as [[rec | rec out] | ] eqn:Hb.
  - by apply (reg_settled _ _ Hp) in Hb.
  - apply (reg_done _ _ Hp) in Hb as (c & Hin & Hop & Hfp & Hout).
    case_decide; [apply wp_ret; by eauto 6 | apply wp_err]. split; [done | by apply grown_refl].
  - rewrite decide_False by done. apply wp_bind, wp_ret. unfold evict_bindings.
    assert (forall (p' : Pool) r ord, p' = set_registry (mkRegistry (<[o := Binding_InFlight fp]> (bindings r)) ord (recorded r)) p ->
      recorded r = recorded (registry p) -> reg_ok r (claims p) ->
      claims p' = claims p /\ pending_of o fp (recorded (registry p)) p') as Hpend.
    { intros p' r ord -> Hrec Hr. split; [done | ]. by exists r, ord. }
    apply wp_bind, wp_bind, wp_get. destruct (Nat.ltb _ _).
    { apply wp_ret, wp_bind, wp_modify, wp_ret. by eapply (Hpend _ (registry p)). }
    destruct (match position (binding_dead p) _ with Some n => _ | None => _ end) as [n | ];
      [ | apply wp_err; split; [done | by apply grown_refl]].
    destruct (order (registry p) !! n) as [o' | ]; [ | apply wp_ret, wp_bind, wp_modify, wp_ret; by eapply (Hpend _ (registry p))].
    apply wp_modify, wp_bind, wp_modify, wp_ret. eapply Hpend; [done | done | by apply reg_ok_delete].
Qed.

Lemma quiet_pending o fp known (p q : Pool) : quiet p q -> pending_of o fp known p -> pending_of o fp known q.
Proof using Type. intros (Hr & Hc & _). unfold pending_of, claims. by rewrite Hr, Hc. Qed.

(** What a claim that reserved its operation does to the registry and the ledger. *)
Definition settled (o : OperationId) (fp : RequestFingerprint) (known : gset OperationId) (cs : list ClaimRecord) (p : Pool)
    (res : Result (Claim H R) ClaimError) : Prop :=
  grown o known cs p /\
  forall cl, res = Ok cl -> o ∈ recorded (registry p) /\ is_Some (grant cl) /\
    exists c, claims p = cs ++ [c] /\ claim_operation c = o /\ claim_fingerprint c = fp /\
      outcome_of c = Some (claim_outcome cl).

(** A failed claim clears its binding; the ledger may have its record all the same. *)
Lemma wp_clear o fp known (p : Pool) cs l (e : ClaimError) : pending_of o fp known p -> claims p = cs ++ l ->
  Forall (fun c => claim_operation c = o) l ->
  wp (clear_binding o ;;; st_err e) p (settled o fp known cs).
Proof using Type.
  intros (r & ord & Hr & Hk & Hok) Hcs Hl. apply wp_bind, wp_modify, wp_err. split; [ | done].
  unfold grown, consistent, claims. cbn [registry set_registry pool_records recorded]. rewrite Hr. cbn [bindings order recorded].
  rewrite Hk. split; [ | split; [done | by exists l]].
  rewrite delete_insert_eq, <- Hk. by apply reg_ok_delete.
Qed.

Lemma wp_quiet_clear {A : Type} o fp known (p : Pool) cs l (c : ST Pool ClaimError A) e : st_rel quiet c -> st_total c ->
  pending_of o fp known p -> claims p = cs ++ l -> Forall (fun c => claim_operation c = o) l ->
  wp (c ;;; clear_binding o ;;; st_err e) p (settled o fp known cs).
Proof using Type.
  intros Hc Ht Hp Hcs Hl. apply wp_bind, (wp_total_rel quiet); [done.. | ]. intros p' _ Hq.
  eapply wp_clear; [by eapply quiet_pending | by rewrite (quiet_claims p p') | done].
Qed.

Lemma class_from_code_code c : class_from_code (class_code c) = Some c.
Proof using Type. by destruct c. Qed.

Lemma wp_record (p : Pool) r Q :
  (forall w e, Q (set_world w p) (Err e)) ->
  (forall w res, Q (set_records (pool_records p ++ [r]) (set_world w p)) res) -> wp (record r) p Q.
Proof using Type. intros He Ho. unfold wp. destruct (record_cases r p) as [[e ->] | [res ->]]; [apply He | apply Ho]. Qed.

Lemma grant_won_settled o fp known reservation h class (p : Pool) cs :
  pending_of o fp known p -> claims p = cs ->
  wp (grant_won o fp reservation h class) p (settled o fp known cs).
Proof using Type.
  intros Hp Hcs. unfold grant_won.
  apply wp_bind, (wp_total_rel quiet); [apply quiet_in_world | apply st_total_in_world | ].
  intros p1 won Q1. apply wp_bind, wp_get, wp_bind, wp_modify.
  set (id := slot_id _). set (p2 := set_prepared _ p1). assert (quiet p p2) as Q2 by (etrans; [exact Q1 | by repeat split]).
  pose proof (quiet_pending o fp known _ _ Q2 Hp) as Hp2. pose proof (quiet_claims _ _ Q2) as Hc2.
  destruct (prepared p1 !! id) as [x | ]; last first.
  { eapply (wp_quiet_clear _ _ _ _ _ []); [apply quiet_destroy_claiming | apply total_destroy_claiming | done | | done].
    rewrite app_nil_r. congruence. }
  apply wp_bind. unfold new_record. apply wp_bind, wp_get, wp_bind, (wp_total_rel quiet);
    [apply quiet_in_world | apply st_total_in_world | ]. intros p3 now Q3.
  apply wp_ret, wp_bind, wp_try. pose proof (quiet_pending o fp known _ _ Q3 Hp2) as Hp3.
  pose proof (quiet_claims _ _ Q3) as Hc3. apply wp_record.
  - intros w e. assert (quiet p3 (set_world w p3)) as Q4 by by repeat split.
    eapply (wp_quiet_clear _ _ _ _ _ []); [apply quiet_destroy_claiming | apply total_destroy_claiming | by eapply quiet_pending | | done].
    rewrite (quiet_claims _ _ Q4), app_nil_r. congruence.
  - intros w res. set (p4 := set_records _ _).
    set (c := mkClaimRecord o fp id (worker_generation (held_worker h)) (class_code class)).
    assert (claims p4 = cs ++ [c]) as Hc4.
    { unfold p4, claims in *. cbn [pool_records set_records]. rewrite claims_of_snoc, Hc3, Hc2, Hcs. unfold claim_record.
      cbn [kind with_resources with_identity with_fingerprint with_operation with_detail record_new operation fingerprint
        worker lease_generation detail]. by rewrite decide_True by done. }
    assert (outcome_of c = Some (mkClaimOutcome id (worker_generation (held_worker h)) o class)) as Hout
      by (unfold outcome_of; cbn; by rewrite class_from_code_code).
    destruct Hp3 as (r & ord & Hr & Hk & Hok).
    assert (claims p3 = cs) as Hc3' by congruence. rewrite Hc3' in Hok. destruct res as [[] | e].
    + apply wp_bind, wp_modify, wp_ret. unfold settled, grown, consistent.
      change (claims (set_registry ?a p4)) with (claims p4). rewrite Hc4. cbn [registry set_registry]. unfold p4 at 1 2 3 4 5 6.
      cbn [registry set_records set_world]. rewrite Hr. cbn [bindings order recorded]. split; [split; [ | split] | ].
      * exact (reg_ok_push r cs c _ ord Hok Hout).
      * rewrite Hk. apply union_subseteq_r.
      * exists [c]. split; [done | by apply Forall_singleton].
      * intros cl [= <-]. split; [by apply elem_of_union_l, elem_of_singleton | ]. split; [by eexists | ]. by exists c.
    + eapply (wp_quiet_clear _ _ _ _ _ [c]); [apply quiet_destroy_claiming | apply total_destroy_claiming | | done | by apply Forall_singleton].
      exists r, ord. split; [done | ]. split; [done | ]. rewrite Hc4. apply reg_ok_snoc; [done | by eexists].
Qed.

(** The claim of an operation the registry does not know. *)
Lemma claim_new (p : Pool) o fp : consistent p -> o ∉ recorded (registry p) ->
  wp (claim [] o fp) p (fun p' res => grown o (recorded (registry p)) (claims p) p' /\
    forall cl, res = Ok cl ->
      (exists c, c ∈ claims p /\ claim_operation c = o /\ outcome_of c = Some (claim_outcome cl)) \/
      settled o fp (recorded (registry p)) (claims p) p' res).
Proof using Type.
  intros Hp Ho. unfold claim. apply wp_bind, (wp_total_rel quiet); [apply quiet_in_world | apply st_total_in_world | ].
  intros p1 started Q1. pose proof (quiet_consistent _ _ Q1 Hp) as Hc1. pose proof (quiet_claims _ _ Q1) as Hcl.
  assert (registry p1 = registry p) as Hreg by apply Q1. rewrite <- Hreg in Ho.
  apply wp_bind. eapply wp_mono; [by apply reserve_binding_new | ]. rewrite Hreg, Hcl.
  assert (forall q res, settled o fp (recorded (registry p)) (claims p) q res ->
    grown o (recorded (registry p)) (claims p) q /\ forall cl, res = Ok cl ->
      (exists c, c ∈ claims p /\ claim_operation c = o /\ outcome_of c = Some (claim_outcome cl)) \/
      settled o fp (recorded (registry p)) (claims p) q res) as Hdone by (intros q res Hs; split; [apply Hs | by right]).
  intros p2 [[out | ] | e] [Hc2 Hres].
  - destruct Hres as (-> & c & Hin & Hop & Hout). apply wp_ret. split.
    + rewrite <- Hreg, <- Hcl. by apply grown_refl.
    + intros cl [= <-]. left. by exists c.
  - apply wp_bind, wp_try, (wp_rel quiet); [apply quiet_reserve_capacity | ].
    intros p4 [reservation | rejection] Q4; pose proof (quiet_pending _ _ _ _ _ Q4 Hres) as Hpend4;
      pose proof (quiet_claims _ _ Q4) as Hc4; last first.
    { eapply wp_mono; [eapply (wp_clear _ _ _ _ (claims p) []); [done | | done] | apply Hdone]. rewrite app_nil_r. congruence. }
    apply wp_bind, wp_try, (wp_rel quiet); [apply quiet_acquire | ].
    intros p5 [[h class] | e] Q5; pose proof (quiet_pending _ _ _ _ _ Q5 Hpend4) as Hpend5;
      pose proof (quiet_claims _ _ Q5) as Hc5.
    + eapply wp_mono; [eapply (grant_won_settled _ _ _ _ _ _ _ (claims p)); [done | congruence] | apply Hdone].
    + eapply wp_mono; [eapply (wp_quiet_clear _ _ _ _ (claims p) []) | apply Hdone];
        [apply quiet_release_capacity | apply total_release_capacity | done | rewrite app_nil_r; congruence | done].
  - split; [exact Hres | done].
Qed.

(** The claim of an operation the registry knows. *)
Lemma claim_known (p : Pool) o fp : consistent p -> o ∈ recorded (registry p) ->
  exists p1 w, p1 = set_world (instant_now (world p)).1 p /\
  claim [] o fp p = (set_world w p, match (reserve_known o fp p1).2 with
    | Ok (Some out) => Ok (mkClaim out None) | Ok None => Err (ClaimError_MissingPayload o) | Err e => Err e end) /\
  (reserve_known o fp p1).2 <> Ok None.
Proof using Type.
  intros Hp Ho. set (p1 := set_world (instant_now (world p)).1 p).
  assert (quiet p p1) as Q1 by by repeat split. pose proof (quiet_consistent _ _ Q1 Hp) as Hc1.
  assert ((reserve_known o fp p1).2 <> Ok None) as Hsome.
  { unfold reserve_known. destruct (bindings (registry p1) !! o) as [[rec | rec out] | ] eqn:Hb.
    - by apply (reg_settled _ _ Hc1) in Hb.
    - cbn. by case_decide.
    - cbn [snd]. destruct (read_io (world p1)).2; [done | ].
      destruct (lookup_claim_elem o (claims p1)) as [c Hc]; [by apply (reg_recorded _ _ Hc1) | ].
      change (claim_of o (pool_records p1)) with (lookup_claim o (claims p1)). rewrite Hc. unfold replay.
      by repeat case_match. }
  assert (exists w, (reserve_known o fp p1).1 = set_world w p) as [w Hw].
  { unfold reserve_known. destruct (bindings (registry p1) !! o) as [[] | ]; by eexists. }
  exists p1, w. split; [done | ]. split; [ | done]. unfold claim, st_bind at 1, in_world.
  destruct (instant_now (world p)) as [w' started] eqn:Hi. cbn [fst] in p1. fold p1.
  unfold st_bind at 1. rewrite reserve_binding_known by done.
  destruct (reserve_known o fp p1) as [p2 [[out | ] | e]]; cbn [fst snd] in *; subst; done.
Qed.

(** The whole claim. *)
Lemma claim_spec (p : Pool) o fp : consistent p ->
  wp (claim [] o fp) p (fun p' res =>
    (o ∈ recorded (registry p) -> quiet p p') /\ grown o (recorded (registry p)) (claims p) p' /\
    forall cl, res = Ok cl -> exists c, claim_operation c = o /\ outcome_of c = Some (claim_outcome cl)).
Proof using Type.
  intros Hp. destruct (decide (o ∈ recorded (registry p))) as [Ho | Ho].
  - destruct (claim_known p o fp Hp Ho) as (p1 & w & Hp1 & Hc & Hsome). unfold wp. rewrite Hc.
    assert (quiet p (set_world w p)) as Hq by by repeat split. split; [done | ]. split.
    { apply (grown_refl o (set_world w p)). by eapply quiet_consistent. }
    intros cl Hcl. destruct (reserve_known o fp p1) as [p2 [[out | ] | e]] eqn:Hr; cbn [snd] in *; [ | done | done].
    injection Hcl as <-. cbn [claim_outcome]. unfold reserve_known in Hr. subst p1. cbn [registry set_world pool_records] in Hr.
    destruct (bindings (registry p) !! o) as [[rec | rec out'] | ] eqn:Hb.
    + by apply (reg_settled _ _ Hp) in Hb.
    + case_decide; [ | done]. injection Hr as _ <-. apply (reg_done _ _ Hp) in Hb as (c & _ & ? & _ & ?). by exists c.
    + injection Hr as _ Hr. destruct (read_io _).2; [done | ].
      destruct (claim_of o (pool_records p)) as [c | ] eqn:Hl; [ | done]. apply (lookup_claim_Some o (claims p)) in Hl as [Hop _].
      unfold replay in Hr. case_decide; [ | done]. destruct (outcome_of c) eqn:Hout; [ | done]. injection Hr as ->. by exists c.
  - eapply wp_mono; [by apply claim_new | ]. intros p' res [Hg Hres]. split; [done | ]. split; [done | ].
    intros cl Hcl. destruct (Hres cl Hcl) as [(c & _ & ? & ?) | [_ Hs]]; [by exists c | ].
    destruct (Hs cl Hcl) as (_ & _ & c & _ & ? & _ & ?). by exists c.
Qed.

(** * Everything a pool does *)

Inductive pool_step : Pool -> Pool -> Prop :=
| step_construct p : pool_step p (construct_one p).1
| step_replenish fuel p : pool_step p (replenish_blocking fuel 0 p).1
| step_claim o fp p : pool_step p (claim [] o fp p).1
| step_drop c p : pool_step p (drop_claimed (E := unit) c p).1
| step_transfer c intent p : pool_step p (transfer sha256 c intent p).1
| step_foreign c p : pool_step p (refuse_foreign (A := unit) c p).1
| step_start w p : pool_step p (start w p).1
| step_release w p : pool_step p (release_worker w p).1
| step_evict p : pool_step p (evict_sterile (E := unit) p).1
| step_reconcile p : pool_step p (reconcile p).1
| step_restart digest limits shape adm w p p' :
    pool_open digest limits shape adm (pool_records p) w = Ok p' -> pool_step p p'.

Lemma pool_step_consistent p p' : pool_step p p' -> consistent p -> consistent p' /\
  (forall o c, filter (fun c => claim_operation c = o) (claims p) = [c] -> o ∈ recorded (registry p) ->
     filter (fun c => claim_operation c = o) (claims p') = [c] /\ o ∈ recorded (registry p')).
Proof using Type.
  assert (forall q, quiet p q -> consistent p -> consistent q /\
    (forall o c, filter (fun c => claim_operation c = o) (claims p) = [c] -> o ∈ recorded (registry p) ->
      filter (fun c => claim_operation c = o) (claims q) = [c] /\ o ∈ recorded (registry q))) as Hq.
  { intros q Hq Hp. split; [by eapply quiet_consistent | ]. intros o c. rewrite (quiet_claims p q Hq).
    destruct Hq as (Hr & _). by rewrite Hr. }
  destruct 1; intros Hp.
  - apply Hq; [apply quiet_construct_one | done].
  - apply Hq; [apply quiet_replenish | done].
  - pose proof (claim_spec p o fp Hp) as Hc. unfold wp in Hc. destruct (claim [] o fp p) as [p' res]. cbn [fst].
    destruct Hc as (Hknown & (Hcons & Hrec & l & Hl & Hall) & _). split; [done | ]. intros o' c Hf Ho'.
    destruct (decide (o' = o)) as [-> | Hne]; [by apply (Hq p' (Hknown Ho') Hp) | ].
    split; [ | by apply Hrec]. rewrite Hl, filter_app, Hf, (other_claims o o' l); [done | congruence | done].
  - apply Hq; [apply quiet_drop_claimed | done].
  - apply Hq; [apply quiet_transfer | done].
  - apply Hq; [apply quiet_refuse_foreign | done].
  - apply Hq; [apply quiet_start | done].
  - apply Hq; [apply quiet_release_worker | done].
  - apply Hq; [apply quiet_evict_sterile | done].
  - apply Hq; [apply quiet_reconcile | done].
  - apply pool_open_inv in H2 as (_ & es & _ & ->). unfold consistent, claims. cbn [registry pool_records].
    destruct (seed_ok (claims_of (pool_records p)) (binding_limit limits)) as [Hok Hin]; [apply (reg_classes _ _ Hp) | ].
    split; [done | ]. intros o c Hf _. split; [done | ]. apply Hin, list_elem_of_fmap. exists c.
    assert (c ∈ filter (fun c => claim_operation c = o) (claims_of (pool_records p))) as [? ?]%list_elem_of_filter; [ | done].
    unfold claims in Hf. rewrite Hf. by left.
Qed.

(** The operation has one record in the ledger, and the registry knows of it. *)
Definition sole_claim (o : OperationId) (c : ClaimRecord) (p : Pool) : Prop :=
  consistent p /\ filter (fun c => claim_operation c = o) (claims p) = [c] /\ o ∈ recorded (registry p).

Lemma pool_steps_consistent p p' : rtc pool_step p p' -> consistent p -> consistent p'.
Proof using Type. induction 1 as [p | p q r Hpq _ IH]; intros Hp; [done | ]. by apply IH, (pool_step_consistent p q). Qed.

Lemma pool_steps_sole p p' o c : rtc pool_step p p' -> sole_claim o c p -> sole_claim o c p'.
Proof using Type.
  induction 1 as [p | p q r Hpq _ IH]; intros (Hp & Hf & Ho); [done | ].
  apply IH. destruct (pool_step_consistent p q Hpq Hp) as [Hq Hall]. split; [done | by apply Hall].
Qed.

Lemma pool_open_consistent digest limits shape adm w (p : Pool) :
  pool_open digest limits shape adm [] w = Ok p -> consistent p.
Proof using Type.
  intros (_ & es & _ & ->)%pool_open_inv. unfold consistent, claims. cbn [registry pool_records].
  by apply seed_ok.
Qed.

(** * Idempotency *)

(** What a claim of the operation [o] answers in [p] with the intent [fp'], once its only record
    is the claim of intent [fp] that had the outcome [out]: that outcome without a grant, or a
    conflict; unless the binding was evicted and the ledger cannot be read at this moment. *)
Definition replayed (p : Pool) (o : OperationId) (fp fp' : RequestFingerprint) (out : ClaimOutcome)
    : Result (Claim H R) ClaimError :=
  match bindings (registry p) !! o, (read_io (instant_now (world p)).1).2 with
  | None, Some e => Err (ClaimError_Ledger e)
  | _, _ => if decide (fp = fp') then Ok (mkClaim out None) else Err (ClaimError_OperationConflict o fp fp')
  end.

Lemma claim_sole (p : Pool) o c out fp' : sole_claim o c p -> outcome_of c = Some out ->
  exists p', claim [] o fp' p = (p', replayed p o (claim_fingerprint c) fp' out) /\ quiet p p'.
Proof using Type.
  intros (Hp & Hf & Ho) Hout. destruct (claim_known p o fp' Hp Ho) as (p1 & w & -> & Hc & _).
  exists (set_world w p). split; [ | by repeat split]. rewrite Hc. f_equal. unfold reserve_known, replayed.
  cbn [registry set_world world pool_records].
  assert (claim_operation c = o) as Hop.
  { assert (c ∈ filter (fun c => claim_operation c = o) (claims p)) as [? _]%list_elem_of_filter; [rewrite Hf; by left | done]. }
  destruct (bindings (registry p) !! o) as [[rec | rec out'] | ] eqn:Hb.
  - by apply (reg_settled _ _ Hp) in Hb.
  - apply (reg_done _ _ Hp) in Hb as (c' & Hin & Hop' & <- & Hout').
    assert (c' ∈ filter (fun c => claim_operation c = o) (claims p)) as Hc' by by apply list_elem_of_filter.
    rewrite Hf in Hc'. apply list_elem_of_singleton in Hc' as ->. rewrite Hout in Hout'. injection Hout' as <-.
    destruct (read_io (instant_now (world p)).1).2; cbn [snd]; by case_decide.
  - cbn [snd]. destruct (read_io (instant_now (world p)).1).2; [done | ].
    change (claim_of o (pool_records p)) with (head (filter (fun c => claim_operation c = o) (claims p))). rewrite Hf.
    cbn [head]. unfold replay. rewrite Hout, Hop. by case_decide.
Qed.

(** C12: the claim of an operation is idempotent.  When a claim of an operation of which the
    ledger has no record succeeds, on a pool that did anything before, it is granted a worker;
    and whatever the pool does afterwards (other claims that evict its binding, transfers,
    appends that fail and leave nothing, a part or the whole of a record, restarts that rebuild
    the registry), claiming the operation again grants nothing, leaves the registry and the
    recorded claims as they are, and answers the identical outcome to the same intent and, to
    another, a conflict that names both fingerprints.  The one exception is a claim whose binding
    was evicted when the ledger cannot be read: it answers the failure of the reading. *)
Theorem claim_idempotent digest limits shape adm w p0 p o fp p1 cl p2 :
  pool_open digest limits shape adm [] w = Ok p0 -> rtc pool_step p0 p -> claim_of o (pool_records p) = None ->
  claim [] o fp p = (p1, Ok cl) -> rtc pool_step p1 p2 ->
  is_Some (grant cl) /\
  forall fp', exists p3, claim [] o fp' p2 = (p3, replayed p2 o fp fp' (claim_outcome cl)) /\ quiet p2 p3.
Proof using Type.
  intros Hopen Hsteps Hnone Hclaim Hsteps'.
  pose proof (pool_steps_consistent _ _ Hsteps (pool_open_consistent _ _ _ _ _ _ Hopen)) as Hp.
  apply (lookup_claim_None o (claims p)) in Hnone as Hnew.
  assert (o ∉ recorded (registry p)) as Ho by by intros ?%(reg_recorded _ _ Hp).
  destruct (wp_eq _ _ _ _ _ (claim_new p o fp Hp Ho) Hclaim) as [(Hp1 & _) Hres].
  destruct (Hres cl eq_refl) as [(c & Hin & Hop & _) | [_ Hs]].
  { destruct Hnew. apply list_elem_of_fmap. by exists c. }
  destruct (Hs cl eq_refl) as (Hrec & Hgrant & c & Hcs & Hop & <- & Hout). split; [done | ].
  intros fp'. apply claim_sole; [ | done]. apply (pool_steps_sole p1); [done | ]. split; [done | ]. split; [ | done].
  rewrite Hcs, filter_app, filter_cons, filter_nil, decide_True by done.
  assert (filter (fun c => claim_operation c = o) (claims p) = []) as ->; [ | done].
  unfold claim_of in Hnone. unfold claims. by destruct (filter _ _).
Qed.
End claim_props.

(** Two workers are built, one is claimed, the pool restarts, and the claim is replayed. *)
Lemma claim_idempotent_witness : exists (p0 p1 p2 : demo_pool) cl,
  demo_open [] = Ok p0 /\ claim [] op1 demo_fingerprint (replenish_blocking 3 0 p0).1 = (p1, Ok cl) /\
  pool_open demo_digest demo_limits shape1 demo_admission (pool_records p1) (world p1) = Ok p2 /\
  (claim [] op1 demo_fingerprint p2).2 = Ok (mkClaim (claim_outcome cl) None) /\
  (claim [] op1 [1] p2).2 = Err (ClaimError_OperationConflict op1 demo_fingerprint [1]).
Proof.
  destruct (demo_open []) as [p0 | ] eqn:Hopen; [ | vm_compute in Hopen; discriminate Hopen].
  destruct (claim [] op1 demo_fingerprint (replenish_blocking 3 0 p0).1) as [p1 [cl | e]] eqn:Hc; last first.
  { vm_compute in Hopen. injection Hopen as <-. vm_compute in Hc. discriminate Hc. }
  destruct (pool_open (H := Z) (R := unit) (N := unit) demo_digest demo_limits shape1 demo_admission (pool_records p1) (world p1))
    as [p2 | ] eqn:Hre;
    last first.
  { vm_compute in Hopen. injection Hopen as <-. vm_compute in Hc. injection Hc as <- <-. vm_compute in Hre.
    discriminate Hre. }
  exists p0, p1, p2, cl. split; [done | ]. split; [done | ]. split; [done | ].
  destruct (claim_idempotent demo_sha demo_digest demo_limits shape1 demo_admission (mkScripted 1 0 [] false) p0
    (replenish_blocking 3 0 p0).1 op1 demo_fingerprint p1 cl p2 Hopen) as [_ Hall].
  - apply rtc_once, step_replenish.
  - vm_compute in Hopen. injection Hopen as <-. vm_compute. reflexivity.
  - exact Hc.
  - apply rtc_once. by eapply step_restart.
  - assert (forall fp', replayed p2 op1 demo_fingerprint fp' (claim_outcome cl) = if decide (demo_fingerprint = fp')
      then Ok (mkClaim (claim_outcome cl) None) else Err (ClaimError_OperationConflict op1 demo_fingerprint fp')) as Hread.
    { intros fp'. unfold replayed. assert ((read_io (instant_now (world p2)).1).2 = None) as ->; [ | by destruct (_ !! op1)].
      vm_compute in Hopen. injection Hopen as <-. vm_compute in Hc. injection Hc as <- <-. vm_compute in Hre.
      injection Hre as <-. vm_compute. reflexivity. }
    split; [destruct (Hall demo_fingerprint) as (p3 & -> & _) | destruct (Hall [1]) as (p3 & -> & _)]; cbn [snd];
      rewrite Hread; [by rewrite decide_True | by rewrite decide_False by (vm_compute; discriminate)].
Defined.
