(* ===== verification/HostSync.v ===== *)
(** The slots of a pool against its durable ledger: the invariant that the ledger folds and
    says of every worker exactly what the worker's state word says, and the lemmas by which
    one record and one compare-and-swap keep it. *)

From S2P Require Import Prelude Bytes HostAdmission HostState HostStateFacts HostLedger HostLedgerFacts HostPool HostClaim HostTransfer HostPoolFacts.
From stdpp Require Import options.

(** * Records the fold accepts *)

(** The fields a later restart reads from the records that carry them. *)
Definition fields_ok (r : LedgerRecord) : Prop :=
  match kind r with
  | Kind_Sterile => is_Some (identity r)
  | Kind_Claiming => is_Some (operation r)
  | Kind_Assigned => is_Some (instance r)
  | _ => True
  end.

(** From the state [s], the record [r] moves the ledger's view of a worker to [t]. *)
Record accepts (s : Packed) (r : LedgerRecord) (t : Packed) : Prop := {
  acc_live : packed_phase s <> Dead;
  acc_kind : kind r <> Kind_Constructing;
  acc_generation : lease_generation r = packed_generation t;
  acc_bump : packed_generation t = packed_generation s + (if decide (kind r = Kind_Claiming) then 1 else 0);
  acc_from : packed_ok s;
  acc_ok : packed_ok t;
  acc_phase : packed_phase t = default (packed_phase s) (moved r);
  acc_move : forall n, moves_to (kind r) = Some n -> may_transition_to (packed_phase s) n = true;
  acc_fields : fields_ok r
}.

Definition entry_state (e : WorkerLedgerEntry) : Packed := mkPacked (entry_phase e) (entry_generation e).

(** What a restart finds in an entry: a process once built, an operation once claimed, an
    Instance once assigned. *)
Record entry_full (w : WorkerId) (e : WorkerLedgerEntry) : Prop := {
  full_worker : entry_worker e = w;
  full_ok : packed_ok (entry_state e);
  full_identity : 2 <= phase_code (entry_phase e) <= 5 -> is_Some (entry_identity e);
  full_operation : 3 <= phase_code (entry_phase e) <= 5 -> is_Some (entry_operation e);
  full_instance : 4 <= phase_code (entry_phase e) <= 5 -> is_Some (entry_instance e)
}.

Lemma fold_assigned rs es w e : entries_of rs = Ok es -> es !! w = Some e -> was_assigned e = true ->
  4 <= phase_code (entry_phase e).
Proof.
  revert es w e. induction rs as [ | r rs IH] using rev_ind; intros es w e; unfold entries_of.
  { intros [= <-]. by rewrite lookup_empty. }
  rewrite fold_all_snoc. intros (es' & Hes & Hf)%bind_Ok. revert Hf. unfold fold.
  destruct (decide (kind r = Kind_Constructing)) as [Hk | Hk].
  - destruct (es' !! worker r); [done | ]. intros [= <-].
    intros [[<- <-] | [_ He]]%lookup_insert_Some; [done | ]. by eapply IH.
  - destruct (es' !! worker r) as [e0 | ] eqn:He0; cbn [ok_or]; [ | done].
    destruct (decide (entry_phase e0 = Dead)); [done | ].
    destruct (negb (generation_follows _ _)); [done | ].
    destruct (match moves_to (kind r) with Some next => _ | None => _ end) eqn:Hm; [done | ].
    intros (e' & Hfk & [= <-])%ok_or_bind_Ok.
    intros [[<- <-] | [_ He]]%lookup_insert_Some; [ | by eapply IH].
    specialize (IH es' (worker r) e0 Hes He0). revert Hfk. unfold fold_kind, count_record.
    destruct (kind r); cbn in *; intros Hfk; try done; simplify_eq; cbn; try done.
    + destruct (was_assigned e0); [done | ]. case_match; by simplify_eq.
    + intros Ha. specialize (IH Ha). destruct (entry_phase e0); cbn in *; done.
    + case_decide; simplify_eq; done.
Qed.

Lemma fold_kind_worker r g e e' w : fold_kind r (count_record g e) = Some e' -> entry_worker e = w -> entry_worker e' = w.
Proof. unfold fold_kind. intros Hf He. destruct (kind r); try done; repeat case_match; simplify_eq; done. Qed.

Lemma fold_kind_fields r e e' : fold_kind r (count_record (lease_generation r) e) = Some e' -> fields_ok r ->
  (forall n, moves_to (kind r) = Some n -> may_transition_to (entry_phase e) n = true) ->
  (2 <= phase_code (entry_phase e) <= 5 -> is_Some (entry_identity e)) ->
  (3 <= phase_code (entry_phase e) <= 5 -> is_Some (entry_operation e)) ->
  (4 <= phase_code (entry_phase e) <= 5 -> is_Some (entry_instance e)) ->
  (2 <= phase_code (entry_phase e') <= 5 -> is_Some (entry_identity e')) /\
  (3 <= phase_code (entry_phase e') <= 5 -> is_Some (entry_operation e')) /\
  (4 <= phase_code (entry_phase e') <= 5 -> is_Some (entry_instance e')).
Proof.
  intros Hf Hfl Hm Hid Hop Hin. unfold fold_kind, fields_ok, count_record in *. destruct (kind r) eqn:Hk; try done;
    try specialize (Hm _ eq_refl); repeat case_match; simplify_eq; cbn in *; split_and!; intros; try done; try lia;
    try (by auto); first [apply Hid | apply Hop | apply Hin]; destruct (entry_phase e); cbn in *; try done; lia.
Qed.

Lemma fold_accepts rs es e r t : entries_of rs = Ok es -> es !! worker r = Some e -> accepts (entry_state e) r t ->
  exists e', entries_of (rs ++ [r]) = Ok (<[worker r := e']> es) /\ entry_state e' = t /\
    (entry_full (worker r) e -> entry_full (worker r) e').
Proof.
  intros Hes He [Hlive Hk Hg Hb Hfrom Hok Hp Hm Hfl]. unfold entries_of. rewrite fold_all_snoc.
  change (fold_all ∅ rs) with (entries_of rs). rewrite Hes. cbn [entry_state packed_phase packed_generation] in *.
  assert (generation_follows (entry_generation e) r = true) as Hgf.
  { unfold generation_follows. apply bool_decide_true. rewrite Hg. unfold packed_ok in *. cbn in Hfrom. case_decide.
    - assert (lease_next (entry_generation e) = Ok (packed_generation t)) as -> by (apply lease_next_Ok; lia). done.
    - f_equal. lia. }
  assert (exists e', fold_kind r (count_record (lease_generation r) e) = Some e') as [e' Hf].
  { unfold fold_kind. destruct (kind r) eqn:Hkind; try done; try (by eexists);
      [ | destruct (decide (disposition_from_code (detail r) = Some Retained)); by eexists].
    specialize (Hm Sterile eq_refl). cbn.
    destruct (was_assigned e) eqn:Ha; [apply (fold_assigned rs es _ e Hes He) in Ha; destruct (entry_phase e); done | ].
    destruct (entry_phase e) eqn:Hph; try done. rewrite bool_decide_true by done. by eexists. }
  exists e'. unfold fold. rewrite decide_False by done. rewrite He. cbn [ok_or]. rewrite decide_False by done.
  rewrite Hgf. cbn [negb].
  assert (match moves_to (kind r) with Some next => negb (may_transition_to (entry_phase e) next) | None => false end = false)
    as ->. { destruct (moves_to (kind r)) as [n | ]; [by rewrite (Hm n eq_refl) | done]. }
  rewrite Hf. cbn [ok_or]. split; [done | ]. pose proof Hf as Hf'. apply fold_kind_moved in Hf as [Hp' Hg']; [ | done].
  assert (entry_state e' = t) as Ht.
  { unfold entry_state. rewrite Hp', Hg'. cbn [count_record entry_phase entry_generation]. rewrite Hg, <- Hp. by destruct t. }
  split; [done | ]. intros [Hw _ Hid Hop Hin]. split; [ | by rewrite Ht | | | ].
  - by eapply fold_kind_worker.
  - by eapply (fold_kind_fields r e e').
  - by eapply (fold_kind_fields r e e').
  - by eapply (fold_kind_fields r e e').
Qed.

Lemma fold_constructs rs es r : entries_of rs = Ok es -> es !! worker r = None -> kind r = Kind_Constructing ->
  entries_of (rs ++ [r]) = Ok (<[worker r := fresh r]> es).
Proof.
  intros Hes He Hk. unfold entries_of. rewrite fold_all_snoc. change (fold_all ∅ rs) with (entries_of rs). rewrite Hes.
  unfold fold. by rewrite decide_True, He by done.
Qed.

(** * The world *)

(** The calls of the world that make no worker. *)
Inductive world_op {W H R D N : Type} `{PoolWorld W H R D N} : forall {A : Type}, (W -> W * A) -> Prop :=
| op_instant : world_op instant_now
| op_now : world_op now_nanos
| op_append r : world_op (append_io r)
| op_open : world_op open_io
| op_read : world_op read_io
| op_urandom : world_op read_urandom
| op_construct w b : world_op (launcher_construct w b)
| op_probe i : world_op (launcher_probe i)
| op_terminate i : world_op (launcher_terminate i)
| op_deliver f h : world_op (handle_deliver f h)
| op_start h : world_op (handle_start h)
| op_destroy h : world_op (handle_destroy h)
| op_prepare w b : world_op (broker_prepare w b)
| op_assign r i : world_op (broker_assign r i)
| op_release_sterile r : world_op (broker_release_sterile r)
| op_release r : world_op (broker_release r)
| op_verify r : world_op (broker_verify r).

(** A world whose ledger never fails, neither an append nor an opening nor a reading, and whose
    worker identities are new each time: the identity is a digest of the process, the clock and a
    counter.  What happens without the first of these is the subject of the claims and of the
    poisoned ledger. *)
Class DurableWorld (W H R D N : Type) `{PoolWorld W H R D N} : Type := {
  issued : W -> gset WorkerId;
  issued_mono : forall {A} (c : W -> W * A), world_op c -> forall w, issued w ⊆ issued (c w).1;
  issued_fresh : forall w, (fresh_worker_id w).2 ∉ issued w /\
    {[ (fresh_worker_id w).2 ]} ∪ issued w ⊆ issued (fresh_worker_id w).1;
  append_durable : forall r w, (append_io r w).2 = None;
  open_durable : forall w, (open_io w).2 = None;
  read_durable : forall w, (read_io w).2 = None;
}.

#[export] Hint Constructors world_op : sync.

(** * The invariant *)

Definition view {W H R N P} (p : Pool W H R N P) (i : nat) : Packed := observe (arena p i).

Definition upd {A} (f : nat -> A) (i : nat) (a : A) (j : nat) : A := if Nat.eqb j i then a else f j.

Lemma upd_same {A} (f : nat -> A) i a : upd f i a i = a.
Proof. unfold upd. by rewrite Nat.eqb_refl. Qed.

Lemma upd_other {A} (f : nat -> A) i a j : j <> i -> upd f i a j = f j.
Proof. intros Hne. unfold upd. by rewrite (proj2 (Nat.eqb_neq j i)). Qed.

Section sync.
Context {W H R D N P : Type} `{PoolWorld W H R D N, !DurableWorld W H R D N, NumaPlacement P}.
Notation Pool := (Pool W H R N P).

(** The ledger folds, and its view of slot [i]'s worker is [L i]. *)
Record synced (p : Pool) (L : nat -> Packed) (es : Entries) : Prop := {
  sync_fold : entries_of (pool_records p) = Ok es;
  sync_slot : forall i, (i < arena_next p)%nat -> exists e, es !! slot_id (arena p i) = Some e /\ entry_state e = L i;
  sync_ok : forall i, (i < arena_next p)%nat -> packed_ok (L i);
  sync_word : forall i, (i < arena_next p)%nat -> slot_ok (arena p i);
  sync_ids : forall i j, (i < arena_next p)%nat -> (j < arena_next p)%nat ->
    slot_id (arena p i) = slot_id (arena p j) -> i = j;
  sync_issued : forall w, is_Some (es !! w) -> w ∈ issued (world p);
  sync_full : forall w e, es !! w = Some e -> entry_full w e
}.

(** One record about any worker of the ledger: the slots of other workers do not see it. *)
Lemma synced_log p L es r e t : synced p L es -> es !! worker r = Some e -> accepts (entry_state e) r t ->
  exists e', entry_state e' = t /\ entry_full (worker r) e' /\
    entries_of (pool_records p ++ [r]) = Ok (<[worker r := e']> es) /\
    forall L', (forall i, (i < arena_next p)%nat -> slot_id (arena p i) = worker r -> L' i = t) ->
      (forall i, (i < arena_next p)%nat -> slot_id (arena p i) <> worker r -> L' i = L i) ->
      synced (set_records (pool_records p ++ [r]) p) L' (<[worker r := e']> es).
Proof using Type.
  intros [Hf Hs Ho Hw Hi Hiss Hfull] He Hacc. destruct (fold_accepts _ _ _ _ _ Hf He Hacc) as (e' & Hf' & He' & Hfl).
  exists e'. split; [done | ]. split; [by apply Hfl, Hfull | ]. split; [done | ]. intros L' Hsame Hother.
  split; cbn [pool_records arena arena_next set_records world]; try done.
  - intros j Hj. destruct (decide (slot_id (arena p j) = worker r)) as [Heq | Hne].
    + rewrite Heq, lookup_insert_eq, Hsame by done. eauto.
    + rewrite Hother, lookup_insert_ne by done. by apply Hs.
  - intros j Hj. destruct (decide (slot_id (arena p j) = worker r)) as [Heq | Hne];
      [rewrite Hsame by done; apply Hacc | rewrite Hother by done; auto].
  - intros w [x [[<- _] | [_ Hx]]%lookup_insert_Some]; [ | apply Hiss; by eexists]. apply Hiss. by exists e.
  - intros w x [[<- <-] | [_ Hx]]%lookup_insert_Some; [by apply Hfl, Hfull | by apply Hfull].
Qed.

(** One record about the worker of slot [i]. *)
Lemma synced_append p L es i r t : synced p L es -> (i < arena_next p)%nat -> worker r = slot_id (arena p i) ->
  accepts (L i) r t -> exists es', synced (set_records (pool_records p ++ [r]) p) (upd L i t) es'.
Proof using Type.
  intros Hp Hlt Hr Hacc. destruct (sync_slot _ _ _ Hp i Hlt) as (e & He & HL). rewrite <- Hr in He. rewrite <- HL in Hacc.
  destruct (synced_log p L es r e t Hp He Hacc) as (e' & _ & _ & _ & Hall). eexists. apply Hall.
  - intros j Hj Heq. rewrite Hr in Heq. apply (sync_ids _ _ _ Hp) in Heq as ->; [apply upd_same | done | done].
  - intros j Hj Hne. rewrite upd_other; [done | ]. intros ->. by apply Hne.
Qed.

(** The word of a slot moves; the ledger does not. *)
Lemma synced_word p L es i s : synced p L es -> slot_ok s -> slot_id s = slot_id (arena p i) ->
  synced (set_arena (fun j => if Nat.eqb j i then s else arena p j) p) L es.
Proof using Type.
  intros [Hf Hs Ho Hw Hi Hiss Hfull] Hok Hid.
  assert (forall j, slot_id (if Nat.eqb j i then s else arena p j) = slot_id (arena p j)) as Hids.
  { intros j. destruct (Nat.eqb_spec j i) as [-> | ]; done. }
  split; cbn [pool_records arena arena_next set_arena world]; try done.
  - intros j Hj. rewrite Hids. by apply Hs.
  - intros j Hj. destruct (Nat.eqb j i); [done | by apply Hw].
  - intros j k Hj Hk. rewrite !Hids. by apply Hi.
Qed.

Lemma synced_ext p L L' es : synced p L es -> (forall i, (i < arena_next p)%nat -> L i = L' i) -> synced p L' es.
Proof using Type.
  intros [Hf Hs Ho Hw Hi Hiss Hfull] Heq. split; try done.
  - intros i Hlt. rewrite <- Heq by done. by apply Hs.
  - intros i Hlt. rewrite <- Heq by done. by apply Ho.
Qed.
End sync.

(** * Steps that touch neither slots nor records *)

Section calm.
Context {W H R D N P : Type} `{PoolWorld W H R D N, !DurableWorld W H R D N, NumaPlacement P}.
Notation Pool := (Pool W H R N P).

(** Only the world, the registry, the admission and the counters may differ. *)
Record calm (p q : Pool) : Prop := {
  calm_arena : forall i, arena q i = arena p i;
  calm_next : arena_next q = arena_next p;
  calm_table : table q = table p;
  calm_prepared : prepared q = prepared p;
  calm_owned : owned q = owned p;
  calm_records : pool_records q = pool_records p;
  calm_limits : pool_limits q = pool_limits p;
  calm_digest : pool_digest q = pool_digest p;
  calm_issued : issued (world p) ⊆ issued (world q)
}.

#[export] Instance calm_preorder : PreOrder calm.
Proof.
  split; [by split | ]. intros p q r [] []. split; try congruence. by etrans.
Qed.

Lemma calm_set_world p w : issued (world p) ⊆ issued w -> calm p (set_world w p).
Proof using Type. by split. Qed.

Lemma calm_in_world {E A : Type} (c : W -> W * A) : world_op c -> st_rel calm (in_world (E := E) c).
Proof using Type.
  intros Hc p. unfold in_world. pose proof (issued_mono c Hc (world p)) as Hi. destruct (c (world p)) as [w a].
  by apply calm_set_world.
Qed.

Lemma calm_in_admission {E A : Type} (c : Admission P -> Admission P * A) : st_rel calm (in_admission (E := E) c).
Proof using Type. intros p. unfold in_admission. destruct (c (admission p)). by split. Qed.

Lemma calm_registry {E : Type} (f : Pool -> Registry) : st_rel calm (st_modify (E := E) (fun p => set_registry (f p) p)).
Proof using Type. intros p. by split. Qed.
Lemma calm_registry_const {E : Type} r : st_rel calm (st_modify (E := E) (set_registry r)).
Proof using Type. intros p. by split. Qed.
Lemma calm_in_flight {E : Type} (f : Pool -> nat) : st_rel calm (st_modify (E := E) (fun p => set_in_flight (f p) p)).
Proof using Type. intros p. by split. Qed.
Lemma calm_in_flight_const {E : Type} n : st_rel calm (st_modify (E := E) (set_in_flight n)).
Proof using Type. intros p. by split. Qed.

Lemma calm_ret {E A : Type} (a : A) : st_rel calm (st_ret (E := E) a).
Proof using Type. apply st_rel_ret, _. Qed.
Lemma calm_err {E A : Type} (e : E) : st_rel calm (st_err (A := A) e).
Proof using Type. apply st_rel_err, _. Qed.
Lemma calm_lift {E A : Type} (r : Result A E) : st_rel calm (st_lift r).
Proof using Type. apply st_rel_lift, _. Qed.
Lemma calm_get {E : Type} : st_rel calm (st_get (E := E)).
Proof using Type. apply st_rel_get, _. Qed.
End calm.

#[export] Hint Resolve calm_in_world calm_in_admission calm_registry calm_registry_const calm_in_flight
  calm_in_flight_const calm_ret calm_err calm_lift calm_get : sync.

Ltac calm :=
  repeat first
    [ progress intros
    | match goal with |- st_rel _ (st_bind _ _) => apply (st_rel_bind calm) end
    | match goal with |- st_rel _ (st_try _) => apply (st_rel_try calm) end
    | match goal with |- st_rel _ (st_map_err _ _) => apply (st_rel_map_err calm) end
    | solve [eauto with sync]
    | match goal with |- st_rel _ (match ?x with _ => _ end) => destruct x end ].

Section calm_ops.
Context {W H R D N P : Type} `{PoolWorld W H R D N, !DurableWorld W H R D N, NumaPlacement P}.
Notation Pool := (Pool W H R N P).
Notation calm := (calm (W := W) (H := H) (R := R) (D := D) (N := N) (P := P)).

Lemma calm_new_record {E : Type} k w g : st_rel calm (new_record (E := E) k w g).
Proof using Type. unfold new_record. calm. Qed.
Lemma calm_release_capacity {E : Type} r : st_rel calm (release_capacity (E := E) r).
Proof using Type. unfold release_capacity. calm. Qed.
Lemma calm_capacity_launched {E : Type} r : st_rel calm (capacity_launched (E := E) r).
Proof using Type. unfold capacity_launched. calm. Qed.
Lemma calm_reserve_capacity : st_rel calm reserve_capacity.
Proof using Type. unfold reserve_capacity. calm. Qed.
Lemma calm_release_resources {E : Type} r : st_rel calm (release_resources (E := E) r).
Proof using Type. unfold release_resources. calm. Qed.
Lemma calm_destroy_process {E : Type} h i : st_rel calm (destroy_process (E := E) h i).
Proof using Type. unfold destroy_process. calm. Qed.
Lemma calm_destroy_handle {E : Type} h : st_rel calm (destroy_handle (E := E) h).
Proof using Type. unfold destroy_handle. calm. Qed.
Lemma calm_past_deadline {E : Type} won : st_rel calm (past_deadline (E := E) won).
Proof using Type. unfold past_deadline. calm. Qed.
Lemma calm_fresh_entropy {E : Type} : st_rel calm (fresh_entropy (E := E)).
Proof using Type. unfold fresh_entropy. calm. Qed.
Lemma calm_evict_bindings : st_rel calm evict_bindings.
Proof using Type. unfold evict_bindings. calm. Qed.
Lemma calm_clear_binding {E : Type} o : st_rel calm (clear_binding (E := E) o).
Proof using Type. unfold clear_binding. calm. Qed.
Lemma calm_finish_binding {E : Type} o fp out : st_rel calm (finish_binding (E := E) o fp out).
Proof using Type. unfold finish_binding. calm. Qed.

Hint Resolve calm_evict_bindings : sync.

Lemma calm_ledger_read : st_rel calm ledger_read.
Proof using Type. intros p. rewrite ledger_read_eq. by apply calm_set_world, (issued_mono read_io), op_read. Qed.

Hint Resolve calm_ledger_read : sync.

(** A reading of a ledger that never fails. *)
Lemma wp_ledger_read (p : Pool) (Q : Pool -> Result (list LedgerRecord) LedgerError -> Prop) :
  (forall q, calm p q -> Q q (Ok (pool_records p))) -> wp ledger_read p Q.
Proof using Type.
  intros HQ. unfold wp. rewrite ledger_read_eq, read_durable. apply HQ. by apply calm_set_world, (issued_mono read_io), op_read.
Qed.

Lemma calm_reserve_binding wakes o fp started : st_rel calm (reserve_binding wakes o fp started).
Proof using Type. induction wakes; cbn [reserve_binding]; calm. Qed.
End calm_ops.

#[export] Hint Resolve calm_new_record calm_release_capacity calm_capacity_launched calm_reserve_capacity
  calm_release_resources calm_destroy_process calm_destroy_handle calm_past_deadline calm_fresh_entropy
  calm_evict_bindings calm_clear_binding calm_finish_binding calm_ledger_read calm_reserve_binding : sync.
