(* ===== verification/HostPoolInv.v ===== *)
(** Who holds the workers of a pool.  Between two operations every live worker has exactly one
    holder, the prepared payloads, one outstanding grant or the owned table, and the ledger
    folds to exactly the phase and generation of every slot.  This file states that invariant
    and what each step of an operation does to the one slot it is working on. *)

From S2P Require Import Prelude Bytes HostAdmission HostState HostStateFacts HostLedger HostLedgerFacts HostPool HostClaim HostTransfer HostPoolFacts HostSync.
From stdpp Require Import options.

Section moving.
Context {W H R D N P : Type} `{PoolWorld W H R D N, !DurableWorld W H R D N, NumaPlacement P}.
Notation Pool := (Pool W H R N P).
Implicit Types p q : Pool.

(** * One slot on its way *)

(** Where the slot under work is: its word, its ledger entry, its payload and its owner. *)
Record At : Type := mkAt {
  at_word : Packed;
  at_led : Packed;
  at_prep : option (Prepared H R);
  at_own : option (Owned H N)
}.

Notation id_of p i := (slot_id (arena p i)).

(** Between [p] and [q] only slot [i] moved, and it is at [a]; every other worker is as it was. *)
Record moving (p q : Pool) (i : nat) (a : At) : Prop := {
  mv_in : (i < arena_next p)%nat;
  mv_other : forall j, j <> i -> arena q j = arena p j;
  mv_id : id_of q i = id_of p i;
  mv_word : view q i = at_word a;
  mv_sync : exists es, synced q (upd (view p) i (at_led a)) es;
  mv_prep : prepared q !! id_of p i = at_prep a;
  mv_own : owned q !! id_of p i = at_own a;
  mv_prep_other : forall w, w <> id_of p i -> prepared q !! w = prepared p !! w;
  mv_own_other : forall w, w <> id_of p i -> owned q !! w = owned p !! w;
  mv_next : arena_next q = arena_next p;
  mv_table : table q = table p;
  mv_limits : pool_limits q = pool_limits p;
  mv_digest : pool_digest q = pool_digest p
}.

Lemma calm_view p q i : calm p q -> view q i = view p i.
Proof using Type. intros Hc. unfold view. by rewrite (calm_arena _ _ Hc). Qed.

Lemma calm_synced p q L es : calm p q -> synced p L es -> synced q L es.
Proof using Type.
  intros [Ha Hn _ _ _ Hr _ _ Hi] [Hf Hs Ho Hw Hid Hiss Hfull]. split; rewrite ?Hn, ?Hr; try done.
  - intros i Hlt. rewrite Ha. by apply Hs.
  - intros i Hlt. rewrite Ha. by apply Hw.
  - intros i j. rewrite !Ha. apply Hid.
  - intros w Hin. by apply Hi, Hiss.
Qed.

Lemma moving_calm p q q' i a : moving p q i a -> calm q q' -> moving p q' i a.
Proof using Type.
  intros [] Hc. destruct (Hc). split; try congruence.
  - intros j Hj. rewrite calm_arena. by apply mv_other0.
  - by rewrite (calm_view q q').
  - destruct mv_sync0 as [es Hes]. exists es. by eapply calm_synced.
  - rewrite calm_prepared. done.
  - rewrite calm_owned. done.
Qed.

(** At rest: nothing has moved yet. *)
Lemma moving_start p es i : synced p (view p) es -> (i < arena_next p)%nat ->
  moving p p i (mkAt (view p i) (view p i) (prepared p !! id_of p i) (owned p !! id_of p i)).
Proof using Type.
  intros Hs Hi. split; try done. exists es. eapply synced_ext; [exact Hs | ].
  intros j _. unfold upd. by destruct (Nat.eqb_spec j i) as [-> | ].
Qed.

Lemma moving_ok p q i a : moving p q i a -> slot_ok (arena q i) /\ packed_ok (at_word a) /\ packed_ok (at_led a).
Proof using Type.
  intros [Hi _ _ Hw [es Hs] _ _ _ _ Hn]. pose proof (sync_word _ _ _ Hs i) as Hok. rewrite Hn in Hok. specialize (Hok Hi).
  split; [done | ]. rewrite <- Hw. split; [by apply observe_ok | ].
  pose proof (sync_ok _ _ _ Hs i) as Hl. rewrite Hn, upd_same in Hl. by apply Hl.
Qed.

(** A durable record moves the ledger entry. *)
Lemma wp_record_durable p q i word led pr ow t r (Q : Pool -> Result unit LedgerError -> Prop) :
  moving p q i (mkAt word led pr ow) -> worker r = id_of q i -> accepts led r t ->
  (forall q', moving p q' i (mkAt word t pr ow) -> Q q' (Ok tt)) -> wp (record r) q Q.
Proof using Type.
  intros Hm Hr Hacc HQ. unfold wp, record, st_bind, in_world.
  pose proof (append_durable r (world q)) as Hd. pose proof (issued_mono _ (op_append r) (world q)) as Hi.
  destruct (append_io r (world q)) as [w [e | ]]; [done | ]. cbn in Hi. cbn [st_modify].
  apply HQ. pose proof (moving_calm _ _ _ _ _ Hm (calm_set_world q w Hi)) as Hm'.
  destruct Hm' as [Hin Ho Hid Hw [es Hs] ? ? ? ? Hn ? ? ?]. cbn [at_word at_led at_prep at_own] in *.
  destruct (synced_append _ _ _ i r t Hs) as [es' Hs']; [by rewrite Hn | exact Hr | by rewrite upd_same | ].
  split; try done. exists es'. eapply synced_ext; [exact Hs' | ]. intros j _. unfold upd. by destruct (Nat.eqb j i).
Qed.

(** The word of the slot under work is written. *)
Lemma moving_set_word p q i v led pr ow t : moving p q i (mkAt v led pr ow) -> packed_ok t ->
  moving p (set_arena (fun j => if Nat.eqb j i then with_word (arena q i) t else arena q j) q) i (mkAt t led pr ow).
Proof using Type.
  intros [Hin Ho Hid Hw [es Hs] ? ? ? ? Hn ? ? ?] Ht. cbn [at_word at_led at_prep at_own] in *.
  split; try done; cbn [arena set_arena arena_next].
  - intros j Hj. rewrite (proj2 (Nat.eqb_neq j i) Hj). by apply Ho.
  - by rewrite Nat.eqb_refl.
  - unfold view. cbn [arena set_arena]. rewrite Nat.eqb_refl. by apply observe_with_word.
  - exists es. apply synced_word; [done | by apply with_word_ok | done].
Qed.

(** A compare-and-swap through a current handle moves the word. *)
Lemma wp_act p q i led pr ow {S T : Phase} (a : Act S T) (w : Worker S) (Q : Pool -> Result (Worker T) StateRace -> Prop) :
  moving p q i (mkAt (stands_for w) led pr ow) -> packed_ok (target a w) ->
  (forall q', moving p q' i (mkAt (target a w) led pr ow) -> Q q' (Ok (mkWorker T (packed_generation (target a w))))) ->
  wp (on_slot i (act a w)) q Q.
Proof using Type.
  intros Hm Ht HQ. pose proof (moving_ok _ _ _ _ Hm) as (Hok & Hwok & _).
  pose proof (act_spec a w (arena q i) Hok Hwok) as Hact. rewrite decide_True in Hact by exact (conj (mv_word _ _ _ _ Hm) Ht).
  unfold wp, on_slot. rewrite Hact. apply HQ. by eapply moving_set_word.
Qed.

(** The methods other than a claim keep the generation. *)
Lemma wp_keep p q i led pr ow {S T : Phase} (a : Act S T) g (Q : Pool -> Result (Worker T) StateRace -> Prop) :
  is_claim S T = false -> moving p q i (mkAt (mkPacked S g) led pr ow) ->
  (forall q', moving p q' i (mkAt (mkPacked T g) led pr ow) -> Q q' (Ok (mkWorker T g))) ->
  wp (on_slot i (act a (mkWorker S g))) q Q.
Proof using Type.
  intros Hc Hm HQ. assert (target a (mkWorker S g) = mkPacked T g) as Ht.
  { unfold target. rewrite Hc. cbn [Z.b2z worker_generation]. by rewrite Z.add_0_r. }
  pose proof (moving_ok _ _ _ _ Hm) as (_ & Hok & _). apply (wp_act p q i led pr ow a (mkWorker S g) Q Hm); rewrite Ht; done.
Qed.

Lemma moving_set_prepared p q i word led pr pr' ow m : moving p q i (mkAt word led pr ow) ->
  m !! id_of p i = pr' -> (forall w, w <> id_of p i -> m !! w = prepared q !! w) ->
  moving p (set_prepared m q) i (mkAt word led pr' ow).
Proof using Type.
  intros [] Hp Ho. split; try done. { destruct mv_sync0 as [es []]. by exists es. }
  intros w Hw. cbn. rewrite Ho by done. auto.
Qed.

Lemma moving_set_owned p q i word led pr ow ow' m : moving p q i (mkAt word led pr ow) ->
  m !! id_of p i = ow' -> (forall w, w <> id_of p i -> m !! w = owned q !! w) ->
  moving p (set_owned m q) i (mkAt word led pr ow').
Proof using Type.
  intros [] Hp Ho. split; try done. { destruct mv_sync0 as [es []]. by exists es. }
  intros w Hw. cbn. rewrite Ho by done. auto.
Qed.
End moving.
Arguments At : clear implicits.

(** A record the fold accepts, by evaluation. *)
Ltac solve_accepts := split; cbn [packed_phase packed_generation kind lease_generation moved moves_to record_new with_detail
    with_identity with_resources with_instance with_operation with_fingerprint default from_option id];
    try done; try (rewrite decide_False by done; lia); try (by intros ? [= <-]); try (by eexists).

Section steps.
Context {W H R D N P : Type} `{PoolWorld W H R D N, !DurableWorld W H R D N, NumaPlacement P}.
Notation Pool := (Pool W H R N P).
Implicit Types p q : Pool.
Notation id_of p i := (slot_id (arena p i)).

Lemma wp_calm {E A : Type} p q i a (c : ST Pool E A) (Q : Pool -> Result A E -> Prop) :
  moving p q i a -> st_rel calm c -> st_total c -> (forall q' x, moving p q' i a -> Q q' (Ok x)) -> wp c q Q.
Proof using Type.
  intros Hm Hc Ht HQ. apply (wp_total_rel calm); [done | done | ]. intros q' x Hq. by eapply HQ, moving_calm.
Qed.

Lemma wp_new_record {E : Type} p q i a k w g (Q : Pool -> Result LedgerRecord E -> Prop) :
  moving p q i a -> (forall q' now, moving p q' i a -> Q q' (Ok (record_new now k w g (pool_digest q)))) ->
  wp (new_record k w g) q Q.
Proof using Type.
  intros Hm HQ. unfold new_record. apply wp_bind, wp_get, wp_bind, (wp_calm p q i a _ _ Hm);
    [by apply calm_in_world; constructor | apply st_total_in_world | ]. intros q' now Hm'. apply wp_ret. by apply HQ.
Qed.

(** A new record about the worker under work, appended. *)
Lemma wp_log {E A : Type} p q i word led pr ow t k w g f (K : Result unit LedgerError -> ST Pool E A)
    (Q : Pool -> Result A E -> Prop) :
  moving p q i (mkAt word led pr ow) -> w = id_of p i ->
  (forall now d, worker (f (record_new now k w g d)) = w) -> (forall now d, accepts led (f (record_new now k w g d)) t) ->
  (forall q', moving p q' i (mkAt word t pr ow) -> wp (K (Ok tt)) q' Q) ->
  wp (st_bind (new_record k w g) (fun r => st_bind (st_try (record (f r))) K)) q Q.
Proof using Type.
  intros Hm Hid Hw Hacc HK. apply wp_bind, (wp_new_record p q i _ _ _ _ _ Hm). intros q1 now M1.
  apply wp_bind, wp_try, (wp_record_durable p q1 i word led pr ow t _ _ M1).
  - rewrite Hw, Hid. symmetry. apply M1.
  - apply Hacc.
  - intros q2 M2. by apply HK.
Qed.

(** The process and the resources of a worker go away. *)
Lemma calm_orphan {E : Type} h res : st_rel calm (orphan (E := E) (P := P) h res).
Proof using Type. unfold orphan. calm. Qed.

Definition tearable (x : Phase) : Prop := may_transition_to x Destroying = true.

Lemma wp_teardown {E : Type} p q i g x pr ow handle ident res reason (Q : Pool -> Result ReleaseEvidence E -> Prop) :
  moving p q i (mkAt (mkPacked Destroying g) (mkPacked x g) pr ow) -> tearable x ->
  (forall q' ev, moving p q' i (mkAt (mkPacked Dead g) (mkPacked Dead g) pr ow) -> Q q' (Ok ev)) ->
  wp (teardown (mkHeld i (mkWorker Destroying g)) handle ident res reason) q Q.
Proof using Type.
  intros Hm Hx HQ. destruct (moving_ok _ _ _ _ Hm) as (_ & Hgok & Hlok). unfold teardown.
  apply wp_bind, wp_get. cbn [held_slot held_worker worker_generation]. rewrite (mv_id _ _ _ _ Hm).
  apply (wp_log p q i _ _ pr ow (mkPacked Destroying g) Kind_Destroying _ _
    (fun r => with_identity ident (with_detail (reason_code reason) r)) _ _ Hm); [done | done | | ].
  { intros now d. solve_accepts. destruct x; done. }
  intros q2 M2. apply wp_bind, (wp_calm p q2 i _ _ _ M2); [auto with sync | auto with total | ].
  intros q3 destroyed M3. apply wp_bind, (wp_calm p q3 i _ _ _ M3); [auto with sync | auto with total | ].
  intros q4 released M4.
  apply (wp_log p q4 i _ _ pr ow (mkPacked Dead g) Kind_Dead _ _ (fun r => with_detail (reason_code reason) r) _ _ M4); [done | done | | ].
  { intros now d. solve_accepts. }
  intros q6 M6. apply wp_bind, wp_try.
  apply (wp_keep p q6 i _ _ _ Act_finish g _ eq_refl M6). intros q7 M7. by apply wp_ret, HQ.
Qed.

Lemma wp_destroy_claiming {E : Type} p q i g x pr ow held reason (Q : Pool -> Result Disposition E -> Prop) :
  moving p q i (mkAt (mkPacked Claiming g) (mkPacked x g) pr ow) -> tearable x ->
  (forall q' d, moving p q' i (mkAt (mkPacked Dead g) (mkPacked Dead g) pr ow) -> Q q' (Ok d)) ->
  wp (destroy_claiming (mkHeld i (mkWorker Claiming g)) held reason) q Q.
Proof using Type.
  intros Hm Hx HQ. unfold destroy_claiming. cbn [held_slot held_worker].
  apply wp_bind, wp_try, (wp_keep p q i _ _ _ Act_destroy_claiming g _ eq_refl Hm). intros q1 M1.
  apply wp_bind, wp_bind, (wp_teardown p q1 i g x _ _ _ _ _ _ _ M1 Hx). intros q2 ev M2. apply wp_ret, wp_bind.
  apply (wp_calm p q2 i _ _ _ M2); [auto with sync | auto with total | ]. intros q3 u M3. by apply wp_ret, HQ.
Qed.

(** The state an owned worker's handle stands for. *)
Definition owned_state (w : OwnedWorker) : Packed :=
  match w with OwnedWorker_Assigned h => stands_for (held_worker h) | OwnedWorker_Running h => stands_for (held_worker h) end.

Lemma wp_destroy_owned {E : Type} p q i pr ow o reason (Q : Pool -> Result ReleaseEvidence E -> Prop) :
  let v := owned_state (owned_worker o) in
  moving p q i (mkAt v v pr ow) -> owned_slot (owned_worker o) = i ->
  (forall q' ev d, packed_phase d = Dead -> moving p q' i (mkAt d d pr ow) -> Q q' (Ok ev)) ->
  wp (destroy_owned o reason) q Q.
Proof using Type.
  intros v Hm Hi HQ. unfold destroy_owned.
  apply wp_bind, (wp_calm p q i _ _ _ Hm); [auto with sync | auto with total | ]. intros q1 u M1. apply wp_bind, wp_get.
  apply wp_bind, wp_try. unfold v in *. clear v. unfold owned_destroy.
  destruct (owned_worker o) as [h | h]; cbn [owned_slot owned_state] in *; subst i; destruct h as [i [g]];
    cbn [held_slot held_worker stands_for worker_generation] in *; apply wp_bind.
  - apply (wp_keep p q1 i _ _ _ Act_destroy_assigned g _ eq_refl M1). intros q2 M2. apply wp_ret.
    apply (wp_teardown p q2 i g Assigned _ _ _ _ _ _ _ M2); [done | ]. intros q3 ev M3. by apply (HQ q3 ev (mkPacked Dead g)).
  - apply (wp_keep p q1 i _ _ _ Act_destroy_running g _ eq_refl M1). intros q2 M2. apply wp_ret.
    apply (wp_teardown p q2 i g Running _ _ _ _ _ _ _ M2); [done | ]. intros q3 ev M3. by apply (HQ q3 ev (mkPacked Dead g)).
Qed.
End steps.

(** The transfer of a claimed worker against its slot and its ledger entry: whatever happens
    on the way, the worker ends assigned and owned, or dead, in both. *)

Section transfer.
Context {W H R D N P : Type} `{PoolWorld W H R D N, !DurableWorld W H R D N, NumaPlacement P}.
Context (sha256 : bytes -> bytes).
Notation Pool := (Pool W H R N P).
Implicit Types p q : Pool.
Notation id_of p i := (slot_id (arena p i)).

(** The slot is dead and so is its entry. *)
Definition gone p q (i : nat) pr ow : Prop :=
  exists d, packed_phase d = Dead /\ moving p q i (mkAt d d pr ow).

Definition claimed_at p q i g pr ow : Prop := moving p q i (mkAt (mkPacked Claiming g) (mkPacked Claiming g) pr ow).

Lemma gone_dead p q i g pr ow : moving p q i (mkAt (mkPacked Dead g) (mkPacked Dead g) pr ow) -> gone p q i pr ow.
Proof using Type. intros. by exists (mkPacked Dead g). Qed.

Lemma wp_abort_transfer {A : Type} p q i g pr ow (a : Attempt H) step fault (Q : Pool -> Result A TransferFailure -> Prop) :
  claimed_at p q i g pr ow -> attempt_held a = mkHeld i (mkWorker Claiming g) ->
  (forall q' e, gone p q' i pr ow -> Q q' (Err e)) -> wp (abort_transfer a step fault) q Q.
Proof using Type.
  intros Hm Ha HQ. unfold abort_transfer. apply wp_bind, wp_get, wp_bind. rewrite Ha.
  apply (wp_destroy_claiming p q i g Claiming pr ow _ _ _ Hm); [done | ]. intros q' d M.
  apply wp_err, HQ. by eapply gone_dead.
Qed.

Lemma wp_past_deadline {E : Type} p q i a won (Q : Pool -> Result bool E -> Prop) :
  moving p q i a -> (forall q' b, moving p q' i a -> Q q' (Ok b)) -> wp (past_deadline won) q Q.
Proof using Type.
  intros Hm HQ. apply (wp_calm p q i a _ _ Hm); [auto with sync | unfold past_deadline; total | done].
Qed.

(** A record that moves no phase. *)
Lemma accepts_still s r : packed_phase s <> Dead -> packed_ok s -> lease_generation r = packed_generation s ->
  kind r ∈ [Kind_Assigning; Kind_TransferStep; Kind_TransferFault; Kind_Suspect] -> accepts s r s.
Proof using Type.
  intros Hd Hok Hg Hk. assert (moves_to (kind r) = None /\ kind r <> Kind_Constructing /\ kind r <> Kind_Claiming /\
    moved r = None /\ fields_ok r) as (Hm & Hc & Hcl & Hmv & Hfl).
  { unfold moved, fields_ok. repeat (apply elem_of_cons in Hk as [-> | Hk]; [done | ]). by apply elem_of_nil in Hk. }
  split; try done; [rewrite decide_False by done; lia | by rewrite Hmv | by rewrite Hm].
Qed.

Lemma claimed_packed p q i g pr ow : claimed_at p q i g pr ow -> packed_ok (mkPacked Claiming g).
Proof using Type. intros Hm. apply (moving_ok _ _ _ _ Hm). Qed.

Ltac still Hm := intros; apply accepts_still;
  [done | exact (claimed_packed _ _ _ _ _ _ Hm) | done | cbn; by repeat constructor].

Lemma wp_admit p i g pr ow (c : Claimed H R) intent :
  claimed_at p p i g pr ow -> claimed_held c = mkHeld i (mkWorker Claiming g) ->
  wp (admit_grant sha256 c intent) p (fun q r => match r with
    | Ok (a, _) => claimed_at p q i g pr ow /\ attempt_held a = claimed_held c
    | Err _ => gone p q i pr ow end).
Proof using Type.
  intros Hm Hc. unfold admit_grant. apply wp_bind, wp_get, wp_bind.
  apply (wp_mono _ _ (fun q r => exists refusal, r = Ok refusal /\ claimed_at p q i g pr ow)).
  { case_decide; [apply wp_bind, (wp_past_deadline p p i _ _ _ Hm); intros q b M | ]; apply wp_ret; eauto. }
  intros q r ([[reason fault] | ] & -> & M); apply wp_bind.
  - rewrite Hc. apply (wp_destroy_claiming p q i g Claiming pr ow _ _ _ M); [done | ]. intros q' d M'.
    apply wp_err. by eapply gone_dead.
  - apply (wp_calm p q i _ _ _ M); [auto with sync | auto with total | ]. intros q1 [resources | fault] M1; apply wp_bind.
    + unfold assigning. apply wp_bind, wp_get.
      unfold held_id. cbn [attempt_held]. rewrite Hc. cbn [held_slot held_worker worker_generation].
      apply (wp_log p q1 i _ _ pr ow (mkPacked Claiming g) Kind_Assigning _ _ (fun r => with_resources _ (with_identity _
        (with_instance _ (with_operation _ r)))) _ _ M1); [apply M1 | done | still M1 | ].
      intros q2 M2. by apply wp_ret, wp_ret.
    + rewrite Hc. apply (wp_destroy_claiming p q1 i g Claiming pr ow _ _ _ M1); [done | ]. intros q' d M'.
      apply wp_err. by eapply gone_dead.
Qed.

Lemma wp_deliver {E : Type} p q i g pr ow (a : Attempt H) intent frame (Q : Pool -> Result (Attempt H * Result unit TransferFault) E -> Prop) :
  claimed_at p q i g pr ow -> attempt_held a = mkHeld i (mkWorker Claiming g) ->
  (forall q' b r, claimed_at p q' i g pr ow -> attempt_held b = mkHeld i (mkWorker Claiming g) -> Q q' (Ok (b, r))) ->
  wp (deliver a intent frame) q Q.
Proof using Type.
  intros Hm Ha HQ. unfold deliver. apply wp_bind, wp_get. unfold held_id. rewrite Ha.
  cbn [held_slot held_worker worker_generation]. rewrite (mv_id _ _ _ _ Hm).
  apply wp_bind, (wp_past_deadline p q i _ _ _ Hm). intros q1 late M1. apply wp_bind.
  apply (wp_mono _ _ (fun q r => exists b x, r = Ok (b, x) /\ claimed_at p q i g pr ow /\
    attempt_held b = mkHeld i (mkWorker Claiming g))).
  { destruct late; [apply wp_ret; eauto | ]. apply wp_bind, (wp_calm p q1 i _ _ _ M1); [auto with sync | auto with total | ].
    intros q2 [h [u | fault]] M2; cbn [fst snd]; [ | apply wp_ret; by eexists _, _].
    apply (wp_log p q2 i _ _ pr ow (mkPacked Claiming g) Kind_TransferStep _ _ (fun r => with_resources _ (with_identity _
      (with_instance _ (with_operation _ (with_detail _ r))))) _ _ M2); [done | done | still M2 | ].
    intros q3 M3. apply wp_ret. by eexists _, _. }
  intros q2 r (b & [u | fault] & -> & M2 & Hb); cbn [fst snd] in *; [by apply wp_ret, HQ | ].
  apply (wp_log p q2 i _ _ pr ow (mkPacked Claiming g) Kind_TransferFault _ _ (fun r => with_instance _ (with_operation _
      (with_detail _ r))) _ _ M2); [done | done | still M2 | ].
  intros q3 M3. by apply wp_ret, HQ.
Qed.

Lemma wp_deliver_all p q i g pr ow (a : Attempt H) intent fs steps :
  claimed_at p q i g pr ow -> attempt_held a = mkHeld i (mkWorker Claiming g) ->
  wp (deliver_all a intent fs steps) q (fun q' r => match r with
    | Ok (b, _) => claimed_at p q' i g pr ow /\ attempt_held b = mkHeld i (mkWorker Claiming g)
    | Err _ => gone p q' i pr ow end).
Proof using Type.
  revert q a steps. induction fs as [ | frame fs IH]; intros q a steps Hm Ha; cbn [deliver_all]; [by apply wp_ret | ].
  apply wp_bind, (wp_deliver p q i g pr ow a intent frame _ Hm Ha). intros q1 b [u | fault] M1 Hb; cbn [fst snd]; [by apply IH | ].
  by apply (wp_abort_transfer p q1 i g pr ow b _ _ _ M1 Hb).
Qed.

(** The owned entry of a freshly assigned worker. *)
Definition assigned_owner i g (o : Owned H N) : Prop :=
  owned_worker o = OwnedWorker_Assigned (mkHeld i (mkWorker Assigned g)) /\ owned_starting o = false.

Definition assigned_at p q i g pr : Prop :=
  exists o, assigned_owner i g o /\ moving p q i (mkAt (mkPacked Assigned g) (mkPacked Assigned g) pr (Some o)).

Lemma wp_commit p q i g pr ow (a : Attempt H) intent launch :
  claimed_at p q i g pr ow -> attempt_held a = mkHeld i (mkWorker Claiming g) ->
  wp (commit a intent launch) q (fun q' r => match r with
    | Ok _ => assigned_at p q' i g pr | Err _ => gone p q' i pr ow end).
Proof using Type.
  intros Hm Ha. unfold commit. apply wp_bind, (wp_past_deadline p q i _ _ _ Hm). intros q1 [] M1.
  { by apply (wp_abort_transfer p q1 i g pr ow a _ _ _ M1 Ha). }
  apply wp_bind, wp_get. unfold held_id. rewrite Ha. cbn [held_slot held_worker worker_generation].
  apply wp_bind, wp_try, (wp_keep p q1 i _ _ _ Act_assign g _ eq_refl M1). intros q2 M2.
  apply wp_bind, (wp_calm p q2 i _ _ _ M2); [auto with sync | auto with total | ]. intros q3 reservation M3.
  rewrite (mv_id _ _ _ _ M1).
  apply (wp_log p q3 i _ _ pr ow (mkPacked Assigned g) Kind_Assigned _ _ (fun r => with_resources _ (with_identity _
    (with_instance _ (with_operation _ r)))) _ _ M3); [done | done | | ].
  { intros now d. pose proof (moving_ok _ _ _ _ M3) as (_ & ? & ?). solve_accepts. }
  intros q4 M4. apply wp_modify. eexists. split; cycle 1.
  - eapply (moving_set_owned _ _ _ _ _ _ _ _ _ M4); [by rewrite lookup_insert_eq | ].
    intros w Hw. by rewrite lookup_insert_ne.
  - done.
Qed.

(** The whole transfer of a grant: the worker ends assigned and owned, or dead. *)
Lemma wp_transfer p i g pr ow (c : Claimed H R) intent :
  claimed_at p p i g pr ow -> claimed_held c = mkHeld i (mkWorker Claiming g) ->
  wp (transfer sha256 c intent) p (fun q r => match r with
    | Ok ev => assigned_at p q i g pr /\ transferred_worker ev = id_of p i /\
        transferred_instance ev = intent_instance intent /\ transferred_operation ev = intent_operation intent
    | Err _ => gone p q i pr ow end).
Proof using Type.
  intros Hm Hc. unfold transfer. apply wp_bind. eapply wp_mono; [by apply (wp_admit p i g pr ow) | ].
  intros q1 [[a resources] | e]; [intros [M1 Ha] | done]. rewrite Hc in Ha. apply wp_bind, wp_get, wp_bind.
  unfold held_id. rewrite Ha. cbn [held_slot held_worker worker_generation]. rewrite (mv_id _ _ _ _ M1).
  apply (wp_calm p q1 i _ _ _ M1); [auto with sync | unfold fresh_entropy; total | ]. intros q2 [seed | fault] M2; last first.
  { by apply (wp_abort_transfer p q2 i g pr ow a _ _ _ M2 Ha). }
  apply wp_bind. eapply wp_mono; [by apply (wp_deliver_all p q2 i g pr ow) | ].
  intros q3 [[b steps] | e]; [intros [M3 Hb] | done]. apply wp_bind. eapply wp_mono; [by apply (wp_commit p q3 i g pr ow) | ].
  intros q4 [u | e]; [intros (o & Ho & M4) | done]. apply wp_bind, (wp_calm p q4 i _ _ _ M4); [auto with sync | auto with total | ].
  intros q5 now M5. apply wp_ret. split; [by exists o | done].
Qed.
End transfer.
