(* ===== verification/HostTenancy.v ===== *)
(** The tenancy invariant of a pool: every live worker has exactly one holder, and the ledger
    says of every worker what its slot says.  Every operation, grants, claims, construction,
    release and the restart, works on one slot and leaves the pool with the invariant again. *)

From S2P Require Import Prelude Bytes HostAdmission HostState HostStateFacts HostLedger HostLedgerFacts HostPool HostClaim HostTransfer HostPoolFacts HostSync HostPoolInv.
From stdpp Require Import options.

Section tenancy.
Context {W H R D N P : Type} `{PoolWorld W H R D N, !DurableWorld W H R D N, NumaPlacement P}.
Notation Pool := (Pool W H R N P).
Notation Claimed := (Claimed H R).
Implicit Types p q : Pool.
Implicit Types c : Claimed.
Implicit Types gs : list Claimed.
Notation id_of p i := (slot_id (arena p i)).

Definition grant_slot c : nat := held_slot (claimed_held c).
Definition grant_state c : Packed := stands_for (held_worker (claimed_held c)).

(** The holder of slot [i] at [v]: a payload exactly while sterile, one grant exactly while
    claiming, an owned entry with a current handle exactly while assigned or running. *)
Record tenant (i : nat) (v : Packed) (pr : option (Prepared H R)) (ow : option (Owned H N)) (gs : list Claimed) : Prop := {
  ten_prepared : is_Some pr <-> packed_phase v = Sterile;
  ten_owned : match ow with
    | Some o => owned_starting o = false /\ owned_slot (owned_worker o) = i /\ owned_state (owned_worker o) = v
    | None => packed_phase v <> Assigned /\ packed_phase v <> Running
    end;
  ten_grant : forall c, c ∈ gs -> grant_slot c = i -> grant_state c = v;
  ten_claimed : packed_phase v = Claiming -> exists c, c ∈ gs /\ grant_slot c = i;
  ten_settled : packed_phase v <> Constructing /\ packed_phase v <> Destroying
}.

(** The slot table: the live slots, each once, no more than the maximum. *)
Record tabled (p : Pool) : Prop := {
  tab_in : forall i, i ∈ table p -> (i < arena_next p)%nat;
  tab_nodup : NoDup (table p);
  tab_live : forall i, (i < arena_next p)%nat -> packed_phase (view p i) <> Dead -> i ∈ table p;
  tab_max : (length (table p) <= limit_max (pool_limits p))%nat
}.

(** The invariant, but for the slot under construction. *)
Record tenancy_but (skip : option nat) (p : Pool) (gs : list Claimed) : Prop := {
  hs_sync : exists es, synced p (view p) es;
  hs_tenant : forall i, (i < arena_next p)%nat -> skip <> Some i ->
    tenant i (view p i) (prepared p !! id_of p i) (owned p !! id_of p i) gs;
  hs_grants : NoDup (grant_slot <$> gs);
  hs_range : forall c, c ∈ gs -> (grant_slot c < arena_next p)%nat;
  hs_dom : forall w, is_Some (prepared p !! w) \/ is_Some (owned p !! w) ->
    exists i, (i < arena_next p)%nat /\ id_of p i = w;
  hs_table : tabled p
}.

Definition tenancy (p : Pool) (gs : list Claimed) : Prop := tenancy_but None p gs.

Lemma tenancy_calm skip p q gs : calm p q -> tenancy_but skip p gs -> tenancy_but skip q gs.
Proof using Type.
  intros Hc [[es Hs] Ht Hg Hr Hd [Hin Hnd Hlive Hmax]]. pose proof Hc as [Ha Hn Htab Hp Ho _ Hl _ _].
  split; rewrite ?Hn, ?Hp, ?Ho; try done.
  - exists es. eapply calm_synced; [done | ]. eapply synced_ext; [exact Hs | ]. intros i _. by rewrite (calm_view p q).
  - intros i Hi Hne. rewrite (calm_view p q), Ha by done. by apply Ht.
  - intros w Hw. destruct (Hd w Hw) as (i & Hi & Hid). exists i. by rewrite Ha.
  - split; rewrite ?Htab, ?Hn, ?Hl; try done. intros i Hi. rewrite (calm_view p q) by done. by apply Hlive.
Qed.

(** The step back to rest: the slot under work has its holder again. *)
Lemma tenancy_moved skip p q gs gs' i v pr ow :
  tenancy_but skip p gs -> (forall j, skip = Some j -> j = i) -> moving p q i (mkAt v v pr ow) -> i ∈ table p ->
  tenant i v pr ow gs' -> NoDup (grant_slot <$> gs') ->
  (forall c, grant_slot c <> i -> c ∈ gs' <-> c ∈ gs) -> tenancy q gs'.
Proof using Type.
  intros [[es Hs] Ht Hg Hr Hd [Hin Hnd Hlive Hmax]] Hskip Hm Htab Hten Hnd' Hsame.
  pose proof Hm as [Hi Hother Hid Hw [es' Hs'] Hp Ho Hpo Hoo Hn Htb Hl _]. cbn [at_word at_led at_prep at_own] in *.
  assert (forall j, (j < arena_next p)%nat -> j <> i -> id_of p j <> id_of p i) as Hids.
  { intros j Hj Hne Heq. by apply Hne, (sync_ids _ _ _ Hs). }
  assert (forall j, j <> i -> view q j = view p j) as Hview. { intros j Hj. unfold view. by rewrite Hother. }
  split; rewrite ?Hn; try done.
  - exists es'. eapply synced_ext; [exact Hs' | ]. intros j _. unfold upd.
    destruct (Nat.eqb_spec j i) as [-> | ]; [done | by rewrite Hview].
  - intros j Hj _. destruct (decide (j = i)) as [-> | Hne]; [by rewrite Hw, Hid, Hp, Ho | ].
    rewrite Hview, Hother, Hpo, Hoo by auto. destruct (Ht j Hj) as [H1' H2' H3' H4' H5'].
    { intros Heq. by apply Hne, Hskip. }
    split; try done.
    + intros c Hc Hcj. apply H3'; [ | done]. apply Hsame; [congruence | done].
    + intros Hcl. destruct (H4' Hcl) as (c & Hc & Hcj). exists c. split; [ | done]. apply Hsame; [congruence | done].
  - intros c Hc. destruct (decide (grant_slot c = i)) as [-> | Hne]; [done | ]. apply Hr. by apply Hsame.
  - intros w Hw'. destruct (decide (w = id_of p i)) as [-> | Hne]; [by exists i | ].
    rewrite Hpo, Hoo in Hw' by done. destruct (Hd w Hw') as (j & Hj & Hjd). exists j. split; [done | ].
    destruct (decide (j = i)) as [-> | ]; [congruence | by rewrite Hother].
  - split; rewrite ?Htb, ?Hn, ?Hl; try done. intros j Hj.
    destruct (decide (j = i)) as [-> | Hne]; [done | ]. rewrite Hview by done. by apply Hlive.
Qed.

(** A slot at rest, ready to be worked on. *)
Lemma tenancy_start p gs i : tenancy p gs -> (i < arena_next p)%nat ->
  moving p p i (mkAt (view p i) (view p i) (prepared p !! id_of p i) (owned p !! id_of p i)) /\
  tenant i (view p i) (prepared p !! id_of p i) (owned p !! id_of p i) gs.
Proof using Type. intros [[es Hs] Ht] Hi. split; [by eapply moving_start | by apply Ht]. Qed.

Lemma tenancy_in_table skip p gs i : tenancy_but skip p gs -> (i < arena_next p)%nat -> packed_phase (view p i) <> Dead ->
  i ∈ table p.
Proof using Type. intros Hp. apply (tab_live p), (hs_table _ _ _ Hp). Qed.

(** The holder of a worker of each phase. *)
Lemma tenant_none i v gs : packed_phase v = Dead -> (forall c, c ∈ gs -> grant_slot c <> i) -> tenant i v None None gs.
Proof using Type.
  intros Hv Hgs. split; rewrite ?Hv; try done.
  intros c Hc Hi. by destruct (Hgs c Hc).
Qed.

(** A worker that died leaves its table and its grant. *)
Definition without (i : nat) gs : list Claimed := filter (fun c => grant_slot c <> i) gs.

Lemma without_elem i gs c : c ∈ without i gs <-> c ∈ gs /\ grant_slot c <> i.
Proof using Type. unfold without. rewrite list_elem_of_filter. tauto. Qed.

Lemma without_nodup i gs : NoDup (grant_slot <$> gs) -> NoDup (grant_slot <$> without i gs).
Proof using Type.
  intros Hnd. induction gs as [ | c gs IH]; [done | ]. rewrite fmap_cons in Hnd. apply NoDup_cons in Hnd as [Hc Hnd].
  unfold without in *. rewrite filter_cons. case_decide; [ | auto]. rewrite fmap_cons. constructor; [ | auto].
  intros (d & Hd & Hin)%list_elem_of_fmap. apply Hc, list_elem_of_fmap. exists d. split; [done | ].
  by apply list_elem_of_filter in Hin as [_ ?].
Qed.

Lemma tenancy_gone skip p q gs i pr ow :
  tenancy_but skip p gs -> (forall j, skip = Some j -> j = i) -> gone p q i pr ow -> pr = None -> ow = None -> i ∈ table p ->
  tenancy q (without i gs).
Proof using Type.
  intros Hp Hskip (d & Hd & Hm) -> -> Htab. eapply tenancy_moved; try done.
  - apply tenant_none; [done | ]. intros c Hc. by apply without_elem in Hc as [_ ?].
  - apply without_nodup, Hp.
  - intros c Hne. rewrite without_elem. tauto.
Qed.

Lemma without_absent i gs : (forall c, c ∈ gs -> grant_slot c <> i) -> without i gs = gs.
Proof using Type.
  intros Hgs. unfold without. induction gs as [ | c gs IH]; [done | ]. rewrite filter_cons, decide_True by (apply Hgs; left).
  f_equal. apply IH. intros d Hd. apply Hgs. by right.
Qed.

(** No grant is on a slot whose phase is another. *)
Lemma tenant_ungranted i v pr ow gs : tenant i v pr ow gs -> packed_phase v <> Claiming -> forall c, c ∈ gs -> grant_slot c <> i.
Proof using Type. intros Ht Hv c Hc Hi. apply Hv. by rewrite <- (ten_grant _ _ _ _ _ Ht c Hc Hi). Qed.
End tenancy.

(** Every operation of a pool keeps the tenancy: grants dropped, refused and transferred,
    workers started, released and evicted, construction and the claim. *)

Section grants.
Context {W H R D N P : Type} `{PoolWorld W H R D N, !DurableWorld W H R D N, NumaPlacement P}.
Context (sha256 : bytes -> bytes).
Notation Pool := (Pool W H R N P).
Implicit Types p q : Pool.
Implicit Types c : Claimed H R.
Implicit Types gs : list (Claimed H R).
Notation id_of p i := (slot_id (arena p i)).

(** * Grants *)

Lemma tenancy_grant p gs c : tenancy p gs -> c ∈ gs -> exists g,
  claimed_held c = mkHeld (grant_slot c) (mkWorker Claiming g) /\ claimed_at p p (grant_slot c) g None None /\
  grant_slot c ∈ table p.
Proof using Type.
  intros Hp Hc. pose proof (hs_range _ _ _ Hp c Hc) as Hi. destruct (tenancy_start p gs _ Hp Hi) as [Hm Ht].
  pose proof (ten_grant _ _ _ _ _ Ht c Hc eq_refl) as Hv. unfold grant_state, grant_slot in *.
  destruct (claimed_held c) as [i [g]]; cbn [held_slot held_worker stands_for worker_generation] in *.
  change (stands_for (mkWorker Claiming g)) with (mkPacked Claiming g) in Hv. exists g. split; [done | ]. split.
  - unfold claimed_at. destruct Ht as [Hpr How _ _ _]. rewrite <- Hv in Hm, Hpr, How. cbn [packed_phase] in *.
    destruct (prepared p !! id_of p i); [discriminate (proj1 Hpr (mk_is_Some _ _ eq_refl)) | ].
    destruct (owned p !! id_of p i) as [o | ]; [ | done]. destruct How as (_ & _ & How). by destruct (owned_worker o).
  - eapply tenancy_in_table; [exact Hp | done | ]. by rewrite <- Hv.
Qed.

Lemma wp_drop_grant {E : Type} p gs c held reason (Q : Pool -> Result Disposition E -> Prop) :
  tenancy p gs -> c ∈ gs -> (forall q d, tenancy q (without (grant_slot c) gs) -> Q q (Ok d)) ->
  wp (destroy_claiming (claimed_held c) held reason) p Q.
Proof using Type.
  intros Hp Hc HQ. destruct (tenancy_grant p gs c Hp Hc) as (g & -> & Hm & Htab).
  apply (wp_destroy_claiming p p _ g Claiming None None _ _ _ Hm); [done | ]. intros q d M. apply HQ.
  eapply tenancy_gone; try done. by eapply gone_dead.
Qed.

Lemma tenancy_drop_claimed p gs c : tenancy p gs -> c ∈ gs ->
  tenancy (drop_claimed (E := unit) c p).1 (without (grant_slot c) gs).
Proof using Type.
  intros Hp Hc. enough (wp (drop_claimed (E := unit) c) p (fun q _ => tenancy q (without (grant_slot c) gs))) as Hw.
  { unfold wp in Hw. by destruct (drop_claimed c p). }
  unfold drop_claimed. by apply wp_bind, (wp_drop_grant p gs c).
Qed.

Lemma tenancy_refuse_foreign p gs c : tenancy p gs -> c ∈ gs ->
  tenancy (refuse_foreign (A := unit) c p).1 (without (grant_slot c) gs).
Proof using Type.
  intros Hp Hc. enough (wp (refuse_foreign (A := unit) c) p (fun q _ => tenancy q (without (grant_slot c) gs))) as Hw.
  { unfold wp in Hw. by destruct (refuse_foreign c p). }
  unfold refuse_foreign. by apply wp_bind, wp_get, wp_bind, (wp_drop_grant p gs c).
Qed.

Lemma tenancy_transfer p gs c intent : tenancy p gs -> c ∈ gs ->
  tenancy (transfer sha256 c intent p).1 (without (grant_slot c) gs).
Proof using Type.
  intros Hp Hc. destruct (tenancy_grant p gs c Hp Hc) as (g & Hh & Hm & Htab).
  pose proof (wp_transfer sha256 p _ g None None c intent Hm Hh) as Hw. unfold wp in Hw.
  destruct (transfer sha256 c intent p) as [q [ev | e]]; cbn [fst]; [ | by eapply tenancy_gone].
  destruct Hw as [(o & [Ho Hst] & M) _]. eapply tenancy_moved; try done.
  - split; try done.
    + by rewrite Ho.
    + intros d [_ Hne]%without_elem Hd. congruence.
  - apply without_nodup, Hp.
  - intros d Hd. rewrite without_elem. tauto.
Qed.

(** * Owned workers *)

Lemma tenancy_owned p gs w o : tenancy p gs -> owned p !! w = Some o -> exists i,
  id_of p i = w /\ owned_slot (owned_worker o) = i /\ owned_starting o = false /\ i ∈ table p /\
  (let v := owned_state (owned_worker o) in moving p p i (mkAt v v None (Some o))) /\
  (forall c, c ∈ gs -> grant_slot c <> i).
Proof using Type.
  intros Hp Ho. destruct (hs_dom _ _ _ Hp w) as (i & Hi & Hid); [by right; exists o | ]. exists i.
  destruct (tenancy_start p gs _ Hp Hi) as [Hm Ht]. pose proof (tenant_ungranted _ _ _ _ _ Ht) as Hun.
  destruct Ht as [Hpr How _ _ _]. rewrite Hid, Ho in *. destruct How as (Hs & Hslot & Hv).
  assert (packed_phase (view p i) = Assigned \/ packed_phase (view p i) = Running) as Hph.
  { rewrite <- Hv. destruct (owned_worker o); [by left | by right]. }
  split; [done | ]. split; [done | ]. split; [done | ]. split.
  { eapply tenancy_in_table; [exact Hp | done | ]. by destruct Hph as [-> | ->]. }
  rewrite Hv. split; [ | apply Hun; by destruct Hph as [-> | ->]].
  destruct (prepared p !! w); [ | done]. pose proof (proj1 Hpr (mk_is_Some _ _ eq_refl)). destruct Hph; congruence.
Qed.

(** An owned worker leaves the table and is destroyed. *)
Lemma wp_disown {E : Type} p q gs i (o o' : Owned H N) reason (Q : Pool -> Result ReleaseEvidence E -> Prop) :
  let v := owned_state (owned_worker o) in
  tenancy p gs -> i ∈ table p -> (forall c, c ∈ gs -> grant_slot c <> i) ->
  moving p q i (mkAt v v None None) -> owned_worker o' = owned_worker o -> owned_slot (owned_worker o) = i ->
  (forall q' ev, tenancy q' gs -> Q q' (Ok ev)) -> wp (destroy_owned o' reason) q Q.
Proof using Type.
  intros v Hp Htab Hun Hm Ho Hi HQ. pose proof (wp_destroy_owned p q i None None o' reason Q) as Hd.
  cbv zeta in Hd. rewrite Ho in Hd. apply Hd; [done | done | ]. clear Hd.
  intros q' ev d Hd M. apply HQ. rewrite <- (without_absent i gs) by done. eapply tenancy_gone; try done. by exists d.
Qed.

Lemma tenancy_release_worker p gs w : tenancy p gs -> tenancy (release_worker w p).1 gs.
Proof using Type.
  intros Hp. enough (wp (release_worker w) p (fun q _ => tenancy q gs)) as Hw.
  { unfold wp in Hw. by destruct (release_worker w p). }
  unfold release_worker. apply wp_bind, wp_get. destruct (owned p !! w) as [o | ] eqn:Ho; [ | done].
  destruct (tenancy_owned p gs w o Hp Ho) as (i & Hid & Hslot & -> & Htab & Hm & Hun).
  apply wp_bind, wp_modify. eapply (wp_disown p _ gs i o o); try done.
  eapply (moving_set_owned _ _ _ _ _ _ _ _ _ Hm); rewrite Hid; [by rewrite lookup_delete_eq | ].
  intros w' Hne. by rewrite lookup_delete_ne.
Qed.

Lemma wp_calm_handle p q i a (h : option H) (K : option H * Result unit StartFault -> ST Pool LifecycleError unit)
    (Q : Pool -> Result unit LifecycleError -> Prop) :
  moving p q i a -> (forall q' x, moving p q' i a -> wp (K x) q' Q) ->
  wp (st_bind match h with
    | None => st_ret (None, Ok tt)
    | Some h => started <-- in_world (handle_start h) ;; st_ret (Some started.1, started.2)
    end K) q Q.
Proof using Type.
  intros Hm HK. apply wp_bind. destruct h as [h | ]; [ | by apply wp_ret, HK].
  apply wp_bind, (wp_calm p q i _ _ _ Hm); [auto with sync | auto with total | ]. intros q' x M. by apply wp_ret, HK.
Qed.

Lemma wp_finish_start p q gs w i g (o' : Owned H N) handle started :
  tenancy p gs -> id_of p i = w -> i ∈ table p -> (forall c, c ∈ gs -> grant_slot c <> i) ->
  owned_worker o' = OwnedWorker_Assigned (mkHeld i (mkWorker Assigned g)) ->
  moving p q i (mkAt (mkPacked Assigned g) (mkPacked Assigned g) None (Some o')) ->
  wp (finish_start w handle started) q (fun q' _ => tenancy q' gs).
Proof using Type.
  intros Hp Hid Htab Hun Ho Hm. unfold finish_start. apply wp_bind, wp_get. rewrite <- Hid, (mv_own _ _ _ _ Hm). cbn [at_own].
  apply wp_bind, wp_modify.
  assert (forall o2 m, m !! id_of p i = o2 -> (forall w', w' <> id_of p i -> m !! w' = owned q !! w') ->
    moving p (set_owned m q) i (mkAt (mkPacked Assigned g) (mkPacked Assigned g) None o2)) as Hset.
  { intros o2 m Hm2 Hmo. by eapply moving_set_owned. }
  destruct started as [u | fault]; last first.
  { apply wp_bind, wp_modify, wp_bind. eapply (wp_disown p _ gs i o' _); rewrite ?Ho; try done.
    cbn [owned set_owned]. eapply (moving_set_owned _ _ _ _ _ _ _ _ _ (Hset _ _ (lookup_insert_eq _ _ _) _)).
    - by rewrite lookup_delete_eq.
    - intros w' Hne. by rewrite lookup_delete_ne.
      Unshelve. intros w' Hne. by rewrite lookup_insert_ne. }
  cbn [set_owned_handle owned_worker]. rewrite Ho. cbn [owned_slot held_slot].
  assert (attach Assigned (arena q i) = Some (mkWorker Assigned g)) as ->.
  { unfold attach. change (observe (arena q i)) with (view q i). by rewrite (mv_word _ _ _ _ Hm). }
  set (o2 := set_owned_handle handle false o').
  assert (moving p (set_owned (<[id_of p i := o2]> (owned q)) q) i
    (mkAt (mkPacked Assigned g) (mkPacked Assigned g) None (Some o2))) as M1.
  { apply Hset; [by rewrite lookup_insert_eq | ]. intros w' Hne. by rewrite lookup_insert_ne. }
  apply wp_bind, wp_map_err, (wp_keep p _ i _ _ _ Act_run g _ eq_refl M1). intros q2 M2. cbn [map_err].
  apply wp_bind, (wp_new_record p q2 i _ _ _ _ _ M2). intros q3 now M3. apply wp_bind, wp_modify, wp_map_err.
  eapply (wp_record_durable p _ i _ _ _ _ (mkPacked Running g)).
  - eapply (moving_set_owned _ _ _ _ _ _ _ _ _ M3); [by rewrite lookup_insert_eq | ]. intros w' Hne. by rewrite lookup_insert_ne.
  - symmetry. apply M3.
  - pose proof (moving_ok _ _ _ _ M3) as (_ & ? & ?). solve_accepts.
  - intros q5 M5. eapply (tenancy_moved None); try done.
    + split; try done. intros c Hc Hi. by destruct (Hun c Hc).
    + apply Hp.
Qed.

Lemma tenancy_start_worker p gs w : tenancy p gs -> tenancy (start w p).1 gs.
Proof using Type.
  intros Hp. enough (wp (start w) p (fun q _ => tenancy q gs)) as Hw. { unfold wp in Hw. by destruct (start w p). }
  unfold start, begin_start. apply wp_bind, wp_bind, wp_get. destruct (owned p !! w) as [o | ] eqn:Ho; [ | done].
  destruct (tenancy_owned p gs w o Hp Ho) as (i & Hid & Hslot & -> & Htab & Hm & Hun).
  destruct (owned_worker o) as [[j [g]] | h] eqn:How; [ | done]. cbn [owned_slot held_slot] in Hslot. subst j.
  apply wp_bind, wp_modify, wp_ret. eapply wp_calm_handle.
  - eapply (moving_set_owned _ _ _ _ _ _ _ _ _ Hm); rewrite Hid; [by rewrite lookup_insert_eq | ].
    intros w' Hne. by rewrite lookup_insert_ne.
  - intros q x M. by eapply (wp_finish_start p q gs w i g (set_owned_handle None true o)).
Qed.
End grants.

(** Sterile workers: eviction, construction and the claim keep the tenancy of a pool. *)

Section sterile.
Context {W H R D N P : Type} `{PoolWorld W H R D N, !DurableWorld W H R D N, NumaPlacement P}.
Notation Pool := (Pool W H R N P).
Implicit Types p q : Pool.
Implicit Types c : Claimed H R.
Implicit Types gs : list (Claimed H R).
Notation id_of p i := (slot_id (arena p i)).

(** * Sterile slots *)

(** A try at a slot: lost, and nothing moved, or won, and its payload is there. *)
Lemma wp_try_sterile {E : Type} {T : Phase} (a : Act Sterile T) p gs i (Q : Pool -> Result (option (Worker T)) E -> Prop) :
  tenancy p gs -> (i < arena_next p)%nat -> (forall q, calm p q -> Q q (Ok None)) ->
  (forall q g x, let t := target a (mkWorker Sterile g) in
    view p i = mkPacked Sterile g -> moving p q i (mkAt t (mkPacked Sterile g) (Some x) None) ->
    (forall c, c ∈ gs -> grant_slot c <> i) -> i ∈ table p ->
    Q q (Ok (Some (mkWorker T (packed_generation t))))) ->
  wp (on_slot i (fun s => let '(s, w) := try_from_sterile (act a) s in (s, Ok w))) p Q.
Proof using Type.
  intros Hp Hi Hlost Hwon. destruct (tenancy_start p gs i Hp Hi) as [Hm Ht].
  destruct (moving_ok _ _ _ _ Hm) as (Hok & _ & _). unfold wp, on_slot. rewrite try_from_sterile_spec by done.
  case_decide as Hd; last first.
  { apply Hlost. split; try done. intros j. cbn [arena set_arena]. by destruct (Nat.eqb_spec j i) as [-> | ]. }
  destruct Hd as [Hph Htok]. change (observe (arena p i)) with (view p i) in *. destruct (view p i) as [ph g] eqn:Hv.
  cbn [packed_phase packed_generation] in *. subst ph.
  destruct (prepared p !! id_of p i) as [x | ] eqn:Hx; last first.
  { pose proof (proj2 (ten_prepared _ _ _ _ _ Ht) eq_refl) as Hs. by destruct Hs. }
  assert (owned p !! id_of p i = None) as How.
  { pose proof (ten_owned _ _ _ _ _ Ht) as Ho. destruct (owned p !! id_of p i) as [o | ]; [ | done].
    destruct Ho as (_ & _ & Ho). by destruct (owned_worker o). }
  rewrite How in *. apply (Hwon _ g x); [done | by eapply moving_set_word | by eapply tenant_ungranted | ].
  eapply tenancy_in_table; [exact Hp | done | by rewrite Hv].
Qed.

Lemma wp_evict_slots {E : Type} p gs slots : tenancy p gs -> Forall (fun i => (i < arena_next p)%nat) slots ->
  wp (evict_slots (E := E) slots) p (fun q _ => tenancy q gs).
Proof using Type.
  intros Hp Hs. revert p Hp Hs. induction slots as [ | i slots IH]; intros p Hp Hs; [done | ]. cbn [evict_slots].
  apply Forall_cons in Hs as [Hi Hs]. apply wp_bind. change try_evict with (try_from_sterile (act Act_evict)).
  apply (wp_try_sterile Act_evict p gs i _ Hp Hi).
  - intros q Hc. apply IH; [by eapply tenancy_calm | by rewrite (calm_next _ _ Hc)].
  - intros q g x t Hv Hm Hun Htab. apply wp_bind, wp_get, wp_bind, wp_modify.
    assert (t = mkPacked Destroying g) as Ht by (unfold t, target; cbn; by rewrite Z.add_0_r).
    rewrite Ht in *. cbn [packed_generation]. rewrite (mv_id _ _ _ _ Hm), (mv_prep _ _ _ _ Hm). cbn [at_prep].
    apply wp_bind. eapply (wp_teardown p _ i g Sterile None None); [ | done | ].
    + eapply (moving_set_prepared _ _ _ _ _ _ _ _ _ Hm); [by rewrite lookup_delete_eq | ].
      intros w Hne. by rewrite lookup_delete_ne.
    + intros q' ev M. apply wp_bind. eapply wp_mono; [apply IH | by intros q2 []].
      * rewrite <- (without_absent i gs) by done. eapply tenancy_gone; try done. by eapply gone_dead.
      * by rewrite (mv_next _ _ _ _ M).
Qed.

Lemma tenancy_evict_sterile p gs : tenancy p gs -> tenancy (evict_sterile (E := unit) p).1 gs.
Proof using Type.
  intros Hp. enough (wp (evict_sterile (E := unit)) p (fun q _ => tenancy q gs)) as Hw.
  { unfold wp in Hw. by destruct (evict_sterile p). }
  unfold evict_sterile. apply wp_bind, wp_get, wp_evict_slots; [done | ]. apply Forall_forall.
  apply (tab_in p), (hs_table _ _ _ Hp).
Qed.

(** * The slot table *)

Definition live_of p : list nat := filter (fun i => slot_phase p i <> Dead) (table p).

Definition prune p : Pool := set_slots (arena p) (arena_next p) (live_of p) p.

Definition join (s : Slot) p : Pool :=
  set_slots (fun j => if Nat.eqb j (arena_next p) then s else arena p j) (S (arena_next p))
    (live_of p ++ [arena_next p]) p.

Lemma wp_add_slot p s (Q : Pool -> Result nat Overloaded -> Prop) :
  (forall o, Q (prune p) (Err o)) ->
  ((length (live_of p) < limit_max (pool_limits p))%nat -> Q (join s p) (Ok (arena_next p))) -> wp (add_slot s) p Q.
Proof using Type.
  intros Herr Hok. unfold add_slot. apply wp_bind, wp_get, wp_bind, wp_modify. fold (live_of p).
  destruct (existsb _ _); [by apply wp_err | ]. destruct (Nat.leb_spec (limit_max (pool_limits p)) (length (live_of p)));
    [by apply wp_err | ]. apply wp_bind, wp_modify, wp_ret. by apply Hok.
Qed.

Lemma live_elem p i : i ∈ live_of p <-> i ∈ table p /\ packed_phase (view p i) <> Dead.
Proof using Type. unfold live_of. rewrite list_elem_of_filter. unfold slot_phase, view. tauto. Qed.

Lemma live_length p : (length (live_of p) <= length (table p))%nat.
Proof using Type. apply length_filter. Qed.

Lemma tenancy_prune p gs : tenancy p gs -> tenancy (prune p) gs.
Proof using Type.
  intros [[es Hs] Ht Hg Hr Hd [Hin Hnd Hlive Hmax]]. split; try done.
  - exists es. by destruct Hs.
  - pose proof (live_length p) as Hle. split; cbn [prune set_slots table arena_next pool_limits].
    + intros i [Hi _]%live_elem. auto.
    + by apply NoDup_filter.
    + intros i Hi Hph. apply live_elem. auto.
    + lia.
Qed.

(** A new slot whose ledger entry says the same. *)
Lemma tenancy_join p q gs s es es' e :
  tenancy p gs -> synced p (view p) es -> (length (live_of p) < limit_max (pool_limits p))%nat ->
  slot_ok s -> (forall i, (i < arena_next p)%nat -> id_of p i <> slot_id s) -> calm (set_records (pool_records q) (join s p)) q ->
  entries_of (pool_records q) = Ok es' -> es' !! slot_id s = Some e -> entry_state e = observe s ->
  (forall w, w <> slot_id s -> es' !! w = es !! w) -> (forall w, is_Some (es' !! w) -> w ∈ issued (world q)) ->
  entry_full (slot_id s) e ->
  let i := arena_next p in
  tenancy_but (Some i) q gs /\ moving q q i (mkAt (observe s) (observe s) None None) /\ i ∈ table q.
Proof using Type.
  intros [_ Ht Hg Hr Hd [Hin Hnd Hlive Hmax]] Hs Hlen Hok Hfresh Hc Hfold He Hst Hother Hiss Hefull i.
  pose proof Hc as [Ha Hn Htab Hp Ho _ Hl _ _]. cbn [join set_slots set_records arena arena_next table prepared owned pool_limits] in *.
  fold i in Ha, Hn, Htab.
  assert (arena q i = s) as Hi. { rewrite Ha. by rewrite Nat.eqb_refl. }
  assert (forall j, j <> i -> arena q j = arena p j) as Hj. { intros j Hne. rewrite Ha. by rewrite (proj2 (Nat.eqb_neq j i) Hne). }
  assert (forall j, (j < i)%nat -> arena q j = arena p j) as Hlt. { intros j Hlt. apply Hj. lia. }
  assert (synced q (view q) es') as Hsync.
  { destruct Hs as [_ Hslot Hvok Hword Hids _ Hfull]. split; try done.
    - intros j Hj'. destruct (decide (j = i)) as [-> | Hne]; [exists e; unfold view; by rewrite Hi | ].
      assert (j < i)%nat as Hji by lia. unfold view. rewrite Hlt, Hother by auto. by apply Hslot.
    - intros j Hj'. destruct (decide (j = i)) as [-> | Hne]; [unfold view; rewrite Hi; by apply observe_ok | ].
      unfold view. rewrite Hlt by lia. apply Hvok. lia.
    - intros j Hj'. destruct (decide (j = i)) as [-> | Hne]; [by rewrite Hi | ]. rewrite Hlt by lia. apply Hword. lia.
    - intros j k Hj' Hk. destruct (decide (j = i)) as [-> | Hne], (decide (k = i)) as [-> | Hne']; rewrite ?Hi; try done.
      + rewrite Hlt by lia. intros Heq. by destruct (Hfresh k); [lia | ].
      + rewrite Hlt by lia. intros Heq. by destruct (Hfresh j); [lia | ].
      + rewrite !Hlt by lia. apply Hids; lia.
    - intros w x Hx. destruct (decide (w = slot_id s)) as [-> | Hne]; [by simplify_eq | ].
      apply Hfull. by rewrite <- Hother. }
  assert (i ∈ table q) as Hitab by (rewrite Htab; apply elem_of_app; right; by apply list_elem_of_singleton).
  assert (prepared q !! slot_id s = None /\ owned q !! slot_id s = None) as [Hpn Hon].
  { rewrite Hp, Ho. split; apply eq_None_not_Some; intros Hx; destruct (Hd (slot_id s)) as (j & Hj' & Heq);
      [by left | by destruct (Hfresh j) | by right | by destruct (Hfresh j)]. }
  split; [ | split; [ | done]].
  - split; try done.
    + by exists es'.
    + intros j Hj' Hne. assert (j < i)%nat as Hji. { destruct (decide (j = i)) as [-> | ]; [done | lia]. }
      unfold view. rewrite Hlt, Hp, Ho by done. by apply Ht.
    + intros c Hin'. specialize (Hr c Hin'). fold i in Hr. lia.
    + intros w. rewrite Hp, Ho. intros Hw. destruct (Hd w Hw) as (j & Hj' & Heq). fold i in Hj'. exists j. split; [lia | ].
      by rewrite Hlt.
    + split; rewrite ?Htab, ?Hl.
      * intros j [[Hjt _]%live_elem | ->%list_elem_of_singleton]%elem_of_app; [apply Hin in Hjt; fold i in Hjt |]; lia.
      * apply NoDup_app. split; [by apply NoDup_filter | ]. split; [ | apply NoDup_singleton].
        intros j [Hjt _]%live_elem ->%list_elem_of_singleton. apply Hin in Hjt. unfold i in Hjt. lia.
      * intros j Hj' Hph. apply elem_of_app. destruct (decide (j = i)) as [-> | Hne]; [right; by apply list_elem_of_singleton | left].
        assert (j < i)%nat as Hji by lia. unfold view in Hph. rewrite Hlt in Hph by done. apply live_elem. auto.
      * rewrite length_app. cbn. lia.
  - assert (mkAt (observe s) (observe s) None None = mkAt (view q i) (view q i) (prepared q !! id_of q i) (owned q !! id_of q i)) as ->.
    { unfold view. by rewrite Hi, Hpn, Hon. }
    eapply moving_start; [done | lia].
Qed.
End sterile.

(** Construction and the claim keep the tenancy of a pool. *)

Section build.
Context {W H R D N P : Type} `{PoolWorld W H R D N, !DurableWorld W H R D N, NumaPlacement P}.
Notation Pool := (Pool W H R N P).
Implicit Types p q : Pool.
Implicit Types c : Claimed H R.
Implicit Types gs : list (Claimed H R).
Notation id_of p i := (slot_id (arena p i)).

(** * Construction *)

Notation building p i g := (moving p p i (mkAt (mkPacked Constructing g) (mkPacked Constructing g) None None)).

Lemma wp_fail_construction {A : Type} p q i g handle sterile fault (Q : Pool -> Result A ConstructionFailure -> Prop) :
  moving p q i (mkAt (mkPacked Constructing g) (mkPacked Constructing g) None None) ->
  (forall q' e, gone p q' i None None -> Q q' (Err e)) ->
  wp (fail_construction (mkHeld i (mkWorker Constructing g)) handle sterile fault) q Q.
Proof using Type.
  intros Hm HQ. unfold fail_construction. apply wp_bind, wp_get. cbn [held_slot held_worker worker_generation].
  rewrite (mv_id _ _ _ _ Hm). apply wp_bind, (wp_calm p q i _ _ _ Hm); [auto with sync | auto with total | ].
  intros q1 u M1. apply wp_bind.
  apply (wp_calm p q1 i _ _ _ M1); [destruct sterile; calm | destruct sterile; total | ]. intros q2 u2 M2.
  apply (wp_log p q2 i _ _ None None (mkPacked Dead g) Kind_ConstructFailed _ _ (fun r => r) _ _ M2); [done | done | | ].
  { intros now d. pose proof (moving_ok _ _ _ _ M2) as (_ & ? & ?). solve_accepts. }
  intros q3 M3. apply wp_bind, wp_try, (wp_keep p q3 i _ _ _ Act_abort g _ eq_refl M3). intros q4 M4.
  apply wp_err, HQ. by eapply gone_dead.
Qed.

Definition sterile_at p q i g : Prop :=
  exists x, moving p q i (mkAt (mkPacked Sterile g) (mkPacked Sterile g) (Some x) None).

Lemma wp_publish p q i g handle sterile refs :
  moving p q i (mkAt (mkPacked Constructing g) (mkPacked Constructing g) None None) ->
  wp (publish (mkHeld i (mkWorker Constructing g)) (id_of p i) handle sterile refs) q (fun q' r => match r with
    | Ok w => w = id_of p i /\ sterile_at p q' i g | Err _ => gone p q' i None None end).
Proof using Type.
  intros Hm. unfold publish. cbn [held_slot held_worker worker_generation].
  apply (wp_log p q i _ _ None None (mkPacked Sterile g) Kind_Sterile _ _
    (fun r => with_resources refs (with_identity (handle_identity handle) r)) _ _ Hm); [done | done | | ].
  { intros now d. pose proof (moving_ok _ _ _ _ Hm) as (_ & ? & ?). solve_accepts. }
  intros q1 M1. apply wp_bind, wp_modify, wp_bind, wp_try. eapply (wp_keep p _ i _ _ _ Act_sterilize g _ eq_refl).
  - eapply (moving_set_prepared _ _ _ _ _ _ _ _ _ M1); [by rewrite lookup_insert_eq | ].
    intros w Hne. by rewrite lookup_insert_ne.
  - intros q2 M2. apply wp_ret. split; [done | by eexists].
Qed.

(** The part of the construction that has the slot and its first record. *)
Lemma wp_construct_worker p i g budget :
  building p i g -> let id := id_of p i in let h := mkHeld i (mkWorker Constructing g) in
  wp (started <-- in_world instant_now ;;
      built <-- in_world (launcher_construct id budget) ;;
      match built with
      | Err fault => fail_construction h None None (ConstructionFault_Launcher fault)
      | Ok handle =>
          now <-- in_world instant_now ;;
          parts <-- in_world (broker_prepare id (saturating_sub budget (now - started))) ;;
          match parts with
          | Err fault => fail_construction h (Some handle) None (ConstructionFault_Resources fault)
          | Ok (sterile, refs) =>
              now <-- in_world instant_now ;;
              let elapsed := now - started in
              if budget <? elapsed
              then fail_construction h (Some handle) (Some sterile) (ConstructionFault_Deadline budget elapsed)
              else publish h id handle sterile refs
          end
      end) p (fun q r => match r with
    | Ok w => w = id_of p i /\ sterile_at p q i g | Err _ => gone p q i None None end).
Proof using Type.
  intros Hm id h. apply wp_bind, (wp_calm p p i _ _ _ Hm); [auto with sync | auto with total | ]. intros q1 started M1.
  apply wp_bind, (wp_calm p q1 i _ _ _ M1); [auto with sync | auto with total | ].
  intros q2 [handle | fault] M2; [ | by apply (wp_fail_construction p q2 i g _ _ _ _ M2)].
  apply wp_bind, (wp_calm p q2 i _ _ _ M2); [auto with sync | auto with total | ]. intros q3 now M3.
  apply wp_bind, (wp_calm p q3 i _ _ _ M3); [auto with sync | auto with total | ].
  intros q4 [[sterile refs] | fault] M4; [ | by apply (wp_fail_construction p q4 i g _ _ _ _ M4)].
  apply wp_bind, (wp_calm p q4 i _ _ _ M4); [auto with sync | auto with total | ]. intros q5 now2 M5. cbv zeta.
  destruct (_ <? _); [by apply (wp_fail_construction p q5 i g _ _ _ _ M5) | by apply wp_publish].
Qed.

Lemma slot_new_ok id d : slot_ok (slot_new id d) /\ observe (slot_new id d) = mkPacked Constructing LEASE_FIRST.
Proof using Type.
  assert (packed_ok (mkPacked Constructing LEASE_FIRST)) as Hok by (by vm_compute).
  split; [by exists (mkPacked Constructing LEASE_FIRST) | by apply unpack_pack].
Qed.

Lemma fresh_full id r : worker r = id -> lease_generation r = LEASE_FIRST -> entry_full id (fresh r).
Proof using Type. intros Hw Hg. split; [done | | | | ]; cbn; try lia. unfold entry_state. cbn. rewrite Hg. by vm_compute. Qed.

(** The first record of a worker. *)
Lemma wp_record_new p q gs id es r (Q : Pool -> Result unit LedgerError -> Prop) :
  tenancy p gs -> synced p (view p) es -> es !! id = None -> id ∈ issued (world q) ->
  (length (live_of p) < limit_max (pool_limits p))%nat ->
  calm (join (slot_new id (pool_digest p)) p) q -> kind r = Kind_Constructing -> worker r = id ->
  lease_generation r = LEASE_FIRST ->
  (forall q', let i := arena_next p in tenancy_but (Some i) q' gs -> building q' i LEASE_FIRST -> i ∈ table q' ->
    id_of q' i = id -> pool_limits q' = pool_limits p -> Q q' (Ok tt)) ->
  wp (record r) q Q.
Proof using Type.
  intros Hp Hs Hid Hiss Hlen Hc Hk Hw Hg HQ. unfold wp, record, st_bind, in_world.
  pose proof (append_durable r (world q)) as Hd. pose proof (issued_mono _ (op_append r) (world q)) as Hi.
  destruct (append_io r (world q)) as [w [e | ]]; [done | ]. cbn in Hi. cbn [st_modify].
  pose proof (calm_records _ _ Hc) as Hrec. cbn [join set_slots pool_records] in Hrec.
  set (q' := set_records (pool_records (set_world w q) ++ [r]) (set_world w q)).
  assert (entries_of (pool_records q') = Ok (<[id := fresh r]> es)) as Hfold.
  { unfold q'. cbn [set_records set_world pool_records]. rewrite Hrec, <- Hw.
    apply fold_constructs; [apply Hs | by rewrite Hw | done]. }
  destruct (slot_new_ok id (pool_digest p)) as [Hok Hobs].
  destruct (tenancy_join p q' gs (slot_new id (pool_digest p)) es (<[id := fresh r]> es) (fresh r) Hp Hs Hlen Hok) as (Ht & Hm & Htab); try done.
  - intros j Hj Heq. cbn in Heq. destruct (sync_slot _ _ _ Hs j Hj) as (e & He & _). congruence.
  - destruct Hc as [Ha Hn Htb Hpr How _ Hl Hdg Hiq]. split; try done. by etrans.
  - cbn. by rewrite lookup_insert_eq.
  - unfold entry_state, fresh. cbn [entry_phase entry_generation]. by rewrite Hg.
  - cbn. intros w' Hne. by rewrite lookup_insert_ne.
  - cbn. intros w' [x [[<- _] | [_ Hx]]%lookup_insert_Some]; [by apply Hi | ].
    apply Hi, (calm_issued _ _ Hc). cbn. apply (sync_issued _ _ _ Hs). by exists x.
  - by apply fresh_full.
  - rewrite Hobs in Hm. apply HQ; try done.
    + unfold q'. cbn. rewrite (calm_arena _ _ Hc). cbn. by rewrite Nat.eqb_refl.
    + unfold q'. cbn. apply (calm_limits _ _ Hc).
Qed.

Lemma wp_construct_reserved p gs : tenancy p gs ->
  wp construct_reserved p (fun q _ => tenancy q gs).
Proof using Type.
  intros Hp. unfold construct_reserved. apply wp_bind, wp_get. destruct (negb (reconciled p)); [done | ].
  apply wp_bind. unfold wp at 1, in_world at 1. pose proof (issued_fresh (world p)) as [Hnew Hsub].
  destruct (fresh_worker_id (world p)) as [w id] eqn:Hf. cbn [fst snd] in *.
  assert (calm p (set_world w p)) as C1. { apply calm_set_world. set_solver. }
  set (p1 := set_world w p) in *. pose proof (tenancy_calm _ _ _ gs C1 Hp) as Hp1.
  destruct (hs_sync _ _ _ Hp1) as [es Hs]. assert (es !! id = None) as Hid.
  { destruct (hs_sync _ _ _ Hp) as [es' Hs']. pose proof (sync_fold _ _ _ Hs) as F1. pose proof (sync_fold _ _ _ Hs') as F2.
    change (entries_of (pool_records p) = Ok es) in F1. rewrite F1 in F2. injection F2 as <-. destruct (es !! id) eqn:He; [ | done].
    destruct Hnew. apply (sync_issued _ _ _ Hs'). by eexists. }
  assert (id ∈ issued (world p1)) as Hiss by (cbn; set_solver).
  change (pool_digest p) with (pool_digest p1). apply wp_bind, wp_map_err, wp_add_slot.
  { intros o. cbn [map_err]. by apply tenancy_prune. }
  intros Hlen. cbn [map_err]. apply wp_bind, wp_get. set (q := join (slot_new id (pool_digest p1)) p1).
  destruct (slot_new_ok id (pool_digest p1)) as [_ Hobs].
  assert (arena q (arena_next p1) = slot_new id (pool_digest p1)) as Harena. { cbn. by rewrite Nat.eqb_refl. }
  rewrite Harena. unfold worker_open. rewrite Hobs. cbn [packed_generation held_worker worker_generation].
  unfold new_record. apply wp_bind, wp_bind, wp_get, wp_bind.
  apply (wp_total_rel calm); [auto with sync | auto with total | ]. intros q1 now C2. apply wp_ret, wp_bind, wp_try.
  eapply (wp_record_new p1 q1 gs id es); try done. { by apply (calm_issued _ _ C2). }
  intros q2 i Hbut Hb Htab Hidq Hl. rewrite <- Hidq. eapply wp_mono; [by apply wp_construct_worker | ].
  assert (forall c, c ∈ gs -> grant_slot c <> i) as Hun. { intros c Hc Heq. pose proof (hs_range _ _ _ Hp1 c Hc). unfold i in Heq. lia. }
  assert (forall j, Some i = Some j -> j = i) as Hskip by congruence.
  intros q3 [wid | e]; [intros (_ & x & M) | intros M].
  - eapply (tenancy_moved _ q2 q3 gs gs i); [exact Hbut | done | exact M | done | | apply Hp | done].
    split; try done. intros c Hc Heq. by destruct (Hun c Hc).
  - rewrite <- (without_absent i gs) by done. by eapply tenancy_gone.
Qed.

Lemma wp_construct_one p gs : tenancy p gs -> wp construct_one p (fun q _ => tenancy q gs).
Proof using Type.
  intros Hp. unfold construct_one. apply wp_bind, wp_get. destruct (Nat.leb _ _); [done | ].
  apply wp_bind, wp_modify, wp_bind, wp_try. eapply wp_mono; [apply wp_construct_reserved | ].
  { eapply tenancy_calm; [ | exact Hp]. by split. }
  intros q r Hq. apply wp_bind, wp_modify, wp_lift. eapply tenancy_calm; [ | exact Hq]. by split.
Qed.

Lemma tenancy_construct_one p gs : tenancy p gs -> tenancy (construct_one p).1 gs.
Proof using Type. intros Hp. pose proof (wp_construct_one p gs Hp) as Hw. unfold wp in Hw. by destruct (construct_one p). Qed.

Lemma tenancy_replenish fuel built p gs : tenancy p gs -> tenancy (replenish_blocking fuel built p).1 gs.
Proof using Type.
  intros Hp. enough (wp (replenish_blocking fuel built) p (fun q _ => tenancy q gs)) as Hw.
  { unfold wp in Hw. by destruct (replenish_blocking fuel built p). }
  revert p built Hp. induction fuel as [ | fuel IH]; intros p built Hp; cbn [replenish_blocking];
    apply wp_bind, wp_get; destruct (Nat.ltb _ _); try done.
  apply wp_bind. eapply wp_mono; [by apply wp_construct_one | ]. intros q [w | e] Hq; [by apply IH | done].
Qed.

(** * The claim *)

(** Between [p'] and [q] a sterile slot was won, and its ledger entry is still sterile. *)
Definition won p' q gs (h : Held Claiming) : Prop :=
  tenancy p' gs /\ exists i g x, h = mkHeld i (mkWorker Claiming (g + 1)) /\ i ∈ table p' /\
  (forall c, c ∈ gs -> grant_slot c <> i) /\
  moving p' q i (mkAt (mkPacked Claiming (g + 1)) (mkPacked Sterile g) (Some x) None).

Lemma wp_try_claim_slot {E : Type} p gs i : tenancy p gs -> (i < arena_next p)%nat ->
  wp (try_claim_slot (E := E) i) p (fun q r => match r with
    | Ok (Some h) => exists p', won p' q gs h
    | Ok None => calm p q | Err _ => False end).
Proof using Type.
  intros Hp Hi. unfold try_claim_slot. apply wp_bind. change try_claim with (try_from_sterile (act Act_claim)).
  apply (wp_try_sterile Act_claim p gs i _ Hp Hi); [done | ]. intros q g x t Hv Hm Hun Htab.
  assert (t = mkPacked Claiming (g + 1)) as -> by done. apply wp_ret. exists p. split; [done | ].
  by exists i, g, x.
Qed.

Lemma wp_claim_first {E : Type} p gs slots : tenancy p gs -> Forall (fun i => (i < arena_next p)%nat) slots ->
  wp (claim_first (E := E) slots) p (fun q r => match r with
    | Ok (Some h) => exists p', won p' q gs h
    | Ok None => tenancy q gs | Err _ => False end).
Proof using Type.
  intros Hp Hs. revert p Hp Hs. induction slots as [ | i slots IH]; intros p Hp Hs; [done | ]. cbn [claim_first].
  apply Forall_cons in Hs as [Hi Hs]. apply wp_bind. eapply wp_mono; [by apply wp_try_claim_slot | ].
  intros q [[h | ] | e]; [by intros | intros Hc | done]. apply IH; [by eapply tenancy_calm | by rewrite (calm_next _ _ Hc)].
Qed.

Lemma find_slot_table p w i : find_slot p w = Some i -> i ∈ table p.
Proof using Type.
  unfold find_slot. intros Hh.
  assert (i ∈ filter (fun i => id_of p i = w) (table p)) as [_ ?]%list_elem_of_filter; [ | done].
  destruct (filter _ _); [done | ]. injection Hh as ->. left.
Qed.

Lemma wp_acquire p gs : tenancy p gs -> wp acquire p (fun q r => match r with
  | Ok (h, _) => exists p', won p' q gs h | Err _ => tenancy q gs end).
Proof using Type.
  intros Hp. unfold acquire. apply wp_bind, wp_get, wp_bind. eapply wp_mono; [apply wp_claim_first; [exact Hp | ] | ].
  { apply Forall_forall, (tab_in p), (hs_table _ _ _ Hp). }
  intros q [[h | ] | e]; [by intros | intros Hq | done]. destruct (exhausted_behavior _); [done | ].
  apply wp_bind, wp_map_err. eapply wp_mono; [by apply wp_construct_one | ]. intros q1 [id | e] Hq1; cbn [map_err]; [ | done].
  apply wp_bind, wp_get, wp_bind. destruct (find_slot q1 id) as [i | ] eqn:Hfind; [ | done].
  apply find_slot_table, (tab_in q1 (hs_table _ _ _ Hq1)) in Hfind.
  eapply wp_mono; [by apply wp_try_claim_slot | ]. intros q2 [[h | ] | e]; [by intros | intros Hc | done].
  apply wp_bind, wp_get, wp_err. by eapply tenancy_calm.
Qed.

Lemma wp_grant_won p' q gs o fp reservation h class : won p' q gs h ->
  wp (grant_won o fp reservation h class) q (fun q' r => match r with
    | Ok cl => exists c, grant cl = Some c /\ tenancy q' (c :: gs) | Err _ => tenancy q' gs end).
Proof using Type.
  intros (Hp & i & g & x & -> & Htab & Hun & Hm). unfold grant_won. cbn [held_slot held_worker worker_generation].
  apply wp_bind, (wp_calm p' q i _ _ _ Hm); [auto with sync | auto with total | ]. intros q1 now M1.
  apply wp_bind, wp_get, wp_bind, wp_modify. rewrite (mv_id _ _ _ _ M1), (mv_prep _ _ _ _ M1). cbn [at_prep].
  eapply (wp_log p' _ i _ (mkPacked Sterile g) None None (mkPacked Claiming (g + 1)) Kind_Claiming _ _
    (fun r => with_resources _ (with_identity _ (with_fingerprint _ (with_operation _ (with_detail _ r)))))).
  - eapply (moving_set_prepared _ _ _ _ _ _ _ _ _ M1); [by rewrite lookup_delete_eq | ].
    intros w Hne. by rewrite lookup_delete_ne.
  - done.
  - done.
  - intros t d. pose proof (moving_ok _ _ _ _ M1) as (_ & ? & ?). solve_accepts.
  - intros q2 M2. apply wp_bind, (wp_calm p' q2 i _ _ _ M2); [auto with sync | unfold finish_binding; total | ].
    intros q3 u M3. apply wp_ret. eexists. split; [done | ]. eapply (tenancy_moved None p'); try done.
    + split; try done.
      * intros c [-> | Hc]%elem_of_cons Heq; [done | by destruct (Hun c Hc)].
      * intros _. eexists. split; [left | done].
    + rewrite fmap_cons. constructor; [ | apply Hp]. intros (c & Hc & Hin)%list_elem_of_fmap. by destruct (Hun c Hin).
    + intros c Hne. rewrite elem_of_cons. split; [intros [-> | ]; [done | done] | by right].
Qed.

Lemma wp_claim p gs wakes o fp : tenancy p gs -> wp (claim wakes o fp) p (fun q r =>
  tenancy q (match r with Ok cl => option_list (grant cl) | Err _ => [] end ++ gs)).
Proof using Type.
  intros Hp. unfold claim. apply wp_bind, (wp_total_rel calm); [auto with sync | auto with total | ]. intros q1 started C1.
  apply (tenancy_calm _ _ _ _ C1) in Hp. clear C1 p.
  apply wp_bind, (wp_rel calm); [auto with sync | ]. intros q2 [[outcome | ] | e] C2; try by apply (tenancy_calm _ _ _ _ C2) in Hp.
  apply (tenancy_calm _ _ _ _ C2) in Hp. clear C2 q1.
  apply wp_bind, wp_try, (wp_rel calm); [auto with sync | ]. intros q3 [reservation | rejection] C3;
    apply (tenancy_calm _ _ _ _ C3) in Hp; clear C3 q2; last first.
  { apply wp_bind, (wp_total_rel calm); [auto with sync | unfold clear_binding; total | ]. intros q4 u C4. apply wp_err.
    by eapply tenancy_calm. }
  apply wp_bind, wp_try. eapply wp_mono; [by apply wp_acquire | ]. intros q4 [[h class] | e].
  - intros [p' Hw]. eapply wp_mono; [by eapply wp_grant_won | ]. intros q5 [cl | e]; [intros (c & -> & Hc) | ]; done.
  - intros Hq4. apply wp_bind, (wp_total_rel calm); [auto with sync | auto with total | ]. intros q5 u C5.
    apply wp_bind, (wp_total_rel calm); [auto with sync | unfold clear_binding; total | ]. intros q6 u' C6. apply wp_err.
    eapply tenancy_calm; [exact C6 | ]. by eapply tenancy_calm.
Qed.
End build.

(** A restart keeps the tenancy of a pool: the slots are empty, every worker the ledger says is
    live is a suspect, and reconciliation retains it under a new owner or records its death. *)

From stdpp Require sorting.

Section restart.
Context {W H R D N P : Type} `{PoolWorld W H R D N, !DurableWorld W H R D N, NumaPlacement P}.
Notation Pool := (Pool W H R N P).
Implicit Types p q : Pool.
Implicit Types c : Claimed H R.
Implicit Types gs : list (Claimed H R).
Implicit Types e : WorkerLedgerEntry.
Notation id_of p i := (slot_id (arena p i)).

(** The tenancy, and the entries the ledger folds to. *)
Definition tenancy_as p gs (es : Entries) : Prop := tenancy p gs /\ synced p (view p) es.

Lemma tenancy_entries p q gs es : synced p (view p) es -> tenancy q gs -> pool_records q = pool_records p -> tenancy_as q gs es.
Proof using Type.
  intros Hp Hq Hr. split; [done | ]. destruct (hs_sync _ _ _ Hq) as [es' Hs].
  pose proof (sync_fold _ _ _ Hs) as F1. rewrite Hr, (sync_fold _ _ _ Hp) in F1. by injection F1 as <-.
Qed.

Lemma tenancy_as_calm p q gs es : calm p q -> tenancy_as p gs es -> tenancy_as q gs es.
Proof using Type.
  intros Hc [Hp Hs]. eapply (tenancy_entries p); [done | by eapply tenancy_calm | apply Hc].
Qed.

(** No slot belongs to the worker. *)
Definition slotless p (w : WorkerId) : Prop := forall i, (i < arena_next p)%nat -> id_of p i <> w.

(** One record about a worker: another entry, and every slot as it was. *)
Lemma wp_record_entry p gs es e r t (Q : Pool -> Result unit LedgerError -> Prop) :
  tenancy_as p gs es -> es !! worker r = Some e -> accepts (entry_state e) r t ->
  (t = entry_state e \/ slotless p (worker r)) ->
  (forall q e', entry_state e' = t -> entry_full (worker r) e' -> tenancy_as q gs (<[worker r := e']> es) ->
    (forall w, slotless p w -> slotless q w) -> Q q (Ok tt)) -> wp (record r) p Q.
Proof using Type.
  intros [Hp Hs] He Hacc Ht HQ. unfold wp, record, st_bind, in_world.
  pose proof (append_durable r (world p)) as Hd. pose proof (issued_mono _ (op_append r) (world p)) as Hi.
  destruct (append_io r (world p)) as [w [err | ]]; [done | ]. cbn in Hi. cbn [st_modify].
  assert (calm p (set_world w p)) as Hc by by apply calm_set_world.
  destruct (tenancy_as_calm _ _ gs es Hc (conj Hp Hs)) as [Hp' Hs'].
  destruct (synced_log _ _ _ r e t Hs' He Hacc) as (e' & He' & Hfull & _ & Hall).
  set (p' := set_world w p) in *. set (q := set_records (pool_records p' ++ [r]) p').
  assert (synced q (view q) (<[worker r := e']> es)) as Hq.
  { apply Hall; [ | done]. intros i Hi' Hid. destruct Ht as [-> | Hno]; [ | by destruct (Hno i Hi')].
    destruct (sync_slot _ _ _ Hs' i Hi') as (e0 & He0 & Hst). rewrite Hid, He in He0. by injection He0 as <-. }
  apply (HQ q e' He' Hfull); [ | done]. split; [ | done]. destruct Hp' as [_ Hten Hg Hr Hdom [Hin Hnd Hlive Hmax]].
  split; try done. by eexists.
Qed.

Lemma find_slot_None p gs es e w : tenancy_as p gs es -> es !! w = Some e -> entry_phase e <> Dead -> find_slot p w = None ->
  slotless p w.
Proof using Type.
  intros [Hp Hs] He Hph Hf i Hi Hid. destruct (sync_slot _ _ _ Hs i Hi) as (e0 & He0 & Hst). rewrite Hid, He in He0.
  injection He0 as <-. assert (i ∈ filter (fun i => id_of p i = w) (table p)) as Hin.
  { apply list_elem_of_filter. split; [done | ]. eapply tenancy_in_table; [exact Hp | done | ]. by rewrite <- Hst. }
  unfold find_slot in Hf. destruct (filter _ _); [by apply elem_of_nil in Hin | done].
Qed.

(** * Retaining *)

Lemma restore_ok w k g : packed_ok (mkPacked Running g) ->
  slot_ok (slot_restore w k Running g) /\ observe (slot_restore w k Running g) = mkPacked Running g.
Proof using Type. intros Hok. split; [by exists (mkPacked Running g) | by apply unpack_pack]. Qed.

Lemma wp_retain {E : Type} p gs es e e' : tenancy_as p gs es -> es !! entry_worker e = Some e' ->
  entry_state e' = entry_state e -> entry_phase e = Running -> entry_full (entry_worker e) e ->
  slotless p (entry_worker e) ->
  wp (retain (E := E) e) p (fun q r => is_ok r = true /\ tenancy_as q gs es).
Proof using Type.
  intros [Hp Hs] He Hst Hrun Hfull Hno. unfold retain. apply wp_bind, wp_try, wp_add_slot.
  { intros o. apply wp_ret. split; [done | ]. eapply (tenancy_entries p); [done | by apply tenancy_prune | done]. }
  intros Hlen. set (s := slot_restore _ _ _ _). set (q := join s p).
  assert (packed_ok (mkPacked Running (entry_generation e))) as Hok by (destruct Hfull as [_ Hok _ _ _]; exact Hok).
  destruct (restore_ok (entry_worker e) (entry_key e) _ Hok) as [Hsok Hobs]. fold s in Hsok, Hobs.
  assert (calm (set_records (pool_records q) (join s p)) q) as Hcalm by by split.
  destruct (tenancy_join p q gs s es es e' Hp Hs Hlen Hsok Hno Hcalm (sync_fold _ _ _ Hs) He) as (Hbut & Hm & Htab).
  - rewrite Hst, Hobs. unfold entry_state. by rewrite Hrun.
  - intros w _. reflexivity.
  - exact (sync_issued _ _ _ Hs).
  - exact (sync_full _ _ _ Hs _ _ He).
  - rewrite Hobs in Hm. apply wp_bind, wp_get.
    assert (attach Running (arena q (arena_next p)) = Some (mkWorker Running (entry_generation e))) as ->.
    { unfold attach. change (observe (arena q (arena_next p))) with (view q (arena_next p)). by rewrite (mv_word _ _ _ _ Hm). }
    destruct Hfull as [_ _ Hid Hop Hin]. rewrite Hrun in Hid, Hop, Hin.
    destruct (Hid ltac:(by vm_compute)) as [ident ->], (Hop ltac:(by vm_compute)) as [op ->], (Hin ltac:(by vm_compute)) as [inst ->].
    apply wp_bind, wp_try, (wp_rel calm); [auto with sync | ]. intros q1 reserved C1.
    apply wp_bind, (wp_total_rel calm); [auto with sync | auto with total | ]. intros q2 reservation C2.
    apply wp_bind, wp_modify, wp_ret. split; [done | ].
    assert (calm q q2) as C by by etrans. pose proof (moving_calm _ _ _ _ _ Hm C) as M2.
    assert (id_of q (arena_next p) = entry_worker e) as Hidq by (cbn; by rewrite Nat.eqb_refl).
    eapply (tenancy_entries p); [done | | exact (calm_records _ _ C)].
    eapply (tenancy_moved _ q _ gs gs (arena_next p)); [exact Hbut | congruence | | done | | apply Hp | done].
    + eapply (moving_set_owned _ _ _ _ _ _ _ _ _ M2); rewrite Hidq; [by rewrite lookup_insert_eq | ].
      intros w Hne. by rewrite lookup_insert_ne.
    + split; try done. intros c Hc Heq. pose proof (hs_range _ _ _ Hp c Hc). lia.
Qed.

Lemma wp_settle {E : Type} p gs es e e' : tenancy_as p gs es -> es !! entry_worker e = Some e' ->
  entry_state e' = entry_state e -> entry_full (entry_worker e) e -> slotless p (entry_worker e) ->
  wp (settle (E := E) e) p (fun q r => exists f, r = Ok f /\ tenancy_as q gs es /\
    (finding_disposition f = Retained \/ slotless q (entry_worker e))).
Proof using Type.
  intros Hp He Hst Hfull Hno. unfold settle. apply wp_bind, (wp_total_rel calm); [calm | total | ]. intros q1 liveness C1.
  apply wp_bind, (wp_total_rel calm); [auto with sync | auto with total | ]. intros q2 res C2.
  assert (calm p q2) as C by by etrans. assert (slotless q2 (entry_worker e)) as Hno2.
  { intros i. rewrite (calm_next _ _ C), (calm_arena _ _ C). apply Hno. }
  apply (tenancy_as_calm _ _ _ _ C) in Hp. clear C C1 C2 q1.
  destruct (bool_decide _ && bool_decide _) eqn:Hb.
  - apply andb_true_iff in Hb as [Hrun%bool_decide_eq_true_1 _]. apply wp_bind.
    eapply wp_mono; [by eapply wp_retain | ]. intros q3 [kept | err] [Hok Hq3]; [ | done]. apply wp_ret. eauto 6.
  - apply wp_bind, (wp_total_rel calm); [calm | total | ]. intros q3 destroyed C3.
    apply wp_bind, (wp_total_rel calm); [auto with sync | auto with total | ]. intros q4 released C4. apply wp_ret.
    assert (calm q2 q4) as C by by etrans. eexists. split; [done | ]. split; [by eapply tenancy_as_calm | right].
    intros i. rewrite (calm_next _ _ C), (calm_arena _ _ C). apply Hno2.
Qed.

(** * Reconciliation *)

Lemma accepts_reconciled s r : packed_phase s <> Dead -> packed_ok s -> lease_generation r = packed_generation s ->
  kind r = Kind_Reconciled ->
  accepts s r (if decide (disposition_from_code (detail r) = Some Retained) then s else mkPacked Dead (packed_generation s)).
Proof using Type.
  intros Hd Hok Hg Hk. unfold fields_ok. split; rewrite ?Hk; try done.
  - by case_decide.
  - case_decide; [ | cbn]; rewrite decide_False by done; lia.
  - by case_decide.
  - unfold moved. rewrite Hk. by case_decide.
  - unfold fields_ok. by rewrite Hk.
Qed.

Lemma accepts_suspect s r : packed_phase s <> Dead -> packed_ok s -> lease_generation r = packed_generation s ->
  kind r = Kind_Suspect -> accepts s r s.
Proof using Type. intros Hd Hok Hg Hk. apply accepts_still; [done | done | done | rewrite Hk; by repeat constructor]. Qed.

Lemma wp_new_record_calm {E : Type} p k w g (Q : Pool -> Result LedgerRecord E -> Prop) :
  (forall q now, calm p q -> Q q (Ok (record_new now k w g (pool_digest p)))) -> wp (new_record k w g) p Q.
Proof using Type.
  intros HQ. unfold new_record. apply wp_bind, wp_get, wp_bind, (wp_total_rel calm);
    [auto with sync | auto with total | ]. intros q now Hc. apply wp_ret. by apply HQ.
Qed.

Lemma slotless_calm p q w : calm p q -> slotless p w -> slotless q w.
Proof using Type. intros C Hno i. rewrite (calm_next _ _ C), (calm_arena _ _ C). apply Hno. Qed.

Lemma wp_reconcile_entries l p gs es : tenancy_as p gs es -> NoDup (entry_worker <$> l) ->
  (forall e, e ∈ l -> es !! entry_worker e = Some e) -> wp (reconcile_entries l) p (fun q r => is_ok r = true /\ tenancy q gs).
Proof using Type.
  revert p es. induction l as [ | e l IH]; intros p es Hp Hnd Hl; [by split; [ | apply Hp] | ]. cbn [reconcile_entries].
  rewrite fmap_cons in Hnd. apply NoDup_cons in Hnd as [Hnew Hnd]. pose proof (Hl e ltac:(left)) as He.
  assert (forall es' : Entries, (forall w, w <> entry_worker e -> es' !! w = es !! w) ->
    forall e', e' ∈ l -> es' !! entry_worker e' = Some e') as Hrest.
  { intros es' Hes' e' Hin. rewrite Hes'; [apply Hl; by right | ]. intros Heq. apply Hnew, list_elem_of_fmap. by exists e'. }
  apply wp_bind, wp_get. destruct (negb _ || bool_decide _) eqn:Hskip; [eapply IH; [exact Hp | done | by apply Hrest] | ].
  apply orb_false_iff in Hskip as [Hterm Hfind%bool_decide_eq_false_1]. apply negb_false_iff in Hterm.
  assert (entry_phase e <> Dead) as Hlive by by (intros Hd; rewrite Hd in Hterm).
  assert (slotless p (entry_worker e)) as Hno by (eapply find_slot_None; [done.. | by apply eq_None_not_Some]).
  pose proof (sync_full _ _ _ (proj2 Hp) _ _ He) as Hfull. pose proof (full_ok _ _ Hfull) as Hok.
  apply wp_bind, wp_new_record_calm. intros q1 now C1. apply (slotless_calm _ _ _ C1) in Hno.
  apply (tenancy_as_calm _ _ _ _ C1) in Hp. apply wp_bind.
  eapply (wp_record_entry q1 gs es e _ (entry_state e) _ Hp); [exact He | by apply accepts_suspect | by left | ].
  intros q2 e1 Hst1 Hfull1 Hq2 Hno2. cbn [worker with_detail record_new] in *. apply Hno2 in Hno.
  apply wp_bind. eapply wp_mono; [eapply (wp_settle q2 gs _ e e1); [exact Hq2 | by rewrite lookup_insert_eq | done..] | ].
  intros q3 r (f & -> & Hq3 & Hf). apply wp_bind, wp_new_record_calm. intros q4 now2 C4.
  apply (tenancy_as_calm _ _ _ _ C4) in Hq3. apply wp_bind.
  eapply (wp_record_entry q4 gs _ e1 _ _ _ Hq3); [cbn; by rewrite lookup_insert_eq | apply accepts_reconciled; rewrite ?Hst1; done | | ].
  { cbn [detail with_resources with_identity with_detail worker record_new]. destruct Hf as [-> | Hf].
    - left. by rewrite decide_True by (by vm_compute).
    - right. by eapply slotless_calm. }
  intros q5 e2 _ _ Hq5 _. cbn [worker with_resources with_identity with_detail record_new] in *. apply wp_bind.
  eapply wp_mono; [eapply (IH q5 _ Hq5 Hnd), Hrest | by intros q6 [fs | err] [? ?]].
  intros w Hne. by rewrite !lookup_insert_ne.
Qed.

Lemma tenancy_reconcile p gs : tenancy p gs -> tenancy (reconcile p).1 gs /\ is_ok (reconcile p).2 = true.
Proof using Type.
  intros Hp. enough (wp reconcile p (fun q r => tenancy q gs /\ is_ok r = true)) as Hw.
  { unfold wp in Hw. by destruct (reconcile p). }
  unfold reconcile. apply wp_bind, wp_ledger_read. intros p' Hc. rewrite <- (calm_records _ _ Hc).
  pose proof (tenancy_calm _ _ _ _ Hc Hp) as Hp'. clear p Hc Hp. rename p' into p, Hp' into Hp.
  destruct (hs_sync _ _ _ Hp) as [es Hs]. apply wp_bind, wp_lift. rewrite (sync_fold _ _ _ Hs). apply wp_bind.
  assert (forall w e, es !! w = Some e -> entry_worker e = w) as Hw. { intros w e He. by destruct (sync_full _ _ _ Hs w e He). }
  eapply wp_mono; [eapply (wp_reconcile_entries _ p gs es); [by split | | ] | ].
  - assert (entry_worker <$> (map_to_list es).*2 = (map_to_list es).*1) as Hfst.
    { rewrite <- list_fmap_compose. apply list_fmap_ext. intros i [w e] Hin%list_elem_of_lookup_2%elem_of_map_to_list. by apply Hw. }
    unfold entry_values. rewrite sorting.merge_sort_Permutation, Hfst. apply NoDup_fst_map_to_list.
  - intros e. unfold entry_values. rewrite sorting.merge_sort_Permutation.
    intros ([w e'] & -> & Hin%elem_of_map_to_list)%list_elem_of_fmap. cbn. by rewrite (Hw w e' Hin).
  - intros q [fs | err] [Hok Hq]; [ | done]. apply wp_bind, wp_modify, wp_ret. split; [ | done].
    eapply tenancy_calm; [ | exact Hq]. by split.
Qed.

(** * Opening *)

Lemma tenancy_open digest limits shape adm records w p es : pool_open digest limits shape adm records w = Ok p ->
  entries_of records = Ok es -> (forall i, is_Some (es !! i) -> i ∈ issued w) ->
  (forall i e, es !! i = Some e -> entry_full i e) -> tenancy p [].
Proof using Type.
  intros (_ & es' & _ & ->)%pool_open_inv Hes Hiss Hfull. split; cbn [arena_next prepared owned table pool_limits].
  - exists es. split; cbn [arena_next pool_records world]; try done; try lia. intros i Hi. unfold opened_world.
    do 2 apply (issued_mono read_io op_read). by apply (issued_mono open_io op_open), Hiss.
  - lia.
  - constructor.
  - intros c Hc. by apply elem_of_nil in Hc.
  - intros i. rewrite !lookup_empty. by intros [[] | []].
  - split; cbn [arena_next table]; [by intros i Hi%elem_of_nil | constructor | lia | cbn; lia].
Qed.
End restart.
