(* ===== verification/HostPoolProps.v ===== *)
(** What a pool keeps true over its whole life, restarts included, while its ledger is
    durable. *)

From S2P Require Import Prelude Bytes HostAdmission HostAdmissionFacts HostAdmissionProps HostState HostStateFacts HostLedger HostLedgerFacts HostPool HostClaim HostTransfer HostWorld HostPoolFacts HostSync HostPoolInv HostTenancy.
From stdpp Require Import options.

Section life.
Context {W H R D N P : Type} `{PoolWorld W H R D N, !DurableWorld W H R D N, NumaPlacement P}.
Context (sha256 : bytes -> bytes).
Notation Pool := (Pool W H R N P).
Notation Grants := (list (Claimed H R)).

(** One operation on a pool with its outstanding grants.  A grant is used once, by its
    transfer, its refusal or its drop; a restart forgets them all and finds the ledger, in a
    world whose new workers are still new. *)
Inductive hold_step : Pool * Grants -> Pool * Grants -> Prop :=
| hold_construct p gs : hold_step (p, gs) ((construct_one p).1, gs)
| hold_replenish fuel p gs : hold_step (p, gs) ((replenish_blocking fuel 0 p).1, gs)
| hold_claim wakes o fp p gs :
    hold_step (p, gs) ((claim wakes o fp p).1,
      match (claim wakes o fp p).2 with Ok cl => option_list (grant cl) | Err _ => [] end ++ gs)
| hold_drop c p gs : c ∈ gs -> hold_step (p, gs) ((drop_claimed (E := unit) c p).1, without (grant_slot c) gs)
| hold_refuse c p gs : c ∈ gs -> hold_step (p, gs) ((refuse_foreign (A := unit) c p).1, without (grant_slot c) gs)
| hold_transfer c intent p gs : c ∈ gs -> hold_step (p, gs) ((transfer sha256 c intent p).1, without (grant_slot c) gs)
| hold_start w p gs : hold_step (p, gs) ((start w p).1, gs)
| hold_release w p gs : hold_step (p, gs) ((release_worker w p).1, gs)
| hold_evict p gs : hold_step (p, gs) ((evict_sterile (E := unit) p).1, gs)
| hold_reconcile p gs : hold_step (p, gs) ((reconcile p).1, gs)
| hold_restart digest limits shape adm w p p' gs :
    pool_open digest limits shape adm (pool_records p) w = Ok p' -> issued (world p) ⊆ issued w ->
    hold_step (p, gs) (p', []).

Lemma hold_step_tenancy x y : hold_step x y -> tenancy x.1 x.2 -> tenancy y.1 y.2.
Proof using Type.
  destruct 1; cbn [fst snd]; intros Hp.
  - by apply tenancy_construct_one.
  - by apply tenancy_replenish.
  - pose proof (wp_claim p gs wakes o fp Hp) as Hw. unfold wp in Hw. by destruct (claim wakes o fp p).
  - by apply tenancy_drop_claimed.
  - by apply tenancy_refuse_foreign.
  - by apply tenancy_transfer.
  - by apply tenancy_start_worker.
  - by apply tenancy_release_worker.
  - by apply tenancy_evict_sterile.
  - by apply tenancy_reconcile.
  - destruct (hs_sync _ _ _ Hp) as [es Hs]. eapply tenancy_open; [done | apply Hs | | apply Hs].
    intros i Hi. by apply H3, (sync_issued _ _ _ Hs).
Qed.

(** C1: one holder for every worker, and a ledger that agrees.  Over a durable ledger, from
    the first opening and through any operations (constructions that fail half way, claims,
    transfers cut at any frame, starts, releases, evictions, restarts and reconciliation), at
    rest every live slot has exactly one holder: a prepared payload exactly while sterile,
    one outstanding grant exactly while claiming, an owned entry with a current handle exactly
    while assigned or running; the table holds every live slot once and never more than the
    maximum; and the ledger folds, to the same phase and generation as every slot, so that
    the pool can be opened again whatever happened. *)
Theorem pool_tenancy digest limits shape adm w p0 p gs :
  pool_open digest limits shape adm [] w = Ok p0 -> rtc hold_step (p0, []) (p, gs) ->
  tenancy p gs /\
  (forall digest' limits' shape' adm' w', limits_validate limits' = Ok limits' ->
    is_ok (pool_open (W := W) (H := H) (R := R) (N := N) (P := P) digest' limits' shape' adm' (pool_records p) w') = true) /\
  is_ok (reconcile p).2 = true.
Proof using Type.
  intros Hopen Hsteps. assert (tenancy p gs) as Hp.
  { assert (tenancy p0 []) as H0' by by eapply (tenancy_open _ _ _ _ _ _ _ ∅ Hopen); [done | by intros i []..].
    change (tenancy (p, gs).1 (p, gs).2). change (tenancy (p0, [] : Grants).1 (p0, [] : Grants).2) in H0'.
    revert H0'. induction Hsteps; eauto using hold_step_tenancy. }
  split; [done | ]. split; [ | by eapply tenancy_reconcile]. intros digest' limits' shape' adm' w' Hl.
  destruct (hs_sync _ _ _ Hp) as [es Hs]. apply (pool_open_folds _ _ _ _ _ _ es Hl (sync_fold _ _ _ Hs)); [ | apply read_durable].
  unfold opening_error. by rewrite open_durable, read_durable.
Qed.
End life.

(** * A durable world *)

(** The scripted world without its script: its appends never fail, and it numbers its
    workers. *)
Record Steady : Type := mkSteady {
  steady_ticks : Z;
  steady_built : nat
}.

Definition steady_tick (w : Steady) : Steady := mkSteady (steady_ticks w + 1) (steady_built w).

Definition steady_id (n : nat) : WorkerId := replicate 16 (Z.of_nat n).

#[export] Instance steady_world : PoolWorld Steady Z unit unit unit := {|
  instant_now w := (steady_tick w, steady_ticks w);
  now_nanos w := (steady_tick w, steady_ticks w);
  append_io _ w := (w, None);
  open_io w := (w, None);
  read_io w := (w, None);
  fresh_worker_id w := (mkSteady (steady_ticks w) (S (steady_built w)), steady_id (S (steady_built w)));
  read_urandom w := (w, Some (replicate 32 6));
  launcher_construct _ _ w := (w, Ok (Z.of_nat (steady_built w)));
  launcher_probe _ w := (w, Liveness_Alive);
  launcher_terminate _ w := (w, mkDestroyOutcome Removed Removed true);
  handle_identity h := mkWorkerIdentity h (replicate 16 1);
  handle_deliver _ h w := (w, (h, Ok tt));
  handle_start h w := (w, (h, Ok tt));
  handle_destroy _ w := (w, mkDestroyOutcome Removed Removed true);
  broker_prepare _ _ w := (w, Ok (tt, mkResourceRefs (Some (replicate 16 4)) None));
  broker_assign _ _ w := (w, Ok grant_all);
  broker_release_sterile _ w := (w, mkResourceRelease Removed Removed true);
  broker_release _ w := (w, mkResourceRelease Removed Removed true);
  broker_verify _ w := (w, ResourceLiveness_Present);
|}.

Definition steady_issued (w : Steady) : gset WorkerId := list_to_set (steady_id <$> seq 1 (steady_built w)).

Lemma steady_id_inj m n : steady_id m = steady_id n -> m = n.
Proof. unfold steady_id. cbn. intros [= Heq]. by apply Nat2Z.inj. Qed.

Lemma elem_of_steady w n : steady_id n ∈ steady_issued w <-> (1 <= n <= steady_built w)%nat.
Proof.
  unfold steady_issued. rewrite elem_of_list_to_set, list_elem_of_fmap. split.
  - intros (m & Heq%steady_id_inj & Hin%elem_of_seq). lia.
  - intros Hn. exists n. split; [done | ]. apply elem_of_seq. lia.
Qed.

#[export] Program Instance steady_durable : DurableWorld Steady Z unit unit unit := {| issued := steady_issued |}.
Next Obligation. by intros A c []. Qed.
Next Obligation.
  intros w. split; [cbn [fresh_worker_id steady_world snd]; rewrite elem_of_steady; cbn; lia | ]. intros x [->%elem_of_singleton | Hx]%elem_of_union; cbn [fst snd] in *.
  - apply elem_of_steady. cbn. lia.
  - unfold steady_issued in Hx. apply elem_of_list_to_set, list_elem_of_fmap in Hx as (n & -> & Hn%elem_of_seq).
    apply elem_of_steady. cbn. lia.
Qed.
Next Obligation. done. Qed.
Next Obligation. done. Qed.
Next Obligation. done. Qed.

Notation steady_pool := (Pool Steady Z unit unit SingleNode).

Definition steady_open : Result steady_pool PoolError :=
  pool_open demo_digest demo_limits shape1 demo_admission [] (mkSteady 1 0).

(** Two workers are built; one is claimed and transferred, the host restarts, and the running
    Instance is retained. *)
Lemma pool_tenancy_witness : exists (p0 p1 p2 p3 p4 : steady_pool) cl c,
  steady_open = Ok p0 /\ claim [] op1 demo_fingerprint (replenish_blocking 2 0 p0).1 = (p1, Ok cl) /\ grant cl = Some c /\
  p2 = (transfer demo_sha c demo_intent p1).1 /\ size (owned p2) = 1%nat /\
  p3 = (start (outcome_worker (claim_outcome cl)) p2).1 /\
  pool_open demo_digest demo_limits shape1 demo_admission (pool_records p3) (world p3) = Ok p4 /\
  size (owned (reconcile p4).1) = 1%nat /\ tenancy (reconcile p4).1 [].
Proof.
  destruct steady_open as [p0 | ] eqn:Hopen; [ | vm_compute in Hopen; discriminate Hopen].
  pose proof Hopen as Hopen'. vm_compute in Hopen'. injection Hopen' as Hp0.
  destruct (claim [] op1 demo_fingerprint (replenish_blocking 2 0 p0).1) as [p1 [cl | e]] eqn:Hc; last first.
  { subst p0. vm_compute in Hc. discriminate Hc. }
  pose proof Hc as Hc'. rewrite <- Hp0 in Hc'. vm_compute in Hc'. injection Hc' as Hp1 Hcl.
  destruct (grant cl) as [c | ] eqn:Hg; [ | subst cl; discriminate Hg].
  pose proof Hg as Hg'. rewrite <- Hcl in Hg'. injection Hg' as Hgc.
  set (p2 := (transfer demo_sha c demo_intent p1).1). set (p3 := (start (outcome_worker (claim_outcome cl)) p2).1).
  destruct (pool_open (H := Z) (R := unit) (N := unit) demo_digest demo_limits shape1 demo_admission (pool_records p3) (world p3))
    as [p4 | ] eqn:Hre; last first.
  { unfold p3, p2 in Hre. rewrite <- Hcl, <- Hgc, <- Hp1 in Hre. vm_compute in Hre. discriminate Hre. }
  exists p0, p1, p2, p3, p4, cl, c. split; [done | ]. split; [done | ]. split; [done | ]. split; [done | ].
  split; [unfold p2; rewrite <- Hgc, <- Hp1; by vm_compute | ]. split; [done | ]. split; [done | ].
  split; [unfold p3, p2 in Hre; rewrite <- Hcl, <- Hgc, <- Hp1 in Hre; vm_compute in Hre; injection Hre as <-; by vm_compute | ].
  eapply (pool_tenancy demo_sha demo_digest demo_limits shape1 demo_admission (mkSteady 1 0) p0 _ _ Hopen).
  eapply rtc_l; [apply (hold_replenish _ 2) | ]. eapply rtc_l; [apply (hold_claim _ [] op1 demo_fingerprint) | ].
  rewrite Hc. cbn [fst snd]. rewrite Hg. eapply rtc_l; [apply (hold_transfer _ c demo_intent); left | ].
  eapply rtc_l; [apply (hold_start _ (outcome_worker (claim_outcome cl))) | ]. fold p2. fold p3.
  eapply rtc_l; [by eapply hold_restart | ]. apply rtc_once, hold_reconcile.
Defined.
