(* ===== verification/HostPoison.v ===== *)
(** What one failed append does to a pool: a release whose first record is lost and whose
    second is kept leaves a ledger no restart accepts. *)

From S2P Require Import Prelude Bytes HostAdmission HostAdmissionProps HostState HostStateFacts HostLedger HostLedgerFacts HostPool HostClaim HostTransfer HostWorld HostPoolFacts.
From stdpp Require Import options.

Lemma fold_all_stuck es rs r more es' err : fold_all es rs = Ok es' -> fold es' r = Err err ->
  fold_all es (rs ++ r :: more) = Err err.
Proof.
  revert es. induction rs as [ | x rs IH]; intros es; cbn; [intros [= ->] ->; done | ].
  intros (es1 & -> & Hrs)%bind_Ok Hr. by apply IH.
Qed.

(** A worker the ledger has not seen leave cannot be dead. *)
Lemma fold_dead_illegal es e r : es !! worker r = Some e -> kind r = Kind_Dead ->
  entry_phase e ∈ [Sterile; Claiming; Assigned; Running] ->
  fold es r = Err (LedgerError_Invariant (worker r) Kind_Dead).
Proof.
  intros He Hk Hph. unfold fold. rewrite Hk, decide_False by done. rewrite He. cbn [ok_or].
  rewrite decide_False by (intros Hd; rewrite Hd in Hph; by repeat (apply elem_of_cons in Hph as [? | Hph]; [done | ]);
    apply elem_of_nil in Hph).
  destruct (negb _); [done | ]. cbn [moves_to].
  by repeat (apply elem_of_cons in Hph as [-> | Hph]; [done | ]); apply elem_of_nil in Hph.
Qed.

Section poison.
Context {W H R D N P : Type} `{PoolWorld W H R D N, NumaPlacement P}.
Notation Pool := (Pool W H R N P).
Implicit Types p q : Pool.

(** The records between [p] and [q] are about the end of worker [id]. *)
Definition ends (id : WorkerId) (x : LedgerRecord) : Prop :=
  worker x = id /\ (kind x = Kind_Dead \/ kind x = Kind_Destroying).

Definition logs (id : WorkerId) p q : Prop :=
  (forall i, slot_id (arena q i) = slot_id (arena p i)) /\ exists l, pool_records q = pool_records p ++ l /\ Forall (ends id) l.

#[export] Instance logs_preorder id : PreOrder (logs id).
Proof.
  split; [intros p; split; [done | ]; exists []; by rewrite app_nil_r | ].
  intros p q r (Hi & l & Hq & Hl) (Hi' & l' & Hr & Hl'). split; [intros i; by rewrite Hi' | ]. exists (l ++ l'). rewrite Hr, Hq, app_assoc. split; [done | by apply Forall_app].
Qed.

Lemma logs_same id p q : pool_records q = pool_records p -> (forall i, slot_id (arena q i) = slot_id (arena p i)) -> logs id p q.
Proof using Type. intros Heq Hi. split; [done | ]. exists []. by rewrite app_nil_r. Qed.

Lemma logs_in_world {E A : Type} id (c : W -> W * A) : st_rel (logs id) (in_world (E := E) c).
Proof using Type. intros p. unfold in_world. destruct (c (world p)). by apply logs_same. Qed.

Lemma logs_in_admission {E A : Type} id (c : Admission P -> Admission P * A) : st_rel (logs id) (in_admission (E := E) c).
Proof using Type. intros p. unfold in_admission. destruct (c (admission p)). by apply logs_same. Qed.

Lemma logs_keep {S : Phase} id (T : Phase) i (w : Worker S) : st_rel (logs id) (on_slot i (keep T w)).
Proof using Type.
  intros p. unfold on_slot, keep, advance, on_word, st_bind. destruct (transition _ _ _) as [x [u | e]]; cbn;
    (apply logs_same; [done | ]); intros j; cbn; by destruct (Nat.eqb_spec j i) as [-> | ].
Qed.

Lemma logs_record id r : ends id r -> st_rel (logs id) (record r).
Proof using Type.
  intros Hr p. destruct (record_cases r p) as [[e ->] | [res ->]]; [by apply logs_same | ].
  split; [done | ]. exists [r]. split; [done | ]. by apply Forall_singleton.
Qed.

Lemma logs_ret {E A : Type} id (a : A) : st_rel (logs id) (st_ret (E := E) a).
Proof using Type. apply st_rel_ret, _. Qed.

Lemma logs_new_record {E A : Type} id k g (c : LedgerRecord -> ST Pool E A) :
  (forall r, worker r = id -> kind r = k -> st_rel (logs id) (c r)) -> st_rel (logs id) (st_bind (new_record k id g) c).
Proof using Type.
  intros Hc p. unfold new_record, st_bind, st_get, in_world, st_ret. destruct (now_nanos (world p)) as [w' now]. cbn.
  etrans; [ | by apply Hc]. by apply logs_same.
Qed.
End poison.

#[export] Hint Resolve logs_in_world logs_in_admission logs_keep logs_ret : frame.

Ltac logs :=
  repeat first
    [ match goal with |- st_rel _ (st_bind (new_record _ _ _) _) => apply logs_new_record; intros ? ? ? end
    | progress intros
    | match goal with |- st_rel (logs ?id) (st_bind _ _) => apply (st_rel_bind (logs id)) end
    | match goal with |- st_rel (logs ?id) (st_try _) => apply (st_rel_try (logs id)) end
    | match goal with |- st_rel _ (record _) => apply logs_record; split; cbn; auto end
    | solve [eauto with frame]
    | match goal with |- st_rel _ (match ?x with _ => _ end) => destruct x end ].

Section release.
Context {W H R D N P : Type} `{PoolWorld W H R D N, NumaPlacement P}.
Notation Pool := (Pool W H R N P).
Implicit Types p q : Pool.

Lemma logs_teardown {E : Type} h handle ident res reason p :
  logs (slot_id (arena p (held_slot h))) p (teardown (E := E) h handle ident res reason p).1.
Proof using Type.
  unfold teardown. unfold st_bind at 1, st_get at 1. revert p.
  assert (forall id, st_rel (logs (W := W) (H := H) (R := R) (N := N) (P := P) id) (
    r <-- new_record Kind_Destroying id (worker_generation (held_worker h)) ;;
    began <-- st_try (record (with_identity ident (with_detail (reason_code reason) r))) ;;
    destroyed <-- destroy_process handle ident ;;
    released <-- release_resources res ;;
    r <-- new_record Kind_Dead id (worker_generation (held_worker h)) ;;
    ended <-- st_try (record (with_detail (reason_code reason) r)) ;;
    st_try (E' := E) (on_slot (held_slot h) (finish (held_worker h))) ;;;
    st_ret (mkReleaseEvidence id (worker_generation (held_worker h)) reason destroyed released (is_ok began && is_ok ended)))) as Hall.
  { intros id. unfold destroy_process, release_resources, finish. logs. }
  intros p. apply Hall.
Qed.

Lemma logs_release_capacity {E : Type} id r : st_rel (logs (W := W) (H := H) (R := R) (N := N) (P := P) id) (release_capacity (E := E) r).
Proof using Type. unfold release_capacity. logs. Qed.

Lemma logs_orphan {E : Type} id h res : st_rel (logs id) (orphan (P := P) (E := E) h res).
Proof using Type. unfold orphan, destroy_handle, release_resources. logs. Qed.

Lemma logs_owned_destroy id w : st_rel (logs (W := W) (H := H) (R := R) (N := N) (P := P) id) (owned_destroy w).
Proof using Type. unfold owned_destroy, destroy_assigned, destroy_running. logs. Qed.

Lemma owned_destroy_slot w p q h : owned_destroy (W := W) (H := H) (R := R) (N := N) (P := P) w p = (q, Ok h) ->
  held_slot h = owned_slot w.
Proof using Type.
  destruct w as [x | x]; cbn [owned_destroy owned_slot]; unfold st_bind; destruct (on_slot _ _ p) as [p' [w | e]]; by intros [= _ <-].
Qed.

Lemma logs_destroy_owned {E : Type} (o : Owned H N) reason p :
  logs (slot_id (arena p (owned_slot (owned_worker o)))) p (destroy_owned (R := R) (E := E) o reason p).1.
Proof using Type.
  set (id := slot_id (arena p (owned_slot (owned_worker o)))).
  enough (wp (destroy_owned (R := R) (E := E) o reason) p (fun q _ => logs id p q)) as Hw.
  { unfold wp in Hw. by destruct (destroy_owned o reason p). }
  unfold destroy_owned. apply wp_bind, (wp_total_rel (logs id)); [apply logs_release_capacity | auto with total | ].
  intros p1 u L1. apply wp_bind, wp_get, wp_bind, wp_try, wp_intro. intros p2 r Hr.
  pose proof (logs_owned_destroy id (owned_worker o) p1) as L2. rewrite Hr in L2. cbn [fst] in L2.
  assert (logs id p p2) as L by by etrans. destruct r as [h | race].
  - apply owned_destroy_slot in Hr. apply wp_intro. intros q r Ht.
    pose proof (logs_teardown (E := E) h (owned_handle o) (owned_identity o) (Resources_Assigned (owned_refs o)) reason p2) as L3.
    rewrite Hr, (proj1 L), Ht in L3. by etrans.
  - apply wp_bind, (wp_total_rel (logs id)); [apply logs_orphan | unfold orphan; total | ]. intros q d L3. apply wp_ret. by etrans.
Qed.

Lemma logs_release p w o : owned p !! w = Some o -> slot_id (arena p (owned_slot (owned_worker o))) = w ->
  logs w p (release_worker w p).1.
Proof using Type.
  intros Ho Hid. unfold release_worker, st_bind, st_get. rewrite Ho. destruct (owned_starting o); [by apply logs_same | ].
  unfold st_modify. cbv beta iota. pose proof (logs_destroy_owned (E := LifecycleError) o Reason_Released
    (set_owned (delete w (owned p)) p)) as L. cbn [arena set_owned] in L. by rewrite Hid in L.
Qed.

(** C36: one lost append poisons the ledger for ever.  When the append of a release's first
    record (the worker is being destroyed) fails and the append of its second (the worker is
    dead) succeeds, the ledger says a worker died that never left its live phase, which no
    fold accepts: from then on, whatever is recorded later, the pool can neither be opened
    nor reconciled again; every opening that can list and read the ledger fails with that
    violation, and every other one with the failure of the listing or the reading. *)
Theorem release_poisons p p' w o ev es e x :
  owned p !! w = Some o -> slot_id (arena p (owned_slot (owned_worker o))) = w ->
  entries_of (pool_records p) = Ok es -> es !! w = Some e -> entry_phase e ∈ [Assigned; Running] ->
  release_worker w p = (p', Ok ev) -> pool_records p' = pool_records p ++ [x] -> kind x <> Kind_Destroying ->
  forall more, entries_of (pool_records p' ++ more) = Err (LedgerError_Invariant w Kind_Dead) /\
    forall digest limits shape adm w', limits_validate limits = Ok limits ->
      pool_open (H := H) (R := R) (N := N) (P := P) (W := W) digest limits shape adm (pool_records p' ++ more) w' =
        Err (PoolError_Ledger (default (LedgerError_Invariant w Kind_Dead) (opening_error w'))).
Proof using Type.
  intros Ho Hid Hes He Hph Hrel Hrec Hk more. pose proof (logs_release p w o Ho Hid) as (_ & l & Hl & Hends).
  rewrite Hrel in Hl. cbn [fst] in Hl.
  rewrite Hrec in Hl. apply app_inv_head in Hl. subst l. apply Forall_singleton in Hends as [Hx [Hd | Hd]]; [ | done].
  assert (entries_of (pool_records p' ++ more) = Err (LedgerError_Invariant w Kind_Dead)) as Hstuck.
  { rewrite Hrec, <- app_assoc. rewrite <- Hx in He. rewrite <- Hx. eapply fold_all_stuck; [exact Hes | ].
    eapply fold_dead_illegal; [exact He | done | ]. by do 2 right. }
  split; [done | ]. intros digest limits shape adm w' Hlim. by apply pool_open_stuck.
Qed.
End release.

(** Two workers are built and one is claimed, transferred and started: sixteen appends.  The
    next one fails. *)
Definition poison_pool : demo_pool :=
  match demo_open (replicate 16 None ++ [Some Residue_Nothing]) with
  | Ok p =>
      let p := (replenish_blocking 2 0 p).1 in
      let '(p, cl) := claim [] op1 demo_fingerprint p in
      match cl with
      | Ok (mkClaim outcome (Some c)) => (start (outcome_worker outcome) (transfer demo_sha c demo_intent p).1).1
      | _ => p
      end
  | Err _ => mkPool demo_digest demo_limits shape1 (fun _ => slot_new [] []) 0 [] ∅ ∅ registry_default 0 true [] demo_admission
      (mkScripted 0 0 [] false)
  end.

Lemma release_poisons_witness : exists (p' : demo_pool) w ev,
  release_worker w poison_pool = (p', Ok ev) /\ evidence_ledger ev = false /\
  pool_open (H := Z) (R := unit) (N := unit) demo_digest demo_limits shape1 demo_admission (pool_records p') (world p') =
    Err (PoolError_Ledger (LedgerError_Invariant w Kind_Dead)).
Proof.
  set (w := replicate 16 1). set (p := poison_pool).
  assert (exists o, owned p !! w = Some o /\ slot_id (arena p (owned_slot (owned_worker o))) = w) as (o & Ho & Hid).
  { eexists. split; [vm_compute; reflexivity | vm_compute; reflexivity]. }
  assert (exists es e, entries_of (pool_records p) = Ok es /\ es !! w = Some e /\ entry_phase e = Running) as (es & e & Hes & He & Hrun).
  { eexists _, _. split; [vm_compute; reflexivity | ]. split; [vm_compute; reflexivity | reflexivity]. }
  assert (exists ev x, (release_worker w p).2 = Ok ev /\ evidence_ledger ev = false /\
    pool_records (release_worker w p).1 = pool_records p ++ [x] /\ kind x = Kind_Dead /\
    torn (world (release_worker w p).1) = false) as (ev & x & Hev & Hled & Hrec & Hk & Hwhole).
  { eexists _, _. split; [vm_compute; reflexivity | ]. split; [reflexivity | ]. split; [vm_compute; reflexivity | ].
    split; [reflexivity | vm_compute; reflexivity]. }
  destruct (release_worker w p) as [p' r] eqn:Hrel. cbn [fst snd] in *. subst r. exists p', w, ev. split; [done | ]. split; [done | ].
  rewrite <- (app_nil_r (pool_records p')).
  assert (opening_error (world p') = None) as Hread by (unfold opening_error; cbn; by rewrite Hwhole).
  destruct (release_poisons p p' w o ev es e x Ho Hid Hes He) with (more := @nil LedgerRecord) as [_ Hopen];
    [rewrite Hrun; right; left | done | done | by rewrite Hk | ].
  rewrite (Hopen demo_digest demo_limits shape1 demo_admission (world p') eq_refl). by rewrite Hread.
Defined.

(** A claim whose record is lost destroys the worker under the bumped generation, which the
    fold does not accept either: two workers are built, the fifth append fails, and the pool
    cannot be opened again. *)
Example claim_poisons :
  match demo_open (replicate 4 None ++ [Some Residue_Nothing]) with
  | Ok p0 =>
      match claim [] op1 demo_fingerprint (replenish_blocking 2 0 p0).1 with
      | (p', Err (ClaimError_Ledger _)) =>
          ok_or tt match pool_open (H := Z) (R := unit) (N := unit) demo_digest demo_limits shape1 demo_admission
            (pool_records p') (world p') with Err e => Some e | Ok _ => None end
      | _ => Err tt
      end
  | Err _ => Err tt
  end = Ok (PoolError_Ledger (LedgerError_Invariant (replicate 16 1) Kind_Destroying)).
Proof. by vm_compute. Qed.

(** A claim whose append fails but leaves the whole record, in a pool of one worker and one
    binding: the worker is destroyed and the claim, made again, is granted the next one; but once
    another operation evicted the binding, claiming again answers the first worker, which the
    ledger's older record names. *)
Definition narrow_limits : Limits := mkLimits 0 1 1 1 1000 1000 Exhausted_Reject 1.

Example claim_residue :
  match pool_open (H := Z) (R := unit) (N := unit) demo_digest narrow_limits shape1 demo_admission []
    (mkScripted 1 0 [None; None; Some Residue_Whole] false) with
  | Ok p0 =>
      let '(p1, failed) := claim [] op1 demo_fingerprint (replenish_blocking 1 0 p0).1 in
      let '(p2, granted) := claim [] op1 demo_fingerprint (replenish_blocking 1 0 p1).1 in
      let '(p3, other) := claim [] op2 demo_fingerprint p2 in
      let '(_, again) := claim [] op1 demo_fingerprint p3 in
      (is_ok failed, map_ok (fun c => outcome_worker (claim_outcome c)) granted, is_ok other,
       map_ok (fun c => outcome_worker (claim_outcome c)) again)
  | Err _ => (true, Ok [], true, Ok [])
  end = (false, Ok (replicate 16 2), false, Ok (replicate 16 1)).
Proof. by vm_compute. Qed.
