(* ===== verification/HostReplenish.v ===== *)
(** Construction reaches its target: when the launcher and the brokers answer in time and the
    table has room, replenishing builds exactly the workers that are missing. *)

From S2P Require Import Prelude Bytes HostAdmission HostAdmissionFacts HostAdmissionProps HostState HostStateFacts HostLedger HostLedgerFacts HostPool HostClaim HostTransfer HostWorld HostPoolFacts HostSync HostPoolInv HostTenancy HostPoolProps.
From stdpp Require Import options.

Section replenish.
Context {W H R D N P : Type} `{PoolWorld W H R D N, !DurableWorld W H R D N, NumaPlacement P}.
Notation Pool := (Pool W H R N P).
Implicit Types p q : Pool.
Notation id_of p i := (slot_id (arena p i)).

(** The launcher and the broker grant what they are asked, and a construction takes no longer
    than [budget]. *)
Record willing (budget : Z) : Prop := {
  will_build : forall id b w, is_ok (launcher_construct id b w).2 = true;
  will_prepare : forall id b w, is_ok (broker_prepare id b w).2 = true;
  will_hurry : forall id b w, let '(w, t0) := instant_now w in
    let w := (launcher_construct id budget w).1 in
    let '(w, t1) := instant_now w in
    let w := (broker_prepare id b w).1 in
    let '(_, t2) := instant_now w in t2 - t0 <= budget
}.

(** What one construction changes of the table and of the counters. *)
Record built p q : Prop := {
  built_table : table q = live_of p ++ [arena_next p];
  built_new : view q (arena_next p) = mkPacked Sterile LEASE_FIRST;
  built_old : forall i, (i < arena_next p)%nat -> view q i = view p i;
  built_limits : pool_limits q = pool_limits p;
  built_reconciled : reconciled q = reconciled p;
  built_in_flight : in_flight q = in_flight p
}.

(** A call of the world, by its value. *)
Lemma wp_in_world {E A : Type} (c : W -> W * A) p (Q : Pool -> Result A E -> Prop) :
  Q (set_world (c (world p)).1 p) (Ok (c (world p)).2) -> wp (in_world c) p Q.
Proof using Type. unfold wp, in_world. by destruct (c (world p)). Qed.

Lemma wp_record_kept r p (Q : Pool -> Result unit LedgerError -> Prop) :
  (forall w, Q (set_records (pool_records p ++ [r]) (set_world w p)) (Ok tt)) -> wp (record r) p Q.
Proof using Type*.
  intros HQ. unfold record. apply wp_bind, wp_in_world. rewrite append_durable. by apply wp_modify, HQ.
Qed.

Lemma wp_and {S E A : Type} (c : ST S E A) s (Q1 Q2 : S -> Result A E -> Prop) :
  wp c s Q1 -> wp c s Q2 -> wp c s (fun s' r => Q1 s' r /\ Q2 s' r).
Proof using Type. unfold wp. by destruct (c s). Qed.

Lemma sterilize_new id d : sterilize (mkWorker Constructing LEASE_FIRST) (slot_new id d) =
  (mkSlot id d (pack (mkPacked Sterile LEASE_FIRST)), Ok (mkWorker Sterile LEASE_FIRST)).
Proof using Type. by vm_compute. Qed.

(** The calls of a construction when the world is willing. *)
Lemma wp_parts q (id : WorkerId) (h : Held Constructing) budget (Q : Pool -> Result WorkerId ConstructionFailure -> Prop) :
  willing budget -> (forall w handle sterile refs, wp (publish h id handle sterile refs) (set_world w q) Q) ->
  wp (started <-- in_world instant_now ;;
      built <-- in_world (launcher_construct id budget) ;;
      match built with
      | Err fault => fail_construction h None None (ConstructionFault_Launcher fault)
      | Ok handle =>
          now <-- in_world instant_now ;;
          parts <-- in_world (broker_prepare id (saturating_sub budget (now - started))) ;;
          match parts with
          | Err fault => fail_construction h (Some handle) None (ConstructionFault_Resources fault)
          | Ok (sterile, refs) =>
              now <-- in_world instant_now ;;
              let elapsed := now - started in
              if budget <? elapsed
              then fail_construction h (Some handle) (Some sterile) (ConstructionFault_Deadline budget elapsed)
              else publish h id handle sterile refs
          end
      end) q Q.
Proof using Type.
  intros [Hbuild Hprep Hhurry] HQ. specialize (Hhurry id).
  apply wp_bind, wp_in_world, wp_bind, wp_in_world. cbn [world set_world].
  destruct (instant_now (world q)) as [w0 t0] eqn:E0. cbn [fst snd].
  pose proof (Hbuild id budget w0) as Hb. destruct (launcher_construct id budget w0) as [w1 [handle | fault]] eqn:E1; [ | done].
  cbn [fst snd]. apply wp_bind, wp_in_world, wp_bind, wp_in_world. cbn [world set_world].
  destruct (instant_now w1) as [w2 t1] eqn:E2. cbn [fst snd]. set (b := saturating_sub budget (t1 - t0)).
  pose proof (Hprep id b w2) as Hp. specialize (Hhurry b (world q)). rewrite E0, E1 in Hhurry. cbn [fst] in Hhurry. rewrite E2 in Hhurry.
  destruct (broker_prepare id b w2) as [w3 [[sterile refs] | fault]] eqn:E3; [ | done]. cbn [fst snd] in *.
  apply wp_bind, wp_in_world. cbn [world set_world]. destruct (instant_now w3) as [w4 t2] eqn:E4. cbn [fst snd] in *. cbv zeta.
  destruct (Z.ltb_spec budget (t2 - t0)); [lia | ]. apply HQ.
Qed.

(** A slot made by [join] is sterilized. *)
Lemma wp_publish_new p q id handle sterile refs :
  let j := join (slot_new id (pool_digest p)) p in
  (forall i, arena q i = arena j i) -> table q = table j -> pool_limits q = pool_limits p ->
  reconciled q = reconciled p -> in_flight q = in_flight p ->
  wp (publish (mkHeld (arena_next p) (mkWorker Constructing LEASE_FIRST)) id handle sterile refs) q
    (fun q r => is_ok r = true /\ built p q).
Proof using Type*.
  intros j Ha Ht Hl Hrec Hfl. unfold j in *. cbn [join set_slots set_records arena arena_next table pool_limits] in *.
  unfold publish. apply wp_bind. unfold new_record. apply wp_bind, wp_get, wp_bind, wp_in_world, wp_ret, wp_bind, wp_try, wp_record_kept.
  intros w. apply wp_bind, wp_modify, wp_bind, wp_try. cbn [held_slot held_worker].
  unfold wp, on_slot. cbn [arena set_prepared set_records set_world]. rewrite Ha, Nat.eqb_refl, sterilize_new.
  split; [done | ]. split; cbn [table pool_limits reconciled in_flight set_arena set_prepared set_records set_world]; try done.
  - unfold view. cbn [arena set_arena]. rewrite Nat.eqb_refl. by apply unpack_pack; vm_compute.
  - intros i Hi. unfold view. cbn [arena set_arena]. rewrite (proj2 (Nat.eqb_neq i (arena_next p)) ltac:(lia)).
    cbn [arena set_prepared set_records set_world]. rewrite Ha. by rewrite (proj2 (Nat.eqb_neq i (arena_next p)) ltac:(lia)).
Qed.

Lemma construct_builds p gs : willing (construction_deadline (pool_limits p)) -> tenancy p gs -> reconciled p = true ->
  (length (live_of p) < limit_max (pool_limits p))%nat ->
  wp construct_reserved p (fun q r => is_ok r = true /\ built p q).
Proof using Type*.
  intros Hwill Hp Hrec Hlen. unfold construct_reserved. apply wp_bind, wp_get. rewrite Hrec. cbn [negb].
  apply wp_bind, wp_in_world. pose proof (issued_fresh (world p)) as [Hnew _]. set (id := (fresh_worker_id (world p)).2) in *.
  set (p1 := set_world _ p). apply wp_bind, wp_map_err. unfold add_slot. apply wp_bind, wp_get, wp_bind, wp_modify.
  change (filter (fun i => slot_phase p1 i <> Dead) (table p1)) with (live_of p).
  assert (existsb (fun i => bool_decide (slot_id (arena p1 i) = slot_id (slot_new id (pool_digest p)))) (live_of p) = false) as ->.
  { apply not_true_is_false. intros (i & Hi & Heq%bool_decide_eq_true_1)%existsb_exists. cbn in Heq.
    apply list_elem_of_In in Hi. unfold live_of in Hi. apply list_elem_of_filter in Hi as [_ Hi].
    apply (tab_in p (hs_table _ _ _ Hp)) in Hi. destruct (hs_sync _ _ _ Hp) as [es Hs].
    destruct (sync_slot _ _ _ Hs i Hi) as (e & He & _). rewrite Heq in He. apply Hnew, (sync_issued _ _ _ Hs). by exists e. }
  destruct (Nat.leb_spec (limit_max (pool_limits p1)) (length (live_of p))) as [Hle | _]; [cbn in Hle; lia | ].
  apply wp_bind, wp_modify, wp_ret. cbn [map_err]. apply wp_bind, wp_get. 
  match goal with |- context [worker_open ?s] => assert (worker_open s = mkWorker Constructing LEASE_FIRST) as -> end.
  { cbn. rewrite Nat.eqb_refl. by vm_compute. }
  unfold new_record. apply wp_bind, wp_bind, wp_get, wp_bind, wp_in_world, wp_ret, wp_bind, wp_try, wp_record_kept. intros w.
  apply wp_parts; [done | ]. intros w' handle sterile refs. by apply (wp_publish_new p).
Qed.

Lemma wp_construct_builds p gs : willing (construction_deadline (pool_limits p)) -> tenancy p gs -> reconciled p = true ->
  (length (live_of p) < limit_max (pool_limits p))%nat -> (in_flight p < replenish_concurrency (pool_limits p))%nat ->
  wp construct_one p (fun q r => tenancy q gs /\ is_ok r = true /\ built p q).
Proof using Type*.
  intros Hwill Hp Hrec Hlen Hfl. apply wp_and; [by apply wp_construct_one | ]. unfold construct_one. apply wp_bind, wp_get.
  destruct (Nat.leb_spec (replenish_concurrency (pool_limits p)) (in_flight p)) as [Hle | _]; [lia | ].
  apply wp_bind, wp_modify, wp_bind, wp_try. set (p1 := set_in_flight _ p).
  eapply wp_mono; [apply (construct_builds p1 gs) | ]; [done | | done | done | ].
  { eapply tenancy_calm; [ | exact Hp]. by split. }
  intros q r [Hok [Ht Hv Ho Hl Hr Hf]]. apply wp_bind, wp_modify, wp_lift. split; [done | ].
  split; try done. cbn [in_flight set_in_flight]. rewrite Hf. cbn. lia.
Qed.

(** * Counting *)

(** The live slots that are not sterile. *)
Definition busy p : nat :=
  length (filter (fun i => packed_phase (view p i) <> Sterile /\ packed_phase (view p i) <> Dead) (table p)).

Lemma live_split p : length (live_of p) = (count_phase p Sterile + busy p)%nat.
Proof using Type.
  unfold live_of, count_phase, busy. induction (table p) as [ | i l IH]; [done | ]. rewrite !filter_cons.
  change (slot_phase p i) with (packed_phase (view p i)). generalize (packed_phase (view p i)). intros ph.
  destruct (decide (ph = Sterile)) as [-> | Hs]; [ | destruct (decide (ph = Dead)) as [-> | Hd]].
  - rewrite decide_True, (decide_False (P := _ /\ _)) by (done || by intros []). cbn [length]. rewrite IH. lia.
  - rewrite decide_False, (decide_False (P := _ /\ _)) by (intros []; done). exact IH.
  - rewrite !decide_True by done. cbn [length]. rewrite IH. lia.
Qed.

Lemma length_filter_app {A} (Pr : A -> Prop) `{forall x, Decision (Pr x)} l k :
  length (filter Pr (l ++ k)) = (length (filter Pr l) + length (filter Pr k))%nat.
Proof using Type. by rewrite filter_app, length_app. Qed.

(** A filter that looks at live slots alone sees through the pruning. *)
Lemma filter_live p q (Pr : Phase -> Prop) `{forall x, Decision (Pr x)} : ~ Pr Dead ->
  (forall i, i ∈ table p -> view q i = view p i) ->
  length (filter (fun i => Pr (packed_phase (view q i))) (live_of p)) =
  length (filter (fun i => Pr (packed_phase (view p i))) (table p)).
Proof using Type.
  intros Hdead. unfold live_of. induction (table p) as [ | i l IH]; intros Hv; [done | ].
  assert (view q i = view p i) as Hi by (apply Hv; left). specialize (IH (fun j Hj => Hv j (list_elem_of_further _ _ _ Hj))).
  rewrite filter_cons. change (slot_phase p i) with (packed_phase (view p i)). destruct (decide (packed_phase (view p i) <> Dead)) as [Hne | Hd].
  - rewrite !filter_cons, Hi. case_decide; cbn [length]; by rewrite IH.
  - rewrite IH, filter_cons. rewrite decide_False; [done | ]. intros Hp. destruct (decide (packed_phase (view p i) = Dead)) as [Heq | ]; [ | done].
    by rewrite Heq in Hp.
Qed.

Lemma built_counts p q gs : tenancy p gs -> built p q -> count_phase q Sterile = S (count_phase p Sterile) /\ busy q = busy p.
Proof using Type.
  intros Hp [Ht Hn Ho _ _ _]. assert (forall i, i ∈ table p -> view q i = view p i) as Hv.
  { intros i Hi. by apply Ho, (tab_in p (hs_table _ _ _ Hp)). }
  split.
  - unfold count_phase at 1. rewrite Ht, length_filter_app.
    assert (length (filter (fun i => slot_phase q i = Sterile) (live_of p)) = count_phase p Sterile) as ->
      by exact (filter_live p q (fun x => x = Sterile) ltac:(done) Hv).
    rewrite filter_cons. change (slot_phase q (arena_next p)) with (packed_phase (view q (arena_next p))).
    rewrite Hn, decide_True by done. cbn. lia.
  - unfold busy at 1. rewrite Ht, length_filter_app.
    assert (length (filter (fun i => packed_phase (view q i) <> Sterile /\ packed_phase (view q i) <> Dead) (live_of p)) = busy p) as ->
      by exact (filter_live p q (fun x => x <> Sterile /\ x <> Dead) ltac:(tauto) Hv).
    rewrite filter_cons, Hn, decide_False by (cbn; tauto). cbn. lia.
Qed.

Lemma replenish_loop p gs fuel n :
  willing (construction_deadline (pool_limits p)) -> tenancy p gs -> reconciled p = true -> in_flight p = 0%nat ->
  (0 < replenish_concurrency (pool_limits p))%nat ->
  (busy p + limit_target (pool_limits p) <= limit_max (pool_limits p))%nat ->
  (limit_target (pool_limits p) - count_phase p Sterile <= fuel)%nat ->
  exists q, replenish_blocking fuel n p = (q, Ok (Some (n + (limit_target (pool_limits p) - count_phase p Sterile))%nat)) /\
    tenancy q gs /\ count_phase q Sterile = Nat.max (limit_target (pool_limits p)) (count_phase p Sterile) /\ busy q = busy p.
Proof using Type*.
  revert p n. induction fuel as [ | fuel IH]; intros p n Hwill Hp Hrec Hfl Hconc Hroom Hfuel;
    cbn [replenish_blocking]; unfold st_bind at 1, st_get at 1; cbn [occ_sterile occupancy]; rewrite Hfl, Nat.add_0_r.
  { destruct (Nat.ltb_spec (count_phase p Sterile) (limit_target (pool_limits p))); [lia | ]. exists p. split; [ | split; [done | ]]; [ | lia].
    unfold st_ret. do 3 f_equal. lia. }
  destruct (Nat.ltb_spec (count_phase p Sterile) (limit_target (pool_limits p))) as [Hlt | Hge]; last first.
  { exists p. split; [ | split; [done | ]]; [ | lia]. unfold st_ret. do 3 f_equal. lia. }
  pose proof (live_split p) as Hlive. pose proof (wp_construct_builds p gs Hwill Hp Hrec ltac:(lia) ltac:(lia)) as Hw.
  unfold wp in Hw. unfold st_bind. destruct (construct_one p) as [q [id | e]]; destruct Hw as (Hq & Hok & Hb); [ | done].
  destruct (built_counts p q gs Hp Hb) as [Hs Hbusy]. destruct Hb as [_ _ _ Hl Hr Hf].
  destruct (IH q (S n)) as (q' & Heq & Hq' & Hcount & Hbusy'); rewrite ?Hl, ?Hr, ?Hf, ?Hs, ?Hbusy; try done; [lia | ].
  exists q'. rewrite Heq, Hl, Hs. split; [do 3 f_equal; lia | ]. rewrite Hcount, Hl, Hs, Hbusy'. split; [done | ]. split; [lia | done].
Qed.

(** C33: replenishing reaches its target.  In a pool at rest and reconciled, with no other
    construction in flight and room for the target beside the workers in use, and in a world
    that grants what it is asked in time, the loop ends with as many steps as workers are
    missing: it returns how many it built, exactly those, and afterwards there are as many
    sterile workers as the target, or as there were when that was more. *)
Theorem replenish_reaches_target p gs fuel :
  willing (construction_deadline (pool_limits p)) -> tenancy p gs -> reconciled p = true -> in_flight p = 0%nat ->
  (0 < replenish_concurrency (pool_limits p))%nat ->
  (busy p + limit_target (pool_limits p) <= limit_max (pool_limits p))%nat ->
  (limit_target (pool_limits p) - count_phase p Sterile <= fuel)%nat ->
  exists q, replenish_blocking fuel 0 p = (q, Ok (Some (limit_target (pool_limits p) - count_phase p Sterile)%nat)) /\
    tenancy q gs /\ count_phase q Sterile = Nat.max (limit_target (pool_limits p)) (count_phase p Sterile) /\ busy q = busy p.
Proof using Type*.
  intros. by apply (replenish_loop p gs fuel 0).
Qed.
End replenish.

Lemma steady_willing : willing (W := Steady) 1000.
Proof. split; [done | done | ]. intros id b w. cbn. lia. Qed.

(** A new pool with a target of two. *)
Lemma replenish_reaches_target_witness : exists (p q : steady_pool),
  steady_open = Ok p /\ replenish_blocking 2 0 p = (q, Ok (Some 2%nat)) /\ count_phase q Sterile = 2%nat.
Proof.
  destruct steady_open as [p | ] eqn:Hopen; [ | vm_compute in Hopen; discriminate Hopen].
  assert (tenancy p []) as Hp by by eapply (tenancy_open _ _ _ _ _ _ _ ∅ Hopen); [done | by intros i []..].
  assert (pool_limits p = demo_limits /\ reconciled p = true /\ in_flight p = 0%nat /\ count_phase p Sterile = 0%nat /\ busy p = 0%nat)
    as (Hl & Hr & Hf & Hs & Hb).
  { clear Hp. vm_compute in Hopen. injection Hopen as <-. by vm_compute. }
  destruct (replenish_reaches_target p [] 2) as (q & Hq & _ & Hc & _); rewrite ?Hl, ?Hs, ?Hb; try done; [apply steady_willing | cbn; lia | cbn; lia | ].
  exists p, q. split; [done | ]. rewrite Hl, Hs in Hq, Hc. done.
Defined.
