(* ===== verification/HostRuntime.v ===== *)
(** The owner of the live Instances of one host: the ownership table and its pages
    ([instance/table.rs]), the Launch transaction ([instance/launch.rs]) and the terminal
    operation ([instance/terminal.rs]), over the pool they allocate from ([instance.rs],
    [pool/inspect.rs]). *)

From S2P Require Import Prelude Bytes Wire HostAdmission HostState HostLedger HostPool HostClaim HostTransfer.
From stdpp Require Import sorting.
From stdpp Require Import options.
Local Open Scope Z_scope.

(** * Keys in order *)

Definition id_le (a b : bytes) : Prop := bytes_leb a b = true.

#[export] Instance id_le_dec : RelDecision id_le.
Proof. intros a b. unfold id_le. apply _. Defined.

(** [BTreeMap::keys] *)
Definition keys_in_order {A} (m : gmap InstanceId A) : list InstanceId := merge_sort id_le (map_to_list m).*1.

(** [after.is_none_or(|start| *instance > start)] *)
Definition beyond (after : option InstanceId) (i : InstanceId) : bool :=
  match after with Some start => negb (bytes_leb i start) | None => true end.

Definition MAX_LISTED : nat := 16.

Record Page : Type := mkPage {
  page_instances : list InstanceId;
  page_more : bool
}.

(** * Errors *)

Inductive InstanceError : Type :=
| InstanceError_Claim (e : ClaimError)
| InstanceError_Transfer (f : TransferFailure)
| InstanceError_Occupied (instance : InstanceId) (holder presented : OperationId)
| InstanceError_Terminated (instance : InstanceId)
| InstanceError_Unknown (instance : InstanceId)
| InstanceError_Lifecycle (e : LifecycleError)
| InstanceError_Ledger (e : LedgerError).

Record TerminalReceipt : Type := mkTerminalReceipt {
  receipt_instance : InstanceId;
  receipt_worker : WorkerId;
  receipt_complete : bool
}.

Section runtime.
Context {W H R D N P : Type} `{PoolWorld W H R D N, NumaPlacement P}.
Context (sha256 : bytes -> bytes).
Notation Pool := (Pool W H R N P).

(** * One worker's state *)

Record WorkerView : Type := mkWorkerView {
  view_worker : WorkerId;
  view_phase : Phase;
  view_generation : LeaseGeneration;
  view_operation : option OperationId;
  view_instance : option InstanceId;
  view_launch : option N
}.

Definition inspect (p : Pool) (w : WorkerId) : option WorkerView :=
  i ← find_slot p w;
  let observed := observe (arena p i) in
  let '(operation, instance, launch) :=
    match owned p !! w with
    | Some o => (Some (owned_operation o), Some (owned_instance o), owned_launch o)
    | None => (None, None, None)
    end in
  Some (mkWorkerView w (packed_phase observed) (packed_generation observed) operation instance launch).

(** * The ownership table *)

Record InstanceView : Type := mkInstanceView {
  iv_instance : InstanceId;
  iv_worker : WorkerId;
  iv_generation : LeaseGeneration;
  iv_operation : OperationId;
  iv_fingerprint : RequestFingerprint;
  iv_launch : N
}.

Notation LiveTable := (gmap InstanceId InstanceView).

Definition table_bind (v : InstanceView) (t : LiveTable) : LiveTable := <[iv_instance v := v]> t.

Definition table_retain (alive : WorkerId -> bool) (t : LiveTable) : LiveTable :=
  filter (fun e => alive (iv_worker e.2) = true) t.

Definition table_page (after : option InstanceId) (limit : nat) (t : LiveTable) : Page :=
  let rest := filter (fun i => beyond after i = true) (keys_in_order t) in
  mkPage (take limit rest) (match drop limit rest with [] => false | _ :: _ => true end).

(** * The runtime *)

Record Runtime : Type := mkRuntime {
  rt_pool : Pool;
  live : LiveTable
}.

Definition set_live (t : LiveTable) (rt : Runtime) : Runtime := mkRuntime (rt_pool rt) t.

Definition runtime_new (p : Pool) : Runtime := mkRuntime p ∅.

(** A call on the pool. *)
Definition on_pool {E A} (c : ST Pool E A) : ST Runtime E A :=
  fun rt => let '(p, r) := c (rt_pool rt) in (mkRuntime p (live rt), r).

Definition serving (p : Pool) (w : WorkerId) : bool :=
  match inspect p w with Some v => negb (is_terminal (view_phase v)) | None => false end.

Definition reclaim {E} : ST Runtime E unit :=
  st_modify (fun rt => set_live (table_retain (serving (rt_pool rt)) (live rt)) rt).

Definition runtime_get {E} (i : InstanceId) : ST Runtime E (option InstanceView) :=
  reclaim ;;; rt <-- st_get ;; st_ret (live rt !! i).

Definition runtime_list {E} (after : option InstanceId) : ST Runtime E Page :=
  reclaim ;;; rt <-- st_get ;; st_ret (table_page after MAX_LISTED (live rt)).

Definition runtime_live {E} : ST Runtime E nat :=
  reclaim ;;; rt <-- st_get ;; st_ret (size (live rt)).

Definition bind_view {E} (v : InstanceView) : ST Runtime E InstanceView :=
  st_modify (fun rt => set_live (table_bind v (live rt)) rt) ;;; st_ret v.

(** * Launch *)

Inductive Launched : Type :=
| Launched_Live (v : InstanceView)
| Launched_Replayed (worker : WorkerId) (generation : LeaseGeneration).

Definition owned_launch_reply (v : InstanceView) (intent : AssignmentIntent) (fp : RequestFingerprint)
    : Result Launched InstanceError :=
  if decide (iv_operation v = intent_operation intent) then
    if decide (iv_fingerprint v = fp) then Ok (Launched_Live v)
    else Err (InstanceError_Claim (ClaimError_OperationConflict (intent_operation intent) (iv_fingerprint v) fp))
  else Err (InstanceError_Occupied (intent_instance intent) (iv_operation v) (intent_operation intent)).

Definition rebind (intent : AssignmentIntent) (fp : RequestFingerprint) (outcome : ClaimOutcome)
    : ST Runtime InstanceError Launched :=
  rt <-- st_get ;;
  match inspect (rt_pool rt) (outcome_worker outcome) with
  | Some view =>
      if is_terminal (view_phase view) then st_err (InstanceError_Terminated (intent_instance intent))
      else match view_launch view with
      | None => st_ret (Launched_Replayed (outcome_worker outcome) (outcome_generation outcome))
      | Some launch =>
          v <-- bind_view (mkInstanceView (intent_instance intent) (outcome_worker outcome) (outcome_generation outcome)
                  (outcome_operation outcome) fp launch) ;;
          st_ret (Launched_Live v)
      end
  | None => st_err (InstanceError_Terminated (intent_instance intent))
  end.

(** The daemon that holds the runtime serves one request at a time, so a claim never finds
    its operation in flight. *)
Definition runtime_launch (intent : AssignmentIntent) : ST Runtime InstanceError Launched :=
  reclaim ;;;
  let fp := intent_fingerprint sha256 intent in
  rt <-- st_get ;;
  match live rt !! intent_instance intent with
  | Some v => st_lift (owned_launch_reply v intent fp)
  | None =>
      cl <-- st_map_err InstanceError_Claim (on_pool (claim [] (intent_operation intent) fp)) ;;
      match grant cl with
      | Some c =>
          e <-- st_map_err InstanceError_Transfer (on_pool (transfer sha256 c intent)) ;;
          v <-- bind_view (mkInstanceView (transferred_instance e) (transferred_worker e) (transferred_generation e)
                  (transferred_operation e) fp (transferred_launch e)) ;;
          st_ret (Launched_Live v)
      | None => rebind intent fp (claim_outcome cl)
      end
  end.

(** * Destroy *)

Definition recorded_terminal (i : InstanceId) : ST Runtime InstanceError TerminalReceipt :=
  records <-- st_map_err InstanceError_Ledger (on_pool ledger_read) ;;
  es <-- st_lift (map_err InstanceError_Ledger (entries_of records)) ;;
  match head (filter (fun e => entry_instance e = Some i) (entry_values es)) with
  | None => st_err (InstanceError_Unknown i)
  | Some e => st_ret (mkTerminalReceipt i (entry_worker e) (is_terminal (entry_phase e)))
  end.

Definition forget {E} (i : InstanceId) : ST Runtime E unit :=
  st_modify (fun rt => set_live (delete i (live rt)) rt).

Definition runtime_destroy (i : InstanceId) : ST Runtime InstanceError TerminalReceipt :=
  rt <-- st_get ;;
  match live rt !! i with
  | None => recorded_terminal i
  | Some v =>
      released <-- st_try (on_pool (release_worker (iv_worker v))) ;;
      match released with
      | Ok ev =>
          forget i ;;;
          st_ret (mkTerminalReceipt i (iv_worker v)
                    (destroy_complete (evidence_destroyed ev) && release_complete (evidence_released ev)))
      | Err (LifecycleError_Unknown _) => forget i ;;; recorded_terminal i
      | Err e => st_err (InstanceError_Lifecycle e)
      end
  end.
End runtime.
Arguments WorkerView : clear implicits.
Arguments InstanceView : clear implicits.
Arguments Runtime : clear implicits.
Arguments Launched : clear implicits.
