(* ===== verification/HostRuntimeProps.v ===== *)
(** The Instances of a host: the listing, whose pages enumerate the keys in order, and Launch,
    which happens once on any reachable host. *)

From S2P Require Import Prelude Bytes Wire HostAdmission HostAdmissionProps HostState HostStateFacts HostLedger HostLedgerFacts HostPool HostClaim HostTransfer HostWorld HostPoolFacts HostClaimProps HostSync HostPoolInv HostTenancy HostPoolProps HostPoison HostRuntime.
From stdpp Require Import sorting.
From stdpp Require Import options.
Local Open Scope Z_scope.

(** * The order of identities *)

#[export] Instance id_le_total : Total id_le.
Proof. intros a b. apply bytes_leb_total. Qed.
#[export] Instance id_le_trans : Transitive id_le.
Proof. intros a b c. apply bytes_leb_trans. Qed.

Section keys.
Context {A : Type}.
Implicit Types m : gmap InstanceId A.

Lemma keys_sorted m : StronglySorted id_le (keys_in_order m).
Proof. apply (StronglySorted_merge_sort id_le). Qed.

Lemma keys_nodup m : NoDup (keys_in_order m).
Proof. unfold keys_in_order. rewrite merge_sort_Permutation. apply NoDup_fst_map_to_list. Qed.

Lemma elem_of_keys m i : i ∈ keys_in_order m <-> is_Some (m !! i).
Proof.
  unfold keys_in_order. rewrite merge_sort_Permutation, list_elem_of_fmap. split.
  - intros ([k a] & -> & Hin%elem_of_map_to_list). by exists a.
  - intros [a Ha]. exists (i, a). split; [done | by apply elem_of_map_to_list].
Qed.

Lemma keys_length m : length (keys_in_order m) = size m.
Proof. unfold keys_in_order. rewrite merge_sort_Permutation, length_fmap. apply length_map_to_list. Qed.
End keys.

(** Every identity after a split of an ordered list is beyond the last one before it. *)
Lemma beyond_split pre s : StronglySorted id_le (pre ++ s) -> NoDup (pre ++ s) ->
  filter (fun i => beyond (last pre) i = true) (pre ++ s) = s.
Proof.
  intros Hs Hnd. destruct pre as [ | k pre _] using rev_ind.
  { cbn [last app]. apply Prelude.filter_all. by apply Forall_forall. }
  rewrite last_snoc, filter_app. rewrite <- app_assoc in Hs, Hnd. cbn in Hs, Hnd.
  assert (filter (fun i => beyond (Some k) i = true) (pre ++ [k]) = []) as ->.
  { apply elem_of_nil_inv. intros i [Hb Hin]%list_elem_of_filter. cbn in Hb. apply negb_true_iff in Hb. apply elem_of_app in Hin as [Hin | Hin].
    - apply StronglySorted_app in Hs as (Hle & _ & _). specialize (Hle i k Hin ltac:(left)). unfold id_le in Hle. congruence.
    - apply list_elem_of_singleton in Hin as ->. rewrite bytes_leb_refl in Hb. done. }
  cbn [app]. apply Prelude.filter_all. apply Forall_forall. intros i Hin. cbn.
  apply negb_true_iff, not_true_is_false. intros Hle.
  apply StronglySorted_app in Hs as (_ & _ & Hks). apply StronglySorted_inv in Hks as [_ Hall].
  rewrite Forall_forall in Hall. specialize (Hall i Hin). assert (i = k) as -> by by apply bytes_leb_antisym.
  apply NoDup_app in Hnd as (_ & _ & Hnd). apply NoDup_cons in Hnd as [Hk _]. done.
Qed.

(** * Listing *)

Section listing.
Context {W H R D N P : Type} `{PoolWorld W H R D N, NumaPlacement P}.
Notation Runtime := (Runtime W H R N P).
Implicit Types rt : Runtime.

(** The Instances whose worker still serves them. *)
Definition reclaimed rt : Runtime := set_live (table_retain (serving (rt_pool rt)) (live rt)) rt.

Lemma reclaimed_lookup rt i v : live (reclaimed rt) !! i = Some v <->
  live rt !! i = Some v /\ serving (rt_pool rt) (iv_worker v) = true.
Proof using Type. unfold reclaimed, table_retain. cbn [live set_live]. apply (map_lookup_filter_Some (M := gmap InstanceId)). Qed.

Lemma reclaimed_twice rt : reclaimed (reclaimed rt) = reclaimed rt.
Proof using Type.
  unfold reclaimed at 1. cbn [rt_pool reclaimed set_live live]. unfold reclaimed, set_live. f_equal. cbn [rt_pool live].
  apply (map_filter_id (M := gmap InstanceId)). intros i v Hv.
  by apply (map_lookup_filter_Some (M := gmap InstanceId)) in Hv as [_ ?].
Qed.

(** What a client does to see every Instance: page after page, each after the last identity
    it received. *)
Fixpoint enumerate {E} (fuel : nat) (after : option InstanceId) : ST Runtime E (option (list InstanceId)) :=
  match fuel with
  | O => st_ret None
  | S fuel =>
      page <-- runtime_list after ;;
      if page_more page then
        rest <-- enumerate fuel (last (page_instances page)) ;;
        st_ret (app (page_instances page) <$> rest)
      else st_ret (Some (page_instances page))
  end.

Lemma runtime_list_page {E : Type} after rt :
  runtime_list (E := E) after rt = (reclaimed rt, Ok (table_page after MAX_LISTED (live (reclaimed rt)))).
Proof using Type. done. Qed.

Lemma enumerate_from {E : Type} fuel pre s rt :
  reclaimed rt = rt -> keys_in_order (live rt) = pre ++ s -> (length s <= fuel)%nat ->
  enumerate (E := E) (S fuel) (last pre) rt = (rt, Ok (Some s)).
Proof using Type.
  intros Hrt. revert pre s. induction fuel as [fuel IH] using lt_wf_ind. intros pre s Hk Hl.
  assert (filter (fun i => beyond (last pre) i = true) (keys_in_order (live rt)) = s) as Hf.
  { rewrite Hk. apply beyond_split; rewrite <- Hk; [apply keys_sorted | apply keys_nodup]. }
  cbn [enumerate]. unfold st_bind at 1. rewrite runtime_list_page, Hrt. unfold table_page. rewrite Hf.
  cbn [page_more page_instances]. destruct (drop MAX_LISTED s) as [ | k rest] eqn:Hd.
  - unfold st_ret. do 3 f_equal. rewrite <- (take_drop MAX_LISTED s) at 2. by rewrite Hd, app_nil_r.
  - assert (MAX_LISTED < length s)%nat as Hlen.
    { apply Nat.nle_gt. intros Hle. rewrite drop_ge in Hd by done. done. }
    destruct fuel as [ | fuel]; [lia | ]. unfold st_bind.
    assert (last (take MAX_LISTED s) = last (pre ++ take MAX_LISTED s)) as ->.
    { rewrite last_app. destruct (last (take MAX_LISTED s)) eqn:Hlast; [done | ]. apply last_None in Hlast.
      assert (length (take MAX_LISTED s) = 0)%nat as H0' by by rewrite Hlast. rewrite length_take in H0'. unfold MAX_LISTED in *. lia. }
    rewrite (IH fuel) with (s := drop MAX_LISTED s); [ | lia | | ].
    + unfold st_ret. cbn. do 3 f_equal. by rewrite take_drop.
    + by rewrite <- app_assoc, take_drop.
    + rewrite length_drop. unfold MAX_LISTED in *. lia.
Qed.

(** The pages of a listing enumerate the host's Instances.  A client that asks for a page
    after the last identity it received sees, in a bounded number of pages of at most sixteen,
    every Instance whose worker still serves it exactly once and in identity order, and no
    other; and asking changes nothing but the bindings of workers that are gone. *)
Theorem paging_exact {E : Type} rt : exists l,
  enumerate (E := E) (S (size (live (reclaimed rt)))) None rt = (reclaimed rt, Ok (Some l)) /\
  StronglySorted id_le l /\ NoDup l /\
  (forall i, i ∈ l <-> exists v, live rt !! i = Some v /\ serving (rt_pool rt) (iv_worker v) = true) /\
  forall after, (length (page_instances (table_page after MAX_LISTED (live rt))) <= 16)%nat.
Proof using Type.
  exists (keys_in_order (live (reclaimed rt))). split; [ | split; [apply keys_sorted | split; [apply keys_nodup | split]]].
  - assert (enumerate (E := E) (S (size (live (reclaimed rt)))) None rt =
      enumerate (E := E) (S (size (live (reclaimed rt)))) None (reclaimed rt)) as ->.
    { cbn [enumerate]. unfold st_bind at 1 3. by rewrite !runtime_list_page, reclaimed_twice. }
    apply (enumerate_from _ [] _ _ (reclaimed_twice rt) eq_refl). by rewrite keys_length.
  - intros i. rewrite elem_of_keys. split.
    + intros [v Hv]. exists v. by apply reclaimed_lookup.
    + intros (v & Hv). exists v. by apply reclaimed_lookup.
  - intros after. cbn [table_page page_instances]. rewrite length_take. unfold MAX_LISTED. lia.
Qed.
End listing.

(** What the runtime promises about Instances: a Launch happens once, an Instance has one
    owner, and what Destroy does, first and again. *)

Section runtime.
Context {W H R D N P : Type} `{PoolWorld W H R D N, !DurableWorld W H R D N, NumaPlacement P}.
Context (sha256 : bytes -> bytes).
Notation Pool := (Pool W H R N P).
Notation Runtime := (Runtime W H R N P).
Implicit Types p q : Pool.
Implicit Types rt : Runtime.
Notation id_of p i := (slot_id (arena p i)).

(** The pool at rest, and every binding under its own Instance. *)
Definition runtime_inv rt (gs : list (Claimed H R)) : Prop :=
  tenancy (rt_pool rt) gs /\ consistent (rt_pool rt) /\ forall i v, live rt !! i = Some v -> iv_instance v = i.

Lemma inv_reclaimed rt gs : runtime_inv rt gs -> runtime_inv (reclaimed rt) gs.
Proof using Type. intros (Hp & Hc & Hl). split; [done | ]. split; [done | ]. intros i v [Hv _]%reclaimed_lookup. by apply Hl. Qed.

(** * Serving *)

Lemma find_slot_is p gs i : tenancy p gs -> i ∈ table p -> find_slot p (id_of p i) = Some i.
Proof using Type.
  intros Hp Hi. destruct (find_slot p (id_of p i)) as [j | ] eqn:Hf.
  - destruct (hs_sync _ _ _ Hp) as [es Hs]. pose proof (tab_in p (hs_table _ _ _ Hp)) as Hin.
    pose proof (find_slot_table p _ _ Hf) as Hj. f_equal. apply (sync_ids _ _ _ Hs); [auto | auto | ].
    unfold find_slot in Hf. assert (j ∈ filter (fun k => id_of p k = id_of p i) (table p)) as [? _]%list_elem_of_filter; [ | done].
    destruct (filter _ _); [done | ]. injection Hf as ->. left.
  - assert (i ∈ filter (fun k => id_of p k = id_of p i) (table p)) as Hin by by apply list_elem_of_filter.
    unfold find_slot in Hf. destruct (filter _ _); [by apply elem_of_nil in Hin | done].
Qed.

Lemma serving_slot p gs i : tenancy p gs -> i ∈ table p -> is_terminal (packed_phase (view p i)) = false ->
  serving p (id_of p i) = true.
Proof using Type.
  intros Hp Hi Hph. unfold serving, inspect. rewrite (find_slot_is p gs i Hp Hi). cbn [mbind option_bind].
  destruct (match owned p !! _ with Some _ => _ | None => _ end) as [[o inst] l]. cbn [view_phase].
  change (observe (arena p i)) with (view p i). by rewrite Hph.
Qed.

(** * Launch *)

(** The pool after a claim and the transfer of its grant. *)
Lemma claim_transfer_tenancy p1 gs c intent p2 r : tenancy p1 (c :: gs) -> transfer sha256 c intent p1 = (p2, r) -> tenancy p2 gs.
Proof using Type*.
  intros Hp1 Ht. pose proof (tenancy_transfer sha256 p1 (c :: gs) c intent Hp1 (list_elem_of_here c gs)) as Hp2.
  rewrite Ht in Hp2. cbn [fst] in Hp2. assert (without (grant_slot c) (c :: gs) = gs) as Hgs; [ | by rewrite Hgs in Hp2].
  unfold without. rewrite filter_cons, decide_False by tauto. apply without_absent. intros d Hd Heq.
  pose proof (hs_grants _ _ _ Hp1) as Hnd. apply NoDup_cons in Hnd as [Hn _]. apply Hn, list_elem_of_fmap. by exists d.
Qed.

Lemma claim_transfer p gs o fp p1 cl c intent p2 ev : tenancy p gs -> claim [] o fp p = (p1, Ok cl) -> grant cl = Some c ->
  transfer sha256 c intent p1 = (p2, Ok ev) ->
  tenancy p2 gs /\ serving p2 (transferred_worker ev) = true /\
  transferred_instance ev = intent_instance intent /\ transferred_operation ev = intent_operation intent.
Proof using Type*.
  intros Hp Hc Hg Ht. pose proof (wp_eq _ _ _ _ _ (wp_claim p gs [] o fp Hp) Hc) as Hp1. cbv beta iota in Hp1.
  rewrite Hg in Hp1. cbn [option_list app] in Hp1. pose proof (list_elem_of_here c gs) as Hin.
  pose proof (claim_transfer_tenancy p1 gs c intent p2 _ Hp1 Ht) as Hp2. destruct (tenancy_grant p1 (c :: gs) c Hp1 Hin) as (g & Hh & Hm & Htab).
  pose proof (wp_eq _ _ _ _ _ (wp_transfer sha256 p1 _ g None None c intent Hm Hh) Ht) as ((ow & Ho & M) & Hw & Hi & Hop).
  split; [done | ]. split; [ | done]. rewrite Hw, <- (mv_id _ _ _ _ M). eapply serving_slot; [exact Hp2 | | ].
  - by rewrite (mv_table _ _ _ _ M).
  - by rewrite (mv_word _ _ _ _ M).
Qed.

(** A claim that succeeds answers for its own operation. *)
Lemma claim_answers p o fp p' cl : consistent p -> claim [] o fp p = (p', Ok cl) ->
  consistent p' /\ outcome_operation (claim_outcome cl) = o.
Proof using Type.
  intros Hp Hc. destruct (wp_eq _ _ _ _ _ (claim_spec p o fp Hp) Hc) as (_ & [Hp' _] & Hres).
  split; [done | ]. destruct (Hres cl eq_refl) as (c & Hop & Hout). unfold outcome_of in Hout.
  destruct (class_from_code _); [by injection Hout as <- | done].
Qed.

(** What a Launch that answers with a live Instance leaves behind. *)
Lemma launch_live rt gs intent rt' v : runtime_inv rt gs -> runtime_launch sha256 intent rt = (rt', Ok (Launched_Live v)) ->
  runtime_inv rt' gs /\ live rt' !! intent_instance intent = Some v /\ iv_instance v = intent_instance intent /\
  serving (rt_pool rt') (iv_worker v) = true /\ iv_operation v = intent_operation intent /\
  iv_fingerprint v = intent_fingerprint sha256 intent.
Proof using Type*.
  intros Hrt%inv_reclaimed. unfold runtime_launch, st_bind at 1, reclaim, st_modify. fold (reclaimed rt).
  set (rt1 := reclaimed rt) in *. unfold st_bind at 1, st_get. destruct (live rt1 !! intent_instance intent) as [v0 | ] eqn:Hv0.
  - unfold st_lift, owned_launch_reply. case_decide; [ | done]. case_decide; [ | done]. intros [= <- <-]. split; [done | ]. split; [done | ].
    split; [by apply Hrt | ]. split; [ | done]. unfold rt1 in Hv0. by apply reclaimed_lookup in Hv0 as [_ ?].
  - destruct Hrt as (Hp & Hcons & Hl). unfold st_bind at 1, st_map_err, on_pool.
    destruct (claim [] (intent_operation intent) (intent_fingerprint sha256 intent) (rt_pool rt1)) as [p1 [cl | e]] eqn:Hc; [ | done].
    pose proof (claim_answers _ _ _ _ _ Hcons Hc) as [Hcons1 Hout].
    cbn [map_err]. destruct (grant cl) as [c | ] eqn:Hg.
    + unfold st_bind at 1. cbn [rt_pool]. destruct (transfer sha256 c intent p1) as [p2 [ev | e]] eqn:Ht; [ | done]. cbn [map_err].
      destruct (claim_transfer _ _ _ _ _ _ _ _ _ _ Hp Hc Hg Ht) as (Hp2 & Hserve & Hi & Hop).
      intros [= <- <-]. cbn. split; [split; [done | split] | ].
      * pose proof (quiet_transfer sha256 c intent p1) as Hq. rewrite Ht in Hq. by eapply quiet_consistent.
      * intros i v. unfold table_bind. cbn. intros [[<- <-] | [_ Hv]]%lookup_insert_Some; [done | by apply Hl].
      * unfold table_bind. cbn. rewrite Hi, lookup_insert_eq. done.
    + unfold rebind, st_bind, st_get. cbn [rt_pool live].
      pose proof (wp_eq _ _ _ _ _ (wp_claim _ _ [] _ _ Hp) Hc) as Hp1. cbv beta iota in Hp1. rewrite Hg in Hp1.
      destruct (inspect p1 (outcome_worker (claim_outcome cl))) as [view | ] eqn:Hins; [ | done].
      destruct (is_terminal (view_phase view)) eqn:Hterm; [done | ]. destruct (view_launch view) as [l | ]; [ | done].
      intros [= <- <-]. cbn. split; [split; [done | split; [done | ]] | ].
      * intros i v. unfold table_bind. cbn. intros [[<- <-] | [_ Hv]]%lookup_insert_Some; [done | by apply Hl].
      * unfold table_bind. cbn. rewrite lookup_insert_eq. split; [done | ]. split; [done | ]. unfold serving. rewrite Hins, Hterm.
        split; [done | ]. split; [by apply Hout | done].
Qed.

(** A Launch of an Instance the host owns is answered from the table. *)
Lemma launch_owned rt intent v : live rt !! intent_instance intent = Some v -> serving (rt_pool rt) (iv_worker v) = true ->
  runtime_launch sha256 intent rt = (reclaimed rt, owned_launch_reply v intent (intent_fingerprint sha256 intent)).
Proof using Type.
  intros Hv Hs. unfold runtime_launch, st_bind, reclaim, st_modify. fold (reclaimed rt). unfold st_get.
  by rewrite (proj2 (reclaimed_lookup rt _ v) (conj Hv Hs)).
Qed.

(** * Every operation keeps the invariant *)

Lemma wp_on_pool {E A : Type} (c : ST Pool E A) rt (Q : Runtime -> Result A E -> Prop) :
  wp c (rt_pool rt) (fun p r => Q (mkRuntime p (live rt)) r) -> wp (on_pool c) rt Q.
Proof using Type. unfold wp, on_pool. by destruct (c (rt_pool rt)). Qed.

Lemma inv_bind rt gs v : runtime_inv rt gs -> runtime_inv (set_live (table_bind v (live rt)) rt) gs.
Proof using Type.
  intros (Hp & Hc & Hl). split; [done | ]. split; [done | ]. intros i u. unfold table_bind. cbn [live set_live].
  intros [[<- <-] | [_ Hu]]%lookup_insert_Some; [done | by apply Hl].
Qed.

Lemma claim_consistent p o fp p' r : consistent p -> claim [] o fp p = (p', r) -> consistent p'.
Proof using Type. intros Hp Hc. apply (wp_eq _ _ _ _ _ (claim_spec p o fp Hp) Hc). Qed.

Lemma inv_launch rt gs intent : runtime_inv rt gs ->
  wp (runtime_launch sha256 intent) rt (fun rt' _ => runtime_inv rt' gs).
Proof using Type*.
  intros Hrt%inv_reclaimed. unfold runtime_launch. apply wp_bind, wp_modify. fold (reclaimed rt).
  set (rt1 := reclaimed rt) in *. apply wp_bind, wp_get. destruct (live rt1 !! intent_instance intent); [done | ].
  destruct Hrt as (Hp & Hcons & Hl). apply wp_bind, wp_map_err, wp_on_pool, wp_intro. intros p1 r Hc.
  pose proof (wp_eq _ _ _ _ _ (wp_claim _ _ [] _ _ Hp) Hc) as Hp1. apply claim_consistent in Hc as Hc1; [ | done].
  destruct r as [cl | e]; cbn [map_err]; [ | done]. destruct (grant cl) as [c | ] eqn:Hg; cbn [option_list app] in Hp1.
  - apply wp_bind, wp_map_err, wp_on_pool, wp_intro. cbn [rt_pool]. intros p2 r Ht.
    assert (runtime_inv (mkRuntime p2 (live rt1)) gs) as Hrt2.
    { split; [by eapply (claim_transfer_tenancy p1 gs c) | ]. split; [ | done].
      pose proof (quiet_transfer sha256 c intent p1) as Hq. rewrite Ht in Hq. by eapply quiet_consistent. }
    destruct r as [ev | e]; cbn [map_err]; [ | done]. by apply wp_bind, wp_bind, wp_modify, wp_ret, wp_ret, (inv_bind _ gs).
  - unfold rebind. apply wp_bind, wp_get. cbn [rt_pool]. assert (runtime_inv (mkRuntime p1 (live rt1)) gs) as Hrt2 by done.
    destruct (inspect p1 _) as [view | ]; [ | done]. destruct (is_terminal _); [done | ]. destruct (view_launch view); [ | done].
    by apply wp_bind, wp_bind, wp_modify, wp_ret, wp_ret, (inv_bind _ gs).
Qed.

Lemma inv_forget rt gs i : runtime_inv rt gs -> runtime_inv (set_live (delete i (live rt)) rt) gs.
Proof using Type.
  intros (Hp & Hc & Hl). split; [done | ]. split; [done | ]. intros j v. cbn. intros [_ Hv]%lookup_delete_Some. by apply Hl.
Qed.

(** The world moved on, and nothing else did. *)
Lemma inv_world rt gs w : runtime_inv rt gs -> issued (world (rt_pool rt)) ⊆ issued w ->
  runtime_inv (mkRuntime (set_world w (rt_pool rt)) (live rt)) gs.
Proof using Type.
  intros (Hp & Hc & Hl) Hw. split; [ | split; [ | done]]; cbn [rt_pool].
  - eapply tenancy_calm; [ | exact Hp]. by apply calm_set_world.
  - eapply quiet_consistent; [ | exact Hc]. by repeat split.
Qed.

(** The ledger answers without changing anything. *)
Lemma wp_recorded_terminal i rt gs : runtime_inv rt gs -> wp (recorded_terminal i) rt (fun rt' _ => runtime_inv rt' gs).
Proof using Type.
  intros Hrt. unfold recorded_terminal. apply wp_bind, wp_map_err, wp_on_pool. unfold wp at 1. rewrite ledger_read_eq.
  pose proof (inv_world rt gs _ Hrt (issued_mono read_io op_read (world (rt_pool rt)))) as Hrt'.
  destruct (read_io (world (rt_pool rt))).2; cbn [map_err]; [done | ]. apply wp_bind, wp_lift.
  destruct (map_err _ _); [ | done]. by destruct (head _).
Qed.

Lemma inv_destroy rt gs i : runtime_inv rt gs -> wp (runtime_destroy i) rt (fun rt' _ => runtime_inv rt' gs).
Proof using Type*.
  intros Hrt. unfold runtime_destroy. apply wp_bind, wp_get. destruct (live rt !! i) as [v | ]; [ | by apply wp_recorded_terminal].
  apply wp_bind, wp_try, wp_on_pool, wp_intro. intros p' r Hr. assert (runtime_inv (mkRuntime p' (live rt)) gs) as Hrt'.
  { destruct Hrt as (Hp & Hc & Hl). split; [ | split; [ | done]].
    - apply (tenancy_release_worker _ _ (iv_worker v)) in Hp. by rewrite Hr in Hp.
    - pose proof (quiet_release_worker (iv_worker v) (rt_pool rt)) as Hq. rewrite Hr in Hq. by eapply quiet_consistent. }
  destruct r as [ev | [ | | | | ]]; try done; apply wp_bind, wp_modify; [apply wp_ret | apply wp_recorded_terminal]; by apply inv_forget.
Qed.

(** * The life of a host *)

(** One request of a client, one operation of the pool beside it, or a restart of the daemon,
    which binds nothing again. *)
Inductive runtime_step : Runtime * list (Claimed H R) -> Runtime * list (Claimed H R) -> Prop :=
| step_launch intent rt gs : runtime_step (rt, gs) ((runtime_launch sha256 intent rt).1, gs)
| step_destroy i rt gs : runtime_step (rt, gs) ((runtime_destroy i rt).1, gs)
| step_get i rt gs : runtime_step (rt, gs) ((runtime_get (E := unit) i rt).1, gs)
| step_list after rt gs : runtime_step (rt, gs) ((runtime_list (E := unit) after rt).1, gs)
| step_pool rt gs p gs' : hold_step sha256 (rt_pool rt, gs) (p, gs') -> pool_step sha256 (rt_pool rt) p ->
    runtime_step (rt, gs) (mkRuntime p (live rt), gs')
| step_reopen rt gs p : hold_step sha256 (rt_pool rt, gs) (p, []) -> pool_step sha256 (rt_pool rt) p ->
    runtime_step (rt, gs) (runtime_new p, []).

Lemma runtime_step_inv x y : runtime_step x y -> runtime_inv x.1 x.2 -> runtime_inv y.1 y.2.
Proof using Type*.
  destruct 1; cbn [fst snd]; intros Hrt.
  - pose proof (inv_launch rt gs intent Hrt) as Hw. unfold wp in Hw. by destruct (runtime_launch sha256 intent rt).
  - pose proof (inv_destroy rt gs i Hrt) as Hw. unfold wp in Hw. by destruct (runtime_destroy i rt).
  - by apply inv_reclaimed.
  - by apply inv_reclaimed.
  - destruct Hrt as (Hp & Hc & Hl). split; [by apply (hold_step_tenancy sha256 _ _ H2) | ]. split; [ | done].
    by apply (pool_step_consistent sha256 _ _ H3).
  - destruct Hrt as (Hp & Hc & Hl). split; [by apply (hold_step_tenancy sha256 _ _ H2) | ].
    split; [by apply (pool_step_consistent sha256 _ _ H3) | ]. intros i v. cbn. by rewrite lookup_empty.
Qed.

Lemma runtime_inv_reachable digest limits shape adm w p0 x : pool_open digest limits shape adm [] w = Ok p0 ->
  rtc runtime_step (runtime_new p0, []) x -> runtime_inv x.1 x.2.
Proof using Type*.
  intros Hopen Hsteps. assert (runtime_inv (runtime_new p0) []) as Hrt.
  { split; [by eapply (tenancy_open _ _ _ _ _ _ _ ∅ Hopen); [done | by intros i []..] | ].
    split; [by eapply pool_open_consistent | ]. intros i v. cbn. by rewrite lookup_empty. }
  change (runtime_inv (runtime_new p0, [] : list (Claimed H R)).1 (runtime_new p0, [] : list (Claimed H R)).2) in Hrt.
  revert Hrt. induction Hsteps; eauto using runtime_step_inv.
Qed.

(** C34: a Launch happens once and an Instance has one owner.  On a host whose ledger never fails
    an append or a reading, after anything its clients, its pool and its restarts did, a Launch that answers with a live Instance leaves
    it bound to a worker that serves it; the same request again is answered with the same
    Instance and no effect on the pool, another operation that presents the Instance is
    refused with the holder named, and a changed intent under the same operation conflicts,
    both without any effect. *)
Theorem launch_once digest limits shape adm w p0 rt gs intent rt' v :
  pool_open digest limits shape adm [] w = Ok p0 -> rtc runtime_step (runtime_new p0, []) (rt, gs) ->
  runtime_launch sha256 intent rt = (rt', Ok (Launched_Live v)) ->
  live rt' !! intent_instance intent = Some v /\ serving (rt_pool rt') (iv_worker v) = true /\
  runtime_launch sha256 intent rt' = (reclaimed rt', Ok (Launched_Live v)) /\
  forall intent', intent_instance intent' = intent_instance intent ->
    (intent_operation intent' <> intent_operation intent -> runtime_launch sha256 intent' rt' =
       (reclaimed rt', Err (InstanceError_Occupied (intent_instance intent) (intent_operation intent) (intent_operation intent')))) /\
    (intent_operation intent' = intent_operation intent -> intent_fingerprint sha256 intent' <> intent_fingerprint sha256 intent ->
       runtime_launch sha256 intent' rt' = (reclaimed rt', Err (InstanceError_Claim (ClaimError_OperationConflict
         (intent_operation intent) (intent_fingerprint sha256 intent) (intent_fingerprint sha256 intent'))))).
Proof using Type*.
  intros Hopen Hsteps Hl. pose proof (runtime_inv_reachable _ _ _ _ _ _ _ Hopen Hsteps) as Hrt. cbn [fst snd] in Hrt.
  destruct (launch_live rt gs intent rt' v Hrt Hl) as (_ & Hv & Hi & Hs & Hop & Hfp).
  split; [done | ]. split; [done | ]. split.
  - rewrite (launch_owned rt' intent v Hv Hs). unfold owned_launch_reply. by rewrite !decide_True by done.
  - intros intent' Hi'. rewrite <- Hi' in Hv. rewrite (launch_owned rt' intent' v Hv Hs). unfold owned_launch_reply.
    rewrite Hop, Hfp. split.
    + intros Hne. by rewrite decide_False, Hi' by done.
    + intros Heq Hne. by rewrite decide_True, decide_False, Heq by done.
Qed.
End runtime.

(** Two workers are built and one is launched. *)
Definition steady_runtime : Runtime Steady Z unit unit SingleNode :=
  match steady_open with
  | Ok p => mkRuntime (replenish_blocking 2 0 p).1 ∅
  | Err _ => runtime_new (mkPool demo_digest demo_limits shape1 (fun _ => slot_new [] []) 0 [] ∅ ∅ registry_default 0 true [] demo_admission
      (mkSteady 0 0))
  end.

Definition steady_launched : Runtime Steady Z unit unit SingleNode := (runtime_launch demo_sha demo_intent steady_runtime).1.

Lemma steady_runtime_reachable : exists p0, steady_open = Ok p0 /\
  rtc (runtime_step demo_sha) (runtime_new p0, []) (steady_runtime, []).
Proof.
  unfold steady_runtime. destruct steady_open as [p0 | ] eqn:Hopen; [ | vm_compute in Hopen; discriminate Hopen].
  exists p0. split; [done | ]. apply rtc_once, (step_pool demo_sha (runtime_new p0) []); cbn [rt_pool runtime_new].
  - apply hold_replenish.
  - apply step_replenish.
Qed.

Lemma launch_once_witness : exists v,
  runtime_launch demo_sha demo_intent steady_runtime = (steady_launched, Ok (Launched_Live v)) /\
  iv_worker v = replicate 16 1 /\
  runtime_launch demo_sha demo_intent steady_launched = (reclaimed steady_launched, Ok (Launched_Live v)).
Proof.
  destruct steady_runtime_reachable as (p0 & Hopen & Hsteps).
  assert (exists v, (runtime_launch demo_sha demo_intent steady_runtime).2 = Ok (Launched_Live v) /\ iv_worker v = replicate 16 1)
    as (v & Hv & Hw) by (eexists; split; [vm_compute; reflexivity | reflexivity]).
  assert (runtime_launch demo_sha demo_intent steady_runtime = (steady_launched, Ok (Launched_Live v))) as Hl.
  { unfold steady_launched. by destruct (runtime_launch demo_sha demo_intent steady_runtime); cbn [fst snd] in *; subst. }
  exists v. split; [done | ]. split; [done | ].
  exact (proj1 (proj2 (proj2 (launch_once demo_sha _ _ _ _ _ _ _ _ _ _ _ Hopen Hsteps Hl)))).
Defined.
