(* ===== verification/HostDestroy.v ===== *)
(** The end of an Instance: what Destroy leaves behind, what a repeat answers, and what it
    does not do for an Instance retained over a restart. *)

From S2P Require Import Prelude Bytes HostAdmission HostAdmissionProps HostState HostStateFacts HostLedger HostLedgerFacts HostPool HostClaim HostTransfer HostWorld HostPoolFacts HostClaimProps HostSync HostPoolInv HostTenancy HostPoolProps HostPoison HostRuntime HostRuntimeProps.
From stdpp Require Import options.

Section runtime.
Context {W H R D N P : Type} `{PoolWorld W H R D N, !DurableWorld W H R D N, NumaPlacement P}.
Context (sha256 : bytes -> bytes).
Notation Pool := (Pool W H R N P).
Notation Runtime := (Runtime W H R N P).
Implicit Types p q : Pool.
Implicit Types rt : Runtime.
Notation id_of p i := (slot_id (arena p i)).

Lemma release_ends p gs w o : tenancy p gs -> owned p !! w = Some o ->
  wp (release_worker w) p (fun q r => is_ok r = true /\ tenancy q gs /\ exists i d, id_of p i = w /\ i ∈ table p /\
    packed_phase d = Dead /\ moving p q i (mkAt d d None None)).
Proof using Type*.
  intros Hp Ho. destruct (tenancy_owned p gs w o Hp Ho) as (i & Hid & Hslot & Hst & Htab & Hm & Hun).
  apply wp_intro. intros q r Hr. assert (tenancy q gs) as Hq. { apply (tenancy_release_worker p gs w) in Hp. by rewrite Hr in Hp. }
  revert q r Hr Hq. enough (wp (release_worker w) p (fun q r => is_ok r = true /\ exists d, packed_phase d = Dead /\
    moving p q i (mkAt d d None None))) as Hw.
  { intros q r Hr Hq. unfold wp in Hw. rewrite Hr in Hw. destruct Hw as (Hok & d & Hd & M). split; [done | ]. split; [done | ]. by exists i, d. }
  unfold release_worker. apply wp_bind, wp_get. rewrite Ho, Hst. apply wp_bind, wp_modify.
  eapply (wp_destroy_owned p _ i None None); [ | done | ].
  - eapply (moving_set_owned _ _ _ _ _ _ _ _ _ Hm); rewrite Hid; [by rewrite lookup_delete_eq | ].
    intros w' Hne. by rewrite lookup_delete_ne.
  - intros q ev d Hd M. split; [done | by exists d].
Qed.

(** The records of an end leave every other entry alone, and the Instance of theirs. *)
Lemma fold_ends w l es es' : Forall (ends w) l -> fold_all es l = Ok es' ->
  (forall u, u <> w -> es' !! u = es !! u) /\
  forall e, es !! w = Some e -> exists e', es' !! w = Some e' /\ entry_instance e' = entry_instance e.
Proof using Type.
  intros Hl. revert es. induction Hl as [ | r l [Hw Hk] _ IH]; intros es; [intros [= ->]; eauto | ].
  cbn [fold_all]. intros (es1 & Hf & Hes)%bind_Ok. destruct (IH es1 Hes) as [Ho He].
  assert (exists e0 e1, es !! w = Some e0 /\ es1 = <[w := e1]> es /\ entry_instance e1 = entry_instance e0) as (e0 & e1 & He0 & -> & Hi).
  { unfold fold in Hf. rewrite decide_False in Hf by (destruct Hk as [-> | ->]; done). rewrite Hw in Hf.
    destruct (es !! w) as [e0 | ]; cbn [ok_or] in Hf; [ | done]. do 2 (case_match; [done | ]). case_match; [done | ].
    apply ok_or_bind_Ok in Hf as (e1 & Hf & [= <-]). exists e0, e1. split; [done | ]. split; [done | ].
    unfold fold_kind in Hf. destruct Hk as [Hk | Hk]; rewrite Hk in Hf; by injection Hf as <-. }
  split.
  - intros u Hu. by rewrite Ho, lookup_insert_ne.
  - intros e He'. rewrite He0 in He'. injection He' as <-. destruct (He e1) as (e' & He1 & Hi'); [by rewrite lookup_insert_eq | ].
    exists e'. by rewrite Hi', Hi.
Qed.

(** * The recorded end *)

(** The Instance has one entry, that of worker [w]. *)
Definition sole_entry (es : Entries) (i : InstanceId) (w : WorkerId) (e : WorkerLedgerEntry) : Prop :=
  es !! w = Some e /\ entry_instance e = Some i /\
  forall u e', es !! u = Some e' -> entry_instance e' = Some i -> u = w.

Lemma elem_of_entry_values es e : e ∈ entry_values es <-> exists w, es !! w = Some e.
Proof using Type.
  unfold entry_values. rewrite sorting.merge_sort_Permutation, list_elem_of_fmap. split.
  - intros ([w e'] & -> & Hin%elem_of_map_to_list). by exists w.
  - intros [w He]. exists (w, e). split; [done | by apply elem_of_map_to_list].
Qed.

Lemma sole_entry_found es i w e : sole_entry es i w e ->
  head (filter (fun e => entry_instance e = Some i) (entry_values es)) = Some e.
Proof using Type.
  intros (He & Hi & Hun). assert (e ∈ filter (fun e => entry_instance e = Some i) (entry_values es)) as Hin.
  { apply list_elem_of_filter. split; [done | ]. apply elem_of_entry_values. by exists w. }
  destruct (filter _ _) as [ | e' l] eqn:Hf; [by apply elem_of_nil in Hin | ]. cbn. f_equal.
  assert (e' ∈ filter (fun e => entry_instance e = Some i) (entry_values es)) as [Hi' Hv]%list_elem_of_filter by (rewrite Hf; left).
  apply elem_of_entry_values in Hv as [u Hu]. rewrite (Hun u e' Hu Hi') in Hu. congruence.
Qed.

(** A host whose ledger was read once more. *)
Definition read_again rt : Runtime :=
  mkRuntime (set_world (read_io (world (rt_pool rt))).1 (rt_pool rt)) (live rt).

Lemma recorded_found rt es i w e : entries_of (pool_records (rt_pool rt)) = Ok es -> sole_entry es i w e ->
  recorded_terminal i rt = (read_again rt, Ok (mkTerminalReceipt i (entry_worker e) (is_terminal (entry_phase e)))).
Proof using DurableWorld0.
  intros Hes He. unfold recorded_terminal, st_bind, st_map_err, on_pool, st_lift. rewrite ledger_read_eq, read_durable.
  cbn [map_err]. rewrite Hes. cbn [map_err]. by rewrite (sole_entry_found es i w e He).
Qed.

Lemma read_again_live n rt : live (Nat.iter n read_again rt) = live rt.
Proof using Type. by induction n. Qed.

Lemma read_again_records n rt : pool_records (rt_pool (Nat.iter n read_again rt)) = pool_records (rt_pool rt).
Proof using Type. by induction n. Qed.

(** Destroy of an Instance that is not bound only reads. *)
Lemma destroy_unbound n rt es i w e : live rt !! i = None -> entries_of (pool_records (rt_pool rt)) = Ok es ->
  sole_entry es i w e ->
  runtime_destroy i (Nat.iter n read_again rt) =
    (Nat.iter (S n) read_again rt, Ok (mkTerminalReceipt i (entry_worker e) (is_terminal (entry_phase e)))).
Proof using DurableWorld0.
  intros Hl Hes He. unfold runtime_destroy, st_bind, st_get. rewrite read_again_live, Hl.
  apply (recorded_found _ es i w e); [by rewrite read_again_records | done].
Qed.

(** Ending a worker keeps the sole entry, and its phase is the one of the slot. *)
Lemma sole_entry_ends p q w i l es e d k : entries_of (pool_records p) = Ok es -> sole_entry es i w e ->
  pool_records q = pool_records p ++ l -> Forall (ends w) l ->
  id_of p k = w -> moving p q k (mkAt d d None None) ->
  exists es' e', entries_of (pool_records q) = Ok es' /\ sole_entry es' i w e' /\ entry_worker e' = w /\ entry_phase e' = packed_phase d.
Proof using Type.
  intros Hes (He & Hi & Hun) Hrec Hl Hid M. destruct (mv_sync _ _ _ _ M) as [es' Hs]. pose proof (sync_fold _ _ _ Hs) as Hes'.
  pose proof Hes' as Hf. rewrite Hrec in Hf. unfold entries_of in Hf. rewrite fold_all_app in Hf.
  change (fold_all ∅ (pool_records p)) with (entries_of (pool_records p)) in Hf. rewrite Hes in Hf. cbn in Hf.
  destruct (fold_ends w l es es' Hl Hf) as [Ho Hsame]. destruct (Hsame e He) as (e' & He' & Hi').
  exists es', e'. split; [done | ]. split; [split; [done | split; [by rewrite Hi' | ]] | ].
  - intros u e0 Hu Hi0. destruct (decide (u = w)) as [ | Hne]; [done | ]. rewrite Ho in Hu by done. by apply (Hun u e0).
  - split; [apply (sync_full _ _ _ Hs _ _ He') | ]. pose proof (mv_in _ _ _ _ M) as Hk.
    destruct (sync_slot _ _ _ Hs k) as (e0 & He0 & Hst); [by rewrite (mv_next _ _ _ _ M) | ].
    rewrite (mv_id _ _ _ _ M), Hid, He' in He0. injection He0 as <-. rewrite upd_same in Hst. cbn [at_led] in Hst. by rewrite <- Hst.
Qed.

(** C35: Destroy ends an Instance once, and says so again.  On a host whose ledger never fails an
    append or a reading, after anything its clients, its pool and its restarts did, take an
    Instance that is bound to a worker the pool owns, and that the ledger tells of that worker
    alone.  Destroy answers with a receipt for that worker, complete or not as the teardown was;
    afterwards the Instance is not bound, the pool owns the worker no longer and it serves
    nothing; and Destroy again, any number of times, only reads the ledger and answers a complete
    receipt for the same worker, also when the first receipt was not complete. *)
Theorem destroy_once digest limits shape adm w p0 rt gs i v o es e :
  pool_open digest limits shape adm [] w = Ok p0 -> rtc (runtime_step sha256) (runtime_new p0, []) (rt, gs) ->
  live rt !! i = Some v -> owned (rt_pool rt) !! iv_worker v = Some o ->
  entries_of (pool_records (rt_pool rt)) = Ok es -> sole_entry es i (iv_worker v) e ->
  exists rt' ev, (release_worker (iv_worker v) (rt_pool rt)).2 = Ok ev /\
    runtime_destroy i rt = (rt', Ok (mkTerminalReceipt i (iv_worker v)
      (destroy_complete (evidence_destroyed ev) && release_complete (evidence_released ev)))) /\
    live rt' = delete i (live rt) /\ owned (rt_pool rt') !! iv_worker v = None /\ serving (rt_pool rt') (iv_worker v) = false /\
    forall n, runtime_destroy i (Nat.iter n read_again rt') =
      (Nat.iter (S n) read_again rt', Ok (mkTerminalReceipt i (iv_worker v) true)).
Proof using Type*.
  intros Hopen Hsteps Hv Ho Hes He. destruct (runtime_inv_reachable _ _ _ _ _ _ _ _ Hopen Hsteps) as (Hp & _ & _). cbn [fst snd] in Hp.
  pose proof (release_ends _ gs _ o Hp Ho) as Hw. unfold wp in Hw.
  destruct (tenancy_owned _ gs _ o Hp Ho) as (k0 & Hid0 & Hslot & _).
  pose proof (logs_release (rt_pool rt) (iv_worker v) o Ho) as Hlog. rewrite Hslot in Hlog. specialize (Hlog Hid0).
  unfold runtime_destroy at 1, st_bind, st_get. rewrite Hv. unfold st_try, on_pool.
  destruct (release_worker (iv_worker v) (rt_pool rt)) as [q [ev | ]]; destruct Hw as (Hok & Hq & k & d & Hid & Htab & Hd & M); [ | done].
  destruct Hlog as (_ & l & Hrec & Hl). cbn [fst] in Hrec.
  destruct (sole_entry_ends _ _ _ _ _ _ _ _ _ Hes He Hrec Hl Hid M) as (es' & e' & Hes' & He' & Hwk & Hph).
  exists (mkRuntime q (delete i (live rt))), ev. split; [done | ]. split; [reflexivity | ]. split; [done | ]. cbn [rt_pool].
  split; [rewrite <- Hid; apply (mv_own _ _ _ _ M) | ]. split.
  - rewrite <- Hid, <- (mv_id _ _ _ _ M). unfold serving, inspect.
    rewrite (find_slot_is q gs k Hq) by by rewrite (mv_table _ _ _ _ M). cbn [mbind option_bind].
    rewrite (mv_id _ _ _ _ M), (mv_own _ _ _ _ M). cbn [view_phase at_own].
    change (observe (arena q k)) with (view q k). rewrite (mv_word _ _ _ _ M). cbn [at_word]. by rewrite Hd.
  - intros n. rewrite (destroy_unbound n (mkRuntime q (delete i (live rt))) es' i (iv_worker v) e'); [ | | done..].
    + by rewrite Hwk, Hph, Hd.
    + cbn [live]. by rewrite lookup_delete_eq.
Qed.

(** A host whose worker [u] was started, and which was restarted and reconciled. *)
Definition restarted (digest : bytes) (limits : Limits) (shape : ValidShape) (adm : Admission P) (u : WorkerId) (fuel : nat) rt
    : Result Pool PoolError :=
  let p := (start u (rt_pool rt)).1 in
  let? reopened := pool_open digest limits shape adm (pool_records p) (world p) in
  Ok (replenish_blocking fuel 0 (reconcile reopened).1).1.

Lemma restarted_tenancy digest limits shape adm w p0 rt gs u fuel p : pool_open digest limits shape adm [] w = Ok p0 ->
  rtc (runtime_step sha256) (runtime_new p0, []) (rt, gs) -> restarted digest limits shape adm u fuel rt = Ok p -> tenancy p [].
Proof using Type*.
  intros Hopen Hsteps (q & Hq & [= <-])%bind_Ok. destruct (runtime_inv_reachable _ _ _ _ _ _ _ _ Hopen Hsteps) as (Hp & _ & _).
  cbn [fst snd] in Hp. apply tenancy_replenish, tenancy_reconcile. apply (tenancy_start_worker _ _ u) in Hp.
  apply (hold_step_tenancy sha256 (_, gs) (q, [])) in Hp; [done | ]. by eapply hold_restart.
Qed.

(** An Instance retained over a restart cannot be destroyed.  A host that has just
    started binds no Instance, so Destroy of one whose worker its pool retained as running
    answers an incomplete receipt, for ever: nothing is released, the pool still owns the
    worker and the worker still serves. *)
Theorem destroy_retained p gs i w o es e : tenancy p gs -> owned p !! w = Some o ->
  entries_of (pool_records p) = Ok es -> sole_entry es i w e ->
  (forall n, runtime_destroy i (Nat.iter n read_again (runtime_new p)) =
    (Nat.iter (S n) read_again (runtime_new p), Ok (mkTerminalReceipt i w false))) /\ serving p w = true.
Proof using Type*.
  intros Hp Ho Hes He. destruct (tenancy_owned p gs w o Hp Ho) as (k & Hid & _ & _ & Htab & M & _).
  assert (is_terminal (packed_phase (view p k)) = false) as Hph.
  { rewrite (mv_word _ _ _ _ M). cbn [at_word]. by destruct (owned_worker o). }
  split; [ | rewrite <- Hid; by eapply serving_slot].
  intros n. rewrite (destroy_unbound n (runtime_new p) es i w e) by done.
  destruct (hs_sync _ _ _ Hp) as [es' Hs]. pose proof (sync_fold _ _ _ Hs) as Hf. rewrite Hes in Hf. injection Hf as <-.
  destruct He as (He & _ & _). destruct (sync_slot _ _ _ Hs k) as (e' & He' & Hst); [apply (mv_in _ _ _ _ M) | ].
  rewrite Hid, He in He'. injection He' as <-. assert (entry_phase e = packed_phase (view p k)) as -> by by rewrite <- Hst.
  rewrite Hph. by rewrite (full_worker _ _ (sync_full _ _ _ Hs _ _ He)).
Qed.
End runtime.

(** * Witnesses *)

Definition demo_instance : InstanceId := intent_instance demo_intent.
Definition demo_worker : WorkerId := steady_id 1.

Lemma sole_by_compute (es : Entries) i w :
  bool_decide (map_Forall (fun u e' => entry_instance e' = Some i -> u = w) es) = true ->
  forall u e', es !! u = Some e' -> entry_instance e' = Some i -> u = w.
Proof. by intros ?%bool_decide_eq_true. Qed.

Lemma steady_launched_reachable : exists p0, steady_open = Ok p0 /\
  rtc (runtime_step demo_sha) (runtime_new p0, []) (steady_launched, []).
Proof.
  destruct steady_runtime_reachable as (p0 & Hopen & Hsteps). exists p0. split; [done | ].
  eapply rtc_r; [exact Hsteps | apply step_launch].
Qed.

(** The launched Instance is destroyed, twice. *)
Lemma destroy_once_witness : exists rt' complete,
  runtime_destroy demo_instance steady_launched = (rt', Ok (mkTerminalReceipt demo_instance demo_worker complete)) /\
  (runtime_destroy demo_instance rt').2 = Ok (mkTerminalReceipt demo_instance demo_worker true).
Proof.
  destruct steady_launched_reachable as (p0 & Hopen & Hsteps).
  assert (exists v o, live steady_launched !! demo_instance = Some v /\ iv_worker v = demo_worker /\
    owned (rt_pool steady_launched) !! demo_worker = Some o) as (v & o & Hv & Hw & Ho).
  { eexists _, _. split; [vm_compute; reflexivity | ]. split; [reflexivity | vm_compute; reflexivity]. }
  assert (exists es e, entries_of (pool_records (rt_pool steady_launched)) = Ok es /\ sole_entry es demo_instance demo_worker e)
    as (es & e & Hes & He).
  { eexists _, _. split; [vm_compute; reflexivity | ]. split; [vm_compute; reflexivity | ]. split; [vm_compute; reflexivity | ].
    by apply sole_by_compute; vm_compute. }
  rewrite <- Hw in Ho, He |- *.
  destruct (destroy_once demo_sha _ _ _ _ _ _ _ _ _ _ _ _ _ Hopen Hsteps Hv Ho Hes He) as (rt' & ev & _ & Hd & _ & _ & _ & Hr).
  exists rt', (destroy_complete (evidence_destroyed ev) && release_complete (evidence_released ev)). split; [exact Hd | ].
  by rewrite (Hr 0%nat : runtime_destroy demo_instance rt' = _).
Defined.

(** The launched Instance is started, the host restarts and retains it; the Launch is
    replayed, Destroy does nothing, and a Launch under a fresh operation gives the Instance a
    second worker beside the first. *)
Definition steady_restarted : Result (Pool Steady Z unit unit SingleNode) PoolError :=
  restarted demo_digest demo_limits shape1 demo_admission demo_worker 2 steady_launched.

Definition again_intent : AssignmentIntent :=
  mkAssignmentIntent (intent_instance demo_intent) op2 (intent_vsock_cid demo_intent) (intent_network demo_intent)
    (intent_deadline demo_intent) (launch_material demo_intent).

Lemma steady_restarted_reachable p : steady_restarted = Ok p -> tenancy p [].
Proof.
  destruct steady_launched_reachable as (p0 & Hopen & Hsteps). apply (restarted_tenancy demo_sha _ _ _ _ _ _ _ _ _ _ _ Hopen Hsteps).
Qed.

Lemma destroy_retained_witness : exists p v,
  steady_restarted = Ok p /\
  (runtime_launch demo_sha demo_intent (runtime_new p)).2 = Ok (Launched_Replayed demo_worker 2) /\
  (runtime_destroy demo_instance (runtime_new p)).2 = Ok (mkTerminalReceipt demo_instance demo_worker false) /\
  (runtime_launch demo_sha again_intent (runtime_new p)).2 = Ok (Launched_Live v) /\
  iv_instance v = demo_instance /\ iv_worker v <> demo_worker /\
  serving (runtime_launch demo_sha again_intent (runtime_new p)).1.(rt_pool) demo_worker = true.
Proof.
  destruct steady_restarted as [p | ] eqn:Hre; [ | vm_compute in Hre; discriminate Hre].
  pose proof (steady_restarted_reachable p Hre) as Hp. pose proof Hre as Heq. vm_compute in Heq. injection Heq as Heq.
  assert (exists v, (runtime_launch demo_sha again_intent (runtime_new p)).2 = Ok (Launched_Live v) /\
    iv_instance v = demo_instance /\ iv_worker v = steady_id 3) as (v & Hv & Hi & Hw).
  { rewrite <- Heq. eexists. split; [vm_compute; reflexivity | split; reflexivity]. }
  exists p, v. split; [done | ]. split; [rewrite <- Heq; vm_compute; reflexivity | ]. split; [ | split; [done | ]].
  - assert (exists o, owned p !! demo_worker = Some o) as [o Ho] by (rewrite <- Heq; eexists; vm_compute; reflexivity).
    assert (exists es e, entries_of (pool_records p) = Ok es /\ sole_entry es demo_instance demo_worker e) as (es & e & Hes & He).
    { rewrite <- Heq. eexists _, _. split; [vm_compute; reflexivity | ]. split; [vm_compute; reflexivity | ].
      split; [vm_compute; reflexivity | ]. apply sole_by_compute. vm_compute. reflexivity. }
    destruct (destroy_retained p [] demo_instance demo_worker o es e Hp Ho Hes He) as [Hd _].
    by rewrite (Hd 0%nat : runtime_destroy demo_instance (runtime_new p) = _).
  - split; [done | ]. rewrite Hw. split; [done | ]. rewrite <- Heq. vm_compute. reflexivity.
Defined.
