(* ===== verification/GuestApp.v ===== *)
(** The application messages of the guest control protocol ([soma-guest] application/): the
    requests a host sends into an Instance and the answers its agent gives, their bounds, and
    the exact bytes of each inside one authenticated record.

    A body is written by encoders that panic on a field too long for its sixteen-bit length, so
    an encoder answers an [option] and [None] is that panic. *)

From S2P Require Import Prelude Bytes Wire.
From stdpp Require Import options.
Local Open Scope Z_scope.

Definition blen (l : bytes) : Z := Z.of_nat (length l).

(** * Errors (error.rs) *)

Inductive Error : Type :=
| InvalidBinding | InvalidKeyMaterial | NonContributoryPublicKey | PskInstanceMismatch | CryptoSetup
| HandshakeRejected | AuthenticationFailed | RecordTooLarge | PeerRecordRejected | SessionPoisoned
| SessionExhausted | RandomnessUnavailable | LaunchPageRejected | InvalidLaunchNetwork | InvalidOperation
| InvalidCommand | ApplicationMessageTooLarge | ApplicationMessageRejected | InvalidOutputChunk
| InvalidPtySize | InvalidTerminalStatus | InvalidTerminalReport | InvalidSecret
| InvalidActivationScope | ActivationReceiptRejected.

Abbreviation rejected := ApplicationMessageRejected.

(** * The record's bounds (record.rs, application/mod.rs) *)

Definition INNER_HEADER : Z := 8 + 2.
Definition AEAD_TAG : Z := 16.
Definition NOISE_MESSAGE_MAX : Z := 65535.
Definition MAX_RECORD_PAYLOAD : Z := NOISE_MESSAGE_MAX - AEAD_TAG - INNER_HEADER.
Definition HEADER_SIZE : Z := 28.
Definition MAX_BODY_SIZE : Z := MAX_RECORD_PAYLOAD - HEADER_SIZE.

(** * Readers and fields (application/frame.rs) *)

Definition r_take (n : nat) : ST bytes Error bytes := read_array rejected n.
Definition r_u8 : ST bytes Error Z := read_u8 rejected.
Definition r_u16 : ST bytes Error Z := read_uint rejected 2.
Definition r_u32 : ST bytes Error Z := read_uint rejected 4.
Definition r_u64 : ST bytes Error Z := read_uint rejected 8.

(** [i32::from_be_bytes] and [i32::to_be_bytes] *)
Definition r_i32 : ST bytes Error Z := z <-- r_u32 ;; st_ret (if z >=? 2 ^ 31 then z - 2 ^ 32 else z).
Definition i32_bytes (z : Z) : bytes := be_bytes 4 (z mod 2 ^ 32).

Definition r_field (maximum : Z) : ST bytes Error bytes :=
  length <-- r_u16 ;; if length >? maximum then st_err rejected else r_take (Z.to_nat length).

Definition r_finish {A} (p : ST bytes Error A) (body : bytes) : Result A Error := read_all rejected p body.

Definition put_field (field : bytes) : option bytes :=
  if blen field <=? U16_MAX then Some (be_bytes 2 (blen field) ++ field) else None.

(** The elements of a sequence one after another. *)
Fixpoint put_all {A} (put : A -> option bytes) (l : list A) : option bytes :=
  match l with
  | [] => Some []
  | a :: l => w ← put a; rest ← put_all put l; Some (w ++ rest)
  end.

Definition u8_of_bool (b : bool) : Z := if b then 1 else 0.

Definition r_flag : ST bytes Error bool :=
  b <-- r_u8 ;; if b =? 0 then st_ret false else if b =? 1 then st_ret true else st_err rejected.

(** * Operation identities and output chunks (operation.rs, output.rs) *)

Definition operation_new (raw : bytes) : Result bytes Error := if all_zero raw then Err InvalidOperation else Ok raw.

Definition MAX_OUTPUT_CHUNK_BYTES : Z := 4096.

Definition chunk_new (raw : bytes) : Result bytes Error :=
  if bool_decide (raw = []) || (blen raw >? MAX_OUTPUT_CHUNK_BYTES) then Err InvalidOutputChunk else Ok raw.

Definition chunk_decode (raw : bytes) : Result bytes Error := map_err (fun _ => rejected) (chunk_new raw).

(** * Commands (application/command.rs, command/context.rs) *)

Definition MAX_ARGUMENTS : Z := 64.
Definition MAX_FIELD_BYTES : Z := 4096.
Definition MAX_ENVIRONMENT : Z := 64.
Definition MAX_USER_BYTES : Z := 256.
Definition MAX_STDIN_BYTES : Z := 32 * 1024.
Definition MAX_TIMEOUT_MILLIS : Z := 3600000.
Definition MAX_OUTPUT_BYTES : Z := 16 * 1024 * 1024.
Definition FIXED_BODY_SIZE : Z := 4 + 8 + 2 + 2 + 2 + 1 + 1 + 2.

Record GuestCommand : Type := mkGuestCommand {
  program : bytes;
  arguments : list bytes;
  timeout_millis : Z;
  output_bytes : Z;
  environment : list (bytes * bytes);
  working_directory : option bytes;
  user : option bytes;
  stdin : bytes
}.

Record CommandContext : Type := mkCommandContext {
  cx_environment : list (bytes * bytes);
  cx_working_directory : option bytes;
  cx_user : option bytes;
  cx_stdin : bytes
}.

Definition contains (b : Z) (l : bytes) : bool := existsb (Z.eqb b) l.
Definition starts_with (b : Z) (l : bytes) : bool := match l with x :: _ => x =? b | [] => false end.
Definition NUL : Z := 0.
Definition SLASH : Z := 47.
Definition EQUALS : Z := 61.

Definition check_field (field : bytes) (empty_allowed : bool) : Result unit Error :=
  if (negb empty_allowed && bool_decide (field = [])) || (blen field >? MAX_FIELD_BYTES) || contains NUL field
  then Err InvalidCommand else Ok tt.

Definition check_name (name : bytes) : Result unit Error :=
  let? _ := check_field name false in if contains EQUALS name then Err InvalidCommand else Ok tt.

(** A loop that stops at the first element its check refuses. *)
Fixpoint check_each {A E} (check : A -> Result unit E) (l : list A) : Result unit E :=
  match l with [] => Ok tt | a :: l => let? _ := check a in check_each check l end.

Definition field_size (field : bytes) : Z := 2 + blen field.
Definition sum_sizes {A} (size : A -> Z) (l : list A) : Z := foldr (fun a n => size a + n) 0 l.

Definition encoded_size (c : GuestCommand) : Z :=
  FIXED_BODY_SIZE + blen (program c) + sum_sizes field_size (arguments c)
  + sum_sizes (fun pair => field_size pair.1 + field_size pair.2) (environment c)
  + match working_directory c with Some path => field_size path | None => 0 end
  + match user c with Some name => field_size name | None => 0 end + blen (stdin c).

Definition check_encoded_size (c : GuestCommand) : Result unit Error :=
  if encoded_size c >? MAX_BODY_SIZE then Err InvalidCommand else Ok tt.

Definition command_new (program : bytes) (arguments : list bytes) (timeout_millis output_bytes : Z) : Result GuestCommand Error :=
  let? _ := check_field program false in
  if negb (starts_with SLASH program) || (Z.of_nat (length arguments) >? MAX_ARGUMENTS) || (timeout_millis =? 0)
     || (timeout_millis >? MAX_TIMEOUT_MILLIS) || (output_bytes =? 0) || (output_bytes >? MAX_OUTPUT_BYTES)
  then Err InvalidCommand
  else
    let? _ := check_each (fun argument => check_field argument true) arguments in
    let command := mkGuestCommand program arguments timeout_millis output_bytes [] None None [] in
    let? _ := check_encoded_size command in Ok command.

Definition check_directory (path : bytes) : Result unit Error :=
  let? _ := check_field path false in if negb (starts_with SLASH path) then Err InvalidCommand else Ok tt.

Definition check_user (name : bytes) : Result unit Error :=
  if bool_decide (name = []) || (blen name >? MAX_USER_BYTES) || contains NUL name then Err InvalidCommand else Ok tt.

Definition check_optional (check : bytes -> Result unit Error) (field : option bytes) : Result unit Error :=
  match field with None => Ok tt | Some raw => check raw end.

(** The checked parts are the context's own fields, in the order the checks run. *)
Definition into_checked_parts (cx : CommandContext) : Result CommandContext Error :=
  if (Z.of_nat (length (cx_environment cx)) >? MAX_ENVIRONMENT) || (blen (cx_stdin cx) >? MAX_STDIN_BYTES)
  then Err InvalidCommand
  else
    let? _ := check_each (fun pair => let? _ := check_name pair.1 in check_field pair.2 true) (cx_environment cx) in
    let? _ := check_optional check_directory (cx_working_directory cx) in
    let? _ := check_optional check_user (cx_user cx) in
    Ok cx.

Definition with_context (c : GuestCommand) (cx : CommandContext) : Result GuestCommand Error :=
  let? parts := into_checked_parts cx in
  let command := mkGuestCommand (program c) (arguments c) (timeout_millis c) (output_bytes c)
                   (cx_environment parts) (cx_working_directory parts) (cx_user parts) (cx_stdin parts) in
  let? _ := check_encoded_size command in Ok command.

(** ** The bytes of a command (command/codec.rs) *)

Definition push_count (count : nat) : option bytes :=
  if Z.of_nat count <=? U16_MAX then Some (be_bytes 2 (Z.of_nat count)) else None.

Definition push_optional (field : option bytes) : option bytes :=
  match field with None => Some [0] | Some raw => w ← put_field raw; Some (1 :: w) end.

Definition command_encode (c : GuestCommand) : option bytes :=
  program ← put_field (program c);
  count ← push_count (length (arguments c));
  arguments ← put_all put_field (arguments c);
  pairs ← push_count (length (environment c));
  environment ← put_all (fun pair => name ← put_field pair.1; value ← put_field pair.2; Some (name ++ value)) (environment c);
  directory ← push_optional (working_directory c);
  user ← push_optional (user c);
  stdin ← put_field (stdin c);
  Some (be_bytes 4 (timeout_millis c) ++ be_bytes 8 (output_bytes c) ++ program ++ count ++ arguments
        ++ pairs ++ environment ++ directory ++ user ++ stdin).

Definition read_optional (maximum : Z) : ST bytes Error (option bytes) :=
  present <-- r_u8 ;;
  if present =? 0 then st_ret None
  else if present =? 1 then
    field <-- r_field maximum ;; if bool_decide (field = []) then st_err rejected else st_ret (Some field)
  else st_err rejected.

Definition decode_context : ST bytes Error CommandContext :=
  count <-- r_u16 ;;
  if count >? MAX_ENVIRONMENT then st_err rejected
  else
    environment <-- read_list (Z.to_nat count)
                      (name <-- r_field MAX_FIELD_BYTES ;; value <-- r_field MAX_FIELD_BYTES ;; st_ret (name, value)) ;;
    directory <-- read_optional MAX_FIELD_BYTES ;;
    user <-- read_optional MAX_USER_BYTES ;;
    stdin <-- r_field MAX_STDIN_BYTES ;;
    st_ret (mkCommandContext environment directory user stdin).

Definition command_fields : ST bytes Error (bytes * list bytes * Z * Z * CommandContext) :=
  timeout_millis <-- r_u32 ;;
  output_bytes <-- r_u64 ;;
  program <-- r_field MAX_FIELD_BYTES ;;
  count <-- r_u16 ;;
  if count >? MAX_ARGUMENTS then st_err rejected
  else
    arguments <-- read_list (Z.to_nat count) (r_field MAX_FIELD_BYTES) ;;
    context <-- decode_context ;;
    st_ret (program, arguments, timeout_millis, output_bytes, context).

Definition command_decode (body : bytes) : Result GuestCommand Error :=
  let? (program, arguments, timeout_millis, output_bytes, context) := r_finish command_fields body in
  map_err (fun _ => rejected)
    (let? command := command_new program arguments timeout_millis output_bytes in with_context command context).

(** * Filesystem requests and outcomes (application/filesystem.rs, filesystem/) *)

Definition MAX_PATH_BYTES : Z := 4096.
Definition MAX_CHUNK_BYTES : Z := Z.min U16_MAX (MAX_BODY_SIZE - MAX_PATH_BYTES - 32).
Definition MAX_ENTRIES : Z := 1024.
(** [0o777] *)
Definition MAX_FILE_MODE : Z := 511.

Inductive FileRequest : Type :=
| File_Read (path : bytes) (offset length : Z)
| File_Write (path : bytes) (offset : Z) (create shorten : bool) (raw : bytes)
| File_MakeDirectory (path : bytes) (parents : bool)
| File_ReadDirectory (path : bytes) (offset : Z)
| File_Exists (path : bytes)
| File_Create (path : bytes) (mode : Z)
| File_SetMode (path : bytes) (mode : Z)
| File_Remove (path : bytes) (recursive : bool).

Definition request_path (r : FileRequest) : bytes :=
  match r with
  | File_Read path _ _ | File_Write path _ _ _ _ | File_MakeDirectory path _ | File_ReadDirectory path _
  | File_Exists path | File_Create path _ | File_SetMode path _ | File_Remove path _ => path
  end.

Definition check_path (path : bytes) : Result unit Error :=
  if bool_decide (path = []) || (blen path >? MAX_PATH_BYTES) then Err rejected
  else if negb (starts_with SLASH path) || contains NUL path then Err rejected else Ok tt.

Definition check_mode (mode : Z) : Result unit Error := if mode >? MAX_FILE_MODE then Err rejected else Ok tt.

Definition read_path : ST bytes Error bytes := path <-- r_field MAX_PATH_BYTES ;; _ <-- st_lift (check_path path) ;; st_ret path.

Definition read_mode : ST bytes Error Z := mode <-- r_u32 ;; _ <-- st_lift (check_mode mode) ;; st_ret mode.

Definition file_encode (r : FileRequest) : option bytes :=
  path ← put_field (request_path r);
  match r with
  | File_Read _ offset length => Some (1 :: path ++ be_bytes 8 offset ++ be_bytes 4 length)
  | File_Write _ offset create shorten raw =>
      field ← put_field raw;
      Some (2 :: path ++ be_bytes 8 offset ++ [u8_of_bool create] ++ [u8_of_bool shorten] ++ field)
  | File_MakeDirectory _ parents => Some (3 :: path ++ [u8_of_bool parents])
  | File_ReadDirectory _ offset => Some (4 :: path ++ be_bytes 4 offset)
  | File_Exists _ => Some (5 :: path)
  | File_Remove _ recursive => Some (6 :: path ++ [u8_of_bool recursive])
  | File_Create _ mode => Some (7 :: path ++ be_bytes 4 mode)
  | File_SetMode _ mode => Some (8 :: path ++ be_bytes 4 mode)
  end.

Definition file_fields : ST bytes Error FileRequest :=
  tag <-- r_u8 ;;
  if tag =? 1 then
    path <-- read_path ;; offset <-- r_u64 ;; length <-- r_u32 ;;
    if length >? MAX_CHUNK_BYTES then st_err rejected else st_ret (File_Read path offset length)
  else if tag =? 2 then
    path <-- read_path ;; offset <-- r_u64 ;; create <-- r_flag ;; shorten <-- r_flag ;;
    raw <-- r_field MAX_CHUNK_BYTES ;; st_ret (File_Write path offset create shorten raw)
  else if tag =? 3 then path <-- read_path ;; parents <-- r_flag ;; st_ret (File_MakeDirectory path parents)
  else if tag =? 4 then path <-- read_path ;; offset <-- r_u32 ;; st_ret (File_ReadDirectory path offset)
  else if tag =? 5 then path <-- read_path ;; st_ret (File_Exists path)
  else if tag =? 6 then path <-- read_path ;; recursive <-- r_flag ;; st_ret (File_Remove path recursive)
  else if tag =? 7 then path <-- read_path ;; mode <-- read_mode ;; st_ret (File_Create path mode)
  else if tag =? 8 then path <-- read_path ;; mode <-- read_mode ;; st_ret (File_SetMode path mode)
  else st_err rejected.

Definition file_decode (body : bytes) : Result FileRequest Error :=
  let? request := r_finish file_fields body in
  let? _ := check_path (request_path request) in Ok request.

Inductive FileFailure : Type :=
| FileFailure_NotFound | FileFailure_Denied | FileFailure_WrongKind | FileFailure_Exists | FileFailure_NotEmpty | FileFailure_Failed.

Definition failure_code (f : FileFailure) : Z :=
  match f with
  | FileFailure_NotFound => 1 | FileFailure_Denied => 2 | FileFailure_WrongKind => 3
  | FileFailure_Exists => 4 | FileFailure_NotEmpty => 5 | FileFailure_Failed => 6
  end.

Definition failure_parse (value : Z) : Result FileFailure Error :=
  if value =? 1 then Ok FileFailure_NotFound else if value =? 2 then Ok FileFailure_Denied
  else if value =? 3 then Ok FileFailure_WrongKind else if value =? 4 then Ok FileFailure_Exists
  else if value =? 5 then Ok FileFailure_NotEmpty else if value =? 6 then Ok FileFailure_Failed else Err rejected.

Inductive EntryKind : Type := Entry_File | Entry_Directory | Entry_Other.

Definition entry_code (k : EntryKind) : Z := match k with Entry_File => 1 | Entry_Directory => 2 | Entry_Other => 3 end.

Definition entry_parse (value : Z) : Result EntryKind Error :=
  if value =? 1 then Ok Entry_File else if value =? 2 then Ok Entry_Directory
  else if value =? 3 then Ok Entry_Other else Err rejected.

Record DirectoryEntry : Type := mkDirectoryEntry { entry_name : bytes; entry_kind : EntryKind }.

Inductive FileOutcome : Type :=
| Out_Read (raw : bytes) (at_end : bool)
| Out_Written (count : Z)
| Out_Listed (entries : list DirectoryEntry) (more : bool)
| Out_Status (kind : option EntryKind)
| Out_Done
| Out_Failed (failure : FileFailure).

Definition put_entry (e : DirectoryEntry) : option bytes := w ← put_field (entry_name e); Some (entry_code (entry_kind e) :: w).

Definition outcome_encode (o : FileOutcome) : option bytes :=
  match o with
  | Out_Read raw at_end => w ← put_field raw; Some (1 :: u8_of_bool at_end :: w)
  | Out_Written count => Some (2 :: be_bytes 8 count)
  | Out_Listed entries more =>
      w ← put_all put_entry entries;
      Some (3 :: u8_of_bool more :: be_bytes 4 (Z.min U32_MAX (Z.of_nat (length entries))) ++ w)
  | Out_Status kind => Some [4; match kind with Some kind => entry_code kind | None => 0 end]
  | Out_Done => Some [5]
  | Out_Failed failure => Some [6; failure_code failure]
  end.

Definition read_entry : ST bytes Error DirectoryEntry :=
  code <-- r_u8 ;; kind <-- st_lift (entry_parse code) ;; name <-- r_field MAX_PATH_BYTES ;;
  if bool_decide (name = []) || contains SLASH name || contains NUL name then st_err rejected
  else st_ret (mkDirectoryEntry name kind).

Definition outcome_fields : ST bytes Error FileOutcome :=
  tag <-- r_u8 ;;
  if tag =? 1 then at_end <-- r_flag ;; raw <-- r_field MAX_CHUNK_BYTES ;; st_ret (Out_Read raw at_end)
  else if tag =? 2 then count <-- r_u64 ;; st_ret (Out_Written count)
  else if tag =? 3 then
    more <-- r_flag ;; count <-- r_u32 ;;
    if count >? MAX_ENTRIES then st_err rejected
    else entries <-- read_list (Z.to_nat count) read_entry ;; st_ret (Out_Listed entries more)
  else if tag =? 4 then
    value <-- r_u8 ;;
    if value =? 0 then st_ret (Out_Status None) else kind <-- st_lift (entry_parse value) ;; st_ret (Out_Status (Some kind))
  else if tag =? 5 then st_ret Out_Done
  else if tag =? 6 then value <-- r_u8 ;; failure <-- st_lift (failure_parse value) ;; st_ret (Out_Failed failure)
  else st_err rejected.

Definition outcome_decode (body : bytes) : Result FileOutcome Error := r_finish outcome_fields body.

(** * Terminals (application/pty.rs, pty/) *)

Definition MAX_PTY_CHUNK_BYTES : Z := 4096.
Definition MAX_PTY_COLUMNS : Z := 1024.
Definition MAX_PTY_ROWS : Z := 1024.
Definition MAX_PTY_WAIT_MILLIS : Z := 60000.

Record PtySize : Type := mkPtySize { columns : Z; rows : Z }.

Definition size_new (columns rows : Z) : Result PtySize Error :=
  if (columns =? 0) || (rows =? 0) || (columns >? MAX_PTY_COLUMNS) || (rows >? MAX_PTY_ROWS)
  then Err InvalidPtySize else Ok (mkPtySize columns rows).

Inductive PtyRequest : Type :=
| Pty_Open (size : PtySize)
| Pty_Write (raw : bytes)
| Pty_Read (wait_millis : Z)
| Pty_Resize (size : PtySize)
| Pty_Close.

Definition put_size (s : PtySize) : bytes := be_bytes 2 (columns s) ++ be_bytes 2 (rows s).

Definition read_size : ST bytes Error PtySize :=
  columns <-- r_u16 ;; rows <-- r_u16 ;; st_lift (map_err (fun _ => rejected) (size_new columns rows)).

Definition pty_encode (r : PtyRequest) : option bytes :=
  match r with
  | Pty_Open size => Some (1 :: put_size size)
  | Pty_Write raw => w ← put_field raw; Some (2 :: w)
  | Pty_Read wait_millis => Some (3 :: be_bytes 4 wait_millis)
  | Pty_Resize size => Some (4 :: put_size size)
  | Pty_Close => Some [5]
  end.

Definition pty_fields : ST bytes Error PtyRequest :=
  tag <-- r_u8 ;;
  if tag =? 1 then size <-- read_size ;; st_ret (Pty_Open size)
  else if tag =? 2 then raw <-- r_field MAX_PTY_CHUNK_BYTES ;; st_ret (Pty_Write raw)
  else if tag =? 3 then
    wait_millis <-- r_u32 ;;
    if wait_millis >? MAX_PTY_WAIT_MILLIS then st_err rejected else st_ret (Pty_Read wait_millis)
  else if tag =? 4 then size <-- read_size ;; st_ret (Pty_Resize size)
  else if tag =? 5 then st_ret Pty_Close
  else st_err rejected.

Definition pty_decode (body : bytes) : Result PtyRequest Error := r_finish pty_fields body.

Inductive PtyFailure : Type := PtyFailure_NoSession | PtyFailure_AlreadyOpen | PtyFailure_Denied | PtyFailure_Failed.

Definition pty_failure_code (f : PtyFailure) : Z :=
  match f with PtyFailure_NoSession => 1 | PtyFailure_AlreadyOpen => 2 | PtyFailure_Denied => 3 | PtyFailure_Failed => 4 end.

Definition pty_failure_parse (value : Z) : Result PtyFailure Error :=
  if value =? 1 then Ok PtyFailure_NoSession else if value =? 2 then Ok PtyFailure_AlreadyOpen
  else if value =? 3 then Ok PtyFailure_Denied else if value =? 4 then Ok PtyFailure_Failed else Err rejected.

Inductive PtyOutcome : Type :=
| PtyOut_Opened (size : PtySize)
| PtyOut_Wrote (count : Z)
| PtyOut_Output (raw : bytes) (at_end : bool)
| PtyOut_Resized (size : PtySize)
| PtyOut_Closed
| PtyOut_Failed (failure : PtyFailure).

Definition pty_outcome_encode (o : PtyOutcome) : option bytes :=
  match o with
  | PtyOut_Opened size => Some (1 :: put_size size)
  | PtyOut_Wrote count => Some (2 :: be_bytes 4 count)
  | PtyOut_Output raw at_end => w ← put_field raw; Some (3 :: u8_of_bool at_end :: w)
  | PtyOut_Resized size => Some (4 :: put_size size)
  | PtyOut_Closed => Some [5]
  | PtyOut_Failed failure => Some [6; pty_failure_code failure]
  end.

Definition pty_outcome_fields : ST bytes Error PtyOutcome :=
  tag <-- r_u8 ;;
  if tag =? 1 then size <-- read_size ;; st_ret (PtyOut_Opened size)
  else if tag =? 2 then count <-- r_u32 ;; st_ret (PtyOut_Wrote count)
  else if tag =? 3 then at_end <-- r_flag ;; raw <-- r_field MAX_PTY_CHUNK_BYTES ;; st_ret (PtyOut_Output raw at_end)
  else if tag =? 4 then size <-- read_size ;; st_ret (PtyOut_Resized size)
  else if tag =? 5 then st_ret PtyOut_Closed
  else if tag =? 6 then value <-- r_u8 ;; failure <-- st_lift (pty_failure_parse value) ;; st_ret (PtyOut_Failed failure)
  else st_err rejected.

Definition pty_outcome_decode (body : bytes) : Result PtyOutcome Error := r_finish pty_outcome_fields body.

(** * Terminal reports (application/terminal.rs) *)

Inductive TerminalStatus : Type :=
| Exited (code : Z)
| Signaled (signal : Z)
| TimedOut
| OutputLimit
| ExecFailed (errno : Z)
| AgentFailed (code : Z).

#[export] Instance TerminalStatus_eq_dec : EqDecision TerminalStatus.
Proof. solve_decision. Defined.

Definition within (low z high : Z) : bool := (low <=? z) && (z <=? high).

Definition status_fields (s : TerminalStatus) : Result (Z * Z) Error :=
  match s with
  | Exited code => if within 0 code 255 then Ok (1, code) else Err InvalidTerminalStatus
  | Signaled signal => if within 1 signal 64 then Ok (2, signal) else Err InvalidTerminalStatus
  | TimedOut => Ok (3, 0)
  | OutputLimit => Ok (4, 0)
  | ExecFailed errno => if within 1 errno 4095 then Ok (5, errno) else Err InvalidTerminalStatus
  | AgentFailed code => if within 1 code 4095 then Ok (6, code) else Err InvalidTerminalStatus
  end.

Definition status_from_fields (kind detail : Z) : Result TerminalStatus Error :=
  if (kind =? 1) && within 0 detail 255 then Ok (Exited detail)
  else if (kind =? 2) && within 1 detail 64 then Ok (Signaled detail)
  else if (kind =? 3) && (detail =? 0) then Ok TimedOut
  else if (kind =? 4) && (detail =? 0) then Ok OutputLimit
  else if (kind =? 5) && within 1 detail 4095 then Ok (ExecFailed detail)
  else if (kind =? 6) && within 1 detail 4095 then Ok (AgentFailed detail)
  else Err rejected.

Record TerminalReport : Type := mkTerminalReport { report_status : TerminalStatus; stdout_bytes : Z; stderr_bytes : Z }.

Definition report_new (status : TerminalStatus) (stdout_bytes stderr_bytes : Z) : Result TerminalReport Error :=
  let? _ := status_fields status in
  let? total := ok_or InvalidTerminalReport (checked_add_u64 stdout_bytes stderr_bytes) in
  if total >? MAX_OUTPUT_BYTES then Err InvalidTerminalReport else Ok (mkTerminalReport status stdout_bytes stderr_bytes).

Definition report_encode (r : TerminalReport) : Result bytes Error :=
  let? (kind, detail) := status_fields (report_status r) in
  Ok (kind :: zeroes 3 ++ i32_bytes detail ++ be_bytes 4 (stdout_bytes r) ++ be_bytes 4 (stderr_bytes r)).

Definition report_fields : ST bytes Error (Z * Z * Z * Z) :=
  kind <-- r_u8 ;; pad <-- r_take 3 ;;
  if negb (all_zero pad) then st_err rejected
  else detail <-- r_i32 ;; stdout_bytes <-- r_u32 ;; stderr_bytes <-- r_u32 ;; st_ret (kind, detail, stdout_bytes, stderr_bytes).

Definition report_decode (body : bytes) : Result TerminalReport Error :=
  let? (kind, detail, stdout_bytes, stderr_bytes) := r_finish report_fields body in
  let? status := status_from_fields kind detail in
  map_err (fun _ => rejected) (report_new status stdout_bytes stderr_bytes).

(** * Frames (application/frame.rs) *)

Inductive Kind : Type :=
| Kind_Prepare | Kind_Execute | Kind_Shutdown | Kind_File | Kind_Pty | Kind_RepairComplete | Kind_Stdout
| Kind_Stderr | Kind_Terminal | Kind_ShutdownAck | Kind_FileOutcome | Kind_PtyOutcome.

#[export] Instance Kind_eq_dec : EqDecision Kind.
Proof. solve_decision. Defined.

Definition kind_code (k : Kind) : Z :=
  match k with
  | Kind_Prepare => 1 | Kind_Execute => 2 | Kind_Shutdown => 3 | Kind_File => 4 | Kind_Pty => 5
  | Kind_RepairComplete => 129 | Kind_Stdout => 130 | Kind_Stderr => 131 | Kind_Terminal => 132
  | Kind_ShutdownAck => 133 | Kind_FileOutcome => 134 | Kind_PtyOutcome => 135
  end.

Definition kind_parse (value : Z) : Result Kind Error :=
  if value =? 1 then Ok Kind_Prepare else if value =? 2 then Ok Kind_Execute
  else if value =? 3 then Ok Kind_Shutdown else if value =? 4 then Ok Kind_File
  else if value =? 5 then Ok Kind_Pty else if value =? 129 then Ok Kind_RepairComplete
  else if value =? 130 then Ok Kind_Stdout else if value =? 131 then Ok Kind_Stderr
  else if value =? 132 then Ok Kind_Terminal else if value =? 133 then Ok Kind_ShutdownAck
  else if value =? 134 then Ok Kind_FileOutcome else if value =? 135 then Ok Kind_PtyOutcome
  else Err rejected.

Definition MAGIC : bytes := [83; 79; 77; 65].
Definition VERSION : Z := 1.

Record DecodedFrame : Type := mkDecodedFrame { frame_kind : Kind; frame_operation : bytes; frame_body : bytes }.

Definition frame_encode (kind : Kind) (operation body : bytes) : Result bytes Error :=
  if HEADER_SIZE + blen body >? MAX_RECORD_PAYLOAD then Err ApplicationMessageTooLarge
  else if blen body >? U16_MAX then Err ApplicationMessageTooLarge
  else Ok (MAGIC ++ be_bytes 2 VERSION ++ [kind_code kind] ++ [0] ++ be_bytes 2 0 ++ operation ++ be_bytes 2 (blen body) ++ body).

Definition frame_fields : ST bytes Error DecodedFrame :=
  magic <-- r_take 4 ;;
  if negb (bool_decide (magic = MAGIC)) then st_err rejected
  else version <-- r_u16 ;;
  if negb (version =? VERSION) then st_err rejected
  else code <-- r_u8 ;; kind <-- st_lift (kind_parse code) ;;
  flags <-- r_u8 ;;
  if negb (flags =? 0) then st_err rejected
  else reserved <-- r_u16 ;;
  if negb (reserved =? 0) then st_err rejected
  else raw <-- r_take 16 ;; operation <-- st_lift (map_err (fun _ => rejected) (operation_new raw)) ;;
  body_length <-- r_u16 ;;
  body <-- r_take (Z.to_nat body_length) ;;
  st_ret (mkDecodedFrame kind operation body).

Definition frame_decode (encoded : bytes) : Result DecodedFrame Error :=
  if (blen encoded <? HEADER_SIZE) || (blen encoded >? MAX_RECORD_PAYLOAD) then Err rejected
  else r_finish frame_fields encoded.

(** * Messages (application/host.rs, application/guest.rs) *)

Inductive HostMessage : Type :=
| Host_Prepare (operation : bytes)
| Host_Execute (operation : bytes) (command : GuestCommand)
| Host_File (operation : bytes) (request : FileRequest)
| Host_Pty (operation : bytes) (request : PtyRequest)
| Host_Shutdown (operation : bytes).

Definition host_encode (m : HostMessage) : option (Result bytes Error) :=
  match m with
  | Host_Prepare operation => Some (frame_encode Kind_Prepare operation [])
  | Host_Execute operation command => body ← command_encode command; Some (frame_encode Kind_Execute operation body)
  | Host_File operation request => body ← file_encode request; Some (frame_encode Kind_File operation body)
  | Host_Pty operation request => body ← pty_encode request; Some (frame_encode Kind_Pty operation body)
  | Host_Shutdown operation => Some (frame_encode Kind_Shutdown operation [])
  end.

Definition empty_body (f : DecodedFrame) : bool := bool_decide (frame_body f = []).

Definition host_decode (encoded : bytes) : Result HostMessage Error :=
  let? decoded := frame_decode encoded in
  let operation := frame_operation decoded in
  match frame_kind decoded with
  | Kind_Prepare => if empty_body decoded then Ok (Host_Prepare operation) else Err rejected
  | Kind_Execute => let? command := command_decode (frame_body decoded) in Ok (Host_Execute operation command)
  | Kind_File => let? request := file_decode (frame_body decoded) in Ok (Host_File operation request)
  | Kind_Pty => let? request := pty_decode (frame_body decoded) in Ok (Host_Pty operation request)
  | Kind_Shutdown => if empty_body decoded then Ok (Host_Shutdown operation) else Err rejected
  | _ => Err rejected
  end.

Inductive GuestMessage : Type :=
| Guest_RepairComplete (operation : bytes)
| Guest_Stdout (operation chunk : bytes)
| Guest_Stderr (operation chunk : bytes)
| Guest_Terminal (operation : bytes) (report : TerminalReport)
| Guest_FileOutcome (operation : bytes) (outcome : FileOutcome)
| Guest_PtyOutcome (operation : bytes) (outcome : PtyOutcome)
| Guest_ShutdownAck (operation : bytes).

Definition guest_encode (m : GuestMessage) : option (Result bytes Error) :=
  match m with
  | Guest_RepairComplete operation => Some (frame_encode Kind_RepairComplete operation [])
  | Guest_Stdout operation chunk => Some (frame_encode Kind_Stdout operation chunk)
  | Guest_Stderr operation chunk => Some (frame_encode Kind_Stderr operation chunk)
  | Guest_Terminal operation report => Some (let? body := report_encode report in frame_encode Kind_Terminal operation body)
  | Guest_FileOutcome operation outcome => body ← outcome_encode outcome; Some (frame_encode Kind_FileOutcome operation body)
  | Guest_PtyOutcome operation outcome => body ← pty_outcome_encode outcome; Some (frame_encode Kind_PtyOutcome operation body)
  | Guest_ShutdownAck operation => Some (frame_encode Kind_ShutdownAck operation [])
  end.

Definition guest_decode (encoded : bytes) : Result GuestMessage Error :=
  let? decoded := frame_decode encoded in
  let operation := frame_operation decoded in
  match frame_kind decoded with
  | Kind_RepairComplete => if empty_body decoded then Ok (Guest_RepairComplete operation) else Err rejected
  | Kind_Stdout => let? chunk := chunk_decode (frame_body decoded) in Ok (Guest_Stdout operation chunk)
  | Kind_Stderr => let? chunk := chunk_decode (frame_body decoded) in Ok (Guest_Stderr operation chunk)
  | Kind_Terminal => let? report := report_decode (frame_body decoded) in Ok (Guest_Terminal operation report)
  | Kind_FileOutcome => let? outcome := outcome_decode (frame_body decoded) in Ok (Guest_FileOutcome operation outcome)
  | Kind_PtyOutcome => let? outcome := pty_outcome_decode (frame_body decoded) in Ok (Guest_PtyOutcome operation outcome)
  | Kind_ShutdownAck => if empty_body decoded then Ok (Guest_ShutdownAck operation) else Err rejected
  | _ => Err rejected
  end.
