(* ===== verification/GuestAppProps.v ===== *)
(** The application messages of the guest control protocol are read back as they were written,
    and nothing else is read: every message has one encoding. *)

From S2P Require Import Prelude Bytes Wire GuestApp.
From stdpp Require Import options.
Local Open Scope Z_scope.

#[local] Arguments be_bytes : simpl never.
#[local] Arguments put_field : simpl never.
#[local] Arguments contains : simpl never.
#[local] Arguments blen : simpl never.
#[local] Arguments MAX_CHUNK_BYTES : simpl never.

Lemma max_chunk : MAX_CHUNK_BYTES = 61353.
Proof. reflexivity. Qed.

(** * What a reader reads *)

(** A reader answers [a] exactly at the inputs that start with an encoding of [a]. *)
Record reads {A} (p : ST bytes Error A) (R : A -> bytes -> Prop) : Prop := {
  reads_fwd : forall a w rest, R a w -> p (w ++ rest) = (rest, Ok a);
  reads_bwd : forall l rest a, all_bytes l -> p l = (rest, Ok a) -> exists w, l = w ++ rest /\ R a w
}.

Section reads.
Context {A B : Type}.

Lemma reads_ext (p : ST bytes Error A) R R' : reads p R -> (forall a w, R' a w <-> R a w) -> reads p R'.
Proof.
  intros [Hf Hb] HR. split; [intros a w rest ?%HR; auto | ].
  intros l rest a Hl Hp. destruct (Hb l rest a Hl Hp) as (w & -> & Hw). exists w. split; [done | by apply HR].
Qed.

Lemma reads_codec (p : ST bytes Error A) enc ok : codec p enc ok -> reads p (fun a w => w = enc a /\ ok a).
Proof.
  intros [Hr Hc]. split; [intros a w rest [-> Ha]; auto | ]. intros l rest a Hl Hp.
  destruct (Hc l rest a Hl Hp) as [Ha ->]. by exists (enc a).
Qed.

Lemma reads_ret (a0 : A) : reads (st_ret a0) (fun a w => w = [] /\ a = a0).
Proof. split; [by intros a w rest [-> ->] | ]. intros l rest a _ [= -> ->]. by exists []. Qed.

Lemma reads_err (e : Error) : reads (st_err (A := A) e) (fun _ _ => False).
Proof. by split. Qed.

Lemma reads_if (b : bool) (p q : ST bytes Error A) R1 R2 : reads p R1 -> reads q R2 ->
  reads (if b then p else q) (fun a w => if b then R1 a w else R2 a w).
Proof. by destruct b. Qed.

Lemma reads_bind (p : ST bytes Error A) (k : A -> ST bytes Error B) Rp Rk : reads p Rp -> (forall x, reads (k x) (Rk x)) ->
  reads (st_bind p k) (fun b w => exists x w1 w2, w = w1 ++ w2 /\ Rp x w1 /\ Rk x b w2).
Proof.
  intros [Hf Hb] Hk. split.
  - intros b w rest (x & w1 & w2 & -> & Hx & Hw). unfold st_bind. rewrite <- app_assoc, (Hf x) by done. by apply (reads_fwd _ _ (Hk x)).
  - intros l rest b Hl. unfold st_bind. destruct (p l) as [l1 [x | e]] eqn:Hp; [ | done]. intros Hkl.
    destruct (Hb l l1 x Hl Hp) as (w1 & -> & Hx). apply Forall_app in Hl as [_ Hl1].
    destruct (reads_bwd _ _ (Hk x) l1 rest b Hl1 Hkl) as (w2 & -> & Hw). exists (w1 ++ w2). rewrite app_assoc. split; [done | ].
    by exists x, w1, w2.
Qed.

Lemma reads_bind_lift (r : Result A Error) (k : A -> ST bytes Error B) Rk : (forall x, reads (k x) (Rk x)) ->
  reads (st_bind (st_lift r) k) (fun b w => exists x, r = Ok x /\ Rk x b w).
Proof.
  intros Hk. split.
  - intros b w rest (x & -> & Hw). unfold st_bind, st_lift. by apply (reads_fwd _ _ (Hk x)).
  - intros l rest b Hl. unfold st_bind, st_lift. destruct r as [x | e]; [ | done]. intros Hkl.
    destruct (reads_bwd _ _ (Hk x) l rest b Hl Hkl) as (w & -> & Hw). exists w. split; [done | ]. by exists x.
Qed.

Lemma reads_lift (r : Result A Error) : reads (st_lift r) (fun a w => w = [] /\ r = Ok a).
Proof. split; [by intros a w rest [-> ->] | ]. intros l rest a _ [= -> ->]. by exists []. Qed.

End reads.

(** A sequence of values written one after another. *)
Lemma reads_all {A} n (p : ST bytes Error A) (put : A -> option bytes) (ok : A -> Prop) :
  reads p (fun a w => put a = Some w /\ ok a) ->
  reads (read_list n p) (fun l w => put_all put l = Some w /\ length l = n /\ Forall ok l).
Proof.
  intros Hp. induction n as [ | n IH]; cbn [read_list].
  - eapply reads_ext; [apply reads_ret | ]. intros l w. split.
    + intros (Hw & ->%nil_length_inv & _). cbn in Hw. by simplify_eq.
    + intros [-> ->]. done.
  - split.
    + intros [ | a l] w rest (Hw & Hl & Hall); [done | ]. apply Forall_cons in Hall as [Ha Hall]. injection Hl as Hl.
      cbn in Hw. apply bind_Some in Hw as (w1 & Hw1 & Hw). apply bind_Some in Hw as (w2 & Hw2 & [= <-]).
      unfold st_bind. rewrite <- app_assoc, (reads_fwd _ _ Hp a w1) by done. by rewrite (reads_fwd _ _ IH l w2).
    + intros raw rest l Hraw. unfold st_bind. destruct (p raw) as [l1 [a | e]] eqn:Hpa; [ | done].
      destruct (reads_bwd _ _ Hp _ _ _ Hraw Hpa) as (w1 & -> & Hw1 & Ha). apply Forall_app in Hraw as [_ Hl1].
      destruct (read_list n p l1) as [l2 [m | e]] eqn:Hpl; [ | done]. intros [= <- <-].
      destruct (reads_bwd _ _ IH _ _ _ Hl1 Hpl) as (w2 & -> & Hw2 & Hm & Hall). exists (w1 ++ w2). rewrite app_assoc.
      split; [done | ]. cbn. rewrite Hw1, Hw2. cbn. split; [done | ]. split; [by f_equal | by constructor].
Qed.

(** Read to the end. *)
Lemma r_finish_reads {A} (p : ST bytes Error A) R l a : reads p R -> all_bytes l -> (r_finish p l = Ok a <-> R a l).
Proof.
  intros [Hf Hb] Hl. unfold r_finish, read_all. split.
  - destruct (p l) as [rest [x | e]] eqn:Hp; [ | done]. case_bool_decide as Hrest; [ | done]. intros [= <-]. subst.
    destruct (Hb _ _ _ Hl Hp) as (w & -> & Hw). by rewrite app_nil_r.
  - intros Hw. specialize (Hf a l [] Hw). rewrite app_nil_r in Hf. by rewrite Hf.
Qed.

(** * The primitive readers *)

Lemma reads_u8 : reads r_u8 (fun z w => w = [z] /\ is_u8 z).
Proof. apply reads_codec, codec_u8. Qed.
Lemma reads_u16 : reads r_u16 (fun z w => w = be_bytes 2 z /\ is_u16 z).
Proof. exact (reads_codec _ _ _ (codec_uint rejected 2)). Qed.
Lemma reads_u32 : reads r_u32 (fun z w => w = be_bytes 4 z /\ is_u32 z).
Proof. exact (reads_codec _ _ _ (codec_uint rejected 4)). Qed.
Lemma reads_u64 : reads r_u64 (fun z w => w = be_bytes 8 z /\ is_u64 z).
Proof. exact (reads_codec _ _ _ (codec_uint rejected 8)). Qed.
Lemma reads_take n : reads (r_take n) (fun raw w => w = raw /\ length raw = n /\ all_bytes raw).
Proof. exact (reads_codec _ _ _ (codec_array rejected n)). Qed.

(** A byte is read before what it decides. *)
Lemma reads_bind_u8 {B} (k : Z -> ST bytes Error B) Rk : (forall x, reads (k x) (Rk x)) ->
  reads (st_bind r_u8 k) (fun b w => exists x w2, w = x :: w2 /\ is_u8 x /\ Rk x b w2).
Proof.
  intros Hk. eapply reads_ext; [apply (reads_bind _ _ _ _ reads_u8 Hk) | ]. intros b w. split.
  - intros (x & w2 & -> & Hx & Hw). by exists x, [x], w2.
  - intros (x & w1 & w2 & -> & [-> Hx] & Hw). by exists x, w2.
Qed.

(** Everything a reader made of the primitives reads. *)
Create HintDb reads discriminated.
#[export] Hint Resolve reads_u16 reads_u32 reads_u64 reads_take : reads.

Ltac reads_auto :=
  repeat first
    [ apply reads_ret | apply reads_err | apply reads_lift
    | solve [eauto with reads nocore]
    | eapply reads_bind_u8; intros ?
    | eapply reads_bind_lift; intros ?
    | eapply reads_if
    | eapply reads_bind; [ | intros ?] ].

(** The encoding is one of those a reader reads: the parts of the bytes one after another. *)
Ltac enc_eq :=
  match goal with
  | |- _ ++ _ = _ => reflexivity
  | |- ?x :: ?l = _ => exact (eq_refl ([x] ++ l))
  | |- _ => symmetry; apply app_nil_r
  end.

Ltac writes_auto :=
  repeat match goal with
  | |- _ /\ _ => split
  | |- exists x w2, _ = x :: w2 /\ _ => eexists _, _; split; [reflexivity | ]
  | |- exists x w1 w2, _ = w1 ++ w2 /\ _ => eexists _, _, _; split; [enc_eq | ]
  | |- exists x, _ = Ok x /\ _ => eexists; split; [first [eassumption | reflexivity] | ]
  | |- put_field _ = Some _ => eassumption
  | |- if ?b then _ else _ => first [change b with true; cbv iota | change b with false; cbv iota]
  | |- if ?x >? ?y then _ else _ => destruct (Z.gtb_spec x y); [lia | ]
  | |- ?x = _ => reflexivity
  | |- is_uint _ _ => unfold is_uint, MAX_FILE_MODE, MAX_PTY_WAIT_MILLIS in *; rewrite ?max_chunk in *; lia
  end.

Lemma reads_field maximum : maximum <= U16_MAX ->
  reads (r_field maximum) (fun raw w => put_field raw = Some w /\ blen raw <= maximum /\ all_bytes raw).
Proof.
  intros Hmax. unfold r_field. eapply reads_ext; [reads_auto | ]. intros raw w. unfold put_field, blen. split.
  - intros (Hw & Hlen & Hraw). destruct (Z.leb_spec (Z.of_nat (length raw)) U16_MAX); simplify_eq.
    eexists _, _, _. split; [reflexivity | ]. split; [split; [done | unfold is_uint, U16_MAX in *; lia] | ].
    replace (Z.of_nat (length raw) >? maximum) with false by lia. by rewrite Nat2Z.id.
  - intros (z & w1 & w2 & -> & [-> Hz] & Hw). destruct (Z.gtb_spec z maximum); [done | ]. destruct Hw as (-> & Hlen & Hraw).
    unfold is_uint in Hz. rewrite Hlen, Z2Nat.id by lia. replace (z <=? U16_MAX) with true by lia. done.
Qed.

Lemma reads_flag : reads r_flag (fun b w => w = [u8_of_bool b]).
Proof.
  unfold r_flag. eapply reads_ext; [reads_auto | ]. intros b w. split.
  - intros ->. exists (u8_of_bool b), []. by destruct b.
  - intros (x & w2 & -> & Hx & Hw). destruct (Z.eqb_spec x 0), (Z.eqb_spec x 1); subst; naive_solver.
Qed.

#[export] Hint Resolve reads_flag : reads.
#[export] Hint Extern 1 (reads (r_field _) _) => apply reads_field; vm_compute; discriminate : reads.
#[export] Hint Extern 1 (reads (read_list _ _) _) => apply reads_all : reads.

(** Reading back: the parts the reader took are the parts of an encoding. *)
Ltac reads_inv :=
  repeat match goal with
  | H : False |- _ => destruct H
  | H : exists _, _ |- _ => destruct H
  | H : _ /\ _ |- _ => destruct H
  | H : if ?x =? ?n then _ else _ |- _ => destruct (Z.eqb_spec x n)
  | H : if ?x >? ?n then _ else _ |- _ => destruct (Z.gtb_spec x n)
  | H : if ?b then _ else _ |- _ => destruct b eqn:?
  | u : unit |- _ => destruct u
  end; subst.

#[local] Opaque be_bytes put_field MAX_CHUNK_BYTES.

(** The value read is a value the encoder writes as the bytes read. *)
Ltac reads_done :=
  cbn; repeat match goal with H : put_field _ = _ |- _ => rewrite H; clear H | H : put_all _ _ = _ |- _ => rewrite H; clear H end;
  cbn; rewrite ?app_nil_r;
  unfold is_uint in *; repeat first [assumption | split]; first [done | lia].

(** * Filesystem requests *)

Lemma reads_path : reads read_path (fun path w => put_field path = Some w /\ check_path path = Ok tt /\ all_bytes path).
Proof.
  unfold read_path. eapply reads_ext; [reads_auto | ]. intros path w. split.
  - intros (Hw & Hc & Hb). writes_auto; [ | done].
    revert Hc. unfold check_path. destruct (Z.gtb_spec (blen path) MAX_PATH_BYTES); [by rewrite orb_true_r | lia].
  - intros H. reads_inv. rewrite app_nil_r. done.
Qed.

Lemma reads_mode : reads read_mode (fun mode w => w = be_bytes 4 mode /\ 0 <= mode <= MAX_FILE_MODE).
Proof.
  unfold read_mode, check_mode. eapply reads_ext; [reads_auto | ]. intros mode w. split.
  - intros [-> Hm]. assert (mode >? MAX_FILE_MODE = false) as Hgt by lia. writes_auto. rewrite Hgt. by writes_auto.
  - intros H. reads_inv. rewrite app_nil_r. match goal with H : (if ?b then _ else _) = _ |- _ => destruct b eqn:? end; [done | ]. unfold is_uint in *. split; [done | lia].
Qed.

#[export] Hint Resolve reads_path reads_mode : reads.

(** A request this protocol carries. *)
Definition file_ok (r : FileRequest) : Prop :=
  (check_path (request_path r) = Ok tt /\ all_bytes (request_path r)) /\
  match r with
  | File_Read _ offset length => is_u64 offset /\ 0 <= length <= MAX_CHUNK_BYTES
  | File_Write _ offset _ _ raw => is_u64 offset /\ blen raw <= MAX_CHUNK_BYTES /\ all_bytes raw
  | File_ReadDirectory _ offset => is_u32 offset
  | File_Create _ mode | File_SetMode _ mode => 0 <= mode <= MAX_FILE_MODE
  | _ => True
  end.

Lemma reads_file : reads file_fields (fun r w => file_encode r = Some w /\ file_ok r).
Proof.
  unfold file_fields. eapply reads_ext; [reads_auto | ]. intros r w. split.
  - intros (Hw & (Hp & Hb) & Hr). unfold file_encode in Hw. apply bind_Some in Hw as (path & Hpath & Hw).
    destruct r; cbn in *; try (apply bind_Some in Hw as (field & Hfield & Hw)); injection Hw as <-; writes_auto; first [done | lia | tauto].
  - intros H. reads_inv. all: unfold file_encode, file_ok; cbn [request_path].
    all: reads_done.
Qed.

Lemma file_decode_spec body r : all_bytes body -> (file_decode body = Ok r <-> file_encode r = Some body /\ file_ok r).
Proof.
  intros Hb. unfold file_decode. rewrite bind_Ok. split.
  - intros (x & Hx & Hp). apply (r_finish_reads _ _ _ _ reads_file Hb) in Hx. destruct (check_path _); by simplify_eq.
  - intros Hr. exists r. split; [by apply (r_finish_reads _ _ _ _ reads_file Hb) | ]. destruct Hr as (_ & (-> & _) & _). done.
Qed.

(** * Filesystem outcomes *)

Lemma entry_parse_spec value k : entry_parse value = Ok k <-> value = entry_code k.
Proof.
  unfold entry_parse. repeat (case_match; zbool; subst; [destruct k; naive_solver | ]). destruct k; cbn; naive_solver lia.
Qed.

Lemma failure_parse_spec value k : failure_parse value = Ok k <-> value = failure_code k.
Proof.
  unfold failure_parse. repeat (case_match; zbool; subst; [destruct k; naive_solver | ]). destruct k; cbn; naive_solver lia.
Qed.

(** The value behind a code that was accepted. *)
Ltac parse_inv :=
  zbool; repeat match goal with
  | H : bool_decide _ = false |- _ => apply bool_decide_eq_false in H
  | H : entry_parse _ = Ok _ |- _ => apply entry_parse_spec in H; subst
  | H : failure_parse _ = Ok _ |- _ => apply failure_parse_spec in H; subst
  end.

Definition entry_ok (e : DirectoryEntry) : Prop :=
  blen (entry_name e) <= MAX_PATH_BYTES /\ all_bytes (entry_name e) /\
  entry_name e <> [] /\ contains SLASH (entry_name e) = false /\ contains NUL (entry_name e) = false.

Lemma reads_entry : reads read_entry (fun e w => put_entry e = Some w /\ entry_ok e).
Proof.
  unfold read_entry. eapply reads_ext; [reads_auto | ]. intros [name kind] w. unfold entry_ok; cbn. split.
  - intros (Hw & Hlen & Hb & Hn & Hs & Hz). apply bind_Some in Hw as (field & Hf & [= <-]).
    assert (entry_parse (entry_code kind) = Ok kind) as Hk by by apply entry_parse_spec.
    cbn in Hf. writes_auto; try done; [by destruct kind | ]. rewrite bool_decide_eq_false_2, Hs, Hz by done. by writes_auto.
  - intros H. reads_inv. simplify_eq. parse_inv. unfold put_entry; cbn. reads_done.
Qed.

#[export] Hint Extern 1 (reads (read_list _ read_entry) _) => apply (reads_all _ _ _ _ reads_entry) : reads.

Definition outcome_ok (o : FileOutcome) : Prop :=
  match o with
  | Out_Read raw _ => blen raw <= MAX_CHUNK_BYTES /\ all_bytes raw
  | Out_Written count => is_u64 count
  | Out_Listed entries _ => Z.of_nat (length entries) <= MAX_ENTRIES /\ Forall entry_ok entries
  | _ => True
  end.

Lemma reads_outcome : reads outcome_fields (fun o w => outcome_encode o = Some w /\ outcome_ok o).
Proof.
  unfold outcome_fields. eapply reads_ext; [reads_auto | ]. intros o w. split.
  - intros [Hw Ho]. destruct o as [ | | entries more | [[] | ] | | []]; cbn in *.
    all: try (apply bind_Some in Hw as (field & Hfield & Hw)).
    3: rewrite Z.min_r in Hw by (unfold U32_MAX, MAX_ENTRIES in *; lia).
    all: injection Hw as <-; writes_auto; try first [done | lia | tauto].
    unfold is_uint, MAX_ENTRIES in *. lia.
  - intros H. reads_inv; simplify_eq; parse_inv; try solve [reads_done].
    match goal with H : length ?l = Z.to_nat ?n |- _ => replace n with (Z.of_nat (length l)) in * by (unfold is_uint in *; lia) end.
    cbn [outcome_encode outcome_ok]. rewrite Z.min_r by (unfold U32_MAX, MAX_ENTRIES in *; lia). reads_done.
Qed.

(** * Terminals *)

Definition size_ok (s : PtySize) : Prop := 1 <= columns s <= MAX_PTY_COLUMNS /\ 1 <= rows s <= MAX_PTY_ROWS.

Lemma size_new_spec c r s : is_u16 c -> is_u16 r ->
  (map_err (fun _ => rejected) (size_new c r) = Ok s <-> s = mkPtySize c r /\ size_ok s).
Proof.
  unfold is_uint, size_ok, size_new. intros Hc Hr. rewrite map_err_Ok.
  destruct (Z.eqb_spec c 0), (Z.eqb_spec r 0), (Z.gtb_spec c MAX_PTY_COLUMNS), (Z.gtb_spec r MAX_PTY_ROWS); cbn; split;
    intros Hs; simplify_eq; try (destruct Hs as (-> & ? & ?); cbn in *; first [lia | done]); cbn; split; first [done | lia].
Qed.

Lemma reads_size : reads read_size (fun s w => w = put_size s /\ size_ok s).
Proof.
  unfold read_size, put_size. eapply reads_ext; [reads_auto | ]. intros [c r] w. cbn [columns rows]. split.
  - intros [-> Hs]. assert (is_u16 c /\ is_u16 r) as [Hc Hr] by (unfold is_uint, size_ok, MAX_PTY_COLUMNS, MAX_PTY_ROWS in *; cbn in *; lia).
    writes_auto; try done. by apply size_new_spec.
  - intros H. reads_inv. match goal with H : map_err _ _ = Ok _ |- _ => apply size_new_spec in H as [[= -> ->] ?]; [ | done | done] end.
    by rewrite app_nil_r.
Qed.

#[export] Hint Resolve reads_size : reads.

Definition pty_ok (r : PtyRequest) : Prop :=
  match r with
  | Pty_Open size | Pty_Resize size => size_ok size
  | Pty_Write raw => blen raw <= MAX_PTY_CHUNK_BYTES /\ all_bytes raw
  | Pty_Read wait_millis => 0 <= wait_millis <= MAX_PTY_WAIT_MILLIS
  | Pty_Close => True
  end.

Lemma reads_pty : reads pty_fields (fun r w => pty_encode r = Some w /\ pty_ok r).
Proof.
  unfold pty_fields. eapply reads_ext; [reads_auto | ]. intros r w. split.
  - intros [Hw Hr]. destruct r; cbn in *; try (apply bind_Some in Hw as (field & Hfield & Hw)); injection Hw as <-;
      writes_auto; first [done | lia | tauto].
  - intros H. reads_inv; simplify_eq; reads_done.
Qed.

Lemma pty_failure_parse_spec value k : pty_failure_parse value = Ok k <-> value = pty_failure_code k.
Proof.
  unfold pty_failure_parse. repeat (case_match; zbool; subst; [destruct k; naive_solver | ]). destruct k; cbn; naive_solver lia.
Qed.

Definition pty_outcome_ok (o : PtyOutcome) : Prop :=
  match o with
  | PtyOut_Opened size | PtyOut_Resized size => size_ok size
  | PtyOut_Wrote count => is_u32 count
  | PtyOut_Output raw _ => blen raw <= MAX_PTY_CHUNK_BYTES /\ all_bytes raw
  | _ => True
  end.

Lemma reads_pty_outcome : reads pty_outcome_fields (fun o w => pty_outcome_encode o = Some w /\ pty_outcome_ok o).
Proof.
  unfold pty_outcome_fields. eapply reads_ext; [reads_auto | ]. intros o w. split.
  - intros [Hw Hr]. destruct o as [ | | | | | []]; cbn in *; try (apply bind_Some in Hw as (field & Hfield & Hw)); injection Hw as <-;
      writes_auto; first [done | lia | tauto].
  - intros H. reads_inv; simplify_eq;
      repeat match goal with H : pty_failure_parse _ = Ok _ |- _ => apply pty_failure_parse_spec in H; subst end; reads_done.
Qed.

(** * Terminal reports *)

Lemma within_true low z high : low <= z <= high -> within low z high = true.
Proof. unfold within. intros. by rewrite !(proj2 (Z.leb_le _ _)) by lia. Qed.

Lemma status_fields_spec status kind detail : status_from_fields kind detail = Ok status <-> status_fields status = Ok (kind, detail).
Proof.
  unfold status_from_fields. split.
  - intros H. repeat (case_match; zbool; subst; [simplify_eq; cbn; unfold within in *; zbool; rewrite ?(proj2 (Z.leb_le _ _)) by lia; done | ]). done.
  - destruct status; cbn; try case_match; intros; simplify_eq; cbn; by try match goal with H : within _ _ _ = true |- _ => rewrite H end.
Qed.

Lemma reads_i32 : reads r_i32 (fun z w => w = i32_bytes z /\ - 2 ^ 31 <= z < 2 ^ 31).
Proof.
  unfold r_i32, i32_bytes. eapply reads_ext; [reads_auto | ]. intros z w. split.
  - intros [-> Hz]. pose proof (Z.mod_pos_bound z (2 ^ 32) ltac:(lia)) as Hm. writes_auto.
    destruct (Z.geb_spec (z mod 2 ^ 32) (2 ^ 31)); pose proof (Z.div_mod z (2 ^ 32) ltac:(lia)); nia.
  - intros H. reads_inv. rewrite app_nil_r. unfold is_uint in *. destruct (Z.geb_spec x (2 ^ 31)).
    + split; [ | lia]. f_equal. rewrite <- (Z.mod_small x (2 ^ 32)) at 1 by lia.
      replace x with (x - 2 ^ 32 + 1 * 2 ^ 32) at 1 by lia. by rewrite Z_mod_plus_full.
    + split; [ | lia]. by rewrite Z.mod_small by lia.
Qed.

#[export] Hint Resolve reads_i32 : reads.
#[local] Opaque i32_bytes.

Definition report_ok (r : TerminalReport) : Prop :=
  0 <= stdout_bytes r /\ 0 <= stderr_bytes r /\ stdout_bytes r + stderr_bytes r <= MAX_OUTPUT_BYTES.

Lemma report_new_spec status out err r : is_u32 out -> is_u32 err ->
  (report_new status out err = Ok r <-> r = mkTerminalReport status out err /\ is_ok (status_fields status) = true /\ report_ok r).
Proof.
  unfold is_uint, report_ok, report_new. intros Ho He. destruct (status_fields status); [ | naive_solver].
  unfold checked_add_u64. replace (out + err <=? U64_MAX) with true by (unfold U64_MAX; lia). cbn.
  destruct (Z.gtb_spec (out + err) MAX_OUTPUT_BYTES); split; intros Hr; try (destruct Hr as (-> & _ & Hr); cbn in *; first [done | lia]); simplify_eq; cbn; repeat split; first [done | lia].
Qed.

Lemma reads_report : reads report_fields (fun '(kind, detail, out, err) w =>
  w = kind :: zeroes 3 ++ i32_bytes detail ++ be_bytes 4 out ++ be_bytes 4 err /\
  is_u8 kind /\ - 2 ^ 31 <= detail < 2 ^ 31 /\ is_u32 out /\ is_u32 err).
Proof.
  unfold report_fields. eapply reads_ext; [reads_auto | ]. intros [[[kind detail] out] err] w. split.
  - intros (-> & Hk & Hd & Ho & He). eexists _, _. split; [reflexivity | ]. split; [done | ].
    exists (zeroes 3), (zeroes 3). eexists. split; [reflexivity | ].
    split; [split; [done | split; [done | repeat constructor; done]] | ]. writes_auto; first [done | tauto].
  - intros H. reads_inv. simplify_eq. zbool. rewrite app_nil_r. repeat first [assumption | split]; [ | done..].
    do 2 f_equal. destruct x1 as [ | a [ | b [ | c [ | ? ?]]]]; try done. cbn in *. zbool. by subst.
Qed.

Lemma status_fields_range status kind detail : status_fields status = Ok (kind, detail) -> is_u8 kind /\ - 2 ^ 31 <= detail < 2 ^ 31.
Proof. destruct status; cbn; unfold within; try case_match; zbool; intros; simplify_eq; unfold is_uint; lia. Qed.

Lemma report_decode_spec body r : all_bytes body -> (report_decode body = Ok r <-> report_encode r = Ok body /\ report_ok r).
Proof.
  intros Hb. unfold report_decode, report_encode. split.
  - rewrite bind_Ok. intros ([[[kind detail] out] err] & Hf & Hr). apply (r_finish_reads _ _ _ _ reads_report Hb) in Hf as (-> & Hk & Hd & Ho & He).
    apply bind_Ok in Hr as (status & Hs%status_fields_spec & Hr). apply map_err_Ok, report_new_spec in Hr as (-> & _ & Hok); [ | done | done].
    cbn. by rewrite Hs.
  - intros [Hw Hok]. destruct r as [status out err]. cbn in Hw. destruct (status_fields status) as [[kind detail] | ] eqn:Hs; simplify_eq.
    destruct (status_fields_range _ _ _ Hs). assert (is_u32 out /\ is_u32 err) as [Ho He].
    { unfold report_ok, is_uint in *. cbn in Hok. unfold MAX_OUTPUT_BYTES in Hok. lia. }
    rewrite (proj2 (r_finish_reads _ _ _ (kind, detail, out, err) reads_report Hb)) by done.
    rewrite (proj2 (status_fields_spec status kind detail) Hs). apply map_err_Ok, report_new_spec; [done | done | ]. by rewrite Hs.
Qed.

(** * Commands *)

Lemma push_count_Some n w : push_count n = Some w <-> Z.of_nat n <= U16_MAX /\ w = be_bytes 2 (Z.of_nat n).
Proof. unfold push_count. destruct (Z.leb_spec (Z.of_nat n) U16_MAX); naive_solver lia. Qed.

(** A count of at most [maximum], then that many values. *)
Lemma reads_counted {A} maximum (p : ST bytes Error A) (put : A -> option bytes) (ok : A -> Prop) : maximum <= U16_MAX ->
  reads p (fun a w => put a = Some w /\ ok a) ->
  forall B (k : list A -> ST bytes Error B) Rk, (forall l, reads (k l) (Rk l)) ->
  reads (count <-- r_u16 ;; if count >? maximum then st_err rejected else l <-- read_list (Z.to_nat count) p ;; k l)
    (fun b w => exists l w1 w2 w3, w = w1 ++ w2 ++ w3 /\ push_count (length l) = Some w1 /\ put_all put l = Some w2 /\
       Z.of_nat (length l) <= maximum /\ Forall ok l /\ Rk l b w3).
Proof.
  intros Hmax Hp B k Rk Hk. pose proof (fun n => reads_all n p put ok Hp) as Hall.
  eapply reads_ext; [eapply reads_bind; [apply reads_u16 | intros count; eapply reads_if; [apply reads_err | eapply reads_bind; [apply Hall | apply Hk]]] | ].
  intros b w. split.
  - intros (l & w1 & w2 & w3 & -> & [? ->]%push_count_Some & Hw2 & Hlen & Hok & Hw3). eexists _, _, _. split; [reflexivity | ].
    split; [split; [reflexivity | unfold is_uint, U16_MAX in *; lia] | ]. destruct (Z.gtb_spec (Z.of_nat (length l)) maximum); [lia | ].
    exists l, w2, w3. rewrite Nat2Z.id. done.
  - intros (count & w1 & w' & -> & [-> Hc] & Hw). destruct (Z.gtb_spec count maximum); [done | ].
    destruct Hw as (l & w2 & w3 & -> & (Hw2 & Hlen & Hok) & Hw3). unfold is_uint in Hc.
    exists l, (be_bytes 2 count), w2, w3. rewrite push_count_Some. replace (Z.of_nat (length l)) with count by lia.
    repeat first [assumption | split]; first [done | lia].
Qed.

Definition field_ok (maximum : Z) (raw : bytes) : Prop := blen raw <= maximum /\ all_bytes raw.

Lemma reads_optional maximum : maximum <= U16_MAX ->
  reads (read_optional maximum) (fun o w => push_optional o = Some w /\ match o with Some raw => field_ok maximum raw /\ raw <> [] | None => True end).
Proof.
  intros Hmax. unfold read_optional. eapply reads_ext.
  { eapply reads_bind_u8; intros b. eapply reads_if; [apply reads_ret | ]. eapply reads_if; [ | apply reads_err].
    eapply reads_bind; [by apply reads_field | intros raw; eapply reads_if; [apply reads_err | apply reads_ret]]. }
  intros o w. unfold field_ok. split.
  - intros [Hw Ho]. destruct o as [raw | ]; cbn in *; try (apply bind_Some in Hw as (field & Hfield & Hw)); injection Hw as <-.
    + destruct Ho as [[? ?] Hne]. writes_auto; try done. rewrite bool_decide_eq_false_2 by done. by writes_auto.
    + by writes_auto.
  - intros H. reads_inv; simplify_eq; parse_inv; reads_done.
Qed.

Definition put_pair (pair : bytes * bytes) : option bytes := name ← put_field pair.1; value ← put_field pair.2; Some (name ++ value).

Lemma reads_pair : reads (name <-- r_field MAX_FIELD_BYTES ;; value <-- r_field MAX_FIELD_BYTES ;; st_ret (name, value))
  (fun pair w => put_pair pair = Some w /\ field_ok MAX_FIELD_BYTES pair.1 /\ field_ok MAX_FIELD_BYTES pair.2).
Proof.
  eapply reads_ext; [reads_auto | ]. intros [name value] w. unfold put_pair, field_ok. cbn [fst snd]. split.
  - intros (Hw & [? ?] & ? & ?). apply bind_Some in Hw as (n & Hn & Hw). apply bind_Some in Hw as (v & Hv & [= <-]). by writes_auto.
  - intros H. reads_inv. simplify_eq. reads_done.
Qed.

Definition context_of (c : GuestCommand) : CommandContext := mkCommandContext (environment c) (working_directory c) (user c) (stdin c).

Definition command_of (fields : bytes * list bytes * Z * Z * CommandContext) : GuestCommand :=
  let '(program, arguments, timeout_millis, output_bytes, cx) := fields in
  mkGuestCommand program arguments timeout_millis output_bytes (cx_environment cx) (cx_working_directory cx) (cx_user cx) (cx_stdin cx).

(** The fields are bounded as a reader bounds them. *)
Definition fields_ok (c : GuestCommand) : Prop :=
  is_u32 (timeout_millis c) /\ is_u64 (output_bytes c) /\ field_ok MAX_FIELD_BYTES (program c) /\
  (Z.of_nat (length (arguments c)) <= MAX_ARGUMENTS /\ Forall (field_ok MAX_FIELD_BYTES) (arguments c)) /\
  (Z.of_nat (length (environment c)) <= MAX_ENVIRONMENT /\
   Forall (fun pair => field_ok MAX_FIELD_BYTES pair.1 /\ field_ok MAX_FIELD_BYTES pair.2) (environment c)) /\
  match working_directory c with Some raw => field_ok MAX_FIELD_BYTES raw /\ raw <> [] | None => True end /\
  match user c with Some raw => field_ok MAX_USER_BYTES raw /\ raw <> [] | None => True end /\
  field_ok MAX_STDIN_BYTES (stdin c).

Lemma reads_command : reads command_fields (fun fields w => command_encode (command_of fields) = Some w /\ fields_ok (command_of fields)).
Proof.
  unfold command_fields, decode_context. eapply reads_ext.
  { eapply reads_bind; [apply reads_u32 | intros t]. eapply reads_bind; [apply reads_u64 | intros o].
    eapply reads_bind; [apply reads_field; vm_compute; discriminate | intros p].
    eapply (reads_counted _ _ put_field (field_ok MAX_FIELD_BYTES)); [vm_compute; discriminate | apply reads_field; vm_compute; discriminate | intros l].
    eapply reads_bind; [ | intros cx; apply reads_ret].
    eapply (reads_counted MAX_ENVIRONMENT _ put_pair _); [vm_compute; discriminate | apply reads_pair | intros env].
    eapply reads_bind; [apply reads_optional; vm_compute; discriminate | intros dir].
    eapply reads_bind; [apply reads_optional; vm_compute; discriminate | intros usr].
    eapply reads_bind; [apply reads_field; vm_compute; discriminate | intros inp]. apply reads_ret. }
  intros [[[[p l] t] o] [env dir usr inp]] w. unfold fields_ok, command_encode. cbn. fold put_pair. split.
  - intros [Hw (Ht & Ho & [? ?] & [? ?] & [? ?] & ? & ? & ? & ?)].
    repeat match type of Hw with mbind _ _ = Some _ => apply bind_Some in Hw as (? & ? & Hw) end. injection Hw as <-.
    do 3 (eexists _, _, _; split; [reflexivity | ]; split; [done | ]).
    eexists _, _, _, _. split; [reflexivity | ]. repeat (split; [eassumption | ]).
    eexists _, _, []. split; [symmetry; apply app_nil_r | ]. split; [ | done].
    eexists _, _, _, _. split; [reflexivity | ]. repeat (split; [eassumption | ]).
    by writes_auto.
  - intros H. reads_inv. simplify_eq. rewrite !app_nil_r.
    repeat match goal with H : _ = Some _ |- _ => rewrite H; clear H end. cbn. repeat first [assumption | split].
Qed.

(** A command the constructors build, of bytes and unsigned numbers. *)
Definition command_ok (c : GuestCommand) : Prop :=
  fields_ok c /\
  (let? command := command_new (program c) (arguments c) (timeout_millis c) (output_bytes c) in with_context command (context_of c)) = Ok c.

Lemma command_build p l t o cx c :
  (let? command := command_new p l t o in with_context command cx) = Ok c -> c = command_of (p, l, t, o, cx).
Proof.
  destruct cx as [env dir usr inp]. cbn. intros H. apply bind_Ok in H as (c0 & Hc0 & Hc).
  unfold command_new in Hc0. repeat (case_match; try done). simplify_eq. unfold with_context, into_checked_parts in Hc. cbn in Hc.
  repeat (case_match; try done). by simplify_eq.
Qed.

Lemma command_decode_spec body c : all_bytes body -> (command_decode body = Ok c <-> command_encode c = Some body /\ command_ok c).
Proof.
  intros Hb. unfold command_decode, command_ok. rewrite bind_Ok. split.
  - intros ([[[[p l] t] o] cx] & Hf & Hc). apply map_err_Ok in Hc. apply (r_finish_reads _ _ _ _ reads_command Hb) in Hf as [Hw Hok].
    pose proof (command_build _ _ _ _ _ _ Hc) as ->. destruct cx. done.
  - intros (Hw & Hok & Hc). exists (program c, arguments c, timeout_millis c, output_bytes c, context_of c). destruct c.
    split; [ | by apply map_err_Ok]. by apply (r_finish_reads _ _ _ _ reads_command Hb).
Qed.

(** ** The encoding is as long as [encoded_size] says *)

Lemma blen_app a b : blen (a ++ b) = blen a + blen b.
Proof. unfold blen. rewrite length_app. lia. Qed.

Lemma blen_be n z : blen (be_bytes n z) = Z.of_nat n.
Proof. unfold blen. by rewrite length_be_bytes. Qed.

Lemma blen_nonneg l : 0 <= blen l.
Proof. unfold blen. lia. Qed.

Lemma blen_cons x l : blen (x :: l) = 1 + blen l.
Proof. unfold blen. cbn [length]. lia. Qed.

#[local] Transparent put_field.
Lemma put_field_Some raw w : put_field raw = Some w <-> blen raw <= U16_MAX /\ w = be_bytes 2 (blen raw) ++ raw.
Proof. unfold put_field. destruct (Z.leb_spec (blen raw) U16_MAX); naive_solver lia. Qed.
#[local] Opaque put_field.

Lemma put_field_size raw w : put_field raw = Some w -> blen w = field_size raw.
Proof. intros [_ ->]%put_field_Some. by rewrite blen_app, blen_be. Qed.

Lemma put_field_is_Some raw : blen raw <= U16_MAX -> exists w, put_field raw = Some w.
Proof. intros. eexists. by apply put_field_Some. Qed.

Lemma put_all_size {A} (put : A -> option bytes) size l w : (forall a w, put a = Some w -> blen w = size a) ->
  put_all put l = Some w -> blen w = sum_sizes size l.
Proof.
  intros Hs. revert w. induction l as [ | a l IH]; cbn; intros w Hw; [by simplify_eq | ].
  apply bind_Some in Hw as (w1 & Hw1 & Hw). apply bind_Some in Hw as (w2 & Hw2 & [= <-]). rewrite blen_app, (Hs a w1), (IH w2) by done. done.
Qed.

Lemma put_all_is_Some {A} (put : A -> option bytes) (ok : A -> Prop) l : (forall a, ok a -> is_Some (put a)) -> Forall ok l -> is_Some (put_all put l).
Proof.
  intros Hp. induction 1 as [ | a l Ha Hl [w2 IH]]; [by eexists | ]. cbn. destruct (Hp a Ha) as [w1 ->]. cbn. rewrite IH. cbn. by eexists.
Qed.

Lemma command_size c w : command_encode c = Some w -> blen w = encoded_size c.
Proof.
  unfold command_encode, encoded_size, FIXED_BODY_SIZE. intros Hw.
  repeat match type of Hw with mbind _ _ = Some _ => apply bind_Some in Hw as (? & ? & Hw) end. injection Hw as <-.
  rewrite !blen_app, !blen_be.
  rewrite (put_field_size (program c) x), (put_field_size (stdin c) x6) by done.
  rewrite (put_all_size put_field field_size (arguments c) x1) by eauto using put_field_size.
  rewrite (put_all_size put_pair (fun pair => field_size pair.1 + field_size pair.2) (environment c) x3);
    [ | intros [? ?] ? Hp; apply bind_Some in Hp as (? & ?%put_field_size & Hp); apply bind_Some in Hp as (? & ?%put_field_size & [= <-]); rewrite blen_app; cbn in *; lia | done].
  assert (forall o w, push_optional o = Some w -> blen w = 1 + match o with Some raw => field_size raw | None => 0 end) as Ho.
  { intros [raw | ] w' Hp; cbn in Hp; [apply bind_Some in Hp as (? & ?%put_field_size & [= <-]); rewrite blen_cons; lia | by simplify_eq]. }
  rewrite (Ho (working_directory c) x4), (Ho (user c) x5) by done.
  repeat match goal with H : push_count _ = Some _ |- _ => apply push_count_Some in H as [_ ->]; rewrite blen_be end. unfold field_size. lia.
Qed.

Lemma command_is_Some c : fields_ok c -> is_Some (command_encode c).
Proof.
  intros (_ & _ & [Hp _] & [Hl Hargs] & [He Henv] & Hd & Hu & [Hs _]). unfold command_encode.
  assert (forall raw, field_ok MAX_FIELD_BYTES raw -> is_Some (put_field raw)) as Hf.
  { intros raw [? _]. apply put_field_is_Some. unfold MAX_FIELD_BYTES, U16_MAX in *. lia. }
  assert (forall max o, max <= U16_MAX -> match o with Some raw => field_ok max raw /\ raw <> [] | None => True end -> is_Some (push_optional o)) as Ho.
  { intros max [raw | ] ? Hraw; cbn in *; [ | by eexists]. destruct (put_field_is_Some raw) as [w ->]; [destruct Hraw as [[? ?] ?]; lia | by eexists]. }
  destruct (put_field_is_Some (program c)) as [w1 ->]; [unfold MAX_FIELD_BYTES, U16_MAX in *; lia | ]. cbn.
  rewrite (proj2 (push_count_Some (length (arguments c)) _)) by (split; [unfold MAX_ARGUMENTS, U16_MAX in *; lia | done]). cbn.
  destruct (put_all_is_Some put_field _ _ Hf Hargs) as [w2 ->]. cbn.
  rewrite (proj2 (push_count_Some (length (environment c)) _)) by (split; [unfold MAX_ENVIRONMENT, U16_MAX in *; lia | done]). cbn.
  apply (put_all_is_Some put_pair) in Henv as [w3 Hw3];
    [ | intros [n v] [Hn Hv]; unfold put_pair; destruct (Hf _ Hn) as [? ->], (Hf _ Hv) as [? ->]; by eexists].
  unfold put_pair in Hw3. rewrite Hw3. cbn.
  apply Ho in Hd as [w4 ->]; [ | vm_compute; discriminate]. apply Ho in Hu as [w5 ->]; [ | vm_compute; discriminate]. cbn.
  destruct (put_field_is_Some (stdin c)) as [w6 ->]; [unfold MAX_STDIN_BYTES, U16_MAX in *; lia | ]. by eexists.
Qed.

Lemma command_fits c : command_ok c -> encoded_size c <= MAX_BODY_SIZE.
Proof.
  intros [_ Hc]. apply bind_Ok in Hc as (c0 & _ & Hc). unfold with_context in Hc. apply bind_Ok in Hc as (parts & _ & Hc).
  apply bind_Ok in Hc as ([] & Hs & [= <-]). unfold check_encoded_size in Hs. by destruct (Z.gtb_spec (encoded_size (mkGuestCommand (program c0) (arguments c0) (timeout_millis c0) (output_bytes c0) (cx_environment parts) (cx_working_directory parts) (cx_user parts) (cx_stdin parts))) MAX_BODY_SIZE).
Qed.

(** * Frames *)

Lemma kind_parse_spec value k : kind_parse value = Ok k <-> value = kind_code k.
Proof.
  unfold kind_parse. repeat (case_match; zbool; subst; [destruct k; naive_solver | ]). destruct k; cbn; naive_solver lia.
Qed.

Definition operation_ok (operation : bytes) : Prop := length operation = 16%nat /\ all_bytes operation /\ all_zero operation = false.

Definition frame_wire (k : Kind) (operation body : bytes) : bytes :=
  MAGIC ++ be_bytes 2 VERSION ++ [kind_code k] ++ [0] ++ be_bytes 2 0 ++ operation ++ be_bytes 2 (blen body) ++ body.

Lemma reads_frame : reads frame_fields (fun f w => w = frame_wire (frame_kind f) (frame_operation f) (frame_body f) /\
  operation_ok (frame_operation f) /\ blen (frame_body f) <= U16_MAX /\ all_bytes (frame_body f)).
Proof.
  unfold frame_fields. eapply reads_ext; [reads_auto | ]. intros [k operation body] w. unfold frame_wire, operation_ok. cbn [frame_kind frame_operation frame_body]. split.
  - intros (-> & (Hl & Ho & Hz) & Hlen & Hb). pose proof (blen_nonneg body).
    assert (kind_parse (kind_code k) = Ok k) as Hk by by apply kind_parse_spec.
    assert (map_err (fun _ => rejected) (operation_new operation) = Ok operation) as Hop by (unfold operation_new; by rewrite Hz).
    eexists MAGIC, _, _. split; [reflexivity | ]. split; [split; [done | split; [done | repeat constructor; done]] | ]. cbn [negb bool_decide].
    rewrite bool_decide_eq_true_2 by done. cbn [negb]. eexists VERSION, _, _. split; [reflexivity | ]. split; [done | ]. cbn [Z.eqb VERSION Pos.eqb negb].
    eexists _, _. split; [reflexivity | ]. split; [by destruct k | ]. eexists. split; [eassumption | ]. eexists _, _. split; [reflexivity | ]. split; [done | ].
    cbn [Z.eqb negb]. eexists 0, _, _. split; [reflexivity | ]. split; [done | ]. cbn [Z.eqb negb]. eexists _, _, _. split; [reflexivity | ].
    split; [split; [reflexivity | done] | ]. eexists. split; [eassumption | ]. eexists _, _, _. split; [reflexivity | ].
    split; [split; [reflexivity | unfold is_uint, U16_MAX in *; lia] | ]. eexists _, _, []. split; [symmetry; apply app_nil_r | ].
    split; [ | done]. split; [done | ]. split; [unfold blen; by rewrite Nat2Z.id | done].
  - intros H. reads_inv. simplify_eq. zbool. subst.
    repeat match goal with
    | H : bool_decide _ = true |- _ => apply bool_decide_eq_true in H; subst
    | H : kind_parse _ = Ok _ |- _ => apply kind_parse_spec in H; subst
    | H : map_err _ _ = Ok _ |- _ => apply map_err_Ok in H; unfold operation_new in H
    | H : (if all_zero ?o then _ else _) = Ok _ |- _ => destruct (all_zero o) eqn:?; simplify_eq
    | H : length ?l = Z.to_nat ?n |- _ => assert (n = blen l) by (unfold is_uint, blen in *; lia); subst n; clear H
    end.
    rewrite app_nil_r. unfold is_uint, U16_MAX in *. repeat first [assumption | split]; first [done | lia].
Qed.

Lemma frame_encode_Ok k operation body l :
  frame_encode k operation body = Ok l <-> blen body <= MAX_BODY_SIZE /\ l = frame_wire k operation body.
Proof.
  unfold frame_encode, MAX_BODY_SIZE. fold (frame_wire k operation body). pose proof (blen_nonneg body).
  destruct (Z.gtb_spec (HEADER_SIZE + blen body) MAX_RECORD_PAYLOAD); [split; [done | lia] | ].
  destruct (Z.gtb_spec (blen body) U16_MAX); [change MAX_RECORD_PAYLOAD with 65509 in *; unfold U16_MAX, HEADER_SIZE in *; lia | ].
  split; [intros [= <-]; split; [lia | done] | by intros [_ ->]].
Qed.

Lemma frame_wire_len k operation body : length operation = 16%nat -> blen (frame_wire k operation body) = HEADER_SIZE + blen body.
Proof. intros Ho. unfold frame_wire. rewrite !blen_app, !blen_be, !blen_cons. change (blen MAGIC) with 4. change (blen []) with 0.
  replace (blen operation) with 16 by (unfold blen; lia). unfold HEADER_SIZE. lia.
Qed.

Lemma frame_decode_spec l f : all_bytes l ->
  (frame_decode l = Ok f <-> frame_encode (frame_kind f) (frame_operation f) (frame_body f) = Ok l /\
     operation_ok (frame_operation f) /\ all_bytes (frame_body f)).
Proof.
  intros Hl. unfold frame_decode. rewrite frame_encode_Ok.
  assert (forall k o b, operation_ok o -> blen (frame_wire k o b) = HEADER_SIZE + blen b) as Hlen by (intros k o b [? _]; by apply frame_wire_len).
  unfold MAX_BODY_SIZE. split.
  - destruct (Z.ltb_spec (blen l) HEADER_SIZE), (Z.gtb_spec (blen l) MAX_RECORD_PAYLOAD); try done. cbn.
    intros (-> & Ho & Hb & Hall)%(r_finish_reads _ _ _ _ reads_frame Hl). rewrite Hlen in * by done. split; [split; [lia | done] | done].
  - intros [[Hb ->] [Ho Hall]]. rewrite Hlen by done. pose proof (blen_nonneg (frame_body f)).
    destruct (Z.ltb_spec (HEADER_SIZE + blen (frame_body f)) HEADER_SIZE), (Z.gtb_spec (HEADER_SIZE + blen (frame_body f)) MAX_RECORD_PAYLOAD); try lia. cbn.
    apply (r_finish_reads _ _ _ _ reads_frame Hl). repeat first [assumption | split].
    change MAX_RECORD_PAYLOAD with 65509 in *. unfold U16_MAX, HEADER_SIZE in *. lia.
Qed.

(** * Messages *)

Definition host_ok (m : HostMessage) : Prop :=
  match m with
  | Host_Prepare operation | Host_Shutdown operation => operation_ok operation
  | Host_Execute operation command => operation_ok operation /\ command_ok command
  | Host_File operation request => operation_ok operation /\ file_ok request
  | Host_Pty operation request => operation_ok operation /\ pty_ok request
  end.

Definition guest_ok (m : GuestMessage) : Prop :=
  match m with
  | Guest_RepairComplete operation | Guest_ShutdownAck operation => operation_ok operation
  | Guest_Stdout operation chunk | Guest_Stderr operation chunk =>
      operation_ok operation /\ all_bytes chunk /\ chunk <> [] /\ blen chunk <= MAX_OUTPUT_CHUNK_BYTES
  | Guest_Terminal operation report => operation_ok operation /\ report_ok report /\ is_ok (status_fields (report_status report)) = true
  | Guest_FileOutcome operation outcome => operation_ok operation /\ outcome_ok outcome
  | Guest_PtyOutcome operation outcome => operation_ok operation /\ pty_outcome_ok outcome
  end.

#[local] Opaque frame_encode.

Lemma frame_decode_of k operation body l : all_bytes l -> operation_ok operation -> frame_encode k operation body = Ok l ->
  frame_decode l = Ok (mkDecodedFrame k operation body) /\ all_bytes body.
Proof.
  intros Hl Ho He. assert (all_bytes body) as Hb.
  { apply frame_encode_Ok in He as [_ ->]. unfold frame_wire in Hl. unfold all_bytes in *. rewrite !Forall_app in Hl. tauto. }
  split; [ | done]. by apply frame_decode_spec.
Qed.

Lemma pty_decode_spec body r : all_bytes body -> (pty_decode body = Ok r <-> pty_encode r = Some body /\ pty_ok r).
Proof. exact (r_finish_reads _ _ _ _ reads_pty). Qed.

Lemma outcome_decode_spec body o : all_bytes body -> (outcome_decode body = Ok o <-> outcome_encode o = Some body /\ outcome_ok o).
Proof. exact (r_finish_reads _ _ _ _ reads_outcome). Qed.

Lemma pty_outcome_decode_spec body o : all_bytes body -> (pty_outcome_decode body = Ok o <-> pty_outcome_encode o = Some body /\ pty_outcome_ok o).
Proof. exact (r_finish_reads _ _ _ _ reads_pty_outcome). Qed.

Lemma chunk_decode_spec body c : chunk_decode body = Ok c <-> c = body /\ body <> [] /\ blen body <= MAX_OUTPUT_CHUNK_BYTES.
Proof.
  unfold chunk_decode, chunk_new. rewrite map_err_Ok. case_bool_decide; destruct (Z.gtb_spec (blen body) MAX_OUTPUT_CHUNK_BYTES); cbn; naive_solver lia.
Qed.

Lemma host_decode_spec l m : all_bytes l -> (host_decode l = Ok m <-> host_encode m = Some (Ok l) /\ host_ok m).
Proof.
  intros Hl. unfold host_decode. split.
  - rewrite bind_Ok. intros (f & (He & Ho & Hb)%frame_decode_spec & Hm); [ | done]. unfold empty_body in Hm.
    destruct (frame_kind f); try done; try (case_bool_decide as Hbody; [ | done]; simplify_eq; cbn; by rewrite <- Hbody, He).
    all: apply bind_Ok in Hm as (x & Hx & [= <-]).
    + apply command_decode_spec in Hx as [Hx Hok]; [ | done]. cbn. by rewrite Hx; cbn; rewrite He.
    + apply file_decode_spec in Hx as [Hx Hok]; [ | done]. cbn. by rewrite Hx; cbn; rewrite He.
    + apply pty_decode_spec in Hx as [Hx Hok]; [ | done]. cbn. by rewrite Hx; cbn; rewrite He.
  - intros [He Hok]. destruct m as [operation | operation c | operation r | operation r | operation]; cbn in He, Hok.
    all: try (apply bind_Some in He as (body & Hbody & He)). all: apply (inj Some) in He.
    all: match type of He with frame_encode ?k ?o ?b = _ => destruct (frame_decode_of k o b l Hl ltac:(tauto) He) as [-> Hb] end; cbn; try done.
    + by rewrite (proj2 (command_decode_spec body c Hb)) by (split; [done | tauto]).
    + by rewrite (proj2 (file_decode_spec body r Hb)) by (split; [done | tauto]).
    + by rewrite (proj2 (pty_decode_spec body r Hb)) by (split; [done | tauto]).
Qed.

Lemma guest_decode_spec l m : all_bytes l -> (guest_decode l = Ok m <-> guest_encode m = Some (Ok l) /\ guest_ok m).
Proof.
  intros Hl. unfold guest_decode. split.
  - rewrite bind_Ok. intros (f & (He & Ho & Hb)%frame_decode_spec & Hm); [ | done]. unfold empty_body in Hm.
    destruct (frame_kind f); try done; try (case_bool_decide as Hbody; [ | done]; simplify_eq; cbn; by rewrite <- Hbody, He).
    all: apply bind_Ok in Hm as (x & Hx & [= <-]).
    + apply chunk_decode_spec in Hx as (-> & ? & ?). cbn. by rewrite He.
    + apply chunk_decode_spec in Hx as (-> & ? & ?). cbn. by rewrite He.
    + apply report_decode_spec in Hx as [Hx Hok]; [ | done]. cbn. rewrite Hx, He. unfold report_encode in Hx. by destruct (status_fields _).
    + apply outcome_decode_spec in Hx as [Hx Hok]; [ | done]. cbn. by rewrite Hx; cbn; rewrite He.
    + apply pty_outcome_decode_spec in Hx as [Hx Hok]; [ | done]. cbn. by rewrite Hx; cbn; rewrite He.
  - intros [He Hok]. destruct m as [operation | operation c | operation c | operation r | operation o | operation o | operation]; cbn in He, Hok.
    all: try (apply bind_Some in He as (body & Hbody & He)). all: apply (inj Some) in He.
    4: apply bind_Ok in He as (body & Hbody & He).
    all: match type of He with frame_encode ?k ?o ?b = _ => destruct (frame_decode_of k o b l Hl ltac:(tauto) He) as [-> Hb] end; cbn; try done.
    + by rewrite (proj2 (chunk_decode_spec c c)) by tauto.
    + by rewrite (proj2 (chunk_decode_spec c c)) by tauto.
    + by rewrite (proj2 (report_decode_spec body r Hb)) by (split; [done | tauto]).
    + by rewrite (proj2 (outcome_decode_spec body o Hb)) by (split; [done | tauto]).
    + by rewrite (proj2 (pty_outcome_decode_spec body o Hb)) by (split; [done | tauto]).
Qed.

(** * Every message that is well formed is written, in one record *)

Lemma all_bytes_app a b : all_bytes a -> all_bytes b -> all_bytes (a ++ b).
Proof. intros. by apply Forall_app. Qed.

Lemma all_bytes_cons x l : is_u8 x -> all_bytes l -> all_bytes (x :: l).
Proof. by constructor. Qed.

Lemma all_bytes_nil : all_bytes [].
Proof. constructor. Qed.

Lemma put_field_bytes raw w : all_bytes raw -> put_field raw = Some w -> all_bytes w.
Proof. intros Hr [_ ->]%put_field_Some. apply all_bytes_app; [apply be_bytes_all | done]. Qed.

Lemma put_all_bytes {A} (put : A -> option bytes) (ok : A -> Prop) l w : (forall a w, ok a -> put a = Some w -> all_bytes w) ->
  Forall ok l -> put_all put l = Some w -> all_bytes w.
Proof.
  intros Hp Hall. revert w. induction Hall as [ | a l Ha Hl IH]; cbn; intros w Hw; [injection Hw as <-; constructor | ].
  apply bind_Some in Hw as (w1 & Hw1 & Hw). apply bind_Some in Hw as (w2 & Hw2 & [= <-]). apply all_bytes_app; eauto.
Qed.

Lemma u8_of_bool_u8 b : is_u8 (u8_of_bool b).
Proof. by destruct b. Qed.

Create HintDb wire discriminated.
#[local] Hint Resolve all_bytes_app all_bytes_cons all_bytes_nil put_field_bytes be_bytes_all u8_of_bool_u8 : wire.
#[local] Hint Extern 0 (is_u8 _) => done : wire.
#[local] Hint Extern 0 (all_bytes _) => assumption : wire.

(** Takes an encoding apart. *)
Ltac enc_inv Hw :=
  repeat match type of Hw with mbind _ _ = Some _ => apply bind_Some in Hw as (? & ? & Hw) end; apply (inj Some) in Hw; subst.

Lemma file_wire r : file_ok r -> exists w, file_encode r = Some w /\ all_bytes w /\ blen w <= MAX_BODY_SIZE.
Proof.
  intros [[Hp Hb] Hr]. assert (blen (request_path r) <= MAX_PATH_BYTES) as Hlen.
  { revert Hp. unfold check_path. destruct (Z.gtb_spec (blen (request_path r)) MAX_PATH_BYTES); [by rewrite orb_true_r | done]. }
  unfold file_encode. destruct (put_field_is_Some (request_path r)) as [p Hpw]; [unfold MAX_PATH_BYTES, U16_MAX in *; lia | ].
  rewrite Hpw. cbn. assert (all_bytes p) as Hpb by eauto with wire. apply put_field_size in Hpw. unfold field_size in Hpw.
  change MAX_BODY_SIZE with 65481. rewrite max_chunk in *. unfold MAX_PATH_BYTES in Hlen.
  destruct r; cbn in *. 2: destruct Hr as (_ & Hl & Hraw); destruct (put_field_is_Some raw) as [w Hw]; [unfold U16_MAX; lia | ];
    rewrite Hw; pose proof (put_field_size _ _ Hw); unfold field_size in *; cbn.
  all: eexists; split; [reflexivity | ]; split; [eauto 10 with wire | ]; rewrite ?blen_cons, ?blen_app, ?blen_cons, ?blen_be; change (blen []) with 0; lia.
Qed.

Lemma pty_wire r : pty_ok r -> exists w, pty_encode r = Some w /\ all_bytes w /\ blen w <= MAX_BODY_SIZE.
Proof.
  intros Hr. change MAX_BODY_SIZE with 65481. unfold pty_encode, put_size.
  destruct r; cbn in *. 2: destruct Hr as [Hl Hraw]; destruct (put_field_is_Some raw) as [w Hw]; [unfold MAX_PTY_CHUNK_BYTES, U16_MAX in *; lia | ];
    rewrite Hw; pose proof (put_field_size _ _ Hw); unfold field_size, MAX_PTY_CHUNK_BYTES in *; cbn.
  all: eexists; split; [reflexivity | ]; split; [eauto 10 with wire | ]; rewrite ?blen_cons, ?blen_app, ?blen_be; change (blen []) with 0; lia.
Qed.

Lemma command_wire c : command_ok c -> exists w, command_encode c = Some w /\ all_bytes w /\ blen w <= MAX_BODY_SIZE.
Proof.
  intros Hc. pose proof (command_fits c Hc) as Hfit. destruct Hc as [Hc _]. destruct (command_is_Some c Hc) as [w Hw]. exists w.
  split; [done | ]. rewrite (command_size c w Hw). split; [ | done].
  destruct Hc as (_ & _ & [_ Hp] & [_ Hargs] & [_ Henv] & Hd & Hu & [_ Hs]).
  assert (forall max o w, match o with Some raw => field_ok max raw /\ raw <> [] | None => True end -> push_optional o = Some w -> all_bytes w) as Ho.
  { intros max [raw | ] w' Hraw Hw'; cbn in *; enc_inv Hw'; [destruct Hraw as [[_ ?] _] | ]; eauto with wire. }
  unfold command_encode in Hw. enc_inv Hw.
  repeat match goal with H : push_count _ = Some _ |- _ => apply push_count_Some in H as [_ ->] end.
  repeat first [eassumption | apply all_bytes_app | apply be_bytes_all]; [eauto with wire | | | eauto | eauto | eauto with wire].
  - eapply (put_all_bytes put_field); [ | exact Hargs | done]. intros a w' [_ ?]. eauto with wire.
  - eapply (put_all_bytes put_pair); [ | exact Henv | done]. intros [n v] w' [[_ Hn] [_ Hv]] Hw'. unfold put_pair in Hw'. enc_inv Hw'. eauto with wire.
Qed.

Lemma pty_outcome_wire o : pty_outcome_ok o -> exists w, pty_outcome_encode o = Some w /\ all_bytes w /\ blen w <= MAX_BODY_SIZE.
Proof.
  intros Ho. change MAX_BODY_SIZE with 65481. unfold pty_outcome_encode, put_size.
  destruct o as [ | | raw at_end | | | failure]; cbn in *.
  3: destruct Ho as [Hl Hraw]; destruct (put_field_is_Some raw) as [w Hw]; [unfold MAX_PTY_CHUNK_BYTES, U16_MAX in *; lia | ];
    rewrite Hw; pose proof (put_field_size _ _ Hw); unfold field_size, MAX_PTY_CHUNK_BYTES in *; cbn.
  all: eexists; split; [reflexivity | ]; split; [try destruct failure; eauto 10 with wire | ];
    rewrite ?blen_cons, ?blen_app, ?blen_be; change (blen []) with 0; lia.
Qed.

#[local] Transparent i32_bytes.
Lemma report_wire r : report_ok r -> is_ok (status_fields (report_status r)) = true ->
  exists w, report_encode r = Ok w /\ all_bytes w /\ blen w <= MAX_BODY_SIZE.
Proof.
  intros _ Hs. unfold report_encode. destruct (status_fields (report_status r)) as [[kind detail] | ] eqn:Hf; [ | done].
  apply status_fields_range in Hf as [Hk _]. eexists. split; [reflexivity | ]. change MAX_BODY_SIZE with 65481. unfold i32_bytes. split.
  - assert (all_bytes (zeroes 3)) by (repeat constructor; done). eauto 8 with wire.
  - rewrite blen_cons, !blen_app, !blen_be. unfold blen. rewrite length_zeroes. lia.
Qed.

(** The bytes a listing takes. *)
Definition listing_size (entries : list DirectoryEntry) : Z := 6 + sum_sizes (fun e => 1 + field_size (entry_name e)) entries.

Definition outcome_fits (o : FileOutcome) : Prop := match o with Out_Listed entries _ => listing_size entries <= MAX_BODY_SIZE | _ => True end.

Lemma put_entry_size e w : put_entry e = Some w -> blen w = 1 + field_size (entry_name e).
Proof. unfold put_entry. intros (x & Hx%put_field_size & [= <-])%bind_Some. rewrite blen_cons. lia. Qed.

Lemma listing_wire entries more : Forall entry_ok entries -> exists w, outcome_encode (Out_Listed entries more) = Some w /\ all_bytes w /\
  blen w = listing_size entries.
Proof.
  intros Hall. destruct (put_all_is_Some put_entry entry_ok entries) as [w Hw]; [ | done | ].
  { intros e (Hl & _). unfold put_entry. destruct (put_field_is_Some (entry_name e)) as [w ->]; [unfold MAX_PATH_BYTES, U16_MAX in *; lia | by eexists]. }
  cbn. rewrite Hw. cbn. eexists. split; [reflexivity | ]. split.
  - assert (all_bytes w); [ | eauto 6 with wire]. eapply (put_all_bytes put_entry); [ | exact Hall | done].
    intros e w' (_ & He & _) Hw'. unfold put_entry in Hw'. enc_inv Hw'. destruct (entry_kind e); eauto with wire.
  - rewrite !blen_cons, blen_app, blen_be, (put_all_size put_entry _ entries w put_entry_size Hw). unfold listing_size. lia.
Qed.

Lemma outcome_wire o : outcome_ok o -> outcome_fits o -> exists w, outcome_encode o = Some w /\ all_bytes w /\ blen w <= MAX_BODY_SIZE.
Proof.
  intros Ho Hf. destruct o as [raw at_end | count | entries more | kind | | failure]; cbn in Ho, Hf.
  3: destruct (listing_wire entries more ltac:(tauto)) as (w & ? & ? & Hlen); exists w; by rewrite Hlen.
  all: change MAX_BODY_SIZE with 65481; unfold outcome_encode.
  1: destruct Ho as [Hl Hraw]; rewrite max_chunk in Hl; destruct (put_field_is_Some raw) as [w Hw]; [unfold U16_MAX; lia | ];
    rewrite Hw; pose proof (put_field_size _ _ Hw); unfold field_size in *; cbn.
  all: eexists; split; [reflexivity | ]; split; [try destruct failure; try destruct kind as [[] | ]; eauto 10 with wire | ];
    rewrite ?blen_cons, ?blen_app, ?blen_be; change (blen []) with 0; lia.
Qed.

Definition guest_fits (m : GuestMessage) : Prop := match m with Guest_FileOutcome _ o => outcome_fits o | _ => True end.

Lemma frame_written k operation body : operation_ok operation -> all_bytes body -> blen body <= MAX_BODY_SIZE ->
  exists l, frame_encode k operation body = Ok l /\ all_bytes l.
Proof.
  intros (Hlen & Hop & _) Hb Hl. exists (frame_wire k operation body). rewrite frame_encode_Ok. split; [done | ].
  unfold frame_wire. assert (is_u8 (kind_code k)) by by destruct k. assert (all_bytes MAGIC) by (repeat constructor; done). eauto 10 with wire.
Qed.

Lemma host_written m : host_ok m -> exists l, host_encode m = Some (Ok l) /\ all_bytes l.
Proof.
  destruct m; cbn; intros Hm.
  all: try (destruct Hm as [Ho Hr]; first [apply command_wire in Hr | apply file_wire in Hr | apply pty_wire in Hr];
            destruct Hr as (body & -> & Hb & Hl)); cbn.
  all: edestruct frame_written as (l & -> & ?); eauto. all: try constructor. all: vm_compute; discriminate.
Qed.

Lemma guest_written m : guest_ok m -> guest_fits m -> exists l, guest_encode m = Some (Ok l) /\ all_bytes l.
Proof.
  destruct m as [operation | operation chunk | operation chunk | operation report | operation outcome | operation outcome | operation];
    cbn; intros Hm Hf.
  4: destruct Hm as (Ho & Hr & Hs); destruct (report_wire _ Hr Hs) as (body & -> & Hb & Hl).
  5: destruct Hm as (Ho & Hr); destruct (outcome_wire _ Hr Hf) as (body & -> & Hb & Hl); cbn.
  6: destruct Hm as (Ho & Hr); destruct (pty_outcome_wire _ Hr) as (body & -> & Hb & Hl); cbn.
  2,3: destruct Hm as (Ho & Hb & _ & Hl); unfold MAX_OUTPUT_CHUNK_BYTES in Hl.
  all: edestruct frame_written as (l & -> & ?); eauto. all: try constructor. all: change MAX_BODY_SIZE with 65481; first [lia | vm_compute; discriminate].
Qed.

(** C23: every well-formed host request is written as the payload of one record, without a panic,
    and read back as itself; and a payload that is read as a request is the one encoding of a
    well-formed request, so no two payloads name the same request. *)
Theorem host_messages_exact (m : HostMessage) :
  (host_ok m -> exists l, host_encode m = Some (Ok l) /\ host_decode l = Ok m) /\
  (forall l, all_bytes l -> host_decode l = Ok m -> host_ok m /\ host_encode m = Some (Ok l)).
Proof.
  split; [ | intros l Hl Hm; by apply host_decode_spec in Hm as [? ?]]. intros Hm. destruct (host_written m Hm) as (l & He & Hl).
  exists l. split; [done | ]. by apply host_decode_spec.
Qed.

(** C24: every well-formed answer of the agent that fits one record (all but a long listing
    do) is written without a panic and read back as itself, and a payload that is read as an
    answer is the one encoding of a well-formed answer. *)
Theorem guest_messages_exact (m : GuestMessage) :
  (guest_ok m -> guest_fits m -> exists l, guest_encode m = Some (Ok l) /\ guest_decode l = Ok m) /\
  (forall l, all_bytes l -> guest_decode l = Ok m -> guest_ok m /\ guest_encode m = Some (Ok l)).
Proof.
  split; [ | intros l Hl Hm; by apply guest_decode_spec in Hm as [? ?]]. intros Hm Hf. destruct (guest_written m Hm Hf) as (l & He & Hl).
  exists l. split; [done | ]. by apply guest_decode_spec.
Qed.

(** ** On concrete messages *)

Definition demo_operation : bytes := replicate 16 7.

(** [/bin/ls /tmp] with [HOME=/root] in [/tmp] as [root], two bytes on its standard input *)
Definition demo_command : GuestCommand :=
  mkGuestCommand [47; 98; 105; 110; 47; 108; 115] [[47; 116; 109; 112]] 1000 4096 [([72; 79; 77; 69], [47; 114; 111; 111; 116])]
    (Some [47; 116; 109; 112]) (Some [114; 111; 111; 116]) [1; 0].

Example demo_execute_roundtrip :
  match host_encode (Host_Execute demo_operation demo_command) with
  | Some (Ok l) => host_decode l = Ok (Host_Execute demo_operation demo_command) /\ length l = 90%nat
  | _ => False
  end.
Proof. vm_compute. split; reflexivity. Qed.

Example demo_relative_program : command_new [98; 105; 110] [] 1000 4096 = Err InvalidCommand.
Proof. reflexivity. Qed.

Example demo_listing_roundtrip :
  let m := Guest_FileOutcome demo_operation (Out_Listed [mkDirectoryEntry [97] Entry_File; mkDirectoryEntry [98] Entry_Directory] false) in
  match guest_encode m with Some (Ok l) => guest_decode l = Ok m | _ => False end.
Proof. vm_compute. reflexivity. Qed.
