(* ===== verification/GuestSession.v ===== *)
(** The authenticated session of the guest control protocol ([soma-guest] binding.rs,
    handshake.rs, record.rs, control/io.rs, control/channel.rs): the transcript both peers bind,
    the framing of the two handshake messages, the records that carry every later message with
    their sequence and their poisoning, and the channel that moves records over a byte stream.

    The Noise transport is the [snow] crate's and the byte stream is the embedder's: both are
    classes of operations, with what this crate relies on as their laws. *)

From S2P Require Import Prelude Bytes Wire GuestApp GuestAppProps.
From stdpp Require Import options.
Local Open Scope Z_scope.

(** * The transcript (binding.rs) *)

(** ["SOMA-GUEST-CONTROL\0"] *)
Definition DOMAIN : bytes := [83; 79; 77; 65; 45; 71; 85; 69; 83; 84; 45; 67; 79; 78; 84; 82; 79; 76; 0].
Definition SCHEMA_VERSION : Z := 1.
Definition AUTH_PROFILE : Z := 1.

Record SessionBinding : Type := mkSessionBinding {
  sb_generation : bytes;
  sb_instance : bytes;
  sb_operation : bytes;
  sb_launch_nonce : bytes
}.

Definition binding_new (generation instance operation launch_nonce : bytes) : Result SessionBinding Error :=
  if all_zero generation || all_zero instance || all_zero operation || all_zero launch_nonce then Err InvalidBinding
  else Ok (mkSessionBinding generation instance operation launch_nonce).

Definition prologue (b : SessionBinding) : bytes :=
  DOMAIN ++ be_bytes 2 SCHEMA_VERSION ++ be_bytes 2 AUTH_PROFILE ++ sb_generation b ++ sb_instance b ++ sb_operation b ++ sb_launch_nonce b.

Definition binding_typed (b : SessionBinding) : Prop :=
  length (sb_generation b) = 32%nat /\ length (sb_instance b) = 16%nat /\ length (sb_operation b) = 16%nat /\ length (sb_launch_nonce b) = 32%nat.

(** Two bindings that differ give different transcripts. *)
Lemma prologue_inj b b' : binding_typed b -> binding_typed b' -> prologue b = prologue b' -> b = b'.
Proof.
  intros (H1 & H2 & H3 & H4) (H1' & H2' & H3' & H4') Heq. unfold prologue in Heq. do 3 apply app_inv_head in Heq.
  apply app_inj_1 in Heq as [Hg Heq]; [ | congruence]. apply app_inj_1 in Heq as [Hi Heq]; [ | congruence].
  apply app_inj_1 in Heq as [Ho Hn]; [ | congruence]. destruct b, b'. cbn in *. congruence.
Qed.

(** * Handshake messages (handshake.rs) *)

Definition MAX_HANDSHAKE_MESSAGE : Z := 256.

Definition handshake_frame (message : bytes) : Result bytes Error :=
  if bool_decide (message = []) || (blen message >? MAX_HANDSHAKE_MESSAGE) then Err HandshakeRejected
  else if blen message >? U16_MAX then Err HandshakeRejected
  else Ok (be_bytes 2 (blen message) ++ message).

Definition handshake_unframe (framed : bytes) : Result bytes Error :=
  if blen framed <? 2 then Err HandshakeRejected
  else
    let length := be_val (take 2 framed) in
    if (length =? 0) || (length >? MAX_HANDSHAKE_MESSAGE) || negb (blen framed =? length + 2) then Err HandshakeRejected
    else Ok (drop 2 framed).

(** * The Noise transport *)

(** [snow]'s [TransportState]: [write_message] and [read_message], which leave the transport in a
    new state and fail without output. *)
Class NoiseTransport (T : Type) : Type := {
  t_initiator : T -> bool;
  t_write : bytes -> T -> T * option bytes;
  t_read : bytes -> T -> T * option bytes
}.

(** What is relied on between the two ends of one handshake.  [linked a b q] says that [q] is
    what [a] wrote and [b] has not read, each plaintext with its ciphertext, in order: a
    ciphertext is the plaintext's length and the tag, the next one reads back, and the other
    direction does not disturb this one. *)
Class NoiseLaws (T : Type) `{NoiseTransport T} : Type := {
  linked : T -> T -> list (bytes * bytes) -> Prop;
  write_law : forall p a a' c, t_write p a = (a', Some c) -> blen c = blen p + AEAD_TAG /\ all_bytes c;
  link_write : forall p a a' b c q, linked a b q -> t_write p a = (a', Some c) -> linked a' b (q ++ [(p, c)]);
  link_read : forall p c a b q, linked a b ((p, c) :: q) -> exists b', t_read c b = (b', Some p) /\ linked a b' q;
  link_reverse_read : forall c a b q, linked a b q -> linked (t_read c a).1 b q;
  link_reverse_write : forall p a b q, linked a b q -> linked a (t_write p b).1 q
}.

(** * Records (record.rs) *)

Definition MAX_RECORD_CIPHERTEXT : Z := NOISE_MESSAGE_MAX.
Definition MIN_RECORD_CIPHERTEXT : Z := AEAD_TAG + INNER_HEADER.

Inductive Role : Type := Initiator | Responder.

Definition exact_ciphertext (framed : bytes) : option bytes :=
  if blen framed <? 2 then None
  else
    let length := be_val (take 2 framed) in
    if (length <? MIN_RECORD_CIPHERTEXT) || negb (blen framed =? 2 + length) then None else Some (drop 2 framed).

Definition exact_plaintext (expected_sequence : Z) (plaintext : bytes) : option bytes :=
  if blen plaintext <? INNER_HEADER then None
  else
    let sequence := be_val (take 8 plaintext) in
    let payload_length := be_val (take 2 (drop 8 plaintext)) in
    if negb (sequence =? expected_sequence) || negb (blen plaintext =? INNER_HEADER + payload_length) then None
    else Some (drop 10 plaintext).

Definition plaintext_of (sequence : Z) (payload : bytes) : bytes := be_bytes 8 sequence ++ be_bytes 2 (blen payload) ++ payload.

Section session.
Context {T : Type} `{NoiseTransport T}.

Record AuthenticatedSession : Type := mkSession {
  transport : T;
  role : Role;
  transcript : bytes;
  next_send : Z;
  next_receive : Z;
  poisoned : bool
}.

Definition session_new (transport : T) (transcript : bytes) : AuthenticatedSession :=
  mkSession transport (if t_initiator transport then Initiator else Responder) transcript 0 0 false.

Definition set_transport (s : AuthenticatedSession) (t : T) : AuthenticatedSession :=
  mkSession t (role s) (transcript s) (next_send s) (next_receive s) (poisoned s).

Definition seal (payload : bytes) : ST AuthenticatedSession Error bytes := fun s =>
  if poisoned s then (s, Err SessionPoisoned)
  else if blen payload >? MAX_RECORD_PAYLOAD then (s, Err RecordTooLarge)
  else
    match checked_add_u64 (next_send s) 1 with
    | None => (s, Err SessionExhausted)
    | Some following =>
        if blen payload >? U16_MAX then (s, Err RecordTooLarge)
        else
          match t_write (plaintext_of (next_send s) payload) (transport s) with
          | (t, None) => (set_transport s t, Err SessionExhausted)
          | (t, Some ciphertext) =>
              if blen ciphertext >? U16_MAX then (set_transport s t, Err RecordTooLarge)
              else (mkSession t (role s) (transcript s) following (next_receive s) (poisoned s),
                    Ok (be_bytes 2 (blen ciphertext) ++ ciphertext))
          end
    end.

Definition open_once (framed : bytes) (s : AuthenticatedSession) : AuthenticatedSession * option bytes :=
  match exact_ciphertext framed with
  | None => (s, None)
  | Some ciphertext =>
      match t_read ciphertext (transport s) with
      | (t, None) => (set_transport s t, None)
      | (t, Some plaintext) =>
          match exact_plaintext (next_receive s) plaintext, checked_add_u64 (next_receive s) 1 with
          | Some payload, Some following =>
              (mkSession t (role s) (transcript s) (next_send s) following (poisoned s), Some payload)
          | _, _ => (set_transport s t, None)
          end
      end
  end.

Definition set_poisoned (s : AuthenticatedSession) : AuthenticatedSession :=
  mkSession (transport s) (role s) (transcript s) (next_send s) (next_receive s) true.

Definition open (framed : bytes) : ST AuthenticatedSession Error bytes := fun s =>
  if poisoned s then (s, Err SessionPoisoned)
  else
    match open_once framed s with
    | (s', Some payload) => (s', Ok payload)
    | (s', None) => (set_poisoned s', Err PeerRecordRejected)
    end.
End session.
Arguments AuthenticatedSession : clear implicits.

(** * Transports of bytes (control/io.rs) *)

(** The embedder's byte stream, its clock and the operating system's randomness: [read_exact] and
    [write_all] by an absolute deadline, [poison], [commit_repair], and [Instant]'s
    [checked_add]. *)
Class ControlIo (I : Type) : Type := {
  io_read : nat -> Z -> I -> I * option bytes;
  io_write : bytes -> Z -> I -> I * bool;
  io_poison : I -> I;
  io_commit : Z -> I -> I * bool;
  io_now : I -> Z;
  io_after : Z -> Z -> option Z;
  io_random : I -> I * option bytes
}.

Inductive FrameReadError : Type := FrameRead_Io | FrameRead_Length.

Record OwnedIo (I : Type) : Type := mkOwnedIo { inner : I; io_poisoned : bool }.
Arguments mkOwnedIo {I} _ _.
Arguments inner {I} _.
Arguments io_poisoned {I} _.

Section io.
Context {I : Type} `{ControlIo I}.

Definition set_inner (o : OwnedIo I) (i : I) : OwnedIo I := mkOwnedIo i (io_poisoned o).

Definition read_frame (maximum minimum deadline : Z) : ST (OwnedIo I) FrameReadError bytes := fun o =>
  match io_read 2 deadline (inner o) with
  | (i, None) => (set_inner o i, Err FrameRead_Io)
  | (i, Some header) =>
      let length := be_val header in
      if (length <? minimum) || (length >? maximum) then (set_inner o i, Err FrameRead_Length)
      else
        match io_read (Z.to_nat length) deadline i with
        | (i, None) => (set_inner o i, Err FrameRead_Io)
        | (i, Some rest) => (set_inner o i, Ok (header ++ rest))
        end
  end.

Definition write_all (raw : bytes) (deadline : Z) : ST (OwnedIo I) unit unit := fun o =>
  let '(i, ok) := io_write raw deadline (inner o) in (set_inner o i, if ok : bool then Ok tt else Err tt).

Definition poison_once (o : OwnedIo I) : OwnedIo I :=
  if io_poisoned o then o else mkOwnedIo (io_poison (inner o)) true.

Definition commit_repair (deadline : Z) : ST (OwnedIo I) unit unit := fun o =>
  let '(i, ok) := io_commit deadline (inner o) in (set_inner o i, if ok : bool then Ok tt else Err tt).
End io.

(** * The channel (control/channel.rs, control/error.rs) *)

Inductive ControlStage : Type := Stage_Handshake | Stage_Repair | Stage_Execute | Stage_File | Stage_Pty | Stage_Shutdown.

Inductive ControlFailureClass : Type := Class_Io | Class_Authentication | Class_Protocol | Class_Lifecycle | Class_Accounting.

Record ControlError : Type := mkControlError { error_stage : ControlStage; error_class : ControlFailureClass }.

Inductive ChannelFailure : Type := Channel_Io | Channel_Authentication | Channel_Protocol.

Definition failure_class (f : ChannelFailure) : ControlFailureClass :=
  match f with Channel_Io => Class_Io | Channel_Authentication => Class_Authentication | Channel_Protocol => Class_Protocol end.

Section channel.
Context {T I : Type} `{NoiseTransport T} `{ControlIo I}.

Record AuthChannel : Type := mkChannel { ch_io : OwnedIo I; ch_session : AuthenticatedSession T }.

Definition with_io (c : AuthChannel) (o : OwnedIo I) : AuthChannel := mkChannel o (ch_session c).

(** A failure is [Some]; a panic of an encoder is [None]. *)
Definition send (payload : bytes) (deadline : Z) : ST AuthChannel (option ChannelFailure) unit := fun c =>
  match seal payload (ch_session c) with
  | (s, Err _) => (mkChannel (ch_io c) s, Err (Some Channel_Protocol))
  | (s, Ok record) =>
      match write_all record deadline (ch_io c) with
      | (o, Ok _) => (mkChannel o s, Ok tt)
      | (o, Err _) => (mkChannel o s, Err (Some Channel_Io))
      end
  end.

Definition receive (deadline : Z) : ST AuthChannel (option ChannelFailure) bytes := fun c =>
  match read_frame MAX_RECORD_CIPHERTEXT MIN_RECORD_CIPHERTEXT deadline (ch_io c) with
  | (o, Err FrameRead_Io) => (with_io c o, Err (Some Channel_Io))
  | (o, Err FrameRead_Length) => (with_io c o, Err (Some Channel_Protocol))
  | (o, Ok record) =>
      let '(s, r) := open record (ch_session c) in (mkChannel o s, map_err (fun _ => Some Channel_Authentication) r)
  end.

(** Sends what an encoder made of a message. *)
Definition send_encoded (encoded : option (Result bytes Error)) (deadline : Z) : ST AuthChannel (option ChannelFailure) unit :=
  match encoded with
  | None => st_err None
  | Some (Err _) => st_err (Some Channel_Protocol)
  | Some (Ok payload) => send payload deadline
  end.

Definition send_host (message : HostMessage) (deadline : Z) : ST AuthChannel (option ChannelFailure) unit :=
  send_encoded (host_encode message) deadline.

Definition send_guest (message : GuestMessage) (deadline : Z) : ST AuthChannel (option ChannelFailure) unit :=
  send_encoded (guest_encode message) deadline.

Definition receive_host (deadline : Z) : ST AuthChannel (option ChannelFailure) HostMessage :=
  payload <-- receive deadline ;; st_lift (map_err (fun _ => Some Channel_Protocol) (host_decode payload)).

Definition receive_guest (deadline : Z) : ST AuthChannel (option ChannelFailure) GuestMessage :=
  payload <-- receive deadline ;; st_lift (map_err (fun _ => Some Channel_Protocol) (guest_decode payload)).

(** [AuthChannel::fail], and an error of the channel turned into the stage's ([channel_failure]):
    the transport is poisoned, once. *)
Definition fail {A} (stage : ControlStage) (class : ControlFailureClass) : ST AuthChannel (option ControlError) A := fun c =>
  (with_io c (poison_once (ch_io c)), Err (Some (mkControlError stage class))).

Definition or_fail {A} (stage : ControlStage) (p : ST AuthChannel (option ChannelFailure) A) : ST AuthChannel (option ControlError) A := fun c =>
  match p c with
  | (c', Ok a) => (c', Ok a)
  | (c', Err None) => (c', Err None)
  | (c', Err (Some failure)) => fail stage (failure_class failure) c'
  end.
End channel.
Arguments AuthChannel : clear implicits.

(** * Records are exact *)

Lemma take_drop_be n z l : take n (be_bytes n z ++ l) = be_bytes n z /\ drop n (be_bytes n z ++ l) = l.
Proof.
  split; [rewrite take_app_length' | rewrite drop_app_length']; by rewrite ?length_be_bytes.
Qed.

Lemma be_val_two n : 0 <= n <= U16_MAX -> be_val (be_bytes 2 n) = n.
Proof. intros Hn. apply be_val_bytes. unfold is_uint, U16_MAX in *. cbn. lia. Qed.

Lemma exact_ciphertext_frame c : MIN_RECORD_CIPHERTEXT <= blen c <= U16_MAX -> exact_ciphertext (be_bytes 2 (blen c) ++ c) = Some c.
Proof.
  intros Hc. unfold exact_ciphertext. destruct (take_drop_be 2 (blen c) c) as [-> ->].
  rewrite blen_app, blen_be, be_val_two by (pose proof (blen_nonneg c); lia). pose proof (blen_nonneg c).
  rewrite (proj2 (Z.ltb_ge _ _)), (proj2 (Z.ltb_ge _ _)), Z.eqb_refl by lia. done.
Qed.

Lemma plaintext_parts n payload :
  take 8 (plaintext_of n payload) = be_bytes 8 n /\ take 2 (drop 8 (plaintext_of n payload)) = be_bytes 2 (blen payload) /\
  drop 10 (plaintext_of n payload) = payload.
Proof.
  unfold plaintext_of. destruct (take_drop_be 8 n (be_bytes 2 (blen payload) ++ payload)) as [-> H8]. rewrite H8.
  destruct (take_drop_be 2 (blen payload) payload) as [-> H2]. split; [done | ]. split; [done | ].
  change 10%nat with (8 + 2)%nat. rewrite <- drop_drop. by rewrite H8.
Qed.

(** A plaintext the peer wrote for sequence [m] is taken at sequence [n] only when they agree. *)
Lemma exact_plaintext_of n m payload : is_u64 m -> blen payload <= U16_MAX ->
  exact_plaintext n (plaintext_of m payload) = if m =? n then Some payload else None.
Proof.
  intros Hm Hp. unfold exact_plaintext. destruct (plaintext_parts m payload) as (-> & -> & ->).
  pose proof (blen_nonneg payload). assert (blen (plaintext_of m payload) = INNER_HEADER + blen payload) as ->.
  { unfold plaintext_of. rewrite !blen_app, !blen_be. unfold INNER_HEADER. lia. }
  rewrite be_val_bytes, be_val_two, Z.eqb_refl by (done || lia). rewrite (proj2 (Z.ltb_ge _ _)) by lia. by destruct (m =? n).
Qed.

Section exact.
Context {T : Type} `{NoiseTransport T}.
Implicit Types s a b : AuthenticatedSession T.

Lemma seal_Ok payload s s' framed : seal payload s = (s', Ok framed) ->
  exists c, t_write (plaintext_of (next_send s) payload) (transport s) = (transport s', Some c) /\
    framed = be_bytes 2 (blen c) ++ c /\ blen payload <= MAX_RECORD_PAYLOAD /\ blen c <= U16_MAX /\
    next_send s' = next_send s + 1 /\ next_send s + 1 <= U64_MAX /\ next_receive s' = next_receive s /\ poisoned s = false /\ poisoned s' = false.
Proof.
  unfold seal. destruct (poisoned s) eqn:Hs; [done | ]. destruct (Z.gtb_spec (blen payload) MAX_RECORD_PAYLOAD); [done | ].
  destruct (checked_add_u64 (next_send s) 1) as [f | ] eqn:Hf; [ | done]. apply checked_add_u64_Some in Hf as [-> Hf].
  case_match; [done | ]. destruct (t_write _ _) as [t [c | ]] eqn:Hw; [ | done]. destruct (Z.gtb_spec (blen c) U16_MAX); [done | ].
  intros [= <- <-]. by exists c.
Qed.

Lemma seal_Err payload s s' e : seal payload s = (s', Err e) ->
  next_send s' = next_send s /\ next_receive s' = next_receive s /\ poisoned s' = poisoned s.
Proof. unfold seal, set_transport. intros Hs. repeat case_match; by simplify_eq. Qed.

Lemma open_Ok framed s s' payload : open framed s = (s', Ok payload) ->
  exists c p, exact_ciphertext framed = Some c /\ t_read c (transport s) = (transport s', Some p) /\
    exact_plaintext (next_receive s) p = Some payload /\ next_receive s' = next_receive s + 1 /\ next_receive s + 1 <= U64_MAX /\
    next_send s' = next_send s /\ poisoned s = false /\ poisoned s' = false.
Proof.
  unfold open, open_once. destruct (poisoned s) eqn:Hs; [done | ]. destruct (exact_ciphertext framed) as [c | ] eqn:Hc; [ | done].
  destruct (t_read c (transport s)) as [t [p | ]] eqn:Hr; [ | done]. destruct (exact_plaintext (next_receive s) p) as [x | ] eqn:Hp; [ | done].
  destruct (checked_add_u64 (next_receive s) 1) as [f | ] eqn:Hf; [ | done]. apply checked_add_u64_Some in Hf as [-> Hf].
  intros [= <- <-]. by exists c, p.
Qed.

Lemma open_Err framed s s' e : open framed s = (s', Err e) ->
  next_send s' = next_send s /\ next_receive s' = next_receive s /\ poisoned s' = true.
Proof. unfold open, open_once, set_poisoned, set_transport. intros Hs. repeat case_match; by simplify_eq. Qed.

End exact.

(** The record the peer sealed next is opened as what it carries. *)
Lemma open_linked {T : Type} `{NoiseLaws T} (a : T) (b : AuthenticatedSession T) payload c q : linked a (transport b) ((plaintext_of (next_receive b) payload, c) :: q) ->
  poisoned b = false -> 0 <= next_receive b < U64_MAX -> blen payload <= MAX_RECORD_PAYLOAD ->
  blen c = blen (plaintext_of (next_receive b) payload) + AEAD_TAG -> blen c <= U16_MAX ->
  exists b', open (be_bytes 2 (blen c) ++ c) b = (b', Ok payload) /\ linked a (transport b') q /\ next_receive b' = next_receive b + 1 /\
    next_send b' = next_send b /\ poisoned b' = false.
Proof.
  intros Hl Hp Hn Hlen Hc Hmax. pose proof (blen_nonneg payload). change MAX_RECORD_PAYLOAD with 65509 in Hlen.
  assert (MIN_RECORD_CIPHERTEXT <= blen c) as Hmin.
  { rewrite Hc. unfold plaintext_of. rewrite !blen_app, !blen_be. unfold MIN_RECORD_CIPHERTEXT, INNER_HEADER. lia. }
  destruct (link_read _ _ _ _ _ Hl) as (t & Hr & Hq). unfold open, open_once. rewrite Hp, exact_ciphertext_frame by done. rewrite Hr.
  rewrite exact_plaintext_of, Z.eqb_refl by (unfold is_uint, U64_MAX, U16_MAX in *; lia).
  rewrite (proj2 (checked_add_u64_Some _ _ _)) by (split; [reflexivity | lia]). by eexists.
Qed.

(** * The session under an adversary *)

Section adversary.
Context {T : Type} `{NoiseTransport T}.

(** Two peers, what one has sealed, what the other has opened, and whether it refused a record. *)
Record World : Type := mkWorld {
  w_sender : AuthenticatedSession T;
  w_receiver : AuthenticatedSession T;
  w_sealed : list bytes;
  w_opened : list bytes;
  w_refused : bool
}.

(** What the sender's transport has written. *)
Definition plaintexts (sealed : list bytes) : list bytes := imap (fun n payload => plaintext_of (Z.of_nat n) payload) sealed.

(** Integrity of the cipher and nothing more: bytes the receiver's transport authenticates are
    some plaintext its peer wrote in this session.  A record may be old, repeated or out of
    order and still authenticate; that it is not taken is what the sequence is for. *)
Definition authentic (w : World) (framed : bytes) : Prop := forall c t p,
  exact_ciphertext framed = Some c -> t_read c (transport (w_receiver w)) = (t, Some p) -> p ∈ plaintexts (w_sealed w).

Inductive session_step : World -> World -> Prop :=
| step_seal w payload a framed : seal payload (w_sender w) = (a, Ok framed) ->
    session_step w (mkWorld a (w_receiver w) (w_sealed w ++ [payload]) (w_opened w) (w_refused w))
| step_seal_refused w payload a e : seal payload (w_sender w) = (a, Err e) ->
    session_step w (mkWorld a (w_receiver w) (w_sealed w) (w_opened w) (w_refused w))
| step_open w framed b payload : authentic w framed -> open framed (w_receiver w) = (b, Ok payload) ->
    session_step w (mkWorld (w_sender w) b (w_sealed w) (w_opened w ++ [payload]) (w_refused w))
| step_open_refused w framed b e : authentic w framed -> open framed (w_receiver w) = (b, Err e) ->
    session_step w (mkWorld (w_sender w) b (w_sealed w) (w_opened w) true).

Inductive session_reachable (a b : T) (ta tb : bytes) : World -> Prop :=
| reach_start : session_reachable a b ta tb (mkWorld (session_new a ta) (session_new b tb) [] [] false)
| reach_step w w' : session_reachable a b ta tb w -> session_step w w' -> session_reachable a b ta tb w'.

Record world_inv (w : World) : Prop := {
  winv_prefix : w_opened w `prefix_of` w_sealed w;
  winv_send : next_send (w_sender w) = Z.of_nat (length (w_sealed w));
  winv_receive : next_receive (w_receiver w) = Z.of_nat (length (w_opened w));
  winv_max : Z.of_nat (length (w_sealed w)) <= U64_MAX;
  winv_payloads : Forall (fun payload => blen payload <= MAX_RECORD_PAYLOAD) (w_sealed w);
  winv_poisoned : w_refused w = true -> poisoned (w_receiver w) = true
}.

(** Of the plaintexts the sender wrote, the receiver takes only the one its sequence names. *)
Lemma taken_in_order sealed n p payload : p ∈ plaintexts sealed ->
  Forall (fun payload => blen payload <= MAX_RECORD_PAYLOAD) sealed -> Z.of_nat (length sealed) <= U64_MAX ->
  exact_plaintext (Z.of_nat n) p = Some payload -> sealed !! n = Some payload.
Proof.
  intros [k Hk]%list_elem_of_lookup_1 Hall Hmax Hp. unfold plaintexts in Hk. rewrite list_lookup_imap in Hk.
  apply fmap_Some in Hk as (x & Hx & ->). pose proof (proj1 (Forall_lookup _ _) Hall _ _ Hx) as Hlen. cbn in Hlen.
  pose proof (lookup_lt_Some _ _ _ Hx). rewrite exact_plaintext_of in Hp;
    [ | unfold is_uint, U64_MAX in *; lia | change MAX_RECORD_PAYLOAD with 65509 in Hlen; unfold U16_MAX; lia].
  destruct (Z.eqb_spec (Z.of_nat k) (Z.of_nat n)) as [Heq | ]; [ | done]. injection Hp as <-. by replace n with k by lia.
Qed.

Lemma prefix_snoc_lookup {A} (l k : list A) x : l `prefix_of` k -> k !! length l = Some x -> l ++ [x] `prefix_of` k.
Proof.
  intros [r ->] Hx. rewrite lookup_app_r, Nat.sub_diag in Hx by lia. destruct r as [ | y r]; [done | ]. injection Hx as ->.
  exists r. by rewrite <- app_assoc.
Qed.

Lemma world_step w w' : session_step w w' -> world_inv w -> world_inv w'.
Proof.
  intros Hstep [Hpre Hs Hr Hmax Hall Hpo].
  destruct Hstep as [w payload a framed Hseal | w payload a e Hseal | w framed b payload Hauth Hopen | w framed b e Hauth Hopen].
  - apply seal_Ok in Hseal as (c & _ & _ & Hp & _ & Hn & Hm & _). split; cbn; try done.
    + by apply prefix_app_r.
    + rewrite length_app. cbn. lia.
    + rewrite length_app. cbn. lia.
    + apply Forall_app. by repeat constructor.
  - apply seal_Err in Hseal as (Hn & _). split; cbn; try done. by rewrite Hn.
  - apply open_Ok in Hopen as (c & p & Hc & Hread & Hp & Hn & _ & _ & Hnp & _). specialize (Hauth c _ p Hc Hread).
    rewrite Hr in Hp, Hn. split; cbn; try done.
    + apply prefix_snoc_lookup; [done | ]. by eapply taken_in_order.
    + rewrite length_app. cbn. lia.
    + intros Href. specialize (Hpo Href). congruence.
  - apply open_Err in Hopen as (_ & Hn & Hb). split; cbn; try done. by rewrite Hn.
Qed.

(** Nothing is opened after the first record refused. *)
Lemma world_refused w w' : session_step w w' -> world_inv w -> w_refused w = true -> w_opened w' = w_opened w /\ w_refused w' = true.
Proof.
  intros Hstep Hw Hp. destruct Hstep as [w payload a framed Hseal | w payload a e Hseal | w framed b payload Hauth Hopen | w framed b e Hauth Hopen]; try done.
  apply open_Ok in Hopen as (? & ? & ? & ? & ? & ? & ? & ? & ? & ?). pose proof (winv_poisoned w Hw Hp). congruence.
Qed.
End adversary.
Arguments World : clear implicits.

(** C5: whatever records an adversary delivers (dropped, reordered, replayed or made up), and
    even over a transport that authenticates old records again, what a session opens is a
    prefix of what its peer sealed, in order and each payload once; and after the first record
    it refuses it opens nothing any more.  All that is asked of the transport is integrity: what
    it authenticates, its peer wrote. *)
Theorem session_in_order {T : Type} `{NoiseTransport T} (a b : T) (ta tb : bytes) (w : World T) :
  session_reachable a b ta tb w ->
  w_opened w `prefix_of` w_sealed w /\
  (w_refused w = true -> forall w', rtc session_step w w' -> w_opened w' = w_opened w).
Proof.
  intros Hw. assert (world_inv w) as Hinv. { induction Hw as [ | w w' _ IH Hstep]; [by split | by apply (world_step w)]. }
  split; [apply Hinv | ]. intros Hp w' Hsteps. clear Hw. induction Hsteps as [ | w1 w2 w3 Hstep _ IH]; [done | ].
  destruct (world_refused w1 w2 Hstep Hinv Hp) as [<- Hp2]. apply IH; [by eapply world_step | done].
Qed.

(** ** A transport that can be run: the tag is the nonce *)

Module Demo.
Record Toy : Type := mkToy { toy_initiator : bool; toy_out : Z; toy_in : Z }.

Definition tag (n : Z) : bytes := replicate 16 (n mod 256).
#[local] Arguments tag : simpl never.

Lemma tag_bytes n : all_bytes (tag n).
Proof. apply Forall_replicate. unfold is_uint. pose proof (Z.mod_pos_bound n 256). lia. Qed.

#[export] Instance toy_transport : NoiseTransport Toy := {
  t_initiator := toy_initiator;
  t_write p t := if bool_decide (all_bytes p) then (mkToy (toy_initiator t) (toy_out t + 1) (toy_in t), Some (p ++ tag (toy_out t))) else (t, None);
  t_read c t := if bool_decide (drop (length c - 16) c = tag (toy_in t)) then (mkToy (toy_initiator t) (toy_out t) (toy_in t + 1), Some (take (length c - 16) c)) else (t, None)
}.

Fixpoint in_flight (n : Z) (q : list (bytes * bytes)) : Prop :=
  match q with [] => True | (p, c) :: q => c = p ++ tag n /\ in_flight (n + 1) q end.

Lemma in_flight_app n q p : in_flight n q -> in_flight n (q ++ [(p, p ++ tag (n + Z.of_nat (length q)))]).
Proof.
  revert n. induction q as [ | [p0 c0] q IH]; intros n; cbn [app in_flight length]; [intros _; by rewrite Z.add_0_r | ]. intros [-> Hq]. split; [done | ].
  specialize (IH (n + 1) Hq). by replace (n + Z.of_nat (S (length q))) with (n + 1 + Z.of_nat (length q)) by lia.
Qed.

#[export] Instance toy_laws : NoiseLaws Toy.
Proof.
  refine {| linked a b q := in_flight (toy_in b) q /\ toy_out a = toy_in b + Z.of_nat (length q) |}; cbn.
  - intros p a a' c. case_bool_decide as Hp; [ | done]. intros [= <- <-]. split; [by rewrite blen_app | ].
    apply Forall_app. split; [done | ]. apply tag_bytes.
  - intros p a a' b c q [Hq Ho]. case_bool_decide; [ | done]. intros [= <- <-]. cbn. rewrite Ho, length_app. split; [by apply in_flight_app | cbn; lia].
  - intros p c a b q [[-> Hq] Ho]. assert (length (p ++ tag (toy_in b)) - 16 = length p)%nat as -> by (rewrite length_app; unfold tag; rewrite length_replicate; lia).
    rewrite drop_app_length, take_app_length, bool_decide_eq_true_2 by done. eexists. split; [reflexivity | ]. cbn in *. split; [done | lia].
  - intros c a b q [Hq Ho]. by case_bool_decide.
  - intros p a b q [Hq Ho]. by case_bool_decide.
Defined.

Definition host_end : Toy := mkToy true 0 0.
Definition guest_end : Toy := mkToy false 0 0.

Definition sealed_by (payloads : list bytes) : AuthenticatedSession Toy * list bytes :=
  foldl (fun '(s, l) payload => match seal payload s with (s', Ok framed) => (s', l ++ [framed]) | (s', Err _) => (s', l) end)
    (session_new host_end [], []) payloads.

End Demo.

(** ** A transport without nonces, which authenticates every record of its peer again *)

Module Replaying.
Record Lax : Type := mkLax { lax_initiator : bool }.

Definition lax_tag : bytes := replicate 16 170.

#[export] Instance lax_transport : NoiseTransport Lax := {
  t_initiator := lax_initiator;
  t_write p t := (t, Some (p ++ lax_tag));
  t_read c t := if bool_decide (drop (length c - 16) c = lax_tag) then (t, Some (take (length c - 16) c)) else (t, None)
}.

Definition host_end : Lax := mkLax true.
Definition guest_end : Lax := mkLax false.

Definition record_of (n : Z) (payload : bytes) : bytes :=
  let c := plaintext_of n payload ++ lax_tag in be_bytes 2 (blen c) ++ c.

(** The sender after two records, and the receiver after the first, and after the first again. *)
Definition sender : AuthenticatedSession Lax := (seal [2; 3] (seal [1] (session_new host_end [])).1).1.
Definition receiver : AuthenticatedSession Lax := (open (record_of 0 [1]) (session_new guest_end [])).1.
Definition replayed : AuthenticatedSession Lax := (open (record_of 0 [1]) receiver).1.

Definition w1 : World Lax := mkWorld (seal [1] (session_new host_end [])).1 (session_new guest_end []) [[1]] [] false.
Definition w2 : World Lax := mkWorld sender (session_new guest_end []) [[1]; [2; 3]] [] false.
Definition w3 : World Lax := mkWorld sender receiver [[1]; [2; 3]] [[1]] false.
Definition end_world : World Lax := mkWorld sender replayed [[1]; [2; 3]] [[1]] true.

Lemma authentic_first (w : World Lax) : w_sealed w !! 0%nat = Some [1] -> authentic w (record_of 0 [1]).
Proof.
  intros H0 c t p Hc Hr. vm_compute in Hc. injection Hc as <-. vm_compute in Hr. injection Hr as <- <-.
  apply (list_elem_of_lookup_2 _ 0). unfold plaintexts. rewrite list_lookup_imap, H0. reflexivity.
Qed.

(** Two records are sealed; the first is opened and replayed.  The transport authenticates the
    replay, the sequence refuses it, and the second record comes too late. *)
Lemma session_in_order_witness :
  is_Some (t_read (plaintext_of 0 [1] ++ lax_tag) (transport receiver)).2 /\
  (open (record_of 1 [2; 3]) replayed).2 = Err SessionPoisoned /\
  (w_opened end_world `prefix_of` w_sealed end_world /\
    (w_refused end_world = true -> forall w', rtc session_step end_world w' -> w_opened w' = w_opened end_world)).
Proof.
  split; [vm_compute; by eexists | ]. split; [vm_compute; reflexivity | ].
  apply (session_in_order host_end guest_end [] []).
  apply (reach_step _ _ _ _ w3 end_world); [apply (reach_step _ _ _ _ w2 w3); [apply (reach_step _ _ _ _ w1 w2); [apply (reach_step _ _ _ _ _ w1 (reach_start _ _ _ _)) | ] | ] | ].
  - apply (step_seal (mkWorld (session_new host_end []) (session_new guest_end []) [] [] false) [1] _ (record_of 0 [1])). vm_compute. reflexivity.
  - apply (step_seal w1 [2; 3] sender (record_of 1 [2; 3])). vm_compute. reflexivity.
  - apply (step_open w2 (record_of 0 [1]) receiver [1]); [apply authentic_first; reflexivity | vm_compute; reflexivity].
  - apply (step_open_refused w3 (record_of 0 [1]) replayed PeerRecordRejected); [apply authentic_first; reflexivity | vm_compute; reflexivity].
Defined.
End Replaying.
