(* ===== verification/GuestControl.v ===== *)
(** The semantic owners of the guest control session ([soma-guest] control/): the guest that
    repairs, serves one request at a time and reports, and the host that asks, with the ledger of
    operation identities, the accounting of output, whole files and secrets carried by bounded
    requests, and the deadlines; and the agent's directory listing ([soma-guest-agent]
    filesystem/directory.rs).

    A method consumes its owner and gives it back only with [Ok]; what the model leaves behind an
    [Err] is the owner that is dropped.  [Err None] is a panic. *)

From S2P Require Import Prelude Bytes Wire GuestApp GuestAppProps GuestSession.
From stdpp Require Import options.
Local Open Scope Z_scope.

(** * The ledger of operations (control/operation_ledger.rs) *)

Definition MAX_SESSION_OPERATIONS : nat := Z.to_nat 65536.

Definition OperationLedger : Type := gset bytes.

Definition ledger_new (launch : bytes) : OperationLedger := {[ launch ]}.

(** [HashSet::insert] answers whether the value was new. *)
Definition reserve (operation : bytes) (seen : OperationLedger) : OperationLedger * bool :=
  if bool_decide (size seen = MAX_SESSION_OPERATIONS) then (seen, false)
  else if bool_decide (operation ∈ seen) then (seen, false) else ({[ operation ]} ∪ seen, true).

(** * The accounting of output (control/exchange.rs, control/outcome.rs) *)

Record OutputAccounting : Type := mkAccounting { allowance : Z; acc_stdout : bytes; acc_stderr : bytes }.

Definition accounting_new (allowance : Z) : OutputAccounting := mkAccounting allowance [] [].

Definition push (allowance : Z) (stream : bytes) (other_length : Z) (chunk : bytes) : Result bytes unit :=
  let? current := ok_or tt (checked_add_u64 (blen stream) other_length) in
  let? total := ok_or tt (checked_add_u64 current (blen chunk)) in
  if total >? allowance then Err tt else Ok (stream ++ chunk).

Definition push_stdout (a : OutputAccounting) (chunk : bytes) : Result OutputAccounting unit :=
  let? stream := push (allowance a) (acc_stdout a) (blen (acc_stderr a)) chunk in
  Ok (mkAccounting (allowance a) stream (acc_stderr a)).

Definition push_stderr (a : OutputAccounting) (chunk : bytes) : Result OutputAccounting unit :=
  let? stream := push (allowance a) (acc_stderr a) (blen (acc_stdout a)) chunk in
  Ok (mkAccounting (allowance a) (acc_stdout a) stream).

Definition total (a : OutputAccounting) : Result Z unit := ok_or tt (checked_add_u64 (blen (acc_stdout a)) (blen (acc_stderr a))).

Definition u32_try_from (z : Z) : Result Z unit := if z <=? U32_MAX then Ok z else Err tt.

Definition limit_reached (a : OutputAccounting) (status : TerminalStatus) : Result bool unit :=
  if bool_decide (status = OutputLimit) then let? t := total a in Ok (t =? allowance a) else Ok true.

Definition report (a : OutputAccounting) (status : TerminalStatus) : Result TerminalReport unit :=
  let? reached := limit_reached a status in
  if negb reached then Err tt
  else
    let? stdout := u32_try_from (blen (acc_stdout a)) in
    let? stderr := u32_try_from (blen (acc_stderr a)) in
    map_err (fun _ => tt) (report_new status stdout stderr).

Definition validate (a : OutputAccounting) (r : TerminalReport) : Result unit unit :=
  if negb (stdout_bytes r =? blen (acc_stdout a)) then Err tt
  else if negb (stderr_bytes r =? blen (acc_stderr a)) then Err tt
  else let? reached := limit_reached a (report_status r) in if negb reached then Err tt else Ok tt.

Record ExecuteOutcome : Type := mkOutcome { outcome_status : TerminalStatus; outcome_stdout : bytes; outcome_stderr : bytes }.

(** * Deadlines (control/deadline.rs)

    Durations in milliseconds. *)

Definition HANDSHAKE_BUDGET : Z := 10000.
Definition REPAIR_BUDGET : Z := 5000.
Definition SHUTDOWN_BUDGET : Z := 5000.
Definition FILE_BUDGET : Z := 10000.
Definition EXECUTE_DELIVERY_GRACE : Z := 1000.
Definition PTY_BUDGET : Z := 10000.
Definition PTY_DELIVERY_GRACE : Z := 1000.

Definition command_budget (c : GuestCommand) : Z := timeout_millis c + EXECUTE_DELIVERY_GRACE.

Definition pty_budget (r : PtyRequest) : Z :=
  match r with Pty_Read wait_millis => wait_millis + PTY_DELIVERY_GRACE | _ => PTY_BUDGET end.

Definition after {I} `{ControlIo I} (budget : Z) (i : I) : Z :=
  let now := io_now i in match io_after now budget with Some instant => instant | None => now end.

(** * The guest (control/guest.rs, guest_state.rs, guest_idle.rs, guest_file.rs, guest_pty.rs, request.rs) *)

Record ActiveExchange : Type := mkExchange { ex_operation : bytes; ex_accounting : OutputAccounting }.

Inductive GuestState : Type :=
| AwaitPrepare (operation : bytes)
| PrepareReporting (operation : bytes)
| RepairedIdle
| ExecuteStreaming (exchange : ActiveExchange)
| FilePending (operation : bytes)
| PtyPending (operation : bytes)
| ShutdownPending (operation : bytes).

Definition active_stage (s : GuestState) : ControlStage :=
  match s with
  | AwaitPrepare _ | PrepareReporting _ => Stage_Repair
  | RepairedIdle | ExecuteStreaming _ => Stage_Execute
  | FilePending _ => Stage_File
  | PtyPending _ => Stage_Pty
  | ShutdownPending _ => Stage_Shutdown
  end.

Definition receive_stage (s : GuestState) : ControlStage :=
  match s with AwaitPrepare _ => Stage_Repair | RepairedIdle => Stage_Execute | _ => active_stage s end.

Inductive GuestRequest : Type :=
| Request_Prepare (operation : bytes)
| Request_Execute (operation : bytes) (command : GuestCommand)
| Request_File (operation : bytes) (request : FileRequest)
| Request_Pty (operation : bytes) (request : PtyRequest)
| Request_Shutdown (operation : bytes).

Definition request_operation (r : GuestRequest) : bytes :=
  match r with
  | Request_Prepare o | Request_Execute o _ | Request_File o _ | Request_Pty o _ | Request_Shutdown o => o
  end.

Section guest.
Context {T I : Type} `{NoiseTransport T} `{ControlIo I}.

Record GuestControl : Type := mkGuest {
  g_channel : AuthChannel T I;
  g_state : GuestState;
  g_operations : OperationLedger
}.

(** An operation of the channel on the owner's channel. *)
Definition on_channel {A} (p : ST (AuthChannel T I) (option ControlError) A) : ST GuestControl (option ControlError) A := fun g =>
  let '(c, r) := p (g_channel g) in (mkGuest c (g_state g) (g_operations g), r).

Definition become (s : GuestState) : ST GuestControl (option ControlError) unit := fun g =>
  (mkGuest (g_channel g) s (g_operations g), Ok tt).

Definition idle_accept (request : HostMessage) : ST GuestControl (option ControlError) GuestRequest := fun g =>
  let serve stage operation state accepted :=
    let '(operations, fresh) := reserve operation (g_operations g) in
    if negb fresh then on_channel (fail stage Class_Lifecycle) (mkGuest (g_channel g) (g_state g) operations)
    else (mkGuest (g_channel g) state operations, Ok accepted) in
  match request with
  | Host_Prepare _ => on_channel (fail Stage_Repair Class_Lifecycle) g
  | Host_Execute operation command =>
      serve Stage_Execute operation (ExecuteStreaming (mkExchange operation (accounting_new (output_bytes command)))) (Request_Execute operation command)
  | Host_File operation request => serve Stage_File operation (FilePending operation) (Request_File operation request)
  | Host_Pty operation request => serve Stage_Pty operation (PtyPending operation) (Request_Pty operation request)
  | Host_Shutdown operation => serve Stage_Shutdown operation (ShutdownPending operation) (Request_Shutdown operation)
  end.

Definition next_request (deadline : Z) : ST GuestControl (option ControlError) GuestRequest := fun g =>
  match g_state g with
  | AwaitPrepare expected =>
      (request <-- on_channel (or_fail (receive_stage (g_state g)) (receive_host deadline)) ;;
       match request with
       | Host_Prepare operation =>
           if bool_decide (operation = expected) then become (PrepareReporting operation) ;;; st_ret (Request_Prepare operation)
           else on_channel (fail Stage_Repair Class_Protocol)
       | _ => on_channel (fail Stage_Repair Class_Lifecycle)
       end) g
  | RepairedIdle => (request <-- on_channel (or_fail (receive_stage (g_state g)) (receive_host deadline)) ;; idle_accept request) g
  | state => on_channel (fail (active_stage state) Class_Lifecycle) g
  end.

(** A report made in one state, refused in every other. *)
Definition refuse {A} : ST GuestControl (option ControlError) A := fun g =>
  on_channel (fail (active_stage (g_state g)) Class_Lifecycle) g.

Definition repair_complete (deadline : Z) : ST GuestControl (option ControlError) unit := fun g =>
  match g_state g with
  | PrepareReporting operation =>
      (on_channel (or_fail Stage_Repair (send_guest (Guest_RepairComplete operation) deadline)) ;;; become RepairedIdle) g
  | _ => refuse g
  end.

Definition output (raw : bytes) (stdout : bool) (deadline : Z) : ST GuestControl (option ControlError) unit := fun g =>
  match g_state g with
  | ExecuteStreaming exchange =>
      match chunk_new raw with
      | Err _ => on_channel (fail Stage_Execute Class_Accounting) g
      | Ok chunk =>
          match (if stdout then push_stdout else push_stderr) (ex_accounting exchange) chunk with
          | Err _ => on_channel (fail Stage_Execute Class_Accounting) g
          | Ok accounting =>
              let message := if stdout then Guest_Stdout (ex_operation exchange) chunk else Guest_Stderr (ex_operation exchange) chunk in
              (on_channel (or_fail Stage_Execute (send_guest message deadline)) ;;;
               become (ExecuteStreaming (mkExchange (ex_operation exchange) accounting))) g
          end
      end
  | _ => refuse g
  end.

Definition terminal (status : TerminalStatus) (deadline : Z) : ST GuestControl (option ControlError) unit := fun g =>
  match g_state g with
  | ExecuteStreaming exchange =>
      match report (ex_accounting exchange) status with
      | Err _ => on_channel (fail Stage_Execute Class_Accounting) g
      | Ok r => (on_channel (or_fail Stage_Execute (send_guest (Guest_Terminal (ex_operation exchange) r) deadline)) ;;; become RepairedIdle) g
      end
  | _ => refuse g
  end.

Definition file_outcome (outcome : FileOutcome) (deadline : Z) : ST GuestControl (option ControlError) unit := fun g =>
  match g_state g with
  | FilePending operation =>
      (on_channel (or_fail Stage_File (send_guest (Guest_FileOutcome operation outcome) deadline)) ;;; become RepairedIdle) g
  | _ => refuse g
  end.

Definition pty_outcome (outcome : PtyOutcome) (deadline : Z) : ST GuestControl (option ControlError) unit := fun g =>
  match g_state g with
  | PtyPending operation =>
      (on_channel (or_fail Stage_Pty (send_guest (Guest_PtyOutcome operation outcome) deadline)) ;;; become RepairedIdle) g
  | _ => refuse g
  end.

(** The acknowledgement ends the session: the owner is not given back. *)
Definition shutdown_ack (deadline : Z) : ST GuestControl (option ControlError) unit := fun g =>
  match g_state g with
  | ShutdownPending operation => on_channel (or_fail Stage_Shutdown (send_guest (Guest_ShutdownAck operation) deadline)) g
  | _ => refuse g
  end.

Definition guest_start (channel : AuthChannel T I) (launch_operation : bytes) : GuestControl :=
  mkGuest channel (AwaitPrepare launch_operation) (ledger_new launch_operation).
End guest.
Arguments GuestControl : clear implicits.

(** * The host (control/host.rs, control/host/) *)

Definition message_operation (m : GuestMessage) : bytes :=
  match m with
  | Guest_RepairComplete o | Guest_Stdout o _ | Guest_Stderr o _ | Guest_Terminal o _ | Guest_FileOutcome o _
  | Guest_PtyOutcome o _ | Guest_ShutdownAck o => o
  end.

(** ** Whole files and secrets (host/whole_file.rs, host/secret.rs, secret/file.rs, secret/value.rs) *)

Inductive WholeFileRead : Type := WholeRead_Bytes (raw : bytes) | WholeRead_TooLarge | WholeRead_Failed (failure : FileFailure).

Inductive WholeFileWrite : Type := WholeWrite_Written | WholeWrite_TooLarge | WholeWrite_Failed (failure : FileFailure).

Definition MAX_SECRET_BYTES : Z := 4096.
(** [0o400], [0o600], [0o077] *)
Definition DEFAULT_SECRET_FILE_MODE : Z := 256.
Definition PRIVATE_CREATE_MODE : Z := 384.

Definition secret_value_new (raw : bytes) : Result bytes Error :=
  if bool_decide (raw = []) || (blen raw >? MAX_SECRET_BYTES) then Err InvalidSecret else Ok raw.

Record SecretFile : Type := mkSecretFile { secret_path : bytes; secret_mode : Z; secret_value : bytes }.

Definition secret_new (path : bytes) (mode : option Z) (value : bytes) : Result SecretFile Error :=
  let? _ := map_err (fun _ => InvalidSecret) (check_path path) in
  let mode := match mode with Some mode => mode | None => DEFAULT_SECRET_FILE_MODE end in
  if (mode >? MAX_FILE_MODE) || negb (Z.land mode 63 =? 0) || (Z.land mode 256 =? 0) then Err InvalidSecret
  else Ok (mkSecretFile path mode value).

(** [rposition] of a separator. *)
Fixpoint rposition (b : Z) (l : bytes) : option nat :=
  match l with
  | [] => None
  | x :: l => match rposition b l with Some n => Some (S n) | None => if x =? b then Some O else None end
  end.

Definition secret_parent (s : SecretFile) : option bytes :=
  match rposition SLASH (secret_path s) with
  | None | Some O => None
  | Some separator => Some (take separator (secret_path s))
  end.

Inductive SecretStage : Type := Secret_Directory | Secret_Create | Secret_Write | Secret_Mode.

Inductive SecretPlacement : Type := Placed | Refused (stage : SecretStage) (failure : FileFailure).

Definition refusal (outcome : FileOutcome) (stage : SecretStage) : option SecretPlacement :=
  match outcome with
  | Out_Done => None
  | Out_Failed failure => Some (Refused stage failure)
  | _ => Some (Refused stage FileFailure_Failed)
  end.

(** ** Activation of a network assignment (activation.rs)

    The keyed tag is the [snow] crate's. *)

(** ["SOMA-NETWORK-ACTIVATION\0"] *)
Definition ACTIVATION_DOMAIN : bytes :=
  [83; 79; 77; 65; 45; 78; 69; 84; 87; 79; 82; 75; 45; 65; 67; 84; 73; 86; 65; 84; 73; 79; 78; 0].
Definition ACTIVATION_SCHEMA_VERSION : Z := 1.

Record ActivationScope : Type := mkScope { scope_instance : bytes; scope_operation : bytes; scope_generation : Z; scope_intent : bytes }.

Definition scope_new (instance operation : bytes) (generation : Z) (intent : bytes) : Result ActivationScope Error :=
  if all_zero instance || all_zero operation || (generation =? 0) || all_zero intent then Err InvalidActivationScope
  else Ok (mkScope instance operation generation intent).

Definition scope_message (s : ActivationScope) (transcript : bytes) : bytes :=
  ACTIVATION_DOMAIN ++ be_bytes 2 ACTIVATION_SCHEMA_VERSION ++ scope_instance s ++ scope_operation s ++ be_bytes 4 (scope_generation s) ++
  scope_intent s ++ transcript.

Record ActivationReceipt : Type := mkActivationReceipt { receipt_transcript : bytes; receipt_tag : bytes }.

Section host.
Context {T I : Type} `{NoiseTransport T} `{ControlIo I}.

(** [HostControl] before repair, which has the launch operation too, and [RepairedHostControl]. *)
Record HostControl : Type := mkHost { h_channel : AuthChannel T I; h_binding : SessionBinding; h_operations : OperationLedger }.

Definition on_host {A} (p : ST (AuthChannel T I) (option ControlError) A) : ST HostControl (option ControlError) A := fun h =>
  let '(c, r) := p (h_channel h) in (mkHost c (h_binding h) (h_operations h), r).

Definition deadline_after (budget : Z) : ST HostControl (option ControlError) Z := fun h =>
  (h, Ok (after budget (inner (ch_io (h_channel h))))).

Definition reserve_or_fail (stage : ControlStage) (operation : bytes) : ST HostControl (option ControlError) unit := fun h =>
  let '(operations, fresh) := reserve operation (h_operations h) in
  let h := mkHost (h_channel h) (h_binding h) operations in
  if fresh : bool then (h, Ok tt) else on_host (fail stage Class_Lifecycle) h.

Definition channel_commit (deadline : Z) : ST (AuthChannel T I) (option ControlError) unit := fun c =>
  match commit_repair deadline (ch_io c) with
  | (o, Ok _) => (with_io c o, Ok tt)
  | (o, Err _) => fail Stage_Repair Class_Io (with_io c o)
  end.

Definition prepare (launch_operation : bytes) : ST HostControl (option ControlError) unit :=
  deadline <-- deadline_after REPAIR_BUDGET ;;
  on_host (or_fail Stage_Repair (send_host (Host_Prepare launch_operation) deadline)) ;;;
  repair <-- on_host (or_fail Stage_Repair (receive_guest deadline)) ;;
  match repair with
  | Guest_RepairComplete operation =>
      if bool_decide (operation = launch_operation) then on_host (channel_commit deadline)
      else on_host (fail Stage_Repair Class_Protocol)
  | _ => on_host (fail Stage_Repair Class_Lifecycle)
  end.

(** The loop of [execute]; [Ok None] is a loop that ran out of fuel. *)
Fixpoint execute_loop (fuel : nat) (operation : bytes) (deadline : Z) (accounting : OutputAccounting) :
    ST HostControl (option ControlError) (option ExecuteOutcome) :=
  match fuel with
  | O => st_ret None
  | S fuel =>
      response <-- on_host (or_fail Stage_Execute (receive_guest deadline)) ;;
      if negb (bool_decide (message_operation response = operation)) then on_host (fail Stage_Execute Class_Protocol)
      else
        match response with
        | Guest_Stdout _ chunk =>
            match push_stdout accounting chunk with
            | Err _ => on_host (fail Stage_Execute Class_Accounting)
            | Ok accounting => execute_loop fuel operation deadline accounting
            end
        | Guest_Stderr _ chunk =>
            match push_stderr accounting chunk with
            | Err _ => on_host (fail Stage_Execute Class_Accounting)
            | Ok accounting => execute_loop fuel operation deadline accounting
            end
        | Guest_Terminal _ r =>
            match validate accounting r with
            | Err _ => on_host (fail Stage_Execute Class_Accounting)
            | Ok _ => st_ret (Some (mkOutcome (report_status r) (acc_stdout accounting) (acc_stderr accounting)))
            end
        | _ => on_host (fail Stage_Execute Class_Lifecycle)
        end
  end.

(** Every chunk carries a byte, so the allowance bounds the messages before the terminal one. *)
Definition execute_fuel (c : GuestCommand) : nat := S (Z.to_nat (output_bytes c)).

Definition execute (operation : bytes) (command : GuestCommand) : ST HostControl (option ControlError) (option ExecuteOutcome) :=
  reserve_or_fail Stage_Execute operation ;;;
  deadline <-- deadline_after (command_budget command) ;;
  on_host (or_fail Stage_Execute (send_host (Host_Execute operation command) deadline)) ;;;
  execute_loop (execute_fuel command) operation deadline (accounting_new (output_bytes command)).

Definition shutdown (operation : bytes) : ST HostControl (option ControlError) unit :=
  reserve_or_fail Stage_Shutdown operation ;;;
  deadline <-- deadline_after SHUTDOWN_BUDGET ;;
  on_host (or_fail Stage_Shutdown (send_host (Host_Shutdown operation) deadline)) ;;;
  response <-- on_host (or_fail Stage_Shutdown (receive_guest deadline)) ;;
  match response with
  | Guest_ShutdownAck response_operation =>
      if bool_decide (response_operation = operation) then st_ret tt else on_host (fail Stage_Shutdown Class_Protocol)
  | _ => on_host (fail Stage_Shutdown Class_Lifecycle)
  end.

(** [fresh_operation]: operating-system randomness, refused when it is all zero (host/operation.rs). *)
Definition fresh_operation : ST HostControl (option ControlError) (option bytes) := fun h =>
  let c := h_channel h in
  let '(i, r) := io_random (inner (ch_io c)) in
  (mkHost (with_io c (set_inner (ch_io c) i)) (h_binding h) (h_operations h),
   Ok (match r with Some raw => match operation_new raw with Ok operation => Some operation | Err _ => None end | None => None end)).

(** One question and one answer (host/file.rs, host/pty.rs). *)
Definition ask (stage : ControlStage) (budget : Z) (message : bytes -> HostMessage) : ST HostControl (option ControlError) GuestMessage :=
  minted <-- fresh_operation ;;
  match minted with
  | None => on_host (fail stage Class_Io)
  | Some operation =>
      reserve_or_fail stage operation ;;;
      deadline <-- deadline_after budget ;;
      on_host (or_fail stage (send_host (message operation) deadline)) ;;;
      response <-- on_host (or_fail stage (receive_guest deadline)) ;;
      if negb (bool_decide (message_operation response = operation)) then on_host (fail stage Class_Protocol) else st_ret response
  end.

Definition file (request : FileRequest) : ST HostControl (option ControlError) FileOutcome :=
  response <-- ask Stage_File FILE_BUDGET (fun operation => Host_File operation request) ;;
  match response with Guest_FileOutcome _ outcome => st_ret outcome | _ => on_host (fail Stage_File Class_Lifecycle) end.

Definition pty (request : PtyRequest) : ST HostControl (option ControlError) PtyOutcome :=
  response <-- ask Stage_Pty (pty_budget request) (fun operation => Host_Pty operation request) ;;
  match response with Guest_PtyOutcome _ outcome => st_ret outcome | _ => on_host (fail Stage_Pty Class_Lifecycle) end.

(** The loops over whole files; [Ok None] is a loop that ran out of fuel. *)
Fixpoint read_loop (fuel : nat) (path : bytes) (maximum : Z) (collected : bytes) (offset : Z) :
    ST HostControl (option ControlError) (option WholeFileRead) :=
  match fuel with
  | O => st_ret None
  | S fuel =>
      let wanted := Z.min (maximum - blen collected) MAX_CHUNK_BYTES in
      if wanted =? 0 then st_ret (Some WholeRead_TooLarge)
      else
        outcome <-- file (File_Read path offset (Z.min U32_MAX wanted)) ;;
        match outcome with
        | Out_Read raw at_end =>
            if (blen raw >? wanted) || (bool_decide (raw = []) && negb at_end) then on_host (fail Stage_File Class_Protocol)
            else if at_end : bool then st_ret (Some (WholeRead_Bytes (collected ++ raw)))
            else read_loop fuel path maximum (collected ++ raw) (saturating_add U64_MAX offset (blen raw))
        | Out_Failed failure => st_ret (Some (WholeRead_Failed failure))
        | _ => on_host (fail Stage_File Class_Protocol)
        end
  end.

Definition read_whole_file (path : bytes) (maximum : Z) : ST HostControl (option ControlError) (option WholeFileRead) :=
  read_loop (S (Z.to_nat maximum)) path maximum [] 0.

Fixpoint write_loop (fuel : nat) (path : bytes) (offset : Z) (remaining : bytes) :
    ST HostControl (option ControlError) (option WholeFileWrite) :=
  match fuel with
  | O => st_ret None
  | S fuel =>
      let at_byte := Z.to_nat (Z.min (blen remaining) MAX_CHUNK_BYTES) in
      let chunk := take at_byte remaining in
      let rest := drop at_byte remaining in
      let last := bool_decide (rest = []) in
      outcome <-- file (File_Write path offset (offset =? 0) last chunk) ;;
      match outcome with
      | Out_Written written =>
          if negb (written =? blen chunk) then on_host (fail Stage_File Class_Protocol)
          else if last then st_ret (Some WholeWrite_Written)
          else write_loop fuel path (saturating_add U64_MAX offset (blen chunk)) rest
      | Out_Failed failure => st_ret (Some (WholeWrite_Failed failure))
      | _ => on_host (fail Stage_File Class_Protocol)
      end
  end.

Definition write_whole_file (path raw : bytes) (maximum : Z) : ST HostControl (option ControlError) (option WholeFileWrite) :=
  if blen raw >? maximum then st_ret (Some WholeWrite_TooLarge) else write_loop (S (length raw)) path 0 raw.

(** A step of a delivery that the guest must answer with a plain completion. *)
Definition secret_step (request : FileRequest) (stage : SecretStage)
    (k : ST HostControl (option ControlError) (option SecretPlacement)) : ST HostControl (option ControlError) (option SecretPlacement) :=
  outcome <-- file request ;; match refusal outcome stage with Some refused => st_ret (Some refused) | None => k end.

(** From the creation of the file on, with its directory there. *)
Definition secret_deliver (s : SecretFile) : ST HostControl (option ControlError) (option SecretPlacement) :=
  secret_step (File_Create (secret_path s) PRIVATE_CREATE_MODE) Secret_Create
    (written <-- write_whole_file (secret_path s) (secret_value s) MAX_SECRET_BYTES ;;
     match written with
     | None => st_ret None
     | Some (WholeWrite_Failed failure) => st_ret (Some (Refused Secret_Write failure))
     | Some WholeWrite_TooLarge => st_ret (Some (Refused Secret_Write FileFailure_Failed))
     | Some WholeWrite_Written => secret_step (File_SetMode (secret_path s) (secret_mode s)) Secret_Mode (st_ret (Some Placed))
     end).

Definition place_secret (s : SecretFile) : ST HostControl (option ControlError) (option SecretPlacement) :=
  match secret_parent s with
  | Some parent => secret_step (File_MakeDirectory parent true) Secret_Directory (secret_deliver s)
  | None => secret_deliver s
  end.

(** A call on [&self]: nothing of the owner changes (host/network.rs). *)
Definition network_activation (keyed_tag : bytes -> bytes -> Result bytes Error) (challenge : bytes) (generation : Z) (intent : bytes)
    (h : HostControl) : Result ActivationReceipt Error :=
  let? scope := scope_new (sb_instance (h_binding h)) (sb_operation (h_binding h)) generation intent in
  let transcript := transcript (ch_session (h_channel h)) in
  let? tag := keyed_tag challenge (scope_message scope transcript) in
  Ok (mkActivationReceipt transcript tag).

Fixpoint place_secrets (secrets : list SecretFile) : ST HostControl (option ControlError) (option SecretPlacement) :=
  match secrets with
  | [] => st_ret (Some Placed)
  | s :: secrets =>
      placement <-- place_secret s ;;
      match placement with Some Placed => place_secrets secrets | other => st_ret other end
  end.
End host.
Arguments HostControl : clear implicits.

(** * The agent's directory listing ([soma-guest-agent] filesystem/directory.rs)

    [items] is what [read_dir] yields after the entries skipped: each an error or a name with
    the kind that was read. *)
Fixpoint list_items (items : list (Result DirectoryEntry FileFailure)) (entries : list DirectoryEntry) : FileOutcome :=
  match items with
  | [] => Out_Listed entries false
  | Err failure :: _ => Out_Failed failure
  | Ok item :: items =>
      if Z.of_nat (length entries) =? MAX_ENTRIES then Out_Listed entries true
      else if bool_decide (entry_name item = []) || (blen (entry_name item) >? MAX_PATH_BYTES) then Out_Failed FileFailure_Failed
      else list_items items (entries ++ [item])
  end.

Definition list_directory (items : Result (list (Result DirectoryEntry FileFailure)) FileFailure) (offset : nat) : FileOutcome :=
  match items with Err failure => Out_Failed failure | Ok items => list_items (drop offset items) [] end.

(** * A failure poisons the transport, once *)

Section strict.
Context {T I : Type} `{NoiseTransport T} `{ControlIo I}.

Definition flag (c : AuthChannel T I) : bool := io_poisoned (ch_io c).

(** Started on a transport that is not poisoned, success leaves it so and a failure poisons it. *)
Definition strict {S A} (channel : S -> AuthChannel T I) (p : ST S (option ControlError) A) : Prop := forall s,
  flag (channel s) = false ->
  match p s with
  | (s', Ok _) => flag (channel s') = false
  | (s', Err (Some _)) => flag (channel s') = true
  | (_, Err None) => True
  end.

Section rules.
Context {S : Type} (channel : S -> AuthChannel T I).

Lemma strict_ret {A} (a : A) : strict channel (st_ret a).
Proof. by intros s. Qed.

Lemma strict_bind {A B} (p : ST S (option ControlError) A) (k : A -> ST S (option ControlError) B) :
  strict channel p -> (forall a, strict channel (k a)) -> strict channel (st_bind p k).
Proof.
  intros Hp Hk s Hs. specialize (Hp s Hs). unfold st_bind. destruct (p s) as [s' [a | [e | ]]]; [by apply Hk | done | done].
Qed.

Lemma strict_if {A} (b : bool) (p q : ST S (option ControlError) A) : strict channel p -> strict channel q -> strict channel (if b then p else q).
Proof. by destruct b. Qed.
End rules.

(** What moves bytes leaves the flag alone. *)
Definition keeps {E A} (p : ST (AuthChannel T I) E A) : Prop := forall c, flag (p c).1 = flag c.

Lemma keeps_bind {E A B} (p : ST (AuthChannel T I) E A) (k : A -> ST (AuthChannel T I) E B) :
  keeps p -> (forall a, keeps (k a)) -> keeps (st_bind p k).
Proof. intros Hp Hk c. unfold st_bind. specialize (Hp c). destruct (p c) as [c' [a | e]]; cbn in *; [by rewrite Hk | done]. Qed.

Lemma keeps_send payload d : keeps (send payload d).
Proof. intros c. unfold send, write_all. destruct (seal _ _) as [s [r | e]]; [ | done]. by destruct (io_write _ _ _) as [i [ | ]]. Qed.

Lemma keeps_send_encoded l d : keeps (send_encoded l d).
Proof. destruct l as [[payload | e] | ]; [apply keeps_send | done | done]. Qed.

Lemma keeps_receive d : keeps (receive d).
Proof.
  intros c. unfold receive, read_frame. destruct (io_read _ _ _) as [i [header | ]]; [ | done].
  match goal with |- context [if ?b then _ else _] => destruct b end; [done | ].
  destruct (io_read _ _ _) as [i' [rest | ]]; [ | done]. by destruct (open _ _).
Qed.

Lemma keeps_receive_host d : keeps (receive_host d).
Proof. apply keeps_bind; [apply keeps_receive | ]. by intros l c. Qed.

Lemma keeps_receive_guest d : keeps (receive_guest d).
Proof. apply keeps_bind; [apply keeps_receive | ]. by intros l c. Qed.

Lemma poison_flag c : flag c = false -> flag (with_io c (poison_once (ch_io c))) = true.
Proof. unfold poison_once, flag. cbn. by intros ->. Qed.

Lemma strict_fail {A} stage class : strict id (fail (A := A) stage class).
Proof. intros c Hc. by apply poison_flag. Qed.

Lemma strict_or_fail {A} stage (p : ST (AuthChannel T I) (option ChannelFailure) A) : keeps p -> strict id (or_fail stage p).
Proof.
  intros Hp c Hc. unfold or_fail. specialize (Hp c). cbn in Hc. destruct (p c) as [c' [a | [f | ]]]; cbn in *; [congruence | | done].
  apply poison_flag. congruence.
Qed.

Lemma strict_commit d : strict id (channel_commit d).
Proof.
  intros c Hc. unfold channel_commit, commit_repair. destruct (io_commit d _) as [i []]; [done | ]. by apply poison_flag.
Qed.

Lemma strict_on_channel {A} (p : ST (AuthChannel T I) (option ControlError) A) : strict id p -> strict g_channel (on_channel p).
Proof. intros Hp g Hg. specialize (Hp (g_channel g) Hg). unfold on_channel. by destruct (p (g_channel g)) as [c [a | [e | ]]]. Qed.

Lemma strict_on_host {A} (p : ST (AuthChannel T I) (option ControlError) A) : strict id p -> strict h_channel (on_host p).
Proof. intros Hp h Hh. specialize (Hp (h_channel h) Hh). unfold on_host. by destruct (p (h_channel h)) as [c [a | [e | ]]]. Qed.

Lemma strict_become s : strict (@g_channel T I) (become s).
Proof. by intros g. Qed.

Lemma strict_deadline b : strict h_channel (deadline_after b).
Proof. by intros h. Qed.

Lemma strict_fresh : strict h_channel fresh_operation.
Proof. intros h Hh. unfold fresh_operation. by destruct (io_random _). Qed.

Lemma strict_reserve stage operation : strict h_channel (reserve_or_fail stage operation).
Proof.
  intros h Hh. unfold reserve_or_fail. destruct (reserve _ _) as [ops []]; [done | ]. exact (strict_on_host _ (strict_fail (A := unit) stage Class_Lifecycle) (mkHost (h_channel h) (h_binding h) ops) Hh).
Qed.
End strict.

Create HintDb strict discriminated.
#[export] Hint Resolve strict_ret strict_fail strict_or_fail strict_commit strict_on_channel strict_on_host strict_become strict_deadline
  strict_fresh strict_reserve keeps_send_encoded keeps_receive_host keeps_receive_guest : strict.
#[export] Hint Unfold send_host send_guest : strict.

Ltac strict_auto :=
  repeat first
    [ solve [eauto 6 with strict]
    | apply strict_bind; [ | intros ?]
    | apply strict_if
    | match goal with |- strict _ (match ?x with _ => _ end) => destruct x end ].

Section poison.
Context {T I : Type} `{NoiseTransport T} `{ControlIo I}.

(** What a caller can ask of a repaired host: every method of [RepairedHostControl] that can fail. *)
Inductive HostCall : Type :=
| Ask_Execute (operation : bytes) (command : GuestCommand)
| Ask_File (request : FileRequest)
| Ask_Pty (request : PtyRequest)
| Ask_ReadWhole (path : bytes) (maximum : Z)
| Ask_WriteWhole (path raw : bytes) (maximum : Z)
| Ask_Secrets (secrets : list SecretFile)
| Ask_Activation (challenge : bytes) (generation : Z) (intent : bytes)
| Ask_Shutdown (operation : bytes).

Inductive CallError : Type := Call_Control (e : ControlError) | Call_Activation (e : Error) | Call_Panic.

(** A call whose answer is left aside. *)
Definition asked {A} (p : ST (HostControl T I) (option ControlError) A) : ST (HostControl T I) CallError unit := fun h =>
  let '(h', r) := p h in
  (h', match r with Ok _ => Ok tt | Err (Some e) => Err (Call_Control e) | Err None => Err Call_Panic end).

Definition host_call (keyed_tag : bytes -> bytes -> Result bytes Error) (call : HostCall) : ST (HostControl T I) CallError unit :=
  match call with
  | Ask_Execute operation command => asked (execute operation command)
  | Ask_File request => asked (file request)
  | Ask_Pty request => asked (pty request)
  | Ask_ReadWhole path maximum => asked (read_whole_file path maximum)
  | Ask_WriteWhole path raw maximum => asked (write_whole_file path raw maximum)
  | Ask_Secrets secrets => asked (place_secrets secrets)
  | Ask_Activation challenge generation intent => fun h =>
      (h, match network_activation keyed_tag challenge generation intent h with Ok _ => Ok tt | Err e => Err (Call_Activation e) end)
  | Ask_Shutdown operation => asked (shutdown operation)
  end.

(** The fields of a call fit the 16-bit lengths they are encoded with: the constructors of
    commands and secrets see to it, and for the other requests it is the caller's part. *)
Definition file_fits (r : FileRequest) : Prop :=
  blen (request_path r) <= U16_MAX /\ match r with File_Write _ _ _ _ raw => blen raw <= U16_MAX | _ => True end.

Definition call_ok (call : HostCall) : Prop :=
  match call with
  | Ask_Execute _ command => command_ok command
  | Ask_File request => file_fits request
  | Ask_Pty request => match request with Pty_Write raw => blen raw <= U16_MAX | _ => True end
  | Ask_ReadWhole path _ | Ask_WriteWhole path _ _ => blen path <= U16_MAX
  | Ask_Secrets secrets => Forall (fun s => blen (secret_path s) <= U16_MAX) secrets
  | Ask_Activation _ _ _ | Ask_Shutdown _ => True
  end.

Lemma strict_ask stage budget message : strict (@h_channel T I) (ask stage budget message).
Proof. unfold ask, send_host. strict_auto. Qed.

Lemma strict_file request : strict (@h_channel T I) (file request).
Proof. unfold file. apply strict_bind; [apply strict_ask | intros r]. strict_auto. Qed.

Lemma strict_execute_loop fuel operation d a : strict (@h_channel T I) (execute_loop fuel operation d a).
Proof.
  revert a. induction fuel as [ | fuel IH]; intros a; cbn [execute_loop]; [apply strict_ret | ]. apply strict_bind; [strict_auto | intros r].
  apply strict_if; [strict_auto | ]. destruct r; strict_auto.
Qed.

Lemma strict_read_loop fuel path maximum collected offset : strict (@h_channel T I) (read_loop fuel path maximum collected offset).
Proof.
  revert collected offset. induction fuel as [ | fuel IH]; intros collected offset; cbn [read_loop]; [apply strict_ret | ].
  apply strict_if; [apply strict_ret | ]. apply strict_bind; [apply strict_file | intros o].
  destruct o; strict_auto.
Qed.

Lemma strict_write_loop fuel path offset remaining : strict (@h_channel T I) (write_loop fuel path offset remaining).
Proof.
  revert offset remaining. induction fuel as [ | fuel IH]; intros offset remaining; cbn [write_loop]; [apply strict_ret | ].
  apply strict_bind; [apply strict_file | intros o]. destruct o; strict_auto.
Qed.

Lemma strict_write_whole path raw maximum : strict (@h_channel T I) (write_whole_file path raw maximum).
Proof. apply strict_if; [apply strict_ret | apply strict_write_loop]. Qed.

Lemma strict_secret_step request stage k : strict h_channel k -> strict (@h_channel T I) (secret_step request stage k).
Proof. intros Hk. apply strict_bind; [apply strict_file | intros o]. destruct (refusal o stage); [apply strict_ret | done]. Qed.

Lemma strict_place_secret s : strict (@h_channel T I) (place_secret s).
Proof.
  unfold place_secret, secret_deliver. destruct (secret_parent s); repeat apply strict_secret_step.
  all: apply strict_bind; [apply strict_write_whole | intros [[ | | f] | ]]; try apply strict_ret; apply strict_secret_step, strict_ret.
Qed.

Lemma strict_place_secrets secrets : strict (@h_channel T I) (place_secrets secrets).
Proof.
  induction secrets as [ | s secrets IH]; [apply strict_ret | ]. apply strict_bind; [apply strict_place_secret | ].
  intros [[ | ] | ]; [exact IH | apply strict_ret..].
Qed.

Lemma strict_execute operation command : strict (@h_channel T I) (execute operation command).
Proof. unfold execute, send_host. do 3 (apply strict_bind; [strict_auto | intros ?]). apply strict_execute_loop. Qed.

Lemma strict_pty request : strict (@h_channel T I) (pty request).
Proof. apply strict_bind; [apply strict_ask | intros r]. strict_auto. Qed.

Lemma strict_shutdown operation : strict (@h_channel T I) (shutdown operation).
Proof. unfold shutdown, send_host. strict_auto. Qed.
End poison.

(** * Which calls cannot panic *)

Section panic.
Context {T I : Type} `{NoiseTransport T} `{ControlIo I}.

(** Never [Err None]. *)
Definition answers {S E A} (p : ST S (option E) A) : Prop := forall s, (p s).2 <> Err None.

Lemma answers_ret {S E A} (a : A) : answers (S := S) (E := E) (st_ret a).
Proof. by intros s. Qed.

Lemma answers_bind {S E A B} (p : ST S (option E) A) (k : A -> ST S (option E) B) : answers p -> (forall a, answers (k a)) -> answers (st_bind p k).
Proof.
  intros Hp Hk s. unfold st_bind. specialize (Hp s). destruct (p s) as [s' [a | [e | ]]]; [apply Hk | done | done].
Qed.

Lemma answers_if {S E A} (b : bool) (p q : ST S (option E) A) : answers p -> answers q -> answers (if b then p else q).
Proof. by destruct b. Qed.

Lemma answers_fail {A} stage class : answers (fail (T := T) (I := I) (A := A) stage class).
Proof. by intros c. Qed.

Lemma answers_or_fail {A} stage (p : ST (AuthChannel T I) (option ChannelFailure) A) : answers p -> answers (or_fail stage p).
Proof. intros Hp c. unfold or_fail. specialize (Hp c). by destruct (p c) as [c' [a | [f | ]]]. Qed.

Lemma answers_on_host {A} (p : ST (AuthChannel T I) (option ControlError) A) : answers p -> answers (on_host p).
Proof. intros Hp h. unfold on_host. specialize (Hp (h_channel h)). by destruct (p (h_channel h)) as [c r]. Qed.

Lemma answers_send_encoded encoded d : is_Some encoded -> answers (send_encoded (T := T) (I := I) encoded d).
Proof.
  intros [[payload | e] ->] c; [ | done]. cbn. unfold send. destruct (seal _ _) as [s [r | e]]; [ | done].
  by destruct (write_all _ _ _) as [o [ | ]].
Qed.

Lemma answers_receive d : answers (receive (T := T) (I := I) d).
Proof. intros c. unfold receive. destruct (read_frame _ _ _ _) as [o [r | [ | ]]]; [ | done | done]. by destruct (open _ _) as [s [ | ]]. Qed.

Lemma answers_receive_guest d : answers (receive_guest (T := T) (I := I) d).
Proof. apply answers_bind; [apply answers_receive | ]. intros l c. unfold st_lift. cbn. by destruct (guest_decode l). Qed.

Lemma answers_deadline b : answers (E := ControlError) (deadline_after (T := T) (I := I) b).
Proof. by intros h. Qed.

Lemma answers_fresh : answers (E := ControlError) (fresh_operation (T := T) (I := I)).
Proof. intros h. unfold fresh_operation. by destruct (io_random _). Qed.

Lemma answers_reserve stage operation : answers (reserve_or_fail (T := T) (I := I) stage operation).
Proof. intros h. unfold reserve_or_fail. by destruct (reserve _ _) as [ops []]. Qed.

Lemma file_encode_fits r : file_fits r -> is_Some (file_encode r).
Proof using Type.
  intros [Hp Hr]. unfold file_encode. destruct (put_field_is_Some _ Hp) as [p ->]. cbn. destruct r; cbn in *; try by eexists.
  destruct (put_field_is_Some _ Hr) as [w ->]. by eexists.
Qed.
End panic.

Create HintDb answers discriminated.
#[export] Hint Resolve answers_ret answers_fail answers_or_fail answers_on_host answers_send_encoded answers_receive_guest answers_deadline
  answers_fresh answers_reserve : answers.

Ltac answers_auto :=
  repeat first
    [ solve [eauto 6 with answers]
    | apply answers_bind; [ | intros ?]
    | apply answers_if
    | match goal with |- answers (match ?x with _ => _ end) => destruct x end ].

Section no_panic.
Context {T I : Type} `{NoiseTransport T} `{ControlIo I}.

Lemma answers_ask stage budget message : (forall operation, is_Some (host_encode (message operation))) ->
  answers (ask (T := T) (I := I) stage budget message).
Proof. intros Hm. unfold ask, send_host. answers_auto. Qed.

Lemma answers_file r : file_fits r -> answers (file (T := T) (I := I) r).
Proof.
  intros [w Hw]%file_encode_fits. apply answers_bind; [apply answers_ask; intros o; cbn; rewrite Hw; by eexists | intros a]. answers_auto.
Qed.

Lemma answers_pty r : match r with Pty_Write raw => blen raw <= U16_MAX | _ => True end -> answers (pty (T := T) (I := I) r).
Proof.
  intros Hr. assert (is_Some (pty_encode r)) as [w Hw].
  { destruct r; cbn in *; try by eexists. destruct (put_field_is_Some _ Hr) as [w ->]. by eexists. }
  apply answers_bind; [apply answers_ask; intros o; cbn; rewrite Hw; by eexists | intros a]. answers_auto.
Qed.

Lemma answers_execute_loop fuel operation d a : answers (execute_loop (T := T) (I := I) fuel operation d a).
Proof.
  revert a. induction fuel as [ | fuel IH]; intros a; cbn [execute_loop]; [apply answers_ret | ]. apply answers_bind; [answers_auto | intros r].
  apply answers_if; [answers_auto | ]. destruct r; answers_auto.
Qed.

Lemma answers_execute operation c : command_ok c -> answers (execute (T := T) (I := I) operation c).
Proof.
  intros [[w Hw]%command_is_Some _]. assert (is_Some (host_encode (Host_Execute operation c))) as He by (cbn; rewrite Hw; by eexists).
  unfold execute, send_host. do 3 (apply answers_bind; [answers_auto | intros ?]). apply answers_execute_loop.
Qed.

Lemma answers_shutdown operation : answers (shutdown (T := T) (I := I) operation).
Proof. assert (is_Some (host_encode (Host_Shutdown operation))) as He by by eexists. unfold shutdown, send_host. answers_auto. Qed.

Lemma answers_read_loop fuel path maximum collected offset : blen path <= U16_MAX -> answers (read_loop (T := T) (I := I) fuel path maximum collected offset).
Proof.
  intros Hp. revert collected offset. induction fuel as [ | fuel IH]; intros collected offset; cbn [read_loop]; [apply answers_ret | ].
  apply answers_if; [apply answers_ret | ]. apply answers_bind; [by apply answers_file | intros o]. destruct o; answers_auto.
Qed.

Lemma answers_write_loop fuel path offset remaining : blen path <= U16_MAX -> answers (write_loop (T := T) (I := I) fuel path offset remaining).
Proof.
  intros Hp. revert offset remaining. induction fuel as [ | fuel IH]; intros offset remaining; cbn [write_loop]; [apply answers_ret | ].
  apply answers_bind; [apply answers_file; split; [done | ] | intros o; destruct o; answers_auto].
  unfold blen. rewrite length_take. pose proof max_chunk. unfold U16_MAX in *. lia.
Qed.

Lemma answers_write_whole path raw maximum : blen path <= U16_MAX -> answers (write_whole_file (T := T) (I := I) path raw maximum).
Proof. intros Hp. apply answers_if; [apply answers_ret | by apply answers_write_loop]. Qed.

Lemma answers_secret_step request stage k : file_fits request -> answers k -> answers (secret_step (T := T) (I := I) request stage k).
Proof. intros Hr Hk. apply answers_bind; [by apply answers_file | intros o]. destruct (refusal o stage); [apply answers_ret | done]. Qed.

Lemma answers_place_secret s : blen (secret_path s) <= U16_MAX -> answers (place_secret (T := T) (I := I) s).
Proof.
  intros Hp. assert (answers (secret_deliver (T := T) (I := I) s)) as Hd.
  { apply answers_secret_step; [done | ]. apply answers_bind; [by apply answers_write_whole | intros [[ | | f] | ]]; try apply answers_ret.
    apply answers_secret_step; [done | apply answers_ret]. }
  unfold place_secret, secret_parent. destruct (rposition SLASH (secret_path s)) as [[ | n] | ]; [done | | done].
  apply answers_secret_step; [ | done]. split; [ | done]. cbn [request_path]. unfold blen in *. rewrite length_take. lia.
Qed.

Lemma answers_place_secrets secrets : Forall (fun s => blen (secret_path s) <= U16_MAX) secrets -> answers (place_secrets (T := T) (I := I) secrets).
Proof.
  induction 1 as [ | s secrets Hs _ IH]; [apply answers_ret | ]. apply answers_bind; [by apply answers_place_secret | ].
  intros [[ | ] | ]; [exact IH | apply answers_ret..].
Qed.
End no_panic.

(** * What a guest session is, as a conversation *)

(** What happens at a guest, in order: a request it serves, a report it makes of one. *)
Inductive Event : Type :=
| Served (request : GuestRequest)
| RepairReported
| Output (stdout : bool) (raw : bytes)
| Ended (status : TerminalStatus)
| FileAnswered (outcome : FileOutcome)
| PtyAnswered (outcome : PtyOutcome)
| ShutdownAcknowledged.

Definition served (e : Event) : option bytes := match e with Served r => Some (request_operation r) | _ => None end.

(** The operation identities served. *)
Definition identities (events : list Event) : list bytes := omap served events.

(** The bytes reported on one stream. *)
Definition stream_of (stdout : bool) (events : list Event) : bytes :=
  concat (omap (fun e => match e with Output s raw => if Bool.eqb s stdout then Some raw else None | _ => None end) events).

Definition is_output (e : Event) : Prop := match e with Output _ raw => raw <> [] /\ blen raw <= MAX_OUTPUT_CHUNK_BYTES | _ => False end.

Definition output_total (events : list Event) : Z := blen (stream_of true events) + blen (stream_of false events).

(** Output that stays within what the command was allowed. *)
Definition outputs_ok (c : GuestCommand) (events : list Event) : Prop := Forall is_output events /\ output_total events <= Z.max 0 (output_bytes c).

(** One request with everything reported of it. *)
Inductive exchange : list Event -> Prop :=
| exchange_execute operation c outs status : outputs_ok c outs -> (status = OutputLimit -> output_total outs = output_bytes c) ->
    exchange (Served (Request_Execute operation c) :: outs ++ [Ended status])
| exchange_file operation r outcome : exchange [Served (Request_File operation r); FileAnswered outcome]
| exchange_pty operation r outcome : exchange [Served (Request_Pty operation r); PtyAnswered outcome].

(** A request still being served. *)
Inductive pending : list Event -> Prop :=
| pending_execute operation c outs : outputs_ok c outs -> pending (Served (Request_Execute operation c) :: outs)
| pending_file operation r : pending [Served (Request_File operation r)]
| pending_pty operation r : pending [Served (Request_Pty operation r)]
| pending_shutdown operation : pending [Served (Request_Shutdown operation)].

Definition opening (launch : bytes) : list Event := [Served (Request_Prepare launch); RepairReported].

(** Repair of the launch first, then one exchange after another. *)
Definition conversation (launch : bytes) (events : list Event) : Prop :=
  events `prefix_of` opening launch \/
  exists exchanges rest, events = opening launch ++ concat exchanges ++ rest /\ Forall exchange exchanges /\ (rest = [] \/ pending rest).

Section conversation.
Context {T I : Type} `{NoiseTransport T} `{ControlIo I}.
Implicit Types g : GuestControl T I.

(** The calls that report; each deadline is the caller's. *)
Definition guest_report (e : Event) (d : Z) : option (ST (GuestControl T I) (option ControlError) unit) :=
  match e with
  | Served _ => None
  | RepairReported => Some (repair_complete d)
  | Output stdout raw => Some (output raw stdout d)
  | Ended status => Some (terminal status d)
  | FileAnswered outcome => Some (file_outcome outcome d)
  | PtyAnswered outcome => Some (pty_outcome outcome d)
  | ShutdownAcknowledged => None
  end.

(** The sessions a guest can have: an owner is only given back by a call that succeeds. *)
Inductive guest_runs (channel : AuthChannel T I) (launch : bytes) : list Event -> GuestControl T I -> Prop :=
| runs_start : guest_runs channel launch [] (guest_start channel launch)
| runs_request events g d r g' : guest_runs channel launch events g -> next_request d g = (g', Ok r) ->
    guest_runs channel launch (events ++ [Served r]) g'
| runs_report events g e d call g' : guest_runs channel launch events g -> guest_report e d = Some call -> call g = (g', Ok tt) ->
    guest_runs channel launch (events ++ [e]) g'.

Lemma on_channel_Ok {A} (p : ST (AuthChannel T I) (option ControlError) A) g g' a : on_channel p g = (g', Ok a) ->
  g_state g' = g_state g /\ g_operations g' = g_operations g.
Proof. unfold on_channel. destruct (p (g_channel g)) as [c r]. by intros [= <- _]. Qed.

Lemma on_channel_fail {A} stage class (g g' : GuestControl T I) (a : A) : on_channel (fail stage class) g <> (g', Ok a).
Proof. done. Qed.

Lemma become_after (p : ST (AuthChannel T I) (option ControlError) unit) s g g' : (on_channel p ;;; become s) g = (g', Ok tt) ->
  g_state g' = s /\ g_operations g' = g_operations g.
Proof. rewrite st_bind_ok. intros (g1 & [] & Hp & Hb). apply on_channel_Ok in Hp as [_ Hops]. injection Hb as <-. by rewrite <- Hops. Qed.

Lemma reserve_fresh operation seen seen' : reserve operation seen = (seen', true) ->
  operation ∉ seen /\ seen' = {[ operation ]} ∪ seen /\ size seen <> MAX_SESSION_OPERATIONS.
Proof. unfold reserve. repeat case_bool_decide; by intros [= <-]. Qed.

(** The state in which an accepted request is served. *)
Definition accepted (r : GuestRequest) (s : GuestState) : Prop :=
  match r with
  | Request_Prepare _ => False
  | Request_Execute o c => s = ExecuteStreaming (mkExchange o (accounting_new (output_bytes c)))
  | Request_File o _ => s = FilePending o
  | Request_Pty o _ => s = PtyPending o
  | Request_Shutdown o => s = ShutdownPending o
  end.

Lemma idle_accept_Ok m (g g' : GuestControl T I) r : idle_accept m g = (g', Ok r) ->
  request_operation r ∉ g_operations g /\ size (g_operations g) <> MAX_SESSION_OPERATIONS /\
  g_operations g' = {[ request_operation r ]} ∪ g_operations g /\ accepted r (g_state g').
Proof.
  unfold idle_accept. destruct m as [o | o c | o q | o q | o]; [done | ..];
    destruct (reserve o (g_operations g)) as [ops [ | ]] eqn:Hr; try done;
    apply reserve_fresh in Hr as (Hnot & -> & Hsize); by intros [= <- <-].
Qed.

Lemma next_request_Ok d (g g' : GuestControl T I) r : next_request d g = (g', Ok r) ->
  (exists l, g_state g = AwaitPrepare l /\ r = Request_Prepare l /\ g_state g' = PrepareReporting l /\ g_operations g' = g_operations g) \/
  (g_state g = RepairedIdle /\ request_operation r ∉ g_operations g /\ size (g_operations g) <> MAX_SESSION_OPERATIONS /\
   g_operations g' = {[ request_operation r ]} ∪ g_operations g /\ accepted r (g_state g')).
Proof.
  unfold next_request. destruct (g_state g) as [l | | | | | | ] eqn:Hs; try done; intros Hn; apply st_bind_ok in Hn as (g1 & m & Hm & Hn);
    apply on_channel_Ok in Hm as [Hs1 Ho1].
  - left. exists l. destruct m; try done. case_bool_decide; [ | done]. subst. injection Hn as <- <-. by rewrite <- Ho1.
  - right. apply idle_accept_Ok in Hn. rewrite Ho1 in Hn. by split.
Qed.

(** ** Accounting *)

Lemma push_Ok allowance stream other chunk stream' : push allowance stream other chunk = Ok stream' ->
  stream' = stream ++ chunk /\ blen stream + other + blen chunk <= allowance.
Proof.
  unfold push, checked_add_u64. destruct (_ <=? U64_MAX); cbn; [ | done]. destruct (_ <=? U64_MAX); cbn; [ | done].
  destruct (Z.gtb_spec (blen stream + other + blen chunk) allowance); [done | ]. by intros [= <-].
Qed.

Lemma push_either (stdout : bool) a chunk a' : (if stdout then push_stdout else push_stderr) a chunk = Ok a' ->
  a' = mkAccounting (allowance a) (acc_stdout a ++ if stdout then chunk else []) (acc_stderr a ++ if stdout then [] else chunk) /\
  blen (acc_stdout a) + blen (acc_stderr a) + blen chunk <= allowance a.
Proof.
  destruct stdout; [unfold push_stdout | unfold push_stderr]; intros (stream & [-> Hle]%push_Ok & [= <-])%bind_Ok; rewrite app_nil_r; split; by try lia.
Qed.

Lemma stream_of_app b l l' : stream_of b (l ++ l') = stream_of b l ++ stream_of b l'.
Proof. unfold stream_of. by rewrite omap_app, concat_app. Qed.

Lemma stream_of_output b stdout raw : stream_of b [Output stdout raw] = if Bool.eqb stdout b then raw else [].
Proof. unfold stream_of. cbn. destruct (Bool.eqb stdout b); cbn; [apply app_nil_r | done]. Qed.

Lemma report_Ok a status r : report a status = Ok r ->
  report_status r = status /\ stdout_bytes r = blen (acc_stdout a) /\ stderr_bytes r = blen (acc_stderr a) /\ limit_reached a status = Ok true /\
  report_ok r /\ is_ok (status_fields status) = true.
Proof.
  unfold report, u32_try_from. intros (reached & Hl & Hr)%bind_Ok. destruct reached; [ | done]. cbn in Hr.
  destruct (Z.leb_spec (blen (acc_stdout a)) U32_MAX), (Z.leb_spec (blen (acc_stderr a)) U32_MAX); try done.
  pose proof (blen_nonneg (acc_stdout a)). pose proof (blen_nonneg (acc_stderr a)).
  apply map_err_Ok, report_new_spec in Hr as (-> & Hok & Hrep); [done | unfold is_uint, U32_MAX in *; lia..].
Qed.

(** ** The invariant of a session *)

Definition state_inv (launch : bytes) (events : list Event) (s : GuestState) : Prop :=
  match s with
  | AwaitPrepare o => o = launch /\ events = []
  | PrepareReporting o => o = launch /\ events = [Served (Request_Prepare launch)]
  | RepairedIdle => exists xs, events = opening launch ++ concat xs /\ Forall exchange xs
  | ExecuteStreaming x => exists xs c outs, events = opening launch ++ concat xs ++ Served (Request_Execute (ex_operation x) c) :: outs /\
      Forall exchange xs /\ outputs_ok c outs /\ ex_accounting x = mkAccounting (output_bytes c) (stream_of true outs) (stream_of false outs)
  | FilePending o => exists xs r, events = opening launch ++ concat xs ++ [Served (Request_File o r)] /\ Forall exchange xs
  | PtyPending o => exists xs r, events = opening launch ++ concat xs ++ [Served (Request_Pty o r)] /\ Forall exchange xs
  | ShutdownPending o => exists xs, events = opening launch ++ concat xs ++ [Served (Request_Shutdown o)] /\ Forall exchange xs
  end.

(** The exchange that ends here is the last of those complete. *)
Lemma finish_exchange launch xs current e : Forall exchange xs -> exchange (current ++ [e]) ->
  state_inv launch ((opening launch ++ concat xs ++ current) ++ [e]) RepairedIdle.
Proof.
  intros Hxs Hx. exists (xs ++ [current ++ [e]]). rewrite concat_app. cbn [concat]. rewrite app_nil_r, !app_assoc. split; [done | ].
  apply Forall_app. by repeat constructor.
Qed.

Lemma state_inv_conversation launch events s : state_inv launch events s -> conversation launch events.
Proof.
  unfold conversation. destruct s; cbn [state_inv].
  - intros [-> ->]. left. apply prefix_nil.
  - intros [-> ->]. left. by exists [RepairReported].
  - intros (xs & -> & Hxs). right. exists xs, []. rewrite app_nil_r. auto.
  - intros (xs & c & outs & -> & Hxs & Ho & _). right. eexists xs, _. split; [done | ]. split; [done | ]. right. by constructor.
  - intros (xs & r & -> & Hxs). right. eexists xs, _. split; [done | ]. split; [done | ]. right. constructor.
  - intros (xs & r & -> & Hxs). right. eexists xs, _. split; [done | ]. split; [done | ]. right. constructor.
  - intros (xs & -> & Hxs). right. eexists xs, _. split; [done | ]. split; [done | ]. right. constructor.
Qed.

Lemma request_inv launch events (g : GuestControl T I) d r g' : state_inv launch events (g_state g) -> next_request d g = (g', Ok r) ->
  state_inv launch (events ++ [Served r]) (g_state g').
Proof.
  intros Hinv [(l & Hs & -> & Hs' & _) | (Hs & _ & _ & _ & Hacc)]%next_request_Ok; rewrite Hs in Hinv; cbn [state_inv] in Hinv.
  - destruct Hinv as [-> ->]. by rewrite Hs'.
  - destruct Hinv as (xs & -> & Hxs). destruct r as [o | o c | o q | o q | o]; cbn in Hacc; [done | ..]; rewrite Hacc; cbn [state_inv ex_operation ex_accounting]; rewrite <- app_assoc.
    + exists xs, c, []. repeat split; [done | constructor | ]. change (output_total []) with 0. lia.
    + by exists xs, q.
    + by exists xs, q.
    + by exists xs.
Qed.

Lemma chunk_new_Ok raw chunk : chunk_new raw = Ok chunk -> chunk = raw /\ raw <> [] /\ blen raw <= MAX_OUTPUT_CHUNK_BYTES.
Proof. intros Hc. apply chunk_decode_spec. unfold chunk_decode. by rewrite Hc. Qed.

Lemma output_inv launch events (g : GuestControl T I) stdout raw d g' : state_inv launch events (g_state g) -> output raw stdout d g = (g', Ok tt) ->
  state_inv launch (events ++ [Output stdout raw]) (g_state g') /\ g_operations g' = g_operations g.
Proof.
  unfold output, refuse. intros Hinv. destruct (g_state g) as [ | | | [o a] | | | ]; try done. cbn [state_inv ex_accounting ex_operation] in *.
  destruct (chunk_new raw) as [chunk | ] eqn:Hc; [ | done]. apply chunk_new_Ok in Hc as (-> & Hne & Hlen).
  destruct ((if stdout then push_stdout else push_stderr) a raw) as [a' | ] eqn:Ha; [ | done]. apply push_either in Ha as [-> Hle].
  intros [-> Hops]%become_after. split; [ | done]. destruct Hinv as (xs & c & outs & -> & Hxs & [Hout Htot] & ->).
  cbn [allowance acc_stdout acc_stderr ex_operation] in *. exists xs, c, (outs ++ [Output stdout raw]).
  split; [by rewrite <- !app_assoc, <- app_comm_cons | ]. split; [done | ]. cbn [ex_accounting].
  rewrite !stream_of_app, !stream_of_output. split; [ | by destruct stdout].
  split; [apply Forall_app; by repeat constructor | ]. unfold output_total. rewrite !stream_of_app, !stream_of_output, !blen_app.
  destruct stdout; cbn [Bool.eqb]; change (blen []) with 0; lia.
Qed.

Lemma terminal_inv launch events (g : GuestControl T I) status d g' : state_inv launch events (g_state g) -> terminal status d g = (g', Ok tt) ->
  state_inv launch (events ++ [Ended status]) (g_state g') /\ g_operations g' = g_operations g.
Proof.
  unfold terminal, refuse. intros Hinv. destruct (g_state g) as [ | | | [o a] | | | ]; try done. cbn [state_inv ex_accounting ex_operation] in *.
  destruct (report a status) as [r | ] eqn:Hr; [ | done]. apply report_Ok in Hr as (_ & _ & _ & Hl & _).
  intros [-> Hops]%become_after. split; [ | done]. destruct Hinv as (xs & c & outs & -> & Hxs & Hout & ->).
  apply finish_exchange; [done | ]. rewrite <- app_comm_cons. constructor; [done | ]. intros ->. cbn in Hl.
  apply bind_Ok in Hl as (t & Ht & [= Heq]). apply ok_or_Ok, checked_add_u64_Some in Ht as [-> _]. cbn in Heq. unfold output_total. lia.
Qed.

Lemma report_inv launch events g e d call g' : state_inv launch events (g_state g) -> guest_report e d = Some call -> call g = (g', Ok tt) ->
  state_inv launch (events ++ [e]) (g_state g') /\ g_operations g' = g_operations g.
Proof.
  intros Hinv Hcall Hg. destruct e; cbn in Hcall; simplify_eq; [ | by apply (output_inv _ _ _ _ _ d) | by apply (terminal_inv _ _ _ _ d) | | ].
  all: [> unfold repair_complete in Hg | unfold file_outcome in Hg | unfold pty_outcome in Hg]; unfold refuse in Hg;
    destruct (g_state g); try done; apply become_after in Hg as [-> Hops]; (split; [ | done]); cbn [state_inv] in Hinv.
  - destruct Hinv as [-> ->]. by exists [].
  - destruct Hinv as (xs & r & -> & Hxs). apply finish_exchange; [done | constructor].
  - destruct Hinv as (xs & r & -> & Hxs). apply finish_exchange; [done | constructor].
Qed.

(** ** Identities *)

Definition ledger_inv (launch : bytes) (events : list Event) (g : GuestControl T I) : Prop :=
  g_operations g = {[ launch ]} ∪ list_to_set (identities events) /\ NoDup (identities events) /\
  (size (g_operations g) <= MAX_SESSION_OPERATIONS)%nat.

Lemma identities_report events e d call : guest_report e d = Some call -> identities (events ++ [e]) = identities events.
Proof. intros He. unfold identities. rewrite omap_app. destruct e; try done; cbn; by rewrite app_nil_r. Qed.

Lemma request_ledger launch events g d r g' : state_inv launch events (g_state g) -> ledger_inv launch events g -> next_request d g = (g', Ok r) ->
  ledger_inv launch (events ++ [Served r]) g'.
Proof.
  intros Hinv (Hops & Hnd & Hsize) Hr. unfold ledger_inv. unfold identities in *. rewrite omap_app. cbn.
  apply next_request_Ok in Hr as [(l & Hs & -> & Hs' & Ho) | (Hs & Hnot & Hmax & Ho & Hacc)]; rewrite Ho; rewrite Hs in Hinv.
  - destruct Hinv as [-> ->]. cbn. rewrite Hops. cbn. split; [set_solver | ]. split; [apply NoDup_singleton | by rewrite Hops in Hsize].
  - rewrite Hops in *. split; [rewrite list_to_set_app_L; set_solver | ]. split.
    + apply NoDup_app. split; [done | ]. split; [set_solver | apply NoDup_singleton].
    + rewrite size_union, size_singleton by set_solver. lia.
Qed.

Lemma guest_runs_inv channel launch events g : guest_runs channel launch events g -> state_inv launch events (g_state g) /\ ledger_inv launch events g.
Proof.
  induction 1 as [ | events g d r g' _ [IHs IHl] Hr | events g e d call g' _ [IHs IHl] He Hg].
  - split; [done | ]. split; [cbn; unfold ledger_new; set_solver | ]. split; [constructor | ]. cbn. unfold ledger_new. rewrite size_singleton. unfold MAX_SESSION_OPERATIONS. lia.
  - split; [by eapply request_inv | by eapply request_ledger].
  - destruct (report_inv _ _ _ _ _ _ _ IHs He Hg) as [Hs Ho]. split; [done | ]. unfold ledger_inv. by rewrite Ho, (identities_report _ _ _ _ He).
Qed.

Lemma identities_bounded launch events g : ledger_inv launch events g -> (length (identities events) <= MAX_SESSION_OPERATIONS)%nat.
Proof.
  intros (Hops & Hnd & Hsize). rewrite <- (size_list_to_set (C := gset bytes)) by done. rewrite Hops in Hsize. etransitivity; [ | exact Hsize].
  apply subseteq_size. set_solver.
Qed.
End conversation.

(** * Every loop of the host ends *)

Lemma guest_decode_chunk l o c : guest_decode l = Ok (Guest_Stdout o c) \/ guest_decode l = Ok (Guest_Stderr o c) -> c <> [].
Proof.
  unfold guest_decode. destruct (frame_decode l) as [f | ]; [ | naive_solver].
  assert (forall body x, chunk_decode body = Ok x -> x <> []) as Hc by (by intros body x (-> & ? & _)%chunk_decode_spec).
  destruct (frame_kind f); cbn; repeat case_match; naive_solver.
Qed.

Section returns.
Context {T I : Type} `{NoiseTransport T} `{ControlIo I}.
Implicit Types h : HostControl T I.

Lemma on_host_Ok {A} (p : ST (AuthChannel T I) (option ControlError) A) h h' a : on_host p h = (h', Ok a) ->
  exists c, p (h_channel h) = (c, Ok a) /\ h' = mkHost c (h_binding h) (h_operations h).
Proof. unfold on_host. destruct (p (h_channel h)) as [c r]. intros [= <- ->]. by exists c. Qed.

Lemma or_fail_Ok {A} stage (p : ST (AuthChannel T I) (option ChannelFailure) A) c c' a : or_fail stage p c = (c', Ok a) -> p c = (c', Ok a).
Proof. unfold or_fail. destruct (p c) as [c1 [x | [f | ]]]; [by intros [= <- <-] | done | done]. Qed.

(** What was received was decoded. *)
Lemma receive_guest_Ok stage d h h' m : on_host (or_fail stage (receive_guest d)) h = (h', Ok m) -> exists l, guest_decode l = Ok m.
Proof.
  intros (c & Hc%or_fail_Ok & _)%on_host_Ok. apply st_bind_ok in Hc as (c1 & l & _ & [= _ Hl]). exists l. by apply map_err_Ok in Hl.
Qed.

Definition room (a : OutputAccounting) : nat := Z.to_nat (allowance a - blen (acc_stdout a) - blen (acc_stderr a)).

Lemma push_room (stdout : bool) a chunk a' : chunk <> [] -> (if stdout then push_stdout else push_stderr) a chunk = Ok a' -> (room a' < room a)%nat.
Proof.
  intros Hne [-> Hle]%push_either. unfold room. cbn. rewrite !blen_app.
  assert (0 < blen chunk) by (destruct chunk; [done | unfold blen; cbn; lia]). destruct stdout; change (blen []) with 0; lia.
Qed.

Lemma execute_loop_returns fuel operation d a h : (room a < fuel)%nat ->
  match execute_loop fuel operation d a h with
  | (_, Ok None) => False
  | (_, Ok (Some o)) => blen (outcome_stdout o) + blen (outcome_stderr o) <= Z.max (blen (acc_stdout a) + blen (acc_stderr a)) (allowance a)
  | _ => True
  end.
Proof.
  revert a h. induction fuel as [ | fuel IH]; intros a h Hf; [lia | ]. cbn [execute_loop]. unfold st_bind.
  destruct (on_host (or_fail Stage_Execute (receive_guest d)) h) as [h1 [m | [e | ]]] eqn:Hm; [ | done | done].
  destruct (negb _); [done | ]. apply receive_guest_Ok in Hm as [l Hl]. destruct m as [ | o c | o c | o r | | | ]; try done.
  - pose proof (guest_decode_chunk _ _ _ (or_introl Hl)). destruct (push_stdout a c) as [a' | ] eqn:Ha; [ | done].
    pose proof (push_room true a c a' ltac:(done) Ha). specialize (IH a' h1 ltac:(lia)). apply (push_either true) in Ha as [-> Hle].
    cbn in *. rewrite !blen_app in IH. change (blen []) with 0 in IH. destruct (execute_loop _ _ _ _ _) as [? [[?|]|]]; try done. lia.
  - pose proof (guest_decode_chunk _ _ _ (or_intror Hl)). destruct (push_stderr a c) as [a' | ] eqn:Ha; [ | done].
    pose proof (push_room false a c a' ltac:(done) Ha). specialize (IH a' h1 ltac:(lia)). apply (push_either false) in Ha as [-> Hle].
    cbn in *. rewrite !blen_app in IH. change (blen []) with 0 in IH. destruct (execute_loop _ _ _ _ _) as [? [[?|]|]]; try done. lia.
  - destruct (validate a r) as [[] | ]; [ | done]. cbn. lia.
Qed.

Lemma read_loop_returns fuel path maximum collected offset h : blen collected <= maximum -> (Z.to_nat (maximum - blen collected) < fuel)%nat ->
  match read_loop fuel path maximum collected offset h with
  | (_, Ok None) => False
  | (_, Ok (Some (WholeRead_Bytes raw))) => blen raw <= maximum
  | _ => True
  end.
Proof.
  revert collected offset h. induction fuel as [ | fuel IH]; intros collected offset h Hc Hf; [lia | ]. cbn [read_loop]. 
  destruct (Z.eqb_spec (Z.min (maximum - blen collected) MAX_CHUNK_BYTES) 0); [done | ].
  unfold st_bind. destruct (file _ h) as [h1 [o | [e | ]]]; [ | done | done]. destruct o as [raw at_end | | | | | ]; try done.
  destruct (Z.gtb_spec (blen raw) (Z.min (maximum - blen collected) MAX_CHUNK_BYTES)); cbn; [done | ].
  case_bool_decide as Hraw; cbn; destruct at_end; cbn; try done; rewrite ?blen_app; try lia.
  assert (0 < blen raw) by (destruct raw; [done | unfold blen; cbn; lia]). apply IH; rewrite blen_app; lia.
Qed.

Lemma write_loop_returns fuel path offset remaining h : (length remaining < fuel)%nat -> (write_loop fuel path offset remaining h).2 <> Ok None.
Proof.
  revert offset remaining h. induction fuel as [ | fuel IH]; intros offset remaining h Hf; [lia | ]. cbn [write_loop].
  unfold st_bind. destruct (file _ h) as [h1 [o | [e | ]]]; [ | done | done]. destruct o; try done. destruct (negb _); [done | ].
  case_bool_decide as Hlast; [done | ]. apply IH. rewrite length_drop. assert (0 < length remaining)%nat by (destruct remaining; [by rewrite drop_nil in Hlast | cbn; lia]).
  rewrite max_chunk. unfold blen. lia.
Qed.
End returns.

(** * Output arrives as it was produced *)

(** One end of a byte pipe: what is still to be read from it and what was written into it. *)
Record Pipe : Type := mkPipe { inbox : bytes; outbox : bytes; clock : Z; closed : bool; dice : list bytes }.

#[export] Instance pipe_io : ControlIo Pipe := {
  io_read n _ p := if (n <=? length (inbox p))%nat then (mkPipe (drop n (inbox p)) (outbox p) (clock p) (closed p) (dice p), Some (take n (inbox p))) else (p, None);
  io_write raw _ p := (mkPipe (inbox p) (outbox p ++ raw) (clock p) (closed p) (dice p), true);
  io_poison p := mkPipe (inbox p) (outbox p) (clock p) true (dice p);
  io_commit _ p := (p, true);
  io_now := clock;
  io_after now budget := Some (now + budget);
  io_random p := match dice p with [] => (p, None) | raw :: dice => (mkPipe (inbox p) (outbox p) (clock p) (closed p) dice, Some raw) end
}.

Section delivery.
Context {T : Type} `{NoiseLaws T}.

Definition pipe_of (c : AuthChannel T Pipe) : Pipe := inner (ch_io c).

(** Messages as records in flight: from sequence [n] on, with the bytes that carry them. *)
Inductive carried : Z -> list GuestMessage -> list (bytes * bytes) -> bytes -> Prop :=
| carried_nil n : carried n [] [] []
| carried_cons n m payload c ms q raw : guest_encode m = Some (Ok payload) -> blen payload <= MAX_RECORD_PAYLOAD ->
    blen c = blen (plaintext_of n payload) + AEAD_TAG -> blen c <= U16_MAX -> 0 <= n < U64_MAX -> carried (n + 1) ms q raw ->
    carried n (m :: ms) ((plaintext_of n payload, c) :: q) ((be_bytes 2 (blen c) ++ c) ++ raw).

Lemma send_guest_Ok m d (c c' : AuthChannel T Pipe) : send_guest m d c = (c', Ok tt) -> 0 <= next_send (ch_session c) ->
  exists payload w, guest_encode m = Some (Ok payload) /\ blen payload <= MAX_RECORD_PAYLOAD /\
    t_write (plaintext_of (next_send (ch_session c)) payload) (transport (ch_session c)) = (transport (ch_session c'), Some w) /\
    blen w = blen (plaintext_of (next_send (ch_session c)) payload) + AEAD_TAG /\ blen w <= U16_MAX /\
    next_send (ch_session c) < U64_MAX /\ next_send (ch_session c') = next_send (ch_session c) + 1 /\
    outbox (pipe_of c') = outbox (pipe_of c) ++ be_bytes 2 (blen w) ++ w.
Proof using Type*.
  intros Hs Hn. unfold send_guest, send_encoded in Hs. destruct (guest_encode m) as [[payload | ] | ]; try done. unfold send in Hs.
  destruct (seal payload (ch_session c)) as [s [framed | ]] eqn:Hseal; [ | done]. cbn in Hs. injection Hs as <-.
  apply seal_Ok in Hseal as (w & Hw & -> & Hp & Hlen & Hsend & Hmax & _). exists payload, w. cbn.
  pose proof (proj1 (write_law _ _ _ _ Hw)). repeat (split; [done || lia | ]). done.
Qed.

(** What the host makes of the messages a guest sends for its output. *)
Definition message_of (operation : bytes) (e : Event) : GuestMessage :=
  match e with Output true raw => Guest_Stdout operation raw | Output false raw => Guest_Stderr operation raw | _ => Guest_ShutdownAck operation end.

(** The guest reports [outs] and then [status]. *)
Fixpoint tells (outs : list Event) (status : TerminalStatus) (d : Z) (g g' : GuestControl T Pipe) : Prop :=
  match outs with
  | [] => terminal status d g = (g', Ok tt)
  | Output stdout raw :: outs => exists g1, output raw stdout d g = (g1, Ok tt) /\ tells outs status d g1 g'
  | _ => False
  end.

Definition feed (a : OutputAccounting) (outs : list Event) : OutputAccounting :=
  mkAccounting (allowance a) (acc_stdout a ++ stream_of true outs) (acc_stderr a ++ stream_of false outs).

Lemma feed_cons a stdout raw outs :
  feed a (Output stdout raw :: outs) =
  feed (mkAccounting (allowance a) (acc_stdout a ++ if stdout then raw else []) (acc_stderr a ++ if stdout then [] else raw)) outs.
Proof.
  unfold feed. change (Output stdout raw :: outs) with ([Output stdout raw] ++ outs). rewrite !stream_of_app, !stream_of_output. cbn.
  by destruct stdout; cbn; rewrite ?app_nil_r, <- ?app_assoc.
Qed.

(** Each step the host's accounting takes the guest's took before. *)
Fixpoint accounted (a : OutputAccounting) (outs : list Event) : Prop :=
  match outs with
  | [] => True
  | Output stdout raw :: outs => exists a', (if stdout then push_stdout else push_stderr) a raw = Ok a' /\ accounted a' outs
  | _ => False
  end.

Lemma tells_carried operation outs status d : forall (g g' : GuestControl T Pipe) a b q, tells outs status d g g' ->
  g_state g = ExecuteStreaming (mkExchange operation a) -> linked (transport (ch_session (g_channel g))) b q -> 0 <= next_send (ch_session (g_channel g)) ->
  exists r q' raw, linked (transport (ch_session (g_channel g'))) b (q ++ q') /\ outbox (pipe_of (g_channel g')) = outbox (pipe_of (g_channel g)) ++ raw /\
    carried (next_send (ch_session (g_channel g))) ((message_of operation <$> outs) ++ [Guest_Terminal operation r]) q' raw /\
    accounted a outs /\ report (feed a outs) status = Ok r /\ Forall is_output outs.
Proof.
  induction outs as [ | [ | | stdout raw | | | | ] outs IH]; intros g g' a b q Ht Hs Hl Hn; try done; cbn [tells] in Ht.
  - unfold terminal in Ht. rewrite Hs in Ht. cbn [ex_accounting ex_operation] in Ht. destruct (report a status) as [r | ] eqn:Hr; [ | done].
    apply st_bind_ok in Ht as (g1 & [] & Hsend & [= <-]). unfold on_channel in Hsend. destruct (or_fail _ _ _) as [c1 res] eqn:Hc. injection Hsend as <- ->.
    apply or_fail_Ok, send_guest_Ok in Hc as (payload & w & He & Hp & Hw & Hlen & Hmax & Hlt & Hnext & Hout); [ | done]. cbn [g_channel].
    eexists r, [_], ((be_bytes 2 (blen w) ++ w) ++ []). split; [eapply link_write; [exact Hl | exact Hw] | ].
    split; [by rewrite Hout, app_nil_r | ].
    split; [ | unfold feed; cbn; rewrite !app_nil_r; destruct a; repeat split; [done | constructor]].
    change ((message_of operation <$> []) ++ [Guest_Terminal operation r]) with [Guest_Terminal operation r].
    eapply carried_cons; [exact He | done | done | done | lia | constructor].
  - destruct Ht as (g1 & Ho & Ht). unfold output in Ho. rewrite Hs in Ho. cbn [ex_accounting ex_operation] in Ho.
    destruct (chunk_new raw) as [chunk | ] eqn:Hchunk; [ | done]. apply chunk_new_Ok in Hchunk as (-> & Hne & Hcl).
    destruct ((if stdout then push_stdout else push_stderr) a raw) as [a' | ] eqn:Ha; [ | done].
    apply st_bind_ok in Ho as (g2 & [] & Hsend & [= <-]). unfold on_channel in Hsend. destruct (or_fail _ _ _) as [c1 res] eqn:Hc. injection Hsend as <- ->.
    apply or_fail_Ok, send_guest_Ok in Hc as (payload & w & He & Hp & Hw & Hlen & Hmax & Hlt & Hnext & Hout); [ | done].
    destruct (IH _ g' a' b _ Ht eq_refl (link_write _ _ _ _ _ _ Hl Hw)) as (r & q' & raw' & Hq & Hout' & Hcar & Hacc & Hrep & Hfor); [cbn; lia | ].
    cbn [g_channel] in *. rewrite <- app_assoc in Hq. eexists r, _, _. split; [exact Hq | ]. rewrite Hout', Hout, <- app_assoc. split; [reflexivity | ].
    split; [ | split; [by exists a' | split; [ | by constructor]]].
    + rewrite Hnext in Hcar. rewrite fmap_cons, <- app_comm_cons. by eapply carried_cons.
    + rewrite feed_cons. apply push_either in Ha as [-> _]. exact Hrep.
Qed.

Lemma read_pipe maximum minimum d c rest (o : OwnedIo Pipe) : inbox (inner o) = (be_bytes 2 (blen c) ++ c) ++ rest -> blen c <= U16_MAX ->
  minimum <= blen c <= maximum ->
  read_frame maximum minimum d o =
    (set_inner o (mkPipe rest (outbox (inner o)) (clock (inner o)) (closed (inner o)) (dice (inner o))), Ok (be_bytes 2 (blen c) ++ c)).
Proof using Type.
  intros Hin Hmax Hc. unfold read_frame, io_read, pipe_io. rewrite Hin, <- app_assoc. destruct (take_drop_be 2 (blen c) (c ++ rest)) as [-> ->].
  assert (2 <=? length (be_bytes 2 (blen c) ++ c ++ rest) = true)%nat as -> by (apply Nat.leb_le; rewrite length_app, length_be_bytes; lia).
  rewrite be_val_two by (pose proof (blen_nonneg c); lia).
  rewrite (proj2 (Z.ltb_ge _ _)) by lia. destruct (Z.gtb_spec (blen c) maximum); [lia | ]. cbn [orb inbox].
  unfold blen. rewrite Nat2Z.id. assert (length c <=? length (c ++ rest) = true)%nat as -> by (apply Nat.leb_le; rewrite length_app; lia).
  by rewrite drop_app_length, take_app_length.
Qed.

(** The host receives the next message in flight. *)
Lemma receive_carried a d (h : HostControl T Pipe) m ms q raw rest : carried (next_receive (ch_session (h_channel h))) (m :: ms) q raw ->
  guest_ok m -> guest_fits m -> linked a (transport (ch_session (h_channel h))) q -> poisoned (ch_session (h_channel h)) = false ->
  inbox (pipe_of (h_channel h)) = raw ++ rest ->
  exists h' q' raw', on_host (or_fail Stage_Execute (receive_guest d)) h = (h', Ok m) /\ linked a (transport (ch_session (h_channel h'))) q' /\
    carried (next_receive (ch_session (h_channel h'))) ms q' raw' /\ poisoned (ch_session (h_channel h')) = false /\
    inbox (pipe_of (h_channel h')) = raw' ++ rest.
Proof.
  intros Hc Hok Hfit Hl Hp Hin. inversion Hc as [ | n m' payload c ms' q1 raw1 He Hpay Hlen Hmax Hn Hrest]; subst.
  destruct (open_linked _ _ _ _ _ Hl Hp Hn Hpay Hlen Hmax) as (s & Hopen & Hq & Hnext & _ & Hps).
  assert (MIN_RECORD_CIPHERTEXT <= blen c <= MAX_RECORD_CIPHERTEXT) as Hrange.
  { rewrite Hlen in *. unfold plaintext_of in *. rewrite !blen_app, !blen_be in *. pose proof (blen_nonneg payload).
    unfold MIN_RECORD_CIPHERTEXT, MAX_RECORD_CIPHERTEXT, NOISE_MESSAGE_MAX, INNER_HEADER, U16_MAX in *. lia. }
  unfold pipe_of in Hin. rewrite <- app_assoc in Hin.
  assert (guest_decode payload = Ok m) as Hdec.
  { destruct (guest_written m Hok Hfit) as (l & Hl' & Hb). rewrite He in Hl'. injection Hl' as <-. by apply guest_decode_spec. }
  unfold on_host, or_fail, receive_guest, st_bind, receive. rewrite (read_pipe _ _ _ _ _ _ Hin Hmax Hrange), Hopen. cbn. rewrite Hdec. cbn.
  eexists _, _, _. split; [reflexivity | ]. cbn. rewrite Hnext. done.
Qed.

Lemma execute_loop_delivers operation d status a0 : operation_ok operation ->
  forall outs fuel a r (h : HostControl T Pipe) q raw rest,
  carried (next_receive (ch_session (h_channel h))) ((message_of operation <$> outs) ++ [Guest_Terminal operation r]) q raw ->
  linked a0 (transport (ch_session (h_channel h))) q -> poisoned (ch_session (h_channel h)) = false -> inbox (pipe_of (h_channel h)) = raw ++ rest ->
  accounted a outs -> report (feed a outs) status = Ok r -> Forall is_output outs ->
  Forall (fun e => match e with Output _ raw => all_bytes raw | _ => True end) outs -> (length outs < fuel)%nat ->
  exists h', execute_loop fuel operation d a h =
    (h', Ok (Some (mkOutcome status (acc_stdout a ++ stream_of true outs) (acc_stderr a ++ stream_of false outs)))).
Proof.
  intros Hop. induction outs as [ | e outs IH]; intros fuel a r h q raw rest Hc Hl Hp Hin Hacc Hrep Hout Hty Hf; (destruct fuel as [ | fuel]; [cbn in Hf; lia | ]); cbn [execute_loop].
  - apply report_Ok in Hrep as (Hst & Hso & Hse & Hlim & Hrok & Hsok).
    destruct (receive_carried a0 d h _ _ _ _ rest Hc) as (h' & q' & raw' & Hr & _); [cbn; by rewrite Hst | done | done | done | done | ].
    unfold st_bind. rewrite Hr. cbn [message_operation]. rewrite bool_decide_eq_true_2 by done. cbn [negb].
    assert (feed a [] = a) as Hfeed by (unfold feed; cbn; rewrite !app_nil_r; by destruct a). rewrite Hfeed in *.
    unfold validate. rewrite Hso, Hse, !Z.eqb_refl, Hst. cbn [negb]. rewrite Hlim. cbn. exists h'. by rewrite !app_nil_r.
  - destruct e as [ | | stdout chunk | | | | ]; try done. destruct Hacc as (a' & Ha & Hacc).
    apply Forall_cons in Hout as [[Hne Hlen] Hout]. apply Forall_cons in Hty as [Hb Hty]. rewrite feed_cons in Hrep.
    rewrite fmap_cons, <- app_comm_cons in Hc.
    destruct (receive_carried a0 d h _ _ _ _ rest Hc) as (h1 & q' & raw' & Hr & Hl1 & Hc1 & Hp1 & Hin1); [by destruct stdout | by destruct stdout | done | done | done | ].
    unfold st_bind. rewrite Hr. pose proof Ha as [Ha' _]%push_either. rewrite <- Ha' in Hrep.
    destruct (IH fuel a' r h1 q' raw' rest Hc1 Hl1 Hp1 Hin1 Hacc Hrep Hout Hty) as [h' Hh]; [cbn in Hf; lia | ]. exists h'.
    change (Output stdout chunk :: outs) with ([Output stdout chunk] ++ outs). rewrite !stream_of_app, !stream_of_output, !app_assoc.
    rewrite Ha' in Hh. cbn in Hh. destruct stdout; cbn [message_of message_operation]; rewrite bool_decide_eq_true_2 by done; cbn [negb]; rewrite Ha, Ha'; exact Hh.
Qed.

Lemma outs_length outs : forall a, accounted a outs -> Forall is_output outs -> (length outs <= room a)%nat.
Proof using Type.
  induction outs as [ | e outs IH]; intros a Ha Ho; [cbn; lia | ]. destruct e as [ | | stdout raw | | | | ]; try done.
  destruct Ha as (a' & Hp & Ha). apply Forall_cons in Ho as [[Hne _] Ho]. specialize (IH a' Ha Ho).
  pose proof (push_room stdout a raw a' Hne Hp). cbn. lia.
Qed.

Lemma send_host_keeps m d a q (c c' : AuthChannel T Pipe) : send_host m d c = (c', Ok tt) -> linked a (transport (ch_session c)) q ->
  linked a (transport (ch_session c')) q /\ next_receive (ch_session c') = next_receive (ch_session c) /\ poisoned (ch_session c') = false /\
  inbox (pipe_of c') = inbox (pipe_of c).
Proof.
  intros Hs Hl. unfold send_host, send_encoded in Hs. destruct (host_encode m) as [[payload | ] | ]; try done. unfold send in Hs.
  destruct (seal payload (ch_session c)) as [s [framed | ]] eqn:Hseal; [ | done]. cbn in Hs. injection Hs as <-.
  apply seal_Ok in Hseal as (w & Hw & _ & _ & _ & _ & _ & Hr & _ & Hp). cbn. split; [ | done].
  pose proof (link_reverse_write (plaintext_of (next_send (ch_session c)) payload) _ _ _ Hl) as Hlw. by rewrite Hw in Hlw.
Qed.
End delivery.

(** C9: a command's outcome at the host is what the guest produced: when the agent reports its
    output chunk by chunk and ends it with a status, and the pipe carries what was written, the
    host's [execute] answers that status with exactly the bytes of each stream, in order. *)
Theorem execute_delivers {T : Type} `{NoiseLaws T} (g g' : GuestControl T Pipe) (h : HostControl T Pipe)
    (operation : bytes) (c : GuestCommand) (outs : list Event) (status : TerminalStatus) (d : Z) (ops : OperationLedger) (ch : AuthChannel T Pipe) :
  operation_ok operation -> g_state g = ExecuteStreaming (mkExchange operation (accounting_new (output_bytes c))) ->
  tells outs status d g g' -> Forall (fun e => match e with Output _ raw => all_bytes raw | _ => True end) outs ->
  linked (transport (ch_session (g_channel g))) (transport (ch_session (h_channel h))) [] ->
  next_send (ch_session (g_channel g)) = next_receive (ch_session (h_channel h)) -> 0 <= next_receive (ch_session (h_channel h)) ->
  outbox (pipe_of (g_channel g')) = outbox (pipe_of (g_channel g)) ++ inbox (pipe_of (h_channel h)) ->
  reserve operation (h_operations h) = (ops, true) ->
  send_host (Host_Execute operation c) (after (command_budget c) (pipe_of (h_channel h))) (h_channel h) = (ch, Ok tt) ->
  exists h', execute operation c h = (h', Ok (Some (mkOutcome status (stream_of true outs) (stream_of false outs)))).
Proof.
  intros Hop Hs Ht Hty Hl Hn Hpos Hin Hres Hsend.
  destruct (tells_carried operation outs status d g g' _ _ [] Ht Hs Hl ltac:(lia)) as (r & q & raw & Hq & Hraw & Hc & Hacc & Hrep & Hio).
  rewrite Hraw in Hin. apply app_inv_head in Hin. cbn in Hq. unfold execute, reserve_or_fail, deadline_after, st_bind. rewrite Hres. cbn [h_channel].
  unfold on_host at 1, or_fail. cbn [h_channel]. 
  destruct (send_host_keeps _ _ _ _ _ _ Hsend Hq) as (Hl1 & Hr1 & Hp1 & Hi1). unfold pipe_of in Hsend. rewrite Hsend. rewrite Hn, <- Hr1 in Hc.
  pose proof (outs_length outs _ Hacc Hio) as Hlen. unfold room in Hlen. cbn [allowance acc_stdout acc_stderr accounting_new] in Hlen. change (blen []) with 0 in Hlen.
  destruct (execute_loop_delivers operation (after (command_budget c) (inner (ch_io (h_channel h)))) status _ Hop outs (execute_fuel c) (accounting_new (output_bytes c)) r
              (mkHost ch (h_binding h) ops) q raw [] Hc Hl1 Hp1) as [h' Hh]; try done.
  - cbn [h_channel]. rewrite app_nil_r. congruence.
  - unfold execute_fuel. lia.
  - exists h'. exact Hh.
Qed.

(** C4: a guest session is a conversation: it serves the repair of its launch first and nothing
    before that is reported, then one request at a time, each answered in full before the next is
    served; a command's output stays within its allowance, and a status of [OutputLimit] is only
    reported when the allowance is used up; no operation identity is served twice, and at most
    65,536 are. *)
Theorem guest_converses {T I : Type} `{NoiseTransport T} `{ControlIo I} (channel : AuthChannel T I) (launch : bytes) (events : list Event) (g : GuestControl T I) :
  guest_runs channel launch events g ->
  conversation launch events /\ NoDup (identities events) /\ (length (identities events) <= MAX_SESSION_OPERATIONS)%nat.
Proof.
  intros [Hs Hl]%guest_runs_inv. split; [by eapply state_inv_conversation | ]. split; [apply Hl | by eapply identities_bounded].
Qed.

(** What a call that answers and is strict does as a whole. *)
Lemma asked_poisons {T I : Type} `{NoiseTransport T} `{ControlIo I} {A} (p : ST (HostControl T I) (option ControlError) A) (ok : Prop)
    (Q : HostControl T I -> Prop) (h : HostControl T I) :
  strict h_channel p -> (ok -> answers p) -> flag (h_channel h) = false ->
  match asked p h with
  | (h', Ok _) => flag (h_channel h') = false
  | (h', Err (Call_Control _)) => flag (h_channel h') = true
  | (h', Err (Call_Activation _)) => Q h'
  | (_, Err Call_Panic) => ~ ok
  end.
Proof.
  intros Hs Ha Hf. unfold asked. specialize (Hs h Hf). destruct (p h) as [h' [a | [e | ]]] eqn:Hp; [done | done | ].
  intros Hok. specialize (Ha Hok h). by rewrite Hp in Ha.
Qed.

(** C31: every call on a repaired host that talks to the guest and fails leaves its transport
    poisoned, and every call that succeeds leaves it usable: a failed exchange is never followed
    by another on the same transport.  The one other call that can fail, the mint of an
    activation receipt, changes nothing whether it fails or not.  No call panics whose fields fit
    their 16-bit lengths. *)
Theorem failure_poisons {T I : Type} `{NoiseTransport T} `{ControlIo I} (keyed_tag : bytes -> bytes -> Result bytes Error) (call : HostCall) (h : HostControl T I) :
  flag (h_channel h) = false ->
  match host_call keyed_tag call h with
  | (h', Ok _) => flag (h_channel h') = false
  | (h', Err (Call_Control _)) => flag (h_channel h') = true
  | (h', Err (Call_Activation _)) => h' = h /\ exists challenge generation intent, call = Ask_Activation challenge generation intent
  | (_, Err Call_Panic) => ~ call_ok call
  end.
Proof.
  intros Hf. pose (Q h' := h' = h /\ exists challenge generation intent, call = Ask_Activation challenge generation intent).
  destruct call; cbn [host_call call_ok]; try apply (asked_poisons _ _ Q); try exact Hf.
  - apply strict_execute.
  - apply answers_execute.
  - apply strict_file.
  - apply answers_file.
  - apply strict_pty.
  - apply answers_pty.
  - apply strict_read_loop.
  - apply answers_read_loop.
  - apply strict_write_whole.
  - apply answers_write_whole.
  - apply strict_place_secrets.
  - apply answers_place_secrets.
  - destruct (network_activation _ _ _ _ h); [done | ]. split; [done | by eexists _, _, _].
  - apply strict_shutdown.
  - intros _. apply answers_shutdown.
Qed.

(** C32: the loops of the host end, whatever the guest answers: a command's output loop within its
    allowance and a whole-file read or write within the file's bound, and what they hand back is
    no longer than that. *)
Theorem host_loops_end {T I : Type} `{NoiseTransport T} `{ControlIo I} (h : HostControl T I) :
  (forall operation c,
    match execute operation c h with
    | (_, Ok None) => False
    | (_, Ok (Some o)) => blen (outcome_stdout o) + blen (outcome_stderr o) <= Z.max 0 (output_bytes c)
    | _ => True
    end) /\
  (forall path maximum, 0 <= maximum ->
    match read_whole_file path maximum h with
    | (_, Ok None) => False
    | (_, Ok (Some (WholeRead_Bytes raw))) => blen raw <= maximum
    | _ => True
    end) /\
  (forall path raw maximum, (write_whole_file path raw maximum h).2 <> Ok None).
Proof.
  split; [ | split].
  - intros operation c. unfold execute, st_bind. destruct (reserve_or_fail _ _ h) as [h1 [[] | [e | ]]]; [ | done | done].
    cbn [deadline_after]. destruct (on_host _ _) as [h2 [[] | [e | ]]]; [ | done | done].
    pose proof (execute_loop_returns (execute_fuel c) operation (after (command_budget c) (inner (ch_io (h_channel h1)))) (accounting_new (output_bytes c)) h2) as Hr.
    cbn [acc_stdout acc_stderr allowance accounting_new] in Hr. change (blen []) with 0 in Hr. apply Hr. unfold room, execute_fuel. cbn. change (blen []) with 0. lia.
  - intros path maximum Hm. apply read_loop_returns; change (blen []) with 0; lia.
  - intros path raw maximum. unfold write_whole_file. destruct (_ >? _); [done | ]. apply write_loop_returns. lia.
Qed.

(** ** Secrets *)

Section secrets.
Context {T I : Type} `{NoiseTransport T} `{ControlIo I}.

Lemma secret_step_Placed request stage k (h h' : HostControl T I) : secret_step request stage k h = (h', Ok (Some Placed)) <->
  exists h1, file request h = (h1, Ok Out_Done) /\ k h1 = (h', Ok (Some Placed)).
Proof.
  unfold secret_step. rewrite st_bind_ok. split.
  - intros (h1 & o & Hf & Hk). destruct o; try done. by exists h1.
  - intros (h1 & Hf & Hk). by exists h1, Out_Done.
Qed.

(** A value that fits one request is one write, which creates the file and ends it. *)
Lemma write_small path raw (h : HostControl T I) h' : blen raw <= MAX_CHUNK_BYTES ->
  (write_loop (S (length raw)) path 0 raw h = (h', Ok (Some WholeWrite_Written)) <-> file (File_Write path 0 true true raw) h = (h', Ok (Out_Written (blen raw)))).
Proof.
  intros Hlen. cbn [write_loop]. rewrite Z.min_l by done.
  assert (Z.to_nat (blen raw) = length raw) as -> by (unfold blen; lia). rewrite take_ge, drop_ge by lia.
  rewrite bool_decide_eq_true_2 by done. rewrite st_bind_ok. split.
  - intros (h1 & o & Hf & Hk). destruct o as [ | count | | | | ]; try done. destruct (Z.eqb_spec count (blen raw)); [ | done]. cbn in Hk. injection Hk as <-. by subst.
  - intros Hf. eexists _, _. split; [exact Hf | ]. cbv beta iota. by rewrite Z.eqb_refl.
Qed.
Lemma secret_deliver_Placed s (h1 h' : HostControl T I) : blen (secret_value s) <= MAX_SECRET_BYTES ->
  (secret_deliver s h1 = (h', Ok (Some Placed)) <->
   exists h2 h3, file (File_Create (secret_path s) PRIVATE_CREATE_MODE) h1 = (h2, Ok Out_Done) /\
     file (File_Write (secret_path s) 0 true true (secret_value s)) h2 = (h3, Ok (Out_Written (blen (secret_value s)))) /\
     file (File_SetMode (secret_path s) (secret_mode s)) h3 = (h', Ok Out_Done)).
Proof.
  intros Hlen. unfold secret_deliver. rewrite secret_step_Placed. unfold write_whole_file.
  destruct (Z.gtb_spec (blen (secret_value s)) MAX_SECRET_BYTES); [lia | ].
  assert (blen (secret_value s) <= MAX_CHUNK_BYTES) as Hc by (rewrite max_chunk; unfold MAX_SECRET_BYTES in *; lia). split.
  - intros (h2 & Hf & Hk). apply st_bind_ok in Hk as (h3 & w & Hw & Hk). destruct w as [[ | | ] | ]; try done.
    apply write_small in Hw; [ | done]. apply secret_step_Placed in Hk as (h4 & Hm & [= <-]). by exists h2, h3.
  - intros (h2 & h3 & Hf & Hw & Hm). exists h2. split; [done | ]. apply st_bind_ok. exists h3, (Some WholeWrite_Written).
    split; [by apply write_small | ]. apply secret_step_Placed. by exists h'.
Qed.
End secrets.

(** C30: a secret is reported placed exactly when the guest confirmed, in this order, the
    directory when the path has one, the creation of a new file only its owner can read and
    write, one write of the whole value and nothing else, and the mode asked for. *)
Theorem secret_placed {T I : Type} `{NoiseTransport T} `{ControlIo I} (s : SecretFile) (h h' : HostControl T I) : secret_value_new (secret_value s) = Ok (secret_value s) ->
  (place_secret s h = (h', Ok (Some Placed)) <->
   exists h1 h2 h3,
     match secret_parent s with Some parent => file (File_MakeDirectory parent true) h = (h1, Ok Out_Done) | None => h1 = h end /\
     file (File_Create (secret_path s) PRIVATE_CREATE_MODE) h1 = (h2, Ok Out_Done) /\
     file (File_Write (secret_path s) 0 true true (secret_value s)) h2 = (h3, Ok (Out_Written (blen (secret_value s)))) /\
     file (File_SetMode (secret_path s) (secret_mode s)) h3 = (h', Ok Out_Done)).
Proof.
  intros Hv. assert (blen (secret_value s) <= MAX_SECRET_BYTES) as Hlen.
  { unfold secret_value_new in Hv. destruct (Z.gtb_spec (blen (secret_value s)) MAX_SECRET_BYTES); [by rewrite orb_true_r in Hv | done]. }
  unfold place_secret. destruct (secret_parent s) as [parent | ].
  - rewrite secret_step_Placed. setoid_rewrite secret_deliver_Placed; [ | done]. naive_solver.
  - rewrite secret_deliver_Placed by done. naive_solver.
Qed.

(** ** Listings *)

#[export] Instance entry_ok_dec e : Decision (entry_ok e).
Proof. unfold entry_ok. apply _. Defined.

Lemma list_items_all items : Forall entry_ok items -> forall entries, Z.of_nat (length entries + length items) <= MAX_ENTRIES ->
  list_items (Ok <$> items) entries = Out_Listed (entries ++ items) false.
Proof.
  induction 1 as [ | e items He Hitems IH]; intros entries Hn; cbn [list_items fmap list_fmap]; [by rewrite app_nil_r | ].
  cbn in Hn. destruct (Z.eqb_spec (Z.of_nat (length entries)) MAX_ENTRIES); [lia | ]. destruct He as (Hl & _ & Hne & _).
  rewrite bool_decide_eq_false_2 by done. destruct (Z.gtb_spec (blen (entry_name e)) MAX_PATH_BYTES); [lia | ]. cbn [orb].
  rewrite IH by (rewrite length_app; cbn; lia). by rewrite <- app_assoc.
Qed.

Lemma long_listing_encode operation entries more : Forall entry_ok entries -> MAX_BODY_SIZE < listing_size entries ->
  guest_encode (Guest_FileOutcome operation (Out_Listed entries more)) = Some (Err ApplicationMessageTooLarge).
Proof.
  intros Hall Hlong. destruct (listing_wire entries more Hall) as (w & Hw & _ & Hlen). cbn [guest_encode]. rewrite Hw. cbn [mbind option_bind].
  unfold frame_encode. rewrite Hlen. unfold MAX_BODY_SIZE in Hlong. destruct (Z.gtb_spec (HEADER_SIZE + listing_size entries) MAX_RECORD_PAYLOAD); [done | lia].
Qed.

(** C40: the agent bounds a listing by the number of its entries alone: one of at most 1024
    entries, each a valid name, that takes more bytes than a record carries is not paged but ends
    the session: the agent's answer is refused by its own channel and the transport is
    poisoned. *)
Theorem long_listing_fails {T I : Type} `{NoiseTransport T} `{ControlIo I} (g : GuestControl T I) (operation : bytes) (items : list DirectoryEntry) (d : Z) :
  g_state g = FilePending operation -> Forall entry_ok items -> Z.of_nat (length items) <= MAX_ENTRIES -> MAX_BODY_SIZE < listing_size items ->
  flag (g_channel g) = false ->
  exists g', file_outcome (list_directory (Ok (Ok <$> items)) 0) d g = (g', Err (Some (mkControlError Stage_File Class_Protocol))) /\
    flag (g_channel g') = true.
Proof.
  intros Hs Hall Hn Hlong Hflag. unfold list_directory. rewrite drop_0, list_items_all by done. unfold file_outcome. rewrite Hs.
  unfold st_bind, on_channel at 1, or_fail, send_guest. cbn [app]. rewrite long_listing_encode by done. cbn.
  eexists. split; [reflexivity | ]. cbn. by apply poison_flag.
Qed.

(** * On a concrete session *)

Module ControlDemo.
Import Demo.

Definition payload_of (l : option (Result bytes Error)) : bytes := match l with Some (Ok payload) => payload | _ => [] end.

(** The records of some payloads, one after another. *)
Definition wire (payloads : list bytes) : bytes := concat (sealed_by payloads).2.

Definition pipe_channel (t : Toy) (inbox : bytes) (dice : list bytes) : AuthChannel Toy Pipe :=
  mkChannel (mkOwnedIo (mkPipe inbox [] 0 false dice) false) (session_new t []).

Definition demo_launch : bytes := replicate 16 1.

Definition requests : bytes := wire (payload_of ∘ host_encode <$> [Host_Prepare demo_launch; Host_Execute demo_operation demo_command]).

(** The guest repairs, takes the command, reports two chunks and ends it. *)
Definition g0 : GuestControl Toy Pipe := guest_start (pipe_channel guest_end requests []) demo_launch.
Definition g1 : GuestControl Toy Pipe := (next_request 0 g0).1.
Definition g2 : GuestControl Toy Pipe := (repair_complete 0 g1).1.
Definition g3 : GuestControl Toy Pipe := (next_request 0 g2).1.
Definition g4 : GuestControl Toy Pipe := (output [104; 105] true 0 g3).1.
Definition g5 : GuestControl Toy Pipe := (output [33] false 0 g4).1.
Definition g6 : GuestControl Toy Pipe := (terminal (Exited 0) 0 g5).1.

Definition demo_binding : SessionBinding := mkSessionBinding (replicate 32 1) (replicate 16 2) demo_launch (replicate 32 3).

(** The host, which finds all the guest wrote in its pipe, after the repair. *)
Definition h0 : HostControl Toy Pipe := mkHost (pipe_channel host_end (outbox (pipe_of (g_channel g6))) []) demo_binding (ledger_new demo_launch).
Definition h1 : HostControl Toy Pipe := (prepare demo_launch h0).1.

Definition chunks : list Event := [Output true [104; 105]; Output false [33]].

Lemma execute_delivers_witness :
  tells chunks (Exited 0) 0 g3 g6 /\
  exists h', execute demo_operation demo_command h1 = (h', Ok (Some (mkOutcome (Exited 0) [104; 105] [33]))).
Proof.
  assert (tells chunks (Exited 0) 0 g3 g6) as Ht.
  { exists g4. split; [vm_compute; reflexivity | ]. exists g5. split; vm_compute; reflexivity. }
  split; [exact Ht | ].
  eapply (execute_delivers g3 g6 h1 demo_operation demo_command chunks (Exited 0) 0).
  - repeat split. repeat constructor; done.
  - vm_compute. reflexivity.
  - exact Ht.
  - repeat constructor; done.
  - vm_compute. by split.
  - vm_compute. reflexivity.
  - vm_compute. discriminate.
  - vm_compute. reflexivity.
  - vm_compute. reflexivity.
  - vm_compute. reflexivity.
Defined.

Definition demo_events : list Event :=
  [Served (Request_Prepare demo_launch); RepairReported; Served (Request_Execute demo_operation demo_command)] ++ chunks ++ [Ended (Exited 0)].

Lemma guest_converses_witness :
  guest_runs (g_channel g0) demo_launch demo_events g6 /\ (conversation demo_launch demo_events /\ NoDup (identities demo_events) /\
    (length (identities demo_events) <= MAX_SESSION_OPERATIONS)%nat).
Proof.
  assert (guest_runs (g_channel g0) demo_launch demo_events g6) as Hr.
  { apply (runs_report _ _ [_; _; _; _; _] g5 (Ended (Exited 0)) 0 (terminal (Exited 0) 0)); [ | reflexivity | vm_compute; reflexivity].
    apply (runs_report _ _ [_; _; _; _] g4 (Output false [33]) 0 (output [33] false 0)); [ | reflexivity | vm_compute; reflexivity].
    apply (runs_report _ _ [_; _; _] g3 (Output true [104; 105]) 0 (output [104; 105] true 0)); [ | reflexivity | vm_compute; reflexivity].
    apply (runs_request _ _ [_; _] g2 0 (Request_Execute demo_operation demo_command)); [ | vm_compute; reflexivity].
    apply (runs_report _ _ [_] g1 RepairReported 0 (repair_complete 0)); [ | reflexivity | vm_compute; reflexivity].
    apply (runs_request _ _ [] g0 0 (Request_Prepare demo_launch)); [apply runs_start | vm_compute; reflexivity]. }
  split; [exact Hr | ]. exact (guest_converses (g_channel g0) demo_launch demo_events g6 Hr).
Defined.

(** Nothing comes back for a shutdown. *)
Definition silent : HostControl Toy Pipe := mkHost (pipe_channel host_end [] []) demo_binding (ledger_new demo_launch).

Definition demo_keyed (key message : bytes) : Result bytes Error := Ok (take 32 message).

Lemma failure_poisons_witness :
  (host_call demo_keyed (Ask_Shutdown demo_operation) silent).2 = Err (Call_Control (mkControlError Stage_Shutdown Class_Io)) /\
  host_call demo_keyed (Ask_Activation [1] 0 [1]) silent = (silent, Err (Call_Activation InvalidActivationScope)) /\
  match host_call demo_keyed (Ask_Shutdown demo_operation) silent with
  | (h', Ok _) => flag (h_channel h') = false
  | (h', Err (Call_Control _)) => flag (h_channel h') = true
  | (h', Err (Call_Activation _)) =>
      h' = silent /\ exists challenge generation intent, Ask_Shutdown demo_operation = Ask_Activation challenge generation intent
  | (_, Err Call_Panic) => ~ call_ok (Ask_Shutdown demo_operation)
  end.
Proof.
  split; [vm_compute; reflexivity | ]. split; [vm_compute; reflexivity | ].
  apply (failure_poisons demo_keyed (Ask_Shutdown demo_operation) silent). reflexivity.
Defined.

(** [/a/k] with the value [s], of mode [0o400] *)
Definition demo_secret : SecretFile := mkSecretFile [47; 97; 47; 107] 256 [115].

Definition rolls : list bytes := [replicate 16 11; replicate 16 12; replicate 16 13; replicate 16 14].

Definition confirmations : bytes :=
  wire (payload_of ∘ guest_encode <$> zip_with Guest_FileOutcome rolls [Out_Done; Out_Done; Out_Written 1; Out_Done]).

Definition p0 : HostControl Toy Pipe := mkHost (pipe_channel host_end confirmations rolls) demo_binding (ledger_new demo_launch).
Definition p4 : HostControl Toy Pipe := (place_secret demo_secret p0).1.

Lemma secret_placed_witness :
  secret_parent demo_secret = Some [47; 97] /\ place_secret demo_secret p0 = (p4, Ok (Some Placed)) /\
  exists q1 q2 q3,
    file (File_MakeDirectory [47; 97] true) p0 = (q1, Ok Out_Done) /\
    file (File_Create (secret_path demo_secret) PRIVATE_CREATE_MODE) q1 = (q2, Ok Out_Done) /\
    file (File_Write (secret_path demo_secret) 0 true true (secret_value demo_secret)) q2 = (q3, Ok (Out_Written (blen (secret_value demo_secret)))) /\
    file (File_SetMode (secret_path demo_secret) (secret_mode demo_secret)) q3 = (p4, Ok Out_Done).
Proof.
  split; [reflexivity | ]. assert (place_secret demo_secret p0 = (p4, Ok (Some Placed))) as Hp by (vm_compute; reflexivity). split; [exact Hp | ].
  exact (proj1 (secret_placed demo_secret p0 p4 ltac:(reflexivity)) Hp).
Defined.

(** 254 files with names of 255 bytes. *)
Definition long_name (n : nat) : DirectoryEntry := mkDirectoryEntry (replicate 253 97 ++ [49 + Z.of_nat n / 100; 49 + Z.of_nat n mod 100]) Entry_File.
Definition long_listing : list DirectoryEntry := long_name <$> seq 0 254.

Definition listing_asked : GuestControl Toy Pipe := mkGuest (pipe_channel guest_end [] []) (FilePending demo_operation) (ledger_new demo_launch).

Lemma long_listing_fails_witness :
  listing_size long_listing = 65538 /\
  exists g', file_outcome (list_directory (Ok (Ok <$> long_listing)) 0) 0 listing_asked = (g', Err (Some (mkControlError Stage_File Class_Protocol))) /\
    flag (g_channel g') = true.
Proof.
  split; [vm_compute; reflexivity | ].
  eapply (long_listing_fails listing_asked demo_operation long_listing 0); [reflexivity | | vm_compute; discriminate | vm_compute; reflexivity | reflexivity].
  apply (bool_decide_unpack (Forall entry_ok long_listing)). vm_compute. exact I.
Defined.
End ControlDemo.
